(* ===== verification/_CoqProject ===== *)
-Q . S2P
Prelude.v
RustStr.v
Cursor.v
Token.v
Tokenizer.v
TokenizerProps.v
Statement.v
Lexer.v
LexerProps.v
Precedence.v
NaslValue.v
Errors.v
Register.v
Executor.v
Operator.v
Interpreter.v
InterpreterProps.v
InterpreterTheorems.v
FnArgs.v
Files.v
StringFns.v
StringFnsProps.v
Text.v
Addr.v
ValueFns.v
Nvt.v
Storage.v
StorageProps.v
Redis.v
RedisProps.v
ContextFns.v
Sockets.v
SocketsProps.v
Ssh.v
Crypto.v
DescriptionFns.v
Frames.v
Packets.v
PacketLaws.v
PacketsProps.v
FnProps.v
Models.v
Scheduling.v
SchedulingProps.v
PlanProps.v
PlanTheorems.v
HostInfo.v
Scanner.v
ScannerProps.v
ScanStatus.v
Crypt.v
ScanStore.v
DaemonInstances.v
FileStore.v
FileStoreProps.v
ScanStoreProps.v
Scheduler.v
SchedulerProps.v
SchedulerTheorems.v
FileScans.v
FileScansProps.v
Osp.v
Openvas.v
OpenvasProps.v
RedisStore.v
Packages.v
PackagesProps.v
Notus.v
NotusProps.v
FeedVerify.v
NotusLoaders.v
FeedVerifyProps.v
FeedUpdate.v
FeedUpdateProps.v
Transpile.v
TranspileProps.v
Entry.v
EntryProps.v
EntryTheorems.v
Scannerctl.v
