(* ===== verification/Prelude.v ===== *)
(** * openvas-scanner: the core of the Rust scanner

    The repository holds the OpenVAS scanner in C and its successor in Rust
    ([rust/src]).  This library models the parts of the Rust code that carry the
    program's own logic and proves what makes them correct.

    ** The program and how its parts interact

    Vulnerability tests are scripts in the language NASL.  A script is read by a
    loader, cut into tokens ([nasl/syntax/token.rs] over [cursor.rs]), parsed into
    statements ([lexer.rs] and its extensions) and run statement by statement by the
    interpreter ([nasl/interpreter]), which keeps variables and functions in a
    register of scopes ([nasl/utils/context.rs]), computes with NASL values
    ([naslvalue.rs]) and calls builtin functions through an executor
    ([nasl/utils/executor]).  A builtin may return several values; the interpreter then
    forks the run.

    A feed is a directory of scripts with a file of hash sums.  An update ([feed/update])
    checks each script against its sum ([feed/verify]), runs it in description mode and
    stores the metadata it declares ([storage/item.rs]) in a storage ([storage/mod.rs]).
    For a scan, the scheduling ([scheduling/]) closes the requested tests under their
    dependencies and orders them in stages and waves; the scanner ([scanner/]) runs them
    host by host, each only if the knowledge base in the storage allows it, and keeps the
    progress of the hosts ([models/host_info.rs]).

    The daemon openvasd answers HTTP requests ([openvasd/controller/entry.rs]), keeps
    scans with encrypted credentials and their results ([openvasd/storage/inmemory.rs],
    [crypt.rs]), and queues and starts them ([openvasd/scheduling.rs]) on a scanner.
    Independently of scripts, Notus ([notus/]) compares the installed packages of a host
    with the fixed packages of the feed: it loads products through a loader, checks the
    signature of the feed, and reports vulnerable packages.

    ** The files

    - [Prelude]: outcomes of Rust code ([Ok], [Err], [Panic], [OutOfFuel]), the state and
      error monad [M], weakest preconditions, the fuel order, machine integers.
    - [RustStr]: the part of [char] and [str] the code uses, on the code points 0 to 255.
    - [Cursor], [Token], [Tokenizer]: the tokenizer; [TokenizerProps] its theorems.
    - [Statement], [Lexer]: statements and the parser; [LexerProps] and [Precedence]
      their theorems.
    - [NaslValue], [Errors]: values and errors, with their conversions.
    - [Register]: scopes, with the invariant [Register.wf]; [ext] relates registers
      before and after a computation.
    - [Executor]: the builtin functions by name, and the class [Host] of everything the
      interpreter gets from outside (builtin bodies, loader, regular expressions,
      iteration order of hash maps, byte order, build profile).
    - [Operator], [Interpreter]: the interpreter; [InterpreterProps] (the invariant by
      induction on fuel; fuel is irrelevant), [InterpreterTheorems].
    - [FnArgs]: arguments and results of builtin functions ([nasl/utils/function] and the
      checks of the macro); [StringFns], [ValueFns], [ContextFns], [DescriptionFns]: the
      functions on strings, on arrays, values and patterns, on the context of a run, and
      of the description, with all of them as the executor of a run;
      [StringFnsProps], [FnProps].
    - [Addr]: the bytes of integers and IP addresses with their texts.  [Frames]: Ethernet
      frames and ARP requests ([nasl/builtin/raw_ip/frame_forgery.rs]) and the utilities of
      [raw_ip_utils.rs], against the class [RawNet] of the network of the machine, with
      their theorems; [Packets]: the packets and the sending of [packet_forgery.rs], against
      the class [Pnet] of the views of packets; [PacketLaws]: the documented laws of these
      views ([PnetLaws]), the checksum of RFC 1071 and an instance that reads and writes
      the bit fields of the headers; [PacketsProps] the theorems.
    - [Sockets]: the table of sockets, TCP, UDP and TLS connections and the functions about
      the network ([nasl/builtin/network]), against the classes [SocketNet] of the operating
      system and [TlsLib] of the TLS library; [SocketsProps] their theorems.
    - [Ssh]: the table of SSH sessions and the functions on them ([nasl/builtin/ssh]) against
      the class [SshBackend], whose instances are the code for libssh and that for russh, on
      top of the classes [LibSsh] and [RuSsh] of these libraries; with their theorems.
    - [Crypto]: ciphers, digests and signatures as scripts use them and the table of stream
      ciphers ([nasl/builtin/cryptographic]), against the classes [CryptoLib] and [Rc4Lib] of
      the libraries with their laws [ModeLaws] and [Rc4Laws]; with theorems and RC4.
    - [Nvt]: the metadata of a test, its fields and keys ([storage/item.rs], with the
      times of [storage/time.rs]); [Storage]: the in-memory store, retrievers and the
      collecting dispatcher ([storage/mod.rs], [retrieve.rs]); [StorageProps].
    - [Models]: scans, targets, credentials and ports ([models/]).
    - [Scheduling]: stages, dependencies and waves, against the class [Retriever];
      [SchedulingProps], [PlanProps] and [PlanTheorems] what a plan contains and its order.
    - [HostInfo], [Scanner]: progress of hosts, the run of scripts and of scans on a
      [ScannerStack]; [ScannerProps], [ScanStatus] the gate, the order and the status.
    - [Crypt], [ScanStore]: encrypted credentials and the store of the daemon;
      [DaemonInstances] instances of its libraries to evaluate; [ScanStoreProps].
    - [Scheduler]: the queue of scans, against the classes [Database] and [ScanRunner];
      [SchedulerProps], [SchedulerTheorems] (also interleaved requests and the feed task).
    - [FileStore]: records in files with their ranges ([storage/infisto]), with a cache and
      encrypted, on a disk of files and directories whose operations may fail, behind the class
      [IndexedByteStorage]; [FileStoreProps] its refinement of a map; [FileScans] the
      daemon's store of scans on it ([openvasd/storage/file.rs]); [FileScansProps].
    - [Text]: splitting and joining of strings and reading of numbers, as the clients of
      other programs use them.
    - [Redis]: databases of a Redis server, tests and advisories in them
      ([storage/redis]), against the class [RedisServer] with the documented answers of
      [RedisLaws]; [RedisProps], with a server to evaluate.
    - [Osp]: commands, answers and the scanner over OSP ([osp/]), as a [ScanRunner],
      with theorems.
    - [Openvas]: the preferences of a scan, its results and the scanner that starts the C
      program ([openvas/]), as a [ScanRunner], against the classes [KbAccess] and
      [VtHelper]; [OpenvasProps], with [KbLaws] and its instance for Redis.
    - [RedisStore]: the daemon's store of tests over Redis ([openvasd/storage/redis.rs])
      and its theorems.
    - [Transpile]: the rewriting of scripts ([feed/transpile]); [TranspileProps].
    - [Scannerctl]: the command [start_scan] of ospd as scannerctl prints, reads and transforms
      it, and scan configurations ([scannerctl/osp], [scannerctl/scanconfig.rs]), with theorems.
    - [Packages]: versions and the five package types ([notus/packages]), with the class
      [NotusRegex] for the regular expressions; [PackagesProps] their order.
    - [Notus]: products, tests, the comparison and the scanner with its cache
      ([notus/vts.rs], [notus/notus.rs]), against the class [ProductLoader];
      [NotusProps] what a scan reports.
    - [Files]: files of a [Directory] and the script loader ([nasl/syntax/loader.rs]);
      [FeedVerify]: hash sums and signatures; [NotusLoaders]: the product and advisory
      loaders ([notus/loader]) as instances of [ProductLoader]; [FeedVerifyProps].
    - [FeedUpdate]: the update of a feed and the search for identifiers ([feed/oid]);
      [FeedUpdateProps].
    - [Entry]: paths, identities, handlers and answers of the daemon; [EntryProps],
      [EntryTheorems] who may see what.

    ** How code is modelled

    A method with [&mut self] is a function of the monad [M]: the receiver is threaded
    and keeps its changes when an error is returned.  A panic ([unwrap], an index out of
    range, an overflow in a checked build, [unreachable!]) is an outcome of its own, so
    that its absence is a theorem.  Integers are [Z] in the range of their type; the class
    [BuildProfile] switches overflow checks, and theorems hold for both builds.  A
    [HashMap] is a finite map ([gmap]); where the order of iteration matters it is a
    parameter.  Strings are lists of the code points 0 to 255, because scripts are read
    by [load_non_utf8_path], which makes every byte one character.  Logging ([tracing])
    has no counterpart.  Awaited calls run one after the other; where tasks interleave
    (requests and the background tasks of the daemon), the sections between locks are the
    steps of a relation ([SchedulerTheorems.pool_step], [SchedulerTheorems.sys_step]), and
    a lock that a panic poisons stays poisoned.

    What other crates do is a parameter: a class with the functions the code calls and
    the documented laws it relies on (regular expressions, digests, OpenPGP, ciphers,
    base64, JSON, date formats), each with an instance that shows that the laws can hold.

    Definitions keep the names of the source where possible.  Loops over a collection are
    structural; [loop] and [while] and the recursion of the parser and of the interpreter
    take fuel.  The tokenizer and the parser get one unit for each character that is left
    and one more, and [TokenizerProps.tokenize_total] and [LexerProps.parse_total] show
    that this is enough for every text.  A NASL script need not terminate, so the
    interpreter has no sufficient fuel in general; [InterpreterProps.script_fuel_irrelevant]
    shows that whatever is seen with some fuel is seen with every larger amount.  A hash is
    computed with one unit of fuel for each byte, a search in a sums file with one for each
    line and one more; with a sums file that cannot be read the searches have no sufficient
    fuel, which is a theorem ([FeedVerifyProps.unreadable_sums_hang]).  The loops that wait for
    the peer of a socket take any fuel: [SocketsProps.recv_returns] and
    [SocketsProps.ftp_answer_read] say how much is enough and when none is, as
    [Ssh.command_output], [Ssh.read_timeout_reads] and [Ssh.refused_userauth_hangs] do for the
    loops that wait for an SSH server.

    ** What the theorems show

    - Syntax: tokenizing and parsing return on every text without a panic; tokens print
      and tokenize back; expressions are parsed with the precedence and associativity of
      the manual, except for chains of powers; what the recursion bound silently drops.
    - Values and registers: storage round trip, order, nearest enclosing binding,
      assignment, isolation of calls.
    - Interpreter: every statement keeps the registers well-formed and the scopes
      balanced; calls cannot touch the scopes of their callers; errors have an origin;
      retries are bounded; forks multiply the runs; assignments to variables and to
      elements do what they say; the numbers of the model stay in the range of [i64].
    - Builtin functions: their checks never panic, their values are well typed; sorting,
      splitting and hexadecimal digits; the knowledge base as scripts see it; a function of
      the description stores all its fields or none; where a global becomes an argument.
    - Packets and frames: what is forged is read back field by field, cut to the widths of
      the fields, and which fields differ from the documentation; headers and segments carry valid checksums; nothing is sent to hosts that
      are not scanned; frames and their bytes are inverse; what an unanswered ping, an option
      of a header and a documented argument come to.
    - Sockets: the table takes every new socket and finds it again; descriptors keep their
      sockets until one is closed, and how the others lose theirs; when [recv] returns and
      when it never does; how often a connection is tried; answers of FTP servers; which
      hosts are in the local network.
    - SSH: which numbers sessions get and that the table keeps them; how the output of a
      command is put together; which authentications succeed or never end.
    - Cryptography: decrypting gives back what was encrypted; which lengths panic; which
      bytes are hashed; a stream cipher keeps its number and its place in the stream.
    - Storage: the knowledge base behaves like a map of lists; a description run collects
      the declared fields.
    - Scheduling and scanner: a plan contains the requested tests and all they depend on,
      dependencies first, and is handed out completely; a scan that is not stopped runs them
      all in such an order; a script runs exactly if its keys and ports allow it; how progress
      follows the finished scripts.
    - Daemon: queued and running scans are distinct and within the limits, also for
      interleaved requests; a stored scan is handed out as it was requested; only its
      creator can use a scan; a scan is answered with stars for its passwords and keys; which
      scans get lost or stuck, and when a feed update waits for ever.
    - Files on disk: for keys that are names of files the store of records is a map of lists,
      the cache does not change it, the store of scans keeps what it was given; what a key
      with a slash, a failed write, an empty append, a reversed range and a feed update do.
    - Redis: what reading a stored test gives back; which advisories are not replaced; a
      free database was nobody else's and stays its holder's.
    - OSP: every command is the serialization of one tree; what a scan loses on the way;
      the range of ports and of the number of queued hosts.
    - Openvas: exactly the requested preferences are written; running scans own their
      databases whatever fails; which starts lose one.
    - The store over Redis: which tests are found, and which calls keep a database.
    - Rewriting: changes one by one are all changes at once; renaming; no errors.
    - scannerctl: which ports, methods and credentials of a target are left when it is printed
      as the children of an element and read again; which tests a scan configuration adds, and
      that exclusions make no difference.
    - Feed: only scripts and products of the listed hash are used, whatever the sizes of
      the reads; an update is the run of the listed scripts in order; when it never ends.
    - Packages: the order on versions is a strict order, compares numbers by value and
      sorts a tilde first; when it is undefined; how packages differ from it.
    - Notus: a scan reports exactly the vulnerable packages; products in use were loaded
      under a verified signature when signatures are checked; what happens to the cache.

    ** What is not modelled

    The builtin functions for times, certificates, HTTP and
    processes, which mostly call third-party libraries; the JSON back end of the storage; the
    configuration, TLS setup and start of the daemon; the command line of scannerctl; the C scanner.

    ** Order of extension

    What is left mostly calls libraries. *)

From Stdlib Require Export ZArith Lia Ascii String Strings.Byte.
From stdpp Require Export base tactics strings pretty gmap list.

#[export] Set Default Goal Selector "!".

(** ** Outcomes of Rust code

    A call of a Rust function returns ([Ok]), returns the error of its
    [Result] ([Err]), panics, or, for the loops and the recursion that the
    model bounds by fuel, has not been run far enough to tell. *)

Inductive outcome (E A : Type) : Type :=
| Ok (a : A)
| Err (e : E)
| Panic
| OutOfFuel.
Arguments Ok {E A} a.
Arguments Err {E A} e.
Arguments Panic {E A}.
Arguments OutOfFuel {E A}.

#[global] Instance outcome_ret {E} : MRet (outcome E) := fun A a => Ok a.
#[global] Instance outcome_bind {E} : MBind (outcome E) := fun A B f o =>
  match o with
  | Ok a => f a
  | Err e => Err e
  | Panic => Panic
  | OutOfFuel => OutOfFuel
  end.

(** The code of a method that takes [&mut self]: the receiver is threaded, and
    it keeps the changes made before an error is returned. *)
Definition M (S E A : Type) : Type := S -> outcome E A * S.

Section Monad.
Context {S E : Type}.

#[global] Instance M_ret : MRet (M S E) := fun A a s => (Ok a, s).

#[global] Instance M_bind : MBind (M S E) := fun A B f m s =>
  match m s with
  | (Ok a, s') => f a s'
  | (Err e, s') => (Err e, s')
  | (Panic, s') => (Panic, s')
  | (OutOfFuel, s') => (OutOfFuel, s')
  end.

Definition get : M S E S := fun s => (Ok s, s).
Definition gets {A} (f : S -> A) : M S E A := fun s => (Ok (f s), s).
Definition put (s' : S) : M S E unit := fun _ => (Ok tt, s').
Definition modify (f : S -> S) : M S E unit := fun s => (Ok tt, f s).
Definition throw {A} (e : E) : M S E A := fun s => (Err e, s).
Definition panic {A} : M S E A := fun s => (Panic, s).
Definition out_of_fuel {A} : M S E A := fun s => (OutOfFuel, s).

(** [Option::ok_or_else(..)?] *)
Definition ok_or {A} (o : option A) (e : E) : M S E A :=
  match o with Some a => mret a | None => throw e end.

(** [unwrap] and indexing: [None] panics. *)
Definition or_panic {A} (o : option A) : M S E A :=
  match o with Some a => mret a | None => panic end.

(** [Result::map_err] applied to the result of a call. *)
Definition map_err {A} (f : E -> E) (m : M S E A) : M S E A := fun s =>
  match m s with
  | (Err e, s') => (Err (f e), s')
  | r => r
  end.

(** A call whose [Result] is kept as a value, and going on with such a value. *)
Definition attempt {A} (m : M S E A) : M S E (A + E) := fun s =>
  match m s with
  | (Ok a, s') => (Ok (inl a), s')
  | (Err e, s') => (Ok (inr e), s')
  | (Panic, s') => (Panic, s')
  | (OutOfFuel, s') => (OutOfFuel, s')
  end.

Definition of_result {A} (r : A + E) : M S E A :=
  match r with inl a => mret a | inr e => throw e end.

(** An outcome computed without the state. *)
Definition of_outcome {A} (o : outcome E A) : M S E A := fun s => (o, s).

(** An outcome that cannot be an error. *)
Definition of_total {A} (o : outcome Empty_set A) : M S E A := fun s =>
  match o with
  | Ok a => (Ok a, s)
  | Err e => match e with end
  | Panic => (Panic, s)
  | OutOfFuel => (OutOfFuel, s)
  end.
End Monad.

(** The [From] conversion of the error of a call that [?] applies. *)
Definition err_into {S E E' A} (f : E -> E') (m : M S E A) : M S E' A := fun s =>
  match m s with
  | (Ok a, s') => (Ok a, s')
  | (Err e, s') => (Err (f e), s')
  | (Panic, s') => (Panic, s')
  | (OutOfFuel, s') => (OutOfFuel, s')
  end.

(** An invariant of a loop over a list. *)
Lemma foldl_ind_inv {A B} (P : A -> Prop) (f : A -> B -> A) l a :
  P a -> (forall a b, P a -> P (f a b)) -> P (foldl f a l).
Proof. intros Ha Hf. revert a Ha. induction l as [|b l IH]; intros a Ha; simpl; auto. Qed.

(** ** Weakest preconditions

    [wp m Q s]: the run of [m] from [s] ends in an outcome and a state that
    satisfy [Q]. *)
Definition wp {S E A} (m : M S E A) (Q : outcome E A -> S -> Prop) (s : S) : Prop :=
  Q (m s).1 (m s).2.
Arguments wp : simpl never.

(** How a postcondition is carried over a bind: a value goes on to the
    continuation, everything else leaves the function. *)
Definition bind_post {S E A B} (f : A -> M S E B) (Q : outcome E B -> S -> Prop)
  (o : outcome E A) (s : S) : Prop :=
  match o with
  | Ok a => wp (f a) Q s
  | Err e => Q (Err e) s
  | Panic => Q Panic s
  | OutOfFuel => Q OutOfFuel s
  end.

Section WpRules.
Context {S E : Type}.

Lemma wp_ret {A} (a : A) (Q : outcome E A -> S -> Prop) s :
  Q (Ok a) s -> wp (mret a) Q s.
Proof. done. Qed.

Lemma wp_gets {A} (f : S -> A) (Q : outcome E A -> S -> Prop) s :
  Q (Ok (f s)) s -> wp (gets f) Q s.
Proof. done. Qed.

Lemma wp_modify f (Q : outcome E unit -> S -> Prop) s :
  Q (Ok tt) (f s) -> wp (modify f) Q s.
Proof. done. Qed.

Lemma wp_throw {A} e (Q : outcome E A -> S -> Prop) s :
  Q (Err e) s -> wp (throw e) Q s.
Proof. done. Qed.

Lemma wp_bind {A B} (m : M S E A) (f : A -> M S E B) Q s :
  wp m (bind_post f Q) s -> wp (m ≫= f) Q s.
Proof.
  unfold wp, mbind, M_bind, bind_post. by destruct (m s) as [[] s'].
Qed.

Lemma wp_mono {A} (m : M S E A) (Q Q' : outcome E A -> S -> Prop) s :
  wp m Q s -> (forall o s', Q o s' -> Q' o s') -> wp m Q' s.
Proof. unfold wp. auto. Qed.

Lemma wp_map_err {A} f (m : M S E A) Q s :
  wp m (fun o s' => match o with Err e => Q (Err (f e)) s' | _ => Q o s' end) s ->
  wp (map_err f m) Q s.
Proof. unfold wp, map_err. by destruct (m s) as [[] s']. Qed.

Lemma wp_get (Q : outcome E S -> S -> Prop) s : Q (Ok s) s -> wp get Q s.
Proof. done. Qed.

Lemma wp_put s' (Q : outcome E unit -> S -> Prop) s : Q (Ok tt) s' -> wp (put s') Q s.
Proof. done. Qed.

Lemma wp_panic {A} (Q : outcome E A -> S -> Prop) s : Q Panic s -> wp panic Q s.
Proof. done. Qed.

Lemma wp_attempt {A} (m : M S E A) Q s :
  wp m (fun o s' => match o with
        | Ok a => Q (Ok (inl a)) s' | Err e => Q (Ok (inr e)) s'
        | Panic => Q Panic s' | OutOfFuel => Q OutOfFuel s' end) s ->
  wp (attempt m) Q s.
Proof. unfold wp, attempt. by destruct (m s) as [[] s']. Qed.

Lemma bind_ok {A B} (m : M S E A) (f : A -> M S E B) a s s' :
  m s = (Ok a, s') -> (m ≫= f) s = f a s'.
Proof. unfold mbind, M_bind. by intros ->. Qed.

Lemma wp_elim {A} (m : M S E A) Q s o s' : wp m Q s -> m s = (o, s') -> Q o s'.
Proof. unfold wp. intros H Hm. by rewrite Hm in H. Qed.
End WpRules.

(** ** The fuel order

    [fuel_le m m']: wherever [m] does not run out of fuel, [m'] does the same. *)
Definition fuel_le {S E A} (m m' : M S E A) : Prop :=
  forall s, (m s).1 = OutOfFuel \/ m s = m' s.

Section FuelOrder.
Context {S E : Type}.

#[global] Instance fuel_le_refl {A} : Reflexive (@fuel_le S E A).
Proof. intros m s. by right. Qed.

#[global] Instance fuel_le_trans {A} : Transitive (@fuel_le S E A).
Proof.
  intros m1 m2 m3 H12 H23 s. destruct (H12 s) as [H|H]; [by left|].
  rewrite H. apply H23.
Qed.

Lemma fuel_le_bind {A B} (m m' : M S E A) (f f' : A -> M S E B) :
  fuel_le m m' -> (forall a, fuel_le (f a) (f' a)) -> fuel_le (m ≫= f) (m' ≫= f').
Proof.
  intros Hm Hf s. unfold mbind, M_bind. destruct (Hm s) as [H|H].
  - left. destruct (m s) as [[] s']; simpl in *; congruence.
  - rewrite <- H. destruct (m s) as [[] s']; [apply Hf|by right..].
Qed.

Lemma fuel_le_map_err {A} g (m m' : M S E A) :
  fuel_le m m' -> fuel_le (map_err g m) (map_err g m').
Proof.
  intros Hm s. unfold map_err. destruct (Hm s) as [H|H].
  - left. destruct (m s) as [[] s']; simpl in *; congruence.
  - right. by rewrite H.
Qed.

Lemma fuel_le_attempt {A} (m m' : M S E A) :
  fuel_le m m' -> fuel_le (attempt m) (attempt m').
Proof.
  intros Hm s. unfold attempt. destruct (Hm s) as [H|H].
  - left. destruct (m s) as [[] s']; simpl in *; congruence.
  - right. by rewrite H.
Qed.

Lemma fuel_le_out {A} (m : M S E A) : fuel_le out_of_fuel m.
Proof. intros s. by left. Qed.
End FuelOrder.

(** ** Machine integers

    Rust integers are kept as [Z] in the range of their type.  In a build with
    overflow checks an arithmetic result that leaves the range panics; in a
    build without them it wraps.  [overflow_checks] is the switch
    [-C overflow-checks], so every statement below covers both builds. *)
Class BuildProfile := { overflow_checks : bool }.

Definition debug_build : BuildProfile := {| overflow_checks := true |}.
Definition release_build : BuildProfile := {| overflow_checks := false |}.

Definition wrap_u (w z : Z) : Z := z mod 2 ^ w.
Definition wrap_i (w z : Z) : Z := (z + 2 ^ (w - 1)) mod 2 ^ w - 2 ^ (w - 1).

Definition in_u (w z : Z) : bool := (0 <=? z)%Z && (z <? 2 ^ w)%Z.
Definition in_i (w z : Z) : bool := (- 2 ^ (w - 1) <=? z)%Z && (z <? 2 ^ (w - 1))%Z.

Definition i64_min : Z := (- 2 ^ 63)%Z.
Definition i64_max : Z := (2 ^ 63 - 1)%Z.

Section Arith.
Context `{BuildProfile}.

(** The result of [a op b] on [iN]/[uN]; [None] is the overflow panic. *)
Definition arith_i (w z : Z) : option Z :=
  if in_i w z then Some z else if overflow_checks then None else Some (wrap_i w z).
Definition arith_u (w z : Z) : option Z :=
  if in_u w z then Some z else if overflow_checks then None else Some (wrap_u w z).

(** Shift amounts must be below the width: checked builds panic, unchecked
    builds mask the amount. *)
Definition shift_amount (w k : Z) : option Z :=
  if (0 <=? k)%Z && (k <? w)%Z then Some k
  else if overflow_checks then None else Some (k mod w)%Z.

Definition shl_i (w a k : Z) : option Z :=
  (fun n => wrap_i w (Z.shiftl a n)) <$> shift_amount w k.
Definition shr_i (w a k : Z) : option Z := (fun n => Z.shiftr a n) <$> shift_amount w k.
Definition shl_u (w a k : Z) : option Z :=
  (fun n => wrap_u w (Z.shiftl a n)) <$> shift_amount w k.
Definition shr_u (w a k : Z) : option Z := (fun n => Z.shiftr a n) <$> shift_amount w k.

(** Division and remainder panic on a zero divisor and on [MIN / -1] in every
    build. *)
Definition div_i (w a b : Z) : option Z :=
  if (b =? 0)%Z then None else if in_i w (Z.quot a b) then Some (Z.quot a b) else None.
Definition rem_i (w a b : Z) : option Z :=
  if (b =? 0)%Z then None
  else if in_i w (Z.quot a b) then Some (Z.rem a b) else None.
End Arith.

Lemma in_i_spec w z : in_i w z = true <-> (- 2 ^ (w - 1) <= z < 2 ^ (w - 1))%Z.
Proof. unfold in_i. rewrite andb_true_iff, Z.leb_le, Z.ltb_lt. lia. Qed.

Lemma in_u_spec w z : in_u w z = true <-> (0 <= z < 2 ^ w)%Z.
Proof. unfold in_u. rewrite andb_true_iff, Z.leb_le, Z.ltb_lt. lia. Qed.

Lemma wrap_i_range w z : (0 < w)%Z -> in_i w (wrap_i w z) = true.
Proof.
  intros Hw. apply in_i_spec. unfold wrap_i.
  assert (2 ^ w = 2 * 2 ^ (w - 1))%Z as E.
  { rewrite <- Z.pow_succ_r by lia. f_equal. lia. }
  assert (0 < 2 ^ (w - 1))%Z by (apply Z.pow_pos_nonneg; lia).
  pose proof (Z.mod_pos_bound (z + 2 ^ (w - 1)) (2 ^ w)). lia.
Qed.

Lemma wrap_i_id w z : (0 < w)%Z -> in_i w z = true -> wrap_i w z = z.
Proof.
  intros Hw Hz%in_i_spec. unfold wrap_i.
  assert (2 ^ w = 2 * 2 ^ (w - 1))%Z as E.
  { rewrite <- Z.pow_succ_r by lia. f_equal. lia. }
  rewrite Z.mod_small; lia.
Qed.

Lemma arith_i_range `{BuildProfile} w z r :
  (0 < w)%Z -> arith_i w z = Some r -> in_i w r = true.
Proof.
  intros Hw. unfold arith_i. destruct (in_i w z) eqn:Hin; [congruence|].
  destruct overflow_checks; [done|]. intros [= <-]. by apply wrap_i_range.
Qed.

(** ** Tactics of the development *)

(** Split every conjunction and existential hypothesis, substitute, and try the
    arithmetic solver. *)
Ltac crush := repeat (simplify_eq/=; destruct_and?; try done); try lia; auto.

(** Case analysis on the match or [if] that blocks the goal. *)
Ltac case_goal :=
  match goal with
  | |- context [match ?x with _ => _ end] =>
      lazymatch x with context [match _ with _ => _ end] => fail | _ => destruct x eqn:? end
  end.
