(* ===== verification/RustStr.v ===== *)
(** * Text: the part of Rust's [char] and [str] the scanner uses

    NASL sources are read by [load_non_utf8_path], which maps every byte of a
    file to the [char] of the same number, and values of type [Data] are shown
    the same way.  So the characters of the modelled programs are the code
    points 0 to 255, one [ascii] each, and the classification functions below
    are those of Unicode on this range.  A [&str] is stored as UTF-8: a
    character below 128 takes one byte, the others take two. *)

From S2P Require Import Prelude.
Local Open Scope N_scope.

Definition char := ascii.
Definition chars_of (s : string) : list char := list_ascii_of_string s.
Definition string_of (l : list char) : string := string_of_list_ascii l.

Lemma string_of_chars s : string_of (chars_of s) = s.
Proof. apply string_of_list_ascii_of_string. Qed.
Lemma chars_of_string l : chars_of (string_of l) = l.
Proof. apply list_ascii_of_string_of_list_ascii. Qed.

Lemma chars_of_app s t : chars_of (s +:+ t) = chars_of s ++ chars_of t.
Proof. induction s as [|c s IH]; simpl; [done|by f_equal]. Qed.

Definition code (c : char) : N := N_of_ascii c.
Definition in_range (lo hi n : N) : bool := (lo <=? n) && (n <=? hi).

(** [char::is_ascii_digit], [is_ascii_hexdigit], [is_whitespace] (the
    [White_Space] characters), [is_alphabetic] ([Alphabetic]) and [is_numeric]
    (general categories [Nd], [Nl], [No]). *)
Definition is_ascii_digit (c : char) : bool := in_range 48 57 (code c).
Definition is_ascii_hexdigit (c : char) : bool :=
  is_ascii_digit c || in_range 65 70 (code c) || in_range 97 102 (code c).
Definition is_whitespace (c : char) : bool :=
  let n := code c in in_range 9 13 n || (n =? 32) || (n =? 133) || (n =? 160).
Definition is_ascii_alphabetic (c : char) : bool :=
  in_range 65 90 (code c) || in_range 97 122 (code c).
Definition is_alphabetic (c : char) : bool :=
  let n := code c in
  is_ascii_alphabetic c || (n =? 170) || (n =? 181) || (n =? 186)
  || in_range 192 214 n || in_range 216 246 n || in_range 248 255 n.
Definition is_numeric (c : char) : bool :=
  let n := code c in
  is_ascii_digit c || (n =? 178) || (n =? 179) || (n =? 185) || in_range 188 190 n.

(** [char::to_lowercase] on the range: 32 is added to the capital letters. *)
Definition to_lowercase (c : char) : char :=
  let n := code c in
  if in_range 65 90 n || in_range 192 214 n || in_range 216 222 n
  then ascii_of_N (n + 32) else c.

Definition newline : char := "010"%char.
Definition EOF_CHAR : char := "000"%char.
Definition dquote : char := "034"%char.
Definition squote : char := "'"%char.
Definition backslash : char := "\"%char.

(** ** UTF-8 *)

Local Open Scope nat_scope.

Definition utf8_len (c : char) : nat := if N.ltb (code c) 128 then 1 else 2.

(** The bytes [str::as_bytes] gives for one character. *)
Definition byte_of_N (n : N) : byte := default x00 (Byte.of_N n).
Definition utf8_encode (c : char) : list byte :=
  if N.ltb (code c) 128 then [byte_of_N (code c)]
  else [byte_of_N (192 + N.div (code c) 64); byte_of_N (128 + N.modulo (code c) 64)].

(** [str::len] *)
Fixpoint len_utf8 (l : list char) : nat :=
  match l with [] => 0 | c :: l' => utf8_len c + len_utf8 l' end.

Definition as_bytes (l : list char) : list byte := l ≫= utf8_encode.

(** [b as char] for a byte. *)
Definition byte_as_char (b : byte) : char := ascii_of_byte b.

(** [&s[start..end]]: the offsets are byte offsets and must fall on character
    boundaries, with [start <= end <= len]; otherwise the slice panics ([None]). *)
Fixpoint drop_bytes (n : nat) (l : list char) : option (list char) :=
  match n with
  | 0 => Some l
  | _ => match l with
         | [] => None
         | c :: l' => if utf8_len c <=? n then drop_bytes (n - utf8_len c) l' else None
         end
  end.

Fixpoint take_bytes (n : nat) (l : list char) : option (list char) :=
  match n with
  | 0 => Some []
  | _ => match l with
         | [] => None
         | c :: l' =>
             if utf8_len c <=? n then cons c <$> take_bytes (n - utf8_len c) l' else None
         end
  end.

Definition slice (l : list char) (start stop : nat) : option (list char) :=
  if start <=? stop then drop_bytes start l ≫= take_bytes (stop - start) else None.

(** ** Searching and replacing *)

Fixpoint starts_with (p l : list char) : bool :=
  match p, l with
  | [], _ => true
  | _, [] => false
  | a :: p', b :: l' => Ascii.eqb a b && starts_with p' l'
  end.

(** [str::contains] with a string pattern. *)
Fixpoint contains (l p : list char) : bool :=
  starts_with p l || match l with [] => false | _ :: l' => contains l' p end.

(** The matches of a pattern are found from left to right and do not overlap;
    the empty pattern matches at every boundary.  [skip] counts the characters
    of the match that is being removed, [n] the replacements still allowed. *)
Fixpoint replace_go (p r : list char) (skip n : nat) (l : list char) : list char :=
  match l with
  | [] => match skip, n, p with 0, S _, [] => r | _, _, _ => [] end
  | c :: l' =>
      match skip with
      | S k => replace_go p r k n l'
      | 0 =>
          match n with
          | 0 => l
          | S m =>
              if starts_with p l then
                match p with
                | [] => r ++ c :: replace_go p r 0 m l'
                | _ :: p' => r ++ replace_go p r (length p') m l'
                end
              else c :: replace_go p r 0 n l'
          end
      end
  end.

(** [str::replacen] and [str::replace]. *)
Definition replacen (l p r : list char) (n : nat) : list char := replace_go p r 0 n l.
Definition replace (l p r : list char) : list char := replace_go p r 0 (S (length l)) l.

(** [str::trim], [str::trim_start_matches(c)] *)
Fixpoint drop_while (f : char -> bool) (l : list char) : list char :=
  match l with [] => [] | c :: l' => if f c then drop_while f l' else l end.
Fixpoint take_while (f : char -> bool) (l : list char) : list char :=
  match l with [] => [] | c :: l' => if f c then c :: take_while f l' else [] end.
Definition trim_start (l : list char) : list char := drop_while is_whitespace l.
Definition trim (l : list char) : list char :=
  rev (drop_while is_whitespace (rev (trim_start l))).

(** [Ord for str]: UTF-8 bytes compared lexicographically, which on the range
    is the order of the code points. *)
Fixpoint str_cmp (a b : list char) : comparison :=
  match a, b with
  | [], [] => Eq
  | [], _ => Lt
  | _, [] => Gt
  | x :: a', y :: b' =>
      match N.compare (code x) (code y) with Eq => str_cmp a' b' | c => c end
  end.

(** ** Numbers *)

(** [char::to_digit] for the radixes 2, 8, 10 and 16. *)
Definition to_digit (radix : Z) (c : char) : option Z :=
  let n := Z.of_N (code c) in
  let d := if in_range 48 57 (code c) then Some (n - 48)%Z
           else if in_range 65 90 (code c) then Some (n - 55)%Z
           else if in_range 97 122 (code c) then Some (n - 87)%Z else None in
  d ≫= fun v => if (v <? radix)%Z then Some v else None.

Fixpoint digits_value (radix acc : Z) (l : list char) : option Z :=
  match l with
  | [] => Some acc
  | c :: l' => to_digit radix c ≫= fun d => digits_value radix (acc * radix + d)%Z l'
  end.

Definition parse_digits (radix : Z) (neg : bool) (l : list char) : option Z :=
  match l with
  | [] => None
  | _ => digits_value radix 0 l ≫= fun v =>
         let z := if neg then (- v)%Z else v in
         if in_i 64 z then Some z else None
  end.

(** [i64::from_str_radix]: an optional sign, at least one digit, and a value in
    range. *)
Definition i64_from_str_radix (l : list char) (radix : Z) : option Z :=
  match l with
  | c :: l' =>
      if Ascii.eqb c "-"%char then parse_digits radix true l'
      else if Ascii.eqb c "+"%char then parse_digits radix false l'
      else parse_digits radix false l
  | [] => None
  end.

(** [u64::from_str]: an optional plus sign, digits, a value below 2^64. *)
Definition u64_from_str (l : list char) : option Z :=
  let ds := match l with c :: l' => if Ascii.eqb c "+"%char then l' else l | [] => [] end in
  match ds with
  | [] => None
  | _ => digits_value 10 0 ds ≫= fun v => if in_u 64 v then Some v else None
  end.

(** [i64::to_string] and the like. *)
Definition show_Z (z : Z) : list char := chars_of (pretty z).

(** ** Lemmas *)

Lemma utf8_len_pos c : 1 <= utf8_len c.
Proof. unfold utf8_len. destruct (N.ltb _ _); lia. Qed.

Lemma len_utf8_app a b : len_utf8 (a ++ b) = len_utf8 a + len_utf8 b.
Proof. induction a as [|c a IH]; simpl; lia. Qed.

Lemma len_utf8_length l : length l <= len_utf8 l.
Proof. induction l as [|c l IH]; simpl; [lia|]. pose proof (utf8_len_pos c). lia. Qed.

Lemma len_utf8_zero l : len_utf8 l = 0 -> l = [].
Proof. destruct l as [|c l]; [done|]. simpl. pose proof (utf8_len_pos c). lia. Qed.

Lemma drop_bytes_app a b : drop_bytes (len_utf8 a) (a ++ b) = Some b.
Proof.
  induction a as [|c a IH]; simpl; [by destruct b|]. pose proof (utf8_len_pos c).
  destruct (utf8_len c + len_utf8 a) as [|n] eqn:E; [lia|]. rewrite <- E.
  rewrite (proj2 (Nat.leb_le _ _)) by lia.
  by replace (utf8_len c + len_utf8 a - utf8_len c) with (len_utf8 a) by lia.
Qed.

Lemma take_bytes_app a b : take_bytes (len_utf8 a) (a ++ b) = Some a.
Proof.
  induction a as [|c a IH]; simpl; [by destruct b|]. pose proof (utf8_len_pos c).
  destruct (utf8_len c + len_utf8 a) as [|n] eqn:E; [lia|]. rewrite <- E.
  rewrite (proj2 (Nat.leb_le _ _)) by lia.
  replace (utf8_len c + len_utf8 a - utf8_len c) with (len_utf8 a) by lia.
  by rewrite IH.
Qed.

(** A slice between two boundaries of the text is the text between them. *)
Lemma slice_app a b c n m :
  n = len_utf8 a -> m = len_utf8 a + len_utf8 b -> slice (a ++ b ++ c) n m = Some b.
Proof.
  intros -> ->. unfold slice. rewrite (proj2 (Nat.leb_le _ _)) by lia.
  rewrite drop_bytes_app. simpl.
  replace (len_utf8 a + len_utf8 b - len_utf8 a) with (len_utf8 b) by lia.
  apply take_bytes_app.
Qed.

Lemma drop_while_suffix f l :
  exists pre, l = pre ++ drop_while f l /\ Forall (fun c => f c = true) pre.
Proof.
  induction l as [|c l (pre & E & H)]; simpl; [by exists []|].
  destruct (f c) eqn:Hc; [|by exists []].
  exists (c :: pre). split; [simpl; by f_equal|by constructor].
Qed.

(** ** Decimal printing *)

Lemma to_digit_char d : (d < 10)%N ->
  to_digit 10 (pretty_N_char d) = Some (Z.of_N d) /\ is_ascii_digit (pretty_N_char d) = true
  /\ (pretty_N_char d = "0"%char <-> d = 0%N).
Proof.
  intros H.
  assert (d = 0 \/ d = 1 \/ d = 2 \/ d = 3 \/ d = 4 \/ d = 5 \/ d = 6 \/ d = 7
    \/ d = 8 \/ d = 9)%N as Hd by lia.
  destruct_or! Hd; subst d; repeat split; done.
Qed.

(** The digits of a positive number: no leading zero, and reading them back
    gives the number. *)
Lemma pretty_N_go_digits x : (0 < x)%N -> forall s, exists d ds,
  chars_of (pretty_N_go x s) = d :: ds ++ chars_of s /\ d <> "0"%char
  /\ Forall (fun c => is_ascii_digit c = true) (d :: ds)
  /\ forall l, digits_value 10 0 (d :: ds ++ l) = digits_value 10 (Z.of_N x) l.
Proof.
  induction (N.lt_wf_0 x) as [x _ IH]; intros Hx s. rewrite pretty_N_go_step by done.
  destruct (to_digit_char (x `mod` 10)%N) as (Hd & Hdig & Hz); [by apply N.mod_lt|].
  set (c := pretty_N_char (x `mod` 10)%N) in *.
  pose proof (N.div_mod x 10 ltac:(done)) as E.
  destruct (decide (x `div` 10 = 0)%N) as [H0|H0].
  - rewrite H0, pretty_N_go_0. exists c, []. split; [done|]. split; [rewrite Hz; lia|].
    split; [by constructor|]. intros l. cbn [digits_value app]. rewrite Hd.
    cbn [mbind option_bind]. f_equal. lia.
  - destruct (IH (x `div` 10)%N) with (s := String c s) as (d & ds & Hc & Hd0 & Hf & Hv);
      [by apply N.div_lt|by apply N.neq_0_lt_0|].
    exists d, (ds ++ [c]). rewrite <- app_assoc. split; [done|]. split; [done|].
    split; [apply (proj2 (Forall_app _ (d :: ds) [c])), conj; [done|by apply Forall_singleton]|].
    intros l. rewrite <- app_assoc. rewrite Hv. cbn [digits_value app]. rewrite Hd.
    cbn [mbind option_bind]. f_equal. lia.
Qed.

Lemma show_Z_pos z : (0 < z)%Z -> exists d ds,
  chars_of (pretty z) = d :: ds /\ d <> "0"%char
  /\ Forall (fun c => is_ascii_digit c = true) (d :: ds)
  /\ digits_value 10 0 (d :: ds) = Some z.
Proof.
  destruct z as [|p|p]; [lia| |lia]. intros _.
  destruct (pretty_N_go_digits (N.pos p) ltac:(lia) "") as (d & ds & Hc & Hd & Hf & Hv).
  exists d, ds. split; [|split; [done|split; [done|]]].
  { change (pretty (Z.pos p)) with (pretty_N_go (N.pos p) ""). by rewrite Hc, app_nil_r. }
  specialize (Hv []). by rewrite app_nil_r in Hv.
Qed.
