(* ===== verification/Cursor.v ===== *)
(** * The cursor over the source text ([nasl/syntax/cursor.rs])

    The [Chars] iterator is the list of the characters that are left. *)

From S2P Require Import Prelude RustStr.
Local Open Scope nat_scope.

Record Cursor := mkCursor {
  initial_len : nat;
  chars : list char;
  line : nat;
  col : nat;
}.

Module Cursor.
Definition new (input : list char) : Cursor := mkCursor (len_utf8 input) input 1 1.

(** The [n]-th next character, [EOF_CHAR] beyond the end. *)
Definition peek (c : Cursor) (n : nat) : char := default EOF_CHAR (chars c !! n).

Definition advance (c : Cursor) : option char * Cursor :=
  match chars c with
  | [] => (None, c)
  | x :: rest =>
      if Ascii.eqb x newline
      then (Some x, mkCursor (initial_len c) rest (S (line c)) 1)
      else (Some x, mkCursor (initial_len c) rest (line c) (S (col c)))
  end.

Definition is_eof (c : Cursor) : bool :=
  match chars c with [] => true | _ => false end.

(** [skip_while] takes an [FnMut]: the state of the closure is [s].  The
    predicate is called once more at the end of the input, on [EOF_CHAR], and
    the loop stops there whatever it answers. *)
Fixpoint skip_loop {S} (p : S -> char -> bool * S) (s : S)
  (l : list char) (ln cl : nat) : list char * nat * nat :=
  match l with
  | [] => ([], ln, cl)
  | x :: rest =>
      let '(b, s') := p s x in
      if b then
        if Ascii.eqb x newline then skip_loop p s' rest (ln + 1) 1
        else skip_loop p s' rest ln (cl + 1)
      else (l, ln, cl)
  end.

Definition skip_while_mut {S} (p : S -> char -> bool * S) (s : S) (c : Cursor) : Cursor :=
  let '(rest, ln, cl) := skip_loop p s (chars c) (line c) (col c) in
  mkCursor (initial_len c) rest ln cl.

Definition skip_while (p : char -> bool) (c : Cursor) : Cursor :=
  skip_while_mut (fun _ x => (p x, tt)) tt c.

Definition len_consumed (c : Cursor) : nat := initial_len c - len_utf8 (chars c).
Definition line_column (c : Cursor) : nat * nat := (line c, col c).

(** ** What every operation does to the text

    [moves c pre c']: the cursor went over the text [pre]. *)
Definition moves (c : Cursor) (pre : list char) (c' : Cursor) : Prop :=
  initial_len c' = initial_len c /\ chars c = pre ++ chars c'.

Lemma moves_refl c : moves c [] c.
Proof. done. Qed.

Lemma moves_trans c1 a c2 b c3 : moves c1 a c2 -> moves c2 b c3 -> moves c1 (a ++ b) c3.
Proof.
  intros [H1 E1] [H2 E2]. split; [congruence|]. by rewrite E1, E2, app_assoc.
Qed.

Lemma advance_moves c o c' :
  advance c = (o, c') ->
  match o with
  | Some x => moves c [x] c'
  | None => c' = c /\ chars c = []
  end.
Proof.
  unfold advance. destruct (chars c) as [|x rest] eqn:E.
  - by intros [= <- <-].
  - destruct (Ascii.eqb x newline); intros [= <- <-]; by split.
Qed.

Lemma skip_loop_suffix {S} (p : S -> char -> bool * S) l : forall s ln cl,
  exists pre, l = pre ++ (skip_loop p s l ln cl).1.1.
Proof.
  induction l as [|x l IH]; intros s ln cl; simpl; [by exists []|].
  destruct (p s x) as [[] s']; [|by exists []].
  destruct (Ascii.eqb x newline).
  - destruct (IH s' (ln + 1) 1) as [pre E]. exists (x :: pre). simpl. by f_equal.
  - destruct (IH s' ln (cl + 1)) as [pre E]. exists (x :: pre). simpl. by f_equal.
Qed.

Lemma skip_while_mut_moves {S} (p : S -> char -> bool * S) s c :
  exists pre, moves c pre (skip_while_mut p s c).
Proof.
  destruct (skip_loop_suffix p (chars c) s (line c) (col c)) as [pre E].
  exists pre. unfold skip_while_mut.
  destruct (skip_loop _ _ _ _ _) as [[rest ln] cl]. by split.
Qed.

Lemma skip_loop_pure (p : char -> bool) l : forall ln cl,
  (skip_loop (fun _ x => (p x, tt)) tt l ln cl).1.1 = drop_while p l.
Proof.
  induction l as [|x l IH]; intros ln cl; simpl; [done|].
  destruct (p x); [|done]. by destruct (Ascii.eqb x newline).
Qed.

Lemma skip_while_chars p c : chars (skip_while p c) = drop_while p (chars c).
Proof.
  unfold skip_while, skip_while_mut.
  rewrite <- (skip_loop_pure p (chars c) (line c) (col c)).
  by destruct (skip_loop _ _ _ _ _) as [[rest ln] cl].
Qed.

Lemma skip_while_initial p c : initial_len (skip_while p c) = initial_len c.
Proof.
  unfold skip_while, skip_while_mut. by destruct (skip_loop _ _ _ _ _) as [[rest ln] cl].
Qed.

Lemma skip_while_moves p c :
  exists pre, moves c pre (skip_while p c) /\ Forall (fun x => p x = true) pre.
Proof.
  destruct (drop_while_suffix p (chars c)) as (pre & E & H).
  exists pre. split; [|done]. split; [apply skip_while_initial|].
  by rewrite skip_while_chars.
Qed.
End Cursor.
