(* ===== verification/Token.v ===== *)
(** * Tokens of NASL ([nasl/syntax/token.rs], the data types)

    The enums keep the constructors of the source, each in a module of the
    enum's name: [Category.Plus] is [Category::Plus]. *)

From S2P Require Import Prelude RustStr.
Local Open Scope string_scope.

(** Scanning phases ([storage/item.rs]). *)
Module ACT.
Inductive t : Set :=
| Init | Scanner | Settings | GatherInfo | Attack | MixedAttack
| DestructiveAttack | Denial | KillHost | Flood | End.

(** [x as i64] for the field-less enum. *)
Definition as_i64 (a : t) : Z :=
  match a with
  | Init => 0 | Scanner => 1 | Settings => 2 | GatherInfo => 3 | Attack => 4
  | MixedAttack => 5 | DestructiveAttack => 6 | Denial => 7 | KillHost => 8
  | Flood => 9 | End => 10
  end%Z.

(** [FromStr]: the phases are numbered. *)
Definition from_str (s : string) : option t :=
  if decide (s = "0") then Some Init else if decide (s = "1") then Some Scanner
  else if decide (s = "2") then Some Settings else if decide (s = "3") then Some GatherInfo
  else if decide (s = "4") then Some Attack else if decide (s = "5") then Some MixedAttack
  else if decide (s = "6") then Some DestructiveAttack else if decide (s = "7") then Some Denial
  else if decide (s = "8") then Some KillHost else if decide (s = "9") then Some Flood
  else if decide (s = "10") then Some End else None.

#[global] Instance eq_dec : EqDecision t.
Proof. solve_decision. Defined.
End ACT.

Module Base.
Inductive t : Set := Binary | Octal | Base10 | Hex.

#[global] Instance eq_dec : EqDecision t.
Proof. solve_decision. Defined.

Definition verify_binary (c : char) : bool := Ascii.eqb c "0" || Ascii.eqb c "1".
Definition verify_octal (c : char) : bool := in_range 48 55 (code c).
Definition verify_base10 (c : char) : bool := is_ascii_digit c.
Definition verify_hex (c : char) : bool := is_ascii_hexdigit c.

Definition verifier (b : t) : char -> bool :=
  match b with
  | Binary => verify_binary | Octal => verify_octal
  | Base10 => verify_base10 | Hex => verify_hex
  end.

Definition radix (b : t) : Z :=
  match b with Binary => 2 | Octal => 8 | Base10 => 10 | Hex => 16 end%Z.
End Base.

Module UnclosedCategory.
Inductive t : Set := String | Data.

#[global] Instance eq_dec : EqDecision t.
Proof. solve_decision. Defined.
End UnclosedCategory.

Module IdentifierType.
Inductive t : Set :=
| Function | FCTAnonArgs | True_ | False_ | For | ForEach | If | Else | While
| Repeat | Until | LocalVar | GlobalVar | Null | Return | Continue | Break
| Include | ACT (a : ACT.t) | Exit | Undefined (s : string).

#[global] Instance eq_dec : EqDecision t.
Proof. solve_decision. Defined.

(** The rows of [make_keyword_matcher!], in the order of the source. *)
Definition keywords : list (string * t) :=
  [ ("function", Function); ("_FCT_ANON_ARGS", FCTAnonArgs); ("TRUE", True_);
    ("FALSE", False_); ("for", For); ("foreach", ForEach); ("if", If); ("else", Else);
    ("while", While); ("repeat", Repeat); ("until", Until); ("local_var", LocalVar);
    ("global_var", GlobalVar); ("NULL", Null); ("return", Return);
    ("include", Include); ("exit", Exit);
    ("ACT_ATTACK", ACT ACT.Attack); ("ACT_DENIAL", ACT ACT.Denial);
    ("ACT_DESTRUCTIVE_ATTACK", ACT ACT.DestructiveAttack); ("ACT_END", ACT ACT.End);
    ("ACT_FLOOD", ACT ACT.Flood); ("ACT_GATHER_INFO", ACT ACT.GatherInfo);
    ("ACT_INIT", ACT ACT.Init); ("ACT_KILL_HOST", ACT ACT.KillHost);
    ("ACT_MIXED_ATTACK", ACT ACT.MixedAttack); ("ACT_SCANNER", ACT ACT.Scanner);
    ("ACT_SETTINGS", ACT ACT.Settings); ("continue", Continue); ("break", Break) ].

(** The match arms of [new]: the first row whose word is the identifier. *)
Definition new (keyword : string) : t :=
  match List.find (fun r => bool_decide (r.1 = keyword)) keywords with
  | Some r => r.2
  | None => Undefined keyword
  end.

(** [Display] and [len]: the first row with this variant. *)
Definition to_string (i : t) : string :=
  match List.find (fun r => bool_decide (r.2 = i)) keywords with
  | Some r => r.1
  | None => match i with Undefined r => r | _ => "" end
  end.

Definition len (i : t) : nat :=
  match List.find (fun r => bool_decide (r.2 = i)) keywords with
  | Some r => len_utf8 (chars_of r.1)
  | None => match i with Undefined r => len_utf8 (chars_of r) | _ => 0 end
  end.

Definition is_empty (i : t) : bool := Nat.eqb (len i) 0.
End IdentifierType.

Module Category.
Inductive t : Set :=
| LeftParen | RightParen | LeftBrace | RightBrace | LeftCurlyBracket
| RightCurlyBracket | Comma | Dot | Percent | PercentEqual | Semicolon
| DoublePoint | Tilde | Caret | Ampersand | AmpersandAmpersand | Pipe
| PipePipe | Bang | BangEqual | BangTilde | Equal | EqualEqual | EqualTilde
| Greater | GreaterGreater | GreaterEqual | GreaterLess | Less | LessLess
| LessEqual | Minus | MinusMinus | MinusEqual | Plus | PlusEqual | PlusPlus
| Slash | SlashEqual | Star | StarStar | StarEqual | GreaterGreaterGreater
| GreaterGreaterEqual | LessLessEqual | GreaterBangLess
| GreaterGreaterGreaterEqual | X
| String (s : string)
| Data (d : list byte)
| Number (n : Z)
| IPv4Address (s : string)
| IllegalIPv4Address
| IllegalNumber (b : Base.t)
| Comment
| Identifier (i : IdentifierType.t)
| Unclosed (u : UnclosedCategory.t)
| UnknownBase
| UnknownSymbol.

#[global] Instance byte_eq_decision : EqDecision byte := Byte.byte_eq_dec.
#[global] Instance eq_dec : EqDecision t.
Proof. solve_decision. Defined.

(** [{x:?}] of a byte vector. *)
Definition debug_bytes (d : list byte) : string :=
  "[" ++ String.concat ", " (map (fun b => pretty (Byte.to_N b)) d) ++ "]".

(** [Display] *)
Definition to_string (c : t) : string :=
  match c with
  | LeftParen => "(" | RightParen => ")" | LeftBrace => "[" | RightBrace => "]"
  | LeftCurlyBracket => "{" | RightCurlyBracket => "}" | Comma => "," | Dot => "."
  | Percent => "%" | PercentEqual => "%=" | Semicolon => ";" | DoublePoint => ":"
  | Tilde => "~" | Caret => "^" | Ampersand => "&" | AmpersandAmpersand => "&&"
  | Pipe => "|" | PipePipe => "||" | Bang => "!" | BangEqual => "!=" | BangTilde => "!~"
  | Equal => "=" | EqualEqual => "==" | EqualTilde => "=~" | Greater => ">"
  | GreaterGreater => ">>" | GreaterEqual => ">=" | GreaterLess => "><" | Less => "<"
  | LessLess => "<<" | LessEqual => "<=" | Minus => "-" | MinusMinus => "--"
  | MinusEqual => "-=" | Plus => "+" | PlusEqual => "+=" | PlusPlus => "++"
  | Slash => "/" | SlashEqual => "/=" | Star => "*" | StarStar => "**"
  | StarEqual => "*=" | GreaterGreaterGreater => ">>>" | GreaterGreaterEqual => ">>="
  | LessLessEqual => "<<=" | GreaterBangLess => ">!<"
  | GreaterGreaterGreaterEqual => ">>>=" | X => "X"
  | String s => String.String dquote (s ++ String.String dquote EmptyString)
  | Number n => pretty n
  | IPv4Address s => s
  | IllegalIPv4Address => "IllegalIPv4Address"
  | IllegalNumber _ => "IllegalNumber"
  | Comment => "Comment"
  | Identifier i => IdentifierType.to_string i
  | Unclosed UnclosedCategory.String => "UnclosedString"
  | Unclosed UnclosedCategory.Data => "UnclosedData"
  | UnknownBase => "UnknownBase"
  | UnknownSymbol => "UnknownSymbol"
  | Data d => debug_bytes d
  end.

Definition eqb (a b : t) : bool := bool_decide (a = b).
End Category.

Record Token := mkToken {
  category : Category.t;
  tok_line_column : nat * nat;
  tok_position : nat * nat;
}.

#[global] Instance Token_eq_dec : EqDecision Token.
Proof. solve_decision. Defined.

Module Token.
Definition default : Token := mkToken Category.UnknownSymbol (0, 0) (0, 0).
Definition unexpected_none : Token := mkToken Category.UnknownSymbol (0, 0) (0, 0).

Definition to_string (t : Token) : string :=
  pretty (t.(tok_line_column).1) ++ ":" ++ pretty (t.(tok_line_column).2) ++ " "
  ++ Category.to_string t.(category).

Definition is_faulty (t : Token) : bool :=
  match t.(category) with
  | Category.IllegalIPv4Address | Category.IllegalNumber _ | Category.Unclosed _
  | Category.UnknownBase | Category.UnknownSymbol => true
  | _ => false
  end.
End Token.

(** ** Keywords *)

Lemma identifier_new_shows s : IdentifierType.to_string (IdentifierType.new s) = s.
Proof.
  unfold IdentifierType.new.
  destruct (List.find _ _) as [r|] eqn:E; [|done].
  apply List.find_some in E as [Hin Hr%bool_decide_eq_true].
  simpl in Hin. repeat (destruct Hin as [<-|Hin]; [by subst s|]). destruct Hin.
Qed.
