(* ===== verification/Tokenizer.v ===== *)
(** * The tokenizer ([nasl/syntax/token.rs])

    [next] is the [Iterator] of the source: one token per call, [None] at the
    end of the text.  Taking a slice of the text is an explicit step that panics
    off a character boundary, so that the absence of such panics is a theorem. *)

From S2P Require Import Prelude RustStr Cursor Token.
Local Open Scope nat_scope.

Record Tokenizer := mkTokenizer {
  tz_code : list char;
  cursor : Cursor;
}.

Module Tokenizer.
Definition T (A : Type) : Type := M Tokenizer Empty_set A.

Definition new (code : string) : Tokenizer :=
  mkTokenizer (chars_of code) (Cursor.new (chars_of code)).

(** ** The cursor's operations, as steps of the tokenizer *)
Definition peek (n : nat) : T char := gets (fun t => Cursor.peek t.(cursor) n).
Definition is_eof : T bool := gets (fun t => Cursor.is_eof t.(cursor)).
Definition len_consumed : T nat := gets (fun t => Cursor.len_consumed t.(cursor)).
Definition line_column : T (nat * nat) := gets (fun t => Cursor.line_column t.(cursor)).
Definition advance : T (option char) := fun t =>
  let '(o, c) := Cursor.advance t.(cursor) in (Ok o, mkTokenizer t.(tz_code) c).
Definition skip_while_mut {S} (p : S -> char -> bool * S) (s : S) : T unit :=
  modify (fun t => mkTokenizer t.(tz_code) (Cursor.skip_while_mut p s t.(cursor))).
Definition skip_while (p : char -> bool) : T unit :=
  modify (fun t => mkTokenizer t.(tz_code) (Cursor.skip_while p t.(cursor))).

(** [lookup] and the slices [self.code[start..end]]. *)
Definition lookup (start stop : nat) : T string :=
  t ← get; s ← or_panic (slice t.(tz_code) start stop); mret (string_of s).

(** ** Operators *)
Definition tokenize_greater : T Category.t :=
  next ← peek 0;
  if Ascii.eqb next "=" then advance;; mret Category.GreaterEqual
  else if Ascii.eqb next "<" then advance;; mret Category.GreaterLess
  else if Ascii.eqb next ">" then
    advance;;
    next ← peek 0;
    if Ascii.eqb next ">" then
      advance;;
      next ← peek 0;
      if Ascii.eqb next "=" then advance;; mret Category.GreaterGreaterGreaterEqual
      else mret Category.GreaterGreaterGreater
    else if Ascii.eqb next "=" then advance;; mret Category.GreaterGreaterEqual
    else mret Category.GreaterGreater
  else
    next1 ← peek 1;
    if Ascii.eqb next "!" && Ascii.eqb next1 "<"
    then advance;; advance;; mret Category.GreaterBangLess
    else mret Category.Greater.

Definition tokenize_less : T Category.t :=
  next ← peek 0;
  if Ascii.eqb next "=" then advance;; mret Category.LessEqual
  else if Ascii.eqb next "<" then
    advance;;
    next ← peek 0;
    if Ascii.eqb next "=" then advance;; mret Category.LessLessEqual
    else mret Category.LessLess
  else mret Category.Less.

(** The macro [two_symbol_token!]. *)
Fixpoint two_symbol_arms (next : char) (single : Category.t)
  (arms : list (char * Category.t)) : T Category.t :=
  match arms with
  | [] => mret single
  | (c, two) :: arms' =>
      if Ascii.eqb next c then advance;; mret two
      else two_symbol_arms next single arms'
  end.
Definition two_symbol_token (single : Category.t) (arms : list (char * Category.t)) :
  T Category.t := next ← peek 0; two_symbol_arms next single arms.

(** ** Literals *)
Definition tokenize_string : T Category.t :=
  start ← len_consumed;
  skip_while (fun c => negb (Ascii.eqb c dquote));;
  eof ← is_eof;
  if (eof : bool) then mret (Category.Unclosed UnclosedCategory.String)
  else
    stop ← len_consumed;
    result ← lookup start stop;
    advance;;
    mret (Category.String result).

(** The closure of [tokenize_data]: its state is [back_slash]. *)
Definition data_pred (back_slash : bool) (c : char) : bool * bool :=
  if negb back_slash && Ascii.eqb c squote then (false, back_slash)
  else (true, negb back_slash && Ascii.eqb c backslash).

(** The six replacements, one after the other over the whole text. *)
Definition unescape (raw : list char) : list char :=
  let raw := replace raw [backslash; dquote] [dquote] in
  let raw := replace raw [backslash; "n"%char] [newline] in
  let raw := replace raw [backslash; backslash] [backslash] in
  let raw := replace raw [backslash; squote] [squote] in
  let raw := replace raw [backslash; "r"%char] ["013"%char] in
  replace raw [backslash; "t"%char] ["009"%char].

Definition tokenize_data : T Category.t :=
  start ← len_consumed;
  skip_while_mut data_pred false;;
  eof ← is_eof;
  if (eof : bool) then mret (Category.Unclosed UnclosedCategory.Data)
  else
    stop ← len_consumed;
    raw_str ← lookup start stop;
    advance;;
    mret (Category.Data (as_bytes (unescape (chars_of raw_str)))).

Definition may_parse_ipv4 (base : Base.t) (start : nat) : T (option Category.t) :=
  p0 ← peek 0;
  p1 ← peek 1;
  if bool_decide (base = Base.Base10) && Ascii.eqb p0 "." && is_numeric p1 then
    advance;;
    skip_while (Base.verifier base);;
    p0 ← peek 0;
    if Ascii.eqb p0 "." then
      p1 ← peek 1;
      if is_numeric p1 then
        advance;;
        skip_while (Base.verifier base);;
        p0 ← peek 0;
        p1 ← peek 1;
        if Ascii.eqb p0 "." && is_numeric p1 then
          advance;;
          skip_while (Base.verifier base);;
          stop ← len_consumed;
          s ← lookup start stop;
          mret (Some (Category.IPv4Address s))
        else mret (Some Category.IllegalIPv4Address)
      else mret (Some Category.IllegalIPv4Address)
    else mret (Some Category.IllegalIPv4Address)
  else mret None.

(** The base of a number and the start of its digits. *)
Definition number_base (start : nat) (current : char) : T (option Base.t * nat) :=
  if Ascii.eqb current "0" then
    peeked ← peek 0;
    if Ascii.eqb peeked "b" then advance;; mret (Some Base.Binary, start + 2)
    else if Ascii.eqb peeked "x" then advance;; mret (Some Base.Hex, start + 2)
    else if in_range 48 55 (code peeked) then mret (Some Base.Octal, start + 1)
    else if is_alphabetic peeked then mret (None, start)
    else mret (Some Base.Base10, start)
  else mret (Some Base.Base10, start).

Definition tokenize_number (start : nat) (current : char) : T Category.t :=
  '(may_base, start) ← number_base start current;
  match may_base with
  | Some base =>
      skip_while (Base.verifier base);;
      ip ← may_parse_ipv4 base start;
      match ip with
      | Some token => mret token
      | None =>
          stop ← len_consumed;
          if start =? stop then mret (Category.IllegalNumber base)
          else
            s ← lookup start stop;
            match i64_from_str_radix (chars_of s) (Base.radix base) with
            | Some num => mret (Category.Number num)
            | None => mret (Category.IllegalNumber base)
            end
      end
  | None => mret Category.UnknownBase
  end.

Definition identifier_char (c : char) : bool :=
  is_alphabetic c || Ascii.eqb c "_" || is_numeric c.

Definition tokenize_identifier (start : nat) : T Category.t :=
  skip_while identifier_char;;
  stop ← len_consumed;
  word ← lookup start stop;
  if decide (word = "x"%string) then
    skip_while is_whitespace;;
    p0 ← peek 0;
    if is_numeric p0 then mret Category.X
    else mret (Category.Identifier (IdentifierType.Undefined word))
  else mret (Category.Identifier (IdentifierType.new word)).

(** ** The match of [next] on the first character of a token *)
Definition symbol (start : nat) (c : char) : T Category.t :=
  let sym s := Ascii.eqb c s in
  if sym "("%char then mret Category.LeftParen
  else if sym ")"%char then mret Category.RightParen
  else if sym "["%char then mret Category.LeftBrace
  else if sym "]"%char then mret Category.RightBrace
  else if sym "{"%char then mret Category.LeftCurlyBracket
  else if sym "}"%char then mret Category.RightCurlyBracket
  else if sym ","%char then mret Category.Comma
  else if sym "."%char then mret Category.Dot
  else if sym "#"%char then
    skip_while (fun c => negb (Ascii.eqb c newline));; mret Category.Comment
  else if sym "-"%char then
    two_symbol_token Category.Minus
      [("-"%char, Category.MinusMinus); ("="%char, Category.MinusEqual)]
  else if sym "+"%char then
    two_symbol_token Category.Plus
      [("+"%char, Category.PlusPlus); ("="%char, Category.PlusEqual)]
  else if sym "%"%char then
    two_symbol_token Category.Percent [("="%char, Category.PercentEqual)]
  else if sym ";"%char then mret Category.Semicolon
  else if sym "/"%char then
    two_symbol_token Category.Slash [("="%char, Category.SlashEqual)]
  else if sym "*"%char then
    two_symbol_token Category.Star
      [("*"%char, Category.StarStar); ("="%char, Category.StarEqual)]
  else if sym ":"%char then mret Category.DoublePoint
  else if sym "~"%char then mret Category.Tilde
  else if sym "&"%char then
    two_symbol_token Category.Ampersand [("&"%char, Category.AmpersandAmpersand)]
  else if sym "|"%char then
    two_symbol_token Category.Pipe [("|"%char, Category.PipePipe)]
  else if sym "^"%char then mret Category.Caret
  else if sym "!"%char then
    two_symbol_token Category.Bang
      [("="%char, Category.BangEqual); ("~"%char, Category.BangTilde)]
  else if sym "="%char then
    two_symbol_token Category.Equal
      [("="%char, Category.EqualEqual); ("~"%char, Category.EqualTilde)]
  else if sym ">"%char then tokenize_greater
  else if sym "<"%char then tokenize_less
  else if sym dquote then tokenize_string
  else if sym squote then tokenize_data
  else if is_ascii_digit c then tokenize_number start c
  else if is_alphabetic c || sym "_"%char then tokenize_identifier start
  else mret Category.UnknownSymbol.

Definition next : T (option Token) :=
  skip_while is_whitespace;;
  start ← len_consumed;
  position ← line_column;
  o ← advance;
  match o with
  | None => mret None
  | Some c =>
      category ← symbol start c;
      stop ← len_consumed;
      mret (Some (mkToken category position (start, stop)))
  end.

(** The whole token sequence, for at most [fuel] tokens. *)
Fixpoint collect (fuel : nat) (t : Tokenizer) : outcome Empty_set (list Token) :=
  match fuel with
  | 0 => OutOfFuel
  | S fuel' =>
      match next t with
      | (Ok None, _) => Ok []
      | (Ok (Some tok), t') =>
          match collect fuel' t' with Ok l => Ok (tok :: l) | o => o end
      | (Panic, _) => Panic
      | (OutOfFuel, _) => OutOfFuel
      | (Err e, _) => Err e
      end
  end.

Definition tokenize (code : string) : outcome Empty_set (list Token) :=
  collect (S (length (chars_of code))) (new code).

Definition categories (code : string) : outcome Empty_set (list Category.t) :=
  match tokenize code with
  | Ok l => Ok (map category l)
  | Err e => Err e
  | Panic => Panic
  | OutOfFuel => OutOfFuel
  end.
End Tokenizer.
