(* ===== verification/TokenizerProps.v ===== *)
(** * Properties of the tokenizer

    Safety (no slice off a character boundary), progress, the spans of the
    tokens, and the round trips of literals and operators. *)

From S2P Require Import Prelude RustStr Cursor Token Tokenizer.
Local Open Scope nat_scope.
Import Tokenizer.

(** ** Where the cursor is

    [at_ code a t]: the tokenizer of [code] has consumed exactly [a];
    [past code a t]: it has consumed [a] and perhaps more. *)
Definition at_ (code a : list char) (t : Tokenizer) : Prop :=
  tz_code t = code /\ code = a ++ chars (cursor t)
  /\ initial_len (cursor t) = len_utf8 code.

Definition past (code a : list char) (t : Tokenizer) : Prop :=
  exists b, at_ code (a ++ b) t.

(** [advances t t']: the same text, with the cursor at the same place or further. *)
Definition advances (t t' : Tokenizer) : Prop :=
  tz_code t' = tz_code t /\ exists b, Cursor.moves (cursor t) b (cursor t').

(** The steps that neither fail nor go back, from any point past [a]. *)
Definition safe {A} (code a : list char) (m : T A) : Prop :=
  forall t, past code a t -> wp m (fun o t' => (exists r, o = Ok r) /\ advances t t') t.

Lemma at_past code a t : at_ code a t -> past code a t.
Proof. exists []. by rewrite app_nil_r. Qed.

Lemma past_mono code a x t : past code (a ++ x) t -> past code a t.
Proof. intros [b H]. exists (x ++ b). by rewrite app_assoc. Qed.

Lemma at_new s : at_ (chars_of s) [] (new s).
Proof. by repeat split. Qed.

Lemma at_consumed code a t :
  at_ code a t -> Cursor.len_consumed (cursor t) = len_utf8 a.
Proof.
  intros (_ & Hc & Hl). unfold Cursor.len_consumed. rewrite Hl.
  rewrite Hc, len_utf8_app. lia.
Qed.

Lemma at_moves code a t pre t' :
  at_ code a t -> tz_code t' = tz_code t -> Cursor.moves (cursor t) pre (cursor t') ->
  at_ code (a ++ pre) t'.
Proof.
  intros (Ht & Hc & Hl) Ht' [Hi Hm]. repeat split; [congruence| |congruence].
  by rewrite Hc, Hm, app_assoc.
Qed.

Lemma advances_refl t : advances t t.
Proof. split; [done|]. exists []. apply Cursor.moves_refl. Qed.

Lemma advances_trans t1 t2 t3 : advances t1 t2 -> advances t2 t3 -> advances t1 t3.
Proof.
  intros [H1 [b1 M1]] [H2 [b2 M2]]. split; [congruence|].
  exists (b1 ++ b2). by eapply Cursor.moves_trans.
Qed.

Lemma past_advances code a t t' : past code a t -> advances t t' -> past code a t'.
Proof.
  intros [b H] [Ht [d Hd]]. exists (b ++ d). rewrite app_assoc. by eapply at_moves.
Qed.

Lemma lookup_at code a b t :
  at_ code (a ++ b) t ->
  lookup (len_utf8 a) (len_utf8 (a ++ b)) t = (Ok (string_of b), t).
Proof.
  intros (Ht & Hc & _). unfold lookup, get, mbind, M_bind, or_panic. simpl.
  rewrite Ht, Hc, <- app_assoc.
  by rewrite slice_app by (rewrite ?len_utf8_app; done).
Qed.

(** ** The safe steps *)
Section Safe.
Context (code a : list char).

Lemma safe_ret {A} (x : A) : safe code a (mret x).
Proof. intros t H. apply wp_ret. eauto using advances_refl. Qed.

(** A postcondition that only grows with the cursor is kept by safe steps. *)
Lemma safe_seq {A} (m : T A) t0 t :
  past code a t -> advances t0 t -> safe code a m ->
  wp m (fun o t' => (exists r, o = Ok r) /\ advances t0 t') t.
Proof.
  intros Ht H0 Hm. eapply wp_mono; [by apply Hm|].
  intros o t' [Ho H']. split; [done|]. by eapply advances_trans.
Qed.

Lemma safe_bind {A B} (m : T A) (f : A -> T B) :
  safe code a m -> (forall x, safe code a (f x)) -> safe code a (m ≫= f).
Proof.
  intros Hm Hf t Ht. apply wp_bind. eapply wp_mono; [by apply Hm|].
  intros o t' [[r ->] H']. apply safe_seq; auto. by eapply past_advances.
Qed.

Lemma safe_gets {A} (f : Tokenizer -> A) : safe code a (gets f).
Proof. intros t H. unfold wp. simpl. eauto using advances_refl. Qed.

Lemma safe_advance : safe code a advance.
Proof.
  intros t _. unfold wp, advance.
  destruct (Cursor.advance (cursor t)) as [[x|] c'] eqn:E;
    apply Cursor.advance_moves in E; simpl; (split; [eauto|]).
  - split; [done|]. by exists [x].
  - destruct E as [-> _]. destruct t. apply advances_refl.
Qed.

Lemma safe_skip_mut {X} (p : X -> char -> bool * X) x : safe code a (skip_while_mut p x).
Proof.
  intros t _. unfold wp. simpl. split; [eauto|]. split; [done|].
  apply Cursor.skip_while_mut_moves.
Qed.

Lemma safe_skip p : safe code a (skip_while p).
Proof. apply safe_skip_mut. Qed.

(** A slice that starts at a point already passed and ends at the cursor. *)
Lemma safe_slice {A} start (k : nat -> string -> T A) :
  start = len_utf8 a -> (forall n s, safe code a (k n s)) ->
  safe code a (stop ← len_consumed; s ← lookup start stop; k stop s).
Proof.
  intros -> Hk t [b H]. apply wp_bind. unfold wp at 1. simpl.
  rewrite (at_consumed _ _ _ H). apply wp_bind. unfold wp at 1.
  rewrite (lookup_at _ _ _ _ H). simpl. apply Hk. by exists b.
Qed.
End Safe.

Create HintDb safe_db.
#[export] Hint Resolve safe_ret safe_gets safe_advance safe_skip safe_skip_mut : safe_db.

(** Walk over a function body: binds and branches, hints at the leaves. *)
Ltac safe_steps :=
  repeat first
    [ progress auto with safe_db
    | apply safe_slice; [done|intros ??]
    | apply safe_bind; [|intros ?]
    | case_goal ].

Lemma safe_two_symbol code a single arms : safe code a (two_symbol_token single arms).
Proof.
  unfold two_symbol_token. apply safe_bind; [apply safe_gets|]. intros x.
  induction arms as [|[c two] arms IH]; simpl; [apply safe_ret|].
  destruct (Ascii.eqb x c); [|done]. safe_steps.
Qed.

Lemma safe_greater code a : safe code a tokenize_greater.
Proof. unfold tokenize_greater, peek. safe_steps. Qed.

Lemma safe_less code a : safe code a tokenize_less.
Proof. unfold tokenize_less, peek. safe_steps. Qed.

(** A literal notes its start and slices from there; any closing step may
    follow. *)
Lemma safe_literal {A B} code a (m : T A) (k : string -> T B) (u : B) :
  (forall a', safe code a' m) -> (forall a' s, safe code a' (k s)) ->
  safe code a
    (start ← len_consumed; m;; eof ← is_eof;
     if (eof : bool) then mret u
     else stop ← len_consumed; s ← lookup start stop; k s).
Proof.
  intros Hm Hk t [b H]. apply wp_bind. unfold wp at 1. simpl.
  rewrite (at_consumed _ _ _ H). apply (safe_seq code (a ++ b)).
  - by apply at_past.
  - apply advances_refl.
  - apply safe_bind; [done|intros _]. apply safe_bind; [apply safe_gets|].
    intros []; [apply safe_ret|]. by apply safe_slice.
Qed.

Lemma safe_string code a : safe code a tokenize_string.
Proof. apply safe_literal; intros; safe_steps. Qed.

Lemma safe_data code a : safe code a tokenize_data.
Proof.
  apply (safe_literal code a (skip_while_mut data_pred false)
    (fun s => advance;; mret (Category.Data (as_bytes (unescape (chars_of s)))))).
  all: intros; safe_steps.
Qed.
#[export] Hint Resolve safe_two_symbol safe_greater safe_less safe_string safe_data : safe_db.

(** ** Numbers and identifiers, which slice from their first character *)
Lemma safe_ipv4 code a base start :
  start = len_utf8 a -> safe code a (may_parse_ipv4 base start).
Proof. intros Hs. unfold may_parse_ipv4, peek. safe_steps. Qed.

Lemma peek_advance t x :
  Cursor.peek (cursor t) 0 = x -> x <> EOF_CHAR ->
  exists t', advance t = (Ok (Some x), t') /\ tz_code t' = tz_code t
    /\ Cursor.moves (cursor t) [x] (cursor t').
Proof.
  intros Hp Hx. unfold advance. destruct (Cursor.advance (cursor t)) as [o c'] eqn:E.
  apply Cursor.advance_moves in E as Hm. unfold Cursor.peek in Hp.
  destruct o as [y|].
  - exists (mkTokenizer (tz_code t) c'). destruct Hm as [Hi Hm].
    rewrite Hm in Hp. simpl in Hp. subst y. by repeat split.
  - destruct Hm as [_ Hm]. rewrite Hm in Hp. by subst x.
Qed.

(** What [number_base] leaves: the digits start at the returned offset, which the
    cursor has passed. *)
Lemma number_base_spec code a c t :
  at_ code (a ++ [c]) t ->
  wp (number_base (len_utf8 a) c) (fun o t' => exists (b : option Base.t) ap,
    o = Ok (b, len_utf8 ap) /\ past code ap t' /\ advances t t') t.
Proof.
  intros H. unfold number_base.
  assert (past code a t) as Hpa by by eapply past_mono, at_past.
  destruct (Ascii.eqb c "0") eqn:E0; [|exists (Some Base.Base10), a; eauto using advances_refl].
  apply Ascii.eqb_eq in E0 as ->. apply wp_bind. unfold wp at 1. simpl.
  assert (forall x base, Cursor.peek (cursor t) 0 = x -> x <> EOF_CHAR -> utf8_len x = 1 ->
    wp (advance;; mret (Some base, len_utf8 a + 2)) (fun o t' =>
      exists (b : option Base.t) ap, o = Ok (b, len_utf8 ap) /\ past code ap t'
        /\ advances t t') t) as Hadv.
  { intros x base Hx Hne Hl. destruct (peek_advance t x Hx Hne) as (t' & Ea & Hc & Hm).
    unfold wp, mbind, M_bind. rewrite Ea. simpl.
    exists (Some base), ((a ++ ["0"%char]) ++ [x]). split.
    - rewrite !len_utf8_app. simpl. rewrite Hl. do 2 f_equal. unfold utf8_len. simpl. lia.
    - split; [by eapply at_past, at_moves|]. split; [done|]. by exists [x]. }
  repeat case_goal; try (by eapply Hadv; [by apply Ascii.eqb_eq|..]).
  - exists (Some Base.Octal), (a ++ ["0"%char]).
    rewrite len_utf8_app. eauto using at_past, advances_refl.
  - exists None, a. eauto using advances_refl.
  - exists (Some Base.Base10), a. eauto using advances_refl.
Qed.

Lemma safe_number code a c t :
  at_ code (a ++ [c]) t ->
  wp (tokenize_number (len_utf8 a) c) (fun o t' => (exists r, o = Ok r) /\ advances t t') t.
Proof.
  intros H. apply wp_bind. eapply wp_mono; [by apply number_base_spec|].
  intros o t' (b & ap & -> & Hap & Hadv). simpl.
  apply (safe_seq code ap); [done..|].
  destruct b as [base|]; [|apply safe_ret].
  apply safe_bind; [apply safe_skip|intros _].
  apply safe_bind; [by apply safe_ipv4|]. intros [tok|]; [apply safe_ret|].
  clear t t' H Hap Hadv. intros t [d Hd]. apply wp_bind. unfold wp at 1. simpl.
  rewrite (at_consumed _ _ _ Hd). destruct (_ =? _); [apply wp_ret; eauto using advances_refl|].
  apply wp_bind. unfold wp at 1. rewrite (lookup_at _ _ _ _ Hd). simpl.
  case_goal; apply wp_ret; eauto using advances_refl.
Qed.

Lemma safe_identifier code a start :
  start = len_utf8 a -> safe code a (tokenize_identifier start).
Proof.
  intros Hs. unfold tokenize_identifier, peek. safe_steps.
Qed.

(** ** One token *)
Lemma symbol_safe code a c t :
  at_ code (a ++ [c]) t ->
  wp (symbol (len_utf8 a) c) (fun o t' => (exists r, o = Ok r) /\ advances t t') t.
Proof.
  intros H. assert (past code a t) as Hp by by eapply past_mono, at_past.
  unfold symbol. cbv zeta. repeat case_goal.
  all: first
    [ by apply (safe_number code a)
    | by apply (safe_identifier code a)
    | match goal with |- wp ?m _ _ =>
        let Hs := fresh in
        assert (safe code a m) as Hs by safe_steps; by apply Hs end ].
Qed.

(** A call of [next] skips white space and takes a non-empty piece of text, whose
    byte offsets are the token's position; at the end only white space is left. *)
Definition next_post (code a : list char) (t : Tokenizer)
  (o : outcome Empty_set (option Token)) (t' : Tokenizer) : Prop :=
  exists ws, Forall (fun c => is_whitespace c = true) ws /\
  match o with
  | Ok (Some tok) => exists text, text <> [] /\ at_ code (a ++ ws ++ text) t'
      /\ chars (cursor t) = ws ++ text ++ chars (cursor t')
      /\ tok_position tok = (len_utf8 (a ++ ws), len_utf8 (a ++ ws ++ text))
  | Ok None => at_ code (a ++ ws) t' /\ chars (cursor t) = ws /\ chars (cursor t') = []
  | _ => False
  end.

Lemma next_spec code a t : at_ code a t -> wp next (next_post code a t) t.
Proof.
  intros H. apply wp_bind, wp_modify. cbn [bind_post].
  destruct (Cursor.skip_while_moves is_whitespace (cursor t)) as (ws & Hm & Hws).
  set (t1 := mkTokenizer _ _).
  assert (at_ code (a ++ ws) t1) as H1 by by eapply at_moves.
  apply wp_bind, wp_gets. cbn [bind_post]. rewrite (at_consumed _ _ _ H1).
  apply wp_bind, wp_gets. cbn [bind_post]. apply wp_bind. unfold wp at 1, advance.
  destruct (Cursor.advance (cursor t1)) as [o c'] eqn:E.
  apply Cursor.advance_moves in E. destruct o as [c|]; simpl.
  - set (t2 := mkTokenizer _ _).
    assert (at_ code ((a ++ ws) ++ [c]) t2) as H2 by by eapply at_moves.
    apply wp_bind. eapply wp_mono; [by apply (symbol_safe code)|].
    intros o t3 [[cat ->] [Hc3 [b Hb]]]. simpl.
    assert (at_ code (a ++ ws ++ c :: b) t3) as H3.
    { replace (a ++ ws ++ c :: b) with (((a ++ ws) ++ [c]) ++ b) by by rewrite <- !app_assoc.
      by eapply at_moves. }
    apply wp_bind. unfold wp at 1. simpl. rewrite (at_consumed _ _ _ H3).
    apply wp_ret. exists ws. split; [done|]. exists (c :: b). split; [done|].
    split; [done|]. split; [|done]. destruct Hm as [_ ->], E as [_ E], Hb as [_ Hb].
    simpl in *. by rewrite E, Hb.
  - destruct E as [-> E]. apply wp_ret. exists ws. split; [done|].
    split; [exact H1|]. destruct Hm as [_ ->]. simpl in *. by rewrite E, app_nil_r.
Qed.

(** The tokens of a text, from the point where [a] has been consumed: each span
    starts where only white space was skipped since the last one. *)
Fixpoint spans (code a : list char) (toks : list Token) : Prop :=
  match toks with
  | [] => exists ws, code = a ++ ws /\ Forall (fun c => is_whitespace c = true) ws
  | tok :: toks' => exists ws text rest,
      code = a ++ ws ++ text ++ rest /\ Forall (fun c => is_whitespace c = true) ws
      /\ text <> [] /\ tok_position tok = (len_utf8 (a ++ ws), len_utf8 (a ++ ws ++ text))
      /\ spans code (a ++ ws ++ text) toks'
  end.

Lemma collect_spans fuel : forall code a t,
  at_ code a t -> length (chars (cursor t)) < fuel ->
  exists toks, collect fuel t = Ok toks /\ spans code a toks
    /\ length toks <= length (chars (cursor t)).
Proof.
  induction fuel as [|fuel IH]; intros code a t H Hf; [lia|].
  pose proof (next_spec code a t H) as Hn. unfold wp in Hn. simpl.
  destruct (next t) as [o t'] eqn:E. destruct Hn as (ws & Hws & Hn). simpl in Hn.
  destruct o as [[tok|]| | |]; try done.
  - destruct Hn as (text & Hne & H' & Hch & Hpos).
    assert (length (chars (cursor t')) < length (chars (cursor t))) as Hlt.
    { rewrite Hch, !length_app. destruct text; [done|]. simpl. lia. }
    destruct (IH code (a ++ ws ++ text) t') as (toks & -> & Hs & Hl); [done|lia|].
    exists (tok :: toks). split; [done|]. split; [|simpl; lia].
    exists ws, text, (chars (cursor t')). repeat split; auto.
    destruct H' as (_ & Hc & _). rewrite Hc at 1. by rewrite <- !app_assoc.
  - destruct Hn as (H' & Hch & Hnil). exists []. repeat split; [|simpl; lia].
    exists ws. split; [|done]. destruct H' as (_ & Hc & _).
    by rewrite Hc, Hnil, app_nil_r.
Qed.

(** ** Round trips

    The text of a token, as [Display] prints it, followed by a space. *)
Definition valid_identifier (s : string) : Prop :=
  s <> "x"%string /\
  match chars_of s with
  | [] => False
  | c :: l => is_alphabetic c || Ascii.eqb c "_" = true
      /\ Forall (fun c => identifier_char c = true) l
  end.

(** The categories whose [Display] text is source text for them.  The operator
    [x] prints in upper case; [Data] prints as a list of numbers. *)
Definition printable (c : Category.t) : Prop :=
  match c with
  | Category.String s => ~ In dquote (chars_of s)
  | Category.Number n => (0 <= n < 2 ^ 63)%Z
  | Category.Identifier i =>
      valid_identifier (IdentifierType.to_string i)
      /\ i = IdentifierType.new (IdentifierType.to_string i)
  | Category.X | Category.Data _ | Category.IPv4Address _ | Category.IllegalIPv4Address
  | Category.IllegalNumber _ | Category.Comment | Category.Unclosed _
  | Category.UnknownBase | Category.UnknownSymbol => False
  | _ => True
  end.

(** [reads t c rest]: the next token has the category [c] and leaves [rest]. *)
Definition reads (t : Tokenizer) (c : Category.t) (rest : list char) : Prop :=
  exists tok t', next t = (Ok (Some tok), t') /\ category tok = c
    /\ chars (cursor t') = rest.

Lemma drop_while_all f l x rest :
  Forall (fun c => f c = true) l -> f x = false ->
  drop_while f (l ++ x :: rest) = x :: rest.
Proof. intros H Hx. induction H as [|c l Hc Hl IH]; simpl; [by rewrite Hx|by rewrite Hc]. Qed.

Lemma advance_cons code a t c rest :
  at_ code a t -> chars (cursor t) = c :: rest ->
  exists t', advance t = (Ok (Some c), t') /\ at_ code (a ++ [c]) t'
    /\ chars (cursor t') = rest.
Proof.
  intros H Hc. unfold advance. destruct (Cursor.advance (cursor t)) as [o c'] eqn:E.
  pose proof E as Hm. apply Cursor.advance_moves in Hm.
  unfold Cursor.advance in E. rewrite Hc in E.
  assert (o = Some c) as -> by by destruct (Ascii.eqb c newline); simplify_eq.
  eexists. split; [done|]. split; [by eapply at_moves|].
  destruct Hm as [_ Hm]. simpl. rewrite Hc in Hm. by simplify_eq/=.
Qed.

(** [next] is white space, one character, and the match on it. *)
Lemma next_symbol code a t l c rest :
  at_ code a t -> chars (cursor t) = l ++ c :: rest ->
  Forall (fun x => is_whitespace x = true) l -> is_whitespace c = false ->
  exists t2, at_ code ((a ++ l) ++ [c]) t2 /\ chars (cursor t2) = rest /\
    forall cat t3, symbol (len_utf8 (a ++ l)) c t2 = (Ok cat, t3) ->
      exists tok, next t = (Ok (Some tok), t3) /\ category tok = cat.
Proof.
  intros H Hch Hl Hc.
  assert (Cursor.moves (cursor t) l (Cursor.skip_while is_whitespace (cursor t))) as Hm.
  { split; [apply Cursor.skip_while_initial|].
    by rewrite Cursor.skip_while_chars, Hch, drop_while_all. }
  set (t1 := mkTokenizer (tz_code t) (Cursor.skip_while is_whitespace (cursor t))).
  assert (at_ code (a ++ l) t1) as H1 by by eapply at_moves.
  assert (chars (cursor t1) = c :: rest) as Hch1.
  { destruct Hm as [_ Hm]. rewrite Hch in Hm. by apply app_inv_head in Hm. }
  destruct (advance_cons _ _ _ _ _ H1 Hch1) as (t2 & Ha & H2 & Hr).
  exists t2. split; [done|]. split; [done|]. intros cat t3 Hs.
  eexists. unfold next, mbind, M_bind, skip_while, modify, len_consumed, line_column, gets.
  fold t1. rewrite Ha, (at_consumed _ _ _ H1), Hs. done.
Qed.

(** Scanning on from a point in the text. *)
Definition scans (m : T Category.t) (t : Tokenizer) (cat : Category.t) (rest : list char) :
  Prop := exists t', m t = (Ok cat, t') /\ chars (cursor t') = rest.

Lemma reads_intro code a t l c rest cat rest' :
  at_ code a t -> chars (cursor t) = l ++ c :: rest ->
  Forall (fun x => is_whitespace x = true) l -> is_whitespace c = false ->
  (forall t2, at_ code ((a ++ l) ++ [c]) t2 -> chars (cursor t2) = rest ->
     scans (symbol (len_utf8 (a ++ l)) c) t2 cat rest') ->
  reads t cat rest'.
Proof.
  intros H Hch Hl Hc Hs.
  destruct (next_symbol _ _ _ _ _ _ H Hch Hl Hc) as (t2 & H2 & Hr & Hn).
  destruct (Hs t2 H2 Hr) as (t3 & E & Hr3). destruct (Hn _ _ E) as (tok & E' & Hcat).
  exists tok, t3. auto.
Qed.

(** Operators: the match is decided by the characters of the operator and the
    space after it. *)
Definition is_symbol (c : Category.t) : bool :=
  match c with
  | Category.X | Category.Data _ | Category.IPv4Address _ | Category.IllegalIPv4Address
  | Category.IllegalNumber _ | Category.Comment | Category.Unclosed _
  | Category.UnknownBase | Category.UnknownSymbol | Category.String _
  | Category.Number _ | Category.Identifier _ => false
  | _ => true
  end.

Lemma symbol_scans c x l rest start t :
  is_symbol c = true -> chars_of (Category.to_string c) = x :: l ->
  chars (cursor t) = l ++ " "%char :: rest ->
  scans (symbol start x) t c (" "%char :: rest).
Proof.
  intros Hs Hx Ht. destruct t as [tc [il ch ln cl]]. simpl in Ht. subst ch.
  destruct c; try discriminate Hs; simpl in Hx; injection Hx as <- <-;
    (eexists; split; [reflexivity|reflexivity]).
Qed.

(** A skip that stops in front of [x]. *)
Lemma skip_at code a t p pre x rest :
  at_ code a t -> chars (cursor t) = pre ++ x :: rest ->
  Forall (fun c => p c = true) pre -> p x = false ->
  exists t', skip_while p t = (Ok tt, t') /\ at_ code (a ++ pre) t'
    /\ chars (cursor t') = x :: rest.
Proof.
  intros H Hc Hp Hx. eexists. split; [done|].
  assert (chars (Cursor.skip_while p (cursor t)) = x :: rest) as E
    by by rewrite Cursor.skip_while_chars, Hc, drop_while_all.
  split; [|done]. eapply at_moves; [done..|].
  split; [apply Cursor.skip_while_initial|]. simpl. by rewrite E.
Qed.

Lemma is_eof_cons t x rest :
  chars (cursor t) = x :: rest -> is_eof t = (Ok false, t).
Proof. intros H. unfold is_eof, gets, Cursor.is_eof. by rewrite H. Qed.

Lemma len_consumed_at code a t : at_ code a t -> len_consumed t = (Ok (len_utf8 a), t).
Proof. intros H. unfold len_consumed, gets. by rewrite (at_consumed _ _ _ H). Qed.

Lemma peek_cons t x rest : chars (cursor t) = x :: rest -> peek 0 t = (Ok x, t).
Proof. intros H. unfold peek, gets, Cursor.peek. by rewrite H. Qed.

Lemma tok_bind_ok {A B} (m : T A) (f : A -> T B) t x t' : m t = (Ok x, t') -> (m ≫= f) t = f x t'.
Proof. apply bind_ok. Qed.

Lemma string_scans code a t s rest :
  at_ code a t -> chars (cursor t) = chars_of s ++ dquote :: rest ->
  ~ In dquote (chars_of s) ->
  scans tokenize_string t (Category.String s) rest.
Proof.
  intros H Hc Hq. unfold scans, tokenize_string.
  destruct (skip_at code a t (fun c => negb (Ascii.eqb c dquote)) (chars_of s) dquote rest)
    as (t1 & E1 & H1 & C1); [done..| |done|].
  { apply Forall_forall. intros x Hx%list_elem_of_In.
    apply negb_true_iff, Ascii.eqb_neq. congruence. }
  destruct (advance_cons _ _ _ _ _ H1 C1) as (t2 & E2 & H2 & C2).
  exists t2. split; [|done].
  erewrite tok_bind_ok by by eapply len_consumed_at. erewrite tok_bind_ok by done.
  erewrite tok_bind_ok by by eapply is_eof_cons. cbv beta iota.
  erewrite tok_bind_ok by by eapply len_consumed_at.
  erewrite tok_bind_ok by by eapply lookup_at. erewrite tok_bind_ok by done.
  by rewrite string_of_chars.
Qed.

Lemma identifier_scans code a t c l rest :
  at_ code (a ++ [c]) t -> chars (cursor t) = l ++ " "%char :: rest ->
  valid_identifier (string_of (c :: l)) ->
  scans (tokenize_identifier (len_utf8 a)) t
    (Category.Identifier (IdentifierType.new (string_of (c :: l)))) (" "%char :: rest).
Proof.
  intros H Hc [Hx Hv]. rewrite chars_of_string in Hv. destruct Hv as [_ Hl].
  unfold scans, tokenize_identifier.
  destruct (skip_at code (a ++ [c]) t identifier_char l " "%char rest)
    as (t1 & E1 & H1 & C1); [done..|].
  rewrite <- app_assoc in H1. simpl in H1.
  exists t1. split; [|done]. erewrite tok_bind_ok by done.
  erewrite tok_bind_ok by by eapply len_consumed_at.
  erewrite tok_bind_ok by by eapply lookup_at. cbv beta. by rewrite decide_False.
Qed.

(** An identifier starts with none of the characters of the other tokens. *)
Lemma symbol_identifier start c :
  is_alphabetic c || Ascii.eqb c "_" = true ->
  symbol start c = tokenize_identifier start.
Proof.
  intros H. unfold symbol. cbv zeta.
  destruct c as [[] [] [] [] [] [] [] []]; try discriminate H; reflexivity.
Qed.

Lemma symbol_number start c :
  is_ascii_digit c = true -> symbol start c = tokenize_number start c.
Proof.
  intros H. unfold symbol. cbv zeta.
  destruct c as [[] [] [] [] [] [] [] []]; try discriminate H; reflexivity.
Qed.

Lemma digit_not_sign c : is_ascii_digit c = true ->
  Ascii.eqb c "-" = false /\ Ascii.eqb c "+" = false.
Proof. intros H. destruct c as [[] [] [] [] [] [] [] []]; try discriminate H; done. Qed.

Lemma parse_decimal c l n :
  is_ascii_digit c = true -> digits_value 10 0 (c :: l) = Some n -> (0 <= n < 2 ^ 63)%Z ->
  i64_from_str_radix (c :: l) 10 = Some n.
Proof.
  intros Hc Hv Hn. destruct (digit_not_sign c Hc) as [Hm Hp].
  unfold i64_from_str_radix. rewrite Hm, Hp. unfold parse_digits. rewrite Hv. simpl.
  rewrite (proj2 (in_i_spec 64 n)); [done|]. lia.
Qed.

(** A run of decimal digits in front of a space, not starting like another base. *)
Lemma number_scans code a t c l rest n :
  at_ code (a ++ [c]) t -> chars (cursor t) = l ++ " "%char :: rest ->
  Forall (fun x => is_ascii_digit x = true) (c :: l) -> (c = "0"%char -> l = []) ->
  digits_value 10 0 (c :: l) = Some n -> (0 <= n < 2 ^ 63)%Z ->
  scans (tokenize_number (len_utf8 a) c) t (Category.Number n) (" "%char :: rest).
Proof.
  intros H Hc Hd H0 Hv Hn. apply Forall_cons in Hd as [Hdc Hdl].
  unfold scans, tokenize_number.
  assert (number_base (len_utf8 a) c t = (Ok (Some Base.Base10, len_utf8 a), t)) as Hb.
  { unfold number_base. destruct (Ascii.eqb c "0") eqn:E; [|done].
    apply Ascii.eqb_eq in E. rewrite (H0 E) in Hc. simpl in Hc.
    by erewrite tok_bind_ok by by eapply peek_cons. }
  destruct (skip_at code (a ++ [c]) t is_ascii_digit l " "%char rest)
    as (t1 & E1 & H1 & C1); [done..|].
  rewrite <- app_assoc in H1. simpl in H1.
  exists t1. split; [|done]. erewrite tok_bind_ok by done. cbv beta iota.
  erewrite tok_bind_ok by done.
  assert (may_parse_ipv4 Base.Base10 (len_utf8 a) t1 = (Ok None, t1)) as Hip.
  { unfold may_parse_ipv4. erewrite tok_bind_ok by by eapply peek_cons.
    by erewrite tok_bind_ok by done. }
  erewrite tok_bind_ok by done. cbv beta iota.
  erewrite tok_bind_ok by by eapply len_consumed_at. cbv beta.
  destruct (_ =? _) eqn:Eq.
  { apply Nat.eqb_eq in Eq. rewrite len_utf8_app in Eq. simpl in Eq.
    pose proof (utf8_len_pos c). lia. }
  erewrite tok_bind_ok by by eapply lookup_at. cbv beta.
  rewrite chars_of_string. change (Base.radix Base.Base10) with 10%Z.
  by rewrite (parse_decimal c l n).
Qed.

Lemma identifier_head_facts c :
  is_alphabetic c || Ascii.eqb c "_" = true -> is_whitespace c = false.
Proof. intros H. destruct c as [[] [] [] [] [] [] [] []]; try discriminate H; done. Qed.

Lemma digit_head_facts c : is_ascii_digit c = true -> is_whitespace c = false.
Proof. intros H. destruct c as [[] [] [] [] [] [] [] []]; try discriminate H; done. Qed.

(** One printed token is read back, whatever white space precedes it. *)
Lemma printed_reads code a t l c rest :
  at_ code a t -> Forall (fun x => is_whitespace x = true) l -> printable c ->
  chars (cursor t) = l ++ chars_of (Category.to_string c) ++ " "%char :: rest ->
  reads t c (" "%char :: rest).
Proof.
  intros H Hl Hp Hc. destruct (is_symbol c) eqn:Es.
  { destruct (chars_of (Category.to_string c)) as [|x r] eqn:Ex; [by destruct c|].
    eapply reads_intro; [done..| |].
    - destruct c; try discriminate Es; simpl in Ex; by simplify_eq.
    - intros t2 _ Hr. by eapply symbol_scans. }
  destruct c; try discriminate Es; try done; simpl in Hp, Hc.
  - (* String *)
    change (list_ascii_of_string ?x) with (chars_of x) in Hc.
    rewrite chars_of_app in Hc. simpl in Hc.
    rewrite <- app_assoc in Hc. eapply reads_intro; [done..|].
    intros t2 H2 Hr. by eapply string_scans.
  - (* Number *)
    destruct (decide (n = 0)%Z) as [->|Hn].
    + change (chars_of (pretty 0%Z)) with ["0"%char] in Hc. simpl in Hc.
      eapply reads_intro; [done..|]. intros t2 H2 Hr. rewrite symbol_number by done.
      eapply (number_scans _ _ _ _ []); [done..| |done|done|done]. by repeat constructor.
    + destruct (show_Z_pos n) as (d & ds & E & Hd & Hf & Hv); [lia|].
      rewrite E in Hc. pose proof Hf as [Hdig _]%Forall_cons.
      eapply reads_intro; [done..|by apply digit_head_facts|].
      intros t2 H2 Hr. rewrite symbol_number by done. by eapply number_scans.
  - (* Identifier *)
    destruct Hp as [Hv Hi]. pose proof Hv as Hv'. destruct Hv' as [_ Hv'].
    set (s := IdentifierType.to_string i) in *.
    destruct (chars_of s) as [|x r] eqn:Ex; [done|]. destruct Hv' as [Hx _].
    assert (s = string_of (x :: r)) as Es' by by rewrite <- Ex, string_of_chars.
    eapply reads_intro; [done..|by apply identifier_head_facts|].
    intros t2 H2 Hr. rewrite symbol_identifier by done. rewrite Hi, Es'.
    eapply identifier_scans; [done..|]. by rewrite <- Es'.
Qed.

Fixpoint print_tokens (cs : list Category.t) : list char :=
  match cs with
  | [] => []
  | c :: cs' => chars_of (Category.to_string c) ++ " "%char :: print_tokens cs'
  end.

Lemma drop_while_none f l : Forall (fun c => f c = true) l -> drop_while f l = [].
Proof. induction 1 as [|c l Hc Hl IH]; simpl; [done|by rewrite Hc]. Qed.

Lemma next_eof code a t :
  at_ code a t -> Forall (fun c => is_whitespace c = true) (chars (cursor t)) ->
  exists t', next t = (Ok None, t').
Proof.
  intros H Hw.
  set (t1 := mkTokenizer (tz_code t) (Cursor.skip_while is_whitespace (cursor t))).
  assert (chars (cursor t1) = []) as E
    by by (unfold t1; simpl; rewrite Cursor.skip_while_chars; apply drop_while_none).
  exists t1. unfold next, mbind, M_bind, skip_while, modify, len_consumed, line_column, gets.
  fold t1. unfold advance, Cursor.advance. by rewrite E.
Qed.

Lemma collect_printed cs : forall fuel code a t l,
  Forall printable cs -> at_ code a t -> Forall (fun c => is_whitespace c = true) l ->
  chars (cursor t) = l ++ print_tokens cs -> length cs < fuel ->
  exists toks, collect fuel t = Ok toks /\ map category toks = cs.
Proof.
  induction cs as [|c cs IH]; intros [|fuel] code a t l Hp H Hl Hc Hf; try (simpl in Hf; lia).
  - simpl in Hc. rewrite app_nil_r in Hc.
    destruct (next_eof code a t) as [t' E]; [done|by rewrite Hc|].
    exists []. simpl. by rewrite E.
  - apply Forall_cons in Hp as [Hpc Hp]. simpl in Hc.
    destruct (printed_reads code a t l c (print_tokens cs)) as (tok & t' & E & Hcat & Hr);
      [done..|].
    pose proof (next_spec code a t H) as Hn. unfold wp in Hn. rewrite E in Hn.
    destruct Hn as (ws & _ & text & _ & H' & _).
    destruct (IH fuel code (a ++ ws ++ text) t' [" "%char]) as (toks & Et & Hm);
      [done|done|by apply Forall_singleton|done|simpl in Hf; lia|].
    exists (tok :: toks). simpl. rewrite E, Et, Hm, Hcat. done.
Qed.

Lemma print_tokens_length cs : length cs <= length (print_tokens cs).
Proof. induction cs as [|c cs IH]; simpl; [lia|]. rewrite length_app. simpl. lia. Qed.

(** ** The claims *)

(** C4: Tokenizing terminates without a panic on every text: with one unit of
    fuel per character and one more, the tokenizer returns its tokens, no slice
    [code[start..end]] misses a character boundary, every token has a non-empty
    span that starts at or after the end of the previous one, and between the
    spans (and after the last one) there is nothing but white space. *)
Theorem tokenize_total (s : string) :
  exists toks, tokenize s = Ok toks /\ spans (chars_of s) [] toks
    /\ length toks <= length (chars_of s).
Proof.
  destruct (collect_spans (S (length (chars_of s))) (chars_of s) [] (new s))
    as (toks & E & Hs & Hl); [apply at_new|simpl; lia|].
  by exists toks.
Qed.

(** C9: Display and tokenizer are inverse: printing any list of operators,
    keywords, identifiers other than [x], non-negative [i64] numbers and strings
    without a double quote, each followed by a space, and tokenizing the text
    gives the same list of categories. *)
Theorem tokenize_display_roundtrip (cs : list Category.t) :
  Forall printable cs -> categories (string_of (print_tokens cs)) = Ok cs.
Proof.
  intros H. unfold categories, tokenize.
  destruct (collect_printed cs (S (length (chars_of (string_of (print_tokens cs)))))
    (chars_of (string_of (print_tokens cs))) [] (new (string_of (print_tokens cs))) [])
    as (toks & E & Hm); [done|apply at_new|done|simpl; apply chars_of_string| |].
  - rewrite chars_of_string. pose proof (print_tokens_length cs). lia.
  - by rewrite E, Hm.
Qed.

Definition roundtrip_sample : list Category.t :=
  [ Category.Identifier (IdentifierType.Undefined "a"); Category.GreaterGreaterGreaterEqual;
    Category.Number 9223372036854775807; Category.Plus; Category.Number 0;
    Category.String "it's"; Category.Identifier IdentifierType.ForEach ].

Lemma tokenize_display_roundtrip_witness :
  Forall printable roundtrip_sample /\
  categories (string_of (print_tokens roundtrip_sample)) = Ok roundtrip_sample.
Proof.
  assert (Forall printable roundtrip_sample) as H.
  { repeat constructor; try done; vm_compute; try done; naive_solver. }
  split; [exact H|]. exact (tokenize_display_roundtrip roundtrip_sample H).
Defined.
