(* ===== verification/Statement.v ===== *)
(** * Statements and syntax errors ([nasl/syntax/statement.rs], [error.rs]) *)

From S2P Require Import Prelude RustStr Token.
Local Open Scope nat_scope.

Module AssignOrder.
Inductive t : Set := AssignReturn | ReturnAssign.
#[global] Instance eq_dec : EqDecision t.
Proof. solve_decision. Defined.
End AssignOrder.

(** [StatementKind] and [Statement] of the source. *)
Inductive Statement : Set :=
| mkStatement (start : Token) (end_ : option Token) (kind : StatementKind)
with StatementKind : Set :=
| Primitive
| AttackCategory
| Variable_
| Array (index : option Statement)
| Call (args : Statement)
| Exit (e : Statement)
| Return (e : Statement)
| Break
| Continue
| Include (e : Statement)
| Declare_ (vars : list Statement)
| Parameter_ (params : list Statement)
| NamedParameter (e : Statement)
| Assign (c : Category.t) (o : AssignOrder.t) (l r : Statement)
| Operator (c : Category.t) (args : list Statement)
| If (c b : Statement) (ekw : option Token) (e : option Statement)
| For (init cond update body : Statement)
| While (c b : Statement)
| Repeat (b c : Statement)
| ForEach (v : Token) (iter body : Statement)
| Block (stmts : list Statement)
| FunctionDeclaration (name : Token) (params body : Statement)
| NoOp
| EoF.

Module Statement.
Definition start (s : Statement) : Token := let 'mkStatement t _ _ := s in t.
Definition end_field (s : Statement) : option Token := let 'mkStatement _ e _ := s in e.
Definition kind (s : Statement) : StatementKind := let 'mkStatement _ _ k := s in k.

Definition as_token (s : Statement) : Token := start s.
Definition end_ (s : Statement) : Token := default (start s) (end_field s).
Definition set_end (s : Statement) (t : Token) : Statement :=
  mkStatement (start s) (Some t) (kind s).

Definition with_start_token (t : Token) (k : StatementKind) : Statement :=
  mkStatement t None k.
Definition with_start_end_token (s e : Token) (k : StatementKind) : Statement :=
  mkStatement s (Some e) k.
Definition without_token (k : StatementKind) : Statement :=
  mkStatement Token.default None k.

(** The statements directly below a statement, in the order in which
    [as_tokens] and [find] visit them. *)
Definition parts (k : StatementKind) : list Statement :=
  match k with
  | Primitive | AttackCategory | Variable_ | NoOp | Break | Continue | Array None
  | EoF => []
  | NamedParameter x | Exit x | Return x | Include x | Call x | Array (Some x) => [x]
  | Block x | Operator _ x | Parameter_ x | Declare_ x => x
  | While x y | Repeat x y | Assign _ _ x y => [x; y]
  | If r x _ z => r :: x :: match z with Some z => [z] | None => [] end
  | For r x y z => [r; x; y; z]
  | ForEach _ y z => [y; z]
  | FunctionDeclaration _ y w => [y; w]
  end.

(** [as_tokens]: the tokens of a statement from left to right. *)
Fixpoint as_tokens (s : Statement) : list Token :=
  let 'mkStatement st en k := s in
  let list_tokens := fix go (l : list Statement) : list Token :=
    match l with [] => [] | x :: l' => as_tokens x ++ go l' end in
  st :: match k with
        | Primitive | AttackCategory | Variable_ | NoOp | Break | Continue | Array None
        | EoF => []
        | NamedParameter x | Exit x | Return x | Include x | Call x | Array (Some x) =>
            as_tokens x
        | Block x | Operator _ x | Parameter_ x | Declare_ x => list_tokens x
        | While x y | Repeat x y | Assign _ _ x y => as_tokens x ++ as_tokens y
        | If r x y z =>
            as_tokens r ++ as_tokens x
            ++ match y with Some y => [y] | None => [] end
            ++ match z with Some z => as_tokens z | None => [] end
        | For r x y z => as_tokens r ++ as_tokens x ++ as_tokens y ++ as_tokens z
        | ForEach x y z => x :: as_tokens y ++ as_tokens z
        | FunctionDeclaration x y w => x :: as_tokens y ++ as_tokens w
        end
     ++ match en with Some t => [t] | None => [] end.

(** [children] of blocks and calls. *)
Fixpoint children (s : Statement) : list Statement :=
  let 'mkStatement _ _ k := s in
  match k with
  | Call x | FunctionDeclaration _ x _ => children x
  | Block x | Operator _ x | Parameter_ x | Declare_ x => x
  | _ => []
  end.

Definition position (s : Statement) : nat * nat :=
  ((tok_position (start s)).1,
   match end_field s with Some e => (tok_position e).2 | None => (tok_position (start s)).2 end).
Definition range (s : Statement) : nat * nat := position s.

(** [find]: the outermost statements that satisfy [wanted]. *)
Fixpoint find (wanted : Statement -> bool) (s : Statement) : list Statement :=
  if wanted s then [s]
  else
    let 'mkStatement _ _ k := s in
    let list_find := fix go (l : list Statement) : list Statement :=
      match l with [] => [] | x :: l' => find wanted x ++ go l' end in
    match k with
    | Primitive | AttackCategory | Variable_ | NoOp | Break | Continue | Array None
    | EoF => []
    | NamedParameter x | Exit x | Return x | Include x | Call x | Array (Some x) =>
        find wanted x
    | Block x | Operator _ x | Parameter_ x | Declare_ x => list_find x
    | While x y | Repeat x y | Assign _ _ x y => find wanted x ++ find wanted y
    | If r x _ z =>
        find wanted r ++ find wanted x
        ++ match z with Some z => find wanted z | None => [] end
    | For r x y z => find wanted r ++ find wanted x ++ find wanted y ++ find wanted z
    | ForEach _ y z => find wanted y ++ find wanted z
    | FunctionDeclaration _ y w => find wanted y ++ find wanted w
    end.

Definition is_returnable (k : StatementKind) : bool :=
  match k with
  | Primitive | Variable_ | Call _ | Return _ | Assign _ _ _ _ | Array _
  | Operator _ _ => true
  | _ => false
  end.

(** [Display]; [token_debug] is the derived [Debug] text of a token. *)
Section Display.
Context (token_debug : Token -> string).
Local Open Scope string_scope.

Fixpoint to_string (s : Statement) : string :=
  let 'mkStatement x _ k := s in
  let category := Category.to_string (category x) in
  let as_str_list := fun l => String.concat ", " (map to_string l) in
  match k with
  | Primitive | Variable_ | Array None => category
  | AttackCategory => token_debug x
  | Array (Some e) => category ++ "[" ++ to_string e ++ "]"
  | Call args => category ++ to_string args ++ ";"
  | Exit x => "exit(" ++ to_string x ++ ");"
  | Return x => "return " ++ to_string x ++ ";"
  | Include x => "include(" ++ to_string x ++ ");"
  | Declare_ y => category ++ " " ++ as_str_list y
  | Parameter_ x => "(" ++ as_str_list x ++ ")"
  | NamedParameter s => category ++ ": " ++ to_string s
  | Assign c o l r =>
      match o, kind r with
      | AssignOrder.AssignReturn, NoOp => Category.to_string c ++ to_string l
      | AssignOrder.ReturnAssign, NoOp => to_string l ++ Category.to_string c
      | _, _ => to_string l ++ " " ++ Category.to_string c ++ " " ++ to_string r
      end
  | Operator o args =>
      match args with
      | [l; r] => to_string l ++ " " ++ Category.to_string o ++ " " ++ to_string r
      | [l] => Category.to_string o ++ to_string l
      | _ => "(" ++ Category.to_string o ++ " (" ++ as_str_list args ++ "))"
      end
  | If c x _ e =>
      "if (" ++ to_string c ++ ") " ++ to_string x
      ++ match e with Some e => " else " ++ to_string e | None => "" end
  | For i c u e =>
      "for (" ++ to_string i ++ "; " ++ to_string c ++ "; " ++ to_string u ++ ") { "
      ++ to_string e ++ " }"
  | While c e => "while (" ++ to_string c ++ ") {" ++ to_string e ++ "}"
  | Repeat e c => "repeat " ++ to_string e ++ " until " ++ to_string c
  | ForEach v a e =>
      "foreach " ++ Category.to_string (Token.category v) ++ "(" ++ to_string a ++ ") {"
      ++ to_string e ++ "}"
  | Block _ => "{ ... }"
  | FunctionDeclaration n p _ =>
      "function " ++ Category.to_string (Token.category n) ++ "(" ++ to_string p ++ ") { ... }"
  | NoOp => "NoOp"
  | EoF => "EoF"
  | Break => "break"
  | Continue => "continue"
  end.
End Display.

(** How many statements a statement is made of. *)
Fixpoint size (s : Statement) : nat :=
  let 'mkStatement _ _ k := s in
  let sizes := fix go (l : list Statement) : nat :=
    match l with [] => 0 | x :: l' => size x + go l' end in
  S match k with
    | Primitive | AttackCategory | Variable_ | NoOp | Break | Continue | Array None
    | EoF => 0
    | NamedParameter x | Exit x | Return x | Include x | Call x | Array (Some x) => size x
    | Block x | Operator _ x | Parameter_ x | Declare_ x => sizes x
    | While x y | Repeat x y | Assign _ _ x y => size x + size y
    | If r x _ z => size r + size x + match z with Some z => size z | None => 0 end
    | For r x y z => size r + size x + size y + size z
    | ForEach _ y z => size y + size z
    | FunctionDeclaration _ y w => size y + size w
    end.

Lemma size_part s x : In x (parts (kind s)) -> size x < size s.
Proof.
  assert (forall l, In x l ->
    size x <= (fix go (l : list Statement) : nat :=
      match l with [] => 0 | y :: l' => size y + go l' end) l) as Hl.
  { induction l as [|y l IH]; simpl; [done|]. intros [->|H]; [lia|]. apply IH in H. lia. }
  destruct s as [st en k]. simpl.
  destruct k as [| | |[]| | | | | | | | | | | |r b w []| | | | | | | |]; simpl; intros H;
    try (apply Hl in H; lia); destruct_or? H; subst; try done; lia.
Qed.

(** Induction over the statement tree. *)
Lemma tree_ind (P : Statement -> Prop) :
  (forall s, (forall x, In x (parts (kind s)) -> P x) -> P s) -> forall s, P s.
Proof.
  intros H. enough (forall n s, size s < n -> P s) by eauto.
  induction n as [|n IH]; intros s Hs; [lia|]. apply H. intros x Hx. apply IH.
  apply size_part in Hx. lia.
Qed.

(** [sub x s]: [x] is [s] or occurs below it. *)
Inductive sub : Statement -> Statement -> Prop :=
| sub_refl s : sub s s
| sub_part x y s : In y (parts (kind s)) -> sub x y -> sub x s.

Lemma find_unfold wanted s :
  find wanted s = if wanted s then [s] else flat_map (find wanted) (parts (kind s)).
Proof.
  assert (forall l, (fix go (l : list Statement) : list Statement :=
      match l with [] => [] | x :: l' => find wanted x ++ go l' end) l
    = flat_map (find wanted) l) as Hl.
  { induction l as [|x l IH]; simpl; [done|by f_equal]. }
  destruct s as [st en k].
  destruct k as [| | |[]| | | | | | | | | | | |r b w []| | | | | | | |]; simpl;
    rewrite ?Hl, ?app_nil_r; reflexivity.
Qed.

Lemma find_sound wanted s :
  forall x, In x (find wanted s) -> wanted x = true /\ sub x s.
Proof.
  induction s as [s IH] using tree_ind. intros x. rewrite find_unfold.
  destruct (wanted s) eqn:E.
  - intros [->|[]]. split; [done|constructor].
  - intros (y & Hy & Hx)%in_flat_map. destruct (IH y Hy x Hx) as [Hw Hsub].
    split; [done|]. by econstructor.
Qed.

Lemma find_complete wanted x s :
  sub x s -> wanted x = true -> exists y, In y (find wanted s) /\ sub x y.
Proof.
  induction 1 as [s|x y s Hy Hsub IH]; intros Hw.
  - exists s. rewrite find_unfold, Hw. split; [by left|constructor].
  - rewrite find_unfold. destruct (wanted s).
    + exists s. split; [by left|by econstructor].
    + destruct (IH Hw) as (z & Hz & Hxz). exists z. split; [|done].
      apply in_flat_map. eauto.
Qed.
End Statement.

(** ** Syntax errors

    The line and file of the Rust source that raised the error are left out. *)
Module ErrorKind.
Inductive t : Set :=
| UnexpectedToken (tok : Token)
| UnclosedToken (tok : Token)
| UnexpectedStatement (s : Statement)
| MissingSemicolon (s : Statement)
| UnclosedStatement (s : Statement)
| MaxRecursionDepth (n : Z)
| EoF
| IOError (kind : string).
End ErrorKind.

Module SyntaxError.
Definition t : Set := ErrorKind.t.

Definition as_token (e : t) : option Token :=
  match e with
  | ErrorKind.UnexpectedToken t => Some t
  | ErrorKind.UnclosedToken t => Some t
  | ErrorKind.UnexpectedStatement s => Some (Statement.as_token s)
  | ErrorKind.MissingSemicolon s => Some (Statement.as_token s)
  | ErrorKind.UnclosedStatement s => Some (Statement.as_token s)
  | ErrorKind.EoF | ErrorKind.IOError _ | ErrorKind.MaxRecursionDepth _ => None
  end.

(** The macros [unexpected_token!], [unexpected_statement!], ... *)
Definition unexpected_token (tok : Token) : t := ErrorKind.UnexpectedToken tok.
Definition unexpected_statement (s : Statement) : t := ErrorKind.MissingSemicolon s.
Definition unclosed_statement (s : Statement) : t := ErrorKind.UnclosedStatement s.
Definition unclosed_token (tok : Token) : t := ErrorKind.UnclosedToken tok.
Definition unexpected_end : t := ErrorKind.EoF.
Definition max_recursion (n : Z) : t := ErrorKind.MaxRecursionDepth n.
End SyntaxError.

(** [find] returns exactly the outermost wanted statements: everything it returns
    is wanted and occurs in the statement, and every wanted statement that occurs
    lies within one it returns. *)
Theorem find_outermost (wanted : Statement -> bool) (s : Statement) :
  (forall x, In x (Statement.find wanted s) -> wanted x = true /\ Statement.sub x s)
  /\ (forall x, Statement.sub x s -> wanted x = true ->
        exists y, In y (Statement.find wanted s) /\ Statement.sub x y).
Proof. split; [apply Statement.find_sound|intros x; apply Statement.find_complete]. Qed.
