(* ===== verification/Lexer.v ===== *)
(** * The parser ([nasl/syntax/lexer.rs], [operation.rs], [prefix_extension.rs],
    [grouping_extension.rs], [keyword_extension.rs])

    The Rust methods call each other through [Lexer::statement].  Here every
    method that needs it takes it as an argument [rec], and [statement] ties the
    knot with fuel; the [while let Some(token) = self.peek()] loops are bounded by
    the tokens that are left.  [LexerProps] shows that neither bound is reached.

    The parser only asks its tokenizer for the next token; [TokenSource] is that
    interface, with the tokenizer and a plain list of tokens as instances. *)

From S2P Require Import Prelude RustStr Cursor Token Tokenizer Statement.
Local Open Scope nat_scope.

(** ** Where tokens come from *)
Class TokenSource (T : Type) := {
  src_next : M T Empty_set (option Token);
  (** an upper bound of the tokens that are left *)
  src_size : T -> nat;
  (** the states in which [src_next] is promised to work *)
  src_wf : T -> Prop;
}.

#[global] Instance tokenizer_source : TokenSource Tokenizer := {|
  src_next := Tokenizer.next;
  src_size t := length (chars (cursor t));
  src_wf t := exists a, tz_code t = a ++ chars (cursor t)
    /\ initial_len (cursor t) = len_utf8 (tz_code t);
|}.

#[global] Instance list_source : TokenSource (list Token) := {|
  src_next l := match l with [] => (Ok None, []) | t :: l' => (Ok (Some t), l') end;
  src_size l := length l;
  src_wf _ := True;
|}.

(** ** Operations ([operation.rs]) *)
Module Operation.
Inductive t : Set :=
| Operator (c : Category.t)
| Assign (c : Category.t)
| Grouping (c : Category.t)
| Variable_
| Primitive
| Keyword (i : IdentifierType.t)
| NoOp.

Definition new (token : Token) : option t :=
  match category token with
  | (Category.Plus | Category.Star | Category.Slash | Category.Minus | Category.Percent
    | Category.LessLess | Category.GreaterGreater | Category.GreaterGreaterGreater
    | Category.Tilde | Category.Ampersand | Category.Pipe | Category.Caret | Category.Bang
    | Category.EqualTilde | Category.BangTilde | Category.GreaterLess
    | Category.GreaterBangLess | Category.AmpersandAmpersand | Category.PipePipe
    | Category.EqualEqual | Category.BangEqual | Category.Greater | Category.Less
    | Category.GreaterEqual | Category.LessEqual | Category.X | Category.StarStar) as c =>
      Some (Operator c)
  | (Category.Equal | Category.MinusEqual | Category.PlusEqual | Category.SlashEqual
    | Category.StarEqual | Category.GreaterGreaterEqual | Category.LessLessEqual
    | Category.GreaterGreaterGreaterEqual | Category.PlusPlus | Category.Semicolon
    | Category.DoublePoint | Category.PercentEqual | Category.MinusMinus) as c =>
      Some (Assign c)
  | Category.String _ | Category.Data _ | Category.Number _ | Category.IPv4Address _ =>
      Some Primitive
  | (Category.LeftParen | Category.LeftBrace | Category.LeftCurlyBracket
    | Category.Comma) as c => Some (Grouping c)
  | Category.Identifier (IdentifierType.Undefined _) => Some Variable_
  | Category.Identifier keyword => Some (Keyword keyword)
  | Category.Comment => Some NoOp
  | _ => None
  end.
End Operation.

(** ** The lexer's state and results *)
Record Lexer (T : Type) := mkLexer { tokenizer : T; depth : Z }.
Arguments mkLexer {T}.
Arguments tokenizer {T}.
Arguments depth {T}.

Inductive End_ : Set := Done (t : Token) | Cont.

Definition is_done (e : End_) : bool := match e with Done _ => true | Cont => false end.

Definition MAX_DEPTH : Z := 42.

Inductive InFixState : Set :=
| NoInfix
| ReturnContinue (s : Statement)
| ReturnEnd (t : Token) (s : Statement)
| Unfinished (s : Statement).

(** Left and right binding power of an infix operation. *)
Definition infix_binding_power (op : Operation.t) : option (Z * Z) :=
  match op with
  | Operation.Operator Category.StarStar => Some (22, 23)
  | Operation.Operator (Category.Star | Category.Slash | Category.Percent) => Some (20, 21)
  | Operation.Operator (Category.Plus | Category.Minus) => Some (18, 19)
  | Operation.Operator (Category.LessLess | Category.GreaterGreater
      | Category.GreaterGreaterGreater) => Some (16, 17)
  | Operation.Operator Category.Ampersand => Some (14, 15)
  | Operation.Operator Category.Caret => Some (12, 13)
  | Operation.Operator Category.Pipe => Some (10, 11)
  | Operation.Operator (Category.Less | Category.LessEqual | Category.Greater
      | Category.GreaterEqual | Category.EqualEqual | Category.BangEqual
      | Category.GreaterLess | Category.GreaterBangLess | Category.EqualTilde
      | Category.BangTilde) => Some (8, 9)
  | Operation.Operator Category.AmpersandAmpersand => Some (6, 7)
  | Operation.Operator Category.PipePipe => Some (4, 5)
  | Operation.Assign _ | Operation.Operator Category.X => Some (2, 3)
  | _ => None
  end%Z.

Section Parser.
Context {T : Type} `{TokenSource T} `{BuildProfile}.

Definition L (A : Type) : Type := M (Lexer T) SyntaxError.t A.
Definition Abort_ : Type := Category.t -> bool.

Definition new_lexer (t : T) : Lexer T := mkLexer t 0.

(** *** Tokens

    [for token in self.tokenizer.by_ref()] without the comments. *)
Fixpoint skip_comments (fuel : nat) : M T Empty_set (option Token) :=
  match fuel with
  | 0 => out_of_fuel
  | S fuel' =>
      o ← src_next;
      match o with
      | Some tok =>
          if bool_decide (category tok = Category.Comment) then skip_comments fuel'
          else mret (Some tok)
      | None => mret None
      end
  end.

Definition token : L (option Token) := fun l =>
  match skip_comments (S (src_size (tokenizer l))) (tokenizer l) with
  | (Ok o, t') => (Ok o, mkLexer t' (depth l))
  | (Err e, t') => match e with end
  | (Panic, t') => (Panic, mkLexer t' (depth l))
  | (OutOfFuel, t') => (OutOfFuel, mkLexer t' (depth l))
  end.

(** [peek] runs on a clone of the tokenizer. *)
Definition peek : L (option Token) := fun l => ((token l).1, l).

Definition set_depth (d : Z) : L unit := modify (fun l => mkLexer (tokenizer l) d).

(** [self.depth += 1] on a [u8] *)
Definition inc_depth : L Z :=
  l ← get;
  d ← or_panic (arith_u 8 (depth l + 1));
  set_depth d;;
  mret d.

Definition done (token : Token) (left : Statement) : L (End_ * Statement) :=
  mret (Done token, Statement.set_end left token).

Definition as_returnable_or_err (s : Statement) : L Statement :=
  if Statement.is_returnable (Statement.kind s) then mret s
  else throw (SyntaxError.unexpected_statement s).

Definition is_cat (c : Category.t) : Abort_ := fun c' => Category.eqb c' c.

(** *** The methods that call [statement] *)
Section Methods.
Context (rec : Z -> Abort_ -> L (End_ * Statement)).

Definition parse_comma_group_arm (param : Statement) (params : list Statement) :
  list Statement :=
  match Statement.kind param with
  | Parameter_ nparams => params ++ nparams
  | _ => params ++ [param]
  end.

Fixpoint comma_group_loop (cat : Category.t) (fuel : nat) (params : list Statement) :
  L (End_ * list Statement) :=
  match fuel with
  | 0 => out_of_fuel
  | S fuel' =>
      o ← peek;
      match o with
      | None => mret (Cont, params)
      | Some tok =>
          if Category.eqb (category tok) cat then token;; mret (Done tok, params)
          else
            '(stmtend, param) ← rec 0%Z (fun c => Category.eqb c cat
                                          || Category.eqb c Category.Comma);
            let params := parse_comma_group_arm param params in
            match stmtend with
            | Done endcat =>
                if Category.eqb (category endcat) cat then mret (Done endcat, params)
                else comma_group_loop cat fuel' params
            | Cont => comma_group_loop cat fuel' params
            end
      end
  end.

Definition parse_comma_group (cat : Category.t) : L (End_ * list Statement) :=
  l ← get; comma_group_loop cat (S (src_size (tokenizer l))) [].

(** *** grouping_extension.rs *)
Definition parse_paren (tok : Token) : L Statement :=
  '(end_, right_) ← rec 0%Z (is_cat Category.RightParen);
  match end_ with
  | Done end_ =>
      set_depth 0;;
      mret match Statement.kind right_ with
           | Assign cat _ first second =>
               Statement.with_start_end_token tok end_
                 (Assign cat AssignOrder.AssignReturn first second)
           | _ => right_
           end
  | Cont => throw (SyntaxError.unclosed_token tok)
  end.

Fixpoint block_loop (kw : Token) (fuel : nat) (results : list Statement) : L Statement :=
  match fuel with
  | 0 => out_of_fuel
  | S fuel' =>
      o ← peek;
      match o with
      | None => throw (SyntaxError.unclosed_token kw)
      | Some tok =>
          if Category.eqb (category tok) Category.RightCurlyBracket then
            token;;
            set_depth 0;;
            mret (Statement.with_start_end_token kw tok (Block results))
          else
            '(end_, stmt) ← rec 0%Z (is_cat Category.Semicolon);
            let results :=
              if is_done end_ && match Statement.kind stmt with NoOp => false | _ => true end
              then results ++ [stmt] else results in
            block_loop kw fuel' results
      end
  end.

Definition parse_block (kw : Token) : L Statement :=
  l ← get; block_loop kw (S (src_size (tokenizer l))) [].

Definition parse_grouping (tok : Token) : L (End_ * Statement) :=
  match category tok with
  | Category.LeftParen => s ← parse_paren tok; mret (Cont, s)
  | Category.LeftCurlyBracket => s ← parse_block tok; mret (Done (Statement.end_ s), s)
  | Category.LeftBrace =>
      '(end_, right_) ← parse_comma_group Category.RightBrace;
      match end_ with
      | Done end_ =>
          mret (Cont, Statement.with_start_end_token tok end_ (Parameter_ right_))
      | Cont => throw (SyntaxError.unclosed_token tok)
      end
  | _ => throw (SyntaxError.unexpected_token tok)
  end.

(** *** prefix_extension.rs *)
Definition prefix_binding_power (tok : Token) : L Z :=
  match category tok with
  | Category.Plus | Category.Minus | Category.Tilde | Category.Bang => mret 21%Z
  | _ => throw (SyntaxError.unexpected_token tok)
  end.

Definition is_undefined (c : Category.t) : bool :=
  match c with Category.Identifier (IdentifierType.Undefined _) => true | _ => false end.

Definition parse_variable (tok : Token) : L (End_ * Statement) :=
  if negb (is_undefined (category tok)) then throw (SyntaxError.unexpected_token tok)
  else
    o ← peek;
    '(kind, end_) ←
      match o with
      | Some nt =>
          match category nt with
          | Category.LeftParen =>
              token;;
              '(end_, params) ← parse_comma_group Category.RightParen;
              match end_ with
              | Done end_ =>
                  mret (Call (Statement.with_start_end_token nt end_ (Parameter_ params)),
                        end_)
              | Cont => throw (SyntaxError.unclosed_token nt)
              end
          | Category.LeftBrace =>
              token;;
              '(end_, lookup) ← rec 0%Z (is_cat Category.RightBrace);
              lookup ← as_returnable_or_err lookup;
              match end_ with
              | Done end_ => mret (Array (Some lookup), end_)
              | Cont => throw (SyntaxError.unclosed_token tok)
              end
          | _ => mret (Variable_, tok)
          end
      | None => mret (Variable_, tok)
      end;
    mret (Cont, Statement.with_start_end_token tok end_ kind).

Definition parse_prefix_assign_operator (assign : Category.t) (tok : Token) : L Statement :=
  o ← token;
  next ← ok_or o SyntaxError.unexpected_end;
  '(_, stmt) ← parse_variable next;
  match Statement.kind stmt with
  | Variable_ | Array _ =>
      mret (Statement.with_start_end_token tok (Statement.end_ stmt)
        (Assign assign AssignOrder.AssignReturn stmt (Statement.without_token NoOp)))
  | _ => throw (SyntaxError.unexpected_token tok)
  end.

(** *** keyword_extension.rs *)
Definition not_variable (s : Statement) : bool :=
  match Statement.kind s with Variable_ => false | _ => true end.

Definition parse_declaration (tok : Token) : L Statement :=
  '(end_, params) ← parse_comma_group Category.Semicolon;
  match end_ with
  | Done end_ =>
      match List.find not_variable params with
      | Some errstmt => throw (SyntaxError.unexpected_statement errstmt)
      | None => mret (Statement.with_start_end_token tok end_ (Declare_ params))
      end
  | Cont => throw SyntaxError.unexpected_end
  end.

Definition parse_if (kw : Token) : L Statement :=
  o ← token;
  ptoken ← ok_or o SyntaxError.unexpected_end;
  condition ← match category ptoken with
              | Category.LeftParen => parse_paren ptoken
              | _ => throw (SyntaxError.unexpected_token ptoken)
              end;
  condition ← as_returnable_or_err condition;
  '(end_, body) ← rec 0%Z (is_cat Category.Semicolon);
  end_ ← match end_ with
         | Done end_ => mret end_
         | Cont => throw (SyntaxError.unclosed_token ptoken)
         end;
  o ← peek;
  '(ekw, else_, end_) ←
    match o with
    | Some tok =>
        match category tok with
        | Category.Identifier IdentifierType.Else =>
            token;;
            '(end_, stmt) ← rec 0%Z (is_cat Category.Semicolon);
            match end_ with
            | Done end_ => mret (Some tok, Some stmt, end_)
            | Cont => throw (SyntaxError.unexpected_statement stmt)
            end
        | _ => mret (None, None, end_)
        end
    | None => mret (None, None, end_)
    end;
  mret (Statement.with_start_end_token kw end_ (If condition body ekw else_)).

Definition jump_to_left_parenthesis : L unit :=
  o ← token;
  tok ← ok_or o SyntaxError.unexpected_end;
  if Category.eqb (category tok) Category.LeftParen then mret tt
  else throw (SyntaxError.unexpected_token tok).

Definition parse_call_return_params : L Statement :=
  jump_to_left_parenthesis;;
  '(end_, parameter) ← rec 0%Z (is_cat Category.RightParen);
  parameter ← as_returnable_or_err parameter;
  match end_ with
  | Done _ => mret parameter
  | Cont => throw SyntaxError.unexpected_end
  end.

Definition parse_exit (tok : Token) : L Statement :=
  parameter ← parse_call_return_params;
  '(_, should_be_semicolon) ← rec 0%Z (is_cat Category.Semicolon);
  match Statement.kind should_be_semicolon with
  | NoOp => mret (Statement.with_start_end_token tok (Statement.end_ should_be_semicolon)
              (Exit parameter))
  | _ => throw (SyntaxError.unexpected_statement should_be_semicolon)
  end.

Definition parse_include (tok : Token) : L Statement :=
  parameter ← parse_call_return_params;
  '(_, should_be_semicolon) ← rec 0%Z (is_cat Category.Semicolon);
  match Statement.kind should_be_semicolon with
  | NoOp => mret (Statement.with_start_end_token tok (Statement.end_ should_be_semicolon)
              (Include parameter))
  | _ => throw (SyntaxError.unexpected_statement should_be_semicolon)
  end.

Definition parse_function (tok : Token) : L Statement :=
  o ← token;
  id ← ok_or o SyntaxError.unexpected_end;
  if negb (is_undefined (category id)) then throw (SyntaxError.unexpected_token id)
  else
    o ← token;
    paren ← ok_or o SyntaxError.unexpected_end;
    if negb (Category.eqb (category paren) Category.LeftParen)
    then throw (SyntaxError.unexpected_token paren)
    else
      '(gend, parameter) ← parse_comma_group Category.RightParen;
      parameter_end_token ← match gend with
                            | Done t => mret t
                            | Cont => throw (SyntaxError.unclosed_token tok)
                            end;
      let parameter := Statement.with_start_end_token paren parameter_end_token
                         (Parameter_ parameter) in
      o ← token;
      block ← ok_or o SyntaxError.unexpected_end;
      if negb (Category.eqb (category block) Category.LeftCurlyBracket)
      then throw (SyntaxError.unexpected_token block)
      else
        block ← parse_block block;
        mret (Statement.with_start_end_token tok (Statement.end_ block)
          (FunctionDeclaration id parameter block)).

Definition parse_return_value (tok : Token) : L Statement :=
  '(end_, parameter) ← rec 0%Z (is_cat Category.Semicolon);
  parameter ← as_returnable_or_err parameter;
  match end_ with
  | Done end_ => mret (Statement.with_start_end_token tok end_ (Return parameter))
  | Cont => throw (SyntaxError.unclosed_statement parameter)
  end.

Definition parse_return (tok : Token) : L Statement :=
  o ← peek;
  match o with
  | Some sc =>
      if Category.eqb (category sc) Category.Semicolon then
        token;;
        mret (Statement.with_start_end_token tok sc
          (Return (Statement.without_token NoOp)))
      else parse_return_value tok
  | None => parse_return_value tok
  end.

Definition parse_continue (kw : Token) : L Statement :=
  o ← peek;
  match o with
  | Some tok =>
      if Category.eqb (category tok) Category.Semicolon then
        token;; mret (Statement.with_start_end_token kw tok Continue)
      else throw (SyntaxError.unexpected_token tok)
  | None => throw SyntaxError.unexpected_end
  end.

Definition parse_break (kw : Token) : L Statement :=
  o ← peek;
  match o with
  | Some tok =>
      if Category.eqb (category tok) Category.Semicolon then
        token;; mret (Statement.with_start_end_token kw tok Break)
      else throw (SyntaxError.unexpected_token tok)
  | None => throw SyntaxError.unexpected_end
  end.

Definition map_syntax_error_to_unclosed_left_paren (e : SyntaxError.t) : SyntaxError.t :=
  match e with
  | ErrorKind.UnexpectedToken k =>
      SyntaxError.unclosed_token
        (mkToken Category.LeftParen (tok_line_column k) (tok_position k))
  | _ => e
  end.

Definition is_end_of_category (end_ : End_) (cat : Category.t) : bool :=
  match end_ with Done x => Category.eqb (category x) cat | Cont => false end.

Definition unclosed_left_paren_at (t : Token) : SyntaxError.t :=
  SyntaxError.unclosed_token
    (mkToken Category.LeftParen (tok_line_column t) (tok_position t)).

Definition parse_for (kw : Token) : L Statement :=
  jump_to_left_parenthesis;;
  '(end_, assignment) ← rec 0%Z (is_cat Category.Semicolon);
  match Statement.kind assignment with
  | Assign _ _ _ _ | NoOp =>
      if negb (is_done end_) then throw (SyntaxError.unclosed_statement assignment)
      else
        '(end_, condition) ← rec 0%Z (is_cat Category.Semicolon);
        condition ← as_returnable_or_err condition;
        if negb (is_done end_) then throw (SyntaxError.unclosed_statement condition)
        else
          o ← peek;
          '(end_, update) ←
            match o with
            | Some (mkToken Category.RightParen lc pos) =>
                token;;
                mret (Done (mkToken Category.RightParen lc pos),
                      Statement.without_token NoOp)
            | _ => map_err map_syntax_error_to_unclosed_left_paren
                     (rec 0%Z (is_cat Category.RightParen))
            end;
          if negb (is_end_of_category end_ Category.RightParen)
          then throw (unclosed_left_paren_at (Statement.as_token update))
          else
            '(end_, body) ← rec 0%Z (is_cat Category.Semicolon);
            match end_ with
            | Cont => throw (SyntaxError.unclosed_statement body)
            | Done end_ =>
                mret (Statement.with_start_end_token kw end_
                  (For assignment condition update body))
            end
  | _ => throw (SyntaxError.unexpected_statement assignment)
  end.

Definition parse_while (tok : Token) : L Statement :=
  jump_to_left_parenthesis;;
  '(end_, condition) ← map_err map_syntax_error_to_unclosed_left_paren
                         (rec 0%Z (is_cat Category.RightParen));
  if negb (is_end_of_category end_ Category.RightParen)
  then throw (unclosed_left_paren_at (Statement.as_token condition))
  else
    condition ← as_returnable_or_err condition;
    '(end_, body) ← rec 0%Z (is_cat Category.Semicolon);
    match end_ with
    | Done end_ => mret (Statement.with_start_end_token tok end_ (While condition body))
    | Cont => throw (SyntaxError.unclosed_token tok)
    end.

Definition parse_repeat (tok : Token) : L Statement :=
  '(end_, body) ← rec 0%Z (is_cat Category.Semicolon);
  if negb (is_done end_) then throw (SyntaxError.unclosed_token tok)
  else
    o ← token;
    '(until, end_) ←
      match o with
      | Some tok' =>
          match category tok' with
          | Category.Identifier IdentifierType.Until =>
              '(end_, stmt) ← rec 0%Z (is_cat Category.Semicolon);
              match end_ with
              | Done end_ => mret (stmt, end_)
              | Cont => throw (SyntaxError.unclosed_token tok')
              end
          | _ => throw (SyntaxError.unexpected_token tok')
          end
      | None => throw SyntaxError.unexpected_end
      end;
    until ← as_returnable_or_err until;
    mret (Statement.with_start_end_token tok end_ (Repeat body until)).

Definition parse_foreach (tok : Token) : L Statement :=
  o ← token;
  variable ← match o with
             | Some t => if is_undefined (category t) then mret t
                         else throw (SyntaxError.unexpected_token t)
             | None => throw SyntaxError.unexpected_end
             end;
  o ← token;
  ptoken ← ok_or o SyntaxError.unexpected_end;
  in_ ← match category ptoken with
        | Category.LeftParen =>
            map_err (fun _ => SyntaxError.unclosed_token ptoken) (parse_paren ptoken)
        | _ => throw (SyntaxError.unexpected_token ptoken)
        end;
  '(end_, block) ← rec 0%Z (is_cat Category.Semicolon);
  match end_ with
  | Done end_ => mret (Statement.with_start_end_token tok end_ (ForEach variable in_ block))
  | Cont => throw (SyntaxError.unclosed_token tok)
  end.

Definition parse_fct_anon_args (keyword : Token) : L Statement :=
  o ← peek;
  match o with
  | Some tok =>
      match category tok with
      | Category.LeftBrace =>
          token;;
          '(end_, lookup) ← rec 0%Z (is_cat Category.RightBrace);
          lookup ← as_returnable_or_err lookup;
          match end_ with
          | Done end_ =>
              mret (Statement.with_start_end_token keyword end_ (Array (Some lookup)))
          | Cont => throw (SyntaxError.unclosed_token tok)
          end
      | _ => mret (Statement.with_start_token keyword (Array None))
      end
  | None => throw SyntaxError.unexpected_end
  end.

Definition as_done (m : L Statement) : L (End_ * Statement) :=
  stmt ← m; mret (Done (Statement.end_ stmt), stmt).

Definition parse_keyword (keyword : IdentifierType.t) (tok : Token) :
  L (End_ * Statement) :=
  match keyword with
  | IdentifierType.For => as_done (parse_for tok)
  | IdentifierType.ForEach => as_done (parse_foreach tok)
  | IdentifierType.If => as_done (parse_if tok)
  | IdentifierType.Else => throw (SyntaxError.unexpected_token tok)
  | IdentifierType.While => as_done (parse_while tok)
  | IdentifierType.Repeat => as_done (parse_repeat tok)
  | IdentifierType.Until => throw (SyntaxError.unexpected_token tok)
  | IdentifierType.LocalVar | IdentifierType.GlobalVar => as_done (parse_declaration tok)
  | IdentifierType.Return => as_done (parse_return tok)
  | IdentifierType.Include => as_done (parse_include tok)
  | IdentifierType.Exit => as_done (parse_exit tok)
  | IdentifierType.FCTAnonArgs => stmt ← parse_fct_anon_args tok; mret (Cont, stmt)
  | IdentifierType.Null | IdentifierType.True_ | IdentifierType.False_ =>
      mret (Cont, Statement.with_start_token tok Primitive)
  | IdentifierType.ACT _ => mret (Cont, Statement.with_start_token tok AttackCategory)
  | IdentifierType.Function => as_done (parse_function tok)
  | IdentifierType.Continue => as_done (parse_continue tok)
  | IdentifierType.Break => as_done (parse_break tok)
  | IdentifierType.Undefined _ => throw (SyntaxError.unexpected_token tok)
  end.

Definition prefix_statement (tok : Token) (abort : Abort_) : L (End_ * Statement) :=
  op ← ok_or (Operation.new tok) (SyntaxError.unexpected_token tok);
  match op with
  | Operation.Operator kind =>
      bp ← prefix_binding_power tok;
      '(end_, right_) ← rec bp abort;
      mret (end_, Statement.with_start_end_token tok (Statement.end_ right_)
              (Operator kind [right_]))
  | Operation.Primitive => mret (Cont, Statement.with_start_token tok Primitive)
  | Operation.Variable_ => parse_variable tok
  | Operation.Grouping _ => parse_grouping tok
  | Operation.Assign Category.MinusMinus =>
      stmt ← parse_prefix_assign_operator Category.MinusMinus tok; mret (Cont, stmt)
  | Operation.Assign Category.PlusPlus =>
      stmt ← parse_prefix_assign_operator Category.PlusPlus tok; mret (Cont, stmt)
  | Operation.Assign _ => throw (SyntaxError.unexpected_token tok)
  | Operation.Keyword keyword => parse_keyword keyword tok
  | Operation.NoOp => mret (Done tok, Statement.with_start_token tok NoOp)
  end.

(** *** The infix part of lexer.rs *)

(** The statement an infix operation builds from its two sides. *)
Definition infix_build (op : Operation.t) (tok end_token : Token) (lhs rhs : Statement) :
  L Statement :=
  let build k := Statement.with_start_end_token (Statement.start lhs) end_token k in
  match op with
  | Operation.Assign Category.DoublePoint =>
      match Statement.kind lhs with
      | Variable_ => mret (build (NamedParameter rhs))
      | _ => throw (SyntaxError.unexpected_statement lhs)
      end
  | Operation.Assign category' =>
      match Statement.kind lhs with
      | Variable_ =>
          let lhs := match Statement.kind rhs with
                     | Parameter_ _ =>
                         Statement.with_start_end_token (Statement.start lhs)
                           (Statement.end_ rhs) (Array None)
                     | _ => lhs
                     end in
          mret (build (Assign category' AssignOrder.AssignReturn lhs rhs))
      | Array _ => mret (build (Assign category' AssignOrder.AssignReturn lhs rhs))
      | _ => mret (build (Operator (category tok) [lhs; rhs]))
      end
  | _ => mret (build (Operator (category tok) [lhs; rhs]))
  end.

Definition infix_statement (op : Operation.t) (right_bp : Z) (tok : Token)
  (lhs : Statement) (abort : Abort_) : L (End_ * Statement) :=
  '(end_, rhs) ← rec right_bp abort;
  match Statement.kind rhs with
  | EoF => mret (Done tok, rhs)
  | _ =>
      let end_token := match end_ with
                       | Done x => if abort (category x) then x else Statement.end_ rhs
                       | Cont => Statement.end_ rhs
                       end in
      stmt ← infix_build op tok end_token lhs rhs;
      mret (end_, stmt)
  end.

Definition handle_infix (op : Operation.t) (min_bp : Z) (tok : Token) (left : Statement)
  (abort : Abort_) : L InFixState :=
  match infix_binding_power op with
  | None => mret NoInfix
  | Some (x, y) =>
      if (x <? min_bp)%Z then mret (ReturnContinue left)
      else
        token;;
        '(end_, nl) ← infix_statement op y tok left abort;
        match end_ with
        | Done cat => set_depth 0;; mret (ReturnEnd cat nl)
        | Cont => mret (Unfinished nl)
        end
  end.

Fixpoint infix_loop (min_bp : Z) (abort : Abort_) (fuel : nat) (left : Statement) :
  L (End_ * Statement) :=
  match fuel with
  | 0 => out_of_fuel
  | S fuel' =>
      o ← peek;
      match o with
      | None => mret (Cont, left)
      | Some tok =>
          if abort (category tok) then
            token;; set_depth 0;; done tok left
          else
            op ← ok_or (Operation.new tok) (SyntaxError.unexpected_token tok);
            match op with
            | Operation.Assign ((Category.PlusPlus | Category.MinusMinus) as c) =>
                o ← token;
                tok ← or_panic o;
                match Statement.kind left with
                | Variable_ | Array _ =>
                    infix_loop min_bp abort fuel'
                      (Statement.with_start_end_token (Statement.end_ left) tok
                         (Assign c AssignOrder.ReturnAssign left
                            (Statement.without_token NoOp)))
                | _ => throw (SyntaxError.unexpected_token tok)
                end
            | op =>
                st ← handle_infix op min_bp tok left abort;
                match st with
                | NoInfix => throw (SyntaxError.unexpected_token tok)
                | ReturnContinue left_ => mret (Cont, left_)
                | ReturnEnd cat left_ => done cat left_
                | Unfinished nl => infix_loop min_bp abort fuel' nl
                end
            end
      end
  end.

Definition statement_body (min_bp : Z) (abort : Abort_) : L (End_ * Statement) :=
  d ← inc_depth;
  if (MAX_DEPTH <=? d)%Z then throw (SyntaxError.max_recursion MAX_DEPTH)
  else
    o ← token;
    '(state, left_) ←
      match o with
      | Some tok =>
          if Token.is_faulty tok then throw (SyntaxError.unexpected_token tok)
          else if abort (category tok) then
            done tok (Statement.with_start_token tok NoOp)
          else prefix_statement tok abort
      | None => mret (Done Token.unexpected_none, Statement.without_token EoF)
      end;
    match state with
    | Done x => done x left_
    | Cont => l ← get; infix_loop min_bp abort (S (src_size (tokenizer l))) left_
    end.
End Methods.

Fixpoint statement (fuel : nat) (min_bp : Z) (abort : Abort_) : L (End_ * Statement) :=
  match fuel with
  | 0 => out_of_fuel
  | S fuel' => statement_body (statement fuel') min_bp abort
  end.

(** *** The iterator *)
Definition next_statement (l : Lexer T) :
  outcome Empty_set (option (Statement + SyntaxError.t)) * Lexer T :=
  match statement (S (src_size (tokenizer l))) 0 (is_cat Category.Semicolon) l with
  | (Panic, l') => (Panic, l')
  | (OutOfFuel, l') => (OutOfFuel, l')
  | (Ok (end_, stmt), l') =>
      if (MAX_DEPTH <=? depth l')%Z then (Ok None, l')
      else match Statement.kind stmt with
           | EoF => (Ok None, l')
           | NoOp => (Ok (Some (inl stmt)), l')
           | _ => match end_ with
                  | Done _ => (Ok (Some (inl stmt)), l')
                  | Cont => (Ok (Some (inr (SyntaxError.unexpected_statement stmt))), l')
                  end
           end
  | (Err e, l') =>
      if (MAX_DEPTH <=? depth l')%Z then (Ok None, l') else (Ok (Some (inr e)), l')
  end.

Fixpoint collect_statements (fuel : nat) (l : Lexer T) :
  outcome Empty_set (list (Statement + SyntaxError.t)) :=
  match fuel with
  | 0 => OutOfFuel
  | S fuel' =>
      match next_statement l with
      | (Ok None, _) => Ok []
      | (Ok (Some r), l') =>
          match collect_statements fuel' l' with Ok rs => Ok (r :: rs) | o => o end
      | (Err e, _) => Err e
      | (Panic, _) => Panic
      | (OutOfFuel, _) => OutOfFuel
      end
  end.
End Parser.
Arguments Abort_ : clear implicits.
Arguments L : clear implicits.

(** [parse(code)], collected. *)
Definition parse `{BuildProfile} (code : string) :
  outcome Empty_set (list (Statement + SyntaxError.t)) :=
  collect_statements (S (length (chars_of code))) (new_lexer (Tokenizer.new code)).
