(* ===== verification/LexerProps.v ===== *)
(** * Properties of the parser

    Termination and absence of panics, progress, the recursion bound, operator
    precedence, and what the recursion bound hides. *)

From S2P Require Import Prelude RustStr Cursor Token Tokenizer TokenizerProps Statement Lexer.
Local Open Scope nat_scope.

(** ** What a token source promises to the parser *)
Class TokenSourceOk (T : Type) `{TokenSource T} := {
  src_next_ok t : src_wf t ->
    wp src_next (fun o t' => exists r, o = Ok r /\ src_wf t'
      /\ match r with
         | Some _ => src_size t' < src_size t
         | None => src_size t' <= src_size t
         end) t
}.

#[global] Instance tokenizer_source_ok : TokenSourceOk Tokenizer.
Proof.
  constructor. intros t (a & Ha & Hl). simpl.
  eapply wp_mono; [apply (next_spec (tz_code t) a); by repeat split|].
  intros o t' (ws & _ & Ho).
  assert (forall b, at_ (tz_code t) b t' -> src_wf t') as Hwf.
  { intros b (Ht & Hc & Hi). exists b. by rewrite Ht. }
  destruct o as [[tok|]| | |]; try done.
  - destruct Ho as (text & Hne & Hat & Hch & _). eexists. split; [done|].
    split; [by eapply Hwf|]. simpl. rewrite Hch, !length_app. destruct text; [done|].
    simpl. lia.
  - destruct Ho as (Hat & Hch & Hnil). eexists. split; [done|].
    split; [by eapply Hwf|]. simpl. rewrite Hnil. simpl. lia.
Qed.

#[global] Instance list_source_ok : TokenSourceOk (list Token).
Proof.
  constructor. intros [|tok l] _; (eexists; split; [reflexivity|split; [done|simpl; lia]]).
Qed.

Definition is_max (e : SyntaxError.t) : bool :=
  match e with ErrorKind.MaxRecursionDepth _ => true | _ => false end.

Section Props.
Context {T : Type} `{HT : TokenSource T} `{HTok : !TokenSourceOk T} `{HB : BuildProfile}.

Definition lsize (l : Lexer T) : nat := src_size (tokenizer l).

(** The state of a lexer that has not hit the recursion bound. *)
Definition linv (l : Lexer T) : Prop :=
  src_wf (tokenizer l) /\ (0 <= depth l < MAX_DEPTH)%Z.

(** What a call may do: it never panics and never runs out of fuel, the tokens
    left only shrink, and the recursion bound is only reached together with the
    error that says so, or with an error that replaced it. *)
Definition lpost {A} (l : Lexer T) (o : outcome SyntaxError.t A) (l' : Lexer T) : Prop :=
  src_wf (tokenizer l') /\ lsize l' <= lsize l /\ (0 <= depth l' <= MAX_DEPTH)%Z /\
  match o with
  | Ok _ => (depth l' < MAX_DEPTH)%Z
  | Err e => is_max e = true -> depth l' = MAX_DEPTH
  | Panic | OutOfFuel => False
  end.

(** [good n m]: [m] behaves so when fewer than [n] tokens are left. *)
Definition good {A} (n : nat) (m : L T A) : Prop :=
  forall l, linv l -> lsize l < n -> wp m (lpost l) l.

Lemma lpost_le {A} l1 l2 (o : outcome SyntaxError.t A) l' :
  lsize l1 <= lsize l2 -> lpost l1 o l' -> lpost l2 o l'.
Proof. intros Hle (H1 & H2 & H3 & H4). repeat split; try done; lia. Qed.

(** *** Tokens *)
Lemma skip_comments_ok fuel : forall t, src_wf t -> src_size t < fuel ->
  wp (skip_comments fuel) (fun o t' => exists r, o = Ok r /\ src_wf t'
    /\ match r with
       | Some _ => src_size t' < src_size t
       | None => src_size t' <= src_size t
       end) t.
Proof.
  induction fuel as [|fuel IH]; intros t Ht Hf; [lia|].
  apply wp_bind. eapply wp_mono; [by apply src_next_ok|].
  intros o t' (r & -> & Hwf & Hs). simpl. destruct r as [tok|].
  - case_bool_decide; [|apply wp_ret; eauto].
    eapply wp_mono; [apply IH; [done|lia]|].
    intros o t2 (r & -> & Hwf2 & Hs2). exists r. split; [done|]. split; [done|].
    destruct r; lia.
  - apply wp_ret. eauto.
Qed.

(** [token] and [peek] agree, and a token that is there gets consumed. *)
Lemma token_spec l : src_wf (tokenizer l) ->
  exists o t', token l = (Ok o, mkLexer t' (depth l)) /\ src_wf t' /\
    match o with Some _ => src_size t' < lsize l | None => src_size t' <= lsize l end.
Proof.
  intros Hwf. unfold token.
  pose proof (skip_comments_ok (S (src_size (tokenizer l))) (tokenizer l) Hwf ltac:(lia)) as Hs.
  unfold wp in Hs. destruct (skip_comments _ _) as [o t'].
  destruct Hs as (r & Hr & Hwf' & Hs). simpl in *. subst o. eauto.
Qed.

Lemma good_ret {A} n (a : A) : good n (mret a).
Proof.
  intros l [Hw Hd] _. apply wp_ret. repeat split; try done; lia.
Qed.

Lemma good_throw {A} n e : is_max e = false -> good (A := A) n (throw e).
Proof.
  intros He l [Hw Hd] _. apply wp_throw. repeat split; try done; try lia. congruence.
Qed.

Lemma good_bind {A B} n (m : L T A) (f : A -> L T B) :
  good n m -> (forall a, good n (f a)) -> good n (m ≫= f).
Proof.
  intros Hm Hf l Hl Hn. apply wp_bind. eapply wp_mono; [by apply Hm|].
  intros [a|e| |] l' (Hw & Hs & Hd & Ho); try done.
  - eapply wp_mono; [apply Hf; [split; [done|lia]|lia]|].
    intros o l2. by apply lpost_le.
Qed.

Lemma good_token n : good n token.
Proof.
  intros l [Hw Hd] _. destruct (token_spec l Hw) as (o & t' & E & Hw' & Hs).
  unfold wp. rewrite E. split; [done|]. split; [unfold lsize at 1; simpl; destruct o; lia|].
  simpl. lia.
Qed.

Lemma good_peek n : good n peek.
Proof.
  intros l [Hw Hd] _. destruct (token_spec l Hw) as (o & t' & E & Hw' & Hs).
  unfold wp, peek. rewrite E. simpl. repeat split; try done; lia.
Qed.

Lemma good_reset n : good n (set_depth 0).
Proof. intros l [Hw Hd] _. apply wp_modify. repeat split; simpl; try done; lia. Qed.

Lemma good_ok_or {A} n (o : option A) e : is_max e = false -> good n (ok_or o e).
Proof. intros He. destruct o; [apply good_ret|by apply good_throw]. Qed.

Lemma good_map_err {A} n f (m : L T A) :
  (forall e, is_max (f e) = true -> is_max e = true) -> good n m -> good n (map_err f m).
Proof.
  intros Hf Hm l Hl Hn. apply wp_map_err. eapply wp_mono; [by apply Hm|].
  intros [a|e| |] l'; try done. intros (H1 & H2 & H3 & H4). repeat split; try done; [lia..|].
  auto.
Qed.

(** A step that starts from the number of tokens left. *)
Lemma good_sized {A} n (f : nat -> L T A) :
  (forall l, linv l -> lsize l < n -> wp (f (S (lsize l))) (lpost l) l) ->
  good n (l ← get; f (S (src_size (tokenizer l)))).
Proof. intros Hf l Hl Hn. apply wp_bind. apply (Hf l Hl Hn). Qed.
End Props.

Create HintDb good_db.
#[export] Hint Resolve good_ret good_token good_peek good_reset : good_db.
#[export] Hint Extern 1 (good _ (throw _)) => (apply good_throw; reflexivity) : good_db.
#[export] Hint Extern 1 (good _ (ok_or _ _)) => (apply good_ok_or; reflexivity) : good_db.

(** Walk over a method body. *)
Ltac good_steps :=
  repeat first
    [ progress auto with good_db
    | apply good_bind; [|intros ?]
    | apply good_map_err; [by intros []|]
    | case_goal ].

Section Methods.
Context {T : Type} `{HT : TokenSource T} `{HTok : !TokenSourceOk T} `{HB : BuildProfile}.

Definition eof_statement : Statement :=
  Statement.set_end (Statement.without_token EoF) Token.unexpected_none.

(** A call of [statement] takes the token in front of it, unless the recursion
    bound stops it; without a token it answers with the end of the file. *)
Definition lstrict (l : Lexer T) (o : outcome SyntaxError.t (End_ * Statement))
  (l' : Lexer T) : Prop :=
  (exists e, o = Err e /\ is_max e = true) \/
  match (token l).1 with
  | Ok (Some _) => lsize l' < lsize l
  | _ => o = Ok (Done Token.unexpected_none, eof_statement)
  end.

Definition rec_ok (n : nat) (rec : Z -> Abort_ -> L T (End_ * Statement)) : Prop :=
  forall bp abort l, linv l -> lsize l < n ->
    wp (rec bp abort) (fun o l' => lpost l o l' /\ lstrict l o l') l.

Context (n : nat) (rec : Z -> Abort_ -> L T (End_ * Statement)) (Hrec : rec_ok n rec).

Lemma good_rec bp abort : good n (rec bp abort).
Proof.
  intros l Hl Hn. eapply wp_mono; [by apply Hrec|]. by intros o l' [H _].
Qed.
Hint Resolve good_rec : good_db.

(** One round of a [while let Some(token) = self.peek()] loop: after the peek
    the body runs, or the loop goes on with at least one token less. *)
Lemma peek_round {A} (f : option Token -> L T A) l :
  linv l ->
  (forall o, (token l).1 = Ok o -> wp (f o) (lpost l) l) ->
  wp (peek ≫= f) (lpost l) l.
Proof.
  intros [Hw Hd] Hf. destruct (token_spec l Hw) as (o & t' & E & _).
  apply wp_bind. unfold wp, peek. rewrite E. simpl. apply (Hf o). by rewrite E.
Qed.

Lemma rec_round {A} bp abort (f : End_ * Statement -> L T A) l tok :
  linv l -> lsize l < n -> (token l).1 = Ok (Some tok) ->
  (forall r l', linv l' -> lsize l' < lsize l -> wp (f r) (lpost l') l') ->
  wp (rec bp abort ≫= f) (lpost l) l.
Proof.
  intros Hl Hn Hp Hf. apply wp_bind. eapply wp_mono; [by apply Hrec|].
  intros [r|e| |] l' [(Hw & Hs & Hd & Ho) Hst]; try done.
  destruct Hst as [(e & ? & _)|Hst]; [done|]. rewrite Hp in Hst.
  eapply wp_mono; [apply Hf; [split; [done|lia]|done]|].
  intros o l2. apply lpost_le. lia.
Qed.

Lemma comma_group_loop_ok cat fuel : forall params l,
  linv l -> lsize l < n -> lsize l < fuel ->
  wp (comma_group_loop rec cat fuel params) (lpost l) l.
Proof.
  induction fuel as [|fuel IH]; intros params l Hl Hn Hf; [lia|].
  apply peek_round; [done|]. intros [tok|] Hp; [|by apply (good_ret n)].
  destruct (Category.eqb (category tok) cat).
  - assert (good n (token;; mret (Done tok, params))) as Hg by good_steps. by apply Hg.
  - apply rec_round with tok; [done..|]. intros [[endcat|] param] l' Hl' Hs'.
    + destruct (Category.eqb _ cat); [apply (good_ret n); [done|lia]|apply IH; [done|lia..]].
    + apply IH; [done|lia..].
Qed.

Lemma block_loop_ok kw fuel : forall results l,
  linv l -> lsize l < n -> lsize l < fuel ->
  wp (block_loop rec kw fuel results) (lpost l) l.
Proof.
  induction fuel as [|fuel IH]; intros results l Hl Hn Hf; [lia|].
  apply peek_round; [done|]. intros [tok|] Hp; [|by apply (good_throw n)].
  destruct (Category.eqb (category tok) Category.RightCurlyBracket).
  - match goal with |- wp ?m _ _ => assert (good n m) as Hg by good_steps end. by apply Hg.
  - apply rec_round with tok; [done..|]. intros [end_ stmt] l' Hl' Hs'.
    apply IH; [done|lia..].
Qed.

Lemma good_comma_group cat : good n (parse_comma_group rec cat).
Proof.
  apply (good_sized n (fun k => comma_group_loop rec cat k [])). intros l Hl Hn.
  apply comma_group_loop_ok; [done|done|lia].
Qed.

Lemma good_block kw : good n (parse_block rec kw).
Proof.
  apply (good_sized n (fun k => block_loop rec kw k [])). intros l Hl Hn.
  apply block_loop_ok; [done|done|lia].
Qed.
Hint Resolve good_comma_group good_block : good_db.

Lemma good_paren tok : good n (parse_paren rec tok).
Proof. unfold parse_paren. good_steps. Qed.
Hint Resolve good_paren : good_db.

Lemma good_returnable s : good n (as_returnable_or_err s).
Proof. unfold as_returnable_or_err. good_steps. Qed.
Hint Resolve good_returnable : good_db.

Lemma good_variable tok : good n (parse_variable rec tok).
Proof. unfold parse_variable. good_steps. Qed.
Hint Resolve good_variable : good_db.

Lemma good_jump : good n jump_to_left_parenthesis.
Proof. unfold jump_to_left_parenthesis. good_steps. Qed.
Hint Resolve good_jump : good_db.

Lemma good_call_return : good n (parse_call_return_params rec).
Proof. unfold parse_call_return_params. good_steps. Qed.
Hint Resolve good_call_return : good_db.

Lemma good_keyword kw tok : good n (parse_keyword rec kw tok).
Proof.
  unfold parse_keyword, as_done. destruct kw.
  all: unfold parse_for, parse_foreach, parse_if, parse_while, parse_repeat,
    parse_declaration, parse_return, parse_return_value, parse_include, parse_exit,
    parse_fct_anon_args, parse_function, parse_continue, parse_break,
    unclosed_left_paren_at.
  all: good_steps.
Qed.
Hint Resolve good_keyword : good_db.

Lemma good_prefix tok abort : good n (prefix_statement rec tok abort).
Proof.
  unfold prefix_statement, prefix_binding_power, parse_grouping,
    parse_prefix_assign_operator. good_steps.
Qed.

Lemma good_infix_build op tok e lhs rhs : good n (infix_build op tok e lhs rhs).
Proof. unfold infix_build. good_steps. Qed.
Hint Resolve good_infix_build good_prefix : good_db.

Lemma good_infix_statement op bp tok lhs abort :
  good n (infix_statement rec op bp tok lhs abort).
Proof. unfold infix_statement. good_steps. Qed.
Hint Resolve good_infix_statement : good_db.

(** *** The loop over infix operations: every round that goes on has taken the
    operator. *)
Lemma token_round {A} (f : option Token -> L T A) l tok :
  linv l -> (token l).1 = Ok (Some tok) ->
  (forall l', linv l' -> lsize l' < lsize l -> wp (f (Some tok)) (lpost l') l') ->
  wp (token ≫= f) (lpost l) l.
Proof.
  intros [Hw Hd] Hp Hf. destruct (token_spec l Hw) as (o & t' & E & Hw' & Hs).
  rewrite E in Hp. simpl in Hp. injection Hp as ->.
  apply wp_bind. unfold wp. rewrite E. simpl.
  eapply wp_mono; [apply Hf; [by split|done]|]. intros o l'. apply lpost_le.
  unfold lsize at 1. simpl. lia.
Qed.

Lemma infix_round op min_bp tok left abort (f : InFixState -> L T (End_ * Statement)) l :
  linv l -> lsize l < n -> (token l).1 = Ok (Some tok) ->
  (forall st l', linv l' ->
     match st with Unfinished _ => lsize l' < lsize l | _ => lsize l' <= lsize l end ->
     wp (f st) (lpost l') l') ->
  wp (handle_infix rec op min_bp tok left abort ≫= f) (lpost l) l.
Proof.
  intros Hl Hn Hp Hf. unfold handle_infix.
  destruct (infix_binding_power op) as [[x y]|]; [|apply (Hf NoInfix); [done|lia]].
  destruct (x <? min_bp)%Z; [apply (Hf (ReturnContinue left)); [done|lia]|].
  unfold mbind at 1, M_bind. apply wp_bind.
  eapply wp_mono with (Q := fun o l' => lpost l o l' /\ forall st, o = Ok st -> lsize l' < lsize l).
  - apply wp_bind. destruct (token_spec l (proj1 Hl)) as (o & t' & E & Hw' & Hs).
    rewrite E in Hp. simpl in Hp. injection Hp as ->. unfold wp at 1. rewrite E. simpl.
    set (l1 := mkLexer _ _).
    assert (linv l1) as Hl1 by by split; [|apply Hl].
    assert (lsize l1 < lsize l) as Hlt by done.
    match goal with |- wp ?m _ _ => assert (good n m) as Hg by good_steps end.
    eapply wp_mono; [apply Hg; [done|lia]|]. intros o l' Hpost. split.
    + eapply lpost_le; [|done]. lia.
    + intros st _. destruct Hpost as (_ & ? & _). lia.
  - intros [st|e| |] l' [Hpost Hlt]; try done; try apply Hpost.
    specialize (Hlt st eq_refl). destruct Hpost as (Hw & Hs & Hd & Ho).
    eapply wp_mono; [apply Hf; [by split; [|lia]|destruct st; lia]|].
    intros o l2. apply lpost_le. lia.
Qed.

Lemma infix_loop_ok min_bp abort fuel : forall left l,
  linv l -> lsize l < n -> lsize l < fuel ->
  wp (infix_loop rec min_bp abort fuel left) (lpost l) l.
Proof.
  induction fuel as [|fuel IH]; intros left l Hl Hn Hf; [lia|].
  apply peek_round; [done|]. intros [tok|] Hp; [|by apply (good_ret n)].
  destruct (abort (category tok)).
  { match goal with |- wp ?m _ _ => assert (good n m) as Hg by (unfold done; good_steps) end.
    by apply Hg. }
  destruct (Operation.new tok) as [op|]; [|by apply (good_throw n)].
  apply wp_bind, wp_ret. simpl.
  assert (wp (st ← handle_infix rec op min_bp tok left abort;
              match st with
              | NoInfix => throw (SyntaxError.unexpected_token tok)
              | ReturnContinue left_ => mret (Cont, left_)
              | ReturnEnd cat left_ => done cat left_
              | Unfinished nl => infix_loop rec min_bp abort fuel nl
              end) (lpost l) l) as Hinfix.
  { apply infix_round; [done..|]. intros st l' Hl' Hs'.
    destruct st; simpl in Hs'.
    - apply (good_throw n); [done..|lia].
    - apply (good_ret n); [done|lia].
    - apply (good_ret n); [done|lia].
    - apply IH; [done|lia..]. }
  assert (forall c, wp (o ← token; tok' ← or_panic o;
      match Statement.kind left with
      | Variable_ | Array _ =>
          infix_loop rec min_bp abort fuel
            (Statement.with_start_end_token (Statement.end_ left) tok'
               (Assign c AssignOrder.ReturnAssign left (Statement.without_token NoOp)))
      | _ => throw (SyntaxError.unexpected_token tok')
      end) (lpost l) l) as Hpost.
  { intros c. apply token_round with tok; [done..|]. intros l' Hl' Hs'.
    apply wp_bind, wp_ret. simpl.
    destruct (Statement.kind left); first
      [ apply IH; [done|lia..] | apply (good_throw n); [done..|lia] ]. }
  destruct op as [c|c|c| | |i|]; try exact Hinfix. destruct c; try exact Hinfix; apply Hpost.
Qed.

Lemma good_infix_loop min_bp abort left :
  good n (l ← get; infix_loop rec min_bp abort (S (src_size (tokenizer l))) left).
Proof.
  apply (good_sized n (fun k => infix_loop rec min_bp abort k left)). intros l Hl Hn.
  apply infix_loop_ok; [done|done|lia].
Qed.
Hint Resolve good_infix_loop : good_db.
End Methods.

#[export] Hint Resolve good_rec good_prefix good_infix_loop : good_db.

Section Statements.
Context {T : Type} `{HT : TokenSource T} `{HTok : !TokenSourceOk T} `{HB : BuildProfile}.

(** [self.depth += 1] does not overflow below the bound, in either build. *)
Lemma inc_depth_ok l : linv l ->
  inc_depth l = (Ok (depth l + 1)%Z, mkLexer (tokenizer l) (depth l + 1)).
Proof.
  intros [_ Hd]. unfold MAX_DEPTH in Hd. unfold inc_depth, mbind, M_bind, get. simpl.
  unfold arith_u. rewrite (proj2 (in_u_spec 8 (depth l + 1))); [done|lia].
Qed.

Lemma token_depth (l : Lexer T) d :
  token (mkLexer (tokenizer l) d) =
  ((token l).1, mkLexer (tokenizer (token l).2) d).
Proof.
  unfold token. cbn [tokenizer depth].
  by destruct (skip_comments (S (src_size (tokenizer l))) (tokenizer l)) as [[o|[]| |] t'].
Qed.

(** The part of [statement] after the first token. *)
Lemma statement_tail n rec min_bp abort tok :
  rec_ok n rec ->
  good (T := T) n (
    '(state, left_) ←
      (if Token.is_faulty tok then throw (SyntaxError.unexpected_token tok)
       else if abort (category tok) then done tok (Statement.with_start_token tok NoOp)
       else prefix_statement rec tok abort);
    match state with
    | Done x => done x left_
    | Cont => l ← get; infix_loop rec min_bp abort (S (src_size (tokenizer l))) left_
    end).
Proof. intros Hrec. unfold done. good_steps. Qed.

Lemma statement_step n rec :
  rec_ok (T := T) n rec -> rec_ok (S n) (statement_body rec).
Proof.
  intros Hrec bp abort l Hl Hn. apply wp_bind. unfold wp at 1.
  rewrite inc_depth_ok by done. simpl. pose proof Hl as [Hw Hd].
  destruct (MAX_DEPTH <=? depth l + 1)%Z eqn:Emax.
  - apply Z.leb_le in Emax. apply wp_throw. split; [|left; eauto].
    repeat split; simpl; try done; try lia.
  - apply Z.leb_gt in Emax. destruct (token_spec l Hw) as (o & t' & E & Hw' & Hs).
    apply wp_bind. unfold wp at 1. rewrite token_depth, E. simpl.
    set (l1 := mkLexer _ _).
    assert (linv l1) as Hl1 by (split; [done|simpl; lia]).
    destruct o as [tok|].
    + assert (lsize l1 < lsize l) as Hlt by done.
      eapply wp_mono; [apply (statement_tail n); [done|done|lia]|].
      intros o l' Hp. split; [eapply lpost_le; [|done]; lia|]. right. rewrite E. simpl.
      destruct Hp as (_ & ? & _). lia.
    + apply wp_bind, wp_ret. simpl. apply wp_ret. split.
      * repeat split; simpl; try done; lia.
      * right. by rewrite E.
Qed.

Lemma statement_ok n : rec_ok (T := T) n (statement n).
Proof.
  induction n as [|n IH]; [intros bp abort l _ Hn; lia|]. by apply statement_step.
Qed.

(** *** The iterator *)

(** A call of [next]: [None] at the end of the tokens or at the recursion bound,
    or a result that took at least one token and left the lexer usable. *)
Lemma next_statement_ok (l : Lexer T) : linv l ->
  exists r l', next_statement l = (Ok r, l') /\
    match r with
    | None => (token l).1 = Ok None \/ depth l' = MAX_DEPTH
        \/ lsize l' < lsize l
    | Some (inl _) => linv l' /\ lsize l' < lsize l
    | Some (inr e) => linv l' /\ lsize l' < lsize l /\ is_max e = false
    end.
Proof.
  intros Hl. pose proof (statement_ok (S (lsize l)) 0%Z (is_cat Category.Semicolon) l Hl
    ltac:(lia)) as Hs.
  unfold wp in Hs. unfold next_statement. fold (lsize l).
  destruct (token_spec l (proj1 Hl)) as (o & t' & E & _). rewrite E.
  unfold lstrict in Hs. rewrite E in Hs.
  destruct (statement _ _ _ l) as [[[end_ stmt]|e| |] l'];
    destruct Hs as [(Hw & Hle & Hd & Ho) Hst]; simpl in *; try done.
  - rewrite (proj2 (Z.leb_gt _ _)) by done.
    destruct Hst as [(? & ? & _)|Hst]; [done|]. destruct o as [tok|].
    + destruct (Statement.kind stmt), end_; eexists _, l'; (split; [reflexivity|]); simpl;
        unfold linv; auto with lia.
    + injection Hst as -> ->. eexists _, l'. split; [reflexivity|]. simpl. auto.
  - destruct (MAX_DEPTH <=? depth l')%Z eqn:Emax.
    + apply Z.leb_le in Emax. eexists _, l'. split; [reflexivity|]. simpl. right. left. lia.
    + apply Z.leb_gt in Emax. destruct Hst as [(e' & [= <-] & He)|Hst].
      { rewrite (Ho He) in Emax. lia. }
      destruct o as [tok|]; [|done]. eexists _, l'. split; [reflexivity|]. simpl.
      unfold linv. split; [auto with lia|]. split; [done|].
      destruct (is_max e); [|done]. specialize (Ho eq_refl). lia.
Qed.

Lemma collect_statements_ok fuel : forall l : Lexer T,
  linv l -> lsize l < fuel ->
  exists rs, collect_statements fuel l = Ok rs /\ length rs <= lsize l
    /\ Forall (fun r => match r with inl _ => True | inr e => is_max e = false end) rs.
Proof.
  induction fuel as [|fuel IH]; intros l Hl Hf; [lia|].
  destruct (next_statement_ok l Hl) as (r & l' & E & Hr). simpl. rewrite E.
  destruct r as [r|]; [|exists []; split; [done|simpl; split; [lia|constructor]]].
  assert (linv l' /\ lsize l' < lsize l
    /\ match r with inl _ => True | inr e => is_max e = false end) as (Hl' & Hlt & He)
    by (destruct r; tauto).
  destruct (IH l' Hl' ltac:(lia)) as (rs & -> & Hlen & Hfa).
  exists (r :: rs). split; [done|]. simpl. split; [lia|]. by constructor.
Qed.
End Statements.

Lemma new_lexer_inv (code : string) : linv (new_lexer (Tokenizer.new code)).
Proof. split; [|by unfold MAX_DEPTH; simpl; lia]. exists []. by repeat split. Qed.

(** ** The claims *)

(** C3: Parsing terminates without a panic on every text, in builds with and
    without overflow checks: [parse] returns its list of statements and errors,
    at most one per character.  No entry of the list is a [MaxRecursionDepth]
    error: when the recursion bound is hit the iterator ends instead. *)
Theorem parse_total (profile : BuildProfile) (s : string) :
  exists rs, parse s = Ok rs /\ length rs <= length (chars_of s)
    /\ Forall (fun r => match r with inl _ => True | inr e => is_max e = false end) rs.
Proof.
  exact (collect_statements_ok (S (length (chars_of s))) (new_lexer (Tokenizer.new s))
    (new_lexer_inv s) (Nat.lt_succ_diag_r _)).
Qed.

(** A token of a category, at no particular place. *)
Definition tok (c : Category.t) : Token := mkToken c (0, 0) (0, 0).
Definition num (n : Z) : Token := tok (Category.Number n).
Definition semicolon : Token := tok Category.Semicolon.

Definition parse_tokens `{BuildProfile} (ts : list Token) :
  outcome Empty_set (list (Statement + SyntaxError.t)) :=
  collect_statements (S (length ts)) (new_lexer ts).

(** [1 + 1 + ... + 1 ;] with [n] operators. *)
Definition plus_chain (n : nat) : list Token :=
  num 1 :: concat (replicate n [tok Category.Plus; num 1]) ++ [semicolon].

Definition empty_statement : Statement :=
  Statement.set_end (Statement.set_end (Statement.with_start_token semicolon NoOp) semicolon)
    semicolon.

(** What the recursion bound hides.  The depth counter is not reset between
    statements: after 41 empty statements the parser ends, whatever follows, and
    an expression of 41 operators ends it before the first result; in both cases
    there is no error and the rest of the script is dropped. *)
Theorem recursion_bound_drops_rest (profile : BuildProfile) (rest : list Token) :
  parse_tokens (replicate 41 semicolon ++ rest) = Ok (replicate 41 (inl empty_statement))
  /\ parse_tokens (plus_chain 41 ++ rest) = Ok [].
Proof. destruct profile as [[]]; split; vm_compute; reflexivity. Qed.
