(* ===== verification/Precedence.v ===== *)
(** * Operator precedence

    An expression of binary operators, written down without parentheses, is
    parsed back to the tree it was written from.  The trees are those in which
    the operators of the left child bind at least as strong, and those of the
    right child stronger, than the operator above them: the usual reading of
    precedence levels whose operators associate to the left. *)

From S2P Require Import Prelude RustStr Token Tokenizer Statement Lexer LexerProps.
Local Open Scope nat_scope.

Inductive expr : Set :=
| ENum (t : Token)
| EBin (o : Token) (l r : expr).

Fixpoint etokens (e : expr) : list Token :=
  match e with ENum t => [t] | EBin o l r => etokens l ++ o :: etokens r end.

Fixpoint ops (e : expr) : nat :=
  match e with ENum _ => 0 | EBin _ l r => S (ops l + ops r) end.

(** The left binding power of an infix operator. *)
Definition bp (o : Token) : option Z :=
  match Operation.new o with
  | Some (Operation.Operator c) => fst <$> infix_binding_power (Operation.Operator c)
  | _ => None
  end.

(** Literals bind stronger than every operator. *)
Definition level (e : expr) : Z :=
  match e with ENum _ => 24 | EBin o _ _ => default 0%Z (bp o) end.

Fixpoint ordered_bp (e : expr) : Prop :=
  match e with
  | ENum t => Operation.new t = Some Operation.Primitive
  | EBin o l r => (exists b, bp o = Some b /\ b <= level l /\ b < level r)%Z
      /\ ordered_bp l /\ ordered_bp r
  end.

(** The tree, without the positions. *)
Inductive shape : Set := SNum (t : Token) | SBin (c : Category.t) (l r : shape).

Fixpoint shape_of (e : expr) : shape :=
  match e with
  | ENum t => SNum t
  | EBin o l r => SBin (category o) (shape_of l) (shape_of r)
  end.

Fixpoint strip (s : Statement) : option shape :=
  let 'mkStatement t _ k := s in
  match k with
  | Primitive => Some (SNum t)
  | Operator c [l; r] => l' ← strip l; r' ← strip r; Some (SBin c l' r')
  | _ => None
  end.

Lemma strip_set_end s t : strip (Statement.set_end s t) = strip s.
Proof. by destruct s. Qed.

Lemma bp_operator o b : bp o = Some b ->
  exists c, Operation.new o = Some (Operation.Operator c)
    /\ infix_binding_power (Operation.Operator c) = Some (b, b + 1)%Z /\ category o = c
    /\ (2 <= b <= 22)%Z.
Proof.
  unfold bp, Operation.new. destruct o as [c lc pos]. simpl.
  destruct c as [| | | | | | | | | | | | | | | | | | | | | | | | | | | | | | | | | | | | |
    | | | | | | | | | | | | | | | | | |i| | |]; try discriminate; try (by destruct i);
    intros [= <-]; (eexists; split; [done|]); simpl; split; try done; lia.
Qed.

Lemma bp_not_comment o b : bp o = Some b -> category o <> Category.Comment.
Proof. unfold bp, Operation.new. destruct o as [c lc pos]. simpl. by intros H ->. Qed.

Lemma primitive_token t : Operation.new t = Some Operation.Primitive ->
  category t <> Category.Comment /\ Token.is_faulty t = false.
Proof.
  unfold Operation.new, Token.is_faulty. destruct t as [c lc pos]. simpl.
  by destruct c as [| | | | | | | | | | | | | | | | | | | | | | | | | | | | | | | | | | | | |
    | | | | | | | | | | | | | | | | | |[]| | |].
Qed.

Section Pratt.
Context `{HB : BuildProfile} (abort : Abort_).

#[local] Abbreviation lex ts d := (mkLexer (T := list Token) ts d).

Lemma token_cons t ts d : category t <> Category.Comment ->
  token (lex (t :: ts) d) = (Ok (Some t), lex ts d).
Proof. intros Ht. unfold token. simpl. unfold mbind, M_bind. simpl. by rewrite bool_decide_false. Qed.

Lemma peek_cons_list t ts d : category t <> Category.Comment ->
  peek (lex (t :: ts) d) = (Ok (Some t), lex (t :: ts) d).
Proof. intros Ht. unfold peek. by rewrite token_cons. Qed.

Lemma bind_eval {A B} (m : L (list Token) A) (f : A -> L (list Token) B) l x l' :
  m l = (Ok x, l') -> (m ≫= f) l = f x l'.
Proof. intros H. unfold mbind, M_bind. by rewrite H. Qed.

Lemma inc_depth_list ts d : (0 <= d < 41)%Z ->
  inc_depth (lex ts d) = (Ok (d + 1)%Z, lex ts (d + 1)).
Proof. intros Hd. by apply (inc_depth_ok (lex ts d)); split; [|unfold MAX_DEPTH; simpl; lia]. Qed.

(** What ends an expression of binding power [min_bp]. *)
Definition stops (min_bp : Z) (t : Token) : Prop :=
  category t <> Category.Comment /\
  (abort (category t) = true \/
   (abort (category t) = false /\ exists b, bp t = Some b /\ (b < min_bp)%Z)).

(** The parse of [e] in front of a token that ends it. *)
Definition parses (e : expr) (min_bp : Z) (t : Token) (rest : list Token) (d : Z)
  (m : L (list Token) (End_ * Statement)) (ts : list Token) : Prop :=
  exists s, strip s = Some (shape_of e) /\
    m (lex ts d) =
      if abort (category t) then (Ok (Done t, s), lex rest 0)
      else (Ok (Cont, s), lex (t :: rest) (d + 1 + Z.of_nat (ops e))).

Definition no_abort (e : expr) : Prop :=
  Forall (fun t => abort (category t) = false) (etokens e).

(** *** The loop at an operator that binds strong enough *)
Lemma infix_op_step rec min_bp fuel left o b ts d :
  bp o = Some b -> (min_bp <= b)%Z -> abort (category o) = false ->
  infix_loop rec min_bp abort (S fuel) left (lex (o :: ts) d) =
  (st ← (token;;
     '(end_, nl) ← infix_statement rec (Operation.Operator (category o)) (b + 1) o left abort;
     match end_ with
     | Done cat => set_depth 0;; mret (ReturnEnd cat nl)
     | Cont => mret (Unfinished nl)
     end);
   match st with
   | NoInfix => throw (SyntaxError.unexpected_token o)
   | ReturnContinue left_ => mret (Cont, left_)
   | ReturnEnd cat left_ => done cat left_
   | Unfinished nl => infix_loop rec min_bp abort fuel nl
   end) (lex (o :: ts) d).
Proof.
  intros Hb Hmin Ha. destruct (bp_operator o b Hb) as (c & Hop & Hib & Hc & _). subst c.
  cbn [infix_loop]. erewrite bind_eval by by eapply peek_cons_list, bp_not_comment.
  cbv beta iota. rewrite Ha, Hop. erewrite bind_eval by done. cbv beta iota.
  unfold handle_infix. rewrite Hib.
  by rewrite (proj2 (Z.ltb_ge b min_bp)).
Qed.

(** The right operand of [o] is parsed, the loop goes on or ends. *)
Lemma infix_operand rec min_bp fuel left o b r t rest d shl :
  bp o = Some b -> (min_bp <= b)%Z -> abort (category o) = false ->
  strip left = Some shl ->
  parses r (b + 1) t rest d (rec (b + 1)%Z abort) (etokens r ++ t :: rest) ->
  exists s, strip s = Some (SBin (category o) shl (shape_of r)) /\
    infix_loop rec min_bp abort (S fuel) left (lex (o :: etokens r ++ t :: rest) d) =
    if abort (category t) then (Ok (Done t, s), lex rest 0)
    else infix_loop rec min_bp abort fuel s (lex (t :: rest) (d + 1 + Z.of_nat (ops r))).
Proof.
  intros Hb Hmin Ha Hl (rhs & Hr & Hrec).
  pose proof (bp_not_comment o b Hb) as Hoc.
  rewrite (infix_op_step _ _ _ _ _ b) by done. unfold mbind at 1, M_bind.
  assert (forall end_, exists s, strip s = Some (SBin (category o) shl (shape_of r)) /\
    forall l l', rec (b + 1)%Z abort l = (Ok (end_, rhs), l') ->
      infix_statement rec (Operation.Operator (category o)) (b + 1) o left abort l
      = (Ok (end_, s), l')) as Hst.
  { intros end_.
    exists (Statement.with_start_end_token (Statement.start left)
      (match end_ with
       | Done x => if abort (category x) then x else Statement.end_ rhs
       | Cont => Statement.end_ rhs end) (Operator (category o) [left; rhs])).
    split; [simpl; by rewrite Hl, Hr|]. intros l l' E. unfold infix_statement.
    erewrite bind_eval by done. cbv beta iota.
    destruct rhs as [rt re rk]. destruct rk; try done; by destruct end_. }
  destruct (abort (category t)) eqn:Et.
  - destruct (Hst (Done t)) as (s & Hs & Hinf). exists (Statement.set_end s t).
    split; [by rewrite strip_set_end|]. apply Hinf in Hrec.
    erewrite bind_eval by by apply token_cons. cbv beta.
    by erewrite bind_eval by done.
  - destruct (Hst Cont) as (s & Hs & Hinf). exists s. split; [done|]. apply Hinf in Hrec.
    erewrite bind_eval by by apply token_cons. cbv beta.
    by erewrite bind_eval by done.
Qed.

(** *** From the first literal along the left spine *)
Fixpoint head (e : expr) : Token := match e with ENum t => t | EBin _ l _ => head l end.
Fixpoint tail_tokens (e : expr) : list Token :=
  match e with ENum _ => [] | EBin o l r => tail_tokens l ++ o :: etokens r end.

Lemma etokens_head e : etokens e = head e :: tail_tokens e.
Proof. induction e as [t|o l IHl r _]; simpl; [done|]. by rewrite IHl. Qed.

Lemma ordered_head e : ordered_bp e -> Operation.new (head e) = Some Operation.Primitive.
Proof. induction e as [t|o l IHl r _]; simpl; [done|]. intros (_ & Hl & _). by apply IHl. Qed.

Lemma infix_abort rec min_bp fuel left t rest d :
  category t <> Category.Comment -> abort (category t) = true ->
  infix_loop rec min_bp abort (S fuel) left (lex (t :: rest) d) =
  (Ok (Done t, Statement.set_end left t), lex rest 0).
Proof.
  intros Hc Ha. cbn [infix_loop]. erewrite bind_eval by by apply peek_cons_list.
  cbv beta iota. rewrite Ha. by erewrite bind_eval by by apply token_cons.
Qed.

Lemma infix_weaker rec min_bp fuel left t b rest d :
  bp t = Some b -> (b < min_bp)%Z -> abort (category t) = false ->
  infix_loop rec min_bp abort (S fuel) left (lex (t :: rest) d) =
  (Ok (Cont, left), lex (t :: rest) d).
Proof.
  intros Hb Hlt Ha. destruct (bp_operator t b Hb) as (c & Hop & Hib & Hc & _). subst c.
  cbn [infix_loop]. erewrite bind_eval by by eapply peek_cons_list, bp_not_comment.
  cbv beta iota. rewrite Ha, Hop. erewrite bind_eval by done. cbv beta iota.
  unfold handle_infix. rewrite Hib. by rewrite (proj2 (Z.ltb_lt b min_bp)).
Qed.

(** The recursive calls parse the operands they are given. *)
Definition operands_ok (n : nat) (rec : Z -> Abort_ -> L (list Token) (End_ * Statement)) :
  Prop := forall e min_bp t rest d,
    ordered_bp e -> no_abort e -> (min_bp <= level e)%Z -> stops min_bp t ->
    (0 <= d)%Z -> (d + Z.of_nat (ops e) + 1 <= 41)%Z ->
    length (etokens e ++ t :: rest) < n ->
    parses e min_bp t rest d (rec min_bp abort) (etokens e ++ t :: rest).

Lemma loop_spine n rec min_bp e : operands_ok n rec -> forall t rest D F,
  ordered_bp e -> no_abort e -> (min_bp <= level e)%Z -> stops (level e + 1) t ->
  (0 <= D)%Z -> (D + Z.of_nat (ops e) <= 41)%Z ->
  length (tail_tokens e ++ t :: rest) < n -> length (tail_tokens e ++ t :: rest) < F ->
  exists s, strip s = Some (shape_of e) /\
    if abort (category t) then
      infix_loop rec min_bp abort F (Statement.with_start_token (head e) Primitive)
        (lex (tail_tokens e ++ t :: rest) D) = (Ok (Done t, s), lex rest 0)
    else exists F', length (t :: rest) < F' /\
      infix_loop rec min_bp abort F (Statement.with_start_token (head e) Primitive)
        (lex (tail_tokens e ++ t :: rest) D) =
      infix_loop rec min_bp abort F' s (lex (t :: rest) (D + Z.of_nat (ops e))).
Proof.
  intros Hrec. induction e as [p|o l IHl r _]; intros t rest D F Hc Hna Hmin Hst HD Hops Hn HF.
  - simpl in *. destruct (abort (category t)) eqn:Et.
    + exists (Statement.set_end (Statement.with_start_token p Primitive) t). split; [done|].
      destruct F as [|F]; [lia|]. by apply infix_abort; [apply Hst|].
    + exists (Statement.with_start_token p Primitive). split; [done|].
      exists F. split; [done|]. by rewrite Z.add_0_r.
  - destruct Hc as [(b & Hb & Hbl & Hbr) [Hcl Hcr]]. unfold no_abort in Hna. simpl in Hna.
    apply Forall_app in Hna as [Hnl [Hno Hnr]%Forall_cons].
    simpl in Hmin, Hst, Hops, Hn, HF |- *. rewrite Hb in Hmin, Hst. simpl in Hmin, Hst.
    rewrite <- app_assoc in Hn, HF |- *. simpl in Hn, HF |- *.
    destruct (IHl o (etokens r ++ t :: rest) D F) as (sl & Hsl & Hl); try done; try lia.
    { split; [by eapply bp_not_comment|]. right. split; [done|]. exists b. split; [done|]. lia. }
    rewrite Hno in Hl. destruct Hl as (F1 & HF1 & El). rewrite El. clear El.
    destruct F1 as [|F1]; [lia|].
    rewrite length_app in Hn. simpl in Hn, HF1.
    destruct (infix_operand rec min_bp F1 sl o b r t rest (D + Z.of_nat (ops l)) (shape_of l))
      as (s & Hs & E); [done|lia|done|done| |].
    { apply Hrec; [done|done|lia|done|lia|lia|lia]. }
    exists s. split; [done|]. rewrite E. destruct (abort (category t)); [done|].
    exists F1. rewrite length_app in HF1. simpl in HF1. split; [simpl; lia|].
    do 2 f_equal. lia.
Qed.

Lemma statement_primitive rec min_bp p ts d :
  Operation.new p = Some Operation.Primitive -> abort (category p) = false ->
  (0 <= d < 41)%Z ->
  statement_body rec min_bp abort (lex (p :: ts) d) =
  infix_loop rec min_bp abort (S (length ts)) (Statement.with_start_token p Primitive)
    (lex ts (d + 1)).
Proof.
  intros Hp Ha Hd. destruct (primitive_token p Hp) as [Hc Hf].
  unfold statement_body. erewrite bind_eval by by apply inc_depth_list. cbv beta.
  rewrite (proj2 (Z.leb_gt MAX_DEPTH (d + 1))) by (unfold MAX_DEPTH; lia).
  erewrite bind_eval by by apply token_cons. cbv beta iota. rewrite Hf, Ha.
  unfold prefix_statement. rewrite Hp. done.
Qed.

Lemma operands_step n rec : operands_ok n rec -> operands_ok (S n) (statement_body rec).
Proof.
  intros Hrec e min_bp t rest d Hc Hna Hmin Hst Hd Hops Hlen.
  pose proof (ordered_head e Hc) as Hh. unfold no_abort in Hna.
  pose proof Hna as Hna'. rewrite etokens_head in Hna', Hlen |- *.
  apply Forall_cons in Hna' as [Hah _]. simpl in Hlen |- *.
  destruct (loop_spine n rec min_bp e Hrec t rest (d + 1)
    (S (length (tail_tokens e ++ t :: rest)))) as (s & Hs & E); try done; try lia.
  { destruct Hst as [Hcm [Ha|(Ha & b & Hb & Hlt)]]; (split; [done|]); [by left|right].
    split; [done|]. exists b. split; [done|]. lia. }
  exists s. split; [done|]. rewrite statement_primitive; [|done|done|lia].
  destruct (abort (category t)) eqn:Et; [exact E|].
  destruct E as (F' & HF' & E). rewrite E. destruct F' as [|F']; [simpl in HF'; lia|].
  destruct Hst as [_ [Ha|(_ & b & Hb & Hlt)]]; [congruence|].
  by apply (infix_weaker _ _ _ _ _ b).
Qed.

Lemma statement_operands n : operands_ok n (statement n).
Proof.
  induction n as [|n IH]; [intros ????????????; lia|]. by apply operands_step.
Qed.
End Pratt.

Lemma ordered_no_semicolon e : ordered_bp e -> no_abort (is_cat Category.Semicolon) e.
Proof.
  induction e as [t|o l IHl r IHr]; simpl.
  - intros Ht. apply Forall_singleton. unfold is_cat, Category.eqb.
    apply bool_decide_eq_false. intros E. unfold Operation.new in Ht. by rewrite E in Ht.
  - intros [(b & Hb & _) [Hl Hr]]. apply Forall_app. split; [by apply IHl|].
    constructor; [|by apply IHr]. unfold is_cat, Category.eqb.
    apply bool_decide_eq_false. intros E. unfold bp, Operation.new in Hb. by rewrite E in Hb.
Qed.

(** The table of precedences in the manual of the language
    ([doc/manual/nasl/nasl-grammar]), the weakest binary operator first. *)
Definition rank (c : Category.t) : option nat :=
  match c with
  | Category.PipePipe => Some 1
  | Category.AmpersandAmpersand => Some 2
  | Category.Less | Category.LessEqual | Category.Greater | Category.GreaterEqual
  | Category.EqualEqual | Category.BangEqual | Category.GreaterLess | Category.GreaterBangLess
  | Category.EqualTilde | Category.BangTilde => Some 3
  | Category.Pipe => Some 4
  | Category.Caret => Some 5
  | Category.Ampersand => Some 6
  | Category.LessLess | Category.GreaterGreater | Category.GreaterGreaterGreater => Some 7
  | Category.Plus | Category.Minus => Some 8
  | Category.Star | Category.Slash | Category.Percent => Some 9
  | Category.StarStar => Some 10
  | _ => None
  end.

(** The rank of the operator at the top; literals are above every operator. *)
Definition top_rank (e : expr) : nat :=
  match e with ENum _ => 11 | EBin o _ _ => default 0 (rank (category o)) end.

Fixpoint canonical (e : expr) : Prop :=
  match e with
  | ENum t => Operation.new t = Some Operation.Primitive
  | EBin o l r => (exists n, rank (category o) = Some n /\ n <= top_rank l /\ n < top_rank r)
      /\ canonical l /\ canonical r
  end.

(** The binding powers of the parser follow the ranks. *)
Lemma bp_rank o n : rank (category o) = Some n -> bp o = Some (2 + 2 * Z.of_nat n)%Z.
Proof.
  unfold bp, Operation.new. intros Hn. destruct (category o); simpl in Hn; try done;
    injection Hn as <-; reflexivity.
Qed.

Lemma level_rank e : canonical e -> level e = (2 + 2 * Z.of_nat (top_rank e))%Z.
Proof.
  destruct e as [t|o l r]; [done|]. intros [(n & Hn & _) _]. simpl.
  by rewrite Hn, (bp_rank o n Hn).
Qed.

Lemma canonical_ordered e : canonical e -> ordered_bp e.
Proof.
  induction e as [t|o l IHl r IHr]; [done|]. intros [(n & Hn & Hl & Hr) [Cl Cr]]. simpl.
  split; [|by split; [apply IHl|apply IHr]].
  exists (2 + 2 * Z.of_nat n)%Z. rewrite (bp_rank o n Hn), !level_rank by done. split; [done|lia].
Qed.

(** A tree in which, by the ranks, no left operand has a weaker operator and no right operand an
    operator that is weaker or of the same rank, is parsed from its tokens to exactly this tree:
    the parser lets every operator associate to the left. *)
Lemma ranked_parsed (profile : BuildProfile) (e : expr) (semi : Token) (rest : list Token) :
  canonical e -> ops e <= 40 -> category semi = Category.Semicolon ->
  exists s, next_statement (mkLexer (etokens e ++ semi :: rest) 0)
      = (Ok (Some (inl s)), mkLexer rest 0)
    /\ strip s = Some (shape_of e).
Proof.
  intros Hc%canonical_ordered Hops Hsemi.
  assert (is_cat Category.Semicolon (category semi) = true) as Ha
    by (unfold is_cat, Category.eqb; by apply bool_decide_eq_true).
  destruct (statement_operands (is_cat Category.Semicolon)
    (S (length (etokens e ++ semi :: rest))) e 0%Z semi rest 0%Z) as (s & Hs & E).
  - done.
  - by apply ordered_no_semicolon.
  - destruct e; simpl; [lia|]. destruct Hc as [(b & Hb & _) _].
    rewrite Hb. simpl. apply bp_operator in Hb as (_ & _ & _ & _ & ?). lia.
  - split; [by rewrite Hsemi|by left].
  - lia.
  - lia.
  - lia.
  - exists s. split; [|done]. unfold next_statement. cbn [tokenizer src_size list_source].
    rewrite E, Ha. simpl. destruct s as [t en k]. by destruct k.
Qed.

(** The associativity of the table in the manual: comparisons do not associate, [**] associates
    to the right, all other binary operators to the left. *)
Inductive associativity : Set := ToLeft | ToRight | Not.
Definition assoc (c : Category.t) : associativity :=
  match rank c with Some 3 => Not | Some 10 => ToRight | _ => ToLeft end.

(** Trees that an expression without parentheses has by the manual *)
Fixpoint by_manual (e : expr) : Prop :=
  match e with
  | ENum t => Operation.new t = Some Operation.Primitive
  | EBin o l r =>
      (exists n, rank (category o) = Some n
       /\ match assoc (category o) with
          | ToLeft => n <= top_rank l /\ n < top_rank r
          | ToRight => n < top_rank l /\ n <= top_rank r
          | Not => n < top_rank l /\ n < top_rank r
          end)
      /\ by_manual l /\ by_manual r
  end.
(** No power is the exponent of another. *)
Fixpoint no_power_chain (e : expr) : Prop :=
  match e with
  | ENum _ => True
  | EBin o l r =>
      (category o = Category.StarStar -> top_rank r <> 10) /\ no_power_chain l /\ no_power_chain r
  end.
Lemma manual_canonical e : by_manual e -> no_power_chain e -> canonical e.
Proof.
  induction e as [t|o l IHl r IHr]; [done|]. intros [(n & Hn & Ha) [Ml Mr]] [Hc [Cl Cr]].
  split; [|split; auto]. exists n. split; [done|]. unfold assoc in Ha. rewrite Hn in Ha.
  destruct (decide (n = 3)) as [->|]; [simpl in Ha; lia|]. destruct (decide (n = 10)) as [->|].
  - assert (category o = Category.StarStar) as E by (destruct (category o); simpl in Hn; congruence). specialize (Hc E). simpl in Ha. lia.
  - do 11 (destruct n as [|n]; [try done; lia|]). lia.
Qed.

(** C8: Precedence and associativity.  A statement made of literals and at most 40 binary
    operators is parsed from its tokens to exactly the tree that the table of precedence and
    associativity in the manual gives it, unless a power is the exponent of another power; the
    parser then stands after the semicolon with its depth reset. *)
Theorem precedence_roundtrip (profile : BuildProfile) (e : expr) (semi : Token)
  (rest : list Token) :
  by_manual e -> no_power_chain e -> ops e <= 40 -> category semi = Category.Semicolon ->
  exists s, next_statement (mkLexer (etokens e ++ semi :: rest) 0)
      = (Ok (Some (inl s)), mkLexer rest 0)
    /\ strip s = Some (shape_of e).
Proof. intros Hm Hc. apply ranked_parsed. by apply manual_canonical. Qed.

(** A chain of powers, which the manual lets associate to the right, is parsed to the tree that
    associates to the left. *)
Theorem power_associates_left (profile : BuildProfile) (a b c : Token) (semi : Token) (rest : list Token) :
  Forall (fun t => Operation.new t = Some Operation.Primitive) [a; b; c] -> category semi = Category.Semicolon ->
  let power l r := EBin (tok Category.StarStar) l r in
  let meant := power (ENum a) (power (ENum b) (ENum c)) in
  by_manual meant
  /\ exists s, next_statement (mkLexer (etokens meant ++ semi :: rest) 0) = (Ok (Some (inl s)), mkLexer rest 0)
    /\ strip s = Some (shape_of (power (power (ENum a) (ENum b)) (ENum c))).
Proof.
  intros Ht Hs power meant. apply Forall_cons in Ht as [Ha Ht]. apply Forall_cons in Ht as [Hb Ht]. apply Forall_cons in Ht as [Hc _].
  split.
  - simpl. split_and!; try done; exists 10; simpl; (split; [done|lia]).
  - apply (ranked_parsed profile (power (power (ENum a) (ENum b)) (ENum c))); [|simpl; lia|done].
    simpl. split_and!; try done; exists 10; simpl; (split; [done|lia]).
Qed.

(** [1 + 2 * 3 - 4] *)
Definition precedence_sample : expr :=
  EBin (tok Category.Minus)
    (EBin (tok Category.Plus) (ENum (num 1)) (EBin (tok Category.Star) (ENum (num 2)) (ENum (num 3))))
    (ENum (num 4)).

Lemma precedence_roundtrip_witness :
  by_manual precedence_sample /\ ops precedence_sample <= 40 /\
  exists s, @next_statement (list Token) _ debug_build
      (mkLexer (etokens precedence_sample ++ [semicolon]) 0)
      = (Ok (Some (inl s)), mkLexer [] 0)
    /\ strip s = Some (shape_of precedence_sample).
Proof.
  assert (by_manual precedence_sample) as Hm.
  { unfold precedence_sample. cbn [by_manual].
    repeat match goal with
    | |- _ /\ _ => split
    | |- exists _, _ => eexists
    | |- rank _ = Some _ => reflexivity
    | |- match _ with _ => _ end => vm_compute; lia
    | |- _ => vm_compute; done
    end. }
  assert (no_power_chain precedence_sample) as Hc by (vm_compute; split_and!; done).
  assert (ops precedence_sample <= 40) as Ho by (simpl; lia).
  split; [exact Hm|]. split; [exact Ho|].
  exact (precedence_roundtrip debug_build precedence_sample semicolon [] Hm Hc Ho eq_refl).
Defined.
