(* ===== verification/NaslValue.v ===== *)
(** * NASL values

    [nasl/syntax/naslvalue.rs] and the storable values of [storage/types.rs]:
    the type of values, its conversions and its textual form.  A [HashMap] is a
    finite map; the order in which it is iterated over, which Rust leaves open,
    is a parameter of everything that depends on it. *)

From S2P Require Import Prelude RustStr Token.
Local Open Scope string_scope.

(** ** Iteration over a [HashMap]

    The order is some enumeration of the keys. *)
Class HashOrder := {
  iter_order : gset string -> list string;
  iter_order_perm : forall s, iter_order s ≡ₚ elements s
}.

(** The order of the keys' enumeration by the map itself, as one instance. *)
#[refine] Definition plain_order : HashOrder := {| iter_order := elements |}.
Proof. done. Defined.

(** [HashMap::iter] *)
Definition iter `{HashOrder} {V} (m : gmap string V) : list (string * V) :=
  omap (fun k => pair k <$> m !! k) (iter_order (dom m)).

(** [Iterator::collect] into a [HashMap]: the pairs are inserted in turn. *)
Definition collect_map {V} (l : list (string * V)) : gmap string V :=
  foldl (fun m kv => <[kv.1 := kv.2]> m) ∅ l.

Module NaslValue.

#[warnings="-register-all"]
Inductive t : Type :=
| String (s : string)
| Data (d : list byte)
| Number (n : Z)
| Array (a : list t)
| Dict (m : gmap string t)
| Boolean (b : bool)
| AttackCategory (c : ACT.t)
| Null
| Return (v : t)
| Fork (vs : list t)
| Continue
| Break
| Exit (rc : Z).

(** The number of constructors, the measure of the inductions below. *)
Fixpoint size (v : t) : nat :=
  match v with
  | Array a | Fork a => S (sum_list (map size a))
  | Dict m => S (map_fold (fun _ n acc => n + acc) 0 (size <$> m))
  | Return v => S (size v)
  | _ => 1
  end.

(** [derive(PartialEq)]: vectors element by element, dictionaries as maps. *)
Fixpoint eqb (a b : t) {struct a} : bool :=
  match a, b with
  | String x, String y => bool_decide (x = y)
  | Data x, Data y => bool_decide (x = y)
  | Number x, Number y | Exit x, Exit y => Z.eqb x y
  | Array x, Array y | Fork x, Fork y =>
      (fix go l l' := match l, l' with
       | [], [] => true
       | v :: r, w :: r' => eqb v w && go r r'
       | _, _ => false
       end) x y
  | Dict x, Dict y =>
      bool_decide (dom x = dom y)
      && map_fold (fun _ b acc => b && acc) true
           (merge (fun f o => match f, o with Some f, Some w => Some (f w) | _, _ => None end)
              (eqb <$> x) y)
  | Boolean x, Boolean y => Bool.eqb x y
  | AttackCategory x, AttackCategory y => bool_decide (x = y)
  | Return x, Return y => eqb x y
  | Null, Null | Continue, Continue | Break, Break => true
  | _, _ => false
  end.

(** *** [Debug] *)

Definition debug_act (c : ACT.t) : string :=
  match c with
  | ACT.Init => "Init" | ACT.Scanner => "Scanner" | ACT.Settings => "Settings"
  | ACT.GatherInfo => "GatherInfo" | ACT.Attack => "Attack"
  | ACT.MixedAttack => "MixedAttack" | ACT.DestructiveAttack => "DestructiveAttack"
  | ACT.Denial => "Denial" | ACT.KillHost => "KillHost" | ACT.Flood => "Flood"
  | ACT.End => "End"
  end.

Definition hex_digit (n : N) : char :=
  ascii_of_N (if N.ltb n 10 then 48 + n else 87 + n).

(** [char::escape_debug] inside a string: the quote, the backslash, the control
    characters and the blanks other than the space are escaped. *)
Definition escape_debug (c : char) : list char :=
  let n := code c in
  if N.eqb n 0 then chars_of "\0" else if N.eqb n 9 then chars_of "\t"
  else if N.eqb n 10 then chars_of "\n" else if N.eqb n 13 then chars_of "\r"
  else if N.eqb n 34 then [backslash; dquote] else if N.eqb n 92 then [backslash; backslash]
  else if N.ltb n 32 || in_range 127 160 n || N.eqb n 173 then
    chars_of "\u{" ++ (if N.ltb n 16 then [] else [hex_digit (N.div n 16)])
      ++ [hex_digit (N.modulo n 16)] ++ chars_of "}"
  else [c].

Definition debug_str (s : string) : string :=
  String.String dquote
    (string_of (chars_of s ≫= escape_debug) ++ String.String dquote EmptyString).

Section Text.
Context `{HashOrder}.

Fixpoint debug (v : t) : string :=
  match v with
  | String s => "String(" ++ debug_str s ++ ")"
  | Data d => "Data(" ++ Category.debug_bytes d ++ ")"
  | Number n => "Number(" ++ pretty n ++ ")"
  | Array a => "Array([" ++ String.concat ", " (map debug a) ++ "])"
  | Dict m => "Dict({" ++ String.concat ", "
      (map (fun kv => debug_str kv.1 ++ ": " ++ kv.2) (iter (debug <$> m))) ++ "})"
  | Boolean b => if b then "Boolean(true)" else "Boolean(false)"
  | AttackCategory c => "AttackCategory(" ++ debug_act c ++ ")"
  | Null => "Null"
  | Return v => "Return(" ++ debug v ++ ")"
  | Fork a => "Fork([" ++ String.concat ", " (map debug a) ++ "])"
  | Continue => "Continue"
  | Break => "Break"
  | Exit rc => "Exit(" ++ pretty rc ++ ")"
  end.

(** *** [Display] *)

Definition data_string (d : list byte) : string := string_of (map byte_as_char d).

Fixpoint to_string (v : t) : string :=
  match v with
  | String x => x
  | Number x => pretty x
  | Array x => String.concat ","
      (imap (fun i s => pretty i ++ ": " ++ s) (map to_string x))
  | Data x => data_string x
  | Dict x => String.concat ","
      (map (fun kv => kv.1 ++ ": " ++ kv.2) (iter (to_string <$> x)))
  | Boolean true => "1"
  | Boolean false => "0"
  | Null => String.String EOF_CHAR EmptyString
  | Exit rc => "exit(" ++ pretty rc ++ ")"
  | AttackCategory c => IdentifierType.to_string (IdentifierType.ACT c)
  | Return rc => "return(" ++ debug rc ++ ")"
  | Continue => "continue"
  | Break => "break"
  | Fork x => "Creates " ++ pretty (length x) ++ " runs, for "
      ++ String.concat "," (map to_string x)
  end.

(** *** Conversions *)

(** [From<NaslValue> for bool]; the arm of [Fork] is the one of the source. *)
Definition to_bool (v : t) : bool :=
  match v with
  | String s => negb (bool_decide (s = EmptyString)) && negb (bool_decide (s = "0"))
  | Array v => negb (Nat.eqb (length v) 0)
  | Data v => negb (Nat.eqb (length v) 0)
  | Boolean b => b
  | Null | Continue | Break => false
  | Number n | Exit n => negb (Z.eqb n 0)
  | AttackCategory _ | Return _ => true
  | Dict v => negb (bool_decide (dom v = ∅))
  | Fork v => Nat.eqb (length v) 0
  end.

(** [From<&NaslValue> for i64] *)
Definition to_i64 (v : t) : Z :=
  match v with
  | String _ | Array _ | Data _ | Dict _ | Fork _ => 1
  | Number x | Exit x => x
  | Boolean x => if x then 1 else 0
  | AttackCategory x => ACT.as_i64 x
  | Null | Continue | Break => 0
  | Return _ => -1
  end.

(** [i64::to_ne_bytes]: eight bytes of the two's complement, in the byte order of
    the machine. *)
Definition le_bytes (n : Z) : list byte :=
  map (fun i => byte_of_N (Z.to_N (Z.land (Z.shiftr n (8 * Z.of_nat i)) 255))) (seq 0 8).

Definition to_ne_bytes (little_endian : bool) (n : Z) : list byte :=
  if little_endian then le_bytes n else rev (le_bytes n).

(** [From<&NaslValue> for Vec<u8>] *)
Definition ref_bytes (little_endian : bool) (v : t) : list byte :=
  match v with
  | String x => as_bytes (chars_of x)
  | Number x => to_ne_bytes little_endian x
  | Data x => x
  | _ => []
  end.

(** [From<NaslValue> for Vec<u8>] *)
Definition into_bytes (little_endian : bool) (v : t) : list byte :=
  match v with
  | String x => as_bytes (chars_of x)
  | Data x => x
  | Array x => x ≫= ref_bytes little_endian
  | Boolean _ | Number _ | Dict _ => as_bytes (chars_of (to_string v))
  | _ => []
  end.

(** [From<NaslValue> for Vec<NaslValue>]: what [foreach] runs over. *)
Definition to_vec (v : t) : list t :=
  match v with
  | Array ret => ret
  | Dict ret => map snd (iter ret)
  | Boolean _ | Number _ => [v]
  | Data ret => map (fun x => Data [x]) ret
  | String ret => map (fun x => String (String.String x EmptyString)) (chars_of ret)
  | _ => []
  end.

End Text.

(** [Ord]: the byte forms are compared. *)
Fixpoint bytes_cmp (a b : list byte) : comparison :=
  match a, b with
  | [], [] => Eq
  | [], _ :: _ => Lt
  | _ :: _, [] => Gt
  | x :: a', y :: b' =>
      match N.compare (Byte.to_N x) (Byte.to_N y) with Eq => bytes_cmp a' b' | c => c end
  end.

Definition cmp (little_endian : bool) (a b : t) : comparison :=
  bytes_cmp (ref_bytes little_endian a) (ref_bytes little_endian b).

(** [TryFrom<&Token>]: the literal a token stands for. *)
Definition try_from (token : Token) : t + Category.t :=
  match category token with
  | Category.String c | Category.IPv4Address c => inl (String c)
  | Category.Data d => inl (Data d)
  | Category.Identifier (IdentifierType.Undefined id) => inl (String id)
  | Category.Number n => inl (Number n)
  | Category.Identifier IdentifierType.Null => inl Null
  | Category.Identifier IdentifierType.True_ => inl (Boolean true)
  | Category.Identifier IdentifierType.False_ => inl (Boolean false)
  | o => inr o
  end.

(** *** Storable values *)

#[warnings="-register-all"]
Inductive Primitive : Type :=
| PString (s : string)
| PData (d : list byte)
| PNumber (n : Z)
| PArray (a : list Primitive)
| PDict (m : list (string * Primitive))
| PBoolean (b : bool)
| PNull.

(** [NaslValue::as_primitive] *)
Fixpoint as_primitive `{HashOrder} (v : t) : Primitive :=
  match v with
  | String s => PString s
  | Data x => PData x
  | Number x => PNumber x
  | Array x => PArray (map as_primitive x)
  | Dict x => PDict (iter (as_primitive <$> x))
  | Boolean x => PBoolean x
  | _ => PNull
  end.

(** [From<Primitive>] *)
Fixpoint from_primitive (p : Primitive) : t :=
  match p with
  | PString x => String x
  | PData x => Data x
  | PNumber x => Number x
  | PArray x => Array (map from_primitive x)
  | PDict x => Dict (collect_map (map (fun '(k, v) => (k, from_primitive v)) x))
  | PBoolean x => Boolean x
  | PNull => Null
  end.

(** Values that storage can keep: no control value and no attack category, at any
    depth. *)
Fixpoint storable (v : t) : bool :=
  match v with
  | String _ | Data _ | Number _ | Boolean _ | Null => true
  | Array x => forallb storable x
  | Dict x => map_fold (fun _ b acc => b && acc) true (storable <$> x)
  | _ => false
  end.

(** *** Induction over values *)

Lemma size_elem v (l : list t) : v ∈ l -> size v <= sum_list (map size l).
Proof. induction 1 as [|w l' v' _ IH]; simpl in *; lia. Qed.

Lemma size_lookup (m : gmap string t) k v :
  m !! k = Some v -> size v <= map_fold (fun _ n acc => n + acc) 0 (size <$> m).
Proof.
  intros E. rewrite map_fold_fmap, (map_fold_delete_L _ _ k v); [simpl; lia| |done].
  intros; simpl; lia.
Qed.

Lemma value_ind (P : t -> Prop) :
  (forall v,
    (forall a, v = Array a \/ v = Fork a -> Forall P a) ->
    (forall m, v = Dict m -> map_Forall (fun _ => P) m) ->
    (forall w, v = Return w -> P w) -> P v) ->
  forall v, P v.
Proof.
  intros Hstep v. remember (size v) as n eqn:En. revert v En.
  induction (lt_wf n) as [n _ IH]. intros v ->. apply Hstep.
  - intros a [->| ->]; apply Forall_forall; intros w Hw%size_elem;
      (eapply IH; [|done]); simpl; lia.
  - intros m -> k w Hw%size_lookup. eapply IH; [|done]. simpl. lia.
  - intros w ->. eapply IH; [|done]. simpl. lia.
Qed.

(** *** Iteration and collection are inverse *)

Lemma iter_keys `{HashOrder} {V} (m : gmap string V) : (iter m).*1 = iter_order (dom m).
Proof.
  unfold iter. assert (forall k, k ∈ iter_order (dom m) -> is_Some (m !! k)) as Hin.
  { intros k. rewrite (iter_order_perm (dom m)), elem_of_elements. apply elem_of_dom. }
  induction (iter_order (dom m)) as [|k l IH]; [done|]. simpl.
  destruct (Hin k) as [v ->]; [left|]. simpl. f_equal. apply IH. intros. apply Hin. by right.
Qed.

Lemma iter_perm `{HashOrder} {V} (m : gmap string V) : iter m ≡ₚ map_to_list m.
Proof.
  assert (NoDup (iter m)) as Hnd.
  { eapply NoDup_fmap_1. rewrite iter_keys, iter_order_perm. apply NoDup_elements. }
  revert Hnd. unfold iter. rewrite (iter_order_perm (dom m)). intros Hnd.
  apply NoDup_Permutation.
  - done.
  - apply NoDup_map_to_list.
  - intros [k v]. rewrite list_elem_of_omap, elem_of_map_to_list. split.
    + intros (k' & _ & E). by simplify_option_eq.
    + intros E. exists k. rewrite elem_of_elements, elem_of_dom, E. naive_solver.
Qed.

Lemma collect_map_app {V} (l : list (string * V)) :
  collect_map l = list_to_map (rev l).
Proof.
  induction l as [|[k v] l IH] using rev_ind; [done|].
  unfold collect_map in *. rewrite foldl_app, rev_app_distr. simpl. by rewrite IH.
Qed.

Lemma collect_iter `{HashOrder} {V} (m : gmap string V) : collect_map (iter m) = m.
Proof.
  rewrite collect_map_app. etrans; [|apply list_to_map_to_list].
  apply list_to_map_proper.
  - rewrite <- Permutation_rev, iter_perm. apply NoDup_fst_map_to_list.
  - by rewrite <- Permutation_rev, iter_perm.
Qed.

Lemma iter_fmap `{HashOrder} {V W} (f : V -> W) (m : gmap string V) :
  iter (f <$> m) = map (fun kv => (kv.1, f kv.2)) (iter m).
Proof.
  unfold iter. rewrite dom_fmap_L. induction (iter_order (dom m)) as [|k l IH]; [done|].
  csimpl. rewrite IH, lookup_fmap. by destruct (m !! k).
Qed.

Lemma map_fold_andb {A} (f : A -> bool) (m : gmap string A) :
  map_fold (fun _ b acc => b && acc) true (f <$> m) = true <-> map_Forall (fun _ x => f x = true) m.
Proof.
  rewrite map_fold_fmap. induction m as [|k x m Hk IH] using map_ind.
  - rewrite map_fold_empty. split; [intros _; apply map_Forall_empty|done].
  - rewrite map_fold_insert_L by (done || (intros; simpl; by rewrite !andb_assoc, (andb_comm (f _)))).
    simpl. rewrite andb_true_iff, map_Forall_insert by done. unfold compose in IH. by rewrite IH.
Qed.

Lemma primitive_inverse `{HashOrder} v : storable v = true -> from_primitive (as_primitive v) = v.
Proof.
  induction v as [v IHa IHd IHr] using value_ind. destruct v; try done; simpl.
  - intros Hs. f_equal. specialize (IHa a (or_introl eq_refl)).
    induction IHa as [|x a Hx Ha IH]; [done|]. simpl in *. apply andb_true_iff in Hs as [? ?].
    by rewrite Hx, IH.
  - rewrite map_fold_andb. intros Hs. f_equal. specialize (IHd m eq_refl).
    rewrite iter_fmap, map_map.
    transitivity (collect_map (iter (from_primitive ∘ as_primitive <$> m))).
    { by rewrite iter_fmap. }
    rewrite collect_iter. apply map_eq. intros k. rewrite lookup_fmap.
    destruct (m !! k) as [x|] eqn:E; simpl; [|done]. f_equal. by eapply IHd, Hs.
Qed.

(** *** [==] decides equality *)

Lemma eqb_list (l l' : list t) :
  Forall (fun v => forall w, eqb v w = true <-> v = w) l ->
  (fix go l l' := match l, l' with
   | [], [] => true
   | v :: r, w :: r' => eqb v w && go r r'
   | _, _ => false
   end) l l' = true <-> l = l'.
Proof.
  intros H. revert l'. induction H as [|v l Hv _ IH]; intros [|w l']; try done.
  rewrite andb_true_iff, Hv, IH. split; [by intros [-> ->]|by intros [= -> ->]].
Qed.

Lemma eqb_map (m m' : gmap string t) :
  map_Forall (fun _ v => forall w, eqb v w = true <-> v = w) m ->
  eqb (Dict m) (Dict m') = true <-> m = m'.
Proof.
  intros H. simpl. rewrite andb_true_iff, bool_decide_eq_true.
  rewrite <- (map_fmap_id (merge _ _ _)), (map_fold_andb id). split.
  - intros [Hd Hm]. apply map_eq. intros k.
    destruct (m !! k) as [v|] eqn:Ev, (m' !! k) as [w|] eqn:Ew; [|exfalso..|done].
    + f_equal. apply (H k v Ev). apply (Hm k). rewrite lookup_merge, lookup_fmap, Ev, Ew. done.
    + apply (not_elem_of_dom_2 m' k Ew). rewrite <- Hd. by apply elem_of_dom_2 in Ev.
    + apply (not_elem_of_dom_2 m k Ev). rewrite Hd. by apply elem_of_dom_2 in Ew.
  - intros <-. split; [done|]. intros k b. rewrite lookup_merge, lookup_fmap.
    destruct (m !! k) as [v|] eqn:Ev; [|done]. simpl. intros [= <-]. by apply (H k v Ev).
Qed.

Lemma eqb_eq a b : eqb a b = true <-> a = b.
Proof.
  revert b. induction a as [a IHa IHd IHr] using value_ind. intros b.
  assert (forall m m', a = Dict m -> b = Dict m' -> eqb a b = true <-> a = b) as Hdict.
  { intros m m' -> ->. rewrite eqb_map by (by apply IHd). split; congruence. }
  destruct a, b; try (split; intros ?; discriminate); simpl;
    rewrite ?bool_decide_eq_true, ?Z.eqb_eq, ?eqb_true_iff, ?eqb_list by auto;
    try (by eapply Hdict); try (split; congruence).
  rewrite (IHr a eq_refl). split; congruence.
Qed.

#[global] Instance eq_dec : EqDecision t.
Proof.
  intros a b. destruct (eqb a b) eqn:E.
  - left. by apply eqb_eq.
  - right. intros ->. by rewrite (proj2 (eqb_eq b b) eq_refl) in E.
Defined.

End NaslValue.

(** A value that storage can keep survives it: turned into a [Primitive] and back
    it is the same value, whatever the order in which dictionaries are iterated. *)
Theorem primitive_roundtrip `{HashOrder} (v : NaslValue.t) :
  NaslValue.storable v = true -> NaslValue.from_primitive (NaslValue.as_primitive v) = v.
Proof. apply NaslValue.primitive_inverse. Qed.

Lemma primitive_roundtrip_witness :
  let v := NaslValue.Dict {["a" := NaslValue.Array [NaslValue.Number 1; NaslValue.Null];
                            "b" := NaslValue.Dict {["c" := NaslValue.Boolean true]}]} in
  NaslValue.storable v = true
  /\ NaslValue.from_primitive (NaslValue.as_primitive (H := plain_order) v) = v.
Proof.
  split; [vm_compute; reflexivity|]. apply (primitive_roundtrip (H := plain_order)).
  vm_compute. reflexivity.
Defined.

(** ** The order of values *)

Lemma bytes_cmp_refl a : NaslValue.bytes_cmp a a = Eq.
Proof. induction a as [|x a IH]; simpl; [done|]. by rewrite N.compare_refl. Qed.

Lemma bytes_cmp_eq a b : NaslValue.bytes_cmp a b = Eq -> a = b.
Proof.
  revert b. induction a as [|x a IH]; intros [|y b]; simpl; try done.
  destruct (N.compare_spec (Byte.to_N x) (Byte.to_N y)) as [E| |]; try done.
  intros Hab. f_equal; [|by apply IH].
  apply (f_equal Byte.of_N) in E. rewrite !Byte.of_to_N in E. congruence.
Qed.

Lemma bytes_cmp_opp a b : NaslValue.bytes_cmp b a = CompOpp (NaslValue.bytes_cmp a b).
Proof.
  revert b. induction a as [|x a IH]; intros [|y b]; simpl; try done.
  rewrite (N.compare_antisym (Byte.to_N x)).
  destruct (N.compare (Byte.to_N x) (Byte.to_N y)); simpl; auto.
Qed.

Lemma bytes_cmp_lt a b c :
  NaslValue.bytes_cmp a b = Lt -> NaslValue.bytes_cmp b c = Lt -> NaslValue.bytes_cmp a c = Lt.
Proof.
  revert b c. induction a as [|x a IH]; intros [|y b] [|z c]; simpl; try done.
  destruct (N.compare_spec (Byte.to_N x) (Byte.to_N y)) as [E|E|E]; try done;
    destruct (N.compare_spec (Byte.to_N y) (Byte.to_N z)) as [E'|E'|E']; try done; intros.
  - rewrite E, E', N.compare_refl. by eapply IH.
  - by rewrite E, (proj2 (N.compare_lt_iff _ _) E').
  - by rewrite <- E', (proj2 (N.compare_lt_iff _ _) E).
  - rewrite (proj2 (N.compare_lt_iff _ _)); [done|lia].
Qed.

(** [Ord] on values is a total preorder (comparing the other way round gives the
    opposite, and [<] is transitive) in which two values are equal exactly when their
    byte forms are. *)
Theorem value_cmp_total_preorder (le : bool) (a b c : NaslValue.t) :
  NaslValue.cmp le b a = CompOpp (NaslValue.cmp le a b)
  /\ (NaslValue.cmp le a b = Eq <-> NaslValue.ref_bytes le a = NaslValue.ref_bytes le b)
  /\ (NaslValue.cmp le a b = Lt -> NaslValue.cmp le b c = Lt -> NaslValue.cmp le a c = Lt).
Proof.
  unfold NaslValue.cmp. split; [apply bytes_cmp_opp|]. split; [|apply bytes_cmp_lt].
  split; [apply bytes_cmp_eq|]. intros ->. apply bytes_cmp_refl.
Qed.
