(* ===== verification/Errors.v ===== *)
(** * Errors of functions and of the interpreter

    [nasl/utils/error.rs] and [nasl/interpreter/error.rs], with the errors of the
    loader and of the storage they carry.  The error types of the builtin
    functions are kept by their variant and their message, which is all the
    interpreter passes on. *)

From S2P Require Import Prelude RustStr Token Statement NaslValue.
Local Open Scope string_scope.

(** [syntax/loader.rs] *)
Module LoadError.
Inductive t : Type :=
| Retry (s : string)
| NotFound (s : string)
| PermissionDenied (s : string)
| Dirty (s : string).

Definition filename (e : t) : string :=
  match e with Retry x | NotFound x | PermissionDenied x | Dirty x => x end.
End LoadError.

(** [storage/mod.rs] *)
Module StorageError.
Inductive t : Type :=
| Retry (s : string)
| RetryExhausted
| ConnectionLost (s : string)
| UnexpectedData (s : string)
| Dirty (s : string)
| NotFound (s : string).
End StorageError.

(** [builtin/error.rs] *)
Module BuiltinError.
Inductive t : Type :=
| Ssh (s : string) | Http (s : string) | String (s : string) | Misc (s : string)
| Socket (s : string) | Cryptographic (s : string) | Regex (s : string)
| Isotime (s : string) | KB (s : string) | Host (s : string) | Cert (s : string)
| Sys (s : string) | RawIp (s : string).
End BuiltinError.

Module ArgumentError.
Inductive t : Type :=
| MissingPositionals (expected got : nat)
| TrailingPositionals (expected got : nat)
| MissingNamed (names : list string)
| UnexpectedArgument (name : string)
| WrongArgument (s : string).

Definition wrong_argument (key expected got : string) : t :=
  WrongArgument ("Expected " ++ key ++ " to be " ++ expected ++ " but it is " ++ got).
End ArgumentError.

Module InternalError.
Inductive t : Type := Storage (e : StorageError.t).

Definition retryable (e : t) : bool :=
  match e with
  | Storage (StorageError.Retry _) => true
  | Storage _ => false
  end.
End InternalError.

Inductive FnErrorKind : Type :=
| Argument (e : ArgumentError.t)
| Builtin (e : BuiltinError.t)
| Internal (e : InternalError.t).

Inductive ReturnBehavior : Type :=
| ExitScript
| ReturnValue (v : NaslValue.t).

Record FnError := mkFnError {
  fn_kind : FnErrorKind;
  return_behavior : ReturnBehavior;
  fn_retryable : bool
}.

Module FnError.
Definition from_kind (k : FnErrorKind) : FnError := mkFnError k ExitScript false.
Definition from_argument (e : ArgumentError.t) : FnError := from_kind (Argument e).
Definition from_builtin (e : BuiltinError.t) : FnError :=
  mkFnError (Builtin e) (ReturnValue NaslValue.Null) false.
Definition from_internal (e : InternalError.t) : FnError :=
  mkFnError (Internal e) ExitScript (InternalError.retryable e).
Definition from_storage (e : StorageError.t) : FnError :=
  from_kind (Internal (InternalError.Storage e)).

(** [WithErrorInfo] *)
Definition with_retryable (e : FnError) : FnError :=
  mkFnError (fn_kind e) (return_behavior e) true.
Definition with_behavior (e : FnError) (b : ReturnBehavior) : FnError :=
  mkFnError (fn_kind e) b (fn_retryable e).
Definition with_return_value (e : FnError) (v : NaslValue.t) : FnError :=
  with_behavior e (ReturnValue v).

(** [TryFrom<&FnError>] for the three kinds *)
Definition as_argument (e : FnError) : option ArgumentError.t :=
  match fn_kind e with Argument a => Some a | _ => None end.
Definition as_internal (e : FnError) : option InternalError.t :=
  match fn_kind e with Internal a => Some a | _ => None end.
Definition as_builtin (e : FnError) : option BuiltinError.t :=
  match fn_kind e with Builtin a => Some a | _ => None end.

Definition wrong_unnamed_argument (expected got : string) : FnError :=
  from_argument (ArgumentError.WrongArgument ("Expected " ++ expected ++ " but " ++ got)).
Definition missing_argument (val : string) : FnError :=
  from_argument (ArgumentError.MissingNamed [val]).
End FnError.

Record FunctionCallError := mkFunctionCallError { fce_function : string; fce_kind : FnError }.

Module InterpretErrorKind.
Inductive t : Type :=
| FunctionExpectedValue
| ValueExpectedFunction
| WrongType (s : string)
| WrongCategory (c : Category.t)
| InvalidRegex (s : string)
| IncludeSyntaxError (filename : string) (err : SyntaxError.t)
| SyntaxError (e : SyntaxError.t)
| NotFound (s : string)
| LoadError (e : LoadError.t)
| FunctionCallError (e : FunctionCallError).
End InterpretErrorKind.

Record InterpretError := mkInterpretError {
  ie_kind : InterpretErrorKind.t;
  ie_origin : option Statement
}.

Module InterpretError.
Import InterpretErrorKind.

Definition retryable (e : InterpretError) : bool :=
  match ie_kind e with
  | LoadError (LoadError.Retry _) => true
  | FunctionCallError e => fn_retryable (fce_kind e)
  | _ => false
  end.

Definition new (k : InterpretErrorKind.t) (origin : option Statement) : InterpretError :=
  mkInterpretError k origin.
Definition from_statement (stmt : Statement) (k : InterpretErrorKind.t) : InterpretError :=
  mkInterpretError k (Some stmt).

Definition line_column_of (e : InterpretError) : nat * nat :=
  default (0, 0)%nat (tok_line_column ∘ Statement.as_token <$> ie_origin e).
Definition line (e : InterpretError) : nat := (line_column_of e).1.
Definition column (e : InterpretError) : nat := (line_column_of e).2.

Definition unsupported (stmt : Statement) (expected : string) : InterpretError :=
  from_statement stmt (WrongType expected).
Definition expected_value : InterpretError := new FunctionExpectedValue None.
Definition expected_function : InterpretError := new ValueExpectedFunction None.
Definition wrong_category (c : Category.t) : InterpretError := new (WrongCategory c) None.
Definition not_found (name : string) : InterpretError := new (NotFound name) None.
Definition include_syntax_error (file : string) (se : SyntaxError.t) : InterpretError :=
  new (IncludeSyntaxError file se) None.
Definition unparse_regex (rx : string) : InterpretError := new (InvalidRegex rx) None.
Definition from_syntax (e : SyntaxError.t) : InterpretError := new (SyntaxError e) None.
Definition from_load (e : LoadError.t) : InterpretError := new (LoadError e) None.
Definition from_call (e : Errors.FunctionCallError) : InterpretError := new (FunctionCallError e) None.

(** The [map_err] of [Interpreter::resolve]: the first statement that sees an
    error without origin becomes its origin. *)
Definition with_origin (stmt : Statement) (e : InterpretError) : InterpretError :=
  match ie_origin e with None => from_statement stmt (ie_kind e) | Some _ => e end.
End InterpretError.

(** When the interpreter retries after an error of a builtin function: an internal
    error is worth it when the storage asked for it, but the same storage error
    converted directly ([?] on a [StorageError]) never is, nor is an argument error
    or an error of a builtin, unless the function marks it. *)
Theorem retryable_errors (name : string) (stmt : Statement) (e : StorageError.t)
  (a : ArgumentError.t) (b : BuiltinError.t) (f : FnError) :
  let retried k := InterpretError.retryable (InterpretError.new
    (InterpretErrorKind.FunctionCallError (mkFunctionCallError name k)) (Some stmt)) in
  (retried (FnError.from_internal (InternalError.Storage e)) = true
     <-> exists s, e = StorageError.Retry s)
  /\ retried (FnError.from_storage e) = false
  /\ retried (FnError.from_argument a) = false /\ retried (FnError.from_builtin b) = false
  /\ retried (FnError.with_retryable f) = true.
Proof.
  simpl. split_and!; try done. unfold InterpretError.retryable. simpl.
  destruct e; simpl; split; try done; try (by intros [? ?]). eauto.
Qed.
