(* ===== verification/Register.v ===== *)
(** * The register

    [nasl/utils/context.rs]: the scopes of a running script.  Scopes are kept in
    a vector, a scope names its parent by its index, and the last one is the
    current scope.  A lookup walks the parents; an index out of range panics and
    a cycle would not end, so both are outcomes here, and the invariant [wf] that
    every operation keeps rules them out. *)

From S2P Require Import Prelude RustStr Token Statement NaslValue Errors.
Local Open Scope nat_scope.

Inductive ContextType : Type :=
| Function (params : list string) (body : Statement)
| Value (v : NaslValue.t).

(** [From<&ContextType> for NaslValue] and the other reading conversions. *)
Definition context_value (c : ContextType) : NaslValue.t :=
  match c with Function _ _ => NaslValue.Null | Value v => v end.
Definition context_i64 (c : ContextType) : Z :=
  match c with Value (NaslValue.Number i) => i | _ => 0%Z end.
Definition context_string (c : ContextType) : string :=
  match c with Value (NaslValue.String s) => s | _ => EmptyString end.
Definition context_bool (c : ContextType) : bool :=
  match c with Value (NaslValue.Boolean b) => b | _ => false end.

(** [Display for ContextType] *)
Definition context_display `{HashOrder} (c : ContextType) : string :=
  match c with Function _ _ => EmptyString | Value v => NaslValue.to_string v end.

Abbreviation Named := (gmap string ContextType).

Record NaslContext := mkContext {
  parent : option nat;
  id : nat;
  defined : Named
}.

Record Register := mkRegister { blocks : list NaslContext }.

(** [lookup_keys::FC_ANON_ARGS] *)
Definition FC_ANON_ARGS : string := "_FCT_ANON_ARGS".

Module NaslContext.
Definition default_ : NaslContext := mkContext None 0 ∅.

Definition add_named (c : NaslContext) (name : string) (v : ContextType) : NaslContext :=
  mkContext (parent c) (id c) (<[name := v]> (defined c)).

(** [NaslContext::named]: the own scope first, then the parents. *)
Fixpoint named (fuel : nat) (bs : list NaslContext) (c : NaslContext) (name : string) :
  outcome Empty_set (option (nat * ContextType)) :=
  match defined c !! name with
  | Some ct => Ok (Some (id c, ct))
  | None =>
      match parent c with
      | None => Ok None
      | Some p =>
          match fuel with
          | 0 => OutOfFuel
          | S fuel' =>
              match bs !! p with None => Panic | Some c' => named fuel' bs c' name end
          end
      end
  end.
End NaslContext.

Module Register.

Definition new : Register := mkRegister [NaslContext.default_].

Definition root_initial (initial : list (string * ContextType)) : Register :=
  mkRegister [mkContext None 0 (collect_map initial)].

(** The next index. *)
Definition index (r : Register) : nat := length (blocks r).

Definition push (r : Register) (p : nat) (defined : Named) : Register :=
  mkRegister (blocks r ++ [mkContext (Some p) (index r) defined]).

Definition create_child (r : Register) (defined : Named) : Register :=
  push r (default 0 (id <$> last (blocks r))) defined.

Definition create_root_child (r : Register) (defined : Named) : Register :=
  push r 0 defined.

Definition index_named (r : Register) (name : string) :
  outcome Empty_set (option (nat * ContextType)) :=
  match last (blocks r) with
  | None => Ok None
  | Some c => NaslContext.named (length (blocks r)) (blocks r) c name
  end.

Definition named (r : Register) (name : string) : outcome Empty_set (option ContextType) :=
  match index_named r name with
  | Ok o => Ok (snd <$> o)
  | Err e => Err e
  | Panic => Panic
  | OutOfFuel => OutOfFuel
  end.

(** The names of the current scope, in the order of the map. *)
Definition iter_named_args `{HashOrder} (r : Register) : option (list string) :=
  (fun c => (iter (defined c)).*1) <$> last (blocks r).

(** Changing a scope; [None] is the panic of an index out of range. *)
Definition update (r : Register) (i : nat) (name : string) (v : ContextType) :
  option Register :=
  (fun c => mkRegister (<[i := NaslContext.add_named c name v]> (blocks r))) <$> blocks r !! i.

Definition add_global (r : Register) (name : string) (v : ContextType) : option Register :=
  update r 0 name v.

Definition add_to_index (r : Register) (idx : nat) (name : string) (v : ContextType) :
  option Register :=
  if length (blocks r) <=? idx then None else update r idx name v.

Definition add_local (r : Register) (name : string) (v : ContextType) : Register :=
  match last (blocks r) with
  | None => r
  | Some c =>
      mkRegister (<[pred (length (blocks r)) := NaslContext.add_named c name v]> (blocks r))
  end.

Definition positional (r : Register) : outcome Empty_set (list NaslValue.t) :=
  match named r FC_ANON_ARGS with
  | Ok (Some (Value (NaslValue.Array arr))) => Ok arr
  | Ok _ => Ok []
  | Err e => Err e
  | Panic => Panic
  | OutOfFuel => OutOfFuel
  end.

(** [utils/mod.rs]: the positional arguments of the running builtin; anything but
    an array under the key is ignored. *)
Definition resolve_positional_arguments (r : Register) : outcome Empty_set (list NaslValue.t) :=
  positional r.

(** [utils/mod.rs]: a named argument; [Exit(0)] stands for one that was not given. *)
Definition get_named_parameter (r : Register) (key : string) (required : bool) :
  outcome ArgumentError.t NaslValue.t :=
  match named r key with
  | Ok None =>
      if required then Err (ArgumentError.MissingNamed [key]) else Ok (NaslValue.Exit 0)
  | Ok (Some (Value v)) => Ok v
  | Ok (Some (Function _ _)) => Err (ArgumentError.wrong_argument key "value" "function")
  | Err e => match e with end
  | Panic => Panic
  | OutOfFuel => OutOfFuel
  end.

(** [Vec::pop] *)
Definition drop_last (r : Register) : Register :=
  mkRegister (take (pred (length (blocks r))) (blocks r)).

(** ** The invariant *)

Definition wf_block (i : nat) (c : NaslContext) : Prop :=
  id c = i /\ match parent c with None => i = 0 | Some p => p < i end.

Definition wf (r : Register) : Prop :=
  blocks r <> [] /\ forall i c, blocks r !! i = Some c -> wf_block i c.

(** ** What a lookup means

    [visible bs i x j ct]: looked up from scope [i], the name [x] is bound by
    scope [j] to [ct]. *)
Inductive visible (bs : list NaslContext) : nat -> string -> nat -> ContextType -> Prop :=
| visible_here i c x ct :
    bs !! i = Some c -> defined c !! x = Some ct -> visible bs i x i ct
| visible_up i c p x j ct :
    bs !! i = Some c -> defined c !! x = None -> parent c = Some p ->
    visible bs p x j ct -> visible bs i x j ct.

(** ** The operations keep the invariant *)

Lemma wf_update_block r i c c' :
  wf r -> blocks r !! i = Some c -> parent c' = parent c -> id c' = id c ->
  wf (mkRegister (<[i := c']> (blocks r))).
Proof.
  intros [Hne Hwf] Hi Hp Hid. split; simpl.
  - intros E%(f_equal length). rewrite length_insert in E. by destruct (blocks r).
  - intros j d. destruct (decide (i = j)) as [<-|Hij].
    + rewrite list_lookup_insert_eq by (by eapply lookup_lt_Some). intros [= <-].
      unfold wf_block. rewrite Hp, Hid. by apply Hwf.
    + rewrite list_lookup_insert_ne by done. apply Hwf.
Qed.

Lemma wf_new : wf new.
Proof. split; [done|]. intros [|[]] c; simpl; by intros [= <-]. Qed.

Lemma wf_root_initial l : wf (root_initial l).
Proof. split; [done|]. intros [|[]] c; simpl; by intros [= <-]. Qed.

Lemma wf_push r p d : wf r -> p < index r -> wf (push r p d).
Proof.
  intros [Hne Hwf] Hp. split; simpl; [by destruct (blocks r)|].
  intros i c [Hi|[Hi Hc]]%lookup_app_Some; [by apply Hwf|].
  apply list_lookup_singleton_Some in Hc as [Hz <-]. unfold index in *. split; simpl; lia.
Qed.

Lemma wf_nonempty r : wf r -> 0 < index r.
Proof. intros [Hne _]. unfold index. destruct (blocks r); simpl; [done|lia]. Qed.

Lemma wf_last r : wf r -> exists c, last (blocks r) = Some c /\ id c = pred (index r)
  /\ blocks r !! pred (index r) = Some c.
Proof.
  intros [Hne Hwf]. unfold index. rewrite last_lookup.
  destruct (blocks r !! pred (length (blocks r))) as [c|] eqn:E.
  - exists c. repeat split. by apply Hwf.
  - apply lookup_ge_None in E. destruct (blocks r); simpl in *; [done|lia].
Qed.

Lemma wf_create_child r d : wf r -> wf (create_child r d).
Proof.
  intros Hwf. unfold create_child. destruct (wf_last r Hwf) as (c & -> & Hid & _).
  apply wf_push; [done|].
  simpl. pose proof (wf_nonempty r Hwf). lia.
Qed.

Lemma wf_create_root_child r d : wf r -> wf (create_root_child r d).
Proof. intros Hwf. apply wf_push; [done|by apply wf_nonempty]. Qed.

Lemma wf_update r i x v r' : wf r -> update r i x v = Some r' -> wf r'.
Proof.
  unfold update. intros Hwf (c & Hc & ->)%fmap_Some. by eapply wf_update_block.
Qed.

Lemma wf_add_local r x v : wf r -> wf (add_local r x v).
Proof.
  intros Hwf. unfold add_local. destruct (wf_last r Hwf) as (c & -> & _ & Hc).
  by eapply wf_update_block.
Qed.

Lemma wf_drop_last r : wf r -> 1 < index r -> wf (drop_last r).
Proof.
  intros [Hne Hwf] Hlen. unfold index, drop_last in *. split; simpl.
  - intros E%(f_equal length). rewrite length_take in E. simpl in E. lia.
  - intros i c [Hi _]%lookup_take_Some. by apply Hwf.
Qed.

Lemma update_ok r i x v : i < index r -> exists r', update r i x v = Some r' /\ index r' = index r.
Proof.
  unfold index, update. intros [c Hc]%lookup_lt_is_Some. rewrite Hc. eexists. split; [done|].
  simpl. apply length_insert.
Qed.

Lemma drop_push r p d : drop_last (push r p d) = r.
Proof.
  unfold drop_last, push. destruct r as [bs]. simpl. f_equal.
  rewrite length_app, Nat.add_1_r. simpl. by rewrite take_app_length.
Qed.

(** ** Lookups *)

Lemma named_visible fuel bs i c x :
  (forall j d, bs !! j = Some d -> wf_block j d) -> bs !! i = Some c -> i <= fuel ->
  exists o, NaslContext.named fuel bs c x = Ok o
    /\ forall j ct, o = Some (j, ct) <-> visible bs i x j ct.
Proof.
  intros Hwf. revert i c. induction fuel as [|fuel IH]; intros i c Hi Hle;
    destruct (Hwf i c Hi) as [Hid Hp]; simpl;
    destruct (defined c !! x) as [ct0|] eqn:Ed.
  1, 3: eexists; split; [done|]; intros j ct; split;
    [intros [= <- <-]; rewrite Hid; by econstructor|inversion 1; by simplify_eq].
  1, 2: destruct (parent c) as [p|] eqn:Ep.
  1: lia.
  1, 3: eexists; split; [done|]; intros j ct; split; [done|inversion 1; by simplify_eq].
  assert (is_Some (bs !! p)) as [d Hd].
  { apply lookup_lt_is_Some. apply lookup_lt_Some in Hi. lia. }
  destruct (IH p d Hd) as (o & E & Ho); [lia|]. exists o. rewrite Hd. split; [done|].
  intros j ct. rewrite Ho. split; [by econstructor|inversion 1; by simplify_eq].
Qed.

Lemma index_named_visible r x : wf r ->
  exists o, index_named r x = Ok o
    /\ forall j ct, o = Some (j, ct) <-> visible (blocks r) (pred (index r)) x j ct.
Proof.
  intros Hwf. unfold index_named. destruct (wf_last r Hwf) as (c & -> & _ & Hc).
  destruct Hwf as [_ Hwf]. apply named_visible; try done. unfold index. lia.
Qed.

Lemma named_index_named r x o : index_named r x = Ok o -> named r x = Ok (snd <$> o).
Proof. unfold named. by intros ->. Qed.

Lemma visible_bound bs i x j ct : visible bs i x j ct ->
  (forall j d, bs !! j = Some d -> wf_block j d) -> j < length bs.
Proof. induction 1; intros; [by eapply lookup_lt_Some|eauto]. Qed.

Lemma index_named_bound r x j ct : wf r -> index_named r x = Ok (Some (j, ct)) -> j < index r.
Proof.
  intros Hwf E. destruct (index_named_visible r x Hwf) as (o & E' & Ho). rewrite E in E'.
  simplify_eq. destruct Hwf as [_ Hwf]. eapply visible_bound; [by apply Ho|done].
Qed.

Lemma visible_fun bs i x j ct j' ct' :
  visible bs i x j ct -> visible bs i x j' ct' -> j = j' /\ ct = ct'.
Proof.
  induction 1; inversion 1; simplify_eq; eauto.
Qed.

(** Two registers that agree on what is visible give the same lookups. *)
Lemma index_named_ext r r' x y : wf r -> wf r' ->
  (forall j ct, visible (blocks r) (pred (index r)) x j ct
    <-> visible (blocks r') (pred (index r')) y j ct) ->
  index_named r x = index_named r' y.
Proof.
  intros Hwf Hwf' Heq.
  destruct (index_named_visible r x Hwf) as (o & -> & Ho).
  destruct (index_named_visible r' y Hwf') as (o' & -> & Ho').
  do 2 f_equal. destruct o as [[j ct]|], o' as [[j' ct']|]; try done.
  - f_equal. destruct (visible_fun _ _ _ _ _ j' ct' (proj1 (Heq _ _) (proj1 (Ho _ _) eq_refl)))
      as [-> ->]; [by apply Ho'|done].
  - by rewrite (proj2 (Ho' _ _) (proj1 (Heq _ _) (proj1 (Ho _ _) eq_refl))).
  - by rewrite (proj2 (Ho _ _) (proj2 (Heq _ _) (proj1 (Ho' _ _) eq_refl))).
Qed.

(** ** Binding a name *)

Definition bind_in (bs : list NaslContext) (i : nat) (x : string) (v : ContextType) :=
  match bs !! i with
  | Some c => <[i := NaslContext.add_named c x v]> bs
  | None => bs
  end.

Lemma update_bind r i x v r' : update r i x v = Some r' -> blocks r' = bind_in (blocks r) i x v.
Proof. unfold update, bind_in. by intros (c & -> & ->)%fmap_Some. Qed.

Lemma bind_in_lookup bs i x v k c : bs !! k = Some c ->
  exists c', bind_in bs i x v !! k = Some c' /\ parent c' = parent c /\ id c' = id c
    /\ defined c' = if decide (i = k) then <[x := v]> (defined c) else defined c.
Proof.
  intros Hk. unfold bind_in. destruct (decide (i = k)) as [->|Hik].
  - rewrite Hk. exists (NaslContext.add_named c x v).
    by rewrite list_lookup_insert_eq by (by eapply lookup_lt_Some).
  - exists c. destruct (bs !! i); [|done]. by rewrite list_lookup_insert_ne.
Qed.

Lemma bind_in_lookup_inv bs i x v k c' : bind_in bs i x v !! k = Some c' ->
  exists c, bs !! k = Some c /\ parent c' = parent c
    /\ defined c' = if decide (i = k) then <[x := v]> (defined c) else defined c.
Proof.
  intros Hk. assert (is_Some (bs !! k)) as [c Hc].
  { apply lookup_lt_is_Some. apply lookup_lt_Some in Hk. unfold bind_in in Hk.
    destruct (bs !! i); [by rewrite length_insert in Hk|done]. }
  destruct (bind_in_lookup bs i x v k c Hc) as (c'' & E & ? & _ & ?). simplify_eq. eauto.
Qed.

Lemma visible_bind_other bs i x v k y j ct : x <> y ->
  visible (bind_in bs i x v) k y j ct <-> visible bs k y j ct.
Proof.
  intros Hxy. split.
  - intros Hv. induction Hv as [k c' y ct Hk Hd|k c' p y j ct Hk Hd Hp _ IH];
      apply bind_in_lookup_inv in Hk as (c & Hc & Ep & Ed);
      rewrite Ed in Hd; destruct (decide (i = k)); rewrite ?lookup_insert_ne in Hd by done.
    1, 2: by eapply visible_here. all: rewrite Ep in Hp; eapply visible_up; eauto.
  - intros Hv. induction Hv as [k c y ct Hk Hd|k c p y j ct Hk Hd Hp _ IH];
      destruct (bind_in_lookup bs i x v k c Hk) as (c' & Hc & Ep & _ & Ed).
    + apply (visible_here _ _ c'); [done|]. rewrite Ed.
      destruct (decide (i = k)); by rewrite ?lookup_insert_ne.
    + apply (visible_up _ _ c' p); [done| |by rewrite Ep|by apply IH]. rewrite Ed.
      destruct (decide (i = k)); by rewrite ?lookup_insert_ne.
Qed.

Lemma visible_bind_here bs i c x v : bs !! i = Some c -> visible (bind_in bs i x v) i x i v.
Proof.
  intros Hi. destruct (bind_in_lookup bs i x v i c Hi) as (c' & Hc & _ & _ & Ed).
  rewrite decide_True in Ed by done. apply (visible_here _ _ c'); [done|].
  by rewrite Ed, lookup_insert_eq.
Qed.

Lemma visible_bind_bound bs k x i ct v : visible bs k x i ct ->
  visible (bind_in bs i x v) k x i v.
Proof.
  induction 1 as [i c x ct Hi Hd|k c p x j ct Hk Hd Hp Hv IH]; [by eapply visible_bind_here|].
  destruct (bind_in_lookup bs j x v k c Hk) as (c' & Hc & Ep & _ & Ed).
  destruct (decide (j = k)) as [->|]; [by eapply visible_bind_here|].
  apply (visible_up _ _ c' p); [done|by rewrite Ed|by rewrite Ep|done].
Qed.

(** A name bound nowhere above a scope is found at the root once it is bound
    there. *)
Lemma visible_bind_root bs k c x v :
  (forall j d, bs !! j = Some d -> wf_block j d) -> bs !! k = Some c ->
  (forall j ct, ~ visible bs k x j ct) -> visible (bind_in bs 0 x v) k x 0 v.
Proof.
  intros Hwf. revert c. induction (lt_wf k) as [k _ IH]. intros c Hk Hno.
  destruct (decide (0 = k)) as [<-|Hk0]; [by eapply visible_bind_here|].
  destruct (Hwf k c Hk) as [_ Hp]. destruct (parent c) as [p|] eqn:Ep; [|lia].
  assert (is_Some (bs !! p)) as [d Hd].
  { apply lookup_lt_is_Some. apply lookup_lt_Some in Hk. lia. }
  assert (defined c !! x = None) as Hx.
  { destruct (defined c !! x) eqn:E; [|done]. exfalso. eapply Hno. by econstructor. }
  destruct (bind_in_lookup bs 0 x v k c Hk) as (c' & Hc & Ep' & _ & Ed).
  rewrite decide_False in Ed by done.
  apply (visible_up _ _ c' p); [done|by rewrite Ed|by rewrite Ep'|].
  apply (IH p Hp d Hd). intros j ct Hv. eapply Hno. by eapply visible_up.
Qed.

(** The scope an assignment writes to: the one that binds the name, the root when
    there is none. *)
Definition target (o : option (nat * ContextType)) : nat := default 0 (fst <$> o).

Lemma assign_lookup r x v o : wf r -> index_named r x = Ok o ->
  exists r', add_to_index r (target o) x v = Some r' /\ wf r' /\ index r' = index r
    /\ named r' x = Ok (Some v)
    /\ forall y, x <> y -> index_named r' y = index_named r y.
Proof.
  intros Hwf Ho. destruct (index_named_visible r x Hwf) as (o' & E & Hvis).
  rewrite Ho in E. simplify_eq E. intros <-. clear E.
  assert (target o < index r) as Hlt.
  { unfold target. destruct o as [[j ct]|]; simpl; [by eapply index_named_bound|].
    by apply wf_nonempty. }
  destruct (update_ok r (target o) x v Hlt) as (r' & Hr' & Hidx).
  assert (wf r') as Hwf' by (by eapply wf_update).
  exists r'. unfold add_to_index. rewrite (proj2 (Nat.leb_gt _ _)) by done.
  split_and!; try done.
  - destruct (index_named_visible r' x Hwf') as (o' & E' & Hvis').
    rewrite (named_index_named _ _ _ E'). do 2 f_equal.
    enough (visible (blocks r') (pred (index r')) x (target o) v) as Hv.
    { apply Hvis' in Hv. by rewrite Hv. }
    rewrite (update_bind _ _ _ _ _ Hr'), Hidx.
    destruct o as [[j ct]|]; simpl.
    + eapply visible_bind_bound. by apply Hvis.
    + destruct (wf_last r Hwf) as (c & _ & _ & Hc). destruct Hwf as [_ Hwf].
      eapply visible_bind_root; [done|done|]. intros j ct Hv. by apply Hvis in Hv.
  - intros y Hxy. apply index_named_ext; [done..|]. intros j ct.
    rewrite (update_bind _ _ _ _ _ Hr'), Hidx. by apply visible_bind_other.
Qed.

(** The scope of a call sees its own bindings and those of the root. *)
Lemma visible_extend bs c k x j ct : (forall j d, bs !! j = Some d -> wf_block j d) ->
  k < length bs -> visible (bs ++ [c]) k x j ct <-> visible bs k x j ct.
Proof.
  intros Hwf Hk. split.
  - intros Hv. revert Hk. remember (bs ++ [c]) as bs' eqn:Ebs.
    induction Hv as [k d x ct Hd Hx|k d p x j ct Hd Hx Hp Hv IH]; intros Hk; subst bs';
      rewrite lookup_app_l in Hd by done.
    { by eapply visible_here. }
    destruct (Hwf k d Hd) as [_ Hlt]. rewrite Hp in Hlt.
    eapply visible_up; eauto with lia.
  - induction 1 as [k d x ct Hd Hx|k d p x j ct Hd Hx Hp Hv IH].
    + eapply visible_here; [by rewrite lookup_app_l|done].
    + destruct (Hwf k d Hd) as [_ Hlt]. rewrite Hp in Hlt.
      eapply visible_up; [by rewrite lookup_app_l|done|done|apply IH; lia].
Qed.

Lemma named_push r p d x : wf r -> p < index r ->
  exists o, NaslContext.named (length (blocks r)) (blocks r)
      (default NaslContext.default_ (blocks r !! p)) x = Ok o
    /\ named (push r p d) x = Ok (match d !! x with Some ct => Some ct | None => snd <$> o end).
Proof.
  intros Hwf Hp. assert (is_Some (blocks r !! p)) as [c Hc] by (by apply lookup_lt_is_Some).
  pose proof Hwf as [_ Hb]. rewrite Hc. simpl.
  destruct (named_visible (length (blocks r)) (blocks r) p c x Hb Hc) as (o & -> & Ho).
  { unfold index in Hp. lia. }
  exists o. split; [done|].
  destruct (index_named_visible (push r p d) x (wf_push r p d Hwf Hp)) as (o' & E & Ho').
  rewrite (named_index_named _ _ _ E).
  assert (pred (index (push r p d)) = index r) as Ei
    by (unfold index, push; simpl; rewrite length_app; simpl; lia).
  assert (blocks (push r p d) !! index r = Some (mkContext (Some p) (index r) d)) as El
    by (unfold index, push; simpl; by rewrite list_lookup_middle).
  do 2 f_equal. rewrite Ei in Ho'. destruct (d !! x) as [ct|] eqn:Ed.
  - rewrite (proj2 (Ho' (index r) ct)); [done|]. by eapply visible_here.
  - assert (o' = o) as ->; [|done].
    assert (forall j ct, o' = Some (j, ct) <-> o = Some (j, ct)) as Heq.
    { intros j ct. rewrite Ho, Ho'.
      rewrite <- (visible_extend (blocks r) (mkContext (Some p) (index r) d)) by done.
      split; [inversion 1; by simplify_eq/=|]. intros Hv. by eapply visible_up. }
    destruct o' as [[j ct]|]; [symmetry; by apply Heq|].
    destruct o as [[j ct]|]; [by apply Heq|done].
Qed.

End Register.

(** ** The register as a state machine *)

Inductive register_op : Type :=
| CreateChild (d : Named)
| CreateRootChild (d : Named)
| AddGlobal (x : string) (v : ContextType)
| AddToIndex (i : nat) (x : string) (v : ContextType)
| AddLocal (x : string) (v : ContextType)
| DropLast.

Definition apply_op (r : Register) (o : register_op) : option Register :=
  match o with
  | CreateChild d => Some (Register.create_child r d)
  | CreateRootChild d => Some (Register.create_root_child r d)
  | AddGlobal x v => Register.add_global r x v
  | AddToIndex i x v => Register.add_to_index r i x v
  | AddLocal x v => Some (Register.add_local r x v)
  | DropLast => Some (Register.drop_last r)
  end.

(** The sequences of operations of a run: a scope is dropped only after it was
    created, so the root stays. *)
Inductive reachable : Register -> Prop :=
| reachable_new : reachable Register.new
| reachable_root l : reachable (Register.root_initial l)
| reachable_op r o r' :
    reachable r -> (o = DropLast -> 1 < Register.index r) -> apply_op r o = Some r' ->
    reachable r'.

Lemma apply_op_wf r o r' : Register.wf r -> (o = DropLast -> 1 < Register.index r) ->
  apply_op r o = Some r' -> Register.wf r'.
Proof.
  intros Hwf Hdrop. destruct o; simpl; unfold Register.add_global, Register.add_to_index.
  - intros [= <-]. by apply Register.wf_create_child.
  - intros [= <-]. by apply Register.wf_create_root_child.
  - by apply Register.wf_update.
  - destruct (_ <=? _); [done|]. by apply Register.wf_update.
  - intros [= <-]. by apply Register.wf_add_local.
  - intros [= <-]. apply Register.wf_drop_last; auto.
Qed.

Lemma reachable_wf r : reachable r -> Register.wf r.
Proof.
  induction 1; [apply Register.wf_new|apply Register.wf_root_initial|by eapply apply_op_wf].
Qed.

(** C34: In every register a run can build, the scopes are well-formed (each scope
    sits at its own index and its parent below it), a lookup returns, with neither
    a panic nor an endless walk, and finds exactly the binding of the nearest
    enclosing scope; and the only operation that panics is writing to an index
    that was never handed out. *)
Theorem register_lookup_nearest (r : Register) (x : string) :
  reachable r ->
  Register.wf r
  /\ (exists o, Register.index_named r x = Ok o /\ forall j ct,
        o = Some (j, ct) <-> Register.visible (blocks r) (pred (Register.index r)) x j ct)
  /\ (forall o, apply_op r o = None -> exists i y v, o = AddToIndex i y v /\ Register.index r <= i).
Proof.
  intros Hr%reachable_wf. split; [done|]. split; [by apply Register.index_named_visible|].
  intros o. destruct o as [| |y v|i y v| |]; simpl; try done.
  - destruct (Register.update_ok r 0 y v) as (r' & E & _); [by apply Register.wf_nonempty|].
    unfold Register.add_global. by rewrite E.
  - unfold Register.add_to_index. destruct (Nat.leb_spec (length (blocks r)) i) as [Hle|Hlt].
    + intros _. exists i, y, v. done.
    + destruct (Register.update_ok r i y v Hlt) as (r' & E & _). by rewrite E.
Qed.

Definition sample_ops : list register_op :=
  [AddGlobal "g" (Value (NaslValue.Number 1)); CreateChild ∅;
   AddLocal "l" (Value (NaslValue.Number 2)); CreateRootChild ∅].

Lemma register_lookup_nearest_witness : exists r,
  foldl (fun o op => o ≫= fun r => apply_op r op) (Some Register.new) sample_ops = Some r
  /\ Register.wf r.
Proof.
  eexists. split; [reflexivity|].
  eapply (register_lookup_nearest _ "g").
  eapply (reachable_op _ (CreateRootChild ∅)); [|done|reflexivity].
  eapply (reachable_op _ (AddLocal "l" (Value (NaslValue.Number 2)))); [|done|reflexivity].
  eapply (reachable_op _ (CreateChild ∅)); [|done|reflexivity].
  apply (reachable_op Register.new (AddGlobal "g" (Value (NaslValue.Number 1))));
    [constructor|done|reflexivity].
Defined.

(** The write of an assignment (to the scope that binds the name, the root when
    none does) succeeds, and afterwards the name has the new value while every
    other name is found where it was. *)
Theorem register_assign_lookup (r : Register) (x : string) (v : ContextType)
  (o : option (nat * ContextType)) :
  Register.wf r -> Register.index_named r x = Ok o ->
  exists r', Register.add_to_index r (Register.target o) x v = Some r' /\ Register.wf r'
    /\ Register.index r' = Register.index r /\ Register.named r' x = Ok (Some v)
    /\ forall y, x <> y -> Register.index_named r' y = Register.index_named r y.
Proof. apply Register.assign_lookup. Qed.

Lemma register_assign_lookup_witness : exists r',
  Register.add_to_index (Register.create_child Register.new ∅) 0 "a"
    (Value (NaslValue.Number 3)) = Some r'
  /\ Register.named r' "a" = Ok (Some (Value (NaslValue.Number 3))).
Proof.
  destruct (register_assign_lookup (Register.create_child Register.new ∅) "a"
    (Value (NaslValue.Number 3)) None) as (r' & E & _ & _ & H & _).
  - apply Register.wf_create_child, Register.wf_new.
  - reflexivity.
  - exists r'. split; [exact E|exact H].
Defined.

(** The scope of a function call sees its arguments and, for every other name,
    what the root binds; the scopes of the caller are hidden.  Leaving the scope
    restores the register. *)
Theorem call_scope_hides_caller (r : Register) (d : Named) (x : string) :
  Register.wf r ->
  Register.named (Register.create_root_child r d) x
    = Ok (match d !! x with
          | Some ct => Some ct
          | None => head (blocks r) ≫= fun root => defined root !! x
          end)
  /\ Register.drop_last (Register.create_root_child r d) = r.
Proof.
  intros Hwf. split; [|apply Register.drop_push].
  destruct (Register.named_push r 0 d x Hwf (Register.wf_nonempty r Hwf)) as (o & E & Hn).
  unfold Register.create_root_child. rewrite Hn. do 2 f_equal. destruct (d !! x); [done|].
  destruct Hwf as [Hne Hwf]. destruct (blocks r) as [|root bs] eqn:Eb; [done|].
  destruct (Hwf 0 root eq_refl) as [Hid Hp]. simpl in E |- *.
  destruct (defined root !! x); [by simplify_eq E; intros <-|].
  destruct (parent root) as [p|]; [lia|]. by simplify_eq E; intros <-.
Qed.

Lemma call_scope_hides_caller_witness :
  Register.named (Register.create_root_child
      (Register.add_local (Register.create_child Register.new ∅) "l"
        (Value (NaslValue.Number 2))) ∅) "l" = Ok None.
Proof.
  apply (call_scope_hides_caller
    (Register.add_local (Register.create_child Register.new ∅) "l" (Value (NaslValue.Number 2)))).
  apply Register.wf_add_local, Register.wf_create_child, Register.wf_new.
Defined.

(** ** What a piece of script may change

    The scopes a running statement can reach are its own scope and the parents of
    it.  [ext] relates a register before a computation with the one after it: the
    scopes that were there keep their places and parents, and those out of reach
    keep their bindings. *)
Import Register.

Inductive reach (bs : list NaslContext) : nat -> nat -> Prop :=
| reach_refl i : reach bs i i
| reach_up i c p j : bs !! i = Some c -> parent c = Some p -> reach bs p j -> reach bs i j.

(** The scopes reachable from the current one. *)
Definition scope (r : Register) (i : nat) : Prop := reach (blocks r) (pred (index r)) i.

(** [strict]: no scope was left behind. *)
Definition ext (strict : bool) (r r' : Register) : Prop :=
  wf r'
  /\ (if strict then index r' = index r else index r <= index r')
  /\ forall i c, blocks r !! i = Some c ->
       exists c', blocks r' !! i = Some c' /\ parent c' = parent c
         /\ (~ scope r i -> defined c' = defined c).

Lemma visible_reach bs k x j ct : visible bs k x j ct -> reach bs k j.
Proof. induction 1; [constructor|by eapply reach_up]. Qed.

Lemma reach_trans bs i j k : reach bs i j -> reach bs j k -> reach bs i k.
Proof. induction 1; [done|]. intros. eapply reach_up; eauto. Qed.

Lemma reach_root bs k : (forall j d, bs !! j = Some d -> wf_block j d) ->
  k < length bs -> reach bs k 0.
Proof.
  intros Hwf. induction (lt_wf k) as [k _ IH]. intros Hk.
  destruct (lookup_lt_is_Some_2 bs k Hk) as [c Hc]. destruct (Hwf k c Hc) as [_ Hp].
  destruct (parent c) as [p|] eqn:E; [|by subst; constructor].
  eapply reach_up; [done..|]. apply IH; lia.
Qed.

Lemma scope_root r : wf r -> scope r 0.
Proof.
  intros Hwf. pose proof (wf_nonempty r Hwf). destruct Hwf as [_ Hwf].
  apply reach_root; [done|]. unfold index in *. lia.
Qed.

Lemma scope_self r : scope r (pred (index r)).
Proof. constructor. Qed.

(** Reachability only depends on the parents. *)
Lemma reach_parents bs bs' k j :
  (forall i d, bs !! i = Some d -> wf_block i d) ->
  (forall i c, bs !! i = Some c -> exists c', bs' !! i = Some c' /\ parent c' = parent c) ->
  k < length bs -> reach bs' k j <-> reach bs k j.
Proof.
  intros Hwf Hpar. induction (lt_wf k) as [k _ IH]. intros Hk.
  destruct (lookup_lt_is_Some_2 bs k Hk) as [c Hc].
  destruct (Hpar k c Hc) as (c' & Hc' & Ep). destruct (Hwf k c Hc) as [_ Hp].
  split; inversion 1 as [|? d p ? Hd Hdp Hr]; simplify_eq; try constructor.
  - rewrite Ep in Hdp. rewrite Hdp in Hp. eapply reach_up; [done..|]. apply IH; [lia|lia|done].
  - rewrite Hdp in Hp. eapply reach_up; [done|by rewrite Ep|]. apply IH; [lia|lia|done].
Qed.

Lemma ext_scope r r' i : wf r -> ext true r r' -> scope r' i <-> scope r i.
Proof.
  intros Hwf (_ & Hidx & Hbs). pose proof (wf_nonempty r Hwf). unfold scope. rewrite Hidx.
  destruct Hwf as [_ Hwf]. apply reach_parents; [done| |unfold index in *; lia].
  intros j c Hc. destruct (Hbs j c Hc) as (c' & ? & ? & _). eauto.
Qed.

Lemma ext_refl b r : wf r -> ext b r r.
Proof. intros Hwf. split; [done|]. split; [by destruct b|]. eauto. Qed.

Lemma ext_weaken b r r' : ext b r r' -> ext false r r'.
Proof. intros (? & Hidx & ?). split; [done|]. split; [destruct b; lia|done]. Qed.

Lemma ext_trans b r1 r2 r3 : wf r1 -> ext true r1 r2 -> ext b r2 r3 -> ext b r1 r3.
Proof.
  intros Hwf H12 (Hwf3 & Hidx3 & Hbs3). pose proof (ext_scope r1 r2) as Hs.
  destruct H12 as (Hwf2 & Hidx2 & Hbs2). split; [done|]. split.
  { by rewrite <- Hidx2. }
  intros i c Hc. destruct (Hbs2 i c Hc) as (c2 & Hc2 & Hp2 & Hd2).
  destruct (Hbs3 i c2 Hc2) as (c3 & Hc3 & Hp3 & Hd3).
  exists c3. split; [done|]. split; [congruence|]. intros Hno.
  rewrite Hd3; [by apply Hd2|]. rewrite Hs by done. done.
Qed.

Lemma ext_wf b r r' : ext b r r' -> wf r'.
Proof. by intros [? _]. Qed.

(** ** Bindings *)

Lemma ext_blocks r i x v r' : wf r -> wf r' -> scope r i ->
  blocks r' = bind_in (blocks r) i x v -> ext true r r'.
Proof.
  intros Hwf Hwf' Hi Hb. split; [done|]. split.
  - unfold index. rewrite Hb. unfold bind_in. destruct (blocks r !! i); [|done].
    apply length_insert.
  - intros j c Hc. destruct (bind_in_lookup (blocks r) i x v j c Hc) as (c' & Hc' & Hp & _ & Hd).
    exists c'. rewrite Hb. split_and!; [done|done|]. intros Hno. rewrite Hd.
    rewrite decide_False; [done|]. by intros <-.
Qed.

Lemma ext_update r i x v r' : wf r -> scope r i -> update r i x v = Some r' -> ext true r r'.
Proof.
  intros Hwf Hi Hu. eapply ext_blocks; [done|by eapply wf_update|done|by apply update_bind].
Qed.

Lemma ext_add_local r x v : wf r -> ext true r (add_local r x v).
Proof.
  intros Hwf. eapply (ext_blocks _ (pred (index r)) x v);
    [done|by apply wf_add_local|apply scope_self|].
  unfold add_local, bind_in. destruct (wf_last r Hwf) as (c & -> & _ & ->). done.
Qed.

Lemma ext_add_global r x v r' : wf r -> add_global r x v = Some r' -> ext true r r'.
Proof. intros Hwf. apply ext_update; [done|by apply scope_root]. Qed.

Lemma ext_add_to_index r i x v r' :
  wf r -> scope r i -> add_to_index r i x v = Some r' -> ext true r r'.
Proof. intros Hwf Hi. unfold add_to_index. destruct (_ <=? _); [done|]. by apply ext_update. Qed.

(** ** Scopes pushed and dropped *)

Lemma push_lookup r p d i c : blocks r !! i = Some c -> blocks (push r p d) !! i = Some c.
Proof. intros Hc. unfold push. simpl. by apply lookup_app_l_Some. Qed.

Lemma scope_push r p d i : wf r -> p < index r -> i < index r ->
  scope (push r p d) i -> reach (blocks r) p i.
Proof.
  intros Hwf Hp Hi. unfold scope, index, push. simpl. rewrite length_app. simpl.
  rewrite Nat.add_1_r. simpl. destruct Hwf as [_ Hwf]. inversion 1 as [|? c q ? Hc Hq Hr].
  { unfold index in *. lia. }
  rewrite list_lookup_middle in Hc by done. simplify_eq/=.
  revert Hr. apply (reach_parents (blocks r)); [done| |done].
  intros j e He. exists e. split; [by apply lookup_app_l_Some|done].
Qed.

Lemma ext_under_push b r p d r' : wf r -> scope r p -> p < index r ->
  ext b (push r p d) r' -> ext false r r'.
Proof.
  intros Hwf Hs Hp (Hwf' & Hidx & Hbs). split; [done|]. split.
  { unfold index in *. unfold push in Hidx. simpl in Hidx. rewrite length_app in Hidx.
    simpl in Hidx. destruct b; lia. }
  intros i c Hc. destruct (Hbs i c) as (c' & Hc' & Hpar & Hd); [by apply push_lookup|].
  exists c'. split_and!; [done|done|]. intros Hno. apply Hd. intros Hin. apply Hno.
  eapply reach_trans; [exact Hs|]. eapply scope_push; [done|done| |done].
  by apply lookup_lt_Some in Hc.
Qed.

Lemma ext_push_drop r p d r' : wf r -> scope r p -> p < index r ->
  ext true (push r p d) r' -> ext true r (drop_last r').
Proof.
  intros Hwf Hs Hp Hext. pose proof (ext_under_push _ _ _ _ _ Hwf Hs Hp Hext) as (_ & _ & Hbs).
  destruct Hext as (Hwf' & Hidx & _). pose proof (wf_nonempty r Hwf).
  assert (index r' = S (index r)) as E.
  { rewrite Hidx. unfold index, push. simpl. rewrite length_app. simpl. lia. }
  split; [apply wf_drop_last; [done|lia]|]. split.
  - unfold drop_last, index in *. simpl. rewrite length_take. lia.
  - intros i c Hc. destruct (Hbs i c Hc) as (c' & Hc' & ?). exists c'. split; [|done].
    unfold drop_last, index in *. simpl. rewrite lookup_take_lt; [done|].
    apply lookup_lt_Some in Hc. lia.
Qed.

Lemma create_child_push r d : wf r -> create_child r d = push r (pred (index r)) d.
Proof.
  intros Hwf. unfold create_child. by destruct (wf_last r Hwf) as (c & -> & <- & _).
Qed.
