(* ===== verification/Executor.v ===== *)
(** * Builtin functions and the environment of the interpreter

    [nasl/utils/executor/mod.rs] and the part of [Context] the interpreter uses.
    The bodies of the builtin functions, the loader's medium, the regular
    expressions and the outside world they act on are parameters, gathered in the
    class [Host]; how a function is found among the registered sets is modelled. *)

From S2P Require Import Prelude RustStr Token Statement NaslValue Errors Register.

(** A builtin function reads the register and acts on the world; it returns a
    value or an error, or panics. *)
Abbreviation NaslFunction W := (Register -> W -> outcome FnError NaslValue.t * W).

(** [StoredFunctionSet]: functions by name. *)
Abbreviation FunctionSet W := (gmap string (NaslFunction W)).

Record Executor (W : Type) := mkExecutor { sets : list (FunctionSet W) }.
Arguments mkExecutor {W}.
Arguments sets {W}.

Module Executor.
Section Executor.
Context {W : Type}.

Definition default_ : Executor W := mkExecutor [].

Definition add_set (e : Executor W) (s : FunctionSet W) : Executor W :=
  mkExecutor (sets e ++ [s]).

Definition single (s : FunctionSet W) : Executor W := add_set default_ s.

(** [StoredFunctionSet::exec] indexes the map and panics on an unknown name. *)
Definition exec_set (s : FunctionSet W) (k : string) (r : Register) (w : W) :
  outcome FnError NaslValue.t * W :=
  match s !! k with Some f => f r w | None => (Panic, w) end.

Definition contains_set (s : FunctionSet W) (k : string) : bool :=
  match s !! k with Some _ => true | None => false end.

Fixpoint exec_in (ss : list (FunctionSet W)) (k : string) (r : Register) (w : W) :
  option (outcome FnError NaslValue.t * W) :=
  match ss with
  | [] => None
  | s :: ss' => if contains_set s k then Some (exec_set s k r w) else exec_in ss' k r w
  end.

(** [Executor::exec]: the first set that knows the name. *)
Definition exec (e : Executor W) (k : string) (r : Register) (w : W) :
  option (outcome FnError NaslValue.t * W) := exec_in (sets e) k r w.

Definition contains (e : Executor W) (k : string) : bool :=
  existsb (fun s => contains_set s k) (sets e).

(** [exec] runs the function of the first set that has one, and the lookup in that
    set does not panic. *)
Lemma exec_first e k r w :
  match exec e k r w with
  | Some o => exists i s f, sets e !! i = Some s /\ s !! k = Some f /\ o = f r w
      /\ forall j s', j < i -> sets e !! j = Some s' -> s' !! k = None
  | None => forall s, s ∈ sets e -> s !! k = None
  end.
Proof.
  unfold exec. destruct e as [ss]. simpl.
  induction ss as [|s ss IH]; simpl; [by intros s ?%elem_of_nil|].
  unfold contains_set, exec_set. destruct (s !! k) as [f|] eqn:E.
  - exists 0, s, f. split_and!; [done..|]. intros j s' Hj. lia.
  - destruct (exec_in ss k r w).
    + destruct IH as (i & s' & f & Hs & Hf & Ho & Hlt). exists (S i), s', f.
      split_and!; [done..|]. intros [|j] s'' Hj; simpl; [by intros [= <-]|]. apply Hlt. lia.
    + intros s' [->|Hs']%elem_of_cons; [done|by apply IH].
Qed.

Lemma contains_spec e k : contains e k = false <-> forall s, s ∈ sets e -> s !! k = None.
Proof.
  unfold contains. rewrite <- not_true_iff_false, existsb_exists. unfold contains_set. split.
  - intros Hno s Hs. destruct (s !! k) eqn:E; [|done]. destruct Hno. exists s.
    apply list_elem_of_In in Hs. by rewrite E.
  - intros Hall (s & Hs & Hc). apply list_elem_of_In in Hs. by rewrite (Hall s Hs) in Hc.
Qed.
End Executor.
End Executor.

(** Everything the interpreter gets from outside: the build and the platform, the
    world with the loader and the builtin functions acting on it, and the
    compilation of regular expressions ([Regex::new] with [is_match]). *)
Class Host := {
  host_profile :: BuildProfile;
  host_order :: HashOrder;
  little_endian : bool;
  World : Type;
  load : string -> World -> (string + LoadError.t) * World;
  executor : Executor World;
  regex_new : string -> option (string -> bool)
}.

(** A host for evaluation: no builtin function, no file, no regular expression. *)
Definition bare_host : Host := {|
  host_profile := debug_build; host_order := plain_order; little_endian := true;
  World := unit; load := fun key w => (inr (LoadError.NotFound key), w);
  executor := Executor.default_; regex_new := fun _ => None
|}.

(** Looking up a builtin never panics and agrees with [contains]: a call runs the
    function of the first registered set that has one under that name, and there is no
    call exactly when no set knows the name. *)
Theorem executor_finds_registered {W} (e : Executor W) (k : string) (r : Register) (w : W) :
  (Executor.exec e k r w = None <-> Executor.contains e k = false)
  /\ forall o, Executor.exec e k r w = Some o ->
       exists i s f, sets e !! i = Some s /\ s !! k = Some f /\ o = f r w
       /\ forall j s', j < i -> sets e !! j = Some s' -> s' !! k = None.
Proof.
  pose proof (Executor.exec_first e k r w) as Hx. rewrite Executor.contains_spec.
  destruct (Executor.exec e k r w) as [o|]; [|split; [done|done]].
  destruct Hx as (i & s & f & Hs & Hf & -> & Hlt).
  split; [|intros o [= <-]; by exists i, s, f].
  split; [done|]. intros Hno. rewrite (Hno s) in Hf; [done|]. by eapply list_elem_of_lookup_2.
Qed.
