(* ===== verification/Operator.v ===== *)
(** * Operators on values

    The value part of [nasl/interpreter/operator.rs] and of
    [nasl/interpreter/assign.rs]: what an operator computes once its operands are
    there.  A panic is the overflow check, a division by zero or an index out of
    range. *)

From S2P Require Import Prelude RustStr Token Statement NaslValue Errors Register Executor.
Local Open Scope Z_scope.
Import NaslValue.

Section Operators.
Context `{Host}.

Definition Result : Type := outcome InterpretError t.

(** A number, or the panic of the arithmetic. *)
Definition number (o : option Z) : Result :=
  match o with Some n => Ok (Number n) | None => Panic end.

Definition as_i64 (left_ : t) (right_ : option t) : Z * Z :=
  (to_i64 left_, default 0 (to_i64 <$> right_)).

(** [num_expr!] *)
Definition num_expr (op : Z -> Z -> option Z) (a : t) (b : option t) : Result :=
  let '(l, r) := as_i64 a b in number (op l r).

(** The text of the right operand; nothing when there is none. *)
Definition right_text (b : option t) : string := default EmptyString (to_string <$> b).

Definition match_regex (a : t) (matches : option t) : Result :=
  let right_ := right_text matches in
  match regex_new right_ with
  | Some is_match => Ok (Boolean (is_match (to_string a)))
  | None => Err (InterpretError.unparse_regex right_)
  end.

Definition not_match_regex (a : t) (matches : option t) : Result :=
  match match_regex a matches with
  | Ok v => Ok (Boolean (negb (to_bool v)))
  | o => o
  end.

(** [add_left_right_string!] and its three siblings; the left operand comes as
    text or as bytes. *)
Definition add_string (x : string) (b : option t) : Result :=
  Ok (String (x +:+ right_text b)).
Definition minus_string (x : string) (b : option t) : Result :=
  Ok (String (string_of (replacen (chars_of x) (chars_of (right_text b)) [] 1))).
Definition add_data (x : list byte) (b : option t) : Result :=
  Ok (Data (as_bytes (chars_of (data_string x +:+ right_text b)))).
Definition minus_data (x : list byte) (b : option t) : Result :=
  Ok (Data (as_bytes (replacen (chars_of (data_string x)) (chars_of (right_text b)) [] 1))).

Definition plus (a : t) (b : option t) : Result :=
  match a with
  | String x => add_string x b
  | Data x => add_data x b
  | _ =>
      match b with
      | Some (String _) => add_string (to_string a) b
      | Some (Data _) => add_data (into_bytes little_endian a) b
      | _ => number (arith_i 64 (to_i64 a + default 0 (to_i64 <$> b)))
      end
  end.

Definition minus (a : t) (b : option t) : Result :=
  match a with
  | String x => minus_string x b
  | Data x => minus_data x b
  | _ =>
      match b with
      | Some (String _) => minus_string (to_string a) b
      | Some (Data _) => minus_data (into_bytes little_endian a) b
      | Some right_ => number (arith_i 64 (to_i64 a - to_i64 right_))
      | None => number (arith_i 64 (- to_i64 a))
      end
  end.

(** [((left as u32) >> right) as i32] *)
Definition unsigned_shr (l r : Z) : option Z := wrap_i 32 <$> shr_u 32 (wrap_u 32 l) r.

(** [(a as u32).pow(b as u32)] *)
Definition pow_u32 (a b : Z) : option Z := arith_u 32 (wrap_u 32 a ^ wrap_u 32 b).

Definition contained (a : t) (b : option t) : bool :=
  RustStr.contains (chars_of (to_string a)) (chars_of (right_text b)).

Definition compare_i64 (rel : Z -> Z -> bool) (a : t) (b : option t) : Result :=
  let '(l, r) := as_i64 a b in Ok (Boolean (rel l r)).

(** The closure an operator passes to [execute]; [None] for the tokens that are
    not handled this way. *)
Definition binary (c : Category.t) : option (t -> option t -> Result) :=
  match c with
  | Category.Plus => Some plus
  | Category.Minus => Some minus
  | Category.Star => Some (num_expr (fun l r => arith_i 64 (l * r)))
  | Category.Slash => Some (num_expr (div_i 64))
  | Category.Percent => Some (num_expr (rem_i 64))
  | Category.LessLess => Some (num_expr (shl_i 64))
  | Category.GreaterGreater => Some (num_expr (shr_i 64))
  | Category.GreaterGreaterGreater => Some (num_expr unsigned_shr)
  | Category.Ampersand => Some (num_expr (fun l r => Some (Z.land l r)))
  | Category.Pipe => Some (num_expr (fun l r => Some (Z.lor l r)))
  | Category.Caret => Some (num_expr (fun l r => Some (Z.lxor l r)))
  | Category.StarStar => Some (num_expr pow_u32)
  | Category.Tilde => Some (fun a _ => Ok (Number (Z.lnot (to_i64 a))))
  | Category.EqualTilde => Some match_regex
  | Category.BangTilde => Some not_match_regex
  | Category.GreaterLess => Some (fun a b => Ok (Boolean (contained a b)))
  | Category.GreaterBangLess => Some (fun a b => Ok (Boolean (negb (contained a b))))
  | Category.Bang => Some (fun a _ => Ok (Boolean (negb (to_bool a))))
  | Category.AmpersandAmpersand =>
      Some (fun a b => Ok (Boolean (to_bool a && default false (to_bool <$> b))))
  | Category.PipePipe =>
      Some (fun a b => Ok (Boolean (to_bool a || default false (to_bool <$> b))))
  | Category.EqualEqual => Some (fun a b => Ok (Boolean (eqb a (default Null b))))
  | Category.BangEqual => Some (fun a b => Ok (Boolean (negb (eqb a (default Null b)))))
  | Category.Greater => Some (compare_i64 (fun l r => r <? l))
  | Category.Less => Some (compare_i64 Z.ltb)
  | Category.GreaterEqual => Some (compare_i64 (fun l r => r <=? l))
  | Category.LessEqual => Some (compare_i64 Z.leb)
  | _ => None
  end.

(** ** Assignment *)

(** [prepare_array]: the index as [usize], and the left value as a vector that
    reaches it. *)
Definition prepare_array (idx left_ : t) : option (Z * list t) :=
  let idx := wrap_u 64 (to_i64 idx) in
  let arr := match left_ with Array x => x | _ => [left_] end in
  stop ← arith_u 64 (idx + 1);
  Some (idx, arr ++ replicate (Z.to_nat (stop - Z.of_nat (length arr))) Null).

(** [prepare_dict] *)
Definition prepare_dict (left_ : t) : gmap string t :=
  match left_ with
  | Array x => collect_map (imap (fun i v => (pretty i, v)) x)
  | Dict x => x
  | Null => ∅
  | x => {["0"%string := x]}
  end.

(** The closures of [assign]: the new value from the old one and the right-hand
    side; [None] is a panic. *)
Definition assign_op (c : Category.t) : option (t -> t -> option t) :=
  let num (f : Z -> Z -> option Z) := Some (fun l r => Number <$> f (to_i64 l) (to_i64 r)) in
  match c with
  | Category.Equal => Some (fun _ r => Some r)
  | Category.PlusEqual => num (fun l r => arith_i 64 (l + r))
  | Category.MinusEqual => num (fun l r => arith_i 64 (l - r))
  | Category.SlashEqual => num (div_i 64)
  | Category.StarEqual => num (fun l r => arith_i 64 (l * r))
  | Category.GreaterGreaterEqual => num (shr_i 64)
  | Category.LessLessEqual => num (shl_i 64)
  | Category.GreaterGreaterGreaterEqual =>
      num (fun l r => shl_u 32 (wrap_u 32 l) (wrap_u 32 r))
  | Category.PercentEqual => num (rem_i 64)
  | Category.PlusPlus => num (fun l _ => arith_i 64 (l + 1))
  | Category.MinusMinus => num (fun l _ => arith_i 64 (l - 1))
  | _ => None
  end.

End Operators.

(** An array seen as a dictionary: the decimal index is the key. *)
Lemma collect_map_elem {V} (l : list (string * V)) k v :
  NoDup l.*1 -> (k, v) ∈ l -> collect_map l !! k = Some v.
Proof.
  intros Hnd Hin. rewrite collect_map_app. apply elem_of_list_to_map_1.
  - by rewrite <- Permutation_rev.
  - by rewrite <- Permutation_rev.
Qed.

Lemma collect_map_not_elem {V} (l : list (string * V)) k :
  k ∉ l.*1 -> collect_map l !! k = None.
Proof.
  intros Hin. rewrite collect_map_app. apply not_elem_of_list_to_map_1.
  by rewrite <- Permutation_rev.
Qed.

Lemma imap_pretty_keys (a : list t) n :
  (imap (fun i v => (pretty (n + i)%nat, v)) a).*1 = map pretty (seq n (length a)).
Proof.
  revert n. induction a as [|v a IH]; intros n; [done|]. csimpl. rewrite Nat.add_0_r. f_equal.
  rewrite <- IH. f_equal. apply imap_ext. intros i w _. simpl. by rewrite Nat.add_succ_r.
Qed.

Lemma prepare_dict_array (a : list t) (i : nat) :
  collect_map (imap (fun i v => (pretty i, v)) a) !! pretty i = a !! i.
Proof.
  pose proof (imap_pretty_keys a 0) as Hk. simpl in Hk.
  destruct (a !! i) as [v|] eqn:E.
  - apply collect_map_elem.
    + rewrite Hk. apply NoDup_fmap_2; [apply _|apply NoDup_seq].
    + apply list_elem_of_lookup. exists i. by rewrite list_lookup_imap, E.
  - apply collect_map_not_elem. rewrite Hk. intros (j & Hj & Hin)%list_elem_of_fmap.
    apply (inj pretty) in Hj as <-. apply elem_of_seq in Hin. apply lookup_ge_None in E. lia.
Qed.

(** ** Ranges *)

Definition i64_ok (v : t) : Prop := in_i 64 (to_i64 v) = true.

Lemma in_i64_shiftr z : in_i 64 z = true <-> Z.shiftr z 63 = 0 \/ Z.shiftr z 63 = -1.
Proof.
  rewrite in_i_spec, Z.shiftr_div_pow2 by lia.
  pose proof (Z.div_mod z (2 ^ 63) ltac:(lia)). pose proof (Z.mod_pos_bound z (2 ^ 63) ltac:(lia)).
  simpl Z.sub. split; intros; nia.
Qed.

Lemma in_i64_bitwise f a b :
  (forall x y, Z.shiftr (f x y) 63 = f (Z.shiftr x 63) (Z.shiftr y 63)) ->
  (forall x y, (x = 0 \/ x = -1) -> (y = 0 \/ y = -1) -> f x y = 0 \/ f x y = -1) ->
  in_i 64 a = true -> in_i 64 b = true -> in_i 64 (f a b) = true.
Proof. rewrite !in_i64_shiftr. intros -> Hf Ha Hb. by apply Hf. Qed.

Lemma in_i64_land a b : in_i 64 a = true -> in_i 64 b = true -> in_i 64 (Z.land a b) = true.
Proof.
  apply in_i64_bitwise; [intros; apply Z.shiftr_land|].
  intros x y [->| ->] [->| ->]; simpl; auto.
Qed.
Lemma in_i64_lor a b : in_i 64 a = true -> in_i 64 b = true -> in_i 64 (Z.lor a b) = true.
Proof.
  apply in_i64_bitwise; [intros; apply Z.shiftr_lor|].
  intros x y [->| ->] [->| ->]; simpl; auto.
Qed.
Lemma in_i64_lxor a b : in_i 64 a = true -> in_i 64 b = true -> in_i 64 (Z.lxor a b) = true.
Proof.
  apply in_i64_bitwise; [intros; apply Z.shiftr_lxor|].
  intros x y [->| ->] [->| ->]; simpl; auto.
Qed.

Lemma in_i64_weaken w z : 0 < w <= 64 -> in_i w z = true -> in_i 64 z = true.
Proof.
  rewrite !in_i_spec. intros Hw Hz.
  assert (2 ^ (w - 1) <= 2 ^ (64 - 1)) by (apply Z.pow_le_mono_r; lia). lia.
Qed.

Lemma in_i64_unsigned z : in_u 32 z = true -> in_i 64 z = true.
Proof. rewrite in_u_spec, in_i_spec. lia. Qed.

Lemma in_i64_rem a b r : in_i 64 b = true -> rem_i 64 a b = Some r -> in_i 64 r = true.
Proof.
  unfold rem_i. destruct (Z.eqb_spec b 0) as [|Hb]; [done|]. destruct (in_i 64 (Z.quot a b)); [|done].
  rewrite !in_i_spec. intros Hr [= <-]. pose proof (Z.rem_bound_abs a b Hb). lia.
Qed.

Lemma in_i64_div a b r : div_i 64 a b = Some r -> in_i 64 r = true.
Proof.
  unfold div_i. destruct (b =? 0); [done|]. destruct (in_i 64 (Z.quot a b)) eqn:E; [|done].
  congruence.
Qed.

Lemma shift_amount_pos `{BuildProfile} w k n : 0 < w -> shift_amount w k = Some n -> 0 <= n < w.
Proof.
  unfold shift_amount. intros Hw. destruct (_ && _) eqn:E.
  - apply andb_true_iff in E as [?%Z.leb_le ?%Z.ltb_lt]. intros [= <-]. lia.
  - destruct overflow_checks; [done|]. intros [= <-]. by apply Z.mod_pos_bound.
Qed.

Lemma in_i64_shl `{BuildProfile} a k r : shl_i 64 a k = Some r -> in_i 64 r = true.
Proof. unfold shl_i. intros (n & _ & ->)%fmap_Some. by apply wrap_i_range. Qed.

Lemma in_i64_shr `{BuildProfile} a k r :
  in_i 64 a = true -> shr_i 64 a k = Some r -> in_i 64 r = true.
Proof.
  unfold shr_i. intros Ha (n & Hn & ->)%fmap_Some. apply shift_amount_pos in Hn; [|lia].
  apply in_i_spec in Ha. apply in_i_spec. rewrite Z.shiftr_div_pow2 by lia.
  assert (0 < 2 ^ n) by (apply Z.pow_pos_nonneg; lia).
  pose proof (Z.div_mod a (2 ^ n) ltac:(lia)). pose proof (Z.mod_pos_bound a (2 ^ n) ltac:(lia)).
  nia.
Qed.

Lemma wrap_u_range w z : 0 <= w -> in_u w (wrap_u w z) = true.
Proof.
  intros Hw. apply in_u_spec. unfold wrap_u. apply Z.mod_pos_bound, Z.pow_pos_nonneg; lia.
Qed.

Lemma in_i64_pow `{BuildProfile} a b r : arith_u 32 (wrap_u 32 a ^ wrap_u 32 b) = Some r ->
  in_i 64 r = true.
Proof.
  unfold arith_u. destruct (in_u 32 _) eqn:E.
  - intros [= <-]. by apply in_i64_unsigned.
  - destruct overflow_checks; [done|]. intros [= <-].
    by apply in_i64_unsigned, wrap_u_range.
Qed.


(** Values that are no numbers are in range. *)
Lemma i64_ok_boolean b : i64_ok (Boolean b).
Proof. by destruct b. Qed.

Lemma default_ok b : (forall b', b = Some b' -> i64_ok b') ->
  in_i 64 (default 0 (to_i64 <$> b)) = true.
Proof. intros Hb. destruct b; [by apply Hb|done]. Qed.

Lemma number_ok `{Host} o v : (forall n, o = Some n -> in_i 64 n = true) ->
  number o = Ok v -> i64_ok v.
Proof. intros Ho. destruct o as [n|]; [|done]. intros [= <-]. by apply Ho. Qed.

Lemma num_expr_ok `{Host} op a b v :
  (forall l r n, in_i 64 l = true -> in_i 64 r = true -> op l r = Some n -> in_i 64 n = true) ->
  i64_ok a -> (forall b', b = Some b' -> i64_ok b') -> num_expr op a b = Ok v -> i64_ok v.
Proof.
  intros Hop Ha Hb. apply number_ok. intros n. apply Hop; [done|by apply default_ok].
Qed.

Lemma plus_minus_ok `{Host} a b v :
  i64_ok a -> (forall b', b = Some b' -> i64_ok b') ->
  plus a b = Ok v \/ minus a b = Ok v -> i64_ok v.
Proof.
  intros Ha Hb. unfold plus, minus, add_string, add_data, minus_string, minus_data.
  intros [E|E]; repeat case_match; simplify_eq; try done;
    (eapply number_ok; [|exact E]); intros ?; by apply arith_i_range.
Qed.

Lemma in_i64_unsigned_shr `{Host} l r n : unsigned_shr l r = Some n -> in_i 64 n = true.
Proof.
  unfold unsigned_shr. intros (m & _ & ->)%fmap_Some.
  apply (in_i64_weaken 32); [lia|by apply wrap_i_range].
Qed.

Lemma in_i64_shl_u `{Host} l r n : shl_u 32 l r = Some n -> in_i 64 n = true.
Proof.
  unfold shl_u. intros (m & _ & ->)%fmap_Some. by apply in_i64_unsigned, wrap_u_range.
Qed.

Lemma in_i64_lnot z : in_i 64 z = true -> in_i 64 (Z.lnot z) = true.
Proof. rewrite !in_i_spec. unfold Z.lnot. lia. Qed.

Lemma in_i64_arith `{BuildProfile} z r : arith_i 64 z = Some r -> in_i 64 r = true.
Proof. by apply arith_i_range. Qed.

(** The range lemma of the operation that computed a number. *)
Ltac i64_op E :=
  lazymatch type of E with
  | arith_i 64 _ = _ => exact (in_i64_arith _ _ E)
  | div_i 64 _ _ = _ => exact (in_i64_div _ _ _ E)
  | rem_i 64 _ ?r = _ => refine (in_i64_rem _ r _ _ E); assumption
  | shl_i 64 _ _ = _ => exact (in_i64_shl _ _ _ E)
  | shr_i 64 ?l _ = _ => refine (in_i64_shr l _ _ _ E); assumption
  | unsigned_shr _ _ = _ => exact (in_i64_unsigned_shr _ _ _ E)
  | shl_u 32 _ _ = _ => exact (in_i64_shl_u _ _ _ E)
  | pow_u32 _ _ = _ => exact (in_i64_pow _ _ _ E)
  | Some (Z.land _ _) = _ => injection E as <-; apply in_i64_land; assumption
  | Some (Z.lor _ _) = _ => injection E as <-; apply in_i64_lor; assumption
  | Some (Z.lxor _ _) = _ => injection E as <-; apply in_i64_lxor; assumption
  end.

Lemma binary_ok `{Host} c f a b v :
  binary c = Some f -> i64_ok a -> (forall b', b = Some b' -> i64_ok b') ->
  f a b = Ok v -> i64_ok v.
Proof.
  assert (forall v', match_regex a b = Ok v' -> exists b', v' = Boolean b') as Hre.
  { intros v'. unfold match_regex. case_match; [|done]. intros [= <-]. eauto. }
  intros Hf Ha Hb E. destruct c; (discriminate Hf || injection Hf as <-);
    lazymatch type of E with
    | plus _ _ = _ => apply (plus_minus_ok a b); auto
    | minus _ _ = _ => apply (plus_minus_ok a b); auto
    | num_expr _ _ _ = _ =>
        eapply num_expr_ok; [|exact Ha|exact Hb|exact E];
        intros l r n Hl Hr Eop; cbv beta in Eop; i64_op Eop
    | match_regex _ _ = _ => apply Hre in E as [b' ->]; apply i64_ok_boolean
    | not_match_regex _ _ = _ => idtac
    | compare_i64 _ _ _ = _ => injection E as <-; apply i64_ok_boolean
    | Ok (Number _) = _ => injection E as <-; by apply in_i64_lnot
    | Ok (Boolean _) = _ => injection E as <-; apply i64_ok_boolean
    end.
  revert E. unfold not_match_regex. destruct (match_regex a b); try done.
  intros [= <-]. apply i64_ok_boolean.
Qed.

Lemma assign_op_ok `{Host} c f a b v :
  assign_op c = Some f -> i64_ok a -> i64_ok b -> f a b = Some v -> i64_ok v.
Proof.
  intros Hf Ha Hb E. destruct c; (discriminate Hf || injection Hf as <-);
    lazymatch type of E with
    | Some _ = Some _ => by injection E as <-
    | _ => apply fmap_Some in E as (n & E & ->); unfold i64_ok in *; cbn [to_i64]; i64_op E
    end.
Qed.

(** The numbers of the model are of type [Z]; the operators keep them where the type [i64]
    keeps those of the code: from operands in the range of [i64] every operator and every
    compound assignment that returns gives a value in that range, in builds with and
    without overflow checks. *)
Theorem operators_stay_in_i64 `{Host} (c : Category.t) (a v : t) :
  i64_ok a ->
  (forall f b, binary c = Some f -> (forall b', b = Some b' -> i64_ok b') ->
     f a b = Ok v -> i64_ok v)
  /\ (forall f b, assign_op c = Some f -> i64_ok b -> f a b = Some v -> i64_ok v).
Proof.
  intros Ha. split; intros f b Hf Hb E.
  - exact (binary_ok c f a b v Hf Ha Hb E).
  - exact (assign_op_ok c f a b v Hf Ha Hb E).
Qed.

Lemma operators_stay_in_i64_witness :
  i64_ok (Number i64_max)
  /\ plus (H := {| host_profile := release_build; host_order := plain_order;
       little_endian := true; World := unit; load := fun k w => (inr (LoadError.NotFound k), w);
       executor := Executor.default_; regex_new := fun _ => None |})
       (Number i64_max) (Some (Number 1)) = Ok (Number i64_min)
  /\ i64_ok (Number i64_min).
Proof.
  set (h := {| host_profile := release_build; host_order := plain_order;
       little_endian := true; World := unit; load := fun k w => (inr (LoadError.NotFound k), w);
       executor := Executor.default_; regex_new := fun _ => None |}).
  split; [reflexivity|]. split; [reflexivity|].
  apply (proj1 (operators_stay_in_i64 (H := h) Category.Plus (Number i64_max) (Number i64_min)
    eq_refl) plus (Some (Number 1)) eq_refl); [|reflexivity].
  intros b' [= <-]. reflexivity.
Defined.
