(* ===== verification/Interpreter.v ===== *)
(** * The interpreter

    [nasl/interpreter]: positions, runs and forks ([interpreter.rs], [call.rs]),
    operators and assignments ([operator.rs], [assign.rs]), declarations
    ([declare.rs]), loops ([loop_extension.rs]), includes and retries, and the
    code interpreter that runs a script statement by statement
    ([code_interpreter.rs]).

    The methods of the interpreter call each other through [resolve]; they are
    written against a parameter [rec] for it, and [resolve] ties the knot with
    fuel, which also bounds the rounds of a loop. *)

From S2P Require Import Prelude RustStr Token Tokenizer Statement Lexer NaslValue Errors Register Executor Operator.
Local Open Scope nat_scope.

(** ** Positions *)
Module Position.
Definition t : Type := list nat.

(** [last_mut] with an update. *)
Fixpoint alter_last (f : nat -> nat) (p : t) : t :=
  match p with [] => [] | [n] => [f n] | n :: p' => n :: alter_last f p' end.

Definition new (i : nat) : t := [i].
Definition up (p : t) : t := p ++ [0].
Definition reduce_last (p : t) : t := alter_last pred p.
Definition down (p : t) : t := alter_last S (take (pred (length p)) p).
Definition root_index (p : t) : nat := default 0 (head p).
Definition current_init_statement (p : t) : t := [root_index p].
End Position.

(** ** State *)
Record RunSpecific := mkRun {
  register : Register;
  position : Position.t;
  skip_until_return : list (Position.t * NaslValue.t)
}.

Section State.
Context `{Host}.

Record Interpreter := mkInterpreter {
  run_specific : list RunSpecific;
  index : nat;
  world : World
}.

Definition I (A : Type) : Type := M Interpreter InterpretError A.

Definition new_interpreter (r : Register) (w : World) : Interpreter :=
  mkInterpreter [mkRun r (Position.new 0) []] 0 w.

(** [self.run_specific[self.index]], read and written. *)
Definition run : I RunSpecific :=
  s ← get; or_panic (run_specific s !! index s).

Definition set_run (rs : RunSpecific) : I unit :=
  modify (fun s => mkInterpreter (<[index s := rs]> (run_specific s)) (index s) (world s)).

Definition get_register : I Register := rs ← run; mret (register rs).
Definition set_register (r : Register) : I unit :=
  rs ← run; set_run (mkRun r (position rs) (skip_until_return rs)).
Definition modify_register (f : Register -> Register) : I unit :=
  r ← get_register; set_register (f r).
(** An update of the register that may panic. *)
Definition update_register (f : Register -> option Register) : I unit :=
  r ← get_register; r' ← or_panic (f r); set_register r'.
Definition modify_position (f : Position.t -> Position.t) : I unit :=
  rs ← run; set_run (mkRun (register rs) (f (position rs)) (skip_until_return rs)).
Definition set_world (w : World) : I unit :=
  modify (fun s => mkInterpreter (run_specific s) (index s) w).

Definition named (name : string) : I (option ContextType) :=
  r ← get_register; of_total (Register.named r name).

Definition identifier (token : Token) : I string :=
  match category token with
  | Category.Identifier (IdentifierType.Undefined x) => mret x
  | cat => throw (InterpretError.wrong_category cat)
  end.

(** [next_interpreter]: the next run for the same statement, if there is one. *)
Definition next_interpreter (s : Interpreter) : option Interpreter :=
  if (length (run_specific s) =? 1) || (index s + 1 =? length (run_specific s)) then None
  else Some (mkInterpreter (run_specific s) (index s + 1) (world s)).

(** [may_return_value]: the value recorded for this position by a fork; [Null]
    while the run is before the statement that forked. *)
Fixpoint skipped (p : Position.t) (l : list (Position.t * NaslValue.t)) : option NaslValue.t :=
  match l with
  | [] => None
  | (cp, value) :: l' =>
      if Position.root_index p <? Position.root_index cp then Some NaslValue.Null
      else if decide (cp = p) then Some value else skipped p l'
  end.

Definition may_return_value : I (option NaslValue.t) :=
  rs ← run; mret (skipped (position rs) (skip_until_return rs)).

(** ** assign.rs *)

Definition save (idx : nat) (key : string) (v : NaslValue.t) : I unit :=
  update_register (fun r => Register.add_to_index r idx key (Value v)).

Definition named_value (key : string) : I (nat * NaslValue.t) :=
  r ← get_register;
  o ← of_total (Register.index_named r key);
  match default (0, Value NaslValue.Null) o with
  | (_, Function _ _) => throw InterpretError.expected_value
  | (idx, Value val) => mret (idx, val)
  end.

Definition handle_dict (ridx : nat) (key idx : string) (left_ right_ : NaslValue.t)
  (order : AssignOrder.t) (result : NaslValue.t -> NaslValue.t -> option NaslValue.t) :
  I NaslValue.t :=
  let dict := prepare_dict left_ in
  let original := default NaslValue.Null (dict !! idx) in
  res ← or_panic (result original right_);
  save ridx key (NaslValue.Dict (<[idx := res]> dict));;
  mret match order with
       | AssignOrder.ReturnAssign => original
       | AssignOrder.AssignReturn => res
       end.

Definition handle_array (ridx : nat) (key : string) (idx left_ right_ : NaslValue.t)
  (order : AssignOrder.t) (result : NaslValue.t -> NaslValue.t -> option NaslValue.t) :
  I NaslValue.t :=
  '(i, arr) ← or_panic (prepare_array idx left_);
  orig ← or_panic (arr !! Z.to_nat i);
  res ← or_panic (result orig right_);
  save ridx key (NaslValue.Array (<[Z.to_nat i := res]> arr));;
  mret match order with
       | AssignOrder.ReturnAssign => orig
       | AssignOrder.AssignReturn => res
       end.

Definition dynamic_return (key : string) (order : AssignOrder.t) (lookup : option NaslValue.t)
  (right_ : NaslValue.t) (result : NaslValue.t -> NaslValue.t -> option NaslValue.t) :
  I NaslValue.t :=
  '(ridx, left_) ← named_value key;
  match lookup with
  | None =>
      res ← or_panic (result left_ right_);
      save ridx key res;;
      mret match order with
           | AssignOrder.AssignReturn => res
           | AssignOrder.ReturnAssign => left_
           end
  | Some (NaslValue.String idx) => handle_dict ridx key idx left_ right_ order result
  | Some (NaslValue.Data idx) =>
      handle_dict ridx key (NaslValue.data_string idx) left_ right_ order result
  | Some idx =>
      match left_ with
      | NaslValue.Dict _ =>
          handle_dict ridx key (NaslValue.to_string idx) left_ right_ order result
      | _ => handle_array ridx key idx left_ right_ order result
      end
  end.

(** [store_return] and [without_right]: the compound assignments return the new
    value, the increments follow the order and have no right-hand side. *)
Definition store (c : Category.t) (order : AssignOrder.t) (key : string)
  (lookup : option NaslValue.t) (val : NaslValue.t) : I NaslValue.t :=
  match assign_op c with
  | None => throw (InterpretError.wrong_category c)
  | Some result =>
      match c with
      | Category.PlusPlus | Category.MinusMinus =>
          dynamic_return key order lookup NaslValue.Null result
      | _ => dynamic_return key AssignOrder.AssignReturn lookup val result
      end
  end.

(** ** declare.rs *)

Fixpoint parameter_names (arguments : list Statement) : I (list string) :=
  match arguments with
  | [] => mret []
  | a :: rest =>
      match Statement.kind a with
      | Variable_ =>
          x ← identifier (Statement.as_token a);
          names ← parameter_names rest;
          mret (x :: names)
      | _ => throw (InterpretError.unsupported a "variable")
      end
  end.

Definition declare_function (name : Token) (arguments : list Statement) (execution : Statement) :
  I NaslValue.t :=
  x ← identifier name;
  names ← parameter_names arguments;
  update_register (fun r => Register.add_global r x (Function names execution));;
  mret NaslValue.Null.

Definition declare_one (scope : Token) (key : string) : I unit :=
  match category scope with
  | Category.Identifier IdentifierType.GlobalVar =>
      update_register (fun r => Register.add_global r key (Value NaslValue.Null))
  | Category.Identifier IdentifierType.LocalVar =>
      modify_register (fun r => Register.add_local r key (Value NaslValue.Null))
  | _ => panic
  end.

Fixpoint declare_variable (scope : Token) (stmts : list Statement) : I NaslValue.t :=
  match stmts with
  | [] => mret NaslValue.Null
  | stmt :: rest =>
      match Statement.kind stmt, category (Statement.as_token stmt) with
      | Variable_, Category.Identifier name =>
          declare_one scope (IdentifierType.to_string name)
      | _, _ => mret tt
      end;;
      declare_variable scope rest
  end.

(** ** call.rs: forks

    A builtin that returns a fork multiplies the runs: each present run gets the
    first value recorded for the position of the call, and for every further value
    a copy of each run starts again at the current root statement. *)
Definition fork_copy (pos : Position.t) (v : NaslValue.t) (rs : RunSpecific) : RunSpecific :=
  mkRun (register rs) (Position.current_init_statement pos)
    (filter (fun pv => pv.1 <> pos) (skip_until_return rs) ++ [(pos, v)]).

Definition fork_runs (root_pos : Position.t) (v : NaslValue.t) (rest : list NaslValue.t)
  (runs : list RunSpecific) : list RunSpecific :=
  let pos := Position.reduce_last root_pos in
  let runs := map (fun rs =>
    mkRun (register rs) (position rs) (skip_until_return rs ++ [(pos, v)])) runs in
  runs ++ (rest ≫= fun w => map (fork_copy pos w) runs).

Definition fork (v : NaslValue.t) (rest : list NaslValue.t) : I unit :=
  s ← get;
  root ← or_panic (run_specific s !! 0);
  put (mkInterpreter (fork_runs (position root) v rest (run_specific s)) (index s) (world s)).

(** [Context::nasl_fn_execute] *)
Definition nasl_fn_execute (name : string) : I (option (NaslValue.t + FnError)) :=
  r ← get_register;
  s ← get;
  match Executor.exec executor name r (world s) with
  | None => mret None
  | Some (o, w) =>
      set_world w;;
      match o with
      | Ok v => mret (Some (inl v))
      | Err e => mret (Some (inr e))
      | Panic => panic
      | OutOfFuel => out_of_fuel
      end
  end.

(** Parameters that were not passed and are not bound otherwise are [Null]. *)
Fixpoint default_parameters (params : list string) : I unit :=
  match params with
  | [] => mret tt
  | p :: rest =>
      o ← named p;
      match o with
      | None => modify_register (fun r => Register.add_local r p (Value NaslValue.Null))
      | Some _ => mret tt
      end;;
      default_parameters rest
  end.
End State.
Arguments Interpreter {_}.
Arguments I {_}.

(** ** The methods that resolve statements *)
Section Methods.
Context `{Host}.
Variable fuel : nat.
Variable rec : Statement -> I NaslValue.t.

(** *** operator.rs *)

(** [execute]: one or two operands, left to right. *)
Definition execute (stmts : list Statement) (result : NaslValue.t -> option NaslValue.t -> Result) :
  I NaslValue.t :=
  match stmts with
  | [] => panic
  | [s0] => a ← rec s0; of_outcome (result a None)
  | s0 :: s1 :: _ => a ← rec s0; b ← rec s1; of_outcome (result a (Some b))
  end.

Fixpoint repeat_resolve (n : nat) (stmt : Statement) : I unit :=
  match n with
  | 0 => mret tt
  | S n' => rec stmt;; repeat_resolve n' stmt
  end.

Definition operator (c : Category.t) (stmts : list Statement) : I NaslValue.t :=
  match c with
  | Category.X =>
      s1 ← or_panic (stmts !! 1);
      last_ ← rec s1;
      let repeat := NaslValue.to_i64 last_ in
      if (repeat =? 0)%Z then mret NaslValue.Null
      else
        repeatable ← or_panic (stmts !! 0);
        stop ← or_panic (arith_i 64 (repeat - 1));
        repeat_resolve (Z.to_nat (stop - 1)) repeatable;;
        rec repeatable
  | _ =>
      match binary c with
      | Some result => execute stmts result
      | None => throw (InterpretError.wrong_category c)
      end
  end.

(** *** assign.rs *)

Definition assign (c : Category.t) (order : AssignOrder.t) (left_ right_ : Statement) :
  I NaslValue.t :=
  '(key, lookup) ←
    match Statement.kind left_ with
    | Variable_ | Array None => key ← identifier (Statement.as_token left_); mret (key, None)
    | Array (Some stmt) =>
        key ← identifier (Statement.as_token left_); v ← rec stmt; mret (key, Some v)
    | _ => throw (InterpretError.unsupported left_ "Array or Variable")
    end;
  val ← rec right_;
  store c order key lookup val.

(** *** loop_extension.rs *)

(** What a loop does with the value of its body: [Some] leaves the loop. *)
Definition leave (ret : NaslValue.t) : option NaslValue.t :=
  match ret with
  | NaslValue.Break => Some NaslValue.Null
  | NaslValue.Exit _ | NaslValue.Return _ => Some ret
  | _ => None
  end.

Fixpoint for_rounds (n : nat) (condition update body : Statement) : I NaslValue.t :=
  match n with
  | 0 => out_of_fuel
  | S n' =>
      c ← rec condition;
      if negb (NaslValue.to_bool c) then mret NaslValue.Null
      else
        ret ← rec body;
        match leave ret with
        | Some v => mret v
        | None => rec update;; for_rounds n' condition update body
        end
  end.

Definition for_loop (assignment condition update body : Statement) : I NaslValue.t :=
  rec assignment;; for_rounds fuel condition update body.

Fixpoint while_rounds (n : nat) (condition body : Statement) : I NaslValue.t :=
  match n with
  | 0 => out_of_fuel
  | S n' =>
      c ← rec condition;
      if negb (NaslValue.to_bool c) then mret NaslValue.Null
      else
        ret ← rec body;
        match leave ret with Some v => mret v | None => while_rounds n' condition body end
  end.

Definition while_loop (condition body : Statement) : I NaslValue.t :=
  while_rounds fuel condition body.

Fixpoint repeat_rounds (n : nat) (body condition : Statement) : I NaslValue.t :=
  match n with
  | 0 => out_of_fuel
  | S n' =>
      ret ← rec body;
      match leave ret with
      | Some v => mret v
      | None =>
          c ← rec condition;
          if NaslValue.to_bool c then mret NaslValue.Null else repeat_rounds n' body condition
      end
  end.

Definition repeat_loop (body condition : Statement) : I NaslValue.t :=
  repeat_rounds fuel body condition.

Fixpoint for_each_rounds (vals : list NaslValue.t) (iter_name : string) (body : Statement) :
  I NaslValue.t :=
  match vals with
  | [] => mret NaslValue.Null
  | val :: rest =>
      modify_register (fun r => Register.add_local r iter_name (Value val));;
      ret ← rec body;
      match leave ret with Some v => mret v | None => for_each_rounds rest iter_name body end
  end.

Definition for_each_loop (variable : Token) (iterable body : Statement) : I NaslValue.t :=
  iter_name ← identifier variable;
  v ← rec iterable;
  for_each_rounds (NaslValue.to_vec v) iter_name body.

(** *** call.rs *)

(** The arguments in their order: named ones by name, the others by position. *)
Fixpoint call_arguments (arguments : list Statement) (args : Named) (positions : list NaslValue.t) :
  I (Named * list NaslValue.t) :=
  match arguments with
  | [] => mret (args, positions)
  | p :: rest =>
      match Statement.kind p with
      | NamedParameter val =>
          v ← rec val;
          x ← identifier (Statement.as_token p);
          call_arguments rest (<[x := Value v]> args) positions
      | _ => v ← rec p; call_arguments rest args (positions ++ [v])
      end
  end.

(** What a call makes of the result of a builtin function. *)
Definition builtin_result (statement : Statement) (name : string) (r : NaslValue.t + FnError) :
  I (NaslValue.t + InterpretError) :=
  match r with
  | inl (NaslValue.Fork x) =>
      s ← get;
      if index s =? 0 then
        match x with
        | v :: rest => fork v rest;; mret (inl v)
        | [] => mret (inl NaslValue.Null)
        end
      else panic
  | inl v => mret (inl v)
  | inr e =>
      mret (inr (InterpretError.new
        (InterpretErrorKind.FunctionCallError (mkFunctionCallError name e)) (Some statement)))
  end.

(** A function of the script: its body runs in the scope of the call. *)
Definition user_result (name : string) : I (NaslValue.t + InterpretError) :=
  o ← named name;
  found ← ok_or o (InterpretError.not_found name);
  match found with
  | Function params stmt =>
      default_parameters params;;
      v ← rec stmt;
      mret (inl match v with NaslValue.Return x => x | a => a end)
  | Value _ => mret (inr InterpretError.expected_function)
  end.

Definition call (statement : Statement) (arguments : list Statement) : I NaslValue.t :=
  name ← identifier (Statement.as_token statement);
  '(args, positions) ← call_arguments arguments ∅ [];
  modify_register (fun r => Register.create_root_child r
    (<[FC_ANON_ARGS := Value (NaslValue.Array positions)]> args));;
  result ← (o ← nasl_fn_execute name;
            match o with
            | Some r => builtin_result statement name r
            | None => user_result name
            end);
  modify_register Register.drop_last;;
  of_result result.

(** *** interpreter.rs *)

(** The statements of an included file, run by an interpreter of their own. *)
Fixpoint execute_statements (key : string) (stmts : list (Statement + SyntaxError.t)) : I unit :=
  match stmts with
  | [] => mret tt
  | inl stmt :: rest => rec stmt;; execute_statements key rest
  | inr err :: _ => throw (InterpretError.include_syntax_error key err)
  end.

Definition load_code (key : string) : I string :=
  s ← get;
  let '(r, w) := load key (world s) in
  set_world w;;
  match r with inl code => mret code | inr e => throw (InterpretError.from_load e) end.

(** Run [m] on an interpreter of its own that shares the world, and return the
    register it ends with. *)
Definition with_child (r : Register) (m : I unit) : I Register := fun s =>
  let '(o, inter) := (m;; get_register) (new_interpreter r (world s)) in
  (o, mkInterpreter (run_specific s) (index s) (world inter)).

Definition include (name : Statement) : I NaslValue.t :=
  v ← rec name;
  match v with
  | NaslValue.String key =>
      code ← load_code key;
      r ← get_register;
      stmts ← of_total (parse code);
      r' ← with_child r (execute_statements key stmts);
      set_register r';;
      mret NaslValue.Null
  | _ => throw (InterpretError.unsupported name "string")
  end.

Definition resolve_array (statement : Statement) (pos : option Statement) : I NaslValue.t :=
  name ← identifier (Statement.start statement);
  o ← named name;
  match pos, default (Value NaslValue.Null) o with
  | None, Value v => mret v
  | Some p, Value (NaslValue.Array x) =>
      i ← rec p;
      mret (default NaslValue.Null (x !! Z.to_nat (wrap_u 64 (NaslValue.to_i64 i))))
  | Some p, Value (NaslValue.Dict x) =>
      i ← rec p;
      mret (default NaslValue.Null (x !! NaslValue.to_string i))
  | Some _, Value NaslValue.Null => mret NaslValue.Null
  | Some p, _ => throw (InterpretError.unsupported p "array")
  | None, Function _ _ => throw (InterpretError.unsupported statement "variable")
  end.

Definition resolve_exit (stmt : Statement) : I NaslValue.t :=
  rc ← rec stmt;
  match rc with
  | NaslValue.Number rc => mret (NaslValue.Exit rc)
  | _ => throw (InterpretError.unsupported stmt "numeric")
  end.

Definition resolve_return (stmt : Statement) : I NaslValue.t :=
  rc ← rec stmt; mret (NaslValue.Return rc).

Definition try_from (token : Token) : I NaslValue.t :=
  match NaslValue.try_from token with
  | inl v => mret v
  | inr c => throw (InterpretError.wrong_category c)
  end.

Definition resolve_primitive (statement : Statement) : I NaslValue.t :=
  try_from (Statement.as_token statement).

Definition resolve_variable (statement : Statement) : I NaslValue.t :=
  name ← try_from (Statement.as_token statement);
  o ← named (NaslValue.to_string name);
  match o with
  | Some (Value result) => mret result
  | None => mret NaslValue.Null
  | Some (Function _ _) => throw (InterpretError.unsupported statement "variable")
  end.

Fixpoint resolve_all (x : list Statement) : I (list NaslValue.t) :=
  match x with
  | [] => mret []
  | stmt :: rest => v ← rec stmt; vs ← resolve_all rest; mret (v :: vs)
  end.

Definition resolve_parameter (x : list Statement) : I NaslValue.t :=
  vs ← resolve_all x; mret (NaslValue.Array vs).

Definition resolve_if (condition if_block : Statement) (else_block : option Statement) :
  I NaslValue.t :=
  value ← rec condition;
  if NaslValue.to_bool value then rec if_block
  else match else_block with Some e => rec e | None => mret NaslValue.Null end.

(** The values that end a block early. *)
Definition interrupts (v : NaslValue.t) : bool :=
  match v with
  | NaslValue.Exit _ | NaslValue.Return _ | NaslValue.Break | NaslValue.Continue => true
  | _ => false
  end.

Fixpoint block_statements (blocks : list Statement) : I NaslValue.t :=
  match blocks with
  | [] => mret NaslValue.Null
  | stmt :: rest => x ← rec stmt; if interrupts x then mret x else block_statements rest
  end.

Definition resolve_block (blocks : list Statement) : I NaslValue.t :=
  modify_register (fun r => Register.create_child r ∅);;
  v ← block_statements blocks;
  modify_register Register.drop_last;;
  mret v.

Definition resolve_attack_category (statement : Statement) : I NaslValue.t :=
  match category (Statement.as_token statement) with
  | Category.Identifier (IdentifierType.ACT cat) => mret (NaslValue.AttackCategory cat)
  | _ => panic
  end.

Definition dispatch (statement : Statement) : I NaslValue.t :=
  match Statement.kind statement with
  | Include inc => include inc
  | Array pos => resolve_array statement pos
  | Exit stmt => resolve_exit stmt
  | Return stmt => resolve_return stmt
  | NamedParameter _ => panic
  | For assignment condition update body => for_loop assignment condition update body
  | While condition body => while_loop condition body
  | Repeat body condition => repeat_loop body condition
  | ForEach variable iterable body => for_each_loop variable iterable body
  | FunctionDeclaration name args exec => declare_function name (Statement.children args) exec
  | Primitive => resolve_primitive statement
  | Variable_ => resolve_variable statement
  | Call arguments => call statement (Statement.children arguments)
  | Declare_ stmts => declare_variable (Statement.as_token statement) stmts
  | Parameter_ x => resolve_parameter x
  | Assign cat order left_ right_ => assign cat order left_ right_
  | Operator sign stmts => operator sign stmts
  | If condition if_block _ else_block => resolve_if condition if_block else_block
  | Block blocks => resolve_block blocks
  | NoOp | EoF => mret NaslValue.Null
  | AttackCategory => resolve_attack_category statement
  | Continue => mret NaslValue.Continue
  | Break => mret NaslValue.Break
  end.

(** [resolve]: one position deeper, the value a fork recorded for this position if
    there is one, and one position up again whether or not there was an error. *)
Definition resolve_body (statement : Statement) : I NaslValue.t :=
  modify_position Position.up;;
  o ← may_return_value;
  match o with
  | Some val => modify_position Position.down;; mret val
  | None =>
      results ← attempt (map_err (InterpretError.with_origin statement) (dispatch statement));
      modify_position Position.down;;
      of_result results
  end.
End Methods.

Section Run.
Context `{Host}.

Fixpoint resolve (fuel : nat) (statement : Statement) : I NaslValue.t :=
  match fuel with
  | 0 => out_of_fuel
  | S fuel' => resolve_body fuel' (resolve fuel') statement
  end.

(** [retry_resolve_next] and [retry_resolve] *)
Fixpoint retry_resolve (fuel : nat) (stmt : Statement) (max_attempts : nat) : I NaslValue.t :=
  r ← attempt (resolve fuel stmt);
  match r with
  | inl x => mret x
  | inr e =>
      match max_attempts with
      | 0 => throw e
      | S n =>
          if InterpretError.retryable e then
            modify (fun s => mkInterpreter (run_specific s) 0 (world s));;
            retry_resolve fuel stmt n
          else throw e
      end
  end.

Definition retry_resolve_next (fuel : nat) (stmt : Statement) (max_attempts : nat) :
  I NaslValue.t :=
  modify (fun s => mkInterpreter (run_specific s) 0 (world s));;
  retry_resolve fuel stmt max_attempts.

(** ** code_interpreter.rs *)
Record CodeInterpreter := mkCode {
  lexer : Lexer Tokenizer;
  interpreter : Interpreter;
  statement : option Statement
}.

Definition new_code (code : string) (r : Register) (w : World) : CodeInterpreter :=
  mkCode (new_lexer (Tokenizer.new code)) (new_interpreter r w) None.

(** Run a method of the inner interpreter; its [Result] is an item of the stream. *)
Definition run_item (m : I NaslValue.t) :
  M CodeInterpreter Empty_set (NaslValue.t + InterpretError) := fun c =>
  let '(o, i) := m (interpreter c) in
  let c' := mkCode (lexer c) i (statement c) in
  match o with
  | Ok v => (Ok (inl v), c')
  | Err e => (Ok (inr e), c')
  | Panic => (Panic, c')
  | OutOfFuel => (OutOfFuel, c')
  end.

Definition next_stmt (fuel : nat) :
  M CodeInterpreter Empty_set (option (NaslValue.t + InterpretError)) :=
  c ← get;
  let '(o, l) := next_statement (lexer c) in
  put (mkCode l (interpreter c) None);;
  r ← of_outcome o;
  match r with
  | Some (inl nstmt) =>
      results ← run_item (retry_resolve_next fuel nstmt 5);
      modify (fun c => mkCode (lexer c) (interpreter c) (Some nstmt));;
      mret (Some results)
  | Some (inr err) => mret (Some (inr (InterpretError.from_syntax err)))
  | None => mret None
  end.

(** [next_]: the other runs of the statement first, then the next statement. *)
Definition next_item (fuel : nat) :
  M CodeInterpreter Empty_set (option (NaslValue.t + InterpretError)) :=
  c ← get;
  match statement c with
  | Some stmt =>
      match next_interpreter (interpreter c) with
      | Some inter =>
          put (mkCode (lexer c) inter (statement c));;
          r ← run_item (retry_resolve fuel stmt 5);
          mret (Some r)
      | None => next_stmt fuel
      end
  | None => next_stmt fuel
  end.

(** [stream], collected; [n] bounds the number of items. *)
Fixpoint stream (fuel n : nat) : M CodeInterpreter Empty_set (list (NaslValue.t + InterpretError)) :=
  match n with
  | 0 => out_of_fuel
  | S n' =>
      o ← next_item fuel;
      match o with
      | None => mret []
      | Some r => rs ← stream fuel n'; mret (r :: rs)
      end
  end.

(** The items a script yields. *)
Definition run_script (fuel n : nat) (code : string) (r : Register) (w : World) :
  outcome Empty_set (list (NaslValue.t + InterpretError)) :=
  (stream fuel n (new_code code r w)).1.
End Run.
