(* ===== verification/InterpreterProps.v ===== *)
(** * The interpreter keeps its scopes

    Every statement leaves the runs well-formed, the scopes as many as they were
    (more only when it failed), the scopes it cannot reach untouched and the
    position one step further. *)

From S2P Require Import Prelude RustStr Token Tokenizer Statement Lexer NaslValue Errors Register Executor Operator Interpreter.
Local Open Scope nat_scope.

Create HintDb interp discriminated.

Section Frames.
Context `{Host}.

Definition all_wf (s : Interpreter) : Prop :=
  Forall (fun rs => Register.wf (register rs)) (run_specific s).

Definition current (s : Interpreter) (rs : RunSpecific) : Prop :=
  run_specific s !! index s = Some rs.

Definition inv (s : Interpreter) : Prop := all_wf s /\ exists rs, current s rs.

(** Positions only move on. *)
Definition pos_ext (p p' : Position.t) : Prop :=
  exists k, p' = Nat.iter k (Position.alter_last S) p.

Definition frame (strict : bool) (s s' : Interpreter) : Prop :=
  index s' = index s /\ length (run_specific s) <= length (run_specific s') /\ all_wf s'
  /\ exists rs rs', current s rs /\ current s' rs'
       /\ ext strict (register rs) (register rs') /\ pos_ext (position rs) (position rs').

Definition ipost {A} (s : Interpreter) (o : outcome InterpretError A) (s' : Interpreter) : Prop :=
  match o with
  | Ok _ => frame true s s'
  | Err _ => frame false s s'
  | Panic | OutOfFuel => True
  end.

(** [ok_at P m]: from every state with [P], [m] keeps the frame. *)
Definition ok_at {A} (P : Interpreter -> Prop) (m : I A) : Prop :=
  forall s, inv s -> P s -> wp m (ipost s) s.
Definition ok {A} (m : I A) : Prop := ok_at (fun _ => True) m.

(** Computations that leave the state alone. *)
Definition still {A} (m : I A) : Prop := forall s, (m s).2 = s.

Lemma pos_ext_refl p : pos_ext p p.
Proof. by exists 0. Qed.

Lemma pos_ext_trans p1 p2 p3 : pos_ext p1 p2 -> pos_ext p2 p3 -> pos_ext p1 p3.
Proof.
  intros [k ->] [k' ->]. exists (k' + k). by rewrite Nat.iter_add.
Qed.

Lemma current_wf s rs : all_wf s -> current s rs -> Register.wf (register rs).
Proof. intros Ha Hc. by eapply (Forall_lookup_1 _ _ _ _ Ha Hc). Qed.

Lemma frame_refl b s : inv s -> frame b s s.
Proof.
  intros [Ha [rs Hc]]. split_and!; [done|done|done|]. exists rs, rs. split_and!; try done.
  - by apply ext_refl, (current_wf s).
  - apply pos_ext_refl.
Qed.

Lemma frame_trans b s1 s2 s3 : inv s1 -> frame true s1 s2 -> frame b s2 s3 -> frame b s1 s3.
Proof.
  intros [Ha1 _] (Hi2 & Hl2 & Ha2 & rs1 & rs2 & Hc1 & Hc2 & He2 & Hp2)
    (Hi3 & Hl3 & Ha3 & rs2' & rs3 & Hc2' & Hc3 & He3 & Hp3).
  unfold current in *. simplify_eq. split_and!; [congruence|lia|done|].
  exists rs1, rs3. split_and!; [done|done| |by eapply pos_ext_trans].
  eapply ext_trans; [by apply (current_wf s1)|done|done].
Qed.

Lemma frame_inv b s s' : frame b s s' -> inv s'.
Proof. intros (_ & _ & Ha & _ & rs' & _ & Hc & _). split; [done|by exists rs']. Qed.

Lemma frame_weaken b s s' : frame b s s' -> frame false s s'.
Proof.
  intros (? & ? & ? & rs & rs' & ? & ? & ? & ?). split_and!; [done|done|done|].
  exists rs, rs'. split_and!; try done. by eapply ext_weaken.
Qed.

Lemma ok_ok_at {A} P (m : I A) : ok m -> ok_at P m.
Proof. intros Hm s Hs _. by apply Hm. Qed.

Lemma ok_still {A} P (m : I A) : still m -> ok_at P m.
Proof.
  intros Hm s Hs _. unfold wp. rewrite Hm. destruct (m s).1; simpl; try done;
    by apply frame_refl.
Qed.

Lemma ok_at_bind {A B} P (m : I A) (f : A -> I B) :
  ok_at P m -> (forall a, ok (f a)) -> ok_at P (m ≫= f).
Proof.
  intros Hm Hf s Hs HP. apply wp_bind. eapply wp_mono; [by apply Hm|].
  intros [a|e| |] s' Hpost; simpl in *; try done.
  eapply wp_mono; [apply Hf; [by eapply frame_inv|done]|].
  intros [b|e| |] s''; simpl; try done; by apply frame_trans.
Qed.

Lemma ok_bind {A B} (m : I A) (f : A -> I B) :
  ok m -> (forall a, ok (f a)) -> ok (m ≫= f).
Proof. apply ok_at_bind. Qed.

(** The condition survives a computation that leaves the state alone. *)
Lemma ok_at_still_bind {A B} P (m : I A) (f : A -> I B) :
  still m -> (forall a, ok_at P (f a)) -> ok_at P (m ≫= f).
Proof.
  intros Hm Hf s Hs HP. unfold wp, mbind, M_bind. pose proof (Hm s) as E.
  destruct (m s) as [[a|e| |] s'] eqn:Em; simpl in *; subst s'; try done.
  - by apply (Hf a).
  - by apply frame_refl.
Qed.

Lemma ok_map_err {A} g (m : I A) : ok m -> ok (map_err g m).
Proof.
  intros Hm s Hs HP. apply wp_map_err. eapply wp_mono; [by apply Hm|]. by intros [] s'.
Qed.

Lemma still_ret {A} (a : A) : still (mret a).
Proof. done. Qed.
Lemma still_throw {A} e : still (throw (A := A) e).
Proof. done. Qed.
Lemma still_panic {A} : still (panic (A := A)).
Proof. done. Qed.
Lemma still_out {A} : still (out_of_fuel (A := A)).
Proof. done. Qed.
Lemma still_or_panic {A} (o : option A) : still (or_panic o).
Proof. by destruct o. Qed.
Lemma still_ok_or {A} (o : option A) e : still (ok_or o e).
Proof. by destruct o. Qed.
Lemma still_of_outcome {A} (o : outcome InterpretError A) : still (of_outcome o).
Proof. done. Qed.
Lemma still_of_total {A} (o : outcome Empty_set A) : still (of_total o).
Proof. by destruct o as [|[]| |]. Qed.
Lemma still_of_result {A} (r : A + InterpretError) : still (of_result r).
Proof. by destruct r. Qed.
Lemma still_get : still get.
Proof. done. Qed.
Lemma still_bind {A B} (m : I A) (f : A -> I B) :
  still m -> (forall a, still (f a)) -> still (m ≫= f).
Proof.
  intros Hm Hf s. unfold mbind, M_bind. pose proof (Hm s) as E.
  destruct (m s) as [[a|e| |] s']; simpl in *; subst; try done. apply Hf.
Qed.
Lemma still_run : still run.
Proof. apply still_bind; [done|]. intros. apply still_or_panic. Qed.
Lemma still_get_register : still get_register.
Proof. apply still_bind; [apply still_run|done]. Qed.
Lemma still_identifier t : still (identifier t).
Proof. unfold identifier. repeat case_goal; done. Qed.
Lemma still_named x : still (named x).
Proof. apply still_bind; [apply still_get_register|]. intros. apply still_of_total. Qed.
Lemma still_try_from t : still (try_from t).
Proof. unfold try_from. by case_goal. Qed.
Lemma still_may_return : still may_return_value.
Proof. apply still_bind; [apply still_run|done]. Qed.
End Frames.

#[export] Hint Resolve still_ret still_throw still_panic still_out still_or_panic still_ok_or
  still_of_outcome still_of_total still_of_result still_get still_run still_get_register
  still_identifier still_named still_try_from still_may_return : interp.

(** ** The primitives that change the state *)
Section Primitives.
Context `{Host}.

Lemma wp_run (Q : outcome InterpretError RunSpecific -> Interpreter -> Prop) s rs :
  current s rs -> Q (Ok rs) s -> wp run Q s.
Proof. unfold wp, run, mbind, M_bind, get, current. simpl. by intros ->. Qed.

Lemma wp_get_register (Q : outcome InterpretError Register -> Interpreter -> Prop) s rs :
  current s rs -> Q (Ok (register rs)) s -> wp get_register Q s.
Proof. intros Hc HQ. apply wp_bind. by eapply wp_run. Qed.

Lemma current_fun s rs rs' : current s rs -> current s rs' -> rs = rs'.
Proof. unfold current. congruence. Qed.

Lemma index_lt s rs : current s rs -> index s < length (run_specific s).
Proof. apply lookup_lt_Some. Qed.

(** Replacing the current run. *)
Definition with_run (s : Interpreter) (rs : RunSpecific) : Interpreter :=
  mkInterpreter (<[index s := rs]> (run_specific s)) (index s) (world s).

Lemma current_with_run s rs rs' : current s rs -> current (with_run s rs') rs'.
Proof. intros Hc. apply list_lookup_insert_eq. by eapply index_lt. Qed.

Lemma all_wf_with_run s rs : all_wf s -> Register.wf (register rs) -> all_wf (with_run s rs).
Proof. intros Ha Hr. unfold all_wf. simpl. by apply Forall_insert. Qed.

Lemma frame_with_run b s rs rs' : inv s -> current s rs ->
  ext b (register rs) (register rs') -> pos_ext (position rs) (position rs') ->
  frame b s (with_run s rs').
Proof.
  intros [Ha _] Hc He Hp. split_and!; [done| | |].
  - simpl. by rewrite length_insert.
  - apply all_wf_with_run; [done|by eapply ext_wf].
  - exists rs, rs'. split_and!; try done. by eapply current_with_run.
Qed.

Lemma wp_set_register r (Q : outcome InterpretError unit -> Interpreter -> Prop) s rs :
  current s rs ->
  Q (Ok tt) (with_run s (mkRun r (position rs) (skip_until_return rs))) ->
  wp (set_register r) Q s.
Proof. intros Hc HQ. apply wp_bind. by eapply wp_run. Qed.

Lemma wp_modify_register f (Q : outcome InterpretError unit -> Interpreter -> Prop) s rs :
  current s rs ->
  Q (Ok tt) (with_run s (mkRun (f (register rs)) (position rs) (skip_until_return rs))) ->
  wp (modify_register f) Q s.
Proof.
  intros Hc HQ. apply wp_bind. eapply wp_get_register; [done|]. by eapply wp_set_register.
Qed.

Lemma wp_modify_position f (Q : outcome InterpretError unit -> Interpreter -> Prop) s rs :
  current s rs ->
  Q (Ok tt) (with_run s (mkRun (register rs) (f (position rs)) (skip_until_return rs))) ->
  wp (modify_position f) Q s.
Proof. intros Hc HQ. apply wp_bind. by eapply wp_run. Qed.

Lemma ok_modify_register f :
  (forall r, Register.wf r -> ext true r (f r)) -> ok (modify_register f).
Proof.
  intros Hf s Hs _. pose proof Hs as [Ha [rs Hc]]. eapply wp_modify_register; [done|].
  eapply frame_with_run; [done|done| |apply pos_ext_refl]. by apply Hf, (current_wf s).
Qed.

Lemma ok_at_update_register (P : Interpreter -> Prop) f :
  (forall s rs r', P s -> current s rs -> Register.wf (register rs) ->
     f (register rs) = Some r' -> ext true (register rs) r') ->
  ok_at P (update_register f).
Proof.
  intros Hf s Hs HP. pose proof Hs as [Ha [rs Hc]]. apply wp_bind.
  eapply wp_get_register; [done|]. apply wp_bind. simpl.
  destruct (f (register rs)) as [r'|] eqn:E; [|done]. apply wp_ret. simpl.
  eapply wp_set_register; [done|].
  eapply frame_with_run; [done|done| |apply pos_ext_refl].
  eapply Hf; [done|done| |done]. by apply (current_wf s).
Qed.

Lemma ok_update_register f :
  (forall r r', Register.wf r -> f r = Some r' -> ext true r r') -> ok (update_register f).
Proof. intros Hf. apply ok_at_update_register. eauto. Qed.

Lemma ok_add_local x v : ok (modify_register (fun r => Register.add_local r x v)).
Proof. apply ok_modify_register. intros. by apply ext_add_local. Qed.

Lemma ok_add_global x v : ok (update_register (fun r => Register.add_global r x v)).
Proof. apply ok_update_register. intros. by eapply ext_add_global. Qed.

Lemma ok_set_world w : ok (set_world w).
Proof. intros s Hs _. exact (frame_refl _ _ Hs). Qed.

(** Saving to a scope within reach. *)
Definition at_scope (i : nat) (s : Interpreter) : Prop :=
  exists rs, current s rs /\ scope (register rs) i.

Lemma ok_save i key v : ok_at (at_scope i) (save i key v).
Proof.
  apply ok_at_update_register. intros s rs r' (rs' & Hc' & Hi) Hc Hwf E.
  unfold current in *. simplify_eq. by eapply ext_add_to_index.
Qed.

Lemma named_value_scope {A} key (f : nat * NaslValue.t -> I A) :
  (forall i v, ok_at (at_scope i) (f (i, v))) -> ok (named_value key ≫= f).
Proof.
  intros Hf s Hs _. pose proof Hs as [Ha [rs Hc]]. apply wp_bind. apply wp_bind.
  eapply wp_get_register; [done|]. apply wp_bind. unfold wp at 1, of_total. simpl.
  destruct (Register.index_named_visible (register rs) key) as (o & -> & Ho);
    [by apply (current_wf s)|]. simpl.
  assert (at_scope (Register.target o) s) as Hat.
  { exists rs. split; [done|]. destruct o as [[j ct]|]; simpl.
    - eapply visible_reach. by apply Ho.
    - by apply scope_root, (current_wf s). }
  destruct o as [[j [params body|v]]|]; simpl.
  - by apply frame_refl.
  - by apply Hf.
  - by apply Hf.
Qed.

Lemma ok_save_ret {A} i key v (a : A) : ok_at (at_scope i) (save i key v;; mret a).
Proof. apply ok_at_bind; [apply ok_save|]. intros. apply ok_still, still_ret. Qed.

Lemma ok_handle_dict i key idx l r o f : ok_at (at_scope i) (handle_dict i key idx l r o f).
Proof.
  apply ok_at_still_bind; [auto with interp|]. intros. apply ok_save_ret.
Qed.

Lemma ok_handle_array i key idx l r o f : ok_at (at_scope i) (handle_array i key idx l r o f).
Proof.
  apply ok_at_still_bind; [auto with interp|]. intros [? ?].
  do 2 (apply ok_at_still_bind; [auto with interp|]; intros). apply ok_save_ret.
Qed.

Lemma ok_dynamic_return key o l r f : ok (dynamic_return key o l r f).
Proof.
  apply named_value_scope. intros i v. destruct l as [l|].
  - destruct l; try (destruct v);
      lazymatch goal with
      | |- ok_at _ (handle_dict _ _ _ _ _ _ _) => apply ok_handle_dict
      | |- ok_at _ (handle_array _ _ _ _ _ _ _) => apply ok_handle_array
      end.
  - apply ok_at_still_bind; [auto with interp|]. intros. apply ok_save_ret.
Qed.

Lemma ok_store c o k l v : ok (store c o k l v).
Proof.
  unfold store. destruct (assign_op c); [|apply ok_still; auto with interp].
  destruct c; apply ok_dynamic_return.
Qed.

Lemma ok_fn_execute name : ok (nasl_fn_execute name).
Proof.
  apply ok_bind; [apply ok_still; auto with interp|]. intros r.
  apply ok_bind; [apply ok_still; auto with interp|]. intros s.
  destruct (Executor.exec _ _ _ _) as [[o w]|]; [|apply ok_still; auto with interp].
  apply ok_bind; [apply ok_set_world|]. intros _.
  destruct o; apply ok_still; auto with interp.
Qed.

(** A fork keeps the current run's scopes and position, and the copies of a run
    have its register. *)
Lemma fork_runs_wf p v rest runs :
  Forall (fun rs => Register.wf (register rs)) runs ->
  Forall (fun rs => Register.wf (register rs)) (fork_runs p v rest runs).
Proof.
  intros Hr. assert (Forall (fun rs => Register.wf (register rs))
    (map (fun rs => mkRun (register rs) (position rs)
       (skip_until_return rs ++ [(Position.reduce_last p, v)])) runs)) as Hr'.
  { apply Forall_map. eapply Forall_impl; [done|]. done. }
  unfold fork_runs. apply Forall_app. split; [done|].
  apply Forall_bind, Forall_true. intros w. apply Forall_map. eapply Forall_impl; [done|]. done.
Qed.

Lemma ok_fork v rest : ok (fork v rest).
Proof.
  intros s [Ha [rs Hc]] _. apply wp_bind, wp_get. simpl. apply wp_bind. unfold or_panic.
  destruct (run_specific s !! 0) as [root|]; [|done]. apply wp_ret. simpl. apply wp_put.
  split_and!; [done| |by apply fork_runs_wf|].
  - simpl. unfold fork_runs. rewrite length_app, length_map. lia.
  - exists rs. eexists. split_and!; [done| | |].
    + unfold current. simpl. unfold fork_runs. apply lookup_app_l_Some.
      rewrite list_lookup_fmap, Hc. done.
    + apply ext_refl. by apply (current_wf s rs).
    + apply pos_ext_refl.
Qed.
End Primitives.

#[export] Hint Resolve ok_add_local ok_add_global ok_set_world ok_store ok_fn_execute ok_fork
  : interp.

(** ** The methods

    One round of automation: a bind, a case analysis, or a lemma of the
    database. *)
Ltac ok_step :=
  lazymatch goal with
  | |- ok (mbind _ _) => apply ok_bind; [|intros]
  | |- ok (map_err _ _) => apply ok_map_err
  | |- ok (match ?x with _ => _ end) => destruct x eqn:?
  | |- ok (let '(_, _) := ?x in _) => destruct x
  | |- _ => first [progress eauto with interp | apply ok_still; solve [eauto with interp]]
  end.
Ltac ok_auto := repeat ok_step.

Section MethodFrames.
Context `{Host}.
Variable fuel : nat.
Variable rec : Statement -> I NaslValue.t.
Hypothesis rec_ok : forall stmt, ok (rec stmt).

(** A computation in a scope of its own that is dropped afterwards. *)
Lemma ok_scoped {A B} (enter : Register -> Register) (m : I A) (k : A -> I B) :
  (forall r, Register.wf r -> exists p d, enter r = Register.push r p d /\ scope r p
     /\ p < Register.index r) ->
  ok m -> (forall a, still (k a)) ->
  ok (modify_register enter;; a ← m; modify_register Register.drop_last;; k a).
Proof.
  intros Henter Hm Hk s Hs _. pose proof Hs as [Ha [rs Hc]].
  pose proof (current_wf s rs Ha Hc) as Hwf.
  destruct (Henter (register rs) Hwf) as (p & d & Ee & Hp & Hlt).
  apply wp_bind. eapply wp_modify_register; [done|]. simpl.
  set (rs1 := mkRun (enter (register rs)) (position rs) (skip_until_return rs)).
  assert (inv (with_run s rs1)) as Hs1.
  { split; [|exists rs1; by eapply current_with_run].
    apply all_wf_with_run; [done|]. simpl. rewrite Ee. by apply Register.wf_push. }
  apply wp_bind. eapply wp_mono; [by apply Hm|]. intros [a|e| |] s2; simpl; try done.
  - intros (Hi & Hl & Ha2 & rs1' & rs2 & Hc1 & Hc2 & He & Hpos).
    pose proof (current_fun _ _ _ Hc1 (current_with_run s rs rs1 Hc)) as ->. simpl in *.
    apply wp_bind. eapply wp_modify_register; [done|]. simpl.
    eapply wp_mono; [apply ok_still with (P := fun _ => True); [apply Hk| |done]|].
    { split; [|eexists; by eapply current_with_run]. apply all_wf_with_run; [done|]. simpl.
      eapply ext_wf, ext_push_drop; [exact Hwf|exact Hp|exact Hlt|by rewrite <- Ee]. }
    set (rs3 := mkRun (Register.drop_last (register rs2)) (position rs2) (skip_until_return rs2)).
    assert (frame true s (with_run s2 rs3)) as Hf.
    { rewrite length_insert in Hl. split_and!; [done|simpl; rewrite length_insert; lia| |].
      - apply all_wf_with_run; [done|]. simpl.
        eapply ext_wf, ext_push_drop; [exact Hwf|exact Hp|exact Hlt|by rewrite <- Ee].
      - exists rs, rs3. split_and!; [done|by eapply current_with_run| |done].
        eapply ext_push_drop; [done|exact Hp|exact Hlt|by rewrite <- Ee]. }
    intros [b|e| |] s4; simpl; try done; by apply frame_trans.
  - intros (Hi & Hl & Ha2 & rs1' & rs2 & Hc1 & Hc2 & He & Hpos).
    pose proof (current_fun _ _ _ Hc1 (current_with_run s rs rs1 Hc)) as ->. simpl in *.
    rewrite length_insert in Hl. split_and!; [done|done|done|].
    exists rs, rs2. split_and!; try done.
    eapply ext_under_push; [done|exact Hp|exact Hlt|by rewrite <- Ee].
Qed.

Lemma enter_root d r : Register.wf r ->
  exists p d', Register.create_root_child r d = Register.push r p d' /\ scope r p
    /\ p < Register.index r.
Proof.
  intros Hwf. exists 0, d. split_and!; [done|by apply scope_root|by apply Register.wf_nonempty].
Qed.

Lemma enter_child r : Register.wf r ->
  exists p d', Register.create_child r ∅ = Register.push r p d' /\ scope r p
    /\ p < Register.index r.
Proof.
  intros Hwf. exists (pred (Register.index r)), ∅. pose proof (Register.wf_nonempty r Hwf).
  split_and!; [by apply create_child_push|apply scope_self|lia].
Qed.

Lemma ok_operator c stmts : ok (operator rec c stmts).
Proof.
  assert (forall n stmt, ok (repeat_resolve rec n stmt)) as Hrep.
  { intros n stmt. induction n; simpl; ok_auto. }
  assert (forall f, ok (execute rec stmts f)) as Hex.
  { intros f. unfold execute. ok_auto. }
  assert (ok (match binary c with
    | Some result => execute rec stmts result
    | None => throw (InterpretError.wrong_category c) end)) as Hbin by ok_auto.
  destruct c; try exact Hbin. unfold operator. ok_auto.
Qed.

Lemma ok_assign c o l r : ok (assign rec c o l r).
Proof. unfold assign. ok_auto. Qed.

Lemma ok_for_loop a c u b : ok (for_loop fuel rec a c u b).
Proof.
  assert (forall n, ok (for_rounds rec n c u b)) as Hn by (intros n; induction n; simpl; ok_auto).
  unfold for_loop. ok_auto.
Qed.

Lemma ok_while_loop c b : ok (while_loop fuel rec c b).
Proof. unfold while_loop. induction fuel; simpl; ok_auto. Qed.

Lemma ok_repeat_loop b c : ok (repeat_loop fuel rec b c).
Proof. unfold repeat_loop. induction fuel; simpl; ok_auto. Qed.

Lemma ok_for_each_loop v i b : ok (for_each_loop rec v i b).
Proof.
  assert (forall x vs, ok (for_each_rounds rec vs x b)) as Hn.
  { intros x vs. induction vs; simpl; ok_auto. }
  unfold for_each_loop. ok_auto.
Qed.

Lemma ok_declare_function n args e : ok (declare_function n args e).
Proof.
  assert (ok (parameter_names args)) as Hp by (induction args; simpl; ok_auto).
  unfold declare_function. ok_auto.
Qed.

Lemma ok_declare_variable t stmts : ok (declare_variable t stmts).
Proof.
  assert (forall k, ok (declare_one t k)) as Hd by (intros k; unfold declare_one; ok_auto).
  induction stmts; simpl; ok_auto.
Qed.

Lemma ok_call_arguments args : forall named pos, ok (call_arguments rec args named pos).
Proof. induction args; intros; simpl; ok_auto. Qed.

(** What runs in the scope of a call. *)
Lemma ok_callee stmt name :
  ok (o ← nasl_fn_execute name;
      match o with
      | Some r => builtin_result stmt name r
      | None => user_result rec name
      end).
Proof.
  assert (forall params, ok (default_parameters params)) as Hdef.
  { intros params. induction params; simpl; ok_auto. }
  unfold user_result, builtin_result. ok_auto.
Qed.

Lemma ok_call stmt args : ok (call rec stmt args).
Proof.
  unfold call. apply ok_bind; [ok_auto|]. intros name. apply ok_bind; [apply ok_call_arguments|].
  intros [named pos]. apply ok_scoped; [intros; by apply enter_root|apply ok_callee|auto with interp].
Qed.

(** The register after a computation in a scope of its own. *)
Lemma scoped_register {A B} (enter : Register -> Register) (m : I A) (k : A -> I B) s rs :
  inv s -> current s rs -> Register.wf (enter (register rs)) ->
  ok m -> (forall a, still (k a)) ->
  wp (modify_register enter;; a ← m; modify_register Register.drop_last;; k a)
    (fun o s' => match o with
       | Ok _ => exists rs' r2, current s' rs' /\ ext true (enter (register rs)) r2
           /\ register rs' = Register.drop_last r2
       | _ => True
       end) s.
Proof.
  intros [Ha _] Hc Hwf Hm Hk. apply wp_bind. eapply wp_modify_register; [done|]. simpl.
  set (rs1 := mkRun (enter (register rs)) (position rs) (skip_until_return rs)).
  pose proof (current_with_run s rs rs1 Hc) as Hc1.
  apply wp_bind. eapply wp_mono.
  { apply Hm; [|done]. split; [by apply all_wf_with_run|by exists rs1]. }
  intros [a|e| |] s2; simpl; try done.
  intros (_ & _ & _ & rs1' & rs2 & Hc1' & Hc2 & He & _).
  pose proof (current_fun _ _ _ Hc1' Hc1) as ->. simpl in *.
  apply wp_bind. eapply wp_modify_register; [done|]. simpl. unfold wp. rewrite Hk.
  destruct (k a _).1; try done. eexists _, (register rs2).
  split_and!; [by eapply current_with_run|done|done].
Qed.

Lemma ok_block stmts : ok (resolve_block rec stmts).
Proof.
  apply ok_scoped; [apply enter_child| |auto with interp].
  induction stmts; simpl; ok_auto.
Qed.
Lemma new_inv r w : Register.wf r -> inv (new_interpreter r w).
Proof. intros Hwf. split; [by apply Forall_singleton|]. by eexists. Qed.

(** What the interpreter of an included file returns. *)
Lemma child_register r w (m : I unit) : Register.wf r -> ok m ->
  wp (m;; get_register)
    (fun o _ => match o with Ok r' => ext true r r' | _ => True end) (new_interpreter r w).
Proof.
  intros Hwf Hm. apply wp_bind. eapply wp_mono; [apply Hm; [by apply new_inv|done]|].
  intros [[]|e| |] s; try done. simpl.
  intros (_ & _ & _ & rs & rs' & Hc & Hc' & He & _).
  eapply wp_get_register; [done|]. unfold current in Hc. simpl in Hc. by simplify_eq/=.
Qed.

Lemma ok_include name : ok (include rec name).
Proof.
  assert (forall key stmts, ok (execute_statements rec key stmts)) as Hst.
  { intros key stmts. induction stmts; simpl; ok_auto. }
  apply ok_bind; [done|]. intros v. destruct v; try (apply ok_still; solve [auto with interp]).
  apply ok_bind; [unfold load_code; ok_auto|]. intros code.
  intros st Hs _. pose proof Hs as [Ha [rs Hc]]. apply wp_bind.
  eapply wp_get_register; [done|]. simpl. apply wp_bind. unfold wp at 1, of_total.
  destruct (parse code) as [stmts|[]| |]; simpl; [|done..].
  apply wp_bind. unfold wp at 1, with_child.
  pose proof (child_register (register rs) (world st) _ (current_wf _ _ Ha Hc) (Hst s stmts)) as Hch.
  unfold wp in Hch.
  destruct ((execute_statements rec s stmts;; get_register) _) as [[r'|e| |] inter];
    simpl in *; try done.
  - apply wp_bind. eapply wp_set_register; [exact Hc|]. simpl. apply wp_ret. simpl.
    by eapply (frame_with_run true (mkInterpreter (run_specific st) (index st) (world inter)));
      [split; [exact Ha|by exists rs]|exact Hc| |apply pos_ext_refl].
  - exact (frame_refl false st Hs).
Qed.

Lemma ok_dispatch stmt : ok (dispatch fuel rec stmt).
Proof.
  assert (forall x, ok (resolve_all rec x)) as Hall.
  { intros x. induction x; simpl; ok_auto. }
  unfold dispatch. destruct (Statement.kind stmt);
    try (first [by apply ok_include | by apply ok_for_loop | by apply ok_while_loop
      | by apply ok_repeat_loop | by apply ok_for_each_loop | apply ok_declare_function
      | by apply ok_call | apply ok_declare_variable | by apply ok_assign
      | by apply ok_operator | by apply ok_block]);
    unfold resolve_array, resolve_exit, resolve_return, resolve_primitive, resolve_variable,
      resolve_parameter, resolve_if, resolve_attack_category; ok_auto.
Qed.

(** ** Positions *)

Lemma alter_last_snoc f p n : Position.alter_last f (p ++ [n]) = p ++ [f n].
Proof. induction p as [|m [|m' p] IH]; simpl in *; [done|done|]. by rewrite IH. Qed.

Lemma iter_alter_last k p n : Nat.iter k (Position.alter_last S) (p ++ [n]) = p ++ [k + n].
Proof. induction k as [|k IH]; [done|]. simpl. by rewrite IH, alter_last_snoc. Qed.

Lemma down_up p p' : pos_ext (Position.up p) p' -> Position.down p' = Position.alter_last S p.
Proof.
  intros [k ->]. unfold Position.up, Position.down. rewrite iter_alter_last, length_app.
  simpl. rewrite Nat.add_1_r. simpl. by rewrite take_app_length.
Qed.

(** What [resolve] guarantees: the frame, with the position exactly one further. *)
Definition rpost {A} (s : Interpreter) (o : outcome InterpretError A) (s' : Interpreter) : Prop :=
  ipost s o s'
  /\ match o with
     | Ok _ | Err _ => forall rs rs', current s rs -> current s' rs' ->
         position rs' = Position.alter_last S (position rs)
     | _ => True
     end.

(** Going one position down again after a computation one position up. *)
Lemma leave_position b s rs s2 (r : NaslValue.t + InterpretError) :
  inv s -> current s rs ->
  frame b (with_run s (mkRun (register rs) (Position.up (position rs)) (skip_until_return rs))) s2 ->
  (b = false -> exists e, r = inr e) ->
  wp (modify_position Position.down;; of_result r) (rpost s) s2.
Proof.
  intros [Ha _] Hc (Hi & Hl & Ha2 & rs1 & rs2 & Hc1 & Hc2 & He & Hpos) Hr.
  pose proof (current_fun _ _ _ Hc1 (current_with_run s rs _ Hc)) as ->. simpl in *.
  rewrite length_insert in Hl.
  apply wp_bind. eapply wp_modify_position; [done|]. simpl.
  set (rs3 := mkRun (register rs2) (Position.down (position rs2)) (skip_until_return rs2)).
  assert (frame b s (with_run s2 rs3)) as Hf.
  { split_and!; [done|simpl; rewrite length_insert; lia| |].
    - apply all_wf_with_run; [done|]. by apply (current_wf s2 rs2).
    - exists rs, rs3. split_and!; [done|by eapply current_with_run|done|].
      exists 1. simpl. by apply down_up. }
  assert (forall rs0 rs0', current s rs0 -> current (with_run s2 rs3) rs0' ->
    position rs0' = Position.alter_last S (position rs0)) as Hp.
  { intros rs0 rs0' H0 H0'. pose proof (current_fun _ _ _ H0 Hc) as ->.
    pose proof (current_fun _ _ _ H0' (current_with_run s2 rs2 rs3 Hc2)) as ->. by apply down_up. }
  destruct r as [v|e]; simpl.
  - apply wp_ret. destruct b; [done|]. destruct Hr as [e ?]; done.
  - apply wp_throw. split; [by eapply frame_weaken|done].
Qed.

Lemma resolve_body_post stmt s : inv s -> wp (resolve_body fuel rec stmt) (rpost s) s.
Proof.
  intros Hs. pose proof Hs as [Ha [rs Hc]]. apply wp_bind.
  eapply wp_modify_position; [done|]. simpl.
  set (rs1 := mkRun (register rs) (Position.up (position rs)) (skip_until_return rs)).
  pose proof (current_with_run s rs rs1 Hc) as Hc1.
  assert (inv (with_run s rs1)) as Hs1.
  { split; [|by exists rs1]. apply all_wf_with_run; [done|]. by apply (current_wf s rs). }
  apply wp_bind. apply wp_bind. eapply wp_run; [done|]. simpl. apply wp_ret. simpl.
  destruct (skipped _ _) as [val|].
  - apply (leave_position true s rs _ (inl val)); try done. by apply frame_refl.
  - apply wp_bind, wp_attempt. eapply wp_mono; [apply (ok_map_err _ _ (ok_dispatch stmt) _ Hs1 Logic.I)|].
    intros [v|e| |] s2; simpl; try done; intros Hf.
    + by apply (leave_position true s rs _ (inl v)).
    + apply (leave_position false s rs _ (inr e)); eauto.
Qed.
End MethodFrames.

Lemma resolve_post `{Host} fuel stmt s : inv s -> wp (resolve fuel stmt) (rpost s) s.
Proof.
  revert stmt s. induction fuel as [|fuel IH]; intros stmt s Hs; [done|].
  simpl. apply resolve_body_post; [|done]. intros stmt' s' Hs' _.
  eapply wp_mono; [by apply IH|]. by intros o s'' [? _].
Qed.

Lemma resolve_ok `{Host} fuel stmt : ok (resolve fuel stmt).
Proof. intros s Hs _. eapply wp_mono; [by apply resolve_post|]. by intros o s'' [? _]. Qed.

(** ** Fuel

    More fuel never changes a result: where the interpreter does not run out of
    fuel it does the same with every larger amount.  The fuel of the model is
    therefore no parameter of the program's behaviour, only of how far it is
    followed. *)
Ltac mono_step :=
  lazymatch goal with
  | |- fuel_le ?m ?m => reflexivity
  | |- fuel_le (mbind _ _) (mbind _ _) => apply fuel_le_bind; [|intros]
  | |- fuel_le (map_err _ _) (map_err _ _) => apply fuel_le_map_err
  | |- fuel_le (attempt _) (attempt _) => apply fuel_le_attempt
  | |- fuel_le out_of_fuel _ => apply fuel_le_out
  | |- fuel_le (match ?x with _ => _ end) (match ?x with _ => _ end) => destruct x
  | |- _ => solve [eauto with lia]
  end.
Ltac mono := repeat mono_step.

Section Methods.
Context `{Host}.
Variables fuel fuel' : nat.
Hypothesis fuel_fuel' : fuel <= fuel'.
Variables rec rec' : Statement -> I NaslValue.t.
Hypothesis rec_rec' : forall stmt, fuel_le (rec stmt) (rec' stmt).

Lemma mono_operator c stmts : fuel_le (operator rec c stmts) (operator rec' c stmts).
Proof.
  assert (forall n stmt, fuel_le (repeat_resolve rec n stmt) (repeat_resolve rec' n stmt)).
  { intros n stmt. induction n; simpl; mono. }
  assert (forall f, fuel_le (execute rec stmts f) (execute rec' stmts f)).
  { intros f. unfold execute. mono. }
  unfold operator. mono.
Qed.

Lemma mono_for c u b : forall n n', n <= n' ->
  fuel_le (for_rounds rec n c u b) (for_rounds rec' n' c u b).
Proof.
  induction n as [|n IH]; intros n' Hn; [apply fuel_le_out|]. destruct n'; [lia|].
  simpl. mono.
Qed.

Lemma mono_while c b : forall n n', n <= n' ->
  fuel_le (while_rounds rec n c b) (while_rounds rec' n' c b).
Proof.
  induction n as [|n IH]; intros n' Hn; [apply fuel_le_out|]. destruct n'; [lia|].
  simpl. mono.
Qed.

Lemma mono_repeat b c : forall n n', n <= n' ->
  fuel_le (repeat_rounds rec n b c) (repeat_rounds rec' n' b c).
Proof.
  induction n as [|n IH]; intros n' Hn; [apply fuel_le_out|]. destruct n'; [lia|].
  simpl. mono.
Qed.

Lemma mono_for_each v i b : fuel_le (for_each_loop rec v i b) (for_each_loop rec' v i b).
Proof.
  assert (forall vs x, fuel_le (for_each_rounds rec vs x b) (for_each_rounds rec' vs x b)).
  { intros vs x. induction vs; simpl; mono. }
  unfold for_each_loop. mono.
Qed.

Lemma mono_call stmt args : fuel_le (call rec stmt args) (call rec' stmt args).
Proof.
  assert (forall named pos, fuel_le (call_arguments rec args named pos)
    (call_arguments rec' args named pos)).
  { induction args; intros; simpl; mono. }
  unfold call, user_result. mono.
Qed.

Lemma fuel_le_child r (m m' : I unit) :
  fuel_le m m' -> fuel_le (with_child r m) (with_child r m').
Proof.
  intros Hm s. unfold with_child.
  assert (@fuel_le Interpreter InterpretError Register (m;; get_register) (m';; get_register))
    as Hb by (by apply fuel_le_bind).
  destruct (Hb (new_interpreter r (world s))) as [E|E]; [left|right; by rewrite E].
  revert E. destruct ((m;; get_register) _) as [o i]. simpl. by intros ->.
Qed.

Lemma mono_include name : fuel_le (include rec name) (include rec' name).
Proof.
  assert (forall key stmts, fuel_le (execute_statements rec key stmts)
    (execute_statements rec' key stmts)).
  { intros key stmts. induction stmts; simpl; mono. }
  unfold include. mono. by apply fuel_le_child.
Qed.

Lemma mono_block stmts : fuel_le (resolve_block rec stmts) (resolve_block rec' stmts).
Proof.
  assert (fuel_le (block_statements rec stmts) (block_statements rec' stmts)).
  { induction stmts; simpl; mono. }
  unfold resolve_block. mono.
Qed.

Lemma mono_dispatch stmt : fuel_le (dispatch fuel rec stmt) (dispatch fuel' rec' stmt).
Proof.
  assert (forall x, fuel_le (resolve_all rec x) (resolve_all rec' x)).
  { intros x. induction x; simpl; mono. }
  unfold dispatch. destruct (Statement.kind stmt);
    try first [apply mono_include | apply mono_operator | apply mono_for_each
      | apply mono_call | apply mono_block];
    unfold for_loop, while_loop, repeat_loop, assign, resolve_array, resolve_exit,
      resolve_return, resolve_parameter, resolve_if;
    try first [by apply mono_while | by apply mono_repeat]; mono.
  by apply mono_for.
Qed.

Lemma mono_body stmt : fuel_le (resolve_body fuel rec stmt) (resolve_body fuel' rec' stmt).
Proof. unfold resolve_body. pose proof (mono_dispatch stmt). mono. Qed.
End Methods.

Section Run.
Context `{Host}.

Lemma mono_resolve : forall n n' stmt, n <= n' -> fuel_le (resolve n stmt) (resolve n' stmt).
Proof.
  induction n as [|n IH]; intros n' stmt Hn; [apply fuel_le_out|]. destruct n'; [lia|].
  simpl. apply mono_body; [lia|]. intros. apply IH. lia.
Qed.

Lemma mono_retry n n' stmt k : n <= n' ->
  fuel_le (retry_resolve n stmt k) (retry_resolve n' stmt k).
Proof.
  intros Hn. pose proof (mono_resolve n n' stmt Hn). induction k; simpl; mono.
Qed.

Lemma mono_run_item m m' : fuel_le m m' -> fuel_le (run_item m) (run_item m').
Proof.
  intros Hm c. unfold run_item. destruct (Hm (interpreter c)) as [E|E].
  - left. revert E. destruct (m (interpreter c)) as [o i]. simpl. by intros ->.
  - right. by rewrite E.
Qed.

Lemma mono_next_item n n' : n <= n' -> fuel_le (next_item n) (next_item n').
Proof.
  intros Hn.
  assert (forall stmt, fuel_le (run_item (retry_resolve n stmt 5))
    (run_item (retry_resolve n' stmt 5))).
  { intros stmt. by apply mono_run_item, mono_retry. }
  assert (forall stmt, fuel_le (run_item (retry_resolve_next n stmt 5))
    (run_item (retry_resolve_next n' stmt 5))).
  { intros stmt. apply mono_run_item. unfold retry_resolve_next. pose proof (mono_retry n n' stmt 5 Hn).
    mono. }
  assert (fuel_le (next_stmt n) (next_stmt n')) by (unfold next_stmt; mono).
  unfold next_item. mono.
Qed.

Lemma mono_stream : forall k k' n n', k <= k' -> n <= n' ->
  fuel_le (stream n k) (stream n' k').
Proof.
  induction k as [|k IH]; intros k' n n' Hk Hn; [apply fuel_le_out|]. destruct k'; [lia|].
  simpl. pose proof (mono_next_item n n' Hn).
  assert (fuel_le (stream n k) (stream n' k')) by (apply IH; lia). mono.
Qed.
End Run.

(** Whatever a script was seen to yield with some fuel, it yields with every
    larger amount; two sufficient amounts of fuel give the same items. *)
Theorem script_fuel_irrelevant `{Host} (fuel n fuel' n' : nat) (code : string)
  (r : Register) (w : World) items :
  fuel <= fuel' -> n <= n' ->
  run_script fuel n code r w = Ok items -> run_script fuel' n' code r w = Ok items.
Proof.
  unfold run_script. intros Hf Hn E.
  destruct (mono_stream n n' fuel fuel' Hn Hf (new_code code r w)) as [E'|E'];
    [congruence|]. by rewrite <- E'.
Qed.

Lemma script_fuel_irrelevant_witness :
  run_script (H := bare_host) 30 30 "a = 2; while (a < 5) a++; a;" Register.new tt
    = Ok [inl (NaslValue.Number 2); inl NaslValue.Null; inl (NaslValue.Number 5)].
Proof.
  apply (script_fuel_irrelevant (H := bare_host) 12 5); [lia|lia|]. vm_compute. reflexivity.
Defined.
