(* ===== verification/InterpreterTheorems.v ===== *)
(** * What the interpreter guarantees

    Scopes, isolation of calls, origins of errors, retries, forks, assignments and
    the operators that evaluate their operands. *)

From S2P Require Import Prelude RustStr Token Tokenizer Statement Lexer NaslValue Errors Register Executor Operator Interpreter InterpreterProps.
Local Open Scope nat_scope.

(** ** Scopes *)

(** C1: Resolving a statement keeps the interpreter well-formed: the current run
    stays the current run, every register stays well-formed, the scopes that were
    there keep their places and parents and those the statement cannot reach keep
    their bindings, the number of scopes is the same after a success (an error can
    leave scopes behind, never fewer), and the position moves by exactly one. *)
Theorem resolve_keeps_scopes `{Host} (fuel : nat) (stmt : Statement) (s : Interpreter)
  (rs : RunSpecific) :
  all_wf s -> current s rs ->
  match resolve fuel stmt s with
  | (Ok _, s') => all_wf s' /\ index s' = index s /\ exists rs', current s' rs'
      /\ ext true (register rs) (register rs')
      /\ position rs' = Position.alter_last S (position rs)
  | (Err _, s') => all_wf s' /\ index s' = index s /\ exists rs', current s' rs'
      /\ ext false (register rs) (register rs')
      /\ position rs' = Position.alter_last S (position rs)
  | _ => True
  end.
Proof.
  intros Ha Hc. assert (inv s) as Hs by (split; [done|by exists rs]).
  pose proof (resolve_post fuel stmt s Hs) as Hp. unfold wp in Hp.
  destruct (resolve fuel stmt s) as [[v|e| |] s']; simpl in *; try done;
    destruct Hp as [(Hi & _ & Ha' & rs0 & rs' & Hc0 & Hc' & He & _) Hp];
    pose proof (current_fun _ _ _ Hc0 Hc) as ->;
    (split_and!; [done|done|]); exists rs'; auto.
Qed.

(** [{ local_var x; x = 1; }] *)
Definition sample_statement : Statement :=
  default (Statement.without_token EoF)
    match parse (H := debug_build) "{ local_var x; x = 1; }" with
    | Ok (inl s :: _) => Some s
    | _ => None
    end.

Lemma resolve_keeps_scopes_witness : exists s',
  resolve (H := bare_host) 9 sample_statement (new_interpreter (H := bare_host) Register.new tt)
    = (Ok NaslValue.Null, s')
  /\ exists rs', current (H := bare_host) s' rs'
      /\ ext true Register.new (register rs') /\ position rs' = [1].
Proof.
  pose proof (resolve_keeps_scopes (H := bare_host) 9 sample_statement
    (new_interpreter (H := bare_host) Register.new tt) (mkRun Register.new [0] [])) as Hk.
  destruct (resolve (H := bare_host) 9 sample_statement
    (new_interpreter (H := bare_host) Register.new tt)) as [o s'] eqn:E.
  assert (o = Ok NaslValue.Null) as ->.
  { change ((o, s').1 = Ok NaslValue.Null). rewrite <- E. vm_compute. reflexivity. }
  exists s'. split; [reflexivity|].
  destruct Hk as (_ & _ & rs' & ? & ? & ?).
  - apply Forall_singleton. exact Register.wf_new.
  - reflexivity.
  - exists rs'. auto.
Defined.

(** ** Calls *)

Lemma reach_from_root bs i : (forall j d, bs !! j = Some d -> Register.wf_block j d) ->
  reach bs 0 i -> i = 0.
Proof.
  intros Hwf. inversion 1 as [|? c p ? Hc Hp Hr]; [done|].
  destruct (Hwf 0 c Hc) as [_ Hlt]. rewrite Hp in Hlt. lia.
Qed.

(** Under the scope of a call only the root's bindings can change. *)
Lemma ext_root_push r d r' i : Register.wf r -> ext true (Register.push r 0 d) r' -> 0 < i ->
  blocks (Register.drop_last r') !! i = blocks r !! i.
Proof.
  intros Hwf Hext Hi. pose proof (Register.wf_nonempty r Hwf) as Hpos.
  pose proof (ext_push_drop r 0 d r' Hwf (scope_root r Hwf) Hpos Hext) as (Hwf' & Hidx & Hbs).
  destruct (blocks r !! i) as [c|] eqn:Ec.
  - destruct (Hbs i c Ec) as (c' & Hc' & Hp & _). rewrite Hc'. f_equal.
    destruct Hext as (_ & _ & Hin). destruct (Hin i c) as (c'' & Hc'' & _ & Hd).
    { by apply push_lookup. }
    assert (c'' = c') as ->.
    { unfold Register.drop_last in Hc'. simpl in Hc'.
      apply lookup_take_Some in Hc' as [Hc' _]. congruence. }
    assert (id c' = i) as Hid' by (by destruct Hwf' as [_ Hw]; apply (Hw i c' Hc')).
    assert (id c = i) as Hid by (by destruct Hwf as [_ Hw]; apply (Hw i c Ec)).
    destruct c as [cp ci cd], c' as [cp' ci' cd']. simpl in *. f_equal; [done|congruence|].
    apply Hd. intros Hs. apply scope_push in Hs; [|done|done|by apply lookup_lt_Some in Ec].
    destruct Hwf as [_ Hw]. apply reach_from_root in Hs; [lia|done].
  - apply lookup_ge_None. apply lookup_ge_None in Ec. unfold Register.index in Hidx. lia.
Qed.

(** C2: A function call cannot touch the scopes of its caller.  After a call that
    returned, every scope but the root is exactly as it was when the arguments had
    been evaluated, and the scope of the call is gone. *)
Theorem call_isolates_caller `{Host} (fuel : nat) (stmt : Statement) (args : list Statement)
  (s s' : Interpreter) (v : NaslValue.t) :
  inv s -> call (resolve fuel) stmt args s = (Ok v, s') ->
  exists s1 passed rs1 rs',
    call_arguments (resolve fuel) args ∅ [] s = (Ok passed, s1)
    /\ current s1 rs1 /\ current s' rs'
    /\ Register.index (register rs') = Register.index (register rs1)
    /\ forall i, 0 < i -> blocks (register rs') !! i = blocks (register rs1) !! i.
Proof.
  intros Hs E. unfold call in E.
  destruct (identifier (Statement.as_token stmt) s) as [[name|e| |] s0] eqn:En;
    unfold mbind at 1, M_bind at 1 in E; rewrite En in E; simplify_eq.
  assert (s0 = s) as -> by (by pose proof (still_identifier (Statement.as_token stmt) s) as <-; rewrite En).
  pose proof (ok_call_arguments (resolve fuel) (resolve_ok fuel) args ∅ [] s Hs Logic.I) as Hargs.
  unfold wp in Hargs.
  destruct (call_arguments (resolve fuel) args ∅ [] s) as [[[named pos]|e| |] s1] eqn:Ea;
    unfold mbind at 1, M_bind at 1 in E; rewrite Ea in E; simplify_eq. simpl in Hargs.
  pose proof (frame_inv _ _ _ Hargs) as Hs1. pose proof Hs1 as [Ha1 [rs1 Hc1]].
  pose proof (current_wf _ _ Ha1 Hc1) as Hwf1.
  pose proof (scoped_register (fun r => Register.create_root_child r
      (<[FC_ANON_ARGS := Value (NaslValue.Array pos)]> named)) _ of_result s1 rs1 Hs1 Hc1
    (Register.wf_create_root_child _ _ Hwf1)
    (ok_callee (resolve fuel) (resolve_ok fuel) stmt name) (fun a => still_of_result a)) as Hsc.
  destruct (wp_elim _ _ _ _ _ Hsc E) as (rs' & r2 & Hc' & Hext & Hreg).
  exists s1, (named, pos), rs1, rs'. rewrite Hreg. split_and!; [done|done|done| |].
  - by eapply ext_push_drop; [exact Hwf1|by apply scope_root|by apply Register.wf_nonempty|].
  - intros i Hi. by eapply ext_root_push.
Qed.

Definition sample_of (code : string) : Statement :=
  default (Statement.without_token EoF)
    match parse (H := debug_build) code with Ok (inl s :: _) => Some s | _ => None end.

(** A caller with a local [x] of its own, and a function that assigns [x]. *)
Definition sample_caller : Register :=
  Register.add_local
    (Register.create_child
       (Register.root_initial [("f", Function [] (sample_of "{ x = 5; return 7; }"))]) ∅)
    "x" (Value (NaslValue.Number 1)).

Lemma call_isolates_caller_witness : exists s' rs',
  call (H := bare_host) (resolve 9) (sample_of "f();") []
    (new_interpreter (H := bare_host) sample_caller tt) = (Ok (NaslValue.Number 7), s')
  /\ current (H := bare_host) s' rs'
  /\ blocks (register rs') !! 1 = blocks sample_caller !! 1.
Proof.
  destruct (call (H := bare_host) (resolve 9) (sample_of "f();") []
    (new_interpreter (H := bare_host) sample_caller tt)) as [o s'] eqn:E.
  assert (o = Ok (NaslValue.Number 7)) as ->.
  { change ((o, s').1 = Ok (NaslValue.Number 7)). rewrite <- E. vm_compute. reflexivity. }
  destruct (call_isolates_caller (H := bare_host) 9 (sample_of "f();") []
    (new_interpreter (H := bare_host) sample_caller tt) s' (NaslValue.Number 7))
    as (s1 & passed & rs1 & rs' & Ea & Hc1 & Hc' & _ & Hb).
  - apply new_inv, Register.wf_add_local, Register.wf_create_child, Register.wf_root_initial.
  - exact E.
  - exists s', rs'. split; [reflexivity|]. split; [exact Hc'|]. rewrite (Hb 1) by lia.
    injection Ea as _ <-. injection Hc1 as <-. reflexivity.
Defined.

(** ** Errors *)

Lemma modify_position_no_error `{Host} f s e s' : modify_position f s <> (Err e, s').
Proof.
  unfold modify_position, run, mbind, M_bind, get. simpl.
  by destruct (run_specific s !! index s).
Qed.

Lemma with_origin_some stmt e : is_Some (ie_origin (InterpretError.with_origin stmt e)).
Proof. unfold InterpretError.with_origin. destruct (ie_origin e) eqn:E; [by rewrite E|by eexists]. Qed.

(** An error that [resolve] returns always names the statement it comes from. *)
Theorem resolve_error_has_origin `{Host} (fuel : nat) (stmt : Statement)
  (s s' : Interpreter) (e : InterpretError) :
  resolve fuel stmt s = (Err e, s') -> exists origin, ie_origin e = Some origin.
Proof.
  destruct fuel as [|fuel]; [done|]. simpl. unfold resolve_body, mbind, M_bind.
  destruct (modify_position Position.up s) as [[[]|e0| |] s1] eqn:E1; try done.
  2: { by destruct (modify_position_no_error _ _ _ _ E1). }
  unfold may_return_value, run, mbind, M_bind, get. simpl.
  destruct (run_specific s1 !! index s1) as [rs|]; [|done]. simpl.
  destruct (skipped _ _) as [v|].
  - destruct (modify_position Position.down s1) as [[[]|e2| |] s2] eqn:E2; try done.
    intros [= -> ->]. by destruct (modify_position_no_error _ _ _ _ E2).
  - unfold attempt, map_err. destruct (dispatch _ _ _ s1) as [[v|e2| |] s2]; try done;
      destruct (modify_position Position.down s2) as [[[]|e3| |] s3] eqn:E3; try done;
      try (intros [= -> ->]; by destruct (modify_position_no_error _ _ _ _ E3)).
    intros [= <- <-]. apply with_origin_some.
Qed.

Lemma resolve_error_has_origin_witness : exists e s',
  resolve (H := bare_host) 5 (sample_of "f();") (new_interpreter (H := bare_host) Register.new tt)
    = (Err e, s')
  /\ exists origin, ie_origin e = Some origin.
Proof.
  destruct (resolve (H := bare_host) 5 (sample_of "f();")
    (new_interpreter (H := bare_host) Register.new tt)) as [[v|e| |] s'] eqn:E.
  2: { exists e, s'. split; [reflexivity|].
       exact (resolve_error_has_origin (H := bare_host) 5 _ _ s' e E). }
  all: exfalso; apply (f_equal fst) in E; vm_compute in E; discriminate E.
Defined.

(** ** Retries *)

Definition reset_index `{Host} (s : Interpreter) : Interpreter :=
  mkInterpreter (run_specific s) 0 (world s).

(** [failed k s s']: [k] attempts in a row fail with an error worth retrying; the
    next one starts in [s']. *)
Inductive failed `{Host} (fuel : nat) (stmt : Statement) :
  nat -> Interpreter -> Interpreter -> Prop :=
| failed_0 s : failed fuel stmt 0 s s
| failed_S k s e s1 s2 :
    resolve fuel stmt s = (Err e, s1) -> InterpretError.retryable e = true ->
    failed fuel stmt k (reset_index s1) s2 -> failed fuel stmt (S k) s s2.

(** [retry_resolve] with [n] retries runs the statement at most [n + 1] times: it
    returns what the first attempt returns that is not a retryable error, or the
    last attempt when there were [n] retryable errors before it.  Every further
    attempt runs against the first run, whichever run failed. *)
Theorem retry_is_bounded `{Host} (fuel : nat) (stmt : Statement) (n : nat) (s : Interpreter) :
  exists k s', k <= n /\ failed fuel stmt k s s'
    /\ retry_resolve fuel stmt n s = resolve fuel stmt s'
    /\ (k < n -> forall e s'', resolve fuel stmt s' = (Err e, s'') ->
          InterpretError.retryable e = false).
Proof.
  revert s. induction n as [|n IH]; intros s.
  - exists 0, s. split_and!; [lia|constructor| |lia]. simpl. unfold attempt, mbind, M_bind.
    by destruct (resolve fuel stmt s) as [[] s'].
  - simpl. unfold attempt, mbind, M_bind.
    destruct (resolve fuel stmt s) as [[v|e| |] s1] eqn:E.
    2: destruct (InterpretError.retryable e) eqn:Er.
    2: { destruct (IH (reset_index s1)) as (k & s' & Hk & Hf & Heq & Hlast).
         exists (S k), s'. split_and!; [lia|by econstructor|exact Heq|].
         intros Hlt. apply Hlast. lia. }
    all: exists 0, s; (split_and!; [lia|constructor|by rewrite E|]);
      intros _ e' s''; rewrite E; congruence.
Qed.

(** ** Forks *)

Lemma skipped_own p v l :
  Forall (fun pv => Position.root_index pv.1 <= Position.root_index p) l ->
  skipped p (filter (fun pv => pv.1 <> p) l ++ [(p, v)]) = Some v.
Proof.
  intros Hl. induction Hl as [|[q w] l Hq _ IH]; simpl.
  - by rewrite Nat.ltb_irrefl, decide_True.
  - rewrite filter_cons. case_decide as Hne; [|done]. simpl in *.
    rewrite (proj2 (Nat.ltb_ge _ _)) by done. by rewrite decide_False.
Qed.

(** Forking the runs over [n] values: the run in place keeps its register and position and
    records the first value for the position [reduce_last pos]; for every further value and
    every run there is a copy with the same register that starts again at the root statement
    of that position.  If no value is recorded for a later root statement, the copy finds
    its own value at that position. *)
Theorem fork_multiplies_runs (pos : Position.t) (v : NaslValue.t) (rest : list NaslValue.t)
  (runs : list RunSpecific) :
  length (fork_runs pos v rest runs) = length runs * S (length rest)
  /\ forall i rs, runs !! i = Some rs ->
       (exists rs', fork_runs pos v rest runs !! i = Some rs'
          /\ register rs' = register rs /\ position rs' = position rs
          /\ skip_until_return rs' = skip_until_return rs ++ [(Position.reduce_last pos, v)])
       /\ forall j w, rest !! j = Some w ->
            exists rs', fork_runs pos v rest runs !! (length runs * S j + i) = Some rs'
              /\ register rs' = register rs
              /\ position rs' = [Position.root_index (Position.reduce_last pos)]
              /\ (Forall (fun pv => Position.root_index pv.1
                       <= Position.root_index (Position.reduce_last pos)) (skip_until_return rs) ->
                  skipped (Position.reduce_last pos) (skip_until_return rs') = Some w).
Proof.
  set (p := Position.reduce_last pos).
  set (runs' := map (fun rs => mkRun (register rs) (position rs)
    (skip_until_return rs ++ [(p, v)])) runs).
  assert (length runs' = length runs) as Hl by apply length_map.
  assert (fork_runs pos v rest runs = runs' ++ (rest ≫= fun w => map (fork_copy p w) runs')) as ->
    by done.
  assert (length (rest ≫= fun w => map (fork_copy p w) runs') = length runs * length rest) as Hr.
  { clear -Hl. induction rest as [|w rest IH]; [simpl; lia|].
    rewrite bind_cons, length_app, length_map, IH, Hl. simpl. lia. }
  split; [rewrite length_app, Hr, Hl; lia|]. intros i rs Hi.
  assert (runs' !! i = Some (mkRun (register rs) (position rs) (skip_until_return rs ++ [(p, v)])))
    as Hi' by (unfold runs'; by rewrite list_lookup_fmap, Hi).
  split; [eexists; split; [by apply lookup_app_l_Some|done]|].
  intros j w Hj. exists (fork_copy p w
    (mkRun (register rs) (position rs) (skip_until_return rs ++ [(p, v)]))).
  split_and!; [|done|done|].
  - rewrite lookup_app_r by (rewrite Hl; lia).
    replace (length runs * S j + i - length runs') with (length runs' * j + i) by lia.
    clear Hr. revert j Hj. induction rest as [|w' rest IH]; intros j Hj; [done|].
    rewrite bind_cons. destruct j as [|j]; simpl in Hj; simplify_eq.
    + rewrite Nat.mul_0_r. simpl. apply lookup_app_l_Some. by rewrite list_lookup_fmap, Hi'.
    + rewrite lookup_app_r; rewrite length_map; [|lia].
      replace (length runs' * S j + i - length runs') with (length runs' * j + i) by lia.
      by apply IH.
  - intros Hf. simpl. rewrite filter_app. rewrite filter_cons_False by (simpl; tauto).
    rewrite filter_nil, app_nil_r. by apply skipped_own.
Qed.

(** ** Assignments *)

(** The value an assignment starts from; [None] when the name is a function. *)
Definition old_value (o : option (nat * ContextType)) : option NaslValue.t :=
  match o with
  | None => Some NaslValue.Null
  | Some (_, Value v) => Some v
  | Some (_, Function _ _) => None
  end.

Section Assignments.
Context `{Host}.

Lemma named_value_eq key s rs o v : current s rs ->
  Register.index_named (register rs) key = Ok o -> old_value o = Some v ->
  named_value key s = (Ok (Register.target o, v), s).
Proof.
  intros Hc Ho Hv. unfold named_value, get_register, run, get, mbind, M_bind, of_total.
  simpl. rewrite Hc. simpl. rewrite Ho.
  destruct o as [[j [ps b|w]]|]; simpl in *; by simplify_eq.
Qed.

Lemma save_eq i key v s rs r' : current s rs ->
  Register.add_to_index (register rs) i key (Value v) = Some r' ->
  save i key v s = (Ok tt, with_run s (mkRun r' (position rs) (skip_until_return rs))).
Proof.
  intros Hc Hr. unfold save, update_register, set_register, get_register, run, get, mbind, M_bind.
  simpl. rewrite Hc. simpl. rewrite Hr. simpl. unfold set_run, modify. by rewrite Hc.
Qed.

(** A write through [named_value] and [save], and what the register says then. *)
Lemma write_eq {A} key s rs o old new (a : A) :
  all_wf s -> current s rs -> Register.index_named (register rs) key = Ok o ->
  old_value o = Some old ->
  exists s' rs', (save (Register.target o) key new;; mret a) s = (Ok a, s')
    /\ current s' rs' /\ Register.named (register rs') key = Ok (Some (Value new))
    /\ forall y, key <> y ->
         Register.index_named (register rs') y = Register.index_named (register rs) y.
Proof.
  intros Ha Hc Ho Hv.
  destruct (Register.assign_lookup (register rs) key (Value new) o (current_wf _ _ Ha Hc) Ho)
    as (r' & Hr' & _ & _ & Hn & Hoth).
  eexists _, (mkRun r' (position rs) (skip_until_return rs)). split_and!.
  - unfold mbind at 1, M_bind at 1. by rewrite (save_eq _ _ _ _ _ _ Hc Hr').
  - by eapply current_with_run.
  - done.
  - done.
Qed.
End Assignments.

(** [x = e]: when [e] has a value and [x] is not a function, the assignment
    returns this value, [x] has it from then on and every other name is found
    where it was. *)
Theorem assign_then_read `{Host} (fuel : nat) (order : AssignOrder.t) (l r : Statement)
  (x : string) (s s1 : Interpreter) (rs1 : RunSpecific) (v old : NaslValue.t)
  (o : option (nat * ContextType)) :
  inv s -> Statement.kind l = Variable_ ->
  category (Statement.as_token l) = Category.Identifier (IdentifierType.Undefined x) ->
  resolve fuel r s = (Ok v, s1) -> current s1 rs1 ->
  Register.index_named (register rs1) x = Ok o -> old_value o = Some old ->
  exists s2 rs2, assign (resolve fuel) Category.Equal order l r s = (Ok v, s2)
    /\ current s2 rs2 /\ Register.named (register rs2) x = Ok (Some (Value v))
    /\ forall y, x <> y ->
         Register.index_named (register rs2) y = Register.index_named (register rs1) y.
Proof.
  intros Hs Hk Hcat Hr Hc Ho Hold.
  assert (all_wf s1) as Ha.
  { pose proof (resolve_ok fuel r s Hs Logic.I) as Hp. unfold wp in Hp. rewrite Hr in Hp.
    by apply frame_inv in Hp as [? _]. }
  destruct (write_eq x s1 rs1 o old v v Ha Hc Ho Hold) as (s2 & rs2 & E & ?).
  exists s2, rs2. split; [|done].
  unfold assign. rewrite Hk. unfold mbind, M_bind, identifier at 1. rewrite Hcat. simpl.
  rewrite Hr. unfold store, dynamic_return. simpl. unfold mbind, M_bind.
  rewrite (named_value_eq _ _ _ _ _ Hc Ho Hold). exact E.
Qed.

Lemma assign_then_read_witness : exists s2 rs2,
  assign (H := bare_host) (resolve 5) Category.Equal AssignOrder.AssignReturn
    (sample_of "x;") (sample_of "3;") (new_interpreter (H := bare_host) sample_caller tt)
    = (Ok (NaslValue.Number 3), s2)
  /\ current (H := bare_host) s2 rs2
  /\ Register.named (register rs2) "x" = Ok (Some (Value (NaslValue.Number 3))).
Proof.
  destruct (assign_then_read (H := bare_host) 5 AssignOrder.AssignReturn
    (sample_of "x;") (sample_of "3;") "x"
    (new_interpreter (H := bare_host) sample_caller tt)
    (mkInterpreter (H := bare_host) [mkRun sample_caller [1] []] 0 tt)
    (mkRun sample_caller [1] []) (NaslValue.Number 3) (NaslValue.Number 1)
    (Some (1, Value (NaslValue.Number 1)))) as (s2 & rs2 & ? & ? & ? & _).
  - apply new_inv, Register.wf_add_local, Register.wf_create_child, Register.wf_root_initial.
  - reflexivity.
  - reflexivity.
  - reflexivity.
  - reflexivity.
  - reflexivity.
  - reflexivity.
  - exists s2, rs2. auto.
Defined.

(** [x["k"] = e]: whatever [x] was, it is a dictionary afterwards, with the new
    value under [k] and, under every other key, what [x] had there: the entries
    of a dictionary, the elements of an array by their decimal index, a single
    other value under ["0"]. *)
Theorem dict_element_assign `{Host} (key k : string) (s : Interpreter) (rs : RunSpecific)
  (o : option (nat * ContextType)) (old v : NaslValue.t) :
  all_wf s -> current s rs -> Register.index_named (register rs) key = Ok o ->
  old_value o = Some old ->
  exists s' rs' d, store Category.Equal AssignOrder.AssignReturn key (Some (NaslValue.String k)) v s
      = (Ok v, s')
    /\ current s' rs' /\ Register.named (register rs') key = Ok (Some (Value (NaslValue.Dict d)))
    /\ d !! k = Some v
    /\ forall k', k <> k' -> match old with
         | NaslValue.Dict m => d !! k' = m !! k'
         | NaslValue.Null => d !! k' = None
         | NaslValue.Array a => forall i, k' = pretty i -> d !! k' = a !! i
         | w => d !! k' = if decide (k' = "0") then Some w else None
         end.
Proof.
  intros Ha Hc Ho Hold.
  set (d := <[k := v]> (prepare_dict old)).
  destruct (write_eq key s rs o old (NaslValue.Dict d) v Ha Hc Ho Hold) as (s' & rs' & E & Hc' & Hn & _).
  exists s', rs', d. split_and!; [|done|done|unfold d; by rewrite lookup_insert_eq|].
  - unfold store, dynamic_return. simpl. unfold mbind, M_bind.
    rewrite (named_value_eq _ _ _ _ _ Hc Ho Hold). exact E.
  - intros k' Hk. unfold d. rewrite lookup_insert_ne by done.
    destruct old; simpl; try done;
      try (case_decide as Hz; [subst; by rewrite lookup_singleton_eq|by rewrite lookup_singleton_ne]).
    intros i ->. apply prepare_dict_array.
Qed.

Lemma dict_element_assign_witness : exists s' rs' d,
  store (H := bare_host) Category.Equal AssignOrder.AssignReturn "x" (Some (NaslValue.String "k"))
    (NaslValue.Number 9) (new_interpreter (H := bare_host) sample_caller tt)
    = (Ok (NaslValue.Number 9), s')
  /\ current (H := bare_host) s' rs'
  /\ Register.named (register rs') "x" = Ok (Some (Value (NaslValue.Dict d)))
  /\ d !! "k" = Some (NaslValue.Number 9) /\ d !! "0" = Some (NaslValue.Number 1).
Proof.
  destruct (dict_element_assign (H := bare_host) "x" "k"
    (new_interpreter (H := bare_host) sample_caller tt) (mkRun sample_caller [0] [])
    (Some (1, Value (NaslValue.Number 1))) (NaslValue.Number 1) (NaslValue.Number 9))
    as (s' & rs' & d & E & Hc & Hn & Hk & Hoth).
  - apply new_inv, Register.wf_add_local, Register.wf_create_child, Register.wf_root_initial.
  - reflexivity.
  - reflexivity.
  - reflexivity.
  - exists s', rs', d. split_and!; [exact E|exact Hc|exact Hn|exact Hk|].
    rewrite (Hoth "0"); [reflexivity|discriminate].
Defined.

(** [x[i] = e] for a number [i] that is not negative and an [x] that is not a
    dictionary: [x] is an array afterwards that has the new value at [i], keeps
    its other elements (a single value counts as the array of it) and is filled up
    with [NULL]. *)
Theorem array_element_assign `{Host} (key : string) (i : Z) (s : Interpreter) (rs : RunSpecific)
  (o : option (nat * ContextType)) (old v : NaslValue.t) (elems : list NaslValue.t) :
  all_wf s -> current s rs -> Register.index_named (register rs) key = Ok o ->
  old_value o = Some old -> (0 <= i <= i64_max)%Z ->
  match old with
  | NaslValue.Dict _ => False
  | NaslValue.Array a => elems = a
  | w => elems = [w]
  end ->
  exists s' rs' a, store Category.Equal AssignOrder.AssignReturn key (Some (NaslValue.Number i)) v s
      = (Ok v, s')
    /\ current s' rs' /\ Register.named (register rs') key = Ok (Some (Value (NaslValue.Array a)))
    /\ length a = max (length elems) (S (Z.to_nat i))
    /\ a !! Z.to_nat i = Some v
    /\ forall j, j <> Z.to_nat i -> j < length a -> a !! j = Some (default NaslValue.Null (elems !! j)).
Proof.
  intros Ha Hc Ho Hold Hi Hel. unfold i64_max in Hi.
  set (arr := elems ++ replicate (S (Z.to_nat i) - length elems) NaslValue.Null).
  assert (prepare_array (NaslValue.Number i) old = Some (i, arr)) as Hprep.
  { assert (wrap_u 64 i = i) as Hw by (unfold wrap_u; apply Z.mod_small; lia).
    unfold prepare_array. simpl. rewrite Hw. unfold arith_u.
    assert (in_u 64 (i + 1) = true) as -> by (apply in_u_spec; lia). simpl.
    do 2 f_equal. unfold arr.
    assert (match old with NaslValue.Array x => x | _ => [old] end = elems) as ->
      by (destruct old; done).
    do 2 f_equal. lia. }
  assert (length arr = max (length elems) (S (Z.to_nat i))) as Hlen
    by (unfold arr; rewrite length_app, length_replicate; lia).
  assert (is_Some (arr !! Z.to_nat i)) as [orig Horig] by (apply lookup_lt_is_Some; lia).
  destruct (write_eq key s rs o old (NaslValue.Array (<[Z.to_nat i := v]> arr)) v Ha Hc Ho Hold)
    as (s' & rs' & E & Hc' & Hn & _).
  exists s', rs', (<[Z.to_nat i := v]> arr). split_and!; [|done|done| | |].
  - unfold store, dynamic_return. simpl. unfold mbind, M_bind.
    rewrite (named_value_eq _ _ _ _ _ Hc Ho Hold).
    assert (forall m m' : I NaslValue.t, (match old with NaslValue.Dict _ => m | _ => m' end) = m')
      as -> by (intros; by destruct old).
    unfold handle_array. rewrite Hprep. unfold mbind, M_bind. simpl. rewrite Horig. exact E.
  - by rewrite length_insert.
  - apply list_lookup_insert_eq. lia.
  - intros j Hj Hlt. rewrite length_insert in Hlt. rewrite list_lookup_insert_ne by done.
    unfold arr. destruct (decide (j < length elems)) as [Hin|Hout].
    + rewrite lookup_app_l by done. by destruct (lookup_lt_is_Some_2 elems j Hin) as [w ->].
    + rewrite lookup_app_r by lia. rewrite (proj2 (lookup_ge_None elems j)) by lia. simpl.
      apply lookup_replicate_2. lia.
Qed.

Lemma array_element_assign_witness : exists s' rs' a,
  store (H := bare_host) Category.Equal AssignOrder.AssignReturn "x" (Some (NaslValue.Number 2))
    (NaslValue.Number 9) (new_interpreter (H := bare_host) sample_caller tt)
    = (Ok (NaslValue.Number 9), s')
  /\ current (H := bare_host) s' rs'
  /\ Register.named (register rs') "x" = Ok (Some (Value (NaslValue.Array a)))
  /\ length a = 3 /\ a !! 2 = Some (NaslValue.Number 9) /\ a !! 1 = Some NaslValue.Null.
Proof.
  destruct (array_element_assign (H := bare_host) "x" 2
    (new_interpreter (H := bare_host) sample_caller tt) (mkRun sample_caller [0] [])
    (Some (1, Value (NaslValue.Number 1))) (NaslValue.Number 1) (NaslValue.Number 9)
    [NaslValue.Number 1]) as (s' & rs' & a & E & Hc & Hn & Hl & Hv & Hoth).
  - apply new_inv, Register.wf_add_local, Register.wf_create_child, Register.wf_root_initial.
  - reflexivity.
  - reflexivity.
  - reflexivity.
  - unfold i64_max. lia.
  - reflexivity.
  - exists s', rs', a. split_and!; [exact E|exact Hc|exact Hn|exact Hl|exact Hv|].
    apply (Hoth 1); [done|]. rewrite Hl. simpl. lia.
Defined.

(** ** Operators that evaluate *)

(** [body x n] for [n >= 2] runs [body] [n - 1] times: [n - 2] times for its effect
    and once for its value. *)
Theorem repeat_operator_count `{Host} (rec : Statement -> I NaslValue.t) (body count : Statement)
  (s s' : Interpreter) (n : Z) :
  rec count s = (Ok (NaslValue.Number n), s') -> (2 <= n <= i64_max)%Z ->
  operator rec Category.X [body; count] s
    = (repeat_resolve rec (Z.to_nat n - 2) body;; rec body) s'.
Proof.
  intros Hc Hn. unfold i64_max in Hn. unfold operator. simpl. unfold mbind at 1, M_bind at 1.
  simpl. unfold mbind at 1, M_bind at 1. rewrite Hc. cbn [NaslValue.to_i64].
  destruct (Z.eqb_spec n 0) as [->|_]; [lia|].
  unfold mbind at 1, M_bind at 1. simpl.
  assert (arith_i 64 (n - 1) = Some (n - 1)%Z) as ->.
  { unfold arith_i. assert (in_i 64 (n - 1) = true) as -> by (apply in_i_spec; simpl; lia). done. }
  unfold mbind at 1, M_bind at 1. simpl. do 2 f_equal. lia.
Qed.

Lemma repeat_operator_count_witness :
  run_script (H := bare_host) 9 9 "i = 0; i++ x 5; i;" Register.new tt
    = Ok [inl (NaslValue.Number 0); inl (NaslValue.Number 3); inl (NaslValue.Number 4)]
  /\ forall rec body count s s',
       rec count s = (Ok (NaslValue.Number 5), s') ->
       operator (H := bare_host) rec Category.X [body; count] s
         = (repeat_resolve rec 3 body;; rec body) s'.
Proof.
  split; [vm_compute; reflexivity|]. intros rec body count s s' E.
  exact (repeat_operator_count (H := bare_host) rec body count s s' 5 E ltac:(vm_compute; done)).
Defined.

(** [&&] and [||] always evaluate both operands: an error or an effect of the
    right one happens whatever the left one is. *)
Theorem logical_operators_are_strict `{Host} (rec : Statement -> I NaslValue.t)
  (c : Category.t) (l r : Statement) (s s1 s2 : Interpreter) (a : NaslValue.t)
  (o : outcome InterpretError NaslValue.t) :
  c = Category.AmpersandAmpersand \/ c = Category.PipePipe ->
  rec l s = (Ok a, s1) -> rec r s1 = (o, s2) ->
  exists o', operator rec c [l; r] s = (o', s2)
    /\ match o with
       | Ok b => o' = Ok (NaslValue.Boolean
           (match c with
            | Category.PipePipe => NaslValue.to_bool a || NaslValue.to_bool b
            | _ => NaslValue.to_bool a && NaslValue.to_bool b
            end))
       | other => o' = other
       end.
Proof.
  intros Hc Hl Hr. unfold operator, execute, mbind, M_bind.
  destruct Hc as [->| ->]; simpl; rewrite Hl, Hr; destruct o; eexists; split; reflexivity.
Qed.

Lemma logical_operators_are_strict_witness : exists o',
  operator (H := bare_host) (resolve 9) Category.AmpersandAmpersand
    [sample_of "FALSE;"; sample_of "x = 2;"]
    (new_interpreter (H := bare_host) Register.new tt) = (o', mkInterpreter (H := bare_host)
      [mkRun (mkRegister [mkContext None 0 {["x" := Value (NaslValue.Number 2)]}]) [2] []] 0 tt)
  /\ o' = Ok (NaslValue.Boolean false).
Proof.
  exact (logical_operators_are_strict (H := bare_host) (resolve 9) Category.AmpersandAmpersand
    (sample_of "FALSE;") (sample_of "x = 2;") (new_interpreter (H := bare_host) Register.new tt)
    (mkInterpreter (H := bare_host) [mkRun Register.new [1] []] 0 tt)
    (mkInterpreter (H := bare_host)
      [mkRun (mkRegister [mkContext None 0 {["x" := Value (NaslValue.Number 2)]}]) [2] []] 0 tt)
    (NaslValue.Boolean false) (Ok (NaslValue.Number 2)) (or_introl eq_refl) eq_refl eq_refl).
Defined.
