(* ===== verification/FnArgs.v ===== *)
(** * Arguments and results of builtin functions

    [nasl/utils/function]: the conversions between NASL values and the types of the
    parameters and results of builtin functions, the access to arguments in the register,
    and the checks that the procedural macro [nasl_function] puts before a body
    ([crates/nasl-function-proc-macro/src/codegen.rs]). *)

From S2P Require Import Prelude RustStr Token Statement NaslValue Errors Register Executor.
Local Open Scope string_scope.

(** The result of code that may fail or panic but has no state of its own. *)
Abbreviation B := (outcome FnError).

(** [ArgumentError::WrongArgument(..).into()] *)
Definition wrong {A} (s : string) : B A := Err (FnError.from_argument (ArgumentError.WrongArgument s)).

(** Code without errors. *)
Definition total {A} (o : outcome Empty_set A) : B A :=
  match o with
  | Ok a => Ok a
  | Err e => match e with end
  | Panic => Panic
  | OutOfFuel => OutOfFuel
  end.

(** ** from_nasl_value.rs, maybe.rs, types.rs

    A conversion is passed to the functions that get an argument, as the type is in the
    source. *)
Section Conversions.
Context `{HashOrder}.
Abbreviation Conv T := (NaslValue.t -> B T).

Definition from_value : Conv NaslValue.t := fun v => Ok v.

Definition from_string : Conv string := fun v =>
  match v with NaslValue.String s => Ok s | _ => wrong "Expected string." end.

Definition from_bytes : Conv (list byte) := fun v =>
  match v with NaslValue.Data b => Ok b | _ => wrong "Expected byte data." end.

Definition from_path : Conv string := fun v =>
  match v with NaslValue.String s => Ok s | _ => wrong "Expected a string specifying a path." end.

(** [collect::<Result<Vec<T>, _>>()] *)
Fixpoint collect_values {T} (conv : Conv T) (l : list NaslValue.t) : B (list T) :=
  match l with
  | [] => Ok []
  | v :: l' => x ← conv v; xs ← collect_values conv l'; Ok (x :: xs)
  end.

Definition from_vec {T} (conv : Conv T) : Conv (list T) := fun v =>
  match v with NaslValue.Array vals => collect_values conv vals | _ => wrong "Expected an array.." end.

Definition from_map {T} (conv : Conv T) : Conv (gmap string T) := fun v =>
  match v with
  | NaslValue.Dict m =>
      l ← (fix go l := match l with
           | [] => Ok []
           | (k, v) :: l' => x ← conv v; xs ← go l'; Ok ((k, x) :: xs)
           end) (iter m);
      Ok (collect_map l)
  | _ => wrong "Expected a dictionary."
  end.

Definition from_bool : Conv bool := fun v =>
  match v with
  | NaslValue.Boolean b => Ok b
  | NaslValue.Number n => Ok (negb (n =? 0)%Z)
  | _ => wrong "Expected bool."
  end.

(** The numeric types: the number is in the range of the type. *)
Definition from_number (fits : Z -> bool) : Conv Z := fun v =>
  match v with
  | NaslValue.Number num => if fits num then Ok num else wrong "Expected positive number."
  | e => wrong ("Expected a number, found '" ++ NaslValue.to_string e ++ "'.")
  end.

Definition from_u8 : Conv Z := from_number (in_u 8).
Definition from_u16 : Conv Z := from_number (in_u 16).
Definition from_u32 : Conv Z := from_number (in_u 32).
Definition from_u64 : Conv Z := from_number (in_u 64).
Definition from_i32 : Conv Z := from_number (in_i 32).
Definition from_i64 : Conv Z := from_number (in_i 64).

(** [usize] has 64 bits; its values index strings and vectors. *)
Definition from_usize : Conv nat := fun v => n ← from_number (in_u 64) v; Ok (Z.to_nat n).

Definition bytes_to_str (bytes : list byte) : string := string_of (map byte_as_char bytes).

Definition from_string_or_data : Conv string := fun v =>
  match v with
  | NaslValue.String s => Ok s
  | NaslValue.Data buffer => Ok (bytes_to_str buffer)
  | _ => wrong "Expected string or byte buffer."
  end.

(** [Maybe<T>]: a value of another type is ignored. *)
Definition from_maybe {T} (conv : Conv T) : Conv (option T) := fun v =>
  match conv v with
  | Ok x => Ok (Some x)
  | Err _ => Ok None
  | Panic => Panic
  | OutOfFuel => OutOfFuel
  end.

(** [Option<Maybe<T>>] as the bodies use it: [s.and_then(Maybe::as_option)]. *)
Definition as_option {T} (s : option (option T)) : option T := mjoin s.
End Conversions.

(** ** utils.rs: getting an argument *)
Section Arguments.
Context `{HashOrder}.
Abbreviation Conv T := (NaslValue.t -> B T).

(** [Option<Result<T, E>>::transpose] *)
Definition transpose {T} (o : option (B T)) : B (option T) :=
  match o with Some m => x ← m; Ok (Some x) | None => Ok None end.

Definition get_optional_positional_arg {T} (conv : Conv T) (r : Register) (position : nat) :
  B (option T) :=
  l ← total (Register.positional r);
  transpose (conv <$> l !! position).

Definition get_positional_arg {T} (conv : Conv T) (r : Register) (position num_required : nat) : B T :=
  l ← total (Register.positional r);
  match l !! position with
  | Some arg => conv arg
  | None => Err (FnError.from_argument (ArgumentError.MissingPositionals num_required (length l)))
  end.

Definition context_type_as_nasl_value (c : ContextType) (arg_name : string) : B NaslValue.t :=
  match c with
  | Function _ _ =>
      wrong ("Wrong argument for " ++ arg_name ++ ", expected a value, found a function.")
  | Value val => Ok val
  end.

Definition get_optional_named_arg {T} (conv : Conv T) (r : Register) (name : string) : B (option T) :=
  o ← total (Register.named r name);
  match o with
  | Some arg => v ← context_type_as_nasl_value arg name; x ← conv v; Ok (Some x)
  | None => Ok None
  end.

Definition get_named_arg {T} (conv : Conv T) (r : Register) (name : string) : B T :=
  o ← total (Register.named r name);
  match o with
  | Some arg => v ← context_type_as_nasl_value arg name; conv v
  | None => Err (FnError.from_argument (ArgumentError.MissingNamed [name]))
  end.

Definition get_optional_maybe_named_arg {T} (conv : Conv T) (r : Register) (name : string)
  (position : nat) : B (option T) :=
  via_position ← get_optional_positional_arg conv r position;
  match via_position with
  | Some x => Ok (Some x)
  | None => get_optional_named_arg conv r name
  end.

Definition get_maybe_named_arg {T} (conv : Conv T) (r : Register) (name : string)
  (position : nat) : B T :=
  via_position ← get_optional_positional_arg conv r position;
  match via_position with
  | Some x => Ok x
  | None => get_named_arg conv r name
  end.

(** positionals.rs: [CheckedPositionals::new] and the items of [Positionals::iter] *)
Definition checked_positionals {T} (conv : Conv T) (r : Register) (start_position : nat) : B (list T) :=
  l ← total (Register.positional r);
  collect_values conv (drop start_position l).

Definition positionals {T} (conv : Conv T) (r : Register) (start_position : nat) : B (list (B T)) :=
  l ← total (Register.positional r);
  Ok (map conv (drop start_position l)).
End Arguments.

(** ** The checks of the macro *)

(** The feature [enforce-no-trailing-arguments]. *)
Class Features := { enforce_no_trailing_arguments : bool }.

Section Checks.
Context `{HashOrder} `{Features} `{BuildProfile}.

Fixpoint count_maybe_named (names named maybe_named : list string) (num : nat) : B nat :=
  match names with
  | [] => Ok num
  | arg_name :: names' =>
      if bool_decide (arg_name = FC_ANON_ARGS) || bool_decide (arg_name ∈ named)
      then count_maybe_named names' named maybe_named num
      else if bool_decide (arg_name ∈ maybe_named)
      then count_maybe_named names' named maybe_named (S num)
      else if enforce_no_trailing_arguments
      then Err (FnError.from_argument (ArgumentError.UnexpectedArgument arg_name))
      else count_maybe_named names' named maybe_named num
  end.

Definition check_named_args (r : Register) (named maybe_named : list string) : B nat :=
  match Register.iter_named_args r with
  | Some names => count_maybe_named names named maybe_named 0
  | None => Panic
  end.

Definition check_args (r : Register) (named maybe_named : list string) (max_positional : option nat) :
  B unit :=
  given ← check_named_args r named maybe_named;
  l ← total (Register.positional r);
  match max_positional with
  | None => Ok tt
  | Some max =>
      match arith_u 64 (Z.of_nat max - Z.of_nat given) with
      | None => Panic
      | Some expected =>
          if (expected <? Z.of_nat (length l))%Z && enforce_no_trailing_arguments
          then Err (FnError.from_argument
                 (ArgumentError.TrailingPositionals (Z.to_nat expected) (length l)))
          else Ok tt
      end
  end.
End Checks.

(** ** to_nasl_result.rs *)
Definition to_value (v : NaslValue.t) : B NaslValue.t := Ok v.
Definition to_option {T} (to : T -> B NaslValue.t) (o : option T) : B NaslValue.t :=
  match o with Some x => to x | None => Ok NaslValue.Null end.
Definition to_unit (_ : unit) : B NaslValue.t := Ok NaslValue.Null.
Definition to_str (s : string) : B NaslValue.t := Ok (NaslValue.String s).
Definition to_data (d : list byte) : B NaslValue.t := Ok (NaslValue.Data d).
Definition to_bool (b : bool) : B NaslValue.t := Ok (NaslValue.Boolean b).
(** [self as i64] *)
Definition to_number (z : Z) : B NaslValue.t := Ok (NaslValue.Number (wrap_i 64 z)).
Fixpoint to_each {T} (to : T -> B NaslValue.t) (l : list T) : B (list NaslValue.t) :=
  match l with
  | [] => Ok []
  | x :: l' => v ← to x; vs ← to_each to l'; Ok (v :: vs)
  end.
Definition to_vec {T} (to : T -> B NaslValue.t) (l : list T) : B NaslValue.t :=
  vs ← to_each to l; Ok (NaslValue.Array vs).
Definition to_dict (m : gmap string NaslValue.t) : B NaslValue.t := Ok (NaslValue.Dict m).

(** A function that has no state and does not touch the world, as a member of a set. *)
Definition stateless {W} (f : Register -> B NaslValue.t) : NaslFunction W := fun r w => (f r, w).
