(* ===== verification/Files.v ===== *)
(** * Files and the script loader on a directory

    [nasl/syntax/loader.rs]: what a file gives when it is read, how an I/O error becomes a
    [LoadError], and [FSPluginLoader].  The file system itself is an instance of
    [Directory]. *)

From S2P Require Import Prelude RustStr Errors.
Local Open Scope nat_scope.

Abbreviation text := (list char).

(** [std::io::ErrorKind] as far as the code tells the kinds apart, with the [Debug] text. *)
Module IoError.
Inductive kind : Set := NotFound | PermissionDenied | TimedOut | Interrupted | Other.
Record t := mk { kind_of : kind; debug : text }.
End IoError.

(** An open file: the bytes a reader gets, the error that ends the reading (none: the end of
    the file), and the time of its last change. *)
Record File := mkFile { data : list byte; read_error : option IoError.t; mtime : option Z }.

Class Directory (W : Type) := {
  open_file : text -> W -> File + IoError.t;
  is_file : text -> W -> bool;
  path_exists : text -> W -> bool;
  is_dir : text -> W -> bool;
  (** the paths of the readable entries, in the order the system gives them *)
  read_dir : text -> W -> list text + IoError.t
}.

(** ** Text helpers *)
Definition ends_with (l p : text) : bool := starts_with (rev p) (rev l).

(** [strip_suffix] *)
Definition strip_suffix (l p : text) : option text :=
  if ends_with l p then Some (take (length l - length p) l) else None.

(** [rsplit_once]: at the rightmost occurrence of the pattern. *)
Fixpoint rsplit_once (p l : text) : option (text * text) :=
  match l with
  | [] => if starts_with p [] then Some ([], []) else None
  | c :: l' =>
      match rsplit_once p l' with
      | Some (a, b) => Some (c :: a, b)
      | None => if starts_with p l then Some ([], drop (length p) l) else None
      end
  end.

(** [trim_start_matches]: as often as the pattern occurs; an empty one is never removed. *)
Fixpoint trim_start_matches (fuel : nat) (p l : text) : text :=
  match fuel with
  | 0 => l
  | S fuel' =>
      match p with
      | [] => l
      | _ => if starts_with p l then trim_start_matches fuel' p (drop (length p) l) else l
      end
  end.

(** [Path::join]: an absolute path replaces the base. *)
Definition join (root key : text) : text :=
  if starts_with (chars_of "/") key then key
  else match root with
  | [] => key
  | _ => if ends_with root (chars_of "/") then root ++ key else root ++ chars_of "/" ++ key
  end.

(** [From<(&str, std::io::Error)> for LoadError] *)
Definition load_error_from (pstr : text) (e : IoError.t) : LoadError.t :=
  match IoError.kind_of e with
  | IoError.NotFound => LoadError.NotFound (string_of pstr)
  | IoError.PermissionDenied => LoadError.PermissionDenied (string_of pstr)
  | IoError.TimedOut => LoadError.Retry (string_of (pstr ++ chars_of " timed out."))
  | IoError.Interrupted => LoadError.Retry (string_of (pstr ++ chars_of " interrupted."))
  | IoError.Other => LoadError.Dirty (string_of (pstr ++ chars_of ": " ++ IoError.debug e))
  end.

(** [FSPluginLoader] is its root directory. *)
Abbreviation FSPluginLoader := text.

Section Loader.
Context {W : Type} `{Directory W}.

(** [fs::read]: all bytes, or the error of opening or reading. *)
Definition read (path : text) (w : W) : list byte + IoError.t :=
  match open_file path w with
  | inl f => match read_error f with None => inl (data f) | Some e => inr e end
  | inr e => inr e
  end.

(** [load_non_utf8_path]: each byte is a character. *)
Definition load_non_utf8_path (path : text) (w : W) : text + LoadError.t :=
  match read path w with
  | inl bs => inl (map byte_as_char bs)
  | inr err => inr (load_error_from path err)
  end.

Definition as_bufreader (root : FSPluginLoader) (key : text) (w : W) : File + LoadError.t :=
  match open_file (join root key) w with
  | inl f => inl f
  | inr e => inr (load_error_from key e)
  end.

Definition load (root : FSPluginLoader) (key : text) (w : W) : text + LoadError.t :=
  let path := join root key in
  if is_file path w then load_non_utf8_path path w
  else inr (LoadError.NotFound (string_of (path ++ chars_of " does not exist or is not accessible."))).
End Loader.

(** ** Lemmas *)
Lemma starts_with_spec p l : starts_with p l = true <-> exists r, l = p ++ r.
Proof.
  revert l. induction p as [|c p IH]; intros l; simpl; [split; [by exists l|done]|].
  destruct l as [|b l]; [split; [done|by intros [r ?]]|].
  rewrite andb_true_iff, IH, Ascii.eqb_eq. split.
  - intros [-> [r ->]]. by exists r.
  - intros [r E]. simplify_eq. by eauto.
Qed.

Lemma ends_with_spec l p : ends_with l p = true <-> exists r, l = r ++ p.
Proof.
  unfold ends_with. rewrite starts_with_spec. split; intros [r E].
  - exists (rev r). by rewrite <- (rev_involutive l), E, rev_app_distr, rev_involutive.
  - exists (rev r). by rewrite E, rev_app_distr.
Qed.

Lemma strip_suffix_spec l p r : strip_suffix l p = Some r <-> l = r ++ p.
Proof.
  unfold strip_suffix. split.
  - destruct (ends_with l p) eqn:E; [|done]. intros [= <-]. apply ends_with_spec in E as [r ->].
    rewrite length_app, Nat.add_sub. by rewrite take_app_length.
  - intros ->. rewrite (proj2 (ends_with_spec _ _)) by eauto.
    by rewrite length_app, Nat.add_sub, take_app_length.
Qed.

(** A split is at an occurrence of the pattern. *)
Lemma rsplit_once_app p l a b : rsplit_once p l = Some (a, b) -> l = a ++ p ++ b.
Proof.
  revert a b. induction l as [|c l IH]; intros a b; simpl.
  - destruct (starts_with p []) eqn:E; [|done]. intros [= <- <-].
    apply starts_with_spec in E as [r E]. symmetry in E. by apply app_nil in E as [-> ->].
  - destruct (rsplit_once p l) as [[a' b']|] eqn:El.
    + intros [= <- <-]. by rewrite (IH a' b').
    + destruct (starts_with p (c :: l)) eqn:E; [|done]. intros [= <- <-].
      apply starts_with_spec in E as [r E]. by rewrite E, drop_app_length.
Qed.
