(* ===== verification/StringFns.v ===== *)
(** * String functions of NASL ([nasl/builtin/string/mod.rs])

    Each function is its body and, with the suffix [_fn], the function the macro makes of
    it: the checks, the arguments, the body and the conversion of the result.  Offsets are
    byte offsets into UTF-8; an offset out of range or inside a character panics.  Shell
    patterns are a library, as is the upper case of the two characters that have none among
    the code points 0 to 255. *)

From S2P Require Import Prelude RustStr Token Statement NaslValue Errors Register Executor FnArgs.
Local Open Scope string_scope.

(** [glob::Pattern::new] with [matches_with], and [char::to_uppercase] of the micro sign
    and of y with diaeresis. *)
Class TextLibrary := {
  glob_matches : string -> bool -> string -> bool + string;
  upper_beyond : char -> list char
}.

(** ** The part of [str] the functions use *)
Section Text.

(** [char::to_uppercase] *)
Definition to_uppercase `{TextLibrary} (c : char) : list char :=
  let n := code c in
  if in_range 97 122 n then [ascii_of_N (n - 32)]
  else if N.eqb n 223 then chars_of "SS"
  else if N.eqb n 181 || N.eqb n 255 then upper_beyond c
  else if in_range 224 254 n && negb (N.eqb n 247) then [ascii_of_N (n - 32)]
  else [c].

Definition str_len (s : string) : nat := len_utf8 (chars_of s).

(** [&s[start..end]] and [&s[start..]] *)
Definition str_slice (s : string) (start stop : nat) : B string :=
  match slice (chars_of s) start stop with Some l => Ok (string_of l) | None => Panic end.
Definition str_from (s : string) (start : nat) : B string :=
  match drop_bytes start (chars_of s) with Some l => Ok (string_of l) | None => Panic end.

(** [str::find]: the texts before the first match and from it on. *)
Fixpoint find_at (p l : list char) : option (list char * list char) :=
  if starts_with p l then Some ([], l)
  else match l with
  | [] => None
  | c :: l' => (fun x => (c :: x.1, x.2)) <$> find_at p l'
  end.

(** The byte index of the first match. *)
Definition find (s p : string) : option nat :=
  (fun x => len_utf8 x.1) <$> find_at (chars_of p) (chars_of s).

(** [str::trim_end] *)
Definition trim_end (l : list char) : list char := rev (drop_while is_whitespace (rev l)).

(** [str::split] with a text: [skip] counts the characters of a match that is being left
    out (or, for [split_inclusive], kept), [acc] is the part collected so far. *)
Fixpoint split_go (p : list char) (keep : bool) (skip : nat) (acc : list char) (l : list char) :
  list (list char) :=
  match l with
  | [] => [rev acc]
  | c :: l' =>
      match skip with
      | S k =>
          let acc' := if keep then c :: acc else acc in
          match k with
          | 0%nat => rev acc' :: split_go p keep 0 [] l'
          | _ => split_go p keep k acc' l'
          end
      | 0%nat =>
          if starts_with p l then
            match p with
            | [] | [_] => rev (if keep then c :: acc else acc) :: split_go p keep 0 [] l'
            | _ :: p' => split_go p keep (length p') (if keep then c :: acc else acc) l'
            end
          else split_go p keep 0 (c :: acc) l'
      end
  end.

(** An empty pattern matches at every boundary. *)
Definition str_split (l p : list char) : list (list char) :=
  match p with
  | [] => [] :: map (fun c => [c]) l ++ [[]]
  | _ => split_go p false 0 [] l
  end.

(** [split_inclusive]: the pattern stays at the end of each part, and an empty part at the
    end of the text is dropped. *)
Definition str_split_inclusive (l p : list char) : list (list char) :=
  match p with
  | [] => [] :: map (fun c => [c]) l
  | _ =>
      let parts := split_go p true 0 [] l in
      match last parts with Some [] => take (pred (length parts)) parts | _ => parts end
  end.

(** [u8::from_str_radix(_, 16)]: an optional plus sign *)
Definition u8_from_hex (l : list char) : option Z :=
  let ds := match l with c :: l' => if Ascii.eqb c "+"%char then l' else l | [] => [] end in
  match ds with
  | [] => None
  | _ => digits_value 16 0 ds ≫= fun v => if in_u 8 v then Some v else None
  end.

(** [{:02x}] of a byte *)
Definition hex_digit (n : Z) : char :=
  ascii_of_N (Z.to_N (if (n <? 10)%Z then n + 48 else n + 87)).
Definition hex_byte (n : Z) : list char := [hex_digit (n / 16); hex_digit (n mod 16)].

(** [char::is_ascii_graphic] *)
Definition is_ascii_graphic (c : char) : bool := in_range 33 126 (code c).
End Text.

Definition byte_of_Z (z : Z) : byte := byte_of_N (Z.to_N (wrap_u 8 z)).

(** ** Hexadecimal text *)

(** [decode_hex]; the pairs of bytes from offset [i] on. *)
Fixpoint decode_hex_from (fuel i : nat) (s : string) : outcome unit (list byte) :=
  if (str_len s <=? i)%nat then Ok []
  else match fuel with
  | 0%nat => OutOfFuel
  | S fuel' =>
      match slice (chars_of s) i (i + 2) with
      | None => Panic
      | Some two =>
          match u8_from_hex two with
          | None => Err tt
          | Some v => rest ← decode_hex_from fuel' (i + 2) s; Ok (byte_of_Z v :: rest)
          end
      end
  end.
Definition decode_hex (s : string) : outcome unit (list byte) := decode_hex_from (str_len s) 0 s.

Definition encode_hex (bytes : list byte) : string :=
  string_of (bytes ≫= fun b => hex_byte (Z.of_N (Byte.to_N b))).

Section Functions.
Context `{HashOrder} `{Features} `{BuildProfile} `{TextLibrary}.

(** ** Bodies *)

(** The values of a dictionary in the order of the map. *)
Definition values {V} (m : gmap string V) : list V := (iter m).*2.

(** [append_nasl_value_as_u8]: what is appended. *)
Fixpoint value_as_u8 (p : NaslValue.t) : list byte :=
  match p with
  | NaslValue.String s => as_bytes (chars_of s)
  | NaslValue.Data d => d
  | NaslValue.Number x => [byte_of_Z x]
  | NaslValue.Array x => concat (map value_as_u8 x)
  | NaslValue.Dict x => concat (values (value_as_u8 <$> x))
  | NaslValue.Boolean x => [if x then byte_of_Z 1 else byte_of_Z 0]
  | NaslValue.AttackCategory x => [byte_of_Z (ACT.as_i64 x)]
  | _ => []
  end.

Definition raw_string (positional : list NaslValue.t) : list byte := concat (map value_as_u8 positional).

(** [write_nasl_string]: what is written. *)
Fixpoint nasl_string (value : NaslValue.t) : string :=
  match value with
  | NaslValue.String x => x
  | NaslValue.Data x => bytes_to_str x
  | NaslValue.Number x =>
      let c := byte_as_char (byte_of_Z x) in if is_ascii_graphic c then String c "" else "."
  | NaslValue.Array x => String.concat "" (map nasl_string x)
  | NaslValue.Dict x => String.concat "" (values (nasl_string <$> x))
  | _ => "."
  end.

(** [write_nasl_string_value] *)
Definition nasl_string_value (value : NaslValue.t) : string :=
  match value with
  | NaslValue.Array x => String.concat "" (map nasl_string x)
  | NaslValue.Dict x => String.concat "" (map nasl_string (values x))
  | NaslValue.String x => x
  | NaslValue.Number x => pretty x
  | NaslValue.Boolean x => if x then "1" else "0"
  | NaslValue.AttackCategory x => pretty (ACT.as_i64 x)
  | NaslValue.Data x => bytes_to_str x
  | _ => ""
  end.

Definition combine_positionals_to_string (positional : list NaslValue.t) : string :=
  String.concat "" (map nasl_string_value positional).

Definition toupper (s : option (option string)) : option string :=
  (fun inner => string_of (chars_of inner ≫= to_uppercase)) <$> as_option s.
Definition tolower (s : option (option string)) : option string :=
  (fun inner => string_of (map to_lowercase (chars_of inner))) <$> as_option s.
Definition strlen (s : option (option string)) : Z :=
  default 0%Z ((fun inner => Z.of_nat (str_len inner)) <$> as_option s).

Definition substr (s : string) (start : nat) (stop : option nat) : B (option string) :=
  if (str_len s <? start)%nat then Ok None
  else
    x ← match stop with Some stop => str_slice s start stop | None => str_from s start end;
    Ok (Some x).

Definition hexstr (s : option NaslValue.t) : option string :=
  match s with
  | Some (NaslValue.String s) => Some (encode_hex (as_bytes (chars_of s)))
  | Some (NaslValue.Data bytes) => Some (encode_hex bytes)
  | _ => None
  end.

Definition hex (s : Z) : string := "0x" ++ string_of (hex_byte (s mod 256)).

Definition hexstr_to_data (s : NaslValue.t) : B (list byte) :=
  let s := NaslValue.to_string s in
  match decode_hex s with
  | Ok d => Ok d
  | Err _ => wrong ("Expected an even-length string containing only 0-9a-fA-F, found '" ++ s ++ "'")
  | Panic => Panic
  | OutOfFuel => OutOfFuel
  end.

Definition data_to_hexstr (bytes : option (list byte)) : option string := encode_hex <$> bytes.

(** [str::repeat]: a length beyond [isize] panics. *)
Fixpoint repeat_text (n : nat) (l : list char) : list char :=
  match n with 0%nat => [] | S n' => l ++ repeat_text n' l end.
Definition crap (length_ : Z) (data : option NaslValue.t) : B string :=
  let data := default "X" (NaslValue.to_string <$> data) in
  if (2 ^ 63 <=? Z.of_nat (str_len data) * length_)%Z then Panic
  else Ok (string_of (if decide (data = "") then [] else repeat_text (Z.to_nat length_) (chars_of data))).

Definition chomp (s : string) : string := string_of (trim_end (chars_of s)).

Definition stridx (haystack needle : NaslValue.t) (offset : option nat) : B Z :=
  let haystack := NaslValue.to_string haystack in
  let needle := NaslValue.to_string needle in
  rest ← str_from haystack (default 0%nat offset);
  Ok (match find rest needle with Some index => Z.of_nat index | None => (-1)%Z end).

Definition ord (s : NaslValue.t) : option Z :=
  (fun c => Z.of_N (code c)) <$> head (chars_of (NaslValue.to_string s)).

(** [s.len() - 1] of an empty text is out of range in both builds. *)
Definition str_to_int (s : string) : B Z :=
  match i64_from_str_radix (chars_of s) 10 with
  | Some z => Ok z
  | None =>
      if decide (s = "") then Panic
      else
        t ← str_slice s 0 (str_len s - 1);
        Ok (default 0%Z (i64_from_str_radix (chars_of t) 10))
  end.

Definition int (s : NaslValue.t) : B Z :=
  match s with
  | NaslValue.String s => str_to_int s
  | NaslValue.Data data => str_to_int (bytes_to_str data)
  | NaslValue.Number num => Ok num
  | NaslValue.Boolean b => Ok (if b then 1 else 0)%Z
  | _ => Ok 0%Z
  end.

(** [String::replace_range] *)
Definition replace_range (s : string) (start stop : nat) (ins : string) : B string :=
  a ← str_slice s 0 start;
  _ ← str_slice s start stop;
  b ← str_from s stop;
  Ok (a ++ ins ++ b).

Definition insstr (s to_insert : NaslValue.t) (start : nat) (stop : option nat) : B string :=
  let s := NaslValue.to_string s in
  let ins := NaslValue.to_string to_insert in
  let stop := Nat.min (default (str_len s) stop) (str_len s) in
  if (stop <? start)%nat then
    wrong ("start index (" ++ pretty start ++ ") larger than end (" ++ pretty stop ++ ").")
  else if (stop + 1 <=? str_len s)%nat then replace_range s start (stop + 1) ins
  else replace_range s start stop ins.

Definition match_ (string pattern : NaslValue.t) (icase : option bool) : B bool :=
  let string := NaslValue.to_string string in
  let pattern := NaslValue.to_string pattern in
  match glob_matches pattern (negb (default false icase)) string with
  | inl b => Ok b
  | inr err =>
      wrong ("Argument 'pattern' to 'match' is not a valid pattern: " ++ pattern ++ ". " ++ err)
  end.

Definition newline_text : string := String newline "".

Definition split (string : NaslValue.t) (sep : option NaslValue.t) (keep : option bool) :
  list Stdlib.Strings.String.string :=
  let str := chars_of (NaslValue.to_string string) in
  let separator := chars_of (default newline_text (NaslValue.to_string <$> sep)) in
  map string_of (if default true keep then str_split_inclusive str separator
                 else str_split str separator).

Definition str_replace (string find : NaslValue.t) (replace_ : option NaslValue.t) (count : option nat) :
  Stdlib.Strings.String.string :=
  let string := chars_of (NaslValue.to_string string) in
  let find := chars_of (NaslValue.to_string find) in
  let rep := chars_of (default "" (NaslValue.to_string <$> replace_)) in
  string_of (match count with
             | Some (S n) => replacen string find rep (S n)
             | _ => replace string find rep
             end).

Definition strstr (string find : NaslValue.t) : NaslValue.t :=
  match find_at (chars_of (NaslValue.to_string find)) (chars_of (NaslValue.to_string string)) with
  | Some (_, rest) => NaslValue.String (string_of rest)
  | None => NaslValue.Null
  end.
End Functions.

(** ** The functions of the set [NaslString] *)
Section Set_.
Context `{HashOrder} `{Features} `{BuildProfile} `{TextLibrary}.

Definition hexstr_fn (r : Register) : B NaslValue.t :=
  _ ← check_args r [] [] (Some 1%nat);
  s ← get_optional_positional_arg from_value r 0;
  to_option to_str (hexstr s).

Definition hex_fn (r : Register) : B NaslValue.t :=
  _ ← check_args r [] [] (Some 1%nat);
  s ← get_positional_arg from_i64 r 0 1;
  to_str (hex s).

Definition raw_string_fn (r : Register) : B NaslValue.t :=
  _ ← check_args r [] [] None;
  positional ← checked_positionals from_value r 0;
  to_data (raw_string positional).

Definition tolower_fn (r : Register) : B NaslValue.t :=
  _ ← check_args r [] [] (Some 1%nat);
  s ← get_optional_positional_arg (from_maybe from_string_or_data) r 0;
  to_option to_str (tolower s).

Definition toupper_fn (r : Register) : B NaslValue.t :=
  _ ← check_args r [] [] (Some 1%nat);
  s ← get_optional_positional_arg (from_maybe from_string_or_data) r 0;
  to_option to_str (toupper s).

Definition strlen_fn (r : Register) : B NaslValue.t :=
  _ ← check_args r [] [] (Some 1%nat);
  s ← get_optional_positional_arg (from_maybe from_string_or_data) r 0;
  to_number (strlen s).

Definition string_fn (r : Register) : B NaslValue.t :=
  _ ← check_args r [] [] None;
  positional ← checked_positionals from_value r 0;
  to_str (combine_positionals_to_string positional).

Definition substr_fn (r : Register) : B NaslValue.t :=
  _ ← check_args r [] [] (Some 3%nat);
  s ← get_positional_arg from_string_or_data r 0 2;
  start ← get_positional_arg from_usize r 1 2;
  stop ← get_optional_positional_arg from_usize r 2;
  x ← substr s start stop;
  to_option to_str x.

Definition crap_fn (r : Register) : B NaslValue.t :=
  _ ← check_args r ["data"] ["length"] (Some 1%nat);
  length_ ← get_maybe_named_arg from_u64 r "length" 0;
  data ← get_optional_named_arg from_value r "data";
  x ← crap length_ data;
  to_str x.

Definition chomp_fn (r : Register) : B NaslValue.t :=
  _ ← check_args r [] [] (Some 1%nat);
  s ← get_positional_arg from_string_or_data r 0 1;
  to_str (chomp s).

Definition stridx_fn (r : Register) : B NaslValue.t :=
  _ ← check_args r [] [] (Some 3%nat);
  haystack ← get_positional_arg from_value r 0 2;
  needle ← get_positional_arg from_value r 1 2;
  offset ← get_optional_positional_arg from_usize r 2;
  x ← stridx haystack needle offset;
  to_number x.

(** [display] prints what [string] returns. *)
Definition display_fn (r : Register) : B NaslValue.t :=
  _ ← check_args r [] [] None;
  positional ← checked_positionals (T := NaslValue.t) from_value r 0;
  to_value NaslValue.Null.

Definition hexstr_to_data_fn (r : Register) : B NaslValue.t :=
  _ ← check_args r [] [] (Some 1%nat);
  s ← get_positional_arg from_value r 0 1;
  x ← hexstr_to_data s;
  to_data x.

Definition data_to_hexstr_fn (r : Register) : B NaslValue.t :=
  _ ← check_args r [] [] (Some 1%nat);
  bytes ← get_positional_arg (from_maybe from_bytes) r 0 1;
  to_option to_str (data_to_hexstr bytes).

Definition ord_fn (r : Register) : B NaslValue.t :=
  _ ← check_args r [] [] (Some 1%nat);
  s ← get_positional_arg from_value r 0 1;
  to_option to_number (ord s).

Definition match_fn (r : Register) : B NaslValue.t :=
  _ ← check_args r ["string"; "pattern"; "icase"] [] (Some 0%nat);
  string ← get_named_arg from_value r "string";
  pattern ← get_named_arg from_value r "pattern";
  icase ← get_optional_named_arg from_bool r "icase";
  x ← match_ string pattern icase;
  to_bool x.

Definition insstr_fn (r : Register) : B NaslValue.t :=
  _ ← check_args r [] [] (Some 4%nat);
  s ← get_positional_arg from_value r 0 3;
  to_insert ← get_positional_arg from_value r 1 3;
  start ← get_positional_arg from_usize r 2 3;
  stop ← get_optional_positional_arg from_usize r 3;
  x ← insstr s to_insert start stop;
  to_str x.

Definition int_fn (r : Register) : B NaslValue.t :=
  _ ← check_args r [] [] (Some 1%nat);
  s ← get_positional_arg from_value r 0 1;
  x ← int s;
  to_number x.

Definition split_fn (r : Register) : B NaslValue.t :=
  _ ← check_args r ["sep"; "keep"] [] (Some 1%nat);
  string ← get_positional_arg from_value r 0 1;
  sep ← get_optional_named_arg from_value r "sep";
  keep ← get_optional_named_arg from_bool r "keep";
  to_vec to_str (split string sep keep).

Definition str_replace_fn (r : Register) : B NaslValue.t :=
  _ ← check_args r ["string"; "find"; "replace"; "count"] [] (Some 0%nat);
  string ← get_named_arg from_value r "string";
  find ← get_named_arg from_value r "find";
  replace_ ← get_optional_named_arg from_value r "replace";
  count ← get_optional_named_arg from_usize r "count";
  to_str (str_replace string find replace_ count).

Definition strstr_fn (r : Register) : B NaslValue.t :=
  _ ← check_args r [] [] (Some 2%nat);
  string ← get_positional_arg from_value r 0 2;
  find ← get_positional_arg from_value r 1 2;
  to_value (strstr string find).

(** [function_set!] *)
Definition string_functions : list (string * (Register -> B NaslValue.t)) :=
  [("hexstr", hexstr_fn); ("hex", hex_fn); ("raw_string", raw_string_fn); ("strcat", raw_string_fn);
   ("tolower", tolower_fn); ("toupper", toupper_fn); ("strlen", strlen_fn); ("string", string_fn);
   ("substr", substr_fn); ("crap", crap_fn); ("chomp", chomp_fn); ("stridx", stridx_fn);
   ("display", display_fn); ("hexstr_to_data", hexstr_to_data_fn);
   ("data_to_hexstr", data_to_hexstr_fn); ("ord", ord_fn); ("match", match_fn);
   ("insstr", insstr_fn); ("int", int_fn); ("split", split_fn); ("str_replace", str_replace_fn);
   ("strstr", strstr_fn)].

Definition NaslString {W} : FunctionSet W :=
  list_to_map (map (fun x => (x.1, stateless x.2)) string_functions).
End Set_.
