(* ===== verification/StringFnsProps.v ===== *)
(** * What the string functions do

    Hexadecimal text and its round trip, splitting and replacing, positions and slices, and
    when a function panics. *)

From S2P Require Import Prelude RustStr Token Statement NaslValue Errors Register Executor FnArgs StringFns Files.
Local Open Scope nat_scope.

(** ** Hexadecimal text *)
Lemma byte_of_Z_to b : byte_of_Z (Z.of_N (Byte.to_N b)) = b.
Proof. by destruct b. Qed.

Lemma hex_byte_value b : u8_from_hex (hex_byte (Z.of_N (Byte.to_N b))) = Some (Z.of_N (Byte.to_N b)).
Proof. by destruct b. Qed.

Lemma hex_byte_len b : len_utf8 (hex_byte (Z.of_N (Byte.to_N b))) = 2.
Proof. by destruct b. Qed.

Abbreviation hex_chars bytes := (bytes ≫= fun b => hex_byte (Z.of_N (Byte.to_N b))).

Lemma hex_chars_cons b bytes :
  hex_chars (b :: bytes) = hex_byte (Z.of_N (Byte.to_N b)) ++ hex_chars bytes.
Proof. done. Qed.

Lemma hex_chars_len bytes : len_utf8 (hex_chars bytes) = 2 * length bytes.
Proof. induction bytes as [|b l IH]; [done|]. rewrite hex_chars_cons, len_utf8_app, hex_byte_len, IH. simpl. lia. Qed.

(** Decoding goes on behind what has been decoded; what follows is decoded as it stands. *)
Lemma decode_hex_app fuel pre bytes rest s :
  chars_of s = pre ++ hex_chars bytes ++ rest -> length bytes <= fuel ->
  decode_hex_from fuel (len_utf8 pre) s
  = (l ← decode_hex_from (fuel - length bytes) (len_utf8 pre + 2 * length bytes) s; Ok (bytes ++ l)).
Proof.
  revert fuel pre. induction bytes as [|b bytes IH]; intros fuel pre Hs Hf.
  - simpl. rewrite Nat.sub_0_r, Nat.add_0_r. by destruct (decode_hex_from _ _ _).
  - rewrite hex_chars_cons, <- app_assoc in Hs. cbn [length] in *. destruct fuel as [|fuel]; [lia|]. cbn [decode_hex_from].
    assert (len_utf8 pre + 2 <= str_len s) as Hl.
    { unfold str_len. rewrite Hs. rewrite !len_utf8_app, hex_byte_len. lia. }
    rewrite (proj2 (Nat.leb_gt (str_len s) (len_utf8 pre))) by lia.
    rewrite Hs. rewrite (slice_app pre (hex_byte (Z.of_N (Byte.to_N b)))) by (rewrite ?hex_byte_len; done).
    rewrite hex_byte_value, byte_of_Z_to.
    specialize (IH fuel (pre ++ hex_byte (Z.of_N (Byte.to_N b)))).
    rewrite len_utf8_app, hex_byte_len in IH. rewrite IH; [|by rewrite Hs, <- app_assoc|lia].
    rewrite Nat.sub_succ. replace (len_utf8 pre + 2 + 2 * length bytes) with (len_utf8 pre + 2 * S (length bytes)) by lia.
    generalize (decode_hex_from (fuel - length bytes) (len_utf8 pre + 2 * S (length bytes)) s). by intros [].
Qed.

Lemma decode_hex_end fuel i s : str_len s <= i -> decode_hex_from fuel i s = Ok [].
Proof. intros Hi. destruct fuel; simpl; by rewrite (proj2 (Nat.leb_le _ _)). Qed.

Lemma hex_back bytes : decode_hex (encode_hex bytes) = Ok bytes.
Proof.
  unfold decode_hex. assert (chars_of (encode_hex bytes) = [] ++ hex_chars bytes ++ []) as E
    by (unfold encode_hex; by rewrite chars_of_string, app_nil_r).
  assert (str_len (encode_hex bytes) = 2 * length bytes) as Hl.
  { unfold str_len. rewrite E, app_nil_l, app_nil_r. by rewrite hex_chars_len. }
  rewrite (decode_hex_app _ [] bytes [] _ E), decode_hex_end by lia. simpl. by rewrite app_nil_r.
Qed.

(** A digit too much is not an error but a panic: the slice of two bytes goes beyond the
    end of the text. *)
Lemma hex_odd bytes c s :
  (utf8_len c = 1) -> chars_of s = hex_chars bytes ++ [c] -> decode_hex s = Panic.
Proof.
  intros Hc E. unfold decode_hex. assert (str_len s = 2 * length bytes + 1) as Hl.
  { unfold str_len. rewrite E, len_utf8_app, hex_chars_len. simpl. lia. }
  rewrite (decode_hex_app _ [] bytes [c] s E) by lia. simpl len_utf8. rewrite Nat.add_0_l.
  destruct (str_len s - length bytes) as [|k] eqn:Ek; [lia|]. cbn [decode_hex_from].
  rewrite (proj2 (Nat.leb_gt _ _)) by lia. rewrite E. unfold slice.
  rewrite (proj2 (Nat.leb_le _ _)) by lia. rewrite <- hex_chars_len, drop_bytes_app. simpl.
  replace (len_utf8 (hex_chars bytes) + 2 - len_utf8 (hex_chars bytes)) with 2 by lia.
  simpl. rewrite Hc. done.
Qed.

(** ** Splitting and replacing *)

(** Join with a separator. *)
Fixpoint joined (sep : list char) (l : list (list char)) : list char :=
  match l with
  | [] => []
  | [x] => x
  | x :: l' => x ++ sep ++ joined sep l'
  end.

Lemma joined_cons sep x l : l <> [] -> joined sep (x :: l) = x ++ sep ++ joined sep l.
Proof. by destruct l. Qed.

Lemma split_go_nonempty p keep skip acc l : split_go p keep skip acc l <> [].
Proof.
  revert skip acc. induction l as [|c l IH]; intros skip acc; [done|]. cbn [split_go].
  destruct skip as [|[|k]]; [|done|apply IH].
  destruct (starts_with p (c :: l)); [|apply IH]. destruct p as [|a [|b p]]; [done..|apply IH].
Qed.

(** Skipping the rest of a match. *)
Lemma split_go_skip p keep k acc m l :
  length m = S k ->
  split_go p keep (S k) acc (m ++ l)
  = rev (if keep then rev m ++ acc else acc) :: split_go p keep 0 [] l.
Proof.
  revert acc k. induction m as [|c m IH]; intros acc k Hm; [done|]. cbn [app split_go]. cbn [length] in Hm.
  destruct k as [|k].
  - destruct m; [|done]. by destruct keep.
  - rewrite IH by lia. destruct keep; [|done]. cbn [rev]. by rewrite <- app_assoc.
Qed.

(** A match of the pattern ends a part. *)
Lemma split_go_match p keep acc l :
  p <> [] -> split_go p keep 0 acc (p ++ l)
  = rev (if keep then rev p ++ acc else acc) :: split_go p keep 0 [] l.
Proof.
  intros Hp. destruct p as [|c p]; [done|]. cbn [app split_go].
  rewrite (proj2 (starts_with_spec (c :: p) (c :: p ++ l))) by by exists l.
  destruct p as [|d p]; [by destruct keep|].
  rewrite (split_go_skip (c :: d :: p) keep (length p) _ (d :: p) l) by done.
  destruct keep; [|done]. cbn [rev]. by rewrite <- !app_assoc.
Qed.

(** Induction over the matches of a pattern in a text, from the left. *)
Lemma match_ind (p : list char) (Hp : p <> []) (P : list char -> Prop) :
  P [] -> (forall l, P l -> P (p ++ l)) ->
  (forall c l, starts_with p (c :: l) = false -> P l -> P (c :: l)) ->
  forall l, P l.
Proof.
  intros H0 Hm Hc l. remember (length l) as n eqn:Hn. revert l Hn.
  induction (Nat.lt_wf_0 n) as [n _ IH]. intros [|c l] ->; [done|].
  destruct (starts_with p (c :: l)) eqn:E.
  - apply starts_with_spec in E as [r E]. rewrite E. apply Hm. apply (IH (length r)); [|done].
    rewrite E, length_app. destruct p; simpl; [done|lia].
  - apply Hc; [done|]. apply (IH (length l)); [simpl; lia|done].
Qed.

Lemma split_joined p acc l : p <> [] -> joined p (split_go p false 0 acc l) = rev acc ++ l.
Proof.
  intros Hp. revert acc. induction l as [|l IH|c l Hc IH] using (match_ind p Hp).
  - intros acc. simpl. by rewrite app_nil_r.
  - intros acc. rewrite split_go_match by done. rewrite joined_cons by apply split_go_nonempty.
    by rewrite IH.
  - intros acc. cbn [split_go]. rewrite Hc, IH. cbn [rev]. by rewrite <- app_assoc.
Qed.

Lemma split_kept p acc l : p <> [] -> concat (split_go p true 0 acc l) = rev acc ++ l.
Proof.
  intros Hp. revert acc. induction l as [|l IH|c l Hc IH] using (match_ind p Hp).
  - intros acc. simpl. by rewrite app_nil_r.
  - intros acc. rewrite split_go_match by done. cbn [concat]. rewrite IH.
    by rewrite rev_app_distr, rev_involutive, <- app_assoc.
  - intros acc. cbn [split_go]. rewrite Hc, IH. cbn [rev]. by rewrite <- app_assoc.
Qed.

Lemma concat_singles (l : list char) : concat (map (fun c => [c]) l) = l.
Proof. induction l as [|c l IH]; [done|]. simpl. by rewrite IH. Qed.

Lemma joined_singles (l : list char) : joined [] (map (fun c => [c]) l ++ [[]]) = l.
Proof.
  induction l as [|c l IH]; [done|]. cbn [map app]. rewrite joined_cons by by destruct l.
  simpl. by rewrite IH.
Qed.

(** The parts joined with the separator are the text. *)
Lemma str_split_joined l p : joined p (str_split l p) = l.
Proof.
  destruct p as [|a p]; [|apply split_joined; done].
  unfold str_split. rewrite joined_cons by by destruct l. apply joined_singles.
Qed.

Lemma concat_drop_empty (parts : list (list char)) :
  last parts = Some [] -> concat (take (pred (length parts)) parts) = concat parts.
Proof.
  intros Hl. apply last_Some in Hl as [l ->]. rewrite length_app. simpl.
  replace (pred (length l + 1)) with (length l) by lia.
  by rewrite take_app_length, concat_app, app_nil_r.
Qed.

(** The parts that keep the separator are the text. *)
Lemma str_split_inclusive_concat l p : concat (str_split_inclusive l p) = l.
Proof.
  destruct p as [|a p]; simpl; [apply concat_singles|].
  pose proof (split_kept (a :: p) [] l ltac:(done)) as E. simpl rev in E.
  destruct (last (split_go (a :: p) true 0 [] l)) as [[|x y]|] eqn:Hl; try done.
  by rewrite concat_drop_empty.
Qed.

(** ** Replacing is splitting and joining *)
Lemma replace_skip p r k n m l :
  length m = k -> replace_go p r k n (m ++ l) = replace_go p r 0 n l.
Proof.
  revert m. induction k as [|k IH]; intros [|c m] Hm; try done. cbn [app replace_go].
  apply IH. simpl in Hm. lia.
Qed.

Lemma replace_match p r n l : p <> [] -> replace_go p r 0 (S n) (p ++ l) = r ++ replace_go p r 0 n l.
Proof.
  intros Hp. destruct p as [|c p]; [done|]. cbn [app replace_go].
  rewrite (proj2 (starts_with_spec (c :: p) (c :: p ++ l))) by by exists l.
  by rewrite replace_skip.
Qed.

Lemma joined_prefix r a x l : joined r ((a ++ x) :: l) = a ++ joined r (x :: l).
Proof. destruct l; simpl; by rewrite <- ?app_assoc. Qed.

Lemma split_go_acc p acc l : p <> [] -> exists x l',
  split_go p false 0 [] l = x :: l' /\ split_go p false 0 acc l = (rev acc ++ x) :: l'.
Proof.
  intros Hp. revert acc. induction l as [|l IH|c l Hc IH] using (match_ind p Hp).
  - intros acc. exists [], []. by rewrite app_nil_r.
  - intros acc. exists [], (split_go p false 0 [] l). rewrite !split_go_match by done.
    by rewrite app_nil_r.
  - intros acc. cbn [split_go]. rewrite Hc. destruct (IH [c]) as (x & l' & E & E1).
    destruct (IH (c :: acc)) as (x2 & l2 & E' & E2). rewrite E in E'. injection E' as <- <-.
    exists (c :: x), l'. split; [done|]. rewrite E2. cbn [rev]. by rewrite <- app_assoc.
Qed.

Lemma replace_joined p r n l :
  p <> [] -> length l <= n -> replace_go p r 0 n l = joined r (split_go p false 0 [] l).
Proof.
  intros Hp. revert n. induction l as [|l IH|c l Hc IH] using (match_ind p Hp).
  - intros n _. simpl. by destruct n, p.
  - intros n Hn. rewrite length_app in Hn. destruct n as [|n]; [destruct p; simpl in *; [done|lia]|].
    rewrite replace_match, split_go_match by done. rewrite joined_cons by apply split_go_nonempty.
    rewrite (IH n); [done|]. destruct p; simpl in *; [done|lia].
  - intros n Hn. simpl in Hn. cbn [split_go replace_go]. rewrite Hc. destruct n as [|n]; [lia|].
    destruct (split_go_acc p [c] l Hp) as (x & l' & E & ->). rewrite (IH (S n)) by lia.
    rewrite E. symmetry. apply (joined_prefix r [c]).
Qed.

Lemma replace_empty r n l : length l < n ->
  replace_go [] r 0 n l = joined r ([] :: map (fun c => [c]) l ++ [[]]).
Proof.
  revert n. induction l as [|c l IH]; intros [|n] Hn; simpl in Hn; try lia.
  - simpl. by rewrite app_nil_r.
  - cbn [replace_go starts_with map app]. rewrite IH by lia.
    by rewrite !joined_cons by by destruct l.
Qed.

Lemma replace_split l p r : replace l p r = joined r (str_split l p).
Proof.
  unfold replace. destruct p as [|a p].
  - apply replace_empty. lia.
  - unfold str_split. apply replace_joined; [done|lia].
Qed.

(** Texts as strings. *)
Lemma chars_of_concat sep l :
  chars_of (String.concat sep (map string_of l)) = joined (chars_of sep) l.
Proof.
  induction l as [|x [|y l] IH]; [done|apply chars_of_string|].
  change (String.concat sep (map string_of (x :: y :: l)))
    with (string_of x +:+ sep +:+ String.concat sep (map string_of (y :: l))).
  rewrite !chars_of_app, chars_of_string, IH. done.
Qed.

Lemma joined_nil l : joined [] l = concat l.
Proof.
  induction l as [|x [|y l] IH]; [done|simpl; by rewrite app_nil_r|].
  change (joined [] (x :: y :: l)) with (x ++ joined [] (y :: l)). by rewrite IH.
Qed.

Lemma concat_string sep l s : joined (chars_of sep) l = chars_of s ->
  String.concat sep (map string_of l) = s.
Proof. intros E. by rewrite <- (string_of_chars (String.concat _ _)), chars_of_concat, E, string_of_chars. Qed.

(** ** Slices *)
Lemma drop_bytes_Some n l r : drop_bytes n l = Some r <-> exists a, l = a ++ r /\ n = len_utf8 a.
Proof.
  split; [|intros (a & -> & ->); apply drop_bytes_app].
  revert n. induction l as [|c l IH]; intros [|n]; cbn [drop_bytes].
  - intros [= <-]. by exists [].
  - done.
  - intros [= <-]. by exists [].
  - destruct (utf8_len c <=? S n) eqn:E; [|done]. apply Nat.leb_le in E.
    intros (a & -> & Hn)%IH. exists (c :: a). simpl. split; [done|]. lia.
Qed.

Lemma take_bytes_Some n l r : take_bytes n l = Some r <-> exists b, l = r ++ b /\ n = len_utf8 r.
Proof.
  split; [|intros (b & -> & ->); apply take_bytes_app].
  revert n r. induction l as [|c l IH]; intros [|n] r; cbn [take_bytes].
  - intros [= <-]. by exists [].
  - done.
  - intros [= <-]. by exists (c :: l).
  - destruct (utf8_len c <=? S n) eqn:E; [|done]. apply Nat.leb_le in E.
    intros (x & Hx & ->)%fmap_Some. apply IH in Hx as (b & -> & Hn). exists b. simpl. split; [done|]. lia.
Qed.

(** A slice is the text between two boundaries. *)
Lemma slice_Some l i j b : slice l i j = Some b <->
  exists a c, l = a ++ b ++ c /\ i = len_utf8 a /\ j = len_utf8 a + len_utf8 b.
Proof.
  split; [|intros (a & c & -> & Hi & Hj); by apply slice_app].
  unfold slice. destruct (i <=? j) eqn:E; [|done]. apply Nat.leb_le in E.
  intros (r & Hr & Ht)%bind_Some. apply drop_bytes_Some in Hr as (a & -> & ->).
  apply take_bytes_Some in Ht as (c & -> & Hn). exists a, c. repeat split; lia.
Qed.

Lemma not_panic {A} (o : option A) {T} (f : A -> T) :
  match o with Some a => Ok (E := FnError) (f a) | None => Panic end = Panic <-> o = None.
Proof. by destruct o. Qed.

(** ** The first match *)
Lemma find_at_Some p l x y : find_at p l = Some (x, y) ->
  l = x ++ y /\ starts_with p y = true
  /\ forall x1 c x2, x = x1 ++ c :: x2 -> starts_with p (c :: x2 ++ y) = false.
Proof.
  revert x y. induction l as [|c l IH]; intros x y; cbn [find_at].
  - destruct (starts_with p []) eqn:E; [|done]. intros [= <- <-]. repeat split; [done|].
    by intros [] ? ?.
  - destruct (starts_with p (c :: l)) eqn:E.
    + intros [= <- <-]. repeat split; [done|]. by intros [] ? ?.
    + intros ([x' y'] & Hf & [= -> ->])%fmap_Some. apply IH in Hf as (-> & Hs & Hn).
      repeat split; [done|]. intros [|d x1] e x2 [= -> ->]; [done|]. by apply (Hn x1).
Qed.

Lemma find_at_None p l : find_at p l = None -> forall a b, l = a ++ b -> starts_with p b = false.
Proof.
  induction l as [|c l IH]; cbn [find_at].
  - destruct (starts_with p []) eqn:E; [done|]. intros _ a b Hb. symmetry in Hb.
    by apply app_nil in Hb as [_ ->].
  - destruct (starts_with p (c :: l)) eqn:E; [done|]. intros Hn%fmap_None [|d a] b Hb.
    + simpl in Hb. by subst.
    + injection Hb as -> ->. by apply (IH Hn a).
Qed.

(** ** The claims *)
Section Claims.
Context `{HashOrder}.
Implicit Types (s sep : string).

(** Bytes written as hexadecimal text are read back from it. *)
Theorem hex_roundtrip (d : list byte) :
  data_to_hexstr (Some d) = Some (encode_hex d)
  /\ hexstr (Some (NaslValue.Data d)) = Some (encode_hex d)
  /\ hexstr_to_data (NaslValue.String (encode_hex d)) = Ok d.
Proof. split; [done|]. split; [done|]. unfold hexstr_to_data. simpl. by rewrite hex_back. Qed.

(** Hexadecimal text with one digit too many makes [hexstr_to_data] panic, although it
    has an error for texts of odd length. *)
Theorem odd_hex_panics (d : list byte) (c : char) :
  utf8_len c = 1 -> hexstr_to_data (NaslValue.String (encode_hex d +:+ string_of [c])) = Panic.
Proof.
  intros Hc. unfold hexstr_to_data. cbn [NaslValue.to_string]. rewrite (hex_odd d c _ Hc); [done|].
  unfold encode_hex. by rewrite chars_of_app, !chars_of_string.
Qed.

(** Splitting loses nothing, for every text and separator, the empty one included: the
    parts that keep the separator concatenate to the text, the others do when joined with
    it; and replacing all occurrences of a text is splitting at it and joining the parts
    with the replacement. *)
Theorem split_and_replace (v find : NaslValue.t) (rep : option NaslValue.t) :
  let s := NaslValue.to_string v in
  String.concat "" (split v (Some find) (Some true)) = s
  /\ String.concat (NaslValue.to_string find) (split v (Some find) (Some false)) = s
  /\ str_replace v find rep None
     = String.concat (default ""%string (NaslValue.to_string <$> rep)) (split v (Some find) (Some false)).
Proof.
  intros s. unfold split, str_replace. cbn [default id fmap option_fmap option_map]. split; [|split].
  - apply concat_string. change (chars_of "") with (@nil char). rewrite joined_nil.
    apply str_split_inclusive_concat.
  - apply concat_string. apply str_split_joined.
  - symmetry. apply concat_string. rewrite chars_of_string. symmetry. apply replace_split.
Qed.

(** What [substr] does with offsets: beyond the end it returns NULL; between two
    boundaries of characters it returns the text between them; and in every other case,
    an end before the start or beyond the text or an offset inside a character, it
    panics. *)
Theorem substr_cases s (start stop : nat) :
  let l := chars_of s in
  (str_len s < start -> substr s start (Some stop) = Ok None)
  /\ (forall t, start <= str_len s ->
      substr s start (Some stop) = Ok (Some t)
      <-> exists a c, l = a ++ chars_of t ++ c /\ start = len_utf8 a /\ stop = len_utf8 a + str_len t)
  /\ (substr s start (Some stop) = Panic
      <-> start <= str_len s
          /\ ~ exists a b c, l = a ++ b ++ c /\ start = len_utf8 a /\ stop = len_utf8 a + len_utf8 b).
Proof.
  cbv zeta. unfold substr, str_slice. split; [|split].
  - intros Hs. by rewrite (proj2 (Nat.ltb_lt _ _)).
  - intros t Hs. rewrite (proj2 (Nat.ltb_ge _ _)) by done. unfold str_len. split.
    + destruct (slice (chars_of s) start stop) as [b|] eqn:E; [|done]. intros [= <-].
      rewrite chars_of_string. by apply slice_Some in E.
    + intros Ht%slice_Some. rewrite Ht. simpl. by rewrite string_of_chars.
  - destruct (str_len s <? start) eqn:E; [apply Nat.ltb_lt in E|apply Nat.ltb_ge in E].
    + split; [done|]. intros [? _]. lia.
    + destruct (slice (chars_of s) start stop) as [b|] eqn:Eb; simpl.
      * split; [done|]. intros [_ []]. apply slice_Some in Eb as (a & c & ?). by exists a, b, c.
      * split; [|done]. intros _. split; [done|]. intros (a & b & c & Hc).
        assert (slice (chars_of s) start stop = Some b) as Hb by (apply slice_Some; by exists a, c).
        congruence.
Qed.

(** [stridx] counts from the offset it is given, not from the start of the text, and
    panics on an offset beyond the text or inside a character; [strstr] returns the text
    from the first match on, which is where [stridx] points. *)
Theorem stridx_from_offset (h n : NaslValue.t) (offset : option nat) :
  let l := chars_of (NaslValue.to_string h) in
  let p := chars_of (NaslValue.to_string n) in
  (forall a b, l = a ++ b -> default 0 offset = len_utf8 a ->
     stridx h n offset = Ok (match find_at p b with Some (x, _) => Z.of_nat (len_utf8 x) | None => (-1)%Z end))
  /\ (stridx h n offset = Panic <-> ~ exists a b, l = a ++ b /\ default 0 offset = len_utf8 a)
  /\ (forall i, stridx h n None = Ok i -> (0 <= i)%Z ->
        exists t, strstr h n = NaslValue.String t
          /\ substr (NaslValue.to_string h) (Z.to_nat i) None = Ok (Some t)).
Proof.
  intros l p. assert (forall r, drop_bytes (default 0 offset) l = Some r ->
    stridx h n offset = Ok (match find_at p r with Some (x, _) => Z.of_nat (len_utf8 x) | None => (-1)%Z end)) as Hok.
  { intros r Hr. unfold stridx, str_from. fold l. rewrite Hr. simpl. unfold find. fold p.
    rewrite chars_of_string. by destruct (find_at p r) as [[]|]. }
  split; [|split].
  - intros a b Hl Ho. apply Hok. rewrite Hl, Ho. apply drop_bytes_app.
  - destruct (drop_bytes (default 0 offset) l) as [r|] eqn:E.
    + rewrite (Hok r eq_refl). split; [done|]. intros []. apply drop_bytes_Some in E as (a & Hl & Ho).
      by exists a, r.
    + unfold stridx, str_from. fold l. rewrite E. split; [|done]. intros _ (a & b & Hl & Ho).
      rewrite Hl, Ho, drop_bytes_app in E. done.
  - intros i. unfold stridx, strstr, str_from. fold l p. simpl. unfold find. fold p.
    assert (drop_bytes 0 l = Some l) as -> by by destruct l. simpl. rewrite chars_of_string. fold p.
    destruct (find_at p l) as [[x y]|] eqn:E; [|intros [= <-]; lia]. intros [= <-] _.
    exists (string_of y). split; [done|]. apply find_at_Some in E as (Hl & _).
    unfold substr, str_from, str_len. fold l. rewrite Hl, len_utf8_app, Nat2Z.id.
    rewrite (proj2 (Nat.ltb_ge _ _)) by lia. by rewrite drop_bytes_app.
Qed.
End Claims.

Lemma odd_hex_panics_witness :
  hexstr_to_data (H := plain_order) (NaslValue.String "abc") = Panic.
Proof.
  exact (odd_hex_panics (H := plain_order) [byte_of_Z 171] "c"%char eq_refl).
Defined.

(** Numbers with more than one other character behind them are 0, and the empty text
    panics. *)
Lemma int_examples :
  int (NaslValue.String "12") = Ok 12%Z /\ int (NaslValue.String "12a") = Ok 12%Z
  /\ int (NaslValue.String "12ab") = Ok 0%Z /\ int (NaslValue.String "") = Panic.
Proof. repeat split; vm_compute; reflexivity. Qed.
