(* ===== verification/Text.v ===== *)
(** * Texts

    The part of [str] used on texts that are kept as strings: splitting, joining, trimming
    and reading numbers, with the lemmas on texts that are put together with a separator
    and taken apart again. *)

From S2P Require Import Prelude RustStr Token Statement NaslValue Errors Register Executor FnArgs Files StringFns StringFnsProps.
Local Open Scope string_scope.

Lemma string_of_inj a b : string_of a = string_of b -> a = b.
Proof. intros E. rewrite <- (list_ascii_of_string_of_list_ascii a), <- (list_ascii_of_string_of_list_ascii b). by f_equal. Qed.

(** [str::split_once] *)
Fixpoint split_once_chars (p l : list char) : option (list char * list char) :=
  if starts_with p l then Some ([], drop (length p) l)
  else match l with
  | [] => None
  | c :: l' => (fun x => (c :: x.1, x.2)) <$> split_once_chars p l'
  end.

(** [str::splitn] *)
Fixpoint splitn_chars (n : nat) (p l : list char) : list (list char) :=
  match n with
  | 0%nat => []
  | 1%nat => [l]
  | S n' => match split_once_chars p l with Some (a, b) => a :: splitn_chars n' p b | None => [l] end
  end.

Definition split_text (p s : string) : list string := map string_of (str_split (chars_of s) (chars_of p)).
Definition splitn_text (n : nat) (p s : string) : list string :=
  map string_of (splitn_chars n (chars_of p) (chars_of s)).
Definition split_once_text (p s : string) : option (string * string) :=
  (fun x => (string_of x.1, string_of x.2)) <$> split_once_chars (chars_of p) (chars_of s).
(** [slice::join] *)
Definition join_text (sep : string) (l : list string) : string :=
  string_of (joined (chars_of sep) (map chars_of l)).
Definition trim_text (s : string) : string := string_of (trim (chars_of s)).
Definition contains_text (s p : string) : bool := contains (chars_of s) (chars_of p).
Definition starts_with_text (s p : string) : bool := starts_with (chars_of p) (chars_of s).

(** [FromStr] of the smaller integers: an optional sign, digits, a value in range. *)
Definition i_from_str (w : Z) (s : string) : option Z :=
  z ← i64_from_str_radix (chars_of s) 10; if in_i w z then Some z else None.
Definition u_from_str (w : Z) (s : string) : option Z :=
  z ← u64_from_str (chars_of s); if in_u w z then Some z else None.

(** ** Joining and splitting again *)
Local Open Scope list_scope.

Lemma chars_string_of l : chars_of (string_of l) = l.
Proof. apply list_ascii_of_string_of_list_ascii. Qed.
Lemma chars_app a b : chars_of (a +:+ b) = chars_of a ++ chars_of b.
Proof. induction a as [|c a IH]; [done|]. simpl. by f_equal. Qed.

Lemma starts_with_absent c p l m : c ∉ l -> l <> [] -> starts_with (c :: p) (l ++ m) = false.
Proof.
  destruct l as [|d l]; [done|]. intros H _. simpl. destruct (Ascii.eqb c d) eqn:E; [|done].
  apply Ascii.eqb_eq in E. subst. set_solver.
Qed.

(** A part without the first character of the separator ends where the separator begins. *)
Lemma split_go_part c p acc l m :
  c ∉ l -> split_go (c :: p) false 0 acc (l ++ (c :: p) ++ m)
  = (rev acc ++ l) :: split_go (c :: p) false 0 [] m.
Proof.
  revert acc. induction l as [|d l IH]; intros acc H.
  - rewrite app_nil_l, split_go_match by done. by rewrite app_nil_r.
  - cbn [app split_go]. change (d :: l ++ c :: p ++ m) with ((d :: l) ++ (c :: p) ++ m).
    rewrite starts_with_absent by done. rewrite IH by set_solver. cbn [rev]. by rewrite <- app_assoc.
Qed.
Lemma split_go_last c p acc l : c ∉ l -> split_go (c :: p) false 0 acc l = [(rev acc ++ l)].
Proof.
  revert acc. induction l as [|d l IH]; intros acc H; cbn [split_go]; [by rewrite app_nil_r|].
  pose proof (starts_with_absent c p (d :: l) [] H) as E. rewrite app_nil_r in E. rewrite E by done.
  rewrite IH by set_solver.
  cbn [rev]. by rewrite <- app_assoc.
Qed.

Lemma split_joined_parts c p (l : list (list char)) :
  l <> [] -> Forall (fun x => c ∉ x) l -> str_split (joined (c :: p) l) (c :: p) = l.
Proof.
  intros Hl H. induction H as [|x l Hx H IH]; [by destruct Hl|]. destruct l as [|y l].
  - simpl. by rewrite split_go_last.
  - rewrite joined_cons by done. unfold str_split in *. rewrite split_go_part by done.
    by rewrite IH.
Qed.

Lemma split_text_join c p (l : list string) :
  l <> [] -> Forall (fun x => c ∉ chars_of x) l ->
  split_text (String c p) (join_text (String c p) l) = l.
Proof.
  intros Hl H. unfold split_text, join_text. rewrite chars_string_of.
  change (chars_of (String c p)) with (c :: chars_of p). rewrite split_joined_parts.
  - rewrite map_map. rewrite <- (map_id l) at 2. apply map_ext. apply string_of_chars.
  - by destruct l.
  - by apply Forall_map.
Qed.

(** What comes before the first separator belongs to the first part. *)
Lemma split_go_prefix c q acc m :
  c ∉ q -> split_go [c] false 0 acc (q ++ m)
  = match split_go [c] false 0 [] m with a :: r => (rev acc ++ q ++ a) :: r | [] => [] end.
Proof.
  intros Hq.
  assert (forall acc, split_go [c] false 0 acc m
    = match split_go [c] false 0 [] m with a :: r => (rev acc ++ a) :: r | [] => [] end) as Hacc.
  { clear. induction m as [|d m IH]; intros acc; cbn [split_go]; [by rewrite app_nil_r|].
    destruct (starts_with [c] (d :: m)); [by rewrite app_nil_r|].
    rewrite (IH (d :: acc)), (IH [d]). destruct (split_go [c] false 0 [] m); [done|].
    cbn [rev app]. by rewrite <- app_assoc. }
  revert acc Hq. induction q as [|d q IH]; intros acc Hq; [apply Hacc|]. cbn [app split_go].
  change (d :: q ++ m) with ((d :: q) ++ m). rewrite starts_with_absent by done.
  rewrite IH by set_solver. destruct (split_go [c] false 0 [] m); [done|]. cbn [rev].
  by rewrite <- app_assoc.
Qed.

(** Splitting at the first character of the separator keeps the rest of the separator at
    the front of every part but the first. *)
Lemma split_text_join_rest c p (x : string) (l : list string) :
  c ∉ chars_of p -> Forall (fun x => c ∉ chars_of x) (x :: l) ->
  split_text (String c "") (join_text (String c p) (x :: l)) = x :: map (String.append p) l.
Proof.
  intros Hp. unfold split_text, join_text. revert x.
  induction l as [|y l IH]; intros x [Hx H]%Forall_cons.
  - simpl. rewrite chars_string_of, split_go_last by done. simpl. by rewrite string_of_chars.
  - specialize (IH _ H). rewrite chars_string_of in *. cbn [map] in *. rewrite joined_cons by done.
    change (chars_of (String c p)) with (c :: chars_of p) in *.
    change (chars_of (String c "")) with [c] in *. unfold str_split in *.
    change ((c :: chars_of p) ++ ?m) with ([c] ++ (chars_of p ++ m)).
    rewrite split_go_part by done. cbn [map rev app]. rewrite string_of_chars. f_equal.
    rewrite split_go_prefix by done.
    match type of IH with map _ ?g = _ =>
      change (map string_of (match g with a :: r => (chars_of p ++ a) :: r | [] => [] end)
        = (p +:+ y) :: map (append p) l); destruct g as [|a r]; [done|] end.
    cbn [map rev app] in *.
    injection IH as <- <-. f_equal. rewrite <- string_of_chars. f_equal.
    by rewrite chars_app, chars_string_of.
Qed.

(** ** Taking fields apart *)
Lemma split_once_part c p l m : c ∉ l -> split_once_chars (c :: p) (l ++ (c :: p) ++ m) = Some (l, m).
Proof.
  induction l as [|d l IH]; intros H.
  - rewrite app_nil_l. cbn [app split_once_chars].
    rewrite (proj2 (starts_with_spec (c :: p) (c :: p ++ m))) by by exists m.
    change (c :: p ++ m) with ((c :: p) ++ m). by rewrite drop_app_length.
  - cbn [app split_once_chars]. change (d :: l ++ c :: p ++ m) with ((d :: l) ++ (c :: p) ++ m).
    rewrite starts_with_absent by done. change (c :: p ++ m) with ((c :: p) ++ m).
    by rewrite IH by set_solver.
Qed.

Lemma split_once_text_part c p a b :
  c ∉ chars_of a -> split_once_text (String c p) (a +:+ String c p +:+ b) = Some (a, b).
Proof.
  intros H. unfold split_once_text. rewrite !chars_app.
  change (chars_of (String c p)) with (c :: chars_of p). rewrite split_once_part by done.
  simpl. by rewrite !string_of_chars.
Qed.

Lemma splitn_text_part n c p a b :
  c ∉ chars_of a ->
  splitn_text (S (S n)) (String c p) (a +:+ String c p +:+ b) = a :: splitn_text (S n) (String c p) b.
Proof.
  intros H. unfold splitn_text. rewrite !chars_app.
  change (chars_of (String c p)) with (c :: chars_of p). cbn [splitn_chars].
  rewrite split_once_part by done. cbn [map]. by rewrite string_of_chars.
Qed.
Lemma splitn_text_last p a : splitn_text 1 p a = [a].
Proof. unfold splitn_text. simpl. by rewrite string_of_chars. Qed.

(** ** Numbers *)
Lemma digit_no_sign d : is_ascii_digit d = true -> Ascii.eqb d "-" = false /\ Ascii.eqb d "+" = false.
Proof.
  intros H. split; apply Ascii.eqb_neq; intros ->; done.
Qed.

(** The decimal text of a number is read back. *)
Lemma i_from_str_pretty w z : (0 < w <= 64)%Z -> in_i w z = true -> i_from_str w (pretty z) = Some z.
Proof.
  intros Hw Hz. assert (in_i 64 z = true) as H64.
  { unfold in_i in *. apply andb_true_iff in Hz as [H1%Z.leb_le H2%Z.ltb_lt].
    pose proof (Z.pow_le_mono_r 2 (w - 1) (64 - 1)) as Hp. apply andb_true_iff. split; [apply Z.leb_le|apply Z.ltb_lt]; lia. }
  unfold i_from_str. enough (i64_from_str_radix (chars_of (pretty z)) 10 = Some z) as -> by (simpl; by rewrite Hz).
  destruct (decide (z = 0%Z)) as [->|Hz0]; [done|]. destruct (decide (0 < z)%Z) as [Hp|Hn].
  - destruct (show_Z_pos z Hp) as (d & ds & -> & _ & Hd & Hv). apply Forall_cons in Hd as [Hd _].
    destruct (digit_no_sign d Hd) as [E1 E2]. unfold i64_from_str_radix. rewrite E1, E2.
    unfold parse_digits. rewrite Hv. cbn [mbind option_bind]. by rewrite H64.
  - destruct z as [|q|q]; [done|lia|]. destruct (show_Z_pos (Z.pos q) ltac:(lia)) as (d & ds & E & _ & _ & Hv).
    change (chars_of (pretty (Z.neg q))) with ("-"%char :: chars_of (pretty (Z.pos q))). rewrite E.
    unfold i64_from_str_radix. simpl Ascii.eqb. cbn iota. unfold parse_digits. rewrite Hv.
    cbn [mbind option_bind]. change (- Z.pos q)%Z with (Z.neg q). by rewrite H64.
Qed.

Lemma u_from_str_pretty w z : (0 < w <= 64)%Z -> in_u w z = true -> u_from_str w (pretty z) = Some z.
Proof.
  intros Hw Hz. pose proof Hz as Hz'. unfold in_u in Hz'. apply andb_true_iff in Hz' as [H1%Z.leb_le H2%Z.ltb_lt].
  assert (in_u 64 z = true) as H64.
  { pose proof (Z.pow_le_mono_r 2 w 64). unfold in_u. apply andb_true_iff. split; [apply Z.leb_le|apply Z.ltb_lt]; lia. }
  unfold u_from_str. enough (u64_from_str (chars_of (pretty z)) = Some z) as -> by (simpl; by rewrite Hz).
  destruct (decide (z = 0%Z)) as [->|Hz0]; [done|].
  destruct (show_Z_pos z ltac:(lia)) as (d & ds & -> & _ & Hd & Hv). apply Forall_cons in Hd as [Hd _].
  destruct (digit_no_sign d Hd) as [E1 E2]. unfold u64_from_str. rewrite E2, Hv. cbn [mbind option_bind].
  by rewrite H64.
Qed.

(** The text of a number has digits and perhaps a sign, nothing else. *)
Lemma pretty_Z_chars (c : char) (z : Z) :
  is_ascii_digit c = false -> c <> "-"%char -> c ∉ chars_of (pretty z).
Proof.
  intros Hc Hm. assert (forall p, c ∉ chars_of (pretty (Z.pos p))) as Hp.
  { intros p. destruct (show_Z_pos (Z.pos p) ltac:(lia)) as (d & ds & -> & _ & Hd & _).
    intros H. rewrite Forall_forall in Hd. apply Hd in H. congruence. }
  destruct z as [|p|p]; [|apply Hp|].
  - simpl. intros ->%list_elem_of_singleton. done.
  - change (chars_of (pretty (Z.neg p))) with ("-"%char :: chars_of (pretty (Z.pos p))).
    intros [->|H]%elem_of_cons; [done|by apply (Hp p)].
Qed.
