(* ===== verification/Addr.v ===== *)
(** * Bytes of integers and IP addresses

    [to_be_bytes], [from_le_bytes] and the like of Rust's integers, and the addresses of
    [std::net] as the builtin functions use them: an IPv4 address is its 32-bit number, an
    IPv6 address is kept by its canonical text. *)

From S2P Require Import Prelude RustStr StringFns StringFnsProps Text.
Local Open Scope string_scope.

Definition byte_Z (b : byte) : Z := Z.of_N (Byte.to_N b).
(** [z as u8] *)
Definition Z_byte (z : Z) : byte := byte_of_N (Z.to_N (z mod 256)).

Fixpoint le_encode (n : nat) (z : Z) : list byte :=
  match n with 0 => [] | S n' => Z_byte z :: le_encode n' (z / 256) end.
Fixpoint le_decode (l : list byte) : Z :=
  match l with [] => 0%Z | b :: l' => (byte_Z b + 256 * le_decode l')%Z end.
Definition be_encode (n : nat) (z : Z) : list byte := rev (le_encode n z).
Definition be_decode (l : list byte) : Z := le_decode (rev l).

(** [u16::to_be] and the like on a value of [n] bytes: on a machine that stores the low
    byte first the bytes are swapped. *)
Definition to_be (little_endian : bool) (n : nat) (z : Z) : Z :=
  if little_endian then be_decode (le_encode n z) else wrap_u (8 * Z.of_nat n) z.
Definition to_le (little_endian : bool) (n : nat) (z : Z) : Z := to_be (negb little_endian) n z.

(** ** Ipv4Addr *)
Definition Ipv4Addr := Z.
Definition ipv4_octets (a : Ipv4Addr) : list byte := be_encode 4 a.

(** One to three digits, no leading zero, at most 255. *)
Definition read_octet (l : list char) : option Z :=
  match l with
  | [] => None
  | c :: l' =>
      if Nat.ltb 3 (length l) || (Ascii.eqb c "0" && negb (bool_decide (l' = []))) then None
      else digits_value 10 0 l ≫= fun v => if (v <=? 255)%Z then Some v else None
  end.

(** [Ipv4Addr::from_str]; its error is always the same. *)
Definition ipv4_from_str (s : string) : option Ipv4Addr :=
  match map (fun x => read_octet (chars_of x)) (split_text "." s) with
  | [Some a; Some b; Some c; Some d] => Some (((a * 256 + b) * 256 + c) * 256 + d)%Z
  | _ => None
  end.
Definition ipv4_parse_error : string := "invalid IPv4 address syntax".

(** [Display for Ipv4Addr] *)
Definition ipv4_to_string (a : Ipv4Addr) : string :=
  join_text "." (map (fun b => pretty (byte_Z b)) (ipv4_octets a)).

(** ** IpAddr *)
Inductive IpAddr := V4 (a : Ipv4Addr) | V6 (text : string).
#[global] Instance IpAddr_eq_dec : EqDecision IpAddr.
Proof. solve_decision. Defined.

Definition ip_to_string (a : IpAddr) : string :=
  match a with V4 a => ipv4_to_string a | V6 s => s end.
Definition is_ipv6 (a : IpAddr) : bool := match a with V4 _ => false | V6 _ => true end.
Definition is_loopback (a : IpAddr) : bool :=
  match a with V4 a => (a / 2 ^ 24 =? 127)%Z | V6 s => bool_decide (s = "::1") end.
Definition is_unspecified (a : IpAddr) : bool :=
  match a with V4 a => (a =? 0)%Z | V6 s => bool_decide (s = "::") end.
(** [Ipv4Addr::is_broadcast] *)
Definition is_broadcast (a : Ipv4Addr) : bool := (a =? 2 ^ 32 - 1)%Z.

(** [IpAddr::from_str]; the second argument reads an IPv6 address into its canonical
    text. *)
Definition ip_from_str (ipv6 : string -> option string) (s : string) : IpAddr + string :=
  match ipv4_from_str s with
  | Some a => inl (V4 a)
  | None => match ipv6 s with Some t => inl (V6 t) | None => inr "invalid IP address syntax" end
  end.

(** ** Lemmas *)
Lemma byte_Z_range b : (0 <= byte_Z b < 256)%Z.
Proof. unfold byte_Z. pose proof (Byte.to_N_bounded b). lia. Qed.

Lemma byte_Z_inj a b : byte_Z a = byte_Z b -> a = b.
Proof.
  unfold byte_Z. intros E%N2Z.inj. apply (f_equal Byte.of_N) in E. rewrite !Byte.of_to_N in E. congruence.
Qed.

Lemma byte_of_Z z : byte_Z (Z_byte z) = (z mod 256)%Z.
Proof.
  unfold byte_Z, Z_byte, byte_of_N. pose proof (Z.mod_pos_bound z 256 eq_refl).
  destruct (Byte.of_N (Z.to_N (z mod 256))) as [b|] eqn:E.
  - apply Byte.to_of_N in E. simpl. lia.
  - apply Byte.of_N_None_iff in E. lia.
Qed.

Lemma Z_of_byte b : Z_byte (byte_Z b) = b.
Proof. apply byte_Z_inj. rewrite byte_of_Z. apply Z.mod_small, byte_Z_range. Qed.

Lemma le_encode_length n z : length (le_encode n z) = n.
Proof. revert z. induction n as [|n IH]; intros z; simpl; [done|]. by rewrite IH. Qed.

Lemma be_encode_length n z : length (be_encode n z) = n.
Proof. unfold be_encode. by rewrite length_rev, le_encode_length. Qed.

Lemma le_decode_encode n z : le_decode (le_encode n z) = (z mod 2 ^ (8 * Z.of_nat n))%Z.
Proof.
  revert z. induction n as [|n IH]; intros z; [by rewrite Z.mod_1_r|]. cbn [le_encode le_decode].
  rewrite IH, byte_of_Z. replace (8 * Z.of_nat (S n))%Z with (8 + 8 * Z.of_nat n)%Z by lia.
  rewrite Z.pow_add_r by lia. rewrite (Z.rem_mul_r z (2 ^ 8)) by lia. done.
Qed.

Lemma be_decode_encode n z : be_decode (be_encode n z) = (z mod 2 ^ (8 * Z.of_nat n))%Z.
Proof. unfold be_decode, be_encode. by rewrite rev_involutive, le_decode_encode. Qed.

Lemma le_decode_range l : (0 <= le_decode l < 2 ^ (8 * Z.of_nat (length l)))%Z.
Proof.
  induction l as [|b l IH]; simpl; [lia|]. pose proof (byte_Z_range b).
  replace (8 * Z.of_nat (S (length l)))%Z with (8 + 8 * Z.of_nat (length l))%Z by lia.
  rewrite Z.pow_add_r by lia. lia.
Qed.

Lemma be_decode_range l : (0 <= be_decode l < 2 ^ (8 * Z.of_nat (length l)))%Z.
Proof. unfold be_decode. pose proof (le_decode_range (rev l)) as H. by rewrite length_rev in H. Qed.

Lemma le_encode_decode l : le_encode (length l) (le_decode l) = l.
Proof.
  induction l as [|b l IH]; cbn [length le_decode le_encode]; [done|]. pose proof (byte_Z_range b). f_equal.
  - apply byte_Z_inj. rewrite byte_of_Z, Z.mul_comm, Z_mod_plus_full. by apply Z.mod_small.
  - rewrite Z.mul_comm, Z.div_add by lia. by rewrite Z.div_small.
Qed.

Lemma be_encode_decode l : be_encode (length l) (be_decode l) = l.
Proof. unfold be_encode, be_decode. by rewrite <- length_rev, le_encode_decode, rev_involutive. Qed.

Lemma to_be_range le n z : (0 <= to_be le n z < 2 ^ (8 * Z.of_nat n))%Z.
Proof.
  unfold to_be, wrap_u. destruct le; [|apply Z.mod_pos_bound; lia].
  pose proof (be_decode_range (le_encode n z)). by rewrite le_encode_length in *.
Qed.

(** Swapping twice gives the value back. *)
Lemma to_be_involutive le n z : to_be le n (to_be le n z) = (z mod 2 ^ (8 * Z.of_nat n))%Z.
Proof.
  unfold to_be, wrap_u. destruct le; [|by rewrite Z.mod_mod by lia].
  unfold be_decode at 2. rewrite <- (le_encode_length n z) at 1. rewrite <- length_rev.
  rewrite le_encode_decode. unfold be_decode. by rewrite rev_involutive, le_decode_encode.
Qed.

(** ** The text of an IPv4 address *)
Definition digit (d : nat) : char := ascii_of_nat (48 + d).

Lemma to_digit_digit c d : to_digit 10 c = Some d -> exists n, (n < 10)%nat /\ c = digit n /\ d = Z.of_nat n.
Proof.
  intros E. assert (forallb (fun k => match to_digit 10 (ascii_of_nat k) with
    | Some d => bool_decide (ascii_of_nat k = digit (Z.to_nat d)) && (0 <=? d)%Z && (d <? 10)%Z | None => true end)
    (seq 0 256) = true) as H by (vm_compute; reflexivity).
  rewrite forallb_forall in H. specialize (H (nat_of_ascii c)). rewrite ascii_nat_embedding, E in H.
  pose proof (nat_ascii_bounded c) as Hb. specialize (H ltac:(apply in_seq; lia)).
  rewrite !andb_true_iff, bool_decide_eq_true, Z.leb_le, Z.ltb_lt in H. exists (Z.to_nat d).
  split; [lia|]. split; [apply H|lia].
Qed.

Definition octet_text_exact (l : list char) : bool :=
  match read_octet l with Some v => bool_decide (chars_of (pretty v) = l) && (0 <=? v)%Z && (v <? 256)%Z | None => true end.

Lemma octet_texts_exact :
  forallb (fun a => octet_text_exact [digit a] && forallb (fun b => octet_text_exact [digit a; digit b]
    && forallb (fun c => octet_text_exact [digit a; digit b; digit c]) (seq 0 10)) (seq 0 10)) (seq 0 10) = true.
Proof. vm_compute. reflexivity. Qed.

(** Octets are read from their canonical text only. *)
Lemma read_octet_exact l v : read_octet l = Some v -> chars_of (pretty v) = l /\ (0 <= v < 256)%Z.
Proof.
  intros E. assert (octet_text_exact l = true) as H.
  { destruct l as [|a [|b [|c [|e l]]]]; [done|..|by destruct (Ascii.eqb a "0")];
      unfold read_octet in E; destruct (_ || _) in E; try done; apply bind_Some in E as (x & E & _); simpl in E.
    1: apply bind_Some in E as (? & E1 & _).
    2: apply bind_Some in E as (? & E1 & (? & E2 & _)%bind_Some).
    3: apply bind_Some in E as (? & E1 & (? & E2 & (? & E3 & _)%bind_Some)%bind_Some).
    all: apply to_digit_digit in E1 as (na & Ha & -> & _); pose proof octet_texts_exact as H; rewrite forallb_forall in H;
      specialize (H na ltac:(apply in_seq; lia)); apply andb_true_iff in H as [H H']; try done;
      apply to_digit_digit in E2 as (nb & Hb & -> & _); rewrite forallb_forall in H';
      specialize (H' nb ltac:(apply in_seq; lia)); apply andb_true_iff in H' as [H' H'']; try done;
      apply to_digit_digit in E3 as (nc & Hc & -> & _); rewrite forallb_forall in H'';
      apply (H'' nc ltac:(apply in_seq; lia)). }
  unfold octet_text_exact in H. rewrite E in H.
  rewrite !andb_true_iff, bool_decide_eq_true, Z.leb_le, Z.ltb_lt in H. tauto.
Qed.

Lemma octet_pretty v : (0 <= v < 256)%Z -> read_octet (chars_of (pretty v)) = Some v /\ "."%char ∉ chars_of (pretty v).
Proof.
  intros Hv. assert (forallb (fun n => bool_decide (read_octet (chars_of (pretty (Z.of_nat n))) = Some (Z.of_nat n))
    && negb (bool_decide ("."%char ∈ chars_of (pretty (Z.of_nat n))))) (seq 0 256) = true) as H by (vm_compute; reflexivity).
  rewrite forallb_forall in H. specialize (H (Z.to_nat v) ltac:(apply in_seq; lia)). rewrite Z2Nat.id in H by lia.
  rewrite andb_true_iff, negb_true_iff, bool_decide_eq_true, bool_decide_eq_false in H. done.
Qed.

(** The number of four octets *)
Definition of_octets (a b c d : Z) : Ipv4Addr := (((a * 256 + b) * 256 + c) * 256 + d)%Z.

Lemma octets_of a b c d : (0 <= a < 256 -> 0 <= b < 256 -> 0 <= c < 256 -> 0 <= d < 256 ->
  map byte_Z (ipv4_octets (of_octets a b c d)) = [a; b; c; d] /\ 0 <= of_octets a b c d < 2 ^ 32)%Z.
Proof.
  intros Ha Hb Hc Hd. split; [|unfold of_octets; lia].
  unfold ipv4_octets, be_encode, of_octets. cbn [le_encode rev app map]. rewrite !byte_of_Z.
  repeat (apply (f_equal2 cons); [Z.div_mod_to_equations; lia|]). done.
Qed.

Lemma ipv4_text_spec s a : ipv4_from_str s = Some a <-> ipv4_to_string a = s /\ (0 <= a < 2 ^ 32)%Z.
Proof.
  unfold ipv4_from_str, ipv4_to_string. split.
  - intros E. destruct (map _ _) as [|[va|] [|[vb|] [|[vc|] [|[vd|] []]]]] eqn:Hl; try done. injection E as <-.
    fold (of_octets va vb vc vd). assert (exists p q r t, split_text "." s = [p; q; r; t]
      /\ read_octet (chars_of p) = Some va /\ read_octet (chars_of q) = Some vb
      /\ read_octet (chars_of r) = Some vc /\ read_octet (chars_of t) = Some vd) as (p & q & r & t & Hs & Hp & Hq & Hr & Ht).
    { destruct (split_text "." s) as [|p [|q [|r [|t []]]]]; try done. injection Hl as ? ? ? ?. by exists p, q, r, t. }
    apply read_octet_exact in Hp as [Ep Hp], Hq as [Eq Hq], Hr as [Er Hr], Ht as [Et Ht].
    destruct (octets_of va vb vc vd Hp Hq Hr Ht) as [Ho Hrange]. split; [|done].
    rewrite <- (map_map byte_Z pretty), Ho. unfold join_text. cbn [map]. rewrite Ep, Eq, Er, Et.
    change [chars_of p; chars_of q; chars_of r; chars_of t] with (map chars_of [p; q; r; t]). rewrite <- Hs.
    unfold split_text. rewrite map_map, (map_ext _ (fun x => x)), map_id by apply chars_string_of.
    rewrite str_split_joined. apply string_of_chars.
  - intros [<- Ha]. assert (exists p q r t, ipv4_octets a = [p; q; r; t] /\ of_octets (byte_Z p) (byte_Z q) (byte_Z r) (byte_Z t) = a)
      as (p & q & r & t & Ho & E).
    { unfold ipv4_octets, be_encode. cbn [le_encode rev app]. do 4 eexists. split; [done|].
      unfold of_octets. rewrite !byte_of_Z. Z.div_mod_to_equations; lia. }
    rewrite Ho. change (map _ _) with (map pretty (map byte_Z [p; q; r; t])) at 2. cbn [map]. rewrite split_text_join; [|done|].
    + cbn [map]. rewrite !(fun b => proj1 (octet_pretty _ (byte_Z_range b))). by rewrite <- E.
    + repeat constructor; apply octet_pretty, byte_Z_range.
Qed.
