(* ===== verification/ValueFns.v ===== *)
(** * Functions on arrays, values and patterns

    [nasl/builtin/array/mod.rs], the functions of [nasl/builtin/misc/mod.rs] that need no
    clock or compression, and [nasl/builtin/regex/mod.rs] over a library of regular
    expressions. *)

From S2P Require Import Prelude RustStr Token Statement NaslValue Errors Register Executor FnArgs StringFns.
Local Open Scope string_scope.

(** ** array/mod.rs *)
Section Array.
Context `{HashOrder} `{Features} `{BuildProfile} (little_endian : bool).

(** The pairs of a key and a value; a last key without a value is dropped. *)
Fixpoint pairs (l : list NaslValue.t) : list (string * NaslValue.t) :=
  match l with
  | k :: v :: l' => (NaslValue.to_string k, v) :: pairs l'
  | _ => []
  end.
Definition make_array (positionals : list NaslValue.t) : gmap string NaslValue.t :=
  collect_map (pairs positionals).

Definition list_items (val : NaslValue.t) : list NaslValue.t :=
  match val with
  | NaslValue.Dict x => values x
  | NaslValue.Array x => x
  | NaslValue.Null => []
  | x => [x]
  end.
Definition create_list (positionals : list NaslValue.t) : list NaslValue.t :=
  concat (map list_items positionals).

(** [slice::sort] is stable: an equal value goes behind those that are there. *)
Fixpoint insert_sorted (v : NaslValue.t) (l : list NaslValue.t) : list NaslValue.t :=
  match l with
  | [] => [v]
  | x :: l' =>
      match NaslValue.cmp little_endian v x with Lt => v :: l | _ => x :: insert_sorted v l' end
  end.
Definition nasl_sort (positionals : list NaslValue.t) : list NaslValue.t :=
  foldl (fun l v => insert_sorted v l) [] (create_list positionals).

(** The keys, unless a value is neither a dictionary nor an array. *)
Fixpoint keys (positionals : list NaslValue.t) : option (list NaslValue.t) :=
  match positionals with
  | [] => Some []
  | NaslValue.Dict x :: l => app (map NaslValue.String (iter x).*1) <$> keys l
  | NaslValue.Array x :: l => app (map NaslValue.Number (seqZ 0 (wrap_i 64 (Z.of_nat (length x))))) <$> keys l
  | _ :: _ => None
  end.

Definition max_index (arr : NaslValue.t) : option Z :=
  match arr with
  | NaslValue.Dict x => Some (Z.of_nat (size x))
  | NaslValue.Array x => Some (Z.of_nat (length x))
  | _ => None
  end.

Definition make_array_fn (r : Register) : B NaslValue.t :=
  _ ← check_args r [] [] None;
  positionals ← checked_positionals from_value r 0;
  to_dict (make_array positionals).
Definition make_list_fn (r : Register) : B NaslValue.t :=
  _ ← check_args r [] [] None;
  positionals ← checked_positionals from_value r 0;
  to_vec to_value (create_list positionals).
Definition sort_fn (r : Register) : B NaslValue.t :=
  _ ← check_args r [] [] None;
  positionals ← checked_positionals from_value r 0;
  to_vec to_value (nasl_sort positionals).
Definition keys_fn (r : Register) : B NaslValue.t :=
  _ ← check_args r [] [] None;
  positionals ← checked_positionals from_value r 0;
  to_option (to_vec to_value) (keys positionals).
Definition max_index_fn (r : Register) : B NaslValue.t :=
  _ ← check_args r [] [] (Some 1%nat);
  arr ← get_positional_arg from_value r 0 1;
  to_option to_number (max_index arr).

Definition array_functions : list (string * (Register -> B NaslValue.t)) :=
  [("make_array", make_array_fn); ("make_list", make_list_fn); ("sort", sort_fn);
   ("keys", keys_fn); ("max_index", max_index_fn)].
Definition Array_ {W} : FunctionSet W :=
  list_to_map (map (fun x => (x.1, stateless x.2)) array_functions).
End Array.

(** ** misc/mod.rs *)
Definition nasl_typeof (val : NaslValue.t) : string :=
  match val with
  | NaslValue.Null => "undef"
  | NaslValue.String _ => "string"
  | NaslValue.Array _ | NaslValue.Dict _ => "array"
  | NaslValue.Boolean _ | NaslValue.Number _ => "int"
  | NaslValue.Data _ => "data"
  | _ => "unknown"
  end.

Definition isnull (val : NaslValue.t) : bool :=
  match val with NaslValue.Null => true | _ => false end.

(** [defined_func]; [known] are the names of builtin functions. *)
Definition defined_func (known : string -> bool) (r : Register) (fn_name : option (option string)) :
  B bool :=
  match as_option fn_name with
  | None => Ok false
  | Some name =>
      c ← total (Register.named r name);
      Ok (match c with Some (Function _ _) => true | _ => known name end)
  end.

Section Misc.
Context `{HashOrder} `{Features} `{BuildProfile}.

Definition get_byte_order_fn (little_endian : bool) (r : Register) : B NaslValue.t :=
  _ ← check_args r [] [] (Some 0%nat);
  to_bool little_endian.
Definition dec2str_fn (r : Register) : B NaslValue.t :=
  _ ← check_args r ["num"] [] (Some 0%nat);
  num ← get_named_arg from_i64 r "num";
  to_str (pretty num).
Definition typeof_fn (r : Register) : B NaslValue.t :=
  _ ← check_args r [] [] (Some 1%nat);
  val ← get_positional_arg from_value r 0 1;
  to_str (nasl_typeof val).
Definition isnull_fn (r : Register) : B NaslValue.t :=
  _ ← check_args r [] [] (Some 1%nat);
  val ← get_positional_arg from_value r 0 1;
  to_bool (isnull val).
Definition defined_func_fn (known : string -> bool) (r : Register) : B NaslValue.t :=
  fn_name ← get_optional_positional_arg (from_maybe from_string) r 0;
  x ← defined_func known r fn_name;
  to_bool x.

Definition misc_functions (little_endian : bool) (known : string -> bool) :
  list (string * (Register -> B NaslValue.t)) :=
  [("get_byte_order", get_byte_order_fn little_endian); ("dec2str", dec2str_fn);
   ("typeof", typeof_fn); ("isnull", isnull_fn); ("defined_func", defined_func_fn known)].
End Misc.

(** ** regex/mod.rs *)

(** [RegexBuilder] with the two options, and the methods of a regular expression: the
    matches of [find_iter] as texts, and [replace_all]. *)
Class RegexLibrary := {
  Re : Type;
  re_build : string -> bool -> bool -> Re + string;
  re_find_iter : Re -> string -> list string;
  re_is_match : Re -> string -> bool;
  re_replace_all : Re -> string -> string -> string;
  re_is_match_spec : forall re s, re_is_match re s = negb (bool_decide (re_find_iter re s = []))
}.

Section Regex.
Context `{HashOrder} `{Features} `{BuildProfile} `{RegexLibrary}.

(** The part before the first occurrence of a character. *)
Definition until (c : char) (s : string) : string :=
  string_of (take_while (fun x => negb (Ascii.eqb x c)) (chars_of s)).

Definition parse_search_string (s : string) (rnul multiline : bool) : string :=
  let s := if rnul then s else until EOF_CHAR s in
  if multiline then s else until newline s.

Definition make_regex (pattern : string) (icase multiline : bool) : B Re :=
  match re_build pattern icase multiline with
  | inl re => Ok re
  | inr e =>
      Err (FnError.from_kind (Builtin (BuiltinError.Regex
        ("Error building regular expression pattern: " ++ e))))
  end.

Definition ereg (string_ pattern : NaslValue.t) (icase rnul multiline : option bool) : B bool :=
  let icase := default false icase in
  let rnul := default true rnul in
  let multiline := default false multiline in
  let s := parse_search_string (NaslValue.to_string string_) rnul multiline in
  re ← make_regex (NaslValue.to_string pattern) icase multiline;
  Ok (re_is_match re s).

Definition ereg_replace (string_ pattern replace_ : NaslValue.t) (icase rnul : option bool) : B string :=
  let s := parse_search_string (NaslValue.to_string string_) (default true rnul) true in
  re ← make_regex (NaslValue.to_string pattern) (default false icase) false;
  Ok (re_replace_all re s (NaslValue.to_string replace_)).

Definition egrep (string_ pattern : NaslValue.t) (icase rnul : option bool) : B string :=
  let s := parse_search_string (NaslValue.to_string string_) (default true rnul) true in
  re ← make_regex (NaslValue.to_string pattern) (default false icase) true;
  Ok (String.concat "" (List.filter (re_is_match re)
        (map string_of (str_split_inclusive (chars_of s) [newline])))).

Definition eregmatch (string_ pattern : NaslValue.t) (find_all icase rnul : option bool) : B NaslValue.t :=
  let s := parse_search_string (NaslValue.to_string string_) (default true rnul) true in
  re ← make_regex (NaslValue.to_string pattern) (default false icase) true;
  Ok (NaslValue.Array (map NaslValue.String
        (if default false find_all then re_find_iter re s else take 1 (re_find_iter re s)))).

Definition ereg_fn (r : Register) : B NaslValue.t :=
  _ ← check_args r ["string"; "pattern"; "icase"; "rnul"; "multiline"] [] (Some 0%nat);
  string_ ← get_named_arg from_value r "string";
  pattern ← get_named_arg from_value r "pattern";
  icase ← get_optional_named_arg from_bool r "icase";
  rnul ← get_optional_named_arg from_bool r "rnul";
  multiline ← get_optional_named_arg from_bool r "multiline";
  x ← ereg string_ pattern icase rnul multiline;
  to_bool x.
Definition egrep_fn (r : Register) : B NaslValue.t :=
  _ ← check_args r ["string"; "pattern"; "icase"; "rnul"] [] (Some 0%nat);
  string_ ← get_named_arg from_value r "string";
  pattern ← get_named_arg from_value r "pattern";
  icase ← get_optional_named_arg from_bool r "icase";
  rnul ← get_optional_named_arg from_bool r "rnul";
  x ← egrep string_ pattern icase rnul;
  to_str x.
Definition ereg_replace_fn (r : Register) : B NaslValue.t :=
  _ ← check_args r ["string"; "pattern"; "replace"; "icase"; "rnul"] [] (Some 0%nat);
  string_ ← get_named_arg from_value r "string";
  pattern ← get_named_arg from_value r "pattern";
  replace_ ← get_named_arg from_value r "replace";
  icase ← get_optional_named_arg from_bool r "icase";
  rnul ← get_optional_named_arg from_bool r "rnul";
  x ← ereg_replace string_ pattern replace_ icase rnul;
  to_str x.
Definition eregmatch_fn (r : Register) : B NaslValue.t :=
  _ ← check_args r ["string"; "pattern"; "find_all"; "icase"; "rnul"] [] (Some 0%nat);
  string_ ← get_named_arg from_value r "string";
  pattern ← get_named_arg from_value r "pattern";
  find_all ← get_optional_named_arg from_bool r "find_all";
  icase ← get_optional_named_arg from_bool r "icase";
  rnul ← get_optional_named_arg from_bool r "rnul";
  eregmatch string_ pattern find_all icase rnul.

Definition regex_functions : list (string * (Register -> B NaslValue.t)) :=
  [("ereg", ereg_fn); ("egrep", egrep_fn); ("ereg_replace", ereg_replace_fn);
   ("eregmatch", eregmatch_fn)].
Definition RegularExpressions {W} : FunctionSet W :=
  list_to_map (map (fun x => (x.1, stateless x.2)) regex_functions).
End Regex.
