(* ===== verification/Nvt.v ===== *)
(** * Vulnerability tests in storage

    [storage/item.rs]: the metadata of a script ([Nvt]), the fields it is built from,
    the enums of its tags, and the dispatcher that collects the fields of one
    description run; with the advisories of [models/advisories.rs] that become tests. *)

From S2P Require Import Prelude RustStr Token Statement NaslValue Errors.
Local Open Scope string_scope.

Abbreviation Primitive := NaslValue.Primitive.

#[global] Instance Primitive_eq_dec : EqDecision Primitive.
Proof.
  refine (fix go (p q : NaslValue.Primitive) : Decision (p = q) :=
    let _ : EqDecision NaslValue.Primitive := @go in
    match p, q with
    | NaslValue.PString a, NaslValue.PString b => cast_if (decide (a = b))
    | NaslValue.PData a, NaslValue.PData b => cast_if (decide (a = b))
    | NaslValue.PNumber a, NaslValue.PNumber b => cast_if (decide (a = b))
    | NaslValue.PArray a, NaslValue.PArray b => cast_if (decide (a = b))
    | NaslValue.PDict a, NaslValue.PDict b => cast_if (decide (a = b))
    | NaslValue.PBoolean a, NaslValue.PBoolean b => cast_if (decide (a = b))
    | NaslValue.PNull, NaslValue.PNull => left eq_refl
    | _, _ => right _
    end); abstract congruence.
Defined.

(** ** Enums with a text form

    [make_str_lookup_enum!]: each variant has one name; [from_str] finds the variant of
    a name. *)
Section LookupEnum.
Context {K : Type}.

Fixpoint lookup_name (names : list (string * K)) (s : string) : option K :=
  match names with
  | [] => None
  | (n, k) :: names' => if decide (s = n) then Some k else lookup_name names' s
  end.

Fixpoint name_of `{EqDecision K} (names : list (string * K)) (k : K) : string :=
  match names with
  | [] => ""
  | (n, k') :: names' => if decide (k = k') then n else name_of names' k
  end.
End LookupEnum.

Module TagKey.
Inductive t : Set :=
| Affected | CreationDate | CvssBase | CvssBaseVector | Deprecated | Impact | Insight
| LastModification | Qod | QodType | SeverityDate | SeverityOrigin | SeverityVector
| Solution | SolutionMethod | SolutionType | Summary | Vuldetect.

#[global] Instance eq_dec : EqDecision t.
Proof. solve_decision. Defined.

Definition names : list (string * t) :=
  [("affected", Affected); ("creation_date", CreationDate); ("cvss_base", CvssBase);
   ("cvss_base_vector", CvssBaseVector); ("deprecated", Deprecated); ("impact", Impact);
   ("insight", Insight); ("last_modification", LastModification); ("qod", Qod);
   ("qod_type", QodType); ("severity_date", SeverityDate); ("severity_origin", SeverityOrigin);
   ("severity_vector", SeverityVector); ("solution", Solution);
   ("solution_method", SolutionMethod); ("solution_type", SolutionType);
   ("summary", Summary); ("vuldetect", Vuldetect)].

Definition from_str (s : string) : t + StorageError.t :=
  match lookup_name names s with
  | Some k => inl k
  | None => inr (StorageError.UnexpectedData ("TagKey: " ++ s))
  end.
Definition as_ref (k : t) : string := name_of names k.

#[global] Instance countable : Countable t.
Proof.
  apply (inj_countable as_ref (lookup_name names)). intros []; reflexivity.
Defined.
End TagKey.

Module SolutionType.
Inductive t : Set := Mitigation | NoneAvailable | VendorFix | WillNotFix | Workaround.

#[global] Instance eq_dec : EqDecision t.
Proof. solve_decision. Defined.

Definition names : list (string * t) :=
  [("Mitigation", Mitigation); ("NoneAvailable", NoneAvailable); ("VendorFix", VendorFix);
   ("WillNotFix", WillNotFix); ("Workaround", Workaround)].

Definition from_str (s : string) : t + StorageError.t :=
  match lookup_name names s with
  | Some k => inl k
  | None => inr (StorageError.UnexpectedData ("SolutionType: " ++ s))
  end.
Definition as_ref (k : t) : string := name_of names k.
End SolutionType.

Module QodType.
Inductive t : Set :=
| ExecutableVersion | ExecutableVersionUnreliable | Exploit | GeneralNote | Package | Registry
| RemoteActive | RemoteAnalysis | RemoteApp | RemoteBanner | RemoteBannerUnreliable
| RemoteProbe | RemoteVul | PackageUnreliable | Default.

#[global] Instance eq_dec : EqDecision t.
Proof. solve_decision. Defined.

Definition names : list (string * t) :=
  [("executable_version", ExecutableVersion);
   ("executable_version_unreliable", ExecutableVersionUnreliable); ("exploit", Exploit);
   ("general_note", GeneralNote); ("package", Package); ("registry", Registry);
   ("remote_active", RemoteActive); ("remote_analysis", RemoteAnalysis);
   ("remote_app", RemoteApp); ("remote_banner", RemoteBanner);
   ("remote_banner_unreliable", RemoteBannerUnreliable); ("remote_probe", RemoteProbe);
   ("remote_vul", RemoteVul); ("package_unreliable", PackageUnreliable); ("default", Default)].

Definition from_str (s : string) : t + StorageError.t :=
  match lookup_name names s with
  | Some k => inl k
  | None => inr (StorageError.UnexpectedData ("QodType: " ++ s))
  end.
Definition as_ref (k : t) : string := name_of names k.

(** [From<QodType> for i64] *)
Definition as_i64 (v : t) : Z :=
  match v with
  | Exploit => 100 | RemoteVul => 99 | RemoteApp => 98 | Package => 97 | Registry => 97
  | RemoteActive => 95 | RemoteBanner => 80 | ExecutableVersion => 80 | RemoteAnalysis => 70
  | RemoteProbe => 50 | PackageUnreliable => 30 | RemoteBannerUnreliable => 30
  | ExecutableVersionUnreliable => 30 | GeneralNote => 1 | Default => 70
  end%Z.
End QodType.

Module PreferenceType.
Inductive t : Set := CheckBox | Entry | File | Password | Radio | SshLogin | Integer.

#[global] Instance eq_dec : EqDecision t.
Proof. solve_decision. Defined.

Definition names : list (string * t) :=
  [("checkbox", CheckBox); ("entry", Entry); ("file", File); ("password", Password);
   ("radio", Radio); ("sshlogin", SshLogin); ("integer", Integer)].

Definition from_str (s : string) : t + StorageError.t :=
  match lookup_name names s with
  | Some k => inl k
  | None => inr (StorageError.UnexpectedData ("PreferenceType: " ++ s))
  end.
Definition as_ref (k : t) : string := name_of names k.
End PreferenceType.

(** ** Preferences and references *)
Record NvtPreference := mkNvtPreference {
  pref_id : option Z; pref_class : PreferenceType.t; pref_name : string; pref_default : string
}.

Record NvtRef := mkNvtRef { ref_class : string; ref_id : string }.

#[global] Instance NvtPreference_eq_dec : EqDecision NvtPreference.
Proof. solve_decision. Defined.
#[global] Instance NvtRef_eq_dec : EqDecision NvtRef.
Proof. solve_decision. Defined.

(** ** [Nvt] *)
Record Nvt := mkNvt {
  oid : string; name : string; filename : string;
  tag : gmap TagKey.t Primitive;
  dependencies : list string; required_keys : list string; mandatory_keys : list string;
  excluded_keys : list string; required_ports : list string; required_udp_ports : list string;
  references : list NvtRef; preferences : list NvtPreference;
  category : ACT.t; family : string
}.

#[global] Instance Nvt_eq_dec : EqDecision Nvt.
Proof. solve_decision. Defined.

(** [Nvt::default()] *)
Definition default_nvt : Nvt :=
  mkNvt "" "" "" ∅ [] [] [] [] [] [] [] [] ACT.End "".

Inductive NVTField : Type :=
| Oid (s : string)
| FileName (s : string)
| Version (s : string)
| Name (s : string)
| Tag (k : TagKey.t) (v : Primitive)
| Dependencies (l : list string)
| RequiredKeys (l : list string)
| MandatoryKeys (l : list string)
| ExcludedKeys (l : list string)
| RequiredPorts (l : list string)
| RequiredUdpPorts (l : list string)
| Preference (p : NvtPreference)
| Reference (l : list NvtRef)
| Category (c : ACT.t)
| Family (s : string)
| WholeNvt (n : Nvt)
| NoOp.

Inductive NVTKey : Set :=
| KOid | KFileName | KVersion | KName | KTag | KDependencies | KRequiredKeys | KMandatoryKeys
| KExcludedKeys | KRequiredPorts | KRequiredUdpPorts | KPreference | KReference | KCategory
| KFamily | KNvt | KNoOp.

(** Assignments to single fields. *)
Section Setters.
Variable n : Nvt.
Definition set_oid x := mkNvt x (name n) (filename n) (tag n) (dependencies n) (required_keys n)
  (mandatory_keys n) (excluded_keys n) (required_ports n) (required_udp_ports n) (references n)
  (preferences n) (category n) (family n).
Definition set_name x := mkNvt (oid n) x (filename n) (tag n) (dependencies n) (required_keys n)
  (mandatory_keys n) (excluded_keys n) (required_ports n) (required_udp_ports n) (references n)
  (preferences n) (category n) (family n).
Definition set_filename x := mkNvt (oid n) (name n) x (tag n) (dependencies n) (required_keys n)
  (mandatory_keys n) (excluded_keys n) (required_ports n) (required_udp_ports n) (references n)
  (preferences n) (category n) (family n).
Definition set_tag x := mkNvt (oid n) (name n) (filename n) x (dependencies n) (required_keys n)
  (mandatory_keys n) (excluded_keys n) (required_ports n) (required_udp_ports n) (references n)
  (preferences n) (category n) (family n).
Definition set_dependencies x := mkNvt (oid n) (name n) (filename n) (tag n) x (required_keys n)
  (mandatory_keys n) (excluded_keys n) (required_ports n) (required_udp_ports n) (references n)
  (preferences n) (category n) (family n).
Definition set_required_keys x := mkNvt (oid n) (name n) (filename n) (tag n) (dependencies n) x
  (mandatory_keys n) (excluded_keys n) (required_ports n) (required_udp_ports n) (references n)
  (preferences n) (category n) (family n).
Definition set_mandatory_keys x := mkNvt (oid n) (name n) (filename n) (tag n) (dependencies n)
  (required_keys n) x (excluded_keys n) (required_ports n) (required_udp_ports n) (references n)
  (preferences n) (category n) (family n).
Definition set_excluded_keys x := mkNvt (oid n) (name n) (filename n) (tag n) (dependencies n)
  (required_keys n) (mandatory_keys n) x (required_ports n) (required_udp_ports n) (references n)
  (preferences n) (category n) (family n).
Definition set_required_ports x := mkNvt (oid n) (name n) (filename n) (tag n) (dependencies n)
  (required_keys n) (mandatory_keys n) (excluded_keys n) x (required_udp_ports n) (references n)
  (preferences n) (category n) (family n).
Definition set_required_udp_ports x := mkNvt (oid n) (name n) (filename n) (tag n) (dependencies n)
  (required_keys n) (mandatory_keys n) (excluded_keys n) (required_ports n) x (references n)
  (preferences n) (category n) (family n).
Definition set_references x := mkNvt (oid n) (name n) (filename n) (tag n) (dependencies n)
  (required_keys n) (mandatory_keys n) (excluded_keys n) (required_ports n) (required_udp_ports n)
  x (preferences n) (category n) (family n).
Definition set_preferences x := mkNvt (oid n) (name n) (filename n) (tag n) (dependencies n)
  (required_keys n) (mandatory_keys n) (excluded_keys n) (required_ports n) (required_udp_ports n)
  (references n) x (category n) (family n).
Definition set_category x := mkNvt (oid n) (name n) (filename n) (tag n) (dependencies n)
  (required_keys n) (mandatory_keys n) (excluded_keys n) (required_ports n) (required_udp_ports n)
  (references n) (preferences n) x (family n).
Definition set_family x := mkNvt (oid n) (name n) (filename n) (tag n) (dependencies n)
  (required_keys n) (mandatory_keys n) (excluded_keys n) (required_ports n) (required_udp_ports n)
  (references n) (preferences n) (category n) x.
End Setters.

(** [Nvt::set_from_field]: the feed version is handed back as the error. *)
Definition set_from_field (n : Nvt) (f : NVTField) : outcome string Nvt :=
  match f with
  | Oid s => Ok (set_oid n s)
  | FileName s => Ok (set_filename n s)
  | Version s => Err s
  | Name s => Ok (set_name n s)
  | Tag k v => Ok (set_tag n (<[k := v]> (tag n)))
  | Dependencies l => Ok (set_dependencies n (dependencies n ++ l))
  | RequiredKeys l => Ok (set_required_keys n (required_keys n ++ l))
  | MandatoryKeys l => Ok (set_mandatory_keys n (mandatory_keys n ++ l))
  | ExcludedKeys l => Ok (set_excluded_keys n (excluded_keys n ++ l))
  | RequiredPorts l => Ok (set_required_ports n (required_ports n ++ l))
  | RequiredUdpPorts l => Ok (set_required_udp_ports n (required_udp_ports n ++ l))
  | Preference p => Ok (set_preferences n (preferences n ++ [p]))
  | Reference l => Ok (set_references n (references n ++ l))
  | Category c => Ok (set_category n c)
  | Family s => Ok (set_family n s)
  | NoOp => Ok n
  | WholeNvt x => Ok x
  end.

(** [Nvt::matches_field], for the fields of a test; no other field matches. *)
Definition matches_nvt_field (n : Nvt) (f : NVTField) : bool :=
  match f with
  | Oid x => bool_decide (oid n = x)
  | FileName x => bool_decide (filename n = x)
  | Name x => bool_decide (name n = x)
  | Tag a _ => match tag n !! a with Some _ => true | None => false end
  | Dependencies x => bool_decide (dependencies n = x)
  | RequiredKeys x => bool_decide (required_keys n = x)
  | MandatoryKeys x => bool_decide (mandatory_keys n = x)
  | ExcludedKeys x => bool_decide (excluded_keys n = x)
  | RequiredPorts x => bool_decide (required_ports n = x)
  | RequiredUdpPorts x => bool_decide (required_udp_ports n = x)
  | Preference x => bool_decide (x ∈ preferences n)
  | Reference x => bool_decide (references n = x)
  | Category x => bool_decide (category n = x)
  | Family x => bool_decide (family n = x)
  | WholeNvt x => bool_decide (n = x)
  | NoOp | Version _ => false
  end.

(** A field of a text or a list, unless it is empty. *)
Definition unless_empty (s : string) (f : NVTField) : list NVTField :=
  if decide (s = "") then [] else [f].
Definition unless_nil {A} (l : list A) (f : NVTField) : list NVTField :=
  match l with [] => [] | _ => [f] end.

(** [Nvt::key_as_field]: asking for the tags of a test that has some is left open
    ([todo!]). *)
Definition key_as_field (n : Nvt) (k : NVTKey) : outcome Empty_set (list NVTField) :=
  match k with
  | KOid => Ok (unless_empty (oid n) (Oid (oid n)))
  | KFileName => Ok (unless_empty (filename n) (FileName (filename n)))
  | KVersion => Ok []
  | KName => Ok (unless_empty (name n) (Name (name n)))
  | KTag => if decide (tag n = ∅) then Ok [] else Panic
  | KDependencies => Ok (unless_nil (dependencies n) (Dependencies (dependencies n)))
  | KRequiredKeys => Ok (unless_nil (required_keys n) (RequiredKeys (required_keys n)))
  | KMandatoryKeys => Ok (unless_nil (mandatory_keys n) (MandatoryKeys (mandatory_keys n)))
  | KExcludedKeys => Ok (unless_nil (excluded_keys n) (ExcludedKeys (excluded_keys n)))
  | KRequiredPorts => Ok (unless_nil (required_ports n) (RequiredPorts (required_ports n)))
  | KRequiredUdpPorts =>
      Ok (unless_nil (required_udp_ports n) (RequiredUdpPorts (required_udp_ports n)))
  | KPreference => Ok (map Preference (preferences n))
  | KReference => Ok (unless_nil (references n) (Reference (references n)))
  | KCategory => Ok [Category (category n)]
  | KFamily => Ok (unless_empty (family n) (Family (family n)))
  | KNvt => Ok [WholeNvt n]
  | KNoOp => Ok []
  end.

(** [From<NVTField> for Nvt] *)
Definition nvt_of_field (f : NVTField) : Nvt :=
  let d := default_nvt in
  match f with
  | Oid s => set_oid d s
  | FileName s => set_filename d s
  | Version _ => d
  | Name s => set_name d s
  | Tag k v => set_tag d (<[k := v]> ∅)
  | Dependencies l => set_dependencies d l
  | RequiredKeys l => set_required_keys d l
  | MandatoryKeys l => set_mandatory_keys d l
  | ExcludedKeys l => set_excluded_keys d l
  | RequiredPorts l => set_required_ports d l
  | RequiredUdpPorts l => set_required_udp_ports d l
  | Preference p => set_preferences d [p]
  | Reference l => set_references d l
  | Category c => set_category d c
  | Family s => set_family d s
  | WholeNvt n => n
  | NoOp => d
  end.

(** ** Tag values

    The date formats are parsed by the [time] crate: [parse_format i s] is format [i]
    of the three supported ones. *)
Class TimeFormats := { parse_format : nat -> list char -> option Z }.

(** [splitn(2, " (")] and the first part that is not empty. *)
Fixpoint split_paren (l : list char) : option (list char * list char) :=
  match l with
  | " "%char :: "("%char :: r => Some ([], r)
  | c :: l' =>
      match split_paren l' with Some (a, r) => Some (c :: a, r) | None => None end
  | [] => None
  end.

Definition before_paren (l : list char) : list char :=
  match split_paren l with
  | None => l
  | Some ([], r) => r
  | Some (a, _) => a
  end.

Definition as_timestamp `{TimeFormats} (s : string) : option Z :=
  let to_parse := before_paren (chars_of s) in
  head (omap (fun i => parse_format i to_parse) [0; 1; 2]%nat).

(** The text of [{key:?}]: the name of the variant. *)
Definition tag_debug (k : TagKey.t) : string :=
  match k with
  | TagKey.Affected => "Affected" | TagKey.CreationDate => "CreationDate"
  | TagKey.CvssBase => "CvssBase" | TagKey.CvssBaseVector => "CvssBaseVector"
  | TagKey.Deprecated => "Deprecated" | TagKey.Impact => "Impact" | TagKey.Insight => "Insight"
  | TagKey.LastModification => "LastModification" | TagKey.Qod => "Qod"
  | TagKey.QodType => "QodType" | TagKey.SeverityDate => "SeverityDate"
  | TagKey.SeverityOrigin => "SeverityOrigin" | TagKey.SeverityVector => "SeverityVector"
  | TagKey.Solution => "Solution" | TagKey.SolutionMethod => "SolutionMethod"
  | TagKey.SolutionType => "SolutionType" | TagKey.Summary => "Summary"
  | TagKey.Vuldetect => "Vuldetect"
  end.

Definition parse_tag `{TimeFormats} (key : TagKey.t) (value : string) :
  Primitive + StorageError.t :=
  let error := StorageError.UnexpectedData (tag_debug key ++ " => " ++ value) in
  match key with
  | TagKey.CreationDate | TagKey.LastModification | TagKey.SeverityDate =>
      match as_timestamp value with Some z => inl (NaslValue.PNumber z) | None => inr error end
  | TagKey.CvssBase => inl NaslValue.PNull
  | TagKey.Deprecated =>
      if bool_decide (value ∈ ["TRUE"; "true"; "1"]) then inl (NaslValue.PBoolean true)
      else if bool_decide (value ∈ ["FALSE"; "false"; "0"]) then inl (NaslValue.PBoolean false)
      else inr error
  | TagKey.SolutionType =>
      match SolutionType.from_str value with
      | inl x => inl (NaslValue.PString (SolutionType.as_ref x))
      | inr e => inr e
      end
  | TagKey.QodType =>
      match QodType.from_str value with
      | inl x => inl (NaslValue.PString (QodType.as_ref x))
      | inr e => inr e
      end
  | TagKey.Qod =>
      match i64_from_str_radix (chars_of value) 10 with
      | Some z => inl (NaslValue.PNumber z)
      | None => inr error
      end
  | _ => inl (NaslValue.PString value)
  end.

(** ** Advisories ([models/advisories.rs]) *)
Record Severity := mkSeverity {
  sev_origin : string; sev_date : Z; cvss_v2 : option string; cvss_v3 : option string
}.

Record Advisories := mkAdvisories {
  adv_title : string; adv_oid : string; adv_creation_date : Z; adv_last_modification : Z;
  advisory_id : string; advisory_xref : string; adv_cves : list string;
  adv_summary : string; adv_insight : string; adv_affected : string; adv_xrefs : list string;
  adv_qod_type : string; adv_severity : Severity
}.

Record VulnerabilityData := mkVulnerabilityData {
  vd_adv : Advisories; vd_family : string; vd_filename : string
}.

#[global] Instance Severity_eq_dec : EqDecision Severity.
Proof. solve_decision. Defined.
#[global] Instance Advisories_eq_dec : EqDecision Advisories.
Proof. solve_decision. Defined.
#[global] Instance VulnerabilityData_eq_dec : EqDecision VulnerabilityData.
Proof. solve_decision. Defined.

Record Vulnerability := mkVulnerability {
  vul_params : list string; vul_creation_date : Z; vul_last_modification : Z;
  vul_summary : string; vul_impact : string; vul_affected : string; vul_insight : string;
  vul_solution : string; vul_solution_type : string; vul_vuldetect : string;
  vul_qod_type : string; vul_severity_vector : string; vul_filename : string;
  vul_refs : gmap string (list string); vul_family : string; vul_name : string;
  vul_category : string
}.

(** [From<VulnerabilityData> for Vulnerability] *)
Definition vulnerability_of (data : VulnerabilityData) : Vulnerability :=
  let adv := vd_adv data in
  let sv :=
    match cvss_v2 (adv_severity adv) with
    | Some cvss => cvss
    | None => default "" (cvss_v3 (adv_severity adv))
    end in
  mkVulnerability [] (adv_creation_date adv) (adv_last_modification adv) (adv_summary adv) ""
    (adv_affected adv) (adv_insight adv) "Please install the updated package(s)." "VendorFix"
    "Checks if a vulnerable package version is present on the target host."
    (adv_qod_type adv) sv (vd_filename data) ∅ (vd_family data) (adv_title adv) "3".

(** [tag_to_vec]: the texts that are not empty and the dates that are set. *)
Definition insert_text (k : TagKey.t) (s : string) (tags : gmap TagKey.t Primitive) :
  gmap TagKey.t Primitive :=
  if decide (s = "") then tags else <[k := NaslValue.PString s]> tags.

Definition insert_date (k : TagKey.t) (z : Z) (tags : gmap TagKey.t Primitive) :
  gmap TagKey.t Primitive :=
  if decide (z = 0%Z) then tags else <[k := NaslValue.PNumber (wrap_i 64 z)]> tags.

Definition tag_to_vec (v : Vulnerability) : gmap TagKey.t Primitive :=
  let tags := insert_text TagKey.Affected (vul_affected v) ∅ in
  let tags := insert_text TagKey.Summary (vul_summary v) tags in
  let tags := insert_text TagKey.Impact (vul_impact v) tags in
  let tags := insert_text TagKey.Insight (vul_insight v) tags in
  let tags := insert_text TagKey.Solution (vul_solution v) tags in
  let tags := insert_text TagKey.SolutionType (vul_solution_type v) tags in
  let tags := insert_text TagKey.Vuldetect (vul_vuldetect v) tags in
  let tags := insert_text TagKey.QodType (vul_qod_type v) tags in
  let tags := insert_text TagKey.SeverityVector (vul_severity_vector v) tags in
  let tags := insert_date TagKey.CreationDate (vul_creation_date v) tags in
  insert_date TagKey.LastModification (vul_last_modification v) tags.

Definition get_refs `{HashOrder} (refs : gmap string (list string)) : list NvtRef :=
  kv ← iter refs; map (mkNvtRef kv.1) kv.2.

(** [From<(&str, Vulnerability)> for Nvt] *)
Definition nvt_of_vulnerability `{HashOrder} (id : string) (v : Vulnerability) : Nvt :=
  mkNvt id (vul_name v) (vul_filename v) (tag_to_vec v) [] [] [] [] [] []
    (get_refs (vul_refs v)) [] ACT.GatherInfo (vul_family v).

(** [From<VulnerabilityData> for Nvt] *)
Definition nvt_of_advisory `{HashOrder} (value : VulnerabilityData) : Nvt :=
  nvt_of_vulnerability (adv_oid (vd_adv value)) (vulnerability_of value).
