(* ===== verification/Storage.v ===== *)
(** * The storage of the scanner

    [storage/mod.rs] and [storage/retrieve.rs]: what is stored (tests, knowledge base
    items, results, advisories), the in-memory store [DefaultDispatcher] with its
    operations, and the interface [Retriever] its clients use; and the dispatcher of
    [storage/item.rs] that collects one test.  Locks are taken and released within each
    operation and are not poisoned. *)

From S2P Require Import Prelude RustStr Token Statement NaslValue Errors Nvt.
Local Open Scope string_scope.

(** ** models/port.rs and models/result.rs *)
Inductive Protocol : Set := UDP | TCP.

Definition protocol_string (p : Protocol) : string :=
  match p with UDP => "udp" | TCP => "tcp" end.

Inductive ResultType : Set :=
| Alarm | Log | ErrorResult | HostStart | HostEnd | DeadHost | HostDetail.

Record Source := mkSource { s_type : string; source_name : string; source_description : string }.
Record Detail := mkDetail { detail_name : string; detail_value : string; detail_source : Source }.

Record ScanResult := mkScanResult {
  result_id : nat; r_type : ResultType; ip_address : option string; hostname : option string;
  result_oid : option string; port : option Z; protocol : option Protocol;
  message : option string; detail : option Detail
}.

(** ** Keys and fields *)
Inductive ContextKey : Type :=
| Scan (id : string) (target : option string)
| KeyFileName (s : string).

#[global] Instance ContextKey_eq_dec : EqDecision ContextKey.
Proof. solve_decision. Defined.
#[global] Instance ContextKey_countable : Countable ContextKey.
Proof.
  apply (inj_countable'
    (fun k => match k with Scan i t => inl (i, t) | KeyFileName s => inr s end)
    (fun k => match k with inl (i, t) => Scan i t | inr s => KeyFileName s end)).
  by intros [].
Defined.

(** [AsRef<str>] *)
Definition key_ref (k : ContextKey) : string :=
  match k with Scan x _ => x | KeyFileName x => x end.

Record Kb := mkKb { kb_key : string; kb_value : Primitive; kb_expire : option Z }.

Inductive Field : Type :=
| NVT (f : NVTField)
| KB (kb : Kb)
| Result (r : ScanResult)
| NotusAdvisory (a : option VulnerabilityData).

Inductive Retrieve : Type :=
| GetNVT (k : option NVTKey)
| GetKB (key : string)
| GetNotusAdvisory (s : option string)
| GetResult (id : option nat).

(** [Retrieve::scope] and [Retrieve::for_field] *)
Definition scope (r : Retrieve) : string :=
  match r with
  | GetNVT _ => "nvt"
  | GetKB _ => "kb"
  | GetNotusAdvisory _ => "notus"
  | GetResult _ => "result"
  end.

Definition for_key (k : NVTKey) (f : NVTField) : bool :=
  match k, f with
  | KOid, Oid _ | KFileName, FileName _ | KVersion, Version _ | KName, Name _ | KTag, Tag _ _
  | KDependencies, Dependencies _ | KRequiredKeys, RequiredKeys _
  | KMandatoryKeys, MandatoryKeys _ | KExcludedKeys, ExcludedKeys _
  | KRequiredPorts, RequiredPorts _ | KRequiredUdpPorts, RequiredUdpPorts _
  | KPreference, Preference _ | KReference, Reference _ | KCategory, Category _
  | KFamily, Family _ | KNoOp, NoOp | KNvt, WholeNvt _ => true
  | _, _ => false
  end.

Definition for_field (r : Retrieve) (field : Field) : bool :=
  match r, field with
  | GetNVT None, NVT _ => true
  | GetNVT (Some k), NVT f => for_key k f
  | GetKB s, KB kb => bool_decide (kb_key kb = s)
  | GetNotusAdvisory _, NotusAdvisory _ => true
  | GetResult None, Result _ => true
  | GetResult (Some id), Result r => bool_decide (result_id r = id)
  | _, _ => false
  end.

(** [Nvt::matches_field] and [Nvt::matches_any_field] *)
Definition matches_field (n : Nvt) (f : Field) : bool :=
  match f with
  | NVT x => matches_nvt_field n x
  | KB _ | NotusAdvisory _ | Result _ => false
  end.
Definition matches_any_field (n : Nvt) (fs : list Field) : bool := existsb (matches_field n) fs.

(** ** The interface of a retriever *)
Class Retriever (S : Type) := {
  retrieve : S -> ContextKey -> Retrieve -> outcome StorageError.t (list Field);
  retrieve_by_fields :
    S -> list Field -> Retrieve -> outcome StorageError.t (list (ContextKey * Field))
}.

(** The complete tests among retrieved fields. *)
Definition whole_nvts (l : list (ContextKey * Field)) : list Nvt :=
  omap (fun kf => match kf.2 with NVT (WholeNvt x) => Some x | _ => None end) l.

(** [ContextKey::default], [Retriever::vts], [results] and [result] *)
Definition default_key : ContextKey := KeyFileName "".

Section Retrievals.
Context {S : Type} `{Retriever S}.

Definition retrieved {A} (o : outcome StorageError.t (list Field)) (f : Field -> option A) :
  outcome StorageError.t (list A) :=
  match o with
  | Ok l => Ok (omap f l)
  | Err e => Err e
  | Panic => Panic
  | OutOfFuel => OutOfFuel
  end.

Definition retriever_vts (s : S) : outcome StorageError.t (list Nvt) :=
  retrieved (retrieve s default_key (GetNVT None))
    (fun x => match x with NVT (WholeNvt n) => Some n | _ => None end).

Definition retriever_results (s : S) (key : ContextKey) : outcome StorageError.t (list ScanResult) :=
  retrieved (retrieve s key (GetResult None)) (fun x => match x with Result r => Some r | _ => None end).

Definition retriever_result (s : S) (key : ContextKey) (id : nat) :
  outcome StorageError.t (option ScanResult) :=
  match retrieved (retrieve s key (GetResult (Some id)))
          (fun x => match x with Result r => Some r | _ => None end) with
  | Ok l => Ok (head l)
  | Err e => Err e
  | Panic => Panic
  | OutOfFuel => OutOfFuel
  end.
End Retrievals.

(** What clients rely on: asking for tests by fields returns, in some order, exactly the
    stored tests that match one of them. *)
Class NvtRetriever (S : Type) `{Retriever S} (feed : S -> list Nvt) : Prop := {
  retrieve_nvts s fields : exists l,
    retrieve_by_fields s fields (GetNVT None) = Ok l
    /\ whole_nvts l ≡ₚ List.filter (fun n => matches_any_field n fields) (feed s)
}.

(** ** [DefaultDispatcher] *)

(** The order in which a [HashSet] of advisories is iterated. *)
Class AdvisoryOrder := {
  adv_order : list VulnerabilityData -> list VulnerabilityData;
  adv_order_perm : forall l, adv_order l ≡ₚ l
}.

Record DefaultDispatcher := mkDispatcher {
  vts : gmap string Nvt;
  feed_version : string;
  advisories : list VulnerabilityData;
  kbs : gmap ContextKey (gmap string (list Kb));
  results : gmap string (list ScanResult)
}.

Definition new_dispatcher : DefaultDispatcher := mkDispatcher ∅ "" [] ∅ ∅.

Definition set_vts (s : DefaultDispatcher) x :=
  mkDispatcher x (feed_version s) (advisories s) (kbs s) (results s).
Definition set_feed_version (s : DefaultDispatcher) x :=
  mkDispatcher (vts s) x (advisories s) (kbs s) (results s).
Definition set_kbs (s : DefaultDispatcher) x :=
  mkDispatcher (vts s) (feed_version s) (advisories s) x (results s).
Definition set_results (s : DefaultDispatcher) x :=
  mkDispatcher (vts s) (feed_version s) (advisories s) (kbs s) x.
Definition set_advisories (s : DefaultDispatcher) x :=
  mkDispatcher (vts s) (feed_version s) x (kbs s) (results s).

Definition cache_nvt_field (s : DefaultDispatcher) (fname : string) (field : NVTField) :
  DefaultDispatcher :=
  match vts s !! fname with
  | Some vt =>
      match set_from_field vt field with
      | Ok vt' => set_vts s (<[fname := vt']> (vts s))
      | Err version => set_feed_version s version
      | _ => s
      end
  | None =>
      match set_from_field default_nvt field with
      | Ok nvt =>
          let nvt := if decide (filename nvt = "") then set_filename nvt fname else nvt in
          set_vts s (<[filename nvt := nvt]> (vts s))
      | Err version => set_feed_version s version
      | _ => s
      end
  end.

Definition cache_kb (s : DefaultDispatcher) (ck : ContextKey) (kb : Kb) : DefaultDispatcher :=
  match kbs s !! ck with
  | Some scan_entry =>
      match scan_entry !! kb_key kb with
      | Some kb_entry =>
          if existsb (fun x => bool_decide (kb_value x = kb_value kb)) kb_entry then s
          else set_kbs s (<[ck := <[kb_key kb := (kb_entry ++ [kb])%list]> scan_entry]> (kbs s))
      | None => set_kbs s (<[ck := <[kb_key kb := [kb]]> scan_entry]> (kbs s))
      end
  | None => set_kbs s (<[ck := {[kb_key kb := [kb]]}]> (kbs s))
  end.

Definition replace_kb (s : DefaultDispatcher) (ck : ContextKey) (kb : Kb) : DefaultDispatcher :=
  match kbs s !! ck with
  | Some scan_entry => set_kbs s (<[ck := <[kb_key kb := [kb]]> scan_entry]> (kbs s))
  | None => set_kbs s (<[ck := {[kb_key kb := [kb]]}]> (kbs s))
  end.

Definition cache_result (s : DefaultDispatcher) (scan_id : string) (r : ScanResult) :
  DefaultDispatcher :=
  match results s !! scan_id with
  | Some entry => set_results s (<[scan_id := (entry ++ [r])%list]> (results s))
  | None => set_results s (<[scan_id := [r]]> (results s))
  end.

Definition cache_notus_advisory (s : DefaultDispatcher) (a : VulnerabilityData) :
  DefaultDispatcher :=
  if decide (a ∈ advisories s) then s else set_advisories s (advisories s ++ [a])%list.

Definition dispatch (s : DefaultDispatcher) (key : ContextKey) (scope : Field) :
  DefaultDispatcher :=
  match scope with
  | NVT x => cache_nvt_field s (key_ref key) x
  | KB x => cache_kb s key x
  | NotusAdvisory (Some x) => cache_notus_advisory s x
  | NotusAdvisory None => s
  | Result x => cache_result s (key_ref key) x
  end.

Definition dispatch_replace (s : DefaultDispatcher) (key : ContextKey) (scope : Field) :
  DefaultDispatcher :=
  match scope with
  | NVT x => cache_nvt_field s (key_ref key) x
  | KB x => replace_kb s key x
  | NotusAdvisory (Some x) => cache_notus_advisory s x
  | NotusAdvisory None => s
  | Result x => cache_result s (key_ref key) x
  end.

Definition clean_vts (s : DefaultDispatcher) : DefaultDispatcher :=
  set_feed_version (set_vts s ∅) "".
Definition clean_advisories (s : DefaultDispatcher) : DefaultDispatcher := set_advisories s [].

(** [HashMap::remove] hands back what was there. *)
Definition remove_kb `{HashOrder} (s : DefaultDispatcher) (key : ContextKey) (k : option string) :
  option (list Kb) * DefaultDispatcher :=
  match k with
  | None => ((fun m => concat (iter m).*2) <$> kbs s !! key, set_kbs s (delete key (kbs s)))
  | Some x =>
      match kbs s !! key with
      | Some m => (m !! x, set_kbs s (<[key := delete x m]> (kbs s)))
      | None => (None, s)
      end
  end.

(** [Iterator::position] by identifier. *)
Fixpoint position_of (id : nat) (l : list ScanResult) : option nat :=
  match l with
  | [] => None
  | r :: l' => if decide (result_id r = id) then Some 0%nat else S <$> position_of id l'
  end.

Definition remove_result (s : DefaultDispatcher) (key : ContextKey) (id : option nat) :
  option (list ScanResult) * DefaultDispatcher :=
  match id with
  | Some id =>
      match results s !! key_ref key with
      | Some rs =>
          match position_of id rs with
          | Some i =>
              ((fun r => [r]) <$> rs !! i,
               set_results s (<[key_ref key := delete i rs]> (results s)))
          | None => (None, s)
          end
      | None => (None, s)
      end
  | None => (results s !! key_ref key, set_results s (delete (key_ref key) (results s)))
  end.

(** [Storage::scan_finished] and [Storage::remove_scan] *)
Definition scan_finished `{HashOrder} (s : DefaultDispatcher) (key : ContextKey) :
  DefaultDispatcher := (remove_kb s key None).2.
Definition remove_scan `{HashOrder} (s : DefaultDispatcher) (key : ContextKey) :
  list ScanResult * DefaultDispatcher :=
  let '(rs, s') := remove_result (remove_kb s key None).2 key None in
  (default [] rs, s').

Section Retrieving.
Context `{HashOrder} `{AdvisoryOrder}.

Definition all_vts (s : DefaultDispatcher) : list Nvt :=
  ((iter (vts s)).*2 ++ map nvt_of_advisory (adv_order (advisories s)))%list.

(** [flat_map] of [key_as_field] over the tests. *)
Fixpoint fields_of (k : NVTKey) (l : list (string * Nvt)) :
  outcome StorageError.t (list (ContextKey * Field)) :=
  match l with
  | [] => Ok []
  | (f, n) :: l' =>
      match key_as_field n k with
      | Ok fs =>
          match fields_of k l' with
          | Ok rest => Ok (map (fun x => (KeyFileName f, NVT x)) fs ++ rest)%list
          | o => o
          end
      | _ => Panic
      end
  end.

Definition keyed_vts (s : DefaultDispatcher) : list (string * Nvt) :=
  (iter (vts s)
   ++ map (fun a => (vd_filename a, nvt_of_advisory a)) (adv_order (advisories s)))%list.

Definition dispatcher_retrieve (s : DefaultDispatcher) (key : ContextKey) (scope : Retrieve) :
  outcome StorageError.t (list Field) :=
  match scope with
  | GetNVT (None | Some KNvt) => Ok (map (fun x => NVT (WholeNvt x)) (all_vts s))
  | GetNVT (Some KVersion) => Ok [NVT (Version (feed_version s))]
  | GetNVT (Some x) =>
      match fields_of x (map (fun n => (filename n, n)) (all_vts s)) with
      | Ok l => Ok l.*2
      | Err e => Err e
      | Panic => Panic
      | OutOfFuel => OutOfFuel
      end
  | GetKB kb_id => Ok (map KB (default [] (kbs s !! key ≫= fun m => m !! kb_id)))
  | GetNotusAdvisory _ => Ok (map (fun a => NotusAdvisory (Some a)) (adv_order (advisories s)))
  | GetResult None => Ok (map Result (default [] (results s !! key_ref key)))
  | GetResult (Some id) =>
      Ok (map Result (List.filter (fun r => bool_decide (result_id r = id))
            (default [] (results s !! key_ref key))))
  end.

Definition dispatcher_retrieve_by_fields (s : DefaultDispatcher) (fs : list Field)
  (scope : Retrieve) : outcome StorageError.t (list (ContextKey * Field)) :=
  match scope with
  | GetNVT (None | Some KNvt) =>
      Ok (map (fun x => (KeyFileName (filename x), NVT (WholeNvt x)))
           (List.filter (fun y => matches_any_field y fs) (all_vts s)))
  | GetNVT (Some x) =>
      fields_of x (List.filter (fun kn => matches_any_field kn.2 fs) (keyed_vts s))
  | GetNotusAdvisory _ | GetKB _ | GetResult _ => Ok []
  end.

#[global] Instance dispatcher_retriever : Retriever DefaultDispatcher := {|
  retrieve := dispatcher_retrieve;
  retrieve_by_fields := dispatcher_retrieve_by_fields
|}.
End Retrieving.

(** [Dispatcher::retry_dispatch]; [f] is the dispatch. *)
Fixpoint retry_dispatch {D} (f : D -> outcome StorageError.t unit * D) (retries : nat) (d : D) :
  outcome StorageError.t unit * D :=
  match f d with
  | (Err (StorageError.Retry s), d') =>
      match retries with
      | 0 => (Err (StorageError.Retry s), d')
      | S retries' => retry_dispatch f retries' d'
      end
  | r => r
  end%nat.

(** ** retrieve.rs: retries *)
Fixpoint retry {A} (f : nat -> outcome StorageError.t A) (i max : nat) :
  outcome StorageError.t A :=
  match max with
  | 0 => Err StorageError.RetryExhausted
  | S max' =>
      match f i with
      | Err (StorageError.Retry _) => retry f (S i) max'
      | r => r
      end
  end%nat.

(** ** [PerItemDispatcher]: one test at a time

    The dispatcher behind it is threaded; its operations return the error of their
    [Result]. *)
Class ItemDispatcher (D : Type) := {
  dispatch_nvt : D -> Nvt -> outcome StorageError.t unit * D;
  dispatch_feed_version : D -> string -> outcome StorageError.t unit * D;
  dispatch_kb : D -> ContextKey -> Kb -> outcome StorageError.t unit * D;
  dispatch_advisory : D -> string -> option VulnerabilityData -> outcome StorageError.t unit * D
}.

Section PerItem.
Context {D : Type} `{ItemDispatcher D}.

Record PerItemDispatcher := mkPerItem { item_nvt : option Nvt; dispatcher : D }.

Abbreviation PI := (M PerItemDispatcher StorageError.t).

Definition new_per_item (d : D) : PerItemDispatcher := mkPerItem None d.

(** A call of the dispatcher behind it. *)
Definition inner {A} (f : D -> outcome StorageError.t A * D) : PI A := fun p =>
  let '(o, d) := f (dispatcher p) in (o, mkPerItem (item_nvt p) d).

Definition store_nvt_field (f : NVTField) : PI unit :=
  p ← get;
  match set_from_field (default default_nvt (item_nvt p)) f with
  | Ok nvt => put (mkPerItem (Some nvt) (dispatcher p))
  | Err version => inner (fun d => dispatch_feed_version d version)
  | _ => mret tt
  end.

(** [dispatch] and [dispatch_replace] do the same; a result is dispatched by a call of
    [dispatch] again. *)
Fixpoint item_dispatch (fuel : nat) (key : ContextKey) (scope : Field) : PI unit :=
  match fuel with
  | 0%nat => out_of_fuel
  | S fuel' =>
      match scope with
      | NVT nvt => store_nvt_field nvt
      | KB kb => inner (fun d => dispatch_kb d key kb)
      | NotusAdvisory adv => inner (fun d => dispatch_advisory d (key_ref key) adv)
      | Result r => item_dispatch fuel' key (Result r)
      end
  end.

Definition on_exit (key : ContextKey) : PI unit :=
  p ← get;
  inner (fun d => dispatch_nvt d (default default_nvt (item_nvt p)));;
  modify (fun p => mkPerItem None (dispatcher p)).
End PerItem.
