(* ===== verification/StorageProps.v ===== *)
(** * What the storage keeps

    The in-memory store returns what was dispatched: tests by their fields, knowledge
    base items under their keys, without repeated values; the fields of a description
    run add up to one test in both dispatchers. *)

From S2P Require Import Prelude RustStr Token Statement NaslValue Errors Nvt Storage.
Local Open Scope nat_scope.

(** ** Names of enums *)
Lemma lookup_name_inv {K} (names : list (string * K)) s k :
  lookup_name names s = Some k -> (s, k) ∈ names.
Proof.
  induction names as [|[n k'] names IH]; simpl; [done|].
  destruct (decide (s = n)) as [->|]; [intros [= <-]; left|intros; right; by apply IH].
Qed.

Ltac names_inv H := apply lookup_name_inv in H; simpl in H;
  repeat (apply elem_of_cons in H as [H|H]; [by injection H as -> -> |]);
  by apply elem_of_nil in H.

(** Names and variants of the enums of a test correspond one to one: the name of a
    variant is read back as this variant, and whatever is read has this name. *)
Theorem enum_names_roundtrip :
  (forall k, TagKey.from_str (TagKey.as_ref k) = inl k)
  /\ (forall s k, TagKey.from_str s = inl k -> TagKey.as_ref k = s)
  /\ (forall k, SolutionType.from_str (SolutionType.as_ref k) = inl k)
  /\ (forall s k, SolutionType.from_str s = inl k -> SolutionType.as_ref k = s)
  /\ (forall k, QodType.from_str (QodType.as_ref k) = inl k)
  /\ (forall s k, QodType.from_str s = inl k -> QodType.as_ref k = s)
  /\ (forall k, PreferenceType.from_str (PreferenceType.as_ref k) = inl k)
  /\ (forall s k, PreferenceType.from_str s = inl k -> PreferenceType.as_ref k = s).
Proof.
  split_and!; try (by intros []).
  - intros s k. unfold TagKey.from_str. destruct (lookup_name _ s) as [k'|] eqn:E; [|done].
    intros [= ->]. names_inv E.
  - intros s k. unfold SolutionType.from_str. destruct (lookup_name _ s) as [k'|] eqn:E; [|done].
    intros [= ->]. names_inv E.
  - intros s k. unfold QodType.from_str. destruct (lookup_name _ s) as [k'|] eqn:E; [|done].
    intros [= ->]. names_inv E.
  - intros s k. unfold PreferenceType.from_str. destruct (lookup_name _ s) as [k'|] eqn:E; [|done].
    intros [= ->]. names_inv E.
Qed.

(** ** Retrieving tests *)
Section Retrieving.
Context `{HashOrder} `{AdvisoryOrder}.

(** The store is a retriever of tests. *)
#[global] Instance dispatcher_nvts : NvtRetriever DefaultDispatcher all_vts.
Proof.
  split. intros s fields. eexists. split; [reflexivity|]. unfold whole_nvts.
  induction (List.filter _ (all_vts s)) as [|n l IH]; [done|]. by simpl; constructor.
Qed.
End Retrieving.

(** ** Knowledge base items *)
Definition kb_items (s : DefaultDispatcher) (ck : ContextKey) (k : string) : list Kb :=
  default [] (kbs s !! ck ≫= fun m => m !! k).

(** The abstract knowledge base: a list of items for each context and key. *)
Definition kb_spec := ContextKey -> string -> list Kb.

Definition spec_add (f : kb_spec) (ck : ContextKey) (kb : Kb) : kb_spec := fun ck' k' =>
  if decide (ck' = ck /\ k' = kb_key kb) then
    if decide (kb_value kb ∈ kb_value <$> f ck (kb_key kb)) then f ck (kb_key kb)
    else f ck (kb_key kb) ++ [kb]
  else f ck' k'.

Definition spec_replace (f : kb_spec) (ck : ContextKey) (kb : Kb) : kb_spec := fun ck' k' =>
  if decide (ck' = ck /\ k' = kb_key kb) then [kb] else f ck' k'.

Definition spec_remove (f : kb_spec) (ck : ContextKey) (k : option string) : kb_spec :=
  fun ck' k' =>
  if bool_decide (ck' = ck) && match k with Some x => bool_decide (k' = x) | None => true end
  then [] else f ck' k'.

(** Writing the items of one key. *)
Definition put_items (s : DefaultDispatcher) (ck : ContextKey) (k : string) (l : list Kb) :
  DefaultDispatcher := set_kbs s (<[ck := <[k := l]> (default ∅ (kbs s !! ck))]> (kbs s)).

Lemma kb_items_put s ck k l ck' k' :
  kb_items (put_items s ck k l) ck' k'
  = if decide (ck' = ck /\ k' = k) then l else kb_items s ck' k'.
Proof.
  unfold kb_items, put_items. simpl. destruct (decide (ck' = ck)) as [->|Hne].
  - rewrite lookup_insert_eq. simpl. destruct (decide (k' = k)) as [->|Hk].
    + by rewrite lookup_insert_eq, decide_True.
    + rewrite lookup_insert_ne, decide_False by (done || by intros []). by destruct (kbs s !! ck).
  - by rewrite lookup_insert_ne, decide_False by (done || by intros []).
Qed.

Lemma existsb_value l v :
  existsb (fun x => bool_decide (kb_value x = v)) l = bool_decide (v ∈ kb_value <$> l).
Proof.
  apply eq_true_iff_eq. rewrite existsb_exists, bool_decide_eq_true, list_elem_of_fmap. split.
  - intros (x & Hx & Hv%bool_decide_eq_true). exists x. by rewrite list_elem_of_In.
  - intros (x & -> & Hx). exists x. rewrite <- list_elem_of_In. split; [done|].
    by apply bool_decide_eq_true.
Qed.

Lemma cache_kb_eq s ck kb : cache_kb s ck kb =
  if decide (kb_value kb ∈ kb_value <$> kb_items s ck (kb_key kb)) then s
  else put_items s ck (kb_key kb) (kb_items s ck (kb_key kb) ++ [kb]).
Proof.
  unfold cache_kb, put_items, kb_items. destruct (kbs s !! ck) as [m|]; simpl.
  - destruct (m !! kb_key kb) as [l|]; simpl; [|done].
    rewrite existsb_value. by case_bool_decide; case_decide.
  - done.
Qed.

Lemma replace_kb_eq s ck kb : replace_kb s ck kb = put_items s ck (kb_key kb) [kb].
Proof. unfold replace_kb, put_items. by destruct (kbs s !! ck). Qed.

Lemma cache_kb_spec s ck kb ck' k' :
  kb_items (cache_kb s ck kb) ck' k' = spec_add (kb_items s) ck kb ck' k'.
Proof.
  rewrite cache_kb_eq. unfold spec_add.
  destruct (decide (kb_value kb ∈ _)); [|apply kb_items_put].
  by destruct (decide (ck' = ck /\ k' = kb_key kb)) as [[-> ->]|].
Qed.

Lemma remove_kb_spec `{HashOrder} s ck k ck' k' :
  kb_items (remove_kb s ck k).2 ck' k' = spec_remove (kb_items s) ck k ck' k'.
Proof.
  unfold remove_kb, spec_remove, kb_items. destruct k as [x|]; simpl.
  - destruct (kbs s !! ck) as [m|] eqn:Em; simpl.
    + destruct (decide (ck' = ck)) as [->|Hne].
      * rewrite lookup_insert_eq, bool_decide_eq_true_2 by done. simpl. rewrite Em. simpl.
        destruct (decide (k' = x)) as [->|Hk].
        -- by rewrite lookup_delete_eq, bool_decide_eq_true_2.
        -- by rewrite lookup_delete_ne, bool_decide_eq_false_2.
      * by rewrite lookup_insert_ne, bool_decide_eq_false_2.
    + destruct (decide (ck' = ck)) as [->|Hne]; [|by rewrite bool_decide_eq_false_2].
      rewrite Em. simpl. by destruct (_ && _).
  - destruct (decide (ck' = ck)) as [->|Hne].
    + by rewrite lookup_delete_eq, bool_decide_eq_true_2.
    + by rewrite lookup_delete_ne, bool_decide_eq_false_2.
Qed.

(** Operations that touch the knowledge base. *)
Inductive kb_op : Type :=
| Add (ck : ContextKey) (kb : Kb)
| Replace (ck : ContextKey) (kb : Kb)
| Remove (ck : ContextKey) (k : option string).

Definition run_op `{HashOrder} (s : DefaultDispatcher) (o : kb_op) : DefaultDispatcher :=
  match o with
  | Add ck kb => dispatch s ck (KB kb)
  | Replace ck kb => dispatch_replace s ck (KB kb)
  | Remove ck k => (remove_kb s ck k).2
  end.

Definition run_spec (f : kb_spec) (o : kb_op) : kb_spec :=
  match o with
  | Add ck kb => spec_add f ck kb
  | Replace ck kb => spec_replace f ck kb
  | Remove ck k => spec_remove f ck k
  end.

Lemma run_op_spec `{HashOrder} s o ck k :
  kb_items (run_op s o) ck k = run_spec (kb_items s) o ck k.
Proof.
  destruct o; simpl; [apply cache_kb_spec| |apply remove_kb_spec].
  rewrite replace_kb_eq. apply kb_items_put.
Qed.

Lemma run_spec_ext f g o : (forall ck k, f ck k = g ck k) ->
  forall ck k, run_spec f o ck k = run_spec g o ck k.
Proof.
  intros E ck k. destruct o; simpl; unfold spec_add, spec_replace, spec_remove;
    by rewrite ?E.
Qed.

Lemma run_spec_distinct f o :
  (forall ck k, NoDup (kb_value <$> f ck k)) ->
  forall ck k, NoDup (kb_value <$> run_spec f o ck k).
Proof.
  intros Hf ck k. destruct o; simpl; unfold spec_add, spec_replace, spec_remove.
  - destruct (decide (ck = ck0 /\ k = kb_key kb)) as [[-> ->]|]; [|apply Hf].
    destruct (decide (kb_value kb ∈ _)) as [|Hn]; [apply Hf|].
    rewrite fmap_app. apply NoDup_app. split_and!; [apply Hf| |apply NoDup_singleton].
    intros v Hv ->%list_elem_of_singleton. done.
  - destruct (decide _); [apply NoDup_singleton|apply Hf].
  - destruct (_ && _); [constructor|apply Hf].
Qed.

(** C35: The knowledge base of the store refines a map from contexts and keys to lists of
    items: after any sequence of dispatches, replacements and removals, retrieving a key
    in a context returns what the map has there.  A dispatch adds an item at the end
    unless one with the same value is there, so no value occurs twice; a replacement
    leaves the new item alone; contexts and keys do not interfere. *)
Theorem kb_refines_map `{HashOrder} `{AdvisoryOrder} (ops : list kb_op) (ck : ContextKey)
    (k : string) :
  let s := foldl run_op new_dispatcher ops in
  let f := foldl run_spec (fun _ _ => []) ops in
  retrieve s ck (GetKB k) = Ok (map KB (f ck k)) /\ NoDup (kb_value <$> f ck k).
Proof.
  simpl. split.
  - assert (forall s f, (forall ck k, kb_items s ck k = f ck k) ->
      forall ck k, kb_items (foldl run_op s ops) ck k = foldl run_spec f ops ck k) as Href.
    { induction ops as [|o ops IH]; intros s f E ck' k'; simpl; [apply E|].
      apply IH. intros. rewrite run_op_spec. by apply run_spec_ext. }
    rewrite <- (Href new_dispatcher (fun _ _ => [])); [done|]. intros ck' k'.
    unfold kb_items. simpl. by rewrite lookup_empty.
  - assert (forall f, (forall ck k, NoDup (kb_value <$> f ck k)) ->
      forall ck k, NoDup (kb_value <$> foldl run_spec f ops ck k)) as Hd.
    { induction ops as [|o ops IH]; intros f Hf; simpl; [done|]. apply IH, run_spec_distinct, Hf. }
    apply Hd. intros. constructor.
Qed.

(** ** Description runs *)

(** The fields a script sets about itself. *)
Definition plain (f : NVTField) : bool :=
  match f with WholeNvt _ | Version _ | FileName _ => false | _ => true end.

Definition apply_field (n : Nvt) (f : NVTField) : Nvt :=
  match set_from_field n f with Ok n' => n' | _ => n end.

Definition collect_fields (n : Nvt) (fs : list NVTField) : Nvt := foldl apply_field n fs.

Lemma plain_ok n f : plain f = true -> set_from_field n f = Ok (apply_field n f).
Proof. by destruct f. Qed.

Lemma apply_filename n f x : plain f = true ->
  filename (apply_field n f) = filename n
  /\ apply_field (set_filename n x) f = set_filename (apply_field n f) x.
Proof. by destruct f. Qed.

Lemma cache_field_known s fname vt f : vts s !! fname = Some vt -> plain f = true ->
  cache_nvt_field s fname f = set_vts s (<[fname := apply_field vt f]> (vts s)).
Proof. intros E Hf. unfold cache_nvt_field. by rewrite E, plain_ok. Qed.

Lemma cache_fields_known s fname vt fs : vts s !! fname = Some vt ->
  Forall (fun f => plain f = true) fs ->
  vts (foldl (fun s f => dispatch s (KeyFileName fname) (NVT f)) s fs)
  = <[fname := collect_fields vt fs]> (vts s).
Proof.
  intros E Hfs. revert s vt E. induction Hfs as [|f fs Hf Hfs IH]; intros s vt E; simpl.
  - by rewrite insert_id.
  - rewrite (cache_field_known s fname vt) by done.
    erewrite IH by (simpl; by rewrite lookup_insert_eq). simpl. by rewrite insert_insert_eq.
Qed.

Lemma collect_set_filename n x fs : Forall (fun f => plain f = true) fs ->
  collect_fields (set_filename n x) fs = set_filename (collect_fields n fs) x.
Proof.
  intros Hfs. revert n. induction Hfs as [|f fs Hf Hfs IH]; intros n; simpl; [done|].
  by rewrite (proj2 (apply_filename n f x Hf)), IH.
Qed.

Section Collecting.
Context {D : Type} `{ItemDispatcher D}.

(** The fields of a run, dispatched one after the other. *)
Fixpoint dispatch_all (key : ContextKey) (fs : list NVTField) : M PerItemDispatcher StorageError.t unit :=
  match fs with
  | [] => mret tt
  | f :: fs' => item_dispatch 1 key (NVT f);; dispatch_all key fs'
  end.

Lemma dispatch_all_run key fs n d : Forall (fun f => plain f = true) fs ->
  dispatch_all key fs (mkPerItem (Some n) d) = (Ok tt, mkPerItem (Some (collect_fields n fs)) d).
Proof.
  intros Hfs. revert n. induction Hfs as [|f fs Hf Hfs IH]; intros n; [done|]. simpl.
  unfold mbind, M_bind, store_nvt_field, mbind, M_bind, get. simpl. rewrite plain_ok by done.
  simpl. apply IH.
Qed.
End Collecting.

(** Both dispatchers make the same test of the fields of a description run: the store
    keeps it under the name of the script and touches no other test; the collecting
    dispatcher hands it over when the run ends and is empty again, or keeps it when the
    hand-over failed. *)
Theorem description_run_collects {D} `{ItemDispatcher D} (s : DefaultDispatcher) (fname : string)
    (f : NVTField) (fs : list NVTField) (d : D) :
  Forall (fun f => plain f = true) (f :: fs) -> vts s !! fname = None ->
  let n := collect_fields default_nvt (f :: fs) in
  vts (foldl (fun s f => dispatch s (KeyFileName fname) (NVT f)) s (f :: fs))
    = <[fname := set_filename n fname]> (vts s)
  /\ (dispatch_all (KeyFileName fname) (f :: fs);; on_exit (KeyFileName fname)) (new_per_item d)
    = let '(o, d') := dispatch_nvt d n in
      (o, mkPerItem (match o with Ok _ => None | _ => Some n end) d').
Proof.
  intros Hall Hn. inversion_clear Hall as [|? ? Hf Hfs]. split.
  - assert (dispatch s (KeyFileName fname) (NVT f)
      = set_vts s (<[fname := set_filename (apply_field default_nvt f) fname]> (vts s))) as Hd.
    { simpl. unfold cache_nvt_field. rewrite Hn, plain_ok by done.
      by rewrite (proj1 (apply_filename default_nvt f fname Hf)), decide_True by done. }
    cbn [foldl]. rewrite Hd.
    erewrite cache_fields_known by (done || (simpl; by rewrite lookup_insert_eq)). simpl.
    by rewrite insert_insert_eq, collect_set_filename.
  - unfold mbind at 1, M_bind at 1. simpl.
    unfold mbind at 1, M_bind at 1, store_nvt_field, mbind at 1, M_bind at 1, get. simpl.
    rewrite plain_ok by done. simpl. rewrite dispatch_all_run by done.
    unfold on_exit, mbind, M_bind, get, inner, modify. simpl.
    unfold collect_fields. simpl. by destruct (dispatch_nvt d _) as [[[]| | |] d'].
Qed.

(** A dispatcher that counts the tests it gets. *)
#[global] Instance counting : ItemDispatcher (list Nvt) := {|
  dispatch_nvt := fun d n => (Ok tt, d ++ [n]);
  dispatch_feed_version := fun d _ => (Ok tt, d);
  dispatch_kb := fun d _ _ => (Ok tt, d);
  dispatch_advisory := fun d _ _ => (Ok tt, d)
|}.

Lemma description_run_collects_witness :
  vts (foldl (fun s f => dispatch s (KeyFileName "a.nasl") (NVT f)) new_dispatcher
        [Oid "1"; Dependencies ["b.nasl"]])
  = {["a.nasl" := set_filename (set_dependencies (set_oid default_nvt "1") ["b.nasl"]) "a.nasl"]}.
Proof.
  apply (description_run_collects (D := list Nvt) new_dispatcher "a.nasl" (Oid "1")
    [Dependencies ["b.nasl"]] []); [repeat constructor|reflexivity].
Defined.

(** Dispatching a result through the collecting dispatcher never returns: it calls
    itself with the same arguments, however long it runs, in every state. *)
Theorem item_result_dispatch_diverges {D} `{ItemDispatcher D} (fuel : nat) (key : ContextKey)
    (r : ScanResult) (p : PerItemDispatcher) :
  item_dispatch fuel key (Result r) p = (OutOfFuel, p).
Proof. induction fuel as [|fuel IH]; [done|apply IH]. Qed.
