(* ===== verification/Redis.v ===== *)
(** * The Redis back end ([storage/redis])

    The connector of [connector.rs]: databases of a Redis server chosen by number, by a key
    or as the next free one, the metadata of tests and the advisories kept there, and the
    dispatcher the feed update writes through; with the errors of [dberror.rs].

    The server and the crate that speaks to it are a parameter, the class [RedisServer]; the
    class [RedisLaws] states what the documentation of the commands says of an answered
    command.  A pipeline is its commands one after the other.  Texts are valid UTF-8. *)

From S2P Require Import Prelude RustStr Token Statement NaslValue Errors Register Executor FnArgs Files StringFns StringFnsProps Text Nvt Storage.
Local Open Scope string_scope.

(** ** dberror.rs *)
Module RedisErrorKind.
Inductive t : Set :=
| ResponseError | AuthenticationFailed | NoScriptError | ReadOnly | InvalidClientConfig | Moved
| Ask | IoError | TypeError | ClientError | CrossSlot | ExtensionError | ClusterDown | MasterDown
| ExecAbortError | BusyLoadingError | TryAgain | OtherKind.
End RedisErrorKind.
Record RedisError := mkRedisError { err_kind : RedisErrorKind.t; err_text : string }.

Module RedisDbError.
Inductive t : Type :=
| Unknown (s : string) | ConfigurationError (s : string) | IoError (s : string)
| PoisonedLock (s : string) | LibraryError (s : string) | ConnectionLost (s : string)
| Retry (s : string) | NoAvailDbErr.

(** [From<RedisError>] *)
Definition from_redis (e : RedisError) : t :=
  match err_kind e with
  | RedisErrorKind.ResponseError | RedisErrorKind.AuthenticationFailed
  | RedisErrorKind.NoScriptError | RedisErrorKind.ReadOnly | RedisErrorKind.InvalidClientConfig
  | RedisErrorKind.Moved | RedisErrorKind.Ask => ConfigurationError (err_text e)
  | RedisErrorKind.IoError => IoError (err_text e)
  | RedisErrorKind.TypeError | RedisErrorKind.ClientError | RedisErrorKind.CrossSlot
  | RedisErrorKind.ExtensionError => LibraryError (err_text e)
  | RedisErrorKind.ClusterDown | RedisErrorKind.MasterDown => ConnectionLost (err_text e)
  | RedisErrorKind.ExecAbortError | RedisErrorKind.BusyLoadingError | RedisErrorKind.TryAgain =>
      Retry (err_text e)
  | RedisErrorKind.OtherKind => Unknown (err_text e)
  end.

(** [Display] *)
Definition to_string (e : t) : string :=
  match e with
  | Unknown s => "Unclassified error occurred on redis: " ++ s ++ "."
  | ConfigurationError s => "Unable to use redis due to wrong configuration: " ++ s ++ "."
  | IoError s => "IOError within redis: " ++ s ++ "."
  | PoisonedLock s => "Poisoned lock: " ++ s ++ "."
  | LibraryError s => "Library issue: " ++ s
  | ConnectionLost s => "Connection lost: " ++ s
  | Retry s => "Temporary issue: " ++ s
  | NoAvailDbErr => "No DB available."
  end.

(** [From<DbError> for StorageError] *)
Definition to_storage (e : t) : StorageError.t :=
  match e with
  | Unknown _ | ConfigurationError _ | PoisonedLock _ | IoError _ | NoAvailDbErr =>
      StorageError.Dirty (to_string e)
  | ConnectionLost _ => StorageError.ConnectionLost (to_string e)
  | Retry _ => StorageError.Retry (to_string e)
  | LibraryError _ => StorageError.UnexpectedData (to_string e)
  end.
End RedisDbError.

(** ** The server *)
Inductive RedisCommand : Type :=
| Connect
| ConfigGetDatabases
| Select (db : Z)
| HSetNx (key field value : string)
| HDel (key field : string)
| Exists (key : string)
| RPush (key : string) (l : list string)
| LPush (key : string) (l : list string)
| Del (key : string)
| LIndex (key : string) (i : Z)
| LRange (key : string) (start stop : Z)
| Keys (pattern : string)
| FlushDb
| SetKey (key value : string)
| GetKey (key : string).

Inductive RedisReply : Type := ROk | RInt (z : Z) | RBulk (s : option string) | RArray (l : list string).

(** [redis_query sel c] is the answer to a command on a connection with database [sel]; the
    text of the crate's error for an answer of another type. *)
Class RedisServer (S : Type) := {
  redis_query : Z -> RedisCommand -> S -> (RedisReply + RedisError) * S;
  redis_type_text : string
}.

(** *** What the documentation says *)
Inductive RedisValue : Type :=
| RList (l : list string) | RHash (m : gmap string string) | RText (s : string).
Abbreviation Databases := (gmap Z (gmap string RedisValue)).

Definition db_of (d : Databases) (i : Z) : gmap string RedisValue := default ∅ (d !! i).
Definition set_db (d : Databases) (i : Z) (m : gmap string RedisValue) : Databases := <[i := m]> d.

(** The list or the hash under a key: a missing key is an empty one, [None] a value of
    another type. *)
Definition list_at (m : gmap string RedisValue) (k : string) : option (list string) :=
  match m !! k with None => Some [] | Some (RList l) => Some l | _ => None end.
Definition hash_at (m : gmap string RedisValue) (k : string) : option (gmap string string) :=
  match m !! k with None => Some ∅ | Some (RHash h) => Some h | _ => None end.

(** A hash without fields is no key. *)
Definition put_hash (k : string) (h : gmap string string) (m : gmap string RedisValue) :
  gmap string RedisValue :=
  if decide (h = ∅) then delete k m else <[k := RHash h]> m.

(** A pattern of [KEYS]; the ones used here have no other wildcard than the star. *)
Fixpoint key_matches (p k : list char) : bool :=
  match p with
  | [] => match k with [] => true | _ => false end
  | c :: p' =>
      if Ascii.eqb c "*" then
        (fix try k := key_matches p' k || match k with [] => false | _ :: k' => try k' end) k
      else match k with [] => false | d :: k' => Ascii.eqb c d && key_matches p' k' end
  end.

Definition list_index (l : list string) (i : Z) : option string :=
  let i := if (i <? 0)%Z then (i + Z.of_nat (length l))%Z else i in
  if (i <? 0)%Z then None else l !! Z.to_nat i.
Definition list_range (l : list string) (a b : Z) : list string :=
  let n := Z.of_nat (length l) in
  let a := Z.max 0 (if (a <? 0)%Z then a + n else a)%Z in
  let b := if (b <? 0)%Z then (b + n)%Z else b in
  take (Z.to_nat (b + 1 - a)) (drop (Z.to_nat a) l).

(** The answer of a server with [n] databases, and what it keeps; [None] is an error. *)
Definition serve (n sel : Z) (c : RedisCommand) (d : Databases) : option (RedisReply * Databases) :=
  let m := db_of d sel in
  match c with
  | Connect => Some (ROk, d)
  | ConfigGetDatabases => Some (RArray ["databases"; pretty n], d)
  | Select i => if (0 <=? i)%Z && (i <? n)%Z then Some (ROk, d) else None
  | HSetNx k f v =>
      h ← hash_at m k;
      match h !! f with
      | Some _ => Some (RInt 0, d)
      | None => Some (RInt 1, set_db d sel (put_hash k (<[f := v]> h) m))
      end
  | HDel k f =>
      h ← hash_at m k;
      match h !! f with
      | Some _ => Some (RInt 1, set_db d sel (put_hash k (delete f h) m))
      | None => Some (RInt 0, d)
      end
  | Exists k => Some (RInt (if m !! k then 1 else 0), d)
  | RPush k l =>
      old ← list_at m k;
      match l with
      | [] => None
      | _ => Some (RInt (Z.of_nat (length (old ++ l))), set_db d sel (<[k := RList (old ++ l)%list]> m))
      end
  | LPush k l =>
      old ← list_at m k;
      match l with
      | [] => None
      | _ => Some (RInt (Z.of_nat (length (old ++ l))), set_db d sel (<[k := RList (rev l ++ old)%list]> m))
      end
  | Del k => Some (RInt (if m !! k then 1 else 0), set_db d sel (delete k m))
  | LIndex k i => l ← list_at m k; Some (RBulk (list_index l i), d)
  | LRange k a b => l ← list_at m k; Some (RArray (list_range l a b), d)
  | Keys p =>
      Some (RArray (filter (fun k => key_matches (chars_of p) (chars_of k) = true) (elements (dom m))), d)
  | FlushDb => Some (ROk, set_db d sel ∅)
  | SetKey k v => Some (ROk, set_db d sel (<[k := RText v]> m))
  | GetKey k =>
      match m !! k with
      | None => Some (RBulk None, d)
      | Some (RText s) => Some (RBulk (Some s), d)
      | _ => None
      end
  end.

(** The keys come in any order. *)
Definition same_reply (c : RedisCommand) (r r' : RedisReply) : Prop :=
  match c, r, r' with
  | Keys _, RArray l, RArray l' => l ≡ₚ l'
  | _, _, _ => r = r'
  end.

(** An answered command was executed; one that failed was executed or not; a server that is
    up answers. *)
Class RedisLaws (S : Type) `{RedisServer S} := {
  redis_databases : Z;
  redis_data : S -> Databases;
  redis_up : S -> Prop;
  redis_databases_u32 : in_u 32 redis_databases = true;
  redis_answer : forall sel c s r s', redis_query sel c s = (inl r, s') ->
    exists r', serve redis_databases sel c (redis_data s) = Some (r', redis_data s') /\ same_reply c r r';
  redis_failure : forall sel c s e s', redis_query sel c s = (inr e, s') ->
    redis_data s' = redis_data s
    \/ exists r, serve redis_databases sel c (redis_data s) = Some (r, redis_data s');
  redis_serves : forall sel c s r d, redis_up s -> serve redis_databases sel c (redis_data s) = Some (r, d) ->
    exists r' s', redis_query sel c s = (inl r', s') /\ redis_up s'
}.

(** ** Connections *)
Record Conn (S : Type) := mkConn { server : S; selected : Z }.
Arguments mkConn {S}.
Arguments server {S}.
Arguments selected {S}.

(** [NameSpaceSelector] *)
Inductive NameSpaceSelector : Type := Fix (db : Z) | Free | Key (k : string).

Definition CACHE_KEY : string := "nvticache".
Definition NOTUS_KEY : string := "notuscache".
Definition DB_INDEX : string := "GVM.__GlobalDBIndex".
Definition FEEDUPDATE_SELECTOR : list NameSpaceSelector := [Key CACHE_KEY; Free].
Definition NOTUSUPDATE_SELECTOR : list NameSpaceSelector := [Key NOTUS_KEY; Free].

Section Connection.
Context {S : Type} `{RedisServer S}.
Abbreviation C := (M (Conn S) RedisError).
Abbreviation CE := (M (Conn S) RedisDbError.t).

(** One command; [SELECT] changes the database of the connection. *)
Definition command (c : RedisCommand) : C RedisReply := fun k =>
  match redis_query (selected k) c (server k) with
  | (inl r, s) => (Ok r, mkConn s (match c with Select i => i | _ => selected k end))
  | (inr e, s) => (Err e, mkConn s (selected k))
  end.

(** [redis::pipe()]: every command is sent; the first error is the answer. *)
Fixpoint pipeline (l : list RedisCommand) : C (list RedisReply) :=
  match l with
  | [] => mret []
  | c :: l' =>
      r ← attempt (command c);
      rs ← attempt (pipeline l');
      match r, rs with
      | inr e, _ | inl _, inr e => throw e
      | inl r, inl rs => mret (r :: rs)
      end
  end.

(** Conversions of answers ([FromRedisValue]) *)
Definition type_error : RedisError := mkRedisError RedisErrorKind.TypeError redis_type_text.
Definition as_int (r : RedisReply) : option Z :=
  match r with RInt z => Some z | RBulk (Some s) => i_from_str 64 s | _ => None end.
Definition as_text (r : RedisReply) : option string :=
  match r with RBulk (Some s) => Some s | ROk => Some "OK" | _ => None end.
Definition as_texts (r : RedisReply) : option (list string) :=
  match r with RArray l => Some l | RBulk None => Some [] | RBulk (Some s) => Some [s] | _ => None end.
(** [RedisValueHandler] *)
Definition value_or_empty (r : RedisReply) : string :=
  match r with RBulk None => "" | _ => default "" (as_text r) end.

Definition converted {A} (f : RedisReply -> option A) (c : RedisCommand) : C A :=
  r ← command c; ok_or (f r) type_error.
Definition with_db_error {A} (m : C A) : CE A := err_into RedisDbError.from_redis m.

Definition max_db : CE Z :=
  with_db_error (converted (fun r => match r with RArray [_; n] => u_from_str 32 n | _ => None end)
    ConfigGetDatabases).
Definition select_namespace (idx : Z) : CE unit :=
  with_db_error (command (Select idx)) ;; mret tt.

(** The loop over [1..max_db] of a free database, and of one with a key *)
Fixpoint take_free (dbs : list Z) : CE Z :=
  match dbs with
  | [] => throw RedisDbError.NoAvailDbErr
  | dbi :: rest =>
      z ← with_db_error (converted as_int (HSetNx DB_INDEX (pretty dbi) "1"));
      if decide (z = 1%Z) then select_namespace dbi ;; mret dbi else take_free rest
  end.
Fixpoint find_key (key : string) (dbs : list Z) : CE Z :=
  match dbs with
  | [] => throw RedisDbError.NoAvailDbErr
  | dbi :: rest =>
      select_namespace dbi ;;
      z ← with_db_error (converted as_int (Exists key));
      if decide (z = 1%Z) then mret dbi else find_key key rest
  end.

Definition select (sel : NameSpaceSelector) : CE Z :=
  max ← max_db;
  match sel with
  | Fix dbi => select_namespace dbi ;; mret dbi
  | Free => select_namespace 0 ;; take_free (seqZ 1 (max - 1))
  | Key key => find_key key (seqZ 1 (max - 1))
  end.
End Connection.

(** ** [RedisCtx]: the database of the connection, and the one that was chosen *)
Record RedisCtx := mkRedisCtx { kb : option Z; ctx_db : Z }.

(** A context on a server. *)
Record Redis (S : Type) := mkRedis { redis : S; ctx : RedisCtx }.
Arguments mkRedis {S}.
Arguments redis {S}.
Arguments ctx {S}.

Section Ctx.
Context {S : Type} `{RedisServer S}.
Abbreviation R := (M (Redis S) RedisDbError.t).

(** [self.kb.as_mut().expect("Valid redis connection")] *)
Definition on_kb {A} (m : M (Conn S) RedisDbError.t A) : R A := fun r =>
  match kb (ctx r) with
  | None => (Panic, r)
  | Some sel =>
      let '(o, k) := m (mkConn (redis r) sel) in
      (o, mkRedis (server k) (mkRedisCtx (Some (selected k)) (ctx_db (ctx r))))
  end.

(** [RedisCtx::open]: the selectors in turn until one finds a database; a new connection
    starts with database 0.  [Connect] stands for [Client::open] and [get_connection]. *)
Fixpoint open_with (selector : list NameSpaceSelector) : M (Conn S) RedisDbError.t RedisCtx :=
  match selector with
  | [] => throw RedisDbError.NoAvailDbErr
  | s :: rest =>
      r ← attempt (select s);
      match r with
      | inl x => k ← gets selected; mret (mkRedisCtx (Some k) x)
      | inr RedisDbError.NoAvailDbErr => open_with rest
      | inr e => throw e
      end
  end.
Definition open (selector : list NameSpaceSelector) : M S RedisDbError.t RedisCtx := fun s =>
  let '(o, k) := (with_db_error (command Connect) ;; open_with selector) (mkConn s 0) in (o, server k).

Definition rpush (key : string) (val : list string) : R unit :=
  on_kb (with_db_error (command (RPush key val))) ;; mret tt.
Definition lpush (key : string) (val : list string) : R unit :=
  on_kb (with_db_error (command (LPush key val))) ;; mret tt.
Definition del (key : string) : R unit := on_kb (with_db_error (command (Del key))) ;; mret tt.
Definition lindex (key : string) (index : Z) : R string :=
  r ← on_kb (with_db_error (command (LIndex key index))); mret (value_or_empty r).
Definition lrange (key : string) (start stop : Z) : R (list string) :=
  on_kb (with_db_error (converted as_texts (LRange key start stop))).
Definition keys (pattern : string) : R (list string) :=
  on_kb (with_db_error (converted as_texts (Keys pattern))).

(** [pop]: all items of a list, which is deleted; an error panics. *)
Definition pop (key : string) : R (list string) :=
  r ← attempt (on_kb (with_db_error (pipeline [LRange key 0 (-1); Del key])));
  match r with
  | inl [l; _] => items ← or_panic (as_texts l); mret (rev items)
  | _ => panic
  end.

Definition release_namespace : R unit :=
  db ← gets (fun r => ctx_db (ctx r));
  on_kb (with_db_error (pipeline [Select 0; HDel DB_INDEX (pretty db); Select db])) ;; mret tt.
Definition flush_namespace : R unit := on_kb (with_db_error (command FlushDb)) ;; mret tt.
Definition delete_namespace : R unit := flush_namespace ;; release_namespace.

Definition set_value (key val : string) : R unit :=
  on_kb (with_db_error (command (SetKey key val))) ;; mret tt.
Definition value (key : string) : R string :=
  r ← on_kb (with_db_error (command (GetKey key))); mret (value_or_empty r).
End Ctx.

(** ** [RedisWrapper] *)
Class RedisWrapper (R : Type) := {
  rw_rpush : string -> list string -> M R RedisDbError.t unit;
  rw_lpush : string -> list string -> M R RedisDbError.t unit;
  rw_del : string -> M R RedisDbError.t unit;
  rw_lindex : string -> Z -> M R RedisDbError.t string;
  rw_lrange : string -> Z -> Z -> M R RedisDbError.t (list string);
  rw_keys : string -> M R RedisDbError.t (list string);
  rw_pop : string -> M R RedisDbError.t (list string)
}.
#[global] Instance redis_wrapper {S} `{RedisServer S} : RedisWrapper (Redis S) := {|
  rw_rpush := rpush; rw_lpush := lpush; rw_del := del; rw_lindex := lindex;
  rw_lrange := lrange; rw_keys := keys; rw_pop := pop
|}.

(** ** Tests in Redis *)

(** [Display for Primitive] *)
Fixpoint primitive_string (p : Primitive) : string :=
  match p with
  | NaslValue.PString x => x
  | NaslValue.PNumber x => pretty x
  | NaslValue.PArray x =>
      join_text "," ((fix go (i : nat) (l : list Primitive) : list string :=
        match l with [] => [] | v :: l' => (pretty i ++ ": " ++ primitive_string v) :: go (Datatypes.S i) l' end) 0%nat x)
  | NaslValue.PData x => string_of (map byte_as_char x)
  | NaslValue.PDict x =>
      join_text "," (map (fun kv => kv.1 ++ ": " ++ primitive_string kv.2) x)
  | NaslValue.PBoolean b => if b then "1" else "0"
  | NaslValue.PNull => string_of [EOF_CHAR]
  end.

(** The positions of the metadata in the list of a test *)
Module KbNvtPos.
Inductive t : Set :=
| Filename | RequiredKeys | MandatoryKeys | ExcludedKeys | RequiredUDPPorts | RequiredPorts
| Dependencies | Tags | Cves | Bids | Xrefs | Category | Family | Name.
Definition as_usize (p : t) : nat :=
  match p with
  | Filename => 0 | RequiredKeys => 1 | MandatoryKeys => 2 | ExcludedKeys => 3
  | RequiredUDPPorts => 4 | RequiredPorts => 5 | Dependencies => 6 | Tags => 7 | Cves => 8
  | Bids => 9 | Xrefs => 10 | Category => 11 | Family => 12 | Name => 13
  end.
End KbNvtPos.

(** [TryFrom<NVTKey> for KbNvtPos]; the error says that the key is handled otherwise. *)
Definition kb_pos_try_from (k : NVTKey) : option KbNvtPos.t :=
  match k with
  | KFileName => Some KbNvtPos.Filename
  | KName => Some KbNvtPos.Name
  | KDependencies => Some KbNvtPos.Dependencies
  | KRequiredKeys => Some KbNvtPos.RequiredKeys
  | KMandatoryKeys => Some KbNvtPos.MandatoryKeys
  | KExcludedKeys => Some KbNvtPos.ExcludedKeys
  | KRequiredPorts => Some KbNvtPos.RequiredPorts
  | KRequiredUdpPorts => Some KbNvtPos.RequiredUDPPorts
  | KCategory => Some KbNvtPos.Category
  | KFamily => Some KbNvtPos.Family
  | _ => None
  end.

(** [serde_json] of an advisory, as text *)
Class VulnerabilityJson := {
  vul_to_string : Vulnerability -> string + string;
  vul_from_str : string -> option Vulnerability
}.

Definition advisory_key (oid : string) : string := "internal/notus/advisories/" ++ oid.
Definition nvt_key (oid : string) : string := "nvt:" ++ oid.
Definition prefs_key (oid : string) : string := "oid:" ++ oid ++ ":prefs".
Definition filename_key (filename : string) : string := "filename:" ++ filename.

(** [NvtPreference::from] of the four fields of a preference; [None] panics. *)
Definition preference_of (id name class default_ : string) : option NvtPreference :=
  i ← i_from_str 32 id;
  match PreferenceType.from_str class with
  | inl c => Some (mkNvtPreference (Some i) c name default_)
  | inr _ => None
  end.
(** The four texts of a preference; one without number panics. *)
Definition preference_texts (p : NvtPreference) : option (string * string * string * string) :=
  id ← Nvt.pref_id p;
  Some (pretty id, PreferenceType.as_ref (pref_class p), pref_name p, pref_default p).

(** [get_refs] *)
Definition xref_of (x : string) : NvtRef :=
  match split_once_text ":" x with Some (a, b) => mkNvtRef a b | None => mkNvtRef "" "" end.
Definition redis_get_refs (bids cves xrefs : string) : list NvtRef :=
  map (mkNvtRef "bid") (split_text ", " bids) ++ map (mkNvtRef "cve") (split_text ", " cves)
  ++ map xref_of (split_text ", " xrefs).

(** [get_tags]: a date that is no number panics. *)
Definition tag_of (x : string) : string * string :=
  match splitn_text 2 "=" x with [k; v] => (k, v) | _ => ("", "") end.
Definition add_tag (tags : gmap TagKey.t Primitive) (kv : string * string) : option (gmap TagKey.t Primitive) :=
  match TagKey.from_str kv.1 with
  | inl ((TagKey.CreationDate | TagKey.LastModification | TagKey.SeverityDate) as tk) =>
      z ← i_from_str 64 kv.2; Some (<[tk := NaslValue.PNumber z]> tags)
  | inl tk => Some (<[tk := NaslValue.PString kv.2]> tags)
  | inr _ => Some tags
  end.
Definition redis_get_tags (tags : string) : option (gmap TagKey.t Primitive) :=
  foldl (fun acc kv => m ← acc; add_tag m kv) (Some ∅) (map tag_of (split_text "|" tags)).

(** [refs]: three texts, [cves], [bids] and the others *)
Definition other_refs (r : NvtRef) : bool :=
  negb (bool_decide (ref_class r = "bid")) && negb (bool_decide (ref_class r = "cve")).
Definition refs_of_class (c : string) (l : list NvtRef) : list NvtRef :=
  filter (fun r => ref_class r = c) l.
Definition redis_refs (references : list NvtRef) : string * string * string :=
  (join_text ", " (map ref_id (refs_of_class "cve" references)),
   join_text ", " (map ref_id (refs_of_class "bid" references)),
   join_text ", " (map (fun r => ref_id r ++ ":" ++ ref_class r)
     (filter (fun r => other_refs r = true) references))).

(** [prefs]: sorted by falling numbers, equal ones in their order *)
Definition id_or_default (p : NvtPreference) : Z := default 0%Z (Nvt.pref_id p).
Fixpoint insert_preference (p : NvtPreference) (l : list NvtPreference) : list NvtPreference :=
  match l with
  | [] => [p]
  | q :: l' => if (id_or_default q <=? id_or_default p)%Z then p :: l else q :: insert_preference p l'
  end.
Definition sort_preferences (l : list NvtPreference) : list NvtPreference := foldr insert_preference [] l.
Definition preference_line (p : NvtPreference) : string :=
  pretty (id_or_default p) ++ "|||" ++ pref_name p ++ "|||" ++ PreferenceType.as_ref (pref_class p)
  ++ "|||" ++ pref_default p.
Definition redis_prefs (l : list NvtPreference) : list string := map preference_line (sort_preferences l).

(** The tags in the order of their keys ([BTreeMap]) *)
Definition tag_list (tags : gmap TagKey.t Primitive) : list (TagKey.t * Primitive) :=
  omap (fun k => pair k <$> tags !! k) (map snd TagKey.names).
Definition tag_line (kv : TagKey.t * Primitive) : string :=
  TagKey.as_ref kv.1 ++ "=" ++ primitive_string kv.2.

Section Wrapper.
Context {R : Type} `{RedisWrapper R}.
Abbreviation W := (M R RedisDbError.t).

Definition redis_add_advisory `{VulnerabilityJson} (adv : option VulnerabilityData) : W unit :=
  match adv with
  | Some data =>
      match vul_to_string (vulnerability_of data) with
      | inl value => rw_rpush (advisory_key (adv_oid (vd_adv data))) [value]
      | inr e => throw (RedisDbError.Unknown ("Serialization error: " ++ e))
      end
  | None => rw_rpush NOTUS_KEY ["1"]
  end.

Definition redis_get_advisory `{VulnerabilityJson} `{HashOrder} (oid : string) : W (option Nvt) :=
  nvt_data ← rw_lindex (advisory_key oid) 0;
  if decide (nvt_data = "") then mret None
  else mret (nvt_of_vulnerability oid <$> vul_from_str nvt_data).

(** Lines without four fields are left out. *)
Fixpoint read_preferences (l : list string) : W (list NvtPreference) :=
  match l with
  | [] => mret []
  | p :: l' =>
      match splitn_text 4 "|||" p with
      | [id; name; class; default_] =>
          x ← or_panic (preference_of id name class default_);
          xs ← read_preferences l';
          mret (x :: xs)
      | _ => read_preferences l'
      end
  end.
Definition redis_get_prefs (oid : string) : W (list NvtPreference) :=
  l ← rw_lrange (prefs_key oid) 0 (-1); read_preferences l.

(** [nvt_data[pos as usize]] *)
Definition field_at (l : list string) (p : KbNvtPos.t) : W string := or_panic (l !! KbNvtPos.as_usize p).
Definition list_field (l : list string) (p : KbNvtPos.t) : W (list string) :=
  s ← field_at l p; mret (split_text "," s).

Definition redis_get_vt (oid : string) : W (option Nvt) :=
  nvt_data ← rw_lrange (nvt_key oid) 0 (-1);
  match nvt_data with
  | [] => mret None
  | _ =>
      name ← field_at nvt_data KbNvtPos.Name;
      filename ← field_at nvt_data KbNvtPos.Filename;
      tags ← field_at nvt_data KbNvtPos.Tags;
      tag ← or_panic (redis_get_tags tags);
      dependencies ← list_field nvt_data KbNvtPos.Dependencies;
      required_keys ← list_field nvt_data KbNvtPos.RequiredKeys;
      mandatory_keys ← list_field nvt_data KbNvtPos.MandatoryKeys;
      excluded_keys ← list_field nvt_data KbNvtPos.ExcludedKeys;
      required_ports ← list_field nvt_data KbNvtPos.RequiredPorts;
      required_udp_ports ← list_field nvt_data KbNvtPos.RequiredUDPPorts;
      bids ← field_at nvt_data KbNvtPos.Bids;
      cves ← field_at nvt_data KbNvtPos.Cves;
      xrefs ← field_at nvt_data KbNvtPos.Xrefs;
      preferences ← redis_get_prefs oid;
      cat ← field_at nvt_data KbNvtPos.Category;
      category ← ok_or (ACT.from_str cat) (RedisDbError.Unknown "Invalid nvt category");
      family ← field_at nvt_data KbNvtPos.Family;
      mret (Some (mkNvt oid name filename tag dependencies required_keys mandatory_keys excluded_keys
        required_ports required_udp_ports (redis_get_refs bids cves xrefs) preferences category family))
  end.

(** The list that is stored for a test *)
Definition nvt_values (nvt : Nvt) : list string :=
  let '(cves, bids, xrefs) := redis_refs (references nvt) in
  [filename nvt; join_text ", " (required_keys nvt); join_text ", " (mandatory_keys nvt);
   join_text ", " (excluded_keys nvt); join_text ", " (required_udp_ports nvt);
   join_text ", " (required_ports nvt); join_text ", " (dependencies nvt);
   join_text "|" (map tag_line (tag_list (tag nvt))); cves; bids; xrefs;
   pretty (ACT.as_i64 (category nvt)); family nvt; name nvt].

(** Without preferences the old ones stay. *)
Definition store_prefs (oid : string) (prefs : list string) : W unit :=
  match prefs with
  | [] => mret tt
  | _ => rw_del (prefs_key oid) ;; rw_lpush (prefs_key oid) prefs
  end.

Definition redis_add_nvt (nvt : Nvt) : W unit :=
  rw_del (nvt_key (oid nvt)) ;;
  rw_rpush (nvt_key (oid nvt)) (nvt_values nvt) ;;
  store_prefs (oid nvt) (redis_prefs (preferences nvt)) ;;
  rw_rpush (filename_key (filename nvt)) ["1"; oid nvt].
End Wrapper.

(** ** [CacheDispatcher] *)
Record CacheDispatcher (R : Type) := mkCacheDispatcher { cd_cache : R; cd_kbs : list Kb }.
Arguments mkCacheDispatcher {R}.
Arguments cd_cache {R}.
Arguments cd_kbs {R}.

Section Cache.
Context {R : Type} `{RedisWrapper R} `{VulnerabilityJson}.

Definition on_cache {A} (m : M R RedisDbError.t A) (d : CacheDispatcher R) :
  outcome StorageError.t A * CacheDispatcher R :=
  let '(o, r) := err_into RedisDbError.to_storage m (cd_cache d) in (o, mkCacheDispatcher r (cd_kbs d)).

#[global] Instance cache_item_dispatcher : ItemDispatcher (CacheDispatcher R) := {|
  dispatch_nvt := fun d nvt => on_cache (redis_add_nvt nvt) d;
  dispatch_feed_version := fun d version => on_cache (rw_del CACHE_KEY ;; rw_rpush CACHE_KEY [version]) d;
  dispatch_kb := fun d _ kb => (Ok tt, mkCacheDispatcher (cd_cache d) (cd_kbs d ++ [kb]));
  dispatch_advisory := fun d _ adv => on_cache (redis_add_advisory adv) d
|}.

(** Retrieving by fields is not implemented. *)
#[global] Instance cache_retriever : Retriever (CacheDispatcher R) := {|
  retrieve := fun d _ scope =>
    match scope with
    | GetKB s => Ok (map KB (filter (fun x => kb_key x = s) (cd_kbs d)))
    | _ => Ok []
    end;
  retrieve_by_fields := fun _ _ _ => Panic
|}.
End Cache.

(** [init], [as_dispatcher], [reset] and [flushdb] on a server *)
Section CacheCtx.
Context {S : Type} `{RedisServer S}.

Definition cache_init (selector : list NameSpaceSelector) : M S RedisDbError.t (CacheDispatcher (Redis S)) := fun s =>
  match open selector s with
  | (Ok c, s') => (Ok (mkCacheDispatcher (mkRedis s' c) []), s')
  | (Err e, s') => (Err e, s')
  | (Panic, s') => (Panic, s')
  | (OutOfFuel, s') => (OutOfFuel, s')
  end.
Definition cache_reset : M (CacheDispatcher (Redis S)) RedisDbError.t unit := fun d =>
  let '(o, r) := delete_namespace (cd_cache d) in (o, mkCacheDispatcher r (cd_kbs d)).
Definition cache_flushdb : M (CacheDispatcher (Redis S)) RedisDbError.t unit := fun d =>
  let '(o, r) := flush_namespace (cd_cache d) in (o, mkCacheDispatcher r (cd_kbs d)).
Definition as_dispatcher (selector : list NameSpaceSelector) :
  M S RedisDbError.t (PerItemDispatcher (D := CacheDispatcher (Redis S))) := fun s =>
  match cache_init selector s with
  | (Ok d, _) =>
      match cache_flushdb d with
      | (Ok _, d') => (Ok (new_per_item d'), redis (cd_cache d'))
      | (Err e, d') => (Err e, redis (cd_cache d'))
      | (Panic, d') => (Panic, redis (cd_cache d'))
      | (OutOfFuel, d') => (OutOfFuel, redis (cd_cache d'))
      end
  | (Err e, s') => (Err e, s')
  | (Panic, s') => (Panic, s')
  | (OutOfFuel, s') => (OutOfFuel, s')
  end.
End CacheCtx.
