(* ===== verification/RedisProps.v ===== *)
(** * The Redis back end: theorems

    What a server that is up does for each operation, the round trip of a test, the advisory
    that is not replaced, and who holds a database. *)

From Stdlib Require Import Sorting.Sorted.
From S2P Require Import Prelude RustStr Token Statement NaslValue Errors Register Executor FnArgs Files StringFns StringFnsProps Text Nvt Storage Redis.
Local Open Scope string_scope.

Lemma db_of_set d i m : db_of (set_db d i m) i = m.
Proof. unfold db_of, set_db. by rewrite lookup_insert_eq. Qed.
Lemma db_of_set_ne d i j m : i <> j -> db_of (set_db d i m) j = db_of d j.
Proof. intros. unfold db_of, set_db. by rewrite lookup_insert_ne. Qed.
Lemma set_db_set d i m m' : set_db (set_db d i m) i m' = set_db d i m'.
Proof. apply insert_insert_eq. Qed.

Lemma list_at_put m k l : list_at (<[k := RList l]> m) k = Some l.
Proof. unfold list_at. by rewrite lookup_insert_eq. Qed.
Lemma list_at_put_ne m k k' v : k <> k' -> list_at (<[k := v]> m) k' = list_at m k'.
Proof. intros. unfold list_at. by rewrite lookup_insert_ne. Qed.
Lemma list_at_del m k : list_at (delete k m) k = Some [].
Proof. unfold list_at. by rewrite lookup_delete_eq. Qed.
Lemma list_at_del_ne m k k' : k <> k' -> list_at (delete k m) k' = list_at m k'.
Proof. intros. unfold list_at. by rewrite lookup_delete_ne. Qed.

Lemma list_range_all l : list_range l 0 (-1) = l.
Proof.
  unfold list_range. simpl. rewrite drop_0. apply take_ge. lia.
Qed.

(** ** A server that is up *)
Section Up.
Context {S : Type} `{RedisLaws S}.

(** A connection on [sel] to a server that is up and keeps [d]. *)
Definition conn_holds (k : Conn S) (sel : Z) (d : Databases) : Prop :=
  selected k = sel /\ redis_up (server k) /\ redis_data (server k) = d.
Definition holds (r : Redis S) (sel : Z) (d : Databases) : Prop :=
  kb (ctx r) = Some sel /\ redis_up (redis r) /\ redis_data (redis r) = d.

Definition selected_after (c : RedisCommand) (sel : Z) : Z :=
  match c with Select i => i | _ => sel end.

Lemma up_command k sel d c rep d' :
  conn_holds k sel d -> serve redis_databases sel c d = Some (rep, d') ->
  exists rep' k', command c k = (Ok rep', k') /\ same_reply c rep' rep
    /\ conn_holds k' (selected_after c sel) d'.
Proof.
  intros (<- & Hu & <-) Hs. destruct (redis_serves _ _ _ _ _ Hu Hs) as (rep' & s' & Hq & Hu').
  destruct (redis_answer _ _ _ _ _ Hq) as (rep1 & Hs' & Hr). simplify_eq.
  unfold command. rewrite Hq. eexists _, _. split; [done|]. split; [done|]. by split_and!.
Qed.

Lemma up_command_eq k sel d c rep d' :
  conn_holds k sel d -> serve redis_databases sel c d = Some (rep, d') ->
  (forall p, c <> Keys p) ->
  exists k', command c k = (Ok rep, k') /\ conn_holds k' (selected_after c sel) d'.
Proof.
  intros Hk Hs Hc. destruct (up_command _ _ _ _ _ _ Hk Hs) as (rep' & k' & E & Hr & Hk').
  exists k'. split; [|done]. rewrite E. repeat f_equal. destruct c; try done. by destruct (Hc pattern).
Qed.

Lemma on_kb_ok {A} (m : M (Conn S) RedisDbError.t A) r sel d sel' d' a :
  holds r sel d ->
  (forall k, conn_holds k sel d -> exists k', m k = (Ok a, k') /\ conn_holds k' sel' d') ->
  exists r', on_kb m r = (Ok a, r') /\ holds r' sel' d' /\ ctx_db (ctx r') = ctx_db (ctx r).
Proof.
  intros (Hk & Hu & Hd) Hm. unfold on_kb. rewrite Hk.
  destruct (Hm (mkConn (redis r) sel)) as (k' & -> & Hk' & Hu' & Hd'); [done|].
  eexists. split; [done|]. split; [|done]. split; [by rewrite <- Hk'|done].
Qed.

Lemma with_db_ok {A} (m : M (Conn S) RedisError A) k a k' : m k = (Ok a, k') -> with_db_error m k = (Ok a, k').
Proof. intros E. unfold with_db_error, err_into. by rewrite E. Qed.

(** One command of a context. *)
Lemma up_ctx_command r sel d c rep d' :
  holds r sel d -> serve redis_databases sel c d = Some (rep, d') -> (forall p, c <> Keys p) ->
  exists r', on_kb (with_db_error (command c)) r = (Ok rep, r')
    /\ holds r' (selected_after c sel) d' /\ ctx_db (ctx r') = ctx_db (ctx r).
Proof.
  intros Hr Hs Hc. eapply on_kb_ok; [done|]. intros k Hk.
  destruct (up_command_eq _ _ _ _ _ _ Hk Hs Hc) as (k' & E & Hk'). exists k'. split; [by apply with_db_ok|done].
Qed.

Ltac one_command Hr :=
  match type of Hr with holds ?r ?sel ?d =>
    match goal with |- context [on_kb (with_db_error (command ?c)) r] =>
      edestruct (up_ctx_command r sel d c) as (? & -> & ? & ?); [exact Hr| |done|]
    end
  end.

Lemma up_rpush r sel d k l old :
  holds r sel d -> list_at (db_of d sel) k = Some old -> l <> [] ->
  exists r', rpush k l r = (Ok tt, r') /\ holds r' sel (set_db d sel (<[k := RList (old ++ l)%list]> (db_of d sel)))
    /\ ctx_db (ctx r') = ctx_db (ctx r).
Proof.
  intros Hr Hl Hne. unfold rpush, mbind, M_bind. one_command Hr.
  { simpl. rewrite Hl. simpl. by destruct l. }
  eexists. by split_and!.
Qed.

Lemma up_lpush r sel d k l old :
  holds r sel d -> list_at (db_of d sel) k = Some old -> l <> [] ->
  exists r', lpush k l r = (Ok tt, r') /\ holds r' sel (set_db d sel (<[k := RList (rev l ++ old)%list]> (db_of d sel)))
    /\ ctx_db (ctx r') = ctx_db (ctx r).
Proof.
  intros Hr Hl Hne. unfold lpush, mbind, M_bind. one_command Hr.
  { simpl. rewrite Hl. simpl. by destruct l. }
  eexists. by split_and!.
Qed.

Lemma up_del r sel d k :
  holds r sel d -> exists r', del k r = (Ok tt, r') /\ holds r' sel (set_db d sel (delete k (db_of d sel)))
    /\ ctx_db (ctx r') = ctx_db (ctx r).
Proof.
  intros Hr. unfold del, mbind, M_bind. one_command Hr; [done|]. eexists. by split_and!.
Qed.

Lemma up_lindex r sel d k i l :
  holds r sel d -> list_at (db_of d sel) k = Some l ->
  exists r', lindex k i r = (Ok (default "" (list_index l i)), r') /\ holds r' sel d
    /\ ctx_db (ctx r') = ctx_db (ctx r).
Proof.
  intros Hr Hl. unfold lindex, mbind, M_bind. one_command Hr; [by simpl; rewrite Hl|].
  eexists. split; [|done]. simpl. by destruct (list_index l i).
Qed.

Lemma up_converted {A} (f : RedisReply -> option A) r sel d c rep d' a :
  holds r sel d -> serve redis_databases sel c d = Some (rep, d') -> (forall p, c <> Keys p) -> f rep = Some a ->
  exists r', on_kb (with_db_error (converted f c)) r = (Ok a, r')
    /\ holds r' (selected_after c sel) d' /\ ctx_db (ctx r') = ctx_db (ctx r).
Proof.
  intros Hr Hs Hc Hf. eapply on_kb_ok; [done|]. intros k Hk.
  destruct (up_command_eq _ _ _ _ _ _ Hk Hs Hc) as (k' & E & Hk'). exists k'. split; [|done].
  apply with_db_ok. unfold converted, mbind, M_bind. rewrite E. by rewrite Hf.
Qed.

Lemma up_lrange r sel d k l :
  holds r sel d -> list_at (db_of d sel) k = Some l ->
  exists r', lrange k 0 (-1) r = (Ok l, r') /\ holds r' sel d /\ ctx_db (ctx r') = ctx_db (ctx r).
Proof.
  intros Hr Hl. unfold lrange.
  destruct (up_converted as_texts r sel d (LRange k 0 (-1)) (RArray l) d l) as (r' & E & Hr' & Hc); try done.
  { simpl. rewrite Hl. simpl. by rewrite list_range_all. }
  by exists r'.
Qed.

Lemma up_pop r sel d k l :
  holds r sel d -> list_at (db_of d sel) k = Some l ->
  exists r', pop k r = (Ok (rev l), r') /\ holds r' sel (set_db d sel (delete k (db_of d sel)))
    /\ ctx_db (ctx r') = ctx_db (ctx r).
Proof.
  intros Hr Hl. unfold pop, attempt, mbind, M_bind.
  edestruct (on_kb_ok (with_db_error (pipeline [LRange k 0 (-1); Del k])) r sel d sel) as (r' & E & Hr' & Hc); [done| |].
  { intros c Hc.
    destruct (up_command_eq c sel d (LRange k 0 (-1)) (RArray l) d) as (c1 & E1 & H1); [done| |done|].
    { simpl. rewrite Hl. simpl. by rewrite list_range_all. }
    edestruct (up_command_eq c1 sel d (Del k)) as (c2 & E2 & H2); [done|done|done|].
    exists c2. split; [|exact H2]. apply with_db_ok. cbn [pipeline]. unfold attempt, mbind, M_bind.
    rewrite E1, E2. done. }
  rewrite E. simpl. exists r'. by split_and!.
Qed.
End Up.

(** ** A test that is stored and read back *)

(** Joined with a comma and a blank, split at the comma: the blank stays, and no item
    becomes an empty one. *)
Definition reread_list (l : list string) : list string :=
  match l with [] => [""] | x :: l' => x :: map (String.append " ") l' end.
Definition or_blank (l : list string) : list string := match l with [] => [""] | _ => l end.
(** The class and the identifier of another reference come back exchanged. *)
Definition reread_refs (l : list NvtRef) : list NvtRef :=
  map (mkNvtRef "bid") (or_blank (map ref_id (refs_of_class "bid" l)))
  ++ map (mkNvtRef "cve") (or_blank (map ref_id (refs_of_class "cve" l)))
  ++ match filter (fun r => other_refs r = true) l with
     | [] => [mkNvtRef "" ""]
     | o => map (fun r => mkNvtRef (ref_id r) (ref_class r)) o
     end.
Definition is_date (k : TagKey.t) : bool :=
  match k with TagKey.CreationDate | TagKey.LastModification | TagKey.SeverityDate => true | _ => false end.
Definition reread_tag (k : TagKey.t) (v : Primitive) : Primitive :=
  if is_date k then v else NaslValue.PString (primitive_string v).
Definition reread_preference (p : NvtPreference) : NvtPreference :=
  mkNvtPreference (Some (id_or_default p)) (pref_class p) (pref_name p) (pref_default p).
Definition reread_nvt (n : Nvt) : Nvt :=
  mkNvt (oid n) (name n) (filename n) (map_imap (fun k v => Some (reread_tag k v)) (tag n))
    (reread_list (dependencies n)) (reread_list (required_keys n)) (reread_list (mandatory_keys n))
    (reread_list (excluded_keys n)) (reread_list (required_ports n)) (reread_list (required_udp_ports n))
    (reread_refs (references n)) (map reread_preference (rev (sort_preferences (preferences n))))
    (category n) (family n).

Abbreviation free_of c := (Forall (fun x => c%char ∉ chars_of x)).

(** A reference without a comma followed by a blank, which is the separator; in front of the
    first colon of a reference that is neither [bid] nor [cve] is all of its identifier. *)
Definition no_separator (s : string) : Prop := contains (chars_of s) (chars_of ", ") = false.
Definition plain_ref (r : NvtRef) : Prop :=
  no_separator (ref_id r) /\ no_separator (ref_class r)
  /\ (other_refs r = true -> ":"%char ∉ chars_of (ref_id r)).

(** The texts the separators do not occur in, dates that are numbers, numbers in range. *)
Record plain_nvt (n : Nvt) : Prop := {
  plain_lists : Forall (free_of ",") [dependencies n; required_keys n; mandatory_keys n;
    excluded_keys n; required_ports n; required_udp_ports n];
  plain_refs : Forall plain_ref (references n);
  plain_tags : forall k v, tag n !! k = Some v -> ("|"%char ∉ chars_of (primitive_string v))
    /\ (is_date k = true -> exists z, v = NaslValue.PNumber z /\ in_i 64 z = true);
  plain_prefs : Forall (fun p => ("|"%char ∉ chars_of (pref_name p)) /\ in_i 32 (id_or_default p) = true) (preferences n)
}.

Lemma reread_list_spec l : free_of "," l -> split_text "," (join_text ", " l) = reread_list l.
Proof.
  intros Hl. destruct l as [|x l]; [done|].
  rewrite (split_text_join_rest "," " "); [done| |done]. simpl. set_solver.
Qed.

(** Texts without the separator of two characters are taken apart again where they were
    joined. *)
Lemma separator_later a b d (l m : list char) : a <> b ->
  contains (d :: l) [a; b] = false -> starts_with [a; b] ((d :: l) ++ [a; b] ++ m) = false.
Proof.
  intros Hab. destruct l as [|e l]; simpl.
  - intros _. rewrite (proj2 (Ascii.eqb_neq b a)) by congruence. by rewrite andb_false_r.
  - intros [Hs _]%orb_false_iff. exact Hs.
Qed.

Lemma split_go_pair a b acc (l m : list char) : a <> b -> contains l [a; b] = false ->
  split_go [a; b] false 0 acc (l ++ [a; b] ++ m) = (rev acc ++ l)%list :: split_go [a; b] false 0 [] m.
Proof.
  intros Hab. revert acc. induction l as [|d l IH]; intros acc Hl.
  - rewrite app_nil_l, split_go_match by done. by rewrite app_nil_r.
  - cbn [app split_go]. pose proof (separator_later a b d l m Hab Hl) as E. simpl app in E. rewrite E.
    simpl in Hl. apply orb_false_iff in Hl as [_ Hl]. change (a :: b :: m) with ([a; b] ++ m)%list.
    rewrite IH by done. cbn [rev]. by rewrite <- app_assoc.
Qed.

Lemma split_go_whole p acc (l : list char) : contains l p = false ->
  split_go p false 0 acc l = [(rev acc ++ l)%list].
Proof.
  revert acc. induction l as [|d l IH]; intros acc Hl; cbn [split_go]; [by rewrite app_nil_r|].
  simpl in Hl. apply orb_false_iff in Hl as [E Hl]. rewrite E, IH by done. cbn [rev]. by rewrite <- app_assoc.
Qed.

Lemma split_joined_pair a b (l : list (list char)) : a <> b -> l <> [] ->
  Forall (fun x => contains x [a; b] = false) l -> str_split (joined [a; b] l) [a; b] = l.
Proof.
  intros Hab Hl Hf. induction Hf as [|x l Hx Hf IH]; [by destruct Hl|]. destruct l as [|y l].
  - simpl. by rewrite split_go_whole.
  - rewrite joined_cons by done. unfold str_split in *. rewrite split_go_pair by done. by rewrite IH.
Qed.

Lemma split_refs (l : list string) : l <> [] -> Forall no_separator l ->
  split_text ", " (join_text ", " l) = l.
Proof.
  intros Hl Hf. unfold split_text, join_text. rewrite chars_string_of.
  change (chars_of ", ") with [","%char; " "%char]. rewrite split_joined_pair; [|done|by destruct l|by apply Forall_map].
  rewrite map_map. rewrite <- (map_id l) at 2. apply map_ext. apply string_of_chars.
Qed.

Lemma contains_between a b c (l m : list char) : c <> a -> c <> b ->
  contains l [a; b] = false -> contains m [a; b] = false -> contains (l ++ c :: m) [a; b] = false.
Proof.
  intros Ha Hb Hl Hm. induction l as [|d l IH].
  - cbn [app contains starts_with]. rewrite (proj2 (Ascii.eqb_neq a c)) by congruence. by rewrite Hm.
  - cbn [app contains] in *. apply orb_false_iff in Hl as [Hd Hl]. rewrite IH, orb_false_r by done.
    destruct l as [|e l]; cbn [app starts_with] in *; [|done].
    rewrite (proj2 (Ascii.eqb_neq b c)) by congruence. by rewrite andb_false_r.
Qed.

Lemma or_blank_spec l : Forall no_separator l -> split_text ", " (join_text ", " l) = or_blank l.
Proof. intros Hl. destruct l as [|x l]; [done|]. by rewrite split_refs. Qed.

Lemma Forall_kept {A} (Q P : A -> Prop) `{forall x, Decision (Q x)} l : Forall P l -> Forall P (filter Q l).
Proof. rewrite !Forall_forall. intros Hl x [_ Hx]%list_elem_of_filter. by apply Hl. Qed.

Lemma reread_refs_spec l : Forall plain_ref l ->
  let '(cves, bids, xrefs) := redis_refs l in redis_get_refs bids cves xrefs = reread_refs l.
Proof.
  intros Hl. simpl. unfold redis_get_refs, reread_refs.
  assert (forall c, Forall no_separator (map ref_id (refs_of_class c l))) as Hc.
  { intros c. apply Forall_map. eapply Forall_impl; [by apply Forall_kept|]. by intros ? []. }
  rewrite !or_blank_spec by apply Hc. f_equal. f_equal.
  pose proof (Forall_kept (fun r => other_refs r = true) _ _ Hl) as Ho.
  assert (Forall (fun r => other_refs r = true) (filter (fun r => other_refs r = true) l)) as Hk
    by (apply Forall_forall; by intros r [? _]%list_elem_of_filter).
  destruct (filter _ l) as [|r0 o]; [done|]. rewrite split_refs; [|done|].
  - rewrite map_map. apply map_ext_in. intros r Hr%list_elem_of_In. rewrite Forall_forall in Ho, Hk.
    destruct (Ho _ Hr) as (_ & _ & H3). unfold xref_of. rewrite (split_once_text_part ":" ""); auto.
  - apply Forall_map. eapply Forall_impl; [exact Ho|]. intros r (H1 & H2 & _). unfold no_separator.
    simpl. rewrite !chars_app. by apply contains_between.
Qed.

Lemma tag_list_spec (tags : gmap TagKey.t Primitive) k v : (k, v) ∈ tag_list tags <-> tags !! k = Some v.
Proof.
  unfold tag_list. rewrite list_elem_of_omap. split.
  - intros (k' & _ & E). by destruct (tags !! k') eqn:E'; simplify_eq/=.
  - intros E. exists k. split; [|by rewrite E]. destruct k; apply list_elem_of_In; simpl; tauto.
Qed.

Definition put_tags (m : gmap TagKey.t Primitive) (l : list (TagKey.t * Primitive)) : gmap TagKey.t Primitive :=
  foldl (fun m kv => <[kv.1 := reread_tag kv.1 kv.2]> m) m l.

Lemma put_tags_lookup (tags : gmap TagKey.t Primitive) l m k :
  (forall k v, (k, v) ∈ l -> tags !! k = Some v) ->
  put_tags m l !! k = if decide (k ∈ map fst l) then reread_tag k <$> tags !! k else m !! k.
Proof.
  revert m. induction l as [|[k1 v1] l IH]; intros m Hl; [done|]. cbn [put_tags foldl].
  fold (put_tags (<[k1 := reread_tag k1 v1]> m) l). rewrite IH by (intros; apply Hl; by right).
  destruct (decide (k ∈ map fst l)) as [Hk|Hk].
  - rewrite decide_True; [done|]. simpl. by right.
  - simpl. destruct (decide (k = k1)) as [->|Hn].
    + rewrite lookup_insert_eq, decide_True by left. by rewrite (Hl k1 v1) by left.
    + rewrite lookup_insert_ne by done. by rewrite decide_False by set_solver.
Qed.

Lemma tag_name_free c k : c ∈ ["="%char; "|"%char] -> c ∉ chars_of (TagKey.as_ref k).
Proof.
  intros Hc. assert (Forall (fun c => c ∉ chars_of (TagKey.as_ref k)) ["="%char; "|"%char]) as H
    by (destruct k; apply (bool_decide_unpack _); vm_compute; exact I).
  rewrite Forall_forall in H. by apply H.
Qed.

Lemma tag_of_line kv : tag_of (tag_line kv) = (TagKey.as_ref kv.1, primitive_string kv.2).
Proof.
  destruct kv as [k v]. unfold tag_of, tag_line. cbn [fst snd].
  rewrite (splitn_text_part 0 "=" ""), splitn_text_last; [done|].
  apply (tag_name_free "=" k). by left.
Qed.

Lemma add_tag_line m k v :
  (is_date k = true -> exists z, v = NaslValue.PNumber z /\ in_i 64 z = true) ->
  add_tag m (TagKey.as_ref k, primitive_string v) = Some (<[k := reread_tag k v]> m).
Proof.
  intros Hd. unfold add_tag. simpl fst.
  assert (TagKey.from_str (TagKey.as_ref k) = inl k) as -> by by destruct k.
  destruct k; try done; destruct (Hd eq_refl) as (z & -> & Hz); simpl;
    rewrite (i_from_str_pretty 64) by done; done.
Qed.

Lemma reread_tags_spec (tags : gmap TagKey.t Primitive) :
  (forall k v, tags !! k = Some v -> ("|"%char ∉ chars_of (primitive_string v))
    /\ (is_date k = true -> exists z, v = NaslValue.PNumber z /\ in_i 64 z = true)) ->
  redis_get_tags (join_text "|" (map tag_line (tag_list tags)))
  = Some (map_imap (fun k v => Some (reread_tag k v)) tags).
Proof.
  intros Ht. trans (Some (put_tags ∅ (tag_list tags))).
  - assert (forall k v, (k, v) ∈ tag_list tags -> tags !! k = Some v) as Hl by (intros; by apply tag_list_spec).
    unfold redis_get_tags. destruct (tag_list tags) as [|kv0 l0]; [done|].
    rewrite (split_text_join "|" ""); [|done|].
    + rewrite map_map. generalize (∅ : gmap TagKey.t Primitive). generalize dependent (kv0 :: l0). clear kv0 l0.
      intros l Hl. induction l as [|[k v] l IH]; intros m; [done|]. cbn [map foldl].
      rewrite tag_of_line. cbn [mbind option_bind fst snd].
      rewrite add_tag_line by (apply Ht, Hl; by left). apply IH. intros. apply Hl. by right.
    + apply Forall_map, Forall_forall. intros [k v] Hkv. apply Hl, Ht in Hkv as [Hv _]. unfold tag_line. simpl.
      rewrite !chars_app. intros [Hk|[H|?]%elem_of_app]%elem_of_app; [|simpl in H; set_solver|done].
      apply (tag_name_free "|" k); [by right; left|done].
  - f_equal. apply map_eq. intros k. rewrite (put_tags_lookup tags) by (intros; by apply tag_list_spec).
    rewrite map_lookup_imap. destruct (decide (k ∈ map fst (tag_list tags))) as [Hk|Hk].
    + by destruct (tags !! k).
    + destruct (tags !! k) as [v|] eqn:E; [|done]. destruct Hk. apply list_elem_of_fmap.
      exists (k, v). split; [done|]. by apply tag_list_spec.
Qed.

Lemma insert_preference_perm p l : insert_preference p l ≡ₚ p :: l.
Proof.
  induction l as [|q l IH]; [done|]. simpl. case_match; [done|]. rewrite IH. apply Permutation_swap.
Qed.
Lemma sort_preferences_perm l : sort_preferences l ≡ₚ l.
Proof. induction l as [|p l IH]; [done|]. simpl. rewrite insert_preference_perm. by constructor. Qed.

(** Preferences are read back in rising order of their numbers. *)
Lemma insert_preference_sorted p l :
  StronglySorted (fun a b => id_or_default b <= id_or_default a)%Z l ->
  StronglySorted (fun a b => id_or_default b <= id_or_default a)%Z (insert_preference p l).
Proof.
  induction 1 as [|q l Hl IH Hq]; [by repeat constructor|]. simpl. destruct (Z.leb_spec (id_or_default q) (id_or_default p)).
  - repeat constructor; try done. eapply Forall_impl; [exact Hq|]. simpl. lia.
  - constructor; [done|]. rewrite insert_preference_perm. constructor; [lia|done].
Qed.
Lemma sort_preferences_sorted l : StronglySorted (fun a b => id_or_default b <= id_or_default a)%Z (sort_preferences l).
Proof. induction l as [|p l IH]; [constructor|]. by apply insert_preference_sorted. Qed.

Lemma read_preference_lines {R} `{RedisWrapper R} l (r : R) :
  Forall (fun p => ("|"%char ∉ chars_of (pref_name p)) /\ in_i 32 (id_or_default p) = true) l ->
  read_preferences (map preference_line l) r = (Ok (map reread_preference l), r).
Proof.
  intros Hl. induction Hl as [|p l [Hn Hi] Hl IH]; [done|]. cbn [map read_preferences].
  unfold preference_line at 1. change "|||" with (String "|" "||").
  rewrite splitn_text_part by (by apply pretty_Z_chars).
  rewrite splitn_text_part by done.
  rewrite splitn_text_part by (destruct (pref_class p); apply (bool_decide_unpack _); vm_compute; exact I).
  rewrite splitn_text_last. unfold preference_of. rewrite (i_from_str_pretty 32) by done.
  assert (PreferenceType.from_str (PreferenceType.as_ref (pref_class p)) = inl (pref_class p)) as ->
    by by destruct (pref_class p).
  unfold mbind, M_bind. simpl. by rewrite IH.
Qed.

Lemma act_roundtrip c : ACT.from_str (pretty (ACT.as_i64 c)) = Some c.
Proof. by destruct c. Qed.

Section Roundtrip.
Context {S : Type} `{RedisLaws S}.

Lemma up_store_prefs (r : Redis S) sel d o prefs :
  holds r sel d -> (prefs <> [] \/ list_at (db_of d sel) (prefs_key o) = Some []) ->
  exists r' d', store_prefs o prefs r = (Ok tt, r') /\ holds r' sel d'
    /\ list_at (db_of d' sel) (prefs_key o) = Some (rev prefs)
    /\ forall k, k <> prefs_key o -> list_at (db_of d' sel) k = list_at (db_of d sel) k.
Proof.
  intros Hr Hp. destruct prefs as [|p ps].
  - destruct Hp as [Hp|Hp]; [done|]. by exists r, d.
  - unfold store_prefs, mbind, M_bind. simpl.
    destruct (up_del r sel d (prefs_key o) Hr) as (r1 & -> & H1 & _).
    destruct (up_lpush r1 _ _ (prefs_key o) (p :: ps) [] H1) as (r2 & -> & H2 & _);
      [by rewrite db_of_set, list_at_del|done|]. rewrite db_of_set, set_db_set in H2.
    eexists _, _. split; [done|]. split; [exact H2|]. rewrite db_of_set, app_nil_r, list_at_put.
    split; [done|]. intros k Hk. by rewrite list_at_put_ne, list_at_del_ne by done.
Qed.

(** What is in the database after a test was added. *)
Lemma up_add_nvt (r : Redis S) sel d n names :
  holds r sel d -> list_at (db_of d sel) (filename_key (filename n)) = Some names ->
  (preferences n <> [] \/ list_at (db_of d sel) (prefs_key (oid n)) = Some []) ->
  exists r' d', redis_add_nvt n r = (Ok tt, r') /\ holds r' sel d'
    /\ list_at (db_of d' sel) (nvt_key (oid n)) = Some (nvt_values n)
    /\ list_at (db_of d' sel) (prefs_key (oid n)) = Some (rev (redis_prefs (preferences n))).
Proof.
  intros Hr Hf Hp. unfold redis_add_nvt, mbind, M_bind. simpl rw_del. simpl rw_rpush.
  destruct (up_del r sel d (nvt_key (oid n)) Hr) as (r1 & -> & H1 & _).
  destruct (up_rpush r1 _ _ (nvt_key (oid n)) (nvt_values n) [] H1) as (r2 & -> & H2 & _);
    [by rewrite db_of_set, list_at_del|done|]. rewrite db_of_set, set_db_set in H2.
  destruct (up_store_prefs r2 _ _ (oid n) (redis_prefs (preferences n)) H2) as (r3 & d3 & -> & H3 & Hq & Ho).
  { rewrite db_of_set, list_at_put_ne, list_at_del_ne by done. destruct Hp as [Hp|Hp]; [left|by right].
    intros E%map_eq_nil. apply Hp, Permutation_nil. by rewrite <- (sort_preferences_perm (preferences n)), E. }
  rewrite db_of_set in Ho.
  destruct (up_rpush r3 _ _ (filename_key (filename n)) ["1"; oid n] names H3) as (r4 & -> & H4 & _); [|done|].
  { by rewrite Ho, list_at_put_ne, list_at_del_ne by done. }
  eexists _, _. split; [done|]. split; [exact H4|].
  rewrite db_of_set, !list_at_put_ne by done. by rewrite Ho, list_at_put by done.
Qed.

Lemma up_get_vt (r : Redis S) sel d n :
  holds r sel d -> plain_nvt n ->
  list_at (db_of d sel) (nvt_key (oid n)) = Some (nvt_values n) ->
  list_at (db_of d sel) (prefs_key (oid n)) = Some (rev (redis_prefs (preferences n))) ->
  exists r', redis_get_vt (oid n) r = (Ok (Some (reread_nvt n)), r') /\ holds r' sel d.
Proof.
  intros Hr [Hl Hrf Ht Hp] Hv Hq. unfold redis_get_vt. unfold mbind at 1, M_bind at 1. simpl rw_lrange.
  destruct (up_lrange r sel d _ _ Hr Hv) as (r1 & -> & H1 & _).
  rewrite !Forall_cons in Hl. destruct Hl as (L1 & L2 & L3 & L4 & L5 & L6 & _).
  pose proof (reread_refs_spec _ Hrf) as Er. unfold nvt_values.
  destruct (redis_refs (references n)) as [[cves bids] xrefs] in Er |- *.
  unfold list_field, field_at, mbind, M_bind. cbn [KbNvtPos.as_usize lookup list_lookup or_panic mret M_ret].
  rewrite reread_tags_spec by done. cbn [or_panic mret M_ret].
  rewrite !reread_list_spec, Er by done. unfold redis_get_prefs. simpl rw_lrange. unfold mbind, M_bind.
  destruct (up_lrange r1 sel d _ _ H1 Hq) as (r2 & -> & H2 & _).
  unfold redis_prefs. rewrite <- map_rev, read_preference_lines.
  - rewrite act_roundtrip. by exists r2.
  - by rewrite <- Permutation_rev, sort_preferences_perm.
Qed.
End Roundtrip.

(** ** Who holds a database *)

(** The fields of the index in database 0: the databases in use. *)
Definition index_of (d : Databases) : gmap string string := default ∅ (hash_at (db_of d 0) DB_INDEX).
Definition in_use (d : Databases) (i : Z) : Prop := is_Some (index_of d !! pretty i).

Lemma hash_at_put m k h : hash_at (put_hash k h m) k = Some h.
Proof.
  unfold hash_at, put_hash. destruct (decide (h = ∅)) as [->|]; [by rewrite lookup_delete_eq|].
  by rewrite lookup_insert_eq.
Qed.
Lemma hash_at_put_ne m k k' h : k <> k' -> hash_at (put_hash k h m) k' = hash_at m k'.
Proof.
  intros. unfold hash_at, put_hash. destruct (decide (h = ∅)); [by rewrite lookup_delete_ne|by rewrite lookup_insert_ne].
Qed.

(** What a command may change of the index: only [HSETNX] and [HDEL] on database 0. *)
Definition may_change_index (sel : Z) (c : RedisCommand) : bool :=
  bool_decide (sel = 0%Z) && match c with Connect | ConfigGetDatabases | Select _ | Exists _ | LIndex _ _ | LRange _ _ _ | Keys _ | GetKey _ => false | _ => true end.

Lemma serve_index n sel c d r d' :
  serve n sel c d = Some (r, d') -> may_change_index sel c = false -> index_of d' = index_of d.
Proof.
  intros Hs Hm. unfold may_change_index in Hm. apply andb_false_iff in Hm as [Hm|Hm].
  - apply bool_decide_eq_false in Hm. destruct c; simpl in Hs; repeat (case_match || simplify_option_eq); try done;
      unfold index_of; by rewrite db_of_set_ne.
  - destruct c; simpl in Hs; repeat (case_match || simplify_option_eq); done.
Qed.

(** ** Computations that keep a relation of states *)
Section Preserves.
Context {X : Type} (P : X -> X -> Prop) `{!Reflexive P} `{!Transitive P}.
Definition preserves {E A} (m : M X E A) : Prop := forall x o x', m x = (o, x') -> P x x'.

Lemma preserves_ret {E A} (a : A) : preserves (mret a : M X E A).
Proof. by intros x o x' [= _ <-]. Qed.
Lemma preserves_throw {E A} (e : E) : preserves (throw e : M X E A).
Proof. by intros x o x' [= _ <-]. Qed.
Lemma preserves_panic {E A} : preserves (panic : M X E A).
Proof. by intros x o x' [= _ <-]. Qed.
Lemma preserves_out_of_fuel {E A} : preserves (out_of_fuel : M X E A).
Proof. by intros x o x' [= _ <-]. Qed.
Lemma preserves_ok_or {E A} (a : option A) (e : E) : preserves (ok_or a e : M X E A).
Proof. destruct a; [apply preserves_ret|apply preserves_throw]. Qed.
Lemma preserves_or_panic {E A} (a : option A) : preserves (or_panic a : M X E A).
Proof. destruct a; [apply preserves_ret|apply preserves_panic]. Qed.
Lemma preserves_gets {E A} (f : X -> A) : preserves (gets f : M X E A).
Proof. by intros x o x' [= _ <-]. Qed.
Lemma preserves_bind {E A B} (m : M X E A) (f : A -> M X E B) :
  preserves m -> (forall a, preserves (f a)) -> preserves (m ≫= f).
Proof.
  intros Hm Hf x o x'. unfold mbind, M_bind. destruct (m x) as [[] x1] eqn:Em; intros Eo; simplify_eq/=;
    pose proof (Hm _ _ _ Em); [|done..]. etrans; [done|]. by eapply Hf.
Qed.
Lemma preserves_attempt {E A} (m : M X E A) : preserves m -> preserves (attempt m).
Proof. intros Hm x o x'. unfold attempt. destruct (m x) as [[] x1] eqn:Em; intros [= _ <-]; by eapply Hm. Qed.
Lemma preserves_err_into {E E' A} (f : E -> E') (m : M X E A) : preserves m -> preserves (err_into f m).
Proof. intros Hm x o x'. unfold err_into. destruct (m x) as [[] x1] eqn:Em; intros [= _ <-]; by eapply Hm. Qed.
End Preserves.

Section Safety.
Context {S : Type} `{RedisLaws S}.

(** The data a command leaves, answered or not. *)
Lemma command_data c k o k' :
  command c k = (o, k') ->
  (redis_data (server k') = redis_data (server k)
   \/ exists r, serve redis_databases (selected k) c (redis_data (server k)) = Some (r, redis_data (server k')))
  /\ (selected k' = selected k \/ exists i r, c = Select i /\ o = Ok r /\ selected k' = i).
Proof.
  unfold command. destruct (redis_query _ _ _) as [[r|e] s'] eqn:Hq; intros [= <- <-]; simpl.
  - destruct (redis_answer _ _ _ _ _ Hq) as (r' & Hr & _). split; [by right; exists r'|].
    destruct c; try by left. right. by eexists _, _.
  - split; [by apply redis_failure in Hq|by left].
Qed.

Lemma command_ok c k r k' :
  command c k = (Ok r, k') -> (forall p, c <> Keys p) ->
  serve redis_databases (selected k) c (redis_data (server k)) = Some (r, redis_data (server k'))
  /\ selected k' = selected_after c (selected k).
Proof.
  unfold command. destruct (redis_query _ _ _) as [[r1|e] s'] eqn:Hq; intros [=]; simplify_eq/=. intros Hc.
  destruct (redis_answer _ _ _ _ _ Hq) as (r' & Hr & Hs). split; [|done]. rewrite Hr. repeat f_equal.
  destruct c; try done. by destruct (Hc pattern).
Qed.

Definition index_kept (d d' : Databases) : Prop := forall j, in_use d j -> in_use d' j.
Definition conn_kept (k k' : Conn S) : Prop := index_kept (redis_data (server k)) (redis_data (server k')).
#[global] Instance conn_kept_refl : Reflexive conn_kept.
Proof. by intros k j. Qed.
#[global] Instance conn_kept_trans : Transitive conn_kept.
Proof. intros k1 k2 k3 H12 H23 j Hj. by apply H23, H12. Qed.

Definition frees (c : RedisCommand) : bool :=
  match c with
  | HDel _ _ | RPush _ _ | LPush _ _ | Del _ | FlushDb | SetKey _ _ => true
  | _ => false
  end.

Lemma serve_kept n sel c d r d' :
  serve n sel c d = Some (r, d') -> frees c = false \/ sel <> 0%Z -> index_kept d d'.
Proof.
  intros Hs Hc. destruct (may_change_index sel c) eqn:Hm; [|intros j; unfold in_use; by rewrite (serve_index _ _ _ _ _ _ Hs Hm)].
  apply andb_true_iff in Hm as [->%bool_decide_eq_true Hm]. destruct Hc as [Hc|]; [|done]. destruct c; try done.
  simpl in Hs. destruct (hash_at (db_of d 0) key) as [h|] eqn:Eh; [|done]. simpl in Hs.
  destruct (h !! field) eqn:Ef; simplify_eq; [by intros j|]. intros j [v Hj]. unfold in_use, index_of in *.
  rewrite db_of_set. destruct (decide (key = DB_INDEX)) as [->|Hk].
  - rewrite hash_at_put. rewrite Eh in Hj. simpl in *. destruct (decide (field = pretty j)) as [->|]; [congruence|].
    by rewrite lookup_insert_ne.
  - rewrite hash_at_put_ne by done. eauto.
Qed.

Lemma command_kept c k o k' :
  command c k = (o, k') -> frees c = false \/ selected k <> 0%Z -> conn_kept k k'.
Proof.
  intros E Hc. destruct (command_data _ _ _ _ E) as [[Hd|[r Hd]] _].
  - intros j. by rewrite Hd.
  - by eapply serve_kept.
Qed.

Lemma reading_kept c : frees c = false -> preserves conn_kept (command c).
Proof. intros Hc k o k' E. eapply command_kept; eauto. Qed.

Lemma converted_kept {A} (f : RedisReply -> option A) c : frees c = false -> preserves conn_kept (converted f c).
Proof. intros Hc. apply preserves_bind; [apply _|by apply reading_kept|]. intros. apply preserves_ok_or, _. Qed.
Lemma select_namespace_kept i : preserves conn_kept (select_namespace i).
Proof.
  apply preserves_bind; [apply _|by apply preserves_err_into, reading_kept|]. intros. apply preserves_ret, _.
Qed.
Lemma take_free_kept dbs : preserves conn_kept (take_free dbs).
Proof.
  induction dbs as [|i dbs IH]; [apply preserves_throw, _|]. simpl.
  apply preserves_bind; [apply _|by apply preserves_err_into, converted_kept|]. intros z.
  case_decide; [|done]. apply preserves_bind; [apply _|apply select_namespace_kept|]. intros. apply preserves_ret, _.
Qed.
Lemma find_key_kept key dbs : preserves conn_kept (find_key key dbs).
Proof.
  induction dbs as [|i dbs IH]; [apply preserves_throw, _|]. simpl.
  apply preserves_bind; [apply _|apply select_namespace_kept|]. intros _.
  apply preserves_bind; [apply _|by apply preserves_err_into, converted_kept|]. intros z.
  case_decide; [|done]. apply preserves_ret, _.
Qed.
Lemma select_kept sel : preserves conn_kept (select sel).
Proof.
  apply preserves_bind; [apply _|by apply preserves_err_into, converted_kept|]. intros z. destruct sel.
  - apply preserves_bind; [apply _|apply select_namespace_kept|]. intros. apply preserves_ret, _.
  - apply preserves_bind; [apply _|apply select_namespace_kept|]. intros. apply take_free_kept.
  - apply find_key_kept.
Qed.
Lemma open_with_kept l : preserves conn_kept (open_with l).
Proof.
  induction l as [|sel l IH]; [apply preserves_throw, _|]. simpl.
  apply preserves_bind; [apply _|apply preserves_attempt, select_kept|]. intros [x|e].
  - apply preserves_bind; [apply _|apply preserves_gets, _|]. intros. apply preserves_ret, _.
  - destruct e; try apply preserves_throw, _. done.
Qed.

(** Opening a context never takes a database away from its holder. *)
Lemma open_kept l s o s' : open l s = (o, s') -> index_kept (redis_data s) (redis_data s').
Proof.
  unfold open. destruct ((with_db_error (command Connect) ;; open_with l) (mkConn s 0)) as [o1 k] eqn:E.
  intros [= <- <-]. refine (preserves_bind conn_kept _ _ _ _ _ _ _ E); [by apply preserves_err_into, reading_kept|].
  intros _. apply open_with_kept.
Qed.

(** *** A free database *)
Lemma with_db_inv {A} (m : M (Conn S) RedisError A) k a k' : with_db_error m k = (Ok a, k') -> m k = (Ok a, k').
Proof. unfold with_db_error, err_into. by destruct (m k) as [[] ?]; intros [=]; subst. Qed.
Lemma converted_inv {A} (f : RedisReply -> option A) c k a k' :
  converted f c k = (Ok a, k') -> exists r, command c k = (Ok r, k') /\ f r = Some a.
Proof.
  unfold converted, mbind, M_bind. destruct (command c k) as [[r| | |] k1] eqn:E; try by intros [=].
  destruct (f r) eqn:Ef; intros [=]; subst. by exists r.
Qed.

Lemma max_db_ok k z k' : max_db k = (Ok z, k') ->
  z = redis_databases /\ redis_data (server k') = redis_data (server k) /\ selected k' = selected k.
Proof.
  intros (r & E & Hr)%with_db_inv%converted_inv. apply command_ok in E as [Hs Hk]; [|done]. simpl in Hs. simplify_eq.
  simpl in Hr. rewrite (u_from_str_pretty 32) in Hr by (done || apply redis_databases_u32). by simplify_eq.
Qed.

Lemma select_namespace_ok i k k' : select_namespace i k = (Ok tt, k') ->
  redis_data (server k') = redis_data (server k) /\ selected k' = i /\ (0 <= i < redis_databases)%Z.
Proof.
  unfold select_namespace, mbind, M_bind. destruct (with_db_error _ k) as [[r| | |] k1] eqn:E; try by intros [=].
  intros [= <-]. apply with_db_inv, command_ok in E as [Hs Hk]; [|done]. simpl in Hs. case_match eqn:Hi; simplify_eq.
  apply andb_true_iff in Hi as [?%Z.leb_le ?%Z.ltb_lt]. done.
Qed.

Lemma hsetnx_ok i v k r k' :
  selected k = 0%Z -> command (HSetNx DB_INDEX (pretty i) v) k = (Ok r, k') ->
  selected k' = 0%Z /\ (r = RInt 0 /\ redis_data (server k') = redis_data (server k)
    \/ r = RInt 1 /\ ~ in_use (redis_data (server k)) i /\ in_use (redis_data (server k')) i).
Proof.
  intros Hk E. apply command_ok in E as [Hs Hk']; [|done]. rewrite Hk in *. split; [done|].
  simpl in Hs. destruct (hash_at _ DB_INDEX) as [h|] eqn:Eh; [|done]. simpl in Hs.
  destruct (h !! pretty i) eqn:Ef; simplify_eq; [by left|right]. unfold in_use, index_of. rewrite Eh. simpl.
  rewrite Ef, <- H2, db_of_set, hash_at_put. simpl. rewrite lookup_insert_eq. split; [done|].
  split; [by intros []|by eexists].
Qed.

Lemma take_free_ok dbs k i k' :
  selected k = 0%Z -> take_free dbs k = (Ok i, k') ->
  i ∈ dbs /\ ~ in_use (redis_data (server k)) i /\ in_use (redis_data (server k')) i /\ selected k' = i
  /\ (0 <= i < redis_databases)%Z.
Proof.
  revert k. induction dbs as [|j dbs IH]; intros k Hk; [by intros [=]|]. cbn [take_free].
  unfold mbind at 1, M_bind at 1.
  destruct (with_db_error _ k) as [[z| | |] k1] eqn:E; try by intros [=].
  apply with_db_inv, converted_inv in E as (r & E & Hr).
  apply hsetnx_ok in E as (Hk1 & [[-> Hd]|(-> & Hn & Hu)]); [| |done]; simpl in Hr; simplify_eq/=.
  - intros E. apply IH in E as (Hi & Hn & Hu & Hs & Hb); [|done]. rewrite Hd in Hn. split_and!; try done; [by right|lia..].
  - unfold mbind, M_bind. destruct (select_namespace j k1) as [[[]| | |] k2] eqn:E2; intros [=]; simplify_eq.
    apply select_namespace_ok in E2 as (Hd & Hs & Hb). rewrite Hd. split_and!; try done; [by left|lia..].
Qed.

(** Selecting starts on a new connection with database 0. *)
Lemma open_inv l s c s' : open l s = (Ok c, s') ->
  exists k1 k, open_with l k1 = (Ok c, k) /\ selected k1 = 0%Z /\ redis_data (server k1) = redis_data s /\ server k = s'.
Proof.
  unfold open, mbind, M_bind. destruct (with_db_error _ _) as [[r| | |] k1] eqn:E; try by intros [=].
  destruct (open_with l k1) as [o k] eqn:Eo. intros [= -> <-]. exists k1, k.
  apply with_db_inv, command_ok in E as [Hs Hk]; [|done]. simpl in *. by simplify_eq.
Qed.
(** An opened free database was held by nobody and is held now. *)
Lemma open_free_ok s c s' :
  open [Free] s = (Ok c, s') ->
  kb c = Some (ctx_db c) /\ (1 <= ctx_db c < redis_databases)%Z
  /\ ~ in_use (redis_data s) (ctx_db c) /\ in_use (redis_data s') (ctx_db c).
Proof.
  intros (k' & k & E & Hk' & Hd' & <-)%open_inv.
  cbn [open_with] in E. unfold attempt, mbind, M_bind in E.
  destruct (select Free k') as [[i|e| |] k1] eqn:Es; try done; [|by destruct e].
  simpl in E. simplify_eq/=. unfold select, mbind, M_bind in Es.
  destruct (max_db k') as [[n| | |] k0] eqn:Em; try done. apply max_db_ok in Em as (-> & Hd & _).
  destruct (select_namespace 0 k0) as [[[]| | |] k2] eqn:E2; try done.
  apply select_namespace_ok in E2 as (Hd2 & Hs2 & _). apply take_free_ok in Es as (Hi & Hn & Hu & Hs & Hb); [|done].
  rewrite Hd2, Hd, Hd' in Hn. simpl in *. apply elem_of_seqZ in Hi. subst. injection E as <- <-. simpl.
  split_and!; try done; lia.
Qed.

(** A fixed database is the one that is used. *)
Lemma open_fix_ok i s c s' : open [Fix i] s = (Ok c, s') -> kb c = Some i /\ ctx_db c = i.
Proof.
  intros (k' & k & E & Hk' & Hd' & <-)%open_inv.
  cbn [open_with] in E. unfold attempt, mbind, M_bind in E.
  destruct (select (Fix i) k') as [[x|e| |] k1] eqn:Es; try done; [|by destruct e].
  simpl in E. injection E as <- <-. unfold select, mbind, M_bind in Es.
  destruct (max_db k') as [[n| | |] k0] eqn:Em; try done.
  destruct (select_namespace i k0) as [[[]| | |] k2] eqn:E2; try done.
  apply select_namespace_ok in E2 as (_ & Hs2 & _). injection Es as -> ->. by rewrite Hs2.
Qed.

(** *** Releasing a database *)
Definition index_kept_but (i : Z) (d d' : Databases) : Prop := forall j, j <> i -> in_use d j -> in_use d' j.
Definition conn_kept_but (i : Z) (k k' : Conn S) : Prop :=
  index_kept_but i (redis_data (server k)) (redis_data (server k')).
#[global] Instance conn_kept_but_refl i : Reflexive (conn_kept_but i).
Proof. by intros k j. Qed.
#[global] Instance conn_kept_but_trans i : Transitive (conn_kept_but i).
Proof. intros k1 k2 k3 H12 H23 j Hj Hu. by apply H23, H12. Qed.
Lemma kept_is_kept_but i k k' : conn_kept k k' -> conn_kept_but i k k'.
Proof. intros Hk j _ Hj. by apply Hk. Qed.

Lemma release_kept_but i : preserves (conn_kept_but i) (command (HDel DB_INDEX (pretty i))).
Proof.
  intros k o k' E. destruct (command_data _ _ _ _ E) as [[Hd|[r Hd]] _]; [intros j; by rewrite Hd|].
  destruct (decide (selected k = 0%Z)) as [Hk|Hk]; [|by eapply kept_is_kept_but, serve_kept; eauto].
  rewrite Hk in Hd. intros j Hj [v Hv]. simpl in Hd. unfold in_use, index_of in *.
  destruct (hash_at _ DB_INDEX) as [h|] eqn:Eh in Hd, Hv; [|done]. simpl in Hd, Hv.
  destruct (h !! pretty i) eqn:Ef; injection Hd as _ Hd; rewrite <- Hd; [|rewrite Eh; by exists v].
  rewrite db_of_set, hash_at_put. simpl. rewrite lookup_delete_ne; [by exists v|].
  intros Hp. apply Hj. by apply (inj pretty) in Hp.
Qed.

Lemma pipeline_kept_but i l :
  Forall (fun c => frees c = false \/ c = HDel DB_INDEX (pretty i)) l -> preserves (conn_kept_but i) (pipeline l).
Proof.
  induction 1 as [|c l Hc Hl IH]; [apply preserves_ret, _|]. simpl.
  apply preserves_bind; [apply _| |intros r].
  { apply preserves_attempt. destruct Hc as [Hc| ->]; [|apply release_kept_but].
    intros k o k' E. by eapply kept_is_kept_but, reading_kept. }
  apply preserves_bind; [apply _|by apply preserves_attempt|]. intros rs.
  destruct r, rs; (apply preserves_ret || apply preserves_throw); apply _.
Qed.

Lemma on_kb_kept_but {A} i (m : M (Conn S) RedisDbError.t A) r o r' :
  preserves (conn_kept_but i) m -> on_kb m r = (o, r') ->
  index_kept_but i (redis_data (redis r)) (redis_data (redis r')) /\ ctx_db (ctx r') = ctx_db (ctx r).
Proof.
  intros Hm. unfold on_kb. destruct (kb (ctx r)) as [sel|]; [|intros [= _ <-]; split; [by intros j|done]].
  destruct (m (mkConn (redis r) sel)) as [o1 k] eqn:E. intros [= _ <-]. split; [exact (Hm _ _ _ E)|done].
Qed.

Lemma release_namespace_kept_but r o r' :
  release_namespace r = (o, r') ->
  index_kept_but (ctx_db (ctx r)) (redis_data (redis r)) (redis_data (redis r')).
Proof.
  unfold release_namespace. unfold gets at 1, mbind at 1, M_bind at 1.
  set (l := [Select 0; HDel DB_INDEX (pretty (ctx_db (ctx r))); Select (ctx_db (ctx r))]).
  unfold mbind, M_bind. destruct (on_kb (with_db_error (pipeline l)) r) as [o1 r1] eqn:E. intros E'.
  assert (r' = r1) as -> by (destruct o1; by injection E').
  refine (proj1 (on_kb_kept_but _ _ _ _ _ _ E)). apply preserves_err_into, pipeline_kept_but.
  unfold l. rewrite !Forall_cons. split_and!; [by left|by right|by left|constructor].
Qed.

(** A flush on another database than 0 frees none. *)
Lemma flush_namespace_kept i r o r' :
  kb (ctx r) = Some i -> i <> 0%Z -> flush_namespace r = (o, r') ->
  index_kept (redis_data (redis r)) (redis_data (redis r')) /\ ctx_db (ctx r') = ctx_db (ctx r).
Proof.
  intros Hk Hi. unfold flush_namespace, mbind, M_bind, on_kb, with_db_error, err_into. rewrite Hk.
  destruct (command FlushDb (mkConn (redis r) i)) as [o1 k] eqn:E.
  apply command_kept in E; [|by right]. by destruct o1; intros [= _ <-].
Qed.

(** On a context of database [i], not 0, deleting the database frees no other. *)
Lemma delete_namespace_kept_but i (r r' : Redis S) o :
  kb (ctx r) = Some i -> ctx_db (ctx r) = i -> i <> 0%Z -> delete_namespace r = (o, r') ->
  index_kept_but i (redis_data (redis r)) (redis_data (redis r')).
Proof.
  intros Hk Hd Hi. unfold delete_namespace, mbind, M_bind.
  destruct (flush_namespace r) as [o1 r1] eqn:E1. destruct (flush_namespace_kept i r o1 r1 Hk Hi E1) as [H1 Hc].
  destruct o1; intros E2; [|simplify_eq; by intros j _ Hj; apply H1..].
  apply release_namespace_kept_but in E2. rewrite Hc, Hd in E2. intros j Hj Hu. by apply E2, H1.
Qed.
End Safety.

(** ** Opening databases of a server that is up *)
Section UpOpen.
Context {S : Type} `{RedisLaws S}.

Lemma up_converted_conn {A} (f : RedisReply -> option A) (k : Conn S) sel d c rep d' a :
  conn_holds k sel d -> serve redis_databases sel c d = Some (rep, d') -> (forall p, c <> Keys p) -> f rep = Some a ->
  exists k', with_db_error (converted f c) k = (Ok a, k') /\ conn_holds k' (selected_after c sel) d'.
Proof.
  intros Hk Hs Hc Hf. destruct (up_command_eq _ _ _ _ _ _ Hk Hs Hc) as (k' & E & Hk'). exists k'. split; [|done].
  apply with_db_ok. unfold converted, mbind, M_bind. rewrite E. by rewrite Hf.
Qed.

Lemma up_max_db (k : Conn S) sel d : conn_holds k sel d ->
  exists k', max_db k = (Ok redis_databases, k') /\ conn_holds k' sel d.
Proof.
  intros Hk. eapply (up_converted_conn _ k sel d ConfigGetDatabases); [done|done|done|].
  apply (u_from_str_pretty 32); [lia|apply redis_databases_u32].
Qed.
Lemma up_select_namespace i (k : Conn S) sel d : conn_holds k sel d -> (0 <= i < redis_databases)%Z ->
  exists k', select_namespace i k = (Ok tt, k') /\ conn_holds k' i d.
Proof.
  intros Hk Hi. unfold select_namespace, mbind, M_bind.
  destruct (up_command_eq k sel d (Select i) ROk d Hk) as (k' & E & Hk'); [|done|].
  { simpl. by rewrite (proj2 (Z.leb_le _ _)), (proj2 (Z.ltb_lt _ _)) by lia. }
  rewrite (with_db_ok _ _ _ _ E). by exists k'.
Qed.

(** The databases after [i] was marked as used *)
Definition taken (d : Databases) (h : gmap string string) (i : Z) : Databases :=
  set_db d 0 (put_hash DB_INDEX (<[pretty i := "1"]> h) (db_of d 0)).
Lemma up_select_namespace_cmd i (k : Conn S) sel d : conn_holds k sel d -> (0 <= i < redis_databases)%Z ->
  exists k', command (Select i) k = (Ok ROk, k') /\ conn_holds k' i d.
Proof.
  intros Hk Hi. destruct (up_command_eq k sel d (Select i) ROk d Hk) as (k' & E & Hk'); [|done|by exists k'].
  simpl. by rewrite (proj2 (Z.leb_le _ _)), (proj2 (Z.ltb_lt _ _)) by lia.
Qed.
Lemma up_take_free dbs (k : Conn S) d h :
  conn_holds k 0 d -> hash_at (db_of d 0) DB_INDEX = Some h -> Forall (fun i => 0 <= i < redis_databases)%Z dbs ->
  (exists i, i ∈ dbs /\ h !! pretty i = None) ->
  exists i k', take_free dbs k = (Ok i, k') /\ conn_holds k' i (taken d h i) /\ i ∈ dbs /\ h !! pretty i = None.
Proof.
  intros Hk Hh. revert k Hk. induction dbs as [|j dbs IH]; intros k Hk Hb (i & Hi & Hf); [by apply not_elem_of_nil in Hi|].
  apply Forall_cons in Hb as [Hj Hb]. cbn [take_free]. unfold mbind at 1, M_bind at 1.
  destruct (h !! pretty j) as [v|] eqn:Ej.
  - destruct (up_converted_conn as_int k 0 d (HSetNx DB_INDEX (pretty j) "1") (RInt 0) d 0%Z Hk) as (k1 & -> & Hk1); try done.
    { simpl. rewrite Hh. simpl. by rewrite Ej. }
    rewrite decide_False by done. destruct (IH k1 Hk1 Hb) as (x & k' & ? & ? & ? & ?).
    { apply elem_of_cons in Hi as [->|Hi]; [congruence|by exists i]. }
    exists x, k'. split_and!; try done. by right.
  - destruct (up_converted_conn as_int k 0 d (HSetNx DB_INDEX (pretty j) "1") (RInt 1) (taken d h j) 1%Z Hk)
      as (k1 & -> & Hk1); try done.
    { simpl. rewrite Hh. simpl. by rewrite Ej. }
    rewrite decide_True by done. unfold mbind, M_bind.
    destruct (up_select_namespace j k1 0 (taken d h j) Hk1 Hj) as (k2 & -> & Hk2). exists j, k2. split_and!; try done. by left.
Qed.

Lemma up_find_key_none key dbs (k : Conn S) sel d :
  conn_holds k sel d -> Forall (fun i => (0 <= i < redis_databases)%Z /\ db_of d i !! key = None) dbs ->
  exists k' sel', find_key key dbs k = (Err RedisDbError.NoAvailDbErr, k') /\ conn_holds k' sel' d.
Proof.
  revert k sel. induction dbs as [|j dbs IH]; intros k sel Hk Hb; [by exists k, sel|].
  apply Forall_cons in Hb as [[Hj Hn] Hb]. cbn [find_key]. unfold mbind, M_bind.
  destruct (up_select_namespace j k sel d Hk Hj) as (k1 & -> & Hk1).
  destruct (up_converted_conn as_int k1 j d (Exists key) (RInt 0) d 0%Z Hk1) as (k2 & -> & Hk2); try done.
  { simpl. by rewrite Hn. }
  rewrite decide_False by done. by apply (IH k2 j).
Qed.

Lemma seqZ_range n : Forall (fun i => 1 <= i < n)%Z (seqZ 1 (n - 1)).
Proof. apply Forall_forall. intros i Hi%elem_of_seqZ. lia. Qed.

Lemma up_connect s d : redis_up s -> redis_data s = d ->
  exists k, with_db_error (command Connect) (mkConn s 0) = (Ok ROk, k) /\ conn_holds k 0 d.
Proof.
  intros Hu Hd. destruct (up_command_eq (mkConn s 0) 0 d Connect ROk d) as (k & E & Hk); try done.
  exists k. split; [by apply with_db_ok|done].
Qed.
Lemma up_select_free (k : Conn S) sel d h :
  conn_holds k sel d -> hash_at (db_of d 0) DB_INDEX = Some h ->
  (exists i, (1 <= i < redis_databases)%Z /\ h !! pretty i = None) ->
  exists i k', select Free k = (Ok i, k') /\ conn_holds k' i (taken d h i)
    /\ (1 <= i < redis_databases)%Z /\ h !! pretty i = None.
Proof.
  intros Hk Hh (i & Hi & Hf). unfold select, mbind, M_bind. destruct (up_max_db k sel d Hk) as (k0 & -> & H0').
  destruct (up_select_namespace 0 k0 sel d H0') as (k1 & -> & H1'); [lia|].
  destruct (up_take_free (seqZ 1 (redis_databases - 1)) k1 d h H1' Hh) as (j & k2 & -> & Hk2 & Hj & Hn).
  - eapply Forall_impl; [apply seqZ_range|]. simpl. lia.
  - exists i. split; [|done]. apply elem_of_seqZ. lia.
  - exists j, k2. apply elem_of_seqZ in Hj. split_and!; try done; lia.
Qed.
Lemma up_select_key_none key (k : Conn S) sel d :
  conn_holds k sel d -> (forall i, (1 <= i < redis_databases)%Z -> db_of d i !! key = None) ->
  exists k' sel', select (Key key) k = (Err RedisDbError.NoAvailDbErr, k') /\ conn_holds k' sel' d.
Proof.
  intros Hk Hn. unfold select, mbind, M_bind. destruct (up_max_db k sel d Hk) as (k0 & -> & H0').
  apply (up_find_key_none _ _ _ sel); [done|]. eapply Forall_impl; [apply seqZ_range|].
  simpl. intros j Hj. split; [lia|by apply Hn].
Qed.
(** The first database with a key *)
Lemma up_find_key key dbs (k : Conn S) sel d j :
  conn_holds k sel d -> Forall (fun i => 0 <= i < redis_databases)%Z dbs ->
  List.find (fun i => bool_decide (is_Some (db_of d i !! key))) dbs = Some j ->
  exists k', find_key key dbs k = (Ok j, k') /\ conn_holds k' j d.
Proof.
  revert k sel. induction dbs as [|x dbs IH]; intros k sel Hk Hb Hj; [done|].
  apply Forall_cons in Hb as [Hx Hb]. cbn [find_key List.find] in *. unfold mbind, M_bind.
  destruct (up_select_namespace x k sel d Hk Hx) as (k1 & -> & Hk1).
  destruct (db_of d x !! key) as [v|] eqn:Ex.
  - destruct (up_converted_conn as_int k1 x d (Exists key) (RInt 1) d 1%Z Hk1) as (k2 & -> & Hk2); try done.
    { simpl. by rewrite Ex. }
    rewrite bool_decide_true in Hj by by eexists. simplify_eq. rewrite decide_True by done. by exists k2.
  - destruct (up_converted_conn as_int k1 x d (Exists key) (RInt 0) d 0%Z Hk1) as (k2 & -> & Hk2); try done.
    { simpl. by rewrite Ex. }
    rewrite bool_decide_false in Hj by by intros []. rewrite decide_False by done. by apply (IH k2 x).
Qed.
Definition database_with (key : string) (d : Databases) : option Z :=
  List.find (fun i => bool_decide (is_Some (db_of d i !! key))) (seqZ 1 (redis_databases - 1)).
Lemma up_select_key key (k : Conn S) sel d j :
  conn_holds k sel d -> database_with key d = Some j ->
  exists k', select (Key key) k = (Ok j, k') /\ conn_holds k' j d.
Proof.
  intros Hk Hj. unfold select, mbind, M_bind. destruct (up_max_db k sel d Hk) as (k0 & -> & H0').
  apply (up_find_key _ _ _ sel); [done| |done]. eapply Forall_impl; [apply seqZ_range|]. simpl. lia.
Qed.

(** *** Contexts *)
Lemma up_open_free s d h :
  redis_up s -> redis_data s = d -> hash_at (db_of d 0) DB_INDEX = Some h ->
  (exists i, (1 <= i < redis_databases)%Z /\ h !! pretty i = None) ->
  exists c s', open [Free] s = (Ok c, s') /\ redis_up s' /\ forall j, j <> 0%Z -> db_of (redis_data s') j = db_of d j.
Proof.
  intros Hu Hd Hh Hf. unfold open, mbind at 1, M_bind at 1.
  destruct (up_connect s d Hu Hd) as (k & -> & Hk). cbn [open_with]. unfold attempt, mbind, M_bind.
  destruct (up_select_free k 0 d h Hk Hh Hf) as (i & k1 & -> & (Hs & Hu1 & Hd1) & _).
  eexists _, _. split; [done|]. simpl. rewrite Hd1. split; [done|]. intros j Hj. by apply db_of_set_ne.
Qed.
(** Without the key a free database is taken. *)
Lemma up_open_key_free s key d h :
  redis_up s -> redis_data s = d -> (forall i, (1 <= i < redis_databases)%Z -> db_of d i !! key = None) ->
  hash_at (db_of d 0) DB_INDEX = Some h -> (exists i, (1 <= i < redis_databases)%Z /\ h !! pretty i = None) ->
  exists i s', open [Key key; Free] s = (Ok (mkRedisCtx (Some i) i), s')
    /\ redis_up s' /\ redis_data s' = taken d h i /\ (1 <= i < redis_databases)%Z /\ h !! pretty i = None.
Proof.
  intros Hu Hd Hn Hh Hf. unfold open, mbind at 1, M_bind at 1.
  destruct (up_connect s d Hu Hd) as (k & -> & Hk). cbn [open_with]. unfold attempt, mbind, M_bind.
  destruct (up_select_key_none key k 0 d Hk Hn) as (k1 & sel & -> & Hk1).
  destruct (up_select_free k1 sel d h Hk1 Hh Hf) as (i & k2 & -> & (Hs & Hu2 & Hd2) & Hi & Hfree).
  exists i, (server k2). simpl. rewrite Hs. split_and!; try done; lia.
Qed.
(** With the key its database is used and nothing changes. *)
Lemma up_open_key s key d j rest :
  redis_up s -> redis_data s = d -> database_with key d = Some j ->
  exists s', open (Key key :: rest) s = (Ok (mkRedisCtx (Some j) j), s') /\ redis_up s' /\ redis_data s' = d.
Proof.
  intros Hu Hd Hj. unfold open, mbind at 1, M_bind at 1.
  destruct (up_connect s d Hu Hd) as (k & -> & Hk). cbn [open_with]. unfold attempt, mbind, M_bind.
  destruct (up_select_key key k 0 d j Hk Hj) as (k1 & -> & (Hs & Hu1 & Hd1)).
  exists (server k1). simpl. rewrite Hs. by split_and!.
Qed.
Lemma up_open_key_none s key d :
  redis_up s -> redis_data s = d -> (forall i, (1 <= i < redis_databases)%Z -> db_of d i !! key = None) ->
  exists s', open [Key key] s = (Err RedisDbError.NoAvailDbErr, s') /\ redis_up s' /\ redis_data s' = d.
Proof.
  intros Hu Hd Hn. unfold open, mbind at 1, M_bind at 1.
  destruct (up_connect s d Hu Hd) as (k & -> & Hk). cbn [open_with]. unfold attempt, mbind, M_bind.
  destruct (up_select_key_none key k 0 d Hk Hn) as (k1 & sel & -> & (_ & Hu1 & Hd1)). by exists (server k1).
Qed.

(** Giving a database back *)
Lemma up_delete_namespace (r : Redis S) i d h :
  holds r i d -> ctx_db (ctx r) = i -> (1 <= i < redis_databases)%Z -> hash_at (db_of d 0) DB_INDEX = Some h ->
  is_Some (h !! pretty i) ->
  exists r', delete_namespace r = (Ok tt, r')
    /\ holds r' i (set_db (set_db d i ∅) 0 (put_hash DB_INDEX (delete (pretty i) h) (db_of d 0))).
Proof.
  intros Hr Hc Hi Hh [v Hv]. unfold delete_namespace, flush_namespace, mbind at 1 2, M_bind at 1 2.
  destruct (up_ctx_command r i d FlushDb ROk (set_db d i ∅) Hr) as (r1 & -> & Hr1 & Hc1); [done|done|].
  cbn [mret M_ret]. unfold release_namespace, mbind, M_bind, gets. rewrite Hc1, Hc.
  set (d1 := set_db d i ∅) in *. set (d2 := set_db d1 0 (put_hash DB_INDEX (delete (pretty i) h) (db_of d 0))).
  assert (db_of d1 0 = db_of d 0) as E0 by (apply db_of_set_ne; lia).
  edestruct (on_kb_ok (with_db_error (pipeline [Select 0; HDel DB_INDEX (pretty i); Select i])) r1 i d1 i d2
    [ROk; RInt 1; ROk]) as (r2 & -> & Hr2 & _); [exact Hr1| |by exists r2].
  intros k Hk. destruct (up_select_namespace_cmd 0 k i d1 Hk) as (k1 & E1 & Hk1); [lia|].
  destruct (up_command_eq k1 0 d1 (HDel DB_INDEX (pretty i)) (RInt 1) d2 Hk1) as (k2 & E2 & Hk2); [|done|].
  { simpl. rewrite E0, Hh. simpl. by rewrite Hv. }
  destruct (up_select_namespace_cmd i k2 0 d2 Hk2) as (k3 & E3 & Hk3); [lia|].
  exists k3. split; [|done]. apply with_db_ok. cbn [pipeline]. unfold mbind, M_bind, attempt. by rewrite E1, E2, E3.
Qed.
End UpOpen.

(** ** A server to evaluate: 16 databases, and errors given in advance *)
Module RedisSim.
Record t := mk { sim_data : Databases; sim_faults : list (option RedisError) }.

Definition query (sel : Z) (c : RedisCommand) (s : t) : (RedisReply + RedisError) * t :=
  match sim_faults s with
  | Some e :: fs => (inr e, mk (sim_data s) fs)
  | _ =>
      match serve 16 sel c (sim_data s) with
      | Some (r, d) => (inl r, mk d (tail (sim_faults s)))
      | None => (inr (mkRedisError RedisErrorKind.ResponseError "ERR"), mk (sim_data s) (tail (sim_faults s)))
      end
  end.

#[global] Instance sim_server : RedisServer t := {| redis_query := query; redis_type_text := "type error" |}.

#[global, refine] Instance sim_laws : RedisLaws t := {|
  redis_databases := 16; redis_data := sim_data; redis_up := fun s => sim_faults s = []
|}.
Proof.
  - done.
  - intros sel c [d [|[e|] fs]] r s'; simpl; unfold query; simpl; try done;
      destruct (serve 16 sel c d) as [[r' d']|] eqn:E; intros [=]; subst; exists r;
      split; try done; destruct c, r; try done; apply Permutation_refl.
  - intros sel c [d [|[e|] fs]] e' s'; simpl; unfold query; simpl;
      try destruct (serve 16 sel c d) as [[r' d']|]; intros [=]; subst; by left.
  - intros sel c [d fs] r d'; simpl. intros -> E. unfold query. simpl. rewrite E. by eexists _, _.
Defined.

Definition empty : t := mk ∅ [].
End RedisSim.


(** An advisory that is in Redis is not replaced: after an update has written a new
    version, reading it still gives the old one. *)
Theorem advisory_update_ignored {S} `{RedisLaws S} `{VulnerabilityJson} `{HashOrder} (r : Redis S)
    (sel : Z) (d : Databases) (old : string) (rest : list string) (new_ : VulnerabilityData) (text : string) :
  let o := adv_oid (vd_adv new_) in
  holds r sel d -> list_at (db_of d sel) (advisory_key o) = Some (old :: rest) -> old <> "" ->
  vul_to_string (vulnerability_of new_) = inl text ->
  exists r', (redis_add_advisory (Some new_) ;; redis_get_advisory o) r
    = (Ok (nvt_of_vulnerability o <$> vul_from_str old), r').
Proof.
  intros o Hr Hl Ho Ht. unfold redis_add_advisory. rewrite Ht. unfold mbind, M_bind. simpl rw_rpush.
  destruct (up_rpush r sel d (advisory_key o) [text] (old :: rest) Hr Hl) as (r1 & E1 & Hr1 & _); [done|].
  fold o. rewrite E1. unfold redis_get_advisory, mbind, M_bind. simpl rw_lindex.
  destruct (up_lindex r1 sel _ (advisory_key o) 0 ((old :: rest) ++ [text])%list Hr1) as (r2 & E2 & _).
  { by rewrite db_of_set, list_at_put. }
  rewrite E2. simpl default. rewrite decide_False by done. by exists r2.
Qed.

(** ** Examples *)
Module RedisExample.
Definition conn : Redis RedisSim.t := mkRedis RedisSim.empty (mkRedisCtx (Some 2%Z) 2).
Definition test : Nvt :=
  mkNvt "1.2" "a test" "a.nasl" {[TagKey.CreationDate := NaslValue.PNumber 7; TagKey.Qod := NaslValue.PNumber 80]}
    ["b.nasl"; "c.nasl"] [] ["ssh/on"; "x"] [] ["22"] []
    [mkNvtRef "cve" "CVE-1"; mkNvtRef "http" "URL"]
    [mkNvtPreference (Some 3%Z) PreferenceType.Entry "port" "22";
     mkNvtPreference (Some 1%Z) PreferenceType.CheckBox "on" "yes"] ACT.Attack "General".

(** The dependency on the second file is no file name any more. *)
Example test_reread : dependencies (reread_nvt test) = ["b.nasl"; " c.nasl"].
Proof. reflexivity. Qed.


Definition json : VulnerabilityJson := {|
  vul_to_string := fun v => inl (vul_summary v);
  vul_from_str := fun s => Some (mkVulnerability [] 0 0 s "" "" "" "" "" "" "" "" "" ∅ "" "" "")
|}.
Definition advisory (summary : string) : VulnerabilityData :=
  mkVulnerabilityData (mkAdvisories "t" "1.3" 0 0 "" "" [] summary "" "" [] "" (mkSeverity "" 0 None None)) "f" "a.notus".

Lemma advisory_update_ignored_witness :
  let d : Databases := {[2%Z := {[advisory_key "1.3" := RList ["old"]]}]} in
  let r := mkRedis (RedisSim.mk d []) (mkRedisCtx (Some 2%Z) 2) in
  holds r 2 d /\ exists r', (redis_add_advisory (H0 := json) (Some (advisory "new"))
      ;; redis_get_advisory (H0 := json) (H1 := plain_order) "1.3") r
    = (Ok (Some (nvt_of_vulnerability (H := plain_order) "1.3"
        (mkVulnerability [] 0 0 "old" "" "" "" "" "" "" "" "" "" ∅ "" "" ""))), r').
Proof.
  intros d r. split; [done|].
  apply (advisory_update_ignored (H1 := json) (H2 := plain_order) r 2 d "old" [] (advisory "new") "new"); done.
Defined.
End RedisExample.
