(* ===== verification/ContextFns.v ===== *)
(** * Functions that use the context of a run

    The knowledge base ([nasl/builtin/knowledge_base/mod.rs]), results
    ([report_functions/mod.rs]), the description of a script ([description/mod.rs]) and the
    host names of the target ([host/mod.rs]).  They act on the storage behind the context,
    on the host names found so far and on the counter of results. *)

From S2P Require Import Prelude RustStr Token Statement NaslValue Errors Register Executor FnArgs StringFns ValueFns Addr Nvt Storage.
Local Open Scope string_scope.

(** ** The storage of a context: [Dispatcher] and [Retriever] *)
Class ContextStorage (S : Type) := {
  cs_dispatch : ContextKey -> Field -> S -> outcome StorageError.t unit * S;
  cs_dispatch_replace : ContextKey -> Field -> S -> outcome StorageError.t unit * S;
  cs_retrieve : ContextKey -> Retrieve -> S -> outcome StorageError.t (list Field)
}.

(** The default storage. *)
#[global] Instance default_storage `{HashOrder} `{AdvisoryOrder} : ContextStorage DefaultDispatcher := {|
  cs_dispatch := fun key scope s => (Ok tt, dispatch s key scope);
  cs_dispatch_replace := fun key scope s => (Ok tt, dispatch_replace s key scope);
  cs_retrieve := fun key scope s => dispatcher_retrieve s key scope
|}.

(** Addresses and names: reading an IPv6 address into its canonical text, and the lookups
    of the system. *)
Class Net := {
  parse_ipv6 : string -> option string;
  lookup_addr : string -> option string;
  resolve : string -> list string + FnError
}.
(** [IpAddr::from_str] *)
Definition parse_ip `{Net} (s : string) : IpAddr + string := ip_from_str parse_ipv6 s.

Record NaslWorld (S : Type) := mkWorld {
  w_storage : S; w_vhosts : list (string * string); w_result_id : nat
}.
Arguments mkWorld {S}.
Arguments w_storage {S}.
Arguments w_vhosts {S}.
Arguments w_result_id {S}.

Section Context.
Context `{HashOrder} `{Features} `{BuildProfile} {S : Type} `{ContextStorage S}.
(** The key and the target of the run, and the seconds since 1970 unless the clock is
    before. *)
Context (key : ContextKey) (target : string) (now : option Z).

Abbreviation W := (NaslWorld S).
Abbreviation C := (M W FnError).

Definition set_storage (w : W) (s : S) : W := mkWorld s (w_vhosts w) (w_result_id w).

(** A call of the dispatcher, with [From<StorageError> for FnError]. *)
Definition stored (f : S -> outcome StorageError.t unit * S) : C unit := fun w =>
  let '(o, s) := f (w_storage w) in
  (match o with
   | Ok _ => Ok tt
   | Err e => Err (FnError.from_storage e)
   | Panic => Panic
   | OutOfFuel => OutOfFuel
   end, set_storage w s).

(** A part that does not touch the world. *)
Definition pure {A} (m : B A) : C A := of_outcome m.

(** ** Knowledge base *)
Definition set_kb_item (name value : NaslValue.t) (expires : option Z) : C NaslValue.t :=
  expire ← match expires with
    | None => mret None
    | Some seconds =>
        match now with
        | Some t => e ← or_panic (arith_u 64 (t + seconds)); mret (Some e)
        | None => mret (Some 0%Z)
        end
    end;
  _ ← stored (cs_dispatch key (KB (mkKb (NaslValue.to_string name) (NaslValue.as_primitive value) expire)));
  mret NaslValue.Null.

Definition kb_values (l : list Field) : list NaslValue.t :=
  omap (fun x => match x with KB kb => Some (NaslValue.from_primitive (kb_value kb)) | _ => None end) l.

Definition retrieved_kb (k : string) : C (list NaslValue.t) := fun w =>
  (match cs_retrieve key (GetKB k) (w_storage w) with
   | Ok l => Ok (kb_values l)
   | Err e => Err (FnError.from_storage e)
   | Panic => Panic
   | OutOfFuel => OutOfFuel
   end, w).

Definition get_kb_item (k : string) : C NaslValue.t := l ← retrieved_kb k; mret (NaslValue.Fork l).

Definition replace_kb_item (name value : NaslValue.t) : C NaslValue.t :=
  _ ← stored (cs_dispatch_replace key
    (KB (mkKb (NaslValue.to_string name) (NaslValue.as_primitive value) None)));
  mret NaslValue.Null.

Definition get_kb_list (k : NaslValue.t) : C NaslValue.t :=
  l ← retrieved_kb (NaslValue.to_string k); mret (NaslValue.Array l).

Definition set_kb_item_fn (r : Register) : C NaslValue.t :=
  _ ← pure (check_args r ["name"; "value"; "expires"] [] (Some 0%nat));
  name ← pure (get_named_arg from_value r "name");
  value ← pure (get_named_arg from_value r "value");
  expires ← pure (get_optional_named_arg from_u64 r "expires");
  set_kb_item name value expires.

Definition get_kb_item_fn (r : Register) : C NaslValue.t :=
  _ ← pure (check_args r [] [] (Some 1%nat));
  k ← pure (get_positional_arg from_string r 0 1);
  get_kb_item k.

Definition replace_kb_item_fn (r : Register) : C NaslValue.t :=
  _ ← pure (check_args r ["name"; "value"] [] (Some 0%nat));
  name ← pure (get_named_arg from_value r "name");
  value ← pure (get_named_arg from_value r "value");
  replace_kb_item name value.

Definition get_kb_list_fn (r : Register) : C NaslValue.t :=
  _ ← pure (check_args r [] [] (Some 1%nat));
  k ← pure (get_positional_arg from_value r 0 1);
  get_kb_list k.

Definition KnowledgeBase : FunctionSet W :=
  list_to_map [("set_kb_item", set_kb_item_fn); ("get_kb_item", get_kb_item_fn);
               ("get_kb_list", get_kb_list_fn); ("replace_kb_item", replace_kb_item_fn)].

(** ** Results *)

(** [Reporting::id] *)
Definition next_id : C nat := fun w =>
  (Ok (w_result_id w), mkWorld (w_storage w) (w_vhosts w) (Datatypes.S (w_result_id w))).

Definition store_result (typus : ResultType) (r : Register) : C NaslValue.t :=
  data ← pure (total (Register.named r "data"));
  port ← pure (total (Register.named r "port"));
  proto ← pure (total (Register.named r "proto"));
  let port := match port with
    | Some (Value x) => Some (wrap_i 16 (NaslValue.to_i64 x))
    | _ => None
    end in
  let protocol := if decide (context_display <$> proto = Some "udp") then UDP else TCP in
  id ← next_id;
  let result := mkScanResult id typus (Some target) None (Some (key_ref key)) port
    (Some protocol) (context_display <$> data) None in
  _ ← stored (retry_dispatch (cs_dispatch key (Result result)) 5);
  mret NaslValue.Null.

Definition Reporting : FunctionSet W :=
  list_to_map [("log_message", store_result Log); ("security_message", store_result Alarm);
               ("error_message", store_result ErrorResult)].

(** ** Host names *)
Definition from_hostname (v : NaslValue.t) : B string :=
  s ← from_string v;
  if decide (s = "") then Err (FnError.from_kind (Builtin (BuiltinError.Host "Empty hostname.")))
  else Ok s.

Definition get_host_names : C NaslValue.t :=
  hns ← gets w_vhosts;
  mret (NaslValue.Array (map NaslValue.String
    (match hns with [] => [target] | _ => map fst hns end))).

Definition add_host_name (hostname : string) (source : option string) : C NaslValue.t :=
  let source := match source with Some x => if decide (x = "") then "NASL" else x | None => "NASL" end in
  _ ← modify (fun w => mkWorld (w_storage w) (w_vhosts w ++ [(hostname, source)])%list (w_result_id w));
  mret NaslValue.Null.

Definition get_host_name_source (hostname : string) : C string :=
  vh ← gets w_vhosts;
  mret (match list_find (fun x => x.1 = hostname) vh with Some (_, (_, source)) => source | None => target end).

Definition get_host_ip `{Net} : B IpAddr :=
  match parse_ip (if decide (target = "") then "127.0.0.1" else target) with
  | inl ip => Ok ip
  | inr e => Err (FnError.wrong_unnamed_argument "IP address" e)
  end.

Definition get_host_name `{Net} : C NaslValue.t :=
  vh ← gets w_vhosts;
  match vh with
  | [] =>
      mret (NaslValue.String
        match get_host_ip with
        | Ok ip => default (ip_to_string ip) (lookup_addr (ip_to_string ip))
        | _ => target
        end)
  | _ => mret (NaslValue.Fork (map (fun x => NaslValue.String x.1) vh))
  end.

Definition resolve_host_name `{Net} (hostname : string) : string :=
  match resolve hostname with inl (v :: _) => v | _ => "127.0.0.1" end.

Definition resolve_hostname_to_multiple_ips `{Net} (hostname : string) : B NaslValue.t :=
  match resolve hostname with
  | inl ips => Ok (NaslValue.Array (map NaslValue.String ips))
  | inr e => Err e
  end.

Definition target_is_ipv6 `{Net} : B bool :=
  if decide (target = "") then Err (FnError.from_kind (Builtin (BuiltinError.Host "Empty address.")))
  else Ok (bool_decide (is_Some (parse_ipv6 target))).

Definition same_host `{Net} (h1 h2 : string) (cmp_hostname : option bool) : B bool :=
  match resolve h1, resolve h2 with
  | inl h1, inl h2 =>
      let common (a b : list string) := existsb (fun x => bool_decide (x ∈ b)) a in
      Ok (common h1 h2 || (default false cmp_hostname && common (omap lookup_addr h1) (omap lookup_addr h2)))
  | inr e, _ => Err e
  | _, inr e => Err e
  end.

Definition get_host_names_fn (r : Register) : C NaslValue.t :=
  _ ← pure (check_args r [] [] (Some 0%nat)); get_host_names.
Definition get_host_ip_fn `{Net} (r : Register) : C NaslValue.t :=
  _ ← pure (check_args r [] [] (Some 0%nat)); ip ← pure get_host_ip; mret (NaslValue.String (ip_to_string ip)).
Definition resolve_host_name_fn `{Net} (r : Register) : C NaslValue.t :=
  _ ← pure (check_args r ["hostname"] [] (Some 0%nat));
  hostname ← pure (get_named_arg from_hostname r "hostname");
  pure (to_str (resolve_host_name hostname)).
Definition resolve_hostname_to_multiple_ips_fn `{Net} (r : Register) : C NaslValue.t :=
  _ ← pure (check_args r ["hostname"] [] (Some 0%nat));
  hostname ← pure (get_named_arg from_hostname r "hostname");
  pure (resolve_hostname_to_multiple_ips hostname).
Definition target_is_ipv6_fn `{Net} (r : Register) : C NaslValue.t :=
  _ ← pure (check_args r [] [] (Some 0%nat)); b ← pure target_is_ipv6; pure (to_bool b).
Definition same_host_fn `{Net} (r : Register) : C NaslValue.t :=
  _ ← pure (check_args r ["cmp_hostname"] [] (Some 2%nat));
  h1 ← pure (get_positional_arg from_string r 0 2);
  h2 ← pure (get_positional_arg from_string r 1 2);
  cmp_hostname ← pure (get_optional_named_arg from_bool r "cmp_hostname");
  b ← pure (same_host h1 h2 cmp_hostname);
  pure (to_bool b).
Definition add_host_name_fn (r : Register) : C NaslValue.t :=
  _ ← pure (check_args r ["hostname"; "source"] [] (Some 0%nat));
  hostname ← pure (get_named_arg from_hostname r "hostname");
  source ← pure (get_optional_named_arg from_string r "source");
  add_host_name hostname source.
Definition get_host_name_source_fn (r : Register) : C NaslValue.t :=
  _ ← pure (check_args r ["hostname"] [] (Some 0%nat));
  hostname ← pure (get_named_arg from_hostname r "hostname");
  s ← get_host_name_source hostname;
  pure (to_str s).

Definition Host_ `{Net} : FunctionSet W :=
  list_to_map [("get_host_names", get_host_names_fn); ("get_host_ip", get_host_ip_fn);
    ("resolve_host_name", resolve_host_name_fn);
    ("resolve_hostname_to_multiple_ips", resolve_hostname_to_multiple_ips_fn);
    ("TARGET_IS_IPV6", target_is_ipv6_fn); ("same_host", same_host_fn);
    ("add_host_name", add_host_name_fn); ("get_host_name", fun _ => get_host_name);
    ("get_host_name_source", get_host_name_source_fn)].
End Context.
