(* ===== verification/Sockets.v ===== *)
(** * Sockets of scripts

    [nasl/builtin/network]: ports and transports ([mod.rs]), the utilities of
    [network_utils.rs], TCP connections with their buffer ([tcp.rs]) and TLS ([tls.rs]), UDP
    connections that send again ([udp.rs]), the table of sockets and its functions
    ([socket.rs]) and the functions about the network ([network.rs]).  The operating system
    is the class [SocketNet], the TLS library [TlsLib]; lines that arrive are kept by the
    bytes of their UTF-8 text. *)

From S2P Require Import Prelude RustStr Token Statement NaslValue Errors Register Executor FnArgs StringFns Text Addr ValueFns Nvt Storage ContextFns.
Local Open Scope string_scope.

(** ** Errors *)
Inductive ErrorKind := TimedOut | WouldBlock | Interrupted | InvalidData | WriteZero | OtherKind.
#[global] Instance ErrorKind_eq_dec : EqDecision ErrorKind.
Proof. solve_decision. Defined.
Record IoError := mkIo { io_kind : ErrorKind; io_text : string }.

Abbreviation SocketAddr := (IpAddr * Z)%type.
(** [Display for SocketAddr] *)
Definition socket_addr_to_string (a : SocketAddr) : string :=
  match a.1 with
  | V4 x => ipv4_to_string x ++ ":" ++ pretty a.2
  | V6 x => "[" ++ x ++ "]:" ++ pretty a.2
  end.

Module SocketError.
Inductive t : Type :=
| IO (e : IoError)
| SocketClosed (fd : nat)
| Diagnostic (s : string)
| WrongArgument (s : string)
| SupportedOnlyOnTcp (s : string)
| HostnameLookupFailed (s : string)
| HostnameNoIpFound (s : string)
| UnsupportedTransportLayerUnknown (n : Z)
| UnsupportedTransportLayerTlsVersion (n : Z)
| UnableToOpenPrivSocket (a : IpAddr)
| FailedToReadResponseCode
| FailedToParseResponseCode (e : string)
| ResponseCodeMismatch (expected : list Z) (line : list byte)
| InvalidIpAddress (s : string)
| FailedToBindSocket (e : IoError) (a : SocketAddr)
| NoRouteToDestination (a : IpAddr).
Definition to_string (e : t) : string :=
  match e with
  | IO e => io_text e
  | SocketClosed fd => "Socket " ++ pretty fd ++ " already closed."
  | Diagnostic s | WrongArgument s => s
  | SupportedOnlyOnTcp s => "Function " ++ s ++ " only supported on TCP sockets."
  | HostnameLookupFailed s => "Unable to lookup hostname " ++ s ++ "."
  | HostnameNoIpFound s => "No IP found for hostname " ++ s ++ "."
  | UnsupportedTransportLayerUnknown n => "Unsupported transport layer " ++ pretty n ++ " (unknown)."
  | UnsupportedTransportLayerTlsVersion n => "Unsupported transport layer " ++ pretty n ++ " (tls_version)."
  | UnableToOpenPrivSocket a => "Unable to open privileged socket for address " ++ ip_to_string a ++ "."
  | FailedToReadResponseCode => "Failed to read response code."
  | FailedToParseResponseCode e => "Failed to parse response code. " ++ e
  | ResponseCodeMismatch expected line =>
      "Expected code [" ++ join_text ", " (map pretty expected) ++ "], got response: " ++ bytes_to_str line
  | InvalidIpAddress s => "String is not an IP address: " ++ s
  | FailedToBindSocket e a => "Failed to bind socket to " ++ socket_addr_to_string a ++ ". " ++ io_text e
  | NoRouteToDestination a => "No route to destination: " ++ ip_to_string a ++ "."
  end.
(** [From<SocketError> for FnError] *)
Definition into (e : t) : FnError := FnError.from_kind (Builtin (BuiltinError.Socket (to_string e))).
End SocketError.

(** ** mod.rs *)
Definition MTU : nat := 512 - 60 - 8.
Definition DEFAULT_PORT : Z := 33435.
Definition mtu (_ : IpAddr) : nat := MTU.

Inductive OpenvasEncaps := Auto | Ip | Ssl23 | Ssl2 | Ssl3 | Tls1 | Tls11 | Tls12 | Tls13 | TlsCustom | Max.
Definition encaps_from_i64 (val : Z) : option OpenvasEncaps :=
  match val with
  | 0 => Some Auto | 1 => Some Ip | 2 => Some Ssl23 | 3 => Some Ssl2 | 4 => Some Ssl3 | 5 => Some Tls1
  | 6 => Some Tls11 | 7 => Some Tls12 | 8 => Some Tls13 | 9 => Some TlsCustom | 10 => Some Max
  | _ => None
  end%Z.
(** [Display for OpenvasEncaps] *)
Definition encaps_to_string (e : OpenvasEncaps) : string :=
  match e with
  | Ip => "None" | Ssl23 => "SSL 2.3" | Ssl2 => "SSL 2" | Ssl3 => "SSL 3" | Tls1 => "TLS 1" | Tls11 => "TLS 1.1"
  | Tls12 => "TLS 1.2" | Tls13 => "TLS 1.3" | _ => "unknown"
  end.

(** [FromNaslValue for Port] *)
Definition from_port `{HashOrder} (v : NaslValue.t) : B Z :=
  port ← from_i64 v;
  if (0 <=? port)%Z && (port <=? 65535)%Z then Ok port
  else wrong (pretty port ++ " is not a valid port number").

(** ** The network of the machine *)

(** An entry of [getifaddrs]: no address, one of another family, or an IP address with the
    mask, if there is one. *)
Inductive IfAddr := IfNull | IfOther | IfIp (ip : IpAddr) (netmask : option IpAddr).

(** The calls of the operating system, as the code makes them.  A read is given the size of
    its buffer and answers the bytes it put there; timeouts are in seconds.  [inr] is an
    error. *)
Class SocketNet (V : Type) := {
  Sock : Type; Tls : Type; Udp : Type;
  sock_new : bool -> V -> (Sock + IoError) * V;
  sock_new_raw : bool -> V -> (Sock + IoError) * V;
  sock_connect_timeout : Sock -> SocketAddr -> Z -> V -> (unit + IoError) * V;
  sock_bind : Sock -> SocketAddr -> V -> (unit + IoError) * V;
  sock_local_addr : Sock -> V -> (option SocketAddr + IoError) * V;
  sock_read_timeout : Sock -> V -> (option Z + IoError) * V;
  sock_set_read_timeout : Sock -> option Z -> V -> (unit + IoError) * V;
  sock_read : Sock -> nat -> V -> (list byte + IoError) * V;
  sock_write : Sock -> list byte -> V -> (nat + IoError) * V;
  sock_send_with_flags : Sock -> list byte -> Z -> V -> (nat + IoError) * V;
  tls_read : Tls -> Sock -> nat -> V -> (list byte + IoError) * V;
  tls_write : Tls -> Sock -> list byte -> V -> (nat + IoError) * V;
  net_udp_bind : string -> V -> (Udp + IoError) * V;
  net_udp_connect : Udp -> string -> V -> (unit + IoError) * V;
  net_udp_connect_addr : Udp -> SocketAddr -> V -> (unit + IoError) * V;
  net_udp_local_addr : Udp -> V -> (SocketAddr + IoError) * V;
  net_udp_peer_addr : Udp -> V -> (SocketAddr + IoError) * V;
  net_udp_recv_from : Udp -> nat -> V -> (list byte * SocketAddr + IoError) * V;
  net_udp_send : Udp -> list byte -> V -> (nat + IoError) * V;
  net_libc_send : Udp -> list byte -> Z -> V -> (nat + IoError) * V;
  net_udp_read_timeout : Udp -> V -> (option Z + IoError) * V;
  net_udp_set_read_timeout : Udp -> option Z -> V -> (unit + IoError) * V;
  lookup_host : string -> V -> option (list IpAddr) * V;
  system_time : V -> Z * V;
  net_sleep : Z -> V -> V;
  getifaddrs : V -> option (list IfAddr) * V;
  uname : V -> option string * V;
  (** [Ipv6Addr::segments] of an address by its canonical text *)
  ipv6_segments : string -> list Z
}.

(** A call that cannot fail, and one with an error of the system. *)
Definition net_call {V E A} (f : V -> A * V) : M V E A := fun v => let '(a, v') := f v in (Ok a, v').
Definition io {V A} (f : V -> (A + IoError) * V) : M V IoError A := r ← net_call f; of_result r.

Section Net.
Context `{Net} {V : Type} `{SocketNet V}.
Abbreviation I := (M V IoError).
Abbreviation N := (M V SocketError.t).
Definition from_io {A} (m : I A) : N A := err_into SocketError.IO m.

(** ** network_utils.rs *)
Definition ipstr2ipaddr (ip_addr : string) : N IpAddr :=
  match parse_ip ip_addr with inl ip => mret ip | inr _ => throw (SocketError.InvalidIpAddress ip_addr) end.

Definition convert_timeout (timeout : option Z) : option Z :=
  match timeout with Some t => if (1 <=? t)%Z then Some t else None | None => None end.

Definition bind_local_socket (dst : SocketAddr) : N Udp :=
  err_into (fun e => SocketError.FailedToBindSocket e dst)
    (io (net_udp_bind match dst.1 with V4 _ => "0.0.0.0:0" | V6 _ => "[::]:0" end)).

Definition get_source_ip (dst : IpAddr) (port : Z) : N IpAddr :=
  let sd := ip_to_string dst ++ ":" ++ pretty port in
  local_socket ← bind_local_socket (dst, port);
  c ← net_call (net_udp_connect local_socket sd);
  match c with
  | inr _ => throw (SocketError.NoRouteToDestination dst)
  | inl _ =>
      a ← net_call (net_udp_local_addr local_socket);
      match a with
      | inl l_addr =>
          match parse_ip (ip_to_string l_addr.1) with
          | inl ip => mret ip
          | inr _ => throw (SocketError.NoRouteToDestination dst)
          end
      | inr _ => throw (SocketError.NoRouteToDestination dst)
      end
  end.

Fixpoint find_netmask (local_address : IpAddr) (l : list IfAddr) : option (option IpAddr) :=
  match l with
  | [] => None
  | IfIp ip net :: l' => if decide (ip = local_address) then Some net else find_netmask local_address l'
  | _ :: l' => find_netmask local_address l'
  end.

Definition get_netmask_by_local_ip (local_address : IpAddr) : N (option IpAddr) :=
  interfaces ← net_call getifaddrs;
  match interfaces with
  | None => throw (SocketError.Diagnostic "Error getting interfaces")
  | Some l =>
      match find_netmask local_address l with
      | Some net => mret net
      | None => throw (SocketError.NoRouteToDestination local_address)
      end
  end.

Definition islocalhost (addr : IpAddr) : N bool :=
  if is_loopback addr || is_unspecified addr then mret true
  else r ← attempt (get_netmask_by_local_ip addr); mret match r with inl _ => true | inr _ => false end.

(** ** tcp.rs

    A connection is a [BufReader] with its capacity and what it holds, over a stream that
    may use TLS. *)
Record TcpConnection := mkTcp { tc_sock : Sock; tc_tls : option Tls; tc_buffer : list byte; tc_capacity : nat }.
Abbreviation T := (M (TcpConnection * V) IoError).

Definition set_buffer (b : list byte) (c : TcpConnection) : TcpConnection :=
  mkTcp (tc_sock c) (tc_tls c) b (tc_capacity c).
(** A call on the stream of a connection. *)
Definition on_stream {A} (f : TcpConnection -> V -> (A + IoError) * V) : T A := fun '(c, v) =>
  let '(o, v') := io (f c) v in (o, (c, v')).

(** [Read for TcpDataStream] *)
Definition stream_read (n : nat) (c : TcpConnection) (v : V) : (list byte + IoError) * V :=
  match tc_tls c with Some t => tls_read t (tc_sock c) n v | None => sock_read (tc_sock c) n v end.

(** [Read for TcpConnection]: past the buffer. *)
Definition tcp_read (n : nat) : T (list byte) := on_stream (stream_read n).

(** [BufRead for TcpConnection] *)
Definition fill_buf : T (list byte) :=
  c ← gets fst;
  match tc_buffer c with
  | [] =>
      b ← on_stream (stream_read (tc_capacity c));
      modify (fun '(c, v) => (set_buffer b c, v)) ;; mret b
  | b => mret b
  end.
Definition consume (amt : nat) : T unit := modify (fun '(c, v) => (set_buffer (drop amt (tc_buffer c)) c, v)).

(** [Write for TcpConnection] *)
Definition tcp_write (buf : list byte) : T nat :=
  on_stream (fun c => match tc_tls c with Some t => tls_write t (tc_sock c) buf | None => sock_write (tc_sock c) buf end).

(** *** What [std::io] adds: [read_until], [read_line], [write_all] *)
Definition newline_byte : byte := x0a.

(** The bytes up to and with the first line break. *)
Fixpoint upto_newline (l : list byte) : option (list byte) :=
  match l with
  | [] => None
  | b :: l' => if Byte.eqb b newline_byte then Some [b] else cons b <$> upto_newline l'
  end.

Fixpoint read_until (fuel : nat) (acc : list byte) : T (list byte) :=
  match fuel with
  | 0 => out_of_fuel
  | S fuel =>
      r ← attempt fill_buf;
      match r with
      | inr e => if decide (io_kind e = Interrupted) then read_until fuel acc else throw e
      | inl available =>
          match upto_newline available with
          | Some line => consume (length line) ;; mret (acc ++ line)%list
          | None =>
              consume (length available) ;;
              match available with [] => mret acc | _ => read_until fuel (acc ++ available)%list end
          end
      end
  end.

(** Valid UTF-8, as [str::from_utf8] checks it. *)
Definition in_bytes (lo hi : Z) (b : byte) : bool := (lo <=? byte_Z b)%Z && (byte_Z b <=? hi)%Z.
Fixpoint utf8_valid (l : list byte) : bool :=
  match l with
  | [] => true
  | b0 :: l0 =>
      if in_bytes 0 0x7f b0 then utf8_valid l0
      else if in_bytes 0xc2 0xdf b0 then
        match l0 with b1 :: l1 => in_bytes 0x80 0xbf b1 && utf8_valid l1 | _ => false end
      else if in_bytes 0xe0 0xef b0 then
        match l0 with
        | b1 :: b2 :: l2 =>
            in_bytes (if in_bytes 0xe0 0xe0 b0 then 0xa0 else 0x80) (if in_bytes 0xed 0xed b0 then 0x9f else 0xbf) b1
            && in_bytes 0x80 0xbf b2 && utf8_valid l2
        | _ => false
        end
      else if in_bytes 0xf0 0xf4 b0 then
        match l0 with
        | b1 :: b2 :: b3 :: l3 =>
            in_bytes (if in_bytes 0xf0 0xf0 b0 then 0x90 else 0x80) (if in_bytes 0xf4 0xf4 b0 then 0x8f else 0xbf) b1
            && in_bytes 0x80 0xbf b2 && in_bytes 0x80 0xbf b3 && utf8_valid l3
        | _ => false
        end
      else false
  end.
Definition invalid_utf8 : IoError := mkIo InvalidData "stream did not contain valid UTF-8".

Definition read_line (fuel : nat) : T (list byte) :=
  l ← read_until fuel [];
  if utf8_valid l then mret l else throw invalid_utf8.

Fixpoint write_all (fuel : nat) (buf : list byte) : T unit :=
  match buf, fuel with
  | [], _ => mret tt
  | _, 0 => out_of_fuel
  | _, S fuel =>
      r ← attempt (tcp_write buf);
      match r with
      | inl 0%nat => throw (mkIo WriteZero "failed to write whole buffer")
      | inl n => if decide (n <= length buf)%nat then write_all fuel (drop n buf) else panic
      | inr e => if decide (io_kind e = Interrupted) then write_all fuel buf else throw e
      end
  end.

(** *** Opening *)
Definition DEFAULT_BUF_SIZE : nat := 8 * 1024.
Definition tcp_new (sock : Sock) (tls : option Tls) (bufsz : option nat) : TcpConnection :=
  mkTcp sock tls [] (default DEFAULT_BUF_SIZE bufsz).

(** The loop of [connect]: [i] and [retry] have eight bits, so that it turns at most 256
    times. *)
Fixpoint connect_loop `{BuildProfile} (turns : nat) (sock : Sock) (a : SocketAddr) (timeout i retry : Z) : I unit :=
  match turns with
  | 0 => out_of_fuel
  | S turns =>
      r ← attempt (io (sock_connect_timeout sock a timeout));
      match r with
      | inl _ => mret tt
      | inr e =>
          if decide (io_kind e = TimedOut) then
            last ← or_panic (arith_u 8 (retry - 1));
            if (i =? last)%Z then throw e
            else i ← or_panic (arith_u 8 (i + 1)); connect_loop turns sock a timeout i retry
          else throw e
      end
  end.

Definition connect `{BuildProfile} (addr : IpAddr) (port : Z) (tls : option Tls) (timeout : Z) (bufsz : option nat)
  (retry : Z) : I TcpConnection :=
  sock ← io (sock_new (is_ipv6 addr));
  connect_loop 256 sock (addr, port) timeout 0 retry ;;
  mret (tcp_new sock tls bufsz).

Definition connect_priv (addr : IpAddr) (sport dport timeout : Z) : N TcpConnection :=
  sock ← from_io (io (sock_new_raw (is_ipv6 addr)));
  src ← get_source_ip addr dport;
  from_io (io (sock_bind sock (src, sport))) ;;
  from_io (io (sock_connect_timeout sock (addr, dport) timeout)) ;;
  mret (tcp_new sock None None).

Definition tcp_local_addr : T SocketAddr :=
  a ← on_stream (fun c => sock_local_addr (tc_sock c));
  or_panic a.

Definition send_with_flags (buf : list byte) (flags : Z) : T nat :=
  on_stream (fun c => sock_send_with_flags (tc_sock c) buf flags).

(** A read with another timeout, which is put back afterwards. *)
Definition with_timeout {A} (timeout : Z) (read : T A) : T A :=
  old ← on_stream (fun c => sock_read_timeout (tc_sock c));
  on_stream (fun c => sock_set_read_timeout (tc_sock c) (Some timeout)) ;;
  ret ← attempt read;
  on_stream (fun c => sock_set_read_timeout (tc_sock c) old) ;;
  of_result ret.
Definition read_with_timeout (n : nat) (timeout : Z) : T (list byte) := with_timeout timeout (tcp_read n).
Definition read_line_with_timeout (fuel : nat) (timeout : Z) : T (list byte) := with_timeout timeout (read_line fuel).

(** ** udp.rs *)
Record UdpConnection := mkUdp { uc_socket : Udp; uc_buffer : list byte; uc_flags : option Z }.
Abbreviation U := (M (UdpConnection * V) IoError).
Definition NUM_TIMES_TO_RESEND : nat := 5.
Definition on_udp {A} (f : Udp -> V -> (A + IoError) * V) : U A := fun '(c, v) =>
  let '(o, v') := io (f (uc_socket c)) v in (o, (c, v')).

(** [Read for UdpConnection]: the turns that are left; after the last one the code is
    declared unreachable. *)
Fixpoint udp_read_loop (left : nat) (n : nat) : U (list byte) :=
  match left with
  | 0 => panic
  | S left' =>
      result ← attempt (on_udp (fun s => net_udp_recv_from s n));
      match result with
      | inl (data, origin) =>
          peer ← on_udp net_udp_peer_addr;
          if decide (peer = origin) then mret data else udp_read_loop left' n
      | inr e =>
          if bool_decide (io_kind e = TimedOut) && negb (bool_decide (left' = 0%nat)) then
            c ← gets fst;
            on_udp (fun s => net_udp_send s (uc_buffer c)) ;;
            udp_read_loop left' n
          else throw e
      end
  end.
Definition udp_read (n : nat) : U (list byte) := udp_read_loop NUM_TIMES_TO_RESEND n.

(** [Write for UdpConnection] *)
Definition udp_write (buf : list byte) : U nat :=
  peer ← on_udp net_udp_peer_addr;
  let mtu := mtu peer.1 in
  if decide (mtu < length buf)%nat then
    throw (mkIo OtherKind ("UDP data of size " ++ pretty (length buf) ++ " exceeds the maximum length of " ++ pretty mtu))
  else
    c ← gets fst;
    result ← attempt (on_udp (fun s => net_libc_send s buf (default 0%Z (uc_flags c))));
    modify (fun '(c, v) => (mkUdp (uc_socket c) (uc_buffer c) None, v)) ;;
    of_result result.

Definition udp_new (addr : IpAddr) (port : Z) : N UdpConnection :=
  socket ← bind_local_socket (addr, port);
  from_io (io (net_udp_connect_addr socket (addr, port))) ;;
  from_io (io (net_udp_set_read_timeout socket (Some 1%Z))) ;;
  mret (mkUdp socket [] None).

Definition udp_new_priv (addr : IpAddr) (sport dport : Z) : I UdpConnection :=
  socket ← io (net_udp_bind match addr with V4 _ => "0.0.0.0:" ++ pretty sport | V6 _ => "[::]:" ++ pretty sport end);
  io (net_udp_connect_addr socket (addr, dport)) ;;
  io (net_udp_set_read_timeout socket (Some 1%Z)) ;;
  mret (mkUdp socket [] None).

Definition udp_set_flags (flags : Z) : U unit :=
  modify (fun '(c, v) => (mkUdp (uc_socket c) (uc_buffer c) (Some flags), v)).
Definition udp_local_addr : U SocketAddr := on_udp net_udp_local_addr.
Definition udp_read_with_timeout (n : nat) (timeout : Z) : U (list byte) :=
  old ← on_udp net_udp_read_timeout;
  on_udp (fun s => net_udp_set_read_timeout s (Some timeout)) ;;
  ret ← attempt (udp_read n);
  on_udp (fun s => net_udp_set_read_timeout s old) ;;
  of_result ret.
End Net.

(** ** tls.rs *)
Inductive PemKey := Pkcs1Key (k : list byte) | Pkcs8Key (k : list byte) | Sec1Key (k : list byte).
Inductive PemItem := KeyItem (k : PemKey) | OtherItem.
Definition secret_der (k : PemKey) : list byte := match k with Pkcs1Key k | Pkcs8Key k | Sec1Key k => k end.

Module TLSError.
Inductive t : Type := Io (e : IoError) | Rustls (e : string) | KeyError (s : string).
(** [Display for TLSError] *)
Definition to_string (e : t) : string :=
  match e with Io e => io_text e | Rustls e => "Rustls error: " ++ e | KeyError s => "Key error: " ++ s end.
End TLSError.

(** What the code calls of files, rustls, its reader of PEM files and pkcs8. *)
Class TlsLib (V : Type) `{SocketNet V} := {
  Reader : Type; ServerName : Type; Cert : Type; RootStore : Type; EncryptedKey : Type; ClientConfig : Type;
  server_name : string -> option ServerName;
  open_reader : string -> V -> (Reader + IoError) * V;
  read_one : Reader -> V -> (option PemItem + IoError) * V;
  pem_certs : Reader -> V -> list (Cert + IoError) * V;
  root_store : list Cert -> RootStore;
  encrypted_from_der : list byte -> EncryptedKey + string;
  decrypt_key : EncryptedKey -> string -> list byte + string;
  client_config : RootStore -> list Cert -> PemKey -> option ClientConfig;
  client_connection : ClientConfig -> ServerName -> V -> (Tls + string) * V
}.

Section TlsClient.
Context {V : Type} `{TlsLib V}.
Abbreviation L := (M V TLSError.t).
Definition tls_io {A} (f : V -> (A + IoError) * V) : L A := err_into TLSError.Io (io f).

Fixpoint read_private_key (fuel : nat) (reader : Reader) (filename : string) : L PemKey :=
  match fuel with
  | 0 => out_of_fuel
  | S fuel =>
      item ← tls_io (read_one reader);
      match item with
      | Some (KeyItem key) => mret key
      | None => throw (TLSError.Io (mkIo InvalidData ("No private key found in " ++ filename)))
      | Some OtherItem => read_private_key fuel reader filename
      end
  end.
Definition load_private_key (fuel : nat) (filename : string) : L PemKey :=
  reader ← tls_io (open_reader filename);
  read_private_key fuel reader filename.

(** [map(|result| result.unwrap())] *)
Definition unwrap_all {A E} (l : list (A + E)) : option (list A) :=
  mapM (fun r => match r with inl a => Some a | inr _ => None end) l.

Definition create_tls_client (fuel : nat) (hostname cert_path key_path password cafile_path : string) : L Tls :=
  server ← or_panic (server_name hostname);
  ca_file ← tls_io (open_reader cafile_path);
  ca ← net_call (pem_certs ca_file);
  ca ← or_panic (unwrap_all ca);
  let store := root_store ca in
  cert_file ← tls_io (open_reader cert_path);
  cert ← net_call (pem_certs cert_file);
  cert ← or_panic (unwrap_all cert);
  key ← load_private_key fuel key_path;
  key ← if decide (password = "") then mret key
        else
          match encrypted_from_der (secret_der key) with
          | inr e => throw (TLSError.KeyError ("Failed to parse encrypted key: " ++ e))
          | inl encrypted =>
              match decrypt_key encrypted password with
              | inr e => throw (TLSError.KeyError ("Failed to decrypt key with provided password: " ++ e))
              | inl k => mret (Pkcs8Key k)
              end
          end;
  config ← or_panic (client_config store cert key);
  c ← net_call (client_connection config server);
  match c with inl t => mret t | inr e => throw (TLSError.Rustls e) end.
End TlsClient.

(** ** socket.rs *)
Record Interval := mkInterval { interval : Z; last_tick : Z }.

(** [ftp_log_in] and its answers: a reader of lines in any state. *)
Section Ftp.
Context {C : Type} (read : M C IoError (list byte)).

(** The offset is the start of a character (or the end). *)
Definition is_boundary (l : list byte) (i : nat) : bool :=
  match l !! i with Some b => negb (in_bytes 0x80 0xbf b) | None => bool_decide (i = length l) end.
Definition slice_to (l : list byte) (i : nat) : option (list byte) := if is_boundary l i then Some (take i l) else None.

(** The white space of Unicode at the front of a text, and a text without it. *)
Definition white_front (l : list byte) : nat :=
  match l with
  | b0 :: l0 =>
      if in_bytes 0x09 0x0d b0 || in_bytes 0x20 0x20 b0 then 1
      else
        match l0 with
        | b1 :: l1 =>
            if in_bytes 0xc2 0xc2 b0 && (in_bytes 0x85 0x85 b1 || in_bytes 0xa0 0xa0 b1) then 2
            else
              match l1 with
              | b2 :: _ =>
                  if (in_bytes 0xe1 0xe1 b0 && in_bytes 0x9a 0x9a b1 && in_bytes 0x80 0x80 b2)
                    || (in_bytes 0xe2 0xe2 b0 && in_bytes 0x80 0x80 b1
                        && (in_bytes 0x80 0x8a b2 || in_bytes 0xa8 0xa9 b2 || in_bytes 0xaf 0xaf b2))
                    || (in_bytes 0xe2 0xe2 b0 && in_bytes 0x81 0x81 b1 && in_bytes 0x9f 0x9f b2)
                    || (in_bytes 0xe3 0xe3 b0 && in_bytes 0x80 0x80 b1 && in_bytes 0x80 0x80 b2)
                  then 3 else 0
              | _ => 0
              end
        | _ => 0
        end
  | _ => 0
  end.
(** All characters of the text are white space. *)
Fixpoint all_white (fuel : nat) (l : list byte) : bool :=
  match l, fuel with
  | [], _ => true
  | _, 0 => false
  | _, S fuel => match white_front l with 0 => false | n => all_white fuel (drop n l) end
  end.
Fixpoint trim_start_bytes (fuel : nat) (l : list byte) : list byte :=
  match fuel with
  | 0 => l
  | S fuel => match white_front l with 0 => l | n => trim_start_bytes fuel (drop n l) end
  end.
Fixpoint trim_end_bytes (l : list byte) : list byte :=
  if all_white (length l) l then []
  else match l with [] => [] | b :: l' => b :: trim_end_bytes l' end.
Definition trim_bytes (l : list byte) : list byte := trim_end_bytes (trim_start_bytes (length l) l).

(** The line ends an answer that started with [code]. *)
Definition ends_answer (expected line : list byte) : option bool :=
  if decide (length line < 5)%nat then Some false
  else l ← slice_to line 4; Some (bool_decide (l = expected)).

Fixpoint skip_lines (fuel : nat) (expected line : list byte) : M C SocketError.t (list byte) :=
  match fuel with
  | 0 => out_of_fuel
  | S fuel =>
      last ← or_panic (ends_answer expected line);
      if last : bool then mret line
      else line ← err_into SocketError.IO read; skip_lines fuel expected line
  end.

Definition check_ftp_response (fuel : nat) (expected_codes : list Z) : M C SocketError.t Z :=
  line ← err_into SocketError.IO read;
  if decide (length line < 5)%nat then throw SocketError.FailedToReadResponseCode
  else
    first ← or_panic (slice_to line 3);
    code ← ok_or (u64_from_str (map byte_as_char first))
      (SocketError.FailedToParseResponseCode "invalid digit found in string");
    let expected := (first ++ [x20])%list in
    line ← skip_lines fuel expected line;
    if existsb (fun ec => (code =? ec)%Z) expected_codes then mret code
    else throw (SocketError.ResponseCodeMismatch expected_codes (trim_bytes line)).
End Ftp.

Section Sockets.
Context `{HashOrder} `{Features} `{BuildProfile} `{Net} {V : Type} `{TlsLib V} {S : Type} `{ContextStorage S}.
(** The key and the target of the run; the fuel of the loops that wait for the peer. *)
Context (key : ContextKey) (target : string) (fuel : nat).

Inductive NaslSocket := Tcp (c : TcpConnection) | UdpSocket (c : UdpConnection).
(** The last closed descriptor is the first of [closed_fd]. *)
Record NaslSockets := mkSockets {
  handles : list (option NaslSocket); closed_fd : list nat; sockets_interval : option Interval
}.
Definition sockets_default : NaslSockets := mkSockets [] [] None.

Record SocketWorld := mkSocketWorld { sw_sockets : NaslSockets; sw_net : V; sw_storage : S }.
Abbreviation N := (M SocketWorld SocketError.t).
Abbreviation C := (M SocketWorld FnError).
Definition with_sockets (f : NaslSockets -> NaslSockets) (w : SocketWorld) : SocketWorld :=
  mkSocketWorld (f (sw_sockets w)) (sw_net w) (sw_storage w).
Definition set_handle (fd : nat) (x : option NaslSocket) (s : NaslSockets) : NaslSockets :=
  mkSockets (<[fd := x]> (handles s)) (closed_fd s) (sockets_interval s).

(** Calls of the network, and code with errors of sockets in a function. *)
Definition on_net {E A} (m : M V E A) : M SocketWorld E A := fun w =>
  let '(o, v) := m (sw_net w) in (o, mkSocketWorld (sw_sockets w) v (sw_storage w)).
Definition from_socket {A} (m : N A) : C A := err_into SocketError.into m.
Definition arg {A} (m : B A) : C A := of_outcome m.

(** Code on the connection behind a descriptor. *)
Definition on_conn {A} (fd : nat) (c : TcpConnection) (m : M (TcpConnection * V) SocketError.t A) : N A := fun w =>
  let '(o, (c', v)) := m (c, sw_net w) in
  (o, with_sockets (set_handle fd (Some (Tcp c'))) (mkSocketWorld (sw_sockets w) v (sw_storage w))).
Definition on_tcp {A} (fd : nat) (c : TcpConnection) (m : M (TcpConnection * V) IoError A) : N A :=
  on_conn fd c (err_into SocketError.IO m).
Definition on_udp_conn {A} (fd : nat) (c : UdpConnection) (m : M (UdpConnection * V) IoError A) : N A := fun w =>
  let '(o, (c', v)) := err_into SocketError.IO m (c, sw_net w) in
  (o, with_sockets (set_handle fd (Some (UdpSocket c'))) (mkSocketWorld (sw_sockets w) v (sw_storage w))).

Definition get_socket (fd : nat) : N (option NaslSocket) :=
  s ← gets sw_sockets;
  ok_or (handles s !! fd) (SocketError.WrongArgument "Socket does not exist").
Definition get_open_socket (fd : nat) : N NaslSocket :=
  s ← get_socket fd;
  ok_or s (SocketError.WrongArgument "Socket already closed").

(** [Vec::insert]: the elements from the place on move; a place behind the end panics. *)
Definition vec_insert {A} (i : nat) (x : A) (l : list A) : option (list A) :=
  if decide (i <= length l)%nat then Some (take i l ++ x :: drop i l)%list else None.

Definition add {E} (socket : NaslSocket) : M SocketWorld E nat :=
  s ← gets sw_sockets;
  match closed_fd s with
  | free :: closed =>
      h ← or_panic (vec_insert free (Some socket) (handles s));
      modify (with_sockets (fun s => mkSockets h closed (sockets_interval s))) ;; mret free
  | [] =>
      modify (with_sockets (fun s => mkSockets (handles s ++ [Some socket])%list [] (sockets_interval s))) ;;
      mret (length (handles s))
  end.

Definition close (socket_fd : nat) : C unit :=
  socket ← from_socket (get_socket socket_fd);
  match socket with
  | None => throw (SocketError.into (SocketError.SocketClosed socket_fd))
  | Some _ =>
      modify (with_sockets (set_handle socket_fd None)) ;;
      modify (with_sockets (fun s => mkSockets (handles s) (socket_fd :: closed_fd s) (sockets_interval s)))
  end.

(** [Interval::tick] *)
Definition tick {E} (i : Interval) : M SocketWorld E Interval :=
  now ← on_net (net_call system_time);
  let since := (now - last_tick i)%Z in
  (if (0 <=? since)%Z && (since <? interval i)%Z then on_net (fun v => (Ok tt, net_sleep (interval i - since) v))
   else mret tt) ;;
  now ← on_net (net_call system_time);
  mret (mkInterval (interval i) now).
Definition wait_before_next_probe {E} : M SocketWorld E unit :=
  s ← gets sw_sockets;
  match sockets_interval s with
  | Some i =>
      i ← tick i;
      modify (with_sockets (fun s => mkSockets (handles s) (closed_fd s) (Some i)))
  | None => mret tt
  end.

Definition send (socket : nat) (data : list byte) (option : option Z) (len : Datatypes.option nat) : N nat :=
  let len := match len with
    | Some len => if decide (len < 1 \/ length data < len)%nat then length data else len
    | None => length data
    end in
  let data := take len data in
  s ← get_open_socket socket;
  match s with Tcp _ => wait_before_next_probe | UdpSocket _ => mret tt end ;;
  s ← get_open_socket socket;
  match s with
  | Tcp conn =>
      match option with
      | Some flags =>
          if (flags <? 0)%Z || (2 ^ 31 - 1 <? flags)%Z
          then throw (SocketError.WrongArgument "the given flags value is out of range")
          else on_tcp socket conn (send_with_flags data flags)
      | None => on_tcp socket conn (tcp_write data)
      end
  | UdpSocket conn =>
      on_udp_conn socket conn (match option with
        | Some flags => udp_set_flags (wrap_i 32 flags) ;; udp_write data
        | None => udp_write data
        end)
  end.

(** The loop of [recv]: what was read so far is [data]. *)
Fixpoint recv_loop (fuel : nat) (length_ min : nat) (data : list byte) : M (TcpConnection * V) IoError (list byte) :=
  match fuel with
  | 0 => out_of_fuel
  | Datatypes.S fuel =>
      if decide (length data < min)%nat then
        if decide (length_ < length data)%nat then panic
        else
          r ← attempt (read_with_timeout (length_ - length data) 1);
          match r with
          | inl more => recv_loop fuel length_ min (data ++ more)%list
          | inr e => if decide (io_kind e = TimedOut) then mret data else throw e
          end
      else mret data
  end.

Definition recv (socket length_ : nat) (min timeout : option Z) : N NaslValue.t :=
  let min := match min with
    | Some min => if (min <? 0)%Z then length_ else Z.to_nat min
    | None => length_
    end in
  s ← get_open_socket socket;
  match s with
  | Tcp conn =>
      data ← on_tcp socket conn (
        data ← match convert_timeout timeout with
          | Some timeout => read_with_timeout length_ timeout
          | None => tcp_read length_
          end;
        recv_loop fuel length_ min data);
      mret (NaslValue.Data data)
  | UdpSocket conn =>
      data ← on_udp_conn socket conn
        match convert_timeout timeout with
        | Some timeout => udp_read_with_timeout length_ timeout
        | None => udp_read length_
        end;
      mret (NaslValue.Data data)
  end.

Definition recv_line (socket : nat) (timeout : option Z) : N NaslValue.t :=
  s ← get_open_socket socket;
  match s with
  | Tcp conn =>
      data ← on_tcp socket conn
        match convert_timeout timeout with
        | Some timeout => read_line_with_timeout fuel timeout
        | None => read_line fuel
        end;
      mret (NaslValue.Data data)
  | UdpSocket _ => throw (SocketError.SupportedOnlyOnTcp "recv_line")
  end.

(** *** Items of the knowledge base: [Context::get_single_kb_item] *)
Definition kb_error (s : string) : FnError := FnError.from_kind (Builtin (BuiltinError.KB s)).
Definition get_single_kb_item_inner (name : string) : C NaslValue.t := fun w =>
  (match cs_retrieve key (GetKB name) (sw_storage w) with
   | Ok l =>
       match kb_values l with
       | [v] => Ok v
       | [] => Err (kb_error ("Knowledge base item does not exist: " ++ name))
       | _ => Err (kb_error ("Multiple entries found for knowledge base item " ++ name ++ " where a single one was expected."))
       end
   | Err e => Err (FnError.from_storage e)
   | Panic => Panic
   | OutOfFuel => OutOfFuel
   end, w).
Definition get_single_kb_item {A} (conv : NaslValue.t -> B A) (name : string) : C A :=
  val ← map_err (fun e => FnError.with_behavior e ExitScript) (get_single_kb_item_inner name);
  arg (conv val).

(** [Result::ok] *)
Definition ok_ {W E A} (m : M W E A) : M W E (option A) :=
  r ← attempt m; mret match r with inl a => Some a | inr _ => None end.
(** A call whose error is dropped in code with other errors. *)
Definition ignore_error {W E E' A} (m : M W E A) : M W E' (option A) := fun w =>
  match m w with
  | (Ok a, w') => (Ok (Some a), w')
  | (Err _, w') => (Ok None, w')
  | (Panic, w') => (Panic, w')
  | (OutOfFuel, w') => (OutOfFuel, w')
  end.

(** [get_retry] of [mod.rs] *)
Definition get_retry {E} : M SocketWorld E Z :=
  v ← ignore_error (get_single_kb_item from_value "timeout_retry");
  mret match v with
       | Some (NaslValue.String val) => default 2%Z (u_from_str 8 val)
       | Some (NaslValue.Number val) => if (1 <=? val)%Z && (val <=? 255)%Z then val else 2%Z
       | _ => 2%Z
       end.

(** *** Opening *)
Definition fd_value (fd : nat) : NaslValue.t := NaslValue.Number (wrap_i 64 (Z.of_nat fd)).

Definition open_sock_kdc : C NaslValue.t :=
  hostname ← get_single_kb_item from_string "Secret/kdc_hostname";
  ips ← on_net (net_call (lookup_host hostname));
  ips ← ok_or ips (SocketError.into (SocketError.HostnameLookupFailed hostname));
  ip ← ok_or (head ips) (SocketError.into (SocketError.HostnameNoIpFound hostname));
  port ← get_single_kb_item from_port "Secret/kdc_port";
  use_tcp ← get_single_kb_item from_bool "Secret/kdc_use_tcp";
  socket ← (if use_tcp : bool then
      retry ← get_retry;
      tcp ← from_socket (on_net (from_io (connect ip port None 30 None retry)));
      mret (Tcp tcp)
    else
      udp ← from_socket (on_net (udp_new ip port));
      mret (UdpSocket udp));
  fd ← add socket;
  mret (fd_value fd).

Record TlsConfig := mkTlsConfig { cert_path : string; key_path : string; tls_password : string; cafile_path : string }.
Definition get_tls_conf : C TlsConfig :=
  cert_path ← get_single_kb_item from_string "SSL/cert";
  key_path ← get_single_kb_item from_string "SSL/key";
  password ← get_single_kb_item from_string "SSL/password";
  cafile_path ← get_single_kb_item from_string "SSL/CA";
  mret (mkTlsConfig cert_path key_path password cafile_path).

Definition make_tls_client_connection {E} (vhost : string) : M SocketWorld E (option Tls) :=
  conf ← ignore_error get_tls_conf;
  match conf with
  | Some conf =>
      ignore_error (on_net (create_tls_client fuel vhost (cert_path conf) (key_path conf) (tls_password conf) (cafile_path conf)))
  | None => mret None
  end.

Definition open_sock_tcp_vhost (addr : IpAddr) (timeout : Z) (bufsz : option nat) (port : Z) (vhost : string)
  (transport : Z) : N (option NaslSocket) :=
  if (transport <? 0)%Z then panic
  else
    tls ← match encaps_from_i64 transport with
      | Some Auto => make_tls_client_connection vhost
      | Some Ip => mret None
      | None | Some Max => throw (SocketError.UnsupportedTransportLayerUnknown transport)
      | Some Tls12 | Some Tls13 => make_tls_client_connection vhost
      | Some _ => throw (SocketError.UnsupportedTransportLayerTlsVersion transport)
      end;
    retry ← get_retry;
    c ← ignore_error (on_net (connect addr port tls timeout bufsz retry));
    mret (Tcp <$> c).

(** Each of the values in turn, until an error. *)
Fixpoint each_of {W E A B} (f : A -> M W E B) (l : list A) : M W E (list B) :=
  match l with
  | [] => mret []
  | a :: l' => b ← f a; bs ← each_of f l'; mret (b :: bs)
  end.

Definition open_sock_tcp (port : Z) (timeout transport bufsz : option Z) : C NaslValue.t :=
  let transport := default (-1)%Z transport in
  addr ← from_socket (on_net (ipstr2ipaddr target));
  wait_before_next_probe ;;
  let bufsz := match bufsz with Some b => if (0 <=? b)%Z then Some (Z.to_nat b) else None | None => None end in
  let timeout := default 10%Z (convert_timeout timeout) in
  sockets ← from_socket (each_of (fun vhost => open_sock_tcp_vhost addr timeout bufsz port vhost transport) ["localhost"]);
  fds ← each_of add (omap (fun x => x) sockets);
  mret (NaslValue.Fork (map fd_value fds)).

Definition open_sock_udp (port : Z) : C NaslValue.t :=
  addr ← from_socket (on_net (ipstr2ipaddr target));
  udp ← from_socket (on_net (udp_new addr port));
  fd ← add (UdpSocket udp);
  mret (fd_value fd).

Definition connect_priv_sock (addr : IpAddr) (sport dport : Z) (tcp : bool) : N NaslValue.t :=
  if tcp then
    wait_before_next_probe ;;
    tcp ← on_net (connect_priv addr sport dport 10);
    fd ← add (Tcp tcp);
    mret (fd_value fd)
  else
    udp ← on_net (from_io (udp_new_priv addr sport dport));
    fd ← add (UdpSocket udp);
    mret (fd_value fd).

(** The ports from 1023 down to 1 *)
Definition priv_ports : list Z := map Z.of_nat (rev (seq 1 1023)).
Fixpoint try_priv_ports (addr : IpAddr) (dport : Z) (tcp : bool) (ports : list Z) : N (option nat) :=
  match ports with
  | [] => mret None
  | sport :: ports' =>
      s ← (if tcp then
          wait_before_next_probe ;;
          c ← ok_ (on_net (connect_priv addr sport dport 10)); mret (Tcp <$> c)
        else
          c ← ok_ (on_net (from_io (udp_new_priv addr sport dport))); mret (UdpSocket <$> c));
      match s with
      | Some s => fd ← add s; mret (Some fd)
      | None => try_priv_ports addr dport tcp ports'
      end
  end.
Definition open_priv_sock (addr : IpAddr) (dport : Z) (sport : option Z) (tcp : bool) : C NaslValue.t :=
  match sport with
  | Some sport => from_socket (connect_priv_sock addr sport dport tcp)
  | None =>
      fd ← from_socket (try_priv_ports addr dport tcp priv_ports);
      match fd with
      | Some fd => mret (fd_value fd)
      | None => throw (SocketError.into (SocketError.UnableToOpenPrivSocket addr))
      end
  end.
Definition open_priv_sock_tcp (dport : Z) (sport : option Z) : C NaslValue.t :=
  addr ← from_socket (on_net (ipstr2ipaddr target)); open_priv_sock addr dport sport true.
Definition open_priv_sock_udp (dport : Z) (sport : option Z) : C NaslValue.t :=
  addr ← from_socket (on_net (ipstr2ipaddr target)); open_priv_sock addr dport sport false.

Definition get_source_port (socket : nat) : N NaslValue.t :=
  s ← get_open_socket socket;
  a ← match s with
      | Tcp conn => on_tcp socket conn tcp_local_addr
      | UdpSocket conn => on_udp_conn socket conn udp_local_addr
      end;
  mret (NaslValue.Number a.2).

Definition crlf : list byte := [x0d; x0a].
Definition str_bytes (s : string) : list byte := as_bytes (chars_of s).
(** One command of the login, with [From<io::Error> for SocketError]. *)
Definition tcp_part {A} (m : M (TcpConnection * V) IoError A) : M (TcpConnection * V) SocketError.t A :=
  err_into SocketError.IO m.
Definition ftp_dialog (user pass : string) : M (TcpConnection * V) SocketError.t bool :=
  check_ftp_response (read_line fuel) fuel [220%Z] ;;
  tcp_part (write_all fuel (str_bytes "USER " ++ str_bytes user ++ crlf)%list) ;;
  code ← check_ftp_response (read_line fuel) fuel [230; 331]%Z;
  (if (code =? 331)%Z then
     tcp_part (write_all fuel (str_bytes "PASS " ++ str_bytes pass ++ crlf)%list) ;;
     check_ftp_response (read_line fuel) fuel [230%Z] ;; mret tt
   else mret tt) ;;
  mret true.
Definition ftp_log_in (user pass : string) (socket : nat) : N bool :=
  s ← get_open_socket socket;
  match s with
  | Tcp conn => on_conn socket conn (ftp_dialog user pass)
  | UdpSocket _ => throw (SocketError.SupportedOnlyOnTcp "ftp_log_in")
  end.

(** *** As functions of scripts *)
Definition open_sock_kdc_fn (r : Register) : C NaslValue.t := arg (check_args r [] [] (Some 0%nat)) ;; open_sock_kdc.
Definition open_sock_tcp_fn (r : Register) : C NaslValue.t :=
  arg (check_args r ["timeout"; "transport"; "bufsz"] [] (Some 1%nat)) ;;
  port ← arg (get_positional_arg from_port r 0 1);
  timeout ← arg (get_optional_named_arg from_i64 r "timeout");
  transport ← arg (get_optional_named_arg from_i64 r "transport");
  bufsz ← arg (get_optional_named_arg from_i64 r "bufsz");
  open_sock_tcp port timeout transport bufsz.
Definition priv_sock_fn (f : Z -> option Z -> C NaslValue.t) (r : Register) : C NaslValue.t :=
  arg (check_args r ["dport"; "sport"] [] (Some 0%nat)) ;;
  dport ← arg (get_named_arg from_port r "dport");
  sport ← arg (get_optional_named_arg from_port r "sport");
  f dport sport.
Definition open_sock_udp_fn (r : Register) : C NaslValue.t :=
  arg (check_args r [] [] (Some 1%nat)) ;;
  port ← arg (get_positional_arg from_port r 0 1);
  open_sock_udp port.
Definition close_fn (r : Register) : C NaslValue.t :=
  arg (check_args r [] [] (Some 1%nat)) ;;
  fd ← arg (get_positional_arg from_usize r 0 1);
  close fd ;; mret NaslValue.Null.
Definition send_fn (r : Register) : C NaslValue.t :=
  arg (check_args r ["socket"; "data"; "option"; "len"] [] (Some 0%nat)) ;;
  socket ← arg (get_named_arg from_usize r "socket");
  data ← arg (get_named_arg from_bytes r "data");
  option ← arg (get_optional_named_arg from_i64 r "option");
  len ← arg (get_optional_named_arg from_usize r "len");
  n ← from_socket (send socket data option len);
  arg (to_number (Z.of_nat n)).
Definition recv_fn (r : Register) : C NaslValue.t :=
  arg (check_args r ["socket"; "length"; "min"; "timeout"] [] (Some 0%nat)) ;;
  socket ← arg (get_named_arg from_usize r "socket");
  length_ ← arg (get_named_arg from_usize r "length");
  min ← arg (get_optional_named_arg from_i64 r "min");
  timeout ← arg (get_optional_named_arg from_i64 r "timeout");
  from_socket (recv socket length_ min timeout).
Definition recv_line_fn (r : Register) : C NaslValue.t :=
  arg (check_args r ["socket"; "length"; "timeout"] [] (Some 0%nat)) ;;
  socket ← arg (get_named_arg from_usize r "socket");
  _ ← arg (get_named_arg from_usize r "length");
  timeout ← arg (get_optional_named_arg from_i64 r "timeout");
  from_socket (recv_line socket timeout).
Definition get_source_port_fn (r : Register) : C NaslValue.t :=
  arg (check_args r [] [] (Some 1%nat)) ;;
  socket ← arg (get_positional_arg from_usize r 0 1);
  from_socket (get_source_port socket).
Definition ftp_log_in_fn (r : Register) : C NaslValue.t :=
  arg (check_args r ["user"; "pass"; "socket"] [] (Some 0%nat)) ;;
  user ← arg (get_named_arg from_string r "user");
  pass ← arg (get_named_arg from_string r "pass");
  socket ← arg (get_named_arg from_usize r "socket");
  b ← from_socket (ftp_log_in user pass socket);
  arg (to_bool b).

Definition Sockets_ : FunctionSet SocketWorld :=
  list_to_map [("open_sock_kdc", open_sock_kdc_fn); ("open_sock_tcp", open_sock_tcp_fn);
    ("open_priv_sock_tcp", priv_sock_fn open_priv_sock_tcp); ("open_sock_udp", open_sock_udp_fn);
    ("open_priv_sock_udp", priv_sock_fn open_priv_sock_udp); ("close", close_fn); ("send", send_fn);
    ("recv", recv_fn); ("recv_line", recv_line_fn); ("get_source_port", get_source_port_fn);
    ("ftp_log_in", ftp_log_in_fn)].

(** ** network.rs *)
Definition target_ip : N IpAddr := on_net (ipstr2ipaddr target).
Definition this_host : N string :=
  dst ← target_ip;
  ip ← err_into (fun _ => SocketError.NoRouteToDestination dst) (on_net (get_source_ip dst DEFAULT_PORT));
  mret (ip_to_string ip).
Definition this_host_name {E} : M SocketWorld E string :=
  o ← on_net (net_call uname);
  mret match o with Some s => trim_text s | None => "" end.
Definition get_mtu : N Z := t ← target_ip; mret (Z.of_nat (mtu t)).
Definition nasl_islocalhost : N bool := ip ← target_ip; on_net (islocalhost ip).

(** The bits of a part, the highest first. *)
Definition bits (width : nat) : list Z := map (fun i => 2 ^ Z.of_nat i)%Z (rev (seq 0 width)).
Fixpoint compare_bits (ns : list Z) (dst src mask : Z) : option bool :=
  match ns with
  | [] => None
  | n :: ns' =>
      if (Z.land mask n =? 0)%Z then Some true
      else if negb (Z.land dst n =? Z.land src n)%Z then Some false
      else compare_bits ns' dst src mask
  end.
Fixpoint compare_parts (width : nat) (dst src mask : list Z) : bool :=
  match dst, src, mask with
  | d :: dst', s :: src', m :: mask' =>
      match compare_bits (bits width) d s m with Some b => b | None => compare_parts width dst' src' mask' end
  | _, _, _ => false
  end.
Definition octets (a : Ipv4Addr) : list Z := map byte_Z (ipv4_octets a).

Definition islocalnet : N bool :=
  dst ← target_ip;
  src ← on_net (get_source_ip dst DEFAULT_PORT);
  netmask ← on_net (get_netmask_by_local_ip src);
  match netmask with
  | None => mret false
  | Some netmask =>
      match dst, src, netmask with
      | V4 dst, V4 src, V4 netmask => mret (compare_parts 8 (octets dst) (octets src) (octets netmask))
      | V6 dst, V6 src, V6 netmask =>
          mret (compare_parts 16 (ipv6_segments dst) (ipv6_segments src) (ipv6_segments netmask))
      | _, _, _ => panic
      end
  end.

Definition scanner_add_port (port : Z) (proto : option string) : C unit := fun w =>
  let protocol := default "tcp" proto in
  let '(o, s) := cs_dispatch key (KB (mkKb ("Port/" ++ protocol ++ "/" ++ pretty port) (NaslValue.PNumber 1) None)) (sw_storage w) in
  (match o with Ok _ => Ok tt | Err e => Err (FnError.from_storage e) | Panic => Panic | OutOfFuel => OutOfFuel end,
   mkSocketWorld (sw_sockets w) (sw_net w) s).

Definition without_args {A} (to : A -> B NaslValue.t) (m : C A) (r : Register) : C NaslValue.t :=
  arg (check_args r [] [] (Some 0%nat)) ;; a ← m; arg (to a).
Definition scanner_add_port_fn (r : Register) : C NaslValue.t :=
  arg (check_args r ["port"; "proto"] [] (Some 0%nat)) ;;
  port ← arg (get_named_arg from_port r "port");
  proto ← arg (get_optional_named_arg from_string r "proto");
  scanner_add_port port proto ;; mret NaslValue.Null.

Definition Network : FunctionSet SocketWorld :=
  list_to_map [("scanner_add_port", scanner_add_port_fn); ("islocalnet", without_args to_bool (from_socket islocalnet));
    ("islocalhost", without_args to_bool (from_socket nasl_islocalhost)); ("this_host", without_args to_str (from_socket this_host));
    ("this_host_name", without_args to_str this_host_name); ("get_mtu", without_args to_number (from_socket get_mtu));
    ("get_host_ip", without_args to_str (mret target))].
End Sockets.
