(* ===== verification/SocketsProps.v ===== *)
(** * Theorems on sockets

    What stays true of the table of sockets over every sequence of calls ([socket_table_kept]),
    which descriptors keep their socket and how they lose it, when [recv] returns, how often
    a connection is tried, how answers of an FTP server are read, and which hosts are in the
    local network.  [SocketExample] is a network to evaluate. *)

From S2P Require Import Prelude RustStr Token Statement NaslValue Errors Register Executor FnArgs StringFns Text Addr ValueFns Nvt Storage ContextFns Sockets.
Local Open Scope string_scope.

(** ** Triples

    [triple P m Q]: [m] keeps [P], and if it returns a value, the value satisfies [Q]. *)
Definition triple {W E A} (P : W -> Prop) (m : M W E A) (Q : A -> Prop) : Prop :=
  forall w, P w -> P (m w).2 /\ match (m w).1 with Ok a => Q a | _ => True end.
Definition any {A} (_ : A) : Prop := True.

Section Triples.
Context {W E : Type} (P : W -> Prop).

Lemma triple_bind {A B} (m : M W E A) (f : A -> M W E B) Q R :
  triple P m Q -> (forall a, Q a -> triple P (f a) R) -> triple P (m ≫= f) R.
Proof.
  intros Hm Hf w Hw. destruct (Hm w Hw) as [H1 H2]. unfold mbind, M_bind.
  destruct (m w) as [[a| | |] w']; simpl in *; auto. by apply Hf.
Qed.
Lemma triple_seq {A B} (m : M W E A) (f : A -> M W E B) R :
  triple P m any -> (forall a, triple P (f a) R) -> triple P (m ≫= f) R.
Proof. intros Hm Hf. eapply triple_bind; [exact Hm|]. auto. Qed.
Lemma triple_ret {A} (a : A) (Q : A -> Prop) : Q a -> triple P (mret a : M W E A) Q.
Proof. by intros Ha w Hw. Qed.
Lemma triple_throw {A} e (Q : A -> Prop) : triple P (throw e : M W E A) Q.
Proof. by intros w Hw. Qed.
Lemma triple_panic {A} (Q : A -> Prop) : triple P (panic : M W E A) Q.
Proof. by intros w Hw. Qed.
Lemma triple_fuel {A} (Q : A -> Prop) : triple P (out_of_fuel : M W E A) Q.
Proof. by intros w Hw. Qed.
Lemma triple_gets {A} (f : W -> A) : triple P (gets f : M W E A) any.
Proof. by intros w Hw. Qed.
Lemma triple_ok_or {A} (o : option A) e : triple P (ok_or o e : M W E A) any.
Proof. by destruct o. Qed.
Lemma triple_or_panic {A} (o : option A) : triple P (or_panic o : M W E A) any.
Proof. by destruct o. Qed.
Lemma triple_of_result {A} (r : A + E) : triple P (of_result r) any.
Proof. by destruct r. Qed.
Lemma triple_outcome {A} (o : outcome E A) : triple P (of_outcome o : M W E A) any.
Proof. intros w Hw. by destruct o. Qed.
Lemma triple_weaken {A} (m : M W E A) (Q R : A -> Prop) : triple P m Q -> (forall a, Q a -> R a) -> triple P m R.
Proof. intros H HQ w Hw. destruct (H w Hw) as [H1 H2]. split; [done|]. destruct (m w).1; auto. Qed.
Lemma triple_attempt {A} (m : M W E A) Q : triple P m Q -> triple P (attempt m) (fun r => match r with inl a => Q a | inr _ => True end).
Proof. intros H w Hw. destruct (H w Hw) as [H1 H2]. unfold attempt. by destruct (m w) as [[] ?]. Qed.
Lemma triple_map_err {A} f (m : M W E A) Q : triple P m Q -> triple P (map_err f m) Q.
Proof. intros H w Hw. destruct (H w Hw) as [H1 H2]. unfold map_err. by destruct (m w) as [[] ?]. Qed.
Lemma triple_err_into {E' A} (f : E -> E') (m : M W E A) Q : triple P m Q -> triple P (err_into f m) Q.
Proof. intros H w Hw. destruct (H w Hw) as [H1 H2]. unfold err_into. by destruct (m w) as [[] ?]. Qed.
Lemma triple_ignore_error {E' A} (m : M W E A) Q :
  triple P m Q -> triple P (ignore_error m : M W E' (option A)) (fun o => match o with Some a => Q a | None => True end).
Proof. intros H w Hw. destruct (H w Hw) as [H1 H2]. unfold ignore_error. by destruct (m w) as [[] ?]. Qed.
Lemma triple_each_of {A B} (f : A -> M W E B) (Q : B -> Prop) l :
  (forall a, triple P (f a) Q) -> triple P (each_of f l) (Forall Q).
Proof.
  intros Hf. induction l as [|a l IH]; [by apply triple_ret|]. simpl.
  eapply triple_bind; [apply Hf|]. intros b Hb. eapply triple_bind; [exact IH|]. intros bs Hbs. apply triple_ret. by constructor.
Qed.
End Triples.
Create HintDb triple.
#[export] Hint Resolve triple_throw triple_panic triple_fuel triple_gets triple_ok_or triple_or_panic triple_of_result
  triple_outcome triple_err_into triple_map_err : triple.
#[export] Hint Extern 1 (triple _ (mret _) any) => apply triple_ret; exact Logic.I : triple.
#[export] Hint Extern 1 (any _) => exact Logic.I : triple.

(** ** Connections stay what they are *)
Section Connections.
Context `{HashOrder} `{Features} `{BuildProfile} `{Net} {V : Type} `{TlsLib V} {S : Type} `{ContextStorage S}.

Definition is_conn (s : Sock) (t : option Tls) (x : TcpConnection * V) : Prop := tc_sock x.1 = s /\ tc_tls x.1 = t.
Definition is_udp (s : Udp) (b : list byte) (x : UdpConnection * V) : Prop := uc_socket x.1 = s /\ uc_buffer x.1 = b.

Section Conn.
Context (s : Sock) (t : option Tls).
Local Abbreviation K m := (triple (is_conn s t) m any).

Lemma conn_stream {A} (f : TcpConnection -> V -> (A + IoError) * V) : K (on_stream f).
Proof.
  intros [c v] Hc. unfold on_stream, io, net_call, mbind, M_bind. destruct (f c v) as [[a|e] v']; simpl; split; done.
Qed.
Lemma conn_buffer (f : TcpConnection -> list byte) :
  K (modify (fun '(c, v) => (set_buffer (f c) c, v)) : M (TcpConnection * V) IoError unit).
Proof. by intros [c v] Hc. Qed.
Lemma conn_fill : K fill_buf.
Proof.
  apply triple_seq; [apply triple_gets|]. intros c. destruct (tc_buffer c); [|by apply triple_ret].
  apply triple_seq; [apply conn_stream|]. intros b. apply triple_seq; [apply (conn_buffer (fun _ => b))|]. intros _. by apply triple_ret.
Qed.
Lemma conn_consume n : K (consume n : M (TcpConnection * V) IoError unit).
Proof. apply (conn_buffer (fun c => drop n (tc_buffer c))). Qed.
Lemma conn_read_until fuel acc : K (read_until fuel acc).
Proof.
  revert acc. induction fuel as [|fuel IH]; intros acc; simpl; [apply triple_fuel|].
  eapply triple_bind; [apply triple_attempt, conn_fill|]. intros [b|e] _.
  - destruct (upto_newline b).
    + apply triple_seq; [apply conn_consume|]. intros _. by apply triple_ret.
    + apply triple_seq; [apply conn_consume|]. intros _. destruct b; [by apply triple_ret|apply IH].
  - case_decide; [apply IH|apply triple_throw].
Qed.
Lemma conn_read_line fuel : K (read_line fuel).
Proof. apply triple_seq; [apply conn_read_until|]. intros l. destruct (utf8_valid l); [by apply triple_ret|apply triple_throw]. Qed.
Lemma conn_write_all fuel b : K (write_all fuel b).
Proof.
  revert b. induction fuel as [|fuel IH]; intros b; destruct b as [|x b]; try by (apply triple_ret || apply triple_fuel).
  cbn [write_all]. eapply triple_bind; [apply triple_attempt, conn_stream|]. intros [[|n]|e] _; [apply triple_throw| |].
  - case_decide; [apply IH|apply triple_panic].
  - case_decide; [apply IH|apply triple_throw].
Qed.
Lemma conn_timeout {A} n (m : M (TcpConnection * V) IoError A) : K m -> K (with_timeout n m).
Proof.
  intros Hm. apply triple_seq; [apply conn_stream|]. intros old. apply triple_seq; [apply conn_stream|]. intros _.
  apply triple_seq; [|intros r; apply triple_seq; [apply conn_stream|intros _; apply triple_of_result]].
  eapply triple_weaken; [apply triple_attempt, Hm|done].
Qed.
Lemma conn_recv_loop fuel n min b : K (recv_loop fuel n min b).
Proof.
  revert b. induction fuel as [|fuel IH]; intros b; simpl; [apply triple_fuel|].
  case_decide; [|by apply triple_ret]. case_decide; [apply triple_panic|].
  eapply triple_bind; [apply triple_attempt, conn_timeout, conn_stream|]. intros [more|e] _; [apply IH|].
  case_decide; [by apply triple_ret|apply triple_throw].
Qed.
Lemma conn_skip fuel k e l : triple (is_conn s t) (skip_lines (read_line fuel) k e l) any.
Proof.
  revert l. induction k as [|k IH]; intros l; simpl; [apply triple_fuel|].
  apply triple_seq; [apply triple_or_panic|]. intros []; [by apply triple_ret|].
  apply triple_seq; [apply triple_err_into, conn_read_line|]. intros l'. apply IH.
Qed.
Lemma conn_ftp fuel codes : triple (is_conn s t) (check_ftp_response (read_line fuel) fuel codes) any.
Proof.
  unfold check_ftp_response. apply triple_seq; [apply triple_err_into, conn_read_line|]. intros l.
  case_decide; [apply triple_throw|]. apply triple_seq; [apply triple_or_panic|]. intros first.
  apply triple_seq; [apply triple_ok_or|]. intros code. apply triple_seq; [apply conn_skip|].
  intros l'. destruct (existsb _ _); [by apply triple_ret|apply triple_throw].
Qed.
Lemma conn_dialog fuel user pass : triple (is_conn s t) (ftp_dialog fuel user pass) any.
Proof.
  unfold ftp_dialog. apply triple_seq; [apply conn_ftp|]. intros _.
  apply triple_seq; [apply triple_err_into, conn_write_all|]. intros _. apply triple_seq; [apply conn_ftp|]. intros code.
  apply triple_seq; [|intros _; by apply triple_ret]. destruct (_ =? _)%Z; [|by apply triple_ret].
  apply triple_seq; [apply triple_err_into, conn_write_all|]. intros _.
  apply triple_seq; [apply conn_ftp|]. intros _. by apply triple_ret.
Qed.
End Conn.

Section UdpConn.
Context (s : Udp) (b : list byte).
Local Abbreviation K m := (triple (is_udp s b) m any).

Lemma udp_call {A} (f : Udp -> V -> (A + IoError) * V) : K (on_udp f).
Proof.
  intros [c v] Hc. unfold on_udp, io, net_call, mbind, M_bind. destruct (f (uc_socket c) v) as [[a|e] v']; simpl; split; done.
Qed.
Lemma udp_flags (f : option Z) :
  K (modify (fun '(c, v) => (mkUdp (uc_socket c) (uc_buffer c) f, v)) : M (UdpConnection * V) IoError unit).
Proof. by intros [c v] Hc. Qed.
Lemma udp_reads n : K (udp_read n).
Proof.
  unfold udp_read. generalize NUM_TIMES_TO_RESEND. intros k. induction k as [|k IH]; simpl; [apply triple_panic|].
  eapply triple_bind; [apply triple_attempt, udp_call|]. intros [[d o]|e] _.
  - apply triple_seq; [apply udp_call|]. intros p. case_decide; [by apply triple_ret|apply IH].
  - destruct (_ && _); [|apply triple_throw]. apply triple_seq; [apply triple_gets|]. intros c.
    apply triple_seq; [apply udp_call|]. intros _. apply IH.
Qed.
Lemma udp_writes d : K (udp_write d).
Proof.
  unfold udp_write. apply triple_seq; [apply udp_call|]. intros p. case_decide; [apply triple_throw|].
  apply triple_seq; [apply triple_gets|]. intros c. eapply triple_bind; [apply triple_attempt, udp_call|]. intros r _.
  apply triple_seq; [apply udp_flags|]. intros _. apply triple_of_result.
Qed.
Lemma udp_timed_read n t : K (udp_read_with_timeout n t).
Proof.
  unfold udp_read_with_timeout. apply triple_seq; [apply udp_call|]. intros old. apply triple_seq; [apply udp_call|]. intros _.
  eapply triple_bind; [apply triple_attempt, udp_reads|]. intros r _. apply triple_seq; [apply udp_call|]. intros _. apply triple_of_result.
Qed.
End UdpConn.

(** ** The table of sockets *)
Abbreviation SW := (SocketWorld (V := V) (S := S)).
Context (key : ContextKey) (target : string).

(** The same socket of the system, with the same TLS session or resend buffer. *)
Definition same_socket (x y : NaslSocket (V := V)) : Prop :=
  match x, y with
  | Tcp c, Tcp c' => tc_sock c = tc_sock c' /\ tc_tls c = tc_tls c'
  | UdpSocket c, UdpSocket c' => uc_socket c = uc_socket c' /\ uc_buffer c = uc_buffer c'
  | _, _ => False
  end.
Definition fresh_socket (x : NaslSocket (V := V)) : Prop := match x with Tcp _ => True | UdpSocket c => uc_buffer c = [] end.

(** What a property of the table must be closed under, so that all functions but [close]
    keep it. *)
Record TableInv (P : SW -> Prop) : Prop := {
  ti_net : forall w v, P w -> P (mkSocketWorld (sw_sockets w) v (sw_storage w));
  ti_handle : forall w fd x y, P w -> handles (sw_sockets w) !! fd = Some (Some x) -> same_socket x y ->
    P (with_sockets (set_handle fd (Some y)) w);
  ti_add : forall E w x, P w -> fresh_socket x -> P (add (E := E) x w).2;
  ti_tick : forall w i i', P w -> sockets_interval (sw_sockets w) = Some i ->
    P (with_sockets (fun s => mkSockets (handles s) (closed_fd s) (Some i')) w)
}.

Section Table.
Context (P : SW -> Prop) (HP : TableInv P).

Lemma table_net {E A} (m : M V E A) (Q : A -> Prop) : triple any m Q -> triple P (on_net m) Q.
Proof.
  intros Hm w Hw. destruct (Hm (sw_net w) Logic.I) as [_ Hq]. unfold on_net.
  destruct (m (sw_net w)) as [o v]. split; [by apply (ti_net _ HP)|done].
Qed.
Lemma table_call {E A} (m : M V E A) : triple P (on_net m) any.
Proof. apply table_net. intros v _. split; [done|]. by destruct (m v).1. Qed.
Lemma table_wait {E} : triple P (wait_before_next_probe (E := E)) any.
Proof.
  intros w Hw. unfold wait_before_next_probe, mbind, M_bind, gets. destruct (sockets_interval (sw_sockets w)) as [i|] eqn:Hi; [|done].
  simpl. unfold tick, on_net, net_call, mbind, M_bind, mret, M_ret. simpl.
  destruct (system_time (sw_net w)) as [now v]. simpl.
  assert (forall v' i', P (with_sockets (fun s => mkSockets (handles s) (closed_fd s) (Some i'))
    (mkSocketWorld (sw_sockets w) v' (sw_storage w)))) as Ht.
  { intros v' i'. eapply (ti_tick _ HP); [by apply (ti_net _ HP)|exact Hi]. }
  destruct (_ && _); simpl.
  - destruct (system_time (net_sleep (interval i - (now - last_tick i)) v)) as [now' v'']. simpl. split; [apply Ht|done].
  - destruct (system_time v) as [now' v'']. simpl. split; [apply Ht|done].
Qed.
Lemma table_add {E} x : fresh_socket x -> triple P (add (E := E) x) any.
Proof. intros Hx w Hw. split; [by apply (ti_add _ HP)|]. by destruct (add x w).1. Qed.

(** Going on with an open socket, whose handle is known. *)
Lemma table_open {A} fd (f : NaslSocket -> M SW SocketError.t A) (Q : A -> Prop) :
  (forall x w, P w -> handles (sw_sockets w) !! fd = Some (Some x) -> P (f x w).2 /\ match (f x w).1 with Ok a => Q a | _ => True end) ->
  triple P (get_open_socket fd ≫= f) Q.
Proof.
  intros Hf w Hw. unfold get_open_socket, get_socket, gets, mbind, M_bind. simpl.
  destruct (handles (sw_sockets w) !! fd) as [[x|]|] eqn:Hx; simpl; try done. by apply Hf.
Qed.
Lemma table_conn {A} fd c (m : M (TcpConnection * V) SocketError.t A) w :
  triple (is_conn (tc_sock c) (tc_tls c)) m any -> P w -> handles (sw_sockets w) !! fd = Some (Some (Tcp c)) ->
  P (on_conn fd c m w).2.
Proof.
  intros Hm Hw Hfd. destruct (Hm (c, sw_net w) ltac:(done)) as [Hc _]. unfold on_conn.
  destruct (m (c, sw_net w)) as [o [c' v]]. apply (ti_handle _ HP) with (x := Tcp c); [by apply (ti_net _ HP)|done|].
  destruct Hc as [Hs Ht]. by split.
Qed.
Lemma table_udp {A} fd c (m : M (UdpConnection * V) IoError A) w :
  triple (is_udp (uc_socket c) (uc_buffer c)) m any -> P w -> handles (sw_sockets w) !! fd = Some (Some (UdpSocket c)) ->
  P (on_udp_conn fd c m w).2.
Proof.
  intros Hm Hw Hfd. destruct (triple_err_into _ SocketError.IO _ _ Hm (c, sw_net w) ltac:(done)) as [Hc _]. unfold on_udp_conn.
  destruct (err_into SocketError.IO m (c, sw_net w)) as [o [c' v]].
  apply (ti_handle _ HP) with (x := UdpSocket c); [by apply (ti_net _ HP)|done|]. destruct Hc as [Hs Ht]. by split.
Qed.
Lemma any_ok {A E} (o : outcome E A) : match o with Ok a => any a | _ => True end.
Proof. by destruct o. Qed.
(** The result of a call on a connection, turned into a value. *)
Lemma table_then {A B} (m : M SW SocketError.t A) (f : A -> B) w : P (m w).2 ->
  P ((a ← m; mret (f a)) w).2 /\ match ((a ← m; mret (f a)) w).1 with Ok a => any a | _ => True end.
Proof. intros Hw. unfold mbind, M_bind. by destruct (m w) as [[] w']. Qed.

Lemma table_send socket data flags len : triple P (send socket data flags len) any.
Proof.
  unfold send. apply table_open. intros x w Hw Hx.
  assert (triple P (match x with Tcp _ => wait_before_next_probe | UdpSocket _ => mret tt end : M SW SocketError.t unit) any) as Hwait.
  { destruct x; [apply table_wait|by apply triple_ret]. }
  revert w Hw Hx. match goal with |- forall w, P w -> _ -> P (?m w).2 /\ _ => assert (triple P m any) as Ht end.
  { apply triple_seq; [exact Hwait|]. intros _. apply table_open. intros [c|c] w Hw Hx; (split; [|apply any_ok]).
    - destruct flags as [z|]; [destruct (_ || _); [done|]|]; apply table_conn; try done; apply triple_err_into, conn_stream.
    - apply table_udp; try done. destruct flags; [|apply udp_writes]. apply triple_seq; [apply udp_flags|]. intros _. apply udp_writes. }
  intros w Hw _. by apply Ht.
Qed.
Lemma table_recv fuel socket n min timeout : triple P (recv fuel socket n min timeout) any.
Proof.
  apply table_open. intros [c|c] w Hw Hx; apply table_then.
  - apply table_conn; try done. apply triple_err_into. apply triple_seq; [|intros b; apply conn_recv_loop].
    destruct (convert_timeout timeout); [apply conn_timeout|]; apply conn_stream.
  - apply table_udp; try done. destruct (convert_timeout timeout); [apply udp_timed_read|apply udp_reads].
Qed.
Lemma table_recv_line fuel socket timeout : triple P (recv_line fuel socket timeout) any.
Proof.
  apply table_open. intros [c|c] w Hw Hx; [|done]. apply table_then. apply table_conn; try done. apply triple_err_into.
  destruct (convert_timeout timeout); [apply conn_timeout|]; apply conn_read_line.
Qed.
Lemma table_source_port socket : triple P (get_source_port socket) any.
Proof.
  apply table_open. intros [c|c] w Hw Hx; apply table_then.
  - apply table_conn; try done. apply triple_err_into. apply triple_seq; [apply conn_stream|]. intros a. apply triple_or_panic.
  - apply table_udp; try done. apply udp_call.
Qed.
Lemma table_ftp fuel user pass socket : triple P (ftp_log_in fuel user pass socket) any.
Proof.
  apply table_open. intros [c|c] w Hw Hx; [|done]. split; [|apply any_ok]. apply table_conn; try done. apply conn_dialog.
Qed.
Lemma table_kb {A} (conv : NaslValue.t -> B A) name : triple P (get_single_kb_item key conv name) any.
Proof.
  apply triple_seq; [|intros v; apply triple_outcome]. apply triple_map_err. intros w Hw. split; [done|]. apply any_ok.
Qed.
Lemma table_retry {E} : triple P (get_retry key (E := E)) any.
Proof.
  eapply triple_bind; [apply triple_ignore_error, table_kb|]. intros v _. by apply triple_ret.
Qed.
Lemma table_tls {E} fuel vhost : triple P (make_tls_client_connection key fuel vhost (E := E)) any.
Proof.
  eapply triple_bind; [apply triple_ignore_error|].
  - do 4 (apply triple_seq; [apply table_kb|]; intros ?). by apply (triple_ret _ _ any).
  - intros [c|] _; [|by apply triple_ret]. eapply triple_weaken; [apply triple_ignore_error, table_call|done].
Qed.
Lemma table_vhost fuel addr timeout bufsz port vhost transport :
  triple P (open_sock_tcp_vhost key fuel addr timeout bufsz port vhost transport)
    (fun o => match o with Some x => fresh_socket x | None => True end).
Proof.
  unfold open_sock_tcp_vhost. destruct (_ <? _)%Z; [apply triple_panic|]. apply triple_seq.
  { destruct (encaps_from_i64 transport) as [[]|]; first [apply table_tls | apply triple_throw | by apply triple_ret]. }
  intros tls. apply triple_seq; [apply table_retry|]. intros retry.
  eapply triple_bind; [apply triple_ignore_error, table_call|]. intros [c|] _; by apply triple_ret.
Qed.
Lemma udp_new_fresh addr port : triple (any (A := V)) (udp_new addr port) (fun c => uc_buffer c = []).
Proof.
  unfold udp_new. do 3 (apply triple_seq; [intros v _; split; [done|apply any_ok]|]; intros ?). by apply triple_ret.
Qed.
Lemma udp_new_priv_fresh addr sport dport : triple (any (A := V)) (udp_new_priv addr sport dport) (fun c => uc_buffer c = []).
Proof.
  unfold udp_new_priv. do 3 (apply triple_seq; [intros v _; split; [done|apply any_ok]|]; intros ?). by apply triple_ret.
Qed.
Lemma table_added {E A} x (f : nat -> A) : fresh_socket x -> triple P (fd ← add (E := E) x; mret (f fd)) any.
Proof. intros Hx. apply triple_seq; [by apply table_add|]. intros fd. by apply triple_ret. Qed.
Lemma table_address : triple P (from_socket (on_net (ipstr2ipaddr target))) any.
Proof. apply triple_err_into, table_call. Qed.
Lemma table_open_kdc : triple P (open_sock_kdc key) any.
Proof.
  unfold open_sock_kdc. apply triple_seq; [apply table_kb|]. intros hostname. apply triple_seq; [apply table_call|]. intros ips.
  apply triple_seq; [apply triple_ok_or|]. intros ips'. apply triple_seq; [apply triple_ok_or|]. intros ip.
  apply triple_seq; [apply table_kb|]. intros port. apply triple_seq; [apply table_kb|]. intros use_tcp.
  eapply triple_bind; [|intros x Hx; by apply table_added]. destruct use_tcp.
  - apply triple_seq; [apply table_retry|]. intros retry. apply triple_seq; [apply triple_err_into, table_call|].
    intros c. by apply triple_ret.
  - eapply triple_bind; [apply triple_err_into, table_net, udp_new_fresh|]. intros c Hc. by apply triple_ret.
Qed.
Lemma table_open_tcp fuel port timeout transport bufsz : triple P (open_sock_tcp key target fuel port timeout transport bufsz) any.
Proof.
  unfold open_sock_tcp. apply triple_seq; [apply table_address|]. intros addr. apply triple_seq; [apply table_wait|]. intros _.
  eapply triple_bind; [apply triple_err_into, triple_each_of; intros vhost; apply table_vhost|]. intros l Hl.
  apply triple_seq; [|intros fds; by apply triple_ret].
  assert (Forall fresh_socket (omap (fun x => x) l)) as Hf.
  { induction Hl as [|[x|] l Hx Hl IH]; [done| |done]. by constructor. }
  clear Hl. induction Hf as [|x l' Hx Hf IH]; [by apply triple_ret|]. simpl.
  apply triple_seq; [by apply table_add|]. intros fd. apply triple_seq; [exact IH|]. intros fds. by apply triple_ret.
Qed.
Lemma table_open_udp port : triple P (open_sock_udp target port) any.
Proof.
  unfold open_sock_udp. apply triple_seq; [apply table_address|]. intros addr.
  eapply triple_bind; [apply triple_err_into, table_net, udp_new_fresh|]. intros c Hc. by apply table_added.
Qed.
Lemma table_try_ports addr dport tcp ports : triple P (try_priv_ports addr dport tcp ports) any.
Proof.
  induction ports as [|p ports IH]; [by apply triple_ret|]. simpl.
  eapply triple_bind with (Q := fun o => match o with Some x => fresh_socket x | None => True end).
  - destruct tcp.
    + apply triple_seq; [apply table_wait|]. intros _. unfold ok_. apply triple_seq; [|intros [c|]; by apply triple_ret].
      eapply triple_bind; [apply triple_attempt, table_call|]. intros [c|e] _; by apply triple_ret.
    + unfold ok_. eapply triple_bind; [|intros c Hc; apply triple_ret; exact Hc].
      eapply triple_bind; [apply triple_attempt, table_net, triple_err_into, udp_new_priv_fresh|]. intros [c|e] Hc; by apply triple_ret.
  - intros [x|] Hx; [by apply table_added|apply IH].
Qed.
Lemma table_open_priv addr dport sport tcp : triple P (open_priv_sock addr dport sport tcp) any.
Proof.
  destruct sport as [sport|].
  - apply triple_err_into. unfold connect_priv_sock. destruct tcp.
    + apply triple_seq; [apply table_wait|]. intros _. apply triple_seq; [apply table_call|]. intros c. by apply table_added.
    + eapply triple_bind; [apply table_net, triple_err_into, udp_new_priv_fresh|]. intros c Hc. by apply table_added.
  - apply triple_seq; [apply triple_err_into, table_try_ports|]. intros [fd|]; [by apply triple_ret|apply triple_throw].
Qed.

(** All functions but [close] keep such a property. *)
Lemma table_functions fuel name f r : name <> "close" -> Sockets_ key target fuel !! name = Some f -> triple P (f r) any.
Proof.
  intros Hn Hf. apply elem_of_list_to_map_2 in Hf.
  assert (forall A (b : B A) X (g : A -> M SW FnError X), (forall a, triple P (g a) any) -> triple P (arg b ≫= g) any) as Harg.
  { intros A b X g Hg. apply triple_seq; [apply triple_outcome|done]. }
  set_unfold in Hf. destruct_or?; destruct_and?; simplify_eq; try done.
  - apply Harg. intros _. apply table_open_kdc.
  - repeat (apply Harg; intros ?). apply table_open_tcp.
  - repeat (apply Harg; intros ?). apply triple_seq; [apply table_address|]. intros addr. apply table_open_priv.
  - repeat (apply Harg; intros ?). apply table_open_udp.
  - repeat (apply Harg; intros ?). apply triple_seq; [apply table_address|]. intros addr. apply table_open_priv.
  - repeat (apply Harg; intros ?). apply triple_seq; [apply triple_err_into, table_send|]. intros n. apply triple_outcome.
  - repeat (apply Harg; intros ?). apply triple_err_into, table_recv.
  - repeat (apply Harg; intros ?). apply triple_err_into, table_recv_line.
  - repeat (apply Harg; intros ?). apply triple_err_into, table_source_port.
  - repeat (apply Harg; intros ?). apply triple_seq; [apply triple_err_into, table_ftp|]. intros b. apply triple_outcome.
Qed.
End Table.

(** What holds of every table: closed descriptors lie in it, there is no interval, and
    nothing is kept to be sent again. *)
Definition table_ok (w : SW) : Prop :=
  Forall (fun fd => fd < length (handles (sw_sockets w)))%nat (closed_fd (sw_sockets w))
  /\ sockets_interval (sw_sockets w) = None
  /\ Forall (fun h => match h with Some x => fresh_socket x | None => True end) (handles (sw_sockets w)).

Lemma vec_insert_ok {A} i (x : A) l : (i <= length l)%nat -> vec_insert i x l = Some (take i l ++ x :: drop i l)%list.
Proof. intros Hi. unfold vec_insert. by rewrite decide_True. Qed.

(** Adding a socket, with the place it gets. *)
Lemma add_spec {E} x w : table_ok w ->
  exists fd h c, add (E := E) x w = (Ok fd, with_sockets (fun s => mkSockets h c (sockets_interval s)) w)
    /\ h = (take fd (handles (sw_sockets w)) ++ Some x :: drop fd (handles (sw_sockets w)))%list
    /\ (fd <= length (handles (sw_sockets w)))%nat
    /\ match closed_fd (sw_sockets w) with [] => fd = length (handles (sw_sockets w)) /\ c = [] | f :: l => fd = f /\ c = l end.
Proof.
  intros (Hc & _ & _). destruct w as [[h cl i] v s]. unfold add, gets, mbind, M_bind. simpl in *. destruct cl as [|f l].
  - exists (length h), (h ++ [Some x])%list, []. split; [done|]. split; [by rewrite take_ge, drop_ge by lia|]. done.
  - inversion Hc as [|?? Hf Hl]; subst. simpl. rewrite vec_insert_ok by lia. simpl. exists f, (take f h ++ Some x :: drop f h)%list, l.
    split_and!; try done. lia.
Qed.

Lemma table_ok_inv : TableInv table_ok.
Proof.
  split.
  - by intros w v Hw.
  - intros w fd x y (Hc & Hi & Hh) Hfd Hs. split_and!; try done; simpl.
    + by rewrite length_insert.
    + apply Forall_insert; [done|]. pose proof (Forall_lookup_1 _ _ _ _ Hh Hfd) as Hx. simpl in Hx.
      destruct x, y; try done. destruct Hs as [_ Hs]. simpl in *. congruence.
  - intros E w x Hw Hx. destruct (add_spec (E := E) x w Hw) as (fd & h & c & -> & Hh & Hl & Hc). destruct Hw as (Hcl & Hi & Hf).
    subst h. split_and!; simpl; [|done|].
    + rewrite length_app, length_take. simpl. rewrite length_drop. destruct (closed_fd (sw_sockets w)) as [|f l].
      * destruct Hc as [_ ->]. done.
      * destruct Hc as [_ ->]. inversion Hcl as [|?? Hfl Hll]; subst. eapply Forall_impl; [exact Hll|]. simpl. intros; lia.
    + apply Forall_app. split; [by apply Forall_take|]. constructor; [done|by apply Forall_drop].
  - intros w i i' (_ & Hi & _) E. congruence.
Qed.

Lemma close_keeps fd : triple table_ok (close fd) any.
Proof.
  intros w (Hc & Hi & Hh). split; [|apply any_ok]. unfold close, from_socket, err_into, get_socket, gets, mbind, M_bind. simpl.
  destruct (handles (sw_sockets w) !! fd) as [[x|]|] eqn:Hx; simpl; try done. split_and!; simpl; try done.
  - constructor; rewrite length_insert; [by eapply lookup_lt_Some|done].
  - by apply Forall_insert.
Qed.

(** A step of a script: a call of a function of the set, or something else that changes
    the network and the storage. *)
Inductive SocketStep := Call (name : string) (r : Register) | Elsewhere (v : V) (s : S).
Definition socket_step (fuel : nat) (w : SW) (st : SocketStep) : SW :=
  match st with
  | Call name r => match Sockets_ key target fuel !! name with Some f => (f r w).2 | None => w end
  | Elsewhere v s => mkSocketWorld (sw_sockets w) v s
  end.

Lemma table_ok_step fuel w st : table_ok w -> table_ok (socket_step fuel w st).
Proof.
  intros Hw. destruct st as [name r|v s]; simpl; [|done]. destruct (Sockets_ key target fuel !! name) as [f|] eqn:Hf; [|done].
  destruct (decide (name = "close")) as [->|Hn].
  - apply elem_of_list_to_map_2 in Hf. set_unfold in Hf. destruct_or?; destruct_and?; simplify_eq.
    enough (triple table_ok (close_fn r : M SW FnError _) any) as Ht by (by apply Ht).
    apply triple_seq; [apply triple_outcome|]. intros _. apply triple_seq; [apply triple_outcome|]. intros fd.
    apply triple_seq; [apply close_keeps|]. intros _. by apply triple_ret.
  - by apply (table_functions table_ok table_ok_inv fuel name f r Hn Hf).
Qed.


(** C24: A descriptor keeps its socket as long as no socket is closed. *)
Theorem descriptors_stable (fuel : nat) (steps : list SocketStep) (w : SW) (fd : nat) (x : NaslSocket) :
  closed_fd (sw_sockets w) = [] -> Forall (fun st => match st with Call name _ => name <> "close" | _ => True end) steps ->
  handles (sw_sockets w) !! fd = Some (Some x) ->
  exists y, handles (sw_sockets (foldl (socket_step fuel) w steps)) !! fd = Some (Some y) /\ same_socket x y.
Proof.
  intros Hc Hs Hx. set (P := fun w : SW => closed_fd (sw_sockets w) = [] /\ exists y, handles (sw_sockets w) !! fd = Some (Some y) /\ same_socket x y).
  assert (TableInv P) as HP.
  { split; unfold P; simpl.
    - by intros w' v Hw.
    - intros w' fd' z y [Hc' (y' & Hy & Hs')] Hz Hsame. split; [done|]. destruct (decide (fd' = fd)) as [->|Hne].
      + rewrite list_lookup_insert_eq by (by eapply lookup_lt_Some). exists y. split; [done|].
        assert (z = y') as -> by congruence. destruct x, y', y; simpl in *; intuition congruence.
      + exists y'. by rewrite list_lookup_insert_ne.
    - intros E w' z [Hc' (y & Hy & Hs')] _. unfold add, gets, mbind, M_bind. rewrite Hc'. simpl. split; [done|]. exists y.
      split; [|done]. rewrite lookup_app_l; [done|by eapply lookup_lt_Some].
    - by intros w' i i' Hw _. }
  assert (P w) as Hw.
  { split; [done|]. exists x. split; [done|]. by destruct x. }
  enough (P (foldl (socket_step fuel) w steps)) as [_ ?] by done. clear Hc Hx. revert w Hw.
  induction Hs as [|st steps Hst Hs IH]; intros w Hw; [done|]. simpl. apply IH. destruct st as [name r|v s]; simpl; [|done].
  destruct (Sockets_ key target fuel !! name) as [f|] eqn:Hf; [|done]. by apply (table_functions P HP fuel name f r Hst Hf).
Qed.

(** Opening a socket after one was closed moves all later ones: the new socket takes the
    place of the closed one, but every later descriptor of the script now means the socket
    of the descriptor before it, and the first of them a closed one. *)
Theorem reopen_moves_sockets (w : SW) (fd : nat) (x y : NaslSocket) :
  handles (sw_sockets w) !! fd = Some (Some y) ->
  exists w1 w2, close fd w = (Ok tt, w1) /\ add (E := FnError) x w1 = (Ok fd, w2)
    /\ handles (sw_sockets w2) !! fd = Some (Some x) /\ handles (sw_sockets w2) !! Datatypes.S fd = Some None
    /\ forall j, (fd < j)%nat -> handles (sw_sockets w2) !! Datatypes.S j = handles (sw_sockets w) !! j.
Proof.
  intros Hy. pose proof (lookup_lt_Some _ _ _ Hy) as Hlt. destruct w as [[h cl i] v s]. simpl in *.
  eexists (mkSocketWorld (mkSockets (<[fd:=None]> h) (fd :: cl) i) v s), _. split_and!.
  - unfold close, from_socket, err_into, get_socket, gets, mbind, M_bind. simpl. by rewrite Hy.
  - unfold add, gets, mbind, M_bind. simpl. rewrite vec_insert_ok by (rewrite length_insert; lia). simpl. reflexivity.
  - simpl. rewrite list_lookup_middle by (rewrite length_take, length_insert; lia). done.
  - simpl. rewrite lookup_app_r by (rewrite length_take, length_insert; lia). rewrite length_take, length_insert, Nat.min_l by lia.
    replace (Datatypes.S fd - fd)%nat with 1%nat by lia. simpl. rewrite lookup_drop, Nat.add_0_r. by apply list_lookup_insert_eq.
  - intros j Hj. simpl. rewrite lookup_app_r by (rewrite length_take, length_insert; lia). rewrite length_take, length_insert, Nat.min_l by lia.
    replace (Datatypes.S j - fd)%nat with (Datatypes.S (j - fd))%nat by lia. simpl. rewrite lookup_drop.
    replace (fd + (j - fd))%nat with j by lia. apply list_lookup_insert_ne. lia.
Qed.

(** ** Receiving *)
Lemma run_stream {A} (f : TcpConnection -> V -> (A + IoError) * V) c v :
  on_stream f (c, v) = (match (f c v).1 with inl a => Ok a | inr e => Err e end, (c, (f c v).2)).
Proof. unfold on_stream, io, net_call, mbind, M_bind. by destruct (f c v) as [[] ?]. Qed.

(** A connection behaves as with another buffer, and leaves the buffer alone. *)
Definition unbuffered {A} (m : M (TcpConnection * V) IoError A) : Prop := forall b c v,
  m (set_buffer b c, v) = ((m (c, v)).1, (set_buffer b (m (c, v)).2.1, (m (c, v)).2.2)).
Lemma unbuffered_bind {A B} (m : M (TcpConnection * V) IoError A) (f : A -> M (TcpConnection * V) IoError B) :
  unbuffered m -> (forall a, unbuffered (f a)) -> unbuffered (m ≫= f).
Proof.
  intros Hm Hf b c v. unfold mbind, M_bind. rewrite (Hm b c v). destruct (m (c, v)) as [[a| | |] [c' v']]; simpl; try done. apply Hf.
Qed.
Lemma unbuffered_ret {A} (a : A) : unbuffered (mret a).
Proof. done. Qed.
Lemma unbuffered_attempt {A} (m : M (TcpConnection * V) IoError A) : unbuffered m -> unbuffered (attempt m).
Proof. intros Hm b c v. unfold attempt. rewrite (Hm b c v). by destruct (m (c, v)) as [[a| | |] [c' v']]. Qed.
Lemma unbuffered_stream {A} (f : TcpConnection -> V -> (A + IoError) * V) :
  (forall b c v, f (set_buffer b c) v = f c v) -> unbuffered (on_stream f).
Proof. intros Hf b c v. rewrite !run_stream, Hf. done. Qed.
Lemma unbuffered_read n : unbuffered (tcp_read n).
Proof. by apply unbuffered_stream. Qed.
Lemma unbuffered_timed n t : unbuffered (read_with_timeout n t).
Proof.
  unfold read_with_timeout, with_timeout. apply unbuffered_bind; [by apply unbuffered_stream|]. intros old.
  apply unbuffered_bind; [by apply unbuffered_stream|]. intros _. apply unbuffered_bind; [apply unbuffered_attempt, unbuffered_read|].
  intros r. apply unbuffered_bind; [by apply unbuffered_stream|]. intros _. by destruct r.
Qed.
Lemma unbuffered_recv fuel n min b : unbuffered (recv_loop fuel n min b).
Proof.
  revert b. induction fuel as [|fuel IH]; intros b; simpl; [done|]. case_decide; [|done]. case_decide; [done|].
  apply unbuffered_bind; [apply unbuffered_attempt, unbuffered_timed|]. intros [more|e]; [apply IH|]. by case_decide.
Qed.

Lemma run_socket {A} fd x (f : NaslSocket -> M SW SocketError.t A) w :
  handles (sw_sockets w) !! fd = Some (Some x) -> (get_open_socket fd ≫= f) w = f x w.
Proof. intros Hx. unfold get_open_socket, get_socket, gets, mbind, M_bind. simpl. by rewrite Hx. Qed.

(** [recv] reads past the buffer that [recv_line] fills: what is in it changes neither the
    data that are returned nor what happens on the network, and it stays there. *)
Theorem recv_skips_buffer (fuel fd n : nat) (min timeout : option Z) (w : SW) (c : TcpConnection) (b : list byte) :
  handles (sw_sockets w) !! fd = Some (Some (Tcp c)) ->
  let w' := with_sockets (set_handle fd (Some (Tcp (set_buffer b c)))) w in
  (recv fuel fd n min timeout w').1 = (recv fuel fd n min timeout w).1
  /\ sw_net (recv fuel fd n min timeout w').2 = sw_net (recv fuel fd n min timeout w).2
  /\ exists c', handles (sw_sockets (recv fuel fd n min timeout w').2) !! fd = Some (Some (Tcp c')) /\ tc_buffer c' = b.
Proof.
  intros Hc w'. pose proof (lookup_lt_Some _ _ _ Hc) as Hlt.
  assert (handles (sw_sockets w') !! fd = Some (Some (Tcp (set_buffer b c)))) as Hc' by (by apply list_lookup_insert_eq).
  unfold recv. rewrite (run_socket _ _ _ _ Hc), (run_socket _ _ _ _ Hc').
  match goal with |- context [on_tcp fd c ?m] => assert (unbuffered m) as Hm; [|set (recv_data := m) in *] end.
  { apply unbuffered_bind; [|intros d; apply unbuffered_recv]. destruct (convert_timeout timeout); [apply unbuffered_timed|apply unbuffered_read]. }
  specialize (Hm b c (sw_net w)). unfold mbind, M_bind, on_tcp, on_conn, err_into. simpl. rewrite Hm.
  destruct (recv_data (c, sw_net w)) as [[d|e| |] [c1 v1]]; simpl; (split_and!; [done|done|]);
    (eexists; split; [apply list_lookup_insert_eq; by rewrite length_insert|done]).
Qed.

Section Reads.
(** A condition [D] of the network that reading and timeouts keep. *)
Context (D : V -> Prop).
Hypothesis reads_keep : forall n c v, D v -> D (stream_read n c v).2.
Hypothesis timeouts_work : forall s t v, D v -> D (sock_read_timeout s v).2 /\ D (sock_set_read_timeout s t v).2
  /\ (exists o, (sock_read_timeout s v).1 = inl o) /\ (sock_set_read_timeout s t v).1 = inl tt.

Lemma timed_read n t c v : D v -> exists v0 v1, D v0 /\ D v1
  /\ read_with_timeout n t (c, v) = (match (stream_read n c v0).1 with inl a => Ok a | inr e => Err e end, (c, v1)).
Proof.
  intros Hv. unfold read_with_timeout, with_timeout, tcp_read. destruct (timeouts_work (tc_sock c) (Some t) v Hv) as (Hv1 & _ & (old & Ho) & _).
  set (v1 := (sock_read_timeout (tc_sock c) v).2) in *. destruct (timeouts_work (tc_sock c) (Some t) v1 Hv1) as (_ & Hv2 & _ & Hs).
  set (v2 := (sock_set_read_timeout (tc_sock c) (Some t) v1).2) in *. exists v2. pose proof (reads_keep n c v2 Hv2) as Hv3.
  set (v3 := (stream_read n c v2).2) in *. destruct (timeouts_work (tc_sock c) old v3 Hv3) as (_ & Hv4 & _ & Hs').
  exists (sock_set_read_timeout (tc_sock c) old v3).2. split; [done|]. split; [done|].
  rewrite (bind_ok _ _ old _ (c, v1)) by (by rewrite run_stream, Ho).
  rewrite (bind_ok _ _ tt _ (c, v2)) by (by rewrite run_stream, Hs).
  rewrite (bind_ok _ _ (stream_read n c v2).1 _ (c, v3)).
  - rewrite (bind_ok _ _ tt _ (c, (sock_set_read_timeout (tc_sock c) old v3).2)) by (by rewrite run_stream, Hs').
    by destruct (stream_read n c v2).1.
  - unfold attempt. rewrite run_stream. fold v3. by destruct (stream_read n c v2).1.
Qed.

Lemma recv_loop_hangs fuel n min data c v :
  (forall k v, D v -> (stream_read k c v).1 = inl []) -> D v -> (length data < min)%nat -> (length data <= n)%nat ->
  (recv_loop fuel n min data (c, v)).1 = OutOfFuel.
Proof.
  intros Hr. revert v. induction fuel as [|fuel IH]; intros v Hv Hd Hn; [done|]. cbn [recv_loop].
  rewrite decide_True, decide_False by lia. destruct (timed_read (n - length data) 1 c v Hv) as (v0 & v1 & Hv0 & Hv1 & E).
  rewrite (Hr _ _ Hv0) in E. unfold mbind, M_bind, attempt. rewrite E. rewrite app_nil_r. by apply IH.
Qed.

Lemma recv_loop_returns fuel n min data c v :
  (forall k v b, D v -> (stream_read k c v).1 = inl b -> (length b <= k)%nat /\ (0 < k -> 0 < length b)%nat) ->
  D v -> (length data <= n)%nat -> (min <= n)%nat -> (min - length data < fuel)%nat ->
  match (recv_loop fuel n min data (c, v)).1 with Ok b => (length b <= n)%nat | Err _ => True | _ => False end.
Proof.
  intros Hr. revert data v. induction fuel as [|fuel IH]; intros data v Hv Hd Hm Hf; [simpl in Hf|]; cbn [recv_loop].
  { lia. }
  case_decide as Hlt; [|done]. rewrite decide_False by lia.
  destruct (timed_read (n - length data) 1 c v Hv) as (v0 & v1 & Hv0 & Hv1 & E). unfold mbind, M_bind, attempt. rewrite E.
  destruct (stream_read (n - length data) c v0).1 as [b|e] eqn:Eb.
  - destruct (Hr _ _ _ Hv0 Eb) as [Hb Hb0]. apply IH; try done; rewrite ?length_app; lia.
  - by case_decide.
Qed.
End Reads.

Section Receive.
Context (D : V -> Prop) (w : SW) (fd : nat) (c : TcpConnection).
Hypothesis reads_keep : forall n c v, D v -> D (stream_read n c v).2.
Hypothesis timeouts_work : forall s t v, D v -> D (sock_read_timeout s v).2 /\ D (sock_set_read_timeout s t v).2
  /\ (exists o, (sock_read_timeout s v).1 = inl o) /\ (sock_set_read_timeout s t v).1 = inl tt.
Hypothesis connected : handles (sw_sockets w) !! fd = Some (Some (Tcp c)).
Hypothesis holds : D (sw_net w).

Lemma recv_first n timeout : exists v0 v1, D v0 /\ D v1
  /\ match convert_timeout timeout with Some t => read_with_timeout n t | None => tcp_read n end (c, sw_net w)
     = (match (stream_read n c v0).1 with inl a => Ok a | inr e => Err e end, (c, v1)).
Proof.
  destruct (convert_timeout timeout).
  - by apply (timed_read D).
  - exists (sw_net w), (stream_read n c (sw_net w)).2. split; [done|]. split; [by apply reads_keep|]. apply run_stream.
Qed.

Lemma recv_run fuel n min timeout : exists v0 v1, D v0 /\ D v1
  /\ (recv fuel fd n min timeout w).1 = match (stream_read n c v0).1 with
     | inl b => match (recv_loop fuel n match min with Some m => if (m <? 0)%Z then n else Z.to_nat m | None => n end b (c, v1)).1 with
                | Ok d => Ok (NaslValue.Data d) | Err e => Err (SocketError.IO e) | Panic => Panic | OutOfFuel => OutOfFuel end
     | inr e => Err (SocketError.IO e)
     end.
Proof.
  destruct (recv_first n timeout) as (v0 & v1 & Hv0 & Hv1 & E). exists v0, v1. split; [done|]. split; [done|].
  unfold recv. rewrite (run_socket _ _ _ _ connected). unfold on_tcp, on_conn, err_into, mbind, M_bind. rewrite E.
  destruct (stream_read n c v0).1 as [b|e]; simpl; [|done].
  by destruct (recv_loop _ _ _ b (c, v1)) as [[] [? ?]].
Qed.

(** C30: On a connected TCP socket whose timeouts can be set, [recv] returns at most as much as
    was asked for, or an error, if [min] is not above it and each read gives at least one byte
    or an error; the bytes that are asked for are enough fuel. *)
Theorem recv_returns (n : nat) (min timeout : option Z) :
  (forall k v b, D v -> (stream_read k c v).1 = inl b -> (length b <= k)%nat /\ (0 < k -> 0 < length b)%nat) ->
  (forall m, min = Some m -> (m <= Z.of_nat n)%Z) ->
  match (recv (n + 1) fd n min timeout w).1 with
  | Ok x => exists b, x = NaslValue.Data b /\ (length b <= n)%nat
  | Err _ => True
  | _ => False
  end.
Proof.
  intros Hr Hm. destruct (recv_run (n + 1) n min timeout) as (v0 & v1 & Hv0 & Hv1 & ->).
  destruct (stream_read n c v0).1 as [b|e] eqn:Eb; [|done]. destruct (Hr _ _ _ Hv0 Eb) as [Hb _].
  pose proof (recv_loop_returns D reads_keep timeouts_work (n + 1) n
    match min with Some m => if (m <? 0)%Z then n else Z.to_nat m | None => n end b c v1 Hr Hv1 Hb) as Hl.
  match type of Hl with (?a <= n)%nat -> _ => assert (a <= n)%nat as Ha end.
  { destruct min as [m|]; [|done]. specialize (Hm m eq_refl). destruct (Z.ltb_spec m 0); lia. }
  specialize (Hl Ha ltac:(lia)). destruct (recv_loop _ _ _ _ _).1; eauto.
Qed.

(** After the peer has closed the connection, [recv] without [min] never returns: it reads
    again as long as it has not got all the bytes that were asked for. *)
Theorem recv_hangs_after_close (n : nat) (timeout : option Z) :
  (forall k v, D v -> (stream_read k c v).1 = inl []) -> (0 < n)%nat ->
  forall fuel, (recv fuel fd n None timeout w).1 = OutOfFuel.
Proof.
  intros Hr Hn fuel. destruct (recv_run fuel n None timeout) as (v0 & v1 & Hv0 & Hv1 & ->). rewrite (Hr _ _ Hv0).
  rewrite (recv_loop_hangs D); try done. simpl. lia.
Qed.
End Receive.

(** ** Connecting *)
Section Connect.
Context (sock : Sock) (a : SocketAddr) (t : Z).
Definition tried (v : V) : V := (sock_connect_timeout sock a t v).2.

Lemma connect_step turns i retry v :
  connect_loop (Datatypes.S turns) sock a t i retry v
  = match (sock_connect_timeout sock a t v).1 with
    | inl _ => (Ok tt, tried v)
    | inr e => if decide (io_kind e = TimedOut)
               then (last ← or_panic (arith_u 8 (retry - 1)); if (i =? last)%Z then throw e
                     else j ← or_panic (arith_u 8 (i + 1)); connect_loop turns sock a t j retry) (tried v)
               else (Err e, tried v)
    end.
Proof.
  cbn [connect_loop]. unfold io, net_call, attempt, tried, mbind at 1, M_bind at 1, mbind at 1, M_bind at 1.
  destruct (sock_connect_timeout sock a t v) as [[[]|e] v']; simpl; [done|]. by case_decide.
Qed.

(** With [last] as the last turn, the loop ends within the turns that are left. *)
Lemma connect_ends turns i retry last v : arith_u 8 (retry - 1) = Some last -> (0 <= i <= last)%Z -> (last <= 255)%Z ->
  (last - i < Z.of_nat turns)%Z ->
  match (connect_loop turns sock a t i retry v).1 with Ok _ | Err _ => True | _ => False end
  /\ ((forall v, exists e, (sock_connect_timeout sock a t v).1 = inr e /\ io_kind e = TimedOut) ->
      exists e, connect_loop turns sock a t i retry v = (Err e, Nat.iter (Z.to_nat (last - i + 1)) tried v)).
Proof.
  intros Hl. revert i v. induction turns as [|turns IH]; intros i v Hi H255 Ht; [lia|]. rewrite connect_step.
  assert (forall e, io_kind e = TimedOut ->
    (last0 ← or_panic (arith_u 8 (retry - 1)); if (i =? last0)%Z then throw e
     else j ← or_panic (arith_u 8 (i + 1)); connect_loop turns sock a t j retry) (tried v)
    = if (i =? last)%Z then (Err e, tried v) else connect_loop turns sock a t (i + 1) retry (tried v)) as Hstep.
  { intros e _. rewrite Hl. unfold mbind at 1, M_bind at 1. simpl. destruct (Z.eqb_spec i last); [done|].
    unfold arith_u. rewrite (proj2 (in_u_spec 8 (i + 1))) by lia. done. }
  split.
  - destruct (sock_connect_timeout sock a t v).1 as [u|e]; [done|]. case_decide as Hk; [|done]. rewrite Hstep by done.
    destruct (Z.eqb_spec i last); [done|]. apply (IH (i + 1)%Z (tried v)); lia.
  - intros Hall. destruct (Hall v) as (e & E & Hk). rewrite E, decide_True by done. rewrite Hstep by done.
    destruct (Z.eqb_spec i last) as [->|Hne].
    + exists e. by rewrite Z.sub_diag.
    + destruct (proj2 (IH (i + 1)%Z (tried v) ltac:(lia) H255 ltac:(lia)) Hall) as (e' & ->). exists e'. f_equal.
      replace (Z.to_nat (last - i + 1)) with (Datatypes.S (Z.to_nat (last - (i + 1) + 1))) by lia. by rewrite Nat.iter_succ_r.
Qed.
End Connect.

(** A connection is tried at most as often as [timeout_retry] says, and exactly as often if
    every try times out; with a retry of zero, which the text [0] in the knowledge base gives,
    the code panics in a build with overflow checks and tries 256 times in one without. *)
Theorem connect_bounded (sock : Sock) (a : SocketAddr) (t retry : Z) (v : V) :
  (0 <= retry <= 255)%Z ->
  ((0 < retry)%Z -> match (connect_loop 256 sock a t 0 retry v).1 with Ok _ | Err _ => True | _ => False end)
  /\ ((forall v, exists e, (sock_connect_timeout sock a t v).1 = inr e /\ io_kind e = TimedOut) ->
      if (retry =? 0)%Z && overflow_checks then (connect_loop 256 sock a t 0 retry v).1 = Panic
      else exists e, connect_loop 256 sock a t 0 retry v
             = (Err e, Nat.iter (if (retry =? 0)%Z then 256 else Z.to_nat retry) (tried sock a t) v)).
Proof.
  intros Hr. split.
  - intros Hpos. apply (connect_ends sock a t 256 0 retry (retry - 1)); try lia. unfold arith_u.
    by rewrite (proj2 (in_u_spec 8 (retry - 1))) by lia.
  - intros Hall. destruct (Z.eqb_spec retry 0) as [->|Hne]; cbn [andb].
    + destruct overflow_checks eqn:Ho.
      * change 256%nat with (Datatypes.S 255). rewrite connect_step. destruct (Hall v) as (e & E & Hk). rewrite E, decide_True by done.
        assert (arith_u 8 (0 - 1) = None) as -> by (unfold arith_u; change (in_u 8 (0 - 1)) with false; by rewrite Ho). done.
      * apply (connect_ends sock a t 256 0 0 255); try lia; [|done]. unfold arith_u. change (in_u 8 (0 - 1)) with false. by rewrite Ho.
    + destruct (proj2 (connect_ends sock a t 256 0 retry (retry - 1) v ltac:(unfold arith_u; by rewrite (proj2 (in_u_spec 8 (retry - 1))) by lia)
        ltac:(lia) ltac:(lia) ltac:(lia)) Hall) as (e & E). exists e. rewrite E. do 2 f_equal. lia.
Qed.

(** Without [transport], [open_sock_tcp] panics whatever the port: the detection of the
    transport is left to do. *)
Theorem default_transport_panics (fuel : nat) (port : Z) (timeout bufsz : option Z) (ip : IpAddr) (w : SW) :
  parse_ip target = inl ip -> sockets_interval (sw_sockets w) = None ->
  (open_sock_tcp key target fuel port timeout None bufsz w).1 = Panic.
Proof.
  intros Hip Hi. unfold open_sock_tcp, from_socket, err_into, on_net, ipstr2ipaddr, mbind, M_bind. rewrite Hip. simpl.
  unfold wait_before_next_probe, gets, mbind, M_bind. simpl. by rewrite Hi.
Qed.

(** ** The local network *)
Fixpoint scan_bits (l : list nat) (d s m : Z) : option bool :=
  match l with
  | [] => None
  | i :: l' =>
      if negb (Z.testbit m (Z.of_nat i)) then Some true
      else if xorb (Z.testbit d (Z.of_nat i)) (Z.testbit s (Z.of_nat i)) then Some false
      else scan_bits l' d s m
  end.

Lemma land_bit x i : (0 <= i)%Z -> Z.land x (2 ^ i) = if Z.testbit x i then (2 ^ i)%Z else 0%Z.
Proof.
  intros Hi. apply Z.bits_inj'. intros n Hn. rewrite Z.land_spec, Z.pow2_bits_eqb by lia.
  destruct (Z.eqb_spec i n) as [->|Hne]; [rewrite andb_true_r|rewrite andb_false_r].
  - destruct (Z.testbit x n); [by rewrite Z.pow2_bits_true by lia|by rewrite Z.bits_0].
  - destruct (Z.testbit x i); [by rewrite Z.pow2_bits_false by lia|by rewrite Z.bits_0].
Qed.

Lemma compare_bits_scan l d s m : compare_bits (map (fun i => 2 ^ Z.of_nat i)%Z l) d s m = scan_bits l d s m.
Proof.
  induction l as [|i l IH]; [done|]. cbn [map compare_bits scan_bits]. rewrite !land_bit by lia. rewrite IH.
  assert (0 < 2 ^ Z.of_nat i)%Z as Hp by lia. generalize dependent (2 ^ Z.of_nat i)%Z. intros p Hp.
  assert ((p =? 0)%Z = false) as E1 by lia. assert ((0 =? p)%Z = false) as E2 by lia.
  destruct (Z.testbit m (Z.of_nat i)), (Z.testbit d (Z.of_nat i)), (Z.testbit s (Z.of_nat i)); rewrite ?E1, ?E2, ?Z.eqb_refl; done.
Qed.

Lemma scan_bits_app a b d s m :
  scan_bits (a ++ b) d s m = match scan_bits a d s m with Some x => Some x | None => scan_bits b d s m end.
Proof. induction a as [|i a IH]; [done|]. simpl. destruct (negb _); [done|]. destruct (xorb _ _); [done|apply IH]. Qed.

Lemma scan_bits_part k l d s m : (0 <= k)%Z -> Forall (fun i => i < 8)%nat l ->
  scan_bits l (d / 2 ^ k mod 256) (s / 2 ^ k mod 256) (m / 2 ^ k mod 256) = scan_bits (map (fun i => Z.to_nat k + i)%nat l) d s m.
Proof.
  intros Hk Hl. change 256%Z with (2 ^ 8)%Z. induction Hl as [|i l Hi Hl IH]; [done|]. cbn [map scan_bits].
  rewrite !Z.mod_pow2_bits_low, !Z.div_pow2_bits by lia. rewrite IH.
  by replace (Z.of_nat i + k)%Z with (Z.of_nat (Z.to_nat k + i)) by lia.
Qed.

Lemma octets_div a : octets a = [a / 2 ^ 24 mod 256; a / 2 ^ 16 mod 256; a / 2 ^ 8 mod 256; a / 2 ^ 0 mod 256]%Z.
Proof.
  unfold octets, ipv4_octets, be_encode. cbn [le_encode rev app map]. rewrite !byte_of_Z, !Z.div_div by lia. rewrite Z.div_1_r. done.
Qed.

(** The comparison of the parts is one of the 32 bits. *)
Lemma compare_parts_scan d s m : compare_parts 8 (octets d) (octets s) (octets m) = default false (scan_bits (rev (seq 0 32)) d s m).
Proof.
  rewrite !octets_div. cbn [compare_parts]. unfold bits. rewrite !compare_bits_scan.
  assert (Forall (fun i => i < 8)%nat (rev (seq 0 8))) as Hb by (by repeat constructor; simpl; lia).
  rewrite !scan_bits_part by (done || lia).
  change (rev (seq 0 32)) with (map (fun i => Z.to_nat 24 + i)%nat (rev (seq 0 8)) ++ map (fun i => Z.to_nat 16 + i)%nat (rev (seq 0 8))
    ++ map (fun i => Z.to_nat 8 + i)%nat (rev (seq 0 8)) ++ map (fun i => Z.to_nat 0 + i)%nat (rev (seq 0 8)))%list.
  rewrite !scan_bits_app. repeat (destruct (scan_bits _ _ _ _); [done|]). done.
Qed.

(** The bits of a mask of [32 - q] ones *)
Lemma mask_bit q i : (0 <= q <= 32)%Z -> (0 <= i < 32)%Z -> Z.testbit (2 ^ 32 - 2 ^ q) i = (q <=? i)%Z.
Proof.
  intros Hq Hi. replace (2 ^ 32 - 2 ^ q)%Z with (Z.ones (32 - q) * 2 ^ q)%Z.
  - destruct (Z.leb_spec q i); [|by apply Z.mul_pow2_bits_low]. rewrite Z.mul_pow2_bits by lia.
    apply Z.ones_spec_low. lia.
  - rewrite Z.ones_equiv. replace 32%Z with ((32 - q) + q)%Z at 2 by lia. rewrite Z.pow_add_r by lia. lia.
Qed.

Lemma quotient_bit q k d : (0 <= q <= k)%Z ->
  (d mod 2 ^ (k + 1) / 2 ^ q = Z.b2z (Z.testbit d k) * 2 ^ (k - q) + d mod 2 ^ k / 2 ^ q /\ 0 <= d mod 2 ^ k / 2 ^ q < 2 ^ (k - q))%Z.
Proof.
  intros Hq. assert (2 ^ k = 2 ^ (k - q) * 2 ^ q)%Z as Ek by (rewrite <- Z.pow_add_r by lia; f_equal; lia). split.
  - rewrite Z.pow_add_r, Z.pow_1_r, Z.rem_mul_r by lia. rewrite <- (Z.testbit_spec' d k) by lia.
    rewrite Ek at 2. replace (d mod 2 ^ k + 2 ^ (k - q) * 2 ^ q * Z.b2z (Z.testbit d k))%Z
      with (d mod 2 ^ k + (Z.b2z (Z.testbit d k) * 2 ^ (k - q)) * 2 ^ q)%Z by lia. rewrite Z.div_add by lia. lia.
  - pose proof (Z.mod_pos_bound d (2 ^ k) ltac:(lia)). split; [apply Z.div_pos; lia|]. apply Z.div_lt_upper_bound; lia.
Qed.

Lemma scan_prefix q d s n : (0 <= q)%Z -> (q + Z.of_nat n <= 32)%Z ->
  scan_bits (rev (seq 0 (Z.to_nat q + n))) d s (2 ^ 32 - 2 ^ q)
  = if (d mod 2 ^ (q + Z.of_nat n) / 2 ^ q =? s mod 2 ^ (q + Z.of_nat n) / 2 ^ q)%Z
    then if (q =? 0)%Z then None else Some true else Some false.
Proof.
  intros Hq. induction n as [|n IH]; intros Hn.
  - rewrite !Z.add_0_r, !Z.div_small by (apply Z.mod_pos_bound; lia). rewrite Z.eqb_refl, Nat.add_0_r.
    destruct (Z.eqb_spec q 0) as [->|Hne]; [done|]. replace (Z.to_nat q) with (Datatypes.S (Z.to_nat (q - 1))) by lia.
    rewrite seq_S, rev_app_distr. cbn [rev app scan_bits]. rewrite mask_bit by lia. by rewrite (proj2 (Z.leb_gt _ _)) by lia.
  - rewrite Nat.add_succ_r, seq_S, rev_app_distr. cbn [rev app scan_bits]. rewrite IH by lia.
    rewrite mask_bit by lia. rewrite (proj2 (Z.leb_le _ _)) by lia. cbn [negb].
    replace (Z.of_nat (0 + (Z.to_nat q + n))) with (q + Z.of_nat n)%Z by lia.
    replace (q + Z.of_nat (Datatypes.S n))%Z with (q + Z.of_nat n + 1)%Z by lia. set (k := (q + Z.of_nat n)%Z) in *.
    destruct (quotient_bit q k d ltac:(lia)) as [-> Hd], (quotient_bit q k s ltac:(lia)) as [-> Hs].
    destruct (Z.testbit d k), (Z.testbit s k); cbn [xorb Z.b2z]; rewrite ?Z.mul_0_l, ?Z.mul_1_l, ?Z.add_0_l.
    + f_equal. destruct (Z.eqb_spec (d mod 2 ^ k / 2 ^ q) (s mod 2 ^ k / 2 ^ q)) as [E|E]; [by rewrite E, Z.eqb_refl|].
      by rewrite (proj2 (Z.eqb_neq _ _)) by lia.
    + by rewrite (proj2 (Z.eqb_neq _ _)) by lia.
    + by rewrite (proj2 (Z.eqb_neq _ _)) by lia.
    + done.
Qed.

(** For a mask of [p] leading ones; with 32 of them the loop ends without an answer. *)
Lemma islocalnet_mask (w : SW) (v1 v2 : V) (dst src : Ipv4Addr) (p : Z) :
  (0 <= p <= 32)%Z -> (0 <= dst < 2 ^ 32)%Z -> (0 <= src < 2 ^ 32)%Z ->
  parse_ip target = inl (V4 dst) -> get_source_ip (V4 dst) DEFAULT_PORT (sw_net w) = (Ok (V4 src), v1) ->
  get_netmask_by_local_ip (V4 src) v1 = (Ok (Some (V4 (2 ^ 32 - 2 ^ (32 - p))%Z)), v2) ->
  islocalnet target w = (Ok ((p <? 32)%Z && (dst / 2 ^ (32 - p) =? src / 2 ^ (32 - p))%Z),
                         mkSocketWorld (sw_sockets w) v2 (sw_storage w)).
Proof.
  intros Hp Hd Hs Ht Hsrc Hmask. destruct w as [so v st]. simpl in Hsrc. unfold islocalnet.
  rewrite (bind_ok _ _ (V4 dst) _ (mkSocketWorld so v st)) by (unfold target_ip, on_net, ipstr2ipaddr; by rewrite Ht).
  rewrite (bind_ok _ _ (V4 src) _ (mkSocketWorld so v1 st)) by (unfold on_net; simpl; by rewrite Hsrc).
  rewrite (bind_ok _ _ (Some (V4 (2 ^ 32 - 2 ^ (32 - p))%Z)) _ (mkSocketWorld so v2 st)) by (unfold on_net; cbn [sw_net]; by rewrite Hmask).
  unfold mret, M_ret. cbn [sw_sockets sw_storage]. f_equal. f_equal.
  rewrite compare_parts_scan. pose proof (scan_prefix (32 - p) dst src (Z.to_nat p) ltac:(lia) ltac:(lia)) as E.
  replace (Z.to_nat (32 - p) + Z.to_nat p)%nat with 32%nat in E by lia. rewrite E. clear E.
  replace (32 - p + Z.of_nat (Z.to_nat p))%Z with 32%Z by lia. rewrite !(Z.mod_small _ (2 ^ 32)) by lia.
  destruct (Z.ltb_spec p 32); simpl.
  - rewrite (proj2 (Z.eqb_neq (32 - p) 0)) by lia. by destruct (_ =? _)%Z.
  - replace (32 - p)%Z with 0%Z by lia. simpl. by destruct (_ =? _)%Z.
Qed.

(** C28: For an IPv4 target, [islocalnet] says whether the target and the address the machine
    reaches it from have the same network part, when the mask of the interface has [p] leading
    ones and not all 32. *)
Theorem islocalnet_prefix (w : SW) (v1 v2 : V) (dst src : Ipv4Addr) (p : Z) :
  (0 <= p < 32)%Z -> (0 <= dst < 2 ^ 32)%Z -> (0 <= src < 2 ^ 32)%Z ->
  parse_ip target = inl (V4 dst) -> get_source_ip (V4 dst) DEFAULT_PORT (sw_net w) = (Ok (V4 src), v1) ->
  get_netmask_by_local_ip (V4 src) v1 = (Ok (Some (V4 (2 ^ 32 - 2 ^ (32 - p))%Z)), v2) ->
  islocalnet target w = (Ok (dst / 2 ^ (32 - p) =? src / 2 ^ (32 - p))%Z,
                         mkSocketWorld (sw_sockets w) v2 (sw_storage w)).
Proof.
  intros Hp Hd Hs Ht Hsrc Hmask. rewrite (islocalnet_mask w v1 v2 dst src p) by (done || lia).
  by rewrite (proj2 (Z.ltb_lt p 32)) by lia.
Qed.

(** With a mask of 32 ones no IPv4 target is in the local network, not even the address of the
    machine itself. *)
Theorem own_address_not_local (w : SW) (v1 v2 : V) (src : Ipv4Addr) :
  (0 <= src < 2 ^ 32)%Z ->
  parse_ip target = inl (V4 src) -> get_source_ip (V4 src) DEFAULT_PORT (sw_net w) = (Ok (V4 src), v1) ->
  get_netmask_by_local_ip (V4 src) v1 = (Ok (Some (V4 (2 ^ 32 - 1)%Z)), v2) ->
  islocalnet target w = (Ok false, mkSocketWorld (sw_sockets w) v2 (sw_storage w)).
Proof. intros Hs Ht Hsrc Hmask. by apply (islocalnet_mask w v1 v2 src src 32). Qed.

(** Five datagrams of other hosts in a row, and reading from a UDP connection panics: the
    end of its loop is declared unreachable. *)
Theorem strangers_panic (D : V -> Prop) (n : nat) (c : UdpConnection) (v : V) (peer : SocketAddr) :
  (forall v, D v -> D (net_udp_recv_from (uc_socket c) n v).2 /\ D (net_udp_peer_addr (uc_socket c) v).2
     /\ (net_udp_peer_addr (uc_socket c) v).1 = inl peer
     /\ exists d o, (net_udp_recv_from (uc_socket c) n v).1 = inl (d, o) /\ o <> peer) ->
  D v -> (udp_read n (c, v)).1 = Panic.
Proof.
  intros HD. unfold udp_read. generalize NUM_TIMES_TO_RESEND. intros k. revert v. induction k as [|k IH]; intros v Hv; [done|].
  cbn [udp_read_loop]. destruct (HD v Hv) as (Hr & _ & _ & d & o & Ho & Hne).
  set (v1 := (net_udp_recv_from (uc_socket c) n v).2) in *. destruct (HD v1 Hr) as (_ & Hv2 & Hp & _).
  assert (forall A (f : Udp -> V -> (A + IoError) * V) v a, (f (uc_socket c) v).1 = inl a ->
    on_udp f (c, v) = (Ok a, (c, (f (uc_socket c) v).2))) as Hcall.
  { intros A f v' a E. unfold on_udp, io, net_call, mbind, M_bind. destruct (f (uc_socket c) v') as [[] ?]; by simplify_eq/=. }
  rewrite (bind_ok _ _ (inl (d, o)) _ (c, v1)).
  - rewrite (bind_ok _ _ peer _ (c, (net_udp_peer_addr (uc_socket c) v1).2)) by (by apply Hcall).
    rewrite decide_False by congruence. by apply IH.
  - unfold attempt. by rewrite (Hcall _ (fun s => net_udp_recv_from s n) _ _ Ho).
Qed.
End Connections.

(** ** Answers of an FTP server *)

(** A reader of lines that were already received; at the end of the connection it answers
    empty lines. *)
Definition next_line : M (list (list byte)) IoError (list byte) := fun l =>
  match l with [] => (Ok [], []) | x :: l' => (Ok x, l') end.
Definition ascii_line (l : list byte) : Prop := Forall (fun b => in_bytes 0 0x7f b = true) l.
(** The line ends the answer of a code: the code and a blank, and at least one byte more. *)
Definition final_line (code line : list byte) : Prop := (5 <= length line)%nat /\ take 4 line = (code ++ [x20])%list.

Lemma ascii_slice l i : ascii_line l -> (i <= length l)%nat -> slice_to l i = Some (take i l).
Proof.
  intros Hl Hi. unfold slice_to, is_boundary. destruct (l !! i) as [b|] eqn:Hb.
  - pose proof (Forall_lookup_1 _ _ _ _ Hl Hb) as E. simpl in E. assert (in_bytes 0x80 0xbf b = false) as ->; [|done].
    unfold in_bytes in *. destruct (Z.leb_spec (byte_Z b) 0x7f); [|by rewrite andb_false_r in E]. apply andb_false_iff. left. lia.
  - apply lookup_ge_None_1 in Hb. by rewrite bool_decide_true by lia.
Qed.
Lemma ascii_ends code l : ascii_line l -> ends_answer (code ++ [x20])%list l = Some (bool_decide (final_line code l)).
Proof.
  intros Hl. unfold ends_answer, final_line. case_decide as Hn.
  - f_equal. symmetry. apply bool_decide_eq_false. lia.
  - rewrite ascii_slice by (done || lia). simpl. f_equal. apply bool_decide_ext. intuition lia.
Qed.

Lemma skip_to_final fuel code line before last after :
  ascii_line line -> Forall ascii_line before -> ascii_line last -> (length before < fuel)%nat ->
  Forall (fun l => ~ final_line code l) (line :: before) -> final_line code last ->
  skip_lines next_line (Datatypes.S fuel) (code ++ [x20])%list line (before ++ last :: after)%list = (Ok last, after).
Proof.
  intros Hl Hb Hla Hf Hno Hfin. revert fuel line Hl Hf Hno. induction Hb as [|x before Hx Hb IH]; intros fuel line Hl Hf Hno;
    inversion Hno as [|?? H1 H2]; subst; cbn [skip_lines]; rewrite (ascii_ends code line Hl), bool_decide_false by done.
  - unfold mbind, M_bind. simpl. destruct fuel as [|fuel]; [simpl in Hf; lia|]. cbn [skip_lines].
    rewrite (ascii_ends code last Hla), bool_decide_true by done. done.
  - unfold mbind, M_bind, err_into. cbn [or_panic next_line app]. unfold mret, M_ret.
    destruct fuel as [|fuel]; [simpl in Hf; lia|]. apply IH; simpl in *; try done; lia.
Qed.

Lemma skip_without_final fuel code line lines :
  ascii_line line -> Forall ascii_line lines -> Forall (fun l => ~ final_line code l) (line :: lines) ->
  (skip_lines next_line fuel (code ++ [x20])%list line lines).1 = OutOfFuel.
Proof.
  intros Hl Hls Hno. revert line lines Hl Hls Hno. induction fuel as [|fuel IH]; intros line lines Hl Hls Hno; [done|].
  inversion Hno as [|?? H1 H2]; subst. cbn [skip_lines]. rewrite (ascii_ends code line Hl), bool_decide_false by done.
  unfold mbind, M_bind, err_into. cbn [or_panic]. unfold mret, M_ret. destruct lines as [|x lines]; cbn [next_line].
  - apply IH; [by constructor|done|]. constructor; [|done]. intros [Hlen _]. simpl in Hlen. lia.
  - inversion Hls; subst. by apply IH.
Qed.

Lemma ftp_first fuel codes line lines code : ascii_line line -> (5 <= length line)%nat ->
  u64_from_str (map byte_as_char (take 3 line)) = Some code ->
  check_ftp_response next_line fuel codes (line :: lines)
  = (l ← skip_lines next_line fuel (take 3 line ++ [x20])%list line;
     if existsb (fun ec => (code =? ec)%Z) codes then mret code
     else throw (SocketError.ResponseCodeMismatch codes (trim_bytes l))) lines.
Proof.
  intros Hl Hlen Hc. unfold check_ftp_response. unfold mbind at 1, M_bind at 1, err_into. cbn [next_line]. rewrite decide_False by lia.
  rewrite (ascii_slice line 3) by (done || lia). rewrite (bind_ok (or_panic _) _ (take 3 line) lines lines) by done.
  rewrite Hc. rewrite (bind_ok (ok_or _ _) _ code lines lines) by done. done.
Qed.

(** An answer of one or several lines is read up to its last line, which starts with the
    code and a blank; its code is returned if it is expected, and is an error with the
    text of that line if not.  A connection that ends before that line is read for ever. *)
Theorem ftp_answer_read (codes : list Z) (before after : list (list byte)) (first last : list byte) (code : Z) (fuel : nat) :
  head (before ++ [last])%list = Some first -> Forall ascii_line (before ++ [last])%list -> (5 <= length first)%nat ->
  u64_from_str (map byte_as_char (take 3 first)) = Some code ->
  Forall (fun l => ~ final_line (take 3 first) l) before -> (length before < fuel)%nat ->
  (final_line (take 3 first) last ->
   check_ftp_response next_line fuel codes (before ++ last :: after)%list
   = (if existsb (fun ec => (code =? ec)%Z) codes then Ok code
      else Err (SocketError.ResponseCodeMismatch codes (trim_bytes last)), after))
  /\ (~ final_line (take 3 first) last ->
      forall k, (check_ftp_response next_line k codes (before ++ [last])%list).1 = OutOfFuel).
Proof.
  intros Hf Ha Hlen Hc Hno Hfuel. apply Forall_app in Ha as [Hab Hal]. rewrite Forall_singleton in Hal. split.
  - intros Hfin. destruct before as [|x before]; simpl in Hf; injection Hf as <-.
    + cbn [app]. rewrite (ftp_first _ _ _ _ code Hal Hlen Hc), (bind_ok _ _ last after after).
      * by destruct (existsb _ _).
      * destruct fuel as [|fuel]; [simpl in Hfuel; lia|]. cbn [skip_lines]. rewrite (ascii_ends _ last Hal), bool_decide_true by done. done.
    + inversion Hab as [|?? Hx Hb]; subst. cbn [app]. rewrite (ftp_first _ _ _ _ code Hx Hlen Hc), (bind_ok _ _ last _ after).
      * by destruct (existsb _ _).
      * destruct fuel as [|fuel]; [simpl in Hfuel; lia|]. apply skip_to_final; try done. simpl in Hfuel. lia.
  - intros Hfin k. assert (Forall (fun l => ~ final_line (take 3 first) l) (before ++ [last])%list) as Hall.
    { apply Forall_app. split; [done|by apply Forall_singleton]. }
    assert (Forall ascii_line (before ++ [last])%list) as Ha by (apply Forall_app; split; [done|by apply Forall_singleton]).
    destruct (before ++ [last])%list as [|x l]; [done|]. simpl in Hf. injection Hf as ->. inversion Ha as [|?? Hx Hl]; subst.
    rewrite (ftp_first _ _ _ _ code Hx Hlen Hc). pose proof (skip_without_final k (take 3 first) first l) as Hs.
    specialize (Hs ltac:(done) ltac:(done) Hall). unfold mbind, M_bind. by destruct (skip_lines _ _ _ _ l) as [[] ?].
Qed.

(** ** A network to evaluate *)
Module SocketExample.
#[local] Existing Instances plain_order release_build.
#[local] Instance features : Features := {| enforce_no_trailing_arguments := true |}.
#[local] Instance names : Net := {| parse_ipv6 := fun _ => None; lookup_addr := fun _ => None; resolve := fun s => inl [s] |}.
#[local] Instance no_kb : ContextStorage unit := {|
  cs_dispatch := fun _ _ s => (Ok tt, s); cs_dispatch_replace := fun _ _ s => (Ok tt, s); cs_retrieve := fun _ _ _ => Ok []
|}.

(** What will be read, by any socket; what was written; how many sockets were made and how
    often one was connected; and whether connecting times out. *)
Record Toy := mkToy {
  toy_reads : list (list byte); toy_written : list (list byte); toy_socks : nat; toy_tries : nat; toy_silent : bool
}.
Definition timed_out : IoError := mkIo TimedOut "timed out".
Definition toy_read (n : nat) (v : Toy) : list byte * Toy :=
  match toy_reads v with
  | [] => ([], v)
  | b :: r => (take n b, mkToy (if decide (length b <= n)%nat then r else drop n b :: r) (toy_written v) (toy_socks v) (toy_tries v) (toy_silent v))
  end.
Definition toy_write (b : list byte) (v : Toy) : Toy :=
  mkToy (toy_reads v) (toy_written v ++ [b])%list (toy_socks v) (toy_tries v) (toy_silent v).
Definition toy_new (v : Toy) : nat * Toy :=
  (toy_socks v, mkToy (toy_reads v) (toy_written v) (S (toy_socks v)) (toy_tries v) (toy_silent v)).
Definition ok {A} (r : A * Toy) : (A + IoError) * Toy := (inl r.1, r.2).

Definition toy_world (read : nat -> Toy -> list byte * Toy) (silent : Toy -> bool) : SocketNet Toy := {|
  Sock := nat; Tls := unit; Udp := nat;
  sock_new := fun _ v => ok (toy_new v); sock_new_raw := fun _ v => ok (toy_new v);
  sock_connect_timeout := fun _ _ _ v => (if silent v then inr timed_out else inl tt,
    mkToy (toy_reads v) (toy_written v) (toy_socks v) (S (toy_tries v)) (toy_silent v));
  sock_bind := fun _ _ v => (inl tt, v); sock_local_addr := fun _ v => (inl (Some (V4 0%Z, 4711%Z)), v);
  sock_read_timeout := fun _ v => (inl None, v); sock_set_read_timeout := fun _ _ v => (inl tt, v);
  sock_read := fun _ n v => ok (read n v);
  sock_write := fun _ b v => (inl (length b), toy_write b v);
  sock_send_with_flags := fun _ b _ v => (inl (length b), toy_write b v);
  tls_read := fun _ _ n v => ok (read n v); tls_write := fun _ _ b v => (inl (length b), toy_write b v);
  net_udp_bind := fun _ v => ok (toy_new v); net_udp_connect := fun _ _ v => (inl tt, v); net_udp_connect_addr := fun _ _ v => (inl tt, v);
  net_udp_local_addr := fun _ v => (inl (V4 3232235522%Z, 4711%Z), v); net_udp_peer_addr := fun _ v => (inl (V4 3232235777%Z, 53%Z), v);
  net_udp_recv_from := fun _ n v => (inl (fst (read n v), (V4 1%Z, 53%Z)), snd (read n v));
  net_udp_send := fun _ b v => (inl (length b), toy_write b v); net_libc_send := fun _ b _ v => (inl (length b), toy_write b v);
  net_udp_read_timeout := fun _ v => (inl None, v); net_udp_set_read_timeout := fun _ _ v => (inl tt, v);
  lookup_host := fun _ v => (None, v); system_time := fun v => (0%Z, v); net_sleep := fun _ v => v;
  getifaddrs := fun v => (Some [IfNull; IfOther; IfIp (V4 3232235522%Z) (Some (V4 4294967040%Z))], v);
  uname := fun v => (Some "scanner", v); ipv6_segments := fun _ => replicate 8 0%Z
|}.
#[local] Instance toy_net : SocketNet Toy := toy_world toy_read toy_silent.
#[local] Instance no_tls (N : SocketNet Toy) : TlsLib Toy := {|
  Reader := unit; ServerName := unit; Cert := unit; RootStore := unit; EncryptedKey := unit; ClientConfig := unit;
  server_name := fun _ => Some tt; open_reader := fun _ v => (inr (mkIo OtherKind "no such file"), v);
  read_one := fun _ v => (inl None, v); pem_certs := fun _ v => ([], v); root_store := fun _ => tt;
  encrypted_from_der := fun _ => inr ""; decrypt_key := fun _ _ => inr ""; client_config := fun _ _ _ => Some tt;
  client_connection := fun _ _ v => (inr "", v)
|}.

Definition run_key : ContextKey := Scan "" None.
Definition host : string := "192.168.1.1".
Definition reg (positional : list NaslValue.t) (named : list (string * NaslValue.t)) : Register :=
  Register.create_root_child Register.new
    (list_to_map ((FC_ANON_ARGS, Value (NaslValue.Array positional)) :: map (fun x => (x.1, Value x.2)) named)).
Definition num (x : Z) : NaslValue.t := NaslValue.Number x.
Definition text (s : string) : list byte := str_bytes s.
Definition line (s : string) : list byte := (text s ++ crlf)%list.
Definition world (reads : list (list byte)) : SocketWorld (V := Toy) (S := unit) :=
  mkSocketWorld sockets_default (mkToy reads [] 0 0 false) tt.
Definition step (w : SocketWorld (V := Toy) (S := unit)) (name : string) (r : Register) := 
  match Sockets_ run_key host 20 !! name with Some f => f r w | None => (OutOfFuel, w) end.
Definition opened (reads : list (list byte)) : SocketWorld (V := Toy) (S := unit) :=
  (step (step (world reads) "open_sock_tcp" (reg [num 21] [("transport", num 1)])).2
     "open_sock_tcp" (reg [num 80] [("transport", num 1)])).2.

(** Two connections, one of which logs in to an FTP server with an answer of two lines;
    then the first is closed and another one opened. *)
Example session :
  let w := opened [line "220-hello"; line "220 ready"; line "331 password"; line "230 in"] in
  let '(r1, w1) := step w "ftp_log_in" (reg [] [("user", NaslValue.String "me"); ("pass", NaslValue.String "pw"); ("socket", num 0)]) in
  let '(r2, w2) := step w1 "close" (reg [num 0] []) in
  let '(r3, w3) := step w2 "open_sock_tcp" (reg [num 22] [("transport", num 1)]) in
  let '(r4, w4) := step w3 "send" (reg [] [("socket", num 1); ("data", NaslValue.Data (text "x"))]) in
  (r1, r2, r3) = (Ok (NaslValue.Boolean true), Ok NaslValue.Null, Ok (NaslValue.Fork [num 0]))
  /\ r4 = Err (SocketError.into (SocketError.WrongArgument "Socket already closed"))
  /\ toy_written (sw_net w4) = [line "USER me"; line "PASS pw"]
  /\ (step w4 "send" (reg [] [("socket", num 2); ("data", NaslValue.Data (text "x"))])).1 = Ok (num 1).
Proof. vm_compute. split_and!; reflexivity. Qed.

(** A line that was read ahead is not what [recv] gives. *)
Example read_ahead :
  let w := opened [(line "one" ++ text "two")%list; text "three"] in
  let '(r1, w1) := step w "recv_line" (reg [] [("socket", num 0); ("length", num 80)]) in
  let '(r2, w2) := step w1 "recv" (reg [] [("socket", num 0); ("length", num 5)]) in
  r1 = Ok (NaslValue.Data (line "one")) /\ r2 = Ok (NaslValue.Data (text "three")).
Proof. vm_compute. split; reflexivity. Qed.
End SocketExample.

Module SocketWitness.
Import SocketExample.
#[local] Existing Instances plain_order release_build features names no_kb toy_net no_tls.

Definition conn (n : nat) : TcpConnection := mkTcp n None [] DEFAULT_BUF_SIZE.
Definition steps : list SocketStep :=
  [Call "open_sock_udp" (reg [num 53] []); Elsewhere (mkToy [text "abc"] [] 7 0 false) tt;
   Call "recv" (reg [] [("socket", num 1); ("length", num 3)])].

Lemma descriptors_stable_witness :
  exists y, handles (sw_sockets (foldl (socket_step run_key host 20) (opened []) steps)) !! 1%nat = Some (Some y)
    /\ same_socket (Tcp (conn 1)) y.
Proof.
  apply (descriptors_stable run_key host 20 steps (opened []) 1 (Tcp (conn 1))); [reflexivity| |vm_compute; reflexivity].
  repeat constructor; done.
Defined.

Lemma reopen_moves_sockets_witness :
  exists w1 w2, close 0 (opened []) = (Ok tt, w1) /\ add (E := FnError) (Tcp (conn 5)) w1 = (Ok 0%nat, w2)
    /\ handles (sw_sockets w2) !! 0%nat = Some (Some (Tcp (conn 5))) /\ handles (sw_sockets w2) !! 1%nat = Some None
    /\ forall j, (0 < j)%nat -> handles (sw_sockets w2) !! S j = handles (sw_sockets (opened [])) !! j.
Proof. apply (reopen_moves_sockets (opened []) 0 (Tcp (conn 5)) (Tcp (conn 0))). vm_compute. reflexivity. Defined.

Lemma recv_skips_buffer_witness :
  let w := opened [text "three"] in
  let w' := with_sockets (set_handle 0 (Some (Tcp (set_buffer (text "two") (conn 0))))) w in
  (recv 20 0 5 None None w').1 = (recv 20 0 5 None None w).1
  /\ sw_net (recv 20 0 5 None None w').2 = sw_net (recv 20 0 5 None None w).2
  /\ exists c', handles (sw_sockets (recv 20 0 5 None None w').2) !! 0%nat = Some (Some (Tcp c')) /\ tc_buffer c' = text "two".
Proof. apply (recv_skips_buffer 20 0 5 None None (opened [text "three"]) (conn 0)). vm_compute. reflexivity. Defined.

Definition one_socket `{SocketNet Toy} (s : Sock) : SocketWorld (V := Toy) (S := unit) :=
  mkSocketWorld (mkSockets [Some (Tcp (mkTcp s None [] 8))] [] None) (mkToy [] [] 1 0 true) tt.
End SocketWitness.

(** A network on which bytes always arrive. *)
Module EndlessWitness.
Import SocketExample.
#[local] Instance endless : SocketNet Toy := toy_world (fun n v => (repeat x41 (min n 2), v)) toy_silent.
Definition sock0 : Sock (V := Toy) := 0%nat.

Lemma recv_returns_witness :
  match (recv 6 0 5 (Some 4%Z) None (SocketWitness.one_socket sock0)).1 with
  | Ok x => exists b, x = NaslValue.Data b /\ (length b <= 5)%nat
  | Err _ => True
  | _ => False
  end.
Proof.
  apply (recv_returns (fun _ => True) (SocketWitness.one_socket sock0) 0 (mkTcp sock0 None [] 8)); try done.
  - intros s t v _. split_and!; eauto.
  - intros k v b _ E. injection E as <-. rewrite repeat_length. lia.
  - intros m [= <-]. done.
Defined.
End EndlessWitness.

(** A network whose peers have closed. *)
Module ClosedWitness.
Import SocketExample.
#[local] Instance closed : SocketNet Toy := toy_world (fun n v => ([], v)) (fun _ => true).
Definition sock0 : Sock (V := Toy) := 0%nat.
Definition udp0 : Udp (V := Toy) := 0%nat.
#[local] Existing Instances plain_order release_build features names no_kb no_tls.

Lemma recv_hangs_after_close_witness :
  (recv 1000 0 5 None None (SocketWitness.one_socket sock0)).1 = OutOfFuel.
Proof.
  apply (recv_hangs_after_close (fun _ => True) (SocketWitness.one_socket sock0) 0 (mkTcp sock0 None [] 8)); try done.
  - intros s t v _. split_and!; eauto.
  - lia.
Defined.

Definition mute : Toy := mkToy [] [] 1 0 true.
Lemma connect_bounded_witness :
  exists e, connect_loop 256 sock0 (V4 1%Z, 80%Z) 10 0 3 mute = (Err e, Nat.iter 3 (tried sock0 (V4 1%Z, 80%Z) 10) mute).
Proof.
  apply (connect_bounded sock0 (V4 1%Z, 80%Z) 10%Z 3%Z mute); [lia|]. intros v. by exists timed_out.
Defined.

Lemma default_transport_panics_witness :
  (open_sock_tcp run_key host 20 80%Z None None None (SocketWitness.one_socket sock0)).1 = Panic.
Proof. by apply (default_transport_panics run_key host 20 80%Z None None (V4 3232235777%Z)). Defined.

Lemma islocalnet_prefix_witness :
  exists w, islocalnet host (SocketWitness.one_socket sock0) = (Ok (3232235777 / 2 ^ (32 - 24) =? 3232235522 / 2 ^ (32 - 24))%Z, w).
Proof.
  eexists. apply (islocalnet_prefix host (SocketWitness.one_socket sock0)
    (mkToy [] [] 2 0 true) (mkToy [] [] 2 0 true) 3232235777%Z 3232235522%Z 24%Z); try lia; vm_compute; reflexivity.
Defined.

Lemma strangers_panic_witness : (udp_read 5 (mkUdp udp0 [] None, mute)).1 = Panic.
Proof.
  apply (strangers_panic (fun _ => True) 5 _ mute (V4 3232235777%Z, 53%Z)); [|done].
  intros v _. split_and!; try done. by eexists _, _.
Defined.

Lemma ftp_answer_read_witness :
  check_ftp_response next_line 2 [230%Z; 331%Z] [line "331-one"; line "331 two"; line "230 three"] = (Ok 331%Z, [line "230 three"]).
Proof.
  apply (ftp_answer_read [230; 331]%Z [line "331-one"] [line "230 three"] (line "331-one") (line "331 two") 331%Z 2);
    try (vm_compute; reflexivity).
  - repeat constructor.
  - apply (proj1 (Nat.leb_le _ _)). reflexivity.
  - constructor; [|done]. intros [_ E]. vm_compute in E. congruence.
  - split; [apply (proj1 (Nat.leb_le _ _))|]; reflexivity.
Defined.
End ClosedWitness.
