(* ===== verification/Ssh.v ===== *)
(** * SSH sessions of scripts

    [nasl/builtin/ssh]: errors ([error.rs]), lists of names ([utils.rs]), the table of
    sessions ([sessions.rs]), the functions of scripts ([mod.rs]) and the two libraries the
    sessions can be built on, [libssh/] and [russh/], as instances of the class [SshBackend]
    that the common functions are written against.  Theorems at the end: which numbers
    sessions get, what connecting and disconnecting change, how output is put together, and
    what the authentications do. *)

From S2P Require Import Prelude RustStr Token Statement NaslValue Errors Register Executor FnArgs StringFns Text Addr Sockets SocketsProps.
Local Open Scope string_scope.

(** ** error.rs *)
Module SshErrorKind.
Inductive t : Type :=
| NewSession | InvalidSessionId | PoisonedLock | Connect | OpenChannel | NoAvailableChannel | ChannelClosed
| RequestSubsystem (s : string) | OpenSession | Close | RequestPty | RequestExec (s : string) | RequestShell
| GetServerPublicKey | GetServerBanner | GetIssueBanner | SetOption (s : string)
| UserAuthKeyboardInteractiveInfo | UserAuthKeyboardInteractive | UserAuthKeyboardInteractiveSetAnswers
| UserAuthPassword | UserAuthNone | UserAuthList | UserAuthTryPublicKey | UserAuthPublicKey | ReadSsh | Sftp
| InvalidIpAddr (a e : string) | NoAuthenticationGiven | ConvertPrivateKey | Unimplemented
| UnexpectedAuthenticationStatus (s : string).
Definition to_string (k : t) : string :=
  match k with
  | NewSession => "Failed to open new SSH session."
  | InvalidSessionId => "Invalid SSH session ID."
  | PoisonedLock => "Poisoned lock."
  | Connect => "Failed to connect."
  | OpenChannel => "Failed to open a new channel."
  | NoAvailableChannel => "No available channel."
  | ChannelClosed => "Channel unexpectedly closed."
  | RequestSubsystem s => "Failed to request subsystem " ++ s ++ "."
  | OpenSession => "Failed to open session."
  | Close => "Failed to close channel."
  | RequestPty => "Failed to request PTY."
  | RequestExec _ => "Failed to request command execution."
  | RequestShell => "Failed to request shell."
  | GetServerPublicKey => "Failed to get server public key."
  | GetServerBanner => "Failed to get server banner."
  | GetIssueBanner => "Failed to get issue banner."
  | SetOption s => "Failed to set SSH option " ++ s ++ "."
  | UserAuthKeyboardInteractiveInfo => "Failed to set authentication to keyboard-interactive."
  | UserAuthKeyboardInteractive => "Failed to initiate keyboard-interactive authentication."
  | UserAuthKeyboardInteractiveSetAnswers => "Failed to set answers for authentication via keyboard-interactive."
  | UserAuthPassword => "Failed to authenticate via password."
  | UserAuthNone => "Failed to perform 'none' authentication."
  | UserAuthList => "Failed to request list of authentication methods."
  | UserAuthTryPublicKey => "Failed to check whether public key authentication is possible"
  | UserAuthPublicKey => "Failed to authenticate with public key."
  | ReadSsh => "Failed to read."
  | Sftp => "Error initiating SFTP."
  | InvalidIpAddr a e => "Failed to parse IP address '" ++ a ++ "' with error " ++ e ++ "."
  | NoAuthenticationGiven => "Attempted to authenticate without authentication data."
  | ConvertPrivateKey => "Error while converting private key"
  | Unimplemented => "Not yet implemented."
  | UnexpectedAuthenticationStatus _ => "Unexpected authentication status"
  end.
End SshErrorKind.

Record SshError := mkSshError { ssh_kind : SshErrorKind.t; ssh_id : option Z; ssh_source : option string }.
Module SshError.
Definition from_kind (k : SshErrorKind.t) : SshError := mkSshError k None None.
Definition with_id (e : SshError) (id : Z) : SshError := mkSshError (ssh_kind e) (Some id) (ssh_source e).
Definition with_source (e : SshError) (s : string) : SshError := mkSshError (ssh_kind e) (ssh_id e) (Some s).
(** [Display for SshError] *)
Definition to_string (e : SshError) : string :=
  SshErrorKind.to_string (ssh_kind e)
  ++ match ssh_id e with Some id => " Session ID: " ++ pretty id ++ "." | None => "" end
  ++ match ssh_source e with Some s => " " ++ s | None => "" end.
(** [From<SshError> for FnError] *)
Definition into (e : SshError) : FnError := FnError.from_kind (Builtin (BuiltinError.Ssh (to_string e))).
End SshError.
(** An error of a session, and one with the text of the library. *)
Definition of_session (k : SshErrorKind.t) (id : Z) : SshError := SshError.with_id (SshError.from_kind k) id.
Definition of_library (k : SshErrorKind.t) (id : Z) (e : string) : SshError := SshError.with_source (of_session k id) e.

(** A call of a library. *)
Definition lib {V E A} (e : string -> E) (f : V -> (A + string) * V) : M V E A :=
  r ← net_call f; match r with inl a => mret a | inr s => throw (e s) end.

(** ** utils.rs *)

(** The names of key types and ciphers that the library knows, and its preferences. *)
Class SshNames := {
  known_key : string -> bool; known_cipher : string -> bool;
  default_keys : list string; default_ciphers : list string
}.
Section Names.
Context `{HashOrder} `{SshNames}.
Definition from_key_name (v : NaslValue.t) : B string :=
  s ← from_string v;
  if known_key s then Ok s else wrong ("Expected a valid SSH key type, found '" ++ s ++ "'").
Definition from_cipher_name (v : NaslValue.t) : B string :=
  s ← from_string v;
  if known_cipher s then Ok s else wrong ("Expected a valid SSH cipher type, found '" ++ s ++ "'").
Definition from_comma_separated {A} (conv : NaslValue.t -> B A) (v : NaslValue.t) : B (list A) :=
  s ← from_string_or_data v;
  collect_values conv (map NaslValue.String (filter (fun x => x <> "") (split_text "," s))).
End Names.

(** ** mod.rs: output of commands *)
Definition DEFAULT_SSH_PORT : Z := 22.
Record Output := mkOutput { stdout : string; stderr : string }.
Definition combine (o : Output) (to_stdout to_stderr compat_mode : bool) : string :=
  (if to_stderr then stderr o else "") ++ (if to_stdout then stdout o else "") ++ (if compat_mode then stderr o else "").

(** [str::from_utf8]: characters above 255, which the strings of the model do not have, are
    shown as question marks. *)
Fixpoint decode_utf8 (l : list byte) : list char :=
  match l with
  | [] => []
  | b0 :: l0 =>
      if in_bytes 0 0x7f b0 then byte_as_char b0 :: decode_utf8 l0
      else if in_bytes 0xc2 0xc3 b0 then
        match l0 with
        | b1 :: l1 => byte_as_char (Z_byte ((byte_Z b0 - 0xc0) * 64 + (byte_Z b1 - 0x80))) :: decode_utf8 l1
        | [] => []
        end
      else if in_bytes 0xc4 0xdf b0 then match l0 with _ :: l1 => "?"%char :: decode_utf8 l1 | [] => [] end
      else if in_bytes 0xe0 0xef b0 then match l0 with _ :: _ :: l2 => "?"%char :: decode_utf8 l2 | _ => [] end
      else match l0 with _ :: _ :: _ :: l3 => "?"%char :: decode_utf8 l3 | _ => [] end
  end.
Definition from_utf8 (l : list byte) : option string :=
  if utf8_valid l then Some (string_of (decode_utf8 l)) else None.

(** ** The libraries *)

(** The flags [AuthMethods] of libssh, some of which the code for russh has too. *)
Inductive AuthMethod := NONE | PASSWORD | PUBLIC_KEY | HOST_BASED | INTERACTIVE.
#[global] Instance AuthMethod_eq_dec : EqDecision AuthMethod.
Proof. solve_decision. Defined.

(** What the common functions need of a session: making one that is connected, ending it,
    running a command and the ways to authenticate. *)
Class SshBackend (V : Type) := {
  Session : Type;
  be_connect : Z -> option Z -> IpAddr -> Z -> list string -> list string -> list string -> option Z -> M V SshError Session;
  (** [None] if an entry is just removed from the table *)
  be_disconnect : option (M (Session * V) SshError unit);
  be_exec : string -> M (Session * V) SshError Output;
  be_allowed : AuthMethod -> M (Session * V) SshError bool;
  be_password : string -> string -> M (Session * V) SshError unit;
  be_interactive : string -> string -> M (Session * V) SshError unit
}.

(** ** sessions.rs and the common functions of mod.rs *)
Definition MIN_SESSION_ID : Z := 9000.
Definition id_range (lo hi : Z) : list Z := map (fun k => lo + Z.of_nat k)%Z (seq 0 (Z.to_nat (hi - lo + 1))).

Section Sessions.
Context `{HashOrder} `{Features} `{BuildProfile} `{SshNames} {V : Type} `{SshBackend V}.
(** The address of the target *)
Context (target_ip : IpAddr).

Record SshWorld := mkSshWorld { sessions : gmap Z Session; ssh_net : V }.
Abbreviation N := (M SshWorld SshError).
Abbreviation C := (M SshWorld FnError).
Definition from_ssh {A} (m : N A) : C A := err_into SshError.into m.
Definition ssh_arg {A} (m : B A) : C A := of_outcome m.

Definition get_by_id (id : Z) : N Session :=
  w ← get;
  ok_or (sessions w !! id) (of_session SshErrorKind.InvalidSessionId id).

(** Code on the session with a number, which is locked meanwhile. *)
Definition on_session {A} (id : Z) (s : Session) (m : M (Session * V) SshError A) : N A := fun w =>
  let '(o, (s', v)) := m (s, ssh_net w) in (o, mkSshWorld (<[id := s']> (sessions w)) v).

Definition next_session_id : N Z :=
  w ← get;
  let taken_ids := elements (dom (sessions w)) in
  match taken_ids with
  | [] => mret MIN_SESSION_ID
  | id :: ids =>
      max_val ← or_panic (arith_i 32 (foldr Z.max id ids + 1));
      r ← or_panic (list_find (fun i => i ∉ taken_ids) (id_range MIN_SESSION_ID max_val));
      mret r.2
  end.
Definition insert_session (id : Z) (s : Session) : N unit :=
  modify (fun w => mkSshWorld (<[id := s]> (sessions w)) (ssh_net w)).
Definition remove_session (id : Z) : N unit :=
  modify (fun w => mkSshWorld (delete id (sessions w)) (ssh_net w)).

Definition on_ssh_net {A} (m : M V SshError A) : N A := fun w =>
  let '(o, v) := m (ssh_net w) in (o, mkSshWorld (sessions w) v).

(** [connect] and [disconnect_and_remove] of the libraries *)
Definition ssh_connect (socket : option Z) (ip : IpAddr) (port : Z) (keytype csciphers scciphers : list string)
  (timeout : option Z) : N Z :=
  id ← next_session_id;
  s ← on_ssh_net (be_connect id socket ip port keytype csciphers scciphers timeout);
  insert_session id s ;;
  mret id.
Definition disconnect_and_remove (id : Z) : N unit :=
  match be_disconnect with
  | Some disconnect => s ← get_by_id id; on_session id s disconnect
  | None => mret tt
  end ;;
  remove_session id.

Definition nasl_ssh_connect (r : Register) : C NaslValue.t :=
  ssh_arg (check_args r ["socket"; "port"; "keytype"; "csciphers"; "scciphers"; "timeout"] [] (Some 0%nat)) ;;
  socket ← ssh_arg (get_optional_named_arg from_i32 r "socket");
  port ← ssh_arg (get_optional_named_arg from_u16 r "port");
  keytype ← ssh_arg (get_optional_named_arg (from_comma_separated from_key_name) r "keytype");
  csciphers ← ssh_arg (get_optional_named_arg (from_comma_separated from_cipher_name) r "csciphers");
  scciphers ← ssh_arg (get_optional_named_arg (from_comma_separated from_cipher_name) r "scciphers");
  timeout ← ssh_arg (get_optional_named_arg from_u64 r "timeout");
  let port : Z := match socket, port with None, Some port => port | _, _ => DEFAULT_SSH_PORT end in
  id ← from_ssh (ssh_connect socket target_ip port (default default_keys keytype) (default default_ciphers csciphers)
    (default default_ciphers scciphers) timeout);
  ssh_arg (to_number id).

Definition request_exec (id : Z) (cmd : string) (stdout stderr : option bool) : N (option string) :=
  session ← get_by_id id;
  if decide (cmd = "") then mret None
  else
    let '(to_stdout, to_stderr, compat_mode) := match stdout, stderr with
      | None, None => (true, false, false)
      | Some false, Some false => (true, false, true)
      | stdout, stderr => (default false stdout, default false stderr, false)
      end in
    o ← on_session id session (be_exec cmd);
    mret (Some (combine o to_stdout to_stderr compat_mode)).
Definition nasl_ssh_request_exec (r : Register) : C NaslValue.t :=
  ssh_arg (check_args r ["cmd"; "stdout"; "stderr"] [] (Some 1%nat)) ;;
  id ← ssh_arg (get_positional_arg from_i32 r 0 1);
  cmd ← ssh_arg (get_named_arg from_string r "cmd");
  stdout ← ssh_arg (get_optional_named_arg from_bool r "stdout");
  stderr ← ssh_arg (get_optional_named_arg from_bool r "stderr");
  o ← from_ssh (request_exec id cmd stdout stderr);
  ssh_arg (to_option to_str o).

(** [result.is_ok()] *)
Definition succeeds_ {W A} (m : M W SshError A) : M W SshError bool :=
  r ← attempt m; mret match r with inl _ => true | inr _ => false end.
(** A method that is allowed and succeeds *)
Definition allowed_and (method : AuthMethod) (auth : M (Session * V) SshError unit) : M (Session * V) SshError bool :=
  allowed ← be_allowed method;
  if allowed : bool then succeeds_ auth else mret false.
Definition userauth (id : Z) (login password privatekey passphrase : option string) : N unit :=
  match password, privatekey, passphrase with
  | None, None, None => throw (of_session SshErrorKind.NoAuthenticationGiven id)
  | _, _, _ =>
      let login := default "" login in
      session ← get_by_id id;
      match password with
      | None => mret tt
      | Some password =>
          on_session id session (
            done ← allowed_and PASSWORD (be_password login password);
            if done : bool then mret tt
            else allowed_and INTERACTIVE (be_interactive login password) ;; mret tt)
      end
  end.
Definition nasl_ssh_userauth (r : Register) : C NaslValue.t :=
  ssh_arg (check_args r ["login"; "password"; "privatekey"; "passphrase"] [] (Some 1%nat)) ;;
  id ← ssh_arg (get_positional_arg from_i32 r 0 1);
  login ← ssh_arg (get_optional_named_arg from_string r "login");
  password ← ssh_arg (get_optional_named_arg from_string r "password");
  privatekey ← ssh_arg (get_optional_named_arg from_string r "privatekey");
  passphrase ← ssh_arg (get_optional_named_arg from_string r "passphrase");
  from_ssh (userauth id login password privatekey passphrase) ;;
  mret NaslValue.Null.

Definition ssh_disconnect (id : Z) : N unit := if (id =? 0)%Z then mret tt else disconnect_and_remove id.
Definition nasl_ssh_disconnect (r : Register) : C NaslValue.t :=
  ssh_arg (check_args r [] [] (Some 1%nat)) ;;
  id ← ssh_arg (get_positional_arg from_i32 r 0 1);
  from_ssh (ssh_disconnect id) ;; mret NaslValue.Null.

Definition SshCommon : FunctionSet SshWorld :=
  list_to_map [("ssh_connect", nasl_ssh_connect); ("ssh_request_exec", nasl_ssh_request_exec);
    ("ssh_userauth", nasl_ssh_userauth); ("ssh_disconnect", nasl_ssh_disconnect)].
End Sessions.

(** ** libssh *)
Inductive AuthStatus := AuthSuccess | AuthDenied | AuthPartial | AuthInfo | AuthAgain.
Inductive LogLevel := NoLogging | LogWarning | LogProtocol | LogPacket | LogFunctions.
Inductive TracingLevel := ERROR | WARN | INFO | DEBUG | TRACE.
Inductive SshOption :=
| OptLogLevel (l : LogLevel) | OptHostname (s : string) | OptKnownHosts (s : option string) | OptTimeout (t : Z)
| OptHostKeys (s : string) | OptCiphersCS (s : string) | OptCiphersSC (s : string) | OptPort (p : Z) | OptSocket (fd : Z)
| OptUser (s : option string).
Record Prompt := mkPrompt { prompt_text : string; prompt_echo : bool }.
(** An error of a read that asks to try again, or another one. *)
Inductive ReadError := TryAgain | ReadFailed.

(** What the code calls of libssh.  [inr] is an error with its text. *)
Class LibSsh (V : Type) := {
  LSession : Type; LChannel : Type; SshKey : Type;
  ssh_new : V -> (LSession + string) * V;
  ssh_set_option : LSession -> SshOption -> V -> (unit + string) * V;
  ssh_do_connect : LSession -> V -> (unit + string) * V;
  ssh_do_disconnect : LSession -> V -> V;
  ssh_raw_fd : LSession -> Z;
  ssh_new_channel : LSession -> V -> (LChannel + string) * V;
  ssh_server_key : LSession -> V -> (SshKey + string) * V;
  ssh_key_hash : SshKey -> option string;
  ssh_server_banner : LSession -> V -> (string + string) * V;
  ssh_issue_banner : LSession -> V -> (string + string) * V;
  ssh_sftp : LSession -> V -> (unit + string) * V;
  ssh_auth_none : LSession -> V -> (AuthStatus + string) * V;
  ssh_auth_list : LSession -> V -> (list AuthMethod + string) * V;
  ssh_auth_password : LSession -> string -> V -> (AuthStatus + string) * V;
  ssh_auth_interactive : LSession -> V -> (AuthStatus + string) * V;
  ssh_interactive_info : LSession -> V -> (list Prompt + string) * V;
  ssh_set_answers : LSession -> list string -> V -> (unit + string) * V;
  ch_open_session : LChannel -> V -> (unit + string) * V;
  ch_subsystem : LChannel -> string -> V -> (unit + string) * V;
  ch_is_closed : LChannel -> V -> bool * V;
  ch_is_eof : LChannel -> V -> bool * V;
  ch_close : LChannel -> V -> (unit + string) * V;
  ch_write_all : LChannel -> list byte -> V -> bool * V;
  ch_request_pty : LChannel -> string -> Z -> Z -> V -> (unit + string) * V;
  ch_request_exec : LChannel -> string -> V -> (unit + string) * V;
  ch_request_shell : LChannel -> V -> (unit + string) * V;
  ch_read_timeout : LChannel -> nat -> bool -> Z -> V -> (list byte + ReadError) * V;
  ch_read_nonblocking : LChannel -> nat -> bool -> V -> (list byte + unit) * V;
  fake_socket : V -> option Z * V;
  option_debug : SshOption -> string;
  status_debug : AuthStatus -> string;
  (** [LevelFilter::current] *)
  tracing_level : option TracingLevel
}.

Section Libssh.
Context {V : Type} `{LibSsh V} (fuel : nat).

Record Channel := mkChannel { ch_channel : LChannel; ch_session : Z }.
Record LibSession := mkLibSession {
  ls_id : Z; ls_session : LSession; ls_authmethods : option (list AuthMethod); ls_user_set : bool;
  ls_channel : option Channel
}.
Abbreviation L := (M (LibSession * V) SshError).

Definition get_log_level : LogLevel :=
  match tracing_level with
  | None => NoLogging
  | Some ERROR | Some WARN => LogWarning
  | Some INFO => LogProtocol
  | Some DEBUG => LogPacket
  | Some TRACE => LogFunctions
  end.
Definition to_comma_separated_string (items : list string) : option string :=
  match items with [] => None | _ => Some (join_text "," items) end.

(** Code that only uses the world, and a method of the library on the session: the macro
    [inherit_method]. *)
Definition world {A} (m : M V SshError A) : L A := fun '(s, v) => let '(o, v') := m v in (o, (s, v')).
Definition inherit {A} (k : SshErrorKind.t) (f : LSession -> V -> (A + string) * V) : L A :=
  s ← gets fst; world (lib (of_library k (ls_id s)) (f (ls_session s))).

(** *** channel.rs *)
Definition on_channel {A} (k : SshErrorKind.t) (c : Channel) (f : LChannel -> V -> (A + string) * V) : M V SshError A :=
  lib (of_library k (ch_session c)) (f (ch_channel c)).
Definition ensure_open (c : Channel) : M V SshError unit :=
  closed ← net_call (ch_is_closed (ch_channel c));
  if closed : bool then throw (of_session SshErrorKind.ChannelClosed (ch_session c)) else mret tt.
Definition buf_as_str (c : Channel) (buf : list byte) : M V SshError string :=
  ok_or (from_utf8 buf) (of_session SshErrorKind.ReadSsh (ch_session c)).
Fixpoint read_timeout (fuel : nat) (c : Channel) (timeout : Z) (stderr : bool) (response : string) : M V SshError string :=
  match fuel with
  | 0 => out_of_fuel
  | S fuel =>
      r ← net_call (ch_read_timeout (ch_channel c) 4096 stderr timeout);
      match r with
      | inl [] => mret response
      | inl buf => s ← buf_as_str c buf; read_timeout fuel c timeout stderr (response ++ s)
      | inr TryAgain => read_timeout fuel c timeout stderr response
      | inr ReadFailed => throw (of_session SshErrorKind.ReadSsh (ch_session c))
      end
  end.
Definition read_ssh_blocking (c : Channel) (timeout : Z) : M V SshError string :=
  stderr ← read_timeout fuel c timeout true "";
  stdout ← read_timeout fuel c timeout false "";
  mret (stderr ++ stdout).
Definition read_nonblocking (c : Channel) (stderr : bool) : M V SshError string :=
  r ← net_call (ch_read_nonblocking (ch_channel c) 4096 stderr);
  match r with inl buf => buf_as_str c buf | inr _ => throw (of_session SshErrorKind.ReadSsh (ch_session c)) end.
Definition read_ssh_nonblocking (c : Channel) : M V SshError string :=
  closed ← net_call (ch_is_closed (ch_channel c));
  eof ← (if closed : bool then mret true else net_call (ch_is_eof (ch_channel c)));
  if eof : bool then throw (of_session SshErrorKind.ReadSsh (ch_session c))
  else
    stderr ← read_nonblocking c true;
    stdout ← read_nonblocking c false;
    mret (stderr ++ stdout).

(** *** session.rs *)
Definition session_new (id : Z) : M V SshError LibSession :=
  s ← lib (SshError.with_source (SshError.from_kind SshErrorKind.NewSession)) ssh_new;
  mret (mkLibSession id s None false None).
Definition new_channel : L Channel :=
  s ← gets fst;
  c ← inherit SshErrorKind.OpenChannel ssh_new_channel;
  mret (mkChannel c (ls_id s)).
Definition set_channel (c : option Channel) : L unit :=
  modify (fun '(s, v) => (mkLibSession (ls_id s) (ls_session s) (ls_authmethods s) (ls_user_set s) c, v)).
Definition get_channel : L Channel :=
  s ← gets fst;
  ok_or (ls_channel s) (of_session SshErrorKind.NoAvailableChannel (ls_id s)).
Definition set_option (o : SshOption) : L unit :=
  inherit (SshErrorKind.SetOption (option_debug o)) (fun s => ssh_set_option s o).
Definition session_close : L unit :=
  s ← gets fst;
  match ls_channel s with
  | Some c => _ ← attempt (world (on_channel SshErrorKind.Close c ch_close)); mret tt
  | None => mret tt
  end ;;
  set_channel None.
Definition set_opt_user (login : option string) : L unit := set_option (OptUser login).
Definition ensure_user_set (login : option string) : L unit :=
  s ← gets fst; if ls_user_set s then mret tt else set_opt_user login.
Definition request_ssh_shell (c : Channel) (pty : bool) : M V SshError unit :=
  if pty then on_channel SshErrorKind.RequestPty c (fun ch => ch_request_pty ch "xterm" 80 24)
  else on_channel SshErrorKind.RequestShell c ch_request_shell.
Definition open_shell (pty : bool) : L unit :=
  c ← new_channel;
  world (on_channel SshErrorKind.OpenSession c ch_open_session) ;;
  world (request_ssh_shell c pty) ;;
  set_channel (Some c).
Definition session_disconnect : L unit :=
  s ← gets fst;
  match ls_channel s with
  | Some c => world (on_channel SshErrorKind.Close c ch_close)
  | None => mret tt
  end ;;
  modify (fun '(s, v) => (s, ssh_do_disconnect (ls_session s) v)).
Definition exec_ssh_cmd (cmd : string) : L Output :=
  c ← new_channel;
  world (on_channel SshErrorKind.OpenSession c ch_open_session) ;;
  world (on_channel SshErrorKind.RequestPty c (fun ch => ch_request_pty ch "xterm" 80 24)) ;;
  world (on_channel (SshErrorKind.RequestExec cmd) c (fun ch => ch_request_exec ch cmd)) ;;
  stderr ← world (read_timeout fuel c 15 true "");
  stdout ← world (read_timeout fuel c 15 false "");
  mret (mkOutput stdout stderr).
Definition get_authmethods : L (list AuthMethod) :=
  status ← inherit SshErrorKind.UserAuthNone ssh_auth_none;
  methods ← match status with
    | AuthSuccess => mret [NONE]
    | _ =>
        l ← attempt (inherit SshErrorKind.UserAuthList ssh_auth_list);
        mret match l with inl l => l | inr _ => [HOST_BASED; INTERACTIVE; NONE; PASSWORD; PUBLIC_KEY] end
    end;
  modify (fun '(s, v) => (mkLibSession (ls_id s) (ls_session s) (Some methods) (ls_user_set s) (ls_channel s), v)) ;;
  mret methods.
Definition get_authmethods_cached : L (list AuthMethod) :=
  s ← gets fst; match ls_authmethods s with Some l => mret l | None => get_authmethods end.
Definition auth_method_allowed (method : AuthMethod) : L bool :=
  l ← get_authmethods_cached; mret (bool_decide (method ∈ l)).
Definition auth_password (login password : string) : L unit :=
  ensure_user_set (Some login) ;;
  s ← gets fst;
  status ← inherit SshErrorKind.UserAuthPassword (fun x => ssh_auth_password x password);
  match status with
  | AuthSuccess => mret tt
  | _ => throw (of_session SshErrorKind.UserAuthPassword (ls_id s))
  end.
(** The answers to the prompts: the password where the input is not shown. *)
Definition hidden_answers (password : string) (l : list Prompt) : list string :=
  map (fun p => if prompt_echo p then "" else password) l.
Fixpoint interactive_loop (turns : nat) (password : string) : L unit :=
  match turns with
  | 0 => out_of_fuel
  | S turns =>
      s ← gets fst;
      response ← inherit SshErrorKind.UserAuthKeyboardInteractive ssh_auth_interactive;
      match response with
      | AuthInfo =>
          prompts ← inherit SshErrorKind.UserAuthKeyboardInteractiveInfo ssh_interactive_info;
          r ← attempt (inherit SshErrorKind.UserAuthKeyboardInteractiveSetAnswers
                (fun x => ssh_set_answers x (hidden_answers password prompts)));
          match r with
          | inl _ => mret tt
          | inr _ => throw (of_session SshErrorKind.UserAuthKeyboardInteractive (ls_id s))
          end
      | _ => interactive_loop turns password
      end
  end.
Definition auth_keyboard_interactive (login password : string) : L unit :=
  ensure_user_set (Some login) ;; interactive_loop fuel password.

(** *** libssh/mod.rs *)
Definition try_connect (socket : option Z) (ip : IpAddr) (port : Z) (keytype csciphers scciphers : list string)
  (timeout : option Z) : L unit :=
  let optional {A} (o : option A) (f : A -> SshOption) : L unit := match o with Some a => set_option (f a) | None => mret tt end in
  set_option (OptLogLevel get_log_level) ;;
  set_option (OptHostname (ip_to_string ip)) ;;
  set_option (OptKnownHosts (Some "/dev/null")) ;;
  optional timeout OptTimeout ;;
  optional (to_comma_separated_string keytype) OptHostKeys ;;
  optional (to_comma_separated_string csciphers) OptCiphersCS ;;
  optional (to_comma_separated_string scciphers) OptCiphersSC ;;
  set_option (OptPort port) ;;
  match socket with
  | Some _ =>
      fd ← world (net_call fake_socket);
      fd ← or_panic fd;
      set_option (OptSocket fd)
  | None => mret tt
  end ;;
  inherit SshErrorKind.Connect ssh_do_connect.
(** The session after code on it. *)
Definition run_in {A} (session : LibSession) (m : L A) : M V SshError LibSession := fun v =>
  let '(o, (s, v')) := m (session, v) in
  (match o with Ok _ => Ok s | Err e => Err e | Panic => Panic | OutOfFuel => OutOfFuel end, v').
Definition lib_connect (id : Z) (socket : option Z) (ip : IpAddr) (port : Z) (keytype csciphers scciphers : list string)
  (timeout : option Z) : M V SshError LibSession :=
  session ← session_new id;
  run_in session (
    r ← attempt (try_connect socket ip port keytype csciphers scciphers timeout);
    match r with inl _ => mret tt | inr e => session_disconnect ;; throw e end).

#[global] Instance libssh : SshBackend V := {|
  Session := LibSession; be_connect := lib_connect; be_disconnect := Some session_disconnect; be_exec := exec_ssh_cmd;
  be_allowed := auth_method_allowed; be_password := auth_password; be_interactive := auth_keyboard_interactive
|}.
End Libssh.

(** ** The functions that need libssh *)
Section LibsshFunctions.
Context `{HashOrder} `{Features} `{BuildProfile} `{SshNames} {V : Type} `{LibSsh V} (fuel : nat) (target_ip : IpAddr).
(** The order in which the numbers of the sessions are visited *)
Context (ids : gset Z -> list Z).
#[local] Existing Instance libssh.
#[local] Instance backend : SshBackend V := libssh fuel.
Abbreviation W := (SshWorld (V := V)).
Abbreviation N := (M W SshError).
Abbreviation C := (M W FnError).
Definition in_session {A} (id : Z) (m : M (LibSession * V) SshError A) : N A :=
  s ← get_by_id id; on_session id s m.

Fixpoint find_id (f : LibSession -> bool) (l : list Z) : N (option Z) :=
  match l with
  | [] => mret None
  | id :: l' =>
      session ← get_by_id id;
      if f session then mret (Some (ls_id session)) else find_id f l'
  end.
Definition session_id_from_sock (socket : Z) : N (option Z) :=
  w ← get; find_id (fun s => (ssh_raw_fd (ls_session s) =? socket)%Z) (ids (dom (sessions w))).
Definition get_sock (id : Z) : N Z := s ← get_by_id id; mret (ssh_raw_fd (ls_session s)).
Definition shell_open (id : Z) (pty : option bool) : N Z :=
  in_session id (open_shell (default true pty) ;; s ← gets fst; mret (ls_id s)).
Definition shell_read (id : Z) (timeout : option Z) : N string :=
  let timeout := default 0%Z timeout in
  in_session id (
    channel ← get_channel;
    world (ensure_open channel) ;;
    world (if (0 <? timeout)%Z then read_ssh_blocking fuel channel timeout else read_ssh_nonblocking channel)).
Definition shell_write (id : Z) (cmd : string) : N Z :=
  in_session id (
    channel ← get_channel;
    world (ensure_open channel) ;;
    ok ← world (net_call (ch_write_all (ch_channel channel) (as_bytes (chars_of cmd))));
    mret (if ok : bool then 0 else -1)%Z).

(** The prompt of the last question whose answer is not shown *)
Definition hidden_prompt (l : list Prompt) : string :=
  foldl (fun acc p => if prompt_echo p then acc else prompt_text p) "" l.
Fixpoint prompt_loop (turns : nat) : M (LibSession * V) SshError string :=
  match turns with
  | 0 => out_of_fuel
  | Datatypes.S turns =>
      status ← inherit SshErrorKind.UserAuthKeyboardInteractive ssh_auth_interactive;
      match status with
      | AuthInfo =>
          prompts ← inherit SshErrorKind.UserAuthKeyboardInteractiveInfo ssh_interactive_info;
          mret (hidden_prompt prompts)
      | _ => prompt_loop turns
      end
  end.
Definition login_interactive (id : Z) (login : option string) : N (option string) :=
  in_session id (
    ensure_user_set login ;;
    methods ← get_authmethods_cached;
    if bool_decide (INTERACTIVE ∈ methods) then prompt ← prompt_loop fuel; mret (Some prompt) else mret None).

(** The answers of [ssh_login_interactive_pass] *)
Definition shown_answers (password : string) (l : list Prompt) : list string :=
  map (fun p => if prompt_echo p then password else "") l.
(** [None] is the end of the dialog; a status is one that was not expected. *)
Fixpoint pass_loop (turns : nat) : M (LibSession * V) SshError (option AuthStatus) :=
  match turns with
  | 0 => out_of_fuel
  | Datatypes.S turns =>
      status ← inherit SshErrorKind.UserAuthKeyboardInteractive ssh_auth_interactive;
      match status with
      | AuthInfo =>
          r ← attempt (inherit SshErrorKind.UserAuthKeyboardInteractiveInfo ssh_interactive_info);
          match r with inl _ => pass_loop turns | inr _ => panic end
      | AuthSuccess => mret None
      | status => mret (Some status)
      end
  end.
Definition login_interactive_pass (id : Z) (password : string) : C unit :=
  r ← from_ssh (in_session id (
    prompts ← inherit SshErrorKind.UserAuthKeyboardInteractiveInfo ssh_interactive_info;
    inherit SshErrorKind.UserAuthKeyboardInteractiveSetAnswers (fun x => ssh_set_answers x (shown_answers password prompts)) ;;
    pass_loop fuel));
  match r with
  | None => mret tt
  | Some status =>
      throw (FnError.with_return_value
        (SshError.into (of_session (SshErrorKind.UnexpectedAuthenticationStatus (status_debug status)) id)) (NaslValue.Number (-1)))
  end.
(** [result.ok()] *)
Definition to_ok {X E A} (m : M X E A) : M X E (option A) :=
  r ← attempt m; mret match r with inl a => Some a | inr _ => None end.
Definition issue_banner (id : Z) : N (option string) :=
  in_session id (
    ensure_user_set None ;; get_authmethods_cached ;;
    to_ok (inherit SshErrorKind.GetIssueBanner ssh_issue_banner)).
Definition server_banner (id : Z) : N (option string) :=
  in_session id (to_ok (inherit SshErrorKind.GetServerBanner ssh_server_banner)).
Definition auth_methods (id : Z) : N (option string) :=
  in_session id (
    ensure_user_set None ;;
    l ← get_authmethods_cached;
    let methods := omap (fun x => if decide (x.1 ∈ l) then Some x.2 else None)
      [(NONE, "none"); (PASSWORD, "password"); (PUBLIC_KEY, "publickey"); (HOST_BASED, "hostbased");
       (INTERACTIVE, "keyboard-interactive")] in
    mret match methods with [] => None | _ => Some (join_text "," methods) end).
Definition host_key (id : Z) : N (option string) :=
  in_session id (key ← inherit SshErrorKind.GetServerPublicKey ssh_server_key; mret (ssh_key_hash key)).
Definition sftp_enabled_check (id : Z) : N Z :=
  in_session id (r ← attempt (inherit SshErrorKind.Sftp ssh_sftp); mret match r with inl _ => 0%Z | inr _ => 1%Z end).
Definition execute_netconf_subsystem (id : Z) : N Z :=
  in_session id (
    c ← new_channel;
    world (on_channel SshErrorKind.OpenSession c ch_open_session) ;;
    world (lib (fun e => SshError.with_id (SshError.with_source (SshError.from_kind (SshErrorKind.RequestSubsystem "netconf")) e) (ch_session c))
      (ch_subsystem (ch_channel c) "netconf")) ;;
    set_channel (Some c)) ;;
  mret id.

(** *** As functions of scripts *)
Definition session_fn {A} (to : A -> B NaslValue.t) (f : Z -> N A) (r : Register) : C NaslValue.t :=
  ssh_arg (check_args r [] [] (Some 1%nat)) ;;
  id ← ssh_arg (get_positional_arg from_i32 r 0 1);
  a ← from_ssh (f id);
  ssh_arg (to a).
Definition login_fn {A} (to : A -> B NaslValue.t) (f : Z -> option string -> N A) (r : Register) : C NaslValue.t :=
  ssh_arg (check_args r ["login"] [] (Some 1%nat)) ;;
  id ← ssh_arg (get_positional_arg from_i32 r 0 1);
  login ← ssh_arg (get_optional_named_arg from_string r "login");
  a ← from_ssh (f id login);
  ssh_arg (to a).
Definition shell_open_fn (r : Register) : C NaslValue.t :=
  ssh_arg (check_args r ["pty"] [] (Some 1%nat)) ;;
  id ← ssh_arg (get_positional_arg from_i32 r 0 1);
  pty ← ssh_arg (get_optional_named_arg from_bool r "pty");
  id ← from_ssh (shell_open id pty);
  ssh_arg (to_number id).
Definition shell_read_fn (r : Register) : C NaslValue.t :=
  ssh_arg (check_args r [] [] (Some 2%nat)) ;;
  id ← ssh_arg (get_positional_arg from_i32 r 0 1);
  timeout ← ssh_arg (get_optional_positional_arg (from_maybe from_u64) r 1);
  s ← from_ssh (shell_read id (as_option timeout));
  ssh_arg (to_str s).
Definition shell_write_fn (r : Register) : C NaslValue.t :=
  ssh_arg (check_args r [] [] (Some 2%nat)) ;;
  id ← ssh_arg (get_positional_arg from_i32 r 0 2);
  cmd ← ssh_arg (get_positional_arg from_string_or_data r 1 2);
  n ← from_ssh (shell_write id cmd);
  ssh_arg (to_number n).
Definition login_interactive_pass_fn (r : Register) : C NaslValue.t :=
  ssh_arg (check_args r ["password"] [] (Some 1%nat)) ;;
  id ← ssh_arg (get_positional_arg from_i32 r 0 1);
  password ← ssh_arg (get_named_arg from_string r "password");
  login_interactive_pass id password ;; mret NaslValue.Null.

Definition SshFunctions : FunctionSet W :=
  SshCommon target_ip ∪
  list_to_map [("ssh_session_id_from_sock", session_fn (to_option to_number) session_id_from_sock);
    ("ssh_get_sock", session_fn to_number get_sock);
    ("ssh_set_login", login_fn to_unit (fun id login => in_session id (set_opt_user login)));
    ("ssh_shell_open", shell_open_fn); ("ssh_shell_read", shell_read_fn); ("ssh_shell_write", shell_write_fn);
    ("ssh_shell_close", session_fn to_unit (fun id => in_session id session_close));
    ("ssh_login_interactive", login_fn (to_option to_str) login_interactive);
    ("ssh_login_interactive_pass", login_interactive_pass_fn);
    ("ssh_get_issue_banner", session_fn (to_option to_str) issue_banner);
    ("ssh_get_server_banner", session_fn (to_option to_str) server_banner);
    ("ssh_get_auth_methods", session_fn (to_option to_str) auth_methods);
    ("ssh_get_host_key", session_fn (to_option to_str) host_key);
    ("sftp_enabled_check", session_fn to_number sftp_enabled_check);
    ("ssh_execute_netconf_subsystem", session_fn to_number execute_netconf_subsystem)].
End LibsshFunctions.

(** ** russh *)
Inductive ChannelMsg := MsgData (d : list byte) | MsgExtendedData (d : list byte) | MsgExitStatus (code : Z) | MsgOther.
Inductive InteractiveResponse := ResponseSuccess | ResponseFailure | InfoRequest (prompts : list Prompt).
Record RuConfig := mkRuConfig { inactivity_timeout : option Z; preferred_key : list string; preferred_cipher : list string }.

Class RuSsh (V : Type) := {
  Handle : Type; RuChannel : Type;
  ru_connect : RuConfig -> IpAddr -> Z -> V -> (Handle + string) * V;
  ru_open_session : Handle -> V -> (RuChannel + string) * V;
  ru_exec : RuChannel -> string -> V -> (unit + string) * V;
  ru_wait : RuChannel -> V -> option ChannelMsg * V;
  ru_eof : RuChannel -> V -> (unit + string) * V;
  ru_password : Handle -> string -> string -> V -> (bool + string) * V;
  ru_interactive : Handle -> string -> V -> (InteractiveResponse + string) * V;
  ru_respond : Handle -> list string -> V -> (InteractiveResponse + string) * V
}.

Section Russh.
Context {V : Type} `{RuSsh V} (fuel : nat).
Record RuSession := mkRuSession { ru_id : Z; ru_handle : Handle }.

(** The ciphers for the one direction that are also in the other list *)
Definition construct_preferred (keytype csciphers scciphers : list string) (timeout : option Z) : RuConfig :=
  mkRuConfig timeout keytype (filter (fun cs => cs ∈ scciphers) csciphers).
Definition ru_new (id : Z) (socket : option Z) (ip : IpAddr) (port : Z) (keytype csciphers scciphers : list string)
  (timeout : option Z) : M V SshError RuSession :=
  match socket with
  | Some _ => throw (of_session SshErrorKind.Unimplemented id)
  | None =>
      s ← lib (of_library SshErrorKind.Connect id) (ru_connect (construct_preferred keytype csciphers scciphers timeout) ip port);
      mret (mkRuSession id s)
  end.

Fixpoint wait_loop (turns : nat) (channel : RuChannel) (stdout stderr : string) : M V string Output :=
  match turns with
  | 0 => out_of_fuel
  | S turns =>
      msg ← net_call (ru_wait channel);
      match msg with
      | None => mret (mkOutput stdout stderr)
      | Some (MsgData data) => wait_loop turns channel (stdout ++ bytes_to_str data) stderr
      | Some (MsgExtendedData data) => wait_loop turns channel stdout (stderr ++ bytes_to_str data)
      | Some (MsgExitStatus _) => lib (fun e => e) (ru_eof channel) ;; wait_loop turns channel stdout stderr
      | Some MsgOther => wait_loop turns channel stdout stderr
      end
  end.
Definition ru_call (s : RuSession) (command : string) : M V string Output :=
  channel ← lib (fun e => e) (ru_open_session (ru_handle s));
  lib (fun e => e) (ru_exec channel command) ;;
  wait_loop fuel channel "" "".

Definition with_handle {A} (m : RuSession -> M V SshError A) : M (RuSession * V) SshError A := fun '(s, v) =>
  let '(o, v') := m s v in (o, (s, v')).
Definition ru_exec_ssh_cmd (command : string) : M (RuSession * V) SshError Output :=
  with_handle (fun s => err_into (of_library (SshErrorKind.RequestExec command) (ru_id s)) (ru_call s command)).
Definition ru_auth_password (login password : string) : M (RuSession * V) SshError unit :=
  with_handle (fun s =>
    lib (fun _ => of_session SshErrorKind.UserAuthPassword (ru_id s)) (ru_password (ru_handle s) login password) ;; mret tt).
Definition ru_auth_keyboard_interactive (login password : string) : M (RuSession * V) SshError unit :=
  with_handle (fun s =>
    let make_err := of_session SshErrorKind.UserAuthKeyboardInteractive (ru_id s) in
    response ← lib (fun _ => make_err) (ru_interactive (ru_handle s) login);
    match response with
    | ResponseSuccess => mret tt
    | ResponseFailure => throw make_err
    | InfoRequest prompts =>
        lib (fun _ => make_err) (ru_respond (ru_handle s) (hidden_answers password prompts)) ;; mret tt
    end).

#[global] Instance russh : SshBackend V := {|
  Session := RuSession; be_connect := ru_new; be_disconnect := None; be_exec := ru_exec_ssh_cmd;
  be_allowed := fun _ => mret true; be_password := ru_auth_password; be_interactive := ru_auth_keyboard_interactive
|}.
End Russh.

(** ** Theorems *)

(** *** Lists of names *)

Lemma filter_keeps {A} (P : A -> Prop) `{forall x, Decision (P x)} (l : list A) : Forall P l -> filter P l = l.
Proof. induction 1 as [|x l Hx Hl IH]; [done|]. by rewrite filter_cons_True, IH. Qed.

Lemma collect_known `{SshNames} (names : list string) : Forall (fun n => known_key n = true) names ->
  collect_values from_key_name (map NaslValue.String names) = Ok names.
Proof.
  assert (forall n, known_key n = true -> from_key_name (NaslValue.String n) = Ok n) as Hkey.
  { intros n Hk. unfold from_key_name. cbn. by rewrite Hk. }
  induction 1 as [|n names Hn Hs IH]; [done|]. cbn [map collect_values]. rewrite Hkey by done. cbn. by rewrite IH.
Qed.

(** A list of known names that is written with commas is read back. *)
Theorem comma_separated_roundtrip `{HashOrder} `{SshNames} (names : list string) :
  Forall (fun n => n <> "" /\ ","%char ∉ chars_of n /\ known_key n = true) names ->
  from_comma_separated from_key_name (NaslValue.String (join_text "," names)) = Ok names.
Proof.
  intros Hn. unfold from_comma_separated. cbn [from_string_or_data mbind outcome_bind].
  assert (filter (fun x => x <> "") (split_text "," (join_text "," names)) = names) as ->.
  - destruct names as [|n names]; [reflexivity|]. rewrite split_text_join; [|done|].
    + apply filter_keeps. eapply Forall_impl; [exact Hn|]. by intros x (Hx & _).
    + eapply Forall_impl; [exact Hn|]. by intros x (_ & Hx & _).
  - apply collect_known. eapply Forall_impl; [exact Hn|]. by intros x (_ & _ & Hx).
Qed.

(** *** Numbers of sessions *)
Lemma id_range_lookup lo hi i x : id_range lo hi !! i = Some x <-> x = (lo + Z.of_nat i)%Z /\ (lo + Z.of_nat i <= hi)%Z.
Proof.
  unfold id_range. rewrite list_lookup_fmap. destruct (decide (i < Z.to_nat (hi - lo + 1))%nat) as [Hi|Hi].
  - rewrite lookup_seq_lt by done. simpl. split; [intros [= <-]; lia|intros [-> _]; done].
  - rewrite lookup_seq_ge by lia. simpl. split; [done|lia].
Qed.

Lemma foldr_max_ge ids a x : x = a \/ x ∈ ids -> (x <= foldr Z.max a ids)%Z.
Proof. induction ids as [|y ids IH]; intros Hx; simpl; set_unfold; [lia|]. destruct Hx as [->|[->|Hx]]; [|lia|]; [pose proof (IH (or_introl eq_refl))|pose proof (IH (or_intror Hx))]; lia. Qed.
Lemma foldr_max_in ids a : foldr Z.max a ids = a \/ foldr Z.max a ids ∈ ids.
Proof.
  induction ids as [|y ids IH]; simpl; [by left|]. destruct (Z.max_spec y (foldr Z.max a ids)) as [[_ ->]|[_ ->]].
  - destruct IH as [->|IH]; [by left|right]. set_solver.
  - right. set_solver.
Qed.

Section SessionTheorems.
Context `{HashOrder} `{Features} `{BuildProfile} `{SshNames} {V : Type} `{SshBackend V} (target_ip : IpAddr).
Abbreviation SW := (SshWorld (V := V)).

(** The number of the next session is the least one from 9000 on that is not in use. *)
Theorem next_session_id_least (w : SW) :
  (forall id, id ∈ dom (sessions w) -> MIN_SESSION_ID <= id < 2 ^ 31 - 1)%Z ->
  exists id, next_session_id w = (Ok id, w) /\ id ∉ dom (sessions w) /\ (MIN_SESSION_ID <= id)%Z
    /\ (forall j, MIN_SESSION_ID <= j < id -> j ∈ dom (sessions w))%Z.
Proof.
  intros Hw. unfold next_session_id, get, mbind, M_bind. cbn. pose proof (elem_of_elements (dom (sessions w))) as He.
  destruct (elements (dom (sessions w))) as [|id ids] eqn:E.
  - exists MIN_SESSION_ID. split; [done|]. split_and!; [|done|lia]. rewrite <- He. set_solver.
  - set (top := foldr Z.max id ids). assert (forall x, x ∈ dom (sessions w) -> (x <= top)%Z) as Htop.
    { intros x Hx. apply foldr_max_ge. rewrite <- He in Hx. set_solver. }
    assert (top ∈ dom (sessions w)) as Hin.
    { rewrite <- He. destruct (foldr_max_in ids id) as [Ht|Ht]; unfold top; [rewrite Ht|]; set_solver. }
    pose proof (Hw top Hin) as Hrange. assert (MIN_SESSION_ID = 9000)%Z as Hmin by done. unfold arith_i. rewrite (proj2 (in_i_spec 32 (top + 1))) by (simpl; lia). cbn.
    destruct (list_find _ (id_range _ _)) as [[k x]|] eqn:Ef.
    + apply list_find_Some in Ef as (Hk & Hx & Hbefore). apply id_range_lookup in Hk as [-> Hk]. exists (MIN_SESSION_ID + Z.of_nat k)%Z.
      split; [done|]. split_and!; [by rewrite <- He|lia|]. intros j Hj.
      destruct (decide (j ∈ id :: ids)) as [Hin'|Hno]; [by rewrite <- He|]. exfalso.
      apply (Hbefore (Z.to_nat (j - MIN_SESSION_ID)) j); [|lia|done]. apply id_range_lookup. lia.
    + exfalso. apply list_find_None in Ef. rewrite Forall_forall in Ef. apply (Ef (top + 1)%Z).
      * apply list_elem_of_lookup. exists (Z.to_nat (top + 1 - MIN_SESSION_ID)). apply id_range_lookup. lia.
      * intros Hin'. rewrite He in Hin'. specialize (Htop _ Hin'). lia.
Qed.

Lemma next_session_id_run (w : SW) : exists o, next_session_id w = (o, w)
  /\ match o with Ok id => id ∉ dom (sessions w) /\ (MIN_SESSION_ID <= id)%Z | _ => True end.
Proof.
  unfold next_session_id, get, mbind, M_bind. cbn. pose proof (elem_of_elements (dom (sessions w))) as He.
  destruct (elements (dom (sessions w))) as [|id ids] eqn:E.
  - eexists. split; [done|]. cbn. split; [|done]. rewrite <- He. set_solver.
  - destruct (arith_i _ _); cbn; [|by eexists]. destruct (list_find _ _) as [[k x]|] eqn:Ef; cbn; [|by eexists].
    apply list_find_Some in Ef as (Hk & Hx & _). apply id_range_lookup in Hk as [-> _]. eexists. split; [done|]. cbn.
    split; [by rewrite <- He|lia].
Qed.

(** Connecting gives a number that was not in use and adds this session only; if it fails,
    whatever the library does, the table stays as it was. *)
Theorem ssh_connect_isolated (w : SW) (socket : option Z) (ip : IpAddr) (port : Z) (keys cs sc : list string) (timeout : option Z) :
  let '(o, w') := ssh_connect socket ip port keys cs sc timeout w in
  match o with
  | Ok id => sessions w !! id = None /\ (MIN_SESSION_ID <= id)%Z /\ exists s, sessions w' = <[id := s]> (sessions w)
  | _ => sessions w' = sessions w
  end.
Proof.
  unfold ssh_connect. unfold mbind at 1, M_bind at 1. destruct (next_session_id_run w) as (o & -> & Ho).
  destruct o as [id|e| |]; try done. destruct Ho as [Hid Hmin]. unfold mbind, M_bind, on_ssh_net.
  destruct (be_connect id socket ip port keys cs sc timeout (ssh_net w)) as [[s|e| |] v]; cbn; try done.
  split; [by apply not_elem_of_dom|]. split; [done|]. by exists s.
Qed.

Lemma get_by_id_found (w : SW) id s : sessions w !! id = Some s -> get_by_id id w = (Ok s, w).
Proof. intros Hs. unfold get_by_id, get, mbind, M_bind. by rewrite Hs. Qed.
Lemma get_by_id_cases (w : SW) id :
  (exists s, sessions w !! id = Some s /\ get_by_id id w = (Ok s, w)) \/ exists e, get_by_id id w = (Err e, w).
Proof. unfold get_by_id, get, mbind, M_bind. destruct (sessions w !! id) as [s|]; [left; by exists s|right; by eexists]. Qed.
Lemma on_session_run {A} (w : SW) id s (m : M (Session * V) SshError A) o s' v : m (s, ssh_net w) = (o, (s', v)) ->
  on_session id s m w = (o, mkSshWorld (<[id := s']> (sessions w)) v).
Proof. intros Hm. unfold on_session. by rewrite Hm. Qed.
Lemma userauth_second (w : SW) id s login password key pass x : sessions w !! id = Some s ->
  allowed_and PASSWORD (be_password login password) (s, ssh_net w) = (Ok false, x) ->
  (allowed_and INTERACTIVE (be_interactive login password) x).1 = OutOfFuel ->
  (userauth id (Some login) (Some password) key pass w).1 = OutOfFuel.
Proof.
  intros Hs Hfirst Hsecond. unfold userauth, mbind, M_bind. rewrite (get_by_id_found w id s) by done. unfold on_session. cbn [from_option Datatypes.id]. cbn beta.
  rewrite Hfirst. by destruct (allowed_and INTERACTIVE _ x) as [o [s' v2]]; cbn in *; subst o.
Qed.
End SessionTheorems.

(** *** Output of commands over russh *)
Lemma text_nil_r (s : string) : s ++ "" = s.
Proof. induction s as [|c s IH]; [done|]. change (String c (s ++ "") = String c s). congruence. Qed.
Lemma text_assoc (a b c : string) : a ++ b ++ c = (a ++ b) ++ c.
Proof. induction a as [|x a IH]; [done|]. change (String x (a ++ b ++ c) = String x ((a ++ b) ++ c)). congruence. Qed.

Section RusshTheorems.
Context `{HashOrder} `{Features} `{BuildProfile} `{SshNames} {V : Type} `{RuSsh V}.

(** The messages that come on a channel until its end; after an exit status the code sends
    the end of its own input. *)
Inductive messages (c : RuChannel) : V -> list ChannelMsg -> V -> Prop :=
| messages_end v v' : ru_wait c v = (None, v') -> messages c v [] v'
| messages_exit v v1 v2 v' code l :
    ru_wait c v = (Some (MsgExitStatus code), v1) -> ru_eof c v1 = (inl tt, v2) -> messages c v2 l v' ->
    messages c v (MsgExitStatus code :: l) v'
| messages_other v v1 v' m l :
    ru_wait c v = (Some m, v1) -> match m with MsgExitStatus _ => False | _ => True end -> messages c v1 l v' ->
    messages c v (m :: l) v'.
Definition text_of (pick : ChannelMsg -> option (list byte)) (l : list ChannelMsg) : string :=
  foldr (fun d t => bytes_to_str d ++ t) "" (omap pick l).
Definition on_stdout (m : ChannelMsg) : option (list byte) := match m with MsgData d => Some d | _ => None end.
Definition on_stderr (m : ChannelMsg) : option (list byte) := match m with MsgExtendedData d => Some d | _ => None end.

Lemma wait_loop_run c v l v' : messages c v l v' -> forall fuel out err, (length l < fuel)%nat ->
  wait_loop fuel c out err v = (Ok (mkOutput (out ++ text_of on_stdout l) (err ++ text_of on_stderr l)), v').
Proof.
  induction 1 as [v v' Hv|v v1 v2 v' code l Hv He Hl IH|v v1 v' m l Hv Hm Hl IH]; intros [|fuel] out err Hf; simpl in Hf; try lia;
    cbn [wait_loop]; unfold mbind, M_bind, net_call; rewrite Hv.
  - unfold text_of. simpl. by rewrite !text_nil_r.
  - unfold lib, mbind, M_bind, net_call. rewrite He. cbn. rewrite IH by lia. done.
  - destruct m as [d|d|code|]; try done; rewrite IH by lia; unfold text_of; simpl; by rewrite ?text_assoc.
Qed.

Context (fuel : nat).
#[local] Instance ru_backend : SshBackend V := russh fuel.

(** A command's output over russh is all that the server sends on either stream until it ends
    the channel, in order, also what comes after the exit status; the script gets the streams
    it asked for, which is the standard output if it asks for none. *)
Theorem command_output (w : SshWorld) (id : Z) (s : RuSession) (cmd : string) (out err : option bool) c v1 v2 v3 l :
  sessions w !! id = Some s -> cmd <> "" ->
  ru_open_session (ru_handle s) (ssh_net w) = (inl c, v1) -> ru_exec c cmd v1 = (inl tt, v2) -> messages c v2 l v3 ->
  (length l < fuel)%nat ->
  request_exec id cmd out err w = (Ok (Some match out, err with
    | None, None => text_of on_stdout l
    | Some false, Some false => text_of on_stdout l ++ text_of on_stderr l
    | _, _ => (if default false err then text_of on_stderr l else "") ++ (if default false out then text_of on_stdout l else "")
    end), mkSshWorld (<[id := s]> (sessions w)) v3).
Proof.
  intros Hs Hcmd Ho He Hl Hf.
  assert (ru_exec_ssh_cmd fuel cmd (s, ssh_net w) = (Ok (mkOutput (text_of on_stdout l) (text_of on_stderr l)), (s, v3))) as Hrun.
  { unfold ru_exec_ssh_cmd, with_handle, err_into, ru_call, lib, mbind, M_bind, net_call. rewrite Ho. cbn. rewrite He. cbn.
    by rewrite (wait_loop_run _ _ _ _ Hl). }
  apply (on_session_run w id) in Hrun. unfold request_exec, mbind, M_bind. rewrite (get_by_id_found w id s) by done.
  rewrite decide_False by done.
  destruct out as [[]|], err as [[]|]; cbn [be_exec ru_backend russh]; rewrite Hrun; unfold combine; cbn; by rewrite ?text_nil_r.
Qed.

Definition answers_always {A} (m : M (RuSession * V) SshError A) : Prop := forall x, exists o x', m x = (o, x') /\
  match o with Ok _ | Err _ => True | _ => False end.
Lemma password_answers login password : answers_always (ru_auth_password login password).
Proof.
  intros [s v]. unfold ru_auth_password, with_handle, lib, net_call, mbind, M_bind.
  destruct (ru_password _ _ _ _) as [[b|e] v']; cbn; by do 2 eexists.
Qed.
Lemma interactive_answers login password : answers_always (ru_auth_keyboard_interactive login password).
Proof.
  intros [s v]. unfold ru_auth_keyboard_interactive, with_handle, lib, net_call, mbind, M_bind.
  destruct (ru_interactive _ _ _) as [[[]|e] v']; cbn; [by do 2 eexists..| |by do 2 eexists]. destruct (ru_respond _ _ _) as [[b|e] v'']; cbn; by do 2 eexists.
Qed.
Lemma allowed_and_ok method (m : M (RuSession * V) SshError unit) x : answers_always m ->
  exists (b : bool) x', allowed_and method m x = (Ok b, x').
Proof.
  intros Hm. unfold allowed_and, succeeds_, attempt, mbind, M_bind. cbn. destruct (Hm x) as ([a|e| |] & x' & -> & Ho); cbn; try done; by do 2 eexists.
Qed.

(** Over russh [ssh_userauth] succeeds whatever the server answers: with the session in the
    table and anything to authenticate with, a password that is refused, and a private key,
    which is not looked at, give the same as a password that is accepted. *)
Theorem userauth_always_ok (w : SshWorld) (id : Z) (login password privatekey passphrase : option string) :
  is_Some (sessions w !! id) -> is_Some password \/ is_Some privatekey \/ is_Some passphrase ->
  (userauth id login password privatekey passphrase w).1 = Ok tt.
Proof.
  intros [s Hs] Hgiven. apply get_by_id_found in Hs.
  destruct password as [p|].
  - assert (userauth id login (Some p) privatekey passphrase w = on_session id s (
      done ← allowed_and PASSWORD (ru_auth_password (default "" login) p);
      if done : bool then mret tt
      else allowed_and INTERACTIVE (ru_auth_keyboard_interactive (default "" login) p) ;; mret tt) w) as ->.
    { unfold userauth, mbind, M_bind. by rewrite Hs. }
    destruct (allowed_and_ok PASSWORD _ (s, ssh_net w) (password_answers (default "" login) p)) as (b & x & Hb).
    destruct (allowed_and_ok INTERACTIVE _ x (interactive_answers (default "" login) p)) as (b' & [s' v'] & Hb').
    unfold on_session, mbind, M_bind. rewrite Hb. destruct b; [by destruct x|]. by rewrite Hb'.
  - destruct privatekey as [k|], passphrase as [q|]; [..|exfalso; by destruct Hgiven as [[? [=]]|[[? [=]]|[? [=]]]]];
      unfold userauth, mbind, M_bind; by rewrite Hs.
Qed.
End RusshTheorems.

(** *** libssh *)
Section LibsshTheorems.
Context `{HashOrder} `{Features} `{BuildProfile} `{SshNames} {V : Type} `{LibSsh V}.

(** What a channel's reads give until one gives nothing: the pieces, and how many reads it
    takes. *)
Inductive reads (c : LChannel) (t : Z) (e : bool) : V -> list (list byte) -> nat -> V -> Prop :=
| reads_end v v' : ch_read_timeout c 4096 e t v = (inl [], v') -> reads c t e v [] 1 v'
| reads_again v v1 l n v' : ch_read_timeout c 4096 e t v = (inr TryAgain, v1) -> reads c t e v1 l n v' ->
    reads c t e v l (S n) v'
| reads_piece v v1 d l n v' : ch_read_timeout c 4096 e t v = (inl d, v1) -> d <> [] -> reads c t e v1 l n v' ->
    reads c t e v (d :: l) (S n) v'.
Definition all_text (l : list (list byte)) : option string := foldr (fun x y => x ++ y) "" <$> mapM from_utf8 l.

(** Reading gives the pieces put together if every piece is UTF-8 on its own, and fails
    otherwise; so a character that two reads share makes it fail. *)
Theorem read_timeout_reads (c : Channel) (t : Z) (e : bool) v l n v' : reads (ch_channel c) t e v l n v' ->
  forall fuel response, (n <= fuel)%nat ->
  match all_text l with
  | Some text => read_timeout fuel c t e response v = (Ok (response ++ text), v')
  | None => (read_timeout fuel c t e response v).1 = Err (of_session SshErrorKind.ReadSsh (ch_session c))
  end.
Proof.
  induction 1 as [v v' Hv|v v1 l n v' Hv Hl IH|v v1 d l n v' Hv Hd Hl IH]; intros [|fuel] response Hf; try lia;
    cbn [read_timeout]; unfold mbind, M_bind, net_call; rewrite Hv.
  - cbn. by rewrite text_nil_r.
  - apply IH. lia.
  - destruct d as [|b d]; [done|]. unfold all_text, buf_as_str, ok_or. cbn [mapM]. destruct (from_utf8 (b :: d)) as [x|]; cbn; [|done].
    specialize (IH fuel (response ++ x) ltac:(lia)). unfold all_text in IH. destruct (mapM from_utf8 l); cbn in *; [|done].
    by rewrite IH, text_assoc.
Qed.

(** A server that goes on answering, but neither asks nor fails *)
Definition never_asks : Prop := forall s v, exists status v', ssh_auth_interactive s v = (inl status, v') /\ status <> AuthInfo.
Lemma interactive_loop_hangs fuel password x : never_asks -> (interactive_loop fuel password x).1 = OutOfFuel.
Proof.
  intros Hn. revert x. induction fuel as [|fuel IH]; intros [s v]; [done|]. cbn [interactive_loop].
  unfold inherit, world, lib, net_call, gets, mbind, M_bind. cbn. destruct (Hn (ls_session s) v) as (status & v' & -> & Hs).
  cbn. destruct status; try done; apply IH.
Qed.

(** **** What every function keeps of a session *)
Definition session_ok (id : Z) (s : LibSession) : Prop :=
  ls_id s = id /\ ls_user_set s = false /\ match ls_channel s with Some c => ch_session c = id | None => True end.
Section OneSession.
Context (id : Z).
Abbreviation P := (fun x : LibSession * V => session_ok id x.1).
Abbreviation K m := (triple P m any).
Lemma keep_world {A} (m : M V SshError A) : K (world m).
Proof. intros [s v] Hs. unfold world. destruct (m v) as [o v']. split; [done|by destruct o]. Qed.
Lemma keep_inherit {A} k (f : LSession -> V -> (A + string) * V) : K (inherit k f).
Proof. apply triple_seq; [apply triple_gets|]. intros s. apply keep_world. Qed.
Lemma keep_new_channel : triple P new_channel (fun c => ch_session c = id).
Proof.
  intros x Hx. unfold new_channel, gets, mbind, M_bind. destruct (keep_inherit SshErrorKind.OpenChannel ssh_new_channel x Hx) as [Hk _].
  destruct (inherit _ _ x) as [[c|e| |] x']; (split; [done|]); try done. apply Hx.
Qed.
Lemma keep_set_channel c : match c with Some c => ch_session c = id | None => True end -> K (set_channel c).
Proof. intros Hc [s v] (Hi & Hu & _). done. Qed.
Lemma keep_set_option o : K (set_option o).
Proof. apply keep_inherit. Qed.
Lemma keep_ensure_user_set o : K (ensure_user_set o).
Proof. apply triple_seq; [apply triple_gets|]. intros s. destruct (ls_user_set s); [by apply triple_ret|apply keep_set_option]. Qed.
Lemma keep_attempt {A} (m : M (LibSession * V) SshError A) : K m -> K (attempt m).
Proof. intros Hm. eapply triple_weaken; [by apply triple_attempt|done]. Qed.
Lemma keep_methods : K get_authmethods_cached.
Proof.
  apply triple_seq; [apply triple_gets|]. intros s. destruct (ls_authmethods s); [by apply triple_ret|].
  apply triple_seq; [apply keep_inherit|]. intros status. apply (triple_seq _ (match status with AuthSuccess => _ | _ => _ end)).
  - destruct status; [by apply triple_ret|..]; (apply triple_seq; [apply keep_attempt, keep_inherit|]; intros l; by apply triple_ret).
  - intros l. apply triple_seq; [by intros [s' v]|]. intros _. by apply triple_ret.
Qed.
#[local] Hint Resolve keep_world keep_inherit keep_set_option keep_ensure_user_set keep_attempt keep_methods : triple.
#[local] Hint Extern 2 (triple _ (world _) _) => apply keep_world : triple.
#[local] Hint Extern 2 (triple _ (inherit _ _) _) => apply keep_inherit : triple.
Ltac keeps := repeat first
  [ solve [eauto with triple] | apply triple_seq; [|intros ?] | case_match | progress cbn beta iota ].
Lemma keep_allowed m : K (auth_method_allowed m).
Proof. unfold auth_method_allowed. keeps. Qed.
Lemma keep_password login password : K (auth_password login password).
Proof. unfold auth_password. keeps. Qed.
Lemma keep_loop turns password : K (interactive_loop turns password).
Proof. induction turns as [|turns IH]; cbn [interactive_loop]; keeps. Qed.
Lemma keep_interactive fuel login password : K (auth_keyboard_interactive fuel login password).
Proof. unfold auth_keyboard_interactive. pose proof keep_loop. keeps. Qed.
Lemma keep_disconnect : K session_disconnect.
Proof. unfold session_disconnect. apply triple_seq; [apply triple_gets|]. intros s. apply triple_seq; [keeps|]. by intros _ [s' v]. Qed.
Lemma keep_close : K session_close.
Proof. unfold session_close. apply triple_seq; [apply triple_gets|]. intros s. apply triple_seq; [keeps|]. intros _. by apply keep_set_channel. Qed.
Lemma keep_open_shell pty : K (open_shell pty).
Proof.
  eapply triple_bind; [apply keep_new_channel|]. intros c Hc. apply triple_seq; [keeps|]. intros _. apply triple_seq; [keeps|].
  intros _. by apply keep_set_channel.
Qed.
Lemma keep_exec fuel cmd : K (exec_ssh_cmd fuel cmd).
Proof. eapply triple_bind; [apply keep_new_channel|]. intros c Hc. keeps. Qed.
Lemma keep_connect socket ip port keys cs sc timeout : K (try_connect socket ip port keys cs sc timeout).
Proof. unfold try_connect. keeps. Qed.
Lemma keep_prompts turns : K (prompt_loop turns).
Proof. induction turns as [|turns IH]; cbn [prompt_loop]; keeps. Qed.
Lemma keep_pass turns : K (pass_loop turns).
Proof. induction turns as [|turns IH]; cbn [pass_loop]; keeps. Qed.
End OneSession.

(** **** What every function keeps of the table *)
Context (fuel : nat) (target_ip : IpAddr) (ids : gset Z -> list Z).
Abbreviation LW := (@SshWorld V (backend fuel)).
Definition ssh_table_ok (w : LW) : Prop :=
  forall id s, sessions w !! id = Some s -> (MIN_SESSION_ID <= id)%Z /\ session_ok id s.
Abbreviation T m := (triple ssh_table_ok m any).

Lemma keeps_in_session {A} id (m : M (LibSession * V) SshError A) :
  triple (fun x : LibSession * V => session_ok id x.1) m any -> T (in_session fuel id m).
Proof.
  intros Hm w Hw. split; [|by destruct (in_session fuel id m w) as [[] ?]]. unfold in_session, mbind, M_bind.
  destruct (get_by_id_cases w id) as [(s & Hs & ->)|[e ->]]; [|done]. destruct (Hw id s Hs) as [Hmin Hok].
  destruct (Hm (s, ssh_net w) Hok) as [Hk _]. destruct (m (s, ssh_net w)) as [o [s' v]] eqn:Hrun.
  rewrite (on_session_run w id s m o s' v Hrun).
  intros j t. cbn. destruct (decide (id = j)) as [->|Hne].
  - rewrite lookup_insert_eq. by intros [= <-].
  - rewrite lookup_insert_ne by done. apply Hw.
Qed.
Lemma keeps_from_ssh {A} (m : M LW SshError A) : T m -> T (from_ssh m).
Proof. apply triple_err_into. Qed.
Lemma keeps_remove id : T (remove_session id : M LW SshError unit).
Proof. intros w Hw. split; [|done]. intros j t. cbn. rewrite lookup_delete_Some. intros [_ Hj]. by apply Hw. Qed.
Lemma keeps_ssh_disconnect id : T (ssh_disconnect id : M LW SshError unit).
Proof.
  unfold ssh_disconnect. destruct (id =? 0)%Z; [by apply triple_ret|]. apply triple_seq; [|intros _; apply keeps_remove].
  apply (keeps_in_session id session_disconnect), keep_disconnect.
Qed.
Lemma run_in_ok {A} id (m : M (LibSession * V) SshError A) s v s' v' :
  triple (fun x : LibSession * V => session_ok id x.1) m any -> session_ok id s -> run_in s m v = (Ok s', v') -> session_ok id s'.
Proof.
  intros Hm Hs. unfold run_in. destruct (Hm (s, v) Hs) as [Hk _]. destruct (m (s, v)) as [[] [s1 v1]]; try done. by intros [= <- <-].
Qed.
Lemma new_session_ok id socket ip port keys cs sc timeout v s v' :
  lib_connect id socket ip port keys cs sc timeout v = (Ok s, v') -> session_ok id s.
Proof.
  unfold lib_connect. unfold mbind at 1, M_bind at 1, session_new, lib, net_call. unfold mbind at 1 2, M_bind at 1 2.
  destruct (ssh_new v) as [[l|e] v1]; [|done]. apply run_in_ok; [|done].
  eapply triple_bind; [apply triple_attempt, keep_connect|]. intros [[]|e] _; [by apply triple_ret|].
  apply triple_seq; [apply keep_disconnect|]. intros _. apply triple_throw.
Qed.
Lemma keeps_ssh_connect socket ip port keys cs sc timeout : T (ssh_connect socket ip port keys cs sc timeout : M LW SshError Z).
Proof.
  intros w Hw. split; [|by destruct (ssh_connect _ _ _ _ _ _ _ w) as [[] ?]]. unfold ssh_connect. unfold mbind at 1, M_bind at 1.
  destruct (next_session_id_run w) as (o & -> & Ho). destruct o as [id|e| |]; try done. destruct Ho as [Hid Hmin].
  unfold mbind, M_bind, on_ssh_net. destruct (be_connect id socket ip port keys cs sc timeout (ssh_net w)) as [[s|e| |] v] eqn:Hc; try done.
  apply new_session_ok in Hc. intros j t. cbn. destruct (decide (id = j)) as [->|Hne].
  - rewrite lookup_insert_eq. by intros [= <-].
  - rewrite lookup_insert_ne by done. apply Hw.
Qed.
Lemma keeps_then {A B} id (m : M (LibSession * V) SshError A) (f : A -> M LW SshError B) :
  triple (fun x : LibSession * V => session_ok id x.1) m any -> (forall a, T (f a)) ->
  T (s ← (get_by_id id : M LW SshError _); a ← (on_session (id : Z) s (m : M (@Session V (backend fuel) * V) SshError A) : M LW SshError A); f a).
Proof.
  intros Hm Hf w Hw. destruct (triple_seq _ (in_session fuel id m) f any (keeps_in_session id m Hm) Hf w Hw) as [Ht Ha].
  unfold in_session, mbind, M_bind in *. by destruct (get_by_id id w) as [[s|e| |] w'].
Qed.
Lemma keeps_get_by_id id : T (get_by_id id : M LW SshError _).
Proof. intros w Hw. split; [|by destruct (get_by_id id w) as [[] ?]]. by destruct (get_by_id_cases w id) as [(s & Hs & ->)|[e ->]]. Qed.
Lemma keeps_request_exec id cmd out err : T (request_exec id cmd out err : M LW SshError _).
Proof.
  unfold request_exec. destruct (decide (cmd = "")).
  - apply triple_seq; [apply keeps_get_by_id|]. intros s. by apply triple_ret.
  - destruct out as [[]|], err as [[]|]; (apply keeps_then; [apply keep_exec|intros o; by apply triple_ret]).
Qed.
Lemma keep_allowed_and id method m : triple (fun x : LibSession * V => session_ok id x.1) m any ->
  triple (fun x : LibSession * V => session_ok id x.1) (@allowed_and V (backend fuel) method m) any.
Proof.
  intros Hm. apply triple_seq; [apply keep_allowed|]. intros []; [|by apply triple_ret].
  apply triple_seq; [by apply keep_attempt|]. intros r. by apply triple_ret.
Qed.
Lemma keeps_userauth id login password key pass : T (userauth id login password key pass : M LW SshError unit).
Proof.
  unfold userauth. assert (T (s ← get_by_id id; mret tt : M LW SshError unit)) as Hnone.
  { apply triple_seq; [apply keeps_get_by_id|]. intros s. by apply triple_ret. }
  destruct password as [p|].
  - apply (keeps_in_session id), triple_seq; [apply keep_allowed_and, keep_password|]. intros []; [by apply triple_ret|].
    apply triple_seq; [apply keep_allowed_and, keep_interactive|]. intros b. by apply triple_ret.
  - destruct key, pass; [exact Hnone..|apply triple_throw].
Qed.
Lemma keeps_find f l : T (find_id fuel f l).
Proof.
  induction l as [|id l IH]; [by apply triple_ret|]. apply triple_seq; [apply keeps_get_by_id|]. intros s.
  destruct (f s); [by apply triple_ret|exact IH].
Qed.

#[local] Hint Resolve keep_world keep_inherit keep_set_option keep_ensure_user_set keep_attempt keep_methods keep_prompts keep_pass
  keep_open_shell keep_close keeps_from_ssh keeps_in_session keeps_ssh_connect keeps_ssh_disconnect keeps_request_exec keeps_userauth
  keeps_find keeps_get_by_id : triple.
#[local] Hint Extern 2 (triple _ (world _) _) => apply keep_world : triple.
#[local] Hint Extern 2 (triple _ (inherit _ _) _) => apply keep_inherit : triple.
#[local] Hint Extern 3 (triple ssh_table_ok (in_session _ _ _) _) => apply keeps_in_session : triple.
#[local] Hint Extern 3 (triple ssh_table_ok (from_ssh _) _) => apply keeps_from_ssh : triple.
Ltac table_keeps := repeat first
  [ solve [eauto with triple]
  | lazymatch goal with
    | |- triple _ (in_session _ _ _) _ => apply keeps_in_session
    | |- triple _ (from_ssh _) _ => apply keeps_from_ssh
    | |- _ => apply triple_seq; [|intros ?]
    end
  | case_match ].
Abbreviation KF f := (forall r, T (f r : M LW FnError NaslValue.t)).
Lemma keeps_netconf id : T (execute_netconf_subsystem fuel id).
Proof.
  apply triple_seq; [|intros _; by apply triple_ret]. apply keeps_in_session. eapply triple_bind; [apply keep_new_channel|]. intros c Hc.
  apply triple_seq; [table_keeps|]. intros _. apply triple_seq; [table_keeps|]. intros _. by apply keep_set_channel.
Qed.
Lemma keeps_session_fn {A} to (f : Z -> M LW SshError A) : (forall id, T (f id)) -> KF (session_fn fuel to f).
Proof. intros Hf r. unfold session_fn. table_keeps. Qed.
Lemma keeps_login_fn {A} to (f : Z -> option string -> M LW SshError A) : (forall id o, T (f id o)) -> KF (login_fn fuel to f).
Proof. intros Hf r. unfold login_fn. table_keeps. Qed.
Lemma keeps_functions name f r : SshFunctions fuel target_ip ids !! name = Some f -> T (f r : M LW FnError NaslValue.t).
Proof.
  intros Hf. apply lookup_union_Some_raw in Hf as [Hf|[_ Hf]]; apply elem_of_list_to_map_2 in Hf; set_unfold in Hf;
    destruct_or?; destruct_and?; simplify_eq.
  all: try (apply keeps_session_fn; intros id); try (apply keeps_login_fn; intros id login); try apply keeps_netconf.
  all: unfold nasl_ssh_connect, nasl_ssh_request_exec, nasl_ssh_userauth, nasl_ssh_disconnect, shell_open_fn, shell_open, shell_read_fn,
    shell_read, shell_write_fn, shell_write, login_interactive, login_interactive_pass_fn, login_interactive_pass, issue_banner,
    server_banner, auth_methods, host_key, sftp_enabled_check, session_id_from_sock, get_sock, to_ok, get_channel, set_opt_user, ssh_arg.
  all: table_keeps.
Qed.

(** A step of a script: a call of a function of the set, or something that the server does. *)
Inductive SshStep := SshCall (name : string) (r : Register) | SshElsewhere (v : V).
Definition ssh_step (w : LW) (st : SshStep) : LW :=
  match st with
  | SshCall name r => match SshFunctions fuel target_ip ids !! name with Some f => (f r w).2 | None => w end
  | SshElsewhere v => mkSshWorld (sessions w) v
  end.

Lemma table_ok_steps (steps : list SshStep) (w : LW) : ssh_table_ok w -> ssh_table_ok (foldl ssh_step w steps).
Proof.
  revert w. induction steps as [|st steps IH]; [done|]. intros w Hw. apply IH. destruct st as [name r|v']; [|exact Hw]. unfold ssh_step.
  destruct (SshFunctions fuel target_ip ids !! name) as [f|] eqn:Hf; [|done]. by apply (keeps_functions name f r Hf).
Qed.

(** C40: Whatever a script calls in which order, with the functions on libssh, and whatever the
    server does in between: a session of the table has the number it is found under, which is
    at least 9000, and so has the channel of its shell. *)
Theorem ssh_table_kept (steps : list SshStep) (v : V) (id : Z) (s : LibSession) :
  let w := foldl ssh_step (mkSshWorld ∅ v) steps in
  sessions w !! id = Some s ->
  (MIN_SESSION_ID <= id)%Z /\ ls_id s = id /\ match ls_channel s with Some c => ch_session c = id | None => True end.
Proof.
  cbn. intros Hs. by destruct (table_ok_steps steps (mkSshWorld ∅ v) ltac:(done) id s Hs) as (Hmin & Hid & _ & Hc).
Qed.

(** That a login was set is never noted: after any calls, every authentication sets the login
    again, with the name it is called with. *)
Theorem login_set_again (steps : list SshStep) (v : V) (id : Z) (s : LibSession) (login : option string) :
  let w := foldl ssh_step (mkSshWorld ∅ v) steps in
  sessions w !! id = Some s ->
  ensure_user_set login (s, ssh_net w) = set_option (OptUser login) (s, ssh_net w).
Proof.
  cbn. intros Hs. destruct (table_ok_steps steps (mkSshWorld ∅ v) ltac:(done) id s Hs) as (_ & _ & Hu & _).
  unfold ensure_user_set, gets, mbind, M_bind. cbn. by rewrite Hu.
Qed.

Lemma find_id_run (w : LW) f l : ssh_table_ok w -> Forall (fun id => id ∈ dom (sessions w)) l ->
  exists o, find_id fuel f l w = (Ok o, w) /\ match o with
    | Some id => exists s, sessions w !! id = Some s /\ f s = true
    | None => forall id s, id ∈ l -> sessions w !! id = Some s -> f s = false
    end.
Proof.
  intros Hw. induction 1 as [|id l Hid Hl IH]; [exists None; set_solver|]. apply elem_of_dom in Hid as [s Hs]. cbn [find_id].
  unfold mbind, M_bind. rewrite (get_by_id_found w id s) by done. destruct (f s) eqn:Hf.
  - exists (Some (ls_id s)). split; [done|]. exists s. destruct (Hw id s Hs) as (_ & -> & _). done.
  - destruct IH as (o & Ho & Hspec). exists o. split; [done|]. destruct o as [j|]; [done|]. intros j t Hj Ht.
    apply elem_of_cons in Hj as [->|Hj]; [|by apply (Hspec j)].
    assert (Some t = Some s) as [= ->] by (etrans; [symmetry; exact Ht|exact Hs]). done.
Qed.

(** The number that is found for a socket is that of a session which uses the socket, in
    whatever order the table is searched; if none is found, no session uses it. *)
Theorem socket_finds_session (w : LW) (fd : Z) :
  (forall X, ids X ≡ₚ elements X) -> ssh_table_ok w ->
  exists o, session_id_from_sock fuel ids fd w = (Ok o, w) /\ match o with
    | Some id => get_sock fuel id w = (Ok fd, w)
    | None => forall id s, sessions w !! id = Some s -> ssh_raw_fd (ls_session s) <> fd
    end.
Proof.
  intros Hids Hw. destruct (find_id_run w (fun s => (ssh_raw_fd (ls_session s) =? fd)%Z) (ids (dom (sessions w))) Hw) as (o & Ho & Hspec).
  { apply Forall_forall. intros id. rewrite Hids. apply elem_of_elements. }
  exists o. split; [exact Ho|]. destruct o as [id|].
  - destruct Hspec as (s & Hs & Hfd%Z.eqb_eq). unfold get_sock, mbind, M_bind. rewrite (get_by_id_found w id s) by done. cbn. by rewrite <- Hfd.
  - intros id s Hs Hfd. specialize (Hspec id s). rewrite Hids, elem_of_elements, elem_of_dom, Hs in Hspec.
    by apply Z.eqb_neq in Hspec.
Qed.

Lemma methods_known s l v m : ls_authmethods s = Some l ->
  auth_method_allowed m (s, v) = (Ok (bool_decide (m ∈ l)), (s, v)).
Proof. intros Hl. unfold auth_method_allowed, get_authmethods_cached, gets, mbind, M_bind. cbn. by rewrite Hl. Qed.
Lemma login_is_set s login v : (forall x v, (ssh_set_option x (OptUser (Some login)) v).1 = inl tt) ->
  exists v', ensure_user_set (Some login) (s, v) = (Ok tt, (s, v')).
Proof.
  intros Hset. unfold ensure_user_set, set_opt_user, set_option, inherit, world, lib, net_call, gets, mbind, M_bind. cbn.
  destruct (ls_user_set s); [by exists v|]. specialize (Hset (ls_session s) v).
  destruct (ssh_set_option _ _ _) as [r v']. cbn in *. subst r. by exists v'.
Qed.
Lemma password_refused s login password v : (forall x v, (ssh_set_option x (OptUser (Some login)) v).1 = inl tt) ->
  (forall x v, (ssh_auth_password x password v).1 <> inl AuthSuccess) ->
  exists v', succeeds_ (auth_password login password) (s, v) = (Ok false, (s, v')).
Proof.
  intros Hset Hpw. destruct (login_is_set s login v Hset) as [v1 Hu]. specialize (Hpw (ls_session s) v1).
  unfold succeeds_, attempt, auth_password. unfold mbind, M_bind. rewrite Hu.
  unfold inherit, world, lib, net_call, gets, mbind, M_bind. cbn.
  destruct (ssh_auth_password _ _ _) as [[status|e] v2]; cbn; [|by exists v2]. destruct status; cbn in *; try done; by exists v2.
Qed.

(** Over libssh [ssh_userauth] never ends if the server refuses the password and does not ask
    when the dialog is tried, but goes on answering: it is tried again and again, also after
    an answer of success. *)
Theorem refused_userauth_hangs (w : LW) id s login password key pass l :
  sessions w !! id = Some s -> ls_authmethods s = Some l -> INTERACTIVE ∈ l ->
  (forall x v, (ssh_set_option x (OptUser (Some login)) v).1 = inl tt) ->
  (forall x v, (ssh_auth_password x password v).1 <> inl AuthSuccess) -> never_asks ->
  (userauth id (Some login) (Some password) key pass w).1 = OutOfFuel.
Proof.
  intros Hs Hl Hin Hset Hpw Hnever.
  assert (exists v', @allowed_and V (backend fuel) PASSWORD (auth_password login password) (s, ssh_net w) = (Ok false, (s, v'))) as [v1 Hfirst].
  { unfold allowed_and, mbind, M_bind. cbn [be_allowed backend libssh]. rewrite (methods_known s l) by done.
    destruct (bool_decide _); [|by eexists]. by apply password_refused. }
  assert ((@allowed_and V (backend fuel) INTERACTIVE (auth_keyboard_interactive fuel login password) (s, v1)).1 = OutOfFuel) as Hsecond.
  { unfold allowed_and, mbind, M_bind. cbn [be_allowed backend libssh]. rewrite (methods_known s l) by done.
    rewrite bool_decide_true by done. unfold succeeds_, attempt, auth_keyboard_interactive, mbind, M_bind.
    destruct (login_is_set s login v1 Hset) as [v2 ->]. pose proof (interactive_loop_hangs fuel password (s, v2) Hnever) as Hloop.
    by destruct (interactive_loop fuel password (s, v2)) as [o x]; cbn in *; subst o. }
  exact (userauth_second w id s login password key pass (s, v1) Hs Hfirst Hsecond).
Qed.
End LibsshTheorems.

(** ** Examples *)
Module SshExample.
Import SocketExample.
#[local] Existing Instances plain_order release_build features.
#[local] Instance some_names : SshNames := {|
  known_key := fun s => bool_decide (s ∈ ["ssh-rsa"; "ssh-ed25519"]); known_cipher := fun s => bool_decide (s ∈ ["aes256-ctr"]);
  default_keys := ["ssh-ed25519"]; default_ciphers := ["aes256-ctr"]
|}.

(** A server that refuses every authentication, and whose channels give what is left to read. *)
Definition Pieces := list (list byte + ReadError).
Definition done_ {X} (v : X) : (unit + string) * X := (inl tt, v).
#[local] Instance refusing : LibSsh Pieces := {|
  LSession := nat; LChannel := nat; SshKey := unit;
  ssh_new := fun v => (inl 7%nat, v); ssh_set_option := fun _ _ => done_; ssh_do_connect := fun _ => done_;
  ssh_do_disconnect := fun _ v => v; ssh_raw_fd := Z.of_nat; ssh_new_channel := fun s v => (inl s, v);
  ssh_server_key := fun _ v => (inl tt, v); ssh_key_hash := fun _ => None;
  ssh_server_banner := fun _ v => (inl "SSH-2.0", v); ssh_issue_banner := fun _ v => (inr "none", v); ssh_sftp := fun _ => done_;
  ssh_auth_none := fun _ v => (inl AuthDenied, v); ssh_auth_list := fun _ v => (inl [PASSWORD; INTERACTIVE], v);
  ssh_auth_password := fun _ _ v => (inl AuthDenied, v); ssh_auth_interactive := fun _ v => (inl AuthDenied, v);
  ssh_interactive_info := fun _ v => (inl [], v); ssh_set_answers := fun _ _ => done_;
  ch_open_session := fun _ => done_; ch_subsystem := fun _ _ => done_; ch_is_closed := fun _ v => (false, v);
  ch_is_eof := fun _ v => (false, v); ch_close := fun _ => done_; ch_write_all := fun _ _ v => (true, v);
  ch_request_pty := fun _ _ _ _ => done_; ch_request_exec := fun _ _ => done_; ch_request_shell := fun _ => done_;
  ch_read_timeout := fun _ _ stderr _ v => if stderr : bool then (inl [], v) else match v with [] => (inl [], []) | x :: v => (x, v) end;
  ch_read_nonblocking := fun _ _ _ v => (inl [], v); fake_socket := fun v => (None, v);
  option_debug := fun _ => "option"; status_debug := fun _ => "Denied"; tracing_level := None
|}.
Definition toy_session : LSession (V := Pieces) := 7%nat.
Definition toy_channel : LChannel (V := Pieces) := 7%nat.
Definition any_order (X : gset Z) : list Z := elements X.
Definition target : IpAddr := V4 1%Z.
Definition calls : list (SshStep (V := Pieces)) :=
  [SshCall "ssh_connect" (reg [] [("port", num 2222)]); SshCall "ssh_shell_open" (reg [num 9000] []);
   SshCall "ssh_connect" (reg [] []); SshCall "ssh_disconnect" (reg [num 9000] []); SshCall "ssh_connect" (reg [] [])].
Definition after : SshWorld (V := Pieces) (H3 := backend 5) := foldl (ssh_step 5 target any_order) (mkSshWorld ∅ []) calls.

(** The number of a session that was ended is used again. *)
Example numbers_used : elements (dom (sessions after)) = [9000%Z; 9001%Z] \/ elements (dom (sessions after)) = [9001%Z; 9000%Z].
Proof. vm_compute. first [by left|by right]. Qed.
Lemma ssh_table_kept_witness : exists s, sessions after !! 9001%Z = Some s
  /\ (MIN_SESSION_ID <= 9001)%Z /\ ls_id s = 9001%Z /\ match ls_channel s with Some c => ch_session c = 9001%Z | None => True end.
Proof.
  exists (mkLibSession 9001 toy_session None false None). split; [vm_compute; reflexivity|].
  apply (ssh_table_kept 5 target any_order calls [] 9001). vm_compute. reflexivity.
Defined.

Lemma socket_finds_session_witness : exists o, session_id_from_sock 5 any_order 7 (mkSshWorld ∅ []) = (Ok o, mkSshWorld ∅ [])
  /\ match o with
     | Some id => get_sock 5 id (mkSshWorld ∅ []) = (Ok 7%Z, mkSshWorld ∅ [])
     | None => forall id s, (∅ : gmap Z LibSession) !! id = Some s -> ssh_raw_fd (ls_session s) <> 7%Z
     end.
Proof. apply (socket_finds_session 5 any_order (mkSshWorld ∅ []) 7); [reflexivity|intros id s Hs; discriminate Hs]. Defined.

(** A session whose server allows passwords and dialogs. *)
Definition asked : LibSession := mkLibSession 9000 toy_session (Some [PASSWORD; INTERACTIVE]) false None.
Definition with_asked : @SshWorld Pieces (backend 1000) := @mkSshWorld Pieces (backend 1000) {[9000%Z := asked]} [].
Lemma refused_userauth_hangs_witness : (userauth 9000 (Some "root") (Some "wrong") None None with_asked).1 = OutOfFuel.
Proof.
  apply (refused_userauth_hangs 1000 with_asked 9000 asked "root" "wrong" None None [PASSWORD; INTERACTIVE]); try reflexivity; try done.
  - right. left.
  - intros x v. by exists AuthDenied, v.
Defined.

(** The two bytes of a character in two reads: the command fails, though the whole is UTF-8. *)
Lemma read_timeout_reads_witness :
  utf8_valid [xc3; xa9] = true
  /\ (read_timeout 3 (mkChannel toy_channel 9000) 15 false "" [inl [xc3]; inl [xa9]]).1 = Err (of_session SshErrorKind.ReadSsh 9000).
Proof.
  split; [vm_compute; reflexivity|].
  apply (read_timeout_reads (mkChannel toy_channel 9000) 15 false [inl [xc3]; inl [xa9]] [[xc3]; [xa9]] 3 []); [|lia].
  eapply reads_piece; [reflexivity|done|]. eapply reads_piece; [reflexivity|done|]. by apply reads_end.
Defined.

(** A server that runs commands and refuses every authentication, on russh. *)
#[local] Instance answering : RuSsh (list ChannelMsg) := {|
  Handle := nat; RuChannel := nat;
  ru_connect := fun _ _ _ v => (inl 7%nat, v); ru_open_session := fun h v => (inl h, v); ru_exec := fun _ _ => done_;
  ru_wait := fun _ v => match v with [] => (None, []) | m :: v => (Some m, v) end; ru_eof := fun _ => done_;
  ru_password := fun _ _ _ v => (inl false, v); ru_interactive := fun _ _ v => (inl ResponseFailure, v);
  ru_respond := fun _ _ v => (inl ResponseFailure, v)
|}.
Definition toy_handle : Handle (V := list ChannelMsg) := 7%nat.
Definition toy_ru_channel : RuChannel (V := list ChannelMsg) := 7%nat.
Definition output : list ChannelMsg :=
  [MsgData (text "root"); MsgExtendedData (text "warning"); MsgExitStatus 0; MsgOther; MsgData (text "!")].
Definition ru_session : RuSession := mkRuSession 9000 toy_handle.
Definition with_output : @SshWorld (list ChannelMsg) (russh 9) := @mkSshWorld _ (russh 9) {[9000%Z := ru_session]} output.
Lemma command_output_witness :
  request_exec 9000 "id" None None with_output
  = (Ok (Some "root!"), @mkSshWorld _ (russh 9) (<[9000%Z := ru_session]> {[9000%Z := ru_session]}) []).
Proof.
  apply (command_output 9 with_output 9000 ru_session "id" None None toy_ru_channel output output [] output); try reflexivity.
  - done.
  - apply messages_other with (v1 := tail output); [reflexivity|done|]. eapply messages_other; [reflexivity|done|].
    eapply messages_exit; [reflexivity|reflexivity|]. do 2 (eapply messages_other; [reflexivity|done|]). by apply messages_end.
  - simpl. lia.
Defined.
Lemma userauth_always_ok_witness : (userauth 9000 (Some "root") (Some "wrong") None None with_output).1 = Ok tt.
Proof. apply (userauth_always_ok 9 with_output); [by exists ru_session|left; by eexists]. Defined.

Lemma comma_separated_roundtrip_witness :
  from_comma_separated from_key_name (NaslValue.String "ssh-rsa,ssh-ed25519") = Ok ["ssh-rsa"; "ssh-ed25519"].
Proof. apply (comma_separated_roundtrip ["ssh-rsa"; "ssh-ed25519"]). repeat constructor; try done; vm_compute; set_solver. Defined.
Lemma next_session_id_least_witness : exists id, next_session_id after = (Ok id, after) /\ id ∉ dom (sessions after)
  /\ (MIN_SESSION_ID <= id)%Z /\ (forall j, MIN_SESSION_ID <= j < id -> j ∈ dom (sessions after))%Z.
Proof.
  apply (next_session_id_least after). intros id Hid. assert (dom (sessions after) = {[9000%Z; 9001%Z]}) as E by (vm_compute; reflexivity).
  rewrite E in Hid. unfold MIN_SESSION_ID. set_unfold in Hid. lia.
Defined.
End SshExample.
