(* ===== verification/Crypto.v ===== *)
(** * Cryptographic functions of scripts

    [nasl/builtin/cryptographic]: what the functions do with their arguments around the
    ciphers, digests and signatures, which are those of libraries (class [CryptoLib]), and
    the table of open stream ciphers ([rc4.rs], class [Rc4Lib]).  Theorems: what decrypting
    gives back, which lengths are errors and which panic, which bytes are hashed and signed,
    which numbers ciphers get and that a stream goes on where it was, whatever else is called
    in between; with the cipher RC4 as an instance. *)

From stdpp Require Import sorting.
From S2P Require Import Prelude RustStr Token Statement NaslValue Errors Register Executor FnArgs StringFns Text Addr Sockets SocketsProps Ssh.
Local Open Scope string_scope.

(** ** The libraries *)
Inductive Algorithm := Aes128 | Aes192 | Aes256 | Blowfish.
Inductive Digest := Md2 | Md4 | Md5 | Ripemd160 | Sha1 | Sha256 | Sha384 | Sha512.

(** What the code calls of other crates; [inr] is an error with its text. *)
Class CryptoLib := {
  (** the length of a key, which a slice that is taken for a key must have *)
  key_size : Algorithm -> nat;
  (** [new_from_slices]: the error if key or initial vector have not the right length *)
  cbc_invalid : Algorithm -> list byte -> list byte -> option string;
  cbc_encrypt_zero_padded : Algorithm -> list byte -> list byte -> list byte -> list byte;
  cbc_decrypt_unpadded : Algorithm -> list byte -> list byte -> list byte -> list byte + string;
  (** [Ctr64BE]: a key, a vector of 16 bytes and data at the start of the stream *)
  ctr64_apply : Algorithm -> list byte -> list byte -> list byte -> list byte;
  (** key, nonce, message and associated data; [None] is an error *)
  gcm_encrypt : Algorithm -> list byte -> list byte -> list byte -> list byte -> option (list byte);
  gcm_decrypt : Algorithm -> list byte -> list byte -> list byte -> list byte -> option (list byte);
  (** with the size of the tag before them *)
  ccm_encrypt : Algorithm -> nat -> list byte -> list byte -> list byte -> list byte -> option (list byte);
  ccm_decrypt : Algorithm -> nat -> list byte -> list byte -> list byte -> list byte -> option (list byte);
  cmac_aes128 : list byte -> list byte -> list byte + string;
  (** [nasl-c-lib]: data, key and initial vector *)
  gmac_aes : list byte -> list byte -> list byte -> list byte + string;
  des_encrypt_block : list byte -> list byte -> list byte;
  digest : Digest -> list byte -> list byte;
  (** [None]: the length of the key is invalid *)
  hmac_digest : Digest -> list byte -> list byte -> option (list byte);
  BigUint : Type; big_from_bytes_be : list byte -> BigUint; big_to_bytes_be : BigUint -> list byte;
  RsaPublic : Type; RsaPrivate : Type; Rng : Type;
  rsa_public : BigUint -> BigUint -> RsaPublic + string;
  rsa_private : BigUint -> BigUint -> BigUint -> RsaPrivate + string;
  pkcs1_encrypt : RsaPublic -> Rng -> list byte -> list byte + string;
  raw_encrypt : RsaPublic -> BigUint -> BigUint + string;
  pkcs1_decrypt : RsaPrivate -> list byte -> list byte + string;
  raw_decrypt : RsaPrivate -> Rng -> BigUint -> BigUint + string;
  pem_private : string -> RsaPrivate + string;
  pem_private_encrypted : string -> string -> RsaPrivate + string;
  sign_unprefixed : RsaPrivate -> list byte -> list byte + string;
  (** the text of the error of [std::str::from_utf8], and of a function of scripts as a value *)
  utf8_error : list byte -> string;
  function_debug : ContextType -> string
}.

(** ** mod.rs *)
Module CryptographicError.
Inductive t : Type :=
| InsufficientBufferSize | AesCcmUnableToEncrypt | AesGmacError (s : string) | AesCmacInvalidLength (s : string)
| Rsa (s : string) | Rc4 (s : string).
Definition to_string (e : t) : string :=
  match e with
  | InsufficientBufferSize => "Error in AesGcm: insufficient buffer size."
  | AesCcmUnableToEncrypt => "Error in AesCcm: unable to encrypt."
  | AesGmacError s => "Error in AesGmac: " ++ s ++ "."
  | AesCmacInvalidLength s => "Invalid length of key in AesCmac " ++ s ++ "."
  | Rsa s => "Error in RSA: " ++ s ++ "."
  | Rc4 s => "Error in RC4: " ++ s ++ "."
  end.
(** [From<CryptographicError> for FnError] *)
Definition into (e : t) : FnError := FnError.from_kind (Builtin (BuiltinError.Cryptographic (to_string e))).
End CryptographicError.
Definition crypto_error {A} (e : CryptographicError.t) : B A := Err (CryptographicError.into e).
Inductive Crypt := Encrypt | Decrypt.

Section Functions.
Context `{HashOrder} `{Features} `{BuildProfile} `{CryptoLib}.
Definition context_debug (c : ContextType) : string :=
  match c with Value v => "Value(" ++ NaslValue.debug v ++ ")" | f => function_debug f end.
Definition wrong_argument {A} (key expected got : string) : B A :=
  Err (FnError.from_argument (ArgumentError.wrong_argument key expected got)).

Definition get_required_named_data (r : Register) (key : string) : B (list byte) :=
  o ← total (Register.named r key);
  match o with
  | Some (Value (NaslValue.Data x)) => Ok x
  | Some (Value (NaslValue.String x)) => Ok (as_bytes (chars_of x))
  | Some x => wrong_argument key "a String or Data Value" (context_debug x)
  | None => Err (FnError.from_argument (ArgumentError.MissingNamed [key]))
  end.
Definition get_optional_named_number (r : Register) (key : string) : B (option Z) :=
  o ← total (Register.named r key);
  match o with
  | Some (Value (NaslValue.Number x)) => Ok (Some x)
  | Some x => wrong_argument key "a Number Value" (context_debug x)
  | None => Ok None
  end.
Definition get_key (r : Register) : B (list byte) := get_required_named_data r "key".
Definition get_data (r : Register) : B (list byte) := get_required_named_data r "data".
Definition get_iv (r : Register) : B (list byte) := get_required_named_data r "iv".
Definition get_aad (r : Register) : B (list byte) := get_required_named_data r "aad".
Definition get_len (r : Register) : B (option nat) :=
  buf ← get_optional_named_number r "len";
  match buf with
  | None => Ok None
  | Some x =>
      if in_u 64 x then Ok (Some (Z.to_nat x))
      else wrong ("System only supports numbers between 0 and 18446744073709551615 but was " ++ pretty x)
  end.

(** [key.into()]: a slice as an array panics unless it has the length of the array. *)
Definition as_array (n : nat) (l : list byte) : B (list byte) := if decide (length l = n) then Ok l else Panic.
(** [x[..n].to_vec()] *)
Definition slice_to (n : nat) (l : list byte) : B (list byte) := if decide (n <= length l)%nat then Ok (take n l) else Panic.

(** ** aes_cbc.rs and bf_cbc.rs, which has a copy of [cbc] for its own cipher *)
Definition cbc (alg : Algorithm) (crypt : Crypt) (r : Register) : B NaslValue.t :=
  key ← get_key r;
  data ← get_data r;
  iv ← get_iv r;
  match crypt with
  | Encrypt =>
      match cbc_invalid alg key iv with
      | None => Ok (NaslValue.Data (cbc_encrypt_zero_padded alg key iv data))
      | Some e => wrong e
      end
  | Decrypt =>
      len ← get_len r;
      let len := default (length data) len in
      if decide (length data < len)%nat
      then wrong_argument "len" ("<=" ++ pretty (length data)) (pretty len)
      else
        match cbc_invalid alg key iv with
        | None =>
            match cbc_decrypt_unpadded alg key iv data with
            | inl x => x ← slice_to len x; Ok (NaslValue.Data x)
            | inr e => wrong e
            end
        | Some e => wrong e
        end
  end.

Definition bf_cbc (crypt : Crypt) (r : Register) : B NaslValue.t := cbc Blowfish crypt r.

(** ** aes_ctr.rs *)
Definition ctr (alg : Algorithm) (crypt : Crypt) (r : Register) : B NaslValue.t :=
  key ← get_key r;
  data ← get_data r;
  iv ← get_iv r;
  len ← get_len r;
  let len := default (length data) len in
  key ← as_array (key_size alg) key;
  iv ← as_array 16 iv;
  let buf := ctr64_apply alg key iv data in
  match crypt with
  | Encrypt => Ok (NaslValue.Data buf)
  | Decrypt => x ← slice_to len buf; Ok (NaslValue.Data x)
  end.

(** ** aes_gcm.rs *)
Definition fill_blocks (data : list byte) : list byte :=
  if decide (length data mod 16 = 0)%nat then data
  else
    let blocks_len := (length data + 16 - length data mod 16)%nat in
    (data ++ repeat (Z_byte 0) (blocks_len - length data))%list.
Definition gcm (alg : Algorithm) (crypt : Crypt) (auth : bool) (r : Register) : B NaslValue.t :=
  key ← get_key r;
  data ← get_data r;
  iv ← get_iv r;
  len ← get_len r;
  aad ← (if auth then get_aad r else Ok []);
  key ← as_array (key_size alg) key;
  iv ← as_array 12 iv;
  let res := match crypt with
    | Encrypt => gcm_encrypt alg key iv (fill_blocks data) aad
    | Decrypt => gcm_decrypt alg key iv data aad
    end in
  match res with
  | Some x =>
      match crypt, len with
      | Decrypt, Some y => x ← slice_to y x; Ok (NaslValue.Data x)
      | _, _ => Ok (NaslValue.Data x)
      end
  | None => crypto_error CryptographicError.InsufficientBufferSize
  end.

(** ** aes_ccm.rs *)
Definition ccm_crypt (alg : Algorithm) (tag_size : nat) (crypt : Crypt) (key nonce data aad : list byte) : B (option (list byte)) :=
  key ← as_array (key_size alg) key;
  Ok match crypt with
     | Encrypt => ccm_encrypt alg tag_size key nonce data aad
     | Decrypt => ccm_decrypt alg tag_size key nonce data aad
     end.
Definition ccm_typed (alg : Algorithm) (tag_size iv_size : nat) (crypt : Crypt) (key nonce data aad : list byte) : B (option (list byte)) :=
  if decide (tag_size ∈ [4; 6; 8; 10; 12; 14; 16]%nat) then
    if decide (iv_size ∈ [7; 8; 9; 10; 11; 12; 13]%nat) then ccm_crypt alg tag_size crypt key nonce data aad
    else Err (FnError.wrong_unnamed_argument "iv must be between 7 and 13" (pretty iv_size))
  else Err (FnError.wrong_unnamed_argument "tag_size must be 4, 6, 8, 10, 12, 14 or 16" (pretty tag_size)).
Definition ccm (alg : Algorithm) (crypt : Crypt) (auth : bool) (r : Register) : B NaslValue.t :=
  key ← get_key r;
  data ← get_data r;
  nonce ← get_iv r;
  len ← get_len r;
  let tag_size := default 16%nat len in
  aad ← (if auth then get_aad r else Ok []);
  res ← ccm_typed alg tag_size (length nonce) crypt key nonce data aad;
  match res with
  | Some x => Ok (NaslValue.Data x)
  | None => crypto_error CryptographicError.AesCcmUnableToEncrypt
  end.

(** ** aes_cmac.rs, aes_gmac.rs, des.rs *)
Definition aes_cmac (r : Register) : B NaslValue.t :=
  key ← get_key r;
  data ← get_data r;
  match cmac_aes128 key data with
  | inl x => Ok (NaslValue.Data x)
  | inr e => crypto_error (CryptographicError.AesCmacInvalidLength e)
  end.
Definition aes_gmac (r : Register) : B NaslValue.t :=
  key ← get_key r;
  data ← get_data r;
  iv ← get_iv r;
  match gmac_aes data key iv with
  | inl x => Ok (NaslValue.Data x)
  | inr e => crypto_error (CryptographicError.AesGmacError e)
  end.
Definition encrypt_des (r : Register) : B NaslValue.t :=
  positional ← total (Register.positional r);
  match positional with
  | [data; key] =>
      match key with
      | NaslValue.Data key =>
          if decide (length key = 8%nat) then
            match data with
            | NaslValue.Data data => data ← as_array 8 data; Ok (NaslValue.Data (des_encrypt_block key data))
            | _ => wrong "expected Data."
            end
          else wrong "16, 32 or 48 bytes length key"
      | _ => wrong "expected Data."
      end
  | _ => Err (FnError.from_argument (ArgumentError.MissingPositionals 2 (length positional)))
  end.

(** ** hash.rs and hmac.rs *)
Definition nasl_hash (d : Digest) (data : option string) : B NaslValue.t :=
  match data with
  | Some data => Ok (NaslValue.Data (digest d (as_bytes (chars_of data))))
  | None => Ok NaslValue.Null
  end.
Definition hash_fn (d : Digest) (r : Register) : B NaslValue.t :=
  check_args r [] [] (Some 1%nat) ;;
  data ← get_optional_positional_arg from_string_or_data r 0;
  nasl_hash d data.
Definition hmac (d : Digest) (key data : string) : B NaslValue.t :=
  match hmac_digest d (as_bytes (chars_of key)) (as_bytes (chars_of data)) with
  | Some x => Ok (NaslValue.String (encode_hex x))
  | None => Err (FnError.wrong_unnamed_argument "valid size key" "invalid size key")
  end.
Definition hmac_fn (d : Digest) (r : Register) : B NaslValue.t :=
  check_args r ["key"; "data"] [] (Some 0%nat) ;;
  key ← get_named_arg from_string r "key";
  data ← get_named_arg from_string r "data";
  hmac d key data.

(** ** rsa.rs *)
Definition rsa_result {A} (r : A + string) : B A :=
  match r with inl a => Ok a | inr e => crypto_error (CryptographicError.Rsa e) end.
(** An error that is turned into its text and back into an error: the value that the script
    should get is lost. *)
Definition rsa_result_code {A} (r : A + string) : B A :=
  match r with
  | inl a => Ok a
  | inr code => crypto_error (CryptographicError.Rsa (CryptographicError.to_string (CryptographicError.Rsa ("Error code " ++ code))))
  end.
Definition rsa_public_encrypt (rng : Rng) (data n e : list byte) (pad : option bool) : B NaslValue.t :=
  pub_key ← rsa_result (rsa_public (big_from_bytes_be n) (big_from_bytes_be e));
  enc_data ← (if default false pad then rsa_result (pkcs1_encrypt pub_key rng data)
    else x ← rsa_result (raw_encrypt pub_key (big_from_bytes_be data)); Ok (big_to_bytes_be x));
  Ok (NaslValue.Data enc_data).
Definition rsa_private_decrypt (rng : Rng) (data n e d : list byte) (pad : option bool) : B NaslValue.t :=
  priv_key ← rsa_result_code (rsa_private (big_from_bytes_be n) (big_from_bytes_be e) (big_from_bytes_be d));
  dec_data ← (if default false pad then rsa_result_code (pkcs1_decrypt priv_key data)
    else x ← rsa_result (raw_decrypt priv_key rng (big_from_bytes_be data)); Ok (big_to_bytes_be x));
  Ok (NaslValue.Data dec_data).
Definition rsa_sign (data pem : list byte) (passphrase : option string) : B NaslValue.t :=
  pem_str ← match from_utf8 pem with Some s => Ok s | None => crypto_error (CryptographicError.Rsa (utf8_error pem)) end;
  let passphrase := default "" passphrase in
  rsa ← (if decide (passphrase = "") then rsa_result (pem_private pem_str)
    else rsa_result (pem_private_encrypted pem_str passphrase));
  let hashed_data := digest Sha1 (data ++ data)%list in
  signature ← rsa_result (sign_unprefixed rsa hashed_data);
  Ok (NaslValue.Data signature).
Definition rsa_public_decrypt (rng : Rng) (sign n e : list byte) : B NaslValue.t :=
  public_key ← rsa_result (rsa_public (big_from_bytes_be n) (big_from_bytes_be e));
  enc_data ← rsa_result (pkcs1_encrypt public_key rng sign);
  Ok (NaslValue.Data enc_data).
Definition rsa_public_encrypt_fn (rng : Rng) (r : Register) : B NaslValue.t :=
  check_args r ["data"; "n"; "e"; "pad"] [] (Some 0%nat) ;;
  data ← get_named_arg from_bytes r "data";
  n ← get_named_arg from_bytes r "n";
  e ← get_named_arg from_bytes r "e";
  pad ← get_optional_named_arg from_bool r "pad";
  rsa_public_encrypt rng data n e pad.
Definition rsa_private_decrypt_fn (rng : Rng) (r : Register) : B NaslValue.t :=
  check_args r ["data"; "n"; "e"; "d"; "pad"] [] (Some 0%nat) ;;
  data ← get_named_arg from_bytes r "data";
  n ← get_named_arg from_bytes r "n";
  e ← get_named_arg from_bytes r "e";
  d ← get_named_arg from_bytes r "d";
  pad ← get_optional_named_arg from_bool r "pad";
  rsa_private_decrypt rng data n e d pad.
Definition rsa_sign_fn (r : Register) : B NaslValue.t :=
  check_args r ["data"; "pem"; "passphrase"] [] (Some 0%nat) ;;
  data ← get_named_arg from_bytes r "data";
  pem ← get_named_arg from_bytes r "pem";
  passphrase ← get_optional_named_arg from_string r "passphrase";
  rsa_sign data pem passphrase.
Definition rsa_public_decrypt_fn (rng : Rng) (r : Register) : B NaslValue.t :=
  check_args r ["sign"; "n"; "e"] [] (Some 0%nat) ;;
  sign ← get_named_arg from_bytes r "sign";
  n ← get_named_arg from_bytes r "n";
  e ← get_named_arg from_bytes r "e";
  rsa_public_decrypt rng sign n e.

(** ** The sets of functions *)
Section Sets.
Context {W : Type} (rng : Rng) (nasl_c_lib : bool).
Definition functions_of (l : list (string * (Register -> B NaslValue.t))) : FunctionSet W :=
  list_to_map (map (fun x => (x.1, stateless x.2)) l).
Definition AesCbc : FunctionSet W := functions_of
  [("aes128_cbc_encrypt", cbc Aes128 Encrypt); ("aes128_cbc_decrypt", cbc Aes128 Decrypt);
   ("aes192_cbc_encrypt", cbc Aes192 Encrypt); ("aes192_cbc_decrypt", cbc Aes192 Decrypt);
   ("aes256_cbc_encrypt", cbc Aes256 Encrypt); ("aes256_cbc_decrypt", cbc Aes256 Decrypt)].
Definition AesCtr : FunctionSet W := functions_of
  [("aes128_ctr_encrypt", ctr Aes128 Encrypt); ("aes128_ctr_decrypt", ctr Aes128 Decrypt);
   ("aes192_ctr_encrypt", ctr Aes192 Encrypt); ("aes192_ctr_decrypt", ctr Aes192 Decrypt);
   ("aes256_ctr_encrypt", ctr Aes256 Encrypt); ("aes256_ctr_decrypt", ctr Aes256 Decrypt)].
Definition AesGcmFns : FunctionSet W := functions_of
  [("aes128_gcm_encrypt", gcm Aes128 Encrypt false); ("aes128_gcm_encrypt_auth", gcm Aes128 Encrypt true);
   ("aes128_gcm_decrypt", gcm Aes128 Decrypt false); ("aes128_gcm_decrypt_auth", gcm Aes128 Decrypt true);
   ("aes192_gcm_encrypt", gcm Aes192 Encrypt false); ("aes192_gcm_encrypt_auth", gcm Aes192 Encrypt true);
   ("aes192_gcm_decrypt", gcm Aes192 Decrypt false); ("aes192_gcm_decrypt_auth", gcm Aes192 Decrypt true);
   ("aes256_gcm_encrypt", gcm Aes256 Encrypt false); ("aes256_gcm_encrypt_auth", gcm Aes256 Encrypt true);
   ("aes256_gcm_decrypt", gcm Aes256 Decrypt false); ("aes256_gcm_decrypt_auth", gcm Aes256 Decrypt true)].
Definition AesCcm : FunctionSet W := functions_of
  [("aes128_ccm_encrypt", ccm Aes128 Encrypt false); ("aes128_ccm_encrypt_auth", ccm Aes128 Encrypt true);
   ("aes128_ccm_decrypt", ccm Aes128 Decrypt false); ("aes128_ccm_decrypt_auth", ccm Aes128 Decrypt true);
   ("aes192_ccm_encrypt", ccm Aes192 Encrypt false); ("aes192_ccm_encrypt_auth", ccm Aes192 Encrypt true);
   ("aes192_ccm_decrypt", ccm Aes192 Decrypt false); ("aes192_ccm_decrypt_auth", ccm Aes192 Decrypt true);
   ("aes256_ccm_encrypt", ccm Aes256 Encrypt false); ("aes256_ccm_encrypt_auth", ccm Aes256 Encrypt true);
   ("aes256_ccm_decrypt", ccm Aes256 Decrypt false); ("aes256_ccm_decrypt_auth", ccm Aes256 Decrypt true)].
Definition AesCmac : FunctionSet W := functions_of [("aes_mac_cbc", aes_cmac); ("aes_cmac", aes_cmac)].
Definition AesGmac : FunctionSet W := functions_of (if nasl_c_lib then [("aes_gmac", aes_gmac)] else []).
Definition Des : FunctionSet W := functions_of [("DES", encrypt_des)].
Definition BfCbc : FunctionSet W := functions_of [("bf_cbc_encrypt", bf_cbc Encrypt); ("bf_cbc_decrypt", bf_cbc Decrypt)].
Definition Hash : FunctionSet W := functions_of
  [("MD2", hash_fn Md2); ("MD4", hash_fn Md4); ("MD5", hash_fn Md5); ("RIPEMD160", hash_fn Ripemd160); ("SHA1", hash_fn Sha1);
   ("SHA256", hash_fn Sha256); ("SHA512", hash_fn Sha512)].
Definition HmacFns : FunctionSet W := functions_of
  [("HMAC_MD2", hmac_fn Md2); ("HMAC_MD5", hmac_fn Md5); ("HMAC_RIPEMD160", hmac_fn Ripemd160); ("HMAC_SHA1", hmac_fn Sha1);
   ("HMAC_SHA256", hmac_fn Sha256); ("HMAC_SHA384", hmac_fn Sha384); ("HMAC_SHA512", hmac_fn Sha512)].
Definition Rsa : FunctionSet W := functions_of
  [("rsa_public_encrypt", rsa_public_encrypt_fn rng); ("rsa_private_decrypt", rsa_private_decrypt_fn rng); ("rsa_sign", rsa_sign_fn);
   ("rsa_public_decrypt", rsa_public_decrypt_fn rng)].
Definition Cryptographic : FunctionSet W :=
  AesCcm ∪ HmacFns ∪ AesCbc ∪ AesCtr ∪ AesGcmFns ∪ AesCmac ∪ AesGmac ∪ Hash ∪ Des ∪ Rsa ∪ BfCbc.
End Sets.
End Functions.

(** ** rc4.rs *)

(** The stream cipher of the crate: a state from a key, and data with the stream applied. *)
Class Rc4Lib := { Rc4State : Type; rc4_new : list byte -> Rc4State; rc4_apply : Rc4State -> list byte -> list byte * Rc4State }.

(** The lengths of the variants of [Rc4Key]. *)
Definition rc4_key_sizes : list nat :=
  (seq 1 64 ++ [70; 80; 90; 100; 200; 300; 400; 500; 128; 256; 512; 1000; 1024])%nat%list.

Section Rc4.
Context `{HashOrder} `{Features} `{BuildProfile} `{CryptoLib} `{Rc4Lib}.
Record CipherHandler := mkHandler { handler_id : Z; handler : Rc4State }.
Abbreviation C := (M (list CipherHandler) FnError).
Definition rc4_error {A} (s : string) : C A := throw (CryptographicError.into (CryptographicError.Rc4 s)).
Definition build_handler_from_key (key : list byte) : C Rc4State :=
  if decide (length key ∈ rc4_key_sizes) then mret (rc4_new key) else rc4_error "RC4 Key size not supported".

Fixpoint new_id_loop (new_val : Z) (l : list Z) : option Z :=
  match l with
  | [] => Some new_val
  | [v] => arith_i 32 (v + 1)
  | v :: l' => if (new_val =? v)%Z then next ← arith_i 32 (new_val + 1); new_id_loop next l' else Some new_val
  end.
Definition get_new_cipher_id (handlers : list CipherHandler) : option Z :=
  new_id_loop 5000 (merge_sort Z.le (map handler_id handlers)).

(** [find(|(_i, h)| h.id == hd)] *)
Definition find_handler (hd : Z) (l : list CipherHandler) : option (nat * CipherHandler) := list_find (fun h => handler_id h = hd) l.
(** The number in the argument [hd], cut to 32 bits *)
Definition named_hd (r : Register) : B (option Z) :=
  o ← total (Register.named r "hd");
  Ok match o with Some (Value (NaslValue.Number x)) => Some (wrap_i 32 x) | _ => None end.
(** An argument that must not be empty; whatever is wrong with it is the same error. *)
Definition non_empty (m : B (list byte)) (msg : string) : C (list byte) :=
  match m with
  | Ok (b :: l) => mret (b :: l)
  | Ok [] | Err _ => rc4_error msg
  | Panic => panic
  | OutOfFuel => out_of_fuel
  end.

Definition close_stream_cipher (r : Register) : C NaslValue.t :=
  o ← of_outcome (named_hd r);
  match o with
  | None => rc4_error "Handler ID not found"
  | Some hd =>
      handlers ← get;
      match find_handler hd handlers with
      | Some (i, _) => put (delete i handlers) ;; mret (NaslValue.Number 0)
      | None => rc4_error ("Handler ID " ++ pretty hd ++ " not found")
      end
  end.
Definition open_rc4_cipher (r : Register) : C NaslValue.t :=
  key ← non_empty (get_key r) "Missing Key argument";
  rc_handler ← build_handler_from_key key;
  handlers ← get;
  id ← or_panic (get_new_cipher_id handlers);
  put (handlers ++ [mkHandler id rc_handler])%list ;;
  mret (NaslValue.Number id).
Definition rc4_encrypt (r : Register) : C NaslValue.t :=
  data ← non_empty (get_data r) "Missing data argument";
  o ← of_outcome (named_hd r);
  let hd := default 0%Z o in
  handlers ← get;
  match (if (0 <? hd)%Z then find_handler hd handlers else None) with
  | Some (i, h) =>
      let '(d, s) := rc4_apply (handler h) data in
      put (<[i := mkHandler (handler_id h) s]> handlers) ;;
      mret (NaslValue.Data d)
  | None =>
      key ← non_empty (get_key r) "Missing Key argument";
      rc_handler ← build_handler_from_key key;
      mret (NaslValue.Data (rc4_apply rc_handler data).1)
  end.
Definition CipherHandlers : FunctionSet (list CipherHandler) :=
  list_to_map [("close_stream_cipher", close_stream_cipher); ("open_rc4_cipher", open_rc4_cipher); ("rc4_encrypt", rc4_encrypt)].
End Rc4.

(** ** Theorems *)

(** *** Modes *)
Definition zero_pad (n : nat) (d : list byte) : list byte := (d ++ repeat (Z_byte 0) ((n - length d mod n) mod n))%list.

(** What the crates document of the modes: decrypting is the inverse of encrypting, up to the
    padding, and the counter mode keeps lengths and is its own inverse. *)
Class ModeLaws `{CryptoLib} := {
  block_size : Algorithm -> nat;
  cbc_inverse alg key iv d : cbc_invalid alg key iv = None ->
    cbc_decrypt_unpadded alg key iv (cbc_encrypt_zero_padded alg key iv d) = inl (zero_pad (block_size alg) d);
  cbc_length alg key iv d : length (cbc_encrypt_zero_padded alg key iv d) = length (zero_pad (block_size alg) d);
  ctr64_inverse alg key iv d : ctr64_apply alg key iv (ctr64_apply alg key iv d) = d;
  ctr64_length alg key iv d : length (ctr64_apply alg key iv d) = length d;
  gcm_inverse alg key nonce d aad e : gcm_encrypt alg key nonce d aad = Some e -> gcm_decrypt alg key nonce e aad = Some d;
  ccm_inverse alg tag key nonce d aad e : ccm_encrypt alg tag key nonce d aad = Some e -> ccm_decrypt alg tag key nonce e aad = Some d
}.

Section ModeTheorems.
Context `{HashOrder} `{CryptoLib}.
(** The arguments of a call. *)
Definition arguments (r : Register) (key iv data : list byte) (len : option nat) : Prop :=
  get_key r = Ok key /\ get_iv r = Ok iv /\ get_data r = Ok data /\ get_len r = Ok len.

Lemma slice_all d l : slice_to (length d) (d ++ l) = Ok d.
Proof. unfold slice_to. rewrite decide_True by (rewrite length_app; lia). by rewrite take_app_length. Qed.
Lemma slice_whole l : slice_to (length l) l = Ok l.
Proof. unfold slice_to. rewrite decide_True by done. by rewrite firstn_all. Qed.
Lemma fill_blocks_app d : exists z, fill_blocks d = (d ++ z)%list.
Proof. unfold fill_blocks. case_decide; [exists []; by rewrite app_nil_r|by eexists]. Qed.

Inductive Mode := CbcMode | CtrMode | GcmMode (auth : bool) | CcmMode (auth : bool).
Definition run_mode (m : Mode) (alg : Algorithm) (crypt : Crypt) (r : Register) : B NaslValue.t :=
  match m with CbcMode => cbc alg crypt r | CtrMode => ctr alg crypt r | GcmMode a => gcm alg crypt a r | CcmMode a => ccm alg crypt a r end.
(** The length for decrypting: that of the data, except in CCM, where it is the size of the tag. *)
Definition length_for (m : Mode) (data : list byte) (len : option nat) : option nat :=
  match m with CcmMode _ => len | _ => Some (length data) end.

(** In every mode and with every cipher, decrypting what was encrypted gives the data back, if
    the length of the data is given for decrypting: without it CBC and GCM give the zeros of
    the last block, too. *)
Theorem decrypt_inverts_encrypt `{!ModeLaws} (m : Mode) (alg : Algorithm) r r' key iv data len e :
  arguments r key iv data len -> run_mode m alg Encrypt r = Ok (NaslValue.Data e) ->
  arguments r' key iv e (length_for m data len) -> get_aad r' = get_aad r ->
  run_mode m alg Decrypt r' = Ok (NaslValue.Data data).
Proof.
  intros (Hk & Hi & Hd & Hl) He (Hk' & Hi' & Hd' & Hl') Ha. destruct m as [| |auth|auth]; cbn [run_mode length_for] in *.
  - unfold cbc in *. rewrite Hk, Hi, Hd in He. rewrite Hk', Hi', Hd'. cbn in *. destruct (cbc_invalid alg key iv) eqn:Hv; [done|].
    injection He as <-. rewrite Hl'. cbn. rewrite decide_False by (rewrite cbc_length; unfold zero_pad; rewrite length_app; lia).
    rewrite cbc_inverse by done. unfold zero_pad. by rewrite slice_all.
  - unfold ctr in *. rewrite Hk, Hi, Hd, Hl in He. rewrite Hk', Hi', Hd', Hl'. cbn in *.
    destruct (as_array (key_size alg) key) as [k| | |] eqn:Ek; try done. cbn in *. destruct (as_array 16 iv) as [v| | |] eqn:Ev; try done.
    cbn in *. injection He as <-. by rewrite ctr64_inverse, slice_whole.
  - unfold gcm in *. rewrite Hk, Hi, Hd, Hl in He. rewrite Hk', Hi', Hd', Hl'. cbn in *. rewrite Ha.
    destruct (if auth then get_aad r else Ok []) as [aad| | |]; try done. cbn in *.
    destruct (as_array (key_size alg) key) as [k| | |]; try done. cbn in *. destruct (as_array 12 iv) as [v| | |]; try done. cbn in *.
    destruct (gcm_encrypt _ _ _ _ _) as [x|] eqn:Ex; [|done]. injection He as <-. rewrite (gcm_inverse _ _ _ _ _ _ Ex).
    destruct (fill_blocks_app data) as [z ->]. by rewrite slice_all.
  - unfold ccm in *. rewrite Hk, Hi, Hd, Hl in He. rewrite Hk', Hi', Hd', Hl'. cbn in *. rewrite Ha.
    destruct (if auth then get_aad r else Ok []) as [aad| | |]; try done. cbn in *. unfold ccm_typed, ccm_crypt in *.
    case_decide; [|done]. case_decide; [|done]. destruct (as_array (key_size alg) key) as [k| | |]; try done. cbn in *.
    destruct (ccm_encrypt _ _ _ _ _ _) as [x|] eqn:Ex; [|done]. injection He as <-. by rewrite (ccm_inverse _ _ _ _ _ _ _ Ex).
Qed.

(** A key, nonce or length that does not fit: in CTR and GCM the function panics for any key
    of another length than the cipher's, for any vector of another length than 16 in CTR and
    12 in GCM, and, when decrypting, for a length above that of the result; with lengths that
    fit CTR never fails. *)
Theorem stream_modes_panic `{!ModeLaws} (alg : Algorithm) (crypt : Crypt) r key iv data len :
  arguments r key iv data len ->
  (ctr alg crypt r = Panic <-> length key <> key_size alg \/ length iv <> 16%nat
     \/ crypt = Decrypt /\ (length data < default (length data) len)%nat)
  /\ (ctr alg crypt r <> Panic -> exists d, ctr alg crypt r = Ok (NaslValue.Data d))
  /\ (length key <> key_size alg \/ length iv <> 12%nat -> gcm alg crypt false r = Panic).
Proof.
  intros (Hk & Hi & Hd & Hl). unfold ctr, gcm. rewrite Hk, Hi, Hd, Hl. cbn. unfold as_array.
  destruct (decide (length key = key_size alg)) as [Ek|Ek]; cbn; [|tauto].
  split; [|split]; [| |intros [?|Hn]; [done|]; by rewrite decide_False].
  all: destruct (decide (length iv = 16%nat)) as [Ev|Ev]; cbn; [|tauto].
  - destruct crypt; cbn; [intuition congruence|]. unfold slice_to. rewrite ctr64_length.
    destruct (decide (default (length data) len <= length data)%nat); cbn; [|intuition lia]. split; [done|]. intros [?|[?|[_ ?]]]; lia.
  - destruct crypt; cbn; [by eexists|]. unfold slice_to. rewrite ctr64_length. case_decide; cbn; [by eexists|done].
Qed.
End ModeTheorems.

(** *** Digests and blocks *)
Section DigestTheorems.
Context `{HashOrder} `{Features} `{BuildProfile} `{CryptoLib}.
Definition ascii_bytes (d : list byte) : Prop := Forall (fun b => byte_Z b < 128)%Z d.

Lemma encode_byte b : utf8_encode (byte_as_char b) = if (byte_Z b <? 128)%Z then [b] else
  [Z_byte (0xc0 + byte_Z b / 64); Z_byte (0x80 + byte_Z b mod 64)].
Proof. destruct b; vm_compute; reflexivity. Qed.
Lemma encode_bytes_length d : (length d <= length (as_bytes (map byte_as_char d)))%nat
  /\ (length (as_bytes (map byte_as_char d)) = length d -> ascii_bytes d).
Proof.
  induction d as [|b d [IH1 IH2]]; [split; [done|constructor]|]. unfold as_bytes in *. cbn [map]. rewrite bind_cons, length_app, encode_byte.
  destruct (byte_Z b <? 128)%Z eqn:Hb; cbn [length]; split; try lia. intros Hl. constructor; [lia|]. apply IH2. lia.
Qed.

(** The bytes that are hashed for a value of bytes are those of the text with these
    characters: they are the bytes themselves just if all are ASCII. *)
Theorem hashed_bytes (d : Digest) (data : list byte) :
  from_string_or_data (NaslValue.Data data) = Ok (bytes_to_str data)
  /\ nasl_hash d (Some (bytes_to_str data)) = Ok (NaslValue.Data (digest d (as_bytes (map byte_as_char data))))
  /\ (as_bytes (map byte_as_char data) = data <-> ascii_bytes data).
Proof.
  split; [done|]. split; [unfold nasl_hash, bytes_to_str; by rewrite chars_of_string|]. split.
  - intros E. apply encode_bytes_length. by rewrite E.
  - induction 1 as [|b l Hb Hl IH]; [done|]. unfold as_bytes in *. cbn [map]. rewrite bind_cons, encode_byte.
    rewrite (proj2 (Z.ltb_lt _ _)) by done. cbn. by rewrite IH.
Qed.
End DigestTheorems.

(** *** Stream ciphers *)
Section Rc4Theorems.
Context `{HashOrder} `{Features} `{BuildProfile} `{CryptoLib} `{Rc4Lib}.
Abbreviation Handlers := (list CipherHandler).

(** After [n] calls: every cipher has a number of its own, from 5000 on. *)
Definition handlers_ok (n : Z) (h : Handlers) : Prop :=
  NoDup (map handler_id h) /\ Forall (fun id => 5000 <= id < 5000 + n)%Z (map handler_id h).

Lemma new_id_loop_fresh n l v : (5000 + n < 2 ^ 31)%Z -> StronglySorted Z.le l -> NoDup l ->
  Forall (fun x => v <= x < 5000 + n)%Z l -> (5000 <= v)%Z -> l <> [] ->
  exists id, new_id_loop v l = Some id /\ id ∉ l /\ (v <= id <= 5000 + n)%Z.
Proof.
  intros Hn. revert v. induction l as [|x l IH]; intros v Hs Hd Hf Hv Hne; [done|].
  inversion Hs as [|? ? Hs' Hx]; subst. inversion Hd as [|? ? Hx' Hd']; subst. inversion Hf as [|? ? Hvx Hf']; subst.
  destruct l as [|y l].
  - exists (x + 1)%Z. cbn. unfold arith_i. rewrite (proj2 (in_i_spec 32 (x + 1))) by (cbn; lia). split; [done|]. split; [|lia]. set_unfold. lia.
  - change (new_id_loop v (x :: y :: l)) with
      (if (v =? x)%Z then next ← arith_i 32 (v + 1); new_id_loop next (y :: l) else Some v).
    destruct (Z.eqb_spec v x) as [->|Hvne].
    + unfold arith_i. rewrite (proj2 (in_i_spec 32 (x + 1))) by (cbn; lia). cbn [mbind option_bind].
      destruct (IH (x + 1)%Z) as (id & Hid & Hnew & Hr); [done|done| |lia|done|].
      * rewrite Forall_forall in *. intros z Hz. specialize (Hx z Hz). specialize (Hf' z Hz). assert (z <> x) by (by intros ->). lia.
      * exists id. split; [done|]. split; [|lia]. rewrite elem_of_cons. intros [->|Hin]; [lia|done].
    + exists v. split; [done|]. split; [|lia]. rewrite elem_of_cons. intros [->|Hin]; [done|].
      rewrite Forall_forall in Hx. specialize (Hx v Hin). lia.
Qed.
Lemma new_cipher_id_fresh n h : (0 <= n)%Z -> (5000 + n < 2 ^ 31)%Z -> handlers_ok n h ->
  exists id, get_new_cipher_id h = Some id /\ id ∉ map handler_id h /\ (5000 <= id <= 5000 + n)%Z.
Proof.
  intros Hn0 Hn [Hd Hf]. unfold get_new_cipher_id. destruct h as [|x h]; [exists 5000%Z; split; [done|]; split; [set_solver|lia]|].
  set (l := map handler_id (x :: h)) in *. pose proof (merge_sort_Permutation Z.le l) as Hp.
  destruct (new_id_loop_fresh n (merge_sort Z.le l) 5000) as (id & Hid & Hnew & Hr).
  - done.
  - apply (StronglySorted_merge_sort Z.le).
  - by rewrite Hp.
  - by rewrite Hp.
  - lia.
  - intros E. rewrite E in Hp. by apply Permutation_nil_l in Hp.
  - exists id. split; [done|]. by rewrite Hp in Hnew.
Qed.

(** What a call can do to the table. *)
Inductive effect (h : Handlers) : string * Register -> Handlers -> Prop :=
| effect_none c : effect h c h
| effect_open c id s : get_new_cipher_id h = Some id -> effect h c (h ++ [mkHandler id s])%list
| effect_close r i x : h !! i = Some x -> named_hd r = Ok (Some (handler_id x)) -> effect h ("close_stream_cipher", r) (delete i h)
| effect_use r i x s d : h !! i = Some x -> named_hd r = Ok (Some (handler_id x)) -> get_data r = Ok d -> d <> [] ->
    effect h ("rc4_encrypt", r) (<[i := mkHandler (handler_id x) s]> h).
Lemma find_handler_Some hd h i x : find_handler hd h = Some (i, x) -> h !! i = Some x /\ handler_id x = hd.
Proof. intros Hf. apply list_find_Some in Hf as (Hi & Hx & _). done. Qed.
Lemma non_empty_run m msg h : exists o, non_empty m msg h = (o, h) /\ match o with Ok d => m = Ok d /\ d <> [] | _ => True end.
Proof. destruct m as [[|b l]|e| |]; cbn; by eexists. Qed.
Lemma build_handler_run key h : exists o, build_handler_from_key key h = (o, h).
Proof. unfold build_handler_from_key. case_decide; by eexists. Qed.

Lemma close_effect r h : effect h ("close_stream_cipher", r) (close_stream_cipher r h).2.
Proof.
  unfold close_stream_cipher, mbind, M_bind, of_outcome. destruct (named_hd r) as [[hd|]|e| |] eqn:Hr; cbn; try constructor.
  destruct (find_handler hd h) as [[i x]|] eqn:Hf; cbn; [|constructor]. apply find_handler_Some in Hf as [Hi <-]. by econstructor.
Qed.
Lemma open_effect r h : effect h ("open_rc4_cipher", r) (open_rc4_cipher r h).2.
Proof.
  unfold open_rc4_cipher, mbind, M_bind. destruct (non_empty_run (get_key r) "Missing Key argument" h) as (o & -> & _).
  destruct o as [key| | |]; try constructor. destruct (build_handler_run key h) as (o & ->). destruct o as [s| | |]; try constructor. cbn.
  unfold or_panic. destruct (get_new_cipher_id h) as [id|] eqn:Hid; cbn; [by apply effect_open|constructor].
Qed.
Lemma encrypt_effect r h : effect h ("rc4_encrypt", r) (rc4_encrypt r h).2.
Proof.
  unfold rc4_encrypt, mbind, M_bind. destruct (non_empty_run (get_data r) "Missing data argument" h) as (o & -> & Hdata).
  destruct o as [data| | |]; try constructor. destruct Hdata as [Hdata Hne]. unfold of_outcome. destruct (named_hd r) as [hd|e| |] eqn:Hr; cbn; try constructor.
  destruct (0 <? default 0 hd)%Z eqn:Hp; [destruct (find_handler _ h) as [[i x]|] eqn:Hf|].
  - apply find_handler_Some in Hf as [Hi Hx]. destruct (rc4_apply (handler x) data) as [d s]. cbn. eapply effect_use; [done| |exact Hdata|done].
    destruct hd as [hd|]; cbn in *; [by subst|lia].
  - destruct (non_empty_run (get_key r) "Missing Key argument" h) as (o & -> & _). destruct o as [key| | |]; try constructor.
    destruct (build_handler_run key h) as (o & ->). destruct o; constructor.
  - destruct (non_empty_run (get_key r) "Missing Key argument" h) as (o & -> & _). destruct o as [key| | |]; try constructor.
    destruct (build_handler_run key h) as (o & ->). destruct o; constructor.
Qed.
Lemma effect_ok n c h h' : (0 <= n)%Z -> (5000 + n < 2 ^ 31)%Z -> handlers_ok n h -> effect h c h' -> handlers_ok (n + 1) h'.
Proof.
  intros Hn0 Hn Hok He. assert (handlers_ok (n + 1) h) as [Hd Hf].
  { destruct Hok as [Hd Hf]. split; [done|]. eapply Forall_impl; [exact Hf|]. cbn. lia. }
  destruct He as [c|c id s Hid|r i x Hi Hr|r i x s d Hi Hr _ _]; [done|..]; unfold handlers_ok.
  - destruct (new_cipher_id_fresh n h Hn0 Hn Hok) as (id' & Hid' & Hnew & Hrange). rewrite Hid in Hid'. injection Hid' as <-.
    rewrite map_app. split.
    + apply NoDup_app. split; [done|]. split; [|apply NoDup_singleton]. cbn. intros y Hy ->%list_elem_of_singleton. done.
    + apply Forall_app. split; [done|]. repeat constructor; cbn; lia.
  - pose proof (fmap_Permutation handler_id _ _ (delete_Permutation h i x Hi)) as Hp. change (map handler_id h) with (handler_id <$> h) in *.
    rewrite Hp in Hd, Hf. cbn in Hd, Hf. inversion Hd; inversion Hf; by subst.
  - assert (map handler_id (<[i := mkHandler (handler_id x) s]> h) = map handler_id h) as ->; [|done].
    change (handler_id <$> <[i := mkHandler (handler_id x) s]> h = handler_id <$> h). rewrite list_fmap_insert. cbn.
    apply list_insert_id. by rewrite list_lookup_fmap, Hi.
Qed.

(** A script's calls one after the other. *)
Definition cipher_step (h : Handlers) (call : string * Register) : outcome FnError NaslValue.t * Handlers :=
  match CipherHandlers !! call.1 with Some f => f call.2 h | None => (Ok NaslValue.Null, h) end.
(** What a call gives to the cipher [id], and whether it closes it *)
Definition feeds (id : Z) (call : string * Register) : option (list byte) :=
  if decide (call.1 = "rc4_encrypt") then
    match named_hd call.2, get_data call.2 with
    | Ok (Some hd), Ok (b :: l) => if decide (hd = id) then Some (b :: l) else None
    | _, _ => None
    end
  else None.
Definition closes (id : Z) (call : string * Register) : Prop :=
  call.1 = "close_stream_cipher" /\ named_hd call.2 = Ok (Some id).
(** All that calls give to the cipher, all that they return for it, and the table after them *)
Fixpoint stream_of (id : Z) (h : Handlers) (calls : list (string * Register)) : list byte * list byte * Handlers :=
  match calls with
  | [] => ([], [], h)
  | c :: calls =>
      let '(o, h1) := cipher_step h c in
      let '(input, output, h2) := stream_of id h1 calls in
      match feeds id c, o with
      | Some d, Ok (NaslValue.Data e) => ((d ++ input)%list, (e ++ output)%list, h2)
      | Some d, _ => ((d ++ input)%list, output, h2)
      | None, _ => (input, output, h2)
      end
  end.

Lemma cipher_step_effect h c : effect h c (cipher_step h c).2.
Proof.
  destruct c as [name r]. unfold cipher_step. cbn [fst snd]. destruct (CipherHandlers !! name) as [f|] eqn:Hf; [|constructor].
  apply elem_of_list_to_map_2 in Hf. set_unfold in Hf. destruct_or?; destruct_and?; simplify_eq;
    [apply close_effect|apply open_effect|apply encrypt_effect].
Qed.
Lemma found n h id s : handlers_ok n h -> mkHandler id s ∈ h -> exists i, find_handler id h = Some (i, mkHandler id s) /\ h !! i = Some (mkHandler id s).
Proof.
  intros [Hd _] Hin. destruct (find_handler id h) as [[i x]|] eqn:Hf.
  - apply find_handler_Some in Hf as [Hi Hx]. apply list_elem_of_lookup in Hin as [j Hj]. assert (i = j) as ->.
    { eapply (NoDup_lookup _ i j id Hd); change (map handler_id h) with (handler_id <$> h); rewrite list_lookup_fmap;
        [by rewrite Hi; cbn; rewrite Hx|by rewrite Hj]. }
    rewrite Hj in Hi. injection Hi as <-. by exists j.
  - apply list_find_None in Hf. rewrite Forall_forall in Hf. by destruct (Hf _ Hin).
Qed.
Lemma feed_run n h id s c d : handlers_ok n h -> mkHandler id s ∈ h -> feeds id c = Some d ->
  exists h', cipher_step h c = (Ok (NaslValue.Data (rc4_apply s d).1), h') /\ mkHandler id (rc4_apply s d).2 ∈ h'.
Proof.
  intros Hok Hin Hfeed. destruct (found n h id s Hok Hin) as (i & Hfind & Hi). destruct Hok as [_ Hf].
  assert (5000 <= id)%Z as Hpos.
  { rewrite Forall_forall in Hf. apply (Hf id). apply (list_elem_of_fmap_2 handler_id _ _ Hin). }
  destruct c as [name r]. unfold feeds in Hfeed. cbn in *. case_decide as Hn; [subst name|done].
  destruct (named_hd r) as [[hd|]| | |] eqn:Hr; try done. destruct (get_data r) as [[|b l]| | |] eqn:Hg; try done.
  case_decide; [subst hd|done]. injection Hfeed as <-.
  change (cipher_step h ("rc4_encrypt", r)) with (rc4_encrypt r h). unfold rc4_encrypt, mbind, M_bind. rewrite Hg, Hr. cbn.
  rewrite (proj2 (Z.ltb_lt 0 id)) by lia. rewrite Hfind. cbn. destruct (rc4_apply s (b :: l)) as [e s'] eqn:He. cbn.
  eexists. split; [done|]. apply list_elem_of_lookup. exists i. apply list_lookup_insert_eq. by eapply lookup_lt_Some.
Qed.
Lemma other_run n h id s c : handlers_ok n h -> mkHandler id s ∈ h -> feeds id c = None -> ~ closes id c ->
  mkHandler id s ∈ (cipher_step h c).2.
Proof.
  intros Hok Hin Hfeed Hclose. destruct (found n h id s Hok Hin) as (k & _ & Hk).
  destruct (cipher_step_effect h c) as [c|c id' s' Hid|r i x Hi Hr|r i x s' d Hi Hr Hd Hne]; [done|set_solver|..].
  - apply list_elem_of_lookup. destruct (decide (i = k)) as [->|Hik].
    { rewrite Hk in Hi. injection Hi as <-. by destruct Hclose. }
    destruct (decide (k < i)%nat); [exists k; by rewrite list_lookup_delete_lt|].
    exists (k - 1)%nat. rewrite list_lookup_delete_ge by lia. by replace (S (k - 1)) with k by lia.
  - apply list_elem_of_lookup. exists k. destruct (decide (i = k)) as [->|Hik]; [|by rewrite list_lookup_insert_ne].
    rewrite Hk in Hi. injection Hi as <-. unfold feeds in Hfeed. cbn in *. rewrite Hr, Hd in Hfeed. destruct d; [done|].
    by destruct (decide (id = id)).
Qed.

(** What the crate documents of the cipher: the stream goes on from piece to piece. *)
Class Rc4Laws := {
  rc4_apply_nil s : rc4_apply s [] = ([], s);
  rc4_apply_app s a b : rc4_apply s (a ++ b)%list =
    ((rc4_apply s a).1 ++ (rc4_apply (rc4_apply s a).2 b).1, (rc4_apply (rc4_apply s a).2 b).2)%list
}.

(** C29: However a script opens, uses and closes other ciphers in between, the pieces it encrypts
    with one cipher are encrypted as one stream, from where the cipher was; the cipher stays
    in the table under its number until it is closed, and no other cipher gets the number. *)
Theorem rc4_stream_continues `{!Rc4Laws} (calls : list (string * Register)) (n : Z) (h : Handlers) (id : Z) (s : Rc4State) :
  (0 <= n)%Z -> (5000 + n + Z.of_nat (length calls) < 2 ^ 31)%Z -> handlers_ok n h -> mkHandler id s ∈ h ->
  Forall (fun c => ~ closes id c) calls ->
  let '(input, output, h') := stream_of id h calls in
  output = (rc4_apply s input).1 /\ mkHandler id (rc4_apply s input).2 ∈ h' /\ handlers_ok (n + Z.of_nat (length calls)) h'.
Proof.
  revert n h s. induction calls as [|c calls IH]; intros n h s Hn0 Hn Hok Hin Hc; cbn [stream_of length] in *.
  { rewrite rc4_apply_nil. by replace (n + Z.of_nat 0)%Z with n by lia. }
  inversion Hc as [|? ? Hc1 Hc2]; subst. pose proof (effect_ok n c h _ Hn0 ltac:(lia) Hok (cipher_step_effect h c)) as Hok1.
  replace (n + Z.of_nat (S (length calls)))%Z with (n + 1 + Z.of_nat (length calls))%Z by lia.
  destruct (feeds id c) as [d|] eqn:Hfeed.
  - destruct (feed_run n h id s c d Hok Hin Hfeed) as (h1 & Hstep & Hin1). rewrite Hstep in *.
    specialize (IH (n + 1)%Z h1 (rc4_apply s d).2 ltac:(lia) ltac:(lia) Hok1 Hin1 Hc2).
    destruct (stream_of id h1 calls) as [[input output] h2]. destruct IH as (-> & Hin2 & Hok2). rewrite rc4_apply_app. done.
  - pose proof (other_run n h id s c Hok Hin Hfeed Hc1) as Hin1. destruct (cipher_step h c) as [o h1]. cbn in *.
    specialize (IH (n + 1)%Z h1 s ltac:(lia) ltac:(lia) Hok1 Hin1 Hc2). by destruct (stream_of id h1 calls) as [[input output] h2].
Qed.
End Rc4Theorems.

(** ** Examples *)
Module CryptoExample.
Import SocketExample.
#[local] Existing Instances plain_order release_build features.

(** The cipher RC4: a permutation of the bytes and two indices. *)
Record Arc4 := mkArc4 { arc_table : list Z; arc_i : nat; arc_j : nat }.
Definition at_ (l : list Z) (i : nat) : Z := default 0%Z (l !! (i mod 256)%nat).
Definition swap (l : list Z) (i j : nat) : list Z := <[(i mod 256)%nat := at_ l j]> (<[(j mod 256)%nat := at_ l i]> l).
Fixpoint schedule (key : list byte) (l : list Z) (i j n : nat) : list Z :=
  match n with
  | 0 => l
  | S n =>
      let j := ((j + Z.to_nat (at_ l i) + Z.to_nat (byte_Z (default x00 (key !! (i mod length key)%nat)))) mod 256)%nat in
      schedule key (swap l i j) (S i) j n
  end.
Definition arc4_next (s : Arc4) : Z * Arc4 :=
  let i := (S (arc_i s) mod 256)%nat in
  let j := ((arc_j s + Z.to_nat (at_ (arc_table s) i)) mod 256)%nat in
  let t := swap (arc_table s) i j in
  (at_ t (Z.to_nat (at_ t i + at_ t j)), mkArc4 t i j).
Fixpoint arc4_apply (s : Arc4) (d : list byte) : list byte * Arc4 :=
  match d with
  | [] => ([], s)
  | b :: d =>
      let '(k, s1) := arc4_next s in
      let '(e, s2) := arc4_apply s1 d in
      (Z_byte (Z.lxor (byte_Z b) k) :: e, s2)
  end.
#[local] Instance arc4 : Rc4Lib := {|
  Rc4State := Arc4; rc4_apply := arc4_apply;
  rc4_new := fun key => mkArc4 (schedule key (map Z.of_nat (seq 0 256)) 0 0 256) 0 0
|}.
#[local] Instance arc4_laws : Rc4Laws.
Proof.
  split; [done|]. intros s a b. revert s. induction a as [|x a IH]; intros s; [cbn; by destruct (arc4_apply s b)|].
  cbn [rc4_apply arc4 arc4_apply app] in *. destruct (arc4_next s) as [k s1]. rewrite IH. destruct (arc4_apply s1 a) as [e s2]. done.
Qed.

(** A library whose ciphers do nothing but fill blocks. *)
Definition plain_block (alg : Algorithm) : nat := match alg with Blowfish => 8 | _ => 16 end.
#[local] Instance plain : CryptoLib := {|
  key_size := fun alg => match alg with Aes128 => 16 | Aes192 => 24 | _ => 32 end;
  cbc_invalid := fun _ _ iv => if decide (iv = []) then Some "Invalid Length" else None;
  cbc_encrypt_zero_padded := fun alg _ _ d => zero_pad (plain_block alg) d; cbc_decrypt_unpadded := fun _ _ _ d => inl d;
  ctr64_apply := fun _ _ _ d => d; gcm_encrypt := fun _ _ _ d _ => Some d; gcm_decrypt := fun _ _ _ d _ => Some d;
  ccm_encrypt := fun _ _ _ _ d _ => Some d; ccm_decrypt := fun _ _ _ _ d _ => Some d;
  cmac_aes128 := fun _ d => inl d; gmac_aes := fun d _ _ => inl d; des_encrypt_block := fun _ d => d;
  digest := fun _ d => d; hmac_digest := fun _ _ d => Some d;
  BigUint := list byte; big_from_bytes_be := fun d => d; big_to_bytes_be := fun d => d;
  RsaPublic := unit; RsaPrivate := unit; Rng := unit; rsa_public := fun _ _ => inl tt; rsa_private := fun _ _ _ => inl tt;
  pkcs1_encrypt := fun _ _ d => inl d; raw_encrypt := fun _ d => inl d; pkcs1_decrypt := fun _ d => inl d; raw_decrypt := fun _ _ d => inl d;
  pem_private := fun _ => inl tt; pem_private_encrypted := fun _ _ => inl tt; sign_unprefixed := fun _ d => inl d;
  utf8_error := fun _ => "invalid utf-8"; function_debug := fun _ => "Function"
|}.
#[local] Instance plain_laws : ModeLaws.
Proof. by refine {| block_size := plain_block |}; intros; simplify_eq/=. Qed.

(** The test vectors of the cipher. *)
Example arc4_key : (rc4_apply (rc4_new (text "Key")) (text "Plaintext")).1 = [xbb; xf3; x16; xe8; xd9; x40; xaf; x0a; xd3].
Proof. vm_compute. reflexivity. Qed.
Example arc4_wiki : (rc4_apply (rc4_new (text "Wiki")) (text "pedia")).1 = [x10; x21; xbf; x04; x20].
Proof. vm_compute. reflexivity. Qed.

Definition str (s : string) : NaslValue.t := NaslValue.String s.
Definition calls : list (string * Register) :=
  [("rc4_encrypt", reg [] [("hd", num 5000); ("data", str "Plain")]); ("open_rc4_cipher", reg [] [("key", str "Wiki")]);
   ("rc4_encrypt", reg [] [("hd", num 5001); ("data", str "pedia")]); ("rc4_encrypt", reg [] [("hd", num 5000); ("data", str "text")]);
   ("close_stream_cipher", reg [] [("hd", num 5001)])].
Definition opened_cipher : list CipherHandler := [mkHandler 5000 (rc4_new (text "Key"))].
Lemma rc4_stream_continues_witness :
  (stream_of 5000 opened_cipher calls).1 = (text "Plaintext", [xbb; xf3; x16; xe8; xd9; x40; xaf; x0a; xd3])
  /\ let '(input, output, h') := stream_of 5000 opened_cipher calls in
     output = (rc4_apply (rc4_new (text "Key")) input).1 /\ mkHandler 5000 (rc4_apply (rc4_new (text "Key")) input).2 ∈ h'
     /\ handlers_ok (1 + Z.of_nat (length calls)) h'.
Proof.
  split; [vm_compute; reflexivity|]. apply (rc4_stream_continues calls 1 opened_cipher 5000 (rc4_new (text "Key"))).
  - lia.
  - vm_compute. reflexivity.
  - split; [apply NoDup_singleton|]. constructor; [|constructor]. change (handler_id _) with 5000%Z. lia.
  - apply list_elem_of_singleton. reflexivity.
  - repeat constructor; intros [E1 E2]; try discriminate E1; vm_compute in E2; congruence.
Defined.

Definition key16 : list byte := text "0123456789abcdef".
Definition enc_reg : Register := reg [] [("key", NaslValue.Data key16); ("iv", NaslValue.Data key16); ("data", str "abc")].
Definition dec_reg : Register :=
  reg [] [("key", NaslValue.Data key16); ("iv", NaslValue.Data key16); ("data", NaslValue.Data (zero_pad 16 (text "abc"))); ("len", num 3)].
Lemma decrypt_inverts_encrypt_witness : cbc Aes128 Decrypt dec_reg = Ok (NaslValue.Data (text "abc")).
Proof.
  apply (decrypt_inverts_encrypt CbcMode Aes128 enc_reg dec_reg key16 key16 (text "abc") None (zero_pad 16 (text "abc")));
    try (split_and!; vm_compute; reflexivity); vm_compute; reflexivity.
Defined.
Lemma stream_modes_panic_witness : gcm Aes128 Encrypt false enc_reg = Panic.
Proof. apply (stream_modes_panic Aes128 Encrypt enc_reg key16 key16 (text "abc") None); [split_and!; vm_compute; reflexivity|]. right. done. Defined.
End CryptoExample.
