(* ===== verification/DescriptionFns.v ===== *)
(** * The description of a script ([nasl/builtin/description/mod.rs]), and all functions of a run

    In description mode a script calls functions that store its metadata: each collects its
    arguments, turns them into fields of a test and dispatches them under the key of the
    run. *)

From S2P Require Import Prelude RustStr Token Statement NaslValue Errors Register Executor FnArgs StringFns ValueFns Nvt Storage ContextFns.
Local Open Scope string_scope.

(** ** From arguments to fields *)
Section Transform.
Context `{HashOrder} `{TimeFormats} (key : ContextKey).
Abbreviation Transform := (list NaslValue.t -> B (list NVTField)).

(** [arguments[i]]: an index out of range panics. *)
Definition argument (arguments : list NaslValue.t) (i : nat) : B NaslValue.t :=
  match arguments !! i with Some v => Ok v | None => Panic end.

Definition texts (arguments : list NaslValue.t) : list string := map NaslValue.to_string arguments.

(** [?] on a storage error *)
Definition storage_result {A} (r : A + StorageError.t) : B A :=
  match r with inl a => Ok a | inr e => Err (FnError.from_storage e) end.

Definition as_timeout_field : Transform := fun arguments =>
  a ← argument arguments 0;
  Ok [Preference (mkNvtPreference (Some 0%Z) PreferenceType.Entry "timeout" (NaslValue.to_string a))].

Definition as_category_field : Transform := fun arguments =>
  a ← argument arguments 0;
  match a with
  | NaslValue.AttackCategory cat => Ok [Nvt.Category cat]
  | a => Err (FnError.wrong_unnamed_argument "AttackCategory" (NaslValue.to_string a))
  end.

Definition as_name_field : Transform := fun arguments =>
  a ← argument arguments 0; Ok [Name (NaslValue.to_string a)].

Definition as_oid_field : Transform := fun arguments =>
  a ← argument arguments 0; Ok [Oid (NaslValue.to_string a); FileName (key_ref key)].

Definition as_family_field : Transform := fun arguments =>
  a ← argument arguments 0; Ok [Family (NaslValue.to_string a)].

Definition as_noop : Transform := fun _ => Ok [Nvt.NoOp].

Definition as_dependencies_field : Transform := fun a => Ok [Dependencies (texts a)].
Definition as_exclude_keys_field : Transform := fun a => Ok [ExcludedKeys (texts a)].

(** [rsplit_once('=')]: the part before the last equals sign. *)
Fixpoint before_last_equals (l : list char) : option (list char) :=
  match l with
  | [] => None
  | c :: l' =>
      match before_last_equals l' with
      | Some a => Some (c :: a)
      | None => if Ascii.eqb c "="%char then Some [] else None
      end
  end.

Definition as_mandatory_keys_field : Transform := fun arguments =>
  let values := texts arguments in
  match last values ≫= fun x => before_last_equals (chars_of x) with
  | Some remove =>
      Ok [MandatoryKeys (List.filter (fun x =>
        negb (starts_with remove (chars_of x)) || contains (chars_of x) ["="%char]) values)]
  | None => Ok [MandatoryKeys values]
  end.

Definition as_require_ports_field : Transform := fun a => Ok [RequiredPorts (texts a)].
Definition as_require_udp_ports_field : Transform := fun a => Ok [RequiredUdpPorts (texts a)].
Definition as_require_keys_field : Transform := fun a => Ok [RequiredKeys (texts a)].

Definition as_cve_field : Transform := fun a => Ok [Reference (map (mkNvtRef "cve") (texts a))].

Definition as_tag_field : Transform := fun arguments =>
  a ← argument arguments 0;
  k ← storage_result (TagKey.from_str (NaslValue.to_string a));
  v ← argument arguments 1;
  x ← storage_result (parse_tag k (NaslValue.to_string v));
  Ok [match x with NaslValue.PNull => Nvt.NoOp | x => Tag k x end].

Definition as_xref_field : Transform := fun arguments =>
  if negb (length arguments =? 2)%nat then
    Err (FnError.from_argument (ArgumentError.MissingNamed ["name"; "csv"]))
  else
    class ← argument arguments 1;
    id ← argument arguments 0;
    Ok [Reference [mkNvtRef (NaslValue.to_string class) (NaslValue.to_string id)]].

(** [i32::from_str] *)
Definition parse_i32 (s : string) : option Z :=
  i64_from_str_radix (chars_of s) 10 ≫= fun z => if in_i 32 z then Some z else None.

Definition as_preference : Transform := fun arguments =>
  if (length arguments <? 3)%nat then
    Err (FnError.from_argument (ArgumentError.MissingNamed ["type"; "value"]))
  else
    name ← argument arguments 0;
    class ← argument arguments 1;
    value ← argument arguments 2;
    let id := if (length arguments =? 4)%nat
              then (NaslValue.to_string <$> arguments !! 3%nat) ≫= parse_i32 else None in
    class ← storage_result (PreferenceType.from_str (NaslValue.to_string class));
    Ok [Preference (mkNvtPreference id class (NaslValue.to_string name) (NaslValue.to_string value))].
End Transform.

(** ** [make_storage_function!] *)
Section Functions.
Context `{HashOrder} `{TimeFormats} {S : Type} `{ContextStorage S} (key : ContextKey).
Abbreviation C := (M (NaslWorld S) FnError).

(** [get_named_parameter(registrat, name, required)?] *)
Definition parameter (r : Register) (name : string) (required : bool) : B NaslValue.t :=
  match Register.get_named_parameter r name required with
  | Ok v => Ok v
  | Err e => Err (FnError.from_argument e)
  | Panic => Panic
  | OutOfFuel => OutOfFuel
  end.

Fixpoint required_parameters (r : Register) (names : list string) : B (list NaslValue.t) :=
  match names with
  | [] => Ok []
  | n :: names' => v ← parameter r n true; vs ← required_parameters r names'; Ok (v :: vs)
  end.

Fixpoint optional_parameters (r : Register) (names : list string) : B (list NaslValue.t) :=
  match names with
  | [] => Ok []
  | n :: names' =>
      v ← parameter r n false;
      vs ← optional_parameters r names';
      Ok (match v with NaslValue.Exit 0 => vs | v => v :: vs end)
  end.

(** The positional arguments, if the function takes them: exactly [len] of them, or any
    number for 0. *)
Definition positional_parameters (r : Register) (len : option nat) : B (list NaslValue.t) :=
  match len with
  | None => Ok []
  | Some len =>
      l ← total (Register.positional r);
      if (0 <? len)%nat && negb (length l =? len)%nat
      then Err (FnError.from_argument (ArgumentError.MissingPositionals len (length l)))
      else Ok l
  end.

Fixpoint dispatch_fields (l : list NVTField) : C unit :=
  match l with
  | [] => mret tt
  | f :: l' => _ ← stored (cs_dispatch key (NVT f)); dispatch_fields l'
  end.

Definition storage_function (transform : list NaslValue.t -> B (list NVTField)) (len : option nat)
  (required optional : list string) (r : Register) : C NaslValue.t :=
  a ← pure (positional_parameters r len);
  b ← pure (required_parameters r required);
  c ← pure (optional_parameters r optional);
  db_args ← pure (transform (a ++ b ++ c)%list);
  _ ← dispatch_fields db_args;
  mret NaslValue.Null.

Definition Description : FunctionSet (NaslWorld S) :=
  list_to_map
    [("script_timeout", storage_function as_timeout_field (Some 1%nat) [] []);
     ("script_category", storage_function as_category_field (Some 1%nat) [] []);
     ("script_name", storage_function as_name_field (Some 1%nat) [] []);
     ("script_version", storage_function as_noop (Some 1%nat) [] []);
     ("script_copyright", storage_function as_noop (Some 1%nat) [] []);
     ("script_family", storage_function as_family_field (Some 1%nat) [] []);
     ("script_oid", storage_function (as_oid_field key) (Some 1%nat) [] []);
     ("script_dependencies", storage_function as_dependencies_field (Some 0%nat) [] []);
     ("script_exclude_keys", storage_function as_exclude_keys_field (Some 0%nat) [] []);
     ("script_mandatory_keys", storage_function as_mandatory_keys_field (Some 0%nat) [] ["re"]);
     ("script_require_ports", storage_function as_require_ports_field (Some 0%nat) [] []);
     ("script_require_udp_ports", storage_function as_require_udp_ports_field (Some 0%nat) [] []);
     ("script_require_keys", storage_function as_require_keys_field (Some 0%nat) [] []);
     ("script_cve_id", storage_function as_cve_field (Some 0%nat) [] []);
     ("script_tag", storage_function as_tag_field None ["name"; "value"] []);
     ("script_xref", storage_function as_xref_field None ["name"; "value"] []);
     ("script_add_preference",
        storage_function as_preference None ["name"; "type"; "value"] ["id"])].
End Functions.

(** ** The executor of a run: [nasl_std_functions]

    The modelled sets of builtin functions in the order the source adds them, and the
    environment of the interpreter made of them.  The sets with a state of their own
    (sockets, raw packets, SSH sessions), the stateless ones of cryptography, those that are
    not modelled (times, certificates) and the functions of [misc] that read a clock or
    compress are parameters. *)
Class Platform := {
  pf_order :: HashOrder; pf_features :: Features; pf_build :: BuildProfile;
  pf_text :: TextLibrary; pf_regex :: RegexLibrary; pf_times :: TimeFormats; pf_net :: Net;
  pf_little_endian : bool;
  (** [Regex::new] of the interpreter's operators *)
  pf_regex_new : string -> option (string -> bool)
}.

Section Std.
Context `{Platform} {S : Type} `{ContextStorage S}.
Abbreviation W := (NaslWorld S).

(** The functions that are not modelled: those of [misc], and the sets before
    [RegularExpressions], before [Description] and after it. *)
Record OtherFunctions := mkOther {
  of_misc : FunctionSet W; of_network : list (FunctionSet W); of_crypto : list (FunctionSet W);
  of_rest : list (FunctionSet W)
}.

Definition sets_with (known : string -> bool) (key : ContextKey) (target : string) (now : option Z)
  (other : OtherFunctions) : list (FunctionSet W) :=
  [Array_ pf_little_endian; Reporting key target; KnowledgeBase key now;
   (list_to_map (map (fun x => (x.1, stateless x.2)) (misc_functions pf_little_endian known))
      : FunctionSet W) ∪ of_misc other;
   NaslString; Host_ target]
  ++ of_network other ++ [RegularExpressions] ++ of_crypto other ++ [Description key]
  ++ of_rest other.

(** [defined_func] asks the executor it belongs to; the names do not depend on it. *)
Definition known_names (key : ContextKey) (target : string) (now : option Z) (other : OtherFunctions)
  (name : string) : bool :=
  Executor.contains (mkExecutor (sets_with (fun _ => false) key target now other)) name.

Definition nasl_std_functions (key : ContextKey) (target : string) (now : option Z)
  (other : OtherFunctions) : Executor W :=
  mkExecutor (sets_with (known_names key target now other) key target now other).

(** The environment of a run with these functions. *)
Definition std_host (load_file : string -> string + LoadError.t) (key : ContextKey) (target : string)
  (now : option Z) (other : OtherFunctions) : Host := {|
  host_profile := pf_build; host_order := pf_order; little_endian := pf_little_endian;
  World := W; load := fun k w => (load_file k, w);
  executor := nasl_std_functions key target now other; regex_new := pf_regex_new
|}.
End Std.
