(* ===== verification/Frames.v ===== *)
(** * Frames of the data link layer

    [nasl/builtin/raw_ip]: the errors of [mod.rs], the helpers of [raw_ip_utils.rs] and the
    functions of [frame_forgery.rs].  Sockets, captures and interfaces are operations of a
    world [V] (class [RawNet]); the text of MAC addresses is that of pnet ([MacText]). *)

From S2P Require Import Prelude RustStr Token Statement NaslValue Errors Register Executor FnArgs StringFns Text Addr Nvt Storage ContextFns.
Local Open Scope string_scope.

(** ** Errors: [mod.rs] and [packet_forgery.rs] *)
Module PacketForgeryError.
Inductive t : Type :=
| Custom (s : string)
| ParseSocketAddr (e : string)
| SendPacket (e : string)
| CreatePacket.
Definition to_string (e : t) : string :=
  match e with
  | Custom s => s
  | ParseSocketAddr e => "Failed to parse socket address. " ++ e
  | SendPacket e => "Failed to send packet. " ++ e
  | CreatePacket => "Failed to create packet from buffer."
  end.
End PacketForgeryError.

Module RawIpError.
Inductive t : Type :=
| FailedToGetLocalMacAddress
| FailedToGetDeviceList
| InvalidIpAddress
| FailedToBind (e : string)
| NoRouteToDestination
| PacketForgery (e : PacketForgeryError.t).
Definition to_string (e : t) : string :=
  match e with
  | FailedToGetLocalMacAddress => "Failed to get local MAC address."
  | FailedToGetDeviceList => "Failed to get device list."
  | InvalidIpAddress => "Invalid IP address."
  | FailedToBind _ => "Failed to bind."
  | NoRouteToDestination => "No route to destination."
  | PacketForgery e => PacketForgeryError.to_string e
  end.
(** [From<RawIpError> for FnError] *)
Definition into (e : t) : FnError := FnError.from_kind (Builtin (BuiltinError.RawIp (to_string e))).
End RawIpError.

(** ** MAC addresses *)
Record MacAddr := mkMac { mac0 : byte; mac1 : byte; mac2 : byte; mac3 : byte; mac4 : byte; mac5 : byte }.
#[global] Instance MacAddr_eq_dec : EqDecision MacAddr.
Proof. solve_decision. Defined.
Module Mac.
Definition octets (m : MacAddr) : list byte := [mac0 m; mac1 m; mac2 m; mac3 m; mac4 m; mac5 m].
Definition zero : MacAddr := mkMac x00 x00 x00 x00 x00 x00.
Definition broadcast : MacAddr := mkMac xff xff xff xff xff xff.
End Mac.
Class MacText := { mac_from_str : string -> option MacAddr; mac_to_string : MacAddr -> string }.

(** ** The world *)
Record Device := mkDevice { dev_name : string; dev_addresses : list IpAddr }.

(** What the functions call of the operating system, pcap, socket2 and pnet: random
    numbers, printing, the list of devices with their addresses and of interfaces with
    their MAC addresses, UDP sockets, captures and raw sockets.  An [inr] is an error with
    its text. *)
Class RawNet (V : Type) := {
  Capture : Type; UdpSocket : Type; RawSocket : Type;
  random_impl : V -> (Z + string) * V;
  println : string -> V -> V;
  device_list : V -> option (list Device) * V;
  interfaces : V -> list (string * option MacAddr) * V;
  udp_bind : string -> V -> (UdpSocket + string) * V;
  udp_connect : UdpSocket -> string -> V -> bool * V;
  udp_local_addr : UdpSocket -> V -> option IpAddr * V;
  capture_from_device : Device -> V -> (unit + string) * V;
  capture_open : Device -> Z -> V -> (Capture + string) * V;
  capture_filter : Capture -> string -> V -> (unit + string) * V;
  next_packet : Capture -> V -> (list byte + string) * V;
  sendpacket : Capture -> list byte -> V -> (unit + string) * V;
  new_raw : V -> (RawSocket + string) * V;
  set_header_included : RawSocket -> V -> (unit + string) * V;
  set_broadcast : RawSocket -> V -> (unit + string) * V;
  send_to : RawSocket -> list byte -> IpAddr -> V -> (nat + string) * V
}.

(** ** frame_forgery.rs: frames as bytes *)
Definition ARPHRD_ETHER : Z := 0x0001.
Definition ETHERTYPE_IP : Z := 0x0800.
Definition ETHERTYPE_ARP : Z := 0x0806.
Definition ETH_ALEN : Z := 0x0006.
Definition ARP_PROTO_LEN : Z := 0x0004.
Definition ARPOP_REQUEST : Z := 0x0001.
Definition DEFAULT_TIMEOUT : Z := 5000.

Record Frame := mkFrame {
  srchaddr : MacAddr; dsthaddr : MacAddr; ethertype : Z; frame_payload : list byte
}.
Definition frame_new : Frame := mkFrame Mac.zero Mac.zero 0 [].

(** [From<Frame> for Vec<u8>] *)
Definition frame_bytes (f : Frame) : list byte :=
  (Mac.octets (dsthaddr f) ++ Mac.octets (srchaddr f) ++ be_encode 2 (ethertype f) ++ frame_payload f)%list.

(** [TryFrom<&[u8]> for Frame] *)
Definition frame_try_from (f : list byte) : B Frame :=
  match f with
  | d0 :: d1 :: d2 :: d3 :: d4 :: d5 :: s0 :: s1 :: s2 :: s3 :: s4 :: s5 :: t0 :: t1 :: rest =>
      Ok (mkFrame (mkMac s0 s1 s2 s3 s4 s5) (mkMac d0 d1 d2 d3 d4 d5) (be_decode [t0; t1]) rest)
  | _ => Err (FnError.missing_argument "valid ip address")
  end.

(** The dump of bytes: two digits each, a blank after every second and a line break after
    every sixteenth. *)
Fixpoint dump_bytes (count : nat) (l : list byte) : string :=
  match l with
  | [] => ""
  | e :: l' =>
      let count := S count in
      encode_hex [e] ++ (if decide (count `mod` 2 = 0)%nat then " " else "")
      ++ (if decide (count `mod` 16 = 0)%nat then string_of [newline] else "") ++ dump_bytes count l'
  end.
(** [Display for Frame] *)
Definition frame_to_string (f : Frame) : string := dump_bytes 0 (frame_bytes f).

Record ArpHeader := mkArpHeader { hrd : Z; pro : Z; hln : Z; pln : Z; op : Z }.
Definition ARP_HEADER : ArpHeader := mkArpHeader ARPHRD_ETHER ETHERTYPE_IP ETH_ALEN ARP_PROTO_LEN ARPOP_REQUEST.
Record ArpFrame := mkArpFrame {
  arphdr : ArpHeader; arp_srchaddr : MacAddr; srcip : Ipv4Addr; arp_dsthaddr : MacAddr; dstip : Ipv4Addr;
  zero_padding : list byte
}.
Definition arp_new : ArpFrame := mkArpFrame ARP_HEADER Mac.zero 0%Z Mac.zero 0%Z (repeat x00 18).
(** [From<ArpFrame> for Vec<u8>] *)
Definition arp_bytes (f : ArpFrame) : list byte :=
  (be_encode 2 (hrd (arphdr f)) ++ be_encode 2 (pro (arphdr f)) ++ be_encode 1 (hln (arphdr f))
   ++ be_encode 1 (pln (arphdr f)) ++ be_encode 2 (op (arphdr f)) ++ Mac.octets (arp_srchaddr f)
   ++ ipv4_octets (srcip f) ++ Mac.octets (arp_dsthaddr f) ++ ipv4_octets (dstip f) ++ zero_padding f)%list.

Definition forge_arp_frame (little_endian : bool) (eth_src : MacAddr) (src_ip dst_ip : Ipv4Addr) : list byte :=
  let arp_frame := mkArpFrame ARP_HEADER eth_src src_ip Mac.zero dst_ip (zero_padding arp_new) in
  frame_bytes (mkFrame eth_src Mac.broadcast (to_le little_endian 2 ETHERTYPE_ARP) (arp_bytes arp_frame)).

Definition forge_frame (src dst : MacAddr) (ether_proto : Z) (payload : list byte) : list byte :=
  frame_bytes (mkFrame src dst ether_proto payload).

Definition convert_vec_into_mac_address (v : list byte) : option MacAddr :=
  match v with [a; b; c; d; e; f] => Some (mkMac a b c d e f) | _ => None end.

Definition validate_mac_address `{MacText} (v : option ContextType) : B MacAddr :=
  match match v with
        | Some (Value (NaslValue.String x)) => mac_from_str x
        | Some (Value (NaslValue.Data x)) => convert_vec_into_mac_address x
        | _ => None
        end with
  | Some m => Ok m
  | None => Err (FnError.wrong_unnamed_argument "mac address" "invalid mac address")
  end.

(** ** Functions with effects *)
Section Raw.
Context `{BuildProfile} `{Net} {V : Type} `{RawNet V}.
Abbreviation N := (M V FnError).

Definition call {A} (f : V -> A * V) : N A := fun v => let '(a, v') := f v in (Ok a, v').
Definition fail {A} (e : RawIpError.t) : N A := throw (RawIpError.into e).
Definition named (r : Register) (name : string) : N (option ContextType) := of_total (Register.named r name).
Definition positional (r : Register) : N (list NaslValue.t) := of_total (Register.positional r).

(** *** raw_ip_utils.rs *)
Definition ipstr2ipaddr (ip_addr : string) : N IpAddr :=
  match parse_ip ip_addr with
  | inl ip => mret ip
  | inr _ => throw (FnError.with_return_value
      (FnError.from_argument (ArgumentError.WrongArgument "Invalid IP address")) NaslValue.Null)
  end.

(** The address of a device that is compared: the one wanted, if it has it, else the
    unspecified one. *)
Definition compared_address (local_address : IpAddr) (x : Device) : IpAddr :=
  let fake_ip := match local_address with V4 _ => V4 0%Z | V6 _ => V6 "::" end in
  default fake_ip (snd <$> list_find (fun ip => ip = local_address) (dev_addresses x)).

Definition get_interface_by_local_ip (local_address : IpAddr) : N Device :=
  devices ← call device_list;
  match devices with
  | None => fail RawIpError.FailedToGetDeviceList
  | Some l =>
      match list_find (fun x => local_address = compared_address local_address x) l with
      | Some (_, d) => mret d
      | None => fail RawIpError.InvalidIpAddress
      end
  end.

Definition islocalhost (addr : IpAddr) : N bool :=
  if negb (is_loopback addr) || negb (is_unspecified addr) then mret false
  else
    i ← attempt (get_interface_by_local_ip addr);
    mret match i with inl _ => true | inr _ => false end.

Definition bind_local_socket (dst : IpAddr) : N UdpSocket :=
  s ← call (udp_bind match dst with V4 _ => "0.0.0.0:0" | V6 _ => " 0:0:0:0:0:0:0:0:0" end);
  match s with inl s => mret s | inr e => fail (RawIpError.FailedToBind e) end.

Definition get_source_ip (dst : IpAddr) (port : Z) : N IpAddr :=
  let sd := (ip_to_string dst ++ ":" ++ pretty port)%string in
  local_socket ← bind_local_socket dst;
  connected ← call (udp_connect local_socket sd);
  if connected : bool then
    l_addr ← call (udp_local_addr local_socket);
    match l_addr ≫= fun a => match parse_ip (ip_to_string a) with inl ip => Some ip | inr _ => None end with
    | Some ip => mret ip
    | None => fail RawIpError.NoRouteToDestination
    end
  else fail RawIpError.NoRouteToDestination.

(** *** frame_forgery.rs *)
Definition get_local_mac_address (name : string) : N MacAddr :=
  l ← call interfaces;
  match list_find (fun x => x.1 = name) l ≫= fun x => x.2.2 with
  | Some m => mret m
  | None => fail RawIpError.FailedToGetLocalMacAddress
  end.

Definition recv_frame (cap : Capture) (filter : string) : N Frame :=
  f ← call (capture_filter cap filter);
  match f with
  | inr _ => mret frame_new
  | inl _ =>
      p ← call (next_packet cap);
      match p with inl data => of_outcome (frame_try_from data) | inr _ => mret frame_new end
  end.

Definition send_frame (frame : list byte) (iface : Device) (pcap_active : bool) (filter : option string)
  (timeout : Z) : N (option Frame) :=
  c ← call (capture_from_device iface);
  match c with
  | inr _ => mret None
  | inl _ =>
      capture ← call (capture_open iface timeout);
      match capture with
      | inr _ => mret None
      | inl capture =>
          sent ← call (sendpacket capture frame);
          match sent with
          | inr _ => mret None
          | inl _ =>
              if negb pcap_active then mret None
              else frame ← recv_frame capture (default "" filter); mret (Some frame)
          end
      end
  end.

(** The timeout in milliseconds: [*x as i32 * 1000i32] *)
Definition timeout_arg (r : Register) : N Z :=
  t ← named r "pcap_timeout";
  match t with
  | Some (Value (NaslValue.Number x)) => or_panic (arith_i 32 (wrap_i 32 x * 1000))
  | None => mret DEFAULT_TIMEOUT
  | _ => throw (FnError.wrong_unnamed_argument "Integer" "Invalid timeout value")
  end.
Definition bool_arg (r : Register) (name error : string) (default : bool) : N bool :=
  o ← named r name;
  match o with
  | Some (Value (NaslValue.Boolean x)) => mret x
  | None => mret default
  | _ => throw (FnError.wrong_unnamed_argument "Boolean" error)
  end.
Definition filter_arg (r : Register) : N (option string) :=
  o ← named r "pcap_filter";
  match o with
  | Some (Value (NaslValue.String x)) => mret (Some x)
  | None => mret None
  | _ => throw (FnError.wrong_unnamed_argument "String" "Invalid pcap_filter value")
  end.

Section Functions.
Context `{MacText} (little_endian : bool) (target : string).

Definition nasl_send_arp_request (r : Register) : N NaslValue.t :=
  timeout ← timeout_arg r;
  target_ip ← of_outcome (get_host_ip target);
  if is_ipv6 target_ip
  then throw (FnError.wrong_unnamed_argument "IPv4" "IPv6 does not support ARP protocol.")
  else
    local_ip ← get_source_ip target_ip 50000;
    iface ← get_interface_by_local_ip local_ip;
    local_mac_address ← get_local_mac_address (dev_name iface);
    src_ip ← ok_or (ipv4_from_str (ip_to_string local_ip))
      (FnError.missing_argument "Not possible to parse the src IP address.");
    dst_ip ← ok_or (ipv4_from_str (ip_to_string target_ip))
      (FnError.missing_argument "Not possible to parse the dst IP address.");
    let arp_frame := forge_arp_frame little_endian local_mac_address src_ip dst_ip in
    let filter := ("arp and src host " ++ ip_to_string target_ip)%string in
    f ← send_frame arp_frame iface true (Some filter) timeout;
    mret match f with
         | Some f => NaslValue.String (mac_to_string (srchaddr f))
         | None => NaslValue.Null
         end.

Definition nasl_get_local_mac_address_from_ip (r : Register) : N NaslValue.t :=
  l ← positional r;
  match l with
  | [] => throw (FnError.from_argument (ArgumentError.MissingPositionals 1 0))
  | NaslValue.String x :: _ =>
      ip ← ipstr2ipaddr x;
      iface ← get_interface_by_local_ip ip;
      mac ← get_local_mac_address (dev_name iface);
      mret (NaslValue.String (mac_to_string mac))
  | _ => throw (FnError.from_argument (ArgumentError.WrongArgument "Expected String containing a valid IP address."))
  end.

Definition nasl_forge_frame (r : Register) : N NaslValue.t :=
  src ← named r "src_haddr";
  src_haddr ← of_outcome (validate_mac_address src);
  dst ← named r "dst_haddr";
  dst_haddr ← of_outcome (validate_mac_address dst);
  e ← named r "ether_proto";
  let ether_proto := match e with Some (Value (NaslValue.Number x)) => wrap_u 16 x | _ => ETHERTYPE_IP end in
  p ← named r "payload";
  let payload := match p with
    | Some (Value (NaslValue.String x)) => as_bytes (chars_of x)
    | Some (Value (NaslValue.Data x)) => x
    | _ => []
    end in
  mret (NaslValue.Data (forge_frame src_haddr dst_haddr ether_proto payload)).

Definition nasl_send_frame (r : Register) : N NaslValue.t :=
  f ← named r "frame";
  match f with
  | Some (Value (NaslValue.Data frame)) =>
      pcap_active ← bool_arg r "pcap_active" "Invalid pcap_active value" true;
      filter ← filter_arg r;
      timeout ← timeout_arg r;
      target_ip ← of_outcome (get_host_ip target);
      local_ip ← get_source_ip target_ip 50000;
      iface ← get_interface_by_local_ip local_ip;
      f ← send_frame frame iface pcap_active filter timeout;
      mret match f with Some f => NaslValue.Data (frame_bytes f) | None => NaslValue.Null end
  | _ => throw (FnError.wrong_unnamed_argument "Data" "Invalid data type")
  end.

Definition nasl_dump_frame (r : Register) : N NaslValue.t :=
  f ← named r "frame";
  match f with
  | Some (Value (NaslValue.Data x)) =>
      frame ← of_outcome (frame_try_from x);
      modify (println (frame_to_string frame)) ;;
      mret NaslValue.Null
  | _ => throw (FnError.wrong_unnamed_argument "Data" "Invalid data type")
  end.

Definition FrameForgery : FunctionSet V :=
  list_to_map [("send_frame", nasl_send_frame); ("dump_frame", nasl_dump_frame); ("forge_frame", nasl_forge_frame);
    ("get_local_mac_address_from_ip", nasl_get_local_mac_address_from_ip);
    ("send_arp_request", nasl_send_arp_request)].
End Functions.
End Raw.

Definition frame_vars : list (string * NaslValue.t) :=
  [("ARPHRD_ETHER", NaslValue.Number ARPHRD_ETHER); ("ETHERTYPE_IP", NaslValue.Number ETHERTYPE_IP);
   ("ETHERTYPE_ARP", NaslValue.Number ETHERTYPE_ARP); ("ETH_ALEN", NaslValue.Number ETH_ALEN);
   ("ARP_PROTO_LEN", NaslValue.Number ARP_PROTO_LEN); ("ARPOP_REQUEST", NaslValue.Number ARPOP_REQUEST)].

(** ** Theorems on frames *)

Lemma frame_read_back f : (0 <= ethertype f < 2 ^ 16)%Z -> frame_try_from (frame_bytes f) = Ok f.
Proof.
  intros Ht. destruct f as [[] [] t p]. unfold frame_bytes, be_encode. cbn [le_encode rev app]. cbn -[be_decode Z_byte].
  do 2 f_equal. change [Z_byte (t / 256); Z_byte t] with (be_encode 2 t). rewrite be_decode_encode. by apply Z.mod_small.
Qed.

(** Frames and their bytes: a frame is read back from its bytes, any buffer with a whole
    header is the bytes of the frame read from it, and a shorter one is refused. *)
Theorem frame_roundtrip (f : Frame) (b : list byte) :
  ((0 <= ethertype f < 2 ^ 16)%Z -> frame_try_from (frame_bytes f) = Ok f)
  /\ ((14 <= length b)%nat -> exists g, frame_try_from b = Ok g /\ frame_bytes g = b /\ (0 <= ethertype g < 2 ^ 16)%Z)
  /\ ((length b < 14)%nat -> frame_try_from b = Err (FnError.missing_argument "valid ip address")).
Proof.
  split; [|split].
  - apply frame_read_back.
  - intros Hb. do 14 (destruct b as [|? b]; [simpl in Hb; lia|]). eexists. split; [reflexivity|]. split.
    + unfold frame_bytes. cbn -[be_decode be_encode]. change 2%nat with (length [b12; b13]). by rewrite be_encode_decode.
    + apply (be_decode_range [b12; b13]).
  - intros Hb. do 14 (destruct b as [|? b]; [done|]). simpl in Hb. lia.
Qed.

(** The request for a MAC address that is sent on a machine that stores the low byte
    first: 60 bytes, to all, of the type of ARP, asking for [dst_ip] on behalf of [src_ip]. *)
Theorem arp_request_layout (m : MacAddr) (src_ip dst_ip : Ipv4Addr) :
  exists p, frame_try_from (forge_arp_frame true m src_ip dst_ip) = Ok (mkFrame m Mac.broadcast ETHERTYPE_ARP p)
    /\ length (forge_arp_frame true m src_ip dst_ip) = 60%nat
    /\ p = ([x00; x01; x08; x00; x06; x04; x00; x01] ++ Mac.octets m ++ ipv4_octets src_ip
            ++ Mac.octets Mac.zero ++ ipv4_octets dst_ip ++ repeat x00 18)%list.
Proof.
  eexists. split; [|split; [|reflexivity]].
  - unfold forge_arp_frame. rewrite frame_read_back; [|done]. f_equal.
  - unfold forge_arp_frame, frame_bytes, arp_bytes, ipv4_octets. rewrite !length_app, !be_encode_length. done.
Qed.
