(* ===== verification/Packets.v ===== *)
(** * IP packets: [nasl/builtin/raw_ip/packet_forgery.rs]

    Forging, changing, reading, dumping and sending of IP, TCP, UDP, ICMP and IGMP packets.
    The views of a buffer as a packet are those of the library pnet, the parameter [Pnet];
    sockets and captures are operations of the world ([RawNet]). *)

From S2P Require Import Prelude RustStr Token Statement NaslValue Errors Register Executor FnArgs StringFns Text Addr Nvt Storage ContextFns Frames.
Local Open Scope string_scope.

(** ** pnet: headers and their fields *)
Inductive Header := Ipv4 | Tcp | Udp | Icmp | Igmp.
#[global] Instance Header_eq_dec : EqDecision Header.
Proof. solve_decision. Defined.

Inductive HeaderField :=
| Ip_version | Ip_header_length | Ip_dscp | Ip_total_length | Ip_identification | Ip_fragment_offset
| Ip_ttl | Ip_next_level_protocol | Ip_checksum | Ip_source | Ip_destination
| Tcp_source | Tcp_destination | Tcp_sequence | Tcp_acknowledgement | Tcp_data_offset | Tcp_reserved
| Tcp_flags | Tcp_window | Tcp_checksum | Tcp_urgent_ptr
| Udp_source | Udp_destination | Udp_length | Udp_checksum
| Icmp_type | Icmp_code | Icmp_checksum
| Igmp_type | Igmp_timeout | Igmp_checksum | Igmp_group_address.
#[global] Instance HeaderField_eq_dec : EqDecision HeaderField.
Proof. solve_decision. Defined.

(** The constructors of [TcpOption]. *)
Inductive TcpOption := mss (v : Z) | wscale (v : Z) | sack_perm | timestamp (my their : Z) | nop.

(** [packet_new] says whether a view of a buffer can be made, [None] of the others is a
    panic; [util_checksum] skips the word of the given number. *)
Class Pnet := {
  packet_new : Header -> list byte -> bool;
  get_field : HeaderField -> list byte -> Z;
  set_field : HeaderField -> Z -> list byte -> list byte;
  payload : Header -> list byte -> list byte;
  set_payload : Header -> list byte -> list byte -> option (list byte);
  set_options : list TcpOption -> list byte -> option (list byte);
  get_options_iter : list byte -> list (Z * list byte);
  util_checksum : list byte -> nat -> Z;
  checksum : list byte -> Z;
  tcp_ipv4_checksum : list byte -> Ipv4Addr -> Ipv4Addr -> Z;
  udp_ipv4_checksum : list byte -> Ipv4Addr -> Ipv4Addr -> Z;
  icmp_checksum : list byte -> Z;
  ethernet_payload : list byte -> option (list byte);
  icmp_type_debug : Z -> string; icmp_code_debug : Z -> string
}.

Module TcpOptionNumbers.
Definition MSS : Z := 2.
Definition WSCALE : Z := 3.
Definition SACK_PERMITTED : Z := 4.
Definition TIMESTAMPS : Z := 8.
End TcpOptionNumbers.
Module IpNextHeaderProtocols.
Definition Icmp : Z := 1.
Definition Igmp : Z := 2.
Definition Tcp : Z := 6.
Definition Udp : Z := 17.
End IpNextHeaderProtocols.
Module TcpFlags.
Definition FIN : Z := 1.
Definition SYN : Z := 2.
Definition RST : Z := 4.
Definition PSH : Z := 8.
Definition ACK : Z := 16.
Definition URG : Z := 32.
End TcpFlags.

(** ** Constants and errors *)
Definition IPPROTO_IP : Z := 0.
Definition IP_RF : Z := 0x8000.
Definition IP_DF : Z := 0x4000.
Definition IP_MF : Z := 0x2000.
Definition IP_OFFMASK : Z := 0x1fff.

Definition forgery_error (e : PacketForgeryError.t) : FnError := RawIpError.into (RawIpError.PacketForgery e).
Definition error (s : string) : FnError := forgery_error (PacketForgeryError.Custom s).
Definition no_packet : FnError := error "No possible to create a packet from buffer".
Definition create_packet : FnError := forgery_error PacketForgeryError.CreatePacket.
Definition wrong_argument (s : string) : FnError := FnError.from_argument (ArgumentError.WrongArgument s).

Definition zeros (n : nat) : list byte := replicate n x00.
Definition zlen (b : list byte) : Z := Z.of_nat (length b).

Section Forgery.
Context `{BuildProfile} `{Net} `{Pnet} {V : Type} `{RawNet V} (little_endian : bool) (target : string).
Abbreviation N := (M V FnError).

(** ** Helpers *)
Definition safe_copy_from_slice (d_buf : list byte) (d_init d_fin : nat) (o_buf : list byte) (o_init o_fin : nat) :
  N (list byte) :=
  o_range ← or_panic (arith_u 64 (Z.of_nat o_fin - Z.of_nat o_init));
  d_range ← or_panic (arith_u 64 (Z.of_nat d_fin - Z.of_nat d_init));
  if (zlen d_buf <? d_range)%Z || (zlen o_buf <? o_range)%Z || negb (o_range =? d_range)%Z
     || Nat.ltb (length d_buf) d_fin || Nat.ltb (length o_buf) o_fin
  then throw (error "Error copying from slice. Index out of range")
  else mret (take d_init d_buf ++ take (o_fin - o_init) (drop o_init o_buf) ++ drop d_fin d_buf)%list.

(** [Mutable..Packet::new(&mut buf).ok_or(e)?] and its likes *)
Definition view (h : Header) (e : FnError) (b : list byte) : N unit :=
  if packet_new h b then mret tt else throw e.

(** [match register.named(..) { Number(x) => x as uN, _ => .. }] *)
Definition number_or (r : Register) (name : string) (w : Z) (other : N Z) : N Z :=
  o ← named r name;
  match o with Some (Value (NaslValue.Number x)) => mret (wrap_u w x) | _ => other end.
(** The same with [(x as u16).to_be()] *)
Definition number_be_or (r : Register) (name : string) (other : N Z) : N Z :=
  o ← named r name;
  match o with Some (Value (NaslValue.Number x)) => mret (to_be little_endian 2 x) | _ => other end.
(** A checksum: given and not zero, or computed *)
Definition checksum_or (r : Register) (name : string) (other : N Z) : N Z :=
  o ← named r name;
  match o with
  | Some (Value (NaslValue.Number x)) => if (x =? 0)%Z then other else mret (to_be little_endian 2 x)
  | _ => other
  end.
(** [if let Some(Number(x)) = register.named(..) { set(x as uN) }] *)
Definition if_number (r : Register) (name : string) (w : Z) (f : HeaderField) (b : list byte) : N (list byte) :=
  o ← named r name;
  match o with Some (Value (NaslValue.Number x)) => mret (set_field f (wrap_u w x) b) | _ => mret b end.

Definition bytes_of (v : NaslValue.t) : option (list byte) :=
  match v with
  | NaslValue.Data d => Some d
  | NaslValue.String d => Some (as_bytes (chars_of d))
  | NaslValue.Number d => Some (be_encode 8 d)
  | _ => None
  end.
Definition data_arg (r : Register) (other : N (list byte)) : N (list byte) :=
  o ← named r "data";
  match o with
  | Some (Value v) => match bytes_of v with Some d => mret d | None => other end
  | _ => other
  end.
Definition packet_arg (r : Register) (name : string) (e : FnError) : N (list byte) :=
  o ← named r name;
  match o with Some (Value (NaslValue.Data d)) => mret d | _ => throw e end.

Definition random : N Z :=
  x ← call random_impl;
  match x with inl x => mret x | inr e => throw (FnError.from_kind (Builtin (BuiltinError.Misc ("IO Error: " ++ e)))) end.

(** An address given as text *)
Definition set_address (f : HeaderField) (msg x : string) (b : list byte) : N (list byte) :=
  match ipv4_from_str x with
  | Some ip => mret (set_field f ip b)
  | None => throw (wrong_argument (msg ++ ipv4_parse_error))
  end.

Definition set_payload_ (h : Header) (d b : list byte) : N (list byte) :=
  match d with [] => mret b | _ => or_panic (set_payload h d b) end.

(** ** IP *)
Definition forge_ip_packet (r : Register) : N NaslValue.t :=
  dst_addr ← of_outcome (get_host_ip target);
  if is_ipv6 dst_addr then
    throw (wrong_argument "forge_ip_packet: No valid dst_addr could be determined via call to get_host_ip()")
  else
  data ← data_arg r (mret []);
  let total_length := (20 + length data)%nat in
  let b := zeros total_length in
  view Ipv4 create_packet b ;;
  let b := set_field Ip_total_length (wrap_u 16 (Z.of_nat total_length)) b in
  b ← set_payload_ Ipv4 data b;
  ip_hl ← number_or r "ip_hl" 8 (mret 5%Z);
  let b := set_field Ip_header_length ip_hl b in
  ip_v ← number_or r "ip_v" 8 (mret 4%Z);
  let b := set_field Ip_version ip_v b in
  ip_tos ← number_or r "ip_tos" 8 (mret 0%Z);
  let b := set_field Ip_dscp ip_tos b in
  ip_ttl ← number_or r "ip_ttl" 8 (mret 0%Z);
  let b := set_field Ip_ttl ip_ttl b in
  ip_id ← number_or r "ip_id" 16 (x ← random; mret (wrap_u 16 x));
  let b := set_field Ip_identification (to_be little_endian 2 ip_id) b in
  ip_off ← number_or r "ip_off" 16 (mret 0%Z);
  let b := set_field Ip_fragment_offset ip_off b in
  ip_p ← number_or r "ip_p" 8 (mret 0%Z);
  let b := set_field Ip_next_level_protocol ip_p b in
  src ← named r "ip_src";
  b ← match src with
      | Some (Value (NaslValue.String x)) => set_address Ip_source "Invalid ip_src: " x b
      | _ => mret b
      end;
  dst ← named r "ip_dst";
  b ← match dst with
      | Some (Value (NaslValue.String x)) => set_address Ip_destination "Invalid ip_dst: " x b
      | _ => set_address Ip_destination "Invalid ip: " (ip_to_string dst_addr) b
      end;
  ip_sum ← number_be_or r "ip_sum" (mret (checksum b));
  mret (NaslValue.Data (set_field Ip_checksum ip_sum b)).

Definition set_ip_elements (r : Register) : N NaslValue.t :=
  b ← packet_arg r "ip" (FnError.missing_argument "ip");
  view Ipv4 create_packet b ;;
  ip_hl ← number_or r "ip_hl" 8 (mret (get_field Ip_header_length b));
  let b := set_field Ip_header_length ip_hl b in
  ip_v ← number_or r "ip_v" 8 (mret (get_field Ip_version b));
  let b := set_field Ip_version ip_v b in
  ip_tos ← number_or r "ip_tos" 8 (mret (get_field Ip_dscp b));
  let b := set_field Ip_dscp ip_tos b in
  ip_ttl ← number_or r "ip_ttl" 8 (mret (get_field Ip_ttl b));
  let b := set_field Ip_ttl ip_ttl b in
  ip_id ← number_or r "ip_id" 16 (mret (get_field Ip_identification b));
  let b := set_field Ip_identification (to_be little_endian 2 ip_id) b in
  ip_off ← number_or r "ip_off" 16 (mret (get_field Ip_fragment_offset b));
  let b := set_field Ip_fragment_offset ip_off b in
  ip_p ← number_or r "ip_p" 8 (mret (get_field Ip_next_level_protocol b));
  let b := set_field Ip_next_level_protocol ip_p b in
  src ← named r "ip_src";
  b ← match src with
      | Some (Value (NaslValue.String x)) => set_address Ip_source "Invalid ip_src: " x b
      | _ => mret b
      end;
  ip_sum ← number_be_or r "ip_sum" (mret (get_field Ip_checksum b));
  mret (NaslValue.Data (set_field Ip_checksum ip_sum b)).

(** What [get_ip_element] gives for the name of a field *)
Definition ip_element (e : string) (b : list byte) : option NaslValue.t :=
  let number f := Some (NaslValue.Number (get_field f b)) in
  let address f := Some (NaslValue.String (ipv4_to_string (get_field f b))) in
  if decide (e = "ip_v") then number Ip_version
  else if decide (e = "ip_id") then number Ip_identification
  else if decide (e = "ip_hl") then number Ip_header_length
  else if decide (e = "ip_tos") then number Ip_dscp
  else if decide (e = "ip_len") then number Ip_total_length
  else if decide (e = "ip_off") then number Ip_fragment_offset
  else if decide (e = "ip_ttl") then number Ip_ttl
  else if decide (e = "ip_p") then number Ip_next_level_protocol
  else if decide (e = "ip_sum") then number Ip_checksum
  else if decide (e = "ip_src") then address Ip_source
  else if decide (e = "ip_dst") then address Ip_destination
  else None.

Definition get_ip_element (r : Register) : N NaslValue.t :=
  b ← packet_arg r "ip" (FnError.missing_argument "ip");
  view Ipv4 no_packet b ;;
  element ← named r "element";
  match element with
  | Some (Value (NaslValue.String e)) => ok_or (ip_element e b) (wrong_argument "Invalid element")
  | _ => throw (FnError.missing_argument "element")
  end.

(** *** Dumps *)
Definition print (s : string) : N unit := modify (println s).
Definition tab_line (name value : string) : N unit := print (String "009" name ++ value).
Definition show (z : Z) : string := pretty z.

Definition display_packet (vector : list byte) : N unit :=
  print ("packet = " ++ string_of [newline] ++ dump_bytes 0 vector).

Definition dump_protocol (b : list byte) : string :=
  let protocol := get_field Ip_next_level_protocol b in
  let protocol_name :=
    if decide (protocol = IpNextHeaderProtocols.Tcp) then "IPPROTO_TCP"
    else if decide (protocol = IpNextHeaderProtocols.Udp) then "IPPROTO_UDP" else "IPPROTO_ICMP" in
  protocol_name ++ " (" ++ show protocol ++ ")".

Definition dump_ip (data : list byte) : N unit :=
  view Ipv4 create_packet data ;;
  tab_line "ip_hl=" (show (get_field Ip_header_length data)) ;;
  tab_line "ip_v=" (show (get_field Ip_version data)) ;;
  tab_line "ip_tos=" (show (get_field Ip_dscp data)) ;;
  tab_line "ip_len=" (show (get_field Ip_total_length data)) ;;
  tab_line "ip_id=" (show (get_field Ip_identification data)) ;;
  tab_line "ip_off=" (show (get_field Ip_fragment_offset data)) ;;
  tab_line "ip_ttl=" (show (get_field Ip_ttl data)) ;;
  tab_line "ip_p=" (dump_protocol data) ;;
  tab_line "ip_sum=" (show (get_field Ip_checksum data)) ;;
  tab_line "ip_src=" (ipv4_to_string (get_field Ip_source data)) ;;
  tab_line "ip_dst=" (ipv4_to_string (get_field Ip_destination data)) ;;
  display_packet data.

(** The loop of a dump over the positional arguments *)
Fixpoint dump_each (dump : list byte -> N unit) (other : N unit) (l : list NaslValue.t) : N NaslValue.t :=
  match l with
  | [] => mret NaslValue.Null
  | NaslValue.Data data :: l' => dump data ;; dump_each dump other l'
  | _ :: l' => other ;; dump_each dump other l'
  end.

Definition dump_ip_packet (r : Register) : N NaslValue.t :=
  l ← positional r;
  match l with
  | [] => throw (FnError.from_argument (ArgumentError.MissingPositionals 1 0))
  | _ => dump_each dump_ip (throw (wrong_argument "Invalid ip packet")) l
  end.

(** *** Options *)

(** [vec![0u8; length]] *)
Definition vec_zeros (n : Z) : N (list byte) :=
  if (n <=? i64_max)%Z then mret (zeros (Z.to_nat n)) else panic.

Definition insert_ip_options (r : Register) : N NaslValue.t :=
  buf ← packet_arg r "ip" (FnError.missing_argument "ip");
  code ← named r "code";
  code ← match code with Some (Value (NaslValue.Number x)) => mret x | _ => throw (FnError.missing_argument "code") end;
  len ← named r "length";
  len ← match len with
        | Some (Value (NaslValue.Number x)) => mret (wrap_u 64 x)
        | _ => throw (FnError.missing_argument "length")
        end;
  value ← named r "value";
  value ← match value with
          | Some (Value (NaslValue.String x)) => mret (as_bytes (chars_of x))
          | Some (Value (NaslValue.Data x)) => mret x
          | _ => throw (FnError.missing_argument "value")
          end;
  let codebyte := Z_byte code in
  let opt_len := le_encode 2 len in
  opt_buf ← vec_zeros len;
  opt_buf ← safe_copy_from_slice opt_buf 0 1 [codebyte] 0 1;
  opt_buf ← safe_copy_from_slice opt_buf 1 3 opt_len 0 (length opt_len);
  opt_buf ← safe_copy_from_slice opt_buf 3 (Z.to_nat len) value 0 (length value);
  let hl_valid_data := (20 + length opt_buf)%nat in
  let padding := (32 - hl_valid_data `mod` 32)%nat in
  let hl := (hl_valid_data + padding)%nat in
  let new_buf := zeros hl in
  new_buf ← safe_copy_from_slice new_buf 0 20 buf 0 20;
  new_buf ← safe_copy_from_slice new_buf 20 hl_valid_data opt_buf 0 (length opt_buf);
  view Ipv4 no_packet new_buf ;;
  let new_pkt := set_field Ip_checksum (checksum new_buf) new_buf in
  mret (NaslValue.Data (set_field Ip_header_length (wrap_u 8 (Z.of_nat (hl / 4))) new_pkt)).

(** ** TCP *)

(** The common end of the functions that put a segment behind the header of [ip_buf] *)
Definition append_segment (r : Register) (e : FnError) (ip_buf buf : list byte) : N NaslValue.t :=
  let original_ip_len := length ip_buf in
  let b := (ip_buf ++ buf)%list in
  view Ipv4 e b ;;
  let b := set_field Ip_total_length (wrap_u 16 (zlen b)) b in
  update ← named r "update_ip_len";
  let b := match update with
    | Some (Value (NaslValue.Boolean false)) => set_field Ip_total_length (wrap_u 16 (Z.of_nat original_ip_len)) b
    | _ => b
    end in
  mret (NaslValue.Data (set_field Ip_checksum (checksum b) b)).

Definition forge_tcp_packet (r : Register) : N NaslValue.t :=
  ip_buf ← packet_arg r "ip" (FnError.missing_argument "ip");
  data ← data_arg r (mret []);
  let b := zeros (20 + length data) in
  view Tcp no_packet b ;;
  b ← set_payload_ Tcp data b;
  x ← number_or r "th_sport" 16 (mret 0%Z);
  let b := set_field Tcp_source x b in
  x ← number_or r "th_dport" 16 (mret 0%Z);
  let b := set_field Tcp_destination x b in
  x ← number_or r "th_seq" 32 (x ← random; mret (wrap_u 32 x));
  let b := set_field Tcp_sequence x b in
  x ← number_or r "th_ack" 32 (mret 0%Z);
  let b := set_field Tcp_acknowledgement x b in
  x ← number_or r "th_x2" 8 (mret 0%Z);
  let b := set_field Tcp_reserved x b in
  x ← number_or r "th_off" 8 (mret 5%Z);
  let b := set_field Tcp_data_offset x b in
  x ← number_or r "th_flags" 16 (mret 0%Z);
  let b := set_field Tcp_flags x b in
  x ← number_or r "th_win" 16 (mret 0%Z);
  let b := set_field Tcp_window x b in
  x ← number_or r "th_urp" 16 (mret 0%Z);
  let b := set_field Tcp_urgent_ptr x b in
  chksum ← checksum_or r "th_sum"
    (view Ipv4 no_packet ip_buf ;; view Tcp no_packet b ;;
     mret (tcp_ipv4_checksum b (get_field Ip_source ip_buf) (get_field Ip_destination ip_buf)));
  view Tcp no_packet b ;;
  append_segment r no_packet ip_buf (set_field Tcp_checksum chksum b).

Definition tcp_element (e : string) (b : list byte) : option NaslValue.t :=
  let number f := Some (NaslValue.Number (get_field f b)) in
  if decide (e = "th_sport") then number Tcp_source
  else if decide (e = "th_dport") then number Tcp_destination
  else if decide (e = "th_seq") then number Tcp_sequence
  else if decide (e = "th_ack") then number Tcp_acknowledgement
  else if decide (e = "th_x2") then number Tcp_reserved
  else if decide (e = "th_off") then number Tcp_data_offset
  else if decide (e = "th_flags") then number Tcp_flags
  else if decide (e = "th_win") then number Tcp_window
  else if decide (e = "th_sum") then number Tcp_checksum
  else if decide (e = "th_urp") then number Tcp_urgent_ptr
  else if decide (e = "th_data") then Some (NaslValue.Data (payload Tcp b))
  else None.

Definition get_tcp_element (r : Register) : N NaslValue.t :=
  buf ← packet_arg r "tcp" (FnError.missing_argument "tcp");
  view Ipv4 no_packet buf ;;
  let tcp := payload Ipv4 buf in
  view Tcp no_packet tcp ;;
  element ← named r "element";
  match element with
  | Some (Value (NaslValue.String e)) => ok_or (tcp_element e tcp) (wrong_argument "element")
  | _ => throw (FnError.missing_argument "element")
  end.

(** What the options of a segment say *)
Record TcpOptions := mkTcpOptions { max_seg : Z; window : Z; sack_permitted : Z; timestamps : Z * Z }.

Definition read_option (o : TcpOptions) (opt : Z * list byte) : N TcpOptions :=
  let '(n, p) := opt in
  o ← if decide (n = TcpOptionNumbers.MSS) then
        val ← safe_copy_from_slice (zeros 2) 0 2 p 0 2;
        mret (mkTcpOptions (wrap_i 16 (be_decode val)) (window o) (sack_permitted o) (timestamps o))
      else mret o;
  o ← if decide (n = TcpOptionNumbers.WSCALE) then
        val ← safe_copy_from_slice (zeros 1) 0 1 p 0 1;
        mret (mkTcpOptions (max_seg o) (be_decode val) (sack_permitted o) (timestamps o))
      else mret o;
  let o := if decide (n = TcpOptionNumbers.SACK_PERMITTED)
    then mkTcpOptions (max_seg o) (window o) 1 (timestamps o) else o in
  if decide (n = TcpOptionNumbers.TIMESTAMPS) then
    t1 ← safe_copy_from_slice (zeros 4) 0 4 p 0 4;
    t2 ← safe_copy_from_slice (zeros 4) 0 4 p 4 (length p);
    mret (mkTcpOptions (max_seg o) (window o) (sack_permitted o) (wrap_i 32 (be_decode t1), wrap_i 32 (be_decode t2)))
  else mret o.

Fixpoint read_options (o : TcpOptions) (l : list (Z * list byte)) : N TcpOptions :=
  match l with [] => mret o | opt :: l' => o ← read_option o opt; read_options o l' end.

Definition get_tcp_option (r : Register) : N NaslValue.t :=
  buf ← packet_arg r "tcp" (FnError.missing_argument "tcp");
  view Ipv4 no_packet buf ;;
  let tcp := payload Ipv4 buf in
  view Tcp no_packet tcp ;;
  o ← read_options (mkTcpOptions 0 0 0 (0, 0)%Z) (get_options_iter tcp);
  option ← named r "option";
  match option with
  | Some (Value (NaslValue.Number el)) =>
      if decide (el = 2%Z) then mret (NaslValue.Number (max_seg o))
      else if decide (el = 3%Z) then mret (NaslValue.Number (window o))
      else if decide (el = 4%Z) then mret (NaslValue.Number (sack_permitted o))
      else if decide (el = 8%Z) then
        mret (NaslValue.Array [NaslValue.Number (timestamps o).1; NaslValue.Number (timestamps o).2])
      else throw (wrong_argument "Invalid option")
  | _ => throw (FnError.missing_argument "option")
  end.

(** The common end of the functions that replace the segment of a packet: the checksum of
    the segment, the new packet with the old header, its length and checksum *)
Definition tcp_checksum_arg (r : Register) (buf tcp : list byte) : N Z :=
  checksum_or r "th_sum"
    (view Ipv4 no_packet buf ;; view Tcp no_packet tcp ;;
     mret (tcp_ipv4_checksum tcp (get_field Ip_source buf) (get_field Ip_destination buf))).

Definition replace_segment (r : Register) (buf : list byte) (iph_len : nat) (segment : list byte) : N NaslValue.t :=
  header ← safe_copy_from_slice (zeros iph_len) 0 iph_len buf 0 iph_len;
  let b := (header ++ segment)%list in
  view Ipv4 no_packet b ;;
  let original_ip_len := get_field Ip_total_length b in
  let b := set_field Ip_total_length (wrap_u 16 (zlen b)) b in
  b ← or_panic (set_payload Ipv4 segment b);
  update ← named r "update_ip_len";
  let b := match update with
    | Some (Value (NaslValue.Boolean false)) => set_field Ip_total_length original_ip_len b
    | _ => b
    end in
  mret (NaslValue.Data (set_field Ip_checksum (checksum b) b)).

Definition set_tcp_elements (r : Register) : N NaslValue.t :=
  buf ← packet_arg r "tcp" (FnError.missing_argument "tcp");
  view Ipv4 no_packet buf ;;
  let iph_len := Z.to_nat (get_field Ip_header_length buf * 4) in
  data ← data_arg r (mret []);
  let ori_tcp_buf := payload Ipv4 buf in
  b ← match data with
      | _ :: _ =>
          b ← safe_copy_from_slice (zeros (20 + length data)) 0 20 ori_tcp_buf 0 20;
          view Tcp no_packet b ;;
          or_panic (set_payload Tcp data b)
      | [] =>
          let n := length ori_tcp_buf in
          b ← safe_copy_from_slice (zeros n) 0 n ori_tcp_buf 0 n;
          view Tcp no_packet b ;;
          mret b
      end;
  b ← if_number r "th_sport" 16 Tcp_source b;
  b ← if_number r "th_dport" 16 Tcp_destination b;
  b ← if_number r "th_seq" 32 Tcp_sequence b;
  b ← if_number r "th_ack" 32 Tcp_acknowledgement b;
  b ← if_number r "th_x2" 8 Tcp_reserved b;
  b ← if_number r "th_off" 8 Tcp_data_offset b;
  b ← if_number r "th_flags" 16 Tcp_flags b;
  b ← if_number r "th_win" 16 Tcp_window b;
  b ← if_number r "th_urp" 16 Tcp_urgent_ptr b;
  chksum ← tcp_checksum_arg r buf b;
  replace_segment r buf iph_len (set_field Tcp_checksum chksum b).

(** The options of the positional arguments with their length *)
Fixpoint forge_options (l : list NaslValue.t) : N (list TcpOption * nat) :=
  match l with
  | [] => mret ([], 0%nat)
  | NaslValue.Number o :: l' =>
      if decide (o = 2%Z) then
        match l' with
        | NaslValue.Number val :: l' => x ← forge_options l'; mret (mss (wrap_u 16 val) :: x.1, 4 + x.2)%nat
        | _ => throw (wrong_argument "Invalid value for tcp option TCPOPT_MAXSEG")
        end
      else if decide (o = 3%Z) then
        match l' with
        | NaslValue.Number val :: l' => x ← forge_options l'; mret (wscale (wrap_u 8 val) :: x.1, 3 + x.2)%nat
        | _ => throw (wrong_argument "Invalid value for tcp option TCPOPT_WINDOW")
        end
      else if decide (o = 4%Z) then x ← forge_options l'; mret (sack_perm :: x.1, 2 + x.2)%nat
      else if decide (o = 8%Z) then
        match l' with
        | NaslValue.Number val1 :: NaslValue.Number val2 :: l' =>
            x ← forge_options l'; mret (timestamp (wrap_u 32 val1) (wrap_u 32 val2) :: x.1, 10 + x.2)%nat
        | _ => throw (wrong_argument "Invalid value for tcp option TCPOPT_TIMESTAMP")
        end
      else throw (wrong_argument "insert_tcp_options: invalid tcp option")
  | _ => throw (wrong_argument "insert_tcp_options: invalid tcp option")
  end.

(** The padding to a 32-bit word, one more for the end of the options *)
Definition pad_options (opts : list TcpOption) (opts_len : nat) : list TcpOption * nat :=
  match opts_len with
  | 0%nat => (opts, 0%nat)
  | _ =>
      let opts_len := S opts_len in
      let padding := (4 - opts_len `mod` 4)%nat in
      (opts ++ replicate padding nop, opts_len + padding)%nat%list
  end.

Definition insert_tcp_options (r : Register) : N NaslValue.t :=
  buf ← packet_arg r "tcp" (error "insert_tcp_options: missing <tcp> field");
  view Ipv4 no_packet buf ;;
  let iph_len := Z.to_nat (get_field Ip_header_length buf * 4) in
  let ori_tcp_buf := payload Ipv4 buf in
  data ← data_arg r (view Tcp no_packet ori_tcp_buf ;; mret (payload Tcp ori_tcp_buf));
  l ← positional r;
  match l with
  | [] => throw (error "Missing optional arguments. At least one optional porsitional argument followed by its value must be given")
  | _ =>
      o ← forge_options l;
      let '(opts, opts_len) := pad_options o.1 o.2 in
      if negb (bool_decide (opts_len `mod` 4 = 0)%nat) then panic else
      let tcp_total_length := (20 + opts_len + length data)%nat in
      b ← safe_copy_from_slice (zeros tcp_total_length) 0 20 ori_tcp_buf 0 20;
      view Tcp no_packet b ;;
      let b := set_field Tcp_data_offset (5 + wrap_u 8 (Z.of_nat opts_len) / 4) b in
      b ← match opts with [] => mret b | _ => or_panic (set_options opts b) end;
      b ← set_payload_ Tcp data b;
      chksum ← tcp_checksum_arg r buf b;
      replace_segment r buf iph_len (set_field Tcp_checksum chksum b)
  end.

Definition format_flags (b : list byte) : string :=
  let flags := get_field Tcp_flags b in
  let flag_strs := omap (fun '(flag, name) => if (Z.land flags flag =? flag)%Z then Some name else None)
    [(TcpFlags.FIN, "TH_FIN"); (TcpFlags.SYN, "TH_SYN"); (TcpFlags.RST, "TH_RST"); (TcpFlags.PSH, "TH_PSH");
     (TcpFlags.ACK, "TH_ACK"); (TcpFlags.URG, "TH_URG")] in
  match flag_strs with [] => "0" | _ => join_text "|" flag_strs end.

(** [{:?}] of bytes *)
Definition debug_bytes (l : list byte) : string := "[" ++ join_text ", " (map (fun b => show (byte_Z b)) l) ++ "]".

Fixpoint display_opts (l : list (Z * list byte)) : N unit :=
  match l with
  | [] => mret tt
  | (n, p) :: l' =>
      let name :=
        if decide (n = TcpOptionNumbers.MSS) then Some "MAXSEQ"
        else if decide (n = TcpOptionNumbers.WSCALE) then Some "WINDOW"
        else if decide (n = TcpOptionNumbers.SACK_PERMITTED) then Some "SACK_PERMITTED"
        else if decide (n = TcpOptionNumbers.TIMESTAMPS) then Some "TIMESTAMP TSval" else None in
      match name with Some name => tab_line (String "009" name) (": " ++ debug_bytes p) | None => mret tt end ;;
      display_opts l'
  end.

Definition dump_tcp (data : list byte) : N unit :=
  view Ipv4 (wrong_argument "Invalid TCP packet") data ;;
  let pkt := payload Ipv4 data in
  view Tcp (wrong_argument "Invalid TCP packet") pkt ;;
  tab_line "th_sport = " (show (get_field Tcp_source pkt)) ;;
  tab_line "th_dport = " (show (get_field Tcp_destination pkt)) ;;
  tab_line "th_seq = " (show (get_field Tcp_sequence pkt)) ;;
  tab_line "th_ack = " (show (get_field Tcp_acknowledgement pkt)) ;;
  tab_line "th_x2 = " (show (get_field Tcp_reserved pkt)) ;;
  tab_line "th_off = " (show (get_field Tcp_data_offset pkt)) ;;
  tab_line "th_win = " (show (get_field Tcp_window pkt)) ;;
  tab_line "th_sum = " (show (get_field Tcp_checksum pkt)) ;;
  tab_line "th_urp = " (show (get_field Tcp_urgent_ptr pkt)) ;;
  tab_line "th_flags = " (format_flags pkt) ;;
  display_opts (get_options_iter pkt) ;;
  display_packet data.

Definition dump_tcp_packet (r : Register) : N NaslValue.t :=
  l ← positional r;
  match l with
  | [] => throw (error "Missing arguments. It needs at least one tcp packet")
  | _ => dump_each dump_tcp (throw (wrong_argument "Invalid ip packet")) l
  end.

(** ** UDP *)
Definition forge_udp_packet (r : Register) : N NaslValue.t :=
  ip_buf ← packet_arg r "ip" (FnError.missing_argument "ip");
  data ← data_arg r (mret []);
  let b := zeros (8 + length data) in
  view Udp no_packet b ;;
  b ← set_payload_ Udp data b;
  x ← number_or r "uh_sport" 16 (mret 0%Z);
  let b := set_field Udp_source x b in
  x ← number_or r "uh_dport" 16 (mret 0%Z);
  let b := set_field Udp_destination x b in
  x ← number_or r "uh_len" 16 (mret 8%Z);
  let b := set_field Udp_length x b in
  chksum ← checksum_or r "th_sum"
    (view Ipv4 no_packet ip_buf ;; view Udp no_packet b ;;
     mret (udp_ipv4_checksum b (get_field Ip_source ip_buf) (get_field Ip_destination ip_buf)));
  view Udp no_packet b ;;
  append_segment r no_packet ip_buf (set_field Udp_checksum chksum b).

Definition set_udp_elements (r : Register) : N NaslValue.t :=
  buf ← packet_arg r "udp" (FnError.missing_argument "udp");
  view Ipv4 no_packet buf ;;
  let iph_len := Z.to_nat (get_field Ip_header_length buf * 4) in
  data ← data_arg r (mret []);
  let ori_udp_buf := payload Ipv4 buf in
  b ← match data with
      | _ :: _ =>
          b ← safe_copy_from_slice (zeros (8 + length data)) 0 8 ori_udp_buf 0 8;
          view Udp no_packet b ;;
          or_panic (set_payload Udp data b)
      | [] =>
          let n := length ori_udp_buf in
          b ← safe_copy_from_slice (zeros n) 0 n ori_udp_buf 0 n;
          view Udp no_packet b ;;
          mret b
      end;
  b ← if_number r "uh_sport" 16 Udp_source b;
  b ← if_number r "uh_dport" 16 Udp_destination b;
  b ← if_number r "uh_len" 16 Udp_length b;
  chksum ← checksum_or r "uh_sum"
    (view Ipv4 no_packet buf ;; view Udp no_packet b ;;
     mret (udp_ipv4_checksum b (get_field Ip_source buf) (get_field Ip_destination buf)));
  let b := set_field Udp_checksum chksum b in
  header ← safe_copy_from_slice (zeros iph_len) 0 iph_len buf 0 iph_len;
  let p := (header ++ b)%list in
  view Ipv4 no_packet p ;;
  let p := set_field Ip_total_length (wrap_u 16 (zlen p)) p in
  p ← or_panic (set_payload Ipv4 b p);
  mret (NaslValue.Data (set_field Ip_checksum (checksum p) p)).

Definition dump_udp (data : list byte) : N unit :=
  view Ipv4 (wrong_argument "Invalid UDP packet") data ;;
  let pkt := payload Ipv4 data in
  view Udp (wrong_argument "Invalid UDP packet") pkt ;;
  tab_line "uh_sport = " (show (get_field Udp_source pkt)) ;;
  tab_line "uh_dport = " (show (get_field Udp_destination pkt)) ;;
  tab_line "uh_len = " (show (get_field Udp_length pkt)) ;;
  tab_line "uh_sum = " (show (get_field Udp_checksum pkt)) ;;
  display_packet data.

Definition dump_udp_packet (r : Register) : N NaslValue.t :=
  l ← positional r;
  match l with
  | [] => throw (error "Missing arguments. It needs at least one UDP packet")
  | _ => dump_each dump_udp (throw (wrong_argument "Invalid UDP packet")) l
  end.

Definition udp_element (e : string) (b : list byte) : option NaslValue.t :=
  let number f := Some (NaslValue.Number (get_field f b)) in
  if decide (e = "uh_sport") then number Udp_source
  else if decide (e = "uh_dport") then number Udp_destination
  else if decide (e = "uh_len") then number Udp_length
  else if decide (e = "uh_sum") then number Udp_checksum
  else if decide (e = "data") then Some (NaslValue.Data (payload Udp b))
  else None.

Definition get_udp_element (r : Register) : N NaslValue.t :=
  buf ← packet_arg r "udp" (FnError.missing_argument "udp");
  view Ipv4 no_packet buf ;;
  let udp := payload Ipv4 buf in
  view Udp no_packet udp ;;
  element ← named r "element";
  match element with
  | Some (Value (NaslValue.String e)) => ok_or (udp_element e udp) (wrong_argument "element")
  | _ => throw (wrong_argument "element")
  end.

(** ** ICMP *)
Definition forge_icmp_packet (r : Register) : N NaslValue.t :=
  ip_buf ← packet_arg r "ip" (FnError.missing_argument "icmp");
  data ← data_arg r (mret []);
  let total_length := (8 + length data)%nat in
  let b := zeros total_length in
  view Icmp no_packet b ;;
  x ← number_or r "icmp_type" 8 (mret 0%Z);
  let b := set_field Icmp_type x b in
  x ← number_or r "icmp_code" 8 (mret 0%Z);
  let b := set_field Icmp_code x b in
  icmp_id ← named r "icmp_id";
  b ← match icmp_id with
      | Some (Value (NaslValue.Number x)) => safe_copy_from_slice b 4 6 (le_encode 8 x) 0 2
      | _ => mret b
      end;
  icmp_seq ← named r "icmp_seq";
  b ← match icmp_seq with
      | Some (Value (NaslValue.Number x)) => safe_copy_from_slice b 6 8 (le_encode 8 x) 0 2
      | _ => mret b
      end;
  b ← match data with [] => mret b | _ => safe_copy_from_slice b 8 total_length data 0 (length data) end;
  chksum ← checksum_or r "icmp_cksum" (view Icmp no_packet b ;; mret (icmp_checksum b));
  view Icmp no_packet b ;;
  append_segment r no_packet ip_buf (set_field Icmp_checksum chksum b).

(** The two bytes at [i] of what follows the checksum, as a number *)
Definition icmp_word (i : nat) (pl : list byte) : N Z :=
  if Nat.leb 4 (length pl) then
    b ← safe_copy_from_slice (zeros 8) 0 2 pl i (i + 2);
    mret (wrap_i 64 (le_decode b))
  else mret 0%Z.

Definition get_icmp_element (r : Register) : N NaslValue.t :=
  buf ← packet_arg r "icmp" (FnError.missing_argument "icmp");
  view Ipv4 no_packet buf ;;
  let icmp := payload Ipv4 buf in
  view Icmp no_packet icmp ;;
  let pl := payload Icmp icmp in
  element ← named r "element";
  match element with
  | Some (Value (NaslValue.String e)) =>
      if decide (e = "icmp_code") then mret (NaslValue.Number (get_field Icmp_code icmp))
      else if decide (e = "icmp_type") then mret (NaslValue.Number (get_field Icmp_type icmp))
      else if decide (e = "icmp_cksum") then mret (NaslValue.Number (get_field Icmp_checksum icmp))
      else if decide (e = "icmp_id") then x ← icmp_word 0 pl; mret (NaslValue.Number x)
      else if decide (e = "icmp_seq") then x ← icmp_word 2 pl; mret (NaslValue.Number x)
      else if decide (e = "data") then
        mret (if Nat.ltb 4 (length pl) then NaslValue.Data (drop 4 pl) else NaslValue.Null)
      else mret NaslValue.Null
  | _ => throw (FnError.missing_argument "element")
  end.

Definition dump_icmp (buf : list byte) : N unit :=
  view Ipv4 no_packet buf ;;
  let icmp := payload Ipv4 buf in
  view Icmp no_packet icmp ;;
  let pl := payload Icmp icmp in
  icmp_seq ← icmp_word 2 pl;
  icmp_id ← icmp_word 0 pl;
  let data := if Nat.ltb 4 (length pl) then drop 4 pl else [] in
  tab_line "icmp_id    = " (show icmp_id) ;;
  tab_line "icmp_code  = " (icmp_code_debug (get_field Icmp_code icmp)) ;;
  tab_line "icmp_type  = " (icmp_type_debug (get_field Icmp_type icmp)) ;;
  tab_line "icmp_seq   = " (show icmp_seq) ;;
  tab_line "icmp_cksum = " (show (get_field Icmp_checksum icmp)) ;;
  tab_line "data       = " (debug_bytes data).

Definition dump_icmp_packet (r : Register) : N NaslValue.t :=
  l ← positional r;
  match l with
  | [] => throw (FnError.missing_argument "icmp")
  | _ => dump_each dump_icmp (mret tt) l
  end.

(** ** IGMP *)
Definition igmp_checksum (b : list byte) : Z := util_checksum b 1.

Definition forge_igmp_packet (r : Register) : N NaslValue.t :=
  ip_buf ← packet_arg r "ip" (FnError.missing_argument "igmp");
  data ← data_arg r (mret []);
  let b := zeros (8 + length data) in
  view Igmp no_packet b ;;
  x ← number_or r "type" 8 (mret 0%Z);
  let b := set_field Igmp_type x b in
  x ← number_or r "code" 8 (mret 0%Z);
  let b := set_field Igmp_timeout x b in
  group ← named r "group";
  b ← match group with
      | Some (Value (NaslValue.String x)) =>
          match ipv4_from_str x with
          | Some ip => mret (set_field Igmp_group_address ip b)
          | None => throw (error ("Invalid address group: " ++ ipv4_parse_error))
          end
      | _ => mret (set_field Igmp_group_address 0 b)
      end;
  b ← set_payload_ Igmp data b;
  view Igmp no_packet b ;;
  let cksum := igmp_checksum b in
  view Icmp no_packet b ;;
  append_segment r create_packet ip_buf (set_field Icmp_checksum cksum b).

(** ** Sending and capturing *)
Definition new_raw_socket : N RawSocket :=
  s ← call new_raw;
  match s with inl s => mret s | inr e => throw (error ("Not possible to create a raw socket: " ++ e)) end.
Definition raw_socket : N RawSocket :=
  soc ← new_raw_socket;
  h ← call (set_header_included soc);
  match h with inl _ => mret soc | inr e => throw (error ("Not possible to create a raw socket: " ++ e)) end.

(** [Capture::from_device(iface)] and [.promisc(true).timeout(timeout).open()] *)
Definition open_capture (name : string) (iface : Device) (timeout : Z) : N Capture :=
  c ← call (capture_from_device iface);
  match c with
  | inr e => throw (error (name ++ e))
  | inl _ =>
      c ← call (capture_open iface timeout);
      match c with inl c => mret c | inr e => throw (error (name ++ e)) end
  end.
(** A packet that passes the filter, if one comes *)
Definition capture_next (cap : Capture) (filter : string) : N (option (list byte)) :=
  f ← call (capture_filter cap filter);
  match f with
  | inr _ => mret None
  | inl _ => p ← call (next_packet cap); mret match p with inl p => Some p | inr _ => None end
  end.

Definition sports_ori : list Z :=
  [0; 0; 0; 0; 0; 1023; 0; 0; 0; 0; 0; 0; 0; 0; 0; 0; 0; 0; 0; 0; 53; 0; 0; 20; 0; 25; 0; 0; 0]%Z.
Definition ping_ports : list Z :=
  [139; 135; 445; 80; 22; 515; 23; 21; 6000; 1025; 25; 111; 1028; 9100; 1029; 79; 497; 548;
   5000; 1917; 53; 161; 9001; 65535; 443; 113; 993; 8080]%Z.

Definition rnd_tcp_port : N Z :=
  x ← call random_impl;
  mret (wrap_u 16 (Z.rem (match x with inl x => x | inr _ => 0 end) 65535 + 1024)).
Fixpoint choose_sports (l : list Z) : N (list Z) :=
  match l with
  | [] => mret []
  | p :: l' => p ← if (p =? 0)%Z then rnd_tcp_port else mret p; l ← choose_sports l'; mret (p :: l)
  end.

(** The header of a ping and its segment *)
Definition ping_ip (id : Z) (src dst : Ipv4Addr) : list byte :=
  let ip := set_field Ip_header_length 5 (zeros 40) in
  let ip := set_field Ip_fragment_offset 0 ip in
  let ip := set_field Ip_next_level_protocol 6 ip in
  let ip := set_field Ip_total_length 40 ip in
  let ip := set_field Ip_version 4 ip in
  let ip := set_field Ip_dscp 0 ip in
  let ip := set_field Ip_identification (wrap_u 16 id) ip in
  let ip := set_field Ip_ttl 40 ip in
  let ip := set_field Ip_source src ip in
  let ip := set_field Ip_destination dst ip in
  set_field Ip_checksum (checksum ip) ip.
Definition ping_tcp (seq : Z) : list byte :=
  let tcp := set_field Tcp_flags 2 (zeros 20) in
  let tcp := set_field Tcp_sequence (wrap_u 32 seq) tcp in
  let tcp := set_field Tcp_acknowledgement 0 tcp in
  let tcp := set_field Tcp_data_offset 5 tcp in
  let tcp := set_field Tcp_window 2048 tcp in
  set_field Tcp_urgent_ptr 0 tcp.

(** The loop over the source ports, from the [i]-th *)
Fixpoint ping_loop (soc : RawSocket) (cap : Capture) (filter : string) (target_ip : IpAddr) (port : Z)
  (ip tcp : list byte) (i : nat) (sports : list Z) : N NaslValue.t :=
  match sports with
  | [] => mret NaslValue.Null
  | s :: sports' =>
      rnd ← rnd_tcp_port;
      ports ← if (port =? 0)%Z then d ← or_panic (ping_ports !! i); mret (s, wrap_u 16 d)
              else mret (rnd, wrap_u 16 port);
      let tcp := set_field Tcp_source ports.1 tcp in
      let tcp := set_field Tcp_destination ports.2 tcp in
      let tcp := set_field Tcp_checksum
        (tcp_ipv4_checksum tcp (get_field Ip_source ip) (get_field Ip_destination ip)) tcp in
      ip ← or_panic (set_payload Ipv4 tcp ip);
      sent ← call (send_to soc ip target_ip);
      match sent with
      | inr e => throw (error ("send_packet: " ++ e))
      | inl _ =>
          p ← capture_next cap filter;
          match p with
          | Some _ => mret (NaslValue.Number 1)
          | None => ping_loop soc cap filter target_ip port ip tcp (S i) sports'
          end
      end
  end.

Definition nasl_tcp_ping (r : Register) : N NaslValue.t :=
  sports ← choose_sports sports_ori;
  soc ← raw_socket;
  target_ip ← of_outcome (get_host_ip target);
  local_ip ← get_source_ip target_ip 50000;
  iface ← get_interface_by_local_ip local_ip;
  port ← named r "port";
  port ← match port with
         | Some (Value (NaslValue.Number x)) => mret x
         | None => mret 0%Z
         | _ => throw (FnError.wrong_unnamed_argument "Number" "Invalid length value")
         end;
  local ← islocalhost target_ip;
  if local : bool then mret (NaslValue.Number 1)
  else
    capture_dev ← open_capture "send_packet: " iface 100;
    let filter := "ip and src host " ++ ip_to_string target_ip in
    view Ipv4 no_packet (zeros 40) ;;
    id ← random;
    ipv4_src ← ok_or (ipv4_from_str (ip_to_string local_ip)) (wrong_argument "invalid IP");
    ipv4_dst ← ok_or (ipv4_from_str (ip_to_string target_ip)) (wrong_argument "invalid IP");
    view Tcp no_packet (zeros 20) ;;
    seq ← random;
    ping_loop soc capture_dev filter target_ip port (ping_ip id ipv4_src ipv4_dst) (ping_tcp seq) 0 sports.

(** [SocketAddr::from_str] for an IPv4 address with a port *)
Definition socket_from_str (s : string) : option (Ipv4Addr * Z) :=
  match split_text ":" s with
  | [ip; port] => a ← ipv4_from_str ip; p ← digits_value 10 0 (chars_of port);
      if (0 <? Z.of_nat (length (chars_of port)))%Z && in_u 16 p then Some (a, p) else None
  | _ => None
  end.

(** The packets of [send_packet] *)
Fixpoint send_loop (soc : RawSocket) (cap : Capture) (filter : string) (use_pcap allow_broadcast : bool)
  (target_ip : IpAddr) (l : list NaslValue.t) : N NaslValue.t :=
  match l with
  | [] => mret NaslValue.Null
  | NaslValue.Data packet :: l' =>
      view Ipv4 no_packet packet ;;
      let destination := get_field Ip_destination packet in
      allow_broadcast ← if allow_broadcast then
          b ← call (set_broadcast soc);
          match b with
          | inl _ => mret (is_broadcast destination)
          | inr e => throw (error ("Not possible to set broadcast soc option: " ++ e))
          end
        else mret false;
      if negb (bool_decide (V4 destination = target_ip)) && negb allow_broadcast then
        throw (error ("send_packet: malicious or buggy script is trying to send packet to "
          ++ ipv4_to_string destination ++ " instead of designated target " ++ ip_to_string target_ip))
      else
        match socket_from_str (ipv4_to_string destination ++ ":0") with
        | None => throw (forgery_error (PacketForgeryError.ParseSocketAddr "invalid socket address syntax"))
        | Some (address, _) =>
            sent ← call (send_to soc packet (V4 address));
            match sent with
            | inr e => throw (forgery_error (PacketForgeryError.SendPacket e))
            | inl _ =>
                if use_pcap then
                  p ← capture_next cap filter;
                  mret match p with Some p => NaslValue.Data p | None => NaslValue.Null end
                else send_loop soc cap filter use_pcap allow_broadcast target_ip l'
            end
        end
  | _ => throw (FnError.wrong_unnamed_argument "Data" "Invalid packet")
  end.

Definition nasl_send_packet (r : Register) : N NaslValue.t :=
  use_pcap ← bool_arg r "pcap_active" "Invalid pcap_active value" true;
  filter ← filter_arg r;
  timeout ← timeout_arg r;
  allow_broadcast ← bool_arg r "allow_broadcast" "Invalid allow_broadcast value" false;
  l ← positional r;
  match l with
  | [] => mret NaslValue.Null
  | _ =>
      soc ← raw_socket;
      len ← named r "length";
      _ ← match len with
          | Some (Value (NaslValue.Number x)) => mret x
          | None => mret 0%Z
          | _ => throw (FnError.wrong_unnamed_argument "Number" "Invalid length value")
          end;
      target_ip ← of_outcome (get_host_ip target);
      local_ip ← get_source_ip target_ip 50000;
      iface ← get_interface_by_local_ip local_ip;
      capture_dev ← open_capture "send_packet: " iface timeout;
      send_loop soc capture_dev (default "" filter) use_pcap allow_broadcast target_ip l
  end.

Definition nasl_send_capture (r : Register) : N NaslValue.t :=
  interface ← named r "interface";
  interface ← match interface with
    | Some (Value (NaslValue.String x)) => mret x
    | None => mret ""
    | _ => throw (FnError.wrong_unnamed_argument "String" "Invalid interface value")
    end;
  filter ← filter_arg r;
  timeout ← timeout_arg r;
  target_ip ← of_outcome (get_host_ip target);
  local_ip ← get_source_ip target_ip 50000;
  iface ← get_interface_by_local_ip local_ip;
  let iface := if decide (interface = "") then iface else mkDevice interface [] in
  capture_dev ← open_capture "send_capture: " iface timeout;
  p ← capture_next capture_dev (default "" filter);
  match p with
  | Some data => pl ← ok_or (ethernet_payload data) no_packet; mret (NaslValue.Data pl)
  | None => mret NaslValue.Null
  end.

(** ** The functions of the set *)
Definition PacketForgery : FunctionSet V :=
  list_to_map [("forge_ip_packet", forge_ip_packet); ("set_ip_elements", set_ip_elements);
    ("get_ip_element", get_ip_element); ("dump_ip_packet", dump_ip_packet);
    ("insert_ip_options", insert_ip_options); ("forge_tcp_packet", forge_tcp_packet);
    ("get_tcp_element", get_tcp_element); ("get_tcp_option", get_tcp_option);
    ("set_tcp_elements", set_tcp_elements); ("insert_tcp_options", insert_tcp_options);
    ("dump_tcp_packet", dump_tcp_packet); ("forge_udp_packet", forge_udp_packet);
    ("set_udp_elements", set_udp_elements); ("dump_udp_packet", dump_udp_packet);
    ("get_udp_element", get_udp_element); ("forge_icmp_packet", forge_icmp_packet);
    ("get_icmp_element", get_icmp_element); ("dump_icmp_packet", dump_icmp_packet);
    ("forge_igmp_packet", forge_igmp_packet); ("tcp_ping", nasl_tcp_ping); ("send_packet", nasl_send_packet);
    ("pcap_next", nasl_send_capture); ("send_capture", nasl_send_capture)].

(** [RawIp]: both sets, the later one over the earlier one *)
Definition RawIp `{MacText} : FunctionSet V := FrameForgery little_endian target ∪ PacketForgery.
End Forgery.

Definition packet_vars : list (string * NaslValue.t) :=
  map (fun x => (x.1, NaslValue.Number x.2))
    [("IPPROTO_TCP", IpNextHeaderProtocols.Tcp); ("IPPROTO_UDP", IpNextHeaderProtocols.Udp);
     ("IPPROTO_ICMP", IpNextHeaderProtocols.Icmp); ("IPPROTO_IGMP", IpNextHeaderProtocols.Igmp);
     ("IPPROTO_IP", IPPROTO_IP); ("TH_FIN", TcpFlags.FIN); ("TH_SYN", TcpFlags.SYN); ("TH_RST", TcpFlags.RST);
     ("TH_PUSH", TcpFlags.PSH); ("TH_ACK", TcpFlags.ACK); ("TH_URG", TcpFlags.URG); ("IP_RF", IP_RF);
     ("IP_DF", IP_DF); ("IP_MF", IP_MF); ("IP_OFFMASK", IP_OFFMASK); ("TCPOPT_MAXSEG", TcpOptionNumbers.MSS);
     ("TCPOPT_WINDOW", TcpOptionNumbers.WSCALE); ("TCPOPT_SACK_PERMITTED", TcpOptionNumbers.SACK_PERMITTED);
     ("TCPOPT_TIMESTAMP", TcpOptionNumbers.TIMESTAMPS)].

(** [NaslVarDefiner for RawIp] *)
Definition raw_ip_vars : list (string * NaslValue.t) := (packet_vars ++ frame_vars)%list.
