(* ===== verification/PacketLaws.v ===== *)
(** * What the functions on packets rely on

    The documented behaviour of pnet as laws of the class [Pnet]: the fields of the headers
    are disjoint and have the widths of the RFCs, payloads follow the headers, checksums
    are those of RFC 1071.  The module [BitFields] is an instance made of the layouts
    of the headers, with proofs of the laws. *)

From S2P Require Import Prelude RustStr NaslValue Text Addr ContextFns Frames Packets.
Local Open Scope Z_scope.

(** ** Headers *)
Definition header_of (f : HeaderField) : Header :=
  match f with
  | Ip_version | Ip_header_length | Ip_dscp | Ip_total_length | Ip_identification | Ip_fragment_offset
  | Ip_ttl | Ip_next_level_protocol | Ip_checksum | Ip_source | Ip_destination => Ipv4
  | Tcp_source | Tcp_destination | Tcp_sequence | Tcp_acknowledgement | Tcp_data_offset | Tcp_reserved
  | Tcp_flags | Tcp_window | Tcp_checksum | Tcp_urgent_ptr => Tcp
  | Udp_source | Udp_destination | Udp_length | Udp_checksum => Udp
  | Icmp_type | Icmp_code | Icmp_checksum => Icmp
  | Igmp_type | Igmp_timeout | Igmp_checksum | Igmp_group_address => Igmp
  end.
(** Number of bits *)
Definition width (f : HeaderField) : Z :=
  match f with
  | Ip_version | Ip_header_length | Tcp_data_offset => 4
  | Ip_dscp => 6
  | Ip_fragment_offset => 13
  | Ip_ttl | Ip_next_level_protocol | Icmp_type | Icmp_code | Igmp_type | Igmp_timeout => 8
  | Ip_source | Ip_destination | Tcp_sequence | Tcp_acknowledgement | Igmp_group_address => 32
  | Tcp_reserved => 3
  | Tcp_flags => 9
  | _ => 16
  end.
Definition header_size (h : Header) : nat :=
  match h with Ipv4 | Tcp => 20 | Udp | Igmp => 8 | Icmp => 4 end%nat.
Definition fits (h : Header) (b : list byte) : Prop := (header_size h <= length b)%nat.

(** ** Checksums of RFC 1071 *)

(** The 16-bit words of a buffer, the last one padded *)
Fixpoint words (l : list byte) : list Z :=
  match l with
  | [] => []
  | [a] => [byte_Z a * 256]
  | a :: b :: l' => byte_Z a * 256 + byte_Z b :: words l'
  end.
Definition sum (l : list Z) : Z := foldr Z.add 0 l.
(** The sum with the carries added in: in ones' complement, where 65535 is zero. *)
Definition ones_sum (s : Z) : Z := if (s =? 0) then 0 else (s - 1) mod 65535 + 1.
Definition without (i : nat) (l : list Z) : list Z := <[i := 0]> l.
Definition inet_checksum (l : list Z) : Z := 65535 - ones_sum (sum l).
(** The words of the pseudo header *)
Definition pseudo (src dst protocol len : Z) : list Z :=
  [src / 65536; src mod 65536; dst / 65536; dst mod 65536; protocol; len].

(** The header a checksum covers *)
Definition ip_header (hl : Z) (b : list byte) : list byte :=
  take (if hl * 4 <? 20 then 20%nat else Z.to_nat (hl * 4)) b.

(** ** Options of TCP *)
Definition option_view (o : TcpOption) : Z * list byte :=
  match o with
  | mss v => (2, be_encode 2 v)
  | wscale v => (3, be_encode 1 v)
  | sack_perm => (4, [])
  | timestamp a b => (8, be_encode 4 a ++ be_encode 4 b)
  | nop => (1, [])
  end.
Definition option_length (o : TcpOption) : nat :=
  match o with mss _ => 4 | wscale _ => 3 | sack_perm => 2 | timestamp _ _ => 10 | nop => 1 end%nat.
Definition options_length (l : list TcpOption) : nat := sum_list_with option_length l.

Definition header_bytes (h : Header) (get : HeaderField -> Z) : nat :=
  match h with
  | Ipv4 => 20 `max` Z.to_nat (get Ip_header_length * 4)
  | Tcp => 20 `max` Z.to_nat (get Tcp_data_offset * 4)
  | _ => header_size h
  end%nat.
(** How much of a payload an IP packet can hold by its fields *)
Definition payload_room (h : Header) (get : HeaderField -> Z) (n : nat) : nat :=
  match h with Ipv4 => Z.to_nat (get Ip_total_length - get Ip_header_length * 4) | _ => n end.
(** The options of a segment *)
Definition option_area (off : Z) (b : list byte) : list byte := drop 20 (take (Z.to_nat (off * 4)) b).

Class PnetLaws `{Pnet} := {
  law_new h b : packet_new h b = Nat.leb (header_size h) (length b);
  law_length f v b : fits (header_of f) b -> length (set_field f v b) = length b;
  law_range f b : fits (header_of f) b -> 0 <= get_field f b < 2 ^ width f;
  law_get_set f v b : fits (header_of f) b -> get_field f (set_field f v b) = v mod 2 ^ width f;
  law_get_other f g v b : header_of f = header_of g -> f <> g -> fits (header_of f) b ->
    get_field g (set_field f v b) = get_field g b;
  law_set_get f b : fits (header_of f) b -> set_field f (get_field f b) b = b;
  law_zeros f n : (header_size (header_of f) <= n)%nat -> get_field f (zeros n) = 0;
  law_get_app f b c : fits (header_of f) b -> get_field f (b ++ c) = get_field f b;
  law_set_app f v b c : fits (header_of f) b -> set_field f v (b ++ c) = set_field f v b ++ c;
  law_payload h b : fits h b ->
    payload h b = take (payload_room h (fun f => get_field f b) (length b))
      (drop (header_bytes h (fun f => get_field f b)) b);
  law_set_payload h d b : fits h b ->
    let start := header_bytes h (fun f => get_field f b) in
    set_payload h d b =
      if Nat.leb (length d) (payload_room h (fun f => get_field f b) (length b))
         && Nat.leb (start + length d) (length b)
      then Some (take start b ++ d ++ drop (start + length d) b) else None;
  law_checksum_word f v b i :
    (f, i) ∈ [(Ip_checksum, 5); (Tcp_checksum, 8); (Udp_checksum, 3); (Icmp_checksum, 1)]%nat ->
    fits (header_of f) b -> words (set_field f v b) = <[i := v mod 2 ^ 16]> (words b);
  law_util_checksum b i : util_checksum b i = inet_checksum (without i (words b));
  law_checksum b : fits Ipv4 b ->
    checksum b = inet_checksum (without 5 (words (ip_header (get_field Ip_header_length b) b)));
  law_tcp_checksum b src dst : fits Tcp b ->
    tcp_ipv4_checksum b src dst =
      inet_checksum (pseudo src dst IpNextHeaderProtocols.Tcp (zlen b) ++ without 8 (words b));
  law_udp_checksum b src dst : fits Udp b ->
    udp_ipv4_checksum b src dst =
      inet_checksum (pseudo src dst IpNextHeaderProtocols.Udp (zlen b) ++ without 3 (words b));
  law_icmp_checksum b : fits Icmp b -> icmp_checksum b = inet_checksum (without 1 (words b));
  law_set_options opts b : fits Tcp b -> let off := get_field Tcp_data_offset b in
    (Z.to_nat (off * 4) <= length b)%nat -> (20 + options_length opts <= Z.to_nat (off * 4))%nat ->
    option_area off b = zeros (Z.to_nat (off * 4) - 20) ->
    exists c rest, set_options opts b = Some c /\ length c = length b /\ take 20 c = take 20 b
      /\ drop (Z.to_nat (off * 4)) c = drop (Z.to_nat (off * 4)) b
      /\ get_options_iter c = map option_view opts ++ rest /\ Forall (fun o => o.1 = 0) rest;
  law_options_iter b c : fits Tcp b -> fits Tcp c ->
    get_field Tcp_data_offset b = get_field Tcp_data_offset c ->
    option_area (get_field Tcp_data_offset b) b = option_area (get_field Tcp_data_offset b) c ->
    get_options_iter b = get_options_iter c
}.

(** ** Lemmas on fields *)
Section Fields.
Context `{PnetLaws}.

Lemma view_new h b : packet_new h b = true <-> fits h b.
Proof. rewrite law_new. unfold fits. apply Nat.leb_le. Qed.

Lemma fits_set h f v b : header_of f = h -> fits h b -> fits h (set_field f v b).
Proof. intros <- Hb. unfold fits in *. by rewrite law_length. Qed.

Lemma fits_take h n b : (header_size h <= n)%nat -> fits h b -> fits h (take n b).
Proof. unfold fits. rewrite length_take. lia. Qed.

(** Behind its header a buffer is not touched. *)
Lemma drop_set n f v b : (header_size (header_of f) <= n)%nat -> fits (header_of f) b ->
  drop n (set_field f v b) = drop n b.
Proof.
  intros Hn Hb. rewrite <- (take_drop n b) at 1. rewrite law_set_app by by apply fits_take.
  assert (length (set_field f v (take n b)) = length (take n b)) as Hl by (by apply law_length, fits_take).
  destruct (decide (n <= length b)%nat) as [Hle|Hgt].
  - apply drop_app_length'. rewrite Hl, length_take. lia.
  - rewrite drop_ge; [by rewrite drop_ge by lia|]. rewrite length_app, Hl, length_take, length_drop. lia.
Qed.

Lemma take_set n f v b : (header_size (header_of f) <= n)%nat -> fits (header_of f) b ->
  take n (set_field f v b) = set_field f v (take n b).
Proof.
  intros Hn Hb. rewrite <- (take_drop n b) at 1. rewrite law_set_app by by apply fits_take.
  assert (length (set_field f v (take n b)) = length (take n b)) as Hl by (by apply law_length, fits_take).
  destruct (decide (n <= length b)%nat) as [Hle|Hgt].
  - apply take_app_length'. rewrite Hl, length_take. lia.
  - rewrite (drop_ge b) by lia. rewrite app_nil_r. apply take_ge. rewrite Hl, length_take. lia.
Qed.

(** A field depends on the header only. *)
Lemma get_take n f b c : (header_size (header_of f) <= n)%nat -> fits (header_of f) b ->
  get_field f (take n b ++ c) = get_field f b.
Proof.
  intros Hn Hb. rewrite law_get_app by by apply fits_take. rewrite <- (take_drop n b) at 2.
  by rewrite law_get_app by by apply fits_take.
Qed.
End Fields.

(** ** Lemmas on checksums *)
Lemma ones_sum_carry s : 0 <= s -> ones_sum (s mod 65536 + s / 65536) = ones_sum s.
Proof.
  intros Hs. unfold ones_sum. pose proof (Z_div_mod_eq_full s 65536). pose proof (Z.mod_pos_bound s 65536 eq_refl).
  pose proof (Z.div_pos s 65536). destruct (Z.eqb_spec s 0) as [->|Hne]; [done|].
  destruct (Z.eqb_spec (s mod 65536 + s / 65536) 0) as [E|_]; [lia|]. f_equal.
  replace (s - 1) with (s mod 65536 + s / 65536 - 1 + s / 65536 * 65535) by lia. by rewrite Z_mod_plus_full.
Qed.

Lemma ones_sum_small s : 0 <= s < 65536 -> ones_sum s = s.
Proof.
  intros Hs. unfold ones_sum. destruct (Z.eqb_spec s 0) as [->|]; [done|]. rewrite Z.mod_small by lia. lia.
Qed.

Lemma ones_sum_range s : 0 <= s -> 0 <= ones_sum s < 65536.
Proof.
  intros Hs. unfold ones_sum. destruct (s =? 0); [lia|]. pose proof (Z.mod_pos_bound (s - 1) 65535 eq_refl). lia.
Qed.

(** A sum and its checksum are the zero of ones' complement. *)
Lemma ones_sum_checksum s : 0 <= s -> ones_sum (s + (65535 - ones_sum s)) = 65535.
Proof.
  intros Hs. unfold ones_sum. destruct (Z.eqb_spec s 0) as [->|Hne]; [done|].
  pose proof (Z.mod_pos_bound (s - 1) 65535 eq_refl). pose proof (Z_div_mod_eq_full (s - 1) 65535).
  destruct (Z.eqb_spec (s + (65535 - ((s - 1) mod 65535 + 1))) 0) as [E|_]; [lia|].
  replace (s + (65535 - ((s - 1) mod 65535 + 1)) - 1) with (65534 + (s - 1) / 65535 * 65535) by lia.
  rewrite Z_mod_plus_full. done.
Qed.

Lemma sum_app a b : sum (a ++ b) = sum a + sum b.
Proof. induction a as [|x a IH]; simpl; lia. Qed.

Lemma words_range l : Forall (fun w => 0 <= w < 65536) (words l).
Proof.
  assert (forall n (l : list byte), (length l <= n)%nat -> Forall (fun w => 0 <= w < 65536) (words l)) as H; [|by eapply H].
  intros n. induction n as [|n IH]; intros [|a [|b k]] Hn; simpl in *; try done; try lia.
  - constructor; [|done]. pose proof (byte_Z_range a). lia.
  - constructor; [|apply IH; lia]. pose proof (byte_Z_range a). pose proof (byte_Z_range b). lia.
Qed.

Lemma sum_nonneg l : Forall (fun w => 0 <= w < 65536) l -> 0 <= sum l.
Proof. induction 1; simpl; lia. Qed.

Lemma sum_insert i v l : (i < length l)%nat -> sum (<[i := v]> l) = sum (without i l) + v.
Proof.
  unfold without. revert i. induction l as [|x l IH]; intros [|i] Hi; simpl in *; try lia. rewrite IH by lia. lia.
Qed.

Lemma without_range i l : Forall (fun w => 0 <= w < 65536) l -> Forall (fun w => 0 <= w < 65536) (without i l).
Proof. intros H. by apply Forall_insert. Qed.

Lemma words_length l : length (words l) = ((length l + 1) / 2)%nat.
Proof.
  assert (forall n (l : list byte), (length l <= n)%nat -> length (words l) = ((length l + 1) / 2)%nat) as H; [|by eapply H].
  intros n. induction n as [|n IH]; intros [|a [|b k]] Hn; simpl in Hn; try done; try lia.
  cbn [words length]. rewrite IH by lia. replace (S (S (length k)) + 1)%nat with (length k + 1 + 1 * 2)%nat by lia.
  rewrite Nat.div_add by lia. lia.
Qed.

(** What a checksum that was put into its word is worth: all words and the words before
    them add up to the zero of ones' complement. *)
Lemma checksum_verifies i pre l : Forall (fun w => 0 <= w < 65536) pre -> Forall (fun w => 0 <= w < 65536) l ->
  (i < length l)%nat ->
  ones_sum (sum (pre ++ <[i := inet_checksum (pre ++ without i l) mod 2 ^ 16]> l)) = 65535.
Proof.
  intros Hp Hl Hi. assert (0 <= sum (pre ++ without i l)) as Hs.
  { apply sum_nonneg, Forall_app. split; [done|]. by apply without_range. }
  pose proof (ones_sum_range _ Hs). unfold inet_checksum. rewrite Z.mod_small by lia.
  rewrite sum_app, sum_insert, Z.add_assoc, <- sum_app by done. by apply ones_sum_checksum.
Qed.

(** ** Headers as bit fields

    An instance of [Pnet] by the layouts of the headers (RFC 791, 9293, 768, 792, 2236) and
    the proof of [PnetLaws] for it. *)
(** ** Parts of a buffer *)
Definition part (o n : nat) (b : list byte) : list byte := take n (drop o b).
Definition put (o : nat) (x b : list byte) : list byte := take o b ++ x ++ drop (o + length x) b.

Lemma part_length o n b : (o + n <= length b)%nat -> length (part o n b) = n.
Proof. intros H. unfold part. rewrite length_take, length_drop. lia. Qed.

Lemma put_length o x b : (o + length x <= length b)%nat -> length (put o x b) = length b.
Proof. intros H. unfold put. rewrite !length_app, length_take, length_drop. lia. Qed.

Lemma part_put o x b : (o + length x <= length b)%nat -> part o (length x) (put o x b) = x.
Proof.
  intros H. unfold part, put. rewrite drop_app_length' by (rewrite length_take; lia). by rewrite take_app_length.
Qed.

Lemma part_put_other o n p x b : (p + length x <= length b -> o + n <= p \/ p + length x <= o)%nat ->
  (p + length x <= length b)%nat -> part o n (put p x b) = part o n b.
Proof.
  intros Ho H. specialize (Ho H). unfold part, put. apply list_eq. intros i.
  destruct (decide (i < n)%nat) as [Hi|Hi]; [|by rewrite !lookup_take_ge by lia].
  rewrite !lookup_take_lt, !lookup_drop by done. destruct Ho as [Ho|Ho].
  - rewrite lookup_app_l by (rewrite length_take; lia). by rewrite lookup_take_lt by lia.
  - rewrite lookup_app_r by (rewrite length_take; lia). rewrite length_take, lookup_app_r by lia.
    rewrite lookup_drop. f_equal. lia.
Qed.

Lemma put_part o n b : (o + n <= length b)%nat -> put o (part o n b) b = b.
Proof.
  intros H. unfold put. rewrite part_length by done. unfold part.
  rewrite <- (take_drop o b) at 4. f_equal. rewrite <- (take_drop n (drop o b)) at 2. by rewrite drop_drop.
Qed.

Lemma part_app o n b c : (o + n <= length b)%nat -> part o n (b ++ c) = part o n b.
Proof. intros H. unfold part. rewrite drop_app_le by lia. by rewrite take_app_le by (rewrite length_drop; lia). Qed.

Lemma put_app o x b c : (o + length x <= length b)%nat -> put o x (b ++ c) = put o x b ++ c.
Proof. intros H. unfold put. rewrite take_app_le, drop_app_le by lia. by rewrite <- !app_assoc. Qed.

(** ** Bits of a number *)
Definition bits (s w x : Z) : Z := (x / 2 ^ s) mod 2 ^ w.
Definition with_bits (s w v x : Z) : Z := x - bits s w x * 2 ^ s + v mod 2 ^ w * 2 ^ s.

Lemma bits_split s w x : 0 <= s -> 0 <= w ->
  x = (x / 2 ^ (s + w) * 2 ^ w + bits s w x) * 2 ^ s + x mod 2 ^ s.
Proof.
  intros Hs Hw. unfold bits. rewrite Z.pow_add_r by lia. rewrite <- Zdiv.Zdiv_Zdiv by lia.
  pose proof (Z_div_mod_eq_full x (2 ^ s)). pose proof (Z_div_mod_eq_full (x / 2 ^ s) (2 ^ w)). lia.
Qed.

Lemma with_bits_split s w v x : 0 <= s -> 0 <= w ->
  with_bits s w v x = (x / 2 ^ (s + w) * 2 ^ w + v mod 2 ^ w) * 2 ^ s + x mod 2 ^ s.
Proof. intros Hs Hw. unfold with_bits. rewrite (bits_split s w x) at 1 by done. lia. Qed.

Section Bits.
Context (s w v x : Z) (Hs : 0 <= s) (Hw : 0 <= w).

Lemma with_bits_high : with_bits s w v x / 2 ^ (s + w) = x / 2 ^ (s + w) /\ with_bits s w v x mod 2 ^ s = x mod 2 ^ s.
Proof.
  pose proof (Z.mod_pos_bound x (2 ^ s) ltac:(lia)). pose proof (Z.mod_pos_bound v (2 ^ w) ltac:(lia)).
  rewrite with_bits_split by done. split.
  - rewrite Z.pow_add_r by lia. rewrite <- Zdiv.Zdiv_Zdiv by lia. rewrite Z.div_add_l by lia.
    rewrite (Z.div_small (x mod 2 ^ s)), Z.add_0_r by done.
    rewrite Z.div_add_l by lia. rewrite (Z.div_small (v mod 2 ^ w)) by done. lia.
  - rewrite Z.add_comm, Z_mod_plus_full. by apply Z.mod_small.
Qed.

Lemma bits_with_bits : bits s w (with_bits s w v x) = v mod 2 ^ w.
Proof.
  pose proof (Z.mod_pos_bound x (2 ^ s) ltac:(lia)). pose proof (Z.mod_pos_bound v (2 ^ w) ltac:(lia)).
  rewrite with_bits_split by done. unfold bits. rewrite Z.div_add_l by lia.
  rewrite (Z.div_small (x mod 2 ^ s)), Z.add_0_r by done.
  rewrite Z.add_comm, Z_mod_plus_full. by apply Z.mod_small.
Qed.

Lemma with_bits_same : with_bits s w (bits s w x) x = x.
Proof. unfold with_bits, bits. rewrite Z.mod_mod by lia. lia. Qed.

Lemma with_bits_range n : s + w <= n -> 0 <= x < 2 ^ n -> 0 <= with_bits s w v x < 2 ^ n.
Proof.
  intros Hn Hx. destruct with_bits_high as [Hd _]. split.
  - rewrite with_bits_split by done. pose proof (Z.div_pos x (2 ^ (s + w))).
    pose proof (Z.mod_pos_bound x (2 ^ s) ltac:(lia)). pose proof (Z.mod_pos_bound v (2 ^ w) ltac:(lia)). nia.
  - apply (f_equal (fun z => z / 2 ^ (n - (s + w)))) in Hd. rewrite !Zdiv.Zdiv_Zdiv, <- Z.pow_add_r in Hd by lia.
    replace (s + w + (n - (s + w))) with n in Hd by lia. rewrite (Z.div_small x) in Hd by done.
    assert (0 <= with_bits s w v x) as Hp.
    { rewrite with_bits_split by done. pose proof (Z.div_pos x (2 ^ (s + w))).
      pose proof (Z.mod_pos_bound x (2 ^ s) ltac:(lia)). pose proof (Z.mod_pos_bound v (2 ^ w) ltac:(lia)). nia. }
    apply Z.div_small_iff in Hd; [|lia]. lia.
Qed.

Lemma bits_other s' w' : 0 <= s' -> 0 <= w' -> s' + w' <= s \/ s + w <= s' ->
  bits s' w' (with_bits s w v x) = bits s' w' x.
Proof.
  intros Hs' Hw' Ho. destruct with_bits_high as [Hd Hm]. unfold bits. destruct Ho as [Ho|Ho].
  - assert (forall z, (z / 2 ^ s') mod 2 ^ w' = (z mod 2 ^ s) mod (2 ^ s' * 2 ^ w') / 2 ^ s') as E.
    { intros z. rewrite <- Z.pow_add_r by lia. rewrite Z.mod_mod_divide.
      - rewrite Z.pow_add_r, Z.rem_mul_r by lia. rewrite (Z.mul_comm (2 ^ s')), Z.div_add by lia.
        rewrite (Z.div_small (z mod 2 ^ s')); [lia|]. apply Z.mod_pos_bound. lia.
      - exists (2 ^ (s - (s' + w'))). rewrite <- Z.pow_add_r by lia. f_equal. lia. }
    by rewrite !E, Hm.
  - replace s' with (s + w + (s' - (s + w))) by lia. rewrite Z.pow_add_r by lia.
    by rewrite <- !Zdiv.Zdiv_Zdiv, Hd by lia.
Qed.
End Bits.

(** ** The layouts: first byte, number of bytes, bits below the field *)
Definition layout (f : HeaderField) : nat * nat * Z :=
  match f with
  | Ip_version => (0, 1, 4%Z) | Ip_header_length => (0, 1, 0%Z) | Ip_dscp => (1, 1, 2%Z)
  | Ip_total_length => (2, 2, 0%Z) | Ip_identification => (4, 2, 0%Z) | Ip_fragment_offset => (6, 2, 0%Z)
  | Ip_ttl => (8, 1, 0%Z) | Ip_next_level_protocol => (9, 1, 0%Z) | Ip_checksum => (10, 2, 0%Z)
  | Ip_source => (12, 4, 0%Z) | Ip_destination => (16, 4, 0%Z)
  | Tcp_source => (0, 2, 0%Z) | Tcp_destination => (2, 2, 0%Z) | Tcp_sequence => (4, 4, 0%Z)
  | Tcp_acknowledgement => (8, 4, 0%Z) | Tcp_data_offset => (12, 2, 12%Z) | Tcp_reserved => (12, 2, 9%Z)
  | Tcp_flags => (12, 2, 0%Z) | Tcp_window => (14, 2, 0%Z) | Tcp_checksum => (16, 2, 0%Z)
  | Tcp_urgent_ptr => (18, 2, 0%Z)
  | Udp_source => (0, 2, 0%Z) | Udp_destination => (2, 2, 0%Z) | Udp_length => (4, 2, 0%Z)
  | Udp_checksum => (6, 2, 0%Z)
  | Icmp_type => (0, 1, 0%Z) | Icmp_code => (1, 1, 0%Z) | Icmp_checksum => (2, 2, 0%Z)
  | Igmp_type => (0, 1, 0%Z) | Igmp_timeout => (1, 1, 0%Z) | Igmp_checksum => (2, 2, 0%Z)
  | Igmp_group_address => (4, 4, 0%Z)
  end%nat.

Definition get_bits (f : HeaderField) (b : list byte) : Z :=
  let '(o, n, s) := layout f in bits s (width f) (be_decode (part o n b)).
Definition set_bits (f : HeaderField) (v : Z) (b : list byte) : list byte :=
  let '(o, n, s) := layout f in put o (be_encode n (with_bits s (width f) v (be_decode (part o n b)))) b.

(** Options as bytes, and the options in bytes *)
Definition option_bytes (o : TcpOption) : list byte :=
  match o with
  | nop => [x01]
  | _ => [Z_byte (option_view o).1; Z_byte (Z.of_nat (option_length o))] ++ (option_view o).2
  end.
Fixpoint parse_options (fuel : nat) (l : list byte) : list (Z * list byte) :=
  match fuel, l with
  | S fuel, n :: l' =>
      if byte_Z n <? 2 then (byte_Z n, []) :: parse_options fuel l'
      else match l' with
           | [] => []
           | len :: l'' =>
               let k := Z.to_nat (byte_Z len - 2) in (byte_Z n, take k l'') :: parse_options fuel (drop k l'')
           end
  | _, _ => []
  end.

Definition put_payload (h : Header) (d b : list byte) : option (list byte) :=
  let start := header_bytes h (fun f => get_bits f b) in
  if Nat.leb (length d) (payload_room h (fun f => get_bits f b) (length b)) && Nat.leb (start + length d) (length b)
  then Some (take start b ++ d ++ drop (start + length d) b) else None.

#[global] Instance bit_fields : Pnet := {|
  packet_new := fun h b => Nat.leb (header_size h) (length b);
  get_field := get_bits;
  set_field := set_bits;
  payload := fun h b => take (payload_room h (fun f => get_bits f b) (length b))
    (drop (header_bytes h (fun f => get_bits f b)) b);
  set_payload := put_payload;
  set_options := fun opts b =>
    let l := concat (map option_bytes opts) in
    if Nat.leb (20 + length l) (Z.to_nat (get_bits Tcp_data_offset b * 4)) then Some (put 20 l b) else None;
  get_options_iter := fun b =>
    parse_options (length b) (option_area (get_bits Tcp_data_offset b) b);
  util_checksum := fun b i => inet_checksum (without i (words b));
  checksum := fun b => inet_checksum (without 5 (words (ip_header (get_bits Ip_header_length b) b)));
  tcp_ipv4_checksum := fun b src dst =>
    inet_checksum (pseudo src dst IpNextHeaderProtocols.Tcp (zlen b) ++ without 8 (words b));
  udp_ipv4_checksum := fun b src dst =>
    inet_checksum (pseudo src dst IpNextHeaderProtocols.Udp (zlen b) ++ without 3 (words b));
  icmp_checksum := fun b => inet_checksum (without 1 (words b));
  ethernet_payload := fun b => if Nat.leb 14 (length b) then Some (drop 14 b) else None;
  icmp_type_debug := fun z => String.append "IcmpType(" (String.append (pretty z) ")");
  icmp_code_debug := fun z => String.append "IcmpCode(" (String.append (pretty z) ")")
|}.

(** ** The laws *)
Lemma layout_fits f : let '(o, n, s) := layout f in
  (o + n <= header_size (header_of f))%nat /\ 0 <= s /\ 0 <= width f /\ s + width f <= 8 * Z.of_nat n.
Proof. destruct f; simpl; lia. Qed.

Lemma layout_disjoint f g : header_of f = header_of g -> f <> g ->
  let '(o, n, s) := layout f in let '(o', n', s') := layout g in
  (o + n <= o')%nat \/ (o' + n' <= o)%nat \/ (o = o' /\ n = n' /\ (s + width f <= s' \/ s' + width g <= s)).
Proof. intros Hh Hf. destruct f, g; simpl in *; try done; lia. Qed.

Section Laws.
Context (f : HeaderField) (v : Z) (b : list byte) (Hb : fits (header_of f) b).

Lemma set_bits_length : length (set_bits f v b) = length b.
Proof.
  unfold set_bits. pose proof (layout_fits f) as Hl. destruct (layout f) as [[o n] s]. unfold fits in Hb.
  apply put_length. rewrite be_encode_length. lia.
Qed.

Lemma with_part o n s x : 0 <= s -> 0 <= width f -> s + width f <= 8 * Z.of_nat n -> (o + n <= length b)%nat ->
  x = be_decode (part o n b) ->
  be_decode (be_encode n (with_bits s (width f) v x)) = with_bits s (width f) v x.
Proof.
  intros Hs Hw Hn Ho ->. rewrite be_decode_encode. apply Z.mod_small, with_bits_range; try done.
  pose proof (be_decode_range (part o n b)) as Hr. by rewrite part_length in Hr.
Qed.

Lemma get_set_bits : get_bits f (set_bits f v b) = v mod 2 ^ width f.
Proof.
  unfold get_bits, set_bits. pose proof (layout_fits f) as Hl. destruct (layout f) as [[o n] s]. unfold fits in Hb.
  destruct Hl as (Ho & Hs & Hw & Hn). set (x := with_bits _ _ _ _).
  assert (part o n (put o (be_encode n x) b) = be_encode n x) as ->.
  { rewrite <- (be_encode_length n x) at 1. apply part_put. rewrite be_encode_length. lia. }
  unfold x. rewrite (with_part o) by (try done; lia). by apply bits_with_bits.
Qed.

Lemma get_set_other g : header_of f = header_of g -> f <> g -> get_bits g (set_bits f v b) = get_bits g b.
Proof.
  intros Hh Hf. pose proof (layout_disjoint f g Hh Hf) as Hd. pose proof (layout_fits f) as Hl. pose proof (layout_fits g) as Hg.
  unfold get_bits, set_bits, fits in *. destruct (layout f) as [[o n] s], (layout g) as [[o' n'] s'].
  destruct Hl as (Ho & Hs & Hw & Hn), Hg as (Ho' & Hs' & Hw' & Hn'). set (x := with_bits _ _ _ _).
  destruct Hd as [Hd|[Hd|(<- & <- & Hd)]].
  1,2: rewrite part_put_other; [done|rewrite be_encode_length; lia..].
  assert (part o n (put o (be_encode n x) b) = be_encode n x) as ->.
  { rewrite <- (be_encode_length n x) at 1. apply part_put. rewrite be_encode_length. lia. }
  unfold x. rewrite (with_part o) by (try done; lia). apply bits_other; try done. tauto.
Qed.

Lemma set_get_bits : set_bits f (get_bits f b) b = b.
Proof.
  unfold get_bits, set_bits. pose proof (layout_fits f) as Hl. destruct (layout f) as [[o n] s]. unfold fits in Hb.
  rewrite with_bits_same by lia. rewrite <- (part_length o n b) at 1 by lia. rewrite be_encode_decode. apply put_part. lia.
Qed.

Lemma get_bits_range : 0 <= get_bits f b < 2 ^ width f.
Proof.
  unfold get_bits. pose proof (layout_fits f) as Hl. destruct (layout f) as [[o n] s]. apply Z.mod_pos_bound. lia.
Qed.

Lemma bits_app c : get_bits f (b ++ c) = get_bits f b /\ set_bits f v (b ++ c) = set_bits f v b ++ c.
Proof.
  unfold get_bits, set_bits. pose proof (layout_fits f) as Hl. destruct (layout f) as [[o n] s]. unfold fits in Hb.
  rewrite part_app by lia. split; [done|]. apply put_app. rewrite be_encode_length. lia.
Qed.
End Laws.

Lemma words_put i x (b : list byte) : length x = 2%nat -> (2 * i + 2 <= length b)%nat ->
  words (put (2 * i) x b) = <[i := be_decode x]> (words b).
Proof.
  intros Hx. destruct x as [|p [|q []]]; try done. revert b. induction i as [|i IH]; intros b Hb.
  - destruct b as [|a [|c b]]; simpl in Hb; try lia. cbn. f_equal. unfold be_decode. cbn. lia.
  - destruct b as [|a [|c b]]; simpl in Hb; try lia.
    replace (2 * S i)%nat with (S (S (2 * i))) by lia.
    change (put (S (S (2 * i))) [p; q] (a :: c :: b)) with (a :: c :: put (2 * i) [p; q] b).
    cbn [words]. rewrite IH by lia. done.
Qed.

Lemma checksum_word f v b i :
  (f, i) ∈ [(Ip_checksum, 5); (Tcp_checksum, 8); (Udp_checksum, 3); (Icmp_checksum, 1)]%nat ->
  fits (header_of f) b -> words (set_bits f v b) = <[i := v mod 2 ^ 16]> (words b).
Proof.
  intros Hi Hb. assert (layout f = (2 * i, 2, 0%Z)%nat /\ width f = 16 /\ (2 * i + 2 <= header_size (header_of f))%nat) as (Hl & Hw & Hn).
  { set_unfold in Hi. destruct_or!; simplify_eq/=; split_and!; try done; lia. }
  unfold fits in Hb. unfold set_bits. rewrite Hl, Hw. rewrite words_put by (rewrite ?be_encode_length; lia).
  f_equal. rewrite be_decode_encode. unfold with_bits, bits. rewrite Z.pow_0_r, Z.div_1_r, !Z.mul_1_r.
  change (8 * Z.of_nat 2) with 16. pose proof (be_decode_range (part (2 * i) 2 b)) as Hr.
  rewrite part_length in Hr by lia. rewrite (Z.mod_small (be_decode _)) by done. rewrite Z.sub_diag, Z.add_0_l. by apply Z.mod_mod.
Qed.

(** *** Options *)
Lemma option_bytes_length o : length (option_bytes o) = option_length o.
Proof. by destruct o; simpl; rewrite ?length_app, ?be_encode_length. Qed.

Lemma options_bytes_length opts : length (concat (map option_bytes opts)) = options_length opts.
Proof.
  induction opts as [|o opts IH]; [done|]. simpl. by rewrite length_app, IH, option_bytes_length.
Qed.

Lemma parse_zeros fuel n : (n <= fuel)%nat -> Forall (fun o => o.1 = 0) (parse_options fuel (zeros n)).
Proof.
  revert n. induction fuel as [|fuel IH]; intros [|n] Hn; simpl; try done; try lia.
  constructor; [done|]. apply IH. lia.
Qed.

Lemma parse_option fuel o l : parse_options (S fuel) (option_bytes o ++ l) = option_view o :: parse_options fuel l.
Proof.
  destruct o; [..|done]; unfold option_bytes; rewrite <- app_assoc; cbn [app]; cbn [parse_options];
    rewrite !byte_of_Z; cbn [option_view option_length fst snd];
    (match goal with |- context [?z mod 256] => change (z mod 256) with z end);
    (match goal with |- context [Z.to_nat (?z mod 256 - 2)] => change (Z.to_nat (z mod 256 - 2)) with (Z.to_nat (z - 2)) end);
    cbn -[be_encode parse_options app];
    rewrite ?take_app_length', ?drop_app_length' by (rewrite ?length_app, ?be_encode_length; done); done.
Qed.

Lemma parse_encoded fuel opts n : (options_length opts + n <= fuel)%nat ->
  exists rest, parse_options fuel (concat (map option_bytes opts) ++ zeros n) = map option_view opts ++ rest
    /\ Forall (fun o => o.1 = 0) rest.
Proof.
  revert fuel. induction opts as [|o opts IH]; intros fuel Hf; simpl.
  - eexists. split; [done|]. by apply parse_zeros.
  - simpl in Hf. assert (1 <= option_length o)%nat by (destruct o; simpl; lia). destruct fuel as [|fuel]; [lia|].
    rewrite <- app_assoc, parse_option. destruct (IH fuel) as (rest & -> & Hr); [unfold options_length in *; lia|].
    by exists rest.
Qed.

Lemma parse_fuel n m l : (length l <= n)%nat -> (length l <= m)%nat -> parse_options n l = parse_options m l.
Proof.
  revert m l. induction n as [|n IH]; intros [|m] [|x l] Hn Hm; simpl in *; try done; try lia.
  destruct (byte_Z x <? 2); [f_equal; apply IH; lia|]. destruct l as [|y l]; [done|]. f_equal.
  apply IH; rewrite length_drop; simpl in *; lia.
Qed.

Lemma set_options_law opts b : fits Tcp b -> let off := get_bits Tcp_data_offset b in
  (Z.to_nat (off * 4) <= length b)%nat -> (20 + options_length opts <= Z.to_nat (off * 4))%nat ->
  option_area off b = zeros (Z.to_nat (off * 4) - 20) ->
  exists c rest, set_options opts b = Some c /\ length c = length b /\ take 20 c = take 20 b
    /\ drop (Z.to_nat (off * 4)) c = drop (Z.to_nat (off * 4)) b
    /\ get_options_iter c = map option_view opts ++ rest /\ Forall (fun o => o.1 = 0) rest.
Proof.
  intros Hb off Hl Ho Ha. set (l := concat (map option_bytes opts)). set (n := Z.to_nat (off * 4)) in *.
  assert (length l = options_length opts) as Hll by apply options_bytes_length.
  assert (take 20 (put 20 l b) = take 20 b) as Ht.
  { unfold put. rewrite take_app_le by (rewrite length_take; lia). by rewrite take_take. }
  assert (length (put 20 l b) = length b) as Hlen by (apply put_length; lia).
  assert (get_bits Tcp_data_offset (put 20 l b) = off) as Hoff.
  { unfold off, get_bits. cbn [layout]. f_equal. f_equal. apply part_put_other; lia. }
  destruct (parse_encoded (length b) opts (n - 20 - length l)) as (rest & Hp & Hr); [lia|].
  exists (put 20 l b), rest. split_and!; try done.
  - unfold set_options, bit_fields. fold l. rewrite Hll. fold off n.
    destruct (Nat.leb_spec (20 + options_length opts) n); [done|lia].
  - unfold put. rewrite drop_app_ge by (rewrite length_take; lia). rewrite drop_app_ge by (rewrite length_take; lia).
    rewrite drop_drop, length_take. f_equal. lia.
  - unfold get_options_iter, bit_fields. rewrite Hoff, Hlen, <- Hp. f_equal. unfold option_area in *. fold n.
    unfold put. rewrite take_app_ge by (rewrite length_take; lia). rewrite drop_app_length' by (rewrite length_take; lia).
    rewrite length_take, take_app_ge by lia. f_equal. apply (f_equal (drop (length l))) in Ha.
    rewrite drop_drop, skipn_firstn_comm in Ha. unfold zeros in *. rewrite drop_replicate in Ha.
    rewrite <- Ha. f_equal. lia.
Qed.

#[global] Instance bit_fields_laws : PnetLaws.
Proof.
  split; try done.
  - apply set_bits_length.
  - intros f b Hb. by apply get_bits_range.
  - apply get_set_bits.
  - intros f g v b Hh Hf Hb. by apply get_set_other.
  - apply set_get_bits.
  - intros f n Hn. unfold get_field, bit_fields, get_bits. pose proof (layout_fits f). destruct (layout f) as [[o k] s].
    assert (be_decode (part o k (zeros n)) = 0) as ->.
    { unfold part, zeros. rewrite drop_replicate, take_replicate. generalize (k `min` (n - o))%nat. intros m.
      unfold be_decode. assert (Forall (fun b => b = x00) (rev (replicate m x00))) as Hz.
      { apply Forall_rev. by apply Forall_replicate. }
      induction Hz as [|b l -> _ IH]; [done|]. simpl. by rewrite IH. }
    unfold bits. by rewrite Z.div_0_l, Z.mod_0_l by lia.
  - intros f b c Hb. by apply (bits_app f 0).
  - intros f v b c Hb. by apply bits_app.
  - apply checksum_word.
  - apply set_options_law.
  - intros b c Hb Hc Hoff Ha. unfold get_options_iter, bit_fields. unfold get_field, bit_fields in Hoff, Ha.
    rewrite <- Hoff, Ha. apply parse_fuel.
    + rewrite <- Ha. unfold option_area. rewrite length_drop, length_take. lia.
    + unfold option_area. rewrite length_drop, length_take. lia.
Qed.
