(* ===== verification/PacketsProps.v ===== *)
(** * Theorems on packets and frames

    Forged packets give back what they were made from and carry valid checksums; where
    fields lose bits; what [send_packet] may send; frames as bytes.  [PacketExample]
    evaluates the functions on a world of its own. *)

From S2P Require Import Prelude RustStr Token Statement NaslValue Errors Register Executor FnArgs StringFns StringFnsProps Text Addr ContextFns Frames Packets PacketLaws.
Local Open Scope string_scope.

(** ** A world to evaluate the functions in *)
Module PacketExample.
#[global] Instance no_names : Net := {|
  parse_ipv6 := fun _ => None; lookup_addr := fun _ => None; resolve := fun s => inl [s]
|}.
#[global] Instance mac_text : MacText := {|
  mac_from_str := fun _ => None;
  mac_to_string := fun m => join_text ":" (map (fun b => encode_hex [b]) (Mac.octets m))
|}.

(** What was sent and printed, and the packets that will be captured *)
Record Sim := mkSim { sim_sent : list (list byte * IpAddr); sim_printed : list string; sim_answers : list (list byte) }.
Definition send (v : Sim) (p : list byte) (a : IpAddr) : Sim := mkSim (sim_sent v ++ [(p, a)])%list (sim_printed v) (sim_answers v).
Definition net (next : Sim -> (list byte + string) * Sim) : RawNet Sim := {|
  Capture := unit; UdpSocket := unit; RawSocket := unit;
  random_impl := fun v => (inl 77%Z, v);
  println := fun s v => mkSim (sim_sent v) (sim_printed v ++ [s])%list (sim_answers v);
  device_list := fun v => (Some [mkDevice "eth0" [V4 3232235522%Z]], v);
  interfaces := fun v => ([("eth0", Some (mkMac x02 x00 x00 x00 x00 x01))], v);
  udp_bind := fun _ v => (inl tt, v); udp_connect := fun _ _ v => (true, v);
  udp_local_addr := fun _ v => (Some (V4 3232235522%Z), v);
  capture_from_device := fun _ v => (inl tt, v); capture_open := fun _ _ v => (inl tt, v);
  capture_filter := fun _ _ v => (inl tt, v);
  next_packet := fun _ => next;
  sendpacket := fun _ p v => (inl tt, send v p (V6 "frame"));
  new_raw := fun v => (inl tt, v); set_header_included := fun _ v => (inl tt, v);
  set_broadcast := fun _ v => (inl tt, v);
  send_to := fun _ p a v => (inl (length p), send v p a)
|}.
(** Captures take the packets that will come; or none ever comes. *)
#[global] Instance sim_net : RawNet Sim := net (fun v =>
  match sim_answers v with
  | p :: l => (inl p, mkSim (sim_sent v) (sim_printed v) l)
  | [] => (inr "timeout expired", v)
  end).
Definition mute_net : RawNet Sim := net (fun v => (inr "timeout expired", v)).
Definition quiet : Sim := mkSim [] [] [].

(** A register with named arguments *)
Definition given (l : list (string * NaslValue.t)) : Register :=
  Register.create_root_child Register.new (list_to_map (map (fun x => (x.1, Value x.2)) l)).
Definition bytes (l : list Z) : list byte := map Z_byte l.
Definition num (x : Z) : NaslValue.t := NaslValue.Number x.
#[local] Existing Instance debug_build.

Definition ip_args (p : Z) (dst : string) : list (string * NaslValue.t) :=
  [("ip_v", num 4); ("ip_hl", num 5); ("ip_tos", num 0); ("ip_len", num 20); ("ip_id", num 1234); ("ip_p", num p);
   ("ip_ttl", num 255); ("ip_off", num 0); ("ip_src", NaslValue.String "192.168.0.1"); ("ip_dst", NaslValue.String dst)].
Definition ip_packet (p : Z) (dst : string) : NaslValue.t :=
  match fst (forge_ip_packet true "" (given (ip_args p dst)) quiet) with Ok v => v | _ => NaslValue.Null end.
Definition tcp_args : list (string * NaslValue.t) :=
  [("ip", ip_packet 6 "192.168.0.12"); ("th_sport", num 5080); ("th_dport", num 80); ("th_seq", num 1000);
   ("th_ack", num 0); ("th_x2", num 0); ("th_off", num 5); ("th_flags", num 33); ("th_win", num 0);
   ("th_sum", num 0); ("th_urp", num 0)].
Definition result (f : Register -> M Sim FnError NaslValue.t) (l : list (string * NaslValue.t)) : outcome FnError NaslValue.t :=
  fst (f (given l) quiet).

(** The packets of the tests of the repository *)
Example forged_packets :
  ip_packet 6 "192.168.0.12"
    = NaslValue.Data (bytes [69; 0; 0; 20; 210; 4; 0; 0; 255; 6; 104; 129; 192; 168; 0; 1; 192; 168; 0; 12]%Z)
  /\ result (forge_tcp_packet true) tcp_args
    = Ok (NaslValue.Data (bytes [69; 0; 0; 40; 210; 4; 0; 0; 255; 6; 104; 109; 192; 168; 0; 1; 192; 168; 0; 12;
        19; 216; 0; 80; 0; 0; 3; 232; 0; 0; 0; 0; 80; 33; 0; 0; 22; 86; 0; 0]%Z))
  /\ result (forge_udp_packet true) [("ip", ip_packet 17 "192.168.0.10"); ("uh_sport", num 5080); ("uh_dport", num 80);
       ("uh_len", num 8); ("th_sum", num 0); ("data", NaslValue.String "1234")]
    = Ok (NaslValue.Data (bytes [69; 0; 0; 32; 210; 4; 0; 0; 255; 17; 104; 108; 192; 168; 0; 1; 192; 168; 0; 10;
        19; 216; 0; 80; 0; 8; 5; 240; 49; 50; 51; 52]%Z))
  /\ result (forge_icmp_packet true) [("ip", ip_packet 1 "192.168.0.10"); ("icmp_type", num 8); ("icmp_code", num 0);
       ("icmp_seq", num 1); ("icmp_id", num 1); ("data", NaslValue.String "1234")]
    = Ok (NaslValue.Data (bytes [69; 0; 0; 32; 210; 4; 0; 0; 255; 1; 104; 124; 192; 168; 0; 1; 192; 168; 0; 10; 8;
        0; 145; 153; 1; 0; 1; 0; 49; 50; 51; 52]%Z))
  /\ result forge_igmp_packet [("ip", ip_packet 2 "192.168.0.10"); ("type", num 17); ("code", num 10);
       ("group", NaslValue.String "224.0.0.1")]
    = Ok (NaslValue.Data (bytes [69; 0; 0; 28; 210; 4; 0; 0; 255; 2; 104; 127; 192; 168; 0; 1; 192; 168; 0; 10;
        17; 10; 14; 244; 224; 0; 0; 1]%Z)).
Proof. vm_compute. split_and!; reflexivity. Qed.
End PacketExample.

(** ** Reading arguments *)
Section Theorems.
Context `{BuildProfile} `{Net} `{PnetLaws} {V : Type} `{RawNet V} (little_endian : bool) (target : string).
Abbreviation N := (M V FnError).

(** What a register answers for every name *)
Definition args_of (r : Register) (arg : string -> option ContextType) : Prop :=
  forall n, Register.named r n = Ok (arg n).
(** A number given for a field of [w] bits, or [d] *)
Definition number_of (arg : string -> option ContextType) (name : string) (w d : Z) : Z :=
  match arg name with Some (Value (NaslValue.Number x)) => (x mod 2 ^ w)%Z | _ => d end.
Definition data_of (arg : string -> option ContextType) : list byte :=
  match arg "data" with Some (Value v) => default [] (bytes_of v) | _ => [] end.

Section Args.
Context {r : Register} {arg : string -> option ContextType} (Hr : args_of r arg).

Lemma run_named n (v : V) : named r n v = (Ok (arg n), v).
Proof. unfold named, of_total. by rewrite Hr. Qed.

Lemma run_number n w d (v : V) : number_or r n w (mret d) v = (Ok (number_of arg n w d), v).
Proof.
  unfold number_or. rewrite (bind_ok _ _ _ _ _ (run_named n v)). unfold number_of.
  by destruct (arg n) as [[|[]]|].
Qed.

Lemma run_data (v : V) : data_arg r (mret []) v = (Ok (data_of arg), v).
Proof.
  unfold data_arg. rewrite (bind_ok _ _ _ _ _ (run_named "data" v)). unfold data_of.
  destruct (arg "data") as [[|x]|]; [done| |done]. by destruct (bytes_of x).
Qed.

Lemma run_packet n e b (v : V) : arg n = Some (Value (NaslValue.Data b)) -> packet_arg r n e v = (Ok b, v).
Proof. intros E. unfold packet_arg. rewrite (bind_ok _ _ _ _ _ (run_named n v)). by rewrite E. Qed.
End Args.

Lemma run_view h e b (v : V) : fits h b -> view h e b v = (Ok tt, v).
Proof. intros Hb. unfold view. by rewrite (proj2 (view_new h b) Hb). Qed.

Lemma run_address f msg x a b (v : V) : ipv4_from_str x = Some a -> set_address f msg x b v = (Ok (set_field f a b), v).
Proof. intros E. unfold set_address. by rewrite E. Qed.

Lemma number_of_twice arg n a b d : (0 <= b <= a)%Z -> (0 <= d < 2 ^ b)%Z ->
  (number_of arg n a d mod 2 ^ b = number_of arg n b d)%Z.
Proof.
  intros Hab Hd. unfold number_of. destruct (arg n) as [[|[]]|]; try by apply Z.mod_small.
  apply Z.mod_mod_divide. exists (2 ^ (a - b))%Z. rewrite <- Z.pow_add_r by lia. f_equal. lia.
Qed.

(** A payload put behind the header of a fresh buffer *)
Lemma run_fresh_payload h data b (v : V) : header_bytes h (fun f => get_field f b) = header_size h ->
  length b = (header_size h + length data)%nat -> drop (header_size h) b = zeros (length data) ->
  (length data <= payload_room h (fun f => get_field f b) (length b))%nat ->
  exists c, set_payload_ h data b v = (Ok c, v) /\ length c = length b /\ drop (header_size h) c = data
    /\ forall f, header_of f = h -> get_field f c = get_field f b.
Proof.
  intros Hs Hl Hz Hroom. assert (fits h b) as Hf by (unfold fits; lia). destruct data as [|d data].
  - exists b. split; [done|]. split; [done|]. split; [by rewrite Hz|done].
  - unfold set_payload_. rewrite law_set_payload, Hs by done. rewrite (proj2 (Nat.leb_le _ _) Hroom).
    rewrite (proj2 (Nat.leb_le (header_size h + length (d :: data)) _)) by lia. cbn [andb or_panic].
    eexists. split; [done|]. rewrite (drop_ge b) by lia. rewrite app_nil_r. split; [|split].
    + rewrite length_app, length_take. lia.
    + apply drop_app_length'. rewrite length_take. lia.
    + intros f <-. apply get_take; [lia|done].
Qed.

Ltac fits_tac := repeat (apply fits_set; [reflexivity|]); assumption.
(** Read a field through the fields set after it. *)
Ltac read_field := repeat first
  [ rewrite law_get_set by fits_tac
  | rewrite law_get_other by (first [reflexivity | discriminate | fits_tac]) ].

(** ** IP *)

(** The text of an address argument, and the address it stands for *)
Definition address_arg (arg : string -> option ContextType) (name : string) (d a : Ipv4Addr) : Prop :=
  match arg name with Some (Value (NaslValue.String s)) => ipv4_from_str s = Some a | _ => a = d end.

(** What a function answers when asked for an element of a packet *)
Definition reads (f : Register -> N NaslValue.t) (key : string) (b : list byte) (name : string) (x : NaslValue.t) : Prop :=
  forall r arg v, args_of r arg -> arg key = Some (Value (NaslValue.Data b)) ->
  arg "element" = Some (Value (NaslValue.String name)) -> f r v = (Ok x, v).

Lemma reads_ip b name x : fits Ipv4 b -> ip_element name b = Some x -> reads get_ip_element "ip" b name x.
Proof.
  intros Hb Hx r arg v Hr Hp He. unfold get_ip_element. rewrite (bind_ok _ _ _ _ _ (run_packet Hr _ _ b v Hp)).
  rewrite (bind_ok _ _ _ _ _ (run_view _ _ _ _ Hb)), (bind_ok _ _ _ _ _ (run_named Hr "element" v)), He. by rewrite Hx.
Qed.

(** The fields of a forged packet *)
Definition forged_from (arg : string -> option ContextType) (id src dst : Z) (b : list byte) : Prop :=
  let data := data_of arg in
  length b = (20 + length data)%nat /\ drop 20 b = data
  /\ (forall name w d, (name, w, d) ∈ [("ip_v", 4, 4); ("ip_hl", 4, 5); ("ip_tos", 6, 0); ("ip_ttl", 8, 0);
        ("ip_off", 13, 0); ("ip_p", 8, 0)]%Z -> reads get_ip_element "ip" b name (NaslValue.Number (number_of arg name w d)))
  /\ reads get_ip_element "ip" b "ip_len" (NaslValue.Number (20 + zlen data))
  /\ reads get_ip_element "ip" b "ip_id" (NaslValue.Number (to_be little_endian 2 id))
  /\ reads get_ip_element "ip" b "ip_src" (NaslValue.String (ipv4_to_string src))
  /\ reads get_ip_element "ip" b "ip_dst" (NaslValue.String (ipv4_to_string dst)).

Lemma run_number_be r arg n d (v : V) : args_of r arg ->
  exists x, number_be_or little_endian r n (mret d) v = (Ok x, v)
    /\ (arg n = None -> x = d).
Proof.
  intros Hr. unfold number_be_or. rewrite (bind_ok _ _ _ _ _ (run_named Hr n v)).
  destruct (arg n) as [[|[]]|]; eexists; (split; [reflexivity|done]).
Qed.

Lemma forge_ip_chain r arg (v v' : V) host id src dst :
  args_of r arg -> get_host_ip target = Ok (V4 host) -> (0 <= host < 2 ^ 32)%Z ->
  (20 + zlen (data_of arg) < 2 ^ 16)%Z ->
  number_or r "ip_id" 16 (x ← random; mret (wrap_u 16 x)) v = (Ok id, v') ->
  address_arg arg "ip_src" 0%Z src -> address_arg arg "ip_dst" host dst ->
  exists c sum, length c = (20 + length (data_of arg))%nat /\ drop 20 c = data_of arg
    /\ get_field Ip_total_length c = (20 + zlen (data_of arg))%Z /\ get_field Ip_source c = 0%Z
    /\ let b := set_field Ip_destination dst
          ((match arg "ip_src" with Some (Value (NaslValue.String _)) => set_field Ip_source src | _ => fun b => b end)
          (set_field Ip_next_level_protocol (number_of arg "ip_p" 8 0)
          (set_field Ip_fragment_offset (number_of arg "ip_off" 16 0)
          (set_field Ip_identification (to_be little_endian 2 id)
          (set_field Ip_ttl (number_of arg "ip_ttl" 8 0)
          (set_field Ip_dscp (number_of arg "ip_tos" 8 0)
          (set_field Ip_version (number_of arg "ip_v" 8 4)
          (set_field Ip_header_length (number_of arg "ip_hl" 8 5) c)))))))) in
       forge_ip_packet little_endian target r v = (Ok (NaslValue.Data (set_field Ip_checksum sum b)), v')
       /\ (arg "ip_sum" = None -> sum = checksum b).
Proof.
  intros Hr Hh Hhost Hlen Hid Hsrc Hdst. set (data := data_of arg) in *.
  set (z := zeros (20 + length data)). assert (fits Ipv4 z) as Hz.
  { unfold fits, z, zeros. rewrite length_replicate. simpl. lia. }
  set (b0 := set_field Ip_total_length (wrap_u 16 (Z.of_nat (20 + length data))) z).
  assert (forall f, header_of f = Ipv4 -> f <> Ip_total_length -> get_field f b0 = 0%Z) as Hb0.
  { intros f Hf Hne. unfold b0. rewrite law_get_other by done. apply law_zeros. rewrite Hf. simpl. lia. }
  assert (get_field Ip_total_length b0 = (20 + zlen data)%Z) as Htot.
  { unfold b0. rewrite law_get_set by done. change (width Ip_total_length) with 16%Z. unfold wrap_u, zlen in *. rewrite Z.mod_mod by lia. rewrite Z.mod_small; lia. }
  destruct (run_fresh_payload Ipv4 data b0 v) as (c & Hc & Hcl & Hcd & Hcf).
  { unfold header_bytes. by rewrite (Hb0 Ip_header_length). }
  { unfold b0. rewrite law_length by done. unfold z, zeros. by rewrite length_replicate. }
  { unfold b0. rewrite drop_set by done. unfold z, zeros. rewrite drop_replicate. f_equal. simpl. lia. }
  { unfold payload_room. rewrite Htot, (Hb0 Ip_header_length) by done. unfold zlen. lia. }
  exists c. set (b := set_field Ip_destination dst _).
  destruct (run_number_be r arg "ip_sum" (checksum b) v' Hr) as (sum & Hsum & Hnone). exists sum.
  split; [rewrite Hcl; unfold b0; rewrite law_length by done; apply length_replicate|]. split; [done|].
  split; [by rewrite Hcf|]. split; [by rewrite Hcf, Hb0|]. cbn zeta. split; [|done].
  unfold forge_ip_packet, of_outcome. rewrite Hh. unfold mbind at 1, M_bind at 1. cbn [is_ipv6].
  rewrite (bind_ok _ _ _ _ _ (run_data Hr v)). fold data z. rewrite (bind_ok _ _ _ _ _ (run_view Ipv4 _ z v Hz)). fold b0.
  rewrite (bind_ok _ _ _ _ _ Hc). do 4 (rewrite (bind_ok _ _ _ _ _ (run_number Hr _ _ _ _))).
  rewrite (bind_ok _ _ _ _ _ Hid). do 2 (rewrite (bind_ok _ _ _ _ _ (run_number Hr _ _ _ _))).
  rewrite (bind_ok _ _ _ _ _ (run_named Hr "ip_src" _)). unfold address_arg in *. unfold b in *. clear b Hnone.
  assert (ipv4_from_str (ip_to_string (V4 host)) = Some host) as Hhs by (by apply ipv4_text_spec).
  destruct (arg "ip_src") as [[|[]]|];
    try rewrite (bind_ok _ _ _ _ _ (run_address _ _ _ _ _ _ Hsrc)); rewrite ?(bind_ok (mret _) _ _ _ _ eq_refl);
    rewrite (bind_ok _ _ _ _ _ (run_named Hr "ip_dst" _));
    (destruct (arg "ip_dst") as [[|[]]|];
      first [rewrite (bind_ok _ _ _ _ _ (run_address _ _ _ _ _ _ Hdst))
            |subst dst; rewrite (bind_ok _ _ _ _ _ (run_address _ _ _ _ _ _ Hhs))];
      rewrite (bind_ok _ _ _ _ _ Hsum); reflexivity).
Qed.

(** The words of the header with its checksum add up to zero in ones' complement. *)
Definition valid_header (b : list byte) : Prop :=
  ones_sum (sum (words (ip_header (get_field Ip_header_length b) b))) = 65535%Z.

Lemma checksum_valid b : fits Ipv4 b -> valid_header (set_field Ip_checksum (checksum b) b).
Proof.
  intros Hb. unfold valid_header. rewrite law_get_other, law_checksum by done.
  unfold ip_header. set (n := if (_ <? _)%Z then _ else _).
  assert (20 <= n)%nat as Hn.
  { unfold n. destruct (Z.ltb_spec (get_field Ip_header_length b * 4) 20); lia. }
  rewrite take_set by done. rewrite (law_checksum_word _ _ _ 5); [|set_solver|by apply fits_take].
  apply (checksum_verifies 5 []); [done|apply words_range|]. rewrite words_length, length_take.
  unfold fits in Hb. simpl in Hb. apply (Nat.lt_le_trans _ ((20 + 1) / 2)); [simpl; lia|]. apply Nat.Div0.div_le_mono. lia.
Qed.

Lemma address_arg_range arg s a d : address_arg arg s d a -> (0 <= d < 2 ^ 32)%Z -> (a mod 2 ^ 32 = a)%Z.
Proof.
  intros Ha Hd. apply Z.mod_small. unfold address_arg in Ha.
  destruct (arg s) as [[|[]]|]; try by subst. by apply ipv4_text_spec in Ha as [_ ?].
Qed.

(** The step that sets the source, if one is given *)
Lemma source_set arg src b : address_arg arg "ip_src" 0%Z src -> fits Ipv4 b -> get_field Ip_source b = 0%Z ->
  exists c, (match arg "ip_src" with Some (Value (NaslValue.String _)) => set_field Ip_source src | _ => fun b => b end) b = c
    /\ length c = length b /\ drop 20 c = drop 20 b /\ get_field Ip_source c = src
    /\ forall f, header_of f = Ipv4 -> f <> Ip_source -> get_field f c = get_field f b.
Proof.
  intros Hs Hb Hz. pose proof (address_arg_range _ _ _ _ Hs ltac:(lia)) as Hm. eexists. split; [reflexivity|].
  unfold address_arg in Hs. destruct (arg "ip_src") as [[|[]]|]; try (by subst).
  rewrite law_length, drop_set, law_get_set by done. split_and!; try done. intros f Hf Hne. by rewrite law_get_other.
Qed.

(** All fields of a forged packet, the ones that differ from the documentation included. *)
Lemma forged_ip_fields (r : Register) (arg : string -> option ContextType) (v v' : V) (host id src dst : Z) :
  args_of r arg -> get_host_ip target = Ok (V4 host) -> (0 <= host < 2 ^ 32)%Z ->
  (20 + zlen (data_of arg) < 2 ^ 16)%Z ->
  number_or r "ip_id" 16 (x ← random; mret (wrap_u 16 x)) v = (Ok id, v') ->
  address_arg arg "ip_src" 0%Z src -> address_arg arg "ip_dst" host dst ->
  exists b, forge_ip_packet little_endian target r v = (Ok (NaslValue.Data b), v')
    /\ forged_from arg id src dst b /\ (arg "ip_sum" = None -> valid_header b).
Proof.
  intros Hr Hh Hhost Hlen Hid Hsrc Hdst.
  destruct (forge_ip_chain r arg v v' host id src dst) as (c & sum & Hcl & Hcd & Hct & Hcs & Hf & Hsum); try done.
  assert (fits Ipv4 c) as Hc by (unfold fits; simpl; lia).
  set (chain := set_field Ip_next_level_protocol _ _) in *. assert (fits Ipv4 chain) as Hch by (unfold chain; fits_tac).
  destruct (source_set arg src chain) as (c2 & E2 & Hl2 & Hd2 & Hs2 & Hg2); [done|done|unfold chain; by read_field|].
  rewrite E2 in *. assert (fits Ipv4 c2) as Hc2 by (unfold fits in *; lia).
  eexists. split; [exact Hf|]. split; [|intros E; rewrite (Hsum E); apply checksum_valid; fits_tac].
  split; [rewrite !law_length, Hl2 by fits_tac; unfold chain; rewrite !law_length by fits_tac; done|].
  split; [rewrite !drop_set, Hd2 by (first [done|fits_tac]); unfold chain; rewrite !drop_set by (first [done|fits_tac]); done|].
  assert (forall name x, ip_element name (set_field Ip_checksum sum (set_field Ip_destination dst c2)) = Some x ->
    reads get_ip_element "ip" (set_field Ip_checksum sum (set_field Ip_destination dst c2)) name x) as Hread.
  { intros name x. apply reads_ip. fits_tac. }
  split_and!; try apply Hread.
  - intros name w d Hin. apply Hread. set_unfold in Hin. destruct_or!; simplify_eq; unfold ip_element; simpl; read_field; rewrite Hg2 by done;
      unfold chain; read_field; do 2 f_equal; by apply number_of_twice.
  - unfold ip_element; simpl. read_field. rewrite Hg2 by done. unfold chain. read_field. by rewrite Hct.
  - unfold ip_element; simpl. read_field. rewrite Hg2 by done. unfold chain. read_field. do 2 f_equal.
    apply Z.mod_small, (to_be_range _ 2).
  - unfold ip_element; simpl. read_field. by rewrite Hs2.
  - unfold ip_element; simpl. read_field. do 3 f_equal. by apply (address_arg_range _ _ _ _ Hdst).
Qed.

(** What is read of a forged packet: the data behind a header of 20 bytes; version, header
    length, type of service, fragment offset and protocol as given, cut to the width of the
    field, or their default; a given time to live; the length of all unless one is given; the
    addresses. *)
Definition read_as_forged (arg : string -> option ContextType) (src dst : Z) (b : list byte) : Prop :=
  let data := data_of arg in
  length b = (20 + length data)%nat /\ drop 20 b = data
  /\ (forall name w d, (name, w, d) ∈ [("ip_v", 4, 4); ("ip_hl", 4, 5); ("ip_tos", 6, 0);
        ("ip_off", 13, 0); ("ip_p", 8, 0)]%Z -> reads get_ip_element "ip" b name (NaslValue.Number (number_of arg name w d)))
  /\ (forall x, arg "ip_ttl" = Some (Value (NaslValue.Number x)) ->
        reads get_ip_element "ip" b "ip_ttl" (NaslValue.Number (x mod 2 ^ 8)))
  /\ (arg "ip_len" = None -> reads get_ip_element "ip" b "ip_len" (NaslValue.Number (20 + zlen data)))
  /\ reads get_ip_element "ip" b "ip_src" (NaslValue.String (ipv4_to_string src))
  /\ reads get_ip_element "ip" b "ip_dst" (NaslValue.String (ipv4_to_string dst)).

(** C26: For an IPv4 target, addresses that are addresses and data that fit a packet,
    [forge_ip_packet] returns a packet, and [get_ip_element] reads of it what it was forged
    from: version, header length, type of service, fragment offset and protocol cut to 4, 4, 6,
    13 and 8 bits, with the documented defaults 4, 5, 0, 0 and 0; a given time to live cut to 8
    bits; the length of header and data if no length is given; source and destination, which
    is the target by default. The data follow the header, and unless a checksum is given the
    header carries the one of RFC 1071. *)
Theorem forged_ip_read_back (r : Register) (arg : string -> option ContextType) (v v' : V) (host id src dst : Z) :
  args_of r arg -> get_host_ip target = Ok (V4 host) -> (0 <= host < 2 ^ 32)%Z ->
  (20 + zlen (data_of arg) < 2 ^ 16)%Z ->
  number_or r "ip_id" 16 (x ← random; mret (wrap_u 16 x)) v = (Ok id, v') ->
  address_arg arg "ip_src" 0%Z src -> address_arg arg "ip_dst" host dst ->
  exists b, forge_ip_packet little_endian target r v = (Ok (NaslValue.Data b), v')
    /\ read_as_forged arg src dst b /\ (arg "ip_sum" = None -> valid_header b).
Proof.
  intros Hr Hh Hhost Hlen Hid Hsrc Hdst.
  destruct (forged_ip_fields r arg v v' host id src dst) as (b & Hb & (Hlb & Hdb & Hf & Hl & _ & Hs & Hd) & Hv); try done.
  exists b. split; [done|]. split; [|done]. unfold read_as_forged. cbv zeta. split_and!; try done.
  - intros name w d Hin. apply Hf. set_solver.
  - intros x Hx. specialize (Hf "ip_ttl" 8%Z 0%Z ltac:(set_solver)). unfold number_of in Hf. by rewrite Hx in Hf.
Qed.

(** Where a forged packet is not what the documentation says: without [ip_ttl] the time to live
    is 0, a length that is given is not looked at, and the identification has its bytes
    swapped on a machine that stores the low byte first. *)
Theorem forged_ip_differs (r : Register) (arg : string -> option ContextType) (v v' : V) (host id src dst : Z) :
  args_of r arg -> get_host_ip target = Ok (V4 host) -> (0 <= host < 2 ^ 32)%Z ->
  (20 + zlen (data_of arg) < 2 ^ 16)%Z ->
  number_or r "ip_id" 16 (x ← random; mret (wrap_u 16 x)) v = (Ok id, v') ->
  address_arg arg "ip_src" 0%Z src -> address_arg arg "ip_dst" host dst ->
  exists b, forge_ip_packet little_endian target r v = (Ok (NaslValue.Data b), v')
    /\ (arg "ip_ttl" = None -> reads get_ip_element "ip" b "ip_ttl" (NaslValue.Number 0))
    /\ reads get_ip_element "ip" b "ip_len" (NaslValue.Number (20 + zlen (data_of arg)))
    /\ reads get_ip_element "ip" b "ip_id" (NaslValue.Number (to_be little_endian 2 id)).
Proof.
  intros Hr Hh Hhost Hlen Hid Hsrc Hdst.
  destruct (forged_ip_fields r arg v v' host id src dst) as (b & Hb & (_ & _ & Hf & Hl & Hi & _) & _); try done.
  exists b. split_and!; try done. intros Hn.
  specialize (Hf "ip_ttl" 8%Z 0%Z ltac:(set_solver)). unfold number_of in Hf. by rewrite Hn in Hf.
Qed.

(** ** Checksums of all packets *)
Definition yields {A} (P : A -> Prop) (m : N A) : Prop := forall v, match (m v).1 with Ok a => P a | _ => True end.

Lemma yields_bind {A B} (Q : A -> Prop) (P : B -> Prop) (m : N A) (f : A -> N B) :
  yields Q m -> (forall a, Q a -> yields P (f a)) -> yields P (m ≫= f).
Proof.
  intros Hm Hf v. unfold mbind, M_bind. specialize (Hm v). destruct (m v) as [[a| | |] v']; try done. by apply Hf.
Qed.

Lemma yields_any {A B} (P : B -> Prop) (m : N A) (f : A -> N B) : (forall a, yields P (f a)) -> yields P (m ≫= f).
Proof. intros Hf. apply (yields_bind (fun _ => True)); [|auto]. intros v. by destruct (m v).1. Qed.

Lemma yields_view h e b : yields (fun _ => fits h b) (view h e b).
Proof. intros v. unfold view. destruct (packet_new h b) eqn:E; [|done]. by apply view_new. Qed.

Lemma yields_elim {A} (P : A -> Prop) (m : N A) v a v' : yields P m -> m v = (Ok a, v') -> P a.
Proof. intros Hm E. specialize (Hm v). by rewrite E in Hm. Qed.

Definition valid_packet (x : NaslValue.t) : Prop := exists b, x = NaslValue.Data b /\ valid_header b.

Lemma yields_valid b : fits Ipv4 b -> yields valid_packet (mret (NaslValue.Data (set_field Ip_checksum (checksum b) b))).
Proof. intros Hb v. eexists. split; [done|]. by apply checksum_valid. Qed.

Lemma set_payload_fits h d b c : fits h b -> set_payload h d b = Some c -> fits h c.
Proof.
  intros Hb. rewrite law_set_payload by done. destruct (_ && _) eqn:E; [|done]. intros [= <-].
  apply andb_true_iff in E as [_ E%Nat.leb_le]. unfold fits in *. rewrite !length_app, length_take, length_drop. lia.
Qed.

Lemma yields_payload h d b : fits h b -> yields (fits h) (or_panic (set_payload h d b)).
Proof.
  intros Hb v. destruct (set_payload h d b) as [c|] eqn:E; [|done]. by apply (set_payload_fits h d b c).
Qed.

Lemma append_segment_valid r e ip_buf buf : yields valid_packet (append_segment r e ip_buf buf).
Proof.
  unfold append_segment. eapply yields_bind; [apply yields_view|]. intros [] Hb. apply yields_any. intros u.
  apply yields_valid. repeat case_match; fits_tac.
Qed.

Lemma replace_segment_valid r buf n segment : yields valid_packet (replace_segment r buf n segment).
Proof.
  unfold replace_segment. apply yields_any. intros header. eapply yields_bind; [apply yields_view|]. intros [] Hb.
  eapply yields_bind; [apply yields_payload; fits_tac|]. intros b Hb'. apply yields_any. intros u.
  apply yields_valid. repeat case_match; fits_tac.
Qed.

(** C27: Every packet that a function forges or changes by replacing its segment has a header
    with the right checksum, whatever arguments and buffers the script gives. *)
Theorem forged_headers_valid (f : Register -> N NaslValue.t) (r : Register) (v v' : V) (x : NaslValue.t) :
  f ∈ [forge_tcp_packet little_endian; forge_udp_packet little_endian; forge_icmp_packet little_endian;
       forge_igmp_packet; set_tcp_elements little_endian; insert_tcp_options little_endian;
       set_udp_elements little_endian] ->
  f r v = (Ok x, v') -> valid_packet x.
Proof.
  intros Hf Hx. eapply yields_elim; [|exact Hx]. clear Hx.
  set_unfold in Hf. destruct_or!; subst f.
  1-4: repeat (first [apply append_segment_valid | apply yields_any; intros ?]).
  - repeat (first [apply replace_segment_valid | apply yields_any; intros ?]).
  - do 3 (apply yields_any; intros ?). apply yields_any. intros [|y l]; [by intros ?|]. apply yields_any. intros o.
    destruct (pad_options _ _) as [opts n]. destruct (negb _); [by intros ?|].
    repeat (first [apply replace_segment_valid | apply yields_any; intros ?]).
  - do 9 (apply yields_any; intros ?).
    eapply yields_bind; [apply yields_view|]. intros [] Hb.
    eapply yields_bind; [apply yields_payload; fits_tac|]. intros b Hb'. by apply yields_valid.
Qed.

(** ** Segments behind a plain header *)

(** A packet without options and data, to which a segment is added *)
Definition plain_ip (arg : string -> option ContextType) (ip : list byte) : Prop :=
  arg "ip" = Some (Value (NaslValue.Data ip)) /\ length ip = 20%nat /\ get_field Ip_header_length ip = 5%Z
  /\ arg "update_ip_len" <> Some (Value (NaslValue.Boolean false)).

Lemma run_append_segment r arg e ip seg (v : V) : args_of r arg -> plain_ip arg ip -> (20 + zlen seg < 2 ^ 16)%Z ->
  exists b, append_segment r e ip seg v = (Ok (NaslValue.Data b), v) /\ fits Ipv4 b /\ payload Ipv4 b = seg
    /\ forall f, header_of f = Ipv4 -> f <> Ip_total_length -> f <> Ip_checksum -> get_field f b = get_field f ip.
Proof.
  intros Hr (_ & Hip & Hhl & Hu) Hlen. assert (fits Ipv4 ip) as Hf by (unfold fits; simpl; lia).
  assert (fits Ipv4 (ip ++ seg)) as Hfa by (unfold fits in *; rewrite length_app; simpl in *; lia).
  unfold append_segment. rewrite (bind_ok _ _ _ _ _ (run_view _ _ _ _ Hfa)), (bind_ok _ _ _ _ _ (run_named Hr "update_ip_len" v)).
  set (b := set_field Ip_total_length _ (ip ++ seg)). assert (fits Ipv4 b) as Hb by (by apply fits_set).
  eexists. split; [repeat case_match; by simplify_eq|]. split; [fits_tac|]. split.
  - rewrite law_payload by fits_tac. unfold header_bytes, payload_room. read_field.
    unfold b. read_field. rewrite law_get_app, Hhl by done. rewrite !drop_set by (first [done|simpl; lia]).
    rewrite drop_app_length' by (simpl; lia). apply take_ge. change (width Ip_total_length) with 16%Z.
    unfold wrap_u, zlen in *. rewrite length_app, Hip, Z.mod_mod, Z.mod_small by lia. lia.
  - intros f Hh Hn1 Hn2. rewrite law_get_other by (first [by simpl; congruence|fits_tac]). unfold b.
    rewrite law_get_other by (first [by simpl; congruence|fits_tac]). by apply law_get_app; rewrite Hh.
Qed.

Lemma run_checksum_or r arg n m (v v' : V) x : args_of r arg -> m v = (Ok x, v') ->
  exists y v'', checksum_or little_endian r n m v = (Ok y, v'') /\ (arg n = None \/ arg n = Some (Value (NaslValue.Number 0)) -> y = x /\ v'' = v')
    /\ (v'' = v \/ v'' = v').
Proof.
  intros Hr Hm. unfold checksum_or. rewrite (bind_ok _ _ _ _ _ (run_named Hr n v)).
  destruct (arg n) as [[|[]]|]; try (do 2 eexists; split; [exact Hm|]; by auto).
  destruct (Z.eqb_spec n0 0) as [->|Hn]; [do 2 eexists; split; [exact Hm|]; by auto|].
  do 2 eexists. split; [reflexivity|]. split; [|by left]. intros [|[= ->]]; done.
Qed.

(** The words of a segment and of its pseudo header add up to zero. *)
Definition valid_segment (protocol src dst : Z) (seg : list byte) : Prop :=
  ones_sum (sum (pseudo src dst protocol (zlen seg) ++ words seg)) = 65535%Z.

Lemma pseudo_range src dst protocol len : (0 <= src < 2 ^ 32 -> 0 <= dst < 2 ^ 32 -> 0 <= protocol < 2 ^ 16 ->
  0 <= len < 2 ^ 16 -> Forall (fun w => 0 <= w < 65536) (pseudo src dst protocol len))%Z.
Proof.
  intros Hs Hd Hp Hl. unfold pseudo. repeat constructor; try lia; try (apply Z.mod_pos_bound; lia); try (apply Z.div_pos; lia);
    apply Z.div_lt_upper_bound; lia.
Qed.

Lemma segment_valid f i seg protocol src dst :
  (f, i) ∈ [(Tcp_checksum, 8); (Udp_checksum, 3)]%nat -> fits (header_of f) seg -> (zlen seg < 2 ^ 16)%Z ->
  (0 <= src < 2 ^ 32)%Z -> (0 <= dst < 2 ^ 32)%Z -> (0 <= protocol < 2 ^ 16)%Z ->
  valid_segment protocol src dst
    (set_field f (inet_checksum (pseudo src dst protocol (zlen seg) ++ without i (words seg))) seg).
Proof.
  intros Hi Hf Hl Hs Hd Hp. unfold valid_segment. unfold zlen at 1. rewrite law_length by done. fold (zlen seg).
  rewrite (law_checksum_word f _ _ i) by (try done; set_solver). apply checksum_verifies.
  - apply pseudo_range; try done. unfold zlen in *. lia.
  - apply words_range.
  - rewrite words_length. unfold fits in Hf. apply (Nat.lt_le_trans _ ((header_size (header_of f) + 1) / 2)).
    + set_unfold in Hi. destruct_or!; simplify_eq; simpl; lia.
    + apply Nat.Div0.div_le_mono. lia.
Qed.

Lemma fresh_segment h data (v : V) : h ∈ [Tcp; Udp; Igmp] ->
  exists c, set_payload_ h data (zeros (header_size h + length data)) v = (Ok c, v)
    /\ length c = (header_size h + length data)%nat /\ drop (header_size h) c = data.
Proof.
  intros Hh. set (z := zeros _). assert (length z = (header_size h + length data)%nat) as Hl by apply length_replicate.
  destruct (run_fresh_payload h data z v) as (c & Hc & Hcl & Hcd & _).
  - unfold header_bytes. set_unfold in Hh. destruct_or!; subst h; try done. unfold z. rewrite law_zeros by (simpl; lia). done.
  - done.
  - unfold z, zeros. rewrite drop_replicate. f_equal. lia.
  - set_unfold in Hh. unfold payload_room. destruct_or!; subst h; lia.
  - exists c. rewrite Hcl. done.
Qed.

Lemma fits_zeros h n : fits h (zeros (header_size h + n)).
Proof. unfold fits, zeros. rewrite length_replicate. lia. Qed.

Lemma number_or_range r n w (v v' : V) x : (0 <= w)%Z ->
  number_or r n w (y ← random; mret (wrap_u w y)) v = (Ok x, v') -> (0 <= x < 2 ^ w)%Z.
Proof.
  intros Hw. apply (yields_elim (fun x => 0 <= x < 2 ^ w)%Z). unfold number_or. apply yields_any. intros o.
  repeat case_match; try (intros ?; apply Z.mod_pos_bound; lia); apply yields_any; intros y ?; apply Z.mod_pos_bound; lia.
Qed.

Lemma reads_tcp b name x : fits Ipv4 b -> fits Tcp (payload Ipv4 b) -> tcp_element name (payload Ipv4 b) = Some x ->
  reads get_tcp_element "tcp" b name x.
Proof.
  intros Hb Ht Hx r arg v Hr Hp He. unfold get_tcp_element. rewrite (bind_ok _ _ _ _ _ (run_packet Hr _ _ b v Hp)).
  rewrite (bind_ok _ _ _ _ _ (run_view _ _ _ _ Hb)), (bind_ok _ _ _ _ _ (run_view _ _ _ _ Ht)).
  rewrite (bind_ok _ _ _ _ _ (run_named Hr "element" v)), He. by rewrite Hx.
Qed.

Definition computed (arg : string -> option ContextType) (n : string) : Prop :=
  arg n = None \/ arg n = Some (Value (NaslValue.Number 0)).

(** A TCP segment that is put behind a plain header is read back field by field, reduced
    to the widths of the fields, and its data too; unless a checksum other than zero was given
    the segment carries the one that also covers addresses, protocol and length. *)
Theorem forged_tcp_read_back (r : Register) (arg : string -> option ContextType) (ip : list byte) (v v' : V) (seq : Z) :
  args_of r arg -> plain_ip arg ip -> (40 + zlen (data_of arg) < 2 ^ 16)%Z ->
  number_or r "th_seq" 32 (x ← random; mret (wrap_u 32 x)) v = (Ok seq, v') ->
  exists b, forge_tcp_packet little_endian r v = (Ok (NaslValue.Data b), v')
    /\ (forall name w d, (name, w, d) ∈ [("th_sport", 16, 0); ("th_dport", 16, 0); ("th_ack", 32, 0); ("th_x2", 3, 0);
          ("th_off", 4, 5); ("th_flags", 9, 0); ("th_win", 16, 0); ("th_urp", 16, 0)]%Z ->
        reads get_tcp_element "tcp" b name (NaslValue.Number (number_of arg name w d)))
    /\ reads get_tcp_element "tcp" b "th_seq" (NaslValue.Number seq)
    /\ (arg "th_off" = None -> reads get_tcp_element "tcp" b "th_data" (NaslValue.Data (data_of arg)))
    /\ (computed arg "th_sum" ->
        valid_segment 6 (get_field Ip_source ip) (get_field Ip_destination ip) (payload Ipv4 b)).
Proof.
  intros Hr Hip Hlen Hseq. pose proof (number_or_range _ _ 32 _ _ _ ltac:(lia) Hseq) as Hrange.
  pose proof Hip as (Hp & Hipl & _). assert (fits Ipv4 ip) as Hfi by (unfold fits; simpl; lia).
  destruct (fresh_segment Tcp (data_of arg) v) as (c & Hc & Hcl & Hcd); [set_solver|].
  assert (fits Tcp c) as Hfc by (unfold fits; rewrite Hcl; simpl; lia).
  set (seg := set_field Tcp_urgent_ptr (number_of arg "th_urp" 16 0) (set_field Tcp_window (number_of arg "th_win" 16 0)
    (set_field Tcp_flags (number_of arg "th_flags" 16 0) (set_field Tcp_data_offset (number_of arg "th_off" 8 5)
    (set_field Tcp_reserved (number_of arg "th_x2" 8 0) (set_field Tcp_acknowledgement (number_of arg "th_ack" 32 0)
    (set_field Tcp_sequence seq (set_field Tcp_destination (number_of arg "th_dport" 16 0)
    (set_field Tcp_source (number_of arg "th_sport" 16 0) c))))))))).
  assert (fits Tcp seg) as Hfs by (unfold seg; fits_tac).
  assert (zlen seg = (20 + zlen (data_of arg))%Z) as Hsl.
  { unfold seg, zlen. rewrite !law_length by fits_tac. rewrite Hcl. simpl header_size. lia. }
  destruct (run_checksum_or r arg "th_sum" (view Ipv4 no_packet ip ;; view Tcp no_packet seg ;;
    mret (tcp_ipv4_checksum seg (get_field Ip_source ip) (get_field Ip_destination ip))) v' v'
    (tcp_ipv4_checksum seg (get_field Ip_source ip) (get_field Ip_destination ip)) Hr) as (sum & v'' & Hsum & Hcomp & Hv).
  { rewrite (bind_ok _ _ _ _ _ (run_view _ _ _ _ Hfi)). by rewrite (bind_ok _ _ _ _ _ (run_view _ _ _ _ Hfs)). }
  assert (v'' = v') as -> by (by destruct Hv).
  destruct (run_append_segment r arg no_packet ip (set_field Tcp_checksum sum seg) v' Hr Hip) as (b & Hb & Hfb & Hpay & _).
  { unfold zlen in *. rewrite law_length by done. lia. }
  assert (forall name x, tcp_element name (set_field Tcp_checksum sum seg) = Some x -> reads get_tcp_element "tcp" b name x) as Hread.
  { intros name x. rewrite <- Hpay. apply reads_tcp; [done|]. rewrite Hpay. fits_tac. }
  exists b. split_and!.
  - unfold forge_tcp_packet. rewrite (bind_ok _ _ _ _ _ (run_packet Hr _ _ ip v Hp)), (bind_ok _ _ _ _ _ (run_data Hr v)).
    rewrite (bind_ok _ _ _ _ _ (run_view Tcp _ _ v (fits_zeros Tcp _))).
    rewrite (bind_ok _ _ _ _ _ Hc). do 2 (rewrite (bind_ok _ _ _ _ _ (run_number Hr _ _ _ _))).
    rewrite (bind_ok _ _ _ _ _ Hseq). do 6 (rewrite (bind_ok _ _ _ _ _ (run_number Hr _ _ _ _))). fold seg.
    rewrite (bind_ok _ _ _ _ _ Hsum), (bind_ok _ _ _ _ _ (run_view _ _ _ _ Hfs)). exact Hb.
  - intros name w d Hin. apply Hread. set_unfold in Hin. destruct_or!; simplify_eq; unfold tcp_element; simpl; unfold seg; read_field;
      do 2 f_equal; by apply number_of_twice.
  - apply Hread. unfold tcp_element; simpl. unfold seg. read_field. do 2 f_equal. by apply Z.mod_small.
  - intros Hoff. apply Hread. unfold tcp_element; simpl. rewrite law_payload by fits_tac. unfold header_bytes, payload_room, seg.
    read_field. assert (number_of arg "th_off" 8 5 = 5%Z) as -> by (unfold number_of; by rewrite Hoff). change (20 `max` Z.to_nat (5 mod 2 ^ width Tcp_data_offset * 4))%nat with 20%nat.
    rewrite !drop_set by (first [done|fits_tac]). do 2 f_equal. change 20%nat with (header_size Tcp). rewrite Hcd.
    apply take_ge. rewrite !law_length by fits_tac. rewrite Hcl. lia.
  - intros Hn. rewrite Hpay, (proj1 (Hcomp Hn)), law_tcp_checksum by done.
    apply (segment_valid Tcp_checksum 8); try done; [set_solver|lia|apply (law_range Ip_source); done|apply (law_range Ip_destination); done].
Qed.

(** ** Changing nothing *)
Lemma run_number_none r arg n w x (v : V) : args_of r arg -> arg n = None -> number_or r n w (mret x) v = (Ok x, v).
Proof. intros Hr Hn. unfold number_or. rewrite (bind_ok _ _ _ _ _ (run_named Hr n v)). by rewrite Hn. Qed.

(** A call of [set_ip_elements] that names no element does not leave the packet alone: on a
    machine that stores the low byte first it swaps the bytes of the identification, and
    only a second call gives the packet back. *)
Theorem set_nothing_swaps_id (r : Register) (arg : string -> option ContextType) (b : list byte) (v : V) :
  args_of r arg -> arg "ip" = Some (Value (NaslValue.Data b)) -> (forall n, n <> "ip" -> arg n = None) -> fits Ipv4 b ->
  let swap b := set_field Ip_identification (to_be little_endian 2 (get_field Ip_identification b)) b in
  set_ip_elements little_endian r v = (Ok (NaslValue.Data (swap b)), v)
  /\ get_field Ip_identification (swap b) = to_be little_endian 2 (get_field Ip_identification b)
  /\ get_field Ip_identification (swap (swap b)) = get_field Ip_identification b.
Proof.
  intros Hr Hb Hn Hf swap.
  assert (forall b, fits Ipv4 b -> get_field Ip_identification (swap b) = to_be little_endian 2 (get_field Ip_identification b)) as Hs.
  { intros c Hc. unfold swap. rewrite law_get_set by done. apply Z.mod_small, (to_be_range _ 2). }
  split; [|split; [by apply Hs|]].
  - unfold set_ip_elements. rewrite (bind_ok _ _ _ _ _ (run_packet Hr _ _ b v Hb)), (bind_ok _ _ _ _ _ (run_view _ _ _ _ Hf)).
    do 5 (erewrite bind_ok; [|apply (run_number_none r arg); [exact Hr|by apply Hn]]; rewrite ?law_set_get by fits_tac).
    fold (swap b). assert (fits Ipv4 (swap b)) as Hfs by (by apply fits_set).
    do 2 (erewrite bind_ok; [|apply (run_number_none r arg); [exact Hr|by apply Hn]]; rewrite ?law_set_get by fits_tac).
    rewrite (bind_ok _ _ _ _ _ (run_named Hr "ip_src" v)), Hn by done. rewrite (bind_ok (mret _) _ _ _ _ eq_refl).
    destruct (run_number_be r arg "ip_sum" (get_field Ip_checksum (swap b)) v Hr) as (x & Hx & Hd).
    rewrite (bind_ok _ _ _ _ _ Hx), Hd by by apply Hn. by rewrite law_set_get.
  - rewrite Hs by (by apply fits_set). rewrite Hs by done. rewrite to_be_involutive. apply Z.mod_small, (law_range Ip_identification). done.
Qed.

(** ** What is sent *)
Definition keeps (Inv : V -> Prop) {A} (m : N A) : Prop := forall v, Inv v -> Inv (m v).2.

(** Every call of the world but those that send keeps [Inv]. *)
Record undisturbed (Inv : V -> Prop) : Prop := {
  ud_random : forall v, Inv v -> Inv (random_impl v).2;
  ud_devices : forall v, Inv v -> Inv (device_list v).2;
  ud_bind : forall s v, Inv v -> Inv (udp_bind s v).2;
  ud_connect : forall c s v, Inv v -> Inv (udp_connect c s v).2;
  ud_local : forall c v, Inv v -> Inv (udp_local_addr c v).2;
  ud_device : forall d v, Inv v -> Inv (capture_from_device d v).2;
  ud_open : forall d t v, Inv v -> Inv (capture_open d t v).2;
  ud_filter : forall c f v, Inv v -> Inv (capture_filter c f v).2;
  ud_next : forall c v, Inv v -> Inv (next_packet c v).2;
  ud_raw : forall v, Inv v -> Inv (new_raw v).2;
  ud_header : forall s v, Inv v -> Inv (set_header_included s v).2;
  ud_broadcast : forall s v, Inv v -> Inv (set_broadcast s v).2
}.

Section Preserved.
Context (Inv : V -> Prop).

Lemma keeps_bind {A B} (m : N A) (f : A -> N B) : keeps Inv m -> (forall a, keeps Inv (f a)) -> keeps Inv (m ≫= f).
Proof.
  intros Hm Hf v Hv. unfold mbind, M_bind. specialize (Hm v Hv). destruct (m v) as [[a| | |] v']; try done. by apply Hf.
Qed.
Lemma keeps_with {A B} (Q : A -> Prop) (m : N A) (f : A -> N B) :
  keeps Inv m -> yields Q m -> (forall a, Q a -> keeps Inv (f a)) -> keeps Inv (m ≫= f).
Proof.
  intros Hm HQ Hf v Hv. unfold mbind, M_bind. specialize (Hm v Hv). specialize (HQ v).
  destruct (m v) as [[a| | |] v']; try done. by apply Hf.
Qed.
Lemma keeps_ret {A} (a : A) : keeps Inv (mret a).
Proof. by intros v. Qed.
Lemma keeps_throw {A} e : keeps Inv (throw e : N A).
Proof. by intros v. Qed.
Lemma keeps_outcome {A} (o : outcome FnError A) : keeps Inv (of_outcome o).
Proof. by intros v. Qed.
Lemma keeps_option {A} (o : option A) e : keeps Inv (ok_or o e) /\ keeps Inv (or_panic o).
Proof. split; intros v Hv; by destruct o. Qed.
Lemma keeps_call {A} (f : V -> A * V) : (forall v, Inv v -> Inv (f v).2) -> keeps Inv (call f).
Proof. intros Hf v Hv. unfold call. specialize (Hf v Hv). by destruct (f v). Qed.
Lemma keeps_named r n : keeps Inv (named r n).
Proof. intros v Hv. unfold named, of_total. by destruct (Register.named r n) as [| [] | |]. Qed.
Lemma keeps_positional r : keeps Inv (positional r).
Proof. intros v Hv. unfold positional, of_total. by destruct (Register.positional r) as [| [] | |]. Qed.
Lemma keeps_view h e b : keeps Inv (view h e b).
Proof. intros v Hv. unfold view. by destruct (packet_new h b). Qed.
Lemma keeps_attempt {A} (m : N A) : keeps Inv m -> keeps Inv (attempt m).
Proof. intros Hm v Hv. unfold attempt. specialize (Hm v Hv). by destruct (m v) as [[] v']. Qed.
End Preserved.

(** Solve what does not send. *)
Ltac keep :=
  repeat first
    [ apply keeps_ret | apply keeps_throw | apply keeps_outcome | apply keeps_named
    | apply keeps_positional | apply keeps_view | apply (keeps_option _ _ (wrong_argument ""))
    | apply keeps_option | apply keeps_attempt
    | apply keeps_call; match goal with Hu : undisturbed _ |- _ => first
        [ apply (ud_random _ Hu) | apply (ud_devices _ Hu) | apply (ud_bind _ Hu) | apply (ud_connect _ Hu)
        | apply (ud_local _ Hu) | apply (ud_device _ Hu) | apply (ud_open _ Hu) | apply (ud_filter _ Hu)
        | apply (ud_next _ Hu) | apply (ud_raw _ Hu) | apply (ud_header _ Hu) | apply (ud_broadcast _ Hu) ] end
    | apply keeps_bind; [|intros ?] | case_match ].

Section Sending.
Context (Inv : V -> Prop) (Hud : undisturbed Inv).

Lemma keeps_raw_socket : keeps Inv raw_socket.
Proof. unfold raw_socket, new_raw_socket. keep. Qed.
Lemma keeps_source_ip a p : keeps Inv (get_source_ip a p).
Proof. unfold get_source_ip, bind_local_socket, fail. keep. Qed.
Lemma keeps_interface a : keeps Inv (get_interface_by_local_ip a).
Proof. unfold get_interface_by_local_ip, fail. keep. Qed.
Lemma keeps_capture n d t : keeps Inv (open_capture n d t).
Proof. unfold open_capture. keep. Qed.
Lemma keeps_next c f : keeps Inv (capture_next c f).
Proof. unfold capture_next. keep. Qed.
Lemma keeps_args r n e d : keeps Inv (bool_arg r n e d) /\ keeps Inv (filter_arg r) /\ keeps Inv (timeout_arg r).
Proof. unfold bool_arg, filter_arg, timeout_arg. split_and!; keep. Qed.

Lemma socket_address d : (0 <= d < 2 ^ 32)%Z -> socket_from_str (ipv4_to_string d ++ ":0") = Some (d, 0%Z).
Proof.
  intros Hd. unfold socket_from_str. assert (split_text ":" (ipv4_to_string d ++ ":0") = [ipv4_to_string d; "0"]) as ->.
  { transitivity (split_text ":" (join_text ":" [ipv4_to_string d; "0"])).
    - f_equal. unfold join_text. cbn [map joined]. rewrite <- (string_of_chars (_ ++ _)). by rewrite chars_app.
    - apply split_text_join; [done|]. constructor; [|constructor; [|constructor]].
      + unfold ipv4_to_string, join_text. rewrite chars_string_of. intros Hin.
        assert (Forall (fun x => ":"%char ∉ x) (map chars_of (map (fun b => pretty (byte_Z b)) (ipv4_octets d)))) as Hall.
        { rewrite !Forall_map. apply Forall_true. intros b. by apply pretty_Z_chars. }
        revert Hin. induction Hall as [|x l Hx Hall IH]; [by intros ?%elem_of_nil|]. destruct l as [|y l]; [done|].
        rewrite joined_cons by done. rewrite !elem_of_app. set_solver.
      + apply (bool_decide_unpack _). by vm_compute. }
  rewrite (proj2 (ipv4_text_spec _ d)) by done. done.
Qed.

(** The continuation of a view of a buffer starts with a buffer that is long enough. *)
Lemma keeps_viewed {A} h e b (m : N A) : (fits h b -> keeps Inv m) -> keeps Inv (view h e b ;; m).
Proof.
  intros Hm v Hv. unfold view. destruct (packet_new h b) eqn:E; [|done]. apply Hm; [|done]. by apply view_new.
Qed.

Lemma send_loop_keeps soc cap filter use allow (host : IpAddr) l :
  (forall p v, let d := get_field Ip_destination p in
     V4 d = host \/ allow = true /\ is_broadcast d = true -> Inv v -> Inv (send_to soc p (V4 d) v).2) ->
  keeps Inv (send_loop soc cap filter use allow host l).
Proof.
  revert allow. induction l as [|x l IH]; intros allow Hsend; simpl; [apply keeps_ret|].
  destruct x; try apply keeps_throw. apply keeps_viewed. intros Hf.
  set (dst := get_field Ip_destination d). assert (0 <= dst < 2 ^ 32)%Z as Hr by (apply (law_range Ip_destination); done).
  apply (keeps_with Inv (fun b => b = true -> allow = true /\ is_broadcast dst = true)).
  { destruct allow; keep. }
  { destruct allow; [|by intros v]. apply yields_any. intros [u|e]; by intros v. }
  intros b Hb. destruct (negb _ && _) eqn:Ec; [apply keeps_throw|]. rewrite socket_address by done.
  apply keeps_bind.
  - apply keeps_call. intros v Hv. apply Hsend; [|done]. fold dst.
    apply andb_false_iff in Ec as [Ec|Ec]; apply negb_false_iff in Ec; [left; by apply bool_decide_eq_true in Ec|right; auto].
  - intros [n|e]; [|apply keeps_throw]. destruct use; [apply keeps_bind; [apply keeps_next|intros ?; apply keeps_ret]|].
    apply IH. intros p v d' [Hd|[-> Hd]] Hv; apply Hsend; auto. right. split; [by apply Hb|done].
Qed.
End Sending.

(** C25: [send_packet] sends packets to the target of the scan only, and with [allow_broadcast]
    to the broadcast address: whatever a script gives it, a property of the world that is
    kept by all other calls and by sending such packets to where their header says is kept. *)
Theorem send_packet_only_to_target (Inv : V -> Prop) (r : Register) (arg : string -> option ContextType) (host : IpAddr) (v : V) :
  args_of r arg -> get_host_ip target = Ok host -> undisturbed Inv ->
  (forall soc p w, let d := get_field Ip_destination p in
     V4 d = host \/ arg "allow_broadcast" = Some (Value (NaslValue.Boolean true)) /\ is_broadcast d = true ->
     Inv w -> Inv (send_to soc p (V4 d) w).2) ->
  Inv v -> Inv (nasl_send_packet target r v).2.
Proof.
  intros Hr Hh Hud Hsend Hv. unfold nasl_send_packet. revert v Hv.
  change (keeps Inv (nasl_send_packet target r)). unfold nasl_send_packet.
  apply keeps_bind; [by apply keeps_args|]. intros use. apply keeps_bind; [by apply (keeps_args Inv r "" "" true)|].
  intros filter. apply keeps_bind; [by apply (keeps_args Inv r "" "" true)|]. intros timeout.
  apply (keeps_with Inv (fun b => b = true -> arg "allow_broadcast" = Some (Value (NaslValue.Boolean true)))).
  { by apply keeps_args. }
  { intros v. unfold bool_arg. rewrite (bind_ok _ _ _ _ _ (run_named Hr _ v)). repeat case_match; simplify_eq; try done; naive_solver. }
  intros allow Hallow. apply keeps_bind; [apply keeps_positional|]. intros [|x l]; [apply keeps_ret|].
  apply keeps_bind; [by apply keeps_raw_socket|]. intros soc. apply keeps_bind; [apply keeps_named|]. intros len.
  apply keeps_bind; [keep|]. intros _. rewrite Hh. apply (keeps_with Inv (fun a => a = host)); [apply keeps_outcome|by intros v|].
  intros ? ->. apply keeps_bind; [by apply keeps_source_ip|]. intros local. apply keeps_bind; [by apply keeps_interface|].
  intros iface. apply keeps_bind; [by apply keeps_capture|]. intros cap. apply send_loop_keeps; [done|].
  intros p w d [Hd|[Ha Hd]] Hw; apply Hsend; auto.
Qed.

(** ** A ping without an answer *)
Definition succeeds {A} (m : N A) (P : A -> Prop) : Prop := forall v, exists a v', m v = (Ok a, v') /\ P a.

Lemma succeeds_bind {A B} (m : N A) (f : A -> N B) P (Q : outcome FnError B -> Prop) :
  succeeds m P -> (forall a v, P a -> Q (f a v).1) -> forall v, Q ((m ≫= f) v).1.
Proof. intros Hm Hf v. destruct (Hm v) as (a & v' & E & Ha). rewrite (bind_ok _ _ _ _ _ E). by apply Hf. Qed.

Lemma succeeds_run {A B} (m : N A) (f : A -> N B) P o :
  succeeds m P -> (forall a v, P a -> (f a v).1 = o) -> forall v, ((m ≫= f) v).1 = o.
Proof. apply (succeeds_bind m f P (fun x => x = o)). Qed.

Lemma succeeds_then {A B} (m : N A) (f : A -> N B) P Q :
  succeeds m P -> (forall a, P a -> succeeds (f a) Q) -> succeeds (m ≫= f) Q.
Proof. intros Hm Hf v. destruct (Hm v) as (a & v' & E & Ha). rewrite (bind_ok _ _ _ _ _ E). by apply Hf. Qed.

Lemma succeeds_call {A} (f : V -> A * V) (P : A -> Prop) : (forall v, P (f v).1) -> succeeds (call f) P.
Proof. intros Hf v. unfold call. specialize (Hf v). destruct (f v) as [a v']. eauto. Qed.

Lemma succeeds_inl {A B} (f : V -> (A + B) * V) : (forall v, exists x, (f v).1 = inl x) -> succeeds (call f) (fun a => exists x, a = inl x).
Proof. apply (succeeds_call f (fun a => exists x, a = inl x)). Qed.
Lemma succeeds_inr {A B} (f : V -> (A + B) * V) : (forall v, exists x, (f v).1 = inr x) -> succeeds (call f) (fun a => exists x, a = inr x).
Proof. apply (succeeds_call f (fun a => exists x, a = inr x)). Qed.
Lemma succeeds_eq {A} (f : V -> A * V) a : (forall v, (f v).1 = a) -> succeeds (call f) (fun x => x = a).
Proof. apply (succeeds_call f (fun x => x = a)). Qed.

Lemma succeeds_ret {A} (a : A) (P : A -> Prop) : P a -> succeeds (mret a) P.
Proof. intros Ha v. do 2 eexists. by split. Qed.

(** No address is both a loopback address and the unspecified one. *)
Lemma islocalhost_false a (v : V) : islocalhost a v = (Ok false, v).
Proof.
  unfold islocalhost. destruct (negb (is_loopback a) || negb (is_unspecified a)) eqn:E; [done|]. exfalso.
  apply orb_false_iff in E as [E1%negb_false_iff E2%negb_false_iff]. destruct a as [a|s]; simpl in *.
  - apply Z.eqb_eq in E2. by subst a.
  - apply bool_decide_eq_true in E2. by subst s.
Qed.

(** All calls succeed, but no packet is captured. *)
Record silent (local : Ipv4Addr) : Prop := {
  si_random : forall v, exists x, (random_impl v).1 = inl x;
  si_raw : forall v, exists s, (new_raw v).1 = inl s;
  si_header : forall s v, (set_header_included s v).1 = inl tt;
  si_bind : forall s v, exists c, (udp_bind s v).1 = inl c;
  si_connect : forall c s v, (udp_connect c s v).1 = true;
  si_local : forall c v, (udp_local_addr c v).1 = Some (V4 local);
  si_devices : forall v, exists l, (device_list v).1 = Some l /\ Exists (fun d => V4 local ∈ dev_addresses d) l;
  si_device : forall d v, (capture_from_device d v).1 = inl tt;
  si_open : forall d t v, exists c, (capture_open d t v).1 = inl c;
  si_next : forall c v, exists e, (next_packet c v).1 = inr e;
  si_send : forall s p a v, exists n, (send_to s p a v).1 = inl n
}.

Section Silent.
Context (local : Ipv4Addr) (Hs : silent local) (Hl : (0 <= local < 2 ^ 32)%Z).

Lemma silent_random : succeeds random (fun _ => True).
Proof.
  unfold random. eapply succeeds_then; [apply succeeds_inl, (si_random _ Hs)|]. intros ? [x ->]. by apply succeeds_ret.
Qed.
Lemma silent_port : succeeds rnd_tcp_port (fun _ => True).
Proof. unfold rnd_tcp_port. eapply succeeds_then; [apply succeeds_inl, (si_random _ Hs)|]. intros ? _. by apply succeeds_ret. Qed.
Lemma silent_sports l : succeeds (choose_sports l) (fun l' => length l' = length l).
Proof.
  induction l as [|p l IH]; simpl; [by apply succeeds_ret|]. eapply (succeeds_then _ _ (fun _ => True)).
  - destruct (p =? 0)%Z; [apply silent_port|by apply succeeds_ret].
  - intros q _. eapply succeeds_then; [exact IH|]. intros l' Hl'. apply succeeds_ret. simpl. by rewrite Hl'.
Qed.
Lemma silent_raw : succeeds raw_socket (fun _ => True).
Proof.
  unfold raw_socket, new_raw_socket. eapply (succeeds_then _ _ (fun _ => True)).
  - eapply succeeds_then; [apply succeeds_inl, (si_raw _ Hs)|]. intros ? [s ->]. by apply succeeds_ret.
  - intros soc _. eapply succeeds_then; [apply succeeds_eq, (si_header _ Hs)|]. intros ? ->. by apply succeeds_ret.
Qed.
Lemma silent_source a p : succeeds (get_source_ip a p) (fun ip => ip = V4 local).
Proof.
  unfold get_source_ip, bind_local_socket. eapply (succeeds_then _ _ (fun _ => True)).
  - eapply succeeds_then; [apply succeeds_inl, (si_bind _ Hs)|]. intros ? [c ->]. by apply succeeds_ret.
  - intros c _. eapply succeeds_then; [apply succeeds_eq, (si_connect _ Hs)|]. intros ? ->.
    eapply succeeds_then; [apply succeeds_eq, (si_local _ Hs)|]. intros ? ->. simpl. unfold parse_ip, ip_from_str.
    rewrite (proj2 (ipv4_text_spec _ local)) by done. by apply succeeds_ret.
Qed.
Lemma silent_interface : succeeds (get_interface_by_local_ip (V4 local)) (fun _ => True).
Proof.
  unfold get_interface_by_local_ip. eapply succeeds_then; [apply (succeeds_call _ (fun o => exists l, o = Some l /\ Exists (fun d => V4 local ∈ dev_addresses d) l)), (si_devices _ Hs)|]. intros ? (l & -> & Hd).
  destruct (list_find _ l) as [[i d]|] eqn:E; [by apply succeeds_ret|]. exfalso. apply list_find_None in E.
  apply Exists_exists in Hd as (d & Hd & Ha). rewrite Forall_forall in E. apply (E d Hd). unfold compared_address.
  destruct (list_find (fun ip => ip = V4 local) (dev_addresses d)) as [[i x]|] eqn:Ei.
  - apply list_find_Some in Ei as (_ & -> & _). done.
  - apply list_find_None in Ei. rewrite Forall_forall in Ei. by destruct (Ei _ Ha).
Qed.
Lemma silent_capture n d t : succeeds (open_capture n d t) (fun _ => True).
Proof.
  unfold open_capture. eapply succeeds_then; [apply succeeds_eq, (si_device _ Hs)|]. intros ? ->.
  eapply succeeds_then; [apply succeeds_inl, (si_open _ Hs)|]. intros ? [c ->]. by apply succeeds_ret.
Qed.
Lemma silent_next c f : succeeds (capture_next c f) (fun p => p = None).
Proof.
  unfold capture_next. eapply (succeeds_then _ _ (fun _ => True)); [by apply succeeds_call|]. intros [u|e] _; [|by apply succeeds_ret].
  eapply succeeds_then; [apply succeeds_inr, (si_next _ Hs)|]. intros ? [e ->]. by apply succeeds_ret.
Qed.

(** The buffers of the loop *)
Definition ping_buffers (ip tcp : list byte) : Prop :=
  length ip = 40%nat /\ get_field Ip_total_length ip = 40%Z /\ get_field Ip_header_length ip = 5%Z /\ length tcp = 20%nat.

Lemma ping_payload ip tcp : ping_buffers ip tcp -> exists c, set_payload Ipv4 tcp ip = Some c /\ ping_buffers c tcp.
Proof.
  intros (Hi & Ht & Hh & Hl'). assert (fits Ipv4 ip) as Hf by (unfold fits; simpl; lia). eexists. split.
  - rewrite law_set_payload by done. unfold payload_room, header_bytes. rewrite Ht, Hh, Hl', Hi. done.
  - unfold ping_buffers. rewrite !(get_take 20) by (simpl; done || lia). rewrite !length_app, length_take, length_drop. split_and!; try done. lia.
Qed.

(** One packet of the loop *)
Lemma ping_step soc cap filter host port ip tcp i sports sport dport (Q : outcome FnError NaslValue.t -> Prop) (v : V) :
  ping_buffers ip tcp ->
  (forall ip' tcp' v', ping_buffers ip' tcp' -> Q (ping_loop soc cap filter host port ip' tcp' (S i) sports v').1) ->
  let tcp := set_field Tcp_source sport tcp in
  let tcp := set_field Tcp_destination dport tcp in
  let tcp := set_field Tcp_checksum (tcp_ipv4_checksum tcp (get_field Ip_source ip) (get_field Ip_destination ip)) tcp in
  Q ((ip ← or_panic (set_payload Ipv4 tcp ip);
      sent ← call (send_to soc ip host);
      match sent with
      | inr e => throw (error ("send_packet: " ++ e))
      | inl _ =>
          p ← capture_next cap filter;
          match p with
          | Some _ => mret (NaslValue.Number 1)
          | None => ping_loop soc cap filter host port ip tcp (S i) sports
          end
      end) v).1.
Proof.
  intros Hb HQ t1 t2 t3. assert (fits Tcp tcp) as Hf by (unfold fits; destruct Hb as (_ & _ & _ & Ht); rewrite Ht; simpl; lia).
  assert (ping_buffers ip t3) as Hb3.
  { unfold t3, t2, t1. destruct Hb as (? & ? & ? & Ht). unfold ping_buffers. by rewrite !law_length by fits_tac. }
  destruct (ping_payload ip t3 Hb3) as (ip' & -> & Hb'). simpl. rewrite (bind_ok (mret _) _ _ _ _ eq_refl). revert v.
  eapply succeeds_bind; [apply succeeds_inl, (si_send _ Hs)|]. intros ? v [n ->]. revert v.
  eapply succeeds_bind; [apply silent_next|]. intros ? v ->. by apply HQ.
Qed.

Lemma ping_buffers_new id src dst seq : ping_buffers (ping_ip id src dst) (ping_tcp seq).
Proof.
  assert (fits Ipv4 (zeros 40)) as Hi by apply (fits_zeros Ipv4 20). assert (fits Tcp (zeros 20)) as Ht by apply (fits_zeros Tcp 0).
  unfold ping_buffers, ping_ip, ping_tcp. rewrite !law_length by fits_tac. read_field. done.
Qed.

Lemma ping_loop_result soc cap filter host port ip tcp i sports (v : V) : ping_buffers ip tcp ->
  (i + length sports = 29)%nat -> sports <> [] \/ port <> 0%Z ->
  (ping_loop soc cap filter host port ip tcp i sports v).1 = if (port =? 0)%Z then Panic else Ok NaslValue.Null.
Proof.
  revert i ip tcp v. induction sports as [|s sports IH]; intros i ip tcp v Hb Hi Hne; simpl.
  - destruct (Z.eqb_spec port 0); [|done]. destruct Hne; done.
  - simpl in Hi. revert v. eapply succeeds_run; [apply silent_port|]. intros rnd v _.
    destruct (Z.eqb_spec port 0) as [->|Hp].
    + destruct (decide (i < 28)%nat) as [Hlt|Hge].
      * destruct (lookup_lt_is_Some_2 ping_ports i ltac:(simpl; lia)) as [d ->].
        erewrite (bind_ok _ _ (s, wrap_u 16 d) v v); [|reflexivity]. apply (ping_step soc cap filter host 0 ip tcp i sports s (wrap_u 16 d) (fun o => o = Panic)); try done.
        intros ip' tcp' v' Hb'. rewrite IH; [done|done|lia|]. left. intros ->. simpl in Hi. lia.
      * rewrite lookup_ge_None_2 by (simpl; lia). done.
    + erewrite (bind_ok _ _ (rnd, wrap_u 16 port) v v); [|reflexivity]. apply (ping_step soc cap filter host port ip tcp i sports rnd (wrap_u 16 port) (fun o => o = Ok NaslValue.Null)); try done.
      intros ip' tcp' v' Hb'. rewrite IH; [|done|lia|by right]. by destruct (Z.eqb_spec port 0).
Qed.

(** A ping of a host that does not answer: with a port it sends all its packets and yields
    nothing, but without one it panics, for it has one source port more than ports to try. *)
Theorem unanswered_ping (r : Register) (arg : string -> option ContextType) (host : Ipv4Addr) (v : V) (port : Z) :
  args_of r arg -> get_host_ip target = Ok (V4 host) -> (0 <= host < 2 ^ 32)%Z ->
  arg "port" = Some (Value (NaslValue.Number port)) \/ arg "port" = None /\ port = 0%Z ->
  (nasl_tcp_ping target r v).1 = if (port =? 0)%Z then Panic else Ok NaslValue.Null.
Proof.
  intros Hr Hh Hhost Hport. unfold nasl_tcp_ping. revert v. eapply succeeds_run; [apply silent_sports|]. intros sports v Hsp. revert v.
  eapply succeeds_run; [apply silent_raw|]. intros soc v _. unfold of_outcome. rewrite Hh. revert v.
  eapply (succeeds_run _ _ (fun a => a = V4 host)); [intros v; by do 2 eexists|]. intros ? v ->. revert v.
  eapply succeeds_run; [apply silent_source|]. intros ? v ->. revert v.
  eapply succeeds_run; [apply silent_interface|]. intros iface v _. rewrite (bind_ok _ _ _ _ _ (run_named Hr "port" v)). revert v.
  eapply (succeeds_run _ _ (fun p => p = port)).
  { destruct Hport as [-> |[-> ->]]; by apply succeeds_ret. }
  intros ? v ->. revert v. eapply (succeeds_run _ _ (fun b => b = false)); [intros v; rewrite islocalhost_false; by do 2 eexists|].
  intros ? v ->. revert v. eapply succeeds_run; [apply silent_capture|]. intros cap v _.
  rewrite (bind_ok _ _ _ _ _ (run_view Ipv4 _ _ _ (fits_zeros Ipv4 20))). revert v.
  eapply succeeds_run; [apply silent_random|]. intros id v _. simpl ip_to_string.
  rewrite (proj2 (ipv4_text_spec (ipv4_to_string local) local)), (proj2 (ipv4_text_spec (ipv4_to_string host) host)) by done. simpl ok_or.
  do 2 rewrite (bind_ok (mret _) _ _ _ _ eq_refl). rewrite (bind_ok _ _ _ _ _ (run_view Tcp _ _ _ (fits_zeros Tcp 0))). revert v.
  eapply succeeds_run; [apply silent_random|]. intros seq v _. apply ping_loop_result.
  - apply ping_buffers_new.
  - by rewrite Hsp.
  - left. by intros ->.
Qed.
End Silent.

(** ** Options of IP *)
Lemma run_copy d di df o oi oF (v : V) : (di <= df <= length d)%nat -> (oi <= oF <= length o)%nat -> (df - di = oF - oi)%nat ->
  (zlen o < 2 ^ 64)%Z ->
  safe_copy_from_slice d di df o oi oF v = (Ok (take di d ++ take (oF - oi) (drop oi o) ++ drop df d)%list, v).
Proof.
  intros Hd Ho Hr Hl. unfold safe_copy_from_slice, arith_u, zlen in *.
  rewrite (proj2 (in_u_spec 64 (Z.of_nat oF - Z.of_nat oi))) by lia. rewrite (bind_ok (or_panic (Some _)) _ _ _ _ eq_refl).
  rewrite (proj2 (in_u_spec 64 (Z.of_nat df - Z.of_nat di))) by lia. rewrite (bind_ok (or_panic (Some _)) _ _ _ _ eq_refl).
  replace (_ || _) with false; [done|]. symmetry. rewrite !orb_false_iff, negb_false_iff, !Z.ltb_ge, !Nat.ltb_ge, Z.eqb_eq. lia.
Qed.

Lemma option_header_words q : (wrap_u 8 (Z.of_nat (32 * (q + 1) / 4)) mod 2 ^ 4 = if Nat.even q then 8 else 0)%Z.
Proof.
  replace (32 * (q + 1))%nat with (8 * (q + 1) * 4)%nat by lia. rewrite Nat.div_mul by lia. unfold wrap_u.
  rewrite Z.mod_mod_divide by (by exists 16%Z). destruct (Nat.even q) eqn:E.
  - apply Nat.even_spec in E as [k ->]. replace (Z.of_nat (8 * (2 * k + 1))) with (8 + Z.of_nat k * 2 ^ 4)%Z by lia. by rewrite Z_mod_plus_full.
  - rewrite <- Nat.negb_odd in E. apply negb_false_iff, Nat.odd_spec in E as [k ->].
    replace (Z.of_nat (8 * (2 * k + 1 + 1))) with (0 + Z.of_nat (k + 1) * 2 ^ 4)%Z by lia. by rewrite Z_mod_plus_full.
Qed.

(** An option in an IP header: the buffer that is returned has a multiple of 32 bytes, at
    least one of them padding, and what followed the old header is gone; its length field
    counts words in four bits, so that it says 8 words or none at all: options of 12
    to 43 bytes give a header of length zero. *)
Theorem ip_option_header (r : Register) (arg : string -> option ContextType) (b value : list byte) (code : Z) (n : nat) (v : V) :
  args_of r arg -> arg "ip" = Some (Value (NaslValue.Data b)) -> (20 <= length b)%nat -> (zlen b < 2 ^ 64)%Z ->
  arg "code" = Some (Value (NaslValue.Number code)) -> arg "length" = Some (Value (NaslValue.Number (Z.of_nat n))) ->
  arg "value" = Some (Value (NaslValue.Data value)) -> n = (3 + length value)%nat -> (Z.of_nat n < 2 ^ 16)%Z ->
  let hl := (32 * ((20 + n) / 32 + 1))%nat in
  exists c, insert_ip_options r v = (Ok (NaslValue.Data c), v) /\ length c = hl
    /\ drop 20 c = (Z_byte code :: le_encode 2 (Z.of_nat n) ++ value ++ zeros (hl - 20 - n))%list
    /\ get_field Ip_header_length c = (if Nat.even ((20 + n) / 32) then 8 else 0)%Z.
Proof.
  intros Hr Hip Hb Hbl Hcode Hlen Hval -> Hn hl. unfold insert_ip_options.
  rewrite (bind_ok _ _ _ _ _ (run_packet Hr _ _ b v Hip)), (bind_ok _ _ _ _ _ (run_named Hr "code" v)), Hcode.
  rewrite (bind_ok (mret _) _ _ _ _ eq_refl), (bind_ok _ _ _ _ _ (run_named Hr "length" v)), Hlen.
  rewrite (bind_ok (mret _) _ _ _ _ eq_refl), (bind_ok _ _ _ _ _ (run_named Hr "value" v)), Hval.
  rewrite (bind_ok (mret _) _ _ _ _ eq_refl). set (n := (3 + length value)%nat) in *.
  assert (wrap_u 64 (Z.of_nat n) = Z.of_nat n) as -> by (apply Z.mod_small; lia).
  unfold vec_zeros. rewrite (proj2 (Z.leb_le _ _)) by (unfold i64_max; lia). rewrite (bind_ok (mret _) _ _ _ _ eq_refl), Nat2Z.id.
  assert (forall m, length (zeros m) = m) as Hz by (intros m; apply length_replicate).
  erewrite bind_ok; [|apply run_copy; unfold zlen; rewrite ?Hz; simpl length; lia]. simpl drop; simpl take.
  erewrite bind_ok; [|apply run_copy; unfold zlen; rewrite ?Hz; simpl length; lia]. simpl drop; simpl take.
  assert (n = 3 + length value)%nat as En by done.
  erewrite bind_ok; [|apply run_copy; unfold zlen in *; rewrite ?length_app, ?length_drop, ?length_replicate; simpl length; lia].
  set (opt := (take _ _ ++ _)%list). assert (opt = Z_byte code :: le_encode 2 (Z.of_nat n) ++ value)%list as Ho.
  { unfold opt. simpl. by rewrite !drop_0, take_ge, drop_ge, app_nil_r by (rewrite ?length_replicate; lia). }
  clearbody opt. assert (length opt = n) as Hol by (rewrite Ho; simpl; lia). rewrite Hol.
  assert (20 + n + (32 - (20 + n) `mod` 32) = hl)%nat as ->.
  { unfold hl. pose proof (Nat.div_mod (20 + n) 32 ltac:(lia)). pose proof (Nat.mod_upper_bound (20 + n) 32 ltac:(lia)). lia. }
  assert (20 + n < hl)%nat as Hhl.
  { unfold hl. pose proof (Nat.div_mod (20 + n) 32 ltac:(lia)). pose proof (Nat.mod_upper_bound (20 + n) 32 ltac:(lia)). lia. }
  erewrite bind_ok; [|apply run_copy; rewrite ?Hz; lia]. rewrite take_0. cbn [app].
  assert (length (take (20 - 0) (drop 0 b) ++ drop 20 (zeros hl)) = hl) as Hl1.
  { rewrite length_app, length_take, !length_drop, Hz. lia. }
  erewrite bind_ok; [|apply run_copy; rewrite ?Hl1, ?Hol; unfold zlen; lia].
  set (buf := (take 20 _ ++ _)%list). assert (buf = take 20 b ++ opt ++ zeros (hl - 20 - n))%list as Hbuf.
  { unfold buf. rewrite drop_0, Nat.sub_0_r. f_equal; [by rewrite take_app_length' by (rewrite length_take; lia)|].
    f_equal; [rewrite drop_0; apply take_ge; lia|]. rewrite drop_app_ge by (rewrite length_take; lia). rewrite length_take.
    unfold zeros. rewrite !drop_replicate. f_equal. lia. }
  clearbody buf. assert (length buf = hl) as Hbl'.
  { rewrite Hbuf, !length_app, length_take, Hz, Hol. lia. }
  assert (fits Ipv4 buf) as Hf by (unfold fits; simpl; lia). rewrite (bind_ok _ _ _ _ _ (run_view _ _ _ _ Hf)).
  eexists. split; [reflexivity|]. split; [by rewrite !law_length by fits_tac|]. split.
  - rewrite !drop_set by (first [done|fits_tac]). rewrite Hbuf, drop_app_length' by (rewrite length_take; lia).
    by rewrite Ho, <- app_comm_cons, <- app_assoc.
  - read_field. change (width Ip_header_length) with 4%Z. apply option_header_words.
Qed.

(** The checksum a script gives for a UDP packet under its documented name [uh_sum] is not
    looked at. *)
Theorem udp_sum_ignored (r r' : Register) (v : V) :
  (forall n, n <> "uh_sum" -> Register.named r n = Register.named r' n) ->
  forge_udp_packet little_endian r v = forge_udp_packet little_endian r' v.
Proof.
  intros Hn. assert (forall n, n <> "uh_sum" -> (named r n : N _) = named r' n) as E.
  { intros n Hne. unfold named. by rewrite Hn. }
  unfold forge_udp_packet, packet_arg, data_arg, number_or, checksum_or, append_segment. by rewrite !E by done.
Qed.
End Theorems.

(** ** Witnesses *)
Module PacketWitness.
Import PacketExample.
#[local] Existing Instance debug_build.

Definition answers (l : list (string * NaslValue.t)) (n : string) : option ContextType :=
  match Register.named (given l) n with Ok o => o | _ => None end.

Lemma given_args l : args_of (given l) (answers l).
Proof.
  intros n. unfold answers. unfold given. destruct (Register.index_named_visible (given l) n) as (o & Ho & _).
  - apply Register.wf_create_root_child, Register.wf_new.
  - unfold given in Ho. by rewrite (Register.named_index_named _ _ _ Ho).
Qed.

Definition host : Ipv4Addr := 3232235530%Z.
Definition host_text : string := "192.168.0.10".

Lemma forged_ip_read_back_witness :
  exists b, forge_ip_packet true host_text (given (("data", NaslValue.String "abc") :: ip_args 6 host_text)) quiet
    = (Ok (NaslValue.Data b), quiet)
  /\ read_as_forged (V := Sim) (answers (("data", NaslValue.String "abc") :: ip_args 6 host_text)) 3232235521 host b
  /\ (answers (("data", NaslValue.String "abc") :: ip_args 6 host_text) "ip_sum" = None -> valid_header b).
Proof.
  apply (forged_ip_read_back true host_text _ _ quiet quiet host 1234 3232235521 host);
    [apply given_args|vm_compute; reflexivity|done|done|vm_compute; reflexivity..].
Defined.

Lemma forged_headers_valid_witness : exists x v', forge_tcp_packet true (given tcp_args) quiet = (Ok x, v') /\ valid_packet x.
Proof.
  destruct (forge_tcp_packet true (given tcp_args) quiet) as [[x| | |] v'] eqn:E; [|by vm_compute in E..].
  exists x, v'. split; [done|]. apply (forged_headers_valid true _ _ _ _ x (proj2 (elem_of_cons _ _ _) (or_introl eq_refl)) E).
Defined.

Definition plain : list byte :=
  bytes [69; 0; 0; 20; 210; 4; 0; 0; 255; 6; 104; 129; 192; 168; 0; 1; 192; 168; 0; 12]%Z.

Lemma forged_tcp_read_back_witness :
  exists b, forge_tcp_packet true (given tcp_args) quiet = (Ok (NaslValue.Data b), quiet)
    /\ reads (V := Sim) get_tcp_element "tcp" b "th_dport" (NaslValue.Number 80)
    /\ reads (V := Sim) get_tcp_element "tcp" b "th_seq" (NaslValue.Number 1000)
    /\ valid_segment 6 3232235521 3232235532 (payload Ipv4 b).
Proof.
  destruct (forged_tcp_read_back true (given tcp_args) (answers tcp_args) plain quiet quiet 1000) as (b & Hb & Hn & Hs & _ & Hc);
    [apply given_args|vm_compute; split_and!; done|done|vm_compute; reflexivity|].
  exists b. split; [exact Hb|]. split; [|split; [exact Hs|]].
  - apply (Hn "th_dport" 16 0)%Z. set_solver.
  - apply Hc. right. vm_compute. reflexivity.
Defined.

Lemma set_nothing_swaps_id_witness :
  fst (set_ip_elements true (given [("ip", NaslValue.Data plain)]) quiet)
  = Ok (NaslValue.Data (set_field Ip_identification 1234 plain)).
Proof.
  refine (f_equal fst (proj1 (set_nothing_swaps_id true (given [("ip", NaslValue.Data plain)])
    (answers [("ip", NaslValue.Data plain)]) plain quiet (given_args _) _ _ _))).
  - vm_compute. reflexivity.
  - intros n Hn. unfold answers, given, Register.named, Register.index_named. simpl.
    rewrite lookup_insert_ne by done. by rewrite lookup_empty.
  - unfold fits. simpl. lia.
Defined.

(** Two packets, the second one to another host *)
Definition two : list (string * NaslValue.t) :=
  [("pcap_active", NaslValue.Boolean false);
   (FC_ANON_ARGS, NaslValue.Array [ip_packet 6 host_text; NaslValue.Data plain])].

Lemma send_packet_only_to_target_witness :
  length (sim_sent (nasl_send_packet host_text (given two) quiet).2) = 1%nat
  /\ Forall (fun x => x.2 = V4 host) (sim_sent (nasl_send_packet host_text (given two) quiet).2).
Proof.
  split; [vm_compute; reflexivity|].
  apply (send_packet_only_to_target host_text (fun v => Forall (fun x => x.2 = V4 host) (sim_sent v)) (given two)
    (answers two) (V4 host)).
  - apply given_args.
  - vm_compute. reflexivity.
  - split; simpl; try done. intros c v Hv. by destruct (sim_answers v).
  - intros soc p w d [Hd|[Ha _]] Hw; [|vm_compute in Ha; done]. simpl. apply Forall_app. split; [done|].
    constructor; [exact Hd|constructor].
  - constructor.
Defined.

Lemma unanswered_ping_witness :
  (nasl_tcp_ping (H2 := mute_net) host_text (given []) quiet).1 = Panic.
Proof.
  apply (unanswered_ping (H3 := mute_net) host_text 3232235522%Z) with (arg := answers []) (host := host) (port := 0%Z).
  - split; try (intros; eexists; reflexivity); try done.
    intros v. eexists. split; [reflexivity|]. constructor. by apply list_elem_of_singleton.
  - done.
  - apply given_args.
  - vm_compute. reflexivity.
  - done.
  - right. split; [vm_compute; reflexivity|done].
Defined.

Definition option_args : list (string * NaslValue.t) :=
  [("ip", NaslValue.Data plain); ("code", num 131); ("length", num 12); ("value", NaslValue.Data (zeros 9))].
Lemma ip_option_header_witness :
  exists c, insert_ip_options (given option_args) quiet = (Ok (NaslValue.Data c), quiet)
    /\ get_field Ip_header_length c = 0%Z.
Proof.
  destruct (ip_option_header (given option_args) (answers option_args) plain (zeros 9) 131 12 quiet) as (c & Hc & _ & _ & Hh);
    [apply given_args|vm_compute; reflexivity|simpl; lia|done|vm_compute; reflexivity..|].
  exists c. split; [exact Hc|exact Hh].
Defined.

Lemma udp_sum_ignored_witness :
  let args := [("ip", NaslValue.Data plain); ("data", NaslValue.String "1234")] in
  forge_udp_packet true (given (("uh_sum", num 7) :: args)) quiet = forge_udp_packet true (given args) quiet.
Proof.
  intros args. apply udp_sum_ignored. intros n Hn. unfold given, Register.named, Register.index_named. simpl.
  by rewrite (lookup_insert_ne _ "uh_sum") by done.
Defined.
End PacketWitness.
