(* ===== verification/FnProps.v ===== *)
(** * What the builtin functions guarantee

    Arguments: the checks never panic, and a global variable can take the place of a named
    argument.  Results: every value a function returns is well typed.  Sorting, the
    knowledge base and the description of a script. *)

From S2P Require Import Prelude RustStr Token Tokenizer Statement Lexer NaslValue Errors Register Executor Operator Interpreter FnArgs StringFns ValueFns Nvt Storage StorageProps ContextFns DescriptionFns.
From Stdlib Require Import Sorting.Sorted.
Local Open Scope nat_scope.

(** ** Arguments *)
Lemma named_returns r x : Register.wf r -> exists o, Register.named r x = Ok o.
Proof.
  intros Hwf. pose proof (Register.index_named_visible r x Hwf) as (o & Ho & _).
  exists (snd <$> o). by apply Register.named_index_named.
Qed.

Lemma positional_returns r : Register.wf r -> exists l, Register.positional r = Ok l.
Proof.
  intros Hwf. unfold Register.positional. destruct (named_returns r FC_ANON_ARGS Hwf) as [o ->].
  destruct o as [[?|[]]|]; eauto.
Qed.

Section Arguments.
Context `{HashOrder} `{Features} `{BuildProfile}.

(** The names that are counted are distinct names of maybe-named arguments. *)
Lemma count_maybe_named_bound names named maybe num n :
  NoDup names -> count_maybe_named names named maybe num = Ok n ->
  n <= num + length (List.filter (fun x => bool_decide (x ∈ maybe)) names).
Proof.
  intros Hnd. revert num. induction Hnd as [|x names Hx Hnd IH]; intros num; cbn [count_maybe_named List.filter].
  - intros [= <-]. lia.
  - destruct (_ || _).
    + intros Hc%IH. case_bool_decide; simpl; lia.
    + destruct (bool_decide (x ∈ maybe)).
      * intros Hc%IH. simpl. lia.
      * destruct enforce_no_trailing_arguments; [done|]. intros Hc%IH. lia.
Qed.

Lemma filter_named_length (names maybe : list string) :
  NoDup names -> length (List.filter (fun x => bool_decide (x ∈ maybe)) names) <= length maybe.
Proof.
  intros Hnd. apply submseteq_length. apply NoDup_submseteq.
  - apply NoDup_ListNoDup, List.NoDup_filter. by apply NoDup_ListNoDup.
  - intros x. rewrite list_elem_of_In, filter_In. by intros [_ ?%bool_decide_eq_true].
Qed.

Lemma count_maybe_named_outcome names named maybe num :
  count_maybe_named names named maybe num <> Panic /\ count_maybe_named names named maybe num <> OutOfFuel
  /\ (enforce_no_trailing_arguments = false -> exists n, count_maybe_named names named maybe num = Ok n).
Proof.
  revert num. induction names as [|x names IH]; intros num; cbn [count_maybe_named]; [eauto|].
  destruct (_ || _); [apply IH|]. destruct (bool_decide _); [apply IH|].
  destruct enforce_no_trailing_arguments; [split_and!; done|apply IH].
Qed.

Lemma names_distinct r names : Register.iter_named_args r = Some names -> NoDup names.
Proof.
  unfold Register.iter_named_args. intros (c & _ & ->)%fmap_Some.
  rewrite NaslValue.iter_keys, iter_order_perm. apply NoDup_elements.
Qed.

Lemma iter_named_some r : Register.wf r -> is_Some (Register.iter_named_args r).
Proof.
  intros Hwf. unfold Register.iter_named_args. destruct (Register.wf_last r Hwf) as (c & -> & _). by eexists.
Qed.

(** The checks the macro puts before every builtin function neither panic (the number of
    expected arguments never underflows) nor, unless surplus arguments are refused, fail. *)
Theorem checks_pass (r : Register) (named maybe_named : list string) (max : nat) :
  Register.wf r -> length maybe_named <= max -> (Z.of_nat max < 2 ^ 64)%Z ->
  check_args r named maybe_named (Some max) <> Panic
  /\ check_args r named maybe_named (Some max) <> OutOfFuel
  /\ (enforce_no_trailing_arguments = false -> check_args r named maybe_named (Some max) = Ok tt).
Proof.
  intros Hwf Hm Hmax. unfold check_args, check_named_args.
  destruct (iter_named_some r Hwf) as [names Hn]. rewrite Hn.
  pose proof (names_distinct r names Hn) as Hnd. pose proof (filter_named_length names maybe_named Hnd) as Hl.
  destruct (count_maybe_named_outcome names named maybe_named 0) as (Hp & Ho & Hok).
  destruct (positional_returns r Hwf) as [l Hpos].
  destruct (count_maybe_named names named maybe_named 0) as [n|e| |] eqn:Ec; try done; simpl.
  - apply count_maybe_named_bound in Ec; [|done]. rewrite Hpos. simpl. unfold arith_u.
    assert (in_u 64 (Z.of_nat max - Z.of_nat n) = true) as -> by (apply in_u_spec; lia).
    destruct (_ <? _)%Z; simpl; [|done]. by destruct enforce_no_trailing_arguments.
  - split_and!; [done..|]. intros He. destruct (Hok He). done.
Qed.

(** A named argument that a call does not give is taken from a global variable of the
    same name: a builtin function looks its arguments up in the scope of the call, and the
    lookup goes on in the root scope. *)
Theorem global_taken_as_argument {T} (conv : NaslValue.t -> B T) (r : Register) (d : Named)
  (name : string) (root : NaslContext) (v : NaslValue.t) (x : T) :
  Register.wf r -> d !! name = None -> head (blocks r) = Some root ->
  defined root !! name = Some (Value v) -> conv v = Ok x ->
  get_optional_named_arg conv (Register.create_root_child r d) name = Ok (Some x)
  /\ get_named_arg conv (Register.create_root_child r d) name = Ok x.
Proof.
  intros Hwf Hd Hr Hv Hx. destruct (call_scope_hides_caller r d name Hwf) as [E _].
  rewrite Hd, Hr in E. simpl in E. rewrite Hv in E.
  unfold get_optional_named_arg, get_named_arg. rewrite E. simpl. by rewrite Hx.
Qed.
End Arguments.

(** ** Types *)

(** A value is well typed if all its numbers are in the range of [i64]. *)
Fixpoint typed (v : NaslValue.t) : bool :=
  match v with
  | NaslValue.Number n | NaslValue.Exit n => in_i 64 n
  | NaslValue.Array l | NaslValue.Fork l => forallb (fun b => b) (map typed l)
  | NaslValue.Dict m => map_fold (fun _ b acc => b && acc) true (typed <$> m)
  | NaslValue.Return v => typed v
  | _ => true
  end.

Lemma typed_list l : forallb (fun b => b) (map typed l) = true <-> Forall (fun v => typed v = true) l.
Proof.
  rewrite forallb_forall, List.Forall_forall. split.
  - intros Hl v Hv. apply Hl, in_map_iff. eauto.
  - intros Hl b (v & <- & Hv)%in_map_iff. by apply Hl.
Qed.

Lemma typed_dict (m : gmap string NaslValue.t) :
  typed (NaslValue.Dict m) = true <-> map_Forall (fun _ v => typed v = true) m.
Proof.
  cbn [typed]. induction m as [|k v m Hk IH] using map_ind.
  - rewrite fmap_empty, map_fold_empty. split; [intros _; apply map_Forall_empty|done].
  - rewrite fmap_insert, map_fold_insert_L; [|by intros; destruct y, z1, z2; simpl; rewrite ?andb_comm|by rewrite lookup_fmap, Hk].
    rewrite andb_true_iff, map_Forall_insert, IH by done. done.
Qed.

(** Every value a register can hand out is well typed. *)
Definition reg_typed (r : Register) : Prop :=
  forall x v, Register.named r x = Ok (Some (Value v)) -> typed v = true.

(** The values a computation may return. *)
Definition returns {A} (Q : A -> Prop) (m : B A) : Prop := forall a, m = Ok a -> Q a.
Abbreviation returns_typed := (returns (fun v => typed v = true)).

Lemma returns_ok {A} (Q : A -> Prop) a : Q a -> returns Q (Ok a).
Proof. by intros ? ? [= <-]. Qed.

Lemma returns_bind {A A'} (P : A -> Prop) (Q : A' -> Prop) (m : B A) (f : A -> B A') :
  returns P m -> (forall a, P a -> returns Q (f a)) -> returns Q (a ← m; f a).
Proof. intros Hm Hf b. destruct m as [a|e| |] eqn:E; simpl; try done. by apply Hf, Hm. Qed.

Lemma returns_then {A A'} (Q : A' -> Prop) (m : B A) (f : A -> B A') :
  (forall a, returns Q (f a)) -> returns Q (a ← m; f a).
Proof. intros Hf. apply (returns_bind (fun _ => True)); [done|auto]. Qed.

Lemma returns_to_number z : returns_typed (to_number z).
Proof. by apply returns_ok, wrap_i_range. Qed.

Lemma returns_to_option {T} (to : T -> B NaslValue.t) o :
  (forall x, returns_typed (to x)) -> returns_typed (to_option to o).
Proof. intros Ht. destruct o; [apply Ht|by apply returns_ok]. Qed.

Lemma returns_to_vec {T} (to : T -> B NaslValue.t) l :
  Forall (fun x => returns_typed (to x)) l -> returns_typed (FnArgs.to_vec to l).
Proof.
  intros Hl. apply (returns_bind (Forall (fun v => typed v = true))).
  - induction Hl as [|x l Hx _ IH]; [by apply returns_ok|]. simpl.
    eapply returns_bind; [exact Hx|]. intros v Hv. eapply returns_bind; [exact IH|].
    intros vs Hvs. apply returns_ok. by constructor.
  - intros vs Hvs. apply returns_ok. by apply typed_list.
Qed.

Lemma returns_to_str_vec l : returns_typed (FnArgs.to_vec to_str l).
Proof. apply returns_to_vec, Forall_forall. intros x _. by apply returns_ok. Qed.

Lemma typed_strings (l : list string) : typed (NaslValue.Array (map NaslValue.String l)) = true.
Proof. apply typed_list, List.Forall_map. by induction l; constructor. Qed.

Lemma typed_values `{HashOrder} m :
  typed (NaslValue.Dict m) = true -> Forall (fun v => typed v = true) (values m).
Proof.
  intros Hm%typed_dict. unfold values. rewrite NaslValue.iter_perm. apply List.Forall_map, Forall_forall.
  intros [k v] Hk%elem_of_map_to_list. by apply (Hm k).
Qed.

Section TypedArguments.
Context `{HashOrder} `{Features} `{BuildProfile} (r : Register) (Hr : reg_typed r).

Lemma typed_positional :
  forall l, Register.positional r = Ok l -> Forall (fun v => typed v = true) l.
Proof.
  intros l. unfold Register.positional. destruct (Register.named r FC_ANON_ARGS) as [[c|]| | |] eqn:E; try done; simpl.
  - destruct c as [|[]]; intros [= <-]; try constructor. apply Hr in E. by apply typed_list.
  - intros [= <-]. constructor.
Qed.

Lemma typed_checked n :
  returns (Forall (fun v => typed v = true)) (checked_positionals from_value r n).
Proof.
  unfold checked_positionals. apply (returns_bind (Forall (fun v => typed v = true))).
  - intros l. destruct (Register.positional r) as [l'| | |] eqn:E; simpl; try done.
    intros [= <-]. by apply typed_positional.
  - intros l Hl. apply (Forall_drop _ n) in Hl. induction Hl as [|v l' Hv _ IH]; simpl; [by apply returns_ok|].
    eapply returns_bind; [exact IH|]. intros vs Hvs. apply returns_ok. by constructor.
Qed.
End TypedArguments.

(** *** Sorting *)

(** The order of values by their bytes is total and transitive. *)
Definition le_value (e : bool) (a b : NaslValue.t) : Prop := NaslValue.cmp e a b <> Gt.

Lemma bytes_cmp_trans a b c :
  NaslValue.bytes_cmp a b <> Gt -> NaslValue.bytes_cmp b c <> Gt -> NaslValue.bytes_cmp a c <> Gt.
Proof.
  revert b c. induction a as [|x a IH]; intros [|y b] [|z c]; try done. cbn [NaslValue.bytes_cmp].
  destruct (N.compare_spec (Byte.to_N x) (Byte.to_N y)), (N.compare_spec (Byte.to_N y) (Byte.to_N z)),
    (N.compare_spec (Byte.to_N x) (Byte.to_N z)); try done; try lia. apply IH.
Qed.

#[export] Instance le_value_trans e : Transitive (le_value e).
Proof. intros a b c. apply bytes_cmp_trans. Qed.

Lemma insert_sorted_perm e v l : insert_sorted e v l ≡ₚ v :: l.
Proof.
  induction l as [|x l IH]; [done|]. simpl. destruct (NaslValue.cmp e v x); try done;
    rewrite IH; constructor.
Qed.

Lemma insert_sorted_sorted e v l : Sorted (le_value e) l -> Sorted (le_value e) (insert_sorted e v l).
Proof.
  induction 1 as [|x l Hl IH Hx]; simpl; [by repeat constructor|].
  destruct (NaslValue.cmp e v x) eqn:E.
  2: { constructor; [by constructor|]. constructor. unfold le_value. by rewrite E. }
  all: constructor; [exact IH|].
  all: assert (le_value e x v) as Hxv
    by (unfold le_value, NaslValue.cmp; rewrite bytes_cmp_opp; fold (NaslValue.cmp e v x); by rewrite E).
  all: destruct l as [|y l]; simpl; [by constructor|]; destruct (NaslValue.cmp e v y); constructor;
    try done; by inversion Hx.
Qed.

Lemma sort_fold e l acc :
  foldl (fun l v => insert_sorted e v l) acc l ≡ₚ acc ++ l
  /\ (Sorted (le_value e) acc -> Sorted (le_value e) (foldl (fun l v => insert_sorted e v l) acc l)).
Proof.
  revert acc. induction l as [|v l IH]; intros acc; simpl; [by rewrite app_nil_r|].
  destruct (IH (insert_sorted e v acc)) as [Hp Hs]. split.
  - rewrite Hp, insert_sorted_perm. by rewrite <- Permutation_middle.
  - intros Ha. by apply Hs, insert_sorted_sorted.
Qed.

(** Values that are equal in the order. *)
Definition same_order (e : bool) (v w : NaslValue.t) : bool :=
  match NaslValue.cmp e v w with Eq => true | _ => false end.

Lemma same_order_lt e u v w : same_order e u v = true -> NaslValue.cmp e v w = Lt -> same_order e u w = false.
Proof.
  unfold same_order, NaslValue.cmp. destruct (NaslValue.bytes_cmp (NaslValue.ref_bytes e u) _) eqn:E; try done.
  apply bytes_cmp_eq in E as ->. by intros _ ->.
Qed.

Lemma cmp_lt_le e v x y : NaslValue.cmp e v x = Lt -> le_value e x y -> NaslValue.cmp e v y = Lt.
Proof.
  intros Hv Hx. destruct (NaslValue.cmp e v y) eqn:E; [|done|].
  - exfalso. apply Hx. apply bytes_cmp_eq in E. unfold NaslValue.cmp in *.
    rewrite bytes_cmp_opp, <- E, Hv. done.
  - exfalso. apply (bytes_cmp_trans (NaslValue.ref_bytes e v) (NaslValue.ref_bytes e x) (NaslValue.ref_bytes e y));
      [by unfold NaslValue.cmp in Hv; rewrite Hv|done|done].
Qed.

Lemma insert_sorted_stable e u v l : StronglySorted (le_value e) l ->
  List.filter (same_order e u) (insert_sorted e v l) = List.filter (same_order e u) (l ++ [v]).
Proof.
  induction 1 as [|x l Hs IH Hx]; [done|]. simpl. destruct (NaslValue.cmp e v x) eqn:E.
  1,3: simpl; by rewrite IH.
  rewrite List.filter_app. simpl. destruct (same_order e u v) eqn:Eu; [|by rewrite app_nil_r].
  assert (forall y, y ∈ x :: l -> same_order e u y = false) as Hno.
  { intros y Hy. eapply same_order_lt; [exact Eu|]. apply elem_of_cons in Hy as [->|Hy]; [done|].
    eapply cmp_lt_le; [exact E|]. rewrite Forall_forall in Hx. by apply Hx. }
  rewrite (Hno x) by left.
  assert (List.filter (same_order e u) l = []) as ->; [|done].
  clear -Hno. induction l as [|y l IH]; [done|]. simpl. rewrite (Hno y) by (right; left).
  apply IH. intros z Hz. apply Hno. apply elem_of_cons in Hz as [->|Hz]; [left|right; by right].
Qed.

Lemma sort_fold_stable e u l acc : Sorted (le_value e) acc ->
  List.filter (same_order e u) (foldl (fun l v => insert_sorted e v l) acc l)
  = List.filter (same_order e u) (acc ++ l).
Proof.
  revert acc. induction l as [|v l IH]; intros acc Ha; simpl; [by rewrite app_nil_r|].
  rewrite IH by by apply insert_sorted_sorted. rewrite List.filter_app, insert_sorted_stable.
  - by rewrite <- List.filter_app, <- app_assoc.
  - apply Sorted_StronglySorted; [exact (le_value_trans e)|done].
Qed.

(** [sort] returns the values of its arguments, each as often as it is there, in the order
    of their bytes; values that are equal in that order stay in the order they came in. *)
Theorem sort_sorts `{HashOrder} (e : bool) (positionals : list NaslValue.t) :
  nasl_sort e positionals ≡ₚ create_list positionals
  /\ StronglySorted (le_value e) (nasl_sort e positionals)
  /\ forall v, List.filter (same_order e v) (nasl_sort e positionals)
             = List.filter (same_order e v) (create_list positionals).
Proof.
  destruct (sort_fold e (create_list positionals) []) as [Hp Hs]. split_and!; [done| |].
  - apply Sorted_StronglySorted, Hs; [exact (le_value_trans e)|constructor].
  - intros v. apply sort_fold_stable. constructor.
Qed.

(** *** The functions without a context *)

Create HintDb typed.
#[local] Hint Resolve returns_to_number returns_to_option returns_to_str_vec typed_strings : typed.
#[local] Hint Extern 1 (returns _ (to_str _)) => by apply returns_ok : typed.
#[local] Hint Extern 1 (returns _ (to_data _)) => by apply returns_ok : typed.
#[local] Hint Extern 1 (returns _ (FnArgs.to_bool _)) => by apply returns_ok : typed.
#[local] Hint Extern 1 (returns _ (to_value NaslValue.Null)) => by apply returns_ok : typed.

(** The function a term applies. *)
Ltac head_of t := lazymatch t with ?f _ => head_of f | ?f => f end.

(** Runs a function up to the conversion of its result. *)
Ltac typed_fn :=
  lazymatch goal with |- returns _ ?f => let h := head_of f in unfold h end;
  auto with typed; repeat (apply returns_then; intros ?; auto with typed).

Lemma make_list_typed `{HashOrder} l :
  Forall (fun v => typed v = true) l -> Forall (fun v => typed v = true) (create_list l).
Proof.
  unfold create_list. induction 1 as [|v l Hv _ IH]; simpl; [constructor|]. apply Forall_app. split; [|done].
  destruct v; simpl; try by repeat constructor; try done.
  - by apply typed_list.
  - by apply typed_values.
Qed.

Lemma keys_typed `{HashOrder} l ks : keys l = Some ks -> Forall (fun v => typed v = true) ks.
Proof.
  revert ks. induction l as [|v l IH]; intros ks; simpl; [intros [= <-]; constructor|].
  destruct v; try done; intros (ks' & Hk & ->)%fmap_Some; apply Forall_app; (split; [|by apply IH]).
  - apply List.Forall_map, Forall_forall. intros z Hz%elem_of_seqZ. simpl.
    pose proof (wrap_i_range 64 (Z.of_nat (length a)) ltac:(lia)) as Hw%in_i_spec. apply in_i_spec. lia.
  - apply List.Forall_map. by induction (iter m).*1; constructor.
Qed.

Lemma pairs_typed `{HashOrder} l : Forall (fun v => typed v = true) l -> Forall (fun x => typed x.2 = true) (pairs l).
Proof.
  intros Hl. remember (length l) as n eqn:En. revert l Hl En. induction (lt_wf n) as [n _ IH]. intros l Hl ->.
  destruct Hl as [|k l _ [|v l' Hv Hl]]; simpl; constructor; [done|]. eapply IH; [|done|done]. simpl. lia.
Qed.

Section TypedFunctions.
Context `{Platform} (known : string -> bool) (r : Register) (Hr : reg_typed r).

Lemma string_functions_typed : Forall (fun x => returns_typed (x.2 r)) string_functions.
Proof.
  unfold string_functions. repeat (apply Forall_cons; split; [simpl; typed_fn|]); try constructor.
  unfold strstr. destruct (find_at _ _) as [[]|]; by apply returns_ok.
Qed.

Lemma make_array_typed l : Forall (fun v => typed v = true) l -> typed (NaslValue.Dict (make_array l)) = true.
Proof.
  intros Hl%pairs_typed. apply typed_dict. unfold make_array. rewrite NaslValue.collect_map_app.
  intros k v Hk%elem_of_list_to_map_2. rewrite list_elem_of_In, <- in_rev, <- list_elem_of_In in Hk.
  rewrite Forall_forall in Hl. by apply (Hl (k, v)).
Qed.

Lemma typed_values_returned l :
  Forall (fun v => typed v = true) l -> returns_typed (FnArgs.to_vec to_value l).
Proof. intros Hl. apply returns_to_vec. eapply Forall_impl; [exact Hl|]. intros v Hv. by apply returns_ok. Qed.

Lemma array_functions_typed e : Forall (fun x => returns_typed (x.2 r)) (array_functions e).
Proof.
  unfold array_functions. repeat (apply Forall_cons; split; [simpl; unfold make_array_fn, make_list_fn, sort_fn, keys_fn;
    try (apply returns_then; intros _; eapply returns_bind; [by apply typed_checked|]; intros l Hl)|]).
  - by apply returns_ok, make_array_typed.
  - by apply typed_values_returned, make_list_typed.
  - apply typed_values_returned. destruct (sort_fold e (create_list l) []) as [Hp _].
    unfold nasl_sort. rewrite Hp. by apply make_list_typed.
  - destruct (keys l) as [ks|] eqn:Ek; [|by apply returns_ok]. by eapply typed_values_returned, keys_typed.
  - typed_fn.
  - constructor.
Qed.

Lemma misc_functions_typed e : Forall (fun x => returns_typed (x.2 r)) (misc_functions e known).
Proof. unfold misc_functions. repeat (apply Forall_cons; split; [simpl; typed_fn|]); constructor. Qed.

Lemma regex_functions_typed : Forall (fun x => returns_typed (x.2 r)) regex_functions.
Proof.
  unfold regex_functions. repeat (apply Forall_cons; split; [simpl; typed_fn|]); [|constructor].
  apply returns_ok, typed_strings.
Qed.
End TypedFunctions.

(** The same for the functions on strings, arrays, values and patterns: the numbers of the
    model, at any depth, stay where the type [i64] keeps those of the code. *)
Theorem functions_typed `{Platform} (known : string -> bool) (r : Register) (name : string)
  (f : Register -> B NaslValue.t) (v : NaslValue.t) :
  reg_typed r ->
  (name, f) ∈ string_functions ++ array_functions pf_little_endian
    ++ misc_functions pf_little_endian known ++ regex_functions ->
  f r = Ok v -> typed v = true.
Proof.
  intros Hr Hf. assert (returns_typed (f r)) as Ht; [|apply Ht].
  pose proof (string_functions_typed r) as H1. pose proof (array_functions_typed r Hr pf_little_endian) as H2.
  pose proof (misc_functions_typed known r pf_little_endian) as H3. pose proof (regex_functions_typed r) as H4.
  assert (Forall (fun x => returns_typed (x.2 r)) (string_functions ++ array_functions pf_little_endian
    ++ misc_functions pf_little_endian known ++ regex_functions)) as Hall by by rewrite !Forall_app.
  rewrite Forall_forall in Hall. by apply (Hall (name, f)).
Qed.

(** ** The knowledge base *)

(** A value joins the values of a name unless it is there. *)
Definition listed (vs : list NaslValue.t) (v : NaslValue.t) : list NaslValue.t :=
  if decide (v ∈ vs) then vs else vs ++ [v].

(** The values of [set_kb_item] calls that go to a name. *)
Definition values_named `{HashOrder} (k : string) (calls : list (NaslValue.t * NaslValue.t)) :
  list NaslValue.t :=
  (List.filter (fun c => bool_decide (NaslValue.to_string c.1 = k)) calls).*2.

Section KnowledgeBaseRuns.
Context `{HashOrder} `{BuildProfile} `{AdvisoryOrder} (key : ContextKey) (now : option Z).
Abbreviation W := (NaslWorld DefaultDispatcher).

(** The world after some calls of [set_kb_item] without an expiry. *)
Definition after_calls (calls : list (NaslValue.t * NaslValue.t)) (w : W) : W :=
  foldl (fun w c => (set_kb_item key now c.1 c.2 None w).2) w calls.

Lemma set_kb_item_eq name v (w : W) :
  set_kb_item key now name v None w
  = (Ok NaslValue.Null, set_storage w (cache_kb (w_storage w) key
      (mkKb (NaslValue.to_string name) (NaslValue.as_primitive v) None))).
Proof. done. Qed.

Lemma listed_primitives l v : Forall (fun v => NaslValue.storable v = true) (v :: l) ->
  NaslValue.as_primitive v ∈ NaslValue.as_primitive <$> l <-> v ∈ l.
Proof.
  intros [Hv Hl]%Forall_cons. rewrite list_elem_of_fmap. split.
  - intros (w & E & Hw). apply (f_equal NaslValue.from_primitive) in E.
    rewrite Forall_forall in Hl. rewrite !NaslValue.primitive_inverse in E by auto. by subst.
  - eauto.
Qed.

Lemma listed_storable l v :
  Forall (fun v => NaslValue.storable v = true) (v :: l) ->
  Forall (fun v => NaslValue.storable v = true) (listed l v).
Proof.
  intros [Hv Hl]%Forall_cons. unfold listed. destruct (decide _); [done|]. apply Forall_app. auto.
Qed.

Lemma after_calls_items calls w k vs :
  Forall (fun c => NaslValue.storable c.2 = true) calls -> Forall (fun v => NaslValue.storable v = true) vs ->
  kb_value <$> kb_items (w_storage w) key k = NaslValue.as_primitive <$> vs ->
  kb_value <$> kb_items (w_storage (after_calls calls w)) key k
  = NaslValue.as_primitive <$> foldl listed vs (values_named k calls).
Proof.
  intros Hc. revert w vs. induction Hc as [|[n v] calls Hv _ IH]; intros w vs Hvs E; [done|].
  change (after_calls ((n, v) :: calls) w) with (after_calls calls (set_kb_item key now n v None w).2).
  rewrite set_kb_item_eq. unfold values_named. cbn [List.filter fst snd].
  pose proof (cache_kb_spec (w_storage w) key (mkKb (NaslValue.to_string n) (NaslValue.as_primitive v) None) key k) as Hs.
  unfold spec_add in Hs. cbn [kb_key kb_value] in Hs.
  case_bool_decide as Hk.
  - subst k. change (?x :: ?l).*2 with (x.2 :: l.*2). cbn [snd foldl]. apply IH; [by apply listed_storable; constructor|].
    cbn [w_storage set_storage]. rewrite Hs, decide_True by done. rewrite E. unfold listed.
    pose proof (listed_primitives vs v ltac:(by constructor)) as Hm.
    clear Hs; repeat case_decide; [done|by exfalso; tauto|by exfalso; tauto|].
    by rewrite !fmap_app, E.
  - apply IH; [done|]. cbn [w_storage set_storage]. by rewrite Hs, decide_False by (intros [_ ?]; congruence).
Qed.
Lemma foldl_listed_storable l acc :
  Forall (fun v => NaslValue.storable v = true) acc -> Forall (fun v => NaslValue.storable v = true) l ->
  Forall (fun v => NaslValue.storable v = true) (foldl listed acc l).
Proof.
  intros Ha Hl. revert acc Ha. induction Hl as [|v l Hv _ IH]; intros acc Ha; [done|].
  apply IH, listed_storable. by constructor.
Qed.

Lemma values_named_storable k calls : Forall (fun c => NaslValue.storable c.2 = true) calls ->
  Forall (fun v => NaslValue.storable v = true) (values_named k calls).
Proof.
  intros Hc. apply List.Forall_map, List.Forall_forall. intros c [Hi _]%filter_In.
  rewrite List.Forall_forall in Hc. by apply Hc.
Qed.

Lemma retrieved_values (w : W) k vs : Forall (fun v => NaslValue.storable v = true) vs ->
  kb_value <$> kb_items (w_storage w) key k = NaslValue.as_primitive <$> vs ->
  retrieved_kb key k w = (Ok vs, w).
Proof.
  intros Hvs E. unfold retrieved_kb. do 2 f_equal. change (kb_values (map KB (kb_items (w_storage w) key k)) = vs).
  trans (NaslValue.from_primitive <$> (kb_value <$> kb_items (w_storage w) key k)).
  - clear E. unfold kb_values. induction (kb_items (w_storage w) key k) as [|x l IH]; [done|]. simpl. f_equal. exact IH.
  - rewrite E. clear E. induction Hvs as [|v vs Hv _ IH]; [done|]. cbn. f_equal; [by apply NaslValue.primitive_inverse|exact IH].
Qed.
End KnowledgeBaseRuns.

(** What scripts put into the knowledge base they get back: after any calls of
    [set_kb_item] with values that can be stored, [get_kb_list] returns the values of the
    name, each once and in the order of the first call, and [get_kb_item] forks over them;
    [replace_kb_item] leaves only its value. *)
Theorem kb_items_returned `{HashOrder} `{BuildProfile} `{AdvisoryOrder} (key : ContextKey)
    (now : option Z) (calls : list (NaslValue.t * NaslValue.t)) (name v : NaslValue.t)
    (vh : list (string * string)) (id : nat) :
  Forall (fun c => NaslValue.storable c.2 = true) calls -> NaslValue.storable v = true ->
  let w := after_calls key now calls (mkWorld new_dispatcher vh id) in
  let vs := foldl listed [] (values_named (NaslValue.to_string name) calls) in
  get_kb_list key name w = (Ok (NaslValue.Array vs), w)
  /\ get_kb_item key (NaslValue.to_string name) w = (Ok (NaslValue.Fork vs), w)
  /\ let w' := (replace_kb_item key name v w).2 in
     get_kb_list key name w' = (Ok (NaslValue.Array [v]), w').
Proof.
  intros Hc Hv w vs.
  assert (retrieved_kb key (NaslValue.to_string name) w = (Ok vs, w)) as Hr.
  { apply retrieved_values.
    - by apply foldl_listed_storable, values_named_storable.
    - by apply (after_calls_items key now calls _ _ []). }
  unfold get_kb_list, get_kb_item, mbind, M_bind. rewrite Hr. split_and!; [done|done|].
  rewrite (retrieved_values key _ _ [v]); [done|by constructor|].
  simpl. by rewrite replace_kb_eq, kb_items_put, decide_True.
Qed.

(** ** The description of a script *)
Section DescriptionRuns.
Context `{HashOrder} `{TimeFormats} `{AdvisoryOrder} (key : ContextKey).
Abbreviation W := (NaslWorld DefaultDispatcher).

Definition with_fields (w : W) (fs : list NVTField) : W :=
  set_storage w (foldl (fun s f => Storage.dispatch s key (NVT f)) (w_storage w) fs).

Lemma dispatch_fields_eq fs (w : W) : dispatch_fields key fs w = (Ok tt, with_fields w fs).
Proof. revert w. induction fs as [|f fs IH]; intros [] ; [done|]. apply IH. Qed.

Lemma storage_function_eq t len required optional r (w : W) :
  let '(o, w') := storage_function key t len required optional r w in
  match o with
  | Ok v => v = NaslValue.Null /\ exists args fs, t args = Ok fs /\ w' = with_fields w fs
  | _ => w' = w
  end.
Proof.
  unfold storage_function, pure, mbind, M_bind, of_outcome.
  destruct (positional_parameters _ _) as [a| | |]; try done.
  destruct (required_parameters _ _) as [b| | |]; try done.
  destruct (optional_parameters _ _) as [c| | |]; try done.
  destruct (t _) as [fs| | |] eqn:Et; try done. rewrite dispatch_fields_eq. split; [done|]. eexists _, _. done.
Qed.
End DescriptionRuns.

(** Every function of the description writes the fields of its arguments to the storage or
    nothing at all: one that fails leaves the world as it was. *)
Theorem description_all_or_nothing `{HashOrder} `{TimeFormats} `{AdvisoryOrder} (key : ContextKey)
    (name : string) (f : NaslFunction (NaslWorld DefaultDispatcher)) (r : Register)
    (w w' : NaslWorld DefaultDispatcher) (o : B NaslValue.t) :
  Description key !! name = Some f -> f r w = (o, w') ->
  match o with
  | Ok v => v = NaslValue.Null /\ exists fs, w' = with_fields key w fs
  | _ => w' = w
  end.
Proof.
  intros Hf%elem_of_list_to_map_2 E. 
  assert (exists t len required optional, f = storage_function key t len required optional) as (t & len & a & b & ->).
  { repeat (apply elem_of_cons in Hf as [[= -> ->]|Hf]; [by repeat eexists|]). by apply elem_of_nil in Hf. }
  pose proof (storage_function_eq key t len a b r w) as Hs. rewrite E in Hs. destruct o; naive_solver.
Qed.

(** ** Sample runs *)
#[refine] Instance plain_platform : Platform := {|
  pf_order := plain_order; pf_features := {| enforce_no_trailing_arguments := false |};
  pf_build := debug_build;
  pf_text := {| glob_matches := fun p _ s => inl (bool_decide (p = s)); upper_beyond := fun c => [c] |};
  pf_regex := {| Re := string; re_build := fun p _ _ => inl p;
    re_find_iter := fun p s => if bool_decide (p = s) then [s] else [];
    re_is_match := fun p s => bool_decide (p = s);
    re_replace_all := fun p s r => if bool_decide (p = s) then r else s |};
  pf_times := {| parse_format := fun _ _ => Some 0%Z |};
  pf_net := {| parse_ipv6 := fun _ => None; lookup_addr := fun _ => None; resolve := fun s => inl [s] |};
  pf_little_endian := true; pf_regex_new := fun _ => None
|}.
Proof. intros re s; simpl. by case_bool_decide. Defined.

#[refine] Instance insertion_order : AdvisoryOrder := {| adv_order := fun l => l |}.
Proof. all: done. Defined.

Local Open Scope string_scope.

(** The scope of a call with two numbers. *)
Definition sample_call : Register :=
  Register.create_root_child Register.new
    {[FC_ANON_ARGS := Value (NaslValue.Array [NaslValue.Number 3; NaslValue.Number 1])]}.

Lemma sample_call_wf : Register.wf sample_call.
Proof. apply Register.wf_create_root_child, Register.wf_new. Qed.

Lemma checks_pass_witness : check_args sample_call ["sep"] ["length"] (Some 1) = Ok tt.
Proof. apply (checks_pass sample_call ["sep"] ["length"] 1); [apply sample_call_wf|simpl; lia|lia|done]. Defined.

Lemma global_taken_as_argument_witness : exists r,
  Register.add_global Register.new "keep" (Value (NaslValue.Boolean false)) = Some r
  /\ get_optional_named_arg from_bool (Register.create_root_child r ∅) "keep" = Ok (Some false).
Proof.
  eexists. split; [reflexivity|].
  eapply (global_taken_as_argument from_bool _ ∅ "keep" _ (NaslValue.Boolean false) false);
    [|reflexivity..].
  eapply (Register.wf_update Register.new 0); [apply Register.wf_new|reflexivity].
Defined.

Lemma functions_typed_witness : exists v,
  sort_fn true sample_call = Ok v /\ typed v = true.
Proof.
  eexists. split; [vm_compute; reflexivity|].
  eapply (functions_typed (fun _ => false) sample_call "sort" (sort_fn pf_little_endian)).
  - intros x v. destruct (call_scope_hides_caller Register.new
      {[FC_ANON_ARGS := Value (NaslValue.Array [NaslValue.Number 3; NaslValue.Number 1])]} x
      Register.wf_new) as [E _].
    change (Register.named sample_call x = Ok (Some (Value v)) -> typed v = true).
    unfold sample_call. rewrite E. destruct (decide (x = FC_ANON_ARGS)) as [->|Hx].
    + rewrite lookup_singleton_eq. by intros [= <-].
    + rewrite lookup_singleton_ne by done. simpl. by rewrite lookup_empty.
  - apply list_elem_of_lookup. exists 24. reflexivity.
  - vm_compute. reflexivity.
Defined.

Definition sample_calls : list (NaslValue.t * NaslValue.t) :=
  [(NaslValue.String "a", NaslValue.Number 1); (NaslValue.String "b", NaslValue.Null);
   (NaslValue.String "a", NaslValue.Number 2); (NaslValue.String "a", NaslValue.Number 1)].

Lemma kb_items_returned_witness :
  let w := after_calls (KeyFileName "a.nasl") (Some 5%Z) sample_calls (mkWorld new_dispatcher [] 0) in
  get_kb_list (KeyFileName "a.nasl") (NaslValue.String "a") w
  = (Ok (NaslValue.Array [NaslValue.Number 1; NaslValue.Number 2]), w).
Proof.
  intros w.
  assert (foldl listed [] (values_named (NaslValue.to_string (NaslValue.String "a")) sample_calls)
    = [NaslValue.Number 1; NaslValue.Number 2]) as Hl by (vm_compute; reflexivity).
  pose proof (kb_items_returned (KeyFileName "a.nasl") (Some 5%Z) sample_calls (NaslValue.String "a")
    NaslValue.Null [] 0 ltac:(by repeat constructor) eq_refl) as [E _].
  rewrite Hl in E. exact E.
Defined.

Definition sample_xref : NaslFunction (NaslWorld DefaultDispatcher) :=
  storage_function (KeyFileName "a.nasl") as_xref_field None ["name"; "value"] [].
Definition sample_world : NaslWorld DefaultDispatcher := mkWorld new_dispatcher [] 0.

Lemma description_all_or_nothing_witness : (sample_xref sample_call sample_world).2 = sample_world.
Proof.
  pose proof (description_all_or_nothing (KeyFileName "a.nasl") "script_xref" sample_xref sample_call
    sample_world _ _ eq_refl (surjective_pairing _)) as E.
  assert (match (sample_xref sample_call sample_world).1 with Ok _ => False | _ => True end) as Hf
    by (vm_compute; constructor).
  destruct (sample_xref sample_call sample_world).1; [destruct Hf|exact E..].
Defined.

(** The global variable [keep] changes what [split] returns. *)
Example split_uses_global :
  let host := std_host (S := DefaultDispatcher) (fun k => inr (LoadError.NotFound k)) (KeyFileName "a.nasl") "h" (Some 5%Z)
    (mkOther ∅ [] [] []) in
  let last_of code :=
    match @run_script host 100 40 code Register.new (mkWorld new_dispatcher [] 0) with
    | Ok l => last l
    | _ => None
    end in
  last_of "split('a;b', sep: ';');" = Some (inl (NaslValue.Array [NaslValue.String "a;"; NaslValue.String "b"]))
  /\ last_of "keep = FALSE; split('a;b', sep: ';');"
     = Some (inl (NaslValue.Array [NaslValue.String "a"; NaslValue.String "b"])).
Proof. vm_compute. done. Qed.
