(* ===== verification/Models.v ===== *)
(** * Scans as they are requested

    [models]: targets with their ports and credentials ([target.rs], [port.rs],
    [credential.rs]), preferences, tests with parameters, and the scan
    ([scan.rs]). *)

From S2P Require Import Prelude RustStr Token Statement NaslValue Errors Nvt Storage.
Local Open Scope string_scope.

(** ** port.rs *)
Record PortRange := mkPortRange { pr_start : nat; pr_end : option nat }.
Record Port := mkPort { port_protocol : option Protocol; range : list PortRange }.

(** [Display for PortRange] *)
Definition port_range_string (r : PortRange) : string :=
  match pr_end r with
  | Some e => pretty (pr_start r) ++ "-" ++ pretty e
  | None => pretty (pr_start r)
  end.

(** [TryFrom<&str> for Protocol] *)
Definition protocol_try_from (s : string) : Protocol + string :=
  let l := string_of (map to_lowercase (chars_of s)) in
  if decide (l = "udp") then inl UDP
  else if decide (l = "tcp") then inl TCP
  else inr ("Invalid protocol: " ++ s).

(** [start..=end] *)
Definition inclusive (start stop : nat) : list nat := seq start (S stop - start).

Definition add_range_to_list (list_ : string) (start : nat) (stop : option nat) : string :=
  match stop with
  | Some e => foldl (fun l p => l ++ pretty p ++ ",") list_ (inclusive start e)
  | None => list_ ++ pretty start ++ ","
  end.

Definition add_ranges (list_ : string) (rs : list PortRange) : string :=
  foldl (fun l r => add_range_to_list l (pr_start r) (pr_end r)) list_ rs.

(** The two lists, TCP first, after one more entry. *)
Definition add_port (lists : string * string) (p : Port) : string * string :=
  match port_protocol p with
  | Some TCP => (add_ranges lists.1 (range p), lists.2)
  | Some UDP => (lists.1, add_ranges lists.2 (range p))
  | None => (add_ranges lists.1 (range p), add_ranges lists.2 (range p))
  end.

Definition ports_to_openvas_port_list (ports : list Port) : option string :=
  match ports with
  | [] => None
  | _ =>
      let '(tcp, udp) := foldl add_port ("T:", "U:") ports in
      Some
        (if negb (bool_decide (tcp = "T:")) && negb (bool_decide (udp = "U:")) then tcp ++ udp
         else if bool_decide (tcp = "T:") && negb (bool_decide (udp = "U:")) then udp
         else if negb (bool_decide (tcp = "T:")) && bool_decide (udp = "U:") then tcp
         else "")
  end.

(** ** credential.rs *)
Module Service.
Inductive t : Set := SSH | SMB | ESXi | SNMP.

Definition as_ref (s : t) : string :=
  match s with SSH => "ssh" | SMB => "smb" | ESXi => "esxi" | SNMP => "snmp" end.

Definition try_from (s : string) : t + string :=
  if decide (s = "ssh") then inl SSH
  else if decide (s = "smb") then inl SMB
  else if decide (s = "esxi") then inl ESXi
  else if decide (s = "snmp") then inl SNMP
  else inr s.
End Service.

Record PrivilegeInformation := mkPrivilege { priv_username : string; priv_password : string }.

Inductive CredentialType : Type :=
| UP (username password : string) (privilege : option PrivilegeInformation)
| USK (username password private_key : string) (privilege : option PrivilegeInformation)
| SNMP (username password community auth_algorithm privacy_password privacy_algorithm : string).

Record Credential := mkCredential {
  service : Service.t; cred_port : option Z; credential_type : CredentialType
}.

Definition password (c : Credential) : string :=
  match credential_type c with UP _ p _ | USK _ p _ _ | SNMP _ p _ _ _ _ => p end.

Definition default_credential : Credential := mkCredential Service.SSH None (UP "root" "" None).

(** [map_password]: the closure may fail, panic or change a state, which is the monad's
    business. *)
Section MapPassword.
Context {T : Type -> Type} `{MRet T} `{MBind T} (f : string -> T string).

Definition map_privilege (p : option PrivilegeInformation) : T (option PrivilegeInformation) :=
  match p with
  | Some p => w ← f (priv_password p); mret (Some (mkPrivilege (priv_username p) w))
  | None => mret None
  end.

Definition map_type_password (c : CredentialType) : T CredentialType :=
  match c with
  | UP u p pr => p ← f p; pr ← map_privilege pr; mret (UP u p pr)
  | USK u p k pr => p ← f p; k ← f k; pr ← map_privilege pr; mret (USK u p k pr)
  | SNMP u p c a pp pa => p ← f p; pp ← f pp; mret (SNMP u p c a pp pa)
  end.

Definition map_password (c : Credential) : T Credential :=
  t ← map_type_password (credential_type c); mret (mkCredential (service c) (cred_port c) t).
End MapPassword.

(** The texts [map_password] replaces, in its order. *)
Definition privilege_secrets (p : option PrivilegeInformation) : list string :=
  match p with Some p => [priv_password p] | None => [] end.
Definition secrets (c : Credential) : list string :=
  match credential_type c with
  | UP _ p pr => p :: privilege_secrets pr
  | USK _ p k pr => p :: k :: privilege_secrets pr
  | SNMP _ p _ _ pp _ => [p; pp]
  end.

(** ** target.rs *)
Module AliveTestMethods.
Inductive t : Set := TcpAck | Icmp | Arp | ConsiderAlive | TcpSyn.

Definition value (m : t) : Z :=
  match m with TcpAck => 1 | Icmp => 2 | Arp => 4 | ConsiderAlive => 8 | TcpSyn => 16 end.

Definition try_from (n : Z) : t + Z :=
  (if n =? 1 then inl TcpAck
   else if n =? 2 then inl Icmp
   else if n =? 4 then inl Arp
   else if n =? 8 then inl ConsiderAlive
   else if n =? 16 then inl TcpSyn
   else inr n)%Z.
End AliveTestMethods.

Record Target := mkTarget {
  target_hosts : list string;
  target_ports : list Port;
  excluded_hosts : list string;
  credentials : list Credential;
  alive_test_ports : list Port;
  alive_test_methods : list AliveTestMethods.t;
  reverse_lookup_unify : option bool;
  reverse_lookup_only : option bool
}.

Definition default_target : Target := mkTarget [] [] [] [] [] [] None None.

Definition set_credentials (t : Target) (cs : list Credential) : Target :=
  mkTarget (target_hosts t) (target_ports t) (excluded_hosts t) cs (alive_test_ports t)
    (alive_test_methods t) (reverse_lookup_unify t) (reverse_lookup_only t).

(** ** scan.rs, vt.rs, parameter.rs, scanner_preference.rs *)
Record Parameter_ := mkParameter { param_id : Z; param_value : string }.
Record VT := mkVT { vt_oid : string; parameters : list Parameter_ }.
Record ScanPreference := mkPreference { pref_id : string; pref_value : string }.

Record ScanModel := mkScanModel {
  scan_id : string;
  scan_target : Target;
  scan_preferences : list ScanPreference;
  scan_vts : list VT
}.

Definition hosts (s : ScanModel) : list string := target_hosts (scan_target s).

(** A scan of hosts with nothing else configured. *)
Definition mkScan (id : string) (hs : list string) (vts : list VT) : ScanModel :=
  mkScanModel id (mkTarget hs [] [] [] [] [] None None) [] vts.

(** ** Names and numbers *)
Lemma service_roundtrip s : Service.try_from (Service.as_ref s) = inl s.
Proof. by destruct s. Qed.
Lemma alive_roundtrip m : AliveTestMethods.try_from (AliveTestMethods.value m) = inl m.
Proof. by destruct m. Qed.

(** ** What [map_password] does to secrets

    [g] undoes [f] on the texts [ok] accepts and fails on the others: mapping back restores
    a credential of accepted secrets and fails on any other. *)
Section MapBack.
Context {S E E' : Type} (f : string -> M S E string) (g : string -> outcome E' string).
Context (ok : string -> bool) (e : E').
Hypothesis back : forall p s q s', f p s = (Ok q, s') -> g q = if ok p then Ok p else Err e.

Ltac step_back :=
  match goal with
  | |- context [f ?p ?s] =>
      let H := fresh "Hf" in
      destruct (f p s) as [[] ?] eqn:H; cbn; [apply back in H|by intros [=]..]
  end.
Ltac close_back :=
  intros [=]; subst; cbn;
  repeat match goal with H : g _ = _ |- _ => rewrite H; clear H end;
  repeat case_match; simplify_eq/=; done.

Lemma map_privilege_back p p' s s' : map_privilege f p s = (Ok p', s') ->
  map_privilege g p' = if forallb ok (privilege_secrets p) then Ok p else Err e.
Proof.
  destruct p as [[u w]|]; unfold map_privilege, mbind, M_bind; cbn; [step_back|]; close_back.
Qed.

Lemma map_password_back c c' s s' : map_password f c s = (Ok c', s') ->
  map_password g c' = if forallb ok (secrets c) then Ok c else Err e.
Proof.
  destruct c as [sv po [u p pr|u p k pr|u p co a pp pa]]; unfold map_password, map_type_password,
    mbind, M_bind; cbn; repeat step_back.
  - destruct (map_privilege f pr _) as [[] ?] eqn:Hp; cbn; [apply map_privilege_back in Hp|by intros [=]..].
    intros [=]; subst; cbn. rewrite Hf. destruct (ok p); cbn; [|done].
    rewrite Hp. by destruct (forallb ok (privilege_secrets pr)).
  - destruct (map_privilege f pr _) as [[] ?] eqn:Hp; cbn; [apply map_privilege_back in Hp|by intros [=]..].
    intros [=]; subst; cbn. rewrite Hf, Hf0. destruct (ok p), (ok k); cbn; try done.
    rewrite Hp. by destruct (forallb ok (privilege_secrets pr)).
  - close_back.
Qed.

Lemma map_passwords_back cs cs' s s' : mapM (map_password f) cs s = (Ok cs', s') ->
  mapM (map_password g) cs' = if forallb ok (cs ≫= secrets) then Ok cs else Err e.
Proof.
  revert cs' s. induction cs as [|c cs IH]; intros cs' s; cbn.
  { by intros [= <- <-]. }
  unfold mbind at 1, M_bind. destruct (map_password f c s) as [[c'| | |] s1] eqn:Ec; [|by intros [=]..].
  unfold mbind at 1, M_bind. destruct (mapM (map_password f) cs s1) as [[cs1| | |] s2] eqn:Ecs; [|by intros [=]..].
  intros [= <- <-]. cbn. rewrite (map_password_back _ _ _ _ Ec). apply IH in Ecs.
  rewrite forallb_app. destruct (forallb ok (secrets c)); cbn; [|done].
  rewrite Ecs. by destruct (forallb ok _).
Qed.
End MapBack.
