(* ===== verification/Scheduling.v ===== *)
(** * Scheduling scripts

    [scheduling/mod.rs] and [scheduling/wave.rs]: the stages of a scan, the collection of
    the requested tests with their dependencies from a retriever, and the plan that
    puts every script into a wave after the waves of its dependencies. *)

From S2P Require Import Prelude RustStr Token Statement NaslValue Errors Nvt Storage Models.
Local Open Scope nat_scope.

(** ** Stages *)
Inductive Stage : Set := Discovery | NonEvasive | Exhausting | End.

#[global] Instance Stage_eq_dec : EqDecision Stage.
Proof. solve_decision. Defined.

Definition stage_of (n : Nvt) : Stage :=
  match category n with
  | ACT.Init | ACT.Scanner | ACT.Settings | ACT.GatherInfo => Discovery
  | ACT.Attack | ACT.MixedAttack => NonEvasive
  | ACT.DestructiveAttack | ACT.Denial | ACT.KillHost | ACT.Flood => Exhausting
  | ACT.End => End
  end.

Definition stage_index (s : Stage) : nat :=
  match s with Discovery => 0 | NonEvasive => 1 | Exhausting => 2 | End => 3 end.

Module VTError.
Inductive t : Type :=
| DB (e : StorageError.t)
| MissingDependencies (n : Nvt) (missing : list string)
| InvalidStageIndex (i : nat)
| NotFound (e : LoadError.t).
End VTError.

Definition stage_try_from (i : nat) : Stage + VTError.t :=
  match i with
  | 0 => inl Discovery
  | 1 => inl NonEvasive
  | 2 => inl Exhausting
  | 3 => inl End
  | a => inr (VTError.InvalidStageIndex a)
  end.

(** A script with its parameters; [None] for one that was loaded as a dependency. *)
Abbreviation RuntimeVT := (Nvt * option (list Parameter_))%type.
Abbreviation ConcurrentVT := (Stage * list RuntimeVT)%type.

(** ** Execution plans *)
Class ExecutionPlan (E : Type) := {
  plan_default : E;
  append_vt : RuntimeVT -> gmap string Nvt -> M E VTError.t unit;
  plan_next : E -> option (list RuntimeVT + VTError.t) * E
}.

(** *** wave.rs *)
Record WaveExecutionPlan := mkWave {
  data : list (gmap string RuntimeVT);
  dependencies_added : bool
}.

Definition insert_into (d : list (gmap string RuntimeVT)) (index : nat) (key : string)
  (element : RuntimeVT) : list (gmap string RuntimeVT) :=
  if length d <=? index then d ++ [{[key := element]}]
  else alter (fun m => <[key := element]> m) index d.

Definition contains_key (m : gmap string RuntimeVT) (k : string) : bool :=
  match m !! k with Some _ => true | None => false end.

(** The first wave that has the key. *)
Fixpoint first_wave (d : list (gmap string RuntimeVT)) (k : string) : option nat :=
  match d with
  | [] => None
  | m :: d' => if contains_key m k then Some 0 else S <$> first_wave d' k
  end.

(** The loop of [find_index] over the dependencies. *)
Fixpoint find_loop (d : list (gmap string RuntimeVT)) (deps : list string) (result : option nat) :
  option nat :=
  match deps with
  | [] => result
  | n :: deps' =>
      match first_wave d n with
      | Some i =>
          find_loop d deps' (Some
            match result with
            | Some ci => if ci <? S i then S i else ci
            | None => S i
            end)
      | None => None
      end
  end.

Definition find_index (d : list (gmap string RuntimeVT)) (vt : Nvt) : option nat :=
  match dependencies vt with
  | [] => Some 0
  | deps => find_loop d deps None
  end.

(** One pass over dependencies: those whose place is known are inserted at once, the
    others are kept. *)
Fixpoint insert_ready (l : list Nvt) (d : list (gmap string RuntimeVT)) :
  list Nvt * list (gmap string RuntimeVT) :=
  match l with
  | [] => ([], d)
  | x :: l' =>
      match find_index d x with
      | Some i => insert_ready l' (insert_into d i (filename x) (x, None))
      | None => let '(rest, d') := insert_ready l' d in (x :: rest, d')
      end
  end.

(** The loop that repeats the pass until nothing is left or nothing changes. *)
Fixpoint settle (fuel : nat) (l : list Nvt) (d : list (gmap string RuntimeVT)) :
  outcome VTError.t (list (gmap string RuntimeVT)) :=
  match l with
  | [] => Ok d
  | _ =>
      match fuel with
      | 0 => OutOfFuel
      | S fuel' =>
          let '(l', d') := insert_ready l d in
          if decide (l = l') then Ok d' else settle fuel' l' d'
      end
  end.

Section Wave.
Context `{HashOrder}.

Definition add_dependencies (deps : gmap string Nvt) (d : list (gmap string RuntimeVT)) :
  outcome VTError.t (list (gmap string RuntimeVT)) :=
  let '(unprocessed, d') := insert_ready (iter deps).*2 d in
  settle (S (length unprocessed)) unprocessed d'.

Definition wave_append (vt : RuntimeVT) (deps : gmap string Nvt) :
  M WaveExecutionPlan VTError.t unit :=
  p ← get;
  (if dependencies_added p then mret tt
   else d ← of_outcome (add_dependencies deps (data p)); put (mkWave d true));;
  p ← get;
  match find_index (data p) vt.1 with
  | Some i => put (mkWave (insert_into (data p) i (filename vt.1) vt) (dependencies_added p))
  | None =>
      throw (VTError.MissingDependencies vt.1
        (List.filter (fun x => negb (existsb (fun y => contains_key y x) (data p)))
          (dependencies vt.1)))
  end.

Definition wave_next (p : WaveExecutionPlan) :
  option (list RuntimeVT + VTError.t) * WaveExecutionPlan :=
  match data p with
  | [] => (None, p)
  | m :: d => (Some (inl (iter m).*2), mkWave d (dependencies_added p))
  end.

#[global] Instance wave_plan : ExecutionPlan WaveExecutionPlan := {|
  plan_default := mkWave [] false;
  append_vt := wave_append;
  plan_next := wave_next
|}.
End Wave.

(** ** The iterator over all stages *)
Section Plan.
Context {E : Type} `{ExecutionPlan E}.

Record ExecutionPlanData := mkPlanData { plans : list E; idx : nat }.

(** [next]; the recursion ends with the last stage. *)
Fixpoint next_concurrent (fuel : nat) (p : ExecutionPlanData) :
  outcome Empty_set (option (ConcurrentVT + VTError.t)) * ExecutionPlanData :=
  match fuel with
  | 0 => (OutOfFuel, p)
  | S fuel' =>
      match stage_try_from (idx p) with
      | inr _ => (Ok None, p)
      | inl stage =>
          match plans p !! idx p with
          | None => (Panic, p)
          | Some e =>
              let '(r, e') := plan_next e in
              let p' := mkPlanData (<[idx p := e']> (plans p)) (idx p) in
              match r with
              | None => next_concurrent fuel' (mkPlanData (plans p') (S (idx p')))
              | Some (inl x) => (Ok (Some (inl (stage, x))), p')
              | Some (inr e) => (Ok (Some (inr e)), mkPlanData (plans p') (S (idx p')))
              end
          end
      end
  end.

(** Everything the iterator yields; [n] bounds the number of items. *)
Fixpoint collect_plan (n : nat) (p : ExecutionPlanData) :
  outcome Empty_set (list (ConcurrentVT + VTError.t)) :=
  match n with
  | 0 => OutOfFuel
  | S n' =>
      match next_concurrent 5 p with
      | (Ok None, _) => Ok []
      | (Ok (Some x), p') =>
          match collect_plan n' p' with
          | Ok xs => Ok (x :: xs)
          | o => o
          end
      | (Panic, _) => Panic
      | (_, _) => OutOfFuel
      end
  end.
End Plan.
Arguments ExecutionPlanData : clear implicits.

(** ** Planning a scan *)
Section Planner.
Context {S : Type} `{Retriever S} {E : Type} `{ExecutionPlan E}.

Definition by_filename (names : list string) : list Field :=
  map (fun x => NVT (FileName x)) names.

Definition retrieve_whole (s : S) (fs : list Field) : outcome VTError.t (list Nvt) :=
  match retrieve_by_fields s fs (GetNVT None) with
  | Ok l => Ok (whole_nvts l)
  | Err e => Err (VTError.DB e)
  | Panic => Panic
  | OutOfFuel => OutOfFuel
  end.

(** The tests found for a list of names: they become known, and their dependencies that
    are not known yet are looked for next. *)
Fixpoint visit (xs : list Nvt) (known : gmap string Nvt) : list string * gmap string Nvt :=
  match xs with
  | [] => ([], known)
  | x :: xs' =>
      let new_ := List.filter (fun d => negb (bool_decide (d ∈ dom known))) (dependencies x) in
      let '(rest, known') := visit xs' (<[filename x := x]> known) in
      (new_ ++ rest, known')
  end.

Fixpoint resolve_dependencies (fuel : nat) (s : S) (unknown : list string)
  (known : gmap string Nvt) : outcome VTError.t (gmap string Nvt) :=
  match unknown with
  | [] => Ok known
  | _ =>
      match fuel with
      | 0 => OutOfFuel
      | Datatypes.S fuel' =>
          match retrieve_whole s (by_filename unknown) with
          | Ok xs =>
              let '(unknown', known') := visit xs known in
              resolve_dependencies fuel' s unknown' known'
          | Err e => Err e
          | Panic => Panic
          | OutOfFuel => OutOfFuel
          end
      end
  end.

(** [results[usize::from(stage)].append_vt(..)?] for each requested test. *)
Fixpoint append_all (vts : list RuntimeVT) (known : gmap string Nvt) (plans : list E) :
  outcome VTError.t (list E) :=
  match vts with
  | [] => Ok plans
  | (x, p) :: vts' =>
      let i := stage_index (stage_of x) in
      match plans !! i with
      | None => Panic
      | Some e =>
          match append_vt (x, p) known e with
          | (Ok _, e') => append_all vts' known (<[i := e']> plans)
          | (Err err, _) => Err err
          | (Panic, _) => Panic
          | (OutOfFuel, _) => OutOfFuel
          end
      end
  end.

Definition execution_plan (fuel : nat) (s : S) (scan : ScanModel) :
  outcome VTError.t (ExecutionPlanData E) :=
  match retrieve_whole s (map (fun x => NVT (Oid (vt_oid x))) (scan_vts scan)) with
  | Ok xs =>
      let vts := imap (fun i x => (x, parameters <$> scan_vts scan !! i)) xs in
      match resolve_dependencies fuel s (xs ≫= dependencies) ∅ with
      | Ok known =>
          match append_all vts known [plan_default; plan_default; plan_default; plan_default] with
          | Ok plans => Ok (mkPlanData plans 0)
          | Err e => Err e
          | Panic => Panic
          | OutOfFuel => OutOfFuel
          end
      | Err e => Err e
      | Panic => Panic
      | OutOfFuel => OutOfFuel
      end
  | Err e => Err e
  | Panic => Panic
  | OutOfFuel => OutOfFuel
  end.
End Planner.
