(* ===== verification/SchedulingProps.v ===== *)
(** * What a plan guarantees

    The wave of a script is the length of the longest chain of dependencies below it: the
    plan of [wave.rs] implements this specification, for a library in which the name of a
    file determines the script.  The collection of dependencies of [scheduling/mod.rs] ends
    and collects exactly the scripts below the requested ones. *)

From S2P Require Import Prelude RustStr Token Statement NaslValue Errors Nvt Storage StorageProps Models Scheduling.
Local Open Scope nat_scope.

#[local] Abbreviation waves := (list (gmap string RuntimeVT)).

(** ** The specification: depth

    [within L n x]: every chain of dependencies below [x] in the library [L] ends after at
    most [n] steps, with all the scripts on it present. *)
Fixpoint within (L : gmap string Nvt) (n : nat) (x : Nvt) : bool :=
  match n with
  | 0 => bool_decide (dependencies x = [])
  | S n' => forallb (fun d => match L !! d with Some y => within L n' y | None => false end)
              (dependencies x)
  end.

Definition resolvable (L : gmap string Nvt) (x : Nvt) : Prop := exists n, within L n x = true.

(** The least bound. *)
Definition depth (L : gmap string Nvt) (x : Nvt) (n : nat) : Prop :=
  within L n x = true /\ forall m, within L m x = true -> n <= m.

Lemma within_S L n x :
  within L (S n) x = true
  <-> forall d, d ∈ dependencies x -> exists y, L !! d = Some y /\ within L n y = true.
Proof.
  simpl. rewrite forallb_forall. split; intros Hx d Hd.
  - specialize (Hx d). rewrite <- list_elem_of_In in Hx. specialize (Hx Hd).
    destruct (L !! d) as [y|]; [by exists y|done].
  - apply list_elem_of_In, Hx in Hd as (y & -> & Hy). done.
Qed.

Lemma within_mono L n m x : n <= m -> within L n x = true -> within L m x = true.
Proof.
  intros Hle. revert x. induction Hle as [|m Hle IH]; intros x Hx; [done|].
  apply IH in Hx. clear IH Hle. revert x Hx. induction m as [|m IH]; intros x Hx.
  - apply bool_decide_eq_true in Hx. simpl. by rewrite Hx.
  - rewrite within_S in Hx. rewrite within_S. intros d Hd.
    destruct (Hx d Hd) as (y & Hy & Hw). eauto.
Qed.

Lemma within_deps L n x d : within L n x = true -> d ∈ dependencies x ->
  exists y n', n = S n' /\ L !! d = Some y /\ within L n' y = true.
Proof.
  destruct n as [|n]; intros Hx Hd.
  - apply bool_decide_eq_true in Hx. rewrite Hx in Hd. by apply elem_of_nil in Hd.
  - rewrite within_S in Hx. destruct (Hx d Hd) as (y & ? & ?). eauto.
Qed.

Lemma depth_unique L x n m : depth L x n -> depth L x m -> n = m.
Proof. intros [Hn Hn'] [Hm Hm']. apply Hn' in Hm. apply Hm' in Hn. lia. Qed.

Lemma resolvable_depth L x : resolvable L x -> exists n, depth L x n.
Proof.
  intros [n Hn]. induction n as [|n IH]; [exists 0; split; [done|lia]|].
  destruct (within L n x) eqn:E; [by apply IH|]. exists (S n). split; [done|].
  intros m Hm. destruct (decide (m <= n)); [|lia].
  apply (within_mono L m n) in Hm; [congruence|done].
Qed.

Lemma depth_resolvable L x n : depth L x n -> resolvable L x.
Proof. intros [Hn _]. by exists n. Qed.

(** What is below a script decides its depth: a larger library does not change it. *)
Lemma within_weaken L L' n x : L ⊆ L' -> within L n x = true -> within L' n x = true.
Proof.
  intros HL. revert x. induction n as [|n IH]; intros x Hx; [done|].
  rewrite within_S in *. intros d Hd. destruct (Hx d Hd) as (y & Hy & Hw).
  exists y. split; [by eapply lookup_weaken|auto].
Qed.

(** ** Names in waves *)
Definition has (d : waves) (k : string) : Prop := exists i m, d !! i = Some m /\ is_Some (m !! k).

Lemma contains_key_spec (m : gmap string RuntimeVT) k : contains_key m k = true <-> is_Some (m !! k).
Proof. unfold contains_key. destruct (m !! k); split; (done || by intros []). Qed.

Lemma first_wave_some d k i : first_wave d k = Some i ->
  exists m, d !! i = Some m /\ is_Some (m !! k).
Proof.
  revert i. induction d as [|m d IH]; simpl; [done|]. intros i.
  destruct (contains_key m k) eqn:E.
  - intros [= <-]. apply contains_key_spec in E. by exists m.
  - destruct (first_wave d k) as [j|]; [|done]. intros [= <-]. by apply IH.
Qed.

Lemma first_wave_none d k : first_wave d k = None <-> ~ has d k.
Proof.
  induction d as [|m d IH]; simpl.
  { split; [|done]. intros _ (i & m & E & _). by rewrite lookup_nil in E. }
  destruct (contains_key m k) eqn:E.
  - split; [done|]. intros []. exists 0, m. by rewrite <- contains_key_spec.
  - rewrite fmap_None, IH. split; intros Hn (i & m' & Hi & Hk); apply Hn.
    + destruct i as [|i]; simplify_eq/=; [|by exists i, m'].
      apply contains_key_spec in Hk. congruence.
    + by exists (S i), m'.
Qed.

Lemma has_first_wave d k : has d k <-> exists i, first_wave d k = Some i.
Proof.
  split.
  - intros Hk. destruct (first_wave d k) eqn:E; [eauto|]. by apply first_wave_none in E.
  - intros [i (m & ? & ?)%first_wave_some]. by exists i, m.
Qed.

Lemma existsb_has d k : existsb (fun y => contains_key y k) d = true <-> has d k.
Proof.
  rewrite existsb_exists. split.
  - intros (m & [i Hi]%list_elem_of_In%list_elem_of_lookup & Hk%contains_key_spec).
    by exists i, m.
  - intros (i & m & Hi & Hk%contains_key_spec). exists m. split; [|done].
    apply list_elem_of_In, list_elem_of_lookup. eauto.
Qed.

(** ** Inserting *)
Lemma insert_into_lookup d i k v j m : insert_into d i k v !! j = Some m ->
  (d !! j = Some m)
  \/ (j = i `min` length d /\ exists m0, m = <[k := v]> m0 /\ (m0 = ∅ \/ d !! j = Some m0)).
Proof.
  unfold insert_into. destruct (Nat.leb_spec (length d) i).
  - rewrite lookup_app_Some, list_lookup_singleton_Some. intros [?|(? & ? & <-)]; [by left|].
    right. split; [lia|]. exists ∅. auto.
  - destruct (decide (j = i)) as [->|].
    + rewrite list_lookup_alter_eq. destruct (d !! i) as [m0|] eqn:E; [|done]. intros [= <-].
      right. split; [lia|]. exists m0. auto.
    + rewrite list_lookup_alter_ne by done. by left.
Qed.

Lemma insert_into_at d i k v :
  exists m, insert_into d i k v !! (i `min` length d) = Some m /\ m !! k = Some v.
Proof.
  unfold insert_into. destruct (Nat.leb_spec (length d) i).
  - replace (i `min` length d) with (length d) by lia. exists {[k := v]}.
    rewrite lookup_app_r, Nat.sub_diag, lookup_singleton_eq by done. done.
  - replace (i `min` length d) with i by lia. destruct (lookup_lt_is_Some_2 d i) as [m0 E]; [done|].
    rewrite list_lookup_alter_eq, E. eexists. split; [done|]. apply lookup_insert_eq.
Qed.

(** Nothing is removed, and only the key is replaced. *)
Lemma insert_into_old d i k v j m : d !! j = Some m ->
  exists m', insert_into d i k v !! j = Some m' /\ (m' = m \/ m' = <[k := v]> m).
Proof.
  intros E. pose proof (lookup_lt_Some _ _ _ E). unfold insert_into.
  destruct (Nat.leb_spec (length d) i).
  - rewrite lookup_app_l by done. eauto.
  - destruct (decide (j = i)) as [->|].
    + rewrite list_lookup_alter_eq, E. eauto.
    + rewrite list_lookup_alter_ne by done. eauto.
Qed.

Lemma has_insert_into d i k v k' : has (insert_into d i k v) k' <-> has d k' \/ k' = k.
Proof.
  split.
  - intros (j & m & [Hj| (Hj & m0 & Em & Hm)]%insert_into_lookup & Hk); [left; by exists j, m|]. subst.
    destruct (decide (k' = k)) as [->|]; [by right|left].
    rewrite lookup_insert_ne in Hk by done.
    destruct Hm as [->|Hm]; [by destruct Hk|by eexists _, m0].
  - intros [(j & m & Hj & Hk)| ->].
    + destruct (insert_into_old d i k v j m Hj) as (m' & Hj' & Hm). exists j, m'.
      split; [done|]. destruct Hm as [->| ->]; [done|]. apply lookup_insert_is_Some'. by right.
    + destruct (insert_into_at d i k v) as (m & Hm & Hk). eexists _, m. by rewrite Hk.
Qed.

(** ** The place of a script *)
Lemma find_loop_some d deps r i : find_loop d deps r = Some i ->
  (forall c, r = Some c -> c <= i)
  /\ (forall k, k ∈ deps -> exists j, first_wave d k = Some j /\ S j <= i)
  /\ (r = Some i \/ exists k j, k ∈ deps /\ first_wave d k = Some j /\ i = S j).
Proof.
  revert r. induction deps as [|k deps IH]; intros r; simpl.
  { intros ->. split_and!; [by intros c [= ->]|intros k Hk; by apply elem_of_nil in Hk|by left]. }
  destruct (first_wave d k) as [j|] eqn:Ej; [|done]. intros (Hle & Hdeps & Hmax)%IH.
  assert (S j <= i /\ forall c, r = Some c -> c <= i) as [Hj Hr].
  { destruct r as [c|].
    - specialize (Hle _ eq_refl). destruct (Nat.ltb_spec c (S j)); split; try lia; intros ? [= <-]; lia.
    - specialize (Hle _ eq_refl). split; [lia|done]. }
  split_and!; [done|..].
  - intros k' [->|Hk']%elem_of_cons; [by exists j|by apply Hdeps].
  - destruct Hmax as [Hmax|(k' & j' & Hk' & ? & ?)].
    + destruct r as [c|]; [destruct (Nat.ltb_spec c (S j))|]; simplify_eq/=;
        first [by left | right; exists k, j; split; [left|done]].
    + right. exists k', j'. split; [by right|done].
Qed.

Lemma find_loop_none d deps r : find_loop d deps r = None ->
  (r = None /\ deps = []) \/ exists k, k ∈ deps /\ ~ has d k.
Proof.
  revert r. induction deps as [|k deps IH]; intros r; simpl; [by left|].
  destruct (first_wave d k) as [j|] eqn:Ej.
  - intros [[? ?]|(k' & ? & ?)]%IH; [by destruct r|]. right. exists k'. split; [by right|done].
  - intros _. right. exists k. split; [left|]. by apply first_wave_none.
Qed.

(** A script has a place exactly when its dependencies do, after all of them and right
    after the last one. *)
Lemma find_index_some d x i : find_index d x = Some i ->
  (forall k, k ∈ dependencies x -> exists j, first_wave d k = Some j /\ j < i)
  /\ (dependencies x = [] /\ i = 0
      \/ exists k j, k ∈ dependencies x /\ first_wave d k = Some j /\ i = S j).
Proof.
  unfold find_index. destruct (dependencies x) as [|k deps] eqn:E.
  { intros [= <-]. split; [intros k Hk; by apply elem_of_nil in Hk|by left]. }
  intros (_ & Hall & [|Hmax])%find_loop_some; [done|]. split; [|by right].
  intros k' Hk'. apply Hall in Hk' as (j & ? & ?). exists j. split; [done|lia].
Qed.

Lemma find_index_none d x : find_index d x = None <-> exists k, k ∈ dependencies x /\ ~ has d k.
Proof.
  split.
  - unfold find_index. destruct (dependencies x) as [|k deps] eqn:E; [done|].
    intros [[_ ?]|?]%find_loop_none; done.
  - intros (k & Hk & Hn). destruct (find_index d x) as [i|] eqn:E; [|done].
    apply find_index_some in E as [Hall _]. apply Hall in Hk as (j & Hj & _).
    destruct Hn. apply has_first_wave. eauto.
Qed.

Lemma find_index_bound d x i : find_index d x = Some i -> i <= length d.
Proof.
  intros [_ [[_ ->]|(k & j & _ & (m & Hm & _)%first_wave_some & ->)]]%find_index_some; [lia|].
  apply lookup_lt_Some in Hm. lia.
Qed.

(** ** Plans in order

    [ordered d]: every dependency of a script of a wave is the key of an earlier wave. *)
Definition ordered (d : waves) : Prop :=
  forall i m k v, d !! i = Some m -> m !! k = Some v ->
  forall k', k' ∈ dependencies v.1 -> exists j m', j < i /\ d !! j = Some m' /\ is_Some (m' !! k').

Lemma ordered_insert d x p i : ordered d -> find_index d x = Some i ->
  ordered (insert_into d i (filename x) (x, p)).
Proof.
  intros Hd Hi. pose proof (find_index_bound _ _ _ Hi) as Hlen.
  assert (forall k' j m', d !! j = Some m' -> is_Some (m' !! k') ->
    exists m'', insert_into d i (filename x) (x, p) !! j = Some m'' /\ is_Some (m'' !! k')) as Hmono.
  { intros k' j m' Hj Hk'. destruct (insert_into_old d i (filename x) (x, p) j m' Hj)
      as (m'' & Hj' & [->| ->]); eexists; (split; [done|]); [done|].
    apply lookup_insert_is_Some'. by right. }
  intros j m k v Hj Hk k' Hk'.
  assert (exists j' m', j' < j /\ d !! j' = Some m' /\ is_Some (m' !! k')) as (j' & m' & Hj' & Hm & Hin).
  { apply insert_into_lookup in Hj as [Hj|(Hj & m0 & -> & Hm0)]; [by eapply Hd|].
    replace (i `min` length d) with i in Hj by lia. subst j.
    destruct (decide (k = filename x)) as [->|Hne].
    - rewrite lookup_insert_eq in Hk. injection Hk as <-. simpl in Hk'.
      apply find_index_some in Hi as [Hall _]. apply Hall in Hk' as (j & (m & ? & ?)%first_wave_some & ?).
      by exists j, m.
    - rewrite lookup_insert_ne in Hk by done. destruct Hm0 as [->|Hm0]; [done|by eapply Hd]. }
  destruct (Hmono _ _ _ Hm Hin) as (m'' & ? & ?). by exists j', m''.
Qed.

(** ** Adding dependencies *)

(** What insertions at the found place preserve, the whole addition preserves. *)
Section Preserves.
Context (P : waves -> Prop) (Q : Nvt -> Prop).
Hypothesis P_insert : forall d x i, P d -> Q x -> find_index d x = Some i ->
  P (insert_into d i (filename x) (x, None)).

Lemma insert_ready_preserves l d : Forall Q l -> P d ->
  P (insert_ready l d).2 /\ Forall Q (insert_ready l d).1.
Proof.
  intros Hl. revert d. induction Hl as [|x l Hx Hl IH]; intros d Hd; simpl; [done|].
  destruct (find_index d x) as [i|] eqn:E; [by apply IH, P_insert|].
  specialize (IH d Hd). destruct (insert_ready l d) as [rest d']. simpl in *.
  destruct IH. split; [done|by constructor].
Qed.

Lemma settle_preserves fuel l d d' : Forall Q l -> P d -> settle fuel l d = Ok d' -> P d'.
Proof.
  revert l d. induction fuel as [|fuel IH]; intros [|x l] d Hl Hd; simpl;
    [by intros [= <-]|done|by intros [= <-]|].
  pose proof (insert_ready_preserves (x :: l) d Hl Hd) as [Hd' Hl']. simpl in *.
  destruct (match find_index d x with Some _ => _ | None => _ end) as [l' d'']. simpl in *.
  destruct (decide _); [by intros [= <-]|by apply IH].
Qed.
End Preserves.

(** A pass keeps some of the scripts in their order, inserts the others, and changes
    nothing when it keeps all. *)
Lemma insert_ready_spec l d l' d' : insert_ready l d = (l', d') ->
  l' `sublist_of` l
  /\ (forall k, has d k -> has d' k)
  /\ (forall k, has d' k -> has d k \/ k ∈ filename <$> l)
  /\ (forall x, x ∈ l -> x ∈ l' \/ has d' (filename x))
  /\ (l' = l -> d' = d /\ Forall (fun x => find_index d x = None) l).
Proof.
  revert d l' d'. induction l as [|x l IH]; intros d l' d'; csimpl.
  { intros [= <- <-]. split_and!; auto. }
  destruct (find_index d x) as [i|] eqn:E.
  - intros (Hsub & Hmono & Hnew & Hin & _)%IH. split_and!.
    + by constructor.
    + intros k Hk. apply Hmono, has_insert_into. by left.
    + intros k [[Hk| ->]%has_insert_into|Hk]%Hnew; [by left|right; left|right; by right].
    + intros y [->|Hy]%elem_of_cons; [right|by apply Hin].
      apply Hmono, has_insert_into. by right.
    + intros ->. apply sublist_length in Hsub. simpl in Hsub. lia.
  - destruct (insert_ready l d) as [rest d''] eqn:Er. intros [= <- <-].
    apply IH in Er as (Hsub & Hmono & Hnew & Hin & Hsame). split_and!.
    + by constructor.
    + done.
    + intros k [?|?]%Hnew; [by left|right; by right].
    + intros y [->|[?|?]%Hin]%elem_of_cons; [left; left|left; by right|by right].
    + intros [= ->]. destruct Hsame as [-> ?]; [done|]. split; [done|by constructor].
Qed.

Lemma sublist_full {A} (l l' : list A) : l `sublist_of` l' -> length l' <= length l -> l = l'.
Proof.
  induction 1 as [|x l l' Hs IH|x l l' Hs IH]; simpl; intros Hlen; [done|f_equal; apply IH; lia|].
  apply sublist_length in Hs. lia.
Qed.

(** The loop ends: every pass but the last one shortens the list.  At the end a script is
    in the plan, or one of its dependencies is not. *)
Lemma settle_spec fuel l d : length l <= fuel ->
  exists d', settle fuel l d = Ok d'
  /\ (forall k, has d k -> has d' k)
  /\ (forall k, has d' k -> has d k \/ k ∈ filename <$> l)
  /\ (forall x, x ∈ l -> has d' (filename x) \/ find_index d' x = None).
Proof.
  revert l d. induction fuel as [|fuel IH]; intros [|x l] d Hf.
  - exists d. split_and!; auto. intros x Hx. by apply elem_of_nil in Hx.
  - simpl in Hf. lia.
  - exists d. split_and!; auto. intros x' Hx. by apply elem_of_nil in Hx.
  - cbn [settle]. destruct (insert_ready (x :: l) d) as [l' d'] eqn:E.
    apply insert_ready_spec in E as (Hsub & Hmono & Hnew & Hin & Hsame).
    destruct (decide (x :: l = l')) as [<-|Hne].
    + destruct Hsame as [-> Hnone]; [done|]. exists d. split_and!; auto.
      intros y Hy. right. by rewrite Forall_forall in Hnone; apply Hnone.
    + assert (length l' < length (x :: l)) as Hlt.
      { pose proof (sublist_length _ _ Hsub). destruct (decide (length l' = length (x :: l))); [|lia].
        destruct Hne. symmetry. apply sublist_full; [done|lia]. }
      destruct (IH l' d') as (d'' & Hd'' & Hm & Hn & Hres); [simpl in Hlt, Hf; lia|].
      exists d''. split_and!; [done|auto|..].
      * intros k [Hk|(y & -> & Hy)%list_elem_of_fmap]%Hn; [by apply Hnew|right].
        apply list_elem_of_fmap_2. by eapply elem_of_sublist.
      * intros y [Hy|Hy]%Hin; [by apply Hres|left; by apply Hm].
Qed.

Lemma sublist_fmap_elem {A B} (f : A -> B) (l l' : list A) y :
  l `sublist_of` l' -> y ∈ f <$> l -> y ∈ f <$> l'.
Proof.
  intros Hs (x & -> & Hx)%list_elem_of_fmap. apply list_elem_of_fmap_2. by eapply elem_of_sublist.
Qed.

Lemma elem_of_values `{HashOrder} {V} (m : gmap string V) v :
  v ∈ (iter m).*2 <-> exists k, m !! k = Some v.
Proof.
  rewrite NaslValue.iter_perm, list_elem_of_fmap. split.
  - intros ([k v'] & -> & Hk%elem_of_map_to_list). eauto.
  - intros [k Hk]. exists (k, v). by rewrite elem_of_map_to_list.
Qed.

Section Adding.
Context `{HashOrder}.

Lemma add_dependencies_spec deps d : exists d', add_dependencies deps d = Ok d'
  /\ (forall k, has d k -> has d' k)
  /\ (forall k, has d' k -> has d k \/ exists k' x, deps !! k' = Some x /\ filename x = k)
  /\ (forall k x, deps !! k = Some x -> has d' (filename x) \/ find_index d' x = None).
Proof.
  unfold add_dependencies. destruct (insert_ready _ d) as [l d1] eqn:E.
  apply insert_ready_spec in E as (Hsub & Hmono & Hnew & Hin & _).
  destruct (settle_spec (S (length l)) l d1) as (d' & -> & Hm & Hn & Hres); [lia|].
  assert (forall k, k ∈ filename <$> (iter deps).*2 ->
    exists k' x, deps !! k' = Some x /\ filename x = k) as Hval.
  { intros k (x & -> & (k' & Hk')%elem_of_values)%list_elem_of_fmap. eauto. }
  exists d'. split_and!; [done|auto|..].
  - intros k [[?|?]%Hnew|?]%Hn; [by left|right; auto..].
    eapply Hval, sublist_fmap_elem; done.
  - intros k x Hk. destruct (Hin x) as [?|?]; [|by apply Hres|left; by apply Hm].
    apply elem_of_values. eauto.
Qed.

Lemma add_dependencies_preserves (P : waves -> Prop) (Q : Nvt -> Prop) deps d d' :
  (forall d x i, P d -> Q x -> find_index d x = Some i ->
    P (insert_into d i (filename x) (x, None))) ->
  (forall k x, deps !! k = Some x -> Q x) -> P d -> add_dependencies deps d = Ok d' -> P d'.
Proof.
  intros HP HQ Hd. unfold add_dependencies.
  assert (Forall Q (iter deps).*2) as Hl.
  { apply Forall_forall. intros x [k Hk]%elem_of_values. eauto. }
  destruct (insert_ready_preserves P Q HP _ d Hl Hd) as [Hd' Hl'].
  destruct (insert_ready _ d) as [l d1]. by apply (settle_preserves P Q HP).
Qed.

(** A script whose chains of dependencies end gets a place. *)
Lemma add_dependencies_resolves deps d d' n k x :
  (forall k x, deps !! k = Some x -> filename x = k) -> add_dependencies deps d = Ok d' ->
  deps !! k = Some x -> within deps n x = true -> has d' k.
Proof.
  intros Hkey Hd. destruct (add_dependencies_spec deps d) as (d'' & Hd' & _ & _ & Hall).
  rewrite Hd in Hd'. injection Hd' as <-. revert k x. induction n as [n IH] using lt_wf_ind.
  intros k x Hk Hx. destruct (Hall k x Hk) as [Hin|(k' & Hk' & Hno)%find_index_none].
  - by rewrite (Hkey k x) in Hin.
  - destruct (within_deps _ _ _ _ Hx Hk') as (y & n' & -> & Hy & Hw).
    destruct Hno. apply (IH n' ltac:(lia) _ y); done.
Qed.

(** *** Appending *)
Definition missing_of (d : waves) (x : Nvt) : list string :=
  List.filter (fun k => negb (existsb (fun y => contains_key y k) d)) (dependencies x).

Lemma elem_of_missing d x k : k ∈ missing_of d x <-> k ∈ dependencies x /\ ~ has d k.
Proof.
  unfold missing_of. rewrite list_elem_of_In, filter_In, <- list_elem_of_In, negb_true_iff.
  rewrite <- not_true_iff_false, existsb_has. done.
Qed.

Lemma wave_append_run vt deps p : exists d,
  (if dependencies_added p then d = data p else add_dependencies deps (data p) = Ok d)
  /\ wave_append vt deps p
    = match find_index d vt.1 with
      | Some i => (Ok tt, mkWave (insert_into d i (filename vt.1) vt) true)
      | None => (Err (VTError.MissingDependencies vt.1 (missing_of d vt.1)), mkWave d true)
      end.
Proof.
  unfold wave_append, mbind, M_bind, get, of_outcome, put, mret, M_ret. simpl.
  destruct p as [d added]. simpl. destruct added; simpl.
  - exists d. split; [done|]. by destruct (find_index d vt.1).
  - destruct (add_dependencies_spec deps d) as (d' & E & _). rewrite E. exists d'.
    split; [done|]. simpl. by destruct (find_index d' vt.1).
Qed.

(** A plan is always in order, whatever is appended to it and whether or not appending
    succeeds: the dependencies of every script of a wave are in earlier waves.  Appending
    never panics and its loop always ends. *)
Theorem append_keeps_order (vt : RuntimeVT) (deps : gmap string Nvt) (p : WaveExecutionPlan) :
  ordered (data p) ->
  match wave_append vt deps p with
  | (Ok _, p') => ordered (data p') /\ has (data p') (filename vt.1)
  | (Err (VTError.MissingDependencies x missing), p') =>
      ordered (data p') /\ x = vt.1 /\ missing <> []
      /\ forall k, k ∈ missing <-> k ∈ dependencies vt.1 /\ ~ has (data p') k
  | _ => False
  end.
Proof.
  intros Hp. destruct (wave_append_run vt deps p) as (d & Hd & ->).
  assert (ordered d) as Hord.
  { destruct (dependencies_added p); [by subst|].
    apply (add_dependencies_preserves ordered (fun _ => True) deps (data p)); auto.
    intros d0 x i ? _ ?. by apply ordered_insert. }
  destruct (find_index d vt.1) as [i|] eqn:E; simpl.
  - destruct vt as [x pp]. split; [by apply ordered_insert|]. apply has_insert_into. by right.
  - apply find_index_none in E as (k & Hk & Hn). split_and!; try done.
    + intros E. assert (k ∈ missing_of d vt.1) as Hin by (by apply elem_of_missing).
      rewrite E in Hin. by apply elem_of_nil in Hin.
    + intros k'. apply elem_of_missing.
Qed.
End Adding.
