(* ===== verification/PlanProps.v ===== *)
(** * The plan of a scan

    The waves of a stage against the specification by depth, the collection of
    dependencies, and the theorem on a whole plan: what it contains, in which order it is
    handed out, and when there is none. *)

From S2P Require Import Prelude RustStr Token Statement NaslValue Errors Nvt Storage StorageProps Models Scheduling SchedulingProps.
Local Open Scope nat_scope.

#[local] Abbreviation waves := (list (gmap string RuntimeVT)).

(** ** Waves by depth *)
Section Placed.
Context `{HashOrder} (L : gmap string Nvt).

(** Every script is one of the library, under its name, in the wave of its depth. *)
Definition placed (d : waves) : Prop :=
  forall i m k v, d !! i = Some m -> m !! k = Some v ->
  filename v.1 = k /\ L !! k = Some v.1 /\ depth L v.1 i.

Lemma placed_first d k j : placed d -> first_wave d k = Some j ->
  exists y, L !! k = Some y /\ depth L y j.
Proof.
  intros Hd (m & Hm & [v Hv])%first_wave_some. destruct (Hd _ _ _ _ Hm Hv) as (_ & ? & ?). eauto.
Qed.

Lemma placed_index d x i : placed d -> find_index d x = Some i -> depth L x i.
Proof.
  intros Hd [Hall Hmax]%find_index_some. split.
  - destruct i as [|i].
    + destruct Hmax as [[Hx _]|(k & j & _ & _ & [=])]. simpl. by rewrite bool_decide_eq_true.
    + apply within_S. intros k Hk. destruct (Hall k Hk) as (j & Hj & Hlt).
      destruct (placed_first d k j Hd Hj) as (y & Hy & [Hw _]). exists y. split; [done|].
      by apply (within_mono L j); [lia|].
  - intros n Hn. destruct Hmax as [[_ ->]|(k & j & Hk & Hj & ->)]; [lia|].
    destruct (within_deps _ _ _ _ Hn Hk) as (y & n' & -> & Hy & Hw).
    destruct (placed_first d k j Hd Hj) as (y' & Hy' & [_ Hmin]). simplify_eq.
    apply Hmin in Hw. lia.
Qed.

Lemma placed_insert d x p i : placed d -> L !! filename x = Some x -> find_index d x = Some i ->
  placed (insert_into d i (filename x) (x, p)).
Proof.
  intros Hd Hx Hi. pose proof (placed_index d x i Hd Hi) as Hdepth.
  pose proof (find_index_bound d x i Hi) as Hlen.
  intros j m k v [Hj|(Hj & m0 & -> & Hm0)]%insert_into_lookup Hk; [by eapply Hd|].
  replace (i `min` length d) with i in Hj by lia. subst j.
  apply lookup_insert_Some in Hk as [[<- <-]|[_ Hk]]; [done|].
  destruct Hm0 as [->|Hm0]; [done|by eapply Hd].
Qed.

(** ** The state of the plan of a stage

    [R] are the scripts appended so far; [deps] the collected dependencies. *)
Record wave_inv (deps : gmap string Nvt) (R : list RuntimeVT) (p : WaveExecutionPlan) : Prop := {
  wi_placed : placed (data p);
  wi_ordered : ordered (data p);
  wi_nonempty i m : data p !! i = Some m -> m <> ∅;
  wi_from i m k v : data p !! i = Some m -> m !! k = Some v ->
    v ∈ R \/ (v.2 = None /\ deps !! k = Some v.1);
  wi_appended v : v ∈ R -> exists i m, data p !! i = Some m /\ m !! filename v.1 = Some v;
  wi_added : if dependencies_added p
    then forall k x, deps !! k = Some x -> resolvable deps x -> has (data p) k
    else data p = [] /\ R = []
}.

Lemma wave_inv_default deps : wave_inv deps [] (mkWave [] false).
Proof.
  split; simpl; [by intros i m k v Hi|by intros i m k v Hi|by intros i m Hi|by intros i m k v Hi| |done].
  intros v Hv. by apply elem_of_nil in Hv.
Qed.

Lemma wave_inv_insert deps R d x p i : wave_inv deps R (mkWave d true) ->
  L !! filename x = Some x -> (forall v, v ∈ R -> filename v.1 <> filename x) ->
  find_index d x = Some i ->
  wave_inv deps (R ++ [(x, p)]) (mkWave (insert_into d i (filename x) (x, p)) true).
Proof.
  intros [Hp Ho He Hf Ha Hadd] Hx Hne Hi. simpl in *.
  split; simpl.
  - by apply placed_insert.
  - by apply ordered_insert.
  - intros j m [Hj|(_ & m0 & -> & _)]%insert_into_lookup; [by eapply He|apply insert_non_empty].
  - intros j m k v [Hj|(Hj & m0 & -> & Hm0)]%insert_into_lookup Hk.
    + destruct (Hf _ _ _ _ Hj Hk); [left; set_solver|by right].
    + apply lookup_insert_Some in Hk as [[<- <-]|[_ Hk]]; [left; set_solver|].
      destruct Hm0 as [->|Hm0]; [done|]. destruct (Hf _ _ _ _ Hm0 Hk); [left; set_solver|by right].
  - intros v [Hv|Hv%list_elem_of_singleton]%elem_of_app.
    + destruct (Ha v Hv) as (j & m & Hj & Hm).
      destruct (insert_into_old d i (filename x) (x, p) j m Hj) as (m' & Hj' & [->| ->]);
        exists j; eexists; (split; [done|]); [done|].
      rewrite lookup_insert_ne; [done|]. intros E. by apply (Hne v Hv).
    + subst v. destruct (insert_into_at d i (filename x) (x, p)) as (m & ? & ?). eauto.
  - intros k y Hk Hy. apply has_insert_into. left. eauto.
Qed.

Lemma wave_inv_dependencies deps d :
  (forall k x, deps !! k = Some x -> filename x = k /\ L !! k = Some x) ->
  add_dependencies deps [] = Ok d -> wave_inv deps [] (mkWave d true).
Proof.
  intros Hdeps Hd.
  assert (placed d /\ ordered d /\ (forall i m, d !! i = Some m -> m <> ∅)
    /\ (forall i m k v, d !! i = Some m -> m !! k = Some v -> v.2 = None /\ deps !! k = Some v.1))
    as (Hp & Ho & He & Hf).
  { apply (add_dependencies_preserves (fun d => placed d /\ ordered d
      /\ (forall i m, d !! i = Some m -> m <> ∅)
      /\ (forall i m k v, d !! i = Some m -> m !! k = Some v -> v.2 = None /\ deps !! k = Some v.1))
      (fun x => deps !! filename x = Some x) deps []).
    - clear d Hd. intros d x i (Hp & Ho & He & Hf) Hx Hi. split_and!.
      + apply placed_insert; [done| |done]. by apply Hdeps.
      + by apply ordered_insert.
      + intros j m [Hj|(_ & m0 & -> & _)]%insert_into_lookup; [by eapply He|apply insert_non_empty].
      + intros j m k v [Hj|(Hj & m0 & -> & Hm0)]%insert_into_lookup Hk; [by eapply Hf|].
        apply lookup_insert_Some in Hk as [[<- <-]|[_ Hk]]; [done|].
        destruct Hm0 as [->|Hm0]; [done|by eapply Hf].
    - intros k x Hk. destruct (Hdeps k x Hk) as [-> _]. done.
    - split_and!; [by intros i m k v Hi|by intros i m k v Hi|by intros i m Hi|by intros i m k v Hi].
    - done. }
  split; simpl; [done|done|done|..].
  - intros i m k v Hi Hk. right. by eapply Hf.
  - intros v Hv. by apply elem_of_nil in Hv.
  - intros k x Hk [n Hn]. eapply add_dependencies_resolves; [|done..]. naive_solver.
Qed.

(** *** Appending a script of the library *)
Context (deps : gmap string Nvt).
Hypothesis deps_library : forall k x, deps !! k = Some x -> filename x = k /\ L !! k = Some x.
Hypothesis deps_closed : forall k x d y,
  deps !! k = Some x -> d ∈ dependencies x -> L !! d = Some y -> deps !! d = Some y.

Lemma resolvable_deps k x : deps !! k = Some x -> resolvable L x <-> resolvable deps x.
Proof.
  intros Hk. split; intros [n Hn]; exists n.
  - revert k x Hk Hn. induction n as [|n IH]; intros k x Hk Hn; [done|].
    rewrite within_S in *. intros d Hd. destruct (Hn d Hd) as (y & Hy & Hw).
    exists y. split; [by eapply deps_closed|]. eapply IH; [|done]. by eapply deps_closed.
  - eapply within_weaken; [|done]. apply map_subseteq_spec. intros. by apply deps_library.
Qed.

(** Whether a dependency can be resolved in the library. *)
Definition dependency_resolvable (k : string) : Prop := exists y, L !! k = Some y /\ resolvable L y.

Lemma resolvable_dependencies x :
  resolvable L x <-> forall k, k ∈ dependencies x -> dependency_resolvable k.
Proof.
  split.
  - intros [n Hn] k Hk. destruct (within_deps _ _ _ _ Hn Hk) as (y & n' & _ & Hy & Hw).
    exists y. split; [done|by exists n'].
  - intros Hall. assert (exists n, forall k, k ∈ dependencies x ->
      exists y, L !! k = Some y /\ within L n y = true) as [n Hn].
    { induction (dependencies x) as [|k l IH]; [exists 0; intros k Hk; by apply elem_of_nil in Hk|].
      destruct IH as [n Hn]; [intros k' Hk'; apply Hall; by right|].
      destruct (Hall k) as (y & Hy & [n' Hn']); [left|]. exists (n + n').
      intros k' [->|Hk']%elem_of_cons.
      - exists y. split; [done|]. apply (within_mono L n'); [lia|done].
      - destruct (Hn k' Hk') as (y' & ? & ?). exists y'. split; [done|].
        by apply (within_mono L n); [lia|]. }
    exists (S n). by apply within_S.
Qed.

Lemma wave_inv_has R p k y : wave_inv deps R p -> dependencies_added p = true ->
  deps !! k = Some y -> has (data p) k <-> resolvable L y.
Proof.
  intros [Hp _ _ _ _ Hadd] Ep Hk. rewrite Ep in Hadd. split.
  - intros (i & m & Hi & [v Hv]). destruct (Hp _ _ _ _ Hi Hv) as (_ & HL & Hd).
    destruct (deps_library k y Hk). simplify_eq. by eapply depth_resolvable.
  - intros Hy. eapply Hadd; [done|]. by eapply resolvable_deps.
Qed.

Lemma has_dependency R d k :
  wave_inv deps R (mkWave d true) -> (forall y, L !! k = Some y -> deps !! k = Some y) ->
  has d k <-> dependency_resolvable k.
Proof.
  intros Hinv Hk. split.
  - intros (i & m & Hi & [v Hv]). destruct (wi_placed _ _ _ Hinv _ _ _ _ Hi Hv) as (_ & HL & Hd).
    exists v.1. split; [done|]. by eapply depth_resolvable.
  - intros (y & Hy & Hr). by apply (wave_inv_has R (mkWave d true) k y); auto.
Qed.

Lemma wave_append_library R p x pp : wave_inv deps R p -> L !! filename x = Some x ->
  (forall k y, k ∈ dependencies x -> L !! k = Some y -> deps !! k = Some y) ->
  (forall v, v ∈ R -> filename v.1 <> filename x) ->
  match wave_append (x, pp) deps p with
  | (Ok _, p') => resolvable L x /\ wave_inv deps (R ++ [(x, pp)]) p'
  | (Err (VTError.MissingDependencies x' missing), _) =>
      x' = x /\ ~ resolvable L x
      /\ forall k, k ∈ missing <-> k ∈ dependencies x /\ ~ dependency_resolvable k
  | _ => False
  end.
Proof.
  intros Hinv Hx Hcov Hne. destruct (wave_append_run (x, pp) deps p) as (d & Hd & ->).
  assert (wave_inv deps R (mkWave d true)) as Hinv'.
  { destruct p as [d0 added]. simpl in Hd. destruct added; [by subst|].
    destruct (wi_added _ _ _ Hinv) as [E ->]. simpl in E. subst. by apply wave_inv_dependencies. }
  assert (forall k, k ∈ dependencies x -> has d k <-> dependency_resolvable k) as Hhas.
  { intros k Hk. eapply has_dependency; eauto. }
  cbn [fst]. destruct (find_index d x) as [i|] eqn:E.
  - split; [|by apply wave_inv_insert].
    by eapply depth_resolvable, placed_index; [exact (wi_placed _ _ _ Hinv')|].
  - apply find_index_none in E as (k & Hk & Hn). split_and!; [done|..].
    + rewrite resolvable_dependencies. intros Hall. by apply Hn, Hhas, Hall.
    + intros k'. rewrite elem_of_missing. naive_solver.
Qed.

(** *** All requested scripts *)
Definition in_stage (i : nat) (v : RuntimeVT) : bool := bool_decide (stage_index (stage_of v.1) = i).

Definition plans_inv (R : list RuntimeVT) (ps : list WaveExecutionPlan) : Prop :=
  length ps = 4 /\ forall i p, ps !! i = Some p -> wave_inv deps (List.filter (in_stage i) R) p.

Lemma elem_of_in_stage i v R : v ∈ List.filter (in_stage i) R <-> v ∈ R /\ stage_index (stage_of v.1) = i.
Proof.
  rewrite !list_elem_of_In, filter_In. unfold in_stage. by rewrite bool_decide_eq_true.
Qed.

Lemma plans_inv_default : plans_inv [] (replicate 4 (mkWave [] false)).
Proof.
  split; [done|]. intros i p [-> _]%lookup_replicate. apply wave_inv_default.
Qed.

Lemma append_all_library todo R ps :
  (forall v, v ∈ todo -> L !! filename v.1 = Some v.1
    /\ forall k y, k ∈ dependencies v.1 -> L !! k = Some y -> deps !! k = Some y) ->
  NoDup ((fun v => filename v.1) <$> R ++ todo) -> plans_inv R ps ->
  match append_all todo deps ps with
  | Ok ps' => Forall (fun v => resolvable L v.1) todo /\ plans_inv (R ++ todo) ps'
  | Err (VTError.MissingDependencies x missing) =>
      (exists pre v post, todo = pre ++ v :: post /\ Forall (fun v => resolvable L v.1) pre /\ v.1 = x)
      /\ ~ resolvable L x
      /\ forall k, k ∈ missing <-> k ∈ dependencies x /\ ~ dependency_resolvable k
  | _ => False
  end.
Proof.
  revert R ps. induction todo as [|[x pp] todo IH]; intros R ps Hlib Hnd [Hlen Hps].
  { by rewrite app_nil_r. }
  destruct (Hlib (x, pp)) as [Hx Hcov]; [left|]. simpl in Hx, Hcov.
  cbn [append_all]. set (i := stage_index (stage_of x)).
  destruct (lookup_lt_is_Some_2 ps i) as [p Hp]; [subst i; destruct (stage_of x); simpl; lia|].
  rewrite Hp. simpl.
  assert (forall v, v ∈ List.filter (in_stage i) R -> filename v.1 <> filename x) as Hne.
  { intros v [Hv _]%elem_of_in_stage Hfn. rewrite fmap_app, NoDup_app in Hnd.
    destruct Hnd as (_ & Hnd & _). apply (Hnd (filename v.1)).
    - by apply (list_elem_of_fmap_2 (fun v => filename v.1)).
    - rewrite Hfn. left. }
  pose proof (wave_append_library (List.filter (in_stage i) R) p x pp (Hps i p Hp) Hx Hcov Hne) as Hw.
  destruct (wave_append (x, pp) deps p) as [[[]|[]| |] p']; try by destruct Hw.
  - destruct Hw as [Hres Hinv].
    assert (plans_inv (R ++ [(x, pp)]) (<[i := p']> ps)) as Hps'.
    { split; [by rewrite length_insert|]. intros j q Hq. rewrite List.filter_app. simpl.
      unfold in_stage at 2. simpl. apply list_lookup_insert_Some in Hq as [(<- & <- & _)|[Hne' Hq]].
      - by rewrite bool_decide_eq_true_2.
      - rewrite bool_decide_eq_false_2, app_nil_r by done. by apply Hps. }
    specialize (IH (R ++ [(x, pp)]) (<[i := p']> ps)). rewrite <- app_assoc in IH. simpl in IH.
    specialize (IH (fun v Hv => Hlib v (list_elem_of_further _ _ _ Hv)) Hnd Hps').
    destruct (append_all todo deps (<[i := p']> ps)) as [ps'|[]| |]; try by destruct IH.
    + destruct IH. split; [by constructor|done].
    + destruct IH as ((pre & v & post & -> & Hpre & Hv) & ? & ?). split_and!; [|done..].
      exists ((x, pp) :: pre), v, post. split_and!; [done|by constructor|done].
  - destruct Hw as (-> & ? & ?). split_and!; [|done..]. by exists [], (x, pp), todo.
Qed.
End Placed.
