(* ===== verification/PlanTheorems.v ===== *)
(** * Planning a scan: the theorems

    The collection of dependencies ends and finds exactly what lies below the requested
    scripts; the plan holds them by depth and is handed out stage by stage. *)

From S2P Require Import Prelude RustStr Token Statement NaslValue Errors Nvt Storage StorageProps Models Scheduling SchedulingProps PlanProps.
Local Open Scope nat_scope.

(** ** Collecting dependencies *)

(** Names below [names] in a feed. *)
Inductive reachable (feed : list Nvt) (names : list string) : string -> Prop :=
| reach_name n : n ∈ names -> reachable feed names n
| reach_dependency x d : reachable feed names (filename x) -> x ∈ feed -> d ∈ dependencies x ->
    reachable feed names d.

Lemma visit_spec xs known new_ known' : visit xs known = (new_, known') ->
  (forall k, k ∈ dom known' <-> k ∈ dom known \/ k ∈ filename <$> xs)
  /\ (forall k y, known' !! k = Some y -> known !! k = Some y \/ (y ∈ xs /\ filename y = k))
  /\ (forall d, d ∈ new_ -> d ∉ dom known /\ exists x, x ∈ xs /\ d ∈ dependencies x)
  /\ (forall x d, x ∈ xs -> d ∈ dependencies x -> d ∈ dom known' \/ d ∈ new_).
Proof.
  revert known new_ known'. induction xs as [|x xs IH]; intros known new_ known'; csimpl.
  { intros [= <- <-]. split_and!; [set_solver|auto|set_solver..]. }
  destruct (visit xs (<[filename x := x]> known)) as [rest known1] eqn:E. intros [= <- <-].
  apply IH in E as (Hdom & Hval & Hnew & Hdeps).
  assert (forall d, d ∈ List.filter (fun d => negb (bool_decide (d ∈ dom known))) (dependencies x)
    <-> d ∈ dependencies x /\ d ∉ dom known) as Hfil.
  { intros d. rewrite list_elem_of_In, filter_In, <- list_elem_of_In, negb_true_iff.
    by rewrite bool_decide_eq_false. }
  split_and!.
  - intros k. rewrite Hdom, dom_insert. set_solver.
  - intros k y [[[<- <-]|[_ Hk]]%lookup_insert_Some|[? ?]]%Hval; [right|by left|right].
    + split; [left|done].
    + split; [by right|done].
  - intros d [[? ?]%Hfil|[Hd (y & ? & ?)]%Hnew]%elem_of_app.
    + split; [done|]. exists x. split; [left|done].
    + rewrite dom_insert in Hd. split; [set_solver|]. exists y. split; [by right|done].
  - intros y d [->|Hy]%elem_of_cons Hd.
    + destruct (decide (d ∈ dom known)).
      * left. apply Hdom. left. rewrite dom_insert. set_solver.
      * right. apply elem_of_app. left. by apply Hfil.
    + destruct (Hdeps y d Hy Hd); [by left|right]. apply elem_of_app. by right.
Qed.

Section Resolving.
Context {S : Type} `{Retriever S} (feed : S -> list Nvt) `{!NvtRetriever S feed} (s : S).

Lemma retrieve_whole_spec fields : exists xs, retrieve_whole s fields = Ok xs
  /\ xs ≡ₚ List.filter (fun n => matches_any_field n fields) (feed s).
Proof.
  unfold retrieve_whole. destruct (retrieve_nvts (feed := feed) s fields) as (l & -> & Hl). eauto.
Qed.

Lemma matches_by_filename n names :
  matches_any_field n (by_filename names) = true <-> filename n ∈ names.
Proof.
  unfold matches_any_field, by_filename. rewrite existsb_exists. split.
  - intros (f & Hf & Hm). apply in_map_iff in Hf as (x & <- & Hx). simpl in Hm.
    apply bool_decide_eq_true in Hm. subst. by apply list_elem_of_In.
  - intros Hn. exists (NVT (FileName (filename n))). split.
    + apply in_map_iff. eexists. split; [done|]. by apply list_elem_of_In.
    + simpl. by apply bool_decide_eq_true.
Qed.

(** What holds before every round, for the names [names] asked for at first. *)
Record resolving (names unknown : list string) (known : gmap string Nvt) : Prop := {
  rs_known k y : known !! k = Some y -> y ∈ feed s /\ filename y = k /\ reachable (feed s) names k;
  rs_unknown n : n ∈ unknown -> reachable (feed s) names n;
  rs_names n : n ∈ names -> n ∈ filename <$> feed s -> n ∈ dom known \/ n ∈ unknown;
  rs_closed x d : x ∈ feed s -> filename x ∈ dom known -> d ∈ dependencies x ->
    d ∈ filename <$> feed s -> d ∈ dom known \/ d ∈ unknown
}.

(** The tests of one round. *)
Lemma round_elem unknown xs x :
  xs ≡ₚ List.filter (fun n => matches_any_field n (by_filename unknown)) (feed s) ->
  x ∈ xs <-> x ∈ feed s /\ filename x ∈ unknown.
Proof.
  intros ->. by rewrite list_elem_of_In, filter_In, <- list_elem_of_In, matches_by_filename.
Qed.

Lemma resolving_step names unknown known xs new_ known' :
  resolving names unknown known ->
  (forall x, x ∈ xs <-> x ∈ feed s /\ filename x ∈ unknown) ->
  visit xs known = (new_, known') -> resolving names new_ known'.
Proof.
  intros [Hk Hu Hn Hc] Hxs (Hdom & Hval & Hnew & Hdeps)%visit_spec.
  assert (forall k, k ∈ unknown -> k ∈ filename <$> feed s -> k ∈ dom known') as Hfound.
  { intros k Hin (x & -> & Hx)%list_elem_of_fmap. apply Hdom. right.
    apply list_elem_of_fmap_2. by apply Hxs. }
  split.
  - intros k y [?|[Hy <-]]%Hval; [by apply Hk|]. apply Hxs in Hy as [? ?]. auto.
  - intros d (Hd & x & Hx & Hdx)%Hnew. apply Hxs in Hx as [? ?].
    by eapply reach_dependency; [apply Hu|..].
  - intros n Hin Hf. left. destruct (Hn n Hin Hf); [apply Hdom; by left|by apply Hfound].
  - intros x d Hx [Hkn|Hxn]%Hdom Hd Hf.
    + destruct (Hc x d Hx Hkn Hd Hf); left; [apply Hdom; by left|by apply Hfound].
    + apply list_elem_of_fmap in Hxn as (x' & E & Hx'). apply (Hdeps x d); [|done].
      apply Hxs. split; [done|]. rewrite E. by apply Hxs.
Qed.

(** The names of the feed that are not known yet. *)
Definition remaining (known : gmap string Nvt) : nat :=
  size (list_to_set (C := gset string) (filename <$> feed s) ∖ dom known).

(** A round makes a name known, or leaves only names that are not in the feed. *)
Lemma round_progress names unknown known xs new_ known' :
  resolving names unknown known ->
  (forall x, x ∈ xs <-> x ∈ feed s /\ filename x ∈ unknown) ->
  visit xs known = (new_, known') ->
  remaining known' < remaining known \/ forall n, n ∈ new_ -> n ∉ filename <$> feed s.
Proof.
  intros Hres Hxs (Hdom & _ & Hnew & _)%visit_spec.
  destruct (decide (Exists (fun x => filename x ∉ dom known) xs)) as [Hex|Hno].
  - left. apply Exists_exists in Hex as (x & Hx & Hn). unfold remaining. apply subset_size.
    assert (x ∈ feed s) by (by apply Hxs). split.
    + intros k. rewrite !elem_of_difference, Hdom. naive_solver.
    + intros Hsub. assert (filename x ∈ dom known') as Hin.
      { apply Hdom. right. by apply list_elem_of_fmap_2. }
      specialize (Hsub (filename x)). rewrite !elem_of_difference, elem_of_list_to_set in Hsub.
      destruct Hsub as [_ []]; [|done]. split; [by apply list_elem_of_fmap_2|done].
  - right. apply not_Exists_Forall in Hno; [|tc_solve]. rewrite Forall_forall in Hno.
    intros n (Hn & x & Hx & Hd)%Hnew Hf.
    pose proof (Hno x Hx) as Hkn%dec_stable. apply Hxs in Hx as [Hx _].
    destruct (rs_closed _ _ _ Hres x n Hx Hkn Hd Hf) as [|Hun]; [done|].
    apply list_elem_of_fmap in Hf as (y & -> & Hy).
    apply (Hno y); [|done]. by apply Hxs.
Qed.

Lemma resolve_dependencies_ok fuel names unknown known :
  resolving names unknown known ->
  remaining known + 2 <= fuel \/ (1 <= fuel /\ forall n, n ∈ unknown -> n ∉ filename <$> feed s) ->
  exists known', resolve_dependencies fuel s unknown known = Ok known' /\ resolving names [] known'.
Proof.
  revert unknown known. induction fuel as [|fuel IH]; intros [|u unknown] known Hres Hfuel.
  - by exists known.
  - lia.
  - by exists known.
  - cbn [resolve_dependencies]. destruct (retrieve_whole_spec (by_filename (u :: unknown)))
      as (xs & -> & Hxs). pose proof (fun x => round_elem _ _ x Hxs) as Helem.
    destruct (visit xs known) as [new_ known'] eqn:E.
    destruct Hfuel as [Hfuel|[_ Hnone]].
    + apply IH; [by eapply resolving_step|].
      destruct (round_progress _ _ _ _ _ _ Hres Helem E); [left; lia|right; split; [lia|done]].
    + assert (xs = []) as ->.
      { destruct xs as [|x xs]; [done|]. destruct (proj1 (Helem x)) as [Hx Hu]; [left|].
        destruct (Hnone _ Hu). by apply list_elem_of_fmap_2. }
      simpl in E. injection E as <- <-. exists known. split; [by destruct fuel|].
      by eapply resolving_step.
Qed.

Lemma remaining_bound known : remaining known <= length (feed s).
Proof.
  unfold remaining.
  transitivity (size (list_to_set (C := gset string) (filename <$> feed s))).
  { apply subseteq_size. set_solver. }
  rewrite <- (length_fmap filename (feed s)). generalize (filename <$> feed s). clear.
  intros l. induction l as [|n l IH]; [done|]. rewrite list_to_set_cons.
  rewrite size_union_alt, size_singleton. simpl length.
  transitivity (1 + size (list_to_set (C := gset string) l)); [|lia].
  apply Nat.add_le_mono_l, subseteq_size. set_solver.
Qed.

Lemma filename_inj x y : NoDup (filename <$> feed s) -> x ∈ feed s -> y ∈ feed s ->
  filename x = filename y -> x = y.
Proof.
  intros Hnd [i Hi]%list_elem_of_lookup [j Hj]%list_elem_of_lookup E.
  assert (i = j) as <-; [|congruence].
  eapply NoDup_lookup; [done|..]; rewrite list_lookup_fmap, ?Hi, ?Hj; simpl; by rewrite ?E.
Qed.

Lemma resolve_spec fuel names : NoDup (filename <$> feed s) -> length (feed s) + 2 <= fuel ->
  exists known, resolve_dependencies fuel s names ∅ = Ok known
  /\ forall k x, known !! k = Some x
     <-> x ∈ feed s /\ filename x = k /\ reachable (feed s) names k.
Proof.
  intros Hnd Hfuel. destruct (resolve_dependencies_ok fuel names names ∅) as (known & Hok & Hres).
  { split; [done|by constructor|by right|]. intros x d _ Hx. rewrite dom_empty in Hx. set_solver. }
  { left. pose proof (remaining_bound ∅). lia. }
  exists known. split; [done|]. intros k x. split; [apply (rs_known _ _ _ Hres)|].
  intros (Hx & <- & Hr). assert (filename x ∈ dom known) as Hdom.
  { assert (filename x ∈ filename <$> feed s) as Hf by by apply list_elem_of_fmap_2.
    clear Hx. revert Hf. induction Hr as [n Hn|y d Hr IH Hy Hd]; intros Hf.
    - destruct (rs_names _ _ _ Hres n Hn Hf) as [|Hno]; [done|by apply elem_of_nil in Hno].
    - destruct (rs_closed _ _ _ Hres y d Hy) as [|Hno]; try done; [|by apply elem_of_nil in Hno].
      by apply IH, list_elem_of_fmap_2. }
  apply elem_of_dom in Hdom as [y Hy]. rewrite Hy. f_equal.
  destruct (rs_known _ _ _ Hres _ _ Hy) as (? & ? & _). by apply filename_inj.
Qed.
End Resolving.

(** ** The library of a feed *)
Definition library (feed : list Nvt) : gmap string Nvt :=
  list_to_map ((fun x => (filename x, x)) <$> feed).

Lemma library_lookup feed k x : NoDup (filename <$> feed) ->
  library feed !! k = Some x <-> x ∈ feed /\ filename x = k.
Proof.
  intros Hnd. unfold library. rewrite <- elem_of_list_to_map.
  - rewrite list_elem_of_fmap. split.
    + by intros (y & [= -> ->] & Hy).
    + intros [Hx <-]. eauto.
  - rewrite <- list_fmap_compose. done.
Qed.

Section Planning.
Context `{HashOrder} {S : Type} `{Retriever S} (feed : S -> list Nvt) `{!NvtRetriever S feed}.

(** The scripts a scan asks for. *)
Definition requested (scan : ScanModel) (x : Nvt) : bool :=
  existsb (fun v => bool_decide (oid x = vt_oid v)) (scan_vts scan).

Lemma matches_requested scan x :
  matches_any_field x (map (fun v => NVT (Oid (vt_oid v))) (scan_vts scan)) = requested scan x.
Proof.
  unfold matches_any_field, requested. induction (scan_vts scan) as [|v l IH]; [done|].
  simpl. by rewrite IH.
Qed.

Lemma reachable_bind fs (xs : list Nvt) k : reachable fs (xs ≫= dependencies) k ->
  exists x, x ∈ xs /\ reachable fs (dependencies x) k.
Proof.
  induction 1 as [n (x & Hn & Hx)%list_elem_of_bind|x d _ (y & Hy & Hr) Hx Hd].
  - exists x. split; [done|by constructor].
  - exists y. split; [done|by eapply reach_dependency].
Qed.

Lemma reachable_mono fs names names' k :
  (forall n, n ∈ names -> n ∈ names') -> reachable fs names k -> reachable fs names' k.
Proof.
  intros Hsub. induction 1 as [n Hn|x d _ IH Hx Hd]; [by apply reach_name, Hsub|].
  by eapply reach_dependency.
Qed.

(** The requested scripts with the parameters at their positions. *)
Definition with_parameters (scan : ScanModel) (xs : list Nvt) : list RuntimeVT :=
  imap (fun i x => (x, parameters <$> scan_vts scan !! i)) xs.

Lemma elem_of_with_parameters scan xs v : v ∈ with_parameters scan xs <->
  exists i, xs !! i = Some v.1 /\ v.2 = parameters <$> scan_vts scan !! i.
Proof.
  unfold with_parameters. rewrite elem_of_lookup_imap. split.
  - intros (i & x & -> & Hi). by exists i.
  - intros (i & Hi & Hv). exists i, v.1. by rewrite <- Hv, <- surjective_pairing.
Qed.

Lemma with_parameters_names scan xs :
  (fun v => filename v.1) <$> with_parameters scan xs = filename <$> xs.
Proof.
  unfold with_parameters. rewrite fmap_imap. apply list_eq. intros i.
  by rewrite list_lookup_imap, list_lookup_fmap.
Qed.

Lemma append_requested s scan xs known : NoDup (filename <$> feed s) ->
  xs ≡ₚ List.filter (requested scan) (feed s) ->
  (forall k x, known !! k = Some x
     <-> x ∈ feed s /\ filename x = k /\ reachable (feed s) (xs ≫= dependencies) k) ->
  match append_all (with_parameters scan xs) known (replicate 4 (mkWave [] false)) with
  | Ok ps => Forall (resolvable (library (feed s))) xs
      /\ plans_inv (library (feed s)) known (with_parameters scan xs) ps
  | Err (VTError.MissingDependencies x missing) =>
      x ∈ xs /\ ~ resolvable (library (feed s)) x
      /\ forall k, k ∈ missing <-> k ∈ dependencies x /\ ~ dependency_resolvable (library (feed s)) k
  | _ => False
  end.
Proof.
  intros Hnd Hxs Hknown. set (L := library (feed s)).
  assert (forall k x, L !! k = Some x <-> x ∈ feed s /\ filename x = k) as HL.
  { intros. by apply library_lookup. }
  assert (forall x, x ∈ xs -> x ∈ feed s) as Hsub.
  { intros x. rewrite Hxs, !list_elem_of_In, filter_In. by intros []. }
  assert (forall v, v ∈ with_parameters scan xs -> v.1 ∈ xs) as Hfst.
  { intros v (i & Hi & _)%elem_of_with_parameters. by eapply list_elem_of_lookup_2. }
  assert (NoDup (filename <$> xs)) as Hndx.
  { rewrite Hxs. eapply sublist_NoDup; [exact Hnd|]. clear.
    induction (feed s) as [|x l IH]; csimpl; [constructor|].
    destruct (requested scan x); by constructor. }
  assert (forall k y, reachable (feed s) (xs ≫= dependencies) k -> L !! k = Some y ->
    known !! k = Some y) as Hreach.
  { intros k y Hr [? ?]%HL. by apply Hknown. }
  pose proof (append_all_library L known) as Happ.
  specialize Happ with (todo := with_parameters scan xs) (R := [])
    (ps := replicate 4 (mkWave [] false)).
  rewrite app_nil_l, with_parameters_names in Happ.
  lapply Happ; [clear Happ; intros Happ|].
  2: { intros k x (Hx & <- & _)%Hknown. by rewrite HL. }
  lapply Happ; [clear Happ; intros Happ|].
  2: { intros k x d y (Hx & <- & Hr)%Hknown Hd Hy. apply Hreach; [|done].
       by eapply reach_dependency. }
  lapply Happ; [clear Happ; intros Happ|].
  2: { intros v Hv%Hfst. split; [apply HL; auto|]. intros k y Hk Hy. apply Hreach; [|done].
       apply reach_name, list_elem_of_bind. eauto. }
  specialize (Happ Hndx (plans_inv_default L known)).
  destruct (append_all _ known _) as [ps|[]| |]; try done.
  - destruct Happ as [Hall ?]. split; [|done]. rewrite Forall_forall in Hall.
    apply Forall_forall. intros x [i Hi]%list_elem_of_lookup.
    by apply (Hall (x, parameters <$> scan_vts scan !! i)), elem_of_with_parameters; exists i.
  - destruct Happ as ((pre & v & post & Hv & _ & <-) & ? & ?). split_and!; [|done..].
    apply Hfst. rewrite Hv. apply elem_of_app. right. left.
Qed.

(** What planning a scan promises. *)
Definition plan_promise (s : S) (scan : ScanModel)
  (o : outcome VTError.t (ExecutionPlanData WaveExecutionPlan)) : Prop :=
  let L := library (feed s) in
  match o with
  | Ok plan =>
      idx plan = 0 /\ length (plans plan) = 4
      /\ (forall i p, plans plan !! i = Some p ->
            ordered (data p) /\ forall j m, data p !! j = Some m -> m <> ∅)
      /\ (forall x, x ∈ feed s -> requested scan x = true -> resolvable L x)
      /\ (forall i p j m k v,
            plans plan !! i = Some p -> data p !! j = Some m -> m !! k = Some v ->
            k = filename v.1 /\ v.1 ∈ feed s /\ depth L v.1 j
            /\ ((v.2 = None /\ exists x, x ∈ feed s /\ requested scan x = true
                  /\ reachable (feed s) (dependencies x) k)
                \/ (requested scan v.1 = true /\ stage_index (stage_of v.1) = i)))
      /\ (forall x, x ∈ feed s -> requested scan x = true -> exists p j m pos,
            plans plan !! stage_index (stage_of x) = Some p /\ data p !! j = Some m
            /\ m !! filename x = Some (x, parameters <$> scan_vts scan !! pos))
  | Err (VTError.MissingDependencies x missing) =>
      x ∈ feed s /\ requested scan x = true /\ ~ resolvable L x
      /\ forall k, k ∈ missing <-> k ∈ dependencies x /\ ~ dependency_resolvable L k
  | _ => False
  end.

Lemma scan_plan_spec (fuel : nat) (s : S) (scan : ScanModel) :
  NoDup (filename <$> feed s) -> length (feed s) + 2 <= fuel ->
  plan_promise s scan (execution_plan fuel s scan).
Proof.
  intros Hnd Hfuel. unfold plan_promise, execution_plan.
  destruct (retrieve_whole_spec feed s (map (fun x => NVT (Oid (vt_oid x))) (scan_vts scan)))
    as (xs & -> & Hxs).
  assert (forall x, x ∈ xs <-> x ∈ feed s /\ requested scan x = true) as Helem.
  { intros x. rewrite Hxs, list_elem_of_In, filter_In, <- list_elem_of_In. by rewrite matches_requested. }
  destruct (resolve_spec feed s fuel (xs ≫= dependencies) Hnd Hfuel) as (known & -> & Hknown).
  assert (xs ≡ₚ List.filter (requested scan) (feed s)) as Hxs'.
  { rewrite Hxs. erewrite filter_ext; [done|]. intros x. apply matches_requested. }
  pose proof (append_requested s scan xs known Hnd Hxs' Hknown) as Happ.
  change [plan_default; plan_default; plan_default; plan_default]
    with (replicate 4 (mkWave [] false)).
  fold (with_parameters scan xs).
  destruct (append_all _ known _) as [ps|[]| |]; try done; simpl.
  - destruct Happ as [Hres [Hlen Hinv]]. rewrite Forall_forall in Hres. split_and!; [done|done|..].
    + intros i p Hi. split; [apply (wi_ordered _ _ _ _ (Hinv i p Hi))|].
      apply (wi_nonempty _ _ _ _ (Hinv i p Hi)).
    + intros x Hx Hr. by apply Hres, Helem.
    + intros i p j m k v Hi Hj Hk. specialize (Hinv i p Hi).
      destruct (wi_placed _ _ _ _ Hinv _ _ _ _ Hj Hk) as (<- & HL & Hd).
      apply library_lookup in HL as [Hin _]; [|done]. split_and!; [done|done|done|].
      destruct (wi_from _ _ _ _ Hinv _ _ _ _ Hj Hk) as [[Hv Hst]%elem_of_in_stage|[Hn Hv]].
      * right. split; [|done]. apply elem_of_with_parameters in Hv as (pos & Hpos & _).
        by apply Helem; eapply list_elem_of_lookup_2.
      * left. split; [done|]. apply Hknown in Hv as (_ & _ & (x & Hx & Hr)%reachable_bind).
        exists x. apply Helem in Hx as []. done.
    + intros x Hx Hr. assert (x ∈ xs) as [pos Hpos]%list_elem_of_lookup by by apply Helem.
      destruct (lookup_lt_is_Some_2 ps (stage_index (stage_of x))) as [p Hp];
        [destruct (stage_of x); simpl; lia|].
      destruct (wi_appended _ _ _ _ (Hinv _ p Hp) (x, parameters <$> scan_vts scan !! pos))
        as (j & m & ? & ?).
      { apply elem_of_in_stage. split; [|done]. apply elem_of_with_parameters. by exists pos. }
      by exists p, j, m, pos.
  - destruct Happ as (Hx%Helem & ? & ?). by destruct Hx.
Qed.

(** C6: The plan of a scan over a feed whose file names are unique.  Planning always ends,
    with a plan exactly when all requested scripts can be resolved; otherwise with the
    first script that cannot, and those of its dependencies that cannot.  In the plan of a
    stage every script is in the wave of its depth, its dependencies are in earlier waves,
    and no wave is empty; a script is there because it was requested and belongs to the stage, or, without
    parameters, because requested scripts depend on it; and no requested script is left
    out of its stage. *)
Theorem scan_plan_correct (fuel : nat) (s : S) (scan : ScanModel) :
  NoDup (filename <$> feed s) -> length (feed s) + 2 <= fuel ->
  let L := library (feed s) in
  match execution_plan (E := WaveExecutionPlan) fuel s scan with
  | Ok plan =>
      idx plan = 0 /\ length (plans plan) = 4
      /\ (forall i p, plans plan !! i = Some p ->
            ordered (data p) /\ forall j m, data p !! j = Some m -> m <> ∅)
      /\ (forall x, x ∈ feed s -> requested scan x = true -> resolvable L x)
      /\ (forall i p j m k v,
            plans plan !! i = Some p -> data p !! j = Some m -> m !! k = Some v ->
            k = filename v.1 /\ v.1 ∈ feed s /\ depth L v.1 j
            /\ ((v.2 = None /\ exists x, x ∈ feed s /\ requested scan x = true
                  /\ reachable (feed s) (dependencies x) k)
                \/ (requested scan v.1 = true /\ stage_index (stage_of v.1) = i)))
      /\ (forall x, x ∈ feed s -> requested scan x = true -> exists p j m pos,
            plans plan !! stage_index (stage_of x) = Some p /\ data p !! j = Some m
            /\ m !! filename x = Some (x, parameters <$> scan_vts scan !! pos))
  | Err (VTError.MissingDependencies x missing) =>
      x ∈ feed s /\ requested scan x = true /\ ~ resolvable L x
      /\ forall k, k ∈ missing <-> k ∈ dependencies x /\ ~ dependency_resolvable L k
  | _ => False
  end.
Proof. apply scan_plan_spec. Qed.
End Planning.

(** ** Handing out the plan *)
Section HandingOut.
Context `{HashOrder}.

(** The waves of a stage, each with the stage and its scripts. *)
Definition stage_waves (st : Stage) (p : WaveExecutionPlan) : list ConcurrentVT :=
  (fun m => (st, (iter m).*2)) <$> data p.

(** The waves of the plans of the stages from [i] on. *)
Fixpoint pending (i : nat) (ps : list WaveExecutionPlan) : list ConcurrentVT :=
  match ps with
  | [] => []
  | p :: ps' =>
      match stage_try_from i with inl st => stage_waves st p | inr _ => [] end ++ pending (S i) ps'
  end.

Lemma next_pending fuel pre ps : length pre + length ps = 4 -> length ps < fuel ->
  match pending (length pre) ps with
  | [] => exists p', next_concurrent fuel (mkPlanData (pre ++ ps) (length pre)) = (Ok None, p')
  | x :: rest => exists pre' ps',
      next_concurrent fuel (mkPlanData (pre ++ ps) (length pre))
        = (Ok (Some (inl x)), mkPlanData (pre' ++ ps') (length pre'))
      /\ length pre' + length ps' = 4 /\ pending (length pre') ps' = rest
  end.
Proof.
  revert fuel pre. induction ps as [|p ps IH]; intros [|fuel] pre Hlen Hfuel; simpl in *; try lia.
  { destruct pre as [|? [|? [|? [|? [|]]]]]; simpl in *; try lia. eauto. }
  assert (exists st, stage_try_from (length pre) = inl st) as [st Hst].
  { destruct pre as [|? [|? [|? [|]]]]; simpl in *; try lia; eauto. }
  rewrite Hst, (list_lookup_middle pre ps p) by done. unfold wave_next. destruct p as [[|m d] added]; simpl.
  - specialize (IH fuel (pre ++ [mkWave [] added])). rewrite length_app, <- app_assoc in IH. simpl in IH.
    rewrite Nat.add_1_r in IH.
    replace (<[length pre := mkWave [] added]> (pre ++ mkWave [] added :: ps))
      with (pre ++ mkWave [] added :: ps)
      by (symmetry; apply list_insert_id; by rewrite list_lookup_middle).
    apply IH; lia.
  - exists pre, (mkWave d added :: ps). simpl. rewrite Hst. split_and!; [|lia|done].
    by rewrite (insert_app_r_alt pre _ (length pre)), Nat.sub_diag by lia.
Qed.

Lemma collect_pending n pre ps : length pre + length ps = 4 -> length (pending (length pre) ps) < n ->
  collect_plan n (mkPlanData (pre ++ ps) (length pre)) = Ok (inl <$> pending (length pre) ps).
Proof.
  revert pre ps. induction n as [|n IH]; intros pre ps Hlen Hn; [lia|]. cbn [collect_plan].
  pose proof (next_pending 5 pre ps Hlen ltac:(lia)) as Hnext.
  destruct (pending (length pre) ps) as [|x rest]; [by destruct Hnext as [p' ->]|].
  destruct Hnext as (pre' & ps' & -> & Hlen' & <-). rewrite IH; [done|done|]. simpl in Hn. lia.
Qed.

(** C38: A plan is handed out completely and in order: first all waves of the discovery
    stage, in their order, then those of the next stage, up to the end; each wave once,
    with all of its scripts; and the iterator ends. *)
Theorem plan_handed_out (p0 p1 p2 p3 : WaveExecutionPlan) :
  let items := stage_waves Discovery p0 ++ stage_waves NonEvasive p1
    ++ stage_waves Exhausting p2 ++ stage_waves End p3 in
  collect_plan (S (length items)) (mkPlanData [p0; p1; p2; p3] 0) = Ok (inl <$> items).
Proof.
  pose proof (collect_pending (S (length (pending 0 [p0; p1; p2; p3]))) [] [p0; p1; p2; p3]) as Hc.
  simpl in Hc. rewrite app_nil_r in Hc. apply Hc; simpl; lia.
Qed.
End HandingOut.

(** ** Witnesses and an example *)
Definition script (id file : string) (c : ACT.t) (deps : list string) : Nvt :=
  set_dependencies (set_category (set_filename (set_oid default_nvt id) file) c) deps.

#[global] Instance list_retriever : Retriever (list Nvt) := {|
  retrieve := fun _ _ _ => Ok [];
  retrieve_by_fields := fun feed fs _ =>
    Ok (map (fun x => (KeyFileName (filename x), NVT (WholeNvt x)))
         (List.filter (fun y => matches_any_field y fs) feed))
|}.

#[global] Instance list_nvts : NvtRetriever (list Nvt) (fun feed => feed).
Proof.
  split. intros feed fields. eexists. split; [reflexivity|]. unfold whole_nvts.
  induction (List.filter _ feed) as [|n l IH]; [done|]. by simpl; constructor.
Qed.

Definition small_feed : list Nvt :=
  [script "1" "a.nasl" ACT.Init []; script "2" "b.nasl" ACT.Attack ["a.nasl"];
   script "3" "c.nasl" ACT.Attack ["b.nasl"; "a.nasl"]; script "4" "d.nasl" ACT.Attack ["x.nasl"]]%string.

Definition no_parameters (ids : list string) : ScanModel :=
  mkScan "s" ["h"%string] (map (fun i => mkVT i []) ids).

Lemma append_keeps_order_witness :
  match wave_append (H := plain_order) (script "2" "b.nasl" ACT.Attack ["a.nasl"%string], None)
      (library small_feed) (mkWave [] false) with
  | (Ok _, p') => ordered (data p') /\ has (data p') "b.nasl"
  | _ => True
  end.
Proof.
  pose proof (append_keeps_order (H := plain_order)
    (script "2" "b.nasl" ACT.Attack ["a.nasl"%string], None) (library small_feed) (mkWave [] false)) as Hw.
  destruct (wave_append _ _ _) as [[]]; [|exact I..]. apply Hw. by intros i m k v Hi.
Defined.

Lemma scan_plan_correct_witness :
  resolvable (library small_feed) (script "3" "c.nasl" ACT.Attack ["b.nasl"; "a.nasl"]%string).
Proof.
  pose proof (scan_plan_correct (H := plain_order) (fun feed => feed) 6 small_feed
    (no_parameters ["3"%string]) ltac:(vm_compute; repeat constructor; set_solver) ltac:(simpl; lia)) as Hp.
  cbv zeta in Hp. destruct (execution_plan 6 small_feed _) as [plan|e| |] eqn:E;
    [|vm_compute in E; discriminate..].
  destruct Hp as (_ & _ & _ & Hp & _). apply Hp; [|reflexivity]. right. right. left.
Defined.

(** The enumeration of a map in the other direction. *)
#[refine] Definition reversed_order : HashOrder := {| iter_order := fun s => rev (elements s) |}.
Proof. intros s. symmetry. apply Permutation_rev. Defined.

#[refine] Definition plain_advisories : AdvisoryOrder := {| adv_order := fun l => l |}.
Proof. done. Defined.

Definition two_tests : DefaultDispatcher :=
  foldl (fun st x => dispatch st (KeyFileName (filename x)) (NVT (WholeNvt x))) new_dispatcher
    [script "1" "a.nasl" ACT.Init []; script "2" "b.nasl" ACT.Init []].

Definition two_requests : ScanModel :=
  mkScan "s" ["h"%string]
    [mkVT "1" [mkParameter 1 "for the first"]; mkVT "2" [mkParameter 1 "for the second"]].

(** The parameters of a test of a scan are not always its own: they are taken by the
    position of the test among the retrieved ones, and the store returns these in the order
    of a hash map.  With one of two orders each of two tests gets its parameters, with the
    other one it gets those of the other test. *)
Theorem parameters_by_position :
  forall own, exists order : HashOrder, let _ := order in let _ := plain_advisories in
  exists plan m, execution_plan (E := WaveExecutionPlan) 4 two_tests two_requests = Ok plan
  /\ plans plan !! 0 = Some (mkWave [m] true)
  /\ (snd <$> m !! "a.nasl"%string)
     = Some (Some [mkParameter 1 (if own : bool then "for the first" else "for the second")])
  /\ (snd <$> m !! "b.nasl"%string)
     = Some (Some [mkParameter 1 (if own then "for the second" else "for the first")]).
Proof.
  intros []; [exists plain_order|exists reversed_order]; intros ? ?; eexists _, _;
    (split; [vm_compute; reflexivity|split; [vm_compute; reflexivity|]]); vm_compute; done.
Qed.
