(* ===== verification/HostInfo.v ===== *)
(** * The progress and the status of a scan

    [models/host_info.rs] and [models/status.rs]: how many hosts of a scan are queued and
    finished, counted down script by script, the phases of a scan, and the updates a
    status gets from another one. *)

From S2P Require Import Prelude RustStr Token Statement NaslValue.
Local Open Scope Z_scope.

(** ** host_info.rs *)
Record HostInfo := mkHostInfo {
  all : Z; excluded : Z; dead : Z; alive : Z; queued : Z; finished : Z;
  scanning : option (gmap string Z);
  remaining_vts_per_host : gmap string Z
}.

Definition default_host_info : HostInfo := mkHostInfo 0 0 0 0 0 0 None ∅.

(** [HostInfoBuilder], whose fields are public, and [build] *)
Record HostInfoBuilder := mkHostInfoBuilder {
  b_all : Z; b_excluded : Z; b_dead : Z; b_alive : Z; b_queued : Z; b_finished : Z;
  b_scanning : option (gmap string Z)
}.

Definition build (b : HostInfoBuilder) : HostInfo :=
  mkHostInfo (b_all b) (b_excluded b) (b_dead b) (b_alive b) (b_queued b) (b_finished b)
    (b_scanning b) ∅.

Definition from_hosts_and_num_vts (hosts : list string) (num_vts : Z) : HostInfo :=
  mkHostInfo (Z.of_nat (length hosts)) 0 0 0 (Z.of_nat (length hosts)) 0 None
    (collect_map (map (fun host => (host, num_vts)) hosts)).

(** Every sum below is one of [u64] or [usize]; [None] is a panic. *)
Section HostInfo.
Context `{BuildProfile}.

Definition register_finished_script (h : HostInfo) (target : string) : option HostInfo :=
  match remaining_vts_per_host h !! target with
  | None => Some h
  | Some num_vts =>
      n ← arith_u 64 (num_vts - 1);
      if n =? 0 then
        f ← arith_u 64 (finished h + 1);
        q ← arith_u 64 (queued h - 1);
        Some (mkHostInfo (all h) (excluded h) (dead h) (alive h) q f (scanning h)
          (delete target (remaining_vts_per_host h)))
      else
        Some (mkHostInfo (all h) (excluded h) (dead h) (alive h) (queued h) (finished h) (scanning h)
          (<[target := n]> (remaining_vts_per_host h)))
  end.

(** [assert_eq!(self.queued, 0)] *)
Definition finish (h : HostInfo) : option HostInfo :=
  if queued h =? 0 then
    Some (mkHostInfo (all h) (excluded h) (dead h) (alive h) (queued h) (finished h) (scanning h) ∅)
  else None.

(** The loop over the progress already stored. *)
Definition keep_progress `{HashOrder} (old new_ : gmap string Z) : gmap string Z :=
  foldl (fun hs hp =>
      if (hp.2 =? 100) || (hp.2 =? -1) then delete hp.1 hs else <[hp.1 := hp.2]> hs)
    new_ (iter old).

Definition host_update_with `{HashOrder} (h other : HostInfo) : option HostInfo :=
  d ← arith_u 64 (dead h + dead other);
  a ← arith_u 64 (alive h + alive other);
  f ← arith_u 64 (finished h + finished other);
  Some (mkHostInfo
    (if all other =? 0 then all h else all other)
    (if excluded h =? 0 then excluded other else excluded h)
    d a (queued h) f
    (Some (keep_progress (default ∅ (scanning h)) (default ∅ (scanning other))))
    (remaining_vts_per_host h)).
End HostInfo.

(** ** status.rs *)
Module Phase.
Inductive t : Set := Stored | Requested | Running | Stopped | Failed | Succeeded.

Definition is_running (p : t) : bool :=
  match p with Running | Requested => true | _ => false end.

Definition from_str (s : string) : option t :=
  if decide (s = "requested") then Some Requested
  else if decide (s = "running") then Some Running
  else if decide (s = "stopped") then Some Stopped
  else if decide (s = "failed") then Some Failed
  else if decide (s = "succeeded") then Some Succeeded
  else if decide (s = "stored") then Some Stored
  else None.

Definition to_string (p : t) : string :=
  match p with
  | Requested => "requested"
  | Running => "running"
  | Stopped => "stopped"
  | Failed => "failed"
  | Succeeded => "succeeded"
  | Stored => "stored"
  end.
End Phase.

#[global] Instance Phase_eq_dec : EqDecision Phase.t.
Proof. solve_decision. Defined.

Record Status := mkStatus {
  start_time : option Z; end_time : option Z; status : Phase.t; host_info : option HostInfo
}.

Definition default_status : Status := mkStatus None None Phase.Stored None.

Definition status_is_running (s : Status) : bool := Phase.is_running (status s).
Definition is_done (s : Status) : bool :=
  negb (status_is_running s) && negb (bool_decide (status s = Phase.Stored)).

Definition status_update_with `{BuildProfile} `{HashOrder} (s other : Status) : option Status :=
  hi ← match host_info other with
       | Some o => Some <$> host_update_with (default default_host_info (host_info s)) o
       | None => Some (host_info s)
       end;
  Some (mkStatus
    (match start_time other with Some t => Some t | None => start_time s end)
    (match end_time other with Some t => Some t | None => end_time s end)
    (status s) hi).
