(* ===== verification/Scanner.v ===== *)
(** * Running a scan

    [scanner]: the gate and the run of one script on one host ([vt_runner.rs]), the order
    of all runs ([scan_runner.rs]), the run of a scan with its status
    ([running_scan.rs]), and the scanner that starts, stops and deletes scans ([mod.rs]).

    The storage, the loader's medium and the builtin functions act on a world, as for the
    interpreter; a builtin also sees the key of the context it runs in.  Whether a scan has
    been stopped is asked after every script; the answers are a parameter. *)

From S2P Require Import Prelude RustStr Token Tokenizer Statement Lexer NaslValue Errors Register Executor Operator Interpreter Nvt Storage Models Scheduling HostInfo.
Local Open Scope string_scope.

(** ** error.rs *)
Module ExecuteError.
Inductive t : Type :=
| Storage (e : StorageError.t)
| Scheduling (e : VTError.t)
| NotFound (e : LoadError.t)
| UnhandledParameter (p : Parameter_).
End ExecuteError.

Module ScriptResultKind.
Inductive t : Type :=
| ReturnCode (n : Z)
| MissingPort (p : Protocol) (port : string)
| ContainsExcludedKey (k : string)
| MissingRequiredKey (k : string)
| MissingMandatoryKey (k : string)
| Error (e : InterpretError).
End ScriptResultKind.

Record ScriptResult := mkScriptResult {
  sr_oid : string; sr_filename : string; sr_stage : Stage; sr_kind : ScriptResultKind.t;
  sr_target : string
}.

Definition has_succeeded (r : ScriptResult) : bool :=
  match sr_kind r with ScriptResultKind.ReturnCode n => (n =? 0)%Z | _ => false end.

Definition has_not_run (r : ScriptResult) : bool :=
  match sr_kind r with
  | ScriptResultKind.MissingRequiredKey _ | ScriptResultKind.MissingMandatoryKey _
  | ScriptResultKind.ContainsExcludedKey _ | ScriptResultKind.MissingPort _ _ => true
  | _ => false
  end.

(** ** What a scan runs on: [ScannerStack] and the executor *)
Class ScannerStack := {
  st_profile :: BuildProfile;
  st_order :: HashOrder;
  st_little_endian : bool;
  StWorld : Type;
  st_load : string -> StWorld -> (string + LoadError.t) * StWorld;
  st_executor : ContextKey -> Executor StWorld;
  st_regex : string -> option (string -> bool);
  Store : Type;
  storage : StWorld -> Store;
  st_retriever :: Retriever Store
}.

(** The context of one run. *)
Definition context_of `{ScannerStack} (key : ContextKey) : Host := {|
  host_profile := st_profile; host_order := st_order; little_endian := st_little_endian;
  World := StWorld; load := st_load; executor := st_executor key; regex_new := st_regex
|}.

(** [From<Primitive> for bool] of storage/types.rs *)
Definition primitive_bool (p : Primitive) : bool :=
  match p with
  | NaslValue.PString s => negb (bool_decide (s = "")) && negb (bool_decide (s = "0"))
  | NaslValue.PArray v => negb (bool_decide (length v = 0%nat))
  | NaslValue.PData v => negb (bool_decide (length v = 0%nat))
  | NaslValue.PBoolean b => b
  | NaslValue.PNull => false
  | NaslValue.PNumber n => negb (n =? 0)%Z
  | NaslValue.PDict v => negb (bool_decide (length v = 0%nat))
  end.

(** ** vt_runner.rs *)
Definition generate_port_kb_key (protocol : Protocol) (port : string) : string :=
  "Ports/" ++ protocol_string protocol ++ "/" ++ port.

(** The verdict of a check: [inr] leaves the function with this kind. *)
Abbreviation verdict := (unit + ScriptResultKind.t)%type.

Section VTRunner.
Context `{ScannerStack}.

Record VTRunner := mkVTRunner {
  target : string; vt : Nvt; stage : Stage; param : option (list Parameter_); runner_scan : string
}.

Definition generate_key (r : VTRunner) : ContextKey := Scan (runner_scan r) (Some (target r)).

Definition parameter (p : Parameter_) (r : Register) : Register + ExecuteError.t :=
  inr (ExecuteError.UnhandledParameter p).

(** [set_parameters] with its loop. *)
Fixpoint set_each (ps : list Parameter_) (r : Register) : Register + ExecuteError.t :=
  match ps with
  | [] => inl r
  | p :: ps' => match parameter p r with inl r' => set_each ps' r' | inr e => inr e end
  end.
Definition set_parameters (v : VTRunner) (r : Register) : Register + ExecuteError.t :=
  match param v with Some ps => set_each ps r | None => inl r end.

Definition verdict_of (o : option ScriptResultKind.t) : verdict :=
  match o with None => inl tt | Some x => inr x end.

(** Retrieving may panic, which ends the run. *)
Definition check_key (s : Store) (key : ContextKey) (kb_key : string)
  (result_none : option ScriptResultKind.t)
  (result_some : Primitive -> option ScriptResultKind.t)
  (result_err : StorageError.t -> option ScriptResultKind.t) : outcome Empty_set verdict :=
  match retrieve s key (GetKB kb_key) with
  | Ok [] => Ok (verdict_of result_none)
  | Ok (KB kb :: _) => Ok (verdict_of (result_some (kb_value kb)))
  | Ok (_ :: _) => Ok (verdict_of result_none)
  | Err e => Ok (verdict_of (result_err e))
  | Panic => Panic
  | OutOfFuel => OutOfFuel
  end.

(** [for k in ks { check(k)? }] followed by the rest. *)
Fixpoint check_each (check : string -> outcome Empty_set verdict) (ks : list string)
  (rest : outcome Empty_set verdict) : outcome Empty_set verdict :=
  match ks with
  | [] => rest
  | k :: ks' =>
      match check k with
      | Ok (inl _) => check_each check ks' rest
      | o => o
      end
  end.

Definition check_required_key (s : Store) (key : ContextKey) (k : string) :=
  let missing := Some (ScriptResultKind.MissingRequiredKey k) in
  check_key s key k missing (fun _ => None) (fun _ => missing).
Definition check_mandatory_key (s : Store) (key : ContextKey) (k : string) :=
  let missing := Some (ScriptResultKind.MissingMandatoryKey k) in
  check_key s key k missing (fun _ => None) (fun _ => missing).
Definition check_exclude_key (s : Store) (key : ContextKey) (k : string) :=
  check_key s key k None (fun _ => Some (ScriptResultKind.ContainsExcludedKey k)) (fun _ => None).
Definition check_port (s : Store) (key : ContextKey) (pt : Protocol) (port : string) :=
  let missing := Some (ScriptResultKind.MissingPort pt port) in
  check_key s key (generate_port_kb_key pt port) missing
    (fun v => if primitive_bool v then None else missing) (fun _ => missing).

Definition check_keys (s : Store) (r : VTRunner) (n : Nvt) : outcome Empty_set verdict :=
  let key := generate_key r in
  check_each (check_required_key s key) (required_keys n)
    (check_each (check_mandatory_key s key) (mandatory_keys n)
      (check_each (check_exclude_key s key) (excluded_keys n)
        (check_each (check_port s key TCP) (required_ports n)
          (check_each (check_port s key UDP) (required_udp_ports n) (Ok (inl tt)))))).

(** The loop over the items of a script, left at an exit or an error. *)
Fixpoint run_items (key : ContextKey) (fuel n : nat) :
  M (@CodeInterpreter (context_of key)) Empty_set ScriptResultKind.t :=
  match n with
  | 0%nat => out_of_fuel
  | S n' =>
      o ← @next_item (context_of key) fuel;
      match o with
      | None => mret (ScriptResultKind.ReturnCode 0)
      | Some (inl (NaslValue.Exit x)) => mret (ScriptResultKind.ReturnCode x)
      | Some (inr e) => mret (ScriptResultKind.Error e)
      | Some (inl _) => run_items key fuel n'
      end
  end.

Definition get_result_kind (fuel : nat) (r : VTRunner) (code : string) (reg : Register)
  (w : StWorld) : outcome Empty_set ScriptResultKind.t * StWorld :=
  match check_keys (storage w) r (vt r) with
  | Ok (inl _) =>
      let key := generate_key r in
      let '(o, c) := run_items key fuel fuel (@new_code (context_of key) code reg w) in
      (o, @world (context_of key) (@interpreter (context_of key) c))
  | Ok (inr kind) => (Ok kind, w)
  | Err e => match e with end
  | Panic => (Panic, w)
  | OutOfFuel => (OutOfFuel, w)
  end.

Definition execute (fuel : nat) (r : VTRunner) (w : StWorld) :
  outcome ExecuteError.t ScriptResult * StWorld :=
  match st_load (filename (vt r)) w with
  | (inr e, w') => (Err (ExecuteError.NotFound e), w')
  | (inl code, w') =>
      match set_parameters r Register.new with
      | inr e => (Err e, w')
      | inl register =>
          match get_result_kind fuel r code register w' with
          | (Ok kind, w'') =>
              (Ok (mkScriptResult (oid (vt r)) (filename (vt r)) (stage r) kind (target r)), w'')
          | (Err e, _) => match e with end
          | (Panic, w'') => (Panic, w'')
          | (OutOfFuel, w'') => (OutOfFuel, w'')
          end
      end
  end.
End VTRunner.

(** ** scan_runner.rs *)
Module Pos.
Record t := mk { host : nat; stage : nat; vt : nat }.
End Pos.

(** All hosts, waves and scripts within the wave, by their indices. *)
Definition all_positions (hosts : list string) (vts : list ConcurrentVT) : list Pos.t :=
  concat (imap (fun host _ =>
    concat (imap (fun stage (w : ConcurrentVT) =>
      imap (fun vt _ => Pos.mk host stage vt) w.2) vts)) hosts).

(** The run at a position; [None] is an index out of range. *)
Definition runner_at (scan : ScanModel) (vts : list ConcurrentVT) (pos : Pos.t) : option VTRunner :=
  w ← vts !! Pos.stage pos;
  v ← w.2 !! Pos.vt pos;
  host ← hosts scan !! Pos.host pos;
  Some (mkVTRunner host v.1 w.1 v.2 (scan_id scan)).

(** What [stream] runs, one after the other. *)
Definition stream_runs (scan : ScanModel) (vts : list ConcurrentVT) : list (option VTRunner) :=
  map (runner_at scan vts) (all_positions (hosts scan) vts).

(** [ScanRunner::host_info] *)
Definition runner_host_info (scan : ScanModel) (vts : list ConcurrentVT) : HostInfo :=
  from_hosts_and_num_vts (hosts scan) (Z.of_nat (length vts)).

(** [Schedule::cache]: the collected waves, or the first error. *)
Fixpoint cache (items : list (ConcurrentVT + VTError.t)) : list ConcurrentVT + VTError.t :=
  match items with
  | [] => inl []
  | inr e :: _ => inr e
  | inl x :: items' => match cache items' with inl xs => inl (x :: xs) | inr e => inr e end
  end.

(** ** models/scanner.rs: errors; the reason is kept as the error it is the text of *)
Inductive ObservableResources : Set := CPU | Memory | IO.

Module ScanError.
Inductive t : Type :=
| Unexpected (s : string)
| Connection (s : string)
| InsufficientResources (l : list ObservableResources)
| Poisoned
| ScanNotFound (id : string)
| SchedulingError (id : string) (reason : VTError.t).
End ScanError.

(** ** running_scan.rs *)
Section RunningScan.
Context `{ScannerStack}.

Record RunningScan := mkRunning { rs_world : StWorld; rs_status : Status }.
Abbreviation R := (M RunningScan ScanError.t).

Definition set_status (f : Status -> Status) : R unit :=
  modify (fun s => mkRunning (rs_world s) (f (rs_status s))).

(** Run one script and keep its [Result]. *)
Definition run_vt (fuel : nat) (r : VTRunner) : R (ScriptResult + ExecuteError.t) := fun s =>
  let '(o, w) := execute fuel r (rs_world s) in
  let s' := mkRunning w (rs_status s) in
  match o with
  | Ok x => (Ok (inl x), s')
  | Err e => (Ok (inr e), s')
  | Panic => (Panic, s')
  | OutOfFuel => (OutOfFuel, s')
  end.

Definition register_finished (t : string) : R unit :=
  s ← get;
  let st := rs_status s in
  match host_info st with
  | Some h =>
      h' ← or_panic (register_finished_script h t);
      set_status (fun st => mkStatus (start_time st) (end_time st) (status st) (Some h'))
  | None => mret tt
  end.

(** [run_to_completion]: the loop over the runs; [keep_running i] is the answer after the
    run number [i]. *)
Fixpoint run_to_completion (fuel : nat) (keep_running : nat -> bool) (i : nat)
  (runs : list (option VTRunner)) (end_phase : Phase.t) : R Phase.t :=
  match runs with
  | [] => mret end_phase
  | r :: runs' =>
      r ← or_panic r;
      it ← run_vt fuel r;
      end_phase ← match it with
        | inl result =>
            register_finished (sr_target result);;
            mret (if has_succeeded result then end_phase else Phase.Failed)
        | inr _ => mret Phase.Failed
        end;
      if keep_running i then run_to_completion fuel keep_running (S i) runs' end_phase
      else mret Phase.Stopped
  end.

Definition update_status_at_beginning_of_run (now : Z) (h : HostInfo) : R unit :=
  set_status (fun st => mkStatus (Some now) (end_time st) Phase.Running (Some h)).

Definition update_status_at_end_of_run (now : Z) (end_phase : Phase.t) : R unit :=
  set_status (fun st => mkStatus (start_time st) (Some now) end_phase (host_info st));;
  s ← get;
  match host_info (rs_status s) with
  | Some h =>
      h' ← or_panic (finish h);
      set_status (fun st => mkStatus (start_time st) (end_time st) (status st) (Some h'))
  | None => mret tt
  end.

(** [make_runner]: the waves to run; [n] bounds the planning and the number of waves. *)
Definition make_runner (n : nat) (scan : ScanModel) : R (list ConcurrentVT) :=
  s ← get;
  match execution_plan (E := WaveExecutionPlan) n (storage (rs_world s)) scan with
  | Ok plan =>
      items ← of_total (collect_plan n plan);
      match cache items with
      | inl vts => mret vts
      | inr e => throw (ScanError.SchedulingError (scan_id scan) e)
      end
  | Err e => throw (ScanError.SchedulingError (scan_id scan) e)
  | Panic => panic
  | OutOfFuel => out_of_fuel
  end.

(** [run]; [now] and [later] are the times of its two status updates. *)
Definition run_scan (n fuel : nat) (keep_running : nat -> bool) (now later : Z)
  (scan : ScanModel) : R unit :=
  vts ← make_runner n scan;
  update_status_at_beginning_of_run now (runner_host_info scan vts);;
  end_phase ← run_to_completion fuel keep_running 0 (stream_runs scan vts) Phase.Succeeded;
  update_status_at_end_of_run later end_phase.
End RunningScan.

(** ** mod.rs: the scanner

    [running] has a handle per started scan; a handle shares the status with the task of
    its scan. *)
Record RunningScanHandle := mkHandle { keep_running : bool; handle_status : Status }.

Record Scanner := mkScanner {
  running : gmap string RunningScanHandle;
  scanner_storage : DefaultDispatcher
}.

Definition new_scanner (s : DefaultDispatcher) : Scanner := mkScanner ∅ s.

(** The task is spawned; its handle starts with the default status. *)
Definition start_scan (s : Scanner) (scan : ScanModel) : Scanner :=
  mkScanner (<[scan_id scan := mkHandle true default_status]> (running s)) (scanner_storage s).

(** The removed handle, after [stop]: the task is aborted. *)
Definition stop_scan (s : Scanner) (id : string) :
  (RunningScanHandle + ScanError.t) * Scanner :=
  match running s !! id with
  | Some h =>
      (inl (mkHandle false (handle_status h)), mkScanner (delete id (running s)) (scanner_storage s))
  | None => (inr (ScanError.ScanNotFound id), s)
  end.

Definition delete_scan `{HashOrder} (s : Scanner) (id : string) : (unit + ScanError.t) * Scanner :=
  match stop_scan s id with
  | (inl _, s') =>
      (inl tt, mkScanner (running s') (remove_scan (scanner_storage s') (Scan id None)).2)
  | (inr e, s') => (inr e, s')
  end.

Definition fetch_results (s : Scanner) (id : string) : Status + ScanError.t :=
  match running s !! id with
  | Some h => inl (handle_status h)
  | None => inr (ScanError.ScanNotFound id)
  end.
