(* ===== verification/ScannerProps.v ===== *)
(** * What running a scan guarantees

    A script runs only when the knowledge base allows it; every host gets all scripts of
    the plan, dependencies first; the progress of hosts follows the finished scripts; and
    what starting, stopping and deleting scans do. *)

From S2P Require Import Prelude RustStr Token Tokenizer Statement Lexer NaslValue Errors Register Executor Operator Interpreter Nvt Storage StorageProps Models Scheduling SchedulingProps PlanProps PlanTheorems HostInfo Scanner.
Local Open Scope nat_scope.

(** ** The gate *)
Section Gate.
Context `{ScannerStack}.

(** The first value of a key. *)
Definition kb_value_of (s : Store) (key : ContextKey) (k : string) : option Primitive :=
  match retrieve s key (GetKB k) with Ok (KB kb :: _) => Some (kb_value kb) | _ => None end.

Definition kb_set (s : Store) (key : ContextKey) (k : string) : bool :=
  match kb_value_of s key k with Some _ => true | None => false end.

Definition port_open (s : Store) (key : ContextKey) (pt : Protocol) (port : string) : bool :=
  match kb_value_of s key (generate_port_kb_key pt port) with
  | Some v => primitive_bool v
  | None => false
  end.

(** Whether a test may run on a host. *)
Definition may_run (s : Store) (key : ContextKey) (n : Nvt) : bool :=
  forallb (kb_set s key) (required_keys n) && forallb (kb_set s key) (mandatory_keys n)
  && forallb (fun k => negb (kb_set s key k)) (excluded_keys n)
  && forallb (port_open s key TCP) (required_ports n)
  && forallb (port_open s key UDP) (required_udp_ports n).

(** The kind of refusal a result carries is about the test. *)
Definition refusal_of (s : Store) (key : ContextKey) (n : Nvt) (k : ScriptResultKind.t) : Prop :=
  match k with
  | ScriptResultKind.MissingRequiredKey x => x ∈ required_keys n /\ kb_set s key x = false
  | ScriptResultKind.MissingMandatoryKey x => x ∈ mandatory_keys n /\ kb_set s key x = false
  | ScriptResultKind.ContainsExcludedKey x => x ∈ excluded_keys n /\ kb_set s key x = true
  | ScriptResultKind.MissingPort pt x =>
      x ∈ match pt with TCP => required_ports n | UDP => required_udp_ports n end
      /\ port_open s key pt x = false
  | _ => False
  end.

Hypothesis retrieve_returns : forall s key k,
  match retrieve s key (GetKB k) with Ok _ | Err _ => True | _ => False end.

(** A check that answers by a boolean, with a refusal for [false]. *)
Definition answers (check : string -> outcome Empty_set verdict) (b : string -> bool)
  (refuse : string -> ScriptResultKind.t) : Prop :=
  forall k, check k = Ok (if b k then inl tt else inr (refuse k)).

Lemma check_each_answers check b refuse ks rest : answers check b refuse ->
  (forallb b ks = true /\ check_each check ks rest = rest)
  \/ (forallb b ks = false /\ exists k, k ∈ ks /\ b k = false /\ check_each check ks rest = Ok (inr (refuse k))).
Proof.
  intros Hc. induction ks as [|k ks IH]; simpl; [by left|].
  pose proof (Hc k) as Hk. destruct (check k) as [v| | |]; try done. injection Hk as ->.
  destruct (b k) eqn:E; simpl.
  - destruct IH as [IH|(? & k' & ? & ?)]; [by left|right]. split; [done|].
    exists k'. split; [by right|done].
  - right. split; [done|]. exists k. split; [left|done].
Qed.

Lemma required_answers s key :
  answers (check_required_key s key) (kb_set s key) ScriptResultKind.MissingRequiredKey.
Proof.
  intros k. unfold check_required_key, check_key, kb_set, kb_value_of.
  specialize (retrieve_returns s key k). by destruct (retrieve s key _) as [[|[]]| | |].
Qed.

Lemma mandatory_answers s key :
  answers (check_mandatory_key s key) (kb_set s key) ScriptResultKind.MissingMandatoryKey.
Proof.
  intros k. unfold check_mandatory_key, check_key, kb_set, kb_value_of.
  specialize (retrieve_returns s key k). by destruct (retrieve s key _) as [[|[]]| | |].
Qed.

Lemma exclude_answers s key :
  answers (check_exclude_key s key) (fun k => negb (kb_set s key k)) ScriptResultKind.ContainsExcludedKey.
Proof.
  intros k. unfold check_exclude_key, check_key, kb_set, kb_value_of.
  specialize (retrieve_returns s key k). by destruct (retrieve s key _) as [[|[]]| | |].
Qed.

Lemma port_answers s key pt :
  answers (check_port s key pt) (port_open s key pt) (ScriptResultKind.MissingPort pt).
Proof.
  intros k. unfold check_port, check_key, port_open, kb_value_of.
  specialize (retrieve_returns s key (generate_port_kb_key pt k)).
  destruct (retrieve s key _) as [[|[]]| | |]; try done. by destruct (primitive_bool _).
Qed.

Lemma check_keys_spec s r n :
  (may_run s (generate_key r) n = true /\ check_keys s r n = Ok (inl tt))
  \/ (may_run s (generate_key r) n = false
      /\ exists k, check_keys s r n = Ok (inr k) /\ refusal_of s (generate_key r) n k).
Proof.
  unfold may_run, check_keys. set (key := generate_key r).
  set (u := check_each (check_port s key UDP) _ _). set (t := check_each (check_port s key TCP) _ _).
  set (x := check_each (check_exclude_key s key) _ _). set (m := check_each (check_mandatory_key s key) _ _).
  destruct (check_each_answers _ _ _ (required_keys n) m (required_answers s key))
    as [[-> ->]|(-> & k & ? & ? & ->)]; [|right; split; [done|by eexists]].
  destruct (check_each_answers _ _ _ (mandatory_keys n) x (mandatory_answers s key))
    as [[-> E]|(-> & k & ? & ? & E)]; unfold m; rewrite E; clear E;
    [|right; split; [done|by eexists]].
  destruct (check_each_answers _ _ _ (excluded_keys n) t (exclude_answers s key))
    as [[-> E]|(-> & k & ? & Hk%negb_false_iff & E)]; unfold x; rewrite E; clear E;
    [|right; split; [done|by eexists]].
  destruct (check_each_answers _ _ _ (required_ports n) u (port_answers s key TCP))
    as [[-> E]|(-> & k & ? & ? & E)]; unfold t; rewrite E; clear E;
    [|right; split; [done|by eexists]].
  destruct (check_each_answers _ _ _ (required_udp_ports n) (Ok (inl tt)) (port_answers s key UDP))
    as [[-> E]|(-> & k & ? & ? & E)]; unfold u; rewrite E; clear E;
    [by left|right; split; [done|by eexists]].
Qed.

Lemma get_result_kind_spec fuel r code reg w :
  if may_run (storage w) (generate_key r) (vt r) then
    get_result_kind fuel r code reg w
    = let key := generate_key r in
      let '(o, c) := run_items key fuel fuel (@new_code (context_of key) code reg w) in
      (o, @world (context_of key) (@interpreter (context_of key) c))
  else exists k, get_result_kind fuel r code reg w = (Ok k, w)
    /\ refusal_of (storage w) (generate_key r) (vt r) k.
Proof.
  unfold get_result_kind.
  destruct (check_keys_spec (storage w) r (vt r)) as [[-> ->]|(-> & k & -> & Hk)]; [done|eauto].
Qed.

Lemma refused_result s r k w : refusal_of s (generate_key r) (vt r) k ->
  exists res, (Ok (E := ExecuteError.t)
      (mkScriptResult (oid (vt r)) (filename (vt r)) (stage r) k (target r)), w) = (Ok res, w : StWorld)
    /\ has_not_run res = true /\ sr_filename res = filename (vt r) /\ sr_target res = target r
    /\ refusal_of s (generate_key r) (vt r) (sr_kind res).
Proof. intros Hk. eexists. split; [done|]. by destruct k. Qed.

(** C7: A script is run on a host only when the knowledge base of the scan and the host
    allows it: all required and mandatory keys are set, no excluded key is, and all
    required ports are open.  Otherwise the result says that it has not run, names a
    condition that does not hold, and nothing is changed.  A script that cannot be loaded
    or that was given a parameter is an error; then nothing of it runs either. *)
Theorem script_gate (fuel : nat) (r : VTRunner) (w : StWorld) :
  match st_load (filename (vt r)) w with
  | (inr e, w') => execute fuel r w = (Err (ExecuteError.NotFound e), w')
  | (inl code, w') =>
      match param r with
      | Some (p :: _) => execute fuel r w = (Err (ExecuteError.UnhandledParameter p), w')
      | _ =>
          if may_run (storage w') (generate_key r) (vt r) then
            let key := generate_key r in
            let '(o, c) := run_items key fuel fuel
                             (@new_code (context_of key) code Register.new w') in
            (execute fuel r w).2 = @world (context_of key) (@interpreter (context_of key) c)
            /\ forall res, (execute fuel r w).1 = Ok res <->
                 o = Ok (sr_kind res)
                 /\ res = mkScriptResult (oid (vt r)) (filename (vt r)) (stage r) (sr_kind res) (target r)
          else exists res, execute fuel r w = (Ok res, w') /\ has_not_run res = true
            /\ sr_filename res = filename (vt r) /\ sr_target res = target r
            /\ refusal_of (storage w') (generate_key r) (vt r) (sr_kind res)
      end
  end.
Proof.
  unfold execute. destruct (st_load (filename (vt r)) w) as [[code|e] w']; [|done].
  pose proof (get_result_kind_spec fuel r code Register.new w') as Hk.
  unfold set_parameters. destruct (param r) as [[|p ps]|]; [|done|];
    simpl set_each; destruct (may_run _ _ _);
    [|destruct Hk as (k & -> & Hk); by eapply refused_result|
     |destruct Hk as (k & -> & Hk); by eapply refused_result];
    rewrite Hk; cbv zeta; destruct (run_items _ _ _ _) as [[k|[]| |] c];
    (split; [done|]); intros []; simpl; naive_solver.
Qed.
End Gate.

(** ** The order of the runs *)

(** All scripts of all waves, host by host. *)
Definition runs_on (id host : string) (vts : list ConcurrentVT) : list VTRunner :=
  concat (map (fun w : ConcurrentVT => map (fun v => mkVTRunner host v.1 w.1 v.2 id) w.2) vts).
Definition planned_runs (scan : ScanModel) (vts : list ConcurrentVT) : list VTRunner :=
  concat (map (fun host => runs_on (scan_id scan) host vts) (hosts scan)).

Lemma imap_pointwise {A B} (f : nat -> A -> B) (g : A -> B) (l : list A) :
  (forall i x, l !! i = Some x -> f i x = g x) -> imap f l = map g l.
Proof.
  intros Hf. apply list_eq. intros i. change (map g l) with (g <$> l).
  rewrite list_lookup_imap, list_lookup_fmap.
  destruct (l !! i) as [x|] eqn:E; [|done]. simpl. by rewrite Hf.
Qed.

Lemma map_concat_imap {A B C} (g : B -> C) (f : nat -> A -> list B) (l : list A) :
  map g (concat (imap f l)) = concat (imap (fun i x => map g (f i x)) l).
Proof. rewrite concat_map. f_equal. apply fmap_imap. Qed.

(** The positions are all in range and enumerate the runs in this order. *)
Lemma stream_runs_planned scan vts : stream_runs scan vts = map Some (planned_runs scan vts).
Proof.
  unfold stream_runs, all_positions, planned_runs. rewrite map_concat_imap, concat_map, map_map.
  f_equal. apply imap_pointwise. intros h host Hh. unfold runs_on.
  rewrite map_concat_imap, concat_map, map_map. f_equal.
  apply imap_pointwise. intros i w Hw. rewrite map_map. etrans; [apply fmap_imap|].
  apply imap_pointwise. intros j v Hv. simpl. unfold runner_at. simpl. rewrite Hw. simpl.
  rewrite Hv. simpl. by rewrite Hh.
Qed.

Lemma concat_split {A} (ls : list (list A)) pre x post : concat ls = pre ++ x :: post ->
  exists l1 p q l2, ls = l1 ++ (p ++ x :: q) :: l2 /\ pre = concat l1 ++ p.
Proof.
  revert pre. induction ls as [|l ls IH]; intros pre; simpl; [by destruct pre|].
  intros E. apply app_eq_app in E as (k & [[-> E]|[-> E]]).
  - destruct k as [|y k]; simplify_eq/=.
    + destruct (IH [] (eq_sym E)) as (l1 & p & q & l2 & -> & E').
      exists ((pre ++ []) :: l1), p, q, l2. split; [done|].
      symmetry in E'. apply app_eq_nil in E' as [E' ->]. simpl. by rewrite E', !app_nil_r.
    + exists [], pre, k, ls. done.
  - destruct (IH k E) as (l1 & p & q & l2 & -> & ->).
    exists (l :: l1), p, q, l2. simpl. by rewrite app_assoc.
Qed.

(** A run is preceded, on its host, by everything in earlier waves. *)
Lemma planned_split scan vts pre r post : planned_runs scan vts = pre ++ r :: post ->
  exists w1 w w2 v, vts = w1 ++ w :: w2 /\ v ∈ w.2 /\ target r ∈ hosts scan
  /\ r = mkVTRunner (target r) v.1 w.1 v.2 (scan_id scan)
  /\ forall w' v', w' ∈ w1 -> v' ∈ w'.2 ->
       mkVTRunner (target r) v'.1 w'.1 v'.2 (scan_id scan) ∈ pre.
Proof.
  unfold planned_runs. intros (l1 & p & q & l2 & E & ->)%concat_split.
  apply map_eq_app in E as (h1 & hs & Hhosts & <- & E). apply map_eq_cons in E as (h & h2 & -> & E & _).
  unfold runs_on in E. apply concat_split in E as (k1 & p' & q' & k2 & E & ->).
  apply map_eq_app in E as (w1 & ws & -> & <- & E). apply map_eq_cons in E as (w & w2 & -> & E & _).
  apply map_eq_app in E as (v1 & vs & Ew & <- & E). apply map_eq_cons in E as (v & v2 & -> & <- & _).
  exists w1, w, w2, v. rewrite Ew, Hhosts. split_and!; [done|set_solver|simpl; set_solver|done|].
  intros w' v' Hw' Hv'. simpl. apply elem_of_app. right. apply elem_of_app. left.
  apply list_elem_of_In, in_concat. eexists. split; [apply in_map_iff; exists w'|apply in_map_iff; exists v'].
  - split; [done|by apply list_elem_of_In].
  - split; [done|by apply list_elem_of_In].
Qed.

(** ** From the plan to the runs *)
Lemma pending_split `{HashOrder} i ps w1 st vs w2 : pending i ps = w1 ++ (st, vs) :: w2 ->
  exists k p da m db, ps !! k = Some p /\ stage_try_from (i + k) = inl st
  /\ data p = da ++ m :: db /\ vs = (iter m).*2
  /\ forall m', m' ∈ da -> (st, (iter m').*2) ∈ w1.
Proof.
  revert i w1. induction ps as [|p ps IH]; intros i w1; simpl; [by destruct w1|].
  intros E. apply app_eq_app in E as (k & [[E1 E2]|[-> E]]).
  - destruct k as [|y k]; simplify_eq/=.
    + destruct (IH (S i) [] (eq_sym E2)) as (k & q & da & m & db & Hq & Hst & Hd & -> & Hin).
      exists (S k), q, da, m, db. rewrite Nat.add_succ_r. split_and!; [done..|].
      intros m' Hm'. apply Hin in Hm'. by apply elem_of_nil in Hm'.
    + destruct (stage_try_from i) as [st'|] eqn:Es; [|by destruct w1].
      unfold stage_waves in E1. apply map_eq_app in E1 as (da & dm & Hd & <- & E1).
      apply map_eq_cons in E1 as (m & db & -> & [= -> <-] & _).
      exists 0, p, da, m, db. rewrite Nat.add_0_r. split_and!; [done..|].
      intros m' Hm'. apply list_elem_of_In, in_map_iff. exists m'. split; [done|by apply list_elem_of_In].
  - destruct (IH (S i) k E) as (k' & q & da & m & db & Hq & Hst & Hd & -> & Hin).
    exists (S k'), q, da, m, db. rewrite Nat.add_succ_r. split_and!; [done..|].
    intros m' Hm'. apply elem_of_app. right. by apply Hin.
Qed.

Lemma pending_elem `{HashOrder} i ps k p m st : ps !! k = Some p -> stage_try_from (i + k) = inl st ->
  m ∈ data p -> (st, (iter m).*2) ∈ pending i ps.
Proof.
  revert i k. induction ps as [|q ps IH]; intros i k Hk Hst Hm; [done|]. simpl.
  apply elem_of_app. destruct k as [|k]; simplify_eq/=.
  - left. rewrite Nat.add_0_r in Hst. rewrite Hst. unfold stage_waves.
    by apply (list_elem_of_fmap_2 (fun m => (st, (iter m).*2))).
  - right. apply (IH (S i) k); [done| |done]. by rewrite Nat.add_succ_comm.
Qed.

Lemma cache_all items : cache (inl <$> items) = inl items.
Proof. induction items as [|x items IH]; [done|]. csimpl. by rewrite IH. Qed.

(** Waves that are not empty and hold scripts of different depths of a feed are at most as
    many as its scripts. *)
Lemma waves_bound (fs : list Nvt) L (d : list (gmap string RuntimeVT)) :
  (forall j m, d !! j = Some m -> m <> ∅) ->
  (forall j m k v, d !! j = Some m -> m !! k = Some v -> v.1 ∈ fs /\ depth L v.1 j) ->
  length d <= length fs.
Proof.
  intros Hne Hd.
  assert (forall n, n <= length d -> exists xs, length xs = n /\ NoDup xs
    /\ forall x, x ∈ xs -> x ∈ fs /\ exists j, j < n /\ depth L x j) as Hxs.
  { induction n as [|n IH]; intros Hn.
    - exists []. split_and!; [done|constructor|]. intros x Hx. by apply elem_of_nil in Hx.
    - destruct IH as (xs & Hlen & Hnd & Hall); [lia|].
      destruct (lookup_lt_is_Some_2 d n) as [m Hm]; [lia|].
      destruct (map_choose m) as (k & v & Hk); [by eapply Hne|].
      destruct (Hd n m k v Hm Hk) as [Hin Hdep]. exists (v.1 :: xs). split_and!.
      + simpl. lia.
      + constructor; [|done]. intros Hx%Hall. destruct Hx as (_ & j & Hj & Hdj).
        pose proof (depth_unique _ _ _ _ Hdep Hdj). lia.
      + intros x [->|Hx]%elem_of_cons; [eauto|]. destruct (Hall x Hx) as (? & j & ? & ?).
        split; [done|]. exists j. split; [lia|done]. }
  destruct (Hxs (length d)) as (xs & <- & Hnd & Hall); [lia|].
  apply submseteq_length, NoDup_submseteq; [done|]. intros x Hx. by apply Hall.
Qed.

Lemma pending_length `{HashOrder} i ps n : (forall p, p ∈ ps -> length (data p) <= n) ->
  length (pending i ps) <= length ps * n.
Proof.
  revert i. induction ps as [|p ps IH]; intros i Hps; simpl; [lia|]. rewrite length_app.
  specialize (IH (S i) (fun q Hq => Hps q (list_elem_of_further _ _ _ Hq))).
  assert (length (data p) <= n) by (apply Hps; left).
  destruct (stage_try_from i); simpl; unfold stage_waves; rewrite ?length_fmap; lia.
Qed.

Section Runs.
Context `{ScannerStack} (feed : Store -> list Nvt) `{!NvtRetriever Store feed}.

(** The waves of a plan that keeps its promise. *)
Lemma plan_waves s scan plan : plan_promise feed s scan (Ok plan) -> length (pending 0 (plans plan)) <= 4 * length (feed s).
Proof.
  intros (Hidx & Hlen & Hord & _ & Hin & _). destruct plan as [ps i]. simpl in *. subst i.
  pose proof (pending_length 0 ps (length (feed s))) as Hb. rewrite Hlen in Hb. apply Hb.
  intros p [k Hk]%list_elem_of_lookup. eapply (waves_bound _ (library (feed s))).
  - by apply (Hord k).
  - intros j m k' v Hj Hv. by destruct (Hin k p j m k' v Hk Hj Hv) as (_ & ? & ? & _).
Qed.
Lemma plan_items s scan plan n : plan_promise feed s scan (Ok plan) -> 4 * length (feed s) < n ->
  collect_plan n plan = Ok (inl <$> pending 0 (plans plan)).
Proof.
  intros Hp Hn. pose proof (plan_waves _ _ _ Hp). destruct Hp as (Hidx & Hlen & _). destruct plan as [ps i]. simpl in *. subst i.
  apply (collect_pending n [] ps); [done|]. simpl. lia.
Qed.

(** The dependencies of a script are in earlier waves of the same stage. *)
Lemma waves_order s scan plan w1 w w2 v d : plan_promise feed s scan (Ok plan) ->
  pending 0 (plans plan) = w1 ++ w :: w2 -> v ∈ w.2 -> d ∈ dependencies v.1 ->
  exists w' v', w' ∈ w1 /\ v' ∈ w'.2 /\ w'.1 = w.1 /\ filename v'.1 = d.
Proof.
  intros (_ & _ & Hord & _ & Hin & _) E Hv Hd. destruct w as [st vs].
  destruct (pending_split _ _ _ _ _ _ E) as (k & p & da & m & db & Hp & Hst & Hdata & -> & Hda).
  apply elem_of_values in Hv as [f Hf].
  assert (data p !! length da = Some m) as Hm by (rewrite Hdata; by apply list_lookup_middle).
  destruct (proj1 (Hord k p Hp) _ _ _ _ Hm Hf d Hd) as (j & m' & Hj & Hm' & [v' Hv']).
  exists (st, (iter m').*2), v'. split_and!; [|apply elem_of_values; eauto|done|].
  - apply Hda. apply list_elem_of_lookup. exists j. rewrite Hdata in Hm'.
    by rewrite lookup_app_l in Hm'.
  - by destruct (Hin k p j m' d v' Hp Hm' Hv') as [-> _].
Qed.

(** Every requested script is in a wave of its stage. *)
Lemma waves_complete s scan plan x : plan_promise feed s scan (Ok plan) ->
  x ∈ feed s -> requested scan x = true ->
  exists w pos, w ∈ pending 0 (plans plan) /\ w.1 = stage_of x
  /\ (x, parameters <$> scan_vts scan !! pos) ∈ w.2.
Proof.
  intros (_ & _ & _ & _ & _ & Hall) Hx Hr. destruct (Hall x Hx Hr) as (p & j & m & pos & Hp & Hj & Hm).
  exists (stage_of x, (iter m).*2), pos. split_and!; [|done|apply elem_of_values; eauto].
  apply (pending_elem 0 _ (stage_index (stage_of x)) p); [done|by destruct (stage_of x)|].
  by eapply list_elem_of_lookup_2.
Qed.

(** Runs in which every script comes after its dependencies, on the same host and in the same
    stage. *)
Definition dependencies_first (runs : list VTRunner) : Prop :=
  forall pre r post, runs = pre ++ r :: post ->
  forall d, d ∈ dependencies (vt r) -> exists r', r' ∈ pre
    /\ target r' = target r /\ stage r' = stage r /\ filename (vt r') = d.
(** Every requested script on every host *)
Definition requested_on_all (scan : ScanModel) (tests : list Nvt) (runs : list VTRunner) : Prop :=
  forall x h, x ∈ tests -> requested scan x = true -> h ∈ hosts scan ->
  exists r, r ∈ runs /\ vt r = x /\ target r = h /\ stage r = stage_of x.

(** What the runner of a scan will run. *)
Lemma runner_plan (n : nat) (scan : ScanModel) (s : RunningScan) :
  let tests := feed (storage (rs_world s)) in
  NoDup (filename <$> tests) -> 4 * length tests + 2 <= n ->
  match make_runner n scan s with
  | (Ok vts, s') => s' = s /\ length vts <= 4 * length tests
      /\ exists runs, stream_runs scan vts = map Some runs /\ Forall (fun r => target r ∈ hosts scan) runs
         /\ dependencies_first runs /\ requested_on_all scan tests runs
  | (Err (ScanError.SchedulingError id (VTError.MissingDependencies x missing)), s') =>
      s' = s /\ id = scan_id scan /\ x ∈ tests /\ requested scan x = true
      /\ ~ resolvable (library tests) x
  | _ => False
  end.
Proof.
  intros tests Hnd Hn. subst tests. unfold make_runner, mbind, M_bind, get.
  pose proof (scan_plan_spec feed n (storage (rs_world s)) scan Hnd ltac:(lia)) as Hp.
  destruct (execution_plan n _ scan) as [plan|[]| |]; try done.
  2: { destruct Hp as (? & ? & ? & _). simpl. done. }
  rewrite (plan_items _ scan plan n Hp) by lia. unfold of_total. cbv beta iota. rewrite cache_all. simpl.
  set (vts := pending 0 (plans plan)).
  split; [done|]. split; [by apply (plan_waves _ scan plan)|].
  exists (planned_runs scan vts). split_and!; [apply stream_runs_planned|..].
  - apply Forall_forall. intros rr Hrr. apply list_elem_of_split in Hrr as (pre & post & E).
    destruct (planned_split _ _ _ _ _ E) as (w1 & w & w2 & v & Hvts & Hv & Ht & _). done.
  - intros pre rr post E d Hd.
    destruct (planned_split _ _ _ _ _ E) as (w1 & w & w2 & v & Hvts & Hv & Ht & Hr & Hpre).
    rewrite Hr in Hd. simpl in Hd.
    destruct (waves_order _ _ _ _ _ _ _ _ Hp Hvts Hv Hd) as (w' & v' & Hw' & Hv' & Hst & <-).
    eexists. split; [by apply (Hpre w' v')|]. simpl. rewrite Hr. simpl. done.
  - intros x h Hx Hr Hh. destruct (waves_complete _ _ _ _ Hp Hx Hr) as (w & pos & Hw & Hst & Hin).
    exists (mkVTRunner h x w.1 (parameters <$> scan_vts scan !! pos) (scan_id scan)).
    split_and!; [|done..]. apply list_elem_of_In, in_concat.
    exists (runs_on (scan_id scan) h vts). split; [apply (in_map (fun h => runs_on (scan_id scan) h vts)), list_elem_of_In; done|].
    apply in_concat. eexists. split; [apply in_map, list_elem_of_In, Hw|].
    apply in_map_iff. eexists. split; [|by apply list_elem_of_In, Hin]. done.
Qed.
End Runs.
