(* ===== verification/ScanStatus.v ===== *)
(** * The status of a scan while it runs

    How the progress of hosts follows the finished scripts and is merged with stored
    progress, what the operations of the scanner make visible, and runs of small scans. *)

From S2P Require Import Prelude RustStr Token Tokenizer Statement Lexer NaslValue Errors Register Executor Operator Interpreter Nvt Storage StorageProps Models Scheduling SchedulingProps PlanProps PlanTheorems HostInfo Scanner ScannerProps.
Local Open Scope Z_scope.

(** ** Progress of hosts *)

(** The scripts that finished, in turn, on their hosts. *)
Definition register_all `{BuildProfile} (h : HostInfo) (ts : list string) : option HostInfo :=
  foldl (fun o t => o ≫= fun h => register_finished_script h t) (Some h) ts.

Definition count (x : string) (ts : list string) : Z :=
  Z.of_nat (length (List.filter (fun y => bool_decide (y = x)) ts)).

Definition done_hosts (hosts : list string) (num : Z) (ts : list string) : list string :=
  List.filter (fun x => num <=? count x ts) hosts.

Lemma count_snoc x ts t : count x (ts ++ [t]) = count x ts + (if bool_decide (t = x) then 1 else 0).
Proof.
  unfold count. rewrite List.filter_app, length_app. simpl. destruct (bool_decide (t = x)); simpl; lia.
Qed.

Lemma count_pos x ts : 0 <= count x ts.
Proof. unfold count. lia. Qed.

Lemma filter_ext_elem {A} (f g : A -> bool) l : (forall x, x ∈ l -> f x = g x) ->
  List.filter f l = List.filter g l.
Proof.
  induction l as [|x l IH]; simpl; intros Hl; [done|].
  rewrite (Hl x), IH by set_solver. done.
Qed.

(** One more element satisfies the predicate. *)
Lemma filter_one_more (f g : string -> bool) l t : NoDup l -> t ∈ l -> f t = false -> g t = true ->
  (forall x, x <> t -> f x = g x) -> length (List.filter g l) = S (length (List.filter f l)).
Proof.
  intros Hnd Ht Hf Hg Hne. induction Hnd as [|x l Hx Hnd IH]; [by apply elem_of_nil in Ht|].
  simpl. apply elem_of_cons in Ht as [<-|Ht].
  - rewrite Hf, Hg. simpl. do 2 f_equal. apply filter_ext_elem. intros x' Hx'.
    symmetry. apply Hne. intros ->. done.
  - rewrite (Hne x) by (intros ->; done). destruct (g x); simpl; by rewrite IH.
Qed.

Lemma initial_remaining (hosts : list string) (num : Z) x :
  collect_map (map (fun host => (host, num)) hosts) !! x = if decide (x ∈ hosts) then Some num else None.
Proof.
  induction hosts as [|h hosts IH] using rev_ind; [done|].
  unfold collect_map in *. rewrite map_app, foldl_app. simpl.
  destruct (decide (x = h)) as [->|].
  - rewrite lookup_insert_eq, decide_True by set_solver. done.
  - rewrite lookup_insert_ne, IH by done. apply decide_ext. set_solver.
Qed.

Section Progress.
Context `{BuildProfile} (hosts : list string) (num : Z).
Hypothesis hosts_unique : NoDup hosts.
Hypothesis hosts_few : Z.of_nat (length hosts) < 2 ^ 64.
Hypothesis num_range : 1 <= num < 2 ^ 64.

(** The progress after the scripts [ts]. *)
Definition progress_after (ts : list string) (h : HostInfo) : Prop :=
  all h = Z.of_nat (length hosts)
  /\ finished h = Z.of_nat (length (done_hosts hosts num ts))
  /\ queued h = Z.of_nat (length hosts) - finished h
  /\ forall x, remaining_vts_per_host h !! x
       = if decide (x ∈ hosts /\ count x ts < num) then Some (num - count x ts) else None.

Lemma done_bound ts : (length (done_hosts hosts num ts) <= length hosts)%nat.
Proof. apply List.filter_length_le. Qed.

Lemma done_all_bound ts t : t ∈ hosts -> count t ts < num ->
  (length (done_hosts hosts num ts) < length hosts)%nat.
Proof.
  intros Ht Hc. unfold done_hosts.
  pose proof (List.filter_length_le (fun x => (num <=? count x ts) || bool_decide (x = t)) hosts) as Hle.
  rewrite (filter_one_more (fun x => num <=? count x ts) _ hosts t) in Hle; try done.
  - by apply Z.leb_gt.
  - by rewrite bool_decide_eq_true_2, orb_true_r.
  - intros x Hx. by rewrite bool_decide_eq_false_2, orb_false_r.
Qed.

Lemma progress_start : progress_after [] (from_hosts_and_num_vts hosts num).
Proof.
  assert (done_hosts hosts num [] = []) as E.
  { unfold done_hosts. rewrite (filter_ext_elem _ (fun _ => false)); [clear; by induction hosts|].
    intros x _. apply Z.leb_gt. unfold count. simpl. lia. }
  unfold progress_after. rewrite E. split_and!; try done; [simpl; lia|].
  intros x. simpl. rewrite initial_remaining. unfold count. simpl.
  destruct (decide (x ∈ hosts)), (decide (_ /\ _)) as [[? ?]|Hn]; try done; [f_equal; lia|].
  destruct Hn. split; [done|lia].
Qed.

Lemma arith_u_in z : 0 <= z < 2 ^ 64 -> arith_u 64 z = Some z.
Proof. intros Hz. unfold arith_u. by rewrite (proj2 (in_u_spec 64 z)). Qed.

Lemma progress_step ts t h : t ∈ hosts -> progress_after ts h ->
  exists h', register_finished_script h t = Some h' /\ progress_after (ts ++ [t]) h'.
Proof.
  intros Ht (Hall & Hfin & Hque & Hrem). unfold register_finished_script. rewrite (Hrem t).
  pose proof (done_bound ts) as Hb. pose proof (count_pos t ts) as Hpos.
  assert (forall x, x <> t -> count x (ts ++ [t]) = count x ts) as Hother.
  { intros x Hx. rewrite count_snoc, bool_decide_eq_false_2 by done. lia. }
  assert (count t (ts ++ [t]) = count t ts + 1) as Hthis.
  { by rewrite count_snoc, bool_decide_eq_true_2. }
  destruct (decide (t ∈ hosts /\ count t ts < num)) as [[_ Hlt]|Hno].
  - pose proof (done_all_bound ts t Ht Hlt) as Hbt. simpl. rewrite (arith_u_in (num - count t ts - 1)) by lia. simpl.
    destruct (Z.eqb_spec (num - count t ts - 1) 0) as [Hz|Hz]; simpl.
    + rewrite !arith_u_in by lia. simpl. eexists. split; [done|].
      unfold progress_after, done_hosts. simpl.
      rewrite (filter_one_more (fun x => num <=? count x ts) _ hosts t); try done;
        [|by apply Z.leb_gt|apply Z.leb_le; lia|intros x Hx; simpl; rewrite (Hother x Hx); done].
      unfold done_hosts in Hfin. split_and!; [done|lia|lia|].
      intros x. destruct (decide (x = t)) as [->|Hx].
      * rewrite lookup_delete_eq, decide_False; [done|]. intros [_ ?]. lia.
      * rewrite lookup_delete_ne, Hrem, (Hother x Hx) by done. done.
    + eexists. split; [done|]. unfold progress_after, done_hosts. simpl.
      erewrite (filter_ext_elem _ (fun x => num <=? count x ts)).
      2: { intros x _. destruct (decide (x = t)) as [->|Hx]; [|by rewrite Hother].
           rewrite Hthis. destruct (Z.leb_spec num (count t ts)), (Z.leb_spec num (count t ts + 1)); lia. }
      split_and!; [done|done|done|]. intros x. destruct (decide (x = t)) as [->|Hx].
      * rewrite lookup_insert_eq, decide_True by (split; [done|lia]). f_equal. lia.
      * by rewrite lookup_insert_ne, Hrem, (Hother x Hx).
  - eexists. split; [done|]. assert (num <= count t ts) by (destruct (decide (num <= count t ts)); [done|]; destruct Hno; split; [done|lia]).
    unfold progress_after, done_hosts. erewrite (filter_ext_elem _ (fun x => num <=? count x ts)).
    2: { intros x _. destruct (decide (x = t)) as [->|Hx]; [|by rewrite Hother].
         rewrite Hthis. destruct (Z.leb_spec num (count t ts)), (Z.leb_spec num (count t ts + 1)); lia. }
    split_and!; [done|done|done|]. intros x. rewrite Hrem. destruct (decide (x = t)) as [->|Hx].
    + rewrite !decide_False; [done|intros [_ ?]; lia|intros [_ ?]; lia].
    + by rewrite Hother.
Qed.

Lemma progress_all ts : (forall t, t ∈ ts -> t ∈ hosts) ->
  exists h, register_all (from_hosts_and_num_vts hosts num) ts = Some h /\ progress_after ts h.
Proof.
  induction ts as [|t ts IH] using rev_ind; intros Hts; [eexists; split; [done|apply progress_start]|].
  destruct IH as (h & Hh & Hp); [set_solver|]. unfold register_all in *. rewrite foldl_app, Hh. simpl.
  apply progress_step; [set_solver|done].
Qed.
End Progress.

(** The progress of a scan after any sequence of finished scripts: a host is finished
    once as many scripts finished on it as the plan has waves, all other hosts are queued,
    and no counter over- or underflows.  The end of the run is accepted exactly when all
    hosts are finished in this sense, and otherwise panics. *)
Theorem host_progress `{BuildProfile} (scan : ScanModel) (vts : list ConcurrentVT) (ts : list string) :
  NoDup (hosts scan) -> Z.of_nat (length (hosts scan)) < 2 ^ 64 ->
  1 <= Z.of_nat (length vts) < 2 ^ 64 -> (forall t, t ∈ ts -> t ∈ hosts scan) ->
  exists h, register_all (runner_host_info scan vts) ts = Some h
  /\ progress_after (hosts scan) (Z.of_nat (length vts)) ts h
  /\ (is_Some (finish h)
      <-> forall x, x ∈ hosts scan -> Z.of_nat (length vts) <= count x ts).
Proof.
  intros Hnd Hfew Hnum Hts. destruct (progress_all (hosts scan) _ Hnd Hfew Hnum ts Hts) as (h & Hh & Hp).
  exists h. split_and!; [done|done|]. destruct Hp as (_ & Hf & Hq & _).
  unfold finish. destruct (Z.eqb_spec (queued h) 0) as [Hz|Hz].
  - split; [|by eexists]. intros _ x Hx. apply Z.le_ngt. intros Hlt.
    pose proof (done_all_bound _ (Z.of_nat (length vts)) Hnd ts x Hx Hlt). lia.
  - split; [by intros []|]. intros Hall. destruct Hz.
    assert (done_hosts (hosts scan) (Z.of_nat (length vts)) ts = hosts scan) as E.
    { unfold done_hosts. rewrite (filter_ext_elem _ (fun _ => true)).
      - clear. by induction (hosts scan) as [|x l IH]; simpl; [|rewrite IH].
      - intros x Hx. by apply Z.leb_le, Hall. }
    rewrite E in Hf. lia.
Qed.

(** ** What a scan runs *)
Section RunAll.
Context `{ScannerStack}.

(** The scripts executed one after the other, each in the world the one before left. *)
Fixpoint execute_each (fuel : nat) (runs : list VTRunner) (w : StWorld) :
  list (outcome ExecuteError.t ScriptResult) * StWorld :=
  match runs with
  | [] => ([], w)
  | r :: runs' =>
      let '(o, w1) := execute fuel r w in
      let '(os, w2) := execute_each fuel runs' w1 in (o :: os, w2)
  end.
Definition came_back (o : outcome ExecuteError.t ScriptResult) : bool := match o with Ok _ | Err _ => true | _ => false end.
Definition went_well (o : outcome ExecuteError.t ScriptResult) : bool := match o with Ok r => has_succeeded r | _ => false end.

Lemma execute_target fuel r w x w' : execute fuel r w = (Ok x, w') -> sr_target x = target r.
Proof.
  unfold execute. destruct (st_load _ w) as [[code|e] w1]; [|done]. destruct (set_parameters r Register.new) as [reg|e]; [|done].
  destruct (get_result_kind fuel r code reg w1) as [[k|[]| |] w2]; try done. by intros [= <- _].
Qed.

Lemma completion_runs_all fuel (hosts : list string) (num : Z) :
  NoDup hosts -> Z.of_nat (length hosts) < 2 ^ 64 -> 1 <= num < 2 ^ 64 ->
  forall runs i phase s h ts, Forall (fun r => target r ∈ hosts) runs ->
  host_info (rs_status s) = Some h -> progress_after hosts num ts h ->
  forallb came_back (execute_each fuel runs (rs_world s)).1 = true ->
  exists h', run_to_completion fuel (fun _ => true) i (map Some runs) phase s
    = (Ok (if forallb went_well (execute_each fuel runs (rs_world s)).1 then phase else Phase.Failed),
       mkRunning (execute_each fuel runs (rs_world s)).2
         (mkStatus (start_time (rs_status s)) (end_time (rs_status s)) (status (rs_status s)) (Some h'))).
Proof.
  intros Hnd Hfew Hnum. induction runs as [|r runs IH]; intros i phase s h ts Ht Hh Hp Hback.
  { exists h. destruct s as [w [st en ph hi]]. simpl in *. by subst hi. }
  apply Forall_cons in Ht as [Hr Ht]. cbn [map run_to_completion execute_each] in *.
  unfold run_vt, mbind, M_bind. simpl. destruct (execute fuel r (rs_world s)) as [o w1] eqn:Ex.
  destruct (execute_each fuel runs w1) as [os w2] eqn:Er. cbn [forallb fst snd] in *. apply andb_prop in Hback as [Ho Hback].
  destruct o as [x|e| |]; try discriminate Ho; simpl.
  - unfold register_finished, mbind, M_bind. simpl. rewrite Hh. pose proof (execute_target _ _ _ _ _ Ex) as ->.
    destruct (progress_step hosts num Hnd Hfew Hnum ts (target r) h Hr Hp) as (h1 & -> & Hp1). simpl.
    edestruct (IH (S i) (if has_succeeded x then phase else Phase.Failed)
      (mkRunning w1 (mkStatus (start_time (rs_status s)) (end_time (rs_status s)) (status (rs_status s)) (Some h1)))) as (h' & E);
      [done|done|done|simpl; by rewrite Er|]. simpl in E. rewrite Er in E. exists h'. rewrite E. simpl.
    by destruct (has_succeeded x); simpl; [|destruct (forallb went_well os)].
  - edestruct (IH (S i) Phase.Failed (mkRunning w1 (rs_status s))) as (h' & E); [done|done|done|simpl; by rewrite Er|].
    simpl in E. rewrite Er in E. exists h'. rewrite E. simpl. by destruct (forallb went_well os).
Qed.

Lemma completion_no_error fuel keep runs : forall i phase s e s', run_to_completion fuel keep i runs phase s <> (Err e, s').
Proof.
  induction runs as [|r runs IH]; intros i phase s e s'; [done|]. cbn [run_to_completion]. unfold mbind, M_bind, run_vt.
  destruct r as [r|]; [|done]. simpl. destruct (execute fuel r (rs_world s)) as [[x|x| |] w1]; simpl; try done.
  - unfold register_finished, mbind, M_bind. simpl. destruct (host_info (rs_status s)) as [h|]; simpl; [|destruct (keep i); [apply IH|done]].
    destruct (register_finished_script h _); simpl; [|done]. destruct (keep i); [apply IH|done].
  - destruct (keep i); [apply IH|done].
Qed.

Context (feed : Store -> list Nvt) `{!NvtRetriever Store feed}.

End RunAll.

(** *** A small scanner stack: a store and some files *)
#[local] Instance small_stack : ScannerStack := {|
  st_profile := debug_build; st_order := plain_order; st_little_endian := true;
  StWorld := DefaultDispatcher * gmap string string;
  st_load := fun k w =>
    (match w.2 !! k with Some c => inl c | None => inr (LoadError.NotFound k) end, w);
  st_executor := fun _ => Executor.default_; st_regex := fun _ => None;
  Store := DefaultDispatcher; storage := fst;
  st_retriever := @dispatcher_retriever plain_order plain_advisories
|}.

Definition stored (tests : list Nvt) : DefaultDispatcher :=
  foldl (fun st x => dispatch st (KeyFileName (filename x)) (NVT (WholeNvt x))) new_dispatcher tests.

(** Two scripts in one wave, one of them depends on nothing and needs a port. *)
Definition two_scripts : list Nvt :=
  [script "1" "a.nasl" ACT.Init [];
   set_required_ports (script "2" "b.nasl" ACT.Init []) ["22"%string]].

Definition two_files : gmap string string :=
  {["a.nasl"%string := "a = 1; exit(0);"%string; "b.nasl"%string := "b = 2;"%string]}.

Definition small_scan (l : list VT) : ScanModel := mkScan "id" ["h"%string] l.

Lemma host_progress_witness : exists h,
  register_all (H := debug_build) (from_hosts_and_num_vts ["h"; "g"]%string 1) ["g"%string] = Some h
  /\ finish h = None.
Proof.
  destruct (host_progress (H := debug_build) (mkScan "s" ["h"; "g"]%string []) [(Discovery, [])] ["g"%string])
    as (h & Hh & _ & Hf).
  - vm_compute. repeat constructor; set_solver.
  - done.
  - done.
  - set_solver.
  - exists h. split; [done|]. destruct (finish h); [|done]. exfalso.
    assert (is_Some (Some h0)) as Hle by (by eexists).
    apply Hf with (x := "h"%string) in Hle; [by vm_compute in Hle|left].
Defined.

(** The number that is counted down is the number of waves and not of scripts: with two
    scripts in one wave the host counts as finished when one of them has run. *)
Theorem finished_with_scripts_left : exists (scan : ScanModel) (vts : list ConcurrentVT) h,
  length (stream_runs scan vts) = 2%nat /\ hosts scan = ["h"%string]
  /\ register_all (H := debug_build) (runner_host_info scan vts) ["h"%string] = Some h
  /\ finished h = 1 /\ queued h = 0 /\ remaining_vts_per_host h = ∅.
Proof.
  exists (mkScan "id" ["h"%string] []), [(Discovery, map (fun x => (x, None)) two_scripts)].
  eexists. split_and!; vm_compute; reflexivity.
Qed.

(** A whole scan, from the store to the status.  With the port open both scripts run and
    the scan succeeds; with the port closed the second one is skipped and the scan counts
    as failed.  When the only script has a parameter, it does not run, and the scan ends in
    a panic after its status has been set. *)
Theorem small_scans :
  let run s l :=
    let '(o, r) := run_scan 20 50 (fun _ => true) 5 7 (small_scan l)
      (mkRunning (s, two_files) default_status) in
    (o, status (rs_status r), start_time (rs_status r), end_time (rs_status r)) in
  let closed := stored two_scripts in
  let opened := dispatch closed (Scan "id" (Some "h"%string))
    (KB (mkKb "Ports/tcp/22" (NaslValue.PNumber 1) None)) in
  run opened [mkVT "1" []; mkVT "2" []] = (Ok tt, Phase.Succeeded, Some 5, Some 7)
  /\ run closed [mkVT "1" []; mkVT "2" []] = (Ok tt, Phase.Failed, Some 5, Some 7)
  /\ run opened [mkVT "1" [mkParameter 1 "x"]] = (Panic, Phase.Failed, Some 5, Some 7).
Proof. intros run closed opened. split_and!; vm_compute; reflexivity. Qed.

(** ** Merging progress *)
Definition progress_done (p : Z) : bool := (p =? 100) || (p =? -1).

Lemma keep_progress_lookup `{HashOrder} (old new_ : gmap string Z) h :
  keep_progress old new_ !! h
  = match old !! h with
    | Some p => if progress_done p then None else Some p
    | None => new_ !! h
    end.
Proof.
  unfold keep_progress. rewrite <- (NaslValue.collect_iter old) at 2.
  generalize (iter old). intros l. induction l as [|[k p] l IH] using rev_ind; [done|].
  unfold collect_map in *. rewrite !foldl_app. simpl. fold (progress_done p).
  destruct (decide (h = k)) as [->|Hne].
  - rewrite lookup_insert_eq. destruct (progress_done p); [apply lookup_delete_eq|apply lookup_insert_eq].
  - rewrite lookup_insert_ne by done.
    destruct (progress_done p); rewrite ?lookup_delete_ne, ?lookup_insert_ne by done; apply IH.
Qed.

(** Merging a fetched host status with the stored one: counts of dead, alive and
    finished hosts add up, totals that were sent before are kept, a fetched progress
    replaces the stored one of its host and ends it when the host is done or gone; and a
    stored progress without finished hosts stays one without. *)
Theorem merged_progress `{BuildProfile} `{HashOrder} (fetched old : HostInfo) :
  0 <= dead fetched + dead old < 2 ^ 64 -> 0 <= alive fetched + alive old < 2 ^ 64 ->
  0 <= finished fetched + finished old < 2 ^ 64 ->
  exists h m, host_update_with fetched old = Some h /\ scanning h = Some m
  /\ dead h = dead fetched + dead old /\ alive h = alive fetched + alive old
  /\ finished h = finished fetched + finished old /\ queued h = queued fetched
  /\ all h = (if all old =? 0 then all fetched else all old)
  /\ excluded h = (if excluded fetched =? 0 then excluded old else excluded fetched)
  /\ (forall x, m !! x = match default ∅ (scanning fetched) !! x with
        | Some p => if progress_done p then None else Some p
        | None => default ∅ (scanning old) !! x
        end)
  /\ (map_Forall (fun _ p => progress_done p = false) (default ∅ (scanning old)) ->
      map_Forall (fun _ p => progress_done p = false) m).
Proof.
  intros Hd Ha Hf. unfold host_update_with. rewrite (arith_u_in _ Hd). simpl.
  rewrite (arith_u_in _ Ha). simpl. rewrite (arith_u_in _ Hf). simpl.
  eexists _, _. split_and!; try reflexivity; [intros x; apply keep_progress_lookup|].
  intros Hold x p. rewrite keep_progress_lookup.
  destruct (_ !! x) as [q|]; [destruct (progress_done q) eqn:E; [done|by intros [= <-]]|apply Hold].
Qed.

Lemma merged_progress_witness : exists h m,
  host_update_with (H := debug_build) (H0 := plain_order)
    (build (mkHostInfoBuilder 0 0 0 0 0 1 (Some {["a"%string := 100; "b"%string := 40]})))
    (build (mkHostInfoBuilder 2 0 0 2 0 0 (Some {["a"%string := 90; "c"%string := 10]}))) = Some h
  /\ scanning h = Some m /\ m !! "a"%string = None /\ m !! "b"%string = Some 40
  /\ m !! "c"%string = Some 10 /\ finished h = 1.
Proof.
  destruct (merged_progress (H := debug_build) (H0 := plain_order)
    (build (mkHostInfoBuilder 0 0 0 0 0 1 (Some {["a"%string := 100; "b"%string := 40]})))
    (build (mkHostInfoBuilder 2 0 0 2 0 0 (Some {["a"%string := 90; "c"%string := 10]}))))
    as (h & m & Hh & Hs & _ & _ & Hfin & _ & _ & _ & Hm & _); [simpl; lia..|].
  exists h, m. rewrite !Hm. split_and!; done.
Defined.

(** ** Starting, stopping, deleting *)
Inductive Event : Type :=
| Start (scan : ScanModel)
| Stop (id : string)
| Delete (id : string)
| TaskStatus (id : string) (st : Status).

(** A task writes the status it shares with its handle, as long as there is one. *)
Definition event_step `{HashOrder} (s : Scanner) (e : Event) : Scanner :=
  match e with
  | Start scan => start_scan s scan
  | Stop id => (stop_scan s id).2
  | Delete id => (delete_scan s id).2
  | TaskStatus id st =>
      match running s !! id with
      | Some h =>
          mkScanner (<[id := mkHandle (keep_running h) st]> (running s)) (scanner_storage s)
      | None => s
      end
  end.

(** Whether the last thing that happened to a scan is its start. *)
Fixpoint started (id : string) (before : bool) (es : list Event) : bool :=
  match es with
  | [] => before
  | Start scan :: es' => started id (bool_decide (scan_id scan = id) || before) es'
  | (Stop i | Delete i) :: es' => started id (negb (bool_decide (i = id)) && before) es'
  | TaskStatus _ _ :: es' => started id before es'
  end.

Definition has_handle (s : Scanner) (id : string) : bool := bool_decide (is_Some (running s !! id)).

Lemma stop_running s id : running (stop_scan s id).2 = delete id (running s).
Proof.
  unfold stop_scan. destruct (running s !! id) eqn:E; [done|]. simpl. by rewrite delete_id.
Qed.

Lemma delete_running `{HashOrder} s id : running (delete_scan s id).2 = delete id (running s).
Proof.
  rewrite <- stop_running. unfold delete_scan. by destruct (stop_scan s id) as [[] s'].
Qed.

Lemma has_handle_delete m st id i :
  has_handle (mkScanner (delete i m) st) id
  = negb (bool_decide (i = id)) && has_handle (mkScanner m st) id.
Proof.
  unfold has_handle. simpl. destruct (decide (i = id)) as [->|Hne].
  - rewrite lookup_delete_eq, (bool_decide_eq_true_2 (id = id)) by done. done.
  - rewrite lookup_delete_ne, (bool_decide_eq_false_2 (i = id)) by done. done.
Qed.

Lemma has_handle_insert m st id i h :
  has_handle (mkScanner (<[i := h]> m) st) id
  = bool_decide (i = id) || has_handle (mkScanner m st) id.
Proof.
  unfold has_handle. simpl. destruct (decide (i = id)) as [->|Hne].
  - rewrite lookup_insert_eq, (bool_decide_eq_true_2 (id = id)) by done. done.
  - rewrite lookup_insert_ne, (bool_decide_eq_false_2 (i = id)) by done. done.
Qed.

Lemma has_handle_step `{HashOrder} s e id :
  has_handle (event_step s e) id = started id (has_handle s id) [e].
Proof.
  assert (forall s, has_handle s id = has_handle (mkScanner (running s) (scanner_storage s)) id) as Heta
    by done.
  destruct e as [scan|i|i|i st]; simpl.
  - apply has_handle_insert.
  - rewrite Heta, stop_running. apply has_handle_delete.
  - rewrite Heta, delete_running. apply has_handle_delete.
  - destruct (running s !! i) eqn:E; [|done]. rewrite has_handle_insert. fold (has_handle s id).
    destruct (decide (i = id)) as [->|Hne]; [|by rewrite bool_decide_eq_false_2].
    unfold has_handle. simpl. rewrite E. by rewrite (bool_decide_eq_true_2 (id = id)).
Qed.

Lemma has_handle_run `{HashOrder} es : forall s id,
  has_handle (foldl event_step s es) id = started id (has_handle s id) es.
Proof.
  induction es as [|e es IH]; intros s id; [done|]. simpl foldl. rewrite IH, has_handle_step.
  by destruct e.
Qed.

(** After any sequence of starts, stops, deletions and status updates, the status of a
    scan can be fetched exactly when it has been started and neither stopped nor deleted
    since; any other scan is not found, by fetching, stopping and deleting alike, and a
    deletion that fails this way changes nothing. *)
Theorem scan_visible `{HashOrder} (st : DefaultDispatcher) (es : list Event) (id : string) :
  let s := foldl event_step (new_scanner st) es in
  if started id false es then exists v, fetch_results s id = inl v
  else fetch_results s id = inr (ScanError.ScanNotFound id)
       /\ stop_scan s id = (inr (ScanError.ScanNotFound id), s)
       /\ delete_scan s id = (inr (ScanError.ScanNotFound id), s).
Proof.
  intros s. pose proof (has_handle_run es (new_scanner st) id) as Hh. fold s in Hh.
  assert (has_handle (new_scanner st) id = false) as E by done. rewrite E in Hh. rewrite <- Hh.
  unfold has_handle, fetch_results, delete_scan, stop_scan.
  destruct (running s !! id); simpl; [eauto|done].
Qed.

(** Deleting a scan removes its results but not the knowledge base of its hosts: that
    is kept per host, and only the entry without a host is removed. *)
Theorem deleted_scan_keeps_kb `{HashOrder} (s : Scanner) (id host k : string) :
  let '(o, s') := delete_scan s id in
  kb_items (scanner_storage s') (Scan id (Some host)) k
  = kb_items (scanner_storage s) (Scan id (Some host)) k
  /\ (o = inl tt -> results (scanner_storage s') !! id = None).
Proof.
  unfold delete_scan, stop_scan. destruct (running s !! id); simpl; [|done].
  split; [|intros _; apply lookup_delete_eq].
  unfold kb_items. simpl. by rewrite lookup_delete_ne.
Qed.

(** *** Witnesses *)
Lemma scanner_retrieves (s : DefaultDispatcher) key k :
  match retrieve (Retriever := @dispatcher_retriever plain_order plain_advisories) s key (GetKB k) with
  | Ok _ | Err _ => True
  | _ => False
  end.
Proof. done. Defined.

Definition small_world : StWorld := (stored two_scripts, two_files).
Definition guarded_run : VTRunner :=
  mkVTRunner "h" (set_required_ports (script "2" "b.nasl" ACT.Init []) ["22"%string])
    Discovery None "id".

Lemma script_gate_witness : exists res,
  execute 5 guarded_run small_world = (Ok res, small_world)
  /\ has_not_run res = true /\ sr_filename res = "b.nasl"%string.
Proof.
  pose proof (script_gate scanner_retrieves 5 guarded_run small_world) as Hg.
  assert (st_load (filename (vt guarded_run)) small_world = (inl "b = 2;"%string, small_world)) as El
    by reflexivity.
  assert (may_run (storage small_world) (generate_key guarded_run) (vt guarded_run) = false) as E
    by reflexivity.
  rewrite El in Hg. cbn [param guarded_run] in Hg. rewrite E in Hg.
  destruct Hg as (res & ? & ? & ? & _). by exists res.
Defined.

(** Two scripts of which the second depends on the first, and a scan that asks for the second. *)
Definition dependent_scripts : list Nvt :=
  [script "1" "a.nasl" ACT.Init []; script "2" "b.nasl" ACT.Init ["a.nasl"%string]].
Definition dependent_scan : ScanModel := mkScan "id" ["g"; "h"]%string [mkVT "2" []].
Definition dependent_start : RunningScan := mkRunning (stored dependent_scripts, two_files) default_status.

(** It ends well, having run four scripts. *)
Example dependent_scan_ends :
  let '(o, s') := run_scan 20 50 (fun _ => true) 5 7 dependent_scan dependent_start in
  o = Ok tt /\ status (rs_status s') = Phase.Succeeded.
Proof. by vm_compute. Qed.
