(* ===== verification/Crypt.v ===== *)
(** * Encrypted texts of the daemon

    [openvasd/crypt.rs]: data encrypted with ChaCha20 under a random nonce, its text form
    in base64 and the way back.  The cipher, the random numbers and base64 are libraries;
    what the code relies on are the laws of the classes below. *)

From S2P Require Import Prelude RustStr.
Local Open Scope nat_scope.

(** ** The libraries *)

(** [apply_keystream] of a key and a nonce, and the bytes of a random number generator by
    the number of the request. *)
Class Cipher := {
  keystream : list byte -> list byte -> list byte;
  keystream_involutive : forall nonce d, keystream nonce (keystream nonce d) = d;
  keystream_empty : forall nonce, keystream nonce [] = [];
  random_nonce : nat -> list byte;
  random_nonce_length : forall n, length (random_nonce n) = 12
}.

(** Base64 with the standard alphabet and padding: nothing is written for no data, and
    never a blank. *)
Class Base64 := {
  b64_encode : list byte -> list char;
  b64_decode : list char -> option (list byte);
  b64_decode_encode : forall d, b64_decode (b64_encode d) = Some d;
  b64_no_blank : forall d, Forall (fun c => is_whitespace c = false) (b64_encode d);
  b64_encode_nil : b64_encode [] = []
}.

(** ** Text and bytes *)

(** [String::from_utf8], for texts of the code points 0 to 255. *)
Fixpoint from_utf8 (l : list byte) : option (list char) :=
  match l with
  | [] => Some []
  | b :: l' =>
      if N.ltb (Byte.to_N b) 128 then cons (byte_as_char b) <$> from_utf8 l'
      else
        match l' with
        | [] => None
        | b2 :: l'' =>
            if N.leb 194 (Byte.to_N b) && N.leb (Byte.to_N b) 195
               && N.leb 128 (Byte.to_N b2) && N.ltb (Byte.to_N b2) 192
            then cons (ascii_of_N ((Byte.to_N b - 192) * 64 + (Byte.to_N b2 - 128))) <$> from_utf8 l''
            else None
        end
  end.

(** [str::split_whitespace]: the word read so far, in reverse. *)
Fixpoint words (acc : list char) (l : list char) : list (list char) :=
  match l with
  | [] => match acc with [] => [] | _ => [rev acc] end
  | c :: l' =>
      if is_whitespace c then match acc with [] => words [] l' | _ => rev acc :: words [] l' end
      else words (c :: acc) l'
  end.
Definition split_whitespace (l : list char) : list (list char) := words [] l.

(** ** [Encrypted] *)
Record Encrypted := mkEncrypted { nonce : list byte; enc_data : list byte }.

Module ParseError.
Inductive t : Set := MissingNonce | MissingData | InvalidNonce | InvalidData.
End ParseError.

Section Crypt.
Context `{Cipher} `{Base64}.

(** [encrypt_sync] with the nonce of the [n]-th request, and [decrypt_sync]. *)
Definition encrypt (n : nat) (data : list byte) : Encrypted :=
  mkEncrypted (random_nonce n) (keystream (random_nonce n) data).
Definition decrypt (e : Encrypted) : list byte := keystream (nonce e) (enc_data e).

(** [Display for Encrypted] *)
Definition encrypted_string (e : Encrypted) : list char :=
  b64_encode (nonce e) ++ " "%char :: b64_encode (enc_data e).

(** [TryFrom<&str> for Encrypted] *)
Definition encrypted_try_from (s : list char) : Encrypted + ParseError.t :=
  match split_whitespace s with
  | [] => inr ParseError.MissingNonce
  | n :: parts =>
      match b64_decode n with
      | None => inr ParseError.InvalidNonce
      | Some n =>
          match parts with
          | [] => inr ParseError.MissingData
          | d :: _ =>
              match b64_decode d with
              | None => inr ParseError.InvalidData
              | Some d =>
                  if length n =? 12 then inl (mkEncrypted n d) else inr ParseError.InvalidNonce
              end
          end
      end
  end.

(** ** Round trips *)
Lemma decrypt_encrypt n d : decrypt (encrypt n d) = d.
Proof. apply keystream_involutive. Qed.

Lemma words_plain acc l rest : Forall (fun c => is_whitespace c = false) l ->
  words acc (l ++ rest) = words (rev l ++ acc) rest.
Proof.
  intros Hl. revert acc. induction Hl as [|c l Hc Hl IH]; intros acc; [done|].
  simpl. rewrite Hc, IH, <- app_assoc. done.
Qed.

Lemma encode_nonempty d : d <> [] -> b64_encode d <> [].
Proof.
  intros Hd E. pose proof (b64_decode_encode d) as Hde. pose proof (b64_decode_encode []) as Hn.
  rewrite b64_encode_nil in Hn. rewrite E, Hn in Hde. by injection Hde.
Qed.

Lemma words_one l : Forall (fun c => is_whitespace c = false) l -> l <> [] -> words [] l = [l].
Proof.
  intros Hl Hne. rewrite <- (app_nil_r l) at 1. rewrite words_plain by done. rewrite app_nil_r.
  simpl. destruct (rev l) eqn:E.
  - apply (f_equal (@rev _)) in E. rewrite rev_involutive in E. done.
  - by rewrite <- E, rev_involutive.
Qed.

Lemma split_two a b : Forall (fun c => is_whitespace c = false) a ->
  Forall (fun c => is_whitespace c = false) b -> a <> [] ->
  split_whitespace (a ++ " "%char :: b) = a :: match b with [] => [] | _ => [b] end.
Proof.
  intros Ha Hb Hne. unfold split_whitespace. rewrite words_plain, app_nil_r by done. simpl.
  destruct (rev a) eqn:E.
  { apply (f_equal (@rev _)) in E. rewrite rev_involutive in E. done. }
  rewrite <- E, rev_involutive. f_equal. destruct b; [done|]. by apply words_one.
Qed.

(** The text form of encrypted data is read back, unless there is no data. *)
Lemma encrypted_roundtrip e : length (nonce e) = 12 ->
  encrypted_try_from (encrypted_string e)
  = match enc_data e with [] => inr ParseError.MissingData | _ => inl e end.
Proof.
  intros Hlen. unfold encrypted_try_from, encrypted_string. rewrite split_two.
  - rewrite b64_decode_encode. destruct e as [n [|x d]]; simpl in *.
    + by rewrite b64_encode_nil.
    + destruct (b64_encode (x :: d)) eqn:E; [by destruct (encode_nonempty (x :: d))|].
      rewrite <- E, b64_decode_encode, Hlen. done.
  - apply b64_no_blank.
  - apply b64_no_blank.
  - apply encode_nonempty. by destruct (nonce e).
Qed.

Lemma keystream_nil n d : keystream n d = [] -> d = [].
Proof.
  intros E. rewrite <- (keystream_involutive n d), E. apply keystream_empty.
Qed.

Lemma encrypt_text n d :
  encrypted_try_from (encrypted_string (encrypt n d))
  = match d with [] => inr ParseError.MissingData | _ => inl (encrypt n d) end.
Proof.
  rewrite encrypted_roundtrip by apply random_nonce_length. simpl.
  destruct d as [|x d]; [by rewrite keystream_empty|].
  destruct (keystream (random_nonce n) (x :: d)) eqn:E; [|done]. by apply keystream_nil in E.
Qed.
End Crypt.

Lemma byte_of_N_to n : (n < 256)%N -> Byte.to_N (byte_of_N n) = n.
Proof.
  intros Hn. unfold byte_of_N. destruct (Byte.of_N n) as [b|] eqn:E.
  - by apply Byte.to_of_N.
  - apply Byte.of_N_None_iff in E. lia.
Qed.

Lemma from_utf8_encode c l : from_utf8 (utf8_encode c ++ l) = cons c <$> from_utf8 l.
Proof.
  unfold utf8_encode. pose proof (N_ascii_bounded c) as Hc. unfold code.
  destruct (N.ltb_spec (N_of_ascii c) 128) as [Hlt|Hge].
  - cbn [app from_utf8]. rewrite byte_of_N_to by lia.
    rewrite (proj2 (N.ltb_lt _ _) Hlt). do 2 f_equal. unfold byte_as_char.
    rewrite <- (ascii_N_embedding c) at 2. rewrite <- (byte_of_N_to (N_of_ascii c)) by lia.
    generalize (byte_of_N (N_of_ascii c)). intros b. by destruct b.
  - pose proof (N.div_mod (N_of_ascii c) 64 ltac:(done)) as Hdm.
    pose proof (N.mod_lt (N_of_ascii c) 64 ltac:(done)) as Hm.
    revert Hdm Hm. generalize (N_of_ascii c / 64)%N (N_of_ascii c mod 64)%N. intros q r Hdm Hm.
    cbn [app from_utf8]. rewrite !byte_of_N_to by lia.
    rewrite (proj2 (N.ltb_ge _ _)) by lia.
    rewrite (proj2 (N.leb_le 194 _)), (proj2 (N.leb_le _ 195)), (proj2 (N.leb_le 128 _)),
      (proj2 (N.ltb_lt _ 192)) by lia. simpl. do 2 f_equal.
    rewrite <- (ascii_N_embedding c). f_equal. lia.
Qed.

Lemma from_utf8_as_bytes l : from_utf8 (as_bytes l) = Some l.
Proof.
  unfold as_bytes. induction l as [|c l IH]; [done|]. csimpl. by rewrite from_utf8_encode, IH.
Qed.

Lemma as_bytes_nil l : as_bytes l = [] -> l = [].
Proof.
  intros E. pose proof (from_utf8_as_bytes l) as Hl. rewrite E in Hl. simpl in Hl. congruence.
Qed.
