(* ===== verification/ScanStore.v ===== *)
(** * The scans of the daemon in memory

    [openvasd/storage]: the errors and feed hashes of [mod.rs], the in-memory database of
    scans ([inmemory.rs]), and the store of the scripts of a running scan on top of it
    ([UserNASLStorageForKBandVT]).  Secrets and results are kept encrypted.  A panic while a
    lock of the standard library is held poisons it, and every later use panics; this can
    happen to the lock of the client identifiers only. *)

From S2P Require Import Prelude RustStr Token Statement NaslValue Errors Nvt Storage Models HostInfo Crypt.
Local Open Scope string_scope.

(** ** storage/mod.rs *)
(** The boxed error of a failed call of the store, or the text of another one. *)
Module DbError.
Inductive t : Type := Serialization | NotFound | Storage (e : StorageError.t + string).
End DbError.

(** The text that [derive(Debug)] gives an error. *)
Class DbErrorText := { db_error_debug : DbError.t -> string }.

Inductive FeedType : Set := Products | Advisories_ | NASL.
#[global] Instance FeedType_eq_dec : EqDecision FeedType.
Proof. solve_decision. Defined.

Record FeedHash := mkFeedHash { fh_hash : string; fh_path : string; typus : FeedType }.

Definition advisories_feed (p : string) : FeedHash := mkFeedHash "" p Advisories_.
Definition nasl_feed (p : string) : FeedHash := mkFeedHash "" p NASL.

(** The identifier of a client: a digest. *)
Definition ClientHash := string.

(** [models::scanner::ScanResults] *)
Record ScanResults := mkScanResults { sr_id : string; sr_status : Status; sr_results : list ScanResult }.

(** JSON of results: what is written is read back. *)
Class ResultJson := {
  to_vec : ScanResult -> list byte;
  from_slice : list byte -> option ScanResult;
  from_slice_to_vec : forall r, from_slice (to_vec r) = Some r
}.

(** [HashSet]: each element once, in some order. *)
Class HashSetOrder (A : Type) := {
  collect_set : list A -> list A;
  collect_set_NoDup : forall l, NoDup (collect_set l);
  elem_of_collect_set : forall l x, x ∈ collect_set l <-> x ∈ l
}.

(** [Display for ContextKey] *)
Definition key_string (k : ContextKey) : string :=
  match k with
  | Scan id None => "scan_id=" ++ id
  | Scan id (Some target) => "scan_id=" ++ id ++ " target=" ++ target
  | KeyFileName n => "file=" ++ n
  end.

Definition set_result_id (r : ScanResult) (id : nat) : ScanResult :=
  mkScanResult id (r_type r) (ip_address r) (hostname r) (result_oid r) (port r) (protocol r)
    (message r) (detail r).

(** ** storage/inmemory.rs *)
Module Inmemory.
Record Progress := mkProgress {
  scan : ScanModel; progress_status : Status; progress_results : list Encrypted
}.

Record Storage := mkStorage {
  scans : gmap string Progress;
  hash : list FeedHash;
  client_id : list (ClientHash * string);
  client_poisoned : bool;
  underlying : DefaultDispatcher;
  nonces : nat;
  feed_version : string
}.

Definition new (feeds : list FeedHash) : Storage :=
  mkStorage ∅ feeds [] false new_dispatcher 0 "".

Definition set_scans (s : Storage) x :=
  mkStorage x (hash s) (client_id s) (client_poisoned s) (underlying s) (nonces s) (feed_version s).
Definition set_hash (s : Storage) x :=
  mkStorage (scans s) x (client_id s) (client_poisoned s) (underlying s) (nonces s) (feed_version s).
Definition set_client_id (s : Storage) x p :=
  mkStorage (scans s) (hash s) x p (underlying s) (nonces s) (feed_version s).
Definition set_underlying (s : Storage) x :=
  mkStorage (scans s) (hash s) (client_id s) (client_poisoned s) x (nonces s) (feed_version s).
Definition set_nonces (s : Storage) x :=
  mkStorage (scans s) (hash s) (client_id s) (client_poisoned s) (underlying s) x (feed_version s).

Definition set_scan (p : Progress) (c : ScanModel) : Progress :=
  mkProgress c (progress_status p) (progress_results p).
Definition set_progress_status (p : Progress) (st : Status) : Progress :=
  mkProgress (scan p) st (progress_results p).
Definition set_progress_results (p : Progress) (l : list Encrypted) : Progress :=
  mkProgress (scan p) (progress_status p) l.
Definition set_scan_credentials (c : ScanModel) (cs : list Credential) : ScanModel :=
  mkScanModel (scan_id c) (set_credentials (scan_target c) cs) (scan_preferences c) (scan_vts c).

Section Inmemory.
Context `{Cipher} `{Base64} `{ResultJson}.

Abbreviation D E := (M Storage E).

(** [encrypt_sync] takes the next nonce. *)
Definition encrypt_sync {E} (data : list byte) : D E Encrypted := fun s =>
  (Ok (encrypt (nonces s) data), set_nonces s (S (nonces s))).

Definition encrypt_password {E} (p : string) : D E string :=
  e ← encrypt_sync (as_bytes (chars_of p)); mret (string_of (encrypted_string e)).

(** [new_progress] *)
Definition new_progress {E} (c : ScanModel) : D E Progress :=
  cs ← mapM (map_password encrypt_password) (credentials (scan_target c));
  mret (mkProgress (set_scan_credentials c cs) default_status []).

(** [decrypt_results_sync]: the results from [from] to before [to]. *)
Definition decrypt_results_sync (p : Progress) (from to : option nat) : list (list byte) :=
  let from := default 0%nat from in
  let to := (default (length (progress_results p)) to `min` length (progress_results p))%nat in
  if bool_decide (to < from)%nat || bool_decide (length (progress_results p) < from)%nat then []
  else map decrypt (take (to - from)%nat (drop from (progress_results p))).

Definition get_results_sync (id : string) (from to : option nat) :
  D DbError.t (list (list byte)) :=
  m ← gets scans;
  p ← ok_or (m !! id) DbError.NotFound;
  mret (decrypt_results_sync p from to).

(** *** [ScanIDClientMapper] *)
Definition lock_client_id {E} : D E (list (ClientHash * string)) := fun s =>
  if client_poisoned s then (Panic, s) else (Ok (client_id s), s).

Definition add_scan_client_id (sid : string) (cid : ClientHash) : D DbError.t unit :=
  ids ← lock_client_id;
  modify (fun s => set_client_id s ((ids ++ [(cid, sid)])%list) false).

(** [Vec::remove] panics beyond the end. *)
Definition vec_remove {A} (i : nat) (l : list A) : option (list A) :=
  if decide (i < length l)%nat then Some (delete i l) else None.

Fixpoint positions (sid : string) (i : nat) (ids : list (ClientHash * string)) : list nat :=
  match ids with
  | [] => []
  | (_, x) :: l => if decide (x = sid) then i :: positions sid (S i) l else positions sid (S i) l
  end.

Fixpoint remove_each (js : list nat) : D DbError.t unit :=
  match js with
  | [] => mret tt
  | i :: js =>
      ids ← gets client_id;
      match vec_remove i ids with
      | Some ids => modify (fun s => set_client_id s ids false) ;; remove_each js
      | None => modify (fun s => set_client_id s ids true) ;; panic
      end
  end.

Definition remove_scan_id (sid : string) : D DbError.t unit :=
  ids ← lock_client_id;
  remove_each (positions sid 0 ids).

Definition get_scans_of_client_id (cid : ClientHash) : D DbError.t (list string) :=
  ids ← lock_client_id;
  mret (filter (fun p => p.1 = cid) ids).*2.

Definition is_client_allowed (sid : string) (cid : ClientHash) : D DbError.t bool :=
  ids ← get_scans_of_client_id cid;
  mret (bool_decide (sid ∈ ids)).

(** *** [ScanStorer] *)
Definition insert_scan (sp : ScanModel) : D DbError.t unit :=
  m ← gets scans;
  match m !! scan_id sp with
  | Some prgs => modify (fun s => set_scans s (<[scan_id sp := set_scan prgs sp]> (scans s)))
  | None =>
      p ← new_progress sp;
      modify (fun s => set_scans s (<[scan_id sp := p]> (scans s)))
  end.

Definition remove_scan (id : string) : D DbError.t unit :=
  modify (fun s => set_scans s (delete id (scans s))).

Definition update_status (id : string) (st : Status) : D DbError.t unit :=
  m ← gets scans;
  p ← ok_or (m !! id) DbError.NotFound;
  modify (fun s => set_scans s (<[id := set_progress_status p st]> (scans s))).

(** *** [AppendFetchResult] *)
Definition push_result {E} (id : string) (r : ScanResult) : D E unit :=
  e ← encrypt_sync (to_vec r);
  modify (fun s => set_scans s
    (alter (fun p => set_progress_results p ((progress_results p ++ [e])%list)) id (scans s))).

Fixpoint push_results (id : string) (len : nat) (rs : list ScanResult) : D DbError.t unit :=
  match rs with
  | [] => mret tt
  | r :: rs => push_result id (set_result_id r len) ;; push_results id (S len) rs
  end.

Fixpoint append_fetched_result (l : list ScanResults) : D DbError.t unit :=
  match l with
  | [] => mret tt
  | r :: l =>
      m ← gets scans;
      p ← ok_or (m !! sr_id r) DbError.NotFound;
      modify (fun s => set_scans s (<[sr_id r := set_progress_status p (sr_status r)]> (scans s))) ;;
      push_results (sr_id r) (length (progress_results p)) (sr_results r) ;;
      append_fetched_result l
  end.

(** *** [ProgressGetter] *)
Definition get_scan_ids `{HashOrder} : D DbError.t (list string) :=
  gets (fun s => (fun p => scan_id (scan p.2)) <$> iter (scans s)).

Definition get_scan (id : string) : D DbError.t (ScanModel * Status) :=
  m ← gets scans;
  p ← ok_or (m !! id) DbError.NotFound;
  mret (scan p, progress_status p).

(** The closure of [get_decrypted_scan]. *)
Definition decrypt_password (p : string) : outcome DbError.t string :=
  match encrypted_try_from (chars_of p) with
  | inr _ => Err DbError.Serialization
  | inl e =>
      match from_utf8 (decrypt e) with
      | Some l => Ok (string_of l)
      | None => Err DbError.Serialization
      end
  end.

Definition get_decrypted_scan (id : string) : D DbError.t (ScanModel * Status) :=
  '(c, st) ← get_scan id;
  cs ← of_outcome (mapM (map_password decrypt_password) (credentials (scan_target c)));
  mret (set_scan_credentials c cs, st).

Definition get_status (id : string) : D DbError.t Status :=
  m ← gets scans;
  p ← ok_or (m !! id) DbError.NotFound;
  mret (progress_status p).

Definition get_results (id : string) (from to : option nat) : D DbError.t (list (list byte)) :=
  get_results_sync id from to.

(** *** [NVTStorer]

    [feeds] runs the updates of the changed feeds on the store of tests. *)
Definition update_hash (new : list FeedHash) (h : FeedHash) : FeedHash :=
  match find (fun x => bool_decide (typus x = typus h)) new with
  | Some nh => mkFeedHash (fh_hash nh) (fh_path h) (typus h)
  | None => h
  end.

Definition on_underlying {E A} (m : M DefaultDispatcher E A) : D E A := fun s =>
  let '(o, u) := m (underlying s) in (o, set_underlying s u).

Definition synchronize_feeds
  (feeds : list FeedHash -> M DefaultDispatcher DbError.t unit) (new : list FeedHash) : D DbError.t unit :=
  modify (fun s => set_hash s (map (update_hash new) (hash s))) ;;
  on_underlying (feeds new).

(** The tests are collected into a [HashSet]. *)
Definition vts `{HashOrder} `{AdvisoryOrder} `{HashSetOrder Nvt} : D DbError.t (list Nvt) := fun s =>
  match retriever_vts (underlying s) with
  | Ok l => (Ok (collect_set l), s)
  | Err e => (Err (DbError.Storage (inl e)), s)
  | Panic => (Panic, s)
  | OutOfFuel => (OutOfFuel, s)
  end.

Definition current_feed_version : D DbError.t string := gets feed_version.
Definition feed_hash : D DbError.t (list FeedHash) := gets hash.

(** *** [ResultHandler] *)
Definition handle_result (key : ContextKey) (r : ScanResult) : D StorageError.t unit :=
  m ← gets scans;
  p ← ok_or (m !! key_ref key) (StorageError.UnexpectedData ("Expected scan for " ++ key_string key));
  let st := progress_status p in
  let st' :=
    match status st with
    | Phase.Stored | Phase.Requested =>
        mkStatus (start_time st) (end_time st) Phase.Running (host_info st)
    | _ => st
    end in
  modify (fun s => set_scans s (<[key_ref key := set_progress_status p st']> (scans s))) ;;
  push_result (key_ref key) (set_result_id r (length (progress_results p))).

Definition remove_result `{BuildProfile} (key : ContextKey) (idx : option nat) :
  D StorageError.t (list ScanResult) :=
  to ← match idx with
       | Some x => z ← or_panic (arith_u 64 (Z.of_nat x + 1)); mret (Some (Z.to_nat z))
       | None => mret None
       end;
  m ← gets scans;
  p ← ok_or (m !! key_ref key) (StorageError.NotFound (key_ref key));
  let l := omap from_slice (decrypt_results_sync p idx to) in
  let rest := match idx with
              | Some i => if decide (i < length (progress_results p))%nat
                          then delete i (progress_results p) else progress_results p
              | None => []
              end in
  modify (fun s => set_scans s (<[key_ref key := set_progress_results p rest]> (scans s))) ;;
  mret l.

(** ** [UserNASLStorageForKBandVT]: results go to the scan, everything else to the store of
    tests and knowledge base items. *)
Definition user_dispatch (key : ContextKey) (scope : Field) : D StorageError.t unit :=
  match scope with
  | Result r => handle_result key r
  | _ => modify (fun s => set_underlying s (dispatch (underlying s) key scope))
  end.

Definition user_dispatch_replace (_ : ContextKey) (_ : Field) : D StorageError.t unit := mret tt.

Definition user_retrieve `{HashOrder} `{AdvisoryOrder} (key : ContextKey) (scope : Retrieve) :
  D StorageError.t (list Field) :=
  s ← get; of_outcome (dispatcher_retrieve (underlying s) key scope).

Definition user_remove_kb `{HashOrder} (key : ContextKey) (k : option string) :
  D StorageError.t (option (list Kb)) := fun s =>
  let '(r, u) := remove_kb (underlying s) key k in (Ok r, set_underlying s u).

Definition user_remove_result (key : ContextKey) (id : option nat) :
  D StorageError.t (option (list ScanResult)) := fun s =>
  let '(r, u) := Storage.remove_result (underlying s) key id in (Ok r, set_underlying s u).
End Inmemory.
End Inmemory.
