(* ===== verification/DaemonInstances.v ===== *)
(** * Concrete libraries for the daemon

    A cipher, a text coding of bytes and a coding of results that satisfy the laws of the
    classes [Cipher], [Base64] and [ResultJson]: the laws can hold together, and examples
    evaluate with them. *)

From S2P Require Import Prelude RustStr Token Statement NaslValue Errors Nvt Storage Models HostInfo Crypt ScanStore.
Local Open Scope nat_scope.

(** ** A cipher that flips bits of every byte *)
Definition flip (b : byte) : byte := byte_of_N (N.lxor (Byte.to_N b) 90).

Lemma flip_flip b : flip (flip b) = b.
Proof. by destruct b. Qed.

#[refine] Definition flip_cipher : Cipher := {|
  keystream := fun _ d => map flip d;
  random_nonce := fun n => repeat (byte_of_N (N.of_nat n mod 256)) 12
|}.
Proof.
  - intros _ d. rewrite map_map. rewrite <- (map_id d) at 2. apply map_ext, flip_flip.
  - done.
  - intros n. apply repeat_length.
Defined.

(** ** Two letters per byte *)
Definition letter (n : N) : char := ascii_of_N (97 + n).
Definition letter_value (c : char) : N := (N_of_ascii c - 97)%N.

Fixpoint letters_decode (l : list char) : option (list byte) :=
  match l with
  | [] => Some []
  | a :: b :: l => cons (byte_of_N (letter_value a * 16 + letter_value b)) <$> letters_decode l
  | _ => None
  end.

Definition letters_of (b : byte) : list char :=
  [letter (Byte.to_N b / 16); letter (Byte.to_N b mod 16)].

#[refine] Definition letters_base64 : Base64 := {|
  b64_encode := fun d => d ≫= letters_of;
  b64_decode := letters_decode
|}.
Proof.
  - intros d. induction d as [|b d IH]; [done|]. csimpl. rewrite IH. simpl. do 2 f_equal.
    by destruct b.
  - intros d. induction d as [|b d IH]; [by constructor|]. csimpl. constructor; [|constructor; [|done]].
    + by destruct b.
    + by destruct b.
  - done.
Defined.

(** ** Results by their number in an enumeration *)
Definition result_type_code (t : ResultType) : nat :=
  match t with
  | Alarm => 0 | Log => 1 | ErrorResult => 2 | HostStart => 3 | HostEnd => 4 | DeadHost => 5
  | HostDetail => 6
  end.
Definition result_type_of (n : nat) : ResultType :=
  match n with
  | 0 => Alarm | 1 => Log | 2 => ErrorResult | 3 => HostStart | 4 => HostEnd | 5 => DeadHost
  | _ => HostDetail
  end.
Definition protocol_code (p : Protocol) : bool := match p with UDP => false | TCP => true end.
Definition protocol_of_code (b : bool) : Protocol := if b then TCP else UDP.

Definition detail_tuple (d : Detail) : string * string * (string * string * string) :=
  (detail_name d, detail_value d,
   (s_type (detail_source d), source_name (detail_source d), source_description (detail_source d))).
Definition detail_of (t : string * string * (string * string * string)) : Detail :=
  let '(n, v, (a, b, c)) := t in mkDetail n v (mkSource a b c).

Definition result_tuple (r : ScanResult) :=
  ((result_id r, result_type_code (r_type r), ip_address r, hostname r),
   (result_oid r, port r, protocol_code <$> protocol r, message r, detail_tuple <$> detail r)).
Definition result_of_tuple (t : (nat * nat * option string * option string)
  * (option string * option Z * option bool * option string
     * option (string * string * (string * string * string)))) : ScanResult :=
  let '((i, t, ip, h), (o, p, pr, m, d)) := t in
  mkScanResult i (result_type_of t) ip h o p (protocol_of_code <$> pr) m (detail_of <$> d).

Lemma result_tuple_back r : result_of_tuple (result_tuple r) = r.
Proof.
  destruct r as [i t ip h o p pr m d]. unfold result_of_tuple, result_tuple. simpl.
  f_equal; [by destruct t|by destruct pr as [[]|]|by destruct d as [[? ? []]|]].
Qed.

(** A positive number as its bits. *)
Fixpoint bits_of (p : positive) : list byte :=
  match p with
  | xH => []
  | xO p => x00 :: bits_of p
  | xI p => x01 :: bits_of p
  end.
Fixpoint of_bits (l : list byte) : positive :=
  match l with
  | [] => xH
  | x00 :: l => xO (of_bits l)
  | _ :: l => xI (of_bits l)
  end.
Lemma of_bits_of p : of_bits (bits_of p) = p.
Proof. induction p as [p IH|p IH|]; simpl; by rewrite ?IH. Qed.

#[refine] Definition bits_json : ResultJson := {|
  to_vec := fun r => bits_of (encode (result_tuple r));
  from_slice := fun l => result_of_tuple <$> decode (of_bits l)
|}.
Proof. intros r. rewrite of_bits_of, decode_encode. exact (f_equal Some (result_tuple_back r)). Defined.

(** ** Orders and texts *)
#[refine] Definition plain_set : HashSetOrder Nvt := {| collect_set := remove_dups |}.
Proof.
  - apply NoDup_remove_dups.
  - intros l x. apply elem_of_remove_dups.
Defined.

#[refine] Definition stored_order : AdvisoryOrder := {| adv_order := fun l => l |}.
Proof. done. Defined.

Definition short_text : DbErrorText := {|
  db_error_debug := fun e =>
    match e with
    | DbError.Serialization => "Serialization"
    | DbError.NotFound => "NotFound"
    | DbError.Storage _ => "Storage"
    end%string
|}.

(** ** Scans and status as tuples *)
Definition pair_privilege (p : PrivilegeInformation) : string * string := (priv_username p, priv_password p).
Definition privilege_of (t : string * string) : PrivilegeInformation := mkPrivilege t.1 t.2.

Definition port_tuple (p : Port) : option bool * list (nat * option nat) :=
  (protocol_code <$> port_protocol p, map (fun r => (pr_start r, pr_end r)) (range p)).
Definition port_of (t : option bool * list (nat * option nat)) : Port :=
  mkPort (protocol_of_code <$> t.1) (map (fun r => mkPortRange r.1 r.2) t.2).

Definition type_tuple (c : CredentialType) :
  string * string * (option (string * string) + (string * option (string * string)) + (string * string * string * string)) :=
  match c with
  | UP u p pr => (u, p, inl (inl (pair_privilege <$> pr)))
  | USK u p k pr => (u, p, inl (inr (k, pair_privilege <$> pr)))
  | SNMP u p c a pp pa => (u, p, inr (c, a, pp, pa))
  end.
Definition type_of_tuple (t : string * string * (option (string * string) + (string * option (string * string)) + (string * string * string * string))) :
  CredentialType :=
  match t with
  | (u, p, inl (inl pr)) => UP u p (privilege_of <$> pr)
  | (u, p, inl (inr (k, pr))) => USK u p k (privilege_of <$> pr)
  | (u, p, inr (c, a, pp, pa)) => SNMP u p c a pp pa
  end.

Definition service_code (s : Service.t) : nat :=
  match s with Service.SSH => 0 | Service.SMB => 1 | Service.ESXi => 2 | Service.SNMP => 3 end.
Definition service_of (n : nat) : Service.t :=
  match n with 0 => Service.SSH | 1 => Service.SMB | 2 => Service.ESXi | _ => Service.SNMP end.

Definition credential_tuple (c : Credential) := (service_code (service c), cred_port c, type_tuple (credential_type c)).
Definition credential_of (t : nat * option Z * (string * string * (option (string * string) + (string * option (string * string)) + (string * string * string * string)))) :
  Credential := mkCredential (service_of t.1.1) t.1.2 (type_of_tuple t.2).

Definition method_of (z : Z) : AliveTestMethods.t :=
  match AliveTestMethods.try_from z with inl m => m | inr _ => AliveTestMethods.TcpAck end.

Definition target_tuple (t : Target) :=
  ((target_hosts t, map port_tuple (target_ports t), excluded_hosts t, map credential_tuple (credentials t)),
   (map port_tuple (alive_test_ports t), map AliveTestMethods.value (alive_test_methods t),
    reverse_lookup_unify t, reverse_lookup_only t)).
Definition target_of t :=
  mkTarget t.1.1.1.1 (map port_of t.1.1.1.2) t.1.1.2 (map credential_of t.1.2)
    (map port_of t.2.1.1.1) (map method_of t.2.1.1.2) t.2.1.2 t.2.2.

Definition scan_tuple (s : ScanModel) :=
  (scan_id s, target_tuple (scan_target s), map (fun p => (pref_id p, pref_value p)) (scan_preferences s),
   map (fun v => (vt_oid v, map (fun p => (param_id p, param_value p)) (parameters v))) (scan_vts s)).
Definition scan_of t :=
  mkScanModel t.1.1.1 (target_of t.1.1.2) (map (fun p => mkPreference p.1 p.2) t.1.2)
    (map (fun v => mkVT v.1 (map (fun p => mkParameter p.1 p.2) v.2)) t.2).

Lemma map_back {A B} (f : A -> B) (g : B -> A) l : (forall x, g (f x) = x) -> map g (map f l) = l.
Proof. intros Hg. rewrite map_map. rewrite <- (map_id l) at 2. by apply map_ext. Qed.

Lemma port_back p : port_of (port_tuple p) = p.
Proof.
  destruct p as [o r]. unfold port_of, port_tuple. simpl. f_equal; [by destruct o as [[]|]|].
  apply map_back. by intros [].
Qed.

Lemma credential_back c : credential_of (credential_tuple c) = c.
Proof.
  destruct c as [s p t]. unfold credential_of, credential_tuple. simpl. f_equal; [by destruct s|].
  destruct t as [? ? pr|? ? ? pr|]; simpl; try done; by destruct pr as [[]|].
Qed.

Lemma scan_tuple_back s : scan_of (scan_tuple s) = s.
Proof.
  destruct s as [id t ps vs]. unfold scan_of, scan_tuple. simpl. f_equal.
  - destruct t. unfold target_of, target_tuple. simpl. f_equal; try (apply map_back; apply port_back).
    + apply map_back, credential_back.
    + apply map_back. by intros [].
  - apply map_back. by intros [].
  - apply map_back. intros [o l]. simpl. f_equal. apply map_back. by intros [].
Qed.

Definition phase_code (p : Phase.t) : nat :=
  match p with
  | Phase.Stored => 0 | Phase.Requested => 1 | Phase.Running => 2 | Phase.Stopped => 3 | Phase.Failed => 4
  | Phase.Succeeded => 5
  end.
Definition phase_of (n : nat) : Phase.t :=
  match n with
  | 0 => Phase.Stored | 1 => Phase.Requested | 2 => Phase.Running | 3 => Phase.Stopped | 4 => Phase.Failed
  | _ => Phase.Succeeded
  end.
Definition host_info_tuple (h : HostInfo) :=
  ((all h, excluded h, dead h, alive h), (queued h, finished h, scanning h, remaining_vts_per_host h)).
Definition host_info_of t :=
  mkHostInfo t.1.1.1.1 t.1.1.1.2 t.1.1.2 t.1.2 t.2.1.1.1 t.2.1.1.2 t.2.1.2 t.2.2.
Definition status_tuple (s : Status) :=
  (start_time s, end_time s, phase_code (status s), host_info_tuple <$> host_info s).
Definition status_of t := mkStatus t.1.1.1 t.1.1.2 (phase_of t.1.2) (host_info_of <$> t.2).

Lemma status_tuple_back s : status_of (status_tuple s) = s.
Proof.
  destruct s as [a b p h]. unfold status_of, status_tuple. simpl. f_equal; [by destruct p|].
  by destruct h as [[]|].
Qed.
