(* ===== verification/FileStore.v ===== *)
(** * The indexed file store ([storage/infisto])

    Records of bytes under a key: a data file and a file with the byte ranges of the records
    ([base.rs]), a variant that caches the ranges, one that encrypts the records
    ([crypto.rs]), the iterator over records and the coding of values ([serde.rs]).

    The disk is a tree of directories with files; a path is followed from the root or the
    working directory through directories that exist, with [.] and [..] (there are no links).
    Every operation of the system may fail: the next element of [faults] says whether it does,
    with which kind of error, and how many bytes a failing write has put into the file before.
    Sizes and offsets ([usize]) are natural numbers; a difference below zero panics in both
    builds, at the subtraction or at the allocation or slice that uses it. *)

From S2P Require Import Prelude RustStr Errors Files Crypt.
Local Open Scope nat_scope.

(** ** error.rs *)
Module StoreError.
Inductive IoErrorKind : Set := CreateBaseDir | FileOpen | Write | Read | Remove | Seek.
Inductive t : Set := IoError (k : IoErrorKind) (e : Files.IoError.kind) | Serialize.
End StoreError.
Abbreviation IoErr := StoreError.IoError.

(** ** The disk *)

(** The place of a file or directory: the names on the way from the root. *)
Abbreviation place := (list string).
Record Fault := mkFault { fault_kind : IoError.kind; fault_written : nat }.
Record Disk := mkDisk {
  contents : gmap place (list byte); dirs : gset place; here : place; faults : list (option Fault)
}.

Definition set_contents (d : Disk) (c : gmap place (list byte)) : Disk := mkDisk c (dirs d) (here d) (faults d).

(** The parts of a path between its slashes *)
Fixpoint parts (l : list char) : list (list char) :=
  match l with
  | [] => [[]]
  | c :: l' =>
      if Ascii.eqb c "/" then [] :: parts l'
      else match parts l' with x :: r => (c :: x) :: r | [] => [[c]] end
  end.

(** The place that a name stands for in a directory. *)
Definition named (at_ : place) (n : string) : place :=
  if decide (n = "" \/ n = ".")%string then at_ else if decide (n = "..")%string then removelast at_ else at_ ++ [n].

(** Going through directories: a missing one is not found, a file is none. *)
Fixpoint walk (c : gmap place (list byte)) (ds : gset place) (at_ : place) (l : list string) : place + IoError.kind :=
  match l with
  | [] => inl at_
  | n :: l' =>
      let p := named at_ n in
      if decide (p = at_ \/ p ∈ ds \/ n = "..")%string then walk c ds p l'
      else match c !! p with Some _ => inr IoError.Other | None => inr IoError.NotFound end
  end.

Definition path_start (d : Disk) (path : list char) : place := if starts_with ["/"%char] path then [] else here d.

(** The place of a path: all but its last name are directories.  No path has a NUL. *)
Definition resolve (d : Disk) (path : string) : place + IoError.kind :=
  let l := chars_of path in
  if bool_decide (Ascii.zero ∈ l) then inr IoError.Other
  else match l with
       | [] => inr IoError.NotFound
       | _ =>
           let ns := map string_of (parts l) in
           match walk (contents d) (dirs d) (path_start d l) (removelast ns) with
           | inl p => inl (named p (List.last ns ""%string))
           | inr k => inr k
           end
       end.

Section Disk.
Abbreviation F := (M Disk StoreError.t).

(** What the system says to the next operation. *)
Definition next_fault : F (option Fault) := fun d =>
  match faults d with
  | [] => (Ok None, d)
  | f :: l => (Ok f, mkDisk (contents d) (dirs d) (here d) l)
  end.

(** An operation that fails before it does anything, or does [m]. *)
Definition system {A} (k : StoreError.IoErrorKind) (m : F A) : F A :=
  f ← next_fault;
  match f with Some f => throw (IoErr k (fault_kind f)) | None => m end.

(** An operation on the place of a path. *)
Definition at_path {A} (k : StoreError.IoErrorKind) (path : string) (m : place -> F A) : F A :=
  system k (
    r ← gets (fun d => resolve d path);
    match r with inl p => m p | inr e => throw (IoErr k e) end).

(** The options a file is opened with: [read], [append], or [write] with [create] and
    [truncate]. *)
Inductive OpenOptions : Set := ForRead | ForAppend | ForWrite.

(** The open file is its place.  A directory can be opened for reading. *)
Definition open_file (path : string) (opts : OpenOptions) : F place :=
  at_path StoreError.FileOpen path (fun p =>
    d ← get;
    if bool_decide (p ∈ dirs d) then
      match opts with ForRead => mret p | _ => throw (IoErr StoreError.FileOpen IoError.Other) end
    else match opts with
         | ForWrite => put (set_contents d (<[p := []]> (contents d))) ;; mret p
         | _ => match contents d !! p with
                | Some _ => mret p
                | None => throw (IoErr StoreError.FileOpen IoError.NotFound)
                end
         end).

(** [write_all] at the end of an open file. *)
Definition append_bytes (p : place) (buf : list byte) : F unit :=
  modify (fun d => set_contents d (alter (fun c => c ++ buf) p (contents d))).
Definition write_file (file : place) (buf : list byte) : F unit :=
  f ← next_fault;
  match f with
  | Some f =>
      append_bytes file (take (fault_written f) buf) ;;
      throw (IoErr StoreError.Write (fault_kind f))
  | None => append_bytes file buf
  end.

(** [seek], [read_exact] and [read_to_end] of an open file; a directory has no bytes to read. *)
Definition seek : F unit := system StoreError.Seek (mret tt).
Definition read_with {A} (file : place) (f : list byte -> option A) : F A :=
  system StoreError.Read (
    c ← gets (fun d => contents d !! file);
    match c ≫= f with Some a => mret a | None => throw (IoErr StoreError.Read IoError.Other) end).
Definition read_exact (file : place) (start len : nat) : F (list byte) :=
  read_with file (fun c => if decide (start + len <= length c) then Some (take len (drop start c)) else None).
Definition read_to_end (file : place) : F (list byte) := read_with file Some.

Definition remove_file (path : string) : F unit :=
  at_path StoreError.Remove path (fun p =>
    d ← get;
    if bool_decide (p ∈ dirs d) then throw (IoErr StoreError.Remove IoError.Other)
    else match contents d !! p with
         | Some _ => put (set_contents d (delete p (contents d)))
         | None => throw (IoErr StoreError.Remove IoError.NotFound)
         end).

(** [Path::exists] *)
Definition path_found (d : Disk) (path : string) : bool :=
  match resolve d path with
  | inl p => bool_decide (p ∈ dirs d) || bool_decide (is_Some (contents d !! p))
  | inr _ => false
  end.

(** [fs::create_dir_all]: every directory on the way that is missing. *)
Fixpoint make_dirs (c : gmap place (list byte)) (ds : gset place) (at_ : place) (l : list string) : gset place + IoError.kind :=
  match l with
  | [] => inl ds
  | n :: l' =>
      let p := named at_ n in
      match c !! p with
      | Some _ => inr IoError.Other
      | None => make_dirs c ({[p]} ∪ ds) p l'
      end
  end.
Definition create_dir_all (path : string) : F unit :=
  system StoreError.CreateBaseDir (
    d ← get;
    let l := chars_of path in
    if bool_decide (Ascii.zero ∈ l) then throw (IoErr StoreError.CreateBaseDir IoError.Other)
    else match make_dirs (contents d) (dirs d) (path_start d l) (map string_of (parts l)) with
         | inl ds => put (mkDisk (contents d) ds (here d) (faults d))
         | inr k => throw (IoErr StoreError.CreateBaseDir k)
         end).
End Disk.

(** ** Ranges of records *)
Record Index := mkIndex { start : nat; stop : nat }.

Inductive Range : Set :=
| All | From (i : nat) | Until (i : nat) | Between (s e : nat) | Single (i : nat).

(** [&fi[s..e]] *)
Definition slice_of {A} (s e : nat) (l : list A) : option (list A) :=
  if decide (s <= e <= length l) then Some (take (e - s) (drop s l)) else None.

Definition range_filter {A} (r : Range) (fi : list A) : option (list A) :=
  match r with
  | All => Some fi
  | From i => if decide (length fi <= i) then Some [] else slice_of i (length fi) fi
  | Until i => slice_of 0 (i `min` length fi) fi
  | Between s e => if decide (length fi <= s) then Some [] else slice_of s (e `min` length fi) fi
  | Single i => if decide (length fi <= i) then Some [] else slice_of i (S i) fi
  end.

(** [serde_json] of a type: what is written is read back. *)
Class Json (A : Type) := {
  json_to_vec : A -> option (list byte);
  json_from_slice : list byte -> option A;
  json_roundtrip : forall a b, json_to_vec a = Some b -> json_from_slice b = Some a
}.

(** ** [IndexedByteStorage]

    The conversion into [T] that a caller chooses is an argument. *)
Class IndexedByteStorage (S : Type) := {
  ibs_put : string -> list byte -> M S StoreError.t unit;
  ibs_append_all : string -> list (list byte) -> M S StoreError.t unit;
  ibs_remove : string -> M S StoreError.t unit;
  ibs_indices : string -> M S StoreError.t (list Index);
  ibs_by_indices : forall {T}, (list byte -> option T) -> string -> list Index -> M S StoreError.t (list T)
}.

Section Defaults.
Context {S : Type} `{IndexedByteStorage S} {T : Type} (conv : list byte -> option T).

Definition ibs_append (key : string) (data : list byte) : M S StoreError.t unit :=
  ibs_append_all key [data].

Definition by_range (key : string) (range : Range) : M S StoreError.t (list T) :=
  indices ← ibs_indices key;
  filtered ← or_panic (range_filter range indices);
  ibs_by_indices conv key filtered.

Definition by_index (key : string) (index : Index) : M S StoreError.t (option T) :=
  data ← ibs_by_indices conv key [index];
  mret (head data).

(** *** [IndexedByteStorageIterator]: the records it still has to read. *)
Definition load_indices (key : string) : M S StoreError.t (list Index) :=
  r ← attempt (ibs_indices key);
  match r with
  | inl i => mret i
  | inr (IoErr StoreError.FileOpen IoError.NotFound) => mret []
  | inr e => throw e
  end.

Definition iterator_new (key : string) : M S StoreError.t (list Index) := load_indices key.
Definition iterator_by_range (key : string) (range : Range) : M S StoreError.t (list Index) :=
  indices ← load_indices key;
  or_panic (range_filter range indices).

(** All items of the iterator; a missing item ends it. *)
Fixpoint iterate (key : string) (indices : list Index) : M S StoreError.t (list (T + StoreError.t)) :=
  match indices with
  | [] => mret []
  | i :: rest =>
      r ← attempt (by_index key i);
      match r with
      | inl None => mret []
      | inl (Some x) => l ← iterate key rest; mret (inl x :: l)
      | inr e => l ← iterate key rest; mret (inr e :: l)
      end
  end.
End Defaults.

(** ** [IndexedFileStorer] *)
Record IndexedFileStorer := mkStorer { base : string; disk : Disk }.

Section Storer.
Context `{Json (list Index)}.
Abbreviation F := (M IndexedFileStorer StoreError.t).

Definition on_disk {A} (m : M Disk StoreError.t A) : F A := fun s =>
  let '(o, d) := m (disk s) in (o, mkStorer (base s) d).

(** [IndexedFileStorer::init] on a disk *)
Definition init (path : string) : M Disk StoreError.t string :=
  found ← gets (fun d => path_found d path);
  (if found : bool then mret tt else create_dir_all path) ;;
  mret path.

Definition file_path (b name : string) : string := string_of (join (chars_of b) (chars_of name)).
Definition dat_name (key : string) : string := key +:+ ".dat".
Definition idx_name (key : string) : string := key +:+ ".idx".

Definition store_index (index : list Index) (id : string) : F unit :=
  match json_to_vec index with
  | None => throw StoreError.Serialize
  | Some to_store =>
      b ← gets base;
      file ← on_disk (open_file (file_path b (idx_name id)) ForWrite);
      on_disk (write_file file to_store)
  end.

Definition create (id : string) (element : list byte) : F (list Index) :=
  let index := [mkIndex 0 (length element)] in
  store_index index id ;;
  b ← gets base;
  file ← on_disk (open_file (file_path b (dat_name id)) ForWrite);
  on_disk (write_file file element) ;;
  mret index.

Definition data_by_index (key : string) (idx : Index) : F (list byte) :=
  b ← gets base;
  file ← on_disk (open_file (file_path b (dat_name key)) ForRead);
  len ← or_panic (if decide (start idx <= stop idx) then Some (stop idx - start idx) else None);
  on_disk seek ;;
  on_disk (read_exact file (start idx) len).

Definition load_index (key : string) : F (list Index) :=
  b ← gets base;
  file ← on_disk (open_file (file_path b (idx_name key)) ForRead);
  buffer ← on_disk (read_to_end file);
  ok_or (json_from_slice buffer) StoreError.Serialize.

(** The writes of [append_all_index] from an end position on: the new ranges. *)
Fixpoint append_records (file : place) (pos : nat) (data : list (list byte)) : F (list Index) :=
  match data with
  | [] => mret []
  | b :: rest =>
      on_disk (write_file file b) ;;
      l ← append_records file (pos + length b) rest;
      mret (mkIndex pos (pos + length b) :: l)
  end.

Definition append_all_index (key : string) (index : list Index) (data : list (list byte)) : F (list Index) :=
  b ← gets base;
  file ← on_disk (open_file (file_path b (dat_name key)) ForAppend);
  new ← append_records file (default 0 (stop <$> last index)) data;
  let index := index ++ new in
  store_index index key ;;
  mret index.

Definition clean (key : string) : F unit :=
  b ← gets base;
  on_disk (remove_file (file_path b (dat_name key))) ;;
  on_disk (remove_file (file_path b (idx_name key))).

Definition not_found (e : StoreError.t) : bool :=
  match e with IoErr StoreError.FileOpen IoError.NotFound => true | _ => false end.

Definition storer_put (key : string) (data : list byte) : F unit := create key data ;; mret tt.

Definition storer_append_all (key : string) (data : list (list byte)) : F unit :=
  match data with
  | [] => mret tt
  | first :: rest =>
      result ← attempt (load_index key);
      match result with
      | inl i => append_all_index key i data ;; mret tt
      | inr e =>
          if not_found e then
            initial ← create key first;
            append_all_index key initial rest ;; mret tt
          else throw e
      end
  end.

(** The records of a read range, each cut out at its distance from the start. *)
Fixpoint cut_records {T} (conv : list byte -> option T) (from : nat) (data : list byte)
  (indices : list Index) : F (list T) :=
  match indices with
  | [] => mret []
  | i :: rest =>
      d ← or_panic (if decide (from <= start i /\ from <= stop i)
                    then slice_of (start i - from) (stop i - from) data else None);
      x ← ok_or (conv d) StoreError.Serialize;
      l ← cut_records conv from data rest;
      mret (x :: l)
  end.

Definition storer_by_indices {T} (conv : list byte -> option T) (key : string) (indices : list Index) :
  F (list T) :=
  let from := default 0 (start <$> head indices) in
  let to := default 0 (stop <$> last indices) in
  data ← data_by_index key (mkIndex from to);
  cut_records conv from data indices.

#[global] Instance file_storer : IndexedByteStorage IndexedFileStorer := {|
  ibs_put := storer_put; ibs_append_all := storer_append_all; ibs_remove := clean;
  ibs_indices := load_index; ibs_by_indices := @storer_by_indices
|}.
End Storer.

(** ** [CachedIndexFileStorer]: the ranges of the last five keys *)
Record CachedIndexFileStorer := mkCached {
  plain : IndexedFileStorer; cache : list (option (string * list Index))
}.

Section Cached.
Context `{Json (list Index)}.
Abbreviation F := (M CachedIndexFileStorer StoreError.t).

Definition CACHE_LEN : nat := 5.
Definition empty_cache : list (option (string * list Index)) := replicate CACHE_LEN None.

Definition on_plain {A} (m : M IndexedFileStorer StoreError.t A) : F A := fun s =>
  let '(o, p) := m (plain s) in (o, mkCached p (cache s)).
Definition set_cache (c : list (option (string * list Index))) : F unit :=
  modify (fun s => mkCached (plain s) c).

(** [find_index], counting from [i] *)
Fixpoint find_index (i : nat) (key : string) (c : list (option (string * list Index))) :
  option (nat * list Index) :=
  match c with
  | [] => None
  | Some (k, v) :: c' => if decide (k = key) then Some (i, v) else find_index (S i) key c'
  | None :: c' => find_index (S i) key c'
  end.

(** [slice::swap]; both places are inside. *)
Definition swap {A} (i j : nat) (l : list A) : list A :=
  match l !! i, l !! j with
  | Some a, Some b => <[i := b]> (<[j := a]> l)
  | _, _ => l
  end.

(** [for i in (1..=n).rev() { swap(i - 1, i) }] *)
Fixpoint swap_down {A} (n : nat) (l : list A) : list A :=
  match n with 0 => l | S i => swap_down i (swap i (S i) l) end.

Definition cached_put (key : string) (data : list byte) : F unit :=
  c ← gets cache;
  set_cache (match find_index 0 key c with
             | Some (i, _) => swap 0 i c
             | None => swap_down (CACHE_LEN - 1) c
             end) ;;
  result ← on_plain (create key data);
  c ← gets cache;
  set_cache (<[0 := Some (key, result)]> c).

Definition cached_append_all (key : string) (data : list (list byte)) : F unit :=
  c ← gets cache;
  '(ci, result) ← match find_index 0 key c with
    | Some (ci, fi) => r ← on_plain (append_all_index key fi data); mret (ci, r)
    | None =>
        result ← attempt (on_plain (load_index key));
        match result with
        | inl i => r ← on_plain (append_all_index key i data); mret (CACHE_LEN - 1, r)
        | inr e =>
            if not_found e then
              match data with
              | first :: rest =>
                  initial ← on_plain (create key first);
                  r ← on_plain (append_all_index key initial rest);
                  mret (CACHE_LEN - 1, r)
              | [] => mret (0, [])
              end
            else throw e
        end
    end;
  c ← gets cache;
  set_cache (<[0 := Some (key, result)]> (swap_down ci c)).

Definition cached_remove (key : string) : F unit :=
  on_plain (clean key) ;;
  c ← gets cache;
  set_cache (map (fun e => match e with
                           | Some (k, v) => if decide (k = key) then None else Some (k, v)
                           | None => None
                           end) c).

Definition cached_indices (key : string) : F (list Index) :=
  c ← gets cache;
  match find_index 0 key c with
  | Some (_, fi) => mret fi
  | None => on_plain (load_index key)
  end.

Definition cached_by_indices {T} (conv : list byte -> option T) (key : string) (indices : list Index) :
  F (list T) := on_plain (storer_by_indices conv key indices).

#[global] Instance cached_storer : IndexedByteStorage CachedIndexFileStorer := {|
  ibs_put := cached_put; ibs_append_all := cached_append_all; ibs_remove := cached_remove;
  ibs_indices := cached_indices; ibs_by_indices := @cached_by_indices
|}.
End Cached.

(** ** [ChaCha20IndexFileStorer]: records encrypted under the key of the store

    The key is the one of the class [Cipher]; [drawn] counts the nonces. *)
Record ChaCha20IndexFileStorer (S : Type) := mkChaCha { store : S; drawn : nat }.
Arguments mkChaCha {S}.
Arguments store {S}.
Arguments drawn {S}.

Section ChaCha.
Context `{Cipher} {S : Type} `{IndexedByteStorage S}.
Abbreviation F := (M (ChaCha20IndexFileStorer S) StoreError.t).

Definition on_store {A} (m : M S StoreError.t A) : F A := fun s =>
  let '(o, x) := m (store s) in (o, mkChaCha x (drawn s)).

(** [encrypt]: the nonce before the data. *)
Definition encrypt_record (data : list byte) : F (list byte) := fun s =>
  let nonce := random_nonce (drawn s) in
  (Ok (nonce ++ keystream nonce data), mkChaCha (store s) (drawn s + 1)).
Fixpoint encrypt_records (l : list (list byte)) : F (list (list byte)) :=
  match l with
  | [] => mret []
  | d :: l' => e ← encrypt_record d; es ← encrypt_records l'; mret (e :: es)
  end.

(** [decrypt]: a record of less than 12 bytes panics. *)
Definition decrypt_record (e : list byte) : option (list byte) :=
  if decide (12 <= length e) then Some (keystream (take 12 e) (drop 12 e)) else None.

Definition chacha_put (key : string) (data : list byte) : F unit :=
  e ← encrypt_record data; on_store (ibs_put key e).

Definition chacha_append_all (key : string) (data : list (list byte)) : F unit :=
  es ← encrypt_records data; on_store (ibs_append_all key es).

(** Records that cannot be converted are left out. *)
Fixpoint decrypt_records {T} (conv : list byte -> option T) (l : list (list byte)) : F (list T) :=
  match l with
  | [] => mret []
  | e :: l' =>
      d ← or_panic (decrypt_record e);
      ts ← decrypt_records conv l';
      mret (match conv d with Some t => t :: ts | None => ts end)
  end.

Definition chacha_by_indices {T} (conv : list byte -> option T) (key : string) (indices : list Index) :
  F (list T) :=
  encrypted ← on_store (ibs_by_indices Some key indices);
  decrypt_records conv encrypted.

#[global] Instance chacha_storer : IndexedByteStorage (ChaCha20IndexFileStorer S) := {|
  ibs_put := chacha_put; ibs_append_all := chacha_append_all;
  ibs_remove := fun key => on_store (ibs_remove key);
  ibs_indices := fun key => on_store (ibs_indices key);
  ibs_by_indices := @chacha_by_indices
|}.
End ChaCha.

(** ** serde.rs *)
Inductive Serialization (T : Type) : Type := Deserialized (t : T) | Serialized (b : list byte).
Arguments Deserialized {T}.
Arguments Serialized {T}.

Section Serde.
Context {T : Type} `{Json T}.
Definition serialize (t : T) : outcome StoreError.t (Serialization T) :=
  match json_to_vec t with Some v => Ok (Serialized v) | None => Err StoreError.Serialize end.
Definition deserialize (s : Serialization T) : outcome StoreError.t T :=
  match s with Deserialized t => Ok t | Serialized _ => Err StoreError.Serialize end.
(** [TryFrom<Vec<u8>>] *)
Definition serialization_try_from (v : list byte) : option (Serialization T) :=
  Deserialized <$> json_from_slice v.
(** [AsRef<[u8]>] and [From<Serialization<T>>] *)
Definition serialization_bytes (s : Serialization T) : list byte :=
  match s with Deserialized _ => [byte_of_N 0] | Serialized v => v end.
End Serde.
