(* ===== verification/FileStoreProps.v ===== *)
(** * What the indexed file store keeps

    On a disk that does not fail the store is a map from keys to lists of records: the laws
    of the class [ByteStoreLaws], which the plain store satisfies and the encrypting store
    inherits.  The cache of ranges is an optimisation that does not change a result, with one
    exception; a failed write shifts all later records. *)

From S2P Require Import Prelude RustStr Errors Files Crypt FileStore.
Local Open Scope nat_scope.

(** ** The abstract store *)
Abbreviation kept := (gmap string (list (list byte))).

(** Keys that are names: their files lie in the directory of the store itself. *)
Definition name_char (c : char) : bool := negb (Ascii.eqb c "/") && negb (Ascii.eqb c Ascii.zero).
Definition safe_key (k : string) : bool := forallb name_char (chars_of k).

Definition spec_append (k : string) (ds : list (list byte)) (m : kept) : kept :=
  match ds with [] => m | _ => <[k := default [] (m !! k) ++ ds]> m end.

Definition absent_error : StoreError.t := IoErr StoreError.FileOpen IoError.NotFound.

Class ByteStoreLaws (S : Type) `{IndexedByteStorage S} := {
  bs_holds : S -> kept -> Prop;
  (** whether appending no record at all keeps the laws *)
  bs_any_append : bool;
  bs_put_ok : forall s m k d, bs_holds s m -> safe_key k ->
    exists s', ibs_put k d s = (Ok tt, s') /\ bs_holds s' (<[k := [d]]> m);
  bs_append_ok : forall s m k ds, bs_holds s m -> safe_key k -> bs_any_append = true \/ ds <> [] ->
    exists s', ibs_append_all k ds s = (Ok tt, s') /\ bs_holds s' (spec_append k ds m);
  bs_remove_ok : forall s m k, bs_holds s m -> safe_key k ->
    exists s', ibs_remove k s
      = (if m !! k is Some _ then Ok tt else Err (IoErr StoreError.Remove IoError.NotFound), s')
    /\ bs_holds s' (delete k m);
  bs_absent : forall s m k, bs_holds s m -> safe_key k -> m !! k = None ->
    ibs_indices k s = (Err absent_error, s);
  bs_read : forall s m k recs, bs_holds s m -> safe_key k -> m !! k = Some recs ->
    exists idx, ibs_indices k s = (Ok idx, s) /\ length idx = length recs
    /\ forall T (conv : list byte -> option T) i n ts,
       mapM conv (take n (drop i recs)) = Some ts ->
       ibs_by_indices conv k (take n (drop i idx)) s = (Ok ts, s)
}.

(** ** Reading a range *)
Lemma slice_of_some {A} s e (l out : list A) : slice_of s e l = Some out ->
  s <= e <= length l /\ out = take (e - s) (drop s l).
Proof. unfold slice_of. destruct (decide _); [by intros [= <-]|done]. Qed.

(** A filter depends on the number of elements only. *)
Lemma range_filter_shape {A B} (r : Range) (l : list A) (l' : list B) : length l = length l' ->
  (range_filter r l = None /\ range_filter r l' = None)
  \/ exists i n, range_filter r l = Some (take n (drop i l)) /\ range_filter r l' = Some (take n (drop i l')).
Proof.
  intros E. destruct r; simpl; unfold slice_of; rewrite <- ?E; repeat destruct (decide _); auto;
    right.
  - exists 0, (length l). by rewrite !drop_0, take_ge, take_ge by lia.
  - by exists 0, 0.
  - by eexists _, _.
  - by eexists _, _.
  - by exists 0, 0.
  - by eexists _, _.
  - by exists 0, 0.
  - by eexists _, _.
Qed.

Section Reading.
Context {S : Type} `{ByteStoreLaws S} {T : Type} (conv : list byte -> option T).

Lemma by_range_ok s m k recs r out ts :
  bs_holds s m -> safe_key k -> m !! k = Some recs ->
  range_filter r recs = Some out -> mapM conv out = Some ts -> by_range conv k r s = (Ok ts, s).
Proof.
  intros Hs Hk Hm Hr Ht. destruct (bs_read s m k recs Hs Hk Hm) as (idx & Hi & Hl & Hread).
  unfold by_range, mbind, M_bind. rewrite Hi.
  destruct (range_filter_shape r recs idx (eq_sym Hl)) as [[E _]|(i & n & E & E')]; [congruence|].
  rewrite E'. simpl. apply Hread. rewrite E in Hr. by injection Hr as ->.
Qed.

Lemma by_range_panic s m k recs r :
  bs_holds s m -> safe_key k -> m !! k = Some recs -> range_filter r recs = None ->
  by_range conv k r s = (Panic, s).
Proof.
  intros Hs Hk Hm Hr. destruct (bs_read s m k recs Hs Hk Hm) as (idx & Hi & Hl & Hread).
  unfold by_range, mbind, M_bind. rewrite Hi.
  destruct (range_filter_shape r recs idx (eq_sym Hl)) as [[_ E]|(i & n & E & _)]; [|congruence].
  by rewrite E.
Qed.

Lemma by_range_absent s m k r : bs_holds s m -> safe_key k -> m !! k = None ->
  by_range conv k r s = (Err absent_error, s).
Proof. intros Hs Hk Hm. unfold by_range, mbind, M_bind. by rewrite (bs_absent s m k). Qed.

(** *** The iterator *)
Lemma iterate_ok s m k recs idx : bs_holds s m -> safe_key k -> m !! k = Some recs ->
  ibs_indices k s = (Ok idx, s) -> forall i n ts, mapM conv (take n (drop i recs)) = Some ts ->
  iterate conv k (take n (drop i idx)) s = (Ok (inl <$> ts), s).
Proof.
  intros Hs Hk Hm Hi. destruct (bs_read s m k recs Hs Hk Hm) as (idx' & Hi' & Hl & Hread).
  rewrite Hi in Hi'. injection Hi' as <-. intros i n. revert i. induction n as [|n IH]; intros i ts Ht.
  - simpl in *. by injection Ht as <-.
  - destruct (drop i recs) as [|x rest] eqn:E.
    + assert (drop i idx = []) as ->.
      { apply length_zero_iff_nil. rewrite length_drop, Hl, <- length_drop, E. done. }
      simpl in *. by injection Ht as <-.
    + destruct (drop i idx) as [|y rest'] eqn:E'.
      { assert (length (drop i recs) = length (drop i idx)) as El by (rewrite !length_drop; lia).
        by rewrite E, E' in El. }
      assert (drop (i + 1) recs = rest) as Er by (rewrite <- drop_drop, E; done).
      assert (drop (i + 1) idx = rest') as Er' by (rewrite <- drop_drop, E'; done).
      simpl in Ht. destruct (conv x) as [t|] eqn:Ec; [|done]. simpl in Ht.
      destruct (mapM conv (take n rest)) as [ts'|] eqn:Em; [|done]. injection Ht as <-.
      cbn [take iterate]. specialize (Hread T conv i 1 [t]). rewrite E, E' in Hread. cbn [take] in Hread.
      rewrite !take_0 in Hread. simpl in Hread. rewrite Ec in Hread. specialize (Hread eq_refl).
      unfold attempt, by_index, mbind, M_bind. rewrite Hread. simpl.
      rewrite <- Er' at 1. by rewrite (IH (i + 1) ts' ltac:(by rewrite Er)).
Qed.
End Reading.

(** ** The plain store *)

(** *** Ranges *)
Fixpoint ranges (pos : nat) (recs : list (list byte)) : list Index :=
  match recs with
  | [] => []
  | r :: l => mkIndex pos (pos + length r) :: ranges (pos + length r) l
  end.

Lemma ranges_length pos recs : length (ranges pos recs) = length recs.
Proof. revert pos. induction recs as [|r l IH]; intros; simpl; auto. Qed.

Lemma ranges_app pos a b : ranges pos (a ++ b) = ranges pos a ++ ranges (pos + length (concat a)) b.
Proof.
  revert pos. induction a as [|r a IH]; intros pos; simpl; [by rewrite Nat.add_0_r|].
  by rewrite IH, length_app, Nat.add_assoc.
Qed.

Lemma ranges_end recs : default 0 (stop <$> last (ranges 0 recs)) = length (concat recs).
Proof.
  induction recs as [|r recs _] using rev_ind; [done|].
  rewrite ranges_app. cbn [ranges]. rewrite last_snoc, concat_app, length_app. simpl. by rewrite app_nil_r.
Qed.

Lemma ranges_drop i pos recs :
  drop i (ranges pos recs) = ranges (pos + length (concat (take i recs))) (drop i recs).
Proof.
  revert pos recs. induction i as [|i IH]; intros pos [|r recs]; simpl; rewrite ?Nat.add_0_r; try done.
  by rewrite IH, length_app, Nat.add_assoc.
Qed.

Lemma ranges_take n pos recs : take n (ranges pos recs) = ranges pos (take n recs).
Proof. revert pos recs. induction n as [|n IH]; intros pos [|r recs]; simpl; by rewrite ?IH. Qed.

Lemma ranges_last pos recs : recs <> [] ->
  stop <$> last (ranges pos recs) = Some (pos + length (concat recs)).
Proof.
  intros Hne. destruct recs as [|r recs _] using rev_ind; [done|].
  rewrite ranges_app. cbn [ranges]. rewrite last_snoc, concat_app, length_app. simpl.
  rewrite app_nil_r. f_equal. lia.
Qed.

(** *** Paths *)
Lemma parts_app a b : parts (a ++ "/"%char :: b) = parts a ++ parts b.
Proof.
  induction a as [|c a IH]; [done|]. cbn [app parts]. destruct (Ascii.eqb c "/"); [by rewrite IH|].
  rewrite IH. destruct (parts a) as [|x r] eqn:E; [|done]. exfalso. clear -E. destruct a as [|c a]; [done|]. simpl in E.
  destruct (Ascii.eqb c "/"); [done|]. by destruct (parts a).
Qed.
Lemma parts_name n : forallb name_char n = true -> parts n = [n].
Proof.
  induction n as [|c n IH]; [done|]. cbn [forallb parts]. intros [Hc Hn]%andb_prop. unfold name_char in Hc.
  destruct (Ascii.eqb c "/"); [done|]. by rewrite IH.
Qed.
Lemma walk_app c ds at_ a b :
  walk c ds at_ (a ++ b) = match walk c ds at_ a with inl p => walk c ds p b | inr k => inr k end.
Proof.
  revert at_. induction a as [|n a IH]; intros at_; [done|]. cbn [app walk]. destruct (decide _); [apply IH|by destruct (c !! _)].
Qed.
Lemma walk_here c ds at_ : walk c ds at_ [""%string] = inl at_.
Proof. cbn [walk]. by rewrite decide_True by (left; done). Qed.
(** Files do not help on the way. *)
Lemma walk_contents c c' ds at_ l p : walk c ds at_ l = inl p -> walk c' ds at_ l = inl p.
Proof.
  revert at_. induction l as [|n l IH]; intros at_; [done|]. cbn [walk]. destruct (decide _); [apply IH|by destruct (c !! _)].
Qed.

(** Names of files, which are not those that stand for directories *)
Definition file_name (n : string) : Prop := forallb name_char (chars_of n) = true /\ n ∉ [""; "."; ".."]%string.
Lemma named_file at_ n : file_name n -> named at_ n = at_ ++ [n].
Proof. intros [_ Hn]. unfold named. rewrite !decide_False by set_solver. done. Qed.
Lemma no_zero n : forallb name_char n = true -> Ascii.zero ∉ n.
Proof.
  intros Hn Hz%list_elem_of_In. rewrite forallb_forall in Hn. by specialize (Hn _ Hz).
Qed.
Lemma file_names k : safe_key k -> file_name (dat_name k) /\ file_name (idx_name k).
Proof.
  intros Hk. unfold safe_key in Hk. apply Is_true_true in Hk. unfold file_name, dat_name, idx_name. rewrite !chars_of_app, !forallb_app, Hk.
  assert (forall e, (4 <= length (chars_of e))%nat -> k +:+ e ∉ [""; "."; ".."]%string) as Hlong.
  { intros e He Hin. assert (length (chars_of (k +:+ e)) <= 2) as Hle.
    { by apply elem_of_cons in Hin as [->|[->|[->|Hin%elem_of_nil]%elem_of_cons]%elem_of_cons]; simpl; try lia. }
    rewrite chars_of_app, length_app in Hle. lia. }
  split; (split; [done|apply Hlong; simpl; lia]).
Qed.

(** The directory of a path, whatever files there are *)
Definition dir_of (d : Disk) (b : string) : place + IoError.kind :=
  walk ∅ (dirs d) (path_start d (chars_of b)) (map string_of (parts (chars_of b))).

Lemma name_chars_start l : forallb name_char l = true -> starts_with ["/"%char] l = false.
Proof.
  destruct l as [|x l]; [done|]. cbn [forallb]. intros [Hx _]%andb_prop. unfold name_char in Hx.
  cbn [starts_with]. rewrite Ascii.eqb_sym. by destruct (Ascii.eqb x "/").
Qed.

(** A path in the directory is followed to the directory first. *)
Lemma path_below d b n p : Ascii.zero ∉ chars_of b -> dir_of d b = inl p ->
  Ascii.zero ∉ chars_of n -> chars_of n <> [] -> starts_with ["/"%char] (chars_of n) = false ->
  exists l, chars_of (file_path b n) = l /\ Ascii.zero ∉ l /\ l <> []
    /\ exists ns, map string_of (parts l) = ns ++ map string_of (parts (chars_of n)) /\ walk (contents d) (dirs d) (path_start d l) ns = inl p.
Proof.
  intros Hz Hp Hnz Hne Hs. apply (walk_contents _ (contents d)) in Hp.
  unfold file_path, join. change (chars_of "/") with ["/"%char]. rewrite chars_of_string, Hs.
  destruct (chars_of b) as [|x bs] eqn:Eb.
  - exists (chars_of n). split_and!; [done..|]. exists []. split; [done|].
    unfold path_start in *. rewrite Hs. cbn [parts map] in Hp. by rewrite walk_here in Hp.
  - destruct (ends_with (x :: bs) ["/"%char]) eqn:Ee.
    + apply ends_with_spec in Ee as [r Er]. exists ((x :: bs) ++ chars_of n). split_and!; [done|set_solver|done|].
      exists (map string_of (parts r)). rewrite Er in *. rewrite <- app_assoc. cbn [app]. rewrite parts_app in Hp |- *.
      rewrite map_app. split; [done|]. rewrite map_app, walk_app in Hp.
      replace (path_start d (r ++ _)) with (path_start d (r ++ ["/"%char])) by (by destruct r).
      destruct (walk _ _ _ (map string_of (parts r))) as [q|]; [|done]. cbn [parts map] in Hp. by rewrite walk_here in Hp.
    + exists ((x :: bs) ++ ["/"%char] ++ chars_of n). split_and!; [done|set_solver|done|].
      exists (map string_of (parts (x :: bs))). change (["/"%char] ++ chars_of n) with ("/"%char :: chars_of n).
      by rewrite (parts_app (x :: bs)), map_app.
Qed.

Lemma resolve_file d b n p : Ascii.zero ∉ chars_of b -> dir_of d b = inl p -> file_name n ->
  resolve d (file_path b n) = inl (p ++ [n]).
Proof.
  intros Hz Hp Hn. pose proof Hn as [Hc _].
  assert (chars_of n <> []) as Hne. { intros E. destruct Hn as [_ Hn]. apply Hn. rewrite <- (string_of_chars n), E. set_solver. }
  destruct (path_below d b n p Hz Hp (no_zero _ Hc) Hne (name_chars_start _ Hc)) as (l & El & Hlz & Hln & ns & Ens & Hw).
  unfold resolve. rewrite El, bool_decide_eq_false_2 by done. destruct l as [|y l]; [done|].
  rewrite (parts_name (chars_of n)) in Ens by done. cbn [map] in Ens. rewrite string_of_chars in Ens.
  rewrite Ens, removelast_last, last_last, Hw. by rewrite named_file.
Qed.

(** A path through a directory that is missing *)
Lemma resolve_nested d b k k' p : Ascii.zero ∉ chars_of b -> dir_of d b = inl p -> file_name k -> Ascii.zero ∉ chars_of k' ->
  p ++ [k] ∉ dirs d -> contents d !! (p ++ [k]) = None -> resolve d (file_path b (k +:+ "/" +:+ k')) = inr IoError.NotFound.
Proof.
  intros Hz Hp Hk Hk' Hd Hc. pose proof Hk as [Hkc Hkn].
  assert (chars_of (k +:+ "/" +:+ k') = chars_of k ++ "/"%char :: chars_of k') as En by (by rewrite !chars_of_app).
  destruct (path_below d b (k +:+ "/" +:+ k') p Hz Hp) as (l & El & Hlz & Hln & ns & Ens & Hw).
  - rewrite En. pose proof (no_zero _ Hkc). rewrite not_elem_of_app, not_elem_of_cons. done.
  - rewrite En. by destruct (chars_of k) as [|??].
  - rewrite En. destruct (chars_of k) as [|x r] eqn:Ek; [|exact (name_chars_start (x :: r) Hkc)].
    exfalso. apply Hkn. rewrite <- (string_of_chars k), Ek. set_solver.
  - unfold resolve. rewrite El, bool_decide_eq_false_2 by done. destruct l as [|y l]; [done|].
    rewrite En, parts_app, (parts_name (chars_of k)) in Ens by done. cbn [app map] in Ens. rewrite string_of_chars in Ens.
    rewrite Ens, removelast_app by done. rewrite walk_app, Hw.
    assert (exists r, removelast (k :: map string_of (parts (chars_of k'))) = k :: r) as [r ->].
    { destruct (parts (chars_of k')) as [|x r] eqn:E; [|by eexists]. exfalso. clear -E. destruct (chars_of k') as [|c m]; [done|].
      cbn in E. destruct (Ascii.eqb c "/"); [done|]. by destruct (parts m). }
    cbn [walk]. rewrite named_file by done. rewrite decide_False, Hc; [done|].
    intros [E|[E|E]]; [|done|subst; set_solver]. apply (f_equal length) in E. rewrite length_app in E. simpl in E. lia.
Qed.

(** *** What is on the disk *)
Lemma alter_known {A} (m : gmap place A) p (f : A -> A) a : m !! p = Some a -> alter f p m = <[p := f a]> m.
Proof. intros E. rewrite <- (insert_id m p a E) at 1. apply alter_insert_eq. Qed.

Lemma alter_append (m : gmap place (list byte)) p a b :
  alter (fun c => c ++ b) p (alter (fun c => c ++ a) p m) = alter (fun c => c ++ a ++ b) p m.
Proof.
  apply map_eq. intros q. destruct (decide (p = q)) as [->|]; [|by rewrite !lookup_alter_ne].
  rewrite !lookup_alter_eq. by destruct (m !! q); simpl; rewrite ?app_assoc.
Qed.

Section Plain.
Context `{Json (list Index)}.

Definition home (s : IndexedFileStorer) : place := match dir_of (disk s) (base s) with inl p => p | inr _ => [] end.
Abbreviation dat_path s k := (home s ++ [dat_name k]).
Abbreviation idx_path s k := (home s ++ [idx_name k]).

Definition with_files (s : IndexedFileStorer) (c : gmap place (list byte)) : IndexedFileStorer :=
  mkStorer (base s) (set_contents (disk s) c).
Lemma home_with s c : home (with_files s c) = home s.
Proof. done. Qed.

(** A store whose directory is there and whose files have no directories in their places, on a
    disk that does not fail. *)
Definition ready (s : IndexedFileStorer) : Prop :=
  faults (disk s) = [] /\ Ascii.zero ∉ chars_of (base s) /\ dir_of (disk s) (base s) = inl (home s)
  /\ forall k, safe_key k -> dat_path s k ∉ dirs (disk s) /\ idx_path s k ∉ dirs (disk s).

Definition on_file (s : IndexedFileStorer) (k : string) (o : option (list (list byte))) : Prop :=
  match o with
  | Some recs =>
      contents (disk s) !! idx_path s k = json_to_vec (ranges 0 recs)
      /\ contents (disk s) !! dat_path s k = Some (concat recs)
  | None => contents (disk s) !! idx_path s k = None /\ contents (disk s) !! dat_path s k = None
  end.

Definition plain_holds (s : IndexedFileStorer) (m : kept) : Prop :=
  ready s /\ forall k, safe_key k -> on_file s k (m !! k).

(** The file of a key, of either kind *)
Lemma run_open s k n opts : ready s -> safe_key k -> n ∈ [dat_name k; idx_name k] ->
  on_disk (open_file (file_path (base s) n) opts) s
  = match opts with
    | ForWrite => (Ok (home s ++ [n]), with_files s (<[home s ++ [n] := []]> (contents (disk s))))
    | _ => (if contents (disk s) !! (home s ++ [n]) is Some _ then Ok (home s ++ [n]) else Err absent_error, s)
    end.
Proof.
  intros (Hf & Hz & Hd & Hn) Hk Hin. destruct (Hn k Hk) as [Hn1 Hn2]. destruct (file_names k Hk) as [Hf1 Hf2].
  assert (file_name n /\ home s ++ [n] ∉ dirs (disk s)) as [Hfn Hnd] by (set_unfold in Hin; destruct_or!; subst; done).
  pose proof (resolve_file _ _ _ _ Hz Hd Hfn) as Hr. destruct s as [b [c ds h fs]]. cbn [faults disk base contents dirs] in *. subst fs.
  unfold on_disk, open_file, at_path, system, mbind, M_bind, gets. cbn [disk next_fault faults]. rewrite Hr. cbn.
  rewrite bool_decide_eq_false_2 by done. destruct opts; cbn; try done; by destruct (c !! _).
Qed.

Lemma run_write s p buf : ready s ->
  on_disk (write_file p buf) s = (Ok tt, with_files s (alter (fun c => c ++ buf) p (contents (disk s)))).
Proof. intros [Hf _]. destruct s as [b [c ds h fs]]; simpl in *; by subst fs. Qed.

Lemma run_read_index s p c : ready s -> contents (disk s) !! p = Some c -> on_disk (read_to_end p) s = (Ok c, s).
Proof.
  intros [Hf _] Hp. destruct s as [b [cs ds h fs]]; simpl in *; subst fs.
  unfold on_disk, read_to_end, read_with, system, mbind, M_bind. simpl. by rewrite Hp.
Qed.

Lemma run_seek s : ready s -> on_disk seek s = (Ok tt, s).
Proof. intros [Hf _]. by destruct s as [b [c ds h fs]]; simpl in *; subst fs. Qed.
Lemma run_read s p c i n : ready s -> contents (disk s) !! p = Some c ->
  on_disk (read_exact p i n) s
  = (if decide (i + n <= length c) then Ok (take n (drop i c)) else Err (IoErr StoreError.Read IoError.Other), s).
Proof.
  intros [Hf _] Hp. destruct s as [b [cs ds h fs]]; simpl in *; subst fs.
  unfold on_disk, read_exact, read_with, system, mbind, M_bind. simpl. rewrite Hp. simpl. by destruct (decide _).
Qed.

Lemma run_remove s k n : ready s -> safe_key k -> n ∈ [dat_name k; idx_name k] ->
  on_disk (remove_file (file_path (base s) n)) s
  = match contents (disk s) !! (home s ++ [n]) with
    | Some _ => (Ok tt, with_files s (delete (home s ++ [n]) (contents (disk s))))
    | None => (Err (IoErr StoreError.Remove IoError.NotFound), s)
    end.
Proof.
  intros (Hf & Hz & Hd & Hn) Hk Hin. destruct (Hn k Hk) as [Hn1 Hn2]. destruct (file_names k Hk) as [Hf1 Hf2].
  assert (file_name n /\ home s ++ [n] ∉ dirs (disk s)) as [Hfn Hnd] by (set_unfold in Hin; destruct_or!; subst; done).
  pose proof (resolve_file _ _ _ _ Hz Hd Hfn) as Hr. destruct s as [b [c ds h fs]]. cbn [faults disk base contents dirs] in *. subst fs.
  unfold on_disk, remove_file, at_path, system, mbind, M_bind, gets. cbn [disk next_fault faults]. rewrite Hr. cbn.
  rewrite bool_decide_eq_false_2 by done. by destruct (c !! _).
Qed.

Lemma with_with s c c' : with_files (with_files s c) c' = with_files s c'.
Proof. done. Qed.

(** Writing a whole file. *)
Lemma run_write_new s k n buf : ready s -> safe_key k -> n ∈ [dat_name k; idx_name k] ->
  exists s1, on_disk (open_file (file_path (base s) n) ForWrite) s = (Ok (home s ++ [n]), s1)
  /\ on_disk (write_file (home s ++ [n]) buf) s1 = (Ok tt, with_files s (<[home s ++ [n] := buf]> (contents (disk s)))).
Proof.
  intros Hr Hk Hn. eexists. split; [by apply (run_open s k n ForWrite)|]. rewrite run_write by done. do 2 f_equal. simpl. by rewrite alter_insert_eq.
Qed.
Lemma dat_of k : dat_name k ∈ [dat_name k; idx_name k].
Proof. set_solver. Qed.
Lemma idx_of k : idx_name k ∈ [dat_name k; idx_name k].
Proof. set_solver. Qed.

Context (index_written : forall l : list Index, is_Some (json_to_vec l)).

Lemma run_store_index s k l : ready s -> safe_key k ->
  exists b, json_to_vec l = Some b
  /\ store_index l k s = (Ok tt, with_files s (<[idx_path s k := b]> (contents (disk s)))).
Proof.
  intros Hr Hk. destruct (index_written l) as [b Hb]. exists b. split; [done|]. unfold store_index. rewrite Hb.
  destruct (run_write_new s k (idx_name k) b Hr Hk (idx_of k)) as (s1 & E1 & E2).
  unfold mbind, M_bind. simpl. rewrite E1. exact E2.
Qed.

Lemma run_create s k d : ready s -> safe_key k ->
  exists b, json_to_vec [mkIndex 0 (length d)] = Some b
  /\ create k d s = (Ok [mkIndex 0 (length d)],
      with_files s (<[dat_path s k := d]> (<[idx_path s k := b]> (contents (disk s))))).
Proof.
  intros Hr Hk. destruct (run_store_index s k [mkIndex 0 (length d)] Hr Hk) as (b & Hb & E). exists b. split; [done|].
  set (s0 := with_files s _) in E.
  destruct (run_write_new s0 k (dat_name k) d Hr Hk (dat_of k)) as (s1 & E1 & E2).
  unfold create, mbind, M_bind. rewrite E. simpl. change (base s) with (base s0). rewrite E1, E2. done.
Qed.

Lemma run_append_records p data : forall s pos, ready s ->
  append_records p pos data s
  = (Ok (ranges pos data), with_files s (alter (fun c => c ++ concat data) p (contents (disk s)))).
Proof.
  induction data as [|d data IH]; intros s pos Hr; cbn [append_records ranges concat].
  - unfold mret, M_ret, with_files, set_contents. rewrite alter_id; [by destruct s as [b []]|].
    intros x _. apply app_nil_r.
  - unfold mbind at 1, M_bind at 1. rewrite run_write by done. unfold mbind, M_bind.
    rewrite IH by done. unfold mret, M_ret. rewrite with_with. do 2 f_equal. simpl.
    apply alter_append.
Qed.

(** The files of a key do not touch those of another. *)
Lemma paths_differ (p : place) k1 k2 :
  p ++ [dat_name k1] <> p ++ [idx_name k2]
  /\ (k1 <> k2 -> p ++ [dat_name k1] <> p ++ [dat_name k2] /\ p ++ [idx_name k1] <> p ++ [idx_name k2]).
Proof.
  assert (forall a b : string, p ++ [a] = p ++ [b] -> chars_of a = chars_of b) as Hp.
  { intros a b E. apply app_inv_head in E. by injection E as ->. }
  assert (forall a b e, chars_of (a +:+ e) = chars_of (b +:+ e) -> a = b) as Hinj.
  { intros a b e. rewrite !chars_of_app. intros E%app_inv_tail. by rewrite <- (string_of_chars a), E, string_of_chars. }
  split; [|intros Hne; split].
  - intros E%Hp. unfold dat_name, idx_name in E. rewrite !chars_of_app in E. apply app_inj_2 in E as [_ E]; done.
  - by intros ?%Hp%Hinj.
  - by intros ?%Hp%Hinj.
Qed.

Lemma holds_write s m k recs b : plain_holds s m -> safe_key k -> json_to_vec (ranges 0 recs) = Some b ->
  plain_holds (with_files s (<[idx_path s k := b]> (<[dat_path s k := concat recs]> (contents (disk s)))))
    (<[k := recs]> m).
Proof.
  intros [Hf Hm] Hk Hb. split; [done|]. intros k' Hk'. destruct (paths_differ (home s) k k') as [Hdi Hne].
  destruct (paths_differ (home s) k' k) as [Hdi' _].
  destruct (decide (k = k')) as [<-|Hkk].
  - rewrite lookup_insert_eq. simpl. by rewrite lookup_insert_eq, lookup_insert_ne, lookup_insert_eq.
  - rewrite lookup_insert_ne by done. destruct (Hne Hkk) as [Hd Hi]. specialize (Hm k' Hk').
    unfold on_file in *. destruct (m !! k'); simpl; by rewrite !lookup_insert_ne by done.
Qed.

Lemma holds_remove s m k : plain_holds s m -> safe_key k ->
  plain_holds (with_files s (delete (idx_path s k) (delete (dat_path s k) (contents (disk s))))) (delete k m).
Proof.
  intros [Hf Hm] Hk. split; [done|]. intros k' Hk'. destruct (paths_differ (home s) k k') as [Hdi Hne].
  destruct (paths_differ (home s) k' k) as [Hdi' _].
  destruct (decide (k = k')) as [<-|Hkk].
  - rewrite lookup_delete_eq. simpl. by rewrite lookup_delete_eq, lookup_delete_ne, lookup_delete_eq.
  - rewrite lookup_delete_ne by done. destruct (Hne Hkk) as [Hd Hi]. specialize (Hm k' Hk').
    unfold on_file in *. destruct (m !! k'); simpl; by rewrite !lookup_delete_ne by done.
Qed.

Lemma load_index_at s k l b : ready s -> safe_key k ->
  contents (disk s) !! idx_path s k = Some b -> json_to_vec l = Some b -> load_index k s = (Ok l, s).
Proof.
  intros Hr Hk Hi Hb. unfold load_index, mbind, M_bind. simpl.
  rewrite (run_open s k _ ForRead Hr Hk (idx_of k)), Hi, (run_read_index s _ b) by done. simpl. by rewrite (json_roundtrip _ _ Hb).
Qed.

Lemma run_load_index s m k : plain_holds s m -> safe_key k ->
  load_index k s = (if m !! k is Some recs then Ok (ranges 0 recs) else Err absent_error, s).
Proof.
  intros [Hf Hm] Hk. specialize (Hm k Hk). destruct (m !! k) as [recs|]; destruct Hm as [Hi Hd].
  - destruct (index_written (ranges 0 recs)) as [b Hb]. apply (load_index_at s k _ b); [done|done|congruence|done].
  - unfold load_index, mbind, M_bind. simpl. by rewrite (run_open s k _ ForRead Hf Hk (idx_of k)), Hi.
Qed.

Lemma run_append_index s m k recs data : plain_holds s m -> safe_key k -> m !! k = Some recs ->
  exists s', append_all_index k (ranges 0 recs) data s = (Ok (ranges 0 (recs ++ data)), s')
  /\ plain_holds s' (<[k := recs ++ data]> m).
Proof.
  intros Hs Hk Hr. pose proof Hs as [Hf Hm]. specialize (Hm k Hk). rewrite Hr in Hm. destruct Hm as [Hi Hd].
  unfold append_all_index, mbind, M_bind. simpl. rewrite (run_open s k _ ForAppend Hf Hk (dat_of k)), Hd.
  rewrite run_append_records by done. set (s1 := with_files s _).
  rewrite ranges_end. rewrite (ranges_app 0 recs data). simpl.
  destruct (run_store_index s1 k (ranges 0 recs ++ ranges (length (concat recs)) data) Hf Hk) as (b & Hb & ->).
  eexists. split; [done|]. unfold s1. rewrite with_with, home_with. simpl.
  assert (alter (fun c => c ++ concat data) (dat_path s k) (contents (disk s))
    = <[dat_path s k := concat (recs ++ data)]> (contents (disk s))) as ->.
  { by rewrite (alter_known _ _ _ _ Hd), concat_app. }
  apply (holds_write s m k (recs ++ data) b Hs Hk). by rewrite ranges_app.
Qed.

Lemma run_put s m k d : plain_holds s m -> safe_key k ->
  exists s', create k d s = (Ok (ranges 0 [d]), s') /\ plain_holds s' (<[k := [d]]> m).
Proof.
  intros Hs Hk. destruct (run_create s k d (proj1 Hs) Hk) as (b & Hb & ->). eexists. split; [done|].
  rewrite insert_insert_ne by apply paths_differ.
  pose proof (holds_write s m k [d] b Hs Hk Hb) as E. simpl in E. by rewrite app_nil_r in E.
Qed.

(** *** Reading *)
Lemma run_cut {T} (conv : list byte -> option T) s from pre sub post ts :
  mapM conv sub = Some ts ->
  cut_records conv from (pre ++ concat sub ++ post) (ranges (from + length pre) sub) s = (Ok ts, s).
Proof.
  revert pre ts. induction sub as [|r sub IH]; intros pre ts Ht; simpl in Ht; [by injection Ht as <-|].
  destruct (conv r) as [t|] eqn:Ec; [|done]. simpl in Ht. destruct (mapM conv sub) as [ts'|]; [|done].
  injection Ht as <-. cbn [ranges cut_records]. unfold mbind, M_bind. simpl.
  rewrite decide_True by lia. unfold slice_of. rewrite decide_True by (cbn [concat]; rewrite !length_app; lia).
  replace (take _ _) with r.
  2: { replace (from + length pre - from) with (length pre) by lia. rewrite drop_app_length. cbn [concat].
       rewrite <- app_assoc. replace (_ - _) with (length r) by lia. by rewrite take_app_length. }
  simpl. rewrite Ec. simpl. specialize (IH (pre ++ r) ts' eq_refl).
  rewrite length_app, Nat.add_assoc, <- !app_assoc in IH. simpl. rewrite <- app_assoc. by rewrite IH.
Qed.

Lemma records_split {A} (recs : list (list A)) i n :
  concat recs = concat (take i recs) ++ concat (take n (drop i recs)) ++ concat (drop n (drop i recs)).
Proof. by rewrite <- !concat_app, take_drop, take_drop. Qed.

(** The data file may be longer than the ranges say. *)
Lemma by_indices_at {T} (conv : list byte -> option T) s k recs post i n ts : ready s -> safe_key k ->
  contents (disk s) !! dat_path s k = Some (concat recs ++ post) -> mapM conv (take n (drop i recs)) = Some ts ->
  storer_by_indices conv k (take n (drop i (ranges 0 recs))) s = (Ok ts, s).
Proof.
  intros Hf Hk Hd Ht. rewrite ranges_drop, ranges_take. simpl. set (p := length (concat (take i recs))).
  pose proof (records_split recs i n) as Ec. set (sub := take n (drop i recs)) in *.
  unfold storer_by_indices, data_by_index, mbind, M_bind. simpl. rewrite (run_open s k _ ForRead Hf Hk (dat_of k)), Hd.
  destruct (decide (sub = [])) as [E|Hne].
  - rewrite E in Ht |- *. simpl in *. injection Ht as <-.
    by rewrite run_seek, (run_read _ _ _ _ _ Hf Hd) by done.
  - rewrite ranges_last by done. assert (default 0 (start <$> head (ranges p sub)) = p) as -> by by destruct sub.
    simpl. rewrite decide_True by lia. simpl. replace (p + length (concat sub) - p) with (length (concat sub)) by lia.
    rewrite run_seek, (run_read _ _ _ _ _ Hf Hd) by done. simpl.
    rewrite Ec, <- !app_assoc. rewrite decide_True by (rewrite !length_app; unfold p; lia).
    unfold p at 2. rewrite drop_app_length, take_app_length.
    pose proof (run_cut conv s p [] sub [] ts Ht) as Hc. simpl in Hc.
    by rewrite app_nil_r, Nat.add_0_r in Hc.
Qed.

Lemma run_by_indices {T} (conv : list byte -> option T) s m k recs i n ts :
  plain_holds s m -> safe_key k -> m !! k = Some recs -> mapM conv (take n (drop i recs)) = Some ts ->
  storer_by_indices conv k (take n (drop i (ranges 0 recs))) s = (Ok ts, s).
Proof.
  intros [Hf Hm] Hk Hr Ht. specialize (Hm k Hk). rewrite Hr in Hm. destruct Hm as [Hi Hd].
  apply (by_indices_at conv s k recs []); [done|done|by rewrite app_nil_r|done].
Qed.

#[refine] Instance plain_laws : ByteStoreLaws IndexedFileStorer := {| bs_holds := plain_holds; bs_any_append := true |}.
Proof.
  - intros s m k d Hs Hk. destruct (run_put s m k d Hs Hk) as (s' & E & Hs'). exists s'.
    split; [|done]. simpl. unfold storer_put, mbind, M_bind. by rewrite E.
  - intros s m k ds Hs Hk _. simpl. unfold storer_append_all. destruct ds as [|d ds]; [by exists s|].
    unfold attempt, mbind, M_bind. rewrite (run_load_index s m k) by done.
    destruct (m !! k) as [recs|] eqn:Er; simpl; rewrite Er; simpl.
    + destruct (run_append_index s m k recs (d :: ds) Hs Hk Er) as (s' & -> & Hs'). by exists s'.
    + destruct (run_put s m k d Hs Hk) as (s1 & -> & Hs1).
      destruct (run_append_index s1 _ k [d] ds Hs1 Hk (lookup_insert_eq _ _ _)) as (s' & -> & Hs').
      exists s'. split; [done|]. by rewrite insert_insert_eq in Hs'.
  - intros s m k Hs Hk. pose proof Hs as [Hf Hm]. specialize (Hm k Hk).
    simpl. unfold clean, mbind, M_bind. simpl. rewrite (run_remove s k _ Hf Hk (dat_of k)).
    destruct (m !! k) as [recs|] eqn:Er; simpl in Hm; destruct Hm as [Hi Hd]; rewrite Hd.
    + set (s1 := with_files s _). change (base s) with (base s1). rewrite (run_remove s1 k _ Hf Hk (idx_of k)).
      unfold s1. rewrite home_with. simpl. rewrite lookup_delete_ne by apply paths_differ. rewrite Hi.
      destruct (index_written (ranges 0 recs)) as [b ->]. eexists. split; [done|]. exact (holds_remove s m k Hs Hk).
    + exists s. split; [done|]. by rewrite delete_id.
  - intros s m k Hs Hk Hn. simpl. by rewrite (run_load_index s m k), Hn.
  - intros s m k recs Hs Hk Hr. exists (ranges 0 recs). split_and!.
    + simpl. by rewrite (run_load_index s m k), Hr.
    + apply ranges_length.
    + intros T conv i n ts Ht. by eapply run_by_indices.
Defined.
End Plain.

(** ** The encrypting store *)
Section Encrypting.
Context `{Cipher} {S : Type} `{ByteStoreLaws S}.
Abbreviation Enc := (ChaCha20IndexFileStorer S).

(** Encrypted records that decrypt to the given ones. *)
Definition encrypts (es ds : list (list byte)) : Prop :=
  Forall2 (fun e d => decrypt_record e = Some d) es ds.

Definition chacha_holds (s : Enc) (m : kept) : Prop :=
  exists me, bs_holds (store s) me /\ forall k, option_Forall2 encrypts (me !! k) (m !! k).

Lemma decrypt_encrypted n d :
  decrypt_record (random_nonce n ++ keystream (random_nonce n) d) = Some d.
Proof.
  unfold decrypt_record. rewrite length_app, random_nonce_length, decide_True by lia.
  rewrite (take_app_length' _ _ 12), (drop_app_length' _ _ 12) by (by rewrite random_nonce_length).
  by rewrite keystream_involutive.
Qed.

Lemma run_encrypt_records ds : forall s : Enc, exists es s',
  encrypt_records ds s = (Ok es, s') /\ encrypts es ds /\ store s' = store s.
Proof.
  induction ds as [|d ds IH]; intros s; [by exists [], s; repeat constructor|].
  destruct (IH (mkChaCha (store s) (drawn s + 1))) as (es & s' & E & He & Hs).
  eexists _, s'. cbn [encrypt_records]. unfold mbind, M_bind. simpl. rewrite E. split_and!; [done| |done].
  constructor; [apply decrypt_encrypted|done].
Qed.

Lemma mapM_id {A} (l : list A) : mapM Some l = Some l.
Proof. induction l as [|x l IH]; [done|]. simpl. by rewrite IH. Qed.

Lemma run_decrypt_records {T} (conv : list byte -> option T) es ds ts (s : Enc) :
  encrypts es ds -> mapM conv ds = Some ts -> decrypt_records conv es s = (Ok ts, s).
Proof.
  intros He. revert ts. induction He as [|e d es ds Hd _ IH]; intros ts Ht; simpl in Ht; [by injection Ht as <-|].
  destruct (conv d) as [t|] eqn:Ec; [|done]. simpl in Ht. destruct (mapM conv ds) as [ts'|]; [|done].
  injection Ht as <-. cbn [decrypt_records]. unfold mbind, M_bind. rewrite Hd. simpl. by rewrite (IH ts' eq_refl), Ec.
Qed.

Lemma encrypts_insert (me m : kept) k es ds :
  (forall k, option_Forall2 encrypts (me !! k) (m !! k)) -> encrypts es ds ->
  forall k', option_Forall2 encrypts (<[k := es]> me !! k') (<[k := ds]> m !! k').
Proof.
  intros Hm He k'. destruct (decide (k = k')) as [<-|]; [|by rewrite !lookup_insert_ne].
  rewrite !lookup_insert_eq. by constructor.
Qed.

#[refine] Instance chacha_laws : ByteStoreLaws Enc := {| bs_holds := chacha_holds; bs_any_append := bs_any_append |}.
Proof.
  - intros s m k d (me & Hs & Hm) Hk. destruct (bs_put_ok (store s) me k (random_nonce (drawn s) ++ keystream (random_nonce (drawn s)) d) Hs Hk)
      as (x & E & Hx).
    simpl. unfold chacha_put, encrypt_record, mbind, M_bind, on_store. simpl. rewrite E. eexists. split; [done|].
    eexists. split; [exact Hx|]. apply encrypts_insert; [done|]. constructor; [apply decrypt_encrypted|constructor].
  - intros s m k ds (me & Hs & Hm) Hk Hds. simpl. unfold chacha_append_all, mbind, M_bind, on_store.
    destruct (run_encrypt_records ds s) as (es & s' & -> & He & Hst). rewrite Hst.
    assert (bs_any_append = true \/ es <> []) as Hes.
    { destruct Hds as [?|Hds]; [by left|right]. intros ->. by inversion He; subst. }
    destruct (bs_append_ok (store s) me k es Hs Hk Hes) as (x & -> & Hx). eexists. split; [done|].
    eexists. split; [exact Hx|]. unfold spec_append. destruct He as [|e d es ds Hd He]; [done|].
    apply encrypts_insert; [done|]. apply Forall2_app; [|by constructor].
    specialize (Hm k). destruct Hm; [done|constructor].
  - intros s m k (me & Hs & Hm) Hk. simpl. unfold on_store.
    destruct (bs_remove_ok (store s) me k Hs Hk) as (x & -> & Hx). eexists. split.
    + pose proof (Hm k) as Hmk. by destruct Hmk.
    + eexists. split; [exact Hx|]. intros k'. destruct (decide (k = k')) as [<-|].
      * rewrite !lookup_delete_eq. constructor.
      * by rewrite !lookup_delete_ne.
  - intros s m k (me & Hs & Hm) Hk Hn. simpl. unfold on_store. specialize (Hm k). rewrite Hn in Hm.
    inversion Hm as [|E1 E2]. rewrite (bs_absent (store s) me k) by done. by destruct s.
  - intros s m k recs (me & Hs & Hm) Hk Hr. specialize (Hm k). rewrite Hr in Hm.
    inversion Hm as [es ? He E1|]; subst. symmetry in E1.
    destruct (bs_read (store s) me k es Hs Hk E1) as (idx & Hi & Hl & Hread). exists idx. split_and!.
    + simpl. unfold on_store. rewrite Hi. by destruct s.
    + rewrite Hl. by eapply Forall2_length.
    + intros T conv i n ts Ht. simpl. unfold chacha_by_indices, mbind, M_bind, on_store.
      rewrite (Hread _ Some i n (take n (drop i es))) by apply mapM_id.
      destruct s as [x dr]. eapply run_decrypt_records; [|exact Ht]. by apply Forall2_take, Forall2_drop.
Defined.
End Encrypting.

(** ** The caching store *)

Lemma swap_perm {A} i j (l : list A) a b : l !! i = Some a -> l !! j = Some b -> swap i j l ≡ₚ l.
Proof.
  intros Hi Hj. unfold swap. rewrite Hi, Hj. destruct (decide (i = j)) as [->|Hne].
  { rewrite list_insert_insert_eq. replace a with b in * by congruence. by rewrite list_insert_id. }
  apply Permutation_inj. split; [by rewrite !length_insert|].
  exists (fun n => if decide (n = i) then j else if decide (n = j) then i else n). split.
  - intros x y. repeat case_decide; congruence.
  - intros n. apply lookup_lt_Some in Hi as Li. apply lookup_lt_Some in Hj as Lj.
    repeat case_decide; subst.
    + by rewrite list_lookup_insert_eq by by rewrite length_insert.
    + by rewrite list_lookup_insert_ne, list_lookup_insert_eq by done.
    + by rewrite !list_lookup_insert_ne by done.
Qed.

(** An element brought to the front. *)
Lemma swap_down_front {A} i (l : list A) e : l !! i = Some e ->
  exists tl, swap_down i l = e :: tl /\ e :: tl ≡ₚ l.
Proof.
  revert l. induction i as [|i IH]; intros l He; cbn [swap_down].
  - destruct l as [|x l]; [done|]. injection He as ->. by exists l.
  - destruct (lookup_lt_is_Some_2 l i) as [a Ha]; [apply lookup_lt_Some in He; lia|].
    destruct (IH (swap i (S i) l)) as (tl & E & Hp).
    + unfold swap. rewrite Ha, He. apply list_lookup_insert_eq. rewrite length_insert.
      by apply lookup_lt_Some in Ha.
    + exists tl. split; [done|]. rewrite Hp. by eapply swap_perm.
Qed.

Lemma swap_front {A} i (l : list A) e : l !! i = Some e ->
  exists tl, swap 0 i l = e :: tl /\ e :: tl ≡ₚ l.
Proof.
  intros He. destruct l as [|x l]; [done|].
  assert (swap 0 i (x :: l) !! 0 = Some e) as E0.
  { unfold swap. rewrite He. simpl. destruct i; [by injection He as ->|done]. }
  destruct (swap 0 i (x :: l)) as [|y tl] eqn:E; [done|]. injection E0 as ->. exists tl. split; [done|].
  rewrite <- E. by eapply swap_perm.
Qed.

Section Caching.
Context `{Json (list Index)} (index_written : forall l : list Index, is_Some (json_to_vec l)).

Abbreviation entry := (option (string * list Index)).
Definition cached_keys (c : list entry) : list string := omap (fun e => fst <$> e) c.

(** An entry is what is on the disk. *)
Definition true_entry (m : kept) (e : entry) : Prop :=
  match e with Some (k, idx) => exists recs, m !! k = Some recs /\ idx = ranges 0 recs | None => True end.

Definition coherent (c : list entry) (m : kept) : Prop :=
  length c = CACHE_LEN /\ NoDup (cached_keys c) /\ Forall (true_entry m) c.

Definition cached_holds (s : CachedIndexFileStorer) (m : kept) : Prop :=
  plain_holds (plain s) m /\ coherent (cache s) m.

Lemma cache_index_some i k c ci v : find_index i k c = Some (ci, v) -> i <= ci /\ c !! (ci - i) = Some (Some (k, v)).
Proof.
  revert i. induction c as [|[[k' v']|] c IH]; intros i; simpl; [done| |].
  - destruct (decide (k' = k)) as [->|]; [intros [= -> ->]; by rewrite Nat.sub_diag|].
    intros [Hi Hc]%IH. split; [lia|]. by replace (ci - i) with (S (ci - S i)) by lia.
  - intros [Hi Hc]%IH. split; [lia|]. by replace (ci - i) with (S (ci - S i)) by lia.
Qed.

Lemma cache_index_none i k c : find_index i k c = None -> k ∉ cached_keys c.
Proof.
  revert i. induction c as [|[[k' v']|] c IH]; intros i; cbn; [by intros _ ?%elem_of_nil| |].
  - destruct (decide (k' = k)) as [->|Hne]; [done|]. intros Hn%IH. by apply not_elem_of_cons.
  - apply IH.
Qed.

(** Other keys of the cache are not touched by a change of one key. *)
Lemma entries_insert m k recs tl : k ∉ cached_keys tl -> Forall (true_entry m) tl ->
  Forall (true_entry (<[k := recs]> m)) tl.
Proof.
  intros Hk Ht. induction Ht as [|e tl He Ht IH]; [constructor|]. constructor.
  - destruct e as [[k' idx]|]; [|done]. destruct He as (r & Hr & ->). exists r. split; [|done].
    rewrite lookup_insert_ne; [done|]. intros <-. apply Hk. by left.
  - apply IH. intros Hi. apply Hk. destruct e as [[]|]; [by right|done].
Qed.

(** The entry of a key at the front, where an entry of that key or one that is given up was. *)
Lemma coherent_front m k recs e tl c : coherent c m -> e :: tl ≡ₚ c ->
  (fst <$> e = Some k \/ k ∉ cached_keys c) ->
  coherent (Some (k, ranges 0 recs) :: tl) (<[k := recs]> m).
Proof.
  intros (Hlen & Hnd & Ht) Hp He. unfold cached_keys in *.
  assert (k ∉ cached_keys tl) as Hk.
  { destruct He as [He|He].
    - rewrite <- Hp in Hnd. cbn in Hnd. rewrite He in Hnd. by apply NoDup_cons in Hnd as [? _].
    - intros Hi. apply He. rewrite <- Hp. cbn. destruct (fst <$> e); [by right|done]. }
  assert (NoDup (cached_keys tl)) as Hnd'.
  { rewrite <- Hp in Hnd. cbn in Hnd. destruct (fst <$> e); [by apply NoDup_cons in Hnd as [_ ?]|done]. }
  rewrite <- Hp in Ht. apply Forall_cons in Ht as [_ Ht]. split_and!.
  - by rewrite <- Hlen, <- Hp.
  - cbn. by constructor.
  - constructor; [|by apply entries_insert]. exists recs. by rewrite lookup_insert_eq.
Qed.

Lemma cached_entry c m k ci v : coherent c m -> find_index 0 k c = Some (ci, v) ->
  exists recs, m !! k = Some recs /\ v = ranges 0 recs /\ c !! ci = Some (Some (k, v)).
Proof.
  intros (_ & _ & Ht) [_ Hc]%cache_index_some. rewrite Nat.sub_0_r in Hc.
  destruct (proj1 (Forall_lookup _ _) Ht ci _ Hc) as (recs & Hm & ->). eauto.
Qed.

Lemma coherent_last c m : coherent c m -> exists e, c !! (CACHE_LEN - 1) = Some e.
Proof. intros (Hl & _). apply lookup_lt_is_Some_2. rewrite Hl. unfold CACHE_LEN. lia. Qed.

#[local] Opaque CACHE_LEN.

Lemma run_cached_put s m k d : cached_holds s m -> safe_key k ->
  exists s', cached_put k d s = (Ok tt, s') /\ cached_holds s' (<[k := [d]]> m).
Proof.
  intros [Hs Hc] Hk. destruct (run_put index_written (plain s) m k d Hs Hk) as (p & E & Hp).
  unfold cached_put, on_plain, mbind, M_bind. simpl. rewrite E. simpl. eexists. split; [done|]. split; [done|]. simpl.
  destruct (find_index 0 k (cache s)) as [[ci v]|] eqn:Ef.
  - destruct (cached_entry _ _ _ _ _ Hc Ef) as (recs & _ & _ & He).
    destruct (swap_front ci _ _ He) as (tl & -> & Hperm). by eapply coherent_front; [exact Hc|exact Hperm|left].
  - destruct (coherent_last _ _ Hc) as [e He].
    destruct (swap_down_front _ _ _ He) as (tl & -> & Hperm).
    eapply coherent_front; [exact Hc|exact Hperm|right]. by eapply cache_index_none.
Qed.

Lemma run_cached_append s m k ds : cached_holds s m -> safe_key k -> ds <> [] ->
  exists s', cached_append_all k ds s = (Ok tt, s') /\ cached_holds s' (spec_append k ds m).
Proof.
  intros [Hs Hc] Hk Hds. unfold cached_append_all, on_plain, attempt, mbind, M_bind. simpl.
  assert (forall ci e p recs, cache s !! ci = Some e -> (fst <$> e = Some k \/ k ∉ cached_keys (cache s)) ->
    plain_holds p (<[k := recs]> m) ->
    cached_holds (mkCached p (<[0 := Some (k, ranges 0 recs)]> (swap_down ci (cache s)))) (<[k := recs]> m)) as Hend.
  { intros ci e p recs He Hek Hp. split; [done|]. simpl. destruct (swap_down_front _ _ _ He) as (tl & -> & Hperm).
    by eapply coherent_front. }
  destruct (find_index 0 k (cache s)) as [[ci v]|] eqn:Ef.
  - destruct (cached_entry _ _ _ _ _ Hc Ef) as (recs & Hm & -> & He).
    destruct (run_append_index index_written (plain s) m k recs ds Hs Hk Hm) as (p & -> & Hp).
    eexists. split; [done|]. unfold spec_append. rewrite Hm. destruct ds as [|d ds]; [done|].
    simpl. eapply Hend; [exact He|by left|done].
  - destruct (coherent_last _ _ Hc) as [e He]. apply cache_index_none in Ef.
    rewrite (run_load_index index_written (plain s) m k) by done. destruct ds as [|d ds]; [done|].
    unfold spec_append. destruct (m !! k) as [recs|] eqn:Em; rewrite ?Em; simpl.
    + destruct (run_append_index index_written (plain s) m k recs (d :: ds) Hs Hk Em) as (p & -> & Hp).
      eexists. split; [done|]. eapply Hend; [exact He|by right|done].
    + destruct (run_put index_written (plain s) m k d Hs Hk) as (p1 & -> & Hp1). cbn [plain cache].
      destruct (run_append_index index_written p1 _ k [d] ds Hp1 Hk (lookup_insert_eq _ _ _)) as (p & -> & Hp).
      rewrite insert_insert_eq in Hp. eexists. split; [done|]. eapply Hend; [exact He|by right|done].
Qed.

Definition without (k : string) (e : entry) : entry :=
  match e with Some (k', v) => if decide (k' = k) then None else Some (k', v) | None => None end.

Lemma coherent_remove c m k : coherent c m -> coherent (map (without k) c) (delete k m).
Proof.
  intros (Hl & Hnd & Ht). split_and!; [by rewrite length_map| |].
  - assert (sublist (cached_keys (map (without k) c)) (cached_keys c)) as Hsub.
    { clear. induction c as [|[[k' v]|] c IH]; [constructor| |exact IH].
      cbn. destruct (decide (k' = k)); cbn; [by apply sublist_cons|by apply sublist_skip]. }
    by eapply sublist_NoDup.
  - apply List.Forall_map. eapply Forall_impl; [exact Ht|]. intros [[k' v]|] He; [|done].
    simpl. destruct (decide (k' = k)); [done|]. destruct He as (recs & Hm & ->). exists recs.
    by rewrite lookup_delete_ne.
Qed.

#[refine] Instance cached_laws : ByteStoreLaws CachedIndexFileStorer :=
  {| bs_holds := cached_holds; bs_any_append := false |}.
Proof.
  - exact run_cached_put.
  - intros s m k ds Hs Hk [?|Hds]; [done|]. by apply run_cached_append.
  - intros s m k [Hs Hc] Hk. simpl. unfold cached_remove, on_plain, mbind, M_bind.
    destruct (bs_remove_ok (ByteStoreLaws := plain_laws index_written) (plain s) m k Hs Hk) as (p & E & Hp).
    simpl in E. rewrite E. destruct (m !! k) eqn:Em.
    + eexists. split; [done|]. split; [done|]. by apply coherent_remove.
    + eexists. split; [done|]. split; [done|]. rewrite delete_id by done. exact Hc.
  - intros s m k [Hs Hc] Hk Hn. simpl. unfold cached_indices, on_plain, mbind, M_bind. simpl.
    destruct (find_index 0 k (cache s)) as [[ci v]|] eqn:Ef.
    + destruct (cached_entry _ _ _ _ _ Hc Ef) as (recs & Hm & _). congruence.
    + rewrite (run_load_index index_written (plain s) m k), Hn by done. by destruct s.
  - intros s m k recs [Hs Hc] Hk Hr. exists (ranges 0 recs). split_and!.
    + simpl. unfold cached_indices, on_plain, mbind, M_bind. simpl.
      destruct (find_index 0 k (cache s)) as [[ci v]|] eqn:Ef.
      * destruct (cached_entry _ _ _ _ _ Hc Ef) as (recs' & Hm & -> & _). by replace recs' with recs by congruence.
      * rewrite (run_load_index index_written (plain s) m k), Hr by done. by destruct s.
    + apply ranges_length.
    + intros T conv i n ts Ht. simpl. unfold cached_by_indices, on_plain.
      rewrite (run_by_indices conv (plain s) m k recs i n ts) by done. by destruct s.
Defined.

#[local] Transparent CACHE_LEN.
End Caching.

(** ** Sequences of operations *)
Inductive store_op : Type :=
| Put (k : string) (d : list byte)
| AppendAll (k : string) (ds : list (list byte))
| RemoveKey (k : string)
| ReadRange (k : string) (r : Range).

Definition op_key (o : store_op) : string :=
  match o with Put k _ | AppendAll k _ | RemoveKey k | ReadRange k _ => k end.

(** What the caller sees. *)
Abbreviation answer := (outcome StoreError.t (list (list byte))).

Definition run_store_op {S} `{IndexedByteStorage S} (o : store_op) : M S StoreError.t (list (list byte)) :=
  match o with
  | Put k d => ibs_put k d ;; mret []
  | AppendAll k ds => ibs_append_all k ds ;; mret []
  | RemoveKey k => ibs_remove k ;; mret []
  | ReadRange k r => by_range Some k r
  end.

Definition spec_store_op (o : store_op) (m : kept) : answer * kept :=
  match o with
  | Put k d => (Ok [], <[k := [d]]> m)
  | AppendAll k ds => (Ok [], spec_append k ds m)
  | RemoveKey k =>
      (if m !! k is Some _ then Ok [] else Err (IoErr StoreError.Remove IoError.NotFound), delete k m)
  | ReadRange k r =>
      (match m !! k with
       | Some recs => match range_filter r recs with Some l => Ok l | None => Panic end
       | None => Err absent_error
       end, m)
  end.

(** The answers of a sequence of operations, each run whatever the one before returned. *)
Fixpoint answers {X} (step : store_op -> X -> answer * X) (ops : list store_op) (x : X) : list answer :=
  match ops with
  | [] => []
  | o :: ops' => let '(a, x') := step o x in a :: answers step ops' x'
  end.

Lemma store_op_spec {S} `{ByteStoreLaws S} o s m : bs_holds s m -> safe_key (op_key o) ->
  (bs_any_append = true \/ forall k, o <> AppendAll k []) ->
  exists s', run_store_op o s = ((spec_store_op o m).1, s') /\ bs_holds s' (spec_store_op o m).2.
Proof.
  intros Hs Hk Ha. destruct o as [k d|k ds|k|k r]; simpl in *; unfold mbind, M_bind.
  - destruct (bs_put_ok s m k d Hs Hk) as (s' & -> & Hs'). eauto.
  - destruct (bs_append_ok s m k ds Hs Hk) as (s' & -> & Hs'); [naive_solver|]. eauto.
  - destruct (bs_remove_ok s m k Hs Hk) as (s' & -> & Hs'). destruct (m !! k); eauto.
  - exists s. split; [|done]. destruct (m !! k) as [recs|] eqn:Em; [|by apply (by_range_absent _ s m)].
    destruct (range_filter r recs) as [l|] eqn:Er.
    + by apply (by_range_ok _ s m k recs r l); [..|apply mapM_id].
    + by apply (by_range_panic _ s m k recs).
Qed.

Lemma answers_spec {S} `{ByteStoreLaws S} ops : forall s m, bs_holds s m ->
  Forall (fun o => safe_key (op_key o) /\ (bs_any_append = true \/ forall k, o <> AppendAll k [])) ops ->
  answers run_store_op ops s = answers spec_store_op ops m.
Proof.
  induction ops as [|o ops IH]; intros s m Hs Ho; [done|]. apply Forall_cons in Ho as [[Hk Ha] Ho].
  destruct (store_op_spec o s m Hs Hk Ha) as (s' & E & Hs'). simpl. rewrite E.
  destruct (spec_store_op o m) as [a m']. simpl in *. f_equal. by apply IH.
Qed.

(** ** The theorems *)

(** A store whose directory is there and empty, on a disk that does not fail. *)
Definition fresh_store (s : IndexedFileStorer) : Prop :=
  faults (disk s) = [] /\ Ascii.zero ∉ chars_of (base s)
  /\ exists p, dir_of (disk s) (base s) = inl p
     /\ forall n, p ++ [n] ∉ dirs (disk s) /\ contents (disk s) !! (p ++ [n]) = None.

Lemma fresh_holds `{Json (list Index)} s : fresh_store s -> plain_holds s ∅.
Proof.
  intros (Hf & Hz & p & Hp & Hn). assert (home s = p) as E by (unfold home; by rewrite Hp).
  split; [split_and!; [done|done|by rewrite E|rewrite E; split; apply Hn]|].
  intros k _. rewrite lookup_empty. simpl. rewrite E. split; apply Hn.
Qed.

(** C18: The file store, with and without encryption, made in an empty directory on a disk that
    does not fail, is a map from keys to lists of records as long as the keys are names without
    a slash: every sequence of writes, appends, removals and reads of ranges is answered as by
    the map, panics and errors included. *)
Theorem file_store_refines_map `{Json (list Index)} `{Cipher} (s : IndexedFileStorer) (ops : list store_op) :
  (forall l : list Index, is_Some (json_to_vec l)) -> fresh_store s -> Forall (fun o => safe_key (op_key o)) ops ->
  answers run_store_op ops s = answers spec_store_op ops ∅
  /\ answers run_store_op ops (mkChaCha s 0) = answers spec_store_op ops ∅.
Proof.
  intros Hw Hs Ho. apply fresh_holds in Hs. assert (forall s : bool, Forall (fun o => safe_key (op_key o) /\ (true = true \/ forall k, o <> AppendAll k [])) ops)
    as Ho' by (intros _; eapply Forall_impl; [exact Ho|]; auto).
  split.
  - apply (answers_spec (H0 := plain_laws Hw)); [exact Hs|exact (Ho' true)].
  - apply (answers_spec (H0 := chacha_laws (H1 := plain_laws Hw))); [|exact (Ho' true)].
    exists ∅. split; [exact Hs|]. intros k. rewrite lookup_empty. constructor.
Qed.

(** A key whose first part names no directory is refused, whatever is on the disk: nothing is
    written. *)
Theorem nested_key_refused `{Json (list Index)} (s : IndexedFileStorer) (k k' : string) (d : list byte) :
  (forall l : list Index, is_Some (json_to_vec l)) -> fresh_store s -> safe_key k -> k ∉ [""; "."; ".."]%string ->
  Ascii.zero ∉ chars_of k' -> storer_put (k +:+ "/" +:+ k') d s = (Err absent_error, s).
Proof.
  intros Hw (Hf & Hz & p & Hp & Hn) Hk Hnk Hk'. destruct (Hn k) as [Hd Hc].
  assert (resolve (disk s) (file_path (base s) (idx_name (k +:+ "/" +:+ k'))) = inr IoError.NotFound) as Hr.
  { assert (idx_name (k +:+ "/" +:+ k') = k +:+ "/" +:+ (k' +:+ ".idx")) as ->.
    { unfold idx_name. etrans; [symmetry; apply string_of_chars|]. etrans; [|apply string_of_chars]. f_equal.
      by rewrite !chars_of_app, <- !app_assoc. }
    apply (resolve_nested _ _ _ _ p); [done|done|split; [by apply Is_true_true|done]| |done|done].
    rewrite chars_of_app, not_elem_of_app. split; [done|]. cbn. set_solver. }
  destruct (Hw [mkIndex 0 (length d)]) as [b Hb]. destruct s as [bs [c ds h fs]]. cbn [faults disk base] in *. subst fs.
  unfold storer_put, create, store_index. rewrite Hb.
  unfold on_disk, open_file, at_path, system, mbind, M_bind, gets. cbn [disk next_fault faults base]. by rewrite Hr.
Qed.

(** C37: The cache of ranges is transparent: as long as no call appends an empty list, the
    caching store answers every sequence of operations as the plain store does. *)
Theorem cache_transparent `{Json (list Index)} (s : IndexedFileStorer) (ops : list store_op) :
  (forall l : list Index, is_Some (json_to_vec l)) -> fresh_store s ->
  Forall (fun o => safe_key (op_key o) /\ forall k, o <> AppendAll k []) ops ->
  answers run_store_op ops (mkCached s empty_cache) = answers run_store_op ops s.
Proof.
  intros Hw Hs Ho. apply fresh_holds in Hs. trans (answers spec_store_op ops ∅).
  - apply (answers_spec (H0 := cached_laws Hw)).
    + split; [exact Hs|]. split_and!; [done|constructor|by repeat constructor].
    + eapply Forall_impl; [exact Ho|]. intros o [? ?]. auto.
  - symmetry. apply (answers_spec (H0 := plain_laws Hw)); [exact Hs|].
    eapply Forall_impl; [exact Ho|]. intros o [? ?]. simpl. auto.
Qed.

(** Appending an empty list to a key that does not exist makes the caching store believe
    that it does: every later append to the key fails, where the plain store creates it. *)
Theorem cached_empty_append_breaks `{Json (list Index)} (s : IndexedFileStorer) (k : string) (d : list byte) :
  (forall l : list Index, is_Some (json_to_vec l)) -> fresh_store s -> safe_key k ->
  answers run_store_op [AppendAll k []; AppendAll k [d]] (mkCached s empty_cache) = [Ok []; Err absent_error]
  /\ answers run_store_op [AppendAll k []; AppendAll k [d]] s = [Ok []; Ok []].
Proof.
  intros Hw Hs Hk. apply fresh_holds in Hs. split.
  - simpl. unfold cached_append_all, on_plain, attempt, mbind, M_bind. simpl.
    rewrite (run_load_index Hw _ ∅) by done. rewrite lookup_empty. simpl.
    rewrite decide_True by done. unfold append_all_index, mbind, M_bind. simpl.
    rewrite (run_open s k _ ForAppend (proj1 Hs) Hk (dat_of k)). pose proof (proj2 Hs k Hk) as [_ Hd]. by rewrite Hd.
  - by rewrite (answers_spec (H0 := plain_laws Hw) _ _ ∅); [|exact Hs|repeat constructor; auto].
Qed.

(** A write that fails after some bytes leaves the data file longer than the ranges say:
    the next append succeeds, but what is read for it starts with the rest of the failed
    record. *)
Theorem torn_append_shifts `{Json (list Index)} (s : IndexedFileStorer) (m : kept) (k : string)
    (recs : list (list byte)) (d d2 : list byte) (f : Fault) :
  (forall l : list Index, is_Some (json_to_vec l)) -> plain_holds s m -> safe_key k -> m !! k = Some recs ->
  let failing := mkStorer (base s) (mkDisk (contents (disk s)) (dirs (disk s)) (here (disk s)) [None; None; None; Some f]) in
  let ops := [AppendAll k [d]; AppendAll k [d2]; ReadRange k (Single (length recs))] in
  answers run_store_op ops failing
  = [Err (IoErr StoreError.Write (fault_kind f)); Ok [];
     Ok [take (length d2) (take (fault_written f) d ++ d2)]].
Proof.
  intros Hw Hs Hk Hm failing ops. pose proof Hs as [Hf Hd]. specialize (Hd k Hk). rewrite Hm in Hd.
  destruct Hd as [Hi Hd]. destruct (Hw (ranges 0 recs)) as [b Hb]. rewrite Hb in Hi.
  pose proof Hf as (_ & Hz & Hp & Hn). destruct (Hn k Hk) as [Hnd Hni]. destruct (file_names k Hk) as [Hfd Hfi].
  assert (forall c fs, resolve (mkDisk c (dirs (disk s)) (here (disk s)) fs) (file_path (base s) (idx_name k)) = inl (home s ++ [idx_name k])) as Rix
    by (intros; by apply resolve_file).
  assert (forall c fs, resolve (mkDisk c (dirs (disk s)) (here (disk s)) fs) (file_path (base s) (dat_name k)) = inl (home s ++ [dat_name k])) as Rdt
    by (intros; by apply resolve_file).
  set (c1 := <[home s ++ [dat_name k] := concat recs ++ take (fault_written f) d]> (contents (disk s))).
  set (s1 := mkStorer (base s) (mkDisk c1 (dirs (disk s)) (here (disk s)) [])).
  assert (run_store_op (AppendAll k [d]) failing = (Err (IoErr StoreError.Write (fault_kind f)), s1)) as E1.
  { simpl. unfold storer_append_all, load_index, append_all_index, on_disk, open_file, at_path, read_to_end, read_with,
      write_file, append_bytes, system, attempt, mbind, M_bind. simpl. rewrite Rix. simpl. rewrite bool_decide_eq_false_2 by done.
    rewrite Hi. simpl. rewrite Hi. simpl. rewrite (json_roundtrip _ _ Hb). simpl. rewrite Rdt. simpl.
    rewrite bool_decide_eq_false_2 by done. rewrite Hd. simpl. unfold set_contents. simpl.
    by rewrite (alter_known _ _ _ _ Hd). }
  assert (c1 !! (home s ++ [dat_name k]) = Some (concat recs ++ take (fault_written f) d)) as Hd1
    by apply lookup_insert_eq.
  assert (c1 !! (home s ++ [idx_name k]) = Some b) as Hi1
    by (unfold c1; rewrite lookup_insert_ne by apply paths_differ; done).
  set (c2 := <[home s ++ [dat_name k] := concat recs ++ take (fault_written f) d ++ d2]> c1).
  assert (ready s1) as Hr1 by by split.
  destruct (run_store_index Hw (with_files s1 c2) k (ranges 0 (recs ++ [d2])) Hr1 Hk) as (b2 & Hb2 & Es).
  change (home (with_files s1 c2)) with (home s) in Es.
  set (s2 := with_files (with_files s1 c2) _) in Es.
  assert (run_store_op (AppendAll k [d2]) s1 = (Ok [], s2)) as E2.
  { simpl. unfold storer_append_all, attempt, mbind, M_bind. rewrite (load_index_at s1 k (ranges 0 recs) b) by done.
    unfold append_all_index, mbind, M_bind, gets. cbn beta iota.
    rewrite (run_open s1 k _ ForAppend Hr1 Hk (dat_of k)).
    change (home s1) with (home s). cbn [s1 disk contents]. rewrite Hd1.
    rewrite (run_append_records _ [d2] s1 _ Hr1). rewrite ranges_end. rewrite ranges_app in Es. simpl in Es |- *. rewrite app_nil_r.
    unfold with_files, set_contents in *. simpl in *.
    rewrite (alter_known _ _ _ _ Hd1), <- app_assoc. fold c2. by rewrite Es. }
  assert (contents (disk s2) !! (home s ++ [idx_name k]) = Some b2) as Hi2 by apply lookup_insert_eq.
  assert (contents (disk s2) !! (home s ++ [dat_name k])
    = Some (concat recs ++ take (fault_written f) d ++ d2)) as Hd2.
  { simpl. rewrite lookup_insert_ne by apply not_eq_sym, paths_differ. apply lookup_insert_eq. }
  set (x := take (length d2) (take (fault_written f) d ++ d2)).
  assert (ranges 0 (recs ++ [d2]) = ranges 0 (recs ++ [x])) as Ex.
  { rewrite !ranges_app. simpl. unfold x. rewrite length_take, length_app, Nat.min_l by lia. done. }
  unfold ops. cbn [answers]. rewrite E1, E2. do 3 f_equal.
  unfold run_store_op, by_range, mbind, M_bind. cbn [ibs_indices ibs_by_indices file_storer].
  rewrite (load_index_at s2 k (ranges 0 (recs ++ [x])) b2) by (done || congruence).
  assert (range_filter (Single (length recs)) (ranges 0 (recs ++ [x]))
    = Some (take 1 (drop (length recs) (ranges 0 (recs ++ [x]))))) as ->.
  { unfold range_filter, slice_of. rewrite ranges_length, length_app, decide_False, decide_True by (simpl; lia).
    by rewrite Nat.sub_succ_l, Nat.sub_diag. }
  simpl. rewrite (by_indices_at Some s2 k (recs ++ [x]) (drop (length d2) (take (fault_written f) d ++ d2)) _ _ [x]).
  - done.
  - done.
  - done.
  - change (home s2) with (home s). simpl in Hd2 |- *. rewrite Hd2, concat_app. simpl. unfold x. by rewrite app_nil_r, <- app_assoc, take_drop.
  - by rewrite drop_app_length.
Qed.

(** ** A coding of ranges, to evaluate the store *)
Module StoreExample.
Definition one : byte := byte_of_N 1.
Definition zero : byte := byte_of_N 0.
Definition code_nat (n : nat) : list byte := repeat one n ++ [zero].

(** The numbers in a text of ones that zeros end; [n] ones are read. *)
Fixpoint read_nats (n : nat) (l : list byte) : list nat :=
  match l with
  | [] => []
  | b :: l' => if Byte.eqb b zero then n :: read_nats 0 l' else read_nats (S n) l'
  end.

Fixpoint pair_up (l : list nat) : list Index :=
  match l with a :: b :: l' => mkIndex a b :: pair_up l' | _ => [] end.

Lemma read_code a n l : read_nats a (code_nat n ++ l) = (a + n) :: read_nats 0 l.
Proof.
  revert a. induction n as [|n IH]; intros a; simpl; [by rewrite Nat.add_0_r|].
  rewrite IH. f_equal. lia.
Qed.

#[refine] Definition coded_ranges : Json (list Index) := {|
  json_to_vec := fun l => Some (l ≫= fun i => code_nat (start i) ++ code_nat (stop i));
  json_from_slice := fun b => Some (pair_up (read_nats 0 b))
|}.
Proof.
  intros l b [= <-]. f_equal. induction l as [|[a e] l IH]; [done|]. csimpl.
  rewrite <- app_assoc, !read_code. simpl. by rewrite IH.
Defined.
#[local] Existing Instance coded_ranges.

Lemma coded_written (l : list Index) : is_Some (json_to_vec l).
Proof. by eexists. Qed.

Definition plain_cipher : Cipher := {|
  keystream := fun _ d => d; keystream_involutive := fun _ _ => eq_refl; keystream_empty := fun _ => eq_refl;
  random_nonce := fun _ => repeat zero 12; random_nonce_length := fun _ => eq_refl
|}.
#[local] Existing Instance plain_cipher.

Local Open Scope string_scope.
Definition a_record : list byte := [one; one; zero].
Definition sample_ops : list store_op :=
  [AppendAll "a" [a_record; []]; Put "b" [zero]; AppendAll "a" [[one]]; ReadRange "a" (Between 1 9);
   ReadRange "a" (Between 2 1); RemoveKey "a"; RemoveKey "a"; ReadRange "a" All].

(** A disk with nothing but the root, and the store that [init] makes on it. *)
Definition bare_disk : Disk := mkDisk ∅ {[ [] ]} [] [].
Definition new_storer (b : string) : IndexedFileStorer := mkStorer b (init b bare_disk).2.
Lemma new_storer_fresh : (init "/s" bare_disk).1 = Ok "/s" /\ fresh_store (new_storer "/s").
Proof.
  split; [done|]. split_and!; [done|by apply (bool_decide_unpack _)|]. exists ["s"]. split; [done|]. intros n.
  assert (dirs (disk (new_storer "/s")) ⊆ {[ []; ["s"] ]}) as Hd by (apply (bool_decide_unpack _); by vm_compute).
  split; [|done]. intros Hin. apply Hd in Hin. set_solver.
Qed.
(** Through [..] a key leaves the directory. *)
Example key_leaves : contents (disk (storer_put "../x" a_record (new_storer "/s")).2) !! ["x.dat"] = Some a_record.
Proof. by vm_compute. Qed.
Lemma nested_key_refused_witness :
  storer_put ("a" +:+ "/" +:+ "b") a_record (new_storer "/s") = (Err absent_error, new_storer "/s").
Proof.
  apply nested_key_refused; [exact coded_written|apply new_storer_fresh|done|..]; by apply (bool_decide_unpack _).
Defined.

Lemma file_store_refines_map_witness :
  answers run_store_op sample_ops (mkChaCha (new_storer "/s") 0)
  = [Ok []; Ok []; Ok []; Ok [[]; [one]]; Panic; Ok []; Err (IoErr StoreError.Remove IoError.NotFound);
     Err absent_error].
Proof.
  destruct (file_store_refines_map (new_storer "/s") sample_ops) as [_ E].
  - exact coded_written.
  - apply new_storer_fresh.
  - by repeat constructor.
  - rewrite E. vm_compute. reflexivity.
Defined.

Lemma cache_transparent_witness :
  answers run_store_op sample_ops (mkCached (new_storer "/s") empty_cache)
  = answers run_store_op sample_ops (new_storer "/s").
Proof.
  apply cache_transparent; [exact coded_written|apply new_storer_fresh|]. repeat (constructor; [split; [done|intros ? [=]]|]). constructor.
Defined.

Lemma cached_empty_append_breaks_witness :
  answers run_store_op [AppendAll "a" []; AppendAll "a" [a_record]] (mkCached (new_storer "/s") empty_cache)
  = [Ok []; Err absent_error].
Proof. apply (cached_empty_append_breaks (new_storer "/s") "a" a_record); [exact coded_written|apply new_storer_fresh|done]. Defined.

Definition one_record : IndexedFileStorer := (run_store_op (Put "a" [one]) (new_storer "/s")).2.

Lemma torn_append_shifts_witness :
  let failing := mkStorer "/s" (mkDisk (contents (disk one_record)) (dirs (disk one_record)) [] [None; None; None; Some (mkFault IoError.Other 2)]) in
  answers run_store_op [AppendAll "a" [a_record]; AppendAll "a" [[zero; zero]]; ReadRange "a" (Single 1)] failing
  = [Err (IoErr StoreError.Write IoError.Other); Ok []; Ok [[one; one]]].
Proof.
  apply (torn_append_shifts one_record {["a" := [[one]]]} "a" [[one]] a_record [zero; zero] (mkFault IoError.Other 2)).
  - exact coded_written.
  - destruct (run_put coded_written (new_storer "/s") ∅ "a" [one] (fresh_holds _ (proj2 new_storer_fresh))) as (s' & E & Hs'); [done|].
    assert (one_record = s') as ->; [|done]. unfold one_record, run_store_op.
    cbn [ibs_put file_storer]. unfold storer_put, mbind, M_bind. by rewrite E.
  - done.
  - done.
Defined.
End StoreExample.
