(* ===== verification/ScanStoreProps.v ===== *)
(** * What the daemon's database keeps

    Secrets survive their encryption unless they are empty, results are numbered by their
    position, and the identifiers of clients are removed with their scan only while no scan
    has two of them. *)

From S2P Require Import Prelude RustStr Token Statement NaslValue Errors Nvt Storage Models HostInfo Crypt ScanStore DaemonInstances.
Import Inmemory.
Local Open Scope nat_scope.

Section Props.
Context `{Cipher} `{Base64} `{ResultJson}.

(** ** Secrets *)
Definition nonempty (p : string) : bool := match p with EmptyString => false | _ => true end.

Lemma encrypt_password_back {E} p s q s' : encrypt_password (E := E) p s = (Ok q, s') ->
  decrypt_password q = if nonempty p then Ok p else Err DbError.Serialization.
Proof.
  unfold encrypt_password, mbind, M_bind. simpl. intros [= <- <-].
  unfold decrypt_password. rewrite chars_of_string, encrypt_text.
  destruct (as_bytes (chars_of p)) as [|b l] eqn:Eb.
  - apply as_bytes_nil in Eb. by destruct p.
  - rewrite decrypt_encrypt, <- Eb, from_utf8_as_bytes, string_of_chars.
    by destruct p.
Qed.

(** Encrypting the secrets of credentials always succeeds and only takes nonces. *)
Definition only_nonces (s s' : Inmemory.Storage) : Prop := exists n, s' = set_nonces s n.

Lemma only_nonces_refl s : only_nonces s s.
Proof. exists (nonces s). by destruct s. Qed.
Lemma only_nonces_trans s1 s2 s3 : only_nonces s1 s2 -> only_nonces s2 s3 -> only_nonces s1 s3.
Proof. intros [n ->] [n' ->]. by exists n'. Qed.

Definition draws {E A} (m : M Inmemory.Storage E A) : Prop :=
  forall s, exists a s', m s = (Ok a, s') /\ only_nonces s s'.

Lemma draws_ret {E A} (a : A) : draws (mret (M := M Inmemory.Storage E) a).
Proof. intros s. exists a, s. split; [done|apply only_nonces_refl]. Qed.

Lemma draws_bind {E A B} (m : M Inmemory.Storage E A) (f : A -> M Inmemory.Storage E B) :
  draws m -> (forall a, draws (f a)) -> draws (m ≫= f).
Proof.
  intros Hm Hf s. destruct (Hm s) as (a & s1 & E1 & H1'). destruct (Hf a s1) as (b & s2 & E2 & H2').
  exists b, s2. unfold mbind, M_bind. rewrite E1. eauto using only_nonces_trans.
Qed.

Lemma draws_encrypt {E} p : draws (encrypt_password (E := E) p).
Proof. intros s. do 2 eexists. split; [done|]. by eexists. Qed.

Hint Resolve draws_ret draws_bind draws_encrypt : core.

Lemma draws_map_password {E} c : draws (map_password (encrypt_password (E := E)) c).
Proof.
  destruct c as [sv po [u p [pr|]|u p k [pr|]|u p co a pp pa]];
    unfold map_password, map_type_password, map_privilege; repeat (apply draws_bind; auto).
Qed.

Lemma draws_map_passwords {E} cs : draws (mapM (map_password (encrypt_password (E := E))) cs).
Proof.
  induction cs as [|c cs IH]; simpl; [auto|].
  apply draws_bind; [apply draws_map_password|]. intros c'. apply draws_bind; auto.
Qed.

Lemma insert_new s c : scans s !! scan_id c = None ->
  exists cs n,
    mapM (map_password (encrypt_password (E := DbError.t))) (credentials (scan_target c)) s
      = (Ok cs, set_nonces s n)
    /\ insert_scan c s
       = (Ok tt, set_scans (set_nonces s n)
           (<[scan_id c := mkProgress (set_scan_credentials c cs) default_status []]> (scans s))).
Proof.
  intros Hnew. destruct (draws_map_passwords (E := DbError.t) (credentials (scan_target c)) s)
    as (cs & s' & E1 & n & ->).
  exists cs, n. split; [done|].
  unfold insert_scan. erewrite bind_ok by done. simpl. rewrite Hnew.
  erewrite bind_ok; [|unfold new_progress; by erewrite bind_ok by exact E1]. done.
Qed.

Lemma set_credentials_back c cs : set_scan_credentials (set_scan_credentials c cs)
  (credentials (scan_target c)) = c.
Proof. by destruct c as [? [] ? ?]. Qed.

(** ** Results *)

(** New results encrypted with the nonces from [n] on, numbered from [len] on. *)
Fixpoint sealed (n len : nat) (rs : list ScanResult) : list Encrypted :=
  match rs with
  | [] => []
  | r :: rs => encrypt n (to_vec (set_result_id r len)) :: sealed (S n) (S len) rs
  end.

Definition with_results (s : Inmemory.Storage) (id : string) (p : Progress) (rs : list ScanResult) :
  Inmemory.Storage :=
  set_nonces (set_scans s (<[id := set_progress_results p
      (progress_results p ++ sealed (nonces s) (length (progress_results p)) rs)]> (scans s)))
    (nonces s + length rs).

Lemma push_results_eq id rs s p len : scans s !! id = Some p ->
  len = length (progress_results p) ->
  push_results id len rs s = (Ok tt, with_results s id p rs).
Proof.
  revert s p len. induction rs as [|r rs IH]; intros s p len Hp ->.
  { unfold with_results. simpl. rewrite app_nil_r, Nat.add_0_r.
    replace (set_progress_results p (progress_results p)) with p by by destruct p.
    rewrite insert_id by done. by destruct s. }
  cbn [push_results]. erewrite bind_ok; [|unfold push_result; by erewrite bind_ok by done].
  rewrite (IH _ (set_progress_results p
             (progress_results p ++ [encrypt (nonces s) (to_vec (set_result_id r (length (progress_results p))))]))).
  - unfold with_results.
    match goal with |- (_, set_nonces (set_scans _ ?m1) ?n1) = (_, set_nonces (set_scans _ ?m2) ?n2) =>
      assert (m1 = m2) as ->; [|assert (n1 = n2) as -> by (simpl; lia); done] end. simpl.
    rewrite length_app, Nat.add_1_r. simpl. rewrite <- app_assoc. simpl.
    apply map_eq. intros k. destruct (decide (k = id)) as [->|Hne].
    + by rewrite !lookup_insert_eq.
    + by rewrite !lookup_insert_ne, lookup_alter_ne by done.
  - simpl. by rewrite lookup_alter_eq, Hp.
  - simpl. by rewrite length_app, Nat.add_1_r.
Qed.

Lemma push_one id r s p : scans s !! id = Some p ->
  push_result (E := StorageError.t) id (set_result_id r (length (progress_results p))) s
  = (Ok tt, with_results s id p [r]).
Proof.
  intros Hp. pose proof (push_results_eq id [r] s p _ Hp eq_refl) as E.
  unfold push_result. erewrite bind_ok by done. unfold modify. f_equal. exact (f_equal snd E).
Qed.

Lemma decrypt_sealed n len rs :
  map decrypt (sealed n len rs) = imap (fun i r => to_vec (set_result_id r (len + i))) rs.
Proof.
  revert n len. induction rs as [|r rs IH]; intros n len; [done|]. simpl.
  rewrite decrypt_encrypt, IH, Nat.add_0_r. f_equal. apply imap_ext. intros i x _. simpl.
  by rewrite Nat.add_succ_r.
Qed.

Lemma append_one s p r : scans s !! sr_id r = Some p ->
  append_fetched_result [r] s
  = (Ok tt, with_results
       (set_scans s (<[sr_id r := set_progress_status p (sr_status r)]> (scans s)))
       (sr_id r) (set_progress_status p (sr_status r)) (sr_results r)).
Proof.
  intros Hp. cbn [append_fetched_result]. erewrite bind_ok by done.
  erewrite bind_ok by by rewrite Hp. erewrite bind_ok by done.
  erewrite bind_ok; [|apply push_results_eq; [apply lookup_insert_eq|done]]. done.
Qed.

(** What is fetched is appended in order, numbered on, and found under the status that came
    with it. *)
Lemma append_then_get s p r : scans s !! sr_id r = Some p ->
  (append_fetched_result [r] s).1 = Ok tt
  /\ (get_status (sr_id r) (append_fetched_result [r] s).2).1 = Ok (sr_status r)
  /\ (get_results (sr_id r) None None (append_fetched_result [r] s).2).1
     = Ok (map decrypt (progress_results p)
           ++ imap (fun i x => to_vec (set_result_id x (length (progress_results p) + i))) (sr_results r)).
Proof.
  intros Hp. rewrite (append_one _ _ _ Hp). split; [done|]. simpl. split.
  - unfold get_status. erewrite bind_ok by done. simpl. by rewrite lookup_insert_eq.
  - unfold get_results, get_results_sync. erewrite bind_ok by done. simpl.
    rewrite lookup_insert_eq. simpl. unfold decrypt_results_sync.
    rewrite !bool_decide_eq_false_2 by (simpl; lia). simpl.
    rewrite drop_0, take_ge by lia. by rewrite map_app, decrypt_sealed.
Qed.

(** *** The numbers of the results are their positions *)
Definition numbered (p : Progress) : Prop :=
  forall i e, progress_results p !! i = Some e ->
    exists r, decrypt e = to_vec r /\ result_id r = i.
Definition results_numbered (s : Inmemory.Storage) : Prop :=
  forall id p, scans s !! id = Some p -> numbered p.

Lemma sealed_lookup n len rs i e : sealed n len rs !! i = Some e ->
  exists r, decrypt e = to_vec r /\ result_id r = len + i.
Proof.
  revert n len i. induction rs as [|r rs IH]; intros n len i; [done|]. simpl. destruct i as [|i]; simpl.
  - intros [= <-]. rewrite decrypt_encrypt. exists (set_result_id r len). split; [done|]. simpl. lia.
  - intros (r' & Hr & Hi)%IH. exists r'. split; [done|]. lia.
Qed.

Lemma numbered_more p n rs : numbered p ->
  numbered (set_progress_results p
    (progress_results p ++ sealed n (length (progress_results p)) rs)).
Proof.
  intros Hp i e. simpl. rewrite lookup_app_Some. intros [Hi|[Hge Hi]]; [by apply Hp|].
  apply sealed_lookup in Hi as (r & Hr & Hi). exists r. split; [done|]. lia.
Qed.

Lemma numbered_insert s id p : results_numbered s -> numbered p ->
  results_numbered (set_scans s (<[id := p]> (scans s))).
Proof.
  intros Hs Hp k q. simpl. rewrite lookup_insert_Some. intros [[<- <-]|[_ Hq]]; [done|by apply Hs in Hq].
Qed.

Lemma numbered_with_results s id p rs : results_numbered s -> numbered p ->
  results_numbered (with_results s id p rs).
Proof.
  intros Hs Hp. unfold with_results. intros k q. simpl. rewrite lookup_insert_Some.
  intros [[<- <-]|[_ Hq]]; [by apply numbered_more|by apply Hs in Hq].
Qed.

(** The operations of the database that change scans. *)
Inductive DbOp : Type :=
| InsertScan (c : ScanModel)
| RemoveScan (id : string)
| UpdateStatus (id : string) (st : Status)
| AppendResults (l : list ScanResults)
| HandleResult (key : ContextKey) (r : ScanResult).

Definition db_step (s : Inmemory.Storage) (o : DbOp) : Inmemory.Storage :=
  match o with
  | InsertScan c => (insert_scan c s).2
  | RemoveScan id => (remove_scan id s).2
  | UpdateStatus id st => (update_status id st s).2
  | AppendResults l => (append_fetched_result l s).2
  | HandleResult k r => (handle_result k r s).2
  end.

Lemma numbered_append l s : results_numbered s -> results_numbered (append_fetched_result l s).2.
Proof.
  revert s. induction l as [|r l IH]; intros s Hs; [done|]. cbn [append_fetched_result].
  erewrite bind_ok by done. destruct (scans s !! sr_id r) as [p|] eqn:Hp; [|done].
  erewrite bind_ok by done. erewrite bind_ok by done.
  erewrite bind_ok; [|apply push_results_eq; [apply lookup_insert_eq|done]].
  apply IH, numbered_with_results; [apply numbered_insert; [done|]|]; intros i e; apply (Hs _ _ Hp).
Qed.

Lemma numbered_handle k r s : results_numbered s -> results_numbered (handle_result k r s).2.
Proof.
  intros Hs. unfold handle_result. erewrite bind_ok by done.
  destruct (scans s !! key_ref k) as [p|] eqn:Hp; [|done].
  erewrite bind_ok by done. erewrite bind_ok by done.
  set (p' := set_progress_status p _). set (s' := set_scans s _).
  assert (scans s' !! key_ref k = Some p') as Hp' by apply lookup_insert_eq.
  change (length (progress_results p)) with (length (progress_results p')).
  rewrite (push_one _ r _ _ Hp').
  apply numbered_with_results; [apply numbered_insert; [done|]|]; intros i e; apply (Hs _ _ Hp).
Qed.

Lemma numbered_step o s : results_numbered s -> results_numbered (db_step s o).
Proof.
  intros Hs. destruct o as [c|id|id st|l|k r]; simpl.
  - destruct (scans s !! scan_id c) as [p|] eqn:Hp.
    + unfold insert_scan. erewrite bind_ok by done. rewrite Hp.
      apply numbered_insert; [done|]. intros i e. apply (Hs _ _ Hp).
    + destruct (insert_new s c Hp) as (cs & n & _ & ->). intros k q. simpl.
      rewrite lookup_insert_Some. intros [[<- <-]|[_ Hq]]; [done|by apply Hs in Hq].
  - intros k q. simpl. rewrite lookup_delete_Some. intros [_ Hq]. by apply Hs in Hq.
  - unfold update_status. erewrite bind_ok by done.
    destruct (scans s !! id) as [p|] eqn:Hp; [|done]. erewrite bind_ok by done.
    apply numbered_insert; [done|]. intros i e. apply (Hs _ _ Hp).
  - by apply numbered_append.
  - by apply numbered_handle.
Qed.

Lemma numbered_steps feeds ops : results_numbered (foldl db_step (new feeds) ops).
Proof.
  apply (foldl_ind_inv results_numbered); [by intros ? ?|]. intros s o. apply numbered_step.
Qed.

(** ** A stored scan stays as it is

    The steps other than storing and deleting change the status and the results of scans. *)
Definition scan_at (id : string) (s : Inmemory.Storage) : option ScanModel := scan <$> scans s !! id.

Lemma scan_at_insert id k p s : scan_at k s = Some (scan p) ->
  scan_at id (set_scans s (<[k := p]> (scans s))) = scan_at id s.
Proof.
  unfold scan_at. simpl. intros Hk. destruct (decide (id = k)) as [->|Hne].
  - by rewrite lookup_insert_eq.
  - by rewrite lookup_insert_ne.
Qed.

Lemma scan_at_results id k p rs s : scan_at k s = Some (scan p) ->
  scan_at id (with_results s k p rs) = scan_at id s.
Proof. intros Hk. by rewrite <- (scan_at_insert id k (set_progress_results p
  (progress_results p ++ sealed (nonces s) (length (progress_results p)) rs)) s Hk). Qed.

Lemma scan_at_append id l s : scan_at id (append_fetched_result l s).2 = scan_at id s.
Proof.
  revert s. induction l as [|r l IH]; intros s; [done|]. cbn [append_fetched_result].
  erewrite bind_ok by done. destruct (scans s !! sr_id r) as [p|] eqn:Hp; [|done].
  erewrite bind_ok by done. erewrite bind_ok by done.
  erewrite bind_ok; [|apply push_results_eq; [apply lookup_insert_eq|done]].
  assert (scan_at (sr_id r) s = Some (scan p)) as Hs by (unfold scan_at; by rewrite Hp).
  rewrite IH, scan_at_results by (by rewrite scan_at_insert). by apply scan_at_insert.
Qed.

Lemma scan_at_handle id k r s : scan_at id (handle_result k r s).2 = scan_at id s.
Proof.
  unfold handle_result. erewrite bind_ok by done.
  destruct (scans s !! key_ref k) as [p|] eqn:Hp; [|done].
  erewrite bind_ok by done. erewrite bind_ok by done.
  set (p' := set_progress_status p _). set (s' := set_scans s _).
  assert (scans s' !! key_ref k = Some p') as Hp' by apply lookup_insert_eq.
  change (length (progress_results p)) with (length (progress_results p')).
  assert (scan_at (key_ref k) s = Some (scan p')) as Hs by (unfold scan_at; by rewrite Hp).
  rewrite (push_one _ r _ _ Hp'). cbn [snd].
  rewrite scan_at_results by (unfold s'; by rewrite scan_at_insert).
  by apply scan_at_insert.
Qed.

(** The operations that neither store nor delete a scan under [id]. *)
Definition leaves_scan (id : string) (o : DbOp) : Prop :=
  match o with
  | InsertScan c => scan_id c <> id
  | RemoveScan id' => id' <> id
  | _ => True
  end.

Lemma scan_at_step id o s : leaves_scan id o -> scan_at id (db_step s o) = scan_at id s.
Proof.
  destruct o as [c|id'|id' st|l|k r]; simpl; intros Hid.
  - unfold scan_at. destruct (scans s !! scan_id c) as [p|] eqn:Hp.
    + unfold insert_scan. erewrite bind_ok by done. rewrite Hp. simpl.
      by rewrite lookup_insert_ne by done.
    + destruct (insert_new s c Hp) as (cs & n & _ & ->). simpl. by rewrite lookup_insert_ne by done.
  - unfold scan_at. simpl. by rewrite lookup_delete_ne.
  - unfold update_status. erewrite bind_ok by done.
    destruct (scans s !! id') as [p|] eqn:Hp; [|done]. erewrite bind_ok by done.
    apply (scan_at_insert id id' (set_progress_status p st)). unfold scan_at. by rewrite Hp.
  - apply scan_at_append.
  - apply scan_at_handle.
Qed.

Lemma scan_at_steps id ops s : Forall (leaves_scan id) ops ->
  scan_at id (foldl db_step s ops) = scan_at id s.
Proof.
  revert s. induction ops as [|o ops IH]; intros s; [done|]. rewrite Forall_cons. intros [Ho Hops]. simpl.
  by rewrite IH, scan_at_step.
Qed.

(** What is handed out depends on the scan that is kept, and comes with the status that is. *)
Lemma decrypted_kept id s p c cs :
  scans s !! id = Some p -> scan p = set_scan_credentials c cs ->
  mapM (map_password decrypt_password) cs
    = (if forallb nonempty (credentials (scan_target c) ≫= secrets)
       then Ok (credentials (scan_target c)) else Err DbError.Serialization) ->
  (get_decrypted_scan id s).1
  = if forallb nonempty (credentials (scan_target c) ≫= secrets)
    then Ok (c, progress_status p) else Err DbError.Serialization.
Proof.
  intros Hp Hc Hback. unfold get_decrypted_scan. erewrite bind_ok.
  2: { unfold get_scan. erewrite bind_ok by done. simpl. by rewrite Hp. }
  unfold of_outcome, mbind at 1, M_bind. rewrite Hc. simpl. rewrite Hback.
  destruct (forallb nonempty _); simpl; [|done]. by rewrite set_credentials_back.
Qed.

(** Stored under a new identifier, and whatever happens to the database as long as the
    identifier is neither stored again nor deleted. *)
Lemma stored_decrypted s c ops :
  scans s !! scan_id c = None -> Forall (leaves_scan (scan_id c)) ops ->
  let s' := foldl db_step (insert_scan c s).2 ops in
  (insert_scan c s).1 = Ok tt
  /\ exists st, (get_status (scan_id c) s').1 = Ok st
     /\ (get_decrypted_scan (scan_id c) s').1
        = if forallb nonempty (credentials (scan_target c) ≫= secrets)
          then Ok (c, st) else Err DbError.Serialization.
Proof.
  intros Hnew Hops s'. pose proof (scan_at_steps _ ops (insert_scan c s).2 Hops) as Hs'. subst s'.
  destruct (insert_new s c Hnew) as (cs & n & Ecs & E). rewrite E in *. split; [done|].
  unfold scan_at at 2 in Hs'. simpl in Hs'. rewrite lookup_insert_eq in Hs'.
  apply fmap_Some in Hs' as (p & Hp & Hc). exists (progress_status p). split.
  - unfold get_status. erewrite bind_ok by done. simpl. by rewrite Hp.
  - apply (decrypted_kept _ _ _ _ cs Hp); [done|].
    exact (map_passwords_back _ _ _ _ encrypt_password_back _ _ _ _ Ecs).
Qed.

Lemma get_one s id p i : scans s !! id = Some p ->
  get_results id (Some i) (Some (S i)) s
  = (Ok (match progress_results p !! i with Some e => [decrypt e] | None => [] end), s).
Proof.
  intros Hp. unfold get_results, get_results_sync. erewrite bind_ok by done. rewrite Hp.
  erewrite bind_ok by done. unfold mret, M_ret. do 2 f_equal. unfold decrypt_results_sync.
  cbn [default from_option Datatypes.id]. destruct (progress_results p !! i) as [e|] eqn:He.
  - apply lookup_lt_Some in He as Hlt. rewrite !bool_decide_eq_false_2 by lia. cbn [orb].
    rewrite (drop_S _ e) by done.
    replace (S i `min` length (progress_results p) - i) with 1 by lia. done.
  - apply lookup_ge_None in He.
    destruct (decide (i = length (progress_results p))) as [->|Hne].
    + rewrite !bool_decide_eq_false_2 by lia. cbn [orb]. by rewrite drop_all, take_nil.
    + rewrite bool_decide_eq_true_2 by lia. done.
Qed.

(** ** Clients *)
Lemma positions_none sid i ids : sid ∉ ids.*2 -> positions sid i ids = [].
Proof.
  revert i. induction ids as [|[c x] ids IH]; intros i; [done|]. rewrite fmap_cons, not_elem_of_cons.
  intros [Hne Hn]. simpl. rewrite decide_False by done. auto.
Qed.

Lemma filter_others sid (ids : list (ClientHash * string)) : sid ∉ ids.*2 -> filter (fun p => p.2 <> sid) ids = ids.
Proof.
  induction ids as [|[c x] ids IH]; [done|]. rewrite fmap_cons, not_elem_of_cons. intros [Hne Hn].
  rewrite filter_cons_True by done. f_equal. auto.
Qed.

Lemma positions_unique sid i ids : NoDup ids.*2 ->
  match positions sid i ids with
  | [] => filter (fun p => p.2 <> sid) ids = ids
  | [j] => i <= j /\ j - i < length ids /\ delete (j - i) ids = filter (fun p => p.2 <> sid) ids
  | _ => False
  end.
Proof.
  revert i. induction ids as [|[c x] ids IH]; intros i; [done|]. rewrite fmap_cons, NoDup_cons.
  intros [Hn Hnd]. simpl. destruct (decide (x = sid)) as [->|Hne].
  - rewrite positions_none by done. rewrite filter_cons_False by (simpl; auto).
    rewrite filter_others by done. replace (i - i) with 0 by lia. simpl. split; [lia|]. split; [lia|done].
  - rewrite filter_cons_True by done. specialize (IH (S i) Hnd).
    destruct (positions sid (S i) ids) as [|j [|]]; [by rewrite IH| |done].
    destruct IH as (Hij & Hj & Hd). replace (j - i) with (S (j - S i)) by lia.
    simpl. rewrite Hd. split; [lia|]. split; [lia|done].
Qed.

(** While every scan has one client, removing a scan's identifier removes exactly its entry. *)
Lemma remove_unique sid s : client_poisoned s = false -> NoDup (client_id s).*2 ->
  remove_scan_id sid s
  = (Ok tt, set_client_id s (filter (fun p => p.2 <> sid) (client_id s)) false).
Proof.
  intros Hp Hnd. unfold remove_scan_id. erewrite bind_ok; [|unfold lock_client_id; by rewrite Hp].
  pose proof (positions_unique sid 0 (client_id s) Hnd) as Hpos.
  destruct (positions sid 0 (client_id s)) as [|j [|]]; [| |done].
  - simpl. rewrite Hpos. destruct s; simpl in *. by subst.
  - destruct Hpos as (_ & Hj & Hd). rewrite Nat.sub_0_r in *. cbn [remove_each].
    erewrite bind_ok by done. unfold vec_remove. rewrite decide_True by done.
    erewrite bind_ok by done. unfold mret, M_ret. by rewrite Hd.
Qed.

Lemma poisoned_panics s sid cid : client_poisoned s = true ->
  is_client_allowed sid cid s = (Panic, s) /\ add_scan_client_id sid cid s = (Panic, s)
  /\ remove_scan_id sid s = (Panic, s).
Proof.
  intros Hp. unfold is_client_allowed, get_scans_of_client_id, add_scan_client_id, remove_scan_id,
    lock_client_id, mbind, M_bind. by rewrite Hp.
Qed.
End Props.

(** Two clients of one scan: the removal of its identifiers panics, and from then on every
    use of them does; with an entry behind the two, that entry is removed instead of the
    second one. *)
Lemma second_owner_breaks_removal (s : Inmemory.Storage) a b c x y :
  client_poisoned s = false -> x <> y ->
  (client_id s = [(a, x); (b, x)] ->
     exists s', remove_scan_id x s = (Panic, s') /\ forall sid cid, is_client_allowed sid cid s' = (Panic, s'))
  /\ (client_id s = [(a, x); (b, x); (c, y)] ->
     exists s', remove_scan_id x s = (Ok tt, s') /\ client_id s' = [(b, x)]).
Proof.
  intros Hp Hxy. split; intros Hc; unfold remove_scan_id; erewrite bind_ok
    by (unfold lock_client_id; by rewrite Hp, Hc); simpl; rewrite !decide_True, ?decide_False by done.
  - eexists. split; [simpl; unfold mbind, M_bind; simpl; rewrite Hc; reflexivity|].
    intros sid cid. by apply poisoned_panics.
  - eexists. split; [simpl; unfold mbind, M_bind; simpl; rewrite Hc; reflexivity|]. done.
Qed.

(** A scan stored under an identifier that is taken: its secrets are kept in plain text, and
    it cannot be handed out. *)
Lemma replaced_in_plain `{Cipher} `{Base64} `{ResultJson} (s : Inmemory.Storage) c p :
  scans s !! scan_id c = Some p ->
  exists s', insert_scan c s = (Ok tt, s') /\ (get_scan (scan_id c) s').1 = Ok (c, progress_status p).
Proof.
  intros Hp. eexists. split.
  - unfold insert_scan. erewrite bind_ok by done. by rewrite Hp.
  - unfold get_scan. erewrite bind_ok by done. simpl. by rewrite lookup_insert_eq.
Qed.

(** ** The claims *)

(** C15: A scan stored under an identifier that is not in use is handed out for starting
    exactly as it was requested, credentials included, although its secrets are kept
    encrypted: after every later history of the in-memory database in which that identifier is
    neither stored again nor deleted, with the status the scan has then. A scan with an empty
    secret is refused as not readable after every such history. *)
Theorem stored_scan_handed_out `{Cipher} `{Base64} `{ResultJson} (s : Inmemory.Storage)
  (c : ScanModel) (later : list DbOp) :
  scans s !! scan_id c = None -> Forall (leaves_scan (scan_id c)) later ->
  let s' := foldl db_step (insert_scan c s).2 later in
  (insert_scan c s).1 = Ok tt
  /\ exists st, (get_status (scan_id c) s').1 = Ok st
     /\ (get_decrypted_scan (scan_id c) s').1
        = if forallb nonempty (credentials (scan_target c) ≫= secrets)
          then Ok (c, st) else Err DbError.Serialization.
Proof. exact (stored_decrypted s c later). Qed.

Definition sample_scan : ScanModel :=
  mkScanModel "a" (set_credentials default_target
    [mkCredential Service.SMB None (USK "u" "pass" "key" (Some (mkPrivilege "root" "toor")))]) [] [].
Definition sample_result (m : string) : ScanResult :=
  mkScanResult 7 Log None None None None None (Some m) None.
Definition sample_later : list DbOp :=
  [HandleResult (Scan "a" None) (sample_result "x"); RemoveScan "b"].

Lemma stored_scan_handed_out_witness : exists st,
  (get_decrypted_scan (H := flip_cipher) (H0 := letters_base64) "a"
     (foldl (@db_step flip_cipher letters_base64 bits_json)
       (insert_scan (H := flip_cipher) (H0 := letters_base64) sample_scan (new [])).2 sample_later)).1
  = Ok (sample_scan, st) /\ status st = Phase.Running.
Proof.
  destruct (stored_scan_handed_out (H := flip_cipher) (H0 := letters_base64) (H1 := bits_json)
    (new []) sample_scan sample_later eq_refl) as (_ & st & Est & E).
  - repeat constructor. simpl. intros [=].
  - exists st. split; [exact E|]. vm_compute in Est. by injection Est as <-.
Defined.

(** After every history of operations on the database, the result with the number [i] of a
    scan is found at position [i], and asking for it returns exactly it. *)
Theorem result_found_by_number `{Cipher} `{Base64} `{ResultJson} (feeds : list FeedHash)
  (ops : list DbOp) (id : string) (p : Progress) (i : nat) :
  let s := foldl db_step (new feeds) ops in
  scans s !! id = Some p ->
  (i < length (progress_results p) ->
     exists r, get_results id (Some i) (Some (S i)) s = (Ok [to_vec r], s) /\ result_id r = i)
  /\ (length (progress_results p) <= i -> get_results id (Some i) (Some (S i)) s = (Ok [], s)).
Proof.
  intros s Hp. rewrite (get_one s id p i Hp). split; intros Hi.
  - apply lookup_lt_is_Some_2 in Hi as [e He]. rewrite He.
    destruct (numbered_steps feeds ops id p Hp i e He) as (r & -> & Hr). by exists r.
  - by rewrite (proj2 (lookup_ge_None _ _) Hi).
Qed.

Definition sample_history : list DbOp :=
  [InsertScan sample_scan; HandleResult (Scan "a" None) (sample_result "x");
   AppendResults [mkScanResults "a" default_status [sample_result "y"; sample_result "z"]]].
Definition sample_state : Inmemory.Storage :=
  foldl (@db_step flip_cipher letters_base64 bits_json) (new []) sample_history.

Lemma result_found_by_number_witness : exists r,
  get_results (H := flip_cipher) "a" (Some 2) (Some 3) sample_state
  = (Ok [@to_vec bits_json r], sample_state) /\ result_id r = 2.
Proof.
  apply (result_found_by_number (H := flip_cipher) (H0 := letters_base64) (H1 := bits_json) [] sample_history
    "a" (default (mkProgress sample_scan default_status []) (scans sample_state !! "a"%string)) 2).
  - vm_compute. reflexivity.
  - vm_compute. lia.
Defined.

(** While every scan has one client, deleting a scan removes the entry of its client and
    no other. *)
Theorem client_removed_with_scan (s : Inmemory.Storage) (id : string) :
  client_poisoned s = false -> NoDup (client_id s).*2 ->
  remove_scan_id id s = (Ok tt, set_client_id s (filter (fun p => p.2 <> id) (client_id s)) false).
Proof. exact (remove_unique id s). Qed.

Definition three_clients : Inmemory.Storage :=
  set_client_id (new []) [("one", "a"); ("two", "b"); ("one", "c")]%string false.

Lemma client_removed_with_scan_witness :
  remove_scan_id "b" three_clients
  = (Ok tt, set_client_id three_clients [("one", "a"); ("one", "c")]%string false).
Proof.
  rewrite (client_removed_with_scan three_clients "b" eq_refl).
  - reflexivity.
  - apply (bool_decide_eq_true_1 _). vm_compute. reflexivity.
Defined.
