(* ===== verification/Scheduler.v ===== *)
(** * The scheduler of the daemon

    [openvasd/scheduling.rs]: scans are queued, started within the configured capacity,
    their results fetched, and feeds synchronised while none runs.  The database and the
    scanner are the interfaces [Database] and [ScanRunner].  An operation here is one that
    no other interrupts; the sections between the locks are definitions of their own where
    the code releases a lock in between. *)

From S2P Require Import Prelude RustStr Token Statement NaslValue Errors Nvt Storage Models HostInfo Scheduling Executor Scanner Crypt ScanStore.
Local Open Scope nat_scope.

(** ** Interfaces *)

(** [openvasd/storage/mod.rs]: the traits that [Storage] combines. *)
Class Database (D : Type) := {
  db_insert_scan : ScanModel -> M D DbError.t unit;
  db_remove_scan : string -> M D DbError.t unit;
  db_update_status : string -> Status -> M D DbError.t unit;
  db_append_fetched_result : list ScanResults -> M D DbError.t unit;
  db_get_scan : string -> M D DbError.t (ScanModel * Status);
  db_get_decrypted_scan : string -> M D DbError.t (ScanModel * Status);
  db_get_status : string -> M D DbError.t Status;
  db_get_results : string -> option nat -> option nat -> M D DbError.t (list (list byte));
  db_add_scan_client_id : string -> ClientHash -> M D DbError.t unit;
  db_remove_scan_id : string -> M D DbError.t unit;
  db_get_scans_of_client_id : ClientHash -> M D DbError.t (list string);
  db_is_client_allowed : string -> ClientHash -> M D DbError.t bool;
  db_synchronize_feeds : list FeedHash -> M D DbError.t unit;
  db_current_feed_version : M D DbError.t string;
  db_feed_hash : M D DbError.t (list FeedHash);
  db_vts : M D DbError.t (list Nvt)
}.

(** [models/scanner.rs]: the traits that [Scanner] combines, as far as the scheduler uses
    them. *)
Class ScanRunner (X : Type) := {
  can_start_scan : ScanModel -> X -> bool;
  x_start_scan : ScanModel -> M X ScanError.t unit;
  x_stop_scan : string -> M X ScanError.t unit;
  x_fetch_results : string -> M X ScanError.t ScanResults;
  do_addition : bool
}.

(** ** Errors *)
Module SchedError.
Inductive t : Type :=
| ScanRunning | ScanAlreadyQueued | NotFound | QueueFull
| Scan (e : ScanError.t) | Storage (e : DbError.t)
| UnsupportedResume | AlreadyFinished.

Definition from_storage (e : DbError.t) : t :=
  match e with DbError.NotFound => NotFound | e => Storage e end.
End SchedError.

(** [From<storage::Error> for scanner::Error] *)
Definition scan_error_of `{DbErrorText} (e : DbError.t) : ScanError.t :=
  ScanError.Unexpected (db_error_debug e).

(** ** [Vec::swap_remove] and [Iterator::position] *)
Definition swap_remove {A} (i : nat) (l : list A) : list A :=
  match last l with
  | Some x => if decide (S i = length l) then take i l else <[i := x]> (take (length l - 1) l)
  | None => l
  end.

Fixpoint position (id : string) (l : list string) : option nat :=
  match l with
  | [] => None
  | x :: l => if decide (x = id) then Some 0 else S <$> position id l
  end.

(** [if let Some(idx) = l.iter().position(..) { l.swap_remove(idx); }] *)
Definition remove_id (id : string) (l : list string) : list string :=
  match position id l with Some i => swap_remove i l | None => l end.

(** ** config.rs *)
Record SchedulerConfig := mkSchedulerConfig {
  max_queued_scans : option nat; max_running_scans : option nat
}.

Module Sched.
Record Scheduler (D X : Type) := mkScheduler {
  queued : list string;
  running : list string;
  db : D;
  is_synchronizing_feed : bool;
  scanner : X;
  feed_version : string
}.
Arguments mkScheduler {D X}.
Arguments queued {D X}.
Arguments running {D X}.
Arguments db {D X}.
Arguments is_synchronizing_feed {D X}.
Arguments scanner {D X}.
Arguments feed_version {D X}.

Section Scheduler.
Context {D X : Type} `{Database D} `{ScanRunner X} (config : SchedulerConfig).

Definition new (d : D) (x : X) : Scheduler D X := mkScheduler [] [] d false x "UNDEFINED".

Definition set_queued (s : Scheduler D X) q :=
  mkScheduler q (running s) (db s) (is_synchronizing_feed s) (scanner s) (feed_version s).
Definition set_running (s : Scheduler D X) r :=
  mkScheduler (queued s) r (db s) (is_synchronizing_feed s) (scanner s) (feed_version s).
Definition set_db (s : Scheduler D X) (d : D) :=
  mkScheduler (queued s) (running s) d (is_synchronizing_feed s) (scanner s) (feed_version s).
Definition set_synchronizing (s : Scheduler D X) b :=
  mkScheduler (queued s) (running s) (db s) b (scanner s) (feed_version s).
Definition set_scanner (s : Scheduler D X) (x : X) :=
  mkScheduler (queued s) (running s) (db s) (is_synchronizing_feed s) x (feed_version s).
Definition set_feed_version (s : Scheduler D X) v :=
  mkScheduler (queued s) (running s) (db s) (is_synchronizing_feed s) (scanner s) v.

Abbreviation R E := (M (Scheduler D X) E).

Definition on_db {E A} (m : M D E A) : R E A := fun s =>
  let '(o, d) := m (db s) in (o, set_db s d).
Definition on_scanner {E A} (m : M X E A) : R E A := fun s =>
  let '(o, x) := m (scanner s) in (o, set_scanner s x).

(** Calls of the database and the scanner followed by [?]. *)
Definition with_db {A} (m : M D DbError.t A) : R SchedError.t A :=
  err_into SchedError.from_storage (on_db m).
Definition with_scanner {A} (m : M X ScanError.t A) : R SchedError.t A :=
  err_into SchedError.Scan (on_scanner m).

(** *** [ScanStorer] and [AppendFetchResult]: scans that are over leave [running]. *)
Definition is_over (p : Phase.t) : bool :=
  match p with
  | Phase.Stored | Phase.Requested | Phase.Running => false
  | Phase.Stopped | Phase.Failed | Phase.Succeeded => true
  end.

Definition update_status (id : string) (st : Status) : R DbError.t unit :=
  modify (fun s => if is_over (status st) then set_running s (remove_id id (running s)) else s) ;;
  on_db (db_update_status id st).

Definition drop_over (r : list string) (x : ScanResults) : list string :=
  if is_over (status (sr_status x)) then remove_id (sr_id x) r else r.

Definition append_fetched_result (results : list ScanResults) : R DbError.t unit :=
  modify (fun s => set_running s (foldl drop_over (running s) results)) ;;
  on_db (db_append_fetched_result results).

(** *** [start_scan_by_id]

    Three sections: the read lock of [running] is released before the status is read, and
    the write lock of [queued] is taken after that. *)
Definition check_running (id : string) : R SchedError.t unit :=
  r ← gets running;
  if decide (id ∈ r) then throw SchedError.ScanRunning else mret tt.

Definition requested_status (id : string) : R SchedError.t Status :=
  st ← with_db (db_get_status id);
  match status st with
  | Phase.Stored => mret (mkStatus (start_time st) (end_time st) Phase.Requested (host_info st))
  | Phase.Requested => throw SchedError.ScanAlreadyQueued
  | Phase.Running => throw SchedError.ScanRunning
  | Phase.Stopped | Phase.Failed => throw SchedError.UnsupportedResume
  | Phase.Succeeded => throw SchedError.AlreadyFinished
  end.

Definition enqueue (id : string) (st : Status) : R SchedError.t unit :=
  q ← gets queued;
  if (match max_queued_scans config with
      | Some max_queuing => bool_decide (length q = max_queuing)
      | None => false
      end) then throw SchedError.QueueFull
  else if decide (id ∈ q) then throw SchedError.ScanAlreadyQueued
  else
    err_into SchedError.from_storage (update_status id st) ;;
    modify (fun s => set_queued s ((queued s ++ [id])%list)).

Definition start_scan_by_id (id : string) : R SchedError.t unit :=
  check_running id ;;
  st ← requested_status id;
  enqueue id st.

(** *** [delete_scan_by_id]: the lock of [queued] is held throughout. *)
Definition delete_scan_by_id (id : string) : R SchedError.t unit :=
  q ← gets queued;
  (match position id q with
   | Some i => modify (fun s => set_queued s (swap_remove i q))
   | None =>
       r ← gets running;
       match position id r with
       | Some i => with_scanner (x_stop_scan id) ;; modify (fun s => set_running s (swap_remove i r))
       | None => mret tt
       end
   end) ;;
  with_db (db_remove_scan id) ;;
  with_db (db_remove_scan_id id).

(** *** [coordinate_scans]: both locks are held throughout. *)
Definition failed_status : Status := mkStatus None None Phase.Failed None.

Definition push_queued {E} (id : string) : R E unit :=
  modify (fun s => set_queued s ((queued s ++ [id])%list)).
Definition push_running {E} (id : string) : R E unit :=
  modify (fun s => set_running s ((running s ++ [id])%list)).

(** [Vec::pop] *)
Definition pop_queued {E} : R E (option string) := fun s =>
  (Ok (last (queued s)), set_queued s (take (length (queued s) - 1) (queued s))).

Definition start_one (id : string) : R SchedError.t unit :=
  '(scan, _) ← with_db (db_get_decrypted_scan id);
  x ← gets scanner;
  if can_start_scan scan x then
    res ← attempt (with_scanner (x_start_scan scan));
    match res with
    | inl _ => push_running id
    | inr (SchedError.Scan (ScanError.Connection _)) => push_queued id
    | inr _ => with_db (db_update_status id failed_status)
    end
  else push_queued id.

Fixpoint start_scans (amount : nat) : R SchedError.t unit :=
  match amount with
  | 0 => mret tt
  | S n =>
      o ← pop_queued;
      match o with
      | Some id => start_one id ;; start_scans n
      | None => mret tt
      end
  end.

Definition coordinate_scans `{BuildProfile} : R SchedError.t unit :=
  sync ← gets is_synchronizing_feed;
  if (sync : bool) then mret tt
  else
    q ← gets queued;
    r ← gets running;
    amount_to_start ←
      match max_running_scans config with
      | Some mrs => z ← or_panic (arith_u 64 (Z.of_nat mrs - Z.of_nat (length r))); mret (Z.to_nat z)
      | None => mret (length q)
      end;
    start_scans amount_to_start.

(** *** [handle_results] *)
Section Results.
Context `{BuildProfile} `{HashOrder}.

Definition fetch_results (id : string) : R ScanError.t ScanResults := on_scanner (x_fetch_results id).

Definition add_status (r : ScanResults) (id : string) : R SchedError.t ScanResults :=
  if do_addition then
    st ← with_db (db_get_status id);
    st' ← or_panic (status_update_with (sr_status r) st);
    mret (mkScanResults (sr_id r) st' (sr_results r))
  else mret r.

Definition handle_one (id : string) : R SchedError.t unit :=
  res ← attempt (err_into SchedError.Scan (fetch_results id));
  match res with
  | inl r =>
      r ← add_status r id;
      _ ← attempt (err_into SchedError.from_storage (append_fetched_result [r]));
      mret tt
  | inr _ =>
      st ← with_db (db_get_status id);
      with_db (db_update_status id (mkStatus (start_time st) (end_time st) Phase.Failed (host_info st)))
  end.

Fixpoint handle_each (ids : list string) : R SchedError.t unit :=
  match ids with
  | [] => mret tt
  | id :: ids => handle_one id ;; handle_each ids
  end.

Definition handle_results : R SchedError.t unit :=
  r ← gets running;
  handle_each r.

(** Both futures are awaited before the errors are returned. *)
Definition sync_scans : R SchedError.t unit :=
  cr ← attempt coordinate_scans;
  rr ← attempt handle_results;
  _ ← of_result cr;
  of_result rr.
End Results.

Definition has_running_scans {E} : R E bool := gets (fun s => negb (bool_decide (running s = []))).

(** *** [ScanStopper]: [now] is the time in seconds. *)
Definition stop_status (now : Z) (st : Status) : Status :=
  mkStatus (start_time st) (Some now) Phase.Stopped (host_info st).

Definition stop_scan `{DbErrorText} (now : Z) (id : string) : R ScanError.t unit :=
  on_scanner (x_stop_scan id) ;;
  q ← gets queued;
  match position id q with
  | Some i => modify (fun s => set_queued s (swap_remove i q))
  | None =>
      modify (fun s => set_running s (remove_id id (running s))) ;;
      st ← err_into scan_error_of (on_db (db_get_status id));
      err_into scan_error_of (on_db (db_update_status id (stop_status now st)))
  end.

(** *** [synchronize_feeds]

    The flag is set under its write lock, which is held until the end; the loop waits for
    [running] to be empty; then the database updates. *)
Definition sync_begin {E} : R E unit := modify (fun s => set_synchronizing s true).

Definition sync_finish (hash : list FeedHash) : R DbError.t unit :=
  result ← attempt (on_db (db_synchronize_feeds hash));
  fv ← attempt (on_db db_current_feed_version);
  match fv with
  | inl fv =>
      modify (fun s => set_synchronizing (set_feed_version s fv) false) ;;
      of_result result
  | inr _ => panic
  end.

(** *** Calls that go to the database *)
Definition insert_scan (c : ScanModel) : R DbError.t unit := on_db (db_insert_scan c).
Definition add_scan_client_id (sid : string) (cid : ClientHash) : R DbError.t unit :=
  on_db (db_add_scan_client_id sid cid).
Definition get_scans_of_client_id (cid : ClientHash) : R DbError.t (list string) :=
  on_db (db_get_scans_of_client_id cid).
Definition is_client_allowed (sid : string) (cid : ClientHash) : R DbError.t bool :=
  on_db (db_is_client_allowed sid cid).
Definition get_scan (id : string) : R DbError.t (ScanModel * Status) := on_db (db_get_scan id).
Definition get_results (id : string) (from to : option nat) : R DbError.t (list (list byte)) :=
  on_db (db_get_results id from to).
Definition vts : R DbError.t (list Nvt) := on_db db_vts.
Definition oids : R DbError.t (list string) := l ← vts; mret (oid <$> l).
Definition vt_by_oid (o : string) : R DbError.t (option Nvt) :=
  l ← vts; mret (find (fun x => bool_decide (oid x = o)) l).
End Scheduler.
End Sched.

(** ** The in-memory database as an instance; [feeds] runs the updates of feeds. *)
Definition inmemory_database `{Cipher} `{Base64} `{ResultJson} `{HashOrder} `{AdvisoryOrder}
  `{HashSetOrder Nvt} (feeds : list FeedHash -> M DefaultDispatcher DbError.t unit) :
  Database Inmemory.Storage := {|
  db_insert_scan := Inmemory.insert_scan;
  db_remove_scan := Inmemory.remove_scan;
  db_update_status := Inmemory.update_status;
  db_append_fetched_result := Inmemory.append_fetched_result;
  db_get_scan := Inmemory.get_scan;
  db_get_decrypted_scan := Inmemory.get_decrypted_scan;
  db_get_status := Inmemory.get_status;
  db_get_results := Inmemory.get_results;
  db_add_scan_client_id := Inmemory.add_scan_client_id;
  db_remove_scan_id := Inmemory.remove_scan_id;
  db_get_scans_of_client_id := Inmemory.get_scans_of_client_id;
  db_is_client_allowed := Inmemory.is_client_allowed;
  db_synchronize_feeds := Inmemory.synchronize_feeds feeds;
  db_current_feed_version := Inmemory.current_feed_version;
  db_feed_hash := Inmemory.feed_hash;
  db_vts := Inmemory.vts
|}.

(** [Lambda::default] of [models/scanner.rs]: a scanner that accepts everything, and reports
    nothing. *)
Definition lambda_scanner : ScanRunner unit := {|
  can_start_scan := fun _ _ => true;
  x_start_scan := fun _ x => (Ok tt, x);
  x_stop_scan := fun _ x => (Ok tt, x);
  x_fetch_results := fun _ x => (Ok (mkScanResults "" default_status []), x);
  do_addition := false
|}.

(** The scanner of the library ([scanner/mod.rs]); its results are stored by the store of the
    scan itself. *)
Definition library_scanner : ScanRunner Scanner.Scanner := {|
  can_start_scan := fun _ _ => true;
  x_start_scan := fun c x => (Ok tt, Scanner.start_scan x c);
  x_stop_scan := fun id x =>
    match Scanner.stop_scan x id with
    | (inl _, x') => (Ok tt, x')
    | (inr e, x') => (Err e, x')
    end;
  x_fetch_results := fun id x =>
    match Scanner.fetch_results x id with
    | inl st => (Ok (mkScanResults id st []), x)
    | inr e => (Err e, x)
    end;
  do_addition := false
|}.
