(* ===== verification/SchedulerProps.v ===== *)
(** * The queues of the scheduler

    For every database and scanner: no scan is queued or running twice, and the configured
    numbers of queued and running scans are never exceeded, whatever operations run and
    however they end. *)

From S2P Require Import Prelude RustStr Token Statement NaslValue Errors Nvt Storage Models HostInfo Scheduling Executor Scanner Crypt ScanStore Scheduler.
Import Sched.
Local Open Scope nat_scope.

(** ** Removal from a vector *)
Lemma position_Some id l i : position id l = Some i -> l !! i = Some id.
Proof.
  revert i. induction l as [|x l IH]; intros i; [done|]. simpl. destruct (decide (x = id)) as [->|Hne].
  - by intros [= <-].
  - destruct (position id l) as [j|]; [|done]. intros [= <-]. simpl. auto.
Qed.

Lemma position_None id l : position id l = None <-> id ∉ l.
Proof.
  induction l as [|x l IH]; simpl; [by split; [intros _; apply not_elem_of_nil|]|].
  rewrite not_elem_of_cons. destruct (decide (x = id)) as [->|Hne].
  - split; [done|]. by intros [? _].
  - destruct (position id l) as [j|]; simpl; [split; [done|]|].
    + intros [_ Hn]. by apply IH in Hn.
    + split; [|done]. intros _. split; [congruence|]. by apply IH.
Qed.

Lemma swap_remove_perm {A} i (l : list A) x : l !! i = Some x -> l ≡ₚ x :: swap_remove i l.
Proof.
  intros Hi. unfold swap_remove. destruct l as [|y l _] using rev_ind; [done|].
  rewrite last_snoc, length_app. simpl. destruct (decide (S i = length l + 1)) as [E|E].
  - assert (i = length l) as -> by lia. rewrite take_app_length.
    rewrite lookup_app_r, Nat.sub_diag in Hi by lia. injection Hi as ->.
    by rewrite Permutation_app_comm.
  - apply lookup_lt_Some in Hi as Hlt. rewrite length_app in Hlt. simpl in Hlt.
    rewrite Nat.add_sub, take_app_length. rewrite lookup_app_l in Hi by lia.
    rewrite insert_take_drop by lia. rewrite <- (take_drop_middle l i x Hi) at 1.
    generalize (take i l) (drop (S i) l). intros a b. rewrite <- app_assoc. simpl.
    rewrite <- Permutation_middle. apply perm_skip, Permutation_app_head.
    symmetry. apply Permutation_cons_append.
Qed.

Lemma remove_id_perm id l : id ∈ l -> l ≡ₚ id :: remove_id id l.
Proof.
  intros Hid. unfold remove_id. destruct (position id l) as [i|] eqn:E.
  - by apply swap_remove_perm, position_Some.
  - by apply position_None in E.
Qed.

Lemma remove_id_none id l : id ∉ l -> remove_id id l = l.
Proof. intros Hid. unfold remove_id. by apply position_None in Hid as ->. Qed.

Lemma remove_id_submseteq id l : remove_id id l ⊆+ l.
Proof.
  destruct (decide (id ∈ l)) as [Hid|Hid].
  - rewrite (remove_id_perm id l Hid) at 2. by apply submseteq_cons.
  - by rewrite remove_id_none.
Qed.

Lemma remove_id_gone id l : NoDup l -> id ∉ remove_id id l.
Proof.
  intros Hnd. destruct (decide (id ∈ l)) as [Hid|Hid]; [|by rewrite remove_id_none].
  rewrite (remove_id_perm id l Hid) in Hnd. by apply NoDup_cons in Hnd as [? _].
Qed.

Lemma drop_over_submseteq results r : foldl drop_over r results ⊆+ r.
Proof.
  revert r. induction results as [|x results IH]; intros r; [done|]. simpl.
  etrans; [apply IH|]. unfold drop_over. destruct (is_over _); [apply remove_id_submseteq|done].
Qed.

(** ** The invariant

    [alone] says that no operation is interrupted by another: then no scan is queued and
    running at once. *)
Section Invariant.
Context {D X : Type} `{Database D} `{ScanRunner X} (alone : bool) (config : SchedulerConfig).

Definition within (o : option nat) (n : nat) : Prop := match o with Some m => n <= m | None => True end.

Record queues_ok (q r : list string) : Prop := {
  ok_distinct : NoDup (q ++ if alone then r else []);
  ok_queued : within (max_queued_scans config) (length q);
  ok_running : within (max_running_scans config) (length r)
}.

Definition sched_ok (s : Scheduler D X) : Prop := queues_ok (queued s) (running s).

Lemma within_le o n m : n <= m -> within o m -> within o n.
Proof. destruct o; simpl; lia. Qed.

Lemma submseteq_NoDup {A} (l k : list A) : l ⊆+ k -> NoDup k -> NoDup l.
Proof. intros (k' & Hk)%submseteq_Permutation. rewrite Hk, NoDup_app. by intros [? _]. Qed.

Lemma queues_shrink q r q' r' : queues_ok q r -> q' ⊆+ q -> r' ⊆+ r -> queues_ok q' r'.
Proof.
  intros [Hd Hq Hr] Hq' Hr'. split.
  - eapply submseteq_NoDup; [|exact Hd]. apply submseteq_app; [done|]. by destruct alone.
  - eapply within_le; [by apply submseteq_length|done].
  - eapply within_le; [by apply submseteq_length|done].
Qed.

(** *** Rules for the calls of the database and the scanner *)
Lemma wp_on_db {E A} (m : M D E A) (Q : outcome E A -> Scheduler D X -> Prop) s :
  (forall o d, Q o (set_db s d)) -> wp (on_db m) Q s.
Proof. intros HQ. unfold wp, on_db. destruct (m (db s)) as [o d]. apply HQ. Qed.

Lemma wp_on_scanner {E A} (m : M X E A) (Q : outcome E A -> Scheduler D X -> Prop) s :
  (forall o x, Q o (set_scanner s x)) -> wp (on_scanner m) Q s.
Proof. intros HQ. unfold wp, on_scanner. destruct (m (scanner s)) as [o d]. apply HQ. Qed.

Lemma wp_err_into {S E E' A} (f : E -> E') (m : M S E A) (Q : outcome E' A -> S -> Prop) s :
  wp m (fun o s' => match o with
        | Ok a => Q (Ok a) s' | Err e => Q (Err (f e)) s'
        | Panic => Q Panic s' | OutOfFuel => Q OutOfFuel s' end) s ->
  wp (err_into f m) Q s.
Proof. unfold wp, err_into. by destruct (m s) as [[] s']. Qed.

Lemma wp_with_db {A} (m : M D DbError.t A) (Q : outcome SchedError.t A -> Scheduler D X -> Prop) s :
  (forall o d, Q o (set_db s d)) -> wp (with_db m) Q s.
Proof. intros HQ. apply wp_err_into, wp_on_db. intros [] d; apply HQ. Qed.

Lemma wp_with_scanner {A} (m : M X ScanError.t A)
  (Q : outcome SchedError.t A -> Scheduler D X -> Prop) s :
  (forall o x, Q o (set_scanner s x)) -> wp (with_scanner m) Q s.
Proof. intros HQ. apply wp_err_into, wp_on_scanner. intros [] d; apply HQ. Qed.

(** *** Operations that do not touch the queues, or only take from them *)
Abbreviation keeps m := (forall s, sched_ok s -> wp m (fun _ s' => sched_ok s') s).

Ltac keep_step :=
  match goal with
  | |- wp (mbind _ _) _ _ => apply wp_bind
  | |- wp (mret _) _ _ => apply wp_ret; cbn [bind_post]
  | |- wp (gets _) _ _ => apply wp_gets; cbn [bind_post]
  | |- wp (modify _) _ _ => apply wp_modify; cbn [bind_post]
  | |- wp (throw _) _ _ => apply wp_throw; cbn [bind_post]
  | |- wp panic _ _ => apply wp_panic; cbn [bind_post]
  | |- wp (with_db _) _ _ => apply wp_with_db; intros [] ?; cbn [bind_post]
  | |- wp (with_scanner _) _ _ => apply wp_with_scanner; intros [] ?; cbn [bind_post]
  | |- wp (on_db _) _ _ => apply wp_on_db; intros [] ?; cbn [bind_post]
  | |- wp (on_scanner _) _ _ => apply wp_on_scanner; intros [] ?; cbn [bind_post]
  | |- wp (err_into _ _) _ _ => apply wp_err_into
  | |- wp (attempt _) _ _ => apply wp_attempt
  | |- wp (of_result ?r) _ _ => destruct r; cbn [of_result]
  | |- wp (or_panic ?o) _ _ => destruct o; cbn [or_panic]
  | |- wp (match ?x with _ => _ end) _ _ => destruct x eqn:?
  end.
Ltac keep_steps := repeat keep_step; cbn [bind_post]; try done.

Lemma shrink_queued s q : sched_ok s -> q ⊆+ queued s -> sched_ok (set_queued s q).
Proof. intros Hs Hq. by apply (queues_shrink _ _ _ _ Hs). Qed.
Lemma shrink_running s r : sched_ok s -> r ⊆+ running s -> sched_ok (set_running s r).
Proof. intros Hs Hr. by apply (queues_shrink _ _ _ _ Hs). Qed.

Lemma swap_remove_submseteq {A} i (l : list A) x : l !! i = Some x -> swap_remove i l ⊆+ l.
Proof. intros Hi. rewrite (swap_remove_perm i l x Hi) at 2. by apply submseteq_cons. Qed.

Lemma update_status_keeps id st : keeps (update_status id st).
Proof.
  intros s Hs. unfold update_status.
  assert (sched_ok (if is_over (status st) then set_running s (remove_id id (running s)) else s)).
  { destruct (is_over _); [apply shrink_running; [done|apply remove_id_submseteq]|done]. }
  keep_steps.
Qed.

Lemma append_keeps results : keeps (append_fetched_result results).
Proof.
  intros s Hs. unfold append_fetched_result.
  assert (sched_ok (set_running s (foldl drop_over (running s) results)))
    by (apply shrink_running; [done|apply drop_over_submseteq]).
  keep_steps.
Qed.

Lemma delete_keeps id : keeps (delete_scan_by_id id).
Proof.
  intros s Hs. unfold delete_scan_by_id. keep_step. keep_step. keep_step.
  destruct (position id (queued s)) as [i|] eqn:Ei.
  - apply position_Some, swap_remove_submseteq in Ei. pose proof (shrink_queued _ _ Hs Ei). keep_steps.
  - keep_step. keep_step. destruct (position id (running s)) as [i|] eqn:Er; [|keep_steps].
    apply position_Some, swap_remove_submseteq in Er. pose proof (shrink_running _ _ Hs Er). keep_steps.
Qed.

Lemma stop_keeps `{DbErrorText} now id : keeps (stop_scan now id).
Proof.
  intros s Hs. unfold stop_scan. keep_step. apply wp_on_scanner. intros o x.
  assert (sched_ok (set_scanner s x)) as Hx by done. revert Hx. generalize (set_scanner s x). clear s Hs x.
  intros s Hs. destruct o; [|done..]. cbn [bind_post]. keep_step. keep_step.
  destruct (position id (queued s)) as [i|] eqn:Ei.
  - apply position_Some, swap_remove_submseteq in Ei. keep_step. by apply shrink_queued.
  - pose proof (shrink_running s (remove_id id (running s)) Hs (remove_id_submseteq _ _)). keep_steps.
Qed.

Lemma sync_begin_keeps : keeps (sync_begin (E := DbError.t)).
Proof. intros s Hs. unfold sync_begin. keep_steps. Qed.

Lemma sync_finish_keeps hash : keeps (sync_finish hash).
Proof. intros s Hs. unfold sync_finish. keep_steps. Qed.

(** *** Queueing a scan *)
Lemma enqueue_adds id st s : sched_ok s -> (alone = true -> id ∉ running s) ->
  wp (enqueue config id st) (fun _ s' => sched_ok s') s.
Proof.
  intros Hs Hr. unfold enqueue. keep_step. keep_step.
  destruct (match max_queued_scans config with Some n => _ | None => _ end) eqn:Efull; [by keep_step|].
  destruct (decide (id ∈ queued s)) as [|Hq]; [by keep_step|].
  keep_step. keep_step. unfold update_status. keep_step. keep_step.
  set (s1 := if is_over (status st) then set_running s (remove_id id (running s)) else s).
  assert (queued s1 = queued s /\ running s1 ⊆+ running s) as [E1 E2].
  { unfold s1. destruct (is_over _); [|done]. split; [done|apply remove_id_submseteq]. }
  apply wp_on_db. assert (sched_ok s1) as Hs1
    by (apply (queues_shrink _ _ _ _ Hs); [by rewrite E1|done]).
  intros [] d; cbn [bind_post]; try done. apply wp_modify. unfold sched_ok. simpl. rewrite E1.
  destruct Hs1 as [Hd Hlq Hlr]. rewrite E1 in Hd, Hlq.
  split; [|destruct (max_queued_scans config)|done].
  - rewrite <- app_assoc. simpl. rewrite <- Permutation_middle. apply NoDup_cons. split; [|done].
    rewrite not_elem_of_app. split; [done|]. destruct alone; [|apply not_elem_of_nil].
    intros Hin. apply Hr; [done|]. by apply (elem_of_submseteq _ _ _ Hin).
  - simpl in *. rewrite length_app. simpl. apply bool_decide_eq_false in Efull. lia.
  - done.
Qed.

Lemma start_keeps id : keeps (start_scan_by_id config id).
Proof.
  intros s Hs. unfold start_scan_by_id, check_running. keep_step. keep_step. keep_step. simpl.
  destruct (decide (id ∈ running s)) as [|Hr]; [by keep_step|]. keep_step. unfold bind_post.
  keep_step. unfold requested_status. keep_step. apply wp_with_db. intros o d.
  destruct o as [st| | |]; [|done..]. cbn [bind_post].
  destruct (status st); keep_step; try done. cbn [bind_post]. by apply enqueue_adds.
Qed.

Lemma enqueue_keeps id st : alone = false -> keeps (enqueue config id st).
Proof. intros Ha s Hs. apply enqueue_adds; [done|congruence]. Qed.

(** *** Starting scans: [hand id s] while the popped [id] is in neither queue *)
Definition hand (id : string) (n : nat) (s : Scheduler D X) : Prop :=
  queues_ok (queued s ++ [id]) (running s)
  /\ match max_running_scans config with Some m => length (running s) + S n <= m | None => True end.

Definition room (n : nat) (s : Scheduler D X) : Prop :=
  sched_ok s
  /\ match max_running_scans config with Some m => length (running s) + n <= m | None => True end.

Lemma hand_drop id n s : hand id n s -> room n s.
Proof.
  intros [Hs Hn]. split.
  - apply (queues_shrink _ _ _ _ Hs); [|done]. rewrite <- (app_nil_r (queued s)) at 1.
    apply submseteq_app; [done|apply submseteq_nil_l].
  - destruct (max_running_scans config); lia.
Qed.

Lemma hand_requeue id n s : hand id n s -> room n (set_queued s (queued s ++ [id])).
Proof. intros [Hs Hn]. split; [done|]. destruct (max_running_scans config); simpl; lia. Qed.

Lemma hand_start id n s : hand id n s -> room n (set_running s (running s ++ [id])).
Proof.
  intros [[Hd Hlq Hlr] Hn]. rewrite <- app_assoc in Hd. simpl in Hd. split.
  - split; simpl.
    + destruct alone.
      * rewrite app_assoc. rewrite (Permutation_app_comm _ [id]). simpl.
        by rewrite Permutation_middle.
      * apply NoDup_app in Hd as [Hd _]. by rewrite app_nil_r.
    + eapply within_le; [|done]. rewrite length_app. lia.
    + destruct (max_running_scans config); [|done]. simpl in *. rewrite length_app. simpl. lia.
  - destruct (max_running_scans config); [|done]. simpl. rewrite length_app. simpl. lia.
Qed.

Lemma start_one_keeps id n s : hand id n s -> wp (start_one id) (fun _ s' => room n s') s.
Proof.
  intros Hh. pose proof (hand_drop _ _ _ Hh). pose proof (hand_requeue _ _ _ Hh).
  pose proof (hand_start _ _ _ Hh). unfold start_one, push_queued, push_running. keep_steps.
Qed.

Lemma pop_hand id n s : room (S n) s -> last (queued s) = Some id ->
  hand id n (set_queued s (take (length (queued s) - 1) (queued s))).
Proof.
  intros [Hs Hn] (q & Eq)%last_Some. unfold hand, sched_ok in *. simpl. rewrite Eq in *.
  rewrite length_app. simpl. rewrite Nat.add_sub, take_app_length. done.
Qed.

Lemma start_scans_keeps n s : room n s -> wp (start_scans n) (fun _ s' => sched_ok s') s.
Proof.
  revert s. induction n as [|n IH]; intros s Hs; [apply Hs|]. cbn [start_scans]. keep_step.
  unfold wp, pop_queued. cbn [fst snd bind_post].
  destruct (last (queued s)) as [id|] eqn:E.
  - keep_step. eapply wp_mono; [apply start_one_keeps, (pop_hand _ _ _ Hs E)|].
    intros o s' Hr. destruct o; cbn [bind_post]; [by apply IH|apply Hr..].
  - apply wp_ret. apply (queues_shrink _ _ _ _ (proj1 Hs)); [|done].
    apply sublist_submseteq, sublist_take.
Qed.

(** Numbers of the configuration are of the type [usize]. *)
Hypothesis usize_config : match max_running_scans config with
  | Some m => (Z.of_nat m < 2 ^ 64)%Z | None => True end.

Section Results.
Context `{BuildProfile} `{HashOrder}.

Lemma coordinate_keeps : keeps (coordinate_scans config).
Proof.
  intros s Hs. unfold coordinate_scans. keep_step. keep_step.
  destruct (is_synchronizing_feed s); [by keep_step|]. do 5 keep_step.
  pose proof (ok_running _ _ Hs) as Hr. unfold within in Hr.
  destruct (max_running_scans config) as [m|] eqn:Em.
  - assert (in_u 64 (Z.of_nat m - Z.of_nat (length (running s))) = true) as Hin
      by (apply in_u_spec; lia).
    unfold arith_u. rewrite Hin. cbn [or_panic]. do 3 keep_step. apply start_scans_keeps.
    split; [done|]. rewrite Em. lia.
  - keep_step. apply start_scans_keeps. split; [done|]. by rewrite Em.
Qed.

Lemma add_status_keeps r id : keeps (add_status r id).
Proof. intros s Hs. unfold add_status. keep_steps. Qed.

Lemma handle_one_keeps id : keeps (handle_one id).
Proof.
  intros s Hs. unfold handle_one, fetch_results. keep_step. keep_step. keep_step. apply wp_on_scanner.
  intros o x. assert (sched_ok (set_scanner s x)) as Hx by done. revert Hx.
  generalize (set_scanner s x). clear s Hs x. intros s Hs.
  destruct o as [r|e| |]; cbn [bind_post]; [|by keep_steps|done|done]. keep_step.
  eapply wp_mono; [by apply add_status_keeps|]. intros o s' Hs'. destruct o as [r'| | |]; [|done..].
  cbn [bind_post]. do 3 keep_step. eapply wp_mono; [by apply append_keeps|].
  intros o' s'' Hs''. by destruct o'.
Qed.

Lemma handle_each_keeps ids : keeps (handle_each ids).
Proof.
  induction ids as [|id ids IH]; intros s Hs; [done|]. cbn [handle_each]. keep_step.
  eapply wp_mono; [by apply handle_one_keeps|]. intros o s' Hs'.
  destruct o; cbn [bind_post]; [by apply IH|done..].
Qed.

Lemma sync_scans_keeps : keeps (sync_scans config).
Proof.
  intros s Hs. unfold sync_scans, handle_results. keep_step. keep_step.
  eapply wp_mono; [by apply coordinate_keeps|]. intros o s1 H1'. destruct o; cbn [bind_post]; try done.
  all: keep_step; keep_step; keep_step; keep_step.
  all: eapply wp_mono; [by apply handle_each_keeps|]; intros o' s2 H2'.
  all: destruct o'; cbn [bind_post]; keep_steps.
Qed.
End Results.
End Invariant.
