(* ===== verification/SchedulerTheorems.v ===== *)
(** * What the scheduler promises, and what it does not

    The invariant of the queues over every history; concurrent requests; the exact effect of
    a round of starts; scans that are lost or stuck; and the waiting of a feed update. *)

From S2P Require Import Prelude RustStr Token Statement NaslValue Errors Nvt Storage Models HostInfo Scheduling Executor Scanner Crypt ScanStore DaemonInstances ScanStoreProps Scheduler SchedulerProps.
Import Sched.
Local Open Scope nat_scope.

Lemma position_last id l : id ∉ l -> position id (l ++ [id]) = Some (length l).
Proof.
  induction l as [|x l IH]; simpl; [by rewrite decide_True|]. rewrite not_elem_of_cons.
  intros [Hne Hn]. by rewrite decide_False, IH by done.
Qed.

Section General.
Context {D X : Type} `{Database D} `{ScanRunner X} `{DbErrorText} `{BuildProfile} `{HashOrder}.
Context (config : SchedulerConfig).

(** ** Histories of operations that run one after the other *)
Inductive SchedOp : Type :=
| OpStart (id : string)
| OpDelete (id : string)
| OpStop (now : Z) (id : string)
| OpUpdateStatus (id : string) (st : Status)
| OpAppend (results : list ScanResults)
| OpSyncScans
| OpSyncBegin
| OpSyncFinish (hash : list FeedHash).

(** The state after an operation, however it ends. *)
Definition sched_step (s : Scheduler D X) (o : SchedOp) : Scheduler D X :=
  match o with
  | OpStart id => (start_scan_by_id config id s).2
  | OpDelete id => (delete_scan_by_id id s).2
  | OpStop now id => (stop_scan now id s).2
  | OpUpdateStatus id st => (update_status id st s).2
  | OpAppend l => (append_fetched_result l s).2
  | OpSyncScans => (sync_scans config s).2
  | OpSyncBegin => (sync_begin (E := DbError.t) s).2
  | OpSyncFinish h => (sync_finish h s).2
  end.

Definition usize_config : Prop :=
  match max_running_scans config with Some m => (Z.of_nat m < 2 ^ 64)%Z | None => True end.

Lemma sched_step_ok alone s o : usize_config ->
  sched_ok alone config s -> sched_ok alone config (sched_step s o).
Proof.
  intros Hu Hs. destruct o; simpl.
  - by apply start_keeps.
  - by apply delete_keeps.
  - by apply stop_keeps.
  - by apply update_status_keeps.
  - by apply append_keeps.
  - by apply sync_scans_keeps.
  - by apply (sync_begin_keeps alone config).
  - by apply sync_finish_keeps.
Qed.

Lemma new_ok alone (d : D) (x : X) : sched_ok alone config (new d x).
Proof.
  split; simpl; [destruct alone; constructor|destruct (max_queued_scans config)|
    destruct (max_running_scans config)]; simpl; lia || done.
Qed.

Lemma history_ok d x ops : usize_config -> sched_ok true config (foldl sched_step (new d x) ops).
Proof.
  intros Hu. apply foldl_ind_inv; [apply new_ok|]. intros s o. by apply sched_step_ok.
Qed.

(** ** Concurrent requests to start a scan

    A request between its sections: it has seen that the scan does not run, and maybe also
    that it may be requested. *)
Record Pool := mkPool { pool : Scheduler D X; starters : list (string * option Status) }.

Inductive pool_step : Pool -> Pool -> Prop :=
| PoolCheck id s ts :
    (check_running id s).1 = Ok tt -> pool_step (mkPool s ts) (mkPool s (ts ++ [(id, None)]))
| PoolStatus id st s s' l1 l2 :
    requested_status id s = (Ok st, s') ->
    pool_step (mkPool s (l1 ++ (id, None) :: l2)) (mkPool s' (l1 ++ (id, Some st) :: l2))
| PoolEnqueue id st s l1 l2 :
    pool_step (mkPool s (l1 ++ (id, Some st) :: l2)) (mkPool (enqueue config id st s).2 (l1 ++ l2))
| PoolWhole o s ts : pool_step (mkPool s ts) (mkPool (sched_step s o) ts).

(** What remains true of the queues. *)
Lemma pool_step_ok p p' : usize_config -> pool_step p p' ->
  sched_ok false config (pool p) -> sched_ok false config (pool p').
Proof.
  intros Hu Hp Hs. destruct Hp as [id s ts _|id st s s' l1 l2 E|id st s l1 l2|o s ts]; simpl in *.
  - done.
  - assert (wp (requested_status id) (fun _ s' => sched_ok false config s') s) as Hw.
    { unfold requested_status. apply wp_bind, wp_with_db. intros [st0| | |] d; cbn [bind_post]; try done.
      by destruct (status st0). }
    unfold wp in Hw. by rewrite E in Hw.
  - by apply enqueue_keeps.
  - by apply sched_step_ok.
Qed.

Lemma pool_steps_ok p p' : usize_config -> rtc pool_step p p' ->
  sched_ok false config (pool p) -> sched_ok false config (pool p').
Proof. intros Hu. induction 1 as [|p1 p2 p3 H12 _ IH]; [done|]. intros Hs. eauto using pool_step_ok. Qed.

(** ** A round of starts when the database knows the scans and the scanner takes them *)
Definition known (d : D) (id : string) : Prop :=
  exists c st, db_get_decrypted_scan id d = (Ok (c, st), d).
Definition accepting : Prop :=
  forall c x, can_start_scan c x = true /\ (x_start_scan c x).1 = Ok tt.

Lemma start_one_known id (s : Scheduler D X) : accepting -> known (db s) id ->
  exists x, start_one id s = (Ok tt, set_scanner (set_running s (running s ++ [id])) x).
Proof.
  intros Ha (c & st & Ed). destruct (Ha c (scanner s)) as [Hc Hx].
  destruct (x_start_scan c (scanner s)) as [o x] eqn:Ex. simpl in Hx. subst o. exists x.
  unfold start_one. erewrite bind_ok.
  2: { unfold with_db, err_into, on_db. rewrite Ed. done. }
  cbn beta iota. erewrite bind_ok by done. replace (scanner (set_db s (db s))) with (scanner s) by done.
  rewrite Hc. erewrite bind_ok.
  2: { unfold attempt, with_scanner, err_into, on_scanner. simpl. by rewrite Ex. }
  done.
Qed.

(** The newest scans of the queue are started, newest first. *)
Lemma start_scans_known n (s : Scheduler D X) : accepting -> Forall (known (db s)) (queued s) ->
  exists x, start_scans n s
    = (Ok tt, set_scanner (set_running (set_queued s (take (length (queued s) - n) (queued s)))
         (running s ++ rev (drop (length (queued s) - n) (queued s)))) x).
Proof.
  intros Ha. revert s. induction n as [|n IH]; intros s Hk.
  - exists (scanner s). simpl. rewrite Nat.sub_0_r, take_ge, drop_ge, app_nil_r by lia. by destruct s.
  - cbn [start_scans]. erewrite bind_ok by done.
    destruct (queued s) as [|id q _] eqn:Eq using rev_ind.
    + exists (scanner s). simpl. rewrite app_nil_r. by destruct s.
    + rewrite last_snoc, length_app. simpl. rewrite Nat.add_sub, take_app_length.
      apply Forall_app in Hk as [Hk Hid]. apply Forall_inv in Hid.
      destruct (start_one_known id (set_queued s q) Ha Hid) as [x1 E1].
      erewrite bind_ok by exact E1.
      destruct (IH (set_scanner (set_running (set_queued s q) (running (set_queued s q) ++ [id])) x1))
        as [x2 E2]; [done|].
      exists x2. rewrite E2. f_equal. simpl. replace (length q + 1 - S n) with (length q - n) by lia.
      rewrite take_app_le, drop_app_le by lia. rewrite rev_app_distr. simpl. by rewrite <- app_assoc.
Qed.

Definition capacity (s : Scheduler D X) : nat :=
  match max_running_scans config with
  | Some mrs => mrs - length (running s)
  | None => length (queued s)
  end.

Lemma coordinate_amount alone (s : Scheduler D X) : usize_config -> sched_ok alone config s ->
  coordinate_scans config s
  = if is_synchronizing_feed s then (Ok tt, s) else start_scans (capacity s) s.
Proof.
  intros Hu Hs. unfold coordinate_scans. erewrite bind_ok by done.
  destruct (is_synchronizing_feed s); [done|]. do 2 erewrite bind_ok by done.
  pose proof (ok_running _ _ _ _ Hs) as Hr. unfold usize_config, capacity, within in *.
  destruct (max_running_scans config) as [m|]; [|by erewrite bind_ok by done].
  assert (in_u 64 (Z.of_nat m - Z.of_nat (length (running s))) = true) as Hin
    by (apply in_u_spec; lia).
  unfold arith_u. rewrite Hin. erewrite bind_ok by (by erewrite bind_ok by done).
  f_equal. lia.
Qed.

(** ** A feed update next to the other tasks

    The task of the feed holds the write lock of the flag while it waits for [running] to be
    empty; the task that syncs scans begins with a read lock of it.  Requests of clients,
    the scanner and other users of the database go on. *)
Inductive FeedTask : Type := FeedIdle | FeedWaiting (hash : list FeedHash) | FeedDead.
Record System := mkSystem { sys : Scheduler D X; feed : FeedTask }.

Inductive Event : Type :=
| EvFeedBegin (hash : list FeedHash)
| EvFeedFinish
| EvSyncScans
| EvStart (id : string)
| EvStop (now : Z) (id : string)
| EvDelete (id : string)
| EvScanner (x : X)
| EvDatabase (d : D).

Definition holds_lock (f : FeedTask) : bool := match f with FeedWaiting _ => true | _ => false end.

Inductive sys_step : Event -> System -> System -> Prop :=
| SysFeedBegin hash s :
    sys_step (EvFeedBegin hash) (mkSystem s FeedIdle)
      (mkSystem (sync_begin (E := DbError.t) s).2 (FeedWaiting hash))
| SysFeedFinish hash s : running s = [] ->
    sys_step EvFeedFinish (mkSystem s (FeedWaiting hash))
      (mkSystem (sync_finish hash s).2
         (match (sync_finish hash s).1 with Panic => FeedDead | _ => FeedIdle end))
| SysSyncScans s f : holds_lock f = false ->
    sys_step EvSyncScans (mkSystem s f) (mkSystem (sync_scans config s).2 f)
| SysStart id s f : sys_step (EvStart id) (mkSystem s f) (mkSystem (start_scan_by_id config id s).2 f)
| SysStop now id s f : sys_step (EvStop now id) (mkSystem s f) (mkSystem (stop_scan now id s).2 f)
| SysDelete id s f : sys_step (EvDelete id) (mkSystem s f) (mkSystem (delete_scan_by_id id s).2 f)
| SysScanner x s f : sys_step (EvScanner x) (mkSystem s f) (mkSystem (set_scanner s x) f)
| SysDatabase d s f : sys_step (EvDatabase d) (mkSystem s f) (mkSystem (set_db s d) f).

Inductive sys_steps : list Event -> System -> System -> Prop :=
| SysDone s : sys_steps [] s s
| SysMore e es s1 s2 s3 : sys_step e s1 s2 -> sys_steps es s2 s3 -> sys_steps (e :: es) s1 s3.

(** A client takes one of the scans [r] away. *)
Definition takes (r : list string) (e : Event) : bool :=
  match e with
  | EvStop _ id | EvDelete id => bool_decide (id ∈ r)
  | _ => false
  end.

Abbreviation keeps_running m r :=
  (forall s : Scheduler D X, running s = r -> wp m (fun _ s' => running s' = r) s).

Lemma start_running id r : keeps_running (start_scan_by_id config id) r.
Proof.
  intros s Hr. unfold start_scan_by_id, check_running. apply wp_bind, wp_bind, wp_gets. cbn [bind_post].
  destruct (decide (id ∈ running s)); [by apply wp_throw|]. apply wp_ret. cbn [bind_post].
  apply wp_bind. unfold requested_status. apply wp_bind, wp_with_db. intros [st| | |] d; cbn [bind_post]; try done.
  destruct (status st); try by apply wp_throw. apply wp_ret. cbn [bind_post].
  unfold enqueue. apply wp_bind, wp_gets. cbn [bind_post].
  destruct (match max_queued_scans config with Some n => _ | None => _ end); [by apply wp_throw|].
  destruct (decide _); [by apply wp_throw|]. apply wp_bind, wp_err_into. unfold update_status.
  apply wp_bind, wp_modify. cbn [bind_post]. simpl is_over. apply wp_on_db.
  intros [] d'; cbn [bind_post]; done.
Qed.

Lemma stop_leaves_running now id r : id ∉ r -> keeps_running (stop_scan now id) r.
Proof.
  intros Hid s Hr. unfold stop_scan. apply wp_bind, wp_on_scanner. intros [] x; cbn [bind_post]; try done.
  apply wp_bind, wp_gets. cbn [bind_post]. destruct (position id _); [done|].
  apply wp_bind, wp_modify. cbn [bind_post].
  assert (running (set_running (set_scanner s x) (remove_id id (running (set_scanner s x)))) = r) as Hr'
    by (simpl; rewrite Hr; by apply remove_id_none).
  revert Hr'. generalize (set_running (set_scanner s x) (remove_id id (running (set_scanner s x)))).
  intros s' Hr'. apply wp_bind, wp_err_into, wp_on_db. intros [] d; cbn [bind_post]; try done.
  apply wp_err_into, wp_on_db. by intros [] d'.
Qed.

Lemma delete_leaves_running id r : id ∉ r -> keeps_running (delete_scan_by_id id) r.
Proof.
  intros Hid s Hr. unfold delete_scan_by_id. apply wp_bind, wp_gets. cbn [bind_post].
  assert (forall s' : Scheduler D X, running s' = r ->
    wp (with_db (db_remove_scan id) ;; with_db (db_remove_scan_id id)) (fun _ s'' => running s'' = r) s') as Hdb.
  { intros s' Hr'. apply wp_bind, wp_with_db. intros [] d; cbn [bind_post]; try done.
    apply wp_with_db. by intros [] d'. }
  apply wp_bind. destruct (position id (queued s)); [by apply Hdb|].
  apply wp_bind, wp_gets. cbn [bind_post]. rewrite Hr, (proj2 (position_None id r) Hid). by apply Hdb.
Qed.

Lemma waiting_step e s1 s2 hash r : sys_step e s1 s2 -> takes r e = false -> r <> [] ->
  feed s1 = FeedWaiting hash -> running (sys s1) = r ->
  feed s2 = FeedWaiting hash /\ running (sys s2) = r /\ e <> EvFeedFinish /\ e <> EvSyncScans.
Proof.
  intros Hstep Ht Hne Hf Hr. destruct Hstep; simpl in *; try congruence.
  - by subst.
  - split; [done|]. split; [by apply start_running|done].
  - apply bool_decide_eq_false in Ht. split; [done|]. split; [by apply stop_leaves_running|done].
  - apply bool_decide_eq_false in Ht. split; [done|]. split; [by apply delete_leaves_running|done].
  - done.
  - done.
Qed.

Lemma waiting_steps es s1 s2 hash r : sys_steps es s1 s2 -> Forall (fun e => takes r e = false) es ->
  r <> [] -> feed s1 = FeedWaiting hash -> running (sys s1) = r ->
  feed s2 = FeedWaiting hash /\ running (sys s2) = r
  /\ Forall (fun e => e <> EvFeedFinish /\ e <> EvSyncScans) es.
Proof.
  intros Hs. induction Hs as [s|e es s1 s2 s3 H12 _ IH]; intros He Hne Hf Hr; [done|].
  apply Forall_cons in He as [He Hes].
  destruct (waiting_step _ _ _ _ _ H12 He Hne Hf Hr) as (Hf2 & Hr2 & Ha & Hb).
  destruct (IH Hes Hne Hf2 Hr2) as (? & ? & ?). auto.
Qed.

(** ** A feed update that does not come back

    [current_feed_version] of the database panics: the flag stays set, and from then on no
    scan is started. *)
Lemma version_panics hash (s : Scheduler D X) : (forall d, (db_current_feed_version d).1 = Panic) ->
  (db_synchronize_feeds hash (db s)).1 <> Panic -> (db_synchronize_feeds hash (db s)).1 <> OutOfFuel ->
  exists s', sync_finish hash (sync_begin (E := DbError.t) s).2 = (Panic, s')
    /\ is_synchronizing_feed s' = true /\ coordinate_scans config s' = (Ok tt, s').
Proof.
  intros Hv Hs1 Hs2. unfold sync_finish, sync_begin, modify. cbn [snd].
  unfold mbind at 1, M_bind, attempt at 1, on_db at 1. simpl.
  destruct (db_synchronize_feeds hash (db s)) as [o d1]. simpl in Hs1, Hs2.
  destruct o; [| |done..].
  all: unfold mbind at 1, M_bind, attempt, on_db; simpl; pose proof (Hv d1) as Hp;
    destruct (db_current_feed_version d1) as [o2 d2]; simpl in Hp; subst; by eexists.
Qed.

(** ** Clients whose stop fails *)
Lemma stop_fails now id (s : Scheduler D X) e x : x_stop_scan id (scanner s) = (Err e, x) ->
  stop_scan now id s = (Err e, set_scanner s x).
Proof. intros Hx. unfold stop_scan, mbind at 1, M_bind, on_scanner. by rewrite Hx. Qed.
End General.

(** ** Scans in the in-memory database *)
Section Inmemory.
Context `{Cipher} `{Base64} `{ResultJson} `{HashOrder} `{AdvisoryOrder} `{HashSetOrder Nvt}.
Context (feeds : list FeedHash -> M DefaultDispatcher DbError.t unit).
Context {X : Type} `{ScanRunner X} `{DbErrorText} `{BuildProfile} (config : SchedulerConfig).
Abbreviation store := Inmemory.Storage.
#[local] Instance scan_database : Database store := inmemory_database feeds.

Definition requested : Status := mkStatus None None Phase.Requested None.

Definition not_full (s : Scheduler store X) : Prop :=
  match max_queued_scans config with Some n => length (queued s) < n | None => True end.

(** Starting a stored scan queues it and marks it as requested. *)
Lemma start_stored id (s : Scheduler store X) p :
  Inmemory.scans (db s) !! id = Some p -> Inmemory.progress_status p = default_status ->
  id ∉ queued s -> id ∉ running s -> not_full s ->
  start_scan_by_id config id s
  = (Ok tt, set_queued (set_db s (Inmemory.set_scans (db s)
        (<[id := Inmemory.set_progress_status p requested]> (Inmemory.scans (db s))))) (queued s ++ [id])).
Proof.
  intros Hp Hst Hq Hr Hf. unfold start_scan_by_id. erewrite bind_ok.
  2: { unfold check_running. erewrite bind_ok by done. by rewrite decide_False. }
  erewrite bind_ok.
  2: { unfold requested_status. erewrite bind_ok.
       2: { unfold with_db, err_into, on_db. simpl. unfold Inmemory.get_status, mbind, M_bind, gets. simpl.
            by rewrite Hp. }
       cbn beta. by rewrite Hst. }
  unfold enqueue. erewrite bind_ok by done. cbn beta.
  replace (match max_queued_scans config with Some n => _ | None => _ end) with false.
  2: { unfold not_full in Hf. destruct (max_queued_scans config); [|done]. symmetry.
       apply bool_decide_eq_false_2. simpl. lia. }
  rewrite decide_False by done. erewrite bind_ok.
  2: { unfold update_status, err_into, on_db, mbind, M_bind, modify. simpl.
       unfold Inmemory.update_status, mbind, M_bind, gets. simpl. by rewrite Hp. }
  done.
Qed.

Lemma start_requested id (s : Scheduler store X) p :
  Inmemory.scans (db s) !! id = Some p -> status (Inmemory.progress_status p) = Phase.Requested ->
  id ∉ running s -> (start_scan_by_id config id s).1 = Err SchedError.ScanAlreadyQueued.
Proof.
  intros Hp Hst Hr. unfold start_scan_by_id. erewrite bind_ok.
  2: { unfold check_running. erewrite bind_ok by done. by rewrite decide_False. }
  unfold mbind at 1, M_bind. unfold requested_status, with_db, err_into, on_db, mbind, M_bind. simpl.
  unfold Inmemory.get_status, mbind, M_bind, gets. simpl. rewrite Hp. simpl. by rewrite Hst.
Qed.

(** A stored scan with an empty secret cannot be read back, whatever its status. *)
Lemma empty_secret_unreadable d c p :
  Inmemory.scans d !! scan_id c = None ->
  forallb nonempty (credentials (scan_target c) ≫= secrets) = false ->
  Inmemory.scans (Inmemory.insert_scan c d).2 !! scan_id c = Some p ->
  forall d' st, Inmemory.scans d' !! scan_id c = Some (Inmemory.set_progress_status p st) ->
  Inmemory.get_decrypted_scan (scan_id c) d' = (Err DbError.Serialization, d').
Proof.
  intros Hnew Hempty Hp d' st Hd'. destruct (insert_new d c Hnew) as (cs & n & Ecs & E). rewrite E in Hp.
  simpl in Hp. rewrite lookup_insert_eq in Hp. injection Hp as <-.
  pose proof (map_passwords_back _ _ _ _ encrypt_password_back _ _ _ _ Ecs) as Hback.
  rewrite Hempty in Hback. unfold Inmemory.get_decrypted_scan. erewrite bind_ok.
  2: { unfold Inmemory.get_scan. erewrite bind_ok by done. by rewrite Hd'. }
  unfold of_outcome, mbind at 1, M_bind. simpl. by rewrite Hback.
Qed.

Lemma insert_new_lookup d c : Inmemory.scans d !! scan_id c = None -> exists p,
  Inmemory.scans (Inmemory.insert_scan c d).2 !! scan_id c = Some p
  /\ Inmemory.progress_status p = default_status /\ (Inmemory.insert_scan c d).1 = Ok tt.
Proof.
  intros Hnew. destruct (insert_new d c Hnew) as (cs & n & _ & ->). simpl. rewrite lookup_insert_eq. eauto.
Qed.

(** The scan is queued, and the next round of starts loses it: it is in no queue, but its
    status says that it is requested, so it can never be started. *)
Lemma empty_secret_lost (s : Scheduler store X) c :
  Inmemory.scans (db s) !! scan_id c = None ->
  forallb nonempty (credentials (scan_target c) ≫= secrets) = false ->
  is_synchronizing_feed s = false -> scan_id c ∉ queued s -> scan_id c ∉ running s -> not_full s ->
  usize_config config -> sched_ok true config s -> 0 < capacity config (set_queued s (queued s ++ [scan_id c])) ->
  exists s1 s2 s3,
    insert_scan c s = (Ok tt, s1)
    /\ start_scan_by_id config (scan_id c) s1 = (Ok tt, s2)
    /\ coordinate_scans config s2 = (Err (SchedError.Storage DbError.Serialization), s3)
    /\ queued s3 = queued s /\ running s3 = running s
    /\ (Inmemory.get_status (scan_id c) (db s3)).1 = Ok requested
    /\ (start_scan_by_id config (scan_id c) s3).1 = Err SchedError.ScanAlreadyQueued.
Proof.
  intros Hnew Hempty Hsync Hq Hr Hf Hu Hok Hcap.
  destruct (insert_new_lookup _ _ Hnew) as (p & Hp & Hst & Eok).
  destruct (Inmemory.insert_scan c (db s)) as [o d1] eqn:Ei. simpl in Hp, Eok. subst o.
  set (s1 := set_db s d1).
  assert (insert_scan c s = (Ok tt, s1)) as E1 by (unfold insert_scan, on_db; simpl; by rewrite Ei).
  assert (start_scan_by_id config (scan_id c) s1 = _) as E2
    by (by apply (start_stored (scan_id c) s1 p)).
  set (d2 := Inmemory.set_scans _ _) in E2. set (s2 := set_queued (set_db s1 d2) _) in E2.
  assert (sched_ok true config s2) as Hok2.
  { pose proof (start_keeps true config (scan_id c) s1 Hok) as Hw. unfold wp in Hw. by rewrite E2 in Hw. }
  set (s3 := set_db (set_queued s2 (queued s)) d2).
  exists s1, s2, s3. split; [done|]. split; [done|]. split; [|split; [done|split; [done|split]]].
  - rewrite (coordinate_amount config true s2 Hu Hok2). change (is_synchronizing_feed s2) with (is_synchronizing_feed s).
    rewrite Hsync. change (capacity config s2) with (capacity config (set_queued s (queued s ++ [scan_id c]))).
    destruct (capacity _ _) as [|n]; [lia|]. cbn [start_scans]. unfold mbind at 1, M_bind, pop_queued.
    change (queued s2) with (queued s ++ [scan_id c]). rewrite last_snoc, length_app. simpl length.
    rewrite Nat.add_sub, take_app_length. unfold mbind at 1, M_bind. unfold start_one, mbind at 1, M_bind.
    unfold with_db, err_into, on_db. simpl db_get_decrypted_scan.
    erewrite empty_secret_unreadable; [done| | |by rewrite Ei|apply lookup_insert_eq]; done.
  - unfold Inmemory.get_status. erewrite bind_ok by done. unfold s3, d2. simpl.
    by rewrite lookup_insert_eq.
  - apply (start_requested _ _ (Inmemory.set_progress_status p requested)); [apply lookup_insert_eq|done|done].
Qed.

(** A scan that is stopped while it is queued: it leaves the queue, but keeps the status
    that forbids to start it. *)
Lemma stopped_queued_stuck (s : Scheduler store X) id p now x :
  Inmemory.scans (db s) !! id = Some p -> Inmemory.progress_status p = default_status ->
  id ∉ queued s -> id ∉ running s -> not_full s -> NoDup (queued s) ->
  x_stop_scan id (scanner s) = (Ok tt, x) ->
  exists s1 s2,
    start_scan_by_id config id s = (Ok tt, s1)
    /\ stop_scan now id s1 = (Ok tt, s2)
    /\ queued s2 = queued s /\ running s2 = running s
    /\ (Inmemory.get_status id (db s2)).1 = Ok requested
    /\ (start_scan_by_id config id s2).1 = Err SchedError.ScanAlreadyQueued.
Proof.
  intros Hp Hst Hq Hr Hf Hnd Hx. pose proof (start_stored id s p Hp Hst Hq Hr Hf) as E1.
  set (d1 := Inmemory.set_scans _ _) in E1. set (s1 := set_queued _ _) in E1.
  exists s1, (set_queued (set_scanner s1 x) (queued s)). split; [done|]. split; [|split; [done|split; [done|]]].
  - unfold stop_scan. erewrite bind_ok.
    2: { unfold on_scanner. change (scanner s1) with (scanner s). by rewrite Hx. }
    erewrite bind_ok by done. cbn beta. change (queued (set_scanner s1 x)) with (queued s ++ [id]).
    rewrite position_last by done. unfold modify. do 2 f_equal. unfold swap_remove.
    rewrite last_snoc, length_app. simpl length. rewrite decide_True by lia. apply take_app_length.
  - split.
    + unfold Inmemory.get_status. erewrite bind_ok by done. simpl. by rewrite lookup_insert_eq.
    + apply (start_requested _ _ (Inmemory.set_progress_status p requested)); [apply lookup_insert_eq|done|done].
Qed.
End Inmemory.

(** ** A daemon to evaluate

    The in-memory database with concrete libraries, no feed to update, and the scanner of
    the tests that accepts every scan. *)
Module Example.
#[export] Existing Instance flip_cipher.
#[export] Existing Instance letters_base64.
#[export] Existing Instance bits_json.
#[export] Existing Instance plain_set.
#[export] Existing Instance stored_order.
#[export] Existing Instance plain_order.
#[export] Existing Instance short_text.
#[export] Existing Instance debug_build.
#[export] Existing Instance lambda_scanner.
#[export] Instance example_db : Database Inmemory.Storage := inmemory_database (fun _ d => (Ok tt, d)).

Definition with_password (id p : string) : ScanModel :=
  mkScanModel id (set_credentials default_target [mkCredential Service.SSH None (UP "u" p None)]) [] [].

Definition stored_scans (cs : list ScanModel) : Inmemory.Storage :=
  foldl (fun d c => (Inmemory.insert_scan c d).2) (Inmemory.new []) cs.

Definition idle (cs : list ScanModel) : Scheduler Inmemory.Storage unit := new (stored_scans cs) tt.
Definition two : SchedulerConfig := mkSchedulerConfig (Some 2) (Some 2).

Lemma two_usize : usize_config two.
Proof. done. Qed.
End Example.

(** ** The claims *)
Section Claims.
Context {D X : Type} `{Database D} `{ScanRunner X} `{DbErrorText} `{BuildProfile} `{HashOrder}.

(** C10: Whatever the database and the scanner answer and however operations end, no scan is
    queued or running twice or both at once, and the configured numbers of queued and running
    scans are never exceeded, after any history of operations that run one after the other. *)
Theorem scheduler_queues_hold (config : SchedulerConfig) (d : D) (x : X) (ops : list SchedOp) :
  usize_config config ->
  let s := foldl (sched_step config) (new d x) ops in
  NoDup (queued s ++ running s)
  /\ within (max_queued_scans config) (length (queued s))
  /\ within (max_running_scans config) (length (running s)).
Proof. intros Hu s. destruct (history_ok config d x ops Hu) as [Hd Hq Hr]. done. Qed.

(** C11: When requests to start scans run concurrently, each in its sections between the
    locks, the bounds on queued and running scans still hold and no scan is queued twice. *)
Theorem concurrent_starts_bounded (config : SchedulerConfig) (d : D) (x : X) (p : Pool) :
  usize_config config -> rtc (pool_step config) (mkPool (new d x) []) p ->
  NoDup (queued (pool p))
  /\ within (max_queued_scans config) (length (queued (pool p)))
  /\ within (max_running_scans config) (length (running (pool p))).
Proof.
  intros Hu Hp. destruct (pool_steps_ok config _ _ Hu Hp (new_ok config false d x)) as [Hd Hq Hr].
  rewrite app_nil_r in Hd. done.
Qed.

(** A round of starts, when the database has the queued scans and the scanner takes them,
    moves as many scans as the capacity allows from the queue to the running ones: the most
    recently queued, newest first.  While a feed update is pending it does nothing. *)
Theorem round_starts_newest (config : SchedulerConfig) (s : Scheduler D X) :
  usize_config config -> sched_ok true config s ->
  accepting (X := X) -> Forall (known (db s)) (queued s) ->
  let n := if is_synchronizing_feed s then 0 else capacity config s in
  let s' := (coordinate_scans config s).2 in
  (coordinate_scans config s).1 = Ok tt
  /\ queued s' = take (length (queued s) - n) (queued s)
  /\ running s' = running s ++ rev (drop (length (queued s) - n) (queued s))
  /\ db s' = db s.
Proof.
  intros Hu Hok Ha Hk. rewrite (coordinate_amount config true s Hu Hok).
  destruct (is_synchronizing_feed s); simpl.
  - rewrite Nat.sub_0_r, take_ge, drop_ge, app_nil_r by lia. done.
  - by destruct (start_scans_known (capacity config s) s Ha Hk) as [x ->].
Qed.

(** A feed update that waits for running scans keeps the task that syncs scans from ever
    taking a step, so nothing but a client that stops or deletes one of these scans can let
    it go on: as long as none does, whatever the scanner reports and whatever is requested,
    the same scans count as running, no results are fetched and the update does not run. *)
Theorem feed_update_waits (config : SchedulerConfig) (es : list Event) (s1 s2 : System)
  (hash : list FeedHash) (r : list string) :
  sys_steps config es s1 s2 -> feed s1 = FeedWaiting hash -> running (sys s1) = r -> r <> [] ->
  Forall (fun e => takes r e = false) es ->
  feed s2 = FeedWaiting hash /\ running (sys s2) = r
  /\ Forall (fun e => e <> EvFeedFinish /\ e <> EvSyncScans) es.
Proof. intros Hs Hf Hr Hne He. exact (waiting_steps config es s1 s2 hash r Hs He Hne Hf Hr). Qed.
End Claims.

Section InmemoryClaims.
Context `{Cipher} `{Base64} `{ResultJson} `{HashOrder} `{AdvisoryOrder} `{HashSetOrder Nvt}.
Context {X : Type} `{ScanRunner X} `{DbErrorText} `{BuildProfile}.

(** A scan with an empty password is accepted and queued, but the next round of starts
    takes it from the queue, fails to read its credentials and forgets it: it is neither
    queued nor running, its status stays requested, and it can never be started again. *)
Theorem empty_secret_scan_lost feeds (config : SchedulerConfig) (s : Scheduler Inmemory.Storage X)
  (c : ScanModel) :
  let _ := inmemory_database feeds in
  Inmemory.scans (db s) !! scan_id c = None ->
  forallb nonempty (credentials (scan_target c) ≫= secrets) = false ->
  is_synchronizing_feed s = false -> scan_id c ∉ queued s -> scan_id c ∉ running s ->
  not_full config s -> usize_config config -> sched_ok true config s ->
  0 < capacity config (set_queued s (queued s ++ [scan_id c])) ->
  exists s1 s2 s3,
    insert_scan c s = (Ok tt, s1)
    /\ start_scan_by_id config (scan_id c) s1 = (Ok tt, s2)
    /\ coordinate_scans config s2 = (Err (SchedError.Storage DbError.Serialization), s3)
    /\ queued s3 = queued s /\ running s3 = running s
    /\ (Inmemory.get_status (scan_id c) (db s3)).1 = Ok requested
    /\ (start_scan_by_id config (scan_id c) s3).1 = Err SchedError.ScanAlreadyQueued.
Proof. exact (empty_secret_lost feeds config s c). Qed.

(** A scan that is stopped while it is queued leaves the queue, but its status stays
    requested, so that it can never be started. *)
Theorem stopped_scan_stuck feeds (config : SchedulerConfig) (s : Scheduler Inmemory.Storage X)
  (id : string) (p : Inmemory.Progress) (now : Z) (x : X) :
  let _ := inmemory_database feeds in
  Inmemory.scans (db s) !! id = Some p -> Inmemory.progress_status p = default_status ->
  id ∉ queued s -> id ∉ running s -> not_full config s -> NoDup (queued s) ->
  x_stop_scan id (scanner s) = (Ok tt, x) ->
  exists s1 s2,
    start_scan_by_id config id s = (Ok tt, s1)
    /\ stop_scan now id s1 = (Ok tt, s2)
    /\ queued s2 = queued s /\ running s2 = running s
    /\ (Inmemory.get_status id (db s2)).1 = Ok requested
    /\ (start_scan_by_id config id s2).1 = Err SchedError.ScanAlreadyQueued.
Proof. exact (stopped_queued_stuck feeds config s id p now x). Qed.
End InmemoryClaims.

(** ** Witnesses *)
Module Witness.
Import Example.

Definition pair_of_scans : list ScanModel := [with_password "a" "x"; with_password "b" "y"].
Definition queue_both : list SchedOp := [OpStart "a"; OpStart "b"].
Definition both_queued : Scheduler Inmemory.Storage unit :=
  foldl (sched_step two) (idle pair_of_scans) queue_both.

Lemma scheduler_queues_hold_witness :
  queued both_queued = ["a"; "b"]%string
  /\ within (max_queued_scans two) (length (queued both_queued)).
Proof.
  split; [vm_compute; reflexivity|].
  apply (scheduler_queues_hold two (stored_scans pair_of_scans) tt queue_both two_usize).
Defined.

Lemma both_queued_ok : sched_ok true two both_queued.
Proof. apply (history_ok two (stored_scans pair_of_scans) tt queue_both two_usize). Qed.

Lemma both_known : Forall (known (db both_queued)) (queued both_queued).
Proof. repeat constructor; eexists _, _; vm_compute; reflexivity. Qed.

Lemma round_starts_newest_witness :
  running (coordinate_scans two both_queued).2 = ["b"; "a"]%string.
Proof.
  etransitivity.
  - apply (round_starts_newest two both_queued two_usize both_queued_ok).
    + by intros c x.
    + exact both_known.
  - vm_compute. reflexivity.
Defined.

(** Two requests for the same scan: the second one passes the test of the status before the
    first one queues the scan, and queues it again after it was started. *)
Definition one_stored : Scheduler Inmemory.Storage unit := idle [with_password "a" "x"].
Definition raced : Scheduler Inmemory.Storage unit :=
  let s1 := (enqueue two "a" requested one_stored).2 in
  let s2 := (coordinate_scans two s1).2 in
  let s3 := (enqueue two "a" requested s2).2 in
  (coordinate_scans two s3).2.

Lemma request_reads_stored (s : Scheduler Inmemory.Storage unit) : s = one_stored ->
  requested_status "a" s = (Ok requested, s).
Proof. intros ->. vm_compute. reflexivity. Qed.

(** The second enqueue of a scan that runs, and the scanner is asked to start it twice. *)
Lemma concurrent_start_runs_twice : running raced = ["a"; "a"]%string.
Proof. vm_compute. reflexivity. Qed.

Definition raced_pool : Pool :=
  mkPool (enqueue two "a" requested (sched_step two (enqueue two "a" requested one_stored).2 OpSyncScans)).2 [].

Lemma raced_pool_reachable : rtc (pool_step two) (mkPool one_stored []) raced_pool.
Proof.
  eapply rtc_l; [apply (PoolCheck two "a"); vm_compute; reflexivity|].
  eapply rtc_l; [apply (PoolCheck two "a"); vm_compute; reflexivity|].
  eapply rtc_l; [apply (PoolStatus two "a" requested one_stored one_stored [] [("a"%string, None)]);
    apply request_reads_stored; reflexivity|].
  eapply rtc_l; [apply (PoolStatus two "a" requested one_stored one_stored [("a"%string, Some requested)] []);
    apply request_reads_stored; reflexivity|].
  eapply rtc_l; [apply (PoolEnqueue two "a" requested _ [] [("a"%string, Some requested)])|].
  eapply rtc_l; [apply (PoolWhole two OpSyncScans)|].
  eapply rtc_l; [apply (PoolEnqueue two "a" requested _ [] [])|]. reflexivity.
Qed.

Lemma concurrent_starts_bounded_witness :
  queued (pool raced_pool) = ["a"%string] /\ running (pool raced_pool) = ["a"%string]
  /\ NoDup (queued (pool raced_pool)).
Proof.
  split; [vm_compute; reflexivity|]. split; [vm_compute; reflexivity|].
  apply (concurrent_starts_bounded two (stored_scans [with_password "a" "x"]) tt raced_pool two_usize).
  exact raced_pool_reachable.
Defined.

(** A feed update waits for the scan that runs. *)
Definition waiting : System := mkSystem (set_running both_queued ["c"%string]) (FeedWaiting []).

Lemma feed_update_waits_witness : exists s2,
  sys_steps two [EvScanner tt; EvStart "b"] waiting s2 /\ feed s2 = FeedWaiting [].
Proof.
  eexists. split.
  - eapply SysMore; [apply SysScanner|]. eapply SysMore; [apply SysStart|]. apply SysDone.
  - apply (feed_update_waits two [EvScanner tt; EvStart "b"] waiting _ [] ["c"%string]).
    + eapply SysMore; [apply SysScanner|]. eapply SysMore; [apply SysStart|]. apply SysDone.
    + reflexivity.
    + reflexivity.
    + discriminate.
    + repeat constructor.
Defined.

Lemma empty_secret_scan_lost_witness : exists s3 : Scheduler Inmemory.Storage unit,
  queued s3 = [] /\ running s3 = []
  /\ (Inmemory.get_status "a" (db s3)).1 = Ok requested.
Proof.
  destruct (empty_secret_scan_lost (fun _ d => (Ok tt, d)) two (idle []) (with_password "a" ""))
    as (s1 & s2 & s3 & _ & _ & _ & Hq & Hr & Hs & _).
  - vm_compute. reflexivity.
  - reflexivity.
  - reflexivity.
  - apply not_elem_of_nil.
  - apply not_elem_of_nil.
  - vm_compute. lia.
  - exact two_usize.
  - apply new_ok.
  - vm_compute. lia.
  - exists s3. auto.
Defined.

Lemma stopped_scan_stuck_witness : exists s2 : Scheduler Inmemory.Storage unit,
  queued s2 = [] /\ (start_scan_by_id two "a" s2).1 = Err SchedError.ScanAlreadyQueued.
Proof.
  destruct (stopped_scan_stuck (fun _ d => (Ok tt, d)) two one_stored "a"
    (default (Inmemory.mkProgress (with_password "a" "x") default_status [])
       (Inmemory.scans (stored_scans [with_password "a" "x"]) !! "a"%string)) 0 tt)
    as (s1 & s2 & _ & _ & Hq & _ & _ & Hs).
  - vm_compute. reflexivity.
  - vm_compute. reflexivity.
  - apply not_elem_of_nil.
  - apply not_elem_of_nil.
  - vm_compute. lia.
  - constructor.
  - reflexivity.
  - exists s2. auto.
Defined.
End Witness.
