(* ===== verification/FileScans.v ===== *)
(** * The scans of the daemon on disk ([openvasd/storage/file.rs])

    Scans, their status, their results and the clients they belong to are records of an
    indexed byte storage, as JSON; tests and knowledge base items stay in memory.  The storage
    is behind a lock: a panic of a writer poisons it, and every later use panics.  A blocking
    task that panics panics its caller.  Results are read while they are sent; they are taken
    here at once. *)

From S2P Require Import Prelude RustStr Token Statement NaslValue Errors Nvt Storage Models HostInfo Crypt ScanStore Files FileStore Scheduler.
Local Open Scope string_scope.

(** [Display] of the kinds of input and output errors. *)
Class IoErrorText := { io_kind_text : IoError.kind -> string }.

Definition io_text (k : StoreError.IoErrorKind) : string :=
  match k with
  | StoreError.CreateBaseDir => "Could not create base directory."
  | StoreError.FileOpen => "Could not open file."
  | StoreError.Write => "Could not write to file."
  | StoreError.Read => "Could not read from file."
  | StoreError.Remove => "Could not remove file."
  | StoreError.Seek => "Could not seek in file."
  end.

Definition store_error_text `{IoErrorText} (e : StoreError.t) : string :=
  match e with
  | IoErr k e => "IO Error. " ++ io_text k ++ ". " ++ io_kind_text e
  | StoreError.Serialize => "Could not serialize index"
  end.

(** [From<infisto::Error> for Error] and [Display for Error] *)
Definition db_error_of `{IoErrorText} (e : StoreError.t) : DbError.t := DbError.Storage (inr (store_error_text e)).

(** ** [slice::sort] and [Vec::dedup] on texts *)
Definition string_before (a b : string) : bool :=
  match String.compare a b with Lt => true | _ => false end.
Fixpoint insert_string (x : string) (l : list string) : list string :=
  match l with
  | [] => [x]
  | y :: l' => if string_before x y then x :: l else y :: insert_string x l'
  end.
Definition sort_strings (l : list string) : list string := foldl (fun acc x => insert_string x acc) [] l.
Fixpoint dedup (l : list string) : list string :=
  match l with
  | x :: (y :: _) as l' => if decide (x = y) then dedup l' else x :: dedup l'
  | _ => l
  end.

(** ** The store *)
Record FileScans (S : Type) := mkFileScans {
  fs_storage : S; fs_poisoned : bool; fs_underlying : Inmemory.Storage
}.
Arguments mkFileScans {S}.
Arguments fs_storage {S}.
Arguments fs_poisoned {S}.
Arguments fs_underlying {S}.

Section FileScans.
Context {S : Type} `{IndexedByteStorage S} `{IoErrorText}.
Context `{Json ScanModel} `{Json Status} `{Json ScanResult} `{Json string} `{Json (ClientHash * string)}.

Abbreviation D := (M (FileScans S) DbError.t).

Definition file_new (s : S) (feeds : list FeedHash) : FileScans S :=
  mkFileScans s false (Inmemory.new feeds).

(** Code under the read lock or the write lock. *)
Definition reading {E A} (m : M S E A) : M (FileScans S) E A := fun s =>
  if fs_poisoned s then (Panic, s)
  else let '(o, x) := m (fs_storage s) in (o, mkFileScans x false (fs_underlying s)).
Definition writing {E A} (m : M S E A) : M (FileScans S) E A := fun s =>
  if fs_poisoned s then (Panic, s)
  else let '(o, x) := m (fs_storage s) in
       (o, mkFileScans x (match o with Panic => true | _ => false end) (fs_underlying s)).

(** [?] on an error of the byte storage *)
Definition stored_call {A} (m : M S StoreError.t A) : M S DbError.t A := err_into db_error_of m.

Definition scan_key (id : string) : string := "scan_" ++ id.
Definition status_key (id : string) : string := "status_" ++ id.
Definition results_key (id : string) : string := "results_" ++ id.

(** [Serialization::serialize(x)?] as bytes *)
Definition serialized {X A} `{Json A} (x : A) : M X StoreError.t (list byte) :=
  s ← of_outcome (serialize x); mret (serialization_bytes s).
Definition bytes_of {A} `{Json A} (x : A) : D (list byte) := err_into db_error_of (serialized x).

(** *** [ProgressGetter] *)
Definition results_range (from to : option nat) : Range :=
  match from, to with
  | None, None => All
  | None, Some to => Until to
  | Some from, None => From from
  | Some from, Some to => Between from to
  end.

Definition get_results_sync (id : string) (from to : option nat) : D (list (list byte)) :=
  reading (
    indices ← stored_call (iterator_by_range (results_key id) (results_range from to));
    items ← stored_call (iterate Some (results_key id) indices);
    mret (omap (fun x => match x with inl r => Some r | inr _ => None end) items)).

(** [Vec::first] of values read back *)
Definition first_value {A} (l : list (Serialization A)) : M S DbError.t A :=
  match head l with
  | Some (Deserialized x) => mret x
  | Some (Serialized _) => throw DbError.Serialization
  | None => throw DbError.NotFound
  end.

(** Both files are read before either is looked at. *)
Definition file_get_scan (id : string) : D (ScanModel * Status) :=
  reading (
    scans ← stored_call (by_range serialization_try_from (scan_key id) All);
    status ← stored_call (by_range serialization_try_from (status_key id) All);
    scan ← first_value scans;
    status ← first_value status;
    mret (scan, status)).

Definition file_get_decrypted_scan (id : string) : D (ScanModel * Status) := file_get_scan id.

Definition file_get_scan_ids : D (list string) :=
  reading (
    r ← err_into db_error_of (attempt (by_range serialization_try_from "scans" All));
    scans ← match r with
            | inl s => mret s
            | inr e => if not_found e then mret [] else throw (db_error_of e)
            end;
    mret (dedup (sort_strings
      (omap (fun x => match x with Deserialized x => Some x | Serialized _ => None end) scans)))).

Definition file_get_status (id : string) : D Status :=
  reading (
    status ← stored_call (by_range serialization_try_from (status_key id) All);
    first_value status).

Definition file_get_results (id : string) (from to : option nat) : D (list (list byte)) :=
  get_results_sync id from to.

(** *** [ScanStorer] *)
Definition file_update_status (id : string) (st : Status) : D unit :=
  b ← bytes_of st;
  writing (stored_call (ibs_put (status_key id) b)).

Definition file_insert_scan (sp : ScanModel) : D unit :=
  let id := scan_id sp in
  scan ← bytes_of sp;
  status ← bytes_of default_status;
  writing (stored_call (
    ibs_put (scan_key id) scan ;;
    ibs_put (status_key id) status ;;
    stored_key ← serialized id;
    ibs_append "scans" stored_key)).

(** The blocking task of [remove_scan]: an error of the results is ignored. *)
Definition remove_files (id : string) (ids : list (list byte)) : M S StoreError.t unit :=
  attempt (ibs_remove (results_key id)) ;;
  ibs_remove (scan_key id) ;;
  ibs_remove (status_key id) ;;
  ibs_remove "scans" ;;
  ibs_append_all "scans" ids.

Definition file_remove_scan (id : string) : D unit :=
  ids ← file_get_scan_ids;
  let ids := omap json_to_vec (List.filter (fun x => negb (bool_decide (x = id))) ids) in
  writing (stored_call (remove_files id ids)).

(** *** [AppendFetchResult] *)

(** The number of results that are there. *)
Definition stored_results {E} (key : string) : M S E nat := fun s =>
  match ibs_indices key s with
  | (Ok x, s') => (Ok (length x), s')
  | (Err _, s') => (Ok 0%nat, s')
  | (Panic, s') => (Panic, s')
  | (OutOfFuel, s') => (OutOfFuel, s')
  end.

(** Results with their numbers from [i] on, as JSON; [e] is the error of one that has none. *)
Fixpoint numbered {E} (e : E) (i : nat) (l : list ScanResult) : M S E (list (list byte)) :=
  match l with
  | [] => mret []
  | r :: l' =>
      b ← ok_or (json_to_vec (set_result_id r i)) e;
      bs ← numbered e (Datatypes.S i) l';
      mret (b :: bs)
  end.

Fixpoint file_append_fetched_result (l : list ScanResults) : D unit :=
  match l with
  | [] => mret tt
  | r :: l' =>
      file_update_status (sr_id r) (sr_status r) ;;
      (match sr_results r with
       | [] => mret tt
       | results =>
           let key := results_key (sr_id r) in
           writing (
             ilen ← stored_results key;
             bs ← numbered DbError.Serialization ilen results;
             stored_call (ibs_append_all key bs))
       end) ;;
      file_append_fetched_result l'
  end.

(** *** [ScanIDClientMapper] *)
Definition file_add_scan_client_id (sid : string) (cid : ClientHash) : D unit :=
  idt ← bytes_of (cid, sid);
  writing (stored_call (ibs_append "idmap" idt)).

(** The pairs that could be read. *)
Definition read_pairs (l : list (Serialization (ClientHash * string))) : list (ClientHash * string) :=
  omap (fun x => match deserialize x with Ok p => Some p | _ => None end) l.

Definition file_remove_scan_id (sid : string) : D unit :=
  writing (stored_call (
    ids ← by_range serialization_try_from "idmap" All;
    let new := omap json_to_vec (List.filter (fun p => negb (bool_decide (p.2 = sid))) (read_pairs ids)) in
    ibs_remove "idmap" ;;
    ibs_append_all "idmap" new)).

(** [unwrap_or_default]: an error is no entry. *)
Definition file_get_scans_of_client_id (cid : ClientHash) : D (list string) :=
  reading (
    r ← err_into db_error_of (attempt (by_range serialization_try_from "idmap" All));
    mret (List.filter (fun p => bool_decide (p.1 = cid))
            (read_pairs (match r with inl ids => ids | inr _ => [] end))).*2).

Definition file_is_client_allowed (sid : string) (cid : ClientHash) : D bool :=
  ids ← file_get_scans_of_client_id cid;
  mret (bool_decide (sid ∈ ids)).

(** *** [NVTStorer]: in memory, but the version is not implemented. *)
Definition on_memory {E A} (m : M Inmemory.Storage E A) : M (FileScans S) E A := fun s =>
  let '(o, u) := m (fs_underlying s) in (o, mkFileScans (fs_storage s) (fs_poisoned s) u).

Definition file_current_feed_version : D string := panic.

Definition file_database `{HashOrder} `{AdvisoryOrder} `{HashSetOrder Nvt}
  (feeds : list FeedHash -> M DefaultDispatcher DbError.t unit) : Database (FileScans S) := {|
  db_insert_scan := file_insert_scan;
  db_remove_scan := file_remove_scan;
  db_update_status := file_update_status;
  db_append_fetched_result := file_append_fetched_result;
  db_get_scan := file_get_scan;
  db_get_decrypted_scan := file_get_decrypted_scan;
  db_get_status := file_get_status;
  db_get_results := file_get_results;
  db_add_scan_client_id := file_add_scan_client_id;
  db_remove_scan_id := file_remove_scan_id;
  db_get_scans_of_client_id := file_get_scans_of_client_id;
  db_is_client_allowed := file_is_client_allowed;
  db_synchronize_feeds := fun hash => on_memory (Inmemory.synchronize_feeds feeds hash);
  db_current_feed_version := file_current_feed_version;
  db_feed_hash := on_memory Inmemory.feed_hash;
  db_vts := on_memory Inmemory.vts
|}.

(** *** [ResultHandler]

    The text of a JSON error is left out. *)
Definition file_handle_result (key : ContextKey) (r : ScanResult) : M (FileScans S) StorageError.t unit :=
  let k := results_key (key_ref key) in
  writing (
    ilen ← stored_results k;
    bs ← numbered (StorageError.UnexpectedData "Unable to serialize results: ") ilen [r];
    err_into (fun e => StorageError.Dirty ("Unable to store to disk: " ++ store_error_text e)) (ibs_append_all k bs)).

(** [Display for StorageError] and [Display for Error] *)
Definition storage_error_text (e : StorageError.t) : string :=
  match e with
  | StorageError.Retry t => "There was a temporary issue while reading: " ++ t
  | StorageError.RetryExhausted => "Retries exhausted"
  | StorageError.ConnectionLost t => "Connection lost: " ++ t
  | StorageError.UnexpectedData t => "Unexpected data: " ++ t
  | StorageError.Dirty t => "Unexpected issue: " ++ t
  | StorageError.NotFound t => "Not found: " ++ t
  end.
Definition db_error_text (e : DbError.t) : string :=
  match e with
  | DbError.NotFound => "not found"
  | DbError.Serialization => "serialization error"
  | DbError.Storage (inr t) => "storage error: " ++ t
  | DbError.Storage (inl e) => "storage error: " ++ storage_error_text e
  end.

(** A single result is not removed. *)
Definition file_remove_result `{BuildProfile} (key : ContextKey) (idx : option nat) :
  M (FileScans S) StorageError.t (list ScanResult) :=
  to ← match idx with
       | Some x => z ← or_panic (arith_u 64 (Z.of_nat x + 1)); mret (Some (Z.to_nat z))
       | None => mret None
       end;
  l ← err_into (fun e => StorageError.Dirty (db_error_text e)) (get_results_sync (key_ref key) idx to);
  let deleted := omap json_from_slice l in
  (match idx with
   | Some _ => mret tt
   | None =>
       let k := results_key (key_ref key) in
       writing (err_into (fun _ => StorageError.NotFound k) (ibs_remove k))
   end) ;;
  mret deleted.
End FileScans.
