(* ===== verification/FileScansProps.v ===== *)
(** * What the daemon keeps on disk

    On a byte storage that keeps its laws, the store of scans on disk refines a record of
    maps: scans, status, results, the list of identifiers and the list of clients.  The
    places where it differs from the store in memory, and a feed update over it. *)

From S2P Require Import Prelude RustStr Token Statement NaslValue Errors Nvt Storage Models HostInfo Crypt ScanStore DaemonInstances Files FileStore FileStoreProps Scheduler FileScans.
Local Open Scope string_scope.

(** ** The abstract store *)
Record ScansSpec := mkSpec {
  sp_scans : gmap string ScanModel;
  sp_status : gmap string Status;
  sp_results : gmap string (list ScanResult);
  sp_ids : option (list string);
  sp_clients : option (list (ClientHash * string))
}.
Definition empty_spec : ScansSpec := mkSpec ∅ ∅ ∅ None None.

Definition set_sp_scans a x := mkSpec x (sp_status a) (sp_results a) (sp_ids a) (sp_clients a).
Definition set_sp_status a x := mkSpec (sp_scans a) x (sp_results a) (sp_ids a) (sp_clients a).
Definition set_sp_results a x := mkSpec (sp_scans a) (sp_status a) x (sp_ids a) (sp_clients a).
Definition set_sp_ids a x := mkSpec (sp_scans a) (sp_status a) (sp_results a) x (sp_clients a).
Definition set_sp_clients a x := mkSpec (sp_scans a) (sp_status a) (sp_results a) (sp_ids a) x.

(** Appending to a list that is absent while it is empty. *)
Definition extend {A} (o : option (list A)) (l : list A) : option (list A) :=
  match l with [] => o | _ => Some (default [] o ++ l)%list end.

(** Results with numbers from [i] on. *)
Fixpoint renumber (i : nat) (l : list ScanResult) : list ScanResult :=
  match l with [] => [] | r :: l' => set_result_id r i :: renumber (S i) l' end.

Section Refinement.
Context {X : Type} `{ByteStoreLaws X} (any_append : bs_any_append = true) `{IoErrorText}.
Context `{Json ScanModel} `{Json Status} `{Json ScanResult} `{Json string} `{Json (ClientHash * string)}.
Context (scans_written : forall x : ScanModel, is_Some (json_to_vec x))
  (status_written : forall x : Status, is_Some (json_to_vec x))
  (results_written : forall x : ScanResult, is_Some (json_to_vec x))
  (ids_written : forall x : string, is_Some (json_to_vec x))
  (clients_written : forall x : ClientHash * string, is_Some (json_to_vec x)).

Definition enc {A} `{Json A} (x : A) : list byte := default [] (json_to_vec x).

Lemma enc_spec {A} `{Json A} (x : A) : is_Some (json_to_vec x) -> json_to_vec x = Some (enc x).
Proof. intros [b Hb]. unfold enc. by rewrite Hb. Qed.

Lemma enc_back {A} `{Json A} (l : list A) : (forall x : A, is_Some (json_to_vec x)) ->
  mapM serialization_try_from (map enc l) = Some (map Deserialized l).
Proof.
  intros Hw. induction l as [|x l IH]; [done|]. cbn [map mapM].
  assert (serialization_try_from (enc x) = Some (Deserialized x)) as ->.
  { unfold serialization_try_from. by rewrite (json_roundtrip x (enc x) (enc_spec x (Hw x))). }
  simpl. by rewrite IH.
Qed.

(** The places of the store: their keys and their records. *)
Inductive slot : Type := SScan (id : string) | SStatus (id : string) | SResults (id : string) | SIds | SClients.
#[local] Instance slot_eq_dec : EqDecision slot.
Proof. solve_decision. Defined.

Definition key_of (l : slot) : string :=
  match l with
  | SScan id => scan_key id | SStatus id => status_key id | SResults id => results_key id
  | SIds => "scans" | SClients => "idmap"
  end.
Definition records_of (a : ScansSpec) (l : slot) : option (list (list byte)) :=
  match l with
  | SScan id => (fun x => [enc x]) <$> sp_scans a !! id
  | SStatus id => (fun x => [enc x]) <$> sp_status a !! id
  | SResults id => map enc <$> sp_results a !! id
  | SIds => map enc <$> sp_ids a
  | SClients => map enc <$> sp_clients a
  end.

Lemma key_of_inj l l' : key_of l = key_of l' -> l = l'.
Proof. destruct l, l'; simpl; try discriminate; try done; by intros ->%(inj (String.append _)). Qed.

(** Identifiers that can be part of the name of a file *)
Definition slot_safe (l : slot) : bool :=
  match l with SScan id | SStatus id | SResults id => safe_key id | SIds | SClients => true end.
Lemma key_of_safe l : slot_safe l -> safe_key (key_of l).
Proof. by destruct l. Qed.

Definition coded (m : kept) (a : ScansSpec) : Prop := forall l, slot_safe l -> m !! key_of l = records_of a l.

Definition file_holds (s : FileScans X) (a : ScansSpec) : Prop :=
  fs_poisoned s = false /\ exists m, bs_holds (fs_storage s) m /\ coded m a.

(** A change of one place. *)
Definition changes (a a' : ScansSpec) (l : slot) (r : option (list (list byte))) : Prop :=
  records_of a' l = r /\ forall l', l <> l' -> records_of a' l' = records_of a l'.

Lemma coded_insert m a a' l r : coded m a -> changes a a' l (Some r) -> coded (<[key_of l := r]> m) a'.
Proof.
  intros Hm [Hl Ho] l' Hl'. destruct (decide (l = l')) as [<-|Hne]; [by rewrite lookup_insert_eq|].
  rewrite lookup_insert_ne by (by intros ?%key_of_inj). by rewrite Hm, Ho.
Qed.

Lemma coded_delete m a a' l : coded m a -> changes a a' l None -> coded (delete (key_of l) m) a'.
Proof.
  intros Hm [Hl Ho] l' Hl'. destruct (decide (l = l')) as [<-|Hne]; [by rewrite lookup_delete_eq|].
  rewrite lookup_delete_ne by (by intros ?%key_of_inj). by rewrite Hm, Ho.
Qed.

Ltac change_map :=
  split; simpl; [by rewrite ?lookup_insert_eq, ?lookup_delete_eq|];
  intros [] ?; simpl; try done; (rewrite lookup_insert_ne || rewrite lookup_delete_ne); congruence.

Lemma change_scan a id x : changes a (set_sp_scans a (<[id := x]> (sp_scans a))) (SScan id) (Some [enc x]).
Proof. change_map. Qed.
Lemma change_status a id x : changes a (set_sp_status a (<[id := x]> (sp_status a))) (SStatus id) (Some [enc x]).
Proof. change_map. Qed.
Lemma change_results a id x : changes a (set_sp_results a (<[id := x]> (sp_results a))) (SResults id) (Some (map enc x)).
Proof. change_map. Qed.
Lemma drop_scan a id : changes a (set_sp_scans a (delete id (sp_scans a))) (SScan id) None.
Proof. change_map. Qed.
Lemma drop_status a id : changes a (set_sp_status a (delete id (sp_status a))) (SStatus id) None.
Proof. change_map. Qed.
Lemma drop_results a id : changes a (set_sp_results a (delete id (sp_results a))) (SResults id) None.
Proof. change_map. Qed.
Lemma change_ids a o : changes a (set_sp_ids a o) SIds (map enc <$> o).
Proof. split; [done|]. by intros [] ?. Qed.
Lemma change_clients a o : changes a (set_sp_clients a o) SClients (map enc <$> o).
Proof. split; [done|]. by intros [] ?. Qed.

Lemma extend_map {A B} (f : A -> B) (o : option (list A)) l : extend (map f <$> o) (map f l) = map f <$> extend o l.
Proof. destruct l as [|x l]; [done|]. simpl. f_equal. rewrite map_app. by destruct o. Qed.

Lemma change_ids_again a o l :
  changes (set_sp_ids a o) (set_sp_ids a (extend o l)) SIds (extend (map enc <$> o) (map enc l)).
Proof. split; [symmetry; apply extend_map|]. by intros [] ?. Qed.

(** *** Calls of the byte storage *)
Definition holds (s : X) (a : ScansSpec) : Prop := exists m, bs_holds s m /\ coded m a.

Lemma put_slot s a a' l r : holds s a -> slot_safe l -> changes a a' l (Some [r]) ->
  exists s', ibs_put (key_of l) r s = (Ok tt, s') /\ holds s' a'.
Proof.
  intros (m & Hs & Hm) Hl0 Hc. destruct (bs_put_ok s m (key_of l) r Hs (key_of_safe l Hl0)) as (s' & E & Hs').
  exists s'. split; [done|]. eexists. split; [done|]. by eapply coded_insert.
Qed.

Lemma append_slot s a a' l ds : holds s a -> slot_safe l -> changes a a' l (extend (records_of a l) ds) ->
  exists s', ibs_append_all (key_of l) ds s = (Ok tt, s') /\ holds s' a'.
Proof.
  intros (m & Hs & Hm) Hl0 Hc.
  destruct (bs_append_ok s m (key_of l) ds Hs (key_of_safe l Hl0) (or_introl any_append)) as (s' & E & Hs').
  exists s'. split; [done|]. eexists. split; [done|]. unfold spec_append. destruct ds as [|d ds].
  - intros l' Hl'. destruct Hc as [Hl Ho]. destruct (decide (l = l')) as [<-|]; [by rewrite Hl, Hm|by rewrite Ho, Hm].
  - rewrite (Hm l Hl0). by eapply coded_insert.
Qed.

Lemma remove_slot s a a' l : holds s a -> slot_safe l -> changes a a' l None ->
  exists s', ibs_remove (key_of l) s
    = (if records_of a l is Some _ then Ok tt else Err (IoErr StoreError.Remove IoError.NotFound), s')
  /\ holds s' a'.
Proof.
  intros (m & Hs & Hm) Hl0 Hc. destruct (bs_remove_ok s m (key_of l) Hs (key_of_safe l Hl0)) as (s' & E & Hs').
  exists s'. rewrite (Hm l Hl0) in E. split; [done|]. eexists. split; [done|]. by eapply coded_delete.
Qed.

Lemma read_slot {A} `{Json A} s a l (o : option (list A)) : holds s a -> slot_safe l -> (forall x : A, is_Some (json_to_vec x)) ->
  records_of a l = map enc <$> o ->
  by_range serialization_try_from (key_of l) All s
  = (if o is Some x then Ok (map Deserialized x) else Err absent_error, s).
Proof.
  intros (m & Hs & Hm) Hl0 Hw Hr. specialize (Hm l Hl0). rewrite Hr in Hm. destruct o as [x|]; simpl in Hm.
  - eapply (by_range_ok _ s m); [done|by apply key_of_safe|exact Hm|done|]. by apply enc_back.
  - by apply (by_range_absent _ s m); [|apply key_of_safe|].
Qed.

(** *** The operations and their specification *)
Inductive scan_op : Type :=
| InsertScan (sp : ScanModel) | RemoveScan (id : string) | UpdateStatus (id : string) (st : Status)
| AppendFetched (l : list ScanResults) | GetScan (id : string) | GetScanIds | GetStatus (id : string)
| GetResults (id : string) (from to : option nat)
| AddClient (sid : string) (cid : ClientHash) | RemoveClient (sid : string) | ScansOfClient (cid : ClientHash).

Inductive reply : Type :=
| RUnit | RScan (c : ScanModel) (st : Status) | RStatus (st : Status) | RIds (l : list string)
| RResults (l : list (list byte)).

Definition run_scan_op (o : scan_op) : M (FileScans X) DbError.t reply :=
  match o with
  | InsertScan sp => file_insert_scan sp ;; mret RUnit
  | RemoveScan id => file_remove_scan id ;; mret RUnit
  | UpdateStatus id st => file_update_status id st ;; mret RUnit
  | AppendFetched l => file_append_fetched_result l ;; mret RUnit
  | GetScan id => '(c, st) ← file_get_scan id; mret (RScan c st)
  | GetScanIds => l ← file_get_scan_ids; mret (RIds l)
  | GetStatus id => st ← file_get_status id; mret (RStatus st)
  | GetResults id from to => l ← file_get_results id from to; mret (RResults l)
  | AddClient sid cid => file_add_scan_client_id sid cid ;; mret RUnit
  | RemoveClient sid => file_remove_scan_id sid ;; mret RUnit
  | ScansOfClient cid => l ← file_get_scans_of_client_id cid; mret (RIds l)
  end.

Definition absent : DbError.t := db_error_of absent_error.
Definition gone : DbError.t := db_error_of (IoErr StoreError.Remove IoError.NotFound).

Definition spec_fetched (a : ScansSpec) (r : ScanResults) : ScansSpec :=
  let a := set_sp_status a (<[sr_id r := sr_status r]> (sp_status a)) in
  match sr_results r with
  | [] => a
  | l =>
      let old := default [] (sp_results a !! sr_id r) in
      set_sp_results a (<[sr_id r := (old ++ renumber (length old) l)%list]> (sp_results a))
  end.

(** A removal goes on until a file is missing. *)
Definition spec_remove_files (id : string) (new : list string) (a : ScansSpec) :
  outcome StoreError.t unit * ScansSpec :=
  let a1 := set_sp_results a (delete id (sp_results a)) in
  let a2 := set_sp_scans a1 (delete id (sp_scans a1)) in
  let a3 := set_sp_status a2 (delete id (sp_status a2)) in
  let missing := Err (IoErr StoreError.Remove IoError.NotFound) in
  match sp_scans a !! id, sp_status a !! id, sp_ids a with
  | None, _, _ => (missing, a2)
  | _, None, _ => (missing, a3)
  | _, _, None => (missing, set_sp_ids a3 None)
  | _, _, Some _ => (Ok tt, set_sp_ids a3 (extend None new))
  end.

Definition spec_remove (id : string) (a : ScansSpec) : outcome DbError.t reply * ScansSpec :=
  let new := List.filter (fun x => negb (bool_decide (x = id))) (dedup (sort_strings (default [] (sp_ids a)))) in
  let '(o, a') := spec_remove_files id new a in
  (match o with Ok _ => Ok RUnit | _ => Err gone end, a').

Definition spec_scan_op (o : scan_op) (a : ScansSpec) : outcome DbError.t reply * ScansSpec :=
  match o with
  | InsertScan sp =>
      let a := set_sp_scans a (<[scan_id sp := sp]> (sp_scans a)) in
      let a := set_sp_status a (<[scan_id sp := default_status]> (sp_status a)) in
      (Ok RUnit, set_sp_ids a (extend (sp_ids a) [scan_id sp]))
  | RemoveScan id => spec_remove id a
  | UpdateStatus id st => (Ok RUnit, set_sp_status a (<[id := st]> (sp_status a)))
  | AppendFetched l => (Ok RUnit, foldl spec_fetched a l)
  | GetScan id =>
      (match sp_scans a !! id, sp_status a !! id with
       | Some c, Some st => Ok (RScan c st)
       | _, _ => Err absent
       end, a)
  | GetScanIds => (Ok (RIds (dedup (sort_strings (default [] (sp_ids a))))), a)
  | GetStatus id => (if sp_status a !! id is Some st then Ok (RStatus st) else Err absent, a)
  | GetResults id from to =>
      (if range_filter (results_range from to) (default [] (sp_results a !! id)) is Some l
       then Ok (RResults (map enc l)) else Panic, a)
  | AddClient sid cid => (Ok RUnit, set_sp_clients a (extend (sp_clients a) [(cid, sid)]))
  | RemoveClient sid =>
      match sp_clients a with
      | None => (Err absent, a)
      | Some l =>
          (Ok RUnit, set_sp_clients a (extend None (List.filter (fun p => negb (bool_decide (p.2 = sid))) l)))
      end
  | ScansOfClient cid =>
      (Ok (RIds (List.filter (fun p => bool_decide (p.1 = cid)) (default [] (sp_clients a))).*2), a)
  end.

Lemma omap_enc {A} `{Json A} (l : list A) : (forall x : A, is_Some (json_to_vec x)) -> omap json_to_vec l = map enc l.
Proof. intros Hw. induction l as [|x l IH]; [done|]. simpl. rewrite (enc_spec x) by done. simpl. f_equal. exact IH. Qed.

(** *** Under the locks *)
Lemma reading_run {E A} (m : M X E A) s a o : file_holds s a -> m (fs_storage s) = (o, fs_storage s) ->
  reading m s = (o, s).
Proof. intros [Hp _] Em. unfold reading. rewrite Hp, Em. by destruct s as [x p u]; simpl in *; subst. Qed.

Lemma writing_run {E A} (m : M X E A) s o x a : fs_poisoned s = false -> m (fs_storage s) = (o, x) ->
  o <> Panic -> holds x a -> exists s', writing m s = (o, s') /\ file_holds s' a.
Proof.
  intros Hp Em Ho Hx. unfold writing. rewrite Hp, Em. eexists. split; [done|]. split; [|done].
  by destruct o.
Qed.

Lemma bytes_of_run {A} `{Json A} (x : A) (s : FileScans X) : is_Some (json_to_vec x) -> bytes_of x s = (Ok (enc x), s).
Proof.
  intros Hx. unfold bytes_of, err_into, serialized, mbind, M_bind, of_outcome, serialize. by rewrite (enc_spec x Hx).
Qed.

Lemma fst_holds s a : file_holds s a -> holds (fs_storage s) a.
Proof. by intros [_ ?]. Qed.

(** *** Writing *)
Lemma run_update_status s a id st : file_holds s a -> safe_key id ->
  exists s', file_update_status id st s = (Ok tt, s')
  /\ file_holds s' (set_sp_status a (<[id := st]> (sp_status a))).
Proof.
  intros Hs Hid. unfold file_update_status, mbind, M_bind. rewrite bytes_of_run by done.
  destruct (put_slot (fs_storage s) a _ (SStatus id) (enc st) (fst_holds _ _ Hs) Hid (change_status _ _ _)) as (x & E & Hx).
  eapply writing_run; [apply Hs| |done|exact Hx]. unfold stored_call, err_into. simpl in E. by rewrite E.
Qed.

Lemma run_insert_scan s a sp : file_holds s a -> safe_key (scan_id sp) ->
  exists s', file_insert_scan sp s = (Ok tt, s') /\ file_holds s' (spec_scan_op (InsertScan sp) a).2.
Proof.
  intros Hs Hid. unfold file_insert_scan, mbind, M_bind. rewrite !bytes_of_run by done.
  destruct (put_slot (fs_storage s) a _ (SScan (scan_id sp)) (enc sp) (fst_holds _ _ Hs) Hid (change_scan _ _ _)) as (x1 & E1 & Hx1).
  destruct (put_slot x1 _ _ (SStatus (scan_id sp)) (enc default_status) Hx1 Hid (change_status _ _ _)) as (x2 & E2 & Hx2).
  set (a2 := set_sp_status _ _) in Hx2.
  destruct (append_slot x2 a2 (set_sp_ids a2 (extend (sp_ids a2) [scan_id sp])) SIds [enc (scan_id sp)] Hx2 I) as (x3 & E3 & Hx3).
  { split; [exact (eq_sym (extend_map enc (sp_ids a2) [scan_id sp]))|]. by intros [] ?. }
  eapply writing_run; [apply Hs| |done|exact Hx3].
  unfold stored_call, err_into, ibs_append, serialized, of_outcome, serialize, mbind, M_bind. simpl in E1, E2, E3.
  rewrite E1, E2, (enc_spec (scan_id sp)) by done. simpl. by rewrite E3.
Qed.

Lemma run_numbered {E} (e : E) (x : X) l i : numbered e i l x = (Ok (map enc (renumber i l)), x).
Proof.
  revert i. induction l as [|r l IH]; intros i; [done|]. cbn [numbered renumber map]. unfold mbind, M_bind.
  rewrite (enc_spec (set_result_id r i)) by done. simpl. by rewrite IH.
Qed.

Lemma run_stored_results {E} s a id : holds s a -> safe_key id ->
  stored_results (E := E) (results_key id) s = (Ok (length (default [] (sp_results a !! id))), s).
Proof.
  intros (m & Hs & Hm) Hid. specialize (Hm (SResults id) Hid). simpl in Hm. unfold stored_results.
  destruct (sp_results a !! id) as [l|]; simpl in Hm.
  - destruct (bs_read s m (results_key id) (map enc l) Hs (key_of_safe (SResults id) Hid) Hm) as (idx & -> & Hl & _).
    by rewrite Hl, length_map.
  - by rewrite (bs_absent s m (results_key id) Hs (key_of_safe (SResults id) Hid) Hm).
Qed.

(** Results joined to those of a scan. *)
Lemma run_append_results {E} (f : StoreError.t -> E) (e : E) s a id l : file_holds s a -> safe_key id -> l <> [] ->
  let old := default [] (sp_results a !! id) in
  exists s', writing (ilen ← stored_results (results_key id); bs ← numbered e ilen l;
                      err_into f (ibs_append_all (results_key id) bs)) s = (Ok tt, s')
  /\ file_holds s' (set_sp_results a (<[id := (old ++ renumber (length old) l)%list]> (sp_results a))).
Proof.
  intros Hs Hid Hl old. set (a' := set_sp_results _ _).
  destruct (append_slot (fs_storage s) a a' (SResults id) (map enc (renumber (length old) l)) (fst_holds _ _ Hs) Hid)
    as (x & Ex & Hx).
  { destruct (change_results a id (old ++ renumber (length old) l)) as [Hr Ho]. split; [|done].
    unfold a'. rewrite Hr, map_app. simpl. unfold old.
    destruct l as [|r l]; [done|]. simpl. by destruct (sp_results a !! id). }
  eapply writing_run; [apply Hs| |done|exact Hx]. unfold mbind, M_bind.
  rewrite (run_stored_results _ a id (fst_holds _ _ Hs) Hid). fold old. rewrite run_numbered. unfold err_into. simpl in Ex.
  by rewrite Ex.
Qed.

Lemma run_append_fetched l : forall s a, file_holds s a -> Forall (fun r => safe_key (sr_id r)) l ->
  exists s', file_append_fetched_result l s = (Ok tt, s') /\ file_holds s' (foldl spec_fetched a l).
Proof.
  induction l as [|r l IH]; intros s a Hs Hids; [by exists s|]. apply Forall_cons in Hids as [Hid Hids]. cbn [file_append_fetched_result foldl].
  destruct (run_update_status s a (sr_id r) (sr_status r) Hs Hid) as (s1 & Es & Hs1).
  unfold mbind, M_bind. rewrite Es. destruct (sr_results r) as [|x rs] eqn:Er.
  { apply IH; [|done]. simpl in Hs1. unfold spec_fetched. rewrite Er. exact Hs1. }
  destruct (run_append_results db_error_of DbError.Serialization s1 _ (sr_id r) (x :: rs) Hs1 Hid) as (s2 & E2 & Hs2); [done|].
  unfold mbind, M_bind in E2. unfold stored_call. rewrite E2. apply IH; [|done].
  unfold spec_fetched. rewrite Er. exact Hs2.
Qed.

(** *** Reading *)
Lemma read_ids s a : holds s a ->
  by_range serialization_try_from "scans" All s
  = (if sp_ids a is Some x then Ok (map Deserialized x) else Err absent_error, s).
Proof. intros Hs. by apply (read_slot s a SIds). Qed.

Lemma read_clients s a : holds s a ->
  by_range serialization_try_from "idmap" All s
  = (if sp_clients a is Some x then Ok (map Deserialized x) else Err absent_error, s).
Proof. intros Hs. by apply (read_slot s a SClients). Qed.

Lemma read_scan s a id : holds s a -> safe_key id ->
  by_range serialization_try_from (scan_key id) All s
  = (if sp_scans a !! id is Some x then Ok [Deserialized x] else Err absent_error, s).
Proof.
  intros Hs Hid. etrans; [apply (read_slot s a (SScan id) ((fun x => [x]) <$> sp_scans a !! id) Hs Hid scans_written)|].
  - simpl. by destruct (sp_scans a !! id).
  - by destruct (sp_scans a !! id).
Qed.

Lemma read_status s a id : holds s a -> safe_key id ->
  by_range serialization_try_from (status_key id) All s
  = (if sp_status a !! id is Some x then Ok [Deserialized x] else Err absent_error, s).
Proof.
  intros Hs Hid. etrans; [apply (read_slot s a (SStatus id) ((fun x => [x]) <$> sp_status a !! id) Hs Hid status_written)|].
  - simpl. by destruct (sp_status a !! id).
  - by destruct (sp_status a !! id).
Qed.

Lemma omap_deserialized {A} (l : list A) :
  omap (fun x => match x with Deserialized x => Some x | Serialized _ => None end) (map Deserialized l) = l.
Proof. induction l as [|x l IH]; [done|]. simpl. f_equal. exact IH. Qed.

Lemma run_get_scan s a id : file_holds s a -> safe_key id ->
  file_get_scan id s
  = (match sp_scans a !! id, sp_status a !! id with Some c, Some st => Ok (c, st) | _, _ => Err absent end, s).
Proof.
  intros Hs Hid. eapply reading_run; [exact Hs|]. unfold stored_call, err_into, mbind, M_bind.
  rewrite (read_scan _ a id (fst_holds _ _ Hs) Hid). destruct (sp_scans a !! id) as [c|]; [|done].
  rewrite (read_status _ a id (fst_holds _ _ Hs) Hid). by destruct (sp_status a !! id).
Qed.

Lemma run_get_status s a id : file_holds s a -> safe_key id ->
  file_get_status id s = (if sp_status a !! id is Some st then Ok st else Err absent, s).
Proof.
  intros Hs Hid. eapply reading_run; [exact Hs|]. unfold stored_call, err_into, mbind, M_bind.
  rewrite (read_status _ a id (fst_holds _ _ Hs) Hid). by destruct (sp_status a !! id).
Qed.

Lemma run_get_ids s a : file_holds s a ->
  file_get_scan_ids s = (Ok (dedup (sort_strings (default [] (sp_ids a)))), s).
Proof.
  intros Hs. eapply reading_run; [exact Hs|]. unfold err_into, attempt, mbind, M_bind.
  rewrite (read_ids _ a (fst_holds _ _ Hs)). destruct (sp_ids a) as [l|]; [|done]. simpl. by rewrite omap_deserialized.
Qed.

Lemma read_pairs_all l : read_pairs (map Deserialized l) = l.
Proof. induction l as [|x l IH]; [done|]. simpl. f_equal. exact IH. Qed.

Lemma run_scans_of_client s a cid : file_holds s a ->
  file_get_scans_of_client_id cid s
  = (Ok (List.filter (fun p => bool_decide (p.1 = cid)) (default [] (sp_clients a))).*2, s).
Proof.
  intros Hs. eapply reading_run; [exact Hs|]. unfold err_into, attempt, mbind, M_bind.
  rewrite (read_clients _ a (fst_holds _ _ Hs)). destruct (sp_clients a) as [l|]; [|done]. simpl. by rewrite read_pairs_all.
Qed.

Lemma omap_inl {A B} (l : list A) :
  omap (fun x : A + B => match x with inl r => Some r | inr _ => None end) (inl <$> l) = l.
Proof. induction l as [|x l IH]; [done|]. simpl. f_equal. exact IH. Qed.

Lemma run_get_results s a id from to : file_holds s a -> safe_key id ->
  file_get_results id from to s
  = (if range_filter (results_range from to) (default [] (sp_results a !! id)) is Some l
     then Ok (map enc l) else Panic, s).
Proof.
  intros Hs Hid. eapply reading_run; [exact Hs|]. destruct (fst_holds _ _ Hs) as (m & Hb & Hm).
  specialize (Hm (SResults id) Hid). pose proof (key_of_safe (SResults id) Hid) as Hk. simpl in Hm.
  change (Is_true (safe_key (results_key id))) in Hk.
  unfold stored_call, err_into, iterator_by_range, load_indices, attempt, mbind, M_bind.
  destruct (sp_results a !! id) as [l|]; simpl in Hm |- *.
  - destruct (bs_read _ m _ _ Hb Hk Hm) as (idx & Hi & Hl & _). rewrite Hi. simpl. rewrite length_map in Hl.
    destruct (range_filter_shape (results_range from to) l idx (eq_sym Hl)) as [[-> ->]|(i & n & -> & ->)]; [done|].
    simpl. rewrite (iterate_ok Some _ m _ _ idx Hb Hk Hm Hi i n (map enc (take n (drop i l)))).
    + by rewrite omap_inl.
    + by rewrite <- fmap_drop, <- fmap_take, mapM_id.
  - rewrite (bs_absent _ m _ Hb Hk Hm). simpl.
    destruct (range_filter_shape (results_range from to) ([] : list ScanResult) ([] : list Index) eq_refl)
      as [[-> ->]|(i & n & -> & ->)]; [done|]. by rewrite !drop_nil, !take_nil.
Qed.

Lemma run_add_client s a sid cid : file_holds s a ->
  exists s', file_add_scan_client_id sid cid s = (Ok tt, s') /\ file_holds s' (spec_scan_op (AddClient sid cid) a).2.
Proof.
  intros Hs. unfold file_add_scan_client_id, mbind, M_bind. rewrite bytes_of_run by done.
  destruct (append_slot (fs_storage s) a (spec_scan_op (AddClient sid cid) a).2 SClients [enc (cid, sid)] (fst_holds _ _ Hs) I)
    as (x & Ex & Hx).
  { split; [exact (eq_sym (extend_map enc (sp_clients a) [(cid, sid)]))|]. by intros [] ?. }
  eapply writing_run; [apply Hs| |done|exact Hx]. unfold stored_call, err_into, ibs_append. simpl in Ex. by rewrite Ex.
Qed.

Lemma run_remove_client s a sid : file_holds s a ->
  exists s', file_remove_scan_id sid s = (if sp_clients a is Some _ then Ok tt else Err absent, s')
  /\ file_holds s' (spec_scan_op (RemoveClient sid) a).2.
Proof.
  intros Hs. pose proof (fst_holds _ _ Hs) as Hx. simpl. destruct (sp_clients a) as [l|] eqn:El.
  - set (new := List.filter _ l).
    destruct (remove_slot _ a (set_sp_clients a None) SClients Hx I (change_clients _ _)) as (x1 & E1 & Hx1).
    simpl in E1. rewrite El in E1.
    destruct (append_slot x1 _ (set_sp_clients a (extend None new)) SClients (map enc new) Hx1 I) as (x2 & E2 & Hx2).
    { split; [exact (eq_sym (extend_map enc None new))|]. by intros [] ?. }
    eapply writing_run; [apply Hs| |done|exact Hx2].
    unfold stored_call, err_into, mbind, M_bind. rewrite (read_clients _ a Hx), El, read_pairs_all. fold new.
    rewrite E1, omap_enc by done. simpl in E2. by rewrite E2.
  - eapply writing_run; [apply Hs| |done|exact Hx].
    unfold stored_call, err_into, mbind, M_bind. by rewrite (read_clients _ a Hx), El.
Qed.

(** Every removal of a place, whether it was there or not, leaves it empty. *)
Lemma run_remove_files s a id new : holds s a -> safe_key id ->
  exists s', remove_files id (map enc new) s = ((spec_remove_files id new a).1, s')
  /\ holds s' (spec_remove_files id new a).2.
Proof.
  intros Hx Hid. destruct (remove_slot _ a _ (SResults id) Hx Hid (drop_results _ _)) as (x1 & E1 & Hx1).
  destruct (remove_slot _ _ _ (SScan id) Hx1 Hid (drop_scan _ _)) as (x2 & E2 & Hx2).
  destruct (remove_slot _ _ _ (SStatus id) Hx2 Hid (drop_status _ _)) as (x3 & E3 & Hx3).
  destruct (remove_slot _ _ _ SIds Hx3 I (change_ids _ None)) as (x4 & E4 & Hx4).
  destruct (append_slot x4 _ _ SIds (map enc new) Hx4 I (change_ids_again _ None new)) as (x5 & E5 & Hx5).
  simpl in E1, E2, E3, E4, E5. unfold remove_files, attempt, mbind, M_bind, spec_remove_files. rewrite E1.
  destruct (sp_results a !! id); simpl; rewrite E2;
    (destruct (sp_scans a !! id); simpl; [rewrite E3|by eauto];
     destruct (sp_status a !! id); simpl; [rewrite E4|by eauto];
     destruct (sp_ids a); simpl; [rewrite E5|]; eauto).
Qed.

Lemma run_remove_scan s a id : file_holds s a -> safe_key id ->
  exists s', (file_remove_scan id ;; mret RUnit) s = ((spec_remove id a).1, s')
  /\ file_holds s' (spec_remove id a).2.
Proof.
  intros Hs Hid. unfold file_remove_scan, mbind, M_bind. rewrite (run_get_ids s a Hs), omap_enc by done.
  unfold spec_remove. set (new := List.filter _ _).
  destruct (run_remove_files _ a id new (fst_holds _ _ Hs) Hid) as (x & E & Hx).
  assert ((spec_remove_files id new a).1 = Ok tt
    \/ (spec_remove_files id new a).1 = Err (IoErr StoreError.Remove IoError.NotFound)) as Ho.
  { unfold spec_remove_files. destruct (sp_scans a !! id), (sp_status a !! id), (sp_ids a); auto. }
  destruct (spec_remove_files id new a) as [o a']. simpl in *.
  unfold writing, stored_call, err_into. rewrite (proj1 Hs), E.
  destruct Ho as [-> | ->]; (eexists; split; [done|]; by split).
Qed.

(** *** All operations *)
Definition op_safe (o : scan_op) : Prop :=
  match o with
  | InsertScan sp => safe_key (scan_id sp)
  | RemoveScan id | UpdateStatus id _ | GetScan id | GetStatus id | GetResults id _ _ => safe_key id
  | AppendFetched l => Forall (fun r => safe_key (sr_id r)) l
  | GetScanIds | AddClient _ _ | RemoveClient _ | ScansOfClient _ => True
  end.
Lemma scan_op_spec o s a : file_holds s a -> op_safe o ->
  exists s', run_scan_op o s = ((spec_scan_op o a).1, s') /\ file_holds s' (spec_scan_op o a).2.
Proof.
  intros Hs Ho. destruct o; cbn [run_scan_op op_safe] in *; unfold mbind, M_bind.
  - destruct (run_insert_scan s a sp Hs Ho) as (s' & -> & ?). by exists s'.
  - by apply run_remove_scan.
  - destruct (run_update_status s a id st Hs Ho) as (s' & -> & ?). by exists s'.
  - destruct (run_append_fetched l s a Hs Ho) as (s' & -> & ?). by exists s'.
  - rewrite (run_get_scan s a) by done. exists s. simpl. by destruct (sp_scans a !! id), (sp_status a !! id).
  - rewrite (run_get_ids s a) by done. by exists s.
  - rewrite (run_get_status s a) by done. exists s. simpl. by destruct (sp_status a !! id).
  - rewrite (run_get_results s a) by done. exists s. simpl. by destruct (range_filter _ _).
  - destruct (run_add_client s a sid cid Hs) as (s' & -> & ?). by exists s'.
  - destruct (run_remove_client s a sid Hs) as (s' & -> & ?). exists s'. simpl in *. by destruct (sp_clients a).
  - rewrite (run_scans_of_client s a) by done. by exists s.
Qed.
End Refinement.

(** ** The theorems *)

(** The answers of a sequence of calls. *)
Fixpoint replies {Y} (step : scan_op -> Y -> outcome DbError.t reply * Y) (ops : list scan_op) (y : Y) :
  list (outcome DbError.t reply) :=
  match ops with
  | [] => []
  | o :: ops' => let '(a, y') := step o y in a :: replies step ops' y'
  end.

Lemma replies_spec {X} `{ByteStoreLaws X} `{IoErrorText}
  `{Json ScanModel} `{Json Status} `{Json ScanResult} `{Json string} `{Json (ClientHash * string)} ops :
  bs_any_append = true ->
  (forall x : ScanModel, is_Some (json_to_vec x)) -> (forall x : Status, is_Some (json_to_vec x)) ->
  (forall x : ScanResult, is_Some (json_to_vec x)) -> (forall x : string, is_Some (json_to_vec x)) ->
  (forall x : ClientHash * string, is_Some (json_to_vec x)) ->
  forall (s : FileScans X) a, file_holds s a -> Forall op_safe ops -> replies run_scan_op ops s = replies spec_scan_op ops a.
Proof.
  intros Ha H1' H2' H3' H4' H5'. induction ops as [|o ops IH]; intros s a Hs Hops; [done|]. apply Forall_cons in Hops as [Ho Hops].
  destruct (scan_op_spec Ha H1' H2' H3' H4' H5' o s a Hs Ho) as (s' & E & Hs'). simpl. rewrite E.
  destruct (spec_scan_op o a) as [r a']. f_equal. by apply IH.
Qed.

(** C17: The daemon's store of scans on disk, with the records encrypted or not, made in an empty
    directory on a disk that does not fail, answers every sequence of calls as a record of maps
    does, as long as the identifiers of scans are names without a slash: scans, status, numbered
    results in any range, the list of scans and the scans of a client, with the errors and
    panics of each call. *)
Theorem file_scans_refine `{Cipher} `{IoErrorText} `{Json (list Index)}
    `{Json ScanModel} `{Json Status} `{Json ScanResult} `{Json string} `{Json (ClientHash * string)}
    (s : IndexedFileStorer) (feeds : list FeedHash) (ops : list scan_op) :
  (forall x : list Index, is_Some (json_to_vec x)) ->
  (forall x : ScanModel, is_Some (json_to_vec x)) -> (forall x : Status, is_Some (json_to_vec x)) ->
  (forall x : ScanResult, is_Some (json_to_vec x)) -> (forall x : string, is_Some (json_to_vec x)) ->
  (forall x : ClientHash * string, is_Some (json_to_vec x)) ->
  fresh_store s -> Forall op_safe ops ->
  replies run_scan_op ops (file_new s feeds) = replies spec_scan_op ops empty_spec
  /\ replies run_scan_op ops (file_new (mkChaCha s 0) feeds) = replies spec_scan_op ops empty_spec.
Proof.
  intros Hi Hs Ht Hr Hd Hc Hf Ho. apply fresh_holds in Hf. split.
  - apply (replies_spec (H0 := plain_laws Hi)); try done. split; [done|]. exists ∅. split; [exact Hf|].
    intros [] _; simpl; by rewrite ?lookup_empty.
  - apply (replies_spec (H0 := chacha_laws (H1 := plain_laws Hi))); try done. split; [done|]. exists ∅. split.
    + exists ∅. split; [exact Hf|]. intros k. rewrite lookup_empty. constructor.
    + intros [] _; simpl; by rewrite ?lookup_empty.
Qed.

(** A scan with a slash in its identifier is refused: its files would lie in a directory that
    does not exist. *)
Theorem slash_id_refused `{IoErrorText} `{Json (list Index)}
    `{Json ScanModel} `{Json Status} `{Json ScanResult} `{Json string} `{Json (ClientHash * string)}
    (s : IndexedFileStorer) (feeds : list FeedHash) (scan : ScanModel) (a b : string) :
  (forall x : list Index, is_Some (json_to_vec x)) -> (forall x : ScanModel, is_Some (json_to_vec x)) ->
  (forall x : Status, is_Some (json_to_vec x)) ->
  fresh_store s -> safe_key a -> Ascii.zero ∉ chars_of b -> scan_id scan = a +:+ "/" +:+ b ->
  file_insert_scan scan (file_new s feeds) = (Err absent, file_new s feeds).
Proof.
  intros Hi Hs Ht Hf Ha Hb Hid. unfold file_insert_scan, mbind, M_bind. rewrite !bytes_of_run by done.
  unfold writing, stored_call, err_into. cbn [fs_poisoned file_new fs_storage]. unfold mbind, M_bind. rewrite Hid.
  change (scan_key (a +:+ "/" +:+ b)) with (("scan_" +:+ a) +:+ "/" +:+ b).
  cbn [ibs_put file_storer]. rewrite (nested_key_refused s ("scan_" +:+ a) b) by (done || set_solver). done.
Qed.

(** A range of results that ends before it starts panics in the store on disk where the
    store in memory returns no result. *)
Theorem file_range_panics {X} `{ByteStoreLaws X} `{IoErrorText}
    `{Json ScanModel} `{Json Status} `{Json ScanResult} `{Json string} `{Json (ClientHash * string)}
    `{Cipher} (s : FileScans X) (a : ScansSpec) (p : Inmemory.Progress) (id : string)
    (l : list ScanResult) (from to : nat) :
  file_holds s a -> safe_key id -> sp_results a !! id = Some l -> from < length l -> to < from ->
  file_get_results id (Some from) (Some to) s = (Panic, s)
  /\ Inmemory.decrypt_results_sync p (Some from) (Some to) = [].
Proof.
  intros Hs Hid Hl Hf Ht. split.
  - rewrite (run_get_results s a) by done. rewrite Hl. simpl. rewrite decide_False by lia.
    unfold slice_of. by rewrite decide_False by lia.
  - unfold Inmemory.decrypt_results_sync. simpl. by rewrite bool_decide_eq_true_2 by lia.
Qed.

(** A feed update over the store on disk never ends well: the version of the feed is not
    implemented there, so the update panics with the flag of a running update set, and no
    scan is started any more. *)
Theorem file_feed_update_blocks {X Y} `{IndexedByteStorage X} `{IoErrorText}
    `{Json ScanModel} `{Json Status} `{Json ScanResult} `{Json string} `{Json (ClientHash * string)}
    `{HashOrder} `{AdvisoryOrder} `{HashSetOrder Nvt} `{ScanRunner Y} `{BuildProfile}
    (config : SchedulerConfig) (feeds : list FeedHash -> M DefaultDispatcher DbError.t unit)
    (hash : list FeedHash) (s : Sched.Scheduler (FileScans X) Y) :
  let DB : Database (FileScans X) := file_database feeds in
  let '(o, s') := (Sched.sync_begin ;; Sched.sync_finish hash) s in
  (forall x, o <> Ok x) /\ (forall e, o <> Err e)
  /\ Sched.is_synchronizing_feed s' = true
  /\ Sched.coordinate_scans config s' = (Ok tt, s').
Proof.
  intros DB. unfold Sched.sync_begin, Sched.sync_finish, modify, attempt, mbind, M_bind, Sched.on_db.
  destruct (db_synchronize_feeds hash _) as [[]]; simpl; done.
Qed.

(** ** Codings to evaluate the store *)
Module ScansExample.
Import StoreExample.

Section TupleJson.
Context {A T : Type} `{Countable T} (f : A -> T) (g : T -> A) (back : forall x, g (f x) = x).
#[refine] Definition tuple_json : Json A := {|
  json_to_vec := fun x => Some (bits_of (encode (f x)));
  json_from_slice := fun b => g <$> decode (of_bits b)
|}.
Proof. intros x b [= <-]. rewrite of_bits_of, decode_encode. simpl. by rewrite back. Defined.
End TupleJson.

Definition scan_json : Json ScanModel := tuple_json scan_tuple scan_of scan_tuple_back.
Definition status_json : Json Status := tuple_json status_tuple status_of status_tuple_back.
Definition result_json : Json ScanResult := tuple_json result_tuple result_of_tuple result_tuple_back.
Definition id_json : Json string := tuple_json id id (fun _ => eq_refl).
Definition client_json : Json (ClientHash * string) := tuple_json (T := string * string) id id (fun _ => eq_refl).
#[local] Existing Instances scan_json status_json result_json id_json client_json coded_ranges plain_cipher.
#[local] Instance short_io_text : IoErrorText := {| io_kind_text := fun _ => "" |}.

Definition a_scan : ScanModel := mkScanModel "s" (mkTarget ["h"] [] [] [] [] [] None None) [] [].
Definition a_result : ScanResult := mkScanResult 7 Log None None None None None (Some "m") None.
Definition running_status : Status := mkStatus (Some 1%Z) None Phase.Running None.
Definition sample_scan_ops : list scan_op :=
  [InsertScan a_scan; AppendFetched [mkScanResults "s" running_status [a_result; a_result]]; GetScan "s";
   AddClient "s" "c"; ScansOfClient "c"; GetScanIds; RemoveScan "s"; GetScan "s"; RemoveScan "s"].

Lemma file_scans_refine_witness :
  replies run_scan_op sample_scan_ops (file_new (mkChaCha (new_storer "/s") 0) [])
  = [Ok RUnit; Ok RUnit; Ok (RScan a_scan running_status); Ok RUnit; Ok (RIds ["s"]); Ok (RIds ["s"]);
     Ok RUnit; Err absent; Err gone].
Proof.
  destruct (file_scans_refine (new_storer "/s") [] sample_scan_ops) as [_ E]; [by eexists..|apply new_storer_fresh|by repeat constructor|].
  rewrite E. reflexivity.
Defined.

#[local] Existing Instance plain_laws.

Lemma empty_file_holds : file_holds (H0 := plain_laws coded_written) (file_new (new_storer "/s") []) empty_spec.
Proof.
  split; [done|]. exists ∅. split; [apply fresh_holds, new_storer_fresh|]. intros [] _; simpl; by rewrite ?lookup_empty.
Qed.

Definition filled : FileScans IndexedFileStorer * ScansSpec :=
  let ops := AppendFetched [mkScanResults "s" running_status [a_result; a_result]] in
  ((run_scan_op ops (file_new (new_storer "/s") [])).2, (spec_scan_op ops empty_spec).2).

Lemma filled_holds : file_holds (H0 := plain_laws coded_written) filled.1 filled.2.
Proof.
  destruct (scan_op_spec (H0 := plain_laws coded_written) eq_refl (fun _ => ltac:(by eexists)) (fun _ => ltac:(by eexists))
    (fun _ => ltac:(by eexists)) (fun _ => ltac:(by eexists)) (fun _ => ltac:(by eexists))
    (AppendFetched [mkScanResults "s" running_status [a_result; a_result]]) _ _ empty_file_holds) as (s' & E & Hs'); [by repeat constructor|].
  unfold filled. cbn [fst snd]. rewrite E. exact Hs'.
Qed.

Lemma file_range_panics_witness :
  file_get_results "s" (Some 1) (Some 0) filled.1 = (Panic, filled.1).
Proof.
  eapply (file_range_panics (H0 := plain_laws coded_written) filled.1 filled.2 (Inmemory.mkProgress a_scan running_status [])
    "s" (renumber 0 [a_result; a_result]) 1 0 filled_holds); [done|reflexivity|cbv; lia|lia].
Defined.
End ScansExample.
