(* ===== verification/Osp.v ===== *)
(** * The client of ospd ([osp/])

    Answers of ospd and their conversion into results and status ([response.rs]), the
    commands as XML ([commands.rs]), the exchange over the socket ([connection.rs]) and the
    scanner the daemon uses ([scanner.rs]).  Reading and writing XML is the crate
    [quick_xml], a parameter: writing an event adds to a buffer or fails, reading an answer
    gives the value the derived deserialization builds.  Theorems at the end. *)

From S2P Require Import Prelude RustStr Token Statement NaslValue Errors Register Executor FnArgs Files StringFns StringFnsProps Text Nvt Storage Models Scheduling HostInfo Scanner Crypt ScanStore Scheduler.
Local Open Scope string_scope.

(** ** response.rs *)
Module OspResultType.
Inductive t : Set := Alarm | Log | Error | HostDetail | HostStart | HostEnd.
End OspResultType.

(** The severity is not used. *)
Record OspScanResult := mkOspScanResult {
  o_host : option string; o_hostname : option string; o_port : option string;
  o_test_id : option string; o_name : string; o_type : OspResultType.t; o_description : string
}.

(** [urlencoding] with the XML of host details; no detail when either fails. *)
Class HostDetailXml := { read_host_detail : string -> list Detail }.

(** [From<&ScanResult> for ResultType]; host details are sent as log messages only. *)
Definition result_type_of (sr : OspScanResult) : outcome Empty_set ResultType :=
  match o_type sr with
  | OspResultType.Log =>
      if decide (o_name sr = "HOST_START") then Ok HostStart
      else if decide (o_name sr = "HOST_END") then Ok HostEnd
      else if decide (o_name sr = "DEADHOST") then Ok DeadHost
      else if decide (o_name sr = "Host Details") then Ok HostDetail
      else Ok Log
  | OspResultType.Alarm => Ok Alarm
  | OspResultType.Error => Ok ErrorResult
  | OspResultType.HostStart => Ok HostStart
  | OspResultType.HostEnd => Ok HostEnd
  | OspResultType.HostDetail => Panic
  end.

(** The port and the protocol in front of and behind the slash *)
Definition port_and_protocol (p : option string) : option Z * option Protocol :=
  match p with
  | None => (None, None)
  | Some port =>
      let '(m_port, m_protocol) := default (port, "") (split_once_text "/" port) in
      (i_from_str 16 m_port, match protocol_try_from m_protocol with inl x => Some x | inr _ => None end)
  end.

(** [From<&ScanResult> for models::Result] *)
Definition result_of `{HostDetailXml} (r : OspScanResult) : outcome Empty_set ScanResult :=
  let '(port, protocol) := port_and_protocol (o_port r) in
  r_type ← result_type_of r;
  let message := if decide (o_description r = "") then None else Some (o_description r) in
  let detail := match r_type with HostDetail => head (read_host_detail (o_description r)) | _ => None end in
  Ok (mkScanResult 0 r_type (o_host r) (o_hostname r) (o_test_id r) port protocol message detail).

(** [From<(usize, T)> for models::Result] over [enumerate()] *)
Fixpoint results_from `{HostDetailXml} (i : nat) (l : list OspScanResult) : outcome Empty_set (list ScanResult) :=
  match l with
  | [] => Ok []
  | r :: l' => x ← result_of r; xs ← results_from (S i) l'; Ok (set_result_id x i :: xs)
  end.

Module OspScanStatus.
Inductive t : Set :=
| Queued | Init | Requested | Running | Stopped | Failed | Finished | Succeeded | Interrupted.

(** [From<&str>] *)
Definition from_str (s : string) : t :=
  if decide (s = "requested") then Requested
  else if decide (s = "init") then Init
  else if decide (s = "running") then Running
  else if decide (s = "stopped") then Stopped
  else if decide (s = "failed") then Failed
  else if decide (s = "succeeded") then Succeeded
  else if decide (s = "finished") then Finished
  else if decide (s = "interrupted") then Failed
  else Queued.

Definition phase (s : t) : Phase.t :=
  match s with
  | Queued | Requested | Init => Phase.Requested
  | Running => Phase.Running
  | Stopped => Phase.Stopped
  | Failed | Interrupted => Phase.Failed
  | Finished | Succeeded => Phase.Succeeded
  end.
End OspScanStatus.

(** Numbers are of [u64]; a text that is none is read as 0. *)
Definition string_u64 (s : string) : Z := default 0%Z (u64_from_str (chars_of s)).

Record OspHost := mkOspHost { osp_host_name : string; osp_host_progress : Z }.
Record OspHostInfo := mkOspHostInfo {
  oh_host : list OspHost; oh_overall : Z; oh_alive : Z; oh_dead : Z; oh_excluded : Z; oh_total : Z
}.
Record OspScan := mkOspScan {
  os_id : string; os_target : string; os_start_time : option Z; os_end_time : option Z;
  os_progress : Z; os_status : OspScanStatus.t; os_results : list OspScanResult;
  os_host_info : option OspHostInfo
}.
Record OspStatus := mkOspStatus { status_text : string; status_code : Z }.
Definition osp_status_is_ok (s : OspStatus) : bool := (status_code s =? 200)%Z.

Inductive OspResponse : Type :=
| Failure (status : OspStatus)
| StartScanResponse (id : option string) (status : OspStatus)
| StopScanResponse (status : OspStatus)
| DeleteScanResponse (status : OspStatus)
| GetScansResponse (status : OspStatus) (scan : option OspScan).

Definition response_status (r : OspResponse) : OspStatus :=
  match r with
  | Failure s | StartScanResponse _ s | StopScanResponse s | DeleteScanResponse s | GetScansResponse s _ => s
  end.

(** [From<Scan> for models::Status]: the hosts that are neither excluded, finished nor
    being scanned are queued; [None] is an overflow of [u64]. *)
Definition osp_queued `{BuildProfile} (i : OspHostInfo) : option Z :=
  a ← arith_u 64 (oh_total i - oh_excluded i);
  b ← arith_u 64 (a - oh_alive i);
  arith_u 64 (b - Z.of_nat (length (oh_host i))).
Definition osp_scanning (i : option OspHostInfo) : gmap string Z :=
  match i with
  | Some i => foldl (fun m h => <[osp_host_name h := 0%Z]> m) ∅ (oh_host i)
  | None => ∅
  end.
Definition status_of_osp `{BuildProfile} (value : OspScan) : option Status :=
  hi ← match os_host_info value with
       | Some i =>
           queued ← osp_queued i;
           Some (Some (build (mkHostInfoBuilder (oh_total i) (oh_excluded i) (oh_dead i) (oh_alive i) queued
             (oh_alive i) (Some (osp_scanning (Some i))))))
       | None => Some None
       end;
  Some (mkStatus (os_start_time value) (os_end_time value) (OspScanStatus.phase (os_status value)) hi).

(** ** commands.rs *)
Module OspError.
Inductive t : Type :=
| WriteXML (s : string) | ReadXML (s : string) | Socket (k : IoError.kind) | InvalidResponse (s : OspStatus).
End OspError.

(** The text that [derive(Debug)] gives an error. *)
Class OspErrorText := { osp_error_debug : OspError.t -> string }.
Definition scan_error_of_osp `{OspErrorText} (e : OspError.t) : ScanError.t := ScanError.Unexpected (osp_error_debug e).

(** [TryFrom<Response> for Scan] and for results *)
Definition scan_try_from (r : OspResponse) : OspScan + OspError.t :=
  match r with
  | GetScansResponse status scan => match scan with Some s => inl s | None => inr (OspError.InvalidResponse status) end
  | _ => inr (OspError.InvalidResponse (response_status r))
  end.

Inductive ScanCommand : Type :=
| StartCmd (scan : ScanModel) | DeleteCmd (id : string) | StopCmd (id : string) | GetCmd (id : string)
| GetDeleteCmd (id : string).

Inductive XmlEvent : Type :=
| XStart (name : string) (attributes : list (string * string)) | XText (s : string) | XEnd (name : string).

(** The writer over a buffer: an event is added, or fails with the text of the error. *)
Class XmlWriter (B : Type) := { xml_empty : B; xml_write : XmlEvent -> B -> B + string }.

Definition type_name (c : CredentialType) : string :=
  match c with UP _ _ _ => "up" | USK _ _ _ _ => "usk" | SNMP _ _ _ _ _ _ => "snmp" end.

(** The text of the ports of one entry, and of all of them *)
Definition as_comma_list (l : list PortRange) : string := join_text "," (map port_range_string l).
Definition add_ports (acc : string * string * string) (p : Port) : string * string * string :=
  let '(tcp, udp, other) := acc in
  let text := as_comma_list (range p) ++ "," in
  match port_protocol p with
  | None => (tcp, udp, other ++ text)
  | Some UDP => (tcp, udp ++ text, other)
  | Some TCP => (tcp ++ text, udp, other)
  end.
Definition trim_end_commas (s : string) : string :=
  string_of (rev (drop_while (fun c => Ascii.eqb c ",") (rev (chars_of s)))).
Definition ports_text (ports : list Port) : string :=
  let '(tcp, udp, other) := foldl add_ports ("", "", "") ports in
  let other := if decide (tcp = "") then other else other ++ "T:" ++ tcp in
  let other := if decide (udp = "") then other else other ++ "U:" ++ udp in
  trim_end_commas other.

Section Commands.
Context {B : Type} `{XmlWriter B}.
Abbreviation W := (M B OspError.t unit).

Definition write_event (e : XmlEvent) : W := fun b =>
  match xml_write e b with inl b' => (Ok tt, b') | inr s => (Err (OspError.WriteXML s), b) end.

Definition within_parameter_element (name : string) (params : list (string * string)) (f : W) : W :=
  write_event (XStart name params) ;; f ;; write_event (XEnd name).
Definition within_element (name : string) (f : W) : W := within_parameter_element name [] f.
(** The key is "id" for a test and "scan_id" for a scan. *)
Definition within_id_element (key id : string) (additional : list (string * string)) (name : string) (f : W) : W :=
  within_parameter_element name ((key, id) :: additional) f.

Fixpoint each {A} (f : A -> W) (l : list A) : W :=
  match l with [] => mret tt | x :: l' => f x ;; each f l' end.

Definition write_vts (scan : ScanModel) : W :=
  within_element "vt_selection" (each (fun v =>
    within_id_element "id" (vt_oid v) [] "vt_single" (each (fun p =>
      within_id_element "id" (pretty (param_id p)) [] "vt_value" (write_event (XText (param_value p))))
      (parameters v)))
    (scan_vts scan)).

Definition write_text_element (name value : string) : W :=
  write_event (XStart name []) ;; write_event (XText value) ;; write_event (XEnd name).
Definition write_str_element (name value : string) : W := write_text_element name value.
Definition write_int_element (name : string) (value : Z) : W := write_text_element name (pretty value).

Definition write_scanner_prefs (scan : ScanModel) : W :=
  write_event (XStart "scanner_params" []) ;;
  each (fun p => write_text_element (Models.pref_id p) (pref_value p)) (scan_preferences scan) ;;
  write_event (XEnd "scanner_params").

Definition write_privilege (p : option PrivilegeInformation) : W :=
  match p with
  | Some p =>
      write_str_element "priv_username" (priv_username p) ;; write_str_element "priv_password" (priv_password p)
  | None => mret tt
  end.
Definition write_credential (c : Credential) : W :=
  let parameter := ([("type", type_name (credential_type c)); ("service", Service.as_ref (service c))]
    ++ match cred_port c with Some p => [("port", pretty p)] | None => [] end)%list in
  within_parameter_element "credential" parameter
    match credential_type c with
    | UP username password privilege =>
        write_str_element "username" username ;; write_str_element "password" password ;;
        write_privilege privilege
    | USK username password private_key privilege =>
        write_str_element "username" username ;; write_str_element "password" password ;;
        write_str_element "private" private_key ;; write_privilege privilege
    | SNMP username password community auth_algorithm privacy_password privacy_algorithm =>
        write_str_element "username" username ;; write_str_element "password" password ;;
        write_str_element "community" community ;; write_str_element "auth_algorithm" auth_algorithm ;;
        write_str_element "privacy_password" privacy_password ;;
        write_str_element "privacy_algorithm" privacy_algorithm
    end.
Definition write_credentials (scan : ScanModel) : W :=
  within_element "credentials" (each write_credential (credentials (scan_target scan))).

Definition flag (b : option bool) : Z := if default false b then 1%Z else 0%Z.
Definition write_target (scan : ScanModel) : W :=
  let t := scan_target scan in
  within_element "targets" (within_element "target" (
    write_str_element "hosts" (join_text "," (target_hosts t)) ;;
    write_str_element "ports" (ports_text (target_ports t)) ;;
    write_int_element "reverse_lookup_only" (flag (reverse_lookup_only t)) ;;
    write_int_element "reverse_lookup_unify" (flag (reverse_lookup_unify t)) ;;
    write_credentials scan)).

Definition as_byte_response (id name : string) (additional : list (string * string)) (f : W) : outcome OspError.t B :=
  match within_id_element "scan_id" id additional name f xml_empty with
  | (Ok _, b) => Ok b
  | (Err e, _) => Err e
  | (Panic, _) => Panic
  | (OutOfFuel, _) => OutOfFuel
  end.
Definition try_to_xml (c : ScanCommand) : outcome OspError.t B :=
  match c with
  | StartCmd scan =>
      as_byte_response (scan_id scan) "start_scan" [] (write_vts scan ;; write_target scan ;; write_scanner_prefs scan)
  | DeleteCmd id => as_byte_response id "delete_scan" [] (mret tt)
  | StopCmd id => as_byte_response id "stop_scan" [] (mret tt)
  | GetDeleteCmd id => as_byte_response id "get_scans" [("pop_results", "1"); ("progress", "1")] (mret tt)
  | GetCmd id => as_byte_response id "get_scans" [] (mret tt)
  end.
End Commands.

(** ** connection.rs

    The socket: connecting, setting the timeout, writing the command and reading the
    answer, which the other side may change. *)
Class OspSocket (X B : Type) := {
  osp_exists : X -> bool;
  osp_path : string;
  osp_connect : M X IoError.kind unit;
  osp_set_timeout : Z -> M X IoError.kind unit;
  osp_write : B -> M X IoError.kind unit;
  osp_read : M X string OspResponse
}.

Section Connection.
Context {X B : Type} `{XmlWriter B} `{OspSocket X B}.
Abbreviation O := (M X OspError.t).

Definition socket_call {A} (m : M X IoError.kind A) : O A := err_into OspError.Socket m.
Definition send_command (r_timeout : option Z) (cmd : ScanCommand) : O OspResponse :=
  socket_call (osp_connect (B := B)) ;;
  cmd ← of_outcome (try_to_xml (B := B) cmd);
  (match r_timeout with
   | Some t => if decide (t = 0%Z) then mret tt else socket_call (osp_set_timeout (B := B) t)
   | None => mret tt
   end) ;;
  socket_call (osp_write cmd) ;;
  err_into OspError.ReadXML (osp_read (B := B)).

Definition get_delete_scan_results (r_timeout : option Z) (id : string) : O OspScan :=
  response ← send_command r_timeout (GetDeleteCmd id);
  match response with
  | GetScansResponse _ (Some scan) => mret scan
  | _ => throw (OspError.InvalidResponse (response_status response))
  end.
Definition osp_start_scan (r_timeout : option Z) (scan : ScanModel) : O string :=
  response ← send_command r_timeout (StartCmd scan);
  match response with
  | StartScanResponse (Some id) _ => mret id
  | _ => throw (OspError.InvalidResponse (response_status response))
  end.
Definition osp_stop_scan (r_timeout : option Z) (id : string) : O unit :=
  response ← send_command r_timeout (StopCmd id);
  match response with
  | StopScanResponse _ => mret tt
  | _ => throw (OspError.InvalidResponse (response_status response))
  end.
Definition osp_delete_scan (r_timeout : option Z) (id : string) : O unit :=
  response ← send_command r_timeout (DeleteCmd id);
  match response with
  | DeleteScanResponse _ => mret tt
  | _ => throw (OspError.InvalidResponse (response_status response))
  end.

(** ** scanner.rs

    [spawn_blocking]: a panic of the task becomes the error [Poisoned]. *)
Context `{OspErrorText} `{HostDetailXml} `{BuildProfile} (r_timeout : option Z).
Abbreviation SC := (M X ScanError.t).

Definition check_socket : SC unit := fun x =>
  if osp_exists (B := B) x then (Ok tt, x)
  else (Err (ScanError.Unexpected ("OSPD socket " ++ osp_path (X := X) (B := B) ++ " does not exist.")), x).

(** The result of a task: a panic inside it is an error of the caller. *)
Definition joined_task {A} (m : SC A) : SC A := fun x =>
  match m x with
  | (Panic, x') => (Err ScanError.Poisoned, x')
  | r => r
  end.
Definition spawn_blocking {A} (f : O A) : SC A := check_socket ;; joined_task (err_into scan_error_of_osp f).

Definition osp_scanner_start (scan : ScanModel) : SC unit := spawn_blocking (osp_start_scan r_timeout scan ;; mret tt).
Definition osp_scanner_stop (id : string) : SC unit := spawn_blocking (osp_stop_scan r_timeout id).
Definition osp_scanner_delete (id : string) : SC unit := spawn_blocking (osp_delete_scan r_timeout id).
Definition osp_fetch_results (id : string) : SC ScanResults :=
  spawn_blocking (
    r ← get_delete_scan_results r_timeout id;
    status ← or_panic (status_of_osp r);
    results ← of_total (results_from 0 (os_results r));
    mret (mkScanResults (os_id r) status results)).

Definition osp_scanner : ScanRunner X := {|
  can_start_scan := fun _ _ => true;
  x_start_scan := osp_scanner_start;
  x_stop_scan := osp_scanner_stop;
  x_fetch_results := osp_fetch_results;
  do_addition := false
|}.
End Connection.

(** * Theorems: commands are trees, and what is lost on the way *)

(** ** Commands as trees *)
Inductive XmlTree : Type :=
| Element (name : string) (attributes : list (string * string)) (children : list XmlTree)
| TextNode (s : string).

Fixpoint events (t : XmlTree) : list XmlEvent :=
  match t with
  | Element name attributes children =>
      XStart name attributes :: app (flat_map events children) [XEnd name]
  | TextNode s => [XText s]
  end.

Definition leaf (name value : string) : XmlTree := Element name [] [TextNode value].
Definition privilege_trees (p : option PrivilegeInformation) : list XmlTree :=
  match p with
  | Some p => [leaf "priv_username" (priv_username p); leaf "priv_password" (priv_password p)]
  | None => []
  end.
Definition credential_tree (c : Credential) : XmlTree :=
  Element "credential"
    (app [("type", type_name (credential_type c)); ("service", Service.as_ref (service c))]
      match cred_port c with Some p => [("port", pretty p)] | None => [] end)
    match credential_type c with
    | UP u p pr => app [leaf "username" u; leaf "password" p] (privilege_trees pr)
    | USK u p k pr => app [leaf "username" u; leaf "password" p; leaf "private" k] (privilege_trees pr)
    | SNMP u p co a pp pa =>
        [leaf "username" u; leaf "password" p; leaf "community" co; leaf "auth_algorithm" a;
         leaf "privacy_password" pp; leaf "privacy_algorithm" pa]
    end.
Definition vt_tree (v : VT) : XmlTree :=
  Element "vt_single" [("id", vt_oid v)]
    (map (fun p => Element "vt_value" [("id", pretty (param_id p))] [TextNode (param_value p)]) (parameters v)).
Definition start_tree (scan : ScanModel) : XmlTree :=
  let t := scan_target scan in
  Element "start_scan" [("scan_id", scan_id scan)]
    [Element "vt_selection" [] (map vt_tree (scan_vts scan));
     Element "targets" [] [Element "target" []
       [leaf "hosts" (join_text "," (target_hosts t)); leaf "ports" (ports_text (target_ports t));
        leaf "reverse_lookup_only" (pretty (flag (reverse_lookup_only t)));
        leaf "reverse_lookup_unify" (pretty (flag (reverse_lookup_unify t)));
        Element "credentials" [] (map credential_tree (credentials t))]];
     Element "scanner_params" [] (map (fun p => leaf (Models.pref_id p) (pref_value p)) (scan_preferences scan))].
Definition command_tree (c : ScanCommand) : XmlTree :=
  match c with
  | StartCmd scan => start_tree scan
  | DeleteCmd id => Element "delete_scan" [("scan_id", id)] []
  | StopCmd id => Element "stop_scan" [("scan_id", id)] []
  | GetDeleteCmd id => Element "get_scans" [("scan_id", id); ("pop_results", "1"); ("progress", "1")] []
  | GetCmd id => Element "get_scans" [("scan_id", id)] []
  end.

Section Trees.
Context {B : Type} `{XmlWriter B}.
Abbreviation W := (M B OspError.t unit).

(** Writing events one after the other. *)
Fixpoint write_events (l : list XmlEvent) : W :=
  match l with [] => mret tt | e :: l' => write_event e ;; write_events l' end.
Definition writes (m : W) (ts : list XmlTree) : Prop := forall b, m b = write_events (flat_map events ts) b.

Lemma write_events_app l l' b :
  write_events (l ++ l')%list b = (write_events l ;; write_events l') b.
Proof.
  revert b. induction l as [|e l IH]; intros b; [done|]. cbn [app write_events]. unfold mbind, M_bind in *.
  destruct (write_event e b) as [[] b1]; [apply IH|done..].
Qed.

Lemma writes_nil : writes (mret tt) [].
Proof. done. Qed.
Lemma writes_seq m m' ts ts' : writes m ts -> writes m' ts' -> writes (m ;; m') (ts ++ ts').
Proof.
  intros Hm Hm' b. rewrite flat_map_app, write_events_app. unfold mbind, M_bind. rewrite Hm.
  destruct (write_events _ b) as [[] b1]; [apply Hm'|done..].
Qed.
Lemma writes_text s : writes (write_event (XText s)) [TextNode s].
Proof. intros b. simpl. unfold mbind, M_bind. by destruct (write_event _ b) as [[[]| | |] b1]. Qed.
Lemma writes_element name params m ts :
  writes m ts -> writes (within_parameter_element name params m) [Element name params ts].
Proof.
  intros Hm b. unfold within_parameter_element. cbn [flat_map events]. rewrite app_nil_r. cbn [write_events].
  unfold mbind at 1 3, M_bind at 1 3. destruct (write_event (XStart name params) b) as [[] b1]; [|done..].
  rewrite write_events_app. unfold mbind, M_bind. rewrite Hm.
  destruct (write_events _ b1) as [[] b2]; [|done..]. cbn [write_events]. unfold mbind, M_bind.
  by destruct (write_event (XEnd name) b2) as [[[]| | |] b3].
Qed.
Lemma writes_leaf name value : writes (write_str_element name value) [leaf name value].
Proof. exact (writes_element name [] _ _ (writes_text value)). Qed.
Lemma writes_each {A} (f : A -> W) (g : A -> XmlTree) l :
  (forall x, writes (f x) [g x]) -> writes (each f l) (map g l).
Proof.
  intros Hf. induction l as [|x l IH]; [apply writes_nil|]. exact (writes_seq _ _ [g x] _ (Hf x) IH).
Qed.

Lemma writes_cons m m' t ts : writes m [t] -> writes m' ts -> writes (m ;; m') (t :: ts).
Proof. apply writes_seq. Qed.
End Trees.
Create HintDb xml.
#[export] Hint Resolve writes_nil writes_text writes_element writes_leaf writes_each : xml.
#[export] Hint Extern 1 (writes (mbind _ _) (_ :: _)) => apply writes_cons : xml.

Section Commands.
Context {B : Type} `{XmlWriter B}.

Lemma writes_privilege p : writes (write_privilege p) (privilege_trees p).
Proof. destruct p; simpl; auto with xml. Qed.
#[local] Hint Resolve writes_privilege : xml.

Lemma writes_credential c : writes (write_credential c) [credential_tree c].
Proof. apply writes_element. destruct (credential_type c); simpl; auto 10 with xml. Qed.
#[local] Hint Resolve writes_credential : xml.

Lemma writes_vts scan : writes (write_vts scan) [Element "vt_selection" [] (map vt_tree (scan_vts scan))].
Proof. apply writes_element, writes_each. intros v. apply writes_element, writes_each. intros q. apply writes_element, writes_text. Qed.
Lemma writes_prefs scan :
  writes (write_scanner_prefs scan)
    [Element "scanner_params" [] (map (fun p => leaf (Models.pref_id p) (pref_value p)) (scan_preferences scan))].
Proof. apply writes_element, writes_each. auto with xml. Qed.

(** C20: Every command is one well-formed element, whatever the scan contains: the events
    written are those of a tree with the tests and their values, the target with its
    credentials, and the scanner parameters, in this order. *)
Theorem osp_command_is_tree (c : ScanCommand) :
  try_to_xml c = match write_events (events (command_tree c)) xml_empty with
                 | (Ok _, b) => Ok b | (Err e, _) => Err e | (Panic, _) => Panic | (OutOfFuel, _) => OutOfFuel
                 end.
Proof.
  assert (forall id name add m ts, writes m ts -> as_byte_response id name add m
    = match write_events (events (Element name (("scan_id", id) :: add) ts)) xml_empty with
      | (Ok _, b) => Ok b | (Err e, _) => Err e | (Panic, _) => Panic | (OutOfFuel, _) => OutOfFuel end) as Ha.
  { intros id name add m ts Hm. unfold as_byte_response, within_id_element.
    rewrite (writes_element _ _ _ _ Hm). cbn [flat_map]. by rewrite app_nil_r. }
  destruct c as [scan|id|id|id|id]; try (apply Ha, writes_nil). apply Ha.
  apply writes_cons; [apply writes_vts|]. apply writes_cons; [|apply writes_prefs].
  apply writes_element, writes_element. repeat (apply writes_cons; [apply writes_leaf|]).
  apply writes_element, writes_each, writes_credential.
Qed.
End Commands.

(** Hosts that are excluded, the methods and the ports of the alive test are not part of
    the command that starts a scan: it is the same without them. *)
Theorem osp_drops_exclusions {B} `{XmlWriter B} (scan : ScanModel) (excluded : list string)
    (ports : list Port) (methods : list AliveTestMethods.t) :
  let t := scan_target scan in
  let t' := mkTarget (target_hosts t) (target_ports t) excluded (credentials t) ports methods
    (reverse_lookup_unify t) (reverse_lookup_only t) in
  try_to_xml (StartCmd (mkScanModel (scan_id scan) t' (scan_preferences scan) (scan_vts scan)))
  = try_to_xml (StartCmd scan).
Proof. reflexivity. Qed.

(** ** Results *)

(** A port is read as a number of 16 bits with sign: the result of a port above 32767
    has no port, while the protocol is kept. *)
Theorem high_port_lost `{HostDetailXml} (r : OspScanResult) (p : Z) :
  (32768 <= p)%Z -> o_port r = Some (pretty p ++ "/tcp") -> o_type r <> OspResultType.HostDetail ->
  exists x, result_of r = Ok x /\ port x = None /\ protocol x = Some TCP.
Proof.
  intros Hp Ho Ht. assert (port_and_protocol (o_port r) = (None, Some TCP)) as E.
  { unfold port_and_protocol. rewrite Ho. change "/tcp" with (String "/" "" +:+ "tcp").
    rewrite split_once_text_part by by apply pretty_Z_chars. simpl. f_equal.
    unfold i_from_str. destruct (i64_from_str_radix _ 10) as [z|] eqn:Ez; [|done]. simpl.
    unfold in_i. destruct ((- 2 ^ (16 - 1) <=? z) && (z <? 2 ^ (16 - 1)))%Z eqn:Hz; [|done]. exfalso.
    apply andb_true_iff in Hz as [_ Hz%Z.ltb_lt].
    destruct (show_Z_pos p ltac:(lia)) as (d & ds & Ed & _ & Hd & Hv). rewrite Ed in Ez.
    apply Forall_cons in Hd as [Hd _]. destruct (digit_no_sign d Hd) as [E1 E2].
    unfold i64_from_str_radix, parse_digits in Ez. rewrite E1, E2, Hv in Ez. simpl in Ez.
    destruct (in_i 64 p); [|done]. injection Ez as <-. change (2 ^ (16 - 1))%Z with 32768%Z in Hz. lia. }
  unfold result_of. rewrite E. unfold result_type_of. destruct (o_type r); try done; cbn;
    repeat case_decide; by eexists.
Qed.

Lemma arith_u_checked `{BuildProfile} z : overflow_checks = true ->
  arith_u 64 z = if in_u 64 z then Some z else None.
Proof. intros E. unfold arith_u. by rewrite E. Qed.
Lemma arith_u_release `{BuildProfile} z : overflow_checks = false -> arith_u 64 z = Some (z mod 2 ^ 64)%Z.
Proof.
  intros E. unfold arith_u. rewrite E. destruct (in_u 64 z) eqn:Ez; [|done].
  unfold in_u in Ez. apply andb_true_iff in Ez as [?%Z.leb_le ?%Z.ltb_lt]. by rewrite Z.mod_small.
Qed.

(** The number of queued hosts is what is left of all hosts when the excluded, the
    finished and the scanned ones are taken away; if nothing is left, a checked build
    panics and a release build reports a number close to 2^64. *)
Theorem osp_queued_overflows `{BuildProfile} (i : OspHostInfo) :
  in_u 64 (oh_total i) = true -> in_u 64 (oh_excluded i) = true -> in_u 64 (oh_alive i) = true ->
  let rest := (oh_total i - oh_excluded i - oh_alive i - Z.of_nat (length (oh_host i)))%Z in
  osp_queued i = if (0 <=? rest)%Z then Some rest
                 else if overflow_checks then None else Some (rest mod 2 ^ 64)%Z.
Proof.
  intros Ht He Ha rest. unfold in_u in Ht, He, Ha. rewrite andb_true_iff, Z.leb_le, Z.ltb_lt in Ht, He, Ha.
  unfold osp_queued.
  destruct overflow_checks eqn:Ec.
  - assert (forall z, in_u 64 z = true <-> 0 <= z < 2 ^ 64)%Z as Hu.
    { intros z. unfold in_u. by rewrite andb_true_iff, Z.leb_le, Z.ltb_lt. }
    rewrite arith_u_checked by done.
    destruct (in_u 64 _) eqn:E1; cbn [mbind option_bind]; [apply Hu in E1; rewrite arith_u_checked by done|].
    1: destruct (in_u 64 _) eqn:E2; cbn [mbind option_bind]; [apply Hu in E2; rewrite arith_u_checked by done|].
    1: destruct (in_u 64 _) eqn:E3; [apply Hu in E3|].
    all: destruct (Z.leb_spec 0 rest) as [Hr|Hr]; subst rest; try done; try (f_equal; lia).
    all: apply not_true_iff_false in E1 || apply not_true_iff_false in E2 || apply not_true_iff_false in E3.
    all: rewrite Hu in *; lia.
  - rewrite arith_u_release by done. cbn [mbind option_bind]. rewrite arith_u_release by done.
    cbn [mbind option_bind]. rewrite arith_u_release by done.
    rewrite Zminus_mod_idemp_l, <- Z.sub_add_distr, Zminus_mod_idemp_l, Z.sub_add_distr.
    subst rest. case_match eqn:Hr; [|done]. apply Z.leb_le in Hr. rewrite Z.mod_small; [done|lia].
Qed.

(** ** Examples *)
Module OspExample.
#[local] Instance no_details : HostDetailXml := {| read_host_detail := fun _ => [] |}.
Definition result (port : string) : OspScanResult :=
  mkOspScanResult (Some "127.0.0.1") None (Some port) (Some "1.2") "" OspResultType.Alarm "found".

Example low_port : port <$> (match result_of (result "22/tcp") with Ok x => Some x | _ => None end) = Some (Some 22%Z).
Proof. vm_compute. reflexivity. Qed.

Lemma high_port_lost_witness :
  (32768 <= 49152)%Z /\ exists x, result_of (result "49152/tcp") = Ok x /\ port x = None /\ protocol x = Some TCP.
Proof. split; [lia|]. apply (high_port_lost (result "49152/tcp") 49152); [lia|vm_compute; reflexivity|done]. Defined.

Definition info : OspHostInfo := mkOspHostInfo [mkOspHost "127.0.0.1" 3] 0 0 0 0 0.
Lemma osp_queued_overflows_witness :
  in_u 64 (oh_total info) = true /\ osp_queued (H := debug_build) info = None.
Proof. split; [done|]. exact (osp_queued_overflows (H := debug_build) info eq_refl eq_refl eq_refl). Defined.
End OspExample.
