(* ===== verification/Openvas.v ===== *)
(** * The wrapper of the C scanner ([openvas/])

    The two Redis contexts of a scan ([openvas_redis.rs]), the preferences that are written
    for it ([pref_handler.rs]), the collection of its results and progress
    ([result_collector.rs]) and the scanner of the daemon that starts and watches the
    processes ([openvas.rs], [cmd.rs]).

    The configuration of openvas, its processes and the clock are parameters.  Progress is
    computed with [f32], the binary format with 24 bits of precision, by the operations of
    the Standard Library on [spec_float]. *)

From Stdlib Require Import Floats.SpecFloat.
From S2P Require Import Prelude RustStr Token Statement NaslValue Errors Register Executor FnArgs Files StringFns StringFnsProps Text Nvt Storage Redis Models Scheduling HostInfo Scanner Crypt ScanStore Scheduler Osp.
Local Open Scope string_scope.

(** ** openvas_redis.rs *)
Class KbAccess (H : Type) := {
  push_kb_item : string -> list string -> M H RedisDbError.t unit;
  kb_scan_status : string -> M H RedisDbError.t string;
  kb_id : M H RedisDbError.t Z;
  kb_results : M H RedisDbError.t (list string);
  kb_status : M H RedisDbError.t (list string);
  kb_release : M H RedisDbError.t unit
}.
Class VtHelper (H : Type) := { get_vt : string -> M H RedisDbError.t (option Nvt) }.

(** [RedisHelper]: the cache of tests and the knowledge base of the task, on one server *)
Record RedisHelper (S : Type) := mkHelper { h_server : S; h_cache : RedisCtx; h_task : RedisCtx }.
Arguments mkHelper {S}.
Arguments h_server {S}.
Arguments h_cache {S}.
Arguments h_task {S}.

Section RedisHelper.
Context {S : Type} `{RedisServer S}.

Definition on_task_kb {A} (m : M (Redis S) RedisDbError.t A) : M (RedisHelper S) RedisDbError.t A := fun h =>
  let '(o, r) := m (mkRedis (h_server h) (h_task h)) in (o, mkHelper (redis r) (h_cache h) (ctx r)).
Definition on_nvti_cache {A} (m : M (Redis S) RedisDbError.t A) : M (RedisHelper S) RedisDbError.t A := fun h =>
  let '(o, r) := m (mkRedis (h_server h) (h_cache h)) in (o, mkHelper (redis r) (ctx r) (h_task h)).

#[global] Instance helper_kb : KbAccess (RedisHelper S) := {|
  push_kb_item := fun key value => on_task_kb (lpush key value);
  kb_scan_status := fun id => on_task_kb (lindex ("internal/" ++ id) 0);
  kb_id := gets (fun h => ctx_db (h_task h));
  kb_results := on_task_kb (pop "internal/results");
  kb_status := on_task_kb (pop "internal/status");
  kb_release := on_task_kb delete_namespace
|}.
#[global] Instance helper_vt : VtHelper (RedisHelper S) := {|
  get_vt := fun oid => on_nvti_cache (redis_get_vt oid)
|}.
End RedisHelper.

(** ** pref_handler.rs *)
Definition OID_SSH_AUTH : string := "1.3.6.1.4.1.25623.1.0.103591".
Definition OID_SMB_AUTH : string := "1.3.6.1.4.1.25623.1.0.90023".
Definition OID_ESXI_AUTH : string := "1.3.6.1.4.1.25623.1.0.105058".
Definition OID_SNMP_AUTH : string := "1.3.6.1.4.1.25623.1.0.105076".
Definition OID_PING_HOST : string := "1.3.6.1.4.1.25623.1.0.100315".
Definition BOREAS_ALIVE_TEST : string := "ALIVE_TEST".
Definition BOREAS_ALIVE_TEST_PORTS : string := "ALIVE_TEST_PORTS".
Definition ALIVE_TEST_SCAN_CONFIG_DEFAULT : Z := 0.

Definition bool_to_str (value : string) : string := if decide (value = "0") then "no" else "yes".
Definition kb_entry (key value : string) : string := key ++ "|||" ++ value.

(** The methods of the alive test as bits of [u8] *)
Definition alive_bits (methods : list AliveTestMethods.t) : Z :=
  foldl (fun acc m => Z.lor acc (AliveTestMethods.value m)) ALIVE_TEST_SCAN_CONFIG_DEFAULT methods.
Definition has_method (bits : Z) (m : AliveTestMethods.t) : bool :=
  negb (Z.land bits (AliveTestMethods.value m) =? 0)%Z.
(** [!x != 0] with the complement of [u8] *)
Definition complement_nonzero (x : Z) : bool := negb (Z.lxor x 255 =? 0)%Z.
Definition yes_if (b : bool) : string := if b then "yes" else "no".

Definition ping_key (rest : string) : string := OID_PING_HOST ++ ":" ++ rest.
Definition alive_test_prefs (methods : list AliveTestMethods.t) : gmap string string :=
  let a := alive_bits methods in
  let ack := has_method a AliveTestMethods.TcpAck in
  let syn := has_method a AliveTestMethods.TcpSyn in
  <[ping_key "5:checkbox:Mark unreachable Hosts as dead (not scanning)" :=
      if has_method a AliveTestMethods.ConsiderAlive then "no" else "yes"]>
  (<[ping_key "4:checkbox:Use ARP" := yes_if (has_method a AliveTestMethods.Arp)]>
  (<[ping_key "3:checkbox:Do an ICMP ping" := yes_if (has_method a AliveTestMethods.Icmp)]>
  (<[ping_key "7:checkbox:TCP ping tries only TCP-SYN ping" :=
      yes_if (syn && complement_nonzero (Z.land a (AliveTestMethods.value AliveTestMethods.TcpAck)))]>
  (<[ping_key "2:checkbox:TCP ping tries also TCP-SYN ping" := yes_if (ack && syn)]>
  (<[ping_key "1:checkbox:Do a TCP ping" := yes_if (ack || syn)]> ∅))))).

Definition ssh_privilege (p : option PrivilegeInformation) : list string :=
  match p with
  | Some p =>
      [OID_SSH_AUTH ++ ":7:entry:SSH privilege login name:|||" ++ priv_username p;
       OID_SSH_AUTH ++ ":8:password:SSH privilege password:|||" ++ priv_password p]
  | None => []
  end.
(** The preferences of one credential *)
Definition credential_preferences (c : Credential) : list string :=
  match service c with
  | Service.SSH =>
      ("auth_port_ssh|||" ++ match cred_port c with Some p => pretty p | None => "22" end)
      :: match credential_type c with
         | UP username password privilege =>
             app [OID_SSH_AUTH ++ ":3:password:SSH password (unsafe!):|||" ++ password;
                  OID_SSH_AUTH ++ ":1:entry:SSH login name:|||" ++ username]
               (ssh_privilege privilege)
         | USK username password private_key privilege =>
             app [OID_SSH_AUTH ++ ":1:entry:SSH login name:|||" ++ username;
                  OID_SSH_AUTH ++ ":2:password:SSH key passphrase:|||" ++ password;
                  OID_SSH_AUTH ++ ":4:file:SSH private key:|||" ++ private_key]
               (ssh_privilege privilege)
         | SNMP _ _ _ _ _ _ => []
         end
  | Service.SMB =>
      match credential_type c with
      | UP username password _ =>
          [OID_SMB_AUTH ++ ":1:entry:SMB login:|||" ++ username;
           OID_SMB_AUTH ++ ":2:password:SMB password:|||" ++ password]
      | _ => []
      end
  | Service.ESXi =>
      match credential_type c with
      | UP username password _ =>
          [OID_ESXI_AUTH ++ ":1:entry:ESXi login name:|||" ++ username;
           OID_ESXI_AUTH ++ ":2:password:ESXi login password:|||" ++ password]
      | _ => []
      end
  | Service.SNMP =>
      match credential_type c with
      | SNMP username password community auth_algorithm privacy_password privacy_algorithm =>
          if bool_decide (privacy_algorithm = "")
             && (negb (bool_decide (privacy_password = ""))
                 || (negb (bool_decide (privacy_algorithm = "aes")) && negb (bool_decide (privacy_algorithm = "des"))))
          then []
          else if bool_decide (auth_algorithm = "")
             || (negb (bool_decide (auth_algorithm = "md5")) && negb (bool_decide (auth_algorithm = "sha1")))
          then []
          else
            [OID_SNMP_AUTH ++ ":1:password:SNMP Community:|||" ++ community;
             OID_SNMP_AUTH ++ ":2:entry:SNMPv3 Username:|||" ++ username;
             OID_SNMP_AUTH ++ ":3:password:SNMPv3 Password:|||" ++ password;
             OID_SNMP_AUTH ++ ":4:radio:SNMPv3 Authentication Algorithm:|||" ++ auth_algorithm;
             OID_SNMP_AUTH ++ ":5:password:SNMPv3 Privacy Password:|||" ++ privacy_password;
             OID_SNMP_AUTH ++ ":6:radio:SNMPv3 Privacy Algorithm:|||" ++ privacy_algorithm]
      | _ => []
      end
  end.

(** [cmd::read_openvas_config]: the settings by section and key, or a failed call; output
    that is no configuration panics. *)
Class OpenvasConfig := { read_openvas_config : outcome string (string -> string -> option string) }.

Record PreferenceHandler (H : Type) := mkPreferenceHandler { redis_connector : H; nvt_params : gmap string string }.
Arguments mkPreferenceHandler {H}.
Arguments redis_connector {H}.
Arguments nvt_params {H}.

Section PreferenceHandler.
Context {H : Type} `{KbAccess H} `{VtHelper H} `{HashOrder} `{OpenvasConfig} (scan_config : ScanModel).
Abbreviation P := (M (PreferenceHandler H) RedisDbError.t).

Definition on_connector {A} (m : M H RedisDbError.t A) : P A := fun p =>
  let '(o, h) := m (redis_connector p) in (o, mkPreferenceHandler h (nvt_params p)).
Definition extend_params (prefs : gmap string string) : P unit :=
  modify (fun p => mkPreferenceHandler (redis_connector p) (prefs ∪ nvt_params p)).

Definition scanprefs_key : string := "internal/" ++ scan_id scan_config ++ "/scanprefs".
Definition push_prefs (l : list string) : P unit := on_connector (push_kb_item scanprefs_key l).

Definition prepare_main_kbindex_for_openvas : P unit :=
  id ← on_connector kb_id; push_prefs [kb_entry "ov_maindbid" (pretty id)].
Definition prepare_scan_id_for_openvas : P unit :=
  on_connector (push_kb_item ("internal/" ++ scan_id scan_config) ["new"]) ;;
  on_connector (push_kb_item "internal/scanid" [scan_id scan_config]).

(** The preference of a test with a number ([i as u16]), as it is stored *)
Fixpoint find_preference (id : Z) (l : list NvtPreference) : P (option (string * string * string * string)) :=
  match l with
  | [] => mret None
  | p :: l' =>
      match Nvt.pref_id p with
      | Some i => if decide (wrap_u 16 i = id) then x ← or_panic (preference_texts p); mret (Some x)
                  else find_preference id l'
      | None => find_preference id l'
      end
  end.
Fixpoint parameter_prefs (oid : string) (prefs : list NvtPreference) (params : list Parameter_)
  (acc : gmap string string) : P (gmap string string) :=
  match params with
  | [] => mret acc
  | pref :: params' =>
      found ← find_preference (param_id pref) prefs;
      match found with
      | Some (prefid, class, name, _) =>
          let value_aux := if decide (class = "checkbox") then bool_to_str (param_value pref) else param_value pref in
          parameter_prefs oid prefs params' (<[oid ++ ":" ++ prefid ++ ":" ++ class ++ ":" ++ name := value_aux]> acc)
      | None => parameter_prefs oid prefs params' acc
      end
  end.
(** An error of the cache panics. *)
Fixpoint process_vts (l : list VT) (vts_list : list string) (pref_list : gmap string string) :
  P (list string * gmap string string) :=
  match l with
  | [] => mret (vts_list, pref_list)
  | vt :: l' =>
      r ← attempt (on_connector (get_vt (vt_oid vt)));
      nvt ← or_panic (match r with inl n => Some n | inr _ => None end);
      match nvt with
      | Some nvt =>
          prefs ← parameter_prefs (vt_oid vt) (preferences nvt) (parameters vt) pref_list;
          process_vts l' (vts_list ++ [vt_oid vt]) prefs
      | None => process_vts l' vts_list pref_list
      end
  end.

Definition prepare_plugins_for_openvas : P unit :=
  match scan_vts scan_config with
  | [] => mret tt
  | vts =>
      r ← process_vts vts [] ∅;
      extend_params r.2 ;;
      push_prefs [kb_entry "plugin_set" (join_text ";" r.1)]
  end.

Definition prepare_nvt_preferences : P unit :=
  params ← gets nvt_params;
  match map (fun kv => kb_entry kv.1 kv.2) (iter params) with
  | [] => mret tt
  | items => push_prefs items
  end.

Definition prepare_alive_test_option_for_openvas : P unit :=
  extend_params (alive_test_prefs (alive_test_methods (scan_target scan_config))).

Definition push_boreas : P unit :=
  let alive_test := alive_bits (alive_test_methods (scan_target scan_config)) in
  (if ((1 <=? alive_test) && (alive_test <=? 31))%Z then
     push_prefs [kb_entry BOREAS_ALIVE_TEST (pretty alive_test)]
   else mret tt) ;;
  (if decide (alive_test = ALIVE_TEST_SCAN_CONFIG_DEFAULT) then
     push_prefs [kb_entry BOREAS_ALIVE_TEST (pretty (AliveTestMethods.value AliveTestMethods.Icmp))]
   else mret tt) ;;
  match ports_to_openvas_port_list (alive_test_ports (scan_target scan_config)) with
  | Some ports => push_prefs [kb_entry BOREAS_ALIVE_TEST_PORTS ports]
  | None => mret tt
  end.
Definition prepare_boreas_alive_test : P unit :=
  match read_openvas_config with
  | Ok config =>
      if decide (config "default" "test_alive_hosts_only" = Some "no") then mret tt else push_boreas
  | Err _ => push_boreas
  | Panic => panic
  | OutOfFuel => out_of_fuel
  end.

Definition is_set (b : option bool) : bool := default false b.
Definition prepare_reverse_lookup_opt_for_openvas : P unit :=
  push_prefs [kb_entry "reverse_lookup_only" (yes_if (is_set (reverse_lookup_only (scan_target scan_config))));
              kb_entry "reverse_lookup_unify" (yes_if (is_set (reverse_lookup_unify (scan_target scan_config))))].
Definition prepare_target_for_openvas : P unit :=
  push_prefs [kb_entry "TARGET" (join_text "," (hosts scan_config))].
Definition prepare_ports_for_openvas : P unit :=
  match ports_to_openvas_port_list (target_ports (scan_target scan_config)) with
  | Some ports => push_prefs [kb_entry "port_range" ports]
  | None => mret tt
  end.
Definition prepare_host_options_for_openvas : P unit :=
  let excluded := join_text "," (excluded_hosts (scan_target scan_config)) in
  if decide (excluded = "") then mret tt else push_prefs [kb_entry "exclude_hosts" excluded].
Definition prepare_scan_params_for_openvas : P unit :=
  match map (fun x => kb_entry (Models.pref_id x) (pref_value x)) (scan_preferences scan_config) with
  | [] => mret tt
  | options => push_prefs options
  end.
Definition prepare_credentials_for_openvas : P unit :=
  match credentials (scan_target scan_config) ≫= credential_preferences with
  | [] => mret tt
  | prefs => push_prefs prefs
  end.

Definition prepare_preferences_for_openvas : P unit :=
  prepare_scan_id_for_openvas ;;
  prepare_target_for_openvas ;;
  prepare_ports_for_openvas ;;
  prepare_credentials_for_openvas ;;
  prepare_plugins_for_openvas ;;
  prepare_main_kbindex_for_openvas ;;
  prepare_host_options_for_openvas ;;
  prepare_scan_params_for_openvas ;;
  prepare_reverse_lookup_opt_for_openvas ;;
  prepare_alive_test_option_for_openvas ;;
  prepare_nvt_preferences ;;
  prepare_boreas_alive_test.
End PreferenceHandler.

(** ** [f32] *)
Module F32.
Definition t : Set := spec_float.
Definition prec : Z := 24.
Definition emax : Z := 128.
Definition of_Z (n : Z) : t := binary_normalize prec emax n 0 false.
Definition div : t -> t -> t := SFdiv prec emax.
Definition mul : t -> t -> t := SFmul prec emax.

(** The digits at the front of a text and the rest *)
Fixpoint digits (acc : Z) (n : nat) (l : list char) : Z * nat * list char :=
  match l with
  | c :: l' => if is_ascii_digit c then digits (acc * 10 + (Z.of_N (code c) - 48)) (S n) l' else (acc, n, l)
  | [] => (acc, n, [])
  end.
(** [m * 10 ^ e] with [n] digits, rounded to nearest *)
Definition of_decimal (neg : bool) (m : Z) (n : nat) (e : Z) : t :=
  match m with
  | Zpos p =>
      if (50 <? e + Z.of_nat n)%Z then S754_infinity neg
      else if (e + Z.of_nat n <? -60)%Z then S754_zero neg
      else if (0 <=? e)%Z then
        match binary_normalize prec emax (m * 10 ^ e) 0 false with
        | S754_finite _ q x => S754_finite neg q x
        | S754_infinity _ => S754_infinity neg
        | S754_zero _ => S754_zero neg
        | S754_nan => S754_nan
        end
      else match (10 ^ (- e))%Z with Zpos q => div (S754_finite neg p 0) (S754_finite false q 0) | _ => S754_nan end
  | _ => S754_zero neg
  end.
Definition lower (l : list char) : string := string_of (map to_lowercase l).
(** [f32::from_str] *)
Definition from_unsigned (neg : bool) (l : list char) : option t :=
  if decide (lower l ∈ ["inf"; "infinity"]) then Some (S754_infinity neg)
  else if decide (lower l = "nan") then Some S754_nan
  else
    let '(m, n, rest) := digits 0 0 l in
    let '(m, k, rest) :=
      match rest with
      | "."%char :: rest' => let '(m', n', r) := digits m 0 rest' in (m', n', r)
      | _ => (m, 0%nat, rest)
      end in
    if decide (n + k = 0)%nat then None
    else
      let value e := of_decimal neg m (n + k) (e - Z.of_nat k) in
      match rest with
      | [] => Some (value 0%Z)
      | c :: rest' =>
          if decide (c ∈ ["e"%char; "E"%char]) then
            let '(sign, ds) :=
              match rest' with
              | "-"%char :: ds => ((-1)%Z, ds)
              | "+"%char :: ds => (1%Z, ds)
              | _ => (1%Z, rest')
              end in
            match digits 0 0 ds with
            | (x, S _, []) => Some (value (sign * x)%Z)
            | _ => None
            end
          else None
      end.
Definition from_str (s : string) : option t :=
  match chars_of s with
  | "-"%char :: l => from_unsigned true l
  | "+"%char :: l => from_unsigned false l
  | l => from_unsigned false l
  end.

(** [as i32]: towards zero, within the range, 0 for NaN *)
Definition to_i32 (x : t) : Z :=
  let clamp z := Z.max (- 2 ^ 31) (Z.min (2 ^ 31 - 1) z) in
  match x with
  | S754_zero _ | S754_nan => 0
  | S754_infinity s => if s then - 2 ^ 31 else 2 ^ 31 - 1
  | S754_finite s m e =>
      let v := if 0 <=? e then Z.pos m * 2 ^ e else Z.pos m / 2 ^ (- e) in
      clamp (if s then - v else v)
  end%Z.
End F32.

(** ** result_collector.rs *)
Record Results := mkResults {
  res_results : list OspScanResult; count_total : Z; count_excluded : Z; count_alive : Z; count_dead : Z;
  host_status : gmap string Z; res_scan_status : string
}.
Definition default_results : Results := mkResults [] 0 0 0 0 ∅ "".

Record ResultHelper (H : Type) := mkResultHelper { rh_connector : H; rh_results : Results }.
Arguments mkResultHelper {H}.
Arguments rh_connector {H}.
Arguments rh_results {H}.

(** The fields of a line of results; a line with less than six panics. *)
Record ResultLine := mkLine {
  l_type : string; l_host : string; l_hostname : string; l_port : string; l_oid : string; l_value : string
}.
Definition result_line (s : string) : option ResultLine :=
  match map trim_text (split_text "|||" s) with
  | t :: h :: n :: p :: o :: v :: _ => Some (mkLine t h n p o v)
  | _ => None
  end.

Definition host_is_dead (l : ResultLine) : bool :=
  contains_text (l_value l) "Host dead" || bool_decide (l_type l = "DEADHOST").
Definition host_deny (l : ResultLine) : bool := contains_text (l_value l) "Host access denied".
Definition start_end_msg (l : ResultLine) : bool :=
  bool_decide (l_type l = "HOST_START") || bool_decide (l_type l = "HOST_END").
Definition needs_vt (l : ResultLine) : bool :=
  negb (host_is_dead l) && negb (host_deny l) && negb (start_end_msg l)
  && negb (bool_decide (l_type l = "HOSTS_COUNT")) && negb (bool_decide (l_type l = "HOSTS_EXCLUDED")).

(** The type of the result a line gives *)
Definition line_result_type (l : ResultLine) : option OspResultType.t :=
  if decide (l_type l = "ERRMSG") then Some OspResultType.Error
  else if decide (l_type l = "LOG") then Some OspResultType.Log
  else if decide (l_type l = "HOST_START") then Some OspResultType.HostStart
  else if decide (l_type l = "HOST_END") then Some OspResultType.HostEnd
  else if decide (l_type l = "ALARM") then Some OspResultType.Alarm
  else None.
Definition line_result (l : ResultLine) (t : OspResultType.t) (rname : string) : OspScanResult :=
  mkOspScanResult (Some (l_host l)) (Some (l_hostname l)) (Some (l_port l)) (Some (l_oid l)) rname t (l_value l).

(** What is collected while the lines are read *)
Record Collected := mkCollected { c_results : list OspScanResult; c_dead : Z; c_total : Z; c_excluded : Z }.

Section ResultHelper.
Context {H : Type} `{KbAccess H} `{VtHelper H} `{BuildProfile}.
Abbreviation R := (M (ResultHelper H) RedisDbError.t).

Definition on_redis {A} (m : M H RedisDbError.t A) : R A := fun r =>
  let '(o, h) := m (rh_connector r) in (o, mkResultHelper h (rh_results r)).
Definition update_results (f : Results -> option Results) : R unit :=
  r ← get;
  x ← or_panic (f (rh_results r));
  put (mkResultHelper (rh_connector r) x).

Definition line_name (l : ResultLine) : R string :=
  if needs_vt l then vt ← on_redis (get_vt (trim_text (l_oid l))); mret (default "" (name <$> vt)) else mret "".

(** [i64::from_str(..).expect(..)] *)
Definition number (s : string) : R Z := or_panic (i_from_str 64 s).

Definition collect_line (c : Collected) (l : ResultLine) : R Collected :=
  rname ← line_name l;
  match line_result_type l with
  | Some t => mret (mkCollected (c_results c ++ [line_result l t rname]) (c_dead c) (c_total c) (c_excluded c))
  | None =>
      if decide (l_type l = "DEADHOST") then
        v ← number (l_value l);
        d ← or_panic (arith_i 64 (c_dead c + v));
        mret (mkCollected (c_results c) d (c_total c) (c_excluded c))
      else if decide (l_type l = "HOSTS_COUNT") then
        v ← number (l_value l); mret (mkCollected (c_results c) (c_dead c) v (c_excluded c))
      else if decide (l_type l = "HOSTS_EXCLUDED") then
        v ← number (l_value l); mret (mkCollected (c_results c) (c_dead c) (c_total c) v)
      else mret c
  end.
Fixpoint collect_lines (c : Collected) (lines : list string) : R Collected :=
  match lines with
  | [] => mret c
  | s :: rest => l ← or_panic (result_line s); c' ← collect_line c l; collect_lines c' rest
  end.

Definition process_results (ov_results : list string) : R unit :=
  c ← collect_lines (mkCollected [] 0 0 0) ov_results;
  update_results (fun r =>
    d ← arith_i 64 (count_dead r + c_dead c);
    Some (mkResults (c_results c) (c_total c) (c_excluded c) (count_alive r) d (host_status r) (res_scan_status r))).
Definition collect_results : R unit :=
  l ← attempt (on_redis kb_results);
  match l with inl redis_results => process_results redis_results | inr _ => mret tt end.

(** The progress of one line of status: [None] leaves it out. *)
Definition host_progress (launched total : string) : R (option Z) :=
  match i_from_str 32 total with
  | None => mret None
  | Some n =>
      if decide (n = 0%Z) then mret None
      else if decide (n = (-1)%Z) then mret (Some (-1)%Z)
      else
        x ← or_panic (F32.from_str launched);
        mret (Some (F32.to_i32 (F32.mul (F32.div x (F32.of_Z n)) (F32.of_Z 100))))
  end.
Fixpoint status_lines (dead alive : Z) (all_hosts : gmap string Z) (lines : list string) : R (Z * Z * gmap string Z) :=
  match lines with
  | [] => mret (dead, alive, all_hosts)
  | s :: rest =>
      match splitn_text 3 "/" s with
      | [current_host; launched; total] =>
          p ← host_progress launched total;
          match p with
          | None => status_lines dead alive all_hosts rest
          | Some p =>
              d ← or_panic (if decide (p = (-1)%Z) then arith_i 64 (dead + 1) else Some dead);
              a ← or_panic (if decide (p = 100%Z) then arith_i 64 (alive + 1) else Some alive);
              status_lines d a (<[current_host := p]> all_hosts) rest
          end
      | _ => panic
      end
  end.
Definition process_status (redis_status : list string) : R unit :=
  r ← status_lines 0 0 ∅ redis_status;
  let '(new_dead, new_alive, all_hosts) := r in
  update_results (fun r =>
    a ← arith_i 64 (count_alive r + new_alive);
    d ← arith_i 64 (count_dead r + new_dead);
    Some (mkResults (res_results r) (count_total r) (count_excluded r) a d (all_hosts ∪ host_status r) (res_scan_status r))).
Definition collect_host_status : R unit :=
  l ← attempt (on_redis kb_status);
  match l with inl redis_status => process_status redis_status | inr _ => mret tt end.
Definition collect_scan_status (id : string) : R unit :=
  l ← attempt (on_redis (kb_scan_status id));
  match l with
  | inl s => update_results (fun r => Some (mkResults (res_results r) (count_total r) (count_excluded r)
      (count_alive r) (count_dead r) (host_status r) s))
  | inr _ => mret tt
  end.
End ResultHelper.

(** ** openvas.rs *)
Module OpenvasError.
Inductive t : Type :=
| DuplicateScanID (id : string) | MissingExec | ScanNotFound (id : string) | CmdError (text : string)
| MaxQueuedScans | UnableToRunExec.
Definition to_string (e : t) : string :=
  match e with
  | DuplicateScanID id => "A scan with ID " ++ id ++ " already exists."
  | MissingExec => "Unable to launch openvas executable."
  | ScanNotFound id => "A scan with ID " ++ id ++ " not found."
  | CmdError e => "Unable to run command: " ++ e
  | MaxQueuedScans => "Maximum number of queued scan reached."
  | UnableToRunExec => "Unable to run openvas."
  end.
Definition to_scan_error (e : t) : ScanError.t := ScanError.Unexpected (to_string e).
End OpenvasError.

Module OpenvasPhase.
Inductive t : Set := New | Ready | Finished | Stopped.
Definition to_string (p : t) : string :=
  match p with New => "requested" | Ready => "running" | Stopped => "stopped" | Finished => "failed" end.
Definition from_str (s : string) : option t :=
  if decide (s = "new") then Some New
  else if decide (s = "ready") then Some Ready
  else if decide (s = "stopped") then Some Stopped
  else if decide (s = "finished") then Some Finished
  else None.
Definition phase (p : t) : Phase.t :=
  match p with
  | New => Phase.Requested | Ready => Phase.Running | Finished => Phase.Succeeded | Stopped => Phase.Stopped
  end.
End OpenvasPhase.

(** The processes ([cmd.rs]), with the text of a failed call, the check of the resources and
    the clock *)
Class OpenvasCmd (X : Type) := {
  Child : Type;
  cmd_start : string -> bool -> M X string Child;
  cmd_stop : string -> bool -> M X string Child;
  cmd_wait : Child -> M X string (option Z);
  cmd_in_boundaries : X -> bool;
  cmd_now : X -> Z
}.

Record OpenvasScanner (S X : Type) `{OpenvasCmd X} := mkOpenvas {
  running : gmap string (Child * Z); sudo : bool; has_checker : bool; ov_redis : S; ov_procs : X
}.
Arguments mkOpenvas {S X _}.
Arguments running {S X _}.
Arguments sudo {S X _}.
Arguments has_checker {S X _}.
Arguments ov_redis {S X _}.
Arguments ov_procs {S X _}.

Section OpenvasScanner.
Context {S X : Type} `{RedisServer S} `{OpenvasCmd X} `{HashOrder} `{OpenvasConfig} `{BuildProfile} `{HostDetailXml}.
Abbreviation V := (OpenvasScanner S X).
Abbreviation O := (M V ScanError.t).

Definition set_running (m : gmap string (Child * Z)) : O unit :=
  modify (fun v => mkOpenvas m (sudo v) (has_checker v) (ov_redis v) (ov_procs v)).
Definition on_server {A} (m : M S RedisDbError.t A) : M V RedisDbError.t A := fun v =>
  let '(o, s) := m (ov_redis v) in (o, mkOpenvas (running v) (sudo v) (has_checker v) s (ov_procs v)).
(** A call of a process; its error becomes one of the scanner. *)
Definition on_procs {A} (m : M X string A) : O A := fun v =>
  let '(o, x) := err_into (fun e => OpenvasError.to_scan_error (OpenvasError.CmdError e)) m (ov_procs v) in
  (o, mkOpenvas (running v) (sudo v) (has_checker v) (ov_redis v) x).
(** A computation on a helper, over the server of the scanner *)
Definition on_helper {A} (c : RedisCtx * RedisCtx) (m : M (RedisHelper S) RedisDbError.t A) :
  M V RedisDbError.t (A * (RedisCtx * RedisCtx)) := fun v =>
  let '(o, h) := m (mkHelper (ov_redis v) c.1 c.2) in
  let v' := mkOpenvas (running v) (sudo v) (has_checker v) (h_server h) (ov_procs v) in
  match o with
  | Ok a => (Ok (a, (h_cache h, h_task h)), v')
  | Err e => (Err e, v')
  | Panic => (Panic, v')
  | OutOfFuel => (OutOfFuel, v')
  end.
Definition unexpected {A} (m : M V RedisDbError.t A) : O A :=
  err_into (fun e => ScanError.Unexpected (RedisDbError.to_string e)) m.
Definition connection_error {A} (m : M V RedisDbError.t A) : O A :=
  err_into (fun e => ScanError.Connection (RedisDbError.to_string e)) m.
Definition not_found {A} (id : string) : O A := throw (OpenvasError.to_scan_error (OpenvasError.ScanNotFound id)).

(** The contexts of the cache and of the task *)
Definition create_redis_connector (dbid : option Z) : O (RedisCtx * RedisCtx) :=
  kbctx ← connection_error (on_server (open [match dbid with Some id => Fix id | None => Free end]));
  nvtcache ← connection_error (on_server (open [Key "nvticache"]));
  mret (nvtcache, kbctx).

Definition add_running (id : string) (dbid : Z) : O unit :=
  v ← get;
  openvas ← on_procs (cmd_start id (sudo v));
  v ← get;
  set_running (<[id := (openvas, dbid)]> (running v)).
Definition remove_running (id : string) : O (option (Child * Z)) :=
  v ← get;
  set_running (delete id (running v)) ;;
  mret (running v !! id).

(** The handler of the preferences over a helper *)
Definition with_preferences {A} (m : M (PreferenceHandler (RedisHelper S)) RedisDbError.t A) :
  M (RedisHelper S) RedisDbError.t A := fun h =>
  let '(o, p) := m (mkPreferenceHandler h ∅) in (o, redis_connector p).
Definition with_results (m : M (ResultHelper (RedisHelper S)) RedisDbError.t unit) (r : Results) :
  M (RedisHelper S) RedisDbError.t Results := fun h =>
  let '(o, x) := m (mkResultHelper h r) in
  match o with
  | Ok _ => (Ok (rh_results x), rh_connector x)
  | Err e => (Err e, rh_connector x)
  | Panic => (Panic, rh_connector x)
  | OutOfFuel => (OutOfFuel, rh_connector x)
  end.

Definition ov_start_scan (scan : ScanModel) : O unit :=
  c ← create_redis_connector None;
  r ← unexpected (on_helper c (with_preferences (prepare_preferences_for_openvas scan)));
  add_running (scan_id scan) (ctx_db r.2.2).

Definition ov_can_start_scan (_ : ScanModel) (v : V) : bool :=
  if has_checker v then cmd_in_boundaries (ov_procs v) else true.

Definition ov_stop_scan (id : string) : O unit :=
  r ← remove_running id;
  match r with
  | None => not_found id
  | Some (scan, dbid) =>
      v ← get;
      stopping ← on_procs (cmd_stop id (sudo v));
      on_procs (cmd_wait stopping) ;;
      on_procs (cmd_wait scan) ;;
      c ← create_redis_connector (Some dbid);
      unexpected (on_helper c kb_release) ;; mret tt
  end.

(** The database of a running scan *)
Definition running_db (id : string) : O Z :=
  v ← get; match running v !! id with Some scan => mret scan.2 | None => not_found id end.
Definition phase_of (r : Results) : O Phase.t :=
  match OpenvasPhase.from_str (res_scan_status r) with
  | Some p => mret (OpenvasPhase.phase p)
  | None => throw (ScanError.Unexpected ("Invalid Phase status " ++ res_scan_status r))
  end.

Definition ov_delete_scan (id : string) : O unit :=
  dbid ← running_db id;
  c ← create_redis_connector (Some dbid);
  r ← unexpected (on_helper c (with_results (collect_scan_status id) default_results));
  scan_status ← phase_of r.1;
  if decide (scan_status = Phase.Running) then
    throw (ScanError.Unexpected ("Not allowed to delete a running scan " ++ id))
  else
    removed ← remove_running id;
    match removed with
    | Some _ => unexpected (on_helper r.2 kb_release) ;; mret tt
    | None => not_found id
    end.

(** The status that is reported: counters of [i64] become [u64]. *)
Definition fetched_status (r : Results) (p : Phase.t) (now : Z) : Status :=
  let hosts_info := build (mkHostInfoBuilder (wrap_u 64 (count_total r)) (wrap_u 64 (count_excluded r))
    (wrap_u 64 (count_dead r)) (wrap_u 64 (count_alive r)) 0 (wrap_u 64 (count_alive r)) (Some (host_status r))) in
  mkStatus (if decide (p = Phase.Running) then Some now else None)
    (if decide (p ∈ [Phase.Failed; Phase.Stopped; Phase.Succeeded]) then Some now else None) p (Some hosts_info).

Definition ov_fetch_results (id : string) : O ScanResults :=
  dbid ← running_db id;
  c ← create_redis_connector (Some dbid);
  r1 ← unexpected (on_helper c (with_results collect_results default_results));
  r2 ← unexpected (on_helper r1.2 (with_results collect_host_status r1.1));
  r3 ← unexpected (on_helper r2.2 (with_results (collect_scan_status id) r2.1));
  status ← phase_of r3.1;
  v ← get;
  let st := fetched_status r3.1 status (cmd_now (ov_procs v)) in
  results ← of_total (mapM result_of (res_results r3.1));
  if decide (status = Phase.Succeeded) then
    removed ← remove_running id;
    match removed with
    | None => not_found id
    | Some scan =>
        code ← on_procs (cmd_wait scan.1);
        let st' :=
          match code with
          | Some c => if decide (c = 0%Z) then st else mkStatus (end_time st) (end_time st) Phase.Failed None
          | None => st
          end in
        unexpected (on_helper r3.2 kb_release) ;;
        v ← get;
        set_running (delete id (running v)) ;;
        mret (mkScanResults id st' results)
    end
  else mret (mkScanResults id st results).

Definition openvas_scanner : ScanRunner V := {|
  can_start_scan := ov_can_start_scan;
  x_start_scan := ov_start_scan;
  x_stop_scan := ov_stop_scan;
  x_fetch_results := ov_fetch_results;
  do_addition := true
|}.
End OpenvasScanner.
