(* ===== verification/OpenvasProps.v ===== *)
(** * The wrapper of the C scanner: theorems

    Which preferences a scan becomes, that running scans own their databases, which
    databases are lost, and what happens to fetched results. *)

From S2P Require Import Prelude RustStr Token Statement NaslValue Errors Register Executor FnArgs Files StringFns StringFnsProps Text Nvt Storage Redis RedisProps Models Scheduling HostInfo Scanner Crypt ScanStore Scheduler Osp Openvas.
Local Open Scope string_scope.

#[global] Instance AliveTestMethods_eq_dec : EqDecision AliveTestMethods.t.
Proof. solve_decision. Defined.

(** ** The alive test *)
Lemma method_bits m m' :
  (Z.land (AliveTestMethods.value m') (AliveTestMethods.value m) =? 0)%Z = bool_decide (m <> m').
Proof. by destruct m, m'. Qed.

Lemma has_method_lor a m m' :
  has_method (Z.lor a (AliveTestMethods.value m')) m = has_method a m || bool_decide (m = m').
Proof.
  unfold has_method. rewrite Z.land_lor_distr_l.
  assert ((Z.lor (Z.land a (AliveTestMethods.value m)) (Z.land (AliveTestMethods.value m') (AliveTestMethods.value m)) =? 0)%Z
    = (Z.land a (AliveTestMethods.value m) =? 0)%Z
      && (Z.land (AliveTestMethods.value m') (AliveTestMethods.value m) =? 0)%Z) as ->.
  { apply eq_true_iff_eq. rewrite andb_true_iff, !Z.eqb_eq. apply Z.lor_eq_0_iff. }
  rewrite method_bits, negb_andb. f_equal. by destruct m, m'.
Qed.

Lemma has_method_spec l m : has_method (alive_bits l) m = bool_decide (m ∈ l).
Proof.
  unfold alive_bits. assert (forall a, has_method (foldl (fun acc m => Z.lor acc (AliveTestMethods.value m)) a l) m
    = has_method a m || bool_decide (m ∈ l)) as Hl; [|by rewrite Hl].
  induction l as [|m' l IH]; intros a; [by rewrite bool_decide_eq_false_2, orb_false_r by apply not_elem_of_nil|].
  cbn [foldl]. rewrite IH, has_method_lor, <- orb_assoc. f_equal.
  apply eq_true_iff_eq. by rewrite orb_true_iff, !bool_decide_eq_true, elem_of_cons.
Qed.

Lemma complement_of_bit a : complement_nonzero (Z.land a 1) = true.
Proof.
  unfold complement_nonzero. change 1%Z with (Z.ones 1). rewrite Z.land_ones by lia. change (2 ^ 1)%Z with 2%Z.
  pose proof (Z.mod_pos_bound a 2 ltac:(lia)). by assert (a mod 2 = 0 \/ a mod 2 = 1)%Z as [-> | ->] by lia.
Qed.

(** The preferences of the ping test for a choice of methods.  "Only TCP-SYN" is
    answered with yes whenever TCP-SYN is chosen, also together with TCP-ACK, when "also
    TCP-SYN" is answered with yes too. *)
Theorem alive_prefs_spec (l : list AliveTestMethods.t) :
  let p := alive_test_prefs l in
  let chosen m := bool_decide (m ∈ l) in
  p !! ping_key "1:checkbox:Do a TCP ping"
    = Some (yes_if (chosen AliveTestMethods.TcpAck || chosen AliveTestMethods.TcpSyn))
  /\ p !! ping_key "2:checkbox:TCP ping tries also TCP-SYN ping"
    = Some (yes_if (chosen AliveTestMethods.TcpAck && chosen AliveTestMethods.TcpSyn))
  /\ p !! ping_key "7:checkbox:TCP ping tries only TCP-SYN ping" = Some (yes_if (chosen AliveTestMethods.TcpSyn))
  /\ p !! ping_key "3:checkbox:Do an ICMP ping" = Some (yes_if (chosen AliveTestMethods.Icmp))
  /\ p !! ping_key "4:checkbox:Use ARP" = Some (yes_if (chosen AliveTestMethods.Arp))
  /\ p !! ping_key "5:checkbox:Mark unreachable Hosts as dead (not scanning)"
    = Some (yes_if (negb (chosen AliveTestMethods.ConsiderAlive))).
Proof.
  intros p chosen. unfold p, alive_test_prefs. rewrite !has_method_spec.
  change (AliveTestMethods.value AliveTestMethods.TcpAck) with 1%Z. rewrite complement_of_bit, andb_true_r.
  split_and!; rewrite ?lookup_insert_eq; repeat (rewrite lookup_insert_ne by done);
    rewrite ?lookup_insert_eq; try done. unfold chosen. by destruct (bool_decide _).
Qed.

(** A credential for SNMP is used exactly when a privacy algorithm is given, whatever
    its name, and the authentication is md5 or sha1: one without privacy is dropped
    silently, and an unknown privacy algorithm is not. *)
Theorem snmp_credentials_kept (port : option Z) (u p co a pp pa : string) :
  credential_preferences (mkCredential Service.SNMP port (SNMP u p co a pp pa)) <> []
  <-> pa <> "" /\ (a = "md5" \/ a = "sha1").
Proof.
  unfold credential_preferences. cbn [service credential_type].
  destruct (decide (pa = "")) as [->|Hpa].
  - rewrite (bool_decide_eq_true_2 ("" = "")) by done.
    rewrite (bool_decide_eq_false_2 ("" = "aes")), (bool_decide_eq_false_2 ("" = "des")) by done.
    cbn [negb andb]. rewrite orb_true_r. by split; [intros []|intros [[] _]].
  - rewrite (bool_decide_eq_false_2 (pa = "")) by done. cbn [negb andb].
    destruct (decide (a = "md5")) as [->|Hm]; [|destruct (decide (a = "sha1")) as [->|Hs]].
    + rewrite (bool_decide_eq_true_2 ("md5" = "md5")), bool_decide_eq_false_2 by done. cbn. by split; [auto|].
    + rewrite (bool_decide_eq_true_2 ("sha1" = "sha1")), bool_decide_eq_false_2 by done. cbn [negb andb orb].
      rewrite andb_false_r. by split; [auto|].
    + rewrite (bool_decide_eq_false_2 (a = "md5")), (bool_decide_eq_false_2 (a = "sha1")) by done. cbn [negb andb].
      rewrite orb_true_r. by split; [intros []|intros [_ [?|?]]].
Qed.

(** ** What the handlers do to the helper behind them

    [P] is any relation that the operations of the helper keep. *)
Ltac keep :=
  repeat first
    [ apply preserves_bind; [apply _| |intros]
    | apply preserves_ret, _ | apply preserves_throw, _ | apply preserves_panic, _ | apply preserves_out_of_fuel, _
    | apply preserves_or_panic, _ | apply preserves_gets, _ | apply preserves_attempt
    | match goal with |- preserves _ (match ?x with _ => _ end) => destruct x end ].

Section Handlers.
Context {H : Type} `{KbAccess H} `{VtHelper H} `{HashOrder} `{OpenvasConfig} `{BuildProfile}.
Context (P : H -> H -> Prop) `{!Reflexive P} `{!Transitive P}.
Hypothesis push_keeps : forall k l, preserves P (push_kb_item k l).
Hypothesis id_keeps : preserves P kb_id.
Hypothesis vt_keeps : forall oid, preserves P (get_vt oid).
Hypothesis results_keeps : preserves P kb_results.
Hypothesis status_keeps : preserves P kb_status.
Hypothesis scan_status_keeps : forall id, preserves P (kb_scan_status id).

Definition handler_keeps (p p' : PreferenceHandler H) : Prop := P (redis_connector p) (redis_connector p').
#[local] Instance handler_keeps_refl : Reflexive handler_keeps.
Proof. intros p. unfold handler_keeps. done. Qed.
#[local] Instance handler_keeps_trans : Transitive handler_keeps.
Proof. intros p q r. unfold handler_keeps. apply transitivity. Qed.

Lemma on_connector_keeps {A} (m : M H RedisDbError.t A) : preserves P m -> preserves handler_keeps (on_connector m).
Proof.
  intros Hm p o p'. unfold on_connector. destruct (m (redis_connector p)) as [o1 h] eqn:E. intros [= _ <-].
  exact (Hm _ _ _ E).
Qed.
Lemma extend_params_keeps prefs : preserves handler_keeps (extend_params prefs).
Proof. intros p o p' [= _ <-]. unfold handler_keeps. done. Qed.
Lemma push_prefs_keeps scan l : preserves handler_keeps (push_prefs scan l).
Proof. apply on_connector_keeps, push_keeps. Qed.

Lemma find_preference_keeps id l : preserves handler_keeps (find_preference id l).
Proof. induction l as [|p l IH]; simpl; keep; done. Qed.
Lemma parameter_prefs_keeps oid prefs params acc : preserves handler_keeps (parameter_prefs oid prefs params acc).
Proof.
  revert acc. induction params as [|p params IH]; intros acc; simpl; keep;
    apply find_preference_keeps || apply IH.
Qed.
Lemma process_vts_keeps l vts prefs : preserves handler_keeps (process_vts l vts prefs).
Proof.
  revert vts prefs. induction l as [|v l IH]; intros vts prefs; simpl; keep;
    first [apply IH|apply on_connector_keeps, vt_keeps|apply parameter_prefs_keeps].
Qed.

Lemma prepare_keeps scan : preserves handler_keeps (prepare_preferences_for_openvas scan).
Proof.
  unfold prepare_preferences_for_openvas, prepare_scan_id_for_openvas, prepare_target_for_openvas,
    prepare_ports_for_openvas, prepare_credentials_for_openvas, prepare_plugins_for_openvas,
    prepare_main_kbindex_for_openvas, prepare_host_options_for_openvas, prepare_scan_params_for_openvas,
    prepare_reverse_lookup_opt_for_openvas, prepare_alive_test_option_for_openvas, prepare_nvt_preferences,
    prepare_boreas_alive_test, push_boreas.
  keep; first [apply push_prefs_keeps|apply extend_params_keeps|apply process_vts_keeps
    |apply on_connector_keeps, push_keeps|apply on_connector_keeps, id_keeps
    |apply on_connector_keeps, vt_keeps|apply parameter_prefs_keeps].
Qed.

Definition results_keep (r r' : ResultHelper H) : Prop := P (rh_connector r) (rh_connector r').
#[local] Instance results_keep_refl : Reflexive results_keep.
Proof. intros p. unfold results_keep. done. Qed.
#[local] Instance results_keep_trans : Transitive results_keep.
Proof. intros p q r. unfold results_keep. apply transitivity. Qed.

Lemma on_redis_keeps {A} (m : M H RedisDbError.t A) : preserves P m -> preserves results_keep (on_redis m).
Proof.
  intros Hm p o p'. unfold on_redis. destruct (m (rh_connector p)) as [o1 h] eqn:E. intros [= _ <-].
  exact (Hm _ _ _ E).
Qed.
Lemma update_results_keeps f : preserves results_keep (update_results f).
Proof.
  intros p o p'. unfold update_results, get, mbind, M_bind. cbn. destruct (f (rh_results p)); intros [= _ <-];
    unfold results_keep; done.
Qed.
#[local] Opaque update_results.
Lemma collect_lines_keeps c l : preserves results_keep (collect_lines c l).
Proof.
  revert c. induction l as [|s l IH]; intros c; simpl; keep; try apply IH.
  unfold collect_line, line_name, number. keep; apply on_redis_keeps, vt_keeps.
Qed.
Lemma collect_results_keeps : preserves results_keep collect_results.
Proof.
  unfold collect_results, process_results. keep;
    first [apply on_redis_keeps, results_keeps|apply collect_lines_keeps|apply update_results_keeps].
Qed.
Lemma status_lines_keeps d a m l : preserves results_keep (status_lines d a m l).
Proof.
  revert d a m. induction l as [|s l IH]; intros d a m; simpl; keep; try apply IH;
    unfold host_progress; keep.
Qed.
Lemma collect_host_status_keeps : preserves results_keep collect_host_status.
Proof.
  unfold collect_host_status, process_status. keep;
    first [apply on_redis_keeps, status_keeps|apply status_lines_keeps|apply update_results_keeps].
Qed.
Lemma collect_scan_status_keeps id : preserves results_keep (collect_scan_status id).
Proof.
  unfold collect_scan_status. keep; first [apply on_redis_keeps, scan_status_keeps|apply update_results_keeps].
Qed.
End Handlers.

(** ** Databases of running scans *)
Section Ownership.
Context {S X : Type} `{RedisLaws S} `{OpenvasCmd X} `{HashOrder} `{OpenvasConfig} `{BuildProfile} `{HostDetailXml}.

(** On a connection to another database than 0, commands but [SELECT] keep the index. *)
Definition conn_same (k k' : Conn S) : Prop := selected k' = selected k /\ (selected k <> 0%Z -> conn_kept k k').
#[local] Instance conn_same_refl : Reflexive conn_same.
Proof. intros k. split; [done|]. intros _. reflexivity. Qed.
#[local] Instance conn_same_trans : Transitive conn_same.
Proof.
  intros k1 k2 k3 [E1 H1'] [E2 H2']. split; [congruence|]. intros Hk. etrans; [by apply H1'|]. apply H2'. congruence.
Qed.
Lemma command_same c : (forall j, c <> Select j) -> preserves conn_same (command c).
Proof.
  intros Hc k o k' E. split; [|intros Hk; eapply command_kept; eauto].
  apply command_data in E as [_ [E|(j & ? & -> & _)]]; [done|by destruct (Hc j)].
Qed.
Lemma converted_same {A} (f : RedisReply -> option A) c : (forall j, c <> Select j) -> preserves conn_same (converted f c).
Proof. intros Hc. apply preserves_bind; [apply _|by apply command_same|]. intros. apply preserves_ok_or, _. Qed.
Lemma pipeline_same l : Forall (fun c => forall j, c <> Select j) l -> preserves conn_same (pipeline l).
Proof.
  induction 1 as [|c l Hc Hl IH]; simpl; keep; [by apply command_same|done|destruct a, a0; keep].
Qed.

Definition task_keeps (r r' : Redis S) : Prop := forall i, i <> 0%Z -> kb (ctx r) = Some i ->
  index_kept (redis_data (redis r)) (redis_data (redis r')) /\ kb (ctx r') = Some i /\ ctx_db (ctx r') = ctx_db (ctx r).
#[local] Instance task_keeps_refl : Reflexive task_keeps.
Proof. intros r i _ Hi. by split; [intros j|]. Qed.
#[local] Instance task_keeps_trans : Transitive task_keeps.
Proof.
  intros r1 r2 r3 H12 H23 i Hi Hk. destruct (H12 i Hi Hk) as (A1 & B1 & C1). destruct (H23 i Hi B1) as (A2 & B2 & C2).
  split_and!; [|done|congruence]. intros j Hj. by apply A2, A1.
Qed.
Lemma on_kb_task {A} (m : M (Conn S) RedisDbError.t A) : preserves conn_same m -> preserves task_keeps (on_kb m).
Proof.
  intros Hm r o r'. unfold on_kb. intros E i Hi Hk. rewrite Hk in E.
  destruct (m (mkConn (redis r) i)) as [o1 k] eqn:Em. injection E as _ <-. destruct (Hm _ _ _ Em) as [Hs Hd].
  simpl in *. rewrite Hs. split; [by apply Hd|done].
Qed.

Definition cache_keeps (r r' : Redis S) : Prop := index_kept (redis_data (redis r)) (redis_data (redis r')).
#[local] Instance cache_keeps_refl : Reflexive cache_keeps.
Proof. by intros r j. Qed.
#[local] Instance cache_keeps_trans : Transitive cache_keeps.
Proof. intros r1 r2 r3 H12 H23 j Hj. by apply H23, H12. Qed.
Lemma on_kb_cache {A} (m : M (Conn S) RedisDbError.t A) : preserves conn_kept m -> preserves cache_keeps (on_kb m).
Proof.
  intros Hm r o r'. unfold on_kb. destruct (kb (ctx r)) as [i|]; [|by intros [= _ <-]].
  destruct (m (mkConn (redis r) i)) as [o1 k] eqn:Em. intros [= _ <-]. exact (Hm _ _ _ Em).
Qed.
Lemma lrange_cache k : preserves cache_keeps (lrange k 0 (-1)).
Proof. by apply on_kb_cache, preserves_err_into, converted_kept. Qed.
Lemma read_preferences_cache l : preserves cache_keeps (read_preferences l).
Proof. induction l as [|p l IH]; simpl; keep; done. Qed.
Lemma get_vt_cache oid : preserves cache_keeps (redis_get_vt oid).
Proof.
  unfold redis_get_vt, redis_get_prefs, list_field, field_at. keep;
    first [apply lrange_cache|apply read_preferences_cache|apply preserves_ok_or, _].
Qed.

(** The helper of a scan *)
Definition helper_keeps (h h' : RedisHelper S) : Prop := forall i, i <> 0%Z -> kb (h_task h) = Some i ->
  index_kept (redis_data (h_server h)) (redis_data (h_server h')) /\ kb (h_task h') = Some i
  /\ ctx_db (h_task h') = ctx_db (h_task h).
#[local] Instance helper_keeps_refl : Reflexive helper_keeps.
Proof. intros r i _ Hi. by split; [intros j|]. Qed.
#[local] Instance helper_keeps_trans : Transitive helper_keeps.
Proof.
  intros r1 r2 r3 H12 H23 i Hi Hk. destruct (H12 i Hi Hk) as (A1 & B1 & C1). destruct (H23 i Hi B1) as (A2 & B2 & C2).
  split_and!; [|done|congruence]. intros j Hj. by apply A2, A1.
Qed.
Lemma on_task_keeps {A} (m : M (Redis S) RedisDbError.t A) : preserves task_keeps m -> preserves helper_keeps (on_task_kb m).
Proof.
  intros Hm h o h'. unfold on_task_kb. destruct (m _) as [o1 r] eqn:E. intros [= _ <-] i Hi Hk.
  exact (Hm _ _ _ E i Hi Hk).
Qed.
Lemma on_cache_keeps {A} (m : M (Redis S) RedisDbError.t A) : preserves cache_keeps m -> preserves helper_keeps (on_nvti_cache m).
Proof.
  intros Hm h o h'. unfold on_nvti_cache. destruct (m _) as [o1 r] eqn:E. intros [= _ <-] i Hi Hk.
  split; [exact (Hm _ _ _ E)|done].
Qed.

Lemma helper_push k l : preserves helper_keeps (push_kb_item k l).
Proof. apply on_task_keeps. unfold lpush. keep. by apply on_kb_task, preserves_err_into, command_same. Qed.
Lemma helper_id : preserves helper_keeps (kb_id (H := RedisHelper S)).
Proof. simpl. keep. Qed.
Lemma helper_vt oid : preserves helper_keeps (get_vt oid).
Proof. apply on_cache_keeps, get_vt_cache. Qed.
Lemma helper_pop k : preserves helper_keeps (on_task_kb (pop k)).
Proof.
  apply on_task_keeps. unfold pop. keep. apply on_kb_task, preserves_err_into, pipeline_same. by repeat constructor.
Qed.
Lemma helper_scan_status id : preserves helper_keeps (kb_scan_status id).
Proof. apply on_task_keeps. unfold lindex. keep. by apply on_kb_task, preserves_err_into, command_same. Qed.

Lemma with_preferences_keeps scan : preserves helper_keeps (with_preferences (prepare_preferences_for_openvas scan)).
Proof.
  intros h o h'. unfold with_preferences. destruct (prepare_preferences_for_openvas _ _) as [o1 p] eqn:E.
  intros [= _ <-]. exact (prepare_keeps helper_keeps helper_push helper_id helper_vt scan _ _ _ E).
Qed.
Lemma with_results_keeps m r : preserves (results_keep helper_keeps) m -> preserves helper_keeps (with_results m r).
Proof.
  intros Hm h o h'. unfold with_results. destruct (m _) as [o1 x] eqn:E. pose proof (Hm _ _ _ E) as Hx.
  destruct o1; intros [= _ <-]; exact Hx.
Qed.

(** *** The scanner *)
Abbreviation V := (OpenvasScanner S X).
Abbreviation data v := (redis_data (ov_redis v)).

(** Every running scan has a database of its own that is marked as in use. *)
Definition owns (v : V) : Prop :=
  (forall id c i, running v !! id = Some (c, i) -> (1 <= i)%Z /\ in_use (data v) i)
  /\ (forall id id' c c' i, running v !! id = Some (c, i) -> running v !! id' = Some (c', i) -> id = id').

Definition kept (v v' : V) : Prop := running v' = running v /\ index_kept (data v) (data v').
#[local] Instance kept_refl : Reflexive kept.
Proof. intros v. by split; [|intros j]. Qed.
#[local] Instance kept_trans : Transitive kept.
Proof. intros v1 v2 v3 [E1 K1] [E2 K2]. split; [congruence|]. intros j Hj. by apply K2, K1. Qed.

Lemma owns_kept v v' : owns v -> kept v v' -> owns v'.
Proof.
  intros [Hu Hi] [E K]. split; rewrite E; [|done]. intros id c i Hr. destruct (Hu _ _ _ Hr). split; [done|by apply K].
Qed.
(** After a removal, and after a release of a database nobody owns. *)
Lemma owns_delete v v' id : owns v -> running v' = delete id (running v) -> data v' = data v -> owns v'.
Proof.
  intros [Hu Hi] E Ed. split; rewrite E, ?Ed.
  - intros id1 c i [_ Hr]%lookup_delete_Some. by eapply Hu.
  - intros id1 id2 c c' i [_ H1']%lookup_delete_Some [_ H2']%lookup_delete_Some. by eapply Hi.
Qed.
Lemma owns_release v v' i :
  owns v -> running v' = running v -> index_kept_but i (data v) (data v') ->
  (forall id c, running v !! id <> Some (c, i)) -> owns v'.
Proof.
  intros [Hu Hi] E K Hn. split; rewrite E; [|done]. intros id c j Hr. destruct (Hu _ _ _ Hr). split; [done|].
  apply K; [|done]. intros ->. by apply (Hn id c).
Qed.

Lemma wp_preserves {Y E A} (P : Y -> Y -> Prop) (m : M Y E A) y : preserves P m -> wp m (fun _ y' => P y y') y.
Proof. intros Hm. unfold wp. destruct (m y) as [o y'] eqn:Em. exact (Hm _ _ _ Em). Qed.

Lemma on_procs_kept {A} (m : M X string A) : preserves kept (on_procs m).
Proof.
  intros v o v'. unfold on_procs. destruct (err_into _ m _) as [o1 x]. intros [= _ <-]. by split; [|intros j].
Qed.

Definition connector_post (dbid : option Z) (v : V) (o : outcome ScanError.t (RedisCtx * RedisCtx)) (v' : V) : Prop :=
  kept v v' /\ forall c, o = Ok c ->
    match dbid with
    | Some i => kb c.2 = Some i /\ ctx_db c.2 = i
    | None => kb c.2 = Some (ctx_db c.2) /\ (1 <= ctx_db c.2)%Z /\ ~ in_use (data v) (ctx_db c.2) /\ in_use (data v') (ctx_db c.2)
    end.
Lemma on_server_open l v o v' : connection_error (on_server (open l)) v = (o, v') ->
  kept v v' /\ forall c, o = Ok c -> open l (ov_redis v) = (Ok c, ov_redis v').
Proof.
  unfold connection_error, err_into, on_server. destruct (open l (ov_redis v)) as [o1 s1] eqn:E.
  pose proof (open_kept _ _ _ _ E) as K. destruct o1; intros [= <- <-]; (split; [by split|]); try done. by intros c [= ->].
Qed.
Lemma create_redis_connector_wp dbid v : wp (create_redis_connector dbid) (connector_post dbid v) v.
Proof.
  unfold wp, create_redis_connector, mbind, M_bind.
  destruct (connection_error (on_server (open [match dbid with Some id => Fix id | None => Free end])) v) as [o1 v1] eqn:E1.
  destruct (on_server_open _ _ _ _ E1) as [K1 O1]. destruct o1 as [kbctx| | |]; try (by split).
  specialize (O1 _ eq_refl).
  destruct (connection_error (on_server (open [Key "nvticache"])) v1) as [o2 v2] eqn:E2.
  destruct (on_server_open _ _ _ _ E2) as [K2 _]. assert (kept v v2) as K by (by etrans).
  destruct o2 as [nvt| | |]; try (by split). split; [done|]. intros c [= <-]. simpl. destruct dbid as [i|].
  - by apply open_fix_ok in O1.
  - apply open_free_ok in O1 as (A1 & A2 & A3 & A4). split_and!; try done; [lia|]. by apply K2.
Qed.

Definition helper_post {A} (c : RedisCtx * RedisCtx) (i : Z) (v : V)
  (o : outcome ScanError.t (A * (RedisCtx * RedisCtx))) (v' : V) : Prop :=
  kept v v' /\ forall a c', o = Ok (a, c') -> kb c'.2 = Some i /\ ctx_db c'.2 = ctx_db c.2.
Lemma on_helper_wp {A} c i (m : M (RedisHelper S) RedisDbError.t A) v :
  kb c.2 = Some i -> i <> 0%Z -> preserves helper_keeps m -> wp (unexpected (on_helper c m)) (helper_post c i v) v.
Proof.
  intros Hk Hi Hm. unfold wp, unexpected, err_into, on_helper.
  destruct (m (mkHelper (ov_redis v) c.1 c.2)) as [o h] eqn:E.
  destruct (Hm _ _ _ E i Hi Hk) as (K & Hk' & Hc). destruct o; (split; [by split|]); try done.
  simpl. by intros a' c' [= _ <-].
Qed.
Lemma kb_release_wp c i v :
  kb c.2 = Some i -> ctx_db c.2 = i -> i <> 0%Z ->
  wp (unexpected (on_helper c kb_release)) (fun _ v' => running v' = running v /\ index_kept_but i (data v) (data v')) v.
Proof.
  intros Hk Hd Hi. unfold wp, unexpected, err_into, on_helper. simpl. unfold on_task_kb. simpl.
  destruct (delete_namespace _) as [o r] eqn:E. apply (delete_namespace_kept_but i) in E; try done. by destruct o.
Qed.

(** One call of an operation; the outcomes that leave it are closed by [owns_kept]. *)
Tactic Notation "call" uconstr(L) "as" simple_intropattern(p) ident(v) :=
  apply wp_bind; eapply wp_mono; [eapply L|intros p v; cbn [bind_post]].
Ltac leave := intros; destruct_and?; eapply owns_kept; [eassumption|];
  repeat match goal with K : connector_post _ _ _ _ |- _ => destruct K as [? _]
                       | K : helper_post _ _ _ _ _ |- _ => destruct K as [? _] end; eauto using kept_trans, kept_refl.

Lemma remove_running_eq id (v : V) :
  remove_running id v = (Ok (running v !! id), mkOpenvas (delete id (running v)) (sudo v) (has_checker v) (ov_redis v) (ov_procs v)).
Proof. done. Qed.

Lemma procs_wp {A} (m : M X string A) v : wp (on_procs m) (fun _ v' => kept v v') v.
Proof. apply wp_preserves, on_procs_kept. Qed.

Lemma start_owns scan v : owns v -> wp (ov_start_scan scan) (fun _ v' => owns v') v.
Proof.
  intros Ho. unfold ov_start_scan. call create_redis_connector_wp as [a| | |] v1; [|leave..]. intros [K1 C1].
  destruct (C1 _ eq_refl) as (Hk & Hp & Hn & Hu).
  apply wp_bind. eapply wp_mono; [apply (on_helper_wp a (ctx_db a.2)); [done|lia|apply with_preferences_keeps]|].
  intros [[u c]| | |] v2; cbn [bind_post]; [|leave..]. intros [K2 C2]. destruct (C2 _ _ eq_refl) as [_ Hc].
  unfold add_running. apply wp_bind, wp_get. cbn [bind_post].
  call procs_wp as [child| | |] v3; [intros K3|leave..].
  apply wp_bind, wp_get. cbn [bind_post]. apply wp_modify. simpl. rewrite Hc.
  assert (kept v v3) as [Er K] by eauto using kept_trans. destruct Ho as [Ho Hi]. split; simpl; rewrite Er.
  - intros id c' i [[<- [= <- <-]]|[_ Hr]]%lookup_insert_Some.
    + split; [lia|]. by apply K3, K2.
    + destruct (Ho _ _ _ Hr). split; [done|by apply K].
  - intros id id' c1 c2 i [[<- [= <- <-]]|[Hn1 Hr1]]%lookup_insert_Some [[<- E2]|[Hn2 Hr2]]%lookup_insert_Some; try done.
    + exfalso. apply Hn. by eapply Ho.
    + exfalso. simplify_eq. apply Hn. by eapply Ho.
    + by eapply Hi.
Qed.

(** The database of a scan that was removed belongs to nobody. *)
Lemma removed_unowned v id c i : owns v -> running v !! id = Some (c, i) ->
  forall id' c', delete id (running v) !! id' <> Some (c', i).
Proof. intros [_ Hi] Hr id' c' [Hn Hr']%lookup_delete_Some. apply Hn. by eapply Hi. Qed.

Lemma release_owns c i v :
  owns v -> kb c.2 = Some i -> ctx_db c.2 = i -> (1 <= i)%Z -> (forall id c, running v !! id <> Some (c, i)) ->
  wp (unexpected (on_helper c kb_release)) (fun _ v' => owns v' /\ running v' = running v) v.
Proof.
  intros Ho Hk Hd Hi Hn. eapply wp_mono; [apply (kb_release_wp c i); [done|done|lia]|]. intros o v' [Er K].
  split; [by eapply owns_release|done].
Qed.

Lemma stop_owns id v : owns v -> wp (ov_stop_scan id) (fun _ v' => owns v') v.
Proof.
  intros Ho. unfold ov_stop_scan. apply wp_bind. unfold wp. rewrite remove_running_eq. cbn [fst snd bind_post].
  set (v0 := mkOpenvas _ _ _ _ _). assert (owns v0) as H0' by by eapply (owns_delete v v0 id).
  destruct (running v !! id) as [[scan i]|] eqn:Er; [|done].
  destruct (proj1 Ho _ _ _ Er) as [Hp _]. pose proof (removed_unowned _ _ _ _ Ho Er) as Hn.
  apply wp_bind, wp_get. cbn [bind_post].
  call procs_wp as [stopping| | |] v1; [intros K1|leave..].
  call procs_wp as [?| | |] v2; [intros K2|leave..].
  call procs_wp as [?| | |] v3; [intros K3|leave..].
  call create_redis_connector_wp as [c| | |] v4; [|leave..]. intros [K4 C]. destruct (C _ eq_refl) as [Hk Hd].
  assert (kept v0 v4) as [Er2 Ki] by eauto using kept_trans.
  apply wp_bind. eapply wp_mono; [apply (release_owns c i); try done|].
  - eapply owns_kept; [exact H0'|]. by split.
  - intros id' c'. rewrite Er2. apply Hn.
  - intros [?| | |] v' [? _]; done.
Qed.

(** The database of a running scan is at least 1. *)
Lemma running_db_wp id v : owns v ->
  wp (running_db id) (fun o v' => v' = v /\ forall i, o = Ok i -> (1 <= i)%Z /\ exists c, running v !! id = Some (c, i)) v.
Proof.
  intros Ho. unfold running_db. apply wp_bind, wp_get. cbn [bind_post].
  destruct (running v !! id) as [[c i]|] eqn:Er; [|by split]. apply wp_ret. split; [done|]. intros j [= <-].
  split; [by apply (proj1 Ho id c i)|by exists c].
Qed.
Lemma phase_of_wp r v : wp (phase_of r) (fun _ (v' : V) => kept v v') v.
Proof. unfold phase_of. destruct (OpenvasPhase.from_str _); by apply wp_ret || apply wp_throw. Qed.
Lemma with_results_wp m r c i v :
  kb c.2 = Some i -> i <> 0%Z -> preserves (results_keep helper_keeps) m ->
  wp (unexpected (on_helper c (with_results m r))) (helper_post c i v) v.
Proof. intros. apply on_helper_wp; [done|done|by apply with_results_keeps]. Qed.

(** A scan that is removed and whose database is then released. *)
Lemma remove_release_owns id c i child v :
  owns v -> running v !! id = Some (child, i) -> (1 <= i)%Z -> kb c.2 = Some i -> ctx_db c.2 = i ->
  forall v', running v' = delete id (running v) -> index_kept (data v) (data v') ->
  wp (unexpected (on_helper c kb_release)) (fun _ v'' => owns v'' /\ running v'' = running v') v'.
Proof.
  intros Ho Hr Hp Hk Hd v' Er K. apply (release_owns c i); try done.
  - set (v0 := mkOpenvas (delete id (running v)) (sudo v) (has_checker v) (ov_redis v) (ov_procs v)).
    apply (owns_kept v0); [by eapply (owns_delete v v0 id)|by split].
  - rewrite Er. by eapply removed_unowned.
Qed.

Lemma delete_owns id v : owns v -> wp (ov_delete_scan id) (fun _ v' => owns v') v.
Proof.
  intros Ho. unfold ov_delete_scan. apply wp_bind. eapply wp_mono; [by apply running_db_wp|].
  intros [i| | |] v0 [-> Hi]; cbn [bind_post]; try done. destruct (Hi i eq_refl) as (Hp & child & Hr). clear Hi.
  call create_redis_connector_wp as [c| | |] v1; [|leave..]. intros [K1 C]. destruct (C _ eq_refl) as [Hk Hd].
  call (with_results_wp _ _ c i) as [[r c']| | |] v2; try done; [lia| |intros [K2 C2]|leave..].
  { apply collect_scan_status_keeps; [apply _..|apply helper_scan_status]. }
  destruct (C2 _ _ eq_refl) as [Hk' Hd']. call phase_of_wp as [ph| | |] v3; [intros K3|leave..].
  case_decide; [apply wp_throw; leave|]. apply wp_bind. unfold wp at 1. rewrite remove_running_eq. cbn [fst snd bind_post].
  assert (kept v v3) as [Er K] by eauto using kept_trans. rewrite Er, Hr. apply wp_bind.
  eapply wp_mono; [eapply (remove_release_owns id c' i child v); try done; simpl; congruence|].
  intros [?| | |] v' [? _]; done.
Qed.

Lemma fetch_owns id v : owns v -> wp (ov_fetch_results id) (fun _ v' => owns v') v.
Proof.
  intros Ho. unfold ov_fetch_results. apply wp_bind. eapply wp_mono; [by apply running_db_wp|].
  intros [i| | |] v0 [-> Hi]; cbn [bind_post]; try done. destruct (Hi i eq_refl) as (Hp & child & Hr). clear Hi.
  call create_redis_connector_wp as [c| | |] v1; [|leave..]. intros [K1 C]. destruct (C _ eq_refl) as [Hk Hd].
  call (with_results_wp _ _ c i) as [[r1 c1]| | |] v2; try done; [lia| |intros [K2 C2]|leave..].
  { apply collect_results_keeps; [apply _..|apply helper_vt|apply (helper_pop "internal/results")]. }
  destruct (C2 _ _ eq_refl) as [Hk1 Hd1].
  call (with_results_wp _ _ c1 i) as [[r2 c2]| | |] v3; try done; [lia| |intros [K3 C3]|leave..].
  { apply collect_host_status_keeps; [apply _..|apply (helper_pop "internal/status")]. }
  destruct (C3 _ _ eq_refl) as [Hk2 Hd2].
  call (with_results_wp _ _ c2 i) as [[r3 c3]| | |] v4; try done; [lia| |intros [K4 C4]|leave..].
  { apply collect_scan_status_keeps; [apply _..|apply helper_scan_status]. }
  destruct (C4 _ _ eq_refl) as [Hk3 Hd3]. call phase_of_wp as [ph| | |] v5; [intros K5|leave..].
  apply wp_bind, wp_get. cbn [bind_post]. assert (kept v v5) as Kv by eauto 10 using kept_trans.
  apply wp_bind. unfold wp at 1, of_total. destruct (mapM result_of _) as [rs|[]| |]; cbn [fst snd bind_post]; try by leave.
  case_decide; [|apply wp_ret; by leave]. apply wp_bind. unfold wp at 1. rewrite remove_running_eq. cbn [fst snd bind_post].
  destruct Kv as [Er K]. rewrite Er, Hr. set (v6 := mkOpenvas _ _ _ _ _).
  assert (owns v6) as Ho6.
  { apply (owns_kept (mkOpenvas (delete id (running v)) (sudo v) (has_checker v) (ov_redis v) (ov_procs v)));
      [by eapply (owns_delete v _ id)|]. split; [done|exact K]. }
  call procs_wp as [code| | |] v7; [intros [Er7 K7]|leave..]. apply wp_bind.
  eapply wp_mono; [eapply (remove_release_owns id c3 i child v); try done; try congruence; try (by rewrite Er7; simpl; rewrite Er); intros j Hj; by apply K7, K|].
  intros [?| | |] v' [Ho' Er']; cbn [bind_post]; try done. apply wp_bind, wp_get. cbn [bind_post].
  apply wp_bind, wp_modify. cbn [bind_post]. apply wp_ret. by eapply (owns_delete v').
Qed.

(** Operations of the daemon in any order, and steps of the world: openvas and other clients
    change the server, but free no database that is in use. *)
Inductive ov_step : V -> V -> Prop :=
| step_start scan v o v' : ov_start_scan scan v = (o, v') -> ov_step v v'
| step_stop id v o v' : ov_stop_scan id v = (o, v') -> ov_step v v'
| step_delete id v o v' : ov_delete_scan id v = (o, v') -> ov_step v v'
| step_fetch id v o v' : ov_fetch_results id v = (o, v') -> ov_step v v'
| step_world v v' : running v' = running v -> index_kept (data v) (data v') -> ov_step v v'.

(** C16: Whatever operations are called in which order, with a server that may fail at any
    command, each running scan has its own database: no two share one, and each is marked
    as in use, so that nobody else takes it. *)
Theorem running_scans_own_databases (v v' : V) :
  running v = ∅ -> rtc ov_step v v' ->
  (forall id c i, running v' !! id = Some (c, i) -> (1 <= i)%Z /\ in_use (data v') i)
  /\ (forall id id' c c' i, running v' !! id = Some (c, i) -> running v' !! id' = Some (c', i) -> id = id').
Proof.
  intros Hr Hs. enough (owns v') by done. assert (owns v) as Ho.
  { split; rewrite Hr; intros; by rewrite lookup_empty in *. }
  clear Hr. induction Hs as [|v1 v2 v3 Hs _ IH]; [done|]. apply IH. clear IH. destruct Hs as [? ? ? ? E|? ? ? ? E|? ? ? ? E|? ? ? ? E|].
  - by eapply (wp_elim _ _ _ _ _ (start_owns _ _ Ho)).
  - by eapply (wp_elim _ _ _ _ _ (stop_owns _ _ Ho)).
  - by eapply (wp_elim _ _ _ _ _ (delete_owns _ _ Ho)).
  - by eapply (wp_elim _ _ _ _ _ (fetch_owns _ _ Ho)).
  - by eapply owns_kept.
Qed.

(** While Redis has no cache of tests, every attempt to start a scan fails and keeps the
    database it took: nothing releases it, and with the last one gone no scan can start. *)
Theorem failed_start_leaks (scan : ScanModel) (v : V) (h : gmap string string) :
  redis_up (ov_redis v) -> hash_at (db_of (data v) 0) DB_INDEX = Some h ->
  (forall i, (1 <= i < redis_databases)%Z -> db_of (data v) i !! "nvticache" = None) ->
  (exists i, (1 <= i < redis_databases)%Z /\ h !! pretty i = None) ->
  exists i v', ov_start_scan scan v = (Err (ScanError.Connection "No DB available."), v')
    /\ ~ in_use (data v) i /\ in_use (data v') i /\ running v' = running v
    /\ forall j, in_use (data v) j -> in_use (data v') j.
Proof.
  intros Hu Hh Hn Hf.
  destruct (up_open_free (ov_redis v) (data v) h Hu eq_refl Hh Hf) as (c & s1 & E1 & Hu1 & Hd1).
  destruct (up_open_key_none s1 "nvticache" (redis_data s1) Hu1 eq_refl) as (s2 & E2 & _ & Hd2).
  { intros i Hi. rewrite Hd1 by lia. by apply Hn. }
  pose proof (open_kept _ _ _ _ E1) as K. apply open_free_ok in E1 as HE. destruct HE as (_ & _ & Hni & Hin).
  exists (ctx_db c), (mkOpenvas (running v) (sudo v) (has_checker v) s2 (ov_procs v)).
  split; [|simpl; rewrite Hd2; by split_and!].
  unfold ov_start_scan, create_redis_connector, connection_error, err_into, on_server, mbind, M_bind.
  rewrite E1. simpl. by rewrite E2.
Qed.
End Ownership.

(** ** The preferences that are written

    What the handler relies on: an item is pushed in front of a list, tests are looked up,
    and nothing else changes. *)
Class KbLaws (H : Type) `{KbAccess H} `{VtHelper H} := {
  kb_ready : H -> Prop;
  kb_items : H -> string -> list string;
  kb_number : H -> Z;
  vt_known : H -> string -> option Nvt;
  kb_push_law : forall k l h, kb_ready h -> l <> [] -> exists h', push_kb_item k l h = (Ok tt, h') /\ kb_ready h'
    /\ kb_number h' = kb_number h /\ (forall o, vt_known h' o = vt_known h o)
    /\ forall k', kb_items h' k' = if decide (k' = k) then (rev l ++ kb_items h k)%list else kb_items h k';
  kb_id_law : forall h, kb_ready h -> kb_id h = (Ok (kb_number h), h);
  get_vt_law : forall o h, kb_ready h -> exists h', get_vt o h = (Ok (vt_known h o), h') /\ kb_ready h'
    /\ kb_number h' = kb_number h /\ (forall o, vt_known h' o = vt_known h o) /\ forall k, kb_items h' k = kb_items h k
}.

(** *** The helper on Redis keeps these laws

    Reading a test asks for two lists; the rest is computed from them. *)
Definition frozen (m : gmap string RedisValue) : RedisWrapper unit := {|
  rw_rpush := fun _ _ => panic; rw_lpush := fun _ _ => panic; rw_del := fun _ => panic;
  rw_lindex := fun _ _ => panic; rw_lrange := fun k _ _ => mret (default [] (list_at m k));
  rw_keys := fun _ => panic; rw_pop := fun _ => panic
|}.
Definition frozen_vt (m : gmap string RedisValue) (o : string) : outcome RedisDbError.t (option Nvt) :=
  fst (@redis_get_vt unit (frozen m) o tt).
Definition only_lists (m : gmap string RedisValue) : Prop := forall k, is_Some (list_at m k).

Section Reads.
Context {S : Type} `{RedisLaws S} (sel : Z) (d : Databases).

Definition reads {A} (m : M (Redis S) RedisDbError.t A) (m' : M unit RedisDbError.t A) : Prop :=
  forall r, holds r sel d -> exists r', m r = (fst (m' tt), r') /\ holds r' sel d /\ ctx_db (ctx r') = ctx_db (ctx r).

Lemma reads_ret {A} (a : A) : reads (mret a) (mret a).
Proof. intros r Hr. by exists r. Qed.
Lemma reads_ok_or {A} (a : option A) e : reads (ok_or a e) (ok_or a e).
Proof. intros r Hr. exists r. by destruct a. Qed.
Lemma reads_or_panic {A} (a : option A) : reads (or_panic a) (or_panic a).
Proof. intros r Hr. exists r. by destruct a. Qed.
Lemma reads_bind {A B} m m' (f f' : A -> _ B) :
  reads m m' -> (forall a, reads (f a) (f' a)) -> reads (m ≫= f) (m' ≫= f').
Proof.
  intros Hm Hf r Hr. destruct (Hm r Hr) as (r1 & E & Hr1 & Hc). unfold mbind, M_bind. rewrite E.
  destruct (m' tt) as [[a|e| |] []]; simpl; try by exists r1.
  destruct (Hf a r1 Hr1) as (r2 & -> & ? & Hc2). exists r2. split_and!; [done|done|congruence].
Qed.
End Reads.

Ltac reads_step :=
  match goal with
  | |- reads _ _ (mret _) _ => apply reads_ret
  | |- reads _ _ (ok_or _ _) _ => apply reads_ok_or
  | |- reads _ _ (or_panic _) _ => apply reads_or_panic
  | |- reads _ _ (field_at _ _) _ => apply reads_or_panic
  | |- reads _ _ (list_field _ _) _ => apply reads_bind; [|intros ?]
  | |- reads _ _ (_ ≫= _) _ => apply reads_bind; [|intros ?]
  end.

Section HelperLaws.
Context {S : Type} `{RedisLaws S}.

Lemma reads_lrange sel d k : only_lists (db_of d sel) ->
  reads (S := S) sel d (rw_lrange k 0 (-1)) (@rw_lrange unit (frozen (db_of d sel)) k 0 (-1)).
Proof.
  intros Hl r Hr. destruct (Hl k) as [l Hk]. destruct (up_lrange r sel d k l Hr Hk) as (r' & E & ?).
  exists r'. simpl. by rewrite Hk.
Qed.
Lemma reads_preferences sel d l : reads (S := S) sel d (read_preferences l) (read_preferences l).
Proof.
  induction l as [|p l IH]; [apply reads_ret|]. cbn [read_preferences].
  destruct (splitn_text 4 "|||" p) as [|a [|b [|c [|e [|]]]]]; try exact IH.
  repeat reads_step. exact IH.
Qed.
Lemma reads_vt sel d o : only_lists (db_of d sel) ->
  reads (S := S) sel d (redis_get_vt o) (@redis_get_vt unit (frozen (db_of d sel)) o).
Proof.
  intros Hl. unfold redis_get_vt. apply reads_bind; [by apply reads_lrange|]. intros [|x l]; [apply reads_ret|].
  repeat reads_step. apply reads_bind; [by apply reads_lrange|intros; apply reads_preferences].
Qed.

(** The cache and the knowledge base are two databases of a server that is up, and every
    test of the cache can be read. *)
Definition helper_ready (h : RedisHelper S) : Prop := exists c t,
  kb (h_cache h) = Some c /\ kb (h_task h) = Some t /\ c <> t /\ redis_up (h_server h)
  /\ only_lists (db_of (redis_data (h_server h)) c) /\ only_lists (db_of (redis_data (h_server h)) t)
  /\ forall o, exists v, frozen_vt (db_of (redis_data (h_server h)) c) o = Ok v.
Definition helper_db (h : RedisHelper S) (c : RedisCtx) : gmap string RedisValue :=
  db_of (redis_data (h_server h)) (default 0%Z (kb c)).
Definition helper_items (h : RedisHelper S) (k : string) : list string :=
  default [] (list_at (helper_db h (h_task h)) k).
Definition helper_known (h : RedisHelper S) (o : string) : option Nvt :=
  match frozen_vt (helper_db h (h_cache h)) o with Ok v => v | _ => None end.

Lemma helper_push_law k l h : helper_ready h -> l <> [] ->
  exists h', push_kb_item k l h = (Ok tt, h') /\ helper_ready h' /\ ctx_db (h_task h') = ctx_db (h_task h)
    /\ (forall o, helper_known h' o = helper_known h o)
    /\ forall k', helper_items h' k' = if decide (k' = k) then (rev l ++ helper_items h k)%list else helper_items h k'.
Proof.
  intros (c & t & Hc & Ht & Hne & Hu & Lc & Lt & Hv) Hl. destruct (Lt k) as [old Hk].
  destruct (up_lpush (mkRedis (h_server h) (h_task h)) t _ k l old ltac:(by split_and!) Hk Hl) as (r & E & (Ht' & Hu' & Hd') & Hn).
  exists (mkHelper (redis r) (h_cache h) (ctx r)). split.
  { simpl. unfold on_task_kb. by rewrite E. }
  unfold helper_known, helper_items, helper_db. simpl. rewrite Hc, Ht, Ht', Hd'. simpl.
  rewrite (db_of_set_ne _ t c) by done. rewrite db_of_set. split_and!; [|done|done|].
  - exists c, t. simpl. rewrite Hd', (db_of_set_ne _ t c), db_of_set by done. split_and!; try done.
    intros k'. destruct (decide (k = k')) as [->|]; [by rewrite list_at_put|by rewrite list_at_put_ne].
  - intros k'. case_decide as Ek; [subst k'; by rewrite list_at_put, Hk|by rewrite list_at_put_ne].
Qed.
Lemma helper_vt_law o h : helper_ready h ->
  exists h', get_vt o h = (Ok (helper_known h o), h') /\ helper_ready h' /\ ctx_db (h_task h') = ctx_db (h_task h)
    /\ (forall o, helper_known h' o = helper_known h o) /\ forall k, helper_items h' k = helper_items h k.
Proof.
  intros (c & t & Hc & Ht & Hne & Hu & Lc & Lt & Hv).
  destruct (reads_vt c _ o Lc (mkRedis (h_server h) (h_cache h)) ltac:(by split_and!)) as (r & E & (Hc' & Hu' & Hd') & _).
  destruct (Hv o) as [v Ev]. fold (frozen_vt (db_of (redis_data (h_server h)) c) o) in E. rewrite Ev in E.
  exists (mkHelper (redis r) (ctx r) (h_task h)). unfold helper_known, helper_items, helper_db. simpl.
  unfold on_nvti_cache. rewrite E, Hc, Hc', Ht, Hd'. simpl. rewrite Ev. split_and!; try done.
  exists c, t. simpl. by rewrite Hd'.
Qed.
#[global] Instance helper_laws : KbLaws (RedisHelper S) := {|
  kb_ready := helper_ready; kb_items := helper_items; kb_number := fun h => ctx_db (h_task h);
  vt_known := helper_known; kb_push_law := helper_push_law; kb_id_law := fun h _ => eq_refl; get_vt_law := helper_vt_law
|}.
End HelperLaws.

(** The preferences of the chosen tests, without the machine *)
Fixpoint known_preference (id : Z) (l : list NvtPreference) : option (string * string * string * string) :=
  match l with
  | [] => None
  | p :: l' =>
      match Nvt.pref_id p with
      | Some i => if decide (wrap_u 16 i = id) then preference_texts p else known_preference id l'
      | None => known_preference id l'
      end
  end.
Definition set_parameter (oid : string) (prefs : list NvtPreference) (acc : gmap string string) (p : Parameter_) :
  gmap string string :=
  match known_preference (param_id p) prefs with
  | Some (prefid, class, name, _) =>
      <[oid ++ ":" ++ prefid ++ ":" ++ class ++ ":" ++ name :=
          if decide (class = "checkbox") then bool_to_str (param_value p) else param_value p]> acc
  | None => acc
  end.
Definition known_vts (vts : string -> option Nvt) (l : list VT) : list VT :=
  filter (fun v => is_Some (vts (vt_oid v))) l.
Definition vt_params (vts : string -> option Nvt) (l : list VT) : gmap string string :=
  foldl (fun acc v => match vts (vt_oid v) with
                      | Some n => foldl (set_parameter (vt_oid v) (preferences n)) acc (parameters v)
                      | None => acc
                      end) ∅ l.

Section Expected.
Context `{HashOrder} `{OpenvasConfig} (scan : ScanModel) (number : Z) (vts : string -> option Nvt).
Let t := scan_target scan.

Definition expected_plugins : list string :=
  match scan_vts scan with
  | [] => []
  | l => [kb_entry "plugin_set" (join_text ";" (map vt_oid (known_vts vts l)))]
  end.
Definition expected_boreas : list string :=
  let bits := alive_bits (alive_test_methods t) in
  let pushed := app (if ((1 <=? bits) && (bits <=? 31))%Z then [kb_entry BOREAS_ALIVE_TEST (pretty bits)] else [])
    (app (if decide (bits = 0%Z) then [kb_entry BOREAS_ALIVE_TEST "2"] else [])
      match ports_to_openvas_port_list (alive_test_ports t) with
      | Some p => [kb_entry BOREAS_ALIVE_TEST_PORTS p]
      | None => []
      end) in
  match read_openvas_config with
  | Ok config => if decide (config "default" "test_alive_hosts_only" = Some "no") then [] else pushed
  | _ => pushed
  end.
(** Everything that is written, in its order; the preferences of the alive test win over
    those of the tests. *)
Definition expected_prefs : list string :=
  concat [[kb_entry "TARGET" (join_text "," (target_hosts t))];
    match ports_to_openvas_port_list (target_ports t) with Some p => [kb_entry "port_range" p] | None => [] end;
    credentials t ≫= credential_preferences;
    expected_plugins;
    [kb_entry "ov_maindbid" (pretty number)];
    (let e := join_text "," (excluded_hosts t) in if decide (e = "") then [] else [kb_entry "exclude_hosts" e]);
    map (fun x => kb_entry (Models.pref_id x) (pref_value x)) (scan_preferences scan);
    [kb_entry "reverse_lookup_only" (yes_if (is_set (reverse_lookup_only t)));
     kb_entry "reverse_lookup_unify" (yes_if (is_set (reverse_lookup_unify t)))];
    map (fun kv => kb_entry kv.1 kv.2)
      (iter (alive_test_prefs (alive_test_methods t) ∪ vt_params vts (scan_vts scan)));
    expected_boreas].
End Expected.

Section Preferences.
Context {H : Type} `{KbLaws H} `{HashOrder} `{OpenvasConfig} (scan : ScanModel) (h0 : H).

(** The handler has written [l], and keeps the parameters [m]. *)
Definition written (p : PreferenceHandler H) (l : list string) (m : gmap string string) : Prop :=
  kb_ready (redis_connector p) /\ nvt_params p = m
  /\ kb_number (redis_connector p) = kb_number h0 /\ (forall o, vt_known (redis_connector p) o = vt_known h0 o)
  /\ kb_items (redis_connector p) (scanprefs_key scan) = (rev l ++ kb_items h0 (scanprefs_key scan))%list.

(** [f] goes on to write [x m] and turns the parameters [m] into [g m]. *)
Definition writes_prefs (f : M (PreferenceHandler H) RedisDbError.t unit)
  (x : gmap string string -> list string) (g : gmap string string -> gmap string string) : Prop :=
  forall p l m, written p l m -> exists p', f p = (Ok tt, p') /\ written p' (l ++ x m)%list (g m).
Abbreviation same := (fun m : gmap string string => m).

Lemma writes_prefs_seq f f' x x' g g' :
  writes_prefs f x g -> writes_prefs f' x' g' ->
  writes_prefs (f ;; f') (fun m => x m ++ x' (g m))%list (fun m => g' (g m)).
Proof.
  intros Hf Hf' p l m Hp. destruct (Hf p l m Hp) as (p1 & E1 & H1'). destruct (Hf' _ _ _ H1') as (p2 & E2 & H2').
  exists p2. unfold mbind, M_bind. rewrite E1. by rewrite app_assoc.
Qed.
Lemma writes_prefs_nothing : writes_prefs (mret tt) (fun _ => []) same.
Proof. intros p l m Hp. exists p. by rewrite app_nil_r. Qed.
Lemma writes_prefs_push x : x <> [] -> writes_prefs (push_prefs scan x) (fun _ => x) same.
Proof.
  intros Hx [h m'] l m (Hr & Em & Hn & Hv & Hi). simpl in *. unfold push_prefs, on_connector. simpl.
  destruct (kb_push_law (scanprefs_key scan) x h Hr Hx) as (h' & -> & Hr' & Hn' & Hv' & Hi').
  eexists. split; [done|]. split_and!; simpl; try done; [congruence|intros o; by rewrite Hv'|].
  rewrite Hi', decide_True, Hi by done. by rewrite rev_app_distr, app_assoc.
Qed.
Lemma writes_prefs_list x :
  writes_prefs (match x with [] => mret tt | s :: l => push_prefs scan (s :: l) end) (fun _ => x) same.
Proof. destruct x; [apply writes_prefs_nothing|by apply writes_prefs_push]. Qed.
Lemma writes_option {A} (o : option A) (f : A -> list string) :
  (forall a, f a <> []) ->
  writes_prefs (match o with Some a => push_prefs scan (f a) | None => mret tt end)
    (fun _ => match o with Some a => f a | None => [] end) same.
Proof. intros Hf. destruct o; [by apply writes_prefs_push|apply writes_prefs_nothing]. Qed.
Lemma writes_if {P} (b : {P} + {~ P}) (f f' : M (PreferenceHandler H) RedisDbError.t unit) x x' :
  (P -> writes_prefs f (fun _ => x) same) -> (~ P -> writes_prefs f' (fun _ => x') same) ->
  writes_prefs (if b then f else f') (fun _ => if b then x else x') same.
Proof. destruct b; auto. Qed.
Lemma writes_prefs_extend m' : writes_prefs (extend_params m') (fun _ => []) (fun m => m' ∪ m).
Proof.
  intros [h m1] l m (Hr & Em & Hn & Hv & Hi). eexists. split; [done|]. rewrite app_nil_r. simpl in *.
  split_and!; try done. simpl. by rewrite Em.
Qed.
(** An item under another key. *)
Lemma writes_prefs_other k x : k <> scanprefs_key scan -> x <> [] ->
  writes_prefs (on_connector (push_kb_item k x)) (fun _ => []) same.
Proof.
  intros Hk Hx [h m'] l m (Hr & Em & Hn & Hv & Hi). simpl in *. unfold on_connector. simpl.
  destruct (kb_push_law k x h Hr Hx) as (h' & -> & Hr' & Hn' & Hv' & Hi').
  eexists. split; [done|]. rewrite app_nil_r. split_and!; simpl; try done; [congruence|intros o; by rewrite Hv'|].
  by rewrite Hi', decide_False.
Qed.

Lemma find_preference_pure id l (p : PreferenceHandler H) : find_preference id l p = (Ok (known_preference id l), p).
Proof.
  induction l as [|x l IH]; [done|]. cbn [find_preference known_preference]. unfold preference_texts.
  destruct (Nvt.pref_id x) as [i|] eqn:Ei; [|done]. case_decide; [|done].
  done.
Qed.
Lemma parameter_prefs_pure oid prefs params acc (p : PreferenceHandler H) :
  parameter_prefs oid prefs params acc p = (Ok (foldl (set_parameter oid prefs) acc params), p).
Proof.
  revert acc. induction params as [|q params IH]; intros acc; [done|]. cbn [parameter_prefs foldl].
  unfold mbind, M_bind. rewrite find_preference_pure. unfold set_parameter at 2.
  destruct (known_preference (param_id q) prefs) as [[[[a b] c] d]|]; apply IH.
Qed.
Lemma process_vts_pure vs acc m (p : PreferenceHandler H) l m' :
  written p l m' ->
  exists p', process_vts vs acc m p = (Ok ((acc ++ map vt_oid (known_vts (vt_known h0) vs))%list,
      foldl (fun acc v => match vt_known h0 (vt_oid v) with
                          | Some n => foldl (set_parameter (vt_oid v) (preferences n)) acc (parameters v)
                          | None => acc end) m vs), p') /\ written p' l m'.
Proof.
  revert acc m p. induction vs as [|v vs IH]; intros acc m p Hp; [by exists p; rewrite app_nil_r|].
  cbn [process_vts foldl known_vts]. unfold mbind at 1, M_bind at 1, attempt, on_connector.
  pose proof Hp as (Hr & Em & Hn & Hv & Hi). destruct (get_vt_law (vt_oid v) _ Hr) as (h' & -> & Hr' & Hn' & Hv' & Hi').
  cbn [or_panic]. unfold mbind at 1, M_bind at 1. cbn [or_panic mret M_ret].
  assert (written (mkPreferenceHandler h' (nvt_params p)) l m') as Hp'.
  { split_and!; simpl; try done; [congruence|intros o; by rewrite Hv'|by rewrite Hi']. }
  rewrite Hv. unfold known_vts. rewrite filter_cons. destruct (vt_known h0 (vt_oid v)) as [n|] eqn:Ev.
  - unfold mbind at 1, M_bind at 1. rewrite parameter_prefs_pure. rewrite decide_True by by eexists.
    destruct (IH (acc ++ [vt_oid v])%list (foldl (set_parameter (vt_oid v) (preferences n)) m (parameters v)) _ Hp') as (p' & E & ?).
    exists p'. rewrite E. split; [|done]. by rewrite <- app_assoc.
  - rewrite decide_False by by intros []. by apply IH.
Qed.

Lemma string_length_app a b : String.length (a ++ b) = (String.length a + String.length b)%nat.
Proof. induction a as [|c a IH]; [done|]. simpl. by rewrite IH. Qed.
Lemma id_key_other : "internal/" ++ scan_id scan <> scanprefs_key scan.
Proof. intros E%(f_equal String.length). unfold scanprefs_key in E. rewrite !string_length_app in E. simpl in E. lia. Qed.
Lemma scanid_key_other : "internal/scanid" <> scanprefs_key scan.
Proof. intros E%(f_equal String.length). unfold scanprefs_key in E. rewrite !string_length_app in E. simpl in E. lia. Qed.

Lemma writes_scan_id : writes_prefs (prepare_scan_id_for_openvas scan) (fun _ => []) same.
Proof.
  apply (writes_prefs_seq _ _ (fun _ => []) (fun _ => []) same same); apply writes_prefs_other; try done;
    [apply id_key_other|apply scanid_key_other].
Qed.
Lemma writes_plugins :
  writes_prefs (prepare_plugins_for_openvas scan) (fun _ => expected_plugins scan (vt_known h0))
    (fun m => vt_params (vt_known h0) (scan_vts scan) ∪ m).
Proof.
  unfold prepare_plugins_for_openvas, expected_plugins, vt_params. destruct (scan_vts scan) as [|v vs].
  { intros p l m Hp. exists p. split; [done|]. rewrite app_nil_r. simpl. by rewrite (left_id_L ∅ (∪)). }
  intros p l m Hp. destruct (process_vts_pure (v :: vs) [] ∅ p l m Hp) as (p1 & E & Hp1).
  unfold mbind at 1, M_bind at 1. rewrite E. cbn [fst snd].
  refine (writes_prefs_seq _ _ (fun _ => []) _ _ _ (writes_prefs_extend _) (writes_prefs_push _ _) p1 l m Hp1). done.
Qed.
Lemma writes_kbindex :
  writes_prefs (prepare_main_kbindex_for_openvas scan) (fun _ => [kb_entry "ov_maindbid" (pretty (kb_number h0))]) same.
Proof.
  intros p l m Hp. unfold prepare_main_kbindex_for_openvas, mbind at 1, M_bind at 1, on_connector.
  pose proof Hp as (Hr & _ & Hn & _). rewrite (kb_id_law _ Hr), Hn. destruct p. by apply writes_prefs_push.
Qed.
Lemma writes_nvt_preferences :
  writes_prefs (prepare_nvt_preferences scan) (fun m => map (fun kv => kb_entry kv.1 kv.2) (iter m)) same.
Proof.
  intros p l m Hp. unfold prepare_nvt_preferences. unfold mbind at 1, M_bind at 1, gets.
  pose proof Hp as (_ & -> & _). exact (writes_prefs_list _ p l m Hp).
Qed.

Lemma writes_host_options : writes_prefs (prepare_host_options_for_openvas scan)
  (fun _ => let e := join_text "," (excluded_hosts (scan_target scan)) in
            if decide (e = "") then [] else [kb_entry "exclude_hosts" e]) same.
Proof. apply writes_if; intros _; [apply writes_prefs_nothing|by apply writes_prefs_push]. Qed.
Lemma writes_boreas : (exists c, read_openvas_config = Ok c) \/ (exists e, read_openvas_config = Err e) ->
  writes_prefs (prepare_boreas_alive_test scan) (fun _ => expected_boreas scan) same.
Proof.
  intros Hc. set (bits := alive_bits (alive_test_methods (scan_target scan))).
  assert (writes_prefs (push_boreas scan) (fun _ =>
    app (if ((1 <=? bits) && (bits <=? 31))%Z then [kb_entry BOREAS_ALIVE_TEST (pretty bits)] else [])
      (app (if decide (bits = 0%Z) then [kb_entry BOREAS_ALIVE_TEST "2"] else [])
        match ports_to_openvas_port_list (alive_test_ports (scan_target scan)) with
        | Some p => [kb_entry BOREAS_ALIVE_TEST_PORTS p] | None => [] end)) same) as Hb.
  { unfold push_boreas. fold bits. apply (writes_prefs_seq _ _ (fun _ => _) (fun _ => _) same same).
    - destruct ((1 <=? bits) && (bits <=? 31))%Z; [by apply writes_prefs_push|apply writes_prefs_nothing].
    - apply (writes_prefs_seq _ _ (fun _ => _) (fun _ => _) same same).
      + apply writes_if; intros _; [by apply writes_prefs_push|apply writes_prefs_nothing].
      + by apply (writes_option _ (fun p => [kb_entry BOREAS_ALIVE_TEST_PORTS p])). }
  unfold prepare_boreas_alive_test, expected_boreas. fold bits. destruct Hc as [[c ->]|[e ->]]; [|exact Hb].
  apply writes_if; intros _; [apply writes_prefs_nothing|exact Hb].
Qed.

(** [f], started in [p], ends well with [l] written and the parameters [m]. *)
Definition runs (f : M (PreferenceHandler H) RedisDbError.t unit) (p : PreferenceHandler H)
  (l : list string) (m : gmap string string) : Prop := exists p', f p = (Ok tt, p') /\ written p' l m.
Lemma runs_seq f f' x g p l m l' m' : writes_prefs f x g -> written p l m ->
  (forall p', written p' (l ++ x m)%list (g m) -> runs f' p' l' m') -> runs (f ;; f') p l' m'.
Proof.
  intros Hf Hp Hk. destruct (Hf p l m Hp) as (p1 & E & Hp1). unfold runs, mbind, M_bind. rewrite E. by apply Hk.
Qed.

(** Preparing the preferences of a scan for the wrapped scanner succeeds whenever the
    knowledge base answers, and writes under the key of the scan exactly the lines the scan
    asks for, in the order of the steps and in front of what was there: the hosts, the
    ports, the credentials, the tests that are known, the number of the database, the
    excluded hosts, the settings of the scan, the two lookup settings, the settings of the
    tests (where those of the alive test win over those chosen for a test) and the settings
    of the alive test unless the configuration turns it off. *)
Theorem preferences_written :
  kb_ready h0 -> (exists c, read_openvas_config = Ok c) \/ (exists e, read_openvas_config = Err e) ->
  exists p', prepare_preferences_for_openvas scan (mkPreferenceHandler h0 ∅) = (Ok tt, p')
    /\ kb_items (redis_connector p') (scanprefs_key scan)
       = (rev (expected_prefs scan (kb_number h0) (vt_known h0)) ++ kb_items h0 (scanprefs_key scan))%list.
Proof.
  intros Hr Hc.
  assert (exists m, runs (prepare_preferences_for_openvas scan) (mkPreferenceHandler h0 ∅)
    (expected_prefs scan (kb_number h0) (vt_known h0)) m) as (m & p' & E & _ & _ & _ & _ & Hi); [|by exists p'].
  assert (written (mkPreferenceHandler h0 ∅) [] ∅) as Hp by done.
  eexists. unfold prepare_preferences_for_openvas.
  eapply runs_seq; [apply writes_scan_id|exact Hp|clear Hp; intros p1 Hp].
  eapply runs_seq; [by apply writes_prefs_push|exact Hp|clear Hp; intros p2 Hp].
  eapply runs_seq; [by apply (writes_option _ (fun p => [kb_entry "port_range" p]))|exact Hp|clear Hp; intros p3 Hp].
  eapply runs_seq; [apply writes_prefs_list|exact Hp|clear Hp; intros p4 Hp].
  eapply runs_seq; [apply writes_plugins|exact Hp|clear Hp; intros p5 Hp].
  eapply runs_seq; [apply writes_kbindex|exact Hp|clear Hp; intros p6 Hp].
  eapply runs_seq; [apply writes_host_options|exact Hp|clear Hp; intros p7 Hp].
  eapply runs_seq; [apply writes_prefs_list|exact Hp|clear Hp; intros p8 Hp].
  eapply runs_seq; [by apply writes_prefs_push|exact Hp|clear Hp; intros p9 Hp].
  eapply runs_seq; [apply writes_prefs_extend|exact Hp|clear Hp; intros p10 Hp].
  eapply runs_seq; [apply writes_nvt_preferences|exact Hp|clear Hp; intros p11 Hp].
  destruct (writes_boreas Hc _ _ _ Hp) as (p12 & E & Hw). exists p12. split; [exact E|].
  refine (eq_rect _ (fun l => written p12 l _) Hw _ _). unfold expected_prefs. cbn [concat app].
  rewrite (right_id_L ∅ (∪)), <- !app_assoc, !app_nil_r. done.
Qed.
End Preferences.

(** ** Examples *)
Module OpenvasExample.
#[local] Instance no_details : HostDetailXml := {| read_host_detail := fun _ => [] |}.
#[local] Instance no_config : OpenvasConfig := {| read_openvas_config := Err "no openvas" |}.
#[local] Instance processes : OpenvasCmd unit := {|
  Child := unit; cmd_start := fun _ _ => mret tt; cmd_stop := fun _ _ => mret tt;
  cmd_wait := fun _ => mret (Some 0%Z); cmd_in_boundaries := fun _ => true; cmd_now := fun _ => 0%Z
|}.
#[local] Existing Instances plain_order debug_build.

(** A server where the second database is the cache *)
Definition cached : RedisSim.t :=
  RedisSim.mk {[0%Z := {[DB_INDEX := RHash {["1" := "1"]}]}; 1%Z := {["nvticache" := RList ["v"]]}]} [].
Definition idle (s : RedisSim.t) : OpenvasScanner RedisSim.t unit := mkOpenvas ∅ false false s tt.
Definition scan (id : string) : ScanModel := mkScan id ["127.0.0.1"] [mkVT "1.2" []].
Definition started (id : string) (v : OpenvasScanner RedisSim.t unit) : OpenvasScanner RedisSim.t unit :=
  snd (ov_start_scan (scan id) v).
Definition busy : OpenvasScanner RedisSim.t unit := started "b" (started "a" (idle cached)).

Example busy_databases : (fun p => p.2) <$> running busy = ({["a" := 2; "b" := 3]}%Z : gmap string Z).
Proof. vm_compute. reflexivity. Qed.

Lemma running_scans_own_databases_witness :
  running (idle cached) = ∅ /\ (1 <= 3)%Z /\ in_use (redis_data (ov_redis busy)) 3.
Proof.
  split; [reflexivity|]. apply (running_scans_own_databases (idle cached) busy eq_refl) with (id := "b") (c := tt).
  - eapply rtc_l; [eapply (step_start (scan "a")), surjective_pairing|].
    eapply rtc_l; [eapply (step_start (scan "b")), surjective_pairing|]. constructor.
  - vm_compute. reflexivity.
Defined.

Lemma failed_start_leaks_witness :
  redis_up RedisSim.empty /\ exists i v', ov_start_scan (scan "a") (idle RedisSim.empty)
      = (Err (ScanError.Connection "No DB available."), v')
    /\ ~ in_use (redis_data (ov_redis (idle RedisSim.empty))) i /\ in_use (redis_data (ov_redis v')) i
    /\ running v' = ∅ /\ forall j, in_use (redis_data (ov_redis (idle RedisSim.empty))) j -> in_use (redis_data (ov_redis v')) j.
Proof.
  split; [done|]. apply (failed_start_leaks (scan "a") (idle RedisSim.empty) ∅); [done|done|done|].
  exists 1%Z. split; [vm_compute; split; congruence|done].
Defined.

Definition helper : RedisHelper RedisSim.t := mkHelper cached (mkRedisCtx (Some 1%Z) 1) (mkRedisCtx (Some 2%Z) 2).
Lemma helper_is_ready : helper_ready helper.
Proof.
  assert (forall k, k <> "nvticache" -> list_at (db_of (redis_data cached) 1) k = Some []) as Hk.
  { intros k Hk. unfold list_at. replace (db_of (redis_data cached) 1) with ({["nvticache" := RList ["v"]]} : gmap string RedisValue)
      by (vm_compute; reflexivity). by rewrite lookup_singleton_ne. }
  exists 1%Z, 2%Z. split_and!; try done.
  - intros k. destruct (decide (k = "nvticache")) as [->|]; [vm_compute; by eexists|rewrite Hk by done; by eexists].
  - intros k. by exists [].
  - intros o. exists None. unfold frozen_vt, redis_get_vt, mbind, M_bind. simpl. rewrite Hk by done. done.
Qed.
Lemma preferences_written_witness :
  helper_ready helper /\ exists p', prepare_preferences_for_openvas (scan "a") (mkPreferenceHandler helper ∅) = (Ok tt, p')
    /\ helper_items (redis_connector p') (scanprefs_key (scan "a"))
       = rev (expected_prefs (scan "a") 2 (fun _ => None)).
Proof.
  split; [apply helper_is_ready|].
  destruct (preferences_written (H2 := helper_laws) (H4 := no_config) (scan "a") helper helper_is_ready (or_intror (ex_intro _ "no openvas" eq_refl))) as (p' & E & Hi).
  exists p'. split; [exact E|]. rewrite app_nil_r in Hi. simpl in Hi. rewrite Hi. vm_compute. reflexivity.
Defined.
End OpenvasExample.
