(* ===== verification/RedisStore.v ===== *)
(** * The daemon's store over Redis

    [openvasd/storage/redis.rs]: scans are kept by another store; the tests of the feeds are
    in Redis, in the databases of the scripts and of the advisories. *)

From S2P Require Import Prelude RustStr Token Statement NaslValue Errors Register Executor FnArgs Files StringFns StringFnsProps Text Nvt Storage Redis RedisProps Models Scheduling HostInfo Scanner Crypt ScanStore Scheduler.
Local Open Scope string_scope.

(** [HashsumAdvisoryLoader] of a directory: whether it can be used, the files with
    advisories, and a file with its family and advisories. *)
Class AdvisoryFiles := {
  advisory_loader : string -> unit + DbError.t;
  advisory_files : string -> list string + DbError.t;
  advisory_file : string -> string -> (string * list Advisories) + DbError.t
}.

Record RedisStorage (T S : Type) := mkRedisStorage { rs_hash : list FeedHash; rs_redis : S; rs_underlying : T }.
Arguments mkRedisStorage {T S}.
Arguments rs_hash {T S}.
Arguments rs_redis {T S}.
Arguments rs_underlying {T S}.

(** [From<redis::DbError>] and [From<StorageError>] for the errors of the store *)
Definition from_redis_error (e : RedisDbError.t) : DbError.t := DbError.Storage (inr (RedisDbError.to_string e)).
Definition from_storage_error (e : StorageError.t) : DbError.t := DbError.Storage (inl e).

Section RedisStore.
Context {T S : Type} `{Database T} `{RedisServer S} `{VulnerabilityJson} `{HashOrder} `{AdvisoryFiles}.
Abbreviation RS := (RedisStorage T S).
Abbreviation D := (M RS DbError.t).

Definition on_store {E A} (m : M T E A) : M RS E A := fun s =>
  let '(o, u) := m (rs_underlying s) in (o, mkRedisStorage (rs_hash s) (rs_redis s) u).
Definition on_redis {E A} (m : M S E A) : M RS E A := fun s =>
  let '(o, r) := m (rs_redis s) in (o, mkRedisStorage (rs_hash s) r (rs_underlying s)).

(** What a blocking task does on a context of its own, which is dropped at its end *)
Definition with_ctx {A} (selector : list NameSpaceSelector) (f : M (Redis S) RedisDbError.t A) : M S DbError.t A := fun s =>
  match open selector s with
  | (Ok c, s1) => let '(o, r) := err_into from_redis_error f (mkRedis s1 c) in (o, redis r)
  | (Err e, s1) => (Err (from_redis_error e), s1)
  | (Panic, s1) => (Panic, s1)
  | (OutOfFuel, s1) => (OutOfFuel, s1)
  end.

(** ** The feeds *)

(** The advisories of one file *)
Fixpoint dispatch_advisories (family filename : string) (l : list Advisories) :
  M (CacheDispatcher (Redis S)) StorageError.t unit :=
  match l with
  | [] => mret tt
  | adv :: l' =>
      (fun d => dispatch_advisory d "" (Some (mkVulnerabilityData adv family filename))) ;;
      dispatch_advisories family filename l'
  end.
Fixpoint dispatch_files (path : string) (l : list string) : M (CacheDispatcher (Redis S)) DbError.t unit :=
  match l with
  | [] => mret tt
  | filename :: l' =>
      match advisory_file path filename with
      | inl (family, advisories) =>
          err_into from_storage_error (dispatch_advisories family filename advisories) ;; dispatch_files path l'
      | inr e => throw e
      end
  end.
(** [update_advisories]: the database is marked only after the last advisory. *)
Definition update_advisories (path : string) : M S DbError.t unit := fun s =>
  match advisory_loader path with
  | inr e => (Err e, s)
  | inl _ =>
      match cache_init NOTUSUPDATE_SELECTOR s with
      | (Ok cache, s1) =>
          match advisory_files path with
          | inl files =>
              let '(o, d) := (dispatch_files path files ;;
                err_into from_storage_error (fun d => dispatch_advisory d "" None)) cache in
              (o, redis (cd_cache d))
          | inr e => (Err e, s1)
          end
      | (Err e, s1) => (Err (from_redis_error e), s1)
      | (Panic, s1) => (Panic, s1)
      | (OutOfFuel, s1) => (OutOfFuel, s1)
      end
  end.

(** A version that is empty was no version: the database is given back. *)
Definition current_feed_version_redis : M (Redis S) RedisDbError.t string :=
  version ← lindex CACHE_KEY 0;
  (if decide (version = "") then attempt delete_namespace ;; mret tt else mret tt) ;;
  mret version.
Definition redis_current_feed_version : D string := on_redis (with_ctx FEEDUPDATE_SELECTOR current_feed_version_redis).

(** [update_nasl path version] is [feed::Update] on the cache of scripts.  The updates are
    tasks of their own: all run, in the order they are started, and then the first error is
    returned; only a version that cannot be read ends the synchronization at once. *)
Context (update_nasl : string -> string -> M S DbError.t unit).
Fixpoint spawn_updates (l : list FeedHash) : D (list (unit + DbError.t)) :=
  match l with
  | [] => mret []
  | h :: l' =>
      r ← match typus h with
          | NASL =>
              v ← redis_current_feed_version;
              r ← attempt (on_redis (update_nasl (fh_path h) v));
              mret [r]
          | Advisories_ => r ← attempt (on_redis (update_advisories (fh_path h))); mret [r]
          | Products => mret []
          end;
      rs ← spawn_updates l';
      mret (app r rs)
  end.
Fixpoint join_all (l : list (unit + DbError.t)) : D unit :=
  match l with [] => mret tt | inl _ :: l' => join_all l' | inr e :: _ => throw e end.
Definition redis_synchronize_feeds (hash : list FeedHash) : D unit :=
  modify (fun s => mkRedisStorage (map (Inmemory.update_hash hash) (rs_hash s)) (rs_redis s) (rs_underlying s)) ;;
  rs ← spawn_updates hash;
  join_all rs.

(** ** The tests *)
Definition redis_vt_by_oid (oid : string) : D (option Nvt) :=
  nr ← on_redis (with_ctx NOTUSUPDATE_SELECTOR (redis_get_advisory oid));
  match nr with
  | Some _ => mret nr
  | None => on_redis (with_ctx FEEDUPDATE_SELECTOR (redis_get_vt oid))
  end.

(** [x.split('/').last()] *)
Definition last_part (x : string) : option string := last (split_text "/" x).
Definition keys_of (pattern : string) : M (Redis S) RedisDbError.t (list string) :=
  l ← keys pattern; mret (omap last_part l).

(** The tests that can be read; other errors are left out. *)
Fixpoint read_each (f : string -> M (Redis S) RedisDbError.t (option Nvt)) (l : list string) :
  M (Redis S) RedisDbError.t (list Nvt) :=
  match l with
  | [] => mret []
  | oid :: l' =>
      r ← attempt (f oid);
      rest ← read_each f l';
      mret (match r with inl (Some n) => n :: rest | _ => rest end)
  end.
(** [&oid[4..]] *)
Definition without_prefix (oid : string) : option string := string_of <$> drop_bytes 4 (chars_of oid).
Definition get_vt_of_key (oid : string) : M (Redis S) RedisDbError.t (option Nvt) :=
  o ← or_panic (without_prefix oid); redis_get_vt o.

(** Two tasks, of which the first error is returned *)
Definition both {A} (m m' : M S DbError.t (list A)) : D (list A) :=
  a ← attempt (on_redis m);
  b ← attempt (on_redis m');
  match a, b with
  | inl x, inl y => mret (app x y)
  | inr e, _ | _, inr e => throw e
  end.
Definition redis_vts : D (list Nvt) :=
  both (with_ctx NOTUSUPDATE_SELECTOR (l ← keys_of "internal*"; read_each redis_get_advisory l))
       (with_ctx FEEDUPDATE_SELECTOR (l ← keys_of "nvt:*"; read_each get_vt_of_key l)).
Definition redis_oids : D (list string) :=
  both (with_ctx NOTUSUPDATE_SELECTOR (keys_of "internal*")) (with_ctx FEEDUPDATE_SELECTOR (keys_of "nvt:*")).

(** ** As a database of the scheduler; the scans are kept by the other store. *)
#[global] Instance redis_database : Database RS := {|
  db_insert_scan := fun t => on_store (db_insert_scan t);
  db_remove_scan := fun id => on_store (db_remove_scan id);
  db_update_status := fun id st => on_store (db_update_status id st);
  db_append_fetched_result := fun l => on_store (db_append_fetched_result l);
  db_get_scan := fun id => on_store (db_get_scan id);
  db_get_decrypted_scan := fun id => on_store (db_get_decrypted_scan id);
  db_get_status := fun id => on_store (db_get_status id);
  db_get_results := fun id a b => on_store (db_get_results id a b);
  db_add_scan_client_id := fun id c => on_store (db_add_scan_client_id id c);
  db_remove_scan_id := fun id => on_store (db_remove_scan_id id);
  db_get_scans_of_client_id := fun c => on_store (db_get_scans_of_client_id c);
  db_is_client_allowed := fun id c =>
    ids ← on_store (db_get_scans_of_client_id c); mret (bool_decide (id ∈ ids));
  db_synchronize_feeds := redis_synchronize_feeds;
  db_current_feed_version := redis_current_feed_version;
  db_feed_hash := gets rs_hash;
  db_vts := redis_vts
|}.
End RedisStore.

(** ** The daemon's store over Redis: theorems

    What lookups of tests give and which databases they take, what reading the version
    of a feed leaves behind, and which identifiers are listed. *)
Section Lookups.
Context {T S : Type} `{Database T} `{RedisLaws S} `{VulnerabilityJson} `{HashOrder}.
Abbreviation RS := (RedisStorage T S).
Let data (v : RS) : Databases := redis_data (rs_redis v).
Let put_server (v : RS) (s : S) : RS := mkRedisStorage (rs_hash v) s (rs_underlying v).

Lemma with_ctx_ok {A} l (f : M (Redis S) RedisDbError.t A) s c s1 a r :
  open l s = (Ok c, s1) -> f (mkRedis s1 c) = (Ok a, r) -> with_ctx l f s = (Ok a, redis r).
Proof. intros E Ef. unfold with_ctx, err_into. by rewrite E, Ef. Qed.

(** Nothing is under a key of a database without it. *)
Definition lacks (d : Databases) (key : string) : Prop :=
  forall i, (1 <= i < redis_databases)%Z -> db_of d i !! key = None.
Lemma list_at_none m k : m !! k = None -> list_at m k = Some [].
Proof. intros E. unfold list_at. by rewrite E. Qed.

Lemma up_no_advisory (r : Redis S) sel d oid :
  holds r sel d -> list_at (db_of d sel) (advisory_key oid) = Some [] ->
  exists r', redis_get_advisory oid r = (Ok None, r') /\ holds r' sel d.
Proof.
  intros Hr Hl. unfold redis_get_advisory, mbind, M_bind. simpl rw_lindex.
  destruct (up_lindex r sel d (advisory_key oid) 0 [] Hr Hl) as (r1 & -> & Hr1 & _). by exists r1.
Qed.
Lemma up_no_vt (r : Redis S) sel d oid :
  holds r sel d -> list_at (db_of d sel) (nvt_key oid) = Some [] ->
  exists r', redis_get_vt oid r = (Ok None, r') /\ holds r' sel d.
Proof.
  intros Hr Hl. unfold redis_get_vt, mbind at 1, M_bind at 1. simpl rw_lrange.
  destruct (up_lrange r sel d (nvt_key oid) [] Hr Hl) as (r1 & -> & Hr1 & _). by exists r1.
Qed.

Lemma hash_taken d h i : hash_at (db_of d 0) DB_INDEX = Some h ->
  hash_at (db_of (taken d h i) 0) DB_INDEX = Some (<[pretty i := "1"]> h).
Proof. intros _. unfold taken. by rewrite db_of_set, hash_at_put. Qed.
Lemma db_taken d h i j : j <> 0%Z -> db_of (taken d h i) j = db_of d j.
Proof. intros Hj. by apply db_of_set_ne. Qed.
Lemma in_use_spec d h i : hash_at (db_of d 0) DB_INDEX = Some h -> in_use d i <-> is_Some (h !! pretty i).
Proof. intros Hh. unfold in_use, index_of. by rewrite Hh. Qed.

(** A lookup where a database is taken *)
Lemma up_lookup_takes {A} key (f : M (Redis S) RedisDbError.t (option A)) s d h :
  redis_up s -> redis_data s = d -> lacks d key -> hash_at (db_of d 0) DB_INDEX = Some h ->
  (exists i, (1 <= i < redis_databases)%Z /\ h !! pretty i = None) ->
  (forall r i d', holds r i d' -> (1 <= i < redis_databases)%Z -> h !! pretty i = None -> db_of d' i = db_of d i ->
     exists r', f r = (Ok None, r') /\ holds r' i d') ->
  exists i s', with_ctx [Key key; Free] f s = (Ok None, s') /\ redis_up s' /\ redis_data s' = taken d h i
    /\ (1 <= i < redis_databases)%Z /\ h !! pretty i = None.
Proof.
  intros Hu Hd Hl Hh Hf Hn. destruct (up_open_key_free s key d h Hu Hd Hl Hh Hf) as (i & s1 & E & Hu1 & Hd1 & Hi & Hfree).
  destruct (Hn (mkRedis s1 (mkRedisCtx (Some i) i)) i (taken d h i)) as (r' & Er & (_ & Hu' & Hd')); try done.
  { apply db_taken. lia. }
  exists i, (redis r'). split; [by eapply with_ctx_ok|]. split_and!; try done; lia.
Qed.

(** As long as Redis has no feeds, every lookup of a test finds nothing and takes two
    databases, which nobody gives back. *)
Theorem lookup_takes_databases (oid : string) (v : RS) (h : gmap string string) (a b : Z) :
  redis_up (rs_redis v) -> hash_at (db_of (data v) 0) DB_INDEX = Some h ->
  lacks (data v) NOTUS_KEY -> lacks (data v) CACHE_KEY ->
  (forall i, (1 <= i < redis_databases)%Z -> h !! pretty i = None -> db_of (data v) i = ∅) ->
  (1 <= a < b)%Z -> (b < redis_databases)%Z -> h !! pretty a = None -> h !! pretty b = None ->
  exists i j v', redis_vt_by_oid oid v = (Ok None, v') /\ i <> j
    /\ ~ in_use (data v) i /\ ~ in_use (data v) j /\ in_use (data v') i /\ in_use (data v') j.
Proof.
  intros Hu Hh Hn Hc He Hab Hb Ha' Hb'. unfold redis_vt_by_oid, NOTUSUPDATE_SELECTOR, FEEDUPDATE_SELECTOR, mbind, M_bind.
  destruct (up_lookup_takes NOTUS_KEY (redis_get_advisory oid) (rs_redis v) (data v) h)
    as (i & s1 & E1 & Hu1 & Hd1 & Hi & Hfi); try done.
  { exists a. split; [lia|done]. }
  { intros r i d' Hr Hi Hfi Hdb. apply up_no_advisory; [done|]. rewrite Hdb, He by done. by apply list_at_none. }
  assert (exists x, (1 <= x < redis_databases)%Z /\ h !! pretty x = None /\ x <> i) as (x & Hx & Hfx & Hxi).
  { destruct (decide (a = i)) as [->|]; [exists b|exists a]; split_and!; try done; lia. }
  destruct (up_lookup_takes CACHE_KEY (redis_get_vt oid) s1 (taken (data v) h i) (<[pretty i := "1"]> h))
    as (j & s2 & E2 & Hu2 & Hd2 & Hj & Hfj); try done.
  { intros y Hy. rewrite db_taken by lia. by apply Hc. }
  { by apply hash_taken. }
  { exists x. split; [done|]. rewrite lookup_insert_ne; [done|]. by intros ?%(inj pretty). }
  { intros r y d' Hr Hy Hfy Hdb. apply up_no_vt; [done|]. rewrite Hdb, db_taken by lia. apply list_at_none.
    rewrite He; [apply lookup_empty|done|]. by apply lookup_insert_None in Hfy as []. }
  apply lookup_insert_None in Hfj as [Hfj Hij].
  exists i, j, (put_server v s2). unfold on_redis at 1. rewrite E1. unfold on_redis. cbn [rs_redis rs_hash rs_underlying].
  rewrite E2. split; [done|]. rewrite !(in_use_spec _ _ _ Hh). unfold data, put_server. cbn [rs_redis]. rewrite Hd2.
  rewrite !(in_use_spec _ _ _ (hash_taken _ _ j (hash_taken _ _ i Hh))). split_and!.
  - intros ->. by apply Hij.
  - rewrite Hfi. by intros [].
  - rewrite Hfj. by intros [].
  - rewrite lookup_insert_ne, lookup_insert_eq by done. by eexists.
  - rewrite lookup_insert_eq. by eexists.
Qed.

(** Reading the version of the feed while Redis has none gives an empty version, and
    gives the database it took for that back. *)
Theorem version_gives_back (v : RS) (h : gmap string string) :
  redis_up (rs_redis v) -> hash_at (db_of (data v) 0) DB_INDEX = Some h -> lacks (data v) CACHE_KEY ->
  (exists i, (1 <= i < redis_databases)%Z /\ h !! pretty i = None) ->
  exists v', redis_current_feed_version v = (Ok "", v') /\ redis_up (rs_redis v')
    /\ (forall i, in_use (data v') i <-> in_use (data v) i).
Proof.
  intros Hu Hh Hl Hf.
  destruct (up_open_key_free (rs_redis v) CACHE_KEY (data v) h Hu eq_refl Hl Hh Hf) as (i & s1 & E1 & Hu1 & Hd1 & Hi & Hfi).
  set (r := mkRedis s1 (mkRedisCtx (Some i) i)). assert (holds r i (taken (data v) h i)) as Hr by done.
  destruct (up_lindex r i (taken (data v) h i) CACHE_KEY 0 [] Hr) as (r1 & E2 & Hr1 & Hc1).
  { rewrite db_taken by lia. by apply list_at_none, Hl. }
  destruct (up_delete_namespace r1 i _ _ Hr1 Hc1 Hi (hash_taken _ _ i Hh)) as (r2 & E3 & (_ & Hu2 & Hd2)).
  { rewrite lookup_insert_eq. by eexists. }
  exists (put_server v (redis r2)). unfold redis_current_feed_version, on_redis.
  rewrite (with_ctx_ok _ current_feed_version_redis _ _ _ "" r2 E1).
  2:{ unfold current_feed_version_redis, mbind, M_bind. fold r. rewrite E2. simpl. unfold attempt. by rewrite E3. }
  split; [done|]. split; [done|]. intros j. rewrite (in_use_spec _ _ _ Hh).
  unfold data at 1, put_server. cbn [rs_redis]. rewrite Hd2. erewrite in_use_spec by by rewrite db_of_set, hash_at_put.
  by rewrite delete_insert_id.
Qed.

(** A test that an update wrote into the cache of scripts is found by its identifier,
    as reading it back gives it, unless there is an advisory of that identifier. *)
Theorem stored_test_found (v : RS) (n : Nvt) (notus cache : Z) :
  redis_up (rs_redis v) -> plain_nvt n ->
  database_with NOTUS_KEY (data v) = Some notus -> database_with CACHE_KEY (data v) = Some cache ->
  list_at (db_of (data v) notus) (advisory_key (oid n)) = Some [] ->
  list_at (db_of (data v) cache) (nvt_key (oid n)) = Some (nvt_values n) ->
  list_at (db_of (data v) cache) (prefs_key (oid n)) = Some (rev (redis_prefs (preferences n))) ->
  exists v', redis_vt_by_oid (oid n) v = (Ok (Some (reread_nvt n)), v') /\ data v' = data v.
Proof.
  intros Hu Hn Ho Hc Ha Hv Hp. unfold redis_vt_by_oid, NOTUSUPDATE_SELECTOR, FEEDUPDATE_SELECTOR, mbind, M_bind.
  destruct (up_open_key (rs_redis v) NOTUS_KEY (data v) notus [Free] Hu eq_refl Ho) as (s1 & E1 & Hu1 & Hd1).
  destruct (up_no_advisory (mkRedis s1 (mkRedisCtx (Some notus) notus)) notus (data v) (oid n)) as (r1 & F1 & (_ & Hu2 & Hd2)); try done.
  destruct (up_open_key (redis r1) CACHE_KEY (data v) cache [Free] Hu2 Hd2 Hc) as (s2 & E2 & Hu3 & Hd3).
  destruct (up_get_vt (mkRedis s2 (mkRedisCtx (Some cache) cache)) cache (data v) n) as (r2 & F2 & (_ & Hu4 & Hd4)); try done.
  exists (put_server v (redis r2)). unfold on_redis.
  rewrite (with_ctx_ok _ (redis_get_advisory (oid n)) _ _ _ None r1 E1 F1). cbn [rs_redis rs_hash rs_underlying].
  by rewrite (with_ctx_ok _ (redis_get_vt (oid n)) _ _ _ _ r2 E2 F2).
Qed.
End Lookups.

(** ** Examples *)
Module RedisStoreExample.
#[local] Existing Instances plain_order RedisExample.json.
(** A store of scans that knows none *)
#[local] Instance no_scans : Database unit := {|
  db_insert_scan := fun _ => mret tt; db_remove_scan := fun _ => mret tt; db_update_status := fun _ _ => mret tt;
  db_append_fetched_result := fun _ => mret tt; db_get_scan := fun _ => throw DbError.NotFound;
  db_get_decrypted_scan := fun _ => throw DbError.NotFound; db_get_status := fun _ => throw DbError.NotFound;
  db_get_results := fun _ _ _ => throw DbError.NotFound; db_add_scan_client_id := fun _ _ => mret tt;
  db_remove_scan_id := fun _ => mret tt; db_get_scans_of_client_id := fun _ => mret [];
  db_is_client_allowed := fun _ _ => mret false; db_synchronize_feeds := fun _ => mret tt;
  db_current_feed_version := mret ""; db_feed_hash := mret []; db_vts := mret []
|}.
Definition empty_store : RedisStorage unit RedisSim.t := mkRedisStorage [] RedisSim.empty tt.

Lemma lookup_takes_databases_witness :
  redis_up RedisSim.empty /\ exists i j v', redis_vt_by_oid "1.2" empty_store = (Ok None, v') /\ i <> j
    /\ ~ in_use (redis_data (rs_redis empty_store)) i /\ ~ in_use (redis_data (rs_redis empty_store)) j
    /\ in_use (redis_data (rs_redis v')) i /\ in_use (redis_data (rs_redis v')) j.
Proof.
  split; [done|]. apply (lookup_takes_databases "1.2" empty_store ∅ 1 2); try done; vm_compute; done.
Defined.

Lemma version_gives_back_witness :
  redis_up RedisSim.empty /\ exists v', redis_current_feed_version empty_store = (Ok "", v') /\ redis_up (rs_redis v')
    /\ forall i, in_use (redis_data (rs_redis v')) i <-> in_use (redis_data (rs_redis empty_store)) i.
Proof.
  split; [done|]. apply (version_gives_back empty_store ∅); try done. exists 1%Z. split; [vm_compute; done|done].
Defined.

(** A server with a test and no advisories *)
Definition fed : Databases :=
  {[1%Z := {[NOTUS_KEY := RList ["1"]]};
    2%Z := {[CACHE_KEY := RList ["20"]; nvt_key "1.2" := RList (nvt_values RedisExample.test);
             prefs_key "1.2" := RList (rev (redis_prefs (preferences RedisExample.test)))]}]}.
Definition fed_store : RedisStorage unit RedisSim.t := mkRedisStorage [] (RedisSim.mk fed []) tt.

Lemma stored_test_found_witness :
  plain_nvt RedisExample.test /\ exists v',
    redis_vt_by_oid (oid RedisExample.test) fed_store = (Ok (Some (reread_nvt RedisExample.test)), v')
    /\ redis_data (rs_redis v') = redis_data (rs_redis fed_store).
Proof.
  assert (plain_nvt RedisExample.test) as Hp.
  { split; [apply (bool_decide_unpack _); vm_compute; exact I..| |apply (bool_decide_unpack _); vm_compute; exact I].
    intros k v. unfold RedisExample.test. simpl. intros [[<- <-]|[_ [<- <-]%lookup_singleton_Some]]%lookup_insert_Some;
      (split; [apply (bool_decide_unpack _); vm_compute; exact I|]); intros Hd; try done. by eexists. }
  split; [exact Hp|]. apply (stored_test_found fed_store RedisExample.test 1 2); try done; vm_compute; reflexivity.
Defined.

(** The identifiers of scripts are listed with the prefix of their keys, those of the tests
    themselves have none. *)
Example oids_have_a_prefix :
  fst (redis_oids fed_store) = Ok ["nvt:1.2"] /\ (map oid <$> match fst (redis_vts fed_store) with Ok l => Some l | _ => None end) = Some ["1.2"].
Proof. vm_compute. split; reflexivity. Qed.

(** An update whose second file cannot be read leaves a database that has no mark: the
    next one takes another. *)
#[local] Instance broken_files : AdvisoryFiles := {|
  advisory_loader := fun _ => inl tt; advisory_files := fun _ => inl ["a"; "b"];
  advisory_file := fun _ f => if decide (f = "a") then inl ("family", []) else inr DbError.NotFound
|}.
Definition used (s : RedisSim.t) : list string := elements (dom (index_of (RedisSim.sim_data s))).
Example failed_update_takes_a_database :
  let s1 := snd (update_advisories "feed" RedisSim.empty) in
  used s1 = ["1"] /\ length (used (snd (update_advisories "feed" s1))) = 2%nat.
Proof. vm_compute. split; reflexivity. Qed.
End RedisStoreExample.
