(* ===== verification/Packages.v ===== *)
(** * Package versions

    [notus/packages]: the order on version strings and the five package types
    that use it.  The regular expressions come from a crate: splitting a version
    with [(\d+|.)] and the captures of the package names are operations of the
    class [NotusRegex], and [VersionSplit] states how the first one splits. *)

From S2P Require Import Prelude RustStr.
Local Open Scope nat_scope.

(** Rust strings of this component. *)
Abbreviation str := (list char).

(** The patterns of the package types. *)
Inductive pattern : Set :=
| DebRe | DebReWoRevision | DebReVersion | DebReVersionWoRevision
| RpmRe | RpmReVersion
| SlackRe | SlackReVersion.

Class NotusRegex := {
  (** the matches of [(\d+|.)], in order *)
  find_iter : str -> list str;
  (** the groups of a match, the whole match first *)
  captures : pattern -> str -> option (list (option str))
}.

(** What [(\d+|.)] matches: a maximal run of digits, or one other character that
    is not the end of a line. *)
Class VersionSplit `{NotusRegex} : Prop := {
  find_iter_nil : find_iter [] = [];
  find_iter_digits ds s :
    ds <> [] -> Forall (fun c => is_ascii_digit c = true) ds ->
    (forall c s', s = c :: s' -> is_ascii_digit c = false) ->
    find_iter (ds ++ s) = ds :: find_iter s;
  find_iter_char c s :
    is_ascii_digit c = false -> c <> newline -> find_iter (c :: s) = [c] :: find_iter s;
  find_iter_newline s : find_iter (newline :: s) = find_iter s
}.

Definition tilde : str := ["~"%char].

(** ** [PackageVersion] *)
Module PackageVersion.

(** One round of the loop: [None] goes on to the next parts. *)
Definition step (a b : str) : option comparison :=
  if decide (a = b) then None
  else
    match forallb is_numeric a, forallb is_numeric b with
    | true, true =>
        let a' := drop_while (Ascii.eqb "0") a in
        let b' := drop_while (Ascii.eqb "0") b in
        match Nat.compare (len_utf8 a') (len_utf8 b') with
        | Eq => match str_cmp a' b' with Eq => None | ord => Some ord end
        | ord => Some ord
        end
    | true, false => Some Gt
    | false, true => Some Lt
    | false, false =>
        match forallb is_alphabetic a, forallb is_alphabetic b with
        | true, true => Some (str_cmp (map to_lowercase a) (map to_lowercase b))
        | true, false => if decide (b = tilde) then Some Gt else Some Lt
        | false, true => if decide (a = tilde) then Some Lt else Some Gt
        | false, false =>
            if (negb (bool_decide (a = tilde))
                && match str_cmp a b with Gt => true | _ => false end)
               || bool_decide (b = tilde)
            then Some Gt else Some Lt
        end
    end.

(** The loop over the parts; a side that ends loses unless the other goes on with a
    tilde. *)
Fixpoint cmp_parts (a b : list str) : option comparison :=
  match a, b with
  | [], [] => None
  | [], b1 :: _ => if decide (b1 = tilde) then Some Gt else Some Lt
  | a1 :: _, [] => if decide (a1 = tilde) then Some Lt else Some Gt
  | a1 :: a', b1 :: b' => match step a1 b1 with None => cmp_parts a' b' | ord => ord end
  end.

Definition partial_cmp `{NotusRegex} (a b : str) : option comparison :=
  if decide (a = b) then Some Eq else cmp_parts (find_iter a) (find_iter b).

End PackageVersion.

(** ** The [Package] trait *)
Class Package (P : Type) := {
  pkg_cmp : P -> P -> option comparison;
  pkg_eqb : P -> P -> bool;
  get_name : P -> str;
  get_version : P -> str;
  from_full_name : str -> outcome Empty_set (option P);
  from_name_and_full_version : str -> str -> outcome Empty_set (option P)
}.

(** A group of a match, as text; the default stands for a group that took no
    part. *)
Definition group (d : str) (c : list (option str)) (i : nat) : str := default d (mjoin (c !! i)).

(** [if let Some(comp) = .. { if comp.is_ne() { return Some(comp) } }] and then the
    next comparison. *)
Definition or_else_cmp (o next : option comparison) : option comparison :=
  match o with Some Lt => Some Lt | Some Gt => Some Gt | _ => next end.

Definition hyphen : str := ["-"%char].
Definition colon : str := [":"%char].
Definition dot : str := ["."%char].
Definition slack_tag : str := chars_of "_slack".
Definition zero : str := ["0"%char].

Section Packages.
Context `{NotusRegex}.

Definition epoch_cmp (a b : Z) : option comparison :=
  if (a =? b)%Z then None else if (b <? a)%Z then Some Gt else Some Lt.

(** *** deb.rs *)
Record Deb := mkDeb {
  deb_name : str; deb_epoch : Z; deb_upstream : str; deb_revision : str
}.

Definition deb_cmp (a b : Deb) : option comparison :=
  if decide (deb_name a = deb_name b) then
    match epoch_cmp (deb_epoch a) (deb_epoch b) with
    | Some ord => Some ord
    | None =>
        or_else_cmp (PackageVersion.partial_cmp (deb_upstream a) (deb_upstream b))
          (PackageVersion.partial_cmp (deb_revision a) (deb_revision b))
    end
  else None.

Definition deb_from_full_name (full_name : str) : outcome Empty_set (option Deb) :=
  match full_name with
  | [] => Ok None
  | _ =>
      let full_name := trim full_name in
      let fields :=
        match captures DebRe full_name with
        | Some c => Some (group [] c 1, group [] c 2, group [] c 3, group [] c 4)
        | None =>
            match captures DebReWoRevision full_name with
            | None => None
            | Some c => Some (group [] c 1, group [] c 2, group [] c 3, [])
            end
        end in
      match fields with
      | None => Ok None
      | Some (name, epochstr, upstream, revision) =>
          Ok (Some (mkDeb name (default 0%Z (u64_from_str epochstr)) upstream revision))
      end
  end.

Definition deb_from_name_and_full_version (name full_version : str) :
  outcome Empty_set (option Deb) :=
  match name, full_version with
  | [], _ | _, [] => Ok None
  | _, _ =>
      let name := trim name in
      let full_version := trim full_version in
      let fields :=
        match captures DebReVersion full_version with
        | Some c => Some (group zero c 1, group [] c 2, group [] c 3)
        | None =>
            match captures DebReVersionWoRevision full_version with
            | None => None
            | Some c => Some (group zero c 1, group [] c 2, [])
            end
        end in
      match fields with
      | None => Ok None
      | Some (epochstr, upstream, revision) =>
          match u64_from_str epochstr with
          | None => Panic
          | Some epoch => Ok (Some (mkDeb name epoch upstream revision))
          end
      end
  end.

Definition deb_get_version (d : Deb) : str :=
  (if (0 <? deb_epoch d)%Z then show_Z (deb_epoch d) ++ colon else [])
  ++ deb_upstream d
  ++ match deb_revision d with [] => [] | r => hyphen ++ r end.

#[global] Instance Deb_eq_dec : EqDecision Deb.
Proof. solve_decision. Defined.

#[global] Instance Deb_package : Package Deb := {|
  pkg_cmp := deb_cmp;
  pkg_eqb := fun a b => bool_decide (a = b);
  get_name := deb_name;
  get_version := deb_get_version;
  from_full_name := deb_from_full_name;
  from_name_and_full_version := deb_from_name_and_full_version
|}.

(** *** rpm.rs *)
Record Rpm := mkRpm {
  rpm_name : str; rpm_epoch : Z; rpm_version : str; rpm_release : str; rpm_arch : str
}.

Definition EXCEPTIONS : list str := [chars_of "_fips"; chars_of ".ksplice"].

Definition find_any_exception (name : str) : str :=
  default [] (List.find (fun e => RustStr.contains name e) EXCEPTIONS).

Definition rpm_cmp (a b : Rpm) : option comparison :=
  if decide (rpm_name a = rpm_name b) then
    if decide (rpm_arch a = rpm_arch b) then
      if decide (find_any_exception (rpm_release a) = find_any_exception (rpm_release b)) then
        match epoch_cmp (rpm_epoch a) (rpm_epoch b) with
        | Some ord => Some ord
        | None =>
            or_else_cmp (PackageVersion.partial_cmp (rpm_version a) (rpm_version b))
              (PackageVersion.partial_cmp (rpm_release a) (rpm_release b))
        end
      else None
    else None
  else None.

Definition rpm_from_full_name (full_name : str) : outcome Empty_set (option Rpm) :=
  match full_name with
  | [] => Ok None
  | _ =>
      match captures RpmRe (trim full_name) with
      | None => Ok None
      | Some c =>
          match u64_from_str (group zero c 2) with
          | None => Panic
          | Some epoch =>
              Ok (Some (mkRpm (group [] c 1) epoch (group [] c 3) (group [] c 4) (group [] c 5)))
          end
      end
  end.

Definition rpm_from_name_and_full_version (name full_version : str) :
  outcome Empty_set (option Rpm) :=
  match name, full_version with
  | [], _ | _, [] => Ok None
  | _, _ =>
      match captures RpmReVersion (trim full_version) with
      | None => Ok None
      | Some c =>
          match u64_from_str (group zero c 1) with
          | None => Panic
          | Some epoch =>
              Ok (Some (mkRpm (trim name) epoch (group [] c 2) (group [] c 3) (group [] c 4)))
          end
      end
  end.

Definition rpm_get_version (r : Rpm) : str :=
  (if (0 <? rpm_epoch r)%Z then show_Z (rpm_epoch r) ++ colon else [])
  ++ rpm_version r ++ hyphen ++ rpm_release r ++ dot ++ rpm_arch r.

#[global] Instance Rpm_eq_dec : EqDecision Rpm.
Proof. solve_decision. Defined.

#[global] Instance Rpm_package : Package Rpm := {|
  pkg_cmp := rpm_cmp;
  pkg_eqb := fun a b => bool_decide (a = b);
  get_name := rpm_name;
  get_version := rpm_get_version;
  from_full_name := rpm_from_full_name;
  from_name_and_full_version := rpm_from_name_and_full_version
|}.

(** *** slack.rs *)
Record Slack := mkSlack {
  slack_name : str; slack_build : str; slack_target : str; slack_version : str; slack_arch : str
}.

Definition slack_cmp (a b : Slack) : option comparison :=
  if decide (slack_name a = slack_name b) then
    if decide (slack_arch a = slack_arch b) then
      or_else_cmp (PackageVersion.partial_cmp (slack_version a) (slack_version b))
        (or_else_cmp (PackageVersion.partial_cmp (slack_target a) (slack_target b))
          (PackageVersion.partial_cmp (slack_build a) (slack_build b)))
    else None
  else None.

Definition slack_from_full_name (full_name : str) : outcome Empty_set (option Slack) :=
  match full_name with
  | [] => Ok None
  | _ =>
      Ok ((fun c => mkSlack (group [] c 1) (group [] c 4) (group [] c 5) (group [] c 2)
             (group [] c 3)) <$> captures SlackRe (trim full_name))
  end.

Definition slack_from_name_and_full_version (name full_version : str) :
  outcome Empty_set (option Slack) :=
  match name, full_version with
  | [], _ | _, [] => Ok None
  | _, _ =>
      Ok ((fun c => mkSlack (trim name) (group [] c 3) (group [] c 4) (group [] c 1)
             (group [] c 2)) <$> captures SlackReVersion (trim full_version))
  end.

Definition slack_get_version (s : Slack) : str :=
  slack_version s ++ hyphen ++ slack_arch s ++ hyphen ++ slack_build s
  ++ match slack_target s with [] => [] | t => slack_tag ++ t end.

#[global] Instance Slack_eq_dec : EqDecision Slack.
Proof. solve_decision. Defined.

#[global] Instance Slack_package : Package Slack := {|
  pkg_cmp := slack_cmp;
  pkg_eqb := fun a b => bool_decide (a = b);
  get_name := slack_name;
  get_version := slack_get_version;
  from_full_name := slack_from_full_name;
  from_name_and_full_version := slack_from_name_and_full_version
|}.

(** *** ebuild.rs *)
Record EBuild := mkEBuild { ebuild_name : str; ebuild_version : str }.

Definition ebuild_cmp (a b : EBuild) : option comparison :=
  if decide (ebuild_name a = ebuild_name b) then
    PackageVersion.partial_cmp (ebuild_version a) (ebuild_version b)
  else None.

(** [str::find] of a character *)
Fixpoint find_char (c : char) (l : str) : option nat :=
  match l with
  | [] => None
  | d :: l' => if Ascii.eqb d c then Some 0 else S <$> find_char c l'
  end.

Definition ebuild_from_full_name (full_name : str) : outcome Empty_set (option EBuild) :=
  match full_name with
  | [] => Ok None
  | _ =>
      let base_name :=
        match find_char "/"%char full_name with None => full_name | Some i => drop (S i) full_name end in
      match base_name with
      | [] => Ok None
      | _ =>
          let d_index := default (length base_name) (find_char "-"%char base_name) in
          match drop d_index base_name with
          | [] => Ok None
          | full_version =>
              Ok (Some (mkEBuild (take (length full_name - length full_version) full_name)
                          full_version))
          end
      end
  end.

Definition ebuild_from_name_and_full_version (name full_version : str) :
  outcome Empty_set (option EBuild) :=
  match name, full_version with
  | [], _ | _, [] => Ok None
  | _, _ => Ok (Some (mkEBuild (trim name) (trim full_version)))
  end.

#[global] Instance EBuild_eq_dec : EqDecision EBuild.
Proof. solve_decision. Defined.

#[global] Instance EBuild_package : Package EBuild := {|
  pkg_cmp := ebuild_cmp;
  pkg_eqb := fun a b => bool_decide (a = b);
  get_name := ebuild_name;
  get_version := ebuild_version;
  from_full_name := ebuild_from_full_name;
  from_name_and_full_version := ebuild_from_name_and_full_version
|}.

(** *** windows.rs *)
Record Windows := mkWindows { win_full_name : str; win_build : str; win_revision : str }.

Definition windows_cmp (a b : Windows) : option comparison :=
  if decide (win_build a = win_build b) then
    if decide (win_full_name a = win_full_name b) then Some Eq
    else PackageVersion.partial_cmp (win_revision a) (win_revision b)
  else None.

(** [str::rsplit_once]: at the last occurrence. *)
Fixpoint rsplit_once (c : char) (l : str) : option (str * str) :=
  match l with
  | [] => None
  | d :: l' =>
      match rsplit_once c l' with
      | Some (b, r) => Some (d :: b, r)
      | None => if Ascii.eqb d c then Some ([], l') else None
      end
  end.

Definition windows_from_full_name (full_name : str) : outcome Empty_set (option Windows) :=
  match full_name with
  | [] => Ok None
  | _ =>
      let full_name := trim full_name in
      Ok ((fun '(build, revision) => mkWindows full_name build revision)
            <$> rsplit_once "."%char full_name)
  end.

Definition windows_from_name_and_full_version (name full_version : str) :
  outcome Empty_set (option Windows) :=
  match name, full_version with
  | [], _ | _, [] => Ok None
  | _, _ =>
      Ok (Some (mkWindows (trim name ++ dot ++ full_version) (trim name) (trim full_version)))
  end.

#[global] Instance Windows_eq_dec : EqDecision Windows.
Proof. solve_decision. Defined.

#[global] Instance Windows_package : Package Windows := {|
  pkg_cmp := windows_cmp;
  pkg_eqb := fun a b => bool_decide (a = b);
  get_name := win_build;
  get_version := win_revision;
  from_full_name := windows_from_full_name;
  from_name_and_full_version := windows_from_name_and_full_version
|}.
End Packages.

(** ** A splitting function with the stated behaviour *)

Fixpoint version_parts (cur : str) (s : str) : list str :=
  let flush := match cur with [] => [] | _ => [cur] end in
  match s with
  | [] => flush
  | c :: s' =>
      if is_ascii_digit c then version_parts (cur ++ [c]) s'
      else flush ++ (if Ascii.eqb c newline then [] else [[c]]) ++ version_parts [] s'
  end.

(** No package name matches; versions are split. *)
Definition split_only : NotusRegex :=
  {| find_iter := version_parts []; captures := fun _ _ => None |}.

Lemma version_parts_digits ds s cur : Forall (fun c => is_ascii_digit c = true) ds ->
  version_parts cur (ds ++ s) = version_parts (cur ++ ds) s.
Proof.
  intros Hds. revert cur. induction Hds as [|d ds Hd _ IH]; intros cur; simpl.
  - by rewrite app_nil_r.
  - by rewrite Hd, IH, <- app_assoc.
Qed.

Lemma version_parts_split cap : VersionSplit (H := {| find_iter := version_parts []; captures := cap |}).
Proof.
  split; simpl.
  - done.
  - intros ds s Hne Hds Hs. change (version_parts [] (ds ++ s) = ds :: version_parts [] s).
    rewrite version_parts_digits by done. simpl. destruct ds as [|d ds]; [done|].
    destruct s as [|c s]; simpl; [done|]. by rewrite (Hs c s eq_refl).
  - intros c s Hc Hn. change (version_parts [] (c :: s) = [c] :: version_parts [] s).
    simpl. rewrite Hc. by destruct (Ascii.eqb_spec c newline).
  - done.
Qed.
