(* ===== verification/PackagesProps.v ===== *)
(** * The order on versions and packages *)

From S2P Require Import Prelude RustStr Packages.
Local Open Scope nat_scope.
Import PackageVersion.

(** ** Comparing strings *)

Lemma str_cmp_refl a : str_cmp a a = Eq.
Proof. induction a as [|x a IH]; simpl; [done|]. by rewrite N.compare_refl. Qed.

Lemma code_inj x y : code x = code y -> x = y.
Proof.
  unfold code. intros E. rewrite <- (ascii_N_embedding x), <- (ascii_N_embedding y). by rewrite E.
Qed.

Lemma str_cmp_eq a b : str_cmp a b = Eq -> a = b.
Proof.
  revert b. induction a as [|x a IH]; intros [|y b]; simpl; try done.
  destruct (N.compare_spec (code x) (code y)) as [E| |]; try done.
  intros Hab. f_equal; [by apply code_inj|by apply IH].
Qed.

Lemma str_cmp_opp a b : str_cmp b a = CompOpp (str_cmp a b).
Proof.
  revert b. induction a as [|x a IH]; intros [|y b]; simpl; try done.
  rewrite (N.compare_antisym (code x)). destruct (N.compare (code x) (code y)); simpl; auto.
Qed.

Lemma str_cmp_lt a b c : str_cmp a b = Lt -> str_cmp b c = Lt -> str_cmp a c = Lt.
Proof.
  revert b c. induction a as [|x a IH]; intros [|y b] [|z c]; simpl; try done.
  destruct (N.compare_spec (code x) (code y)) as [E|E|E]; try done;
    destruct (N.compare_spec (code y) (code z)) as [E'|E'|E']; try done; intros.
  - rewrite E, E', N.compare_refl. by eapply IH.
  - by rewrite E, (proj2 (N.compare_lt_iff _ _) E').
  - by rewrite <- E', (proj2 (N.compare_lt_iff _ _) E).
  - rewrite (proj2 (N.compare_lt_iff _ _)); [done|lia].
Qed.

(** ** One round

    Parts fall into four classes: the tilde, letters, other characters, numbers;
    within a class there is an order of its own. *)
Definition rank (p : str) : nat :=
  if forallb is_numeric p then 3
  else if forallb is_alphabetic p then 1
  else if decide (p = tilde) then 0 else 2.

Definition trim0 (p : str) : str := drop_while (Ascii.eqb "0") p.

(** First by length, then by the digits. *)
Definition number_cmp (a b : str) : comparison :=
  match Nat.compare (len_utf8 (trim0 a)) (len_utf8 (trim0 b)) with
  | Eq => str_cmp (trim0 a) (trim0 b)
  | ord => ord
  end.

Definition class_cmp (n : nat) (a b : str) : comparison :=
  match n with
  | 3 => number_cmp a b
  | 1 => str_cmp (map to_lowercase a) (map to_lowercase b)
  | _ => str_cmp a b
  end.

Lemma step_spec a b : a <> b ->
  step a b = match Nat.compare (rank a) (rank b) with
             | Eq => match class_cmp (rank a) a b with
                     | Eq => if rank a =? 3 then None else Some Eq
                     | ord => Some ord
                     end
             | ord => Some ord
             end.
Proof.
  intros Hne. unfold step. rewrite decide_False by done. unfold rank at 1 2 3 4.
  destruct (forallb is_numeric a) eqn:Na, (forallb is_numeric b) eqn:Nb.
  - simpl. unfold number_cmp, trim0. by repeat case_match.
  - by destruct (forallb is_alphabetic b); [|destruct (decide (b = tilde))].
  - by destruct (forallb is_alphabetic a); [|destruct (decide (a = tilde))].
  - destruct (forallb is_alphabetic a) eqn:Aa, (forallb is_alphabetic b) eqn:Ab.
    + simpl. by destruct (str_cmp _ _).
    + by destruct (decide (b = tilde)).
    + by destruct (decide (a = tilde)).
    + destruct (decide (a = tilde)) as [Ea|Ea], (decide (b = tilde)) as [Eb|Eb]; simpl.
      * congruence.
      * rewrite (bool_decide_true (a = tilde)), (bool_decide_false (b = tilde)) by done. done.
      * rewrite (bool_decide_true (b = tilde)) by done. by rewrite orb_true_r.
      * rewrite (bool_decide_false (a = tilde)), (bool_decide_false (b = tilde)) by done.
        rewrite orb_false_r. simpl. destruct (str_cmp a b) eqn:E; try done.
        by apply str_cmp_eq in E.
Qed.

Lemma number_cmp_opp a b : number_cmp b a = CompOpp (number_cmp a b).
Proof.
  unfold number_cmp. rewrite (Nat.compare_antisym (len_utf8 (trim0 a))).
  destruct (Nat.compare (len_utf8 (trim0 a)) (len_utf8 (trim0 b))); simpl; auto using str_cmp_opp.
Qed.

Lemma number_cmp_lt a b c : number_cmp a b = Lt -> number_cmp b c = Lt -> number_cmp a c = Lt.
Proof.
  unfold number_cmp.
  destruct (Nat.compare_spec (len_utf8 (trim0 a)) (len_utf8 (trim0 b))) as [E|E|E]; try done;
    destruct (Nat.compare_spec (len_utf8 (trim0 b)) (len_utf8 (trim0 c))) as [E'|E'|E']; try done;
    intros.
  - rewrite E, E', Nat.compare_refl. by eapply str_cmp_lt.
  - by rewrite E, (proj2 (Nat.compare_lt_iff _ _) E').
  - by rewrite <- E', (proj2 (Nat.compare_lt_iff _ _) E).
  - rewrite (proj2 (Nat.compare_lt_iff _ _)); [done|lia].
Qed.

Lemma number_cmp_eq a b : number_cmp a b = Eq -> trim0 a = trim0 b.
Proof. unfold number_cmp. destruct (Nat.compare _ _); try done. apply str_cmp_eq. Qed.

Lemma class_cmp_opp n a b : class_cmp n b a = CompOpp (class_cmp n a b).
Proof.
  destruct n as [|[|[|[|n]]]]; simpl; auto using str_cmp_opp, number_cmp_opp.
Qed.

Lemma class_cmp_lt n a b c :
  class_cmp n a b = Lt -> class_cmp n b c = Lt -> class_cmp n a c = Lt.
Proof.
  destruct n as [|[|[|[|n]]]]; simpl; eauto using str_cmp_lt, number_cmp_lt.
Qed.

Lemma step_refl a : step a a = None.
Proof. unfold step. by rewrite decide_True. Qed.

Lemma step_opp a b : step b a = CompOpp <$> step a b.
Proof.
  destruct (decide (a = b)) as [->|Hne]; [by rewrite step_refl|].
  rewrite !step_spec by done. rewrite (Nat.compare_antisym (rank a)).
  destruct (Nat.compare_spec (rank a) (rank b)) as [E|E|E]; simpl; try done.
  rewrite <- E, (class_cmp_opp _ a b). destruct (class_cmp (rank a) a b); simpl; try done.
  by destruct (rank a =? 3).
Qed.

(** Parts the loop passes over: equal, or numbers that differ in leading zeros. *)
Lemma step_none a b : step a b = None <-> a = b \/ (rank a = 3 /\ rank b = 3 /\ trim0 a = trim0 b).
Proof.
  destruct (decide (a = b)) as [->|Hne]; [rewrite step_refl; split; auto|].
  rewrite step_spec by done. split.
  - destruct (Nat.compare_spec (rank a) (rank b)) as [E|E|E]; try done.
    destruct (class_cmp (rank a) a b) eqn:Ec; try done.
    destruct (Nat.eqb_spec (rank a) 3) as [E3|]; [|done]. intros _. right.
    rewrite E3 in Ec. split_and!; [done|congruence|by apply number_cmp_eq].
  - intros [|(Ra & Rb & Et)]; [done|]. rewrite Ra, Rb. simpl. unfold number_cmp.
    by rewrite Et, Nat.compare_refl, str_cmp_refl.
Qed.

Lemma step_none_l a b c : step a b = None -> step a c = step b c.
Proof.
  intros [->|(Ra & Rb & Et)]%step_none; [done|].
  assert (forall x y, rank x = 3 -> rank y = 3 -> trim0 x = trim0 y -> step x y = None) as Hn.
  { intros. apply step_none. auto. }
  destruct (decide (rank c = 3)) as [Rc|Rc].
  - destruct (decide (trim0 a = trim0 c)) as [Eac|Eac].
    + rewrite !Hn by congruence. done.
    + assert (a <> c) by congruence. assert (b <> c) by congruence.
      rewrite !step_spec by done. rewrite Ra, Rb, Rc. simpl. unfold number_cmp. by rewrite Et.
  - assert (a <> c) by congruence. assert (b <> c) by congruence.
    rewrite !step_spec by done. rewrite Ra, Rb.
    destruct (Nat.compare_spec 3 (rank c)) as [E|E|E]; [congruence|done|done].
Qed.

Lemma step_none_r a b c : step b c = None -> step a b = step a c.
Proof.
  intros Hbc. rewrite (step_opp b a), (step_opp c a). f_equal. by apply step_none_l.
Qed.

Lemma step_some_ne a b o : step a b = Some o -> a <> b.
Proof. intros E ->. by rewrite step_refl in E. Qed.

Lemma step_lt_rank a b : step a b = Some Lt ->
  rank a < rank b \/ (rank a = rank b /\ class_cmp (rank a) a b = Lt).
Proof.
  intros E. rewrite step_spec in E by (by eapply step_some_ne).
  destruct (Nat.compare_spec (rank a) (rank b)); try done; [|by left]. right. split; [done|].
  destruct (class_cmp _ a b); try done. by destruct (_ =? _).
Qed.

Lemma rank_lt_step a b : rank a < rank b -> step a b = Some Lt.
Proof.
  intros Hlt. rewrite step_spec by (intros ->; lia).
  by rewrite (proj2 (Nat.compare_lt_iff _ _) Hlt).
Qed.

Lemma class_lt_step a b : rank a = rank b -> class_cmp (rank a) a b = Lt -> step a b = Some Lt.
Proof.
  intros Hr Hc. rewrite step_spec.
  - by rewrite Hr, Nat.compare_refl, <- Hr, Hc.
  - intros <-. pose proof (class_cmp_opp (rank a) a a) as Ho. rewrite Hc in Ho. done.
Qed.

Lemma step_lt a b c : step a b = Some Lt -> step b c = Some Lt -> step a c = Some Lt.
Proof.
  intros [Hab|[Rab Hab]]%step_lt_rank [Hbc|[Rbc Hbc]]%step_lt_rank;
    try (apply rank_lt_step; lia).
  apply class_lt_step; [congruence|]. rewrite <- Rab in Hbc. by eapply class_cmp_lt.
Qed.

Lemma rank_tilde : rank tilde = 0.
Proof. reflexivity. Qed.

Lemma rank_0 a : rank a = 0 <-> a = tilde.
Proof.
  split; [|by intros ->]. unfold rank.
  destruct (forallb is_numeric a); [done|]. destruct (forallb is_alphabetic a); [done|].
  by destruct (decide (a = tilde)).
Qed.

(** ** Whole versions *)

Lemma cmp_parts_opp a b : cmp_parts b a = CompOpp <$> cmp_parts a b.
Proof.
  revert b. induction a as [|x a IH]; intros [|y b]; simpl; try done.
  - by destruct (decide (y = tilde)).
  - by destruct (decide (x = tilde)).
  - rewrite (step_opp x y). destruct (step x y); [done|]. apply IH.
Qed.

Lemma cmp_parts_lt a b c :
  cmp_parts a b = Some Lt -> cmp_parts b c = Some Lt -> cmp_parts a c = Some Lt.
Proof.
  revert b c. induction a as [|x a IH]; intros [|y b] [|z c]; simpl; try done.
  - by destruct (decide (y = tilde)).
  - destruct (decide (y = tilde)) as [|Hy]; [done|]. intros _ Hyz.
    rewrite decide_False; [done|]. intros ->.
    destruct (step y tilde) as [o|] eqn:E.
    + injection Hyz as ->. apply step_lt_rank in E. rewrite rank_tilde in E.
      destruct E as [|[E _]]; [lia|]. by apply rank_0 in E.
    + apply step_none in E as [|(_ & E & _)]; done.
  - destruct (decide (x = tilde)) as [->|]; [|done]. intros _.
    destruct (decide (z = tilde)) as [|Hz]; [done|]. intros _.
    rewrite rank_lt_step; [done|]. rewrite rank_tilde.
    destruct (rank z) eqn:E; [by apply rank_0 in E|lia].
  - intros Hxy. destruct (decide (y = tilde)) as [->|]; [|done]. intros _.
    destruct (step x tilde) as [o|] eqn:E.
    + injection Hxy as ->. apply step_lt_rank in E. rewrite rank_tilde in E.
      destruct E as [|[E Hc]]; [lia|]. apply rank_0 in E as ->. by vm_compute in Hc.
    + apply step_none in E as [->|(_ & E & _)]; done.
  - destruct (step x y) as [o|] eqn:Exy.
    + intros [= ->]. destruct (step y z) as [o|] eqn:Eyz.
      * intros [= ->]. by rewrite (step_lt _ _ _ Exy Eyz).
      * intros _. by rewrite <- (step_none_r _ _ _ Eyz), Exy.
    + rewrite (step_none_l _ _ z Exy). intros Hab. destruct (step y z); [done|].
      by apply IH.
Qed.

Section Versions.
Context `{NotusRegex}.

Lemma version_cmp_opp a b : partial_cmp b a = CompOpp <$> partial_cmp a b.
Proof.
  unfold partial_cmp. destruct (decide (a = b)) as [->|Hne]; [by rewrite decide_True|].
  rewrite decide_False by done. apply cmp_parts_opp.
Qed.

Lemma version_lt_trans a b c :
  partial_cmp a b = Some Lt -> partial_cmp b c = Some Lt -> partial_cmp a c = Some Lt.
Proof.
  unfold partial_cmp. destruct (decide (a = b)); [done|]. destruct (decide (b = c)); [done|].
  intros Hab Hbc. pose proof (cmp_parts_lt _ _ _ Hab Hbc) as Hac.
  destruct (decide (a = c)) as [<-|]; [|done].
  rewrite (cmp_parts_opp (find_iter a)) in Hbc. by rewrite Hab in Hbc.
Qed.
End Versions.

(** Versions are strictly ordered: a version equals itself, comparing the other way
    round gives the opposite (and is undefined exactly when the comparison is), and
    [<] is transitive, so no two versions are each older than the other. *)
Theorem version_order_strict `{NotusRegex} (a b c : str) :
  partial_cmp a a = Some Eq
  /\ partial_cmp b a = CompOpp <$> partial_cmp a b
  /\ (partial_cmp a b = Some Lt -> partial_cmp b c = Some Lt -> partial_cmp a c = Some Lt).
Proof.
  split_and!; [unfold partial_cmp; by rewrite decide_True|apply version_cmp_opp|].
  apply version_lt_trans.
Qed.

(** ** Splitting *)
Section Splitting.
Context `{VersionSplit}.

Lemma digit_prefix (s : str) : exists ds s', s = ds ++ s'
  /\ Forall (fun c => is_ascii_digit c = true) ds
  /\ forall c s'', s' = c :: s'' -> is_ascii_digit c = false.
Proof.
  induction s as [|c s (ds & s' & -> & Hds & Hs)].
  - exists [], []. split_and!; [done|constructor|done].
  - destruct (is_ascii_digit c) eqn:E.
    + exists (c :: ds), s'. split_and!; [done|by constructor|done].
    + exists [], (c :: ds ++ s'). split_and!; [done|constructor|]. by intros ? ? [= <- _].
Qed.

(** A character that is no digit ends the part before it. *)
Lemma find_iter_app s c t : is_ascii_digit c = false -> c <> newline ->
  find_iter (s ++ c :: t) = find_iter s ++ [c] :: find_iter t.
Proof.
  intros Hc Hn. remember (length s) as n eqn:En. revert s En.
  induction (lt_wf n) as [n _ IH]. intros s ->.
  destruct (digit_prefix s) as (ds & s' & -> & Hds & Hs).
  destruct ds as [|d ds].
  - destruct s' as [|x s']; simpl.
    + by rewrite find_iter_nil, find_iter_char.
    + specialize (Hs x s' eq_refl).
      assert (length s' < length ([] ++ x :: s')) as Hlt by (simpl; lia).
      destruct (decide (x = newline)) as [->|Hx].
      * rewrite !find_iter_newline. by apply (IH (length s')).
      * rewrite !find_iter_char by done. simpl. f_equal. by apply (IH (length s')).
  - assert (length s' < length ((d :: ds) ++ s')) as Hlt by (rewrite length_app; simpl; lia).
    rewrite <- app_assoc, (find_iter_digits (d :: ds) s'), (find_iter_digits (d :: ds) (s' ++ c :: t));
      try done.
    + simpl. f_equal. by apply (IH (length s')).
    + intros x s''. destruct s' as [|y s']; [by intros [= <- _]|].
      intros [= <- _]. by apply (Hs y s').
Qed.

Lemma cmp_parts_prefix p a b : cmp_parts (p ++ a) (p ++ b) = cmp_parts a b.
Proof. induction p as [|x p IH]; simpl; [done|]. by rewrite step_refl. Qed.
End Splitting.

(** A version that goes on is newer, unless it goes on with a tilde, which sorts
    before everything, even the end of the version. *)
Theorem tilde_before_end `{VersionSplit} (s t : str) (c : char) :
  is_ascii_digit c = false -> c <> newline ->
  partial_cmp (s ++ c :: t) s = Some (if decide (c = "~"%char) then Lt else Gt).
Proof.
  intros Hc Hn. unfold partial_cmp. rewrite decide_False.
  - rewrite find_iter_app by done. rewrite <- (app_nil_r (find_iter s)) at 2.
    rewrite cmp_parts_prefix. simpl. destruct (decide (c = "~"%char)) as [->|Hc'].
    + by rewrite decide_True.
    + rewrite decide_False; [done|]. intros E. unfold tilde in E. congruence.
  - intros E%(f_equal length). rewrite length_app in E. simpl in E. lia.
Qed.

Lemma tilde_before_end_witness :
  partial_cmp (H := split_only) (chars_of "1.2.3~rc") (chars_of "1.2.3") = Some Lt
  /\ partial_cmp (H := split_only) (chars_of "1.2.3a") (chars_of "1.2.3") = Some Gt.
Proof.
  split.
  - apply (tilde_before_end (H := split_only) (H0 := version_parts_split _)
      (chars_of "1.2.3") (chars_of "rc") "~"%char); [reflexivity|discriminate].
  - apply (tilde_before_end (H := split_only) (H0 := version_parts_split _)
      (chars_of "1.2.3") [] "a"%char); [reflexivity|discriminate].
Defined.

(** Two versions have no order exactly when they are different texts whose parts are
    the same up to leading zeros of numbers: [1.01] and [1.1] are neither equal nor
    ordered. *)
Theorem incomparable_versions `{NotusRegex} (a b : str) :
  partial_cmp a b = None
  <-> a <> b /\ Forall2 (fun x y => x = y \/ (forallb is_numeric x = true
         /\ forallb is_numeric y = true /\ trim0 x = trim0 y)) (find_iter a) (find_iter b).
Proof.
  assert (forall x, rank x = 3 <-> forallb is_numeric x = true) as H3.
  { intros x. unfold rank. repeat case_match; done. }
  unfold partial_cmp. destruct (decide (a = b)) as [->|Hne].
  { split; [done|]. by intros []. }
  transitivity (Forall2 (fun x y => step x y = None) (find_iter a) (find_iter b)).
  - generalize (find_iter a) as p, (find_iter b) as q. induction p as [|x p IH]; intros [|y q]; simpl.
    + split; [constructor|done].
    + destruct (decide (y = tilde)); split; try done; inversion 1.
    + destruct (decide (x = tilde)); split; try done; inversion 1.
    + rewrite Forall2_cons. destruct (step x y); [by split; [|intros []]|].
      rewrite IH. by split; [|intros []].
  - split; [intros Hf; split; [done|]|intros [_ Hf]]; (eapply Forall2_impl; [exact Hf|]);
      intros x y; rewrite step_none, !H3; auto.
Qed.

(** ** Numbers *)

(** The value of a digit string. *)
Definition digit (c : char) : Z := Z.of_N (code c) - 48.
Fixpoint value (l : str) : Z :=
  match l with [] => 0 | c :: l' => digit c * 10 ^ Z.of_nat (length l') + value l' end.

Lemma digit_bounds c : is_ascii_digit c = true -> (0 <= digit c <= 9)%Z.
Proof.
  unfold is_ascii_digit, in_range, digit. rewrite andb_true_iff, !N.leb_le. lia.
Qed.

Lemma value_bounds l : Forall (fun c => is_ascii_digit c = true) l ->
  (0 <= value l < 10 ^ Z.of_nat (length l))%Z.
Proof.
  induction 1 as [|c l Hc Hl IH]; [simpl; lia|]. apply digit_bounds in Hc.
  cbn [length value]. rewrite Nat2Z.inj_succ, Z.pow_succ_r by lia. nia.
Qed.

Lemma value_trim0 l : value (trim0 l) = value l.
Proof.
  unfold trim0. induction l as [|c l IH]; [done|]. cbn [drop_while].
  destruct (Ascii.eqb_spec "0" c) as [<-|]; [|done]. rewrite IH. cbn [value].
  change (digit "0"%char) with 0%Z. lia.
Qed.

Lemma digits_trim0 l : Forall (fun c => is_ascii_digit c = true) l ->
  Forall (fun c => is_ascii_digit c = true) (trim0 l).
Proof.
  unfold trim0. induction 1 as [|c l Hc Hl IH]; [constructor|]. cbn [drop_while].
  destruct (Ascii.eqb _ c); [done|by constructor].
Qed.

Lemma trim0_head l c l' : Forall (fun c => is_ascii_digit c = true) l ->
  trim0 l = c :: l' -> (1 <= digit c)%Z.
Proof.
  intros Hl. unfold trim0. induction Hl as [|d l Hd Hl IH]; [done|]. cbn [drop_while].
  destruct (Ascii.eqb_spec "0" d) as [<-|Hne]; [done|]. intros [= <- _].
  apply digit_bounds in Hd. assert (digit d <> 0%Z); [|lia]. intros E. apply Hne, code_inj.
  unfold digit in E. change (code "0"%char) with 48%N. lia.
Qed.

Lemma len_utf8_digits l : Forall (fun c => is_ascii_digit c = true) l -> len_utf8 l = length l.
Proof.
  induction 1 as [|c l Hc Hl IH]; simpl; [done|]. rewrite IH. unfold utf8_len.
  unfold is_ascii_digit, in_range in Hc. rewrite andb_true_iff, !N.leb_le in Hc.
  rewrite (proj2 (N.ltb_lt _ _)) by lia. done.
Qed.

Lemma str_cmp_value a b : Forall (fun c => is_ascii_digit c = true) a ->
  Forall (fun c => is_ascii_digit c = true) b -> length a = length b ->
  str_cmp a b = Z.compare (value a) (value b).
Proof.
  intros Ha. revert b. induction Ha as [|x a Hx Ha IH]; intros [|y b] Hb Hl; simpl in *; try done.
  apply Forall_cons in Hb as [Hy Hb]. injection Hl as Hl. rewrite Hl.
  pose proof (value_bounds a Ha) as Hva. pose proof (value_bounds b Hb). rewrite Hl in Hva.
  pose proof (digit_bounds x Hx). pose proof (digit_bounds y Hy).
  assert (0 < 10 ^ Z.of_nat (length b))%Z by (apply Z.pow_pos_nonneg; lia).
  destruct (N.compare_spec (code x) (code y)) as [E|E|E].
  - apply code_inj in E as ->. rewrite (IH b Hb Hl).
    destruct (Z.compare_spec (value a) (value b)); symmetry.
    + apply Z.compare_eq_iff. lia.
    + apply Z.compare_lt_iff. lia.
    + apply Z.compare_gt_iff. lia.
  - symmetry. apply Z.compare_lt_iff. assert (digit x + 1 <= digit y)%Z by (unfold digit; lia). nia.
  - symmetry. apply Z.compare_gt_iff. assert (digit y + 1 <= digit x)%Z by (unfold digit; lia). nia.
Qed.

(** A number without leading zeros is larger the longer it is. *)
Lemma shorter_is_smaller a b : Forall (fun c => is_ascii_digit c = true) a ->
  Forall (fun c => is_ascii_digit c = true) b -> length (trim0 a) < length (trim0 b) ->
  (value (trim0 a) < value (trim0 b))%Z.
Proof.
  intros Ha Hb Hlt. pose proof (value_bounds _ (digits_trim0 a Ha)).
  pose proof (digits_trim0 b Hb) as Hb'.
  destruct (trim0 b) as [|y b'] eqn:E; [simpl in Hlt; lia|].
  pose proof (trim0_head b y b' Hb E). simpl in *.
  apply Forall_cons in Hb' as [_ Hb']. pose proof (value_bounds b' Hb').
  assert (10 ^ Z.of_nat (length (trim0 a)) <= 10 ^ Z.of_nat (length b'))%Z
    by (apply Z.pow_le_mono_r; lia). nia.
Qed.

Lemma number_cmp_value a b : Forall (fun c => is_ascii_digit c = true) a ->
  Forall (fun c => is_ascii_digit c = true) b ->
  number_cmp a b = Z.compare (value a) (value b).
Proof.
  intros Ha Hb. unfold number_cmp. pose proof (digits_trim0 a Ha). pose proof (digits_trim0 b Hb).
  rewrite !len_utf8_digits by done. rewrite <- (value_trim0 a), <- (value_trim0 b).
  destruct (Nat.compare_spec (length (trim0 a)) (length (trim0 b))) as [E|E|E].
  - by apply str_cmp_value.
  - symmetry. apply Z.compare_lt_iff. by apply shorter_is_smaller.
  - symmetry. apply Z.compare_gt_iff. by apply shorter_is_smaller.
Qed.

Lemma digits_rank a : Forall (fun c => is_ascii_digit c = true) a -> rank a = 3.
Proof.
  intros Ha. unfold rank. assert (forallb is_numeric a = true) as ->; [|done].
  apply forallb_forall. intros c Hc%list_elem_of_In.
  rewrite Forall_forall in Ha. unfold is_numeric. by rewrite (Ha c Hc).
Qed.

(** Numbers inside a version are compared by their value, of any length and with any
    leading zeros: when two versions agree up to a number and then have different
    numbers, the larger number makes the newer version. *)
Theorem numbers_by_value `{VersionSplit} (s t u ds es : str) (c : char) :
  is_ascii_digit c = false -> c <> newline -> ds <> [] -> es <> [] ->
  Forall (fun c => is_ascii_digit c = true) ds -> Forall (fun c => is_ascii_digit c = true) es ->
  (forall x t', t = x :: t' -> is_ascii_digit x = false) ->
  (forall x u', u = x :: u' -> is_ascii_digit x = false) ->
  (value ds <> value es)%Z ->
  partial_cmp (s ++ c :: ds ++ t) (s ++ c :: es ++ u) = Some (Z.compare (value ds) (value es)).
Proof.
  intros Hc Hn Hd He Hds Hes Ht Hu Hne. unfold partial_cmp. rewrite decide_False.
  - rewrite !find_iter_app, !find_iter_digits by done. rewrite cmp_parts_prefix.
    simpl. rewrite step_refl. simpl.
    assert (ds <> es) as Hdes by congruence.
    rewrite (step_spec ds es Hdes), (digits_rank ds Hds), (digits_rank es Hes). simpl.
    rewrite number_cmp_value by done.
    destruct (Z.compare_spec (value ds) (value es)); [done|done|done].
  - intros E. apply app_inv_head in E. injection E as E.
    assert (forall ds s, Forall (fun c => is_ascii_digit c = true) ds ->
      (forall x s', s = x :: s' -> is_ascii_digit x = false) ->
      take_while is_ascii_digit (ds ++ s) = ds) as Htw.
    { clear. intros ds s Hds Hs. induction Hds as [|d ds Hd Hds IH]; simpl; [|by rewrite Hd, IH].
      destruct s as [|x s]; simpl; [done|]. by rewrite (Hs x s eq_refl). }
    apply (f_equal (take_while is_ascii_digit)) in E. rewrite !Htw in E by done. congruence.
Qed.

Lemma numbers_by_value_witness :
  partial_cmp (H := split_only) (chars_of "1.009-1") (chars_of "1.12") = Some Lt.
Proof.
  apply (numbers_by_value (H := split_only) (H0 := version_parts_split _)
    (chars_of "1") (chars_of "-1") [] (chars_of "009") (chars_of "12") "."%char);
    [reflexivity|discriminate|discriminate|discriminate|repeat constructor..| | |].
  - intros x t' E. injection E as <- _. reflexivity.
  - intros x t' E. discriminate E.
  - vm_compute. discriminate.
Defined.

(** A number sorts after every other part: where one version goes on with a digit
    and the other with any other character, the first one is newer.  (The end of a
    part of letters therefore sorts after a letter when digits follow it.) *)
Theorem number_after_everything `{VersionSplit} (s t u : str) (c d x : char) :
  is_ascii_digit c = false -> c <> newline -> is_ascii_digit d = true ->
  is_ascii_digit x = false -> is_numeric x = false -> x <> newline ->
  partial_cmp (s ++ c :: d :: t) (s ++ c :: x :: u) = Some Gt.
Proof.
  intros Hc Hn Hd Hx Hnum Hxn. unfold partial_cmp. rewrite decide_False.
  - destruct (digit_prefix t) as (ds & t' & -> & Hds & Ht).
    rewrite !find_iter_app by done. rewrite (find_iter_char x u) by done.
    change (d :: ds ++ t') with ((d :: ds) ++ t').
    rewrite find_iter_digits by (try done; by constructor).
    rewrite cmp_parts_prefix. simpl. rewrite step_refl. simpl.
    rewrite (step_opp [x] (d :: ds)), rank_lt_step; [done|].
    rewrite (digits_rank (d :: ds)) by (by constructor).
    unfold rank. simpl. rewrite Hnum. simpl. repeat case_match; lia.
  - intros E. apply app_inv_head in E. congruence.
Qed.

Lemma number_after_everything_witness :
  partial_cmp (H := split_only) (chars_of "1.a1") (chars_of "1.ab") = Some Gt.
Proof.
  apply (number_after_everything (H := split_only) (H0 := version_parts_split _)
    (chars_of "1.") [] [] "a"%char "1"%char "b"%char);
    [reflexivity|discriminate|reflexivity|reflexivity|reflexivity|discriminate].
Defined.

(** ** Packages *)

Lemma or_else_opp o o' n n' :
  o' = CompOpp <$> o -> n' = CompOpp <$> n -> or_else_cmp o' n' = CompOpp <$> or_else_cmp o n.
Proof. intros -> ->. by destruct o as [[]|]. Qed.

Lemma epoch_opp a b : epoch_cmp b a = CompOpp <$> epoch_cmp a b.
Proof.
  unfold epoch_cmp. rewrite (Z.eqb_sym b). destruct (Z.eqb_spec a b); [done|].
  destruct (Z.ltb_spec a b), (Z.ltb_spec b a); try done; lia.
Qed.

Ltac cmp_cases :=
  repeat match goal with
  | |- context [decide (?x = ?y)] => destruct (decide (x = y))
  end; try congruence.

(** Packages of every type are compared consistently: a package equals itself,
    comparing the other way round gives the opposite, and packages of different
    names (and architectures, builds, special releases) have no order. *)
Theorem package_order_consistent `{NotusRegex} :
  (forall a b : Deb, deb_cmp a a = Some Eq /\ deb_cmp b a = CompOpp <$> deb_cmp a b
     /\ (deb_name a <> deb_name b -> deb_cmp a b = None))
  /\ (forall a b : Rpm, rpm_cmp a a = Some Eq /\ rpm_cmp b a = CompOpp <$> rpm_cmp a b
     /\ (rpm_name a <> rpm_name b \/ rpm_arch a <> rpm_arch b
         \/ find_any_exception (rpm_release a) <> find_any_exception (rpm_release b) ->
         rpm_cmp a b = None))
  /\ (forall a b : Slack, slack_cmp a a = Some Eq /\ slack_cmp b a = CompOpp <$> slack_cmp a b
     /\ (slack_name a <> slack_name b \/ slack_arch a <> slack_arch b -> slack_cmp a b = None))
  /\ (forall a b : EBuild, ebuild_cmp a a = Some Eq /\ ebuild_cmp b a = CompOpp <$> ebuild_cmp a b
     /\ (ebuild_name a <> ebuild_name b -> ebuild_cmp a b = None))
  /\ (forall a b : Windows,
        windows_cmp a a = Some Eq /\ windows_cmp b a = CompOpp <$> windows_cmp a b
     /\ (win_build a <> win_build b -> windows_cmp a b = None)).
Proof.
  assert (forall v, partial_cmp v v = Some Eq) as Hrefl
    by (intros; unfold partial_cmp; by rewrite decide_True).
  assert (forall e, epoch_cmp e e = None) as Hep by (intros; unfold epoch_cmp; by rewrite Z.eqb_refl).
  split_and!; intros a b; split_and!;
    unfold deb_cmp, rpm_cmp, slack_cmp, ebuild_cmp, windows_cmp;
    rewrite ?decide_True by done; rewrite ?Hep, ?Hrefl; try done; cmp_cases; try done; try tauto.
  - rewrite (epoch_opp (deb_epoch a)). destruct (epoch_cmp _ _); [done|].
    apply or_else_opp; apply version_cmp_opp.
  - rewrite (epoch_opp (rpm_epoch a)). destruct (epoch_cmp _ _); [done|].
    apply or_else_opp; apply version_cmp_opp.
  - apply or_else_opp; [apply version_cmp_opp|]. apply or_else_opp; apply version_cmp_opp.
  - apply version_cmp_opp.
  - apply version_cmp_opp.
Qed.

Definition cycle_a : Deb := mkDeb (chars_of "p") 0 (chars_of "1a2") (chars_of "1").
Definition cycle_b : Deb := mkDeb (chars_of "p") 0 (chars_of "1A3") (chars_of "2").
Definition cycle_c : Deb := mkDeb (chars_of "p") 0 (chars_of "1a1") (chars_of "3").

(** Packages, unlike versions, are not ordered transitively: versions that differ in
    the case of a letter count as equal whatever follows, and then the revisions
    decide, so three packages can each be older than the next in a circle. *)
Theorem package_order_has_cycle :
  deb_cmp (H := split_only) cycle_a cycle_b = Some Lt
  /\ deb_cmp (H := split_only) cycle_b cycle_c = Some Lt
  /\ deb_cmp (H := split_only) cycle_c cycle_a = Some Lt.
Proof. split_and!; vm_compute; reflexivity. Qed.

(** The version of a package given by its full name starts with the hyphen that
    separates it from the name. *)
Lemma find_char_spec c l i : find_char c l = Some i ->
  exists l', drop i l = c :: l' /\ i < length l.
Proof.
  revert i. induction l as [|d l IH]; intros i; simpl; [done|].
  destruct (Ascii.eqb_spec d c) as [->|].
  - intros [= <-]. exists l. split; [done|lia].
  - intros (j & Hj & ->)%fmap_Some. destruct (IH j Hj) as (l' & E & Hlt).
    exists l'. split; [done|simpl; lia].
Qed.

Lemma ebuild_parts full p : ebuild_from_full_name full = Ok (Some p) ->
  full = ebuild_name p ++ ebuild_version p /\ exists v, ebuild_version p = "-"%char :: v.
Proof.
  unfold ebuild_from_full_name. destruct full as [|x full]; [done|].
  set (f := x :: full).
  set (base := match find_char "/"%char f with None => f | Some i => drop (S i) f end).
  assert (exists pre, f = pre ++ base) as [pre Hpre].
  { unfold base. destruct (find_char _ f) as [i|]; [|by exists []].
    exists (take (S i) f). by rewrite take_drop. }
  replace (match base with [] => Ok None | _ => _ end) with
    (match drop (default (length base) (find_char "-"%char base)) base with
     | [] => Ok (E := Empty_set) None
     | w => Ok (Some (mkEBuild (take (length f - length w) f) w))
     end) by (by destruct base).
  destruct (find_char "-"%char base) as [i|] eqn:Ei; simpl; [|by rewrite drop_all].
  destruct (find_char_spec _ _ _ Ei) as (v & Hv & Hi). rewrite Hv.
  intros [= <-]. simpl. split; [|by exists v].
  assert (f = (pre ++ take i base) ++ "-"%char :: v) as Ef.
  { rewrite <- (app_assoc pre). rewrite Hpre. f_equal. rewrite <- (take_drop i base) at 1.
    f_equal. exact Hv. }
  change (f = take (length f - S (length v)) f ++ "-"%char :: v).
  assert (length f - S (length v) = length (pre ++ take i base)) as ->
    by (rewrite Ef, length_app; simpl; lia).
  rewrite Ef at 2. rewrite take_app_length. exact Ef.
Qed.

(** A Gentoo package named in full is older than every version that starts with a
    digit: its version keeps the hyphen between name and version, and a hyphen sorts
    before a number.  What is installed is therefore reported for every fixed version. *)
Theorem ebuild_installed_always_older `{VersionSplit} (full : str) (p q : EBuild)
    (d : char) (w : str) :
  ebuild_from_full_name full = Ok (Some p) ->
  ebuild_name q = ebuild_name p -> ebuild_version q = d :: w -> is_ascii_digit d = true ->
  ebuild_cmp p q = Some Lt.
Proof.
  intros Hp Hn Hq Hd. destruct (ebuild_parts _ _ Hp) as [_ [v Hv]].
  unfold ebuild_cmp. rewrite decide_True by done. rewrite Hq, Hv.
  unfold partial_cmp. rewrite decide_False by (intros [= <- _]; done).
  rewrite (find_iter_char "-"%char) by done.
  destruct (digit_prefix w) as (ds & w' & -> & Hds & Hw).
  change (d :: ds ++ w') with ((d :: ds) ++ w').
  rewrite find_iter_digits by (try done; by constructor). simpl.
  rewrite rank_lt_step; [done|]. rewrite (digits_rank (d :: ds)) by (by constructor).
  vm_compute. lia.
Qed.

Lemma ebuild_installed_always_older_witness :
  ebuild_cmp (H := split_only) (mkEBuild (chars_of "dev/ssl") (chars_of "-9.9"))
    (mkEBuild (chars_of "dev/ssl") (chars_of "1.0")) = Some Lt.
Proof.
  apply (ebuild_installed_always_older (H := split_only) (H0 := version_parts_split _)
    (chars_of "dev/ssl-9.9") _ _ "1"%char (chars_of ".0")); reflexivity.
Defined.

Lemma rsplit_once_spec c l b r : rsplit_once c l = Some (b, r) ->
  l = b ++ c :: r /\ (c ∉ r).
Proof.
  assert (forall l, rsplit_once c l = None -> c ∉ l) as Hnone.
  { clear. intros l. induction l as [|d l IH]; simpl; [intros _; apply not_elem_of_nil|].
    destruct (rsplit_once c l) as [[]|]; [done|]. destruct (Ascii.eqb_spec d c) as [|Hd]; [done|].
    intros _ [->|?]%elem_of_cons; [done|by apply IH]. }
  revert b. induction l as [|d l IH]; intros b; simpl; [done|].
  destruct (rsplit_once c l) as [[b' r']|] eqn:E.
  - intros [= <- <-]. destruct (IH b' eq_refl) as [-> Hr]. done.
  - destruct (Ascii.eqb_spec d c) as [->|]; [|done]. intros [= <- <-]. split; [done|by apply Hnone].
Qed.

(** The parsers that cut a full name in two keep every character of it: a Gentoo
    name and version make up the full name, a Windows build, a dot and a revision make
    up the trimmed full name, and the cut is at its last dot. *)
Theorem parse_keeps_text (full : str) :
  (forall p, ebuild_from_full_name full = Ok (Some p) ->
     full = ebuild_name p ++ ebuild_version p)
  /\ (forall p, windows_from_full_name full = Ok (Some p) ->
     trim full = win_build p ++ dot ++ win_revision p /\ ("."%char ∉ win_revision p)
     /\ win_full_name p = trim full).
Proof.
  split; intros p Hp; [by destruct (ebuild_parts _ _ Hp)|].
  unfold windows_from_full_name in Hp. destruct full as [|x full]; [done|].
  destruct (rsplit_once _ _) as [[b r]|] eqn:E; [|done]. simpl in Hp.
  injection Hp as <-. apply rsplit_once_spec in E as [E Hr]. done.
Qed.

(** The groups of the version patterns of a Debian package. *)
Definition deb_version_groups `{NotusRegex} (v : str) : option (list (option str)) :=
  match captures DebReVersion v with
  | Some c => Some c
  | None => captures DebReVersionWoRevision v
  end.

(** A parser that unwraps a number of the groups it matched. *)
Lemma unwrap_panics {A G} (o : option G) (f : G -> option Z) (k : G -> Z -> A) :
  match o with
  | None => Ok (E := Empty_set) None
  | Some c => match f c with None => Panic | Some e => Ok (Some (k c e)) end
  end = Panic <-> exists c, o = Some c /\ f c = None.
Proof.
  destruct o as [c|]; [|split; [done|by intros (c & ? & _)]].
  destruct (f c) eqn:E; split; try done.
  - intros (? & [= <-] & ?). congruence.
  - intros _. by exists c.
Qed.

(** Parsing a package panics only where an epoch is unwrapped: a Debian package by
    name and version, or an RPM package, whose epoch matched but is not a 64-bit
    number (empty or too large).  Every other parser returns on every input. *)
Theorem parse_panics_only_on_epoch `{NotusRegex} (full name v : str) :
  deb_from_full_name full <> Panic
  /\ (deb_from_name_and_full_version name v = Panic <->
        name <> [] /\ v <> [] /\ exists c, deb_version_groups (trim v) = Some c
        /\ u64_from_str (group zero c 1) = None)
  /\ (rpm_from_full_name full = Panic <->
        full <> [] /\ exists c, captures RpmRe (trim full) = Some c
        /\ u64_from_str (group zero c 2) = None)
  /\ (rpm_from_name_and_full_version name v = Panic <->
        name <> [] /\ v <> [] /\ exists c, captures RpmReVersion (trim v) = Some c
        /\ u64_from_str (group zero c 1) = None)
  /\ slack_from_full_name full <> Panic /\ slack_from_name_and_full_version name v <> Panic
  /\ ebuild_from_full_name full <> Panic /\ ebuild_from_name_and_full_version name v <> Panic
  /\ windows_from_full_name full <> Panic
  /\ windows_from_name_and_full_version name v <> Panic.
Proof.
  split_and!.
  - unfold deb_from_full_name. repeat case_match; congruence.
  - unfold deb_from_name_and_full_version, deb_version_groups.
    destruct name as [|n name], v as [|x v]; try (split; [done|by intros (? & ? & ?)]).
    rewrite <- (unwrap_panics _ _ (fun c e => e)).
    destruct (captures DebReVersion _) as [c|]; [|destruct (captures DebReVersionWoRevision _)].
    all: simpl; try destruct (u64_from_str _); split; try done; by intros (? & ? & ?).
  - unfold rpm_from_full_name. destruct full as [|x full]; [split; [done|by intros []]|].
    rewrite unwrap_panics. split; [intros Hc; by split|by intros []].
  - unfold rpm_from_name_and_full_version.
    destruct name as [|n name], v as [|x v]; try (split; [done|by intros (? & ? & ?)]).
    rewrite unwrap_panics. split; [intros Hc; by split_and!|by intros (_ & _ & ?)].
  - unfold slack_from_full_name. by destruct full.
  - unfold slack_from_name_and_full_version. by destruct name, v.
  - unfold ebuild_from_full_name. repeat case_match; congruence.
  - unfold ebuild_from_name_and_full_version. by destruct name, v.
  - unfold windows_from_full_name. by destruct full.
  - unfold windows_from_name_and_full_version. by destruct name, v.
Qed.
