(* ===== verification/Notus.v ===== *)
(** * Notus: vulnerability tests on installed packages

    [notus/vts.rs] turns the products of the feed into tests keyed by the name of a
    package, and [notus/notus.rs] scans a list of installed packages with them, keeping
    the products it has loaded.  A product loader is an instance of [ProductLoader]. *)

From S2P Require Import Prelude RustStr Errors Packages.
Local Open Scope nat_scope.

(** ** models/product.rs and models/result.rs *)
Inductive Specifier : Set := GT | LT | GE | LE | EQ.

Inductive PackageType : Set := DEB | EBUILD | RPM | SLACK | MSP.

Record Range := mkRange { range_start : str; range_end : str }.

Inductive FixedPackage : Type :=
| ByFullName (full_name : str) (specifier : Specifier)
| ByNameAndFullVersion (name full_version : str) (specifier : Specifier)
| ByRange (name : str) (range : Range).

Module Models.
Record VulnerabilityTest := mkVT { oid : str; fixed_packages : list FixedPackage }.

Record Product := mkProduct {
  version : str; package_type : PackageType; vulnerability_tests : list VulnerabilityTest
}.
End Models.

Inductive FixedVersion : Type :=
| FixedSingle (version : str) (specifier : Specifier)
| FixedRange (start end_ : str).

Record VulnerablePackage := mkVulnerablePackage {
  vp_name : str; vp_installed_version : str; vp_fixed_version : FixedVersion
}.

Abbreviation NotusResults := (gmap str (list VulnerablePackage)).

(** ** Errors: feed/verify/mod.rs and notus/error.rs *)
Module VerifyError.
Inductive t : Type :=
| SumsFileCorrupt
| LoadError (e : LoadError.t)
| HashInvalid (expected actual key : str)
| BadSignature (e : str)
| MissingKeyring.
End VerifyError.

(** I/O and JSON errors are kept by their text. *)
Inductive LoadProductErrorKind : Type :=
| IOError (e : str)
| KindLoadError (e : LoadError.t).

Module NotusError.
Inductive t : Type :=
| MissingProductsDir (s : str)
| ProductsDirIsFile (s : str)
| UnreadableProductsDir (s e : str)
| UnknownProduct (s : str)
| LoadProductError (s : str) (k : LoadProductErrorKind)
| JSONParseError (s e : str)
| UnsupportedVersion (s found required : str)
| PackageParseError (s : str)
| VulnerabilityTestParseError (s : str) (pkg : FixedPackage)
| HashsumLoadError (e : VerifyError.t)
| SignatureCheckError (e : VerifyError.t).
End NotusError.

(** ** loader/mod.rs *)
Inductive FeedStamp : Set :=
| Time (t : Z)
| Hashsum (h : str).

(** A loader as it answers while a scan runs. *)
Class ProductLoader (L : Type) := {
  load_product : L -> str -> Models.Product * FeedStamp + NotusError.t;
  get_products : L -> list str + NotusError.t;
  has_changed : L -> str -> FeedStamp -> bool;
  verify_signature : L -> outcome VerifyError.t unit
}.

(** ** vts.rs *)
Inductive PackageInformation (P : Type) : Type :=
| Single (specifier : Specifier) (package : P)
| PkgRange (start end_ : P).
Arguments Single {P} specifier package.
Arguments PkgRange {P} start end_.

Record VulnerabilityTest (P : Type) := mkVulnerabilityTest {
  vt_oid : str; package_information : PackageInformation P
}.
Arguments mkVulnerabilityTest {P} vt_oid package_information.
Arguments vt_oid {P} v.
Arguments package_information {P} v.

Abbreviation VulnerabilityTests P := (gmap str (list (VulnerabilityTest P))).

(** Code that has no state of its own. *)
Abbreviation N := (M unit NotusError.t).

(** The comparison operators a [PartialOrd] gives. *)
Definition op_lt (o : option comparison) : bool := match o with Some Lt => true | _ => false end.
Definition op_le (o : option comparison) : bool :=
  match o with Some (Lt | Eq) => true | _ => false end.
Definition op_gt (o : option comparison) : bool := match o with Some Gt => true | _ => false end.
Definition op_ge (o : option comparison) : bool :=
  match o with Some (Gt | Eq) => true | _ => false end.

Section Tests.
Context {P : Type} `{Package P}.

(** The [?] on the option of a parser. *)
Definition try_some {A B} (o : option A) (k : A -> N (option B)) : N (option B) :=
  match o with None => mret None | Some a => k a end.

Definition create (oid : str) (fixed_package : FixedPackage) :
  N (option (str * VulnerabilityTest P)) :=
  match fixed_package with
  | ByFullName full_name specifier =>
      p ← of_total (from_full_name full_name);
      try_some p (fun package =>
        mret (Some (get_name package, mkVulnerabilityTest oid (Single specifier package))))
  | ByNameAndFullVersion name full_version specifier =>
      p ← of_total (from_name_and_full_version name full_version);
      try_some p (fun package =>
        mret (Some (get_name package, mkVulnerabilityTest oid (Single specifier package))))
  | ByRange name range =>
      s ← of_total (from_name_and_full_version name (range_start range));
      try_some s (fun start =>
        e ← of_total (from_name_and_full_version name (range_end range));
        try_some e (fun end_ =>
          mret (Some (get_name start, mkVulnerabilityTest oid (PkgRange start end_)))))
  end.

Definition is_vulnerable (vt : VulnerabilityTest P) (pkg : P) : bool :=
  match package_information vt with
  | Single specifier package =>
      match specifier with
      | GT => op_le (pkg_cmp pkg package)
      | LT => op_ge (pkg_cmp pkg package)
      | GE => op_lt (pkg_cmp pkg package)
      | LE => op_gt (pkg_cmp pkg package)
      | EQ => negb (pkg_eqb pkg package)
      end
  | PkgRange start end_ => op_ge (pkg_cmp pkg start) && op_lt (pkg_cmp pkg end_)
  end.

Definition get_fixed_version (vt : VulnerabilityTest P) : FixedVersion :=
  match package_information vt with
  | Single specifier package => FixedSingle (get_version package) specifier
  | PkgRange start end_ => FixedRange (get_version start) (get_version end_)
  end.

(** [get_mut] and [push], or [insert] of a new vector. *)
Definition push_at {A} (k : str) (a : A) (m : gmap str (list A)) : gmap str (list A) :=
  match m !! k with
  | Some l => <[k := l ++ [a]]> m
  | None => <[k := [a]]> m
  end.

(** The inner loop of [transform], over the packages of one test. *)
Fixpoint transform_packages (oid : str) (fps : list FixedPackage) (vts : VulnerabilityTests P) :
  N (VulnerabilityTests P) :=
  match fps with
  | [] => mret vts
  | fixed_package :: fps' =>
      c ← create oid fixed_package;
      match c with
      | None => throw (NotusError.VulnerabilityTestParseError [] fixed_package)
      | Some (pkg_name, adv) => transform_packages oid fps' (push_at pkg_name adv vts)
      end
  end.

Fixpoint transform_from (vts_model : list Models.VulnerabilityTest) (vts : VulnerabilityTests P) :
  N (VulnerabilityTests P) :=
  match vts_model with
  | [] => mret vts
  | vt_model :: vts_model' =>
      vts' ← transform_packages (Models.oid vt_model) (Models.fixed_packages vt_model) vts;
      transform_from vts_model' vts'
  end.

Definition transform (vts_model : list Models.VulnerabilityTest) : N (VulnerabilityTests P) :=
  transform_from vts_model ∅.

(** ** notus.rs: parsing and comparing *)
Fixpoint parse (packages : list str) : N (list P) :=
  match packages with
  | [] => mret []
  | package :: packages' =>
      p ← of_total (from_full_name package);
      match p with
      | Some package => rest ← parse packages'; mret (package :: rest)
      | None => throw (NotusError.PackageParseError package)
      end
  end.

(** The inner loop of [compare], over the tests of one package. *)
Fixpoint compare_tests (package : P) (vts : list (VulnerabilityTest P)) (results : NotusResults) :
  NotusResults :=
  match vts with
  | [] => results
  | vt :: vts' =>
      compare_tests package vts'
        (if is_vulnerable vt package then
           push_at (vt_oid vt)
             (mkVulnerablePackage (get_name package) (get_version package) (get_fixed_version vt))
             results
         else results)
  end.

Fixpoint compare_from (packages : list P) (vts : VulnerabilityTests P) (results : NotusResults) :
  NotusResults :=
  match packages with
  | [] => results
  | package :: packages' =>
      compare_from packages' vts
        match vts !! get_name package with
        | Some tests => compare_tests package tests results
        | None => results
        end
  end.

Definition compare (packages : list P) (vts : VulnerabilityTests P) : NotusResults :=
  compare_from packages vts ∅.

Definition parse_and_compare (packages : list str) (vts : VulnerabilityTests P) :
  N NotusResults :=
  packages ← parse packages;
  mret (compare packages vts).
End Tests.

(** ** Products and the scan *)
Inductive Product : Type :=
| ProdDeb (vts : VulnerabilityTests Deb)
| ProdEBuild (vts : VulnerabilityTests EBuild)
| ProdRpm (vts : VulnerabilityTests Rpm)
| ProdSlack (vts : VulnerabilityTests Slack)
| ProdWindows (vts : VulnerabilityTests Windows).

Section Scan.
Context `{NotusRegex} {L : Type} `{ProductLoader L}.

Definition try_from (value : Models.Product) : N Product :=
  let vts := Models.vulnerability_tests value in
  match Models.package_type value with
  | DEB => vts ← transform vts; mret (ProdDeb vts)
  | EBUILD => vts ← transform vts; mret (ProdEBuild vts)
  | RPM => vts ← transform vts; mret (ProdRpm vts)
  | SLACK => vts ← transform vts; mret (ProdSlack vts)
  | MSP => vts ← transform vts; mret (ProdWindows vts)
  end.

Record Notus := mkNotus {
  loader : L;
  loaded_products : gmap str (Product * FeedStamp);
  signature_check_enabled : bool
}.

Definition new (loader : L) (signature_check : bool) : Notus := mkNotus loader ∅ signature_check.

(** Code that borrows the receiver. *)
Abbreviation NM := (M Notus NotusError.t).

(** A call of an associated function, which cannot see the receiver. *)
Definition assoc {A} (m : N A) : NM A := of_outcome (m tt).1.

Definition load_new_product (os : str) : NM (Product * FeedStamp) :=
  l ← gets loader;
  r ← of_result (load_product l os);
  let '(product, stamp) := r in
  adv ← map_err (fun e =>
      match e with
      | NotusError.VulnerabilityTestParseError _ pkg =>
          NotusError.VulnerabilityTestParseError os pkg
      | err => err
      end) (assoc (try_from product));
  mret (adv, stamp).

Definition signature_check : NM unit :=
  enabled ← gets signature_check_enabled;
  if (enabled : bool) then
    l ← gets loader;
    match verify_signature l with
    | Ok _ => mret tt
    | Err VerifyError.MissingKeyring =>
        throw (NotusError.SignatureCheckError VerifyError.MissingKeyring)
    | Err (VerifyError.BadSignature e) =>
        throw (NotusError.SignatureCheckError (VerifyError.BadSignature e))
    | Err e => throw (NotusError.HashsumLoadError e)
    | Panic => panic
    | OutOfFuel => out_of_fuel
    end
  else mret tt.

Definition set_products (m : gmap str (Product * FeedStamp)) (n : Notus) : Notus :=
  mkNotus (loader n) m (signature_check_enabled n).

(** [self.loaded_products.insert(os.to_string(), self.load_new_product(os)?)] and the
    product just inserted. *)
Definition insert_new_product (os : str) : NM Product :=
  r ← load_new_product os;
  _ ← modify (fun n => set_products (<[os := r]> (loaded_products n)) n);
  m ← gets loaded_products;
  r ← or_panic (m !! os);
  mret r.1.

Definition get_product (os : str) : NM Product :=
  m ← gets loaded_products;
  match m !! os with
  | Some (adv, stamp) =>
      l ← gets loader;
      if has_changed l os stamp then
        _ ← signature_check;
        _ ← modify (fun n => set_products (delete os (loaded_products n)) n);
        insert_new_product os
      else mret adv
  | None =>
      _ ← signature_check;
      insert_new_product os
  end.

Definition scan_product (packages : list str) (product : Product) : N NotusResults :=
  match product with
  | ProdDeb adv => parse_and_compare packages adv
  | ProdEBuild adv => parse_and_compare packages adv
  | ProdRpm adv => parse_and_compare packages adv
  | ProdSlack adv => parse_and_compare packages adv
  | ProdWindows adv => parse_and_compare packages adv
  end.

Definition scan (os : str) (packages : list str) : NM NotusResults :=
  product ← get_product os;
  assoc (scan_product packages product).

Definition get_available_os : NM (list str) :=
  _ ← signature_check;
  l ← gets loader;
  of_result (get_products l).
End Scan.
Arguments Notus : clear implicits.
