(* ===== verification/NotusProps.v ===== *)
(** * Notus: what a scan reports

    The reports of a scan are exactly the vulnerable packages, in order; a product
    that cannot be read names its first bad package; and a product used by a scan was
    loaded under a good signature. *)

From S2P Require Import Prelude RustStr Packages Notus.
Local Open Scope nat_scope.

(** ** Maps of lists filled by [push_at] *)
Section PushAll.
Context {A : Type}.
Implicit Types (m : gmap str (list A)) (kvs : list (str * A)).

Definition entries m (k : str) : list A := default [] (m !! k).

Definition some_list (l : list A) : option (list A) :=
  match l with [] => None | _ => Some l end.

(** The values filed under a key. *)
Definition under (k : str) kvs : list A := (filter (fun kv => kv.1 = k) kvs).*2.

Definition push_all kvs m : gmap str (list A) := foldl (fun m kv => push_at kv.1 kv.2 m) m kvs.

Definition no_empty m : Prop := forall k, m !! k <> Some [].

Lemma entries_push k a m k' :
  entries (push_at k a m) k' = entries m k' ++ (if decide (k = k') then [a] else []).
Proof.
  unfold entries, push_at. destruct (decide (k = k')) as [->|Hk].
  - by destruct (m !! k'); rewrite lookup_insert_eq.
  - rewrite app_nil_r. by destruct (m !! k); rewrite lookup_insert_ne.
Qed.

Lemma no_empty_push k a m : no_empty m -> no_empty (push_at k a m).
Proof.
  intros Hm k'. unfold push_at. destruct (decide (k = k')) as [->|Hk].
  - destruct (m !! k') as [l|]; rewrite lookup_insert_eq; [|done]. by destruct l.
  - destruct (m !! k); rewrite lookup_insert_ne by done; apply Hm.
Qed.

Lemma no_empty_push_all kvs m : no_empty m -> no_empty (push_all kvs m).
Proof.
  revert m. induction kvs as [|[k a] kvs IH]; intros m Hm; simpl; [done|].
  by apply IH, no_empty_push.
Qed.

Lemma entries_push_all kvs m k : entries (push_all kvs m) k = entries m k ++ under k kvs.
Proof.
  revert m. induction kvs as [|[k' a] kvs IH]; intros m; simpl; [by rewrite app_nil_r|].
  rewrite IH, entries_push. unfold under. rewrite filter_cons. simpl.
  rewrite <- app_assoc. f_equal. by destruct (decide (k' = k)).
Qed.

Lemma push_all_app kvs kvs' m : push_all (kvs ++ kvs') m = push_all kvs' (push_all kvs m).
Proof. apply foldl_app. Qed.

Lemma lookup_push_all kvs k : push_all kvs ∅ !! k = some_list (under k kvs).
Proof.
  assert (no_empty (push_all kvs ∅)) as Hne
    by (apply no_empty_push_all; intros k'; by rewrite lookup_empty).
  pose proof (entries_push_all kvs ∅ k) as E. specialize (Hne k). unfold entries in E.
  rewrite lookup_empty in E. simpl in E. rewrite <- E.
  destruct (push_all kvs ∅ !! k) as [[|]|]; done.
Qed.

Lemma under_app k kvs kvs' : under k (kvs ++ kvs') = under k kvs ++ under k kvs'.
Proof. unfold under. by rewrite filter_app, fmap_app. Qed.
End PushAll.

(** ** Transforming a product *)

(** The fixed packages of a product, each with the identifier of its test. *)
Definition fixed_of (vts_model : list Models.VulnerabilityTest) : list (str * FixedPackage) :=
  vt ← vts_model; (fun fp => (Models.oid vt, fp)) <$> Models.fixed_packages vt.

Section Transform.
Context {P : Type} `{Package P}.

Definition created (x : str * FixedPackage) (t : str * VulnerabilityTest P) : Prop :=
  (create x.1 x.2 tt).1 = Ok (Some t).

(** The loop over all fixed packages of a product at once. *)
Fixpoint transform_all (xs : list (str * FixedPackage)) (vts : VulnerabilityTests P) :
  N (VulnerabilityTests P) :=
  match xs with
  | [] => mret vts
  | (oid, fp) :: xs' =>
      c ← create oid fp;
      match c with
      | None => throw (NotusError.VulnerabilityTestParseError [] fp)
      | Some (pkg_name, adv) => transform_all xs' (push_at pkg_name adv vts)
      end
  end.

Lemma transform_all_app xs ys vts :
  transform_all (xs ++ ys) vts tt = (transform_all xs vts ≫= transform_all ys) tt.
Proof.
  revert vts. induction xs as [|[oid fp] xs IH]; intros vts; [done|]. simpl.
  unfold mbind, M_bind in *. destruct (create oid fp tt) as [[[[n a]|]| | |] []]; done.
Qed.

Lemma transform_packages_all oid fps vts :
  transform_packages oid fps vts tt = transform_all ((fun fp => (oid, fp)) <$> fps) vts tt.
Proof.
  revert vts. induction fps as [|fp fps IH]; intros vts; [done|]. simpl.
  unfold mbind, M_bind in *. destruct (create oid fp tt) as [[[[n a]|]| | |] []]; done.
Qed.

Lemma transform_from_all models vts :
  transform_from models vts tt = transform_all (fixed_of models) vts tt.
Proof.
  revert vts. induction models as [|vt models IH]; intros vts; [done|]. simpl.
  change (fixed_of (vt :: models)) with
    (((fun fp => (Models.oid vt, fp)) <$> Models.fixed_packages vt) ++ fixed_of models).
  rewrite transform_all_app. unfold mbind, M_bind. rewrite transform_packages_all.
  destruct (transform_all _ vts tt) as [[] []]; done.
Qed.

Lemma transform_all_ok xs vts vts' : (transform_all xs vts tt).1 = Ok vts' <->
  exists ts, Forall2 created xs ts /\ vts' = push_all ts vts.
Proof.
  revert vts. induction xs as [|[oid fp] xs IH]; intros vts; simpl.
  { split.
    - intros [= <-]. by exists [].
    - intros (ts & Hts & ->). by apply Forall2_nil_inv_l in Hts as ->. }
  unfold mbind, M_bind. destruct (create oid fp tt) as [o []] eqn:E. split.
  - destruct o as [[[n a]|]| | |]; try done. intros (ts & Hts & ->)%IH.
    exists ((n, a) :: ts). split; [|done]. constructor; [|done]. unfold created. simpl. by rewrite E.
  - intros (ts & Hts & ->). apply Forall2_cons_inv_l in Hts as (t & ts' & Ht & Hts & ->).
    unfold created in Ht. simpl in Ht. rewrite E in Ht. simpl in Ht. subst o. destruct t as [n a].
    apply IH. by exists ts'.
Qed.

Lemma transform_all_err xs vts e : (transform_all xs vts tt).1 = Err e <->
  exists pre oid fp post ts, xs = pre ++ (oid, fp) :: post /\ Forall2 created pre ts
  /\ (create (P := P) oid fp tt).1 = Ok None /\ e = NotusError.VulnerabilityTestParseError [] fp.
Proof.
  assert (forall oid fp e, (create (P := P) oid fp tt).1 <> Err e) as Hno.
  { intros oid [full s|name v s|name r] e'; simpl; unfold mbind, M_bind, of_total.
    - by destruct (from_full_name full) as [[]|[]| |].
    - by destruct (from_name_and_full_version name v) as [[]|[]| |].
    - destruct (from_name_and_full_version name (range_start r)) as [[]|[]| |]; try done. simpl.
      unfold mbind, M_bind, of_total.
      by destruct (from_name_and_full_version name (range_end r)) as [[]|[]| |]. }
  revert vts. induction xs as [|[oid fp] xs IH]; intros vts; simpl.
  { split; [done|]. intros (pre & ? & ? & ? & ? & E & _). by destruct pre. }
  unfold mbind, M_bind. specialize (Hno oid fp).
  destruct (create oid fp tt) as [o []] eqn:E. simpl in Hno. split.
  - destruct o as [[[n a]|]| | |]; try done; try by (intros [= <-]; destruct (Hno e0)).
    + intros (pre & oid' & fp' & post & ts & -> & Hts & Hfp & ->)%IH.
      exists ((oid, fp) :: pre), oid', fp', post, ((n, a) :: ts). split_and!; try done.
      constructor; [|done]. unfold created. simpl. by rewrite E.
    + intros [= <-]. exists [], oid, fp, xs, []. split_and!; try done. by rewrite E.
  - intros (pre & oid' & fp' & post & ts & Hxs & Hts & Hfp & ->).
    destruct pre as [|x pre]; simplify_eq/=; [rewrite E in Hfp; simpl in Hfp; by subst o|].
    apply Forall2_cons_inv_l in Hts as (t & ts' & Ht & Hts & ->).
    unfold created in Ht. simpl in Ht. rewrite E in Ht. simpl in Ht. subst o. destruct t as [n a].
    apply IH. by exists pre, oid', fp', post, ts'.
Qed.
End Transform.

(** ** Comparing *)
Section Compare.
Context {P : Type} `{Package P}.

Definition vulnerable_package (p : P) (vt : VulnerabilityTest P) : VulnerablePackage :=
  mkVulnerablePackage (get_name p) (get_version p) (get_fixed_version vt).

(** What one package adds to the results, filed by identifier. *)
Definition findings_of (vts : list (VulnerabilityTest P)) (p : P) : list (str * VulnerablePackage) :=
  (fun vt => (vt_oid vt, vulnerable_package p vt)) <$> filter (fun vt => is_vulnerable vt p = true) vts.

Lemma compare_tests_push p vts r : compare_tests p vts r = push_all (findings_of vts p) r.
Proof.
  revert r. induction vts as [|vt vts IH]; intros r; [done|]. simpl.
  unfold findings_of. rewrite filter_cons.
  destruct (is_vulnerable vt p); [rewrite decide_True by done|rewrite decide_False by done]; apply IH.
Qed.

Lemma compare_from_push pkgs vts r :
  compare_from pkgs vts r = push_all (p ← pkgs; findings_of (entries vts (get_name p)) p) r.
Proof.
  revert r. induction pkgs as [|p pkgs IH]; intros r; [done|]. simpl.
  change ((p :: pkgs) ≫= _) with
    (findings_of (entries vts (get_name p)) p
       ++ (p ← pkgs; findings_of (entries vts (get_name p)) p)).
  rewrite push_all_app, IH. f_equal. unfold entries.
  destruct (vts !! get_name p); [apply compare_tests_push|done].
Qed.

(** The reports on a package by the tests of a product that carry an identifier. *)
Definition reports (ts : list (str * VulnerabilityTest P)) (oid : str) (p : P) :
  list VulnerablePackage :=
  vulnerable_package p <$>
    (filter (fun t => t.1 = get_name p /\ is_vulnerable t.2 p = true /\ vt_oid t.2 = oid) ts).*2.

Lemma under_findings ts oid p :
  under oid (findings_of (under (get_name p) ts) p) = reports ts oid p.
Proof.
  unfold under, findings_of, reports. induction ts as [|[n vt] ts IH]; [done|].
  rewrite (filter_cons (fun t => t.1 = get_name p /\ _)), (filter_cons (fun kv => kv.1 = get_name p)).
  simpl. destruct (decide (n = get_name p)) as [->|Hn].
  2: { rewrite decide_False by (by intros (? & ?)). apply IH. }
  simpl. rewrite filter_cons. destruct (decide (is_vulnerable vt p = true)) as [Hv|Hv].
  2: { rewrite decide_False by (by intros (? & ? & ?)). apply IH. }
  simpl. rewrite filter_cons. simpl. destruct (decide (vt_oid vt = oid)) as [Ho|Ho].
  - rewrite decide_True by done. simpl. f_equal. apply IH.
  - rewrite decide_False by (by intros (? & ? & ?)). apply IH.
Qed.

Lemma compare_reports pkgs ts oid :
  compare pkgs (push_all ts ∅) !! oid = some_list (p ← pkgs; reports ts oid p).
Proof.
  unfold compare. rewrite compare_from_push, lookup_push_all. f_equal.
  induction pkgs as [|p pkgs IH]; [done|].
  change ((p :: pkgs) ≫= ?f) with (f p ++ (pkgs ≫= f)).
  rewrite under_app, IH. f_equal. rewrite entries_push_all. unfold entries.
  rewrite lookup_empty. apply under_findings.
Qed.

Lemma parse_ok names pkgs : (parse (P := P) names tt).1 = Ok pkgs <->
  Forall2 (fun n p => from_full_name n = Ok (Some p)) names pkgs.
Proof.
  revert pkgs. induction names as [|n names IH]; intros pkgs; simpl.
  { split; [intros [= <-]; constructor|]. by intros ->%Forall2_nil_inv_l. }
  unfold mbind, M_bind, of_total. destruct (from_full_name n) as [[p|]|[]| |] eqn:E.
  2,3,4: split; [done|]; intros Hf; inversion Hf; congruence.
  destruct (parse names tt) as [o []]. simpl in IH. split.
  - destruct o as [ps| | |]; try done. intros [= <-]. constructor; [done|]. by apply IH.
  - intros (q & qs & Hq & Hqs & ->)%Forall2_cons_inv_l. rewrite E in Hq.
    injection Hq as <-. apply IH in Hqs as ->. done.
Qed.
End Compare.

(** C32: Where every fixed package of a product and every installed package parses, the scan
    succeeds and its results are exact: under each identifier they list, in the order of
    the packages and then of the product, every vulnerable pair of an installed package
    and a test of that identifier whose package has the same name, and nothing else; an
    identifier without such a pair is absent. *)
Theorem scan_reports_exactly {P} `{Package P} (models : list Models.VulnerabilityTest)
    (names : list str) (ts : list (str * VulnerabilityTest P)) (pkgs : list P) :
  Forall2 created (fixed_of models) ts ->
  Forall2 (fun n p => from_full_name n = Ok (Some p)) names pkgs ->
  exists vts results, (transform models tt).1 = Ok vts
  /\ (parse_and_compare names vts tt).1 = Ok results
  /\ forall oid, results !! oid = some_list (p ← pkgs; reports ts oid p).
Proof.
  intros Hts Hp. exists (push_all ts ∅), (compare pkgs (push_all ts ∅)). split_and!.
  - unfold transform. rewrite transform_from_all. apply transform_all_ok. by exists ts.
  - apply parse_ok in Hp. unfold parse_and_compare, mbind, M_bind.
    destruct (parse names tt) as [o []]. simpl in Hp. by subst o.
  - intros oid. apply compare_reports.
Qed.

(** A product of one test and two installed builds, one of them too old. *)
Definition demo_models : list Models.VulnerabilityTest :=
  [Models.mkVT (chars_of "1.3.6")
     [ByNameAndFullVersion (chars_of "Win 10") (chars_of "12") GE]].
Definition demo_installed : list str := [chars_of "Win 10.3"; chars_of "Win 10.12"].
Definition demo_fixed : Windows :=
  mkWindows (chars_of "Win 10.12") (chars_of "Win 10") (chars_of "12").
Definition demo_packages : list Windows :=
  [mkWindows (chars_of "Win 10.3") (chars_of "Win 10") (chars_of "3"); demo_fixed].
Definition demo_created : list (str * VulnerabilityTest Windows) :=
  [(chars_of "Win 10", mkVulnerabilityTest (chars_of "1.3.6") (Single GE demo_fixed))].
Definition demo_tests : VulnerabilityTests Windows :=
  {[ chars_of "Win 10" := [mkVulnerabilityTest (chars_of "1.3.6") (Single GE demo_fixed)] ]}.
Definition demo_results : NotusResults :=
  {[ chars_of "1.3.6" := [mkVulnerablePackage (chars_of "Win 10") (chars_of "3")
       (FixedSingle (chars_of "12") GE)] ]}.

Lemma scan_reports_exactly_witness :
  exists vts results,
    (transform (H := Windows_package (H := split_only)) demo_models tt).1 = Ok vts
  /\ (parse_and_compare (H := Windows_package (H := split_only)) demo_installed vts tt).1
     = Ok results
  /\ forall oid, results !! oid
       = some_list (p ← demo_packages;
                    reports (H := Windows_package (H := split_only)) demo_created oid p).
Proof.
  apply (scan_reports_exactly (H := Windows_package (H := split_only))
    demo_models demo_installed demo_created demo_packages);
    repeat constructor; vm_compute; reflexivity.
Defined.

(** A product that cannot be transformed is refused with the first fixed package that
    does not parse, and only then: every package before it parses, and without one the
    product is accepted (unless a parser panics). *)
Theorem transform_names_first_bad_package {P} `{Package P}
    (models : list Models.VulnerabilityTest) (e : NotusError.t) :
  (transform (P := P) models tt).1 = Err e <->
  exists pre oid fp post ts, fixed_of models = pre ++ (oid, fp) :: post
  /\ Forall2 (created (P := P)) pre ts /\ (create (P := P) oid fp tt).1 = Ok None
  /\ e = NotusError.VulnerabilityTestParseError [] fp.
Proof. unfold transform. rewrite transform_from_all. apply transform_all_err. Qed.

(** The condition a specifier states on a comparison with the fixed package. *)
Definition satisfies (s : Specifier) (o : comparison) : bool :=
  match s, o with
  | GT, Gt | LT, Lt | GE, (Gt | Eq) | LE, (Lt | Eq) | EQ, Eq => true
  | _, _ => false
  end.

(** An installed package is vulnerable exactly when it can be compared with the fixed
    package and does not satisfy the specifier, or lies in the half-open range; one that
    cannot be compared (another name, another architecture, versions without an order)
    is vulnerable only to a test of equality, which compares every field. *)
Theorem vulnerable_iff_unsatisfied {P} `{Package P} (pkg package start end_ : P)
    (oid : str) (s : Specifier) :
  is_vulnerable (mkVulnerabilityTest oid (Single s package)) pkg
    = match s with
      | EQ => negb (pkg_eqb pkg package)
      | _ => match pkg_cmp pkg package with
             | Some o => negb (satisfies s o)
             | None => false
             end
      end
  /\ (is_vulnerable (mkVulnerabilityTest oid (PkgRange start end_)) pkg = true <->
        (pkg_cmp pkg start = Some Gt \/ pkg_cmp pkg start = Some Eq)
        /\ pkg_cmp pkg end_ = Some Lt).
Proof.
  split.
  - unfold is_vulnerable. simpl. by destruct s, (pkg_cmp pkg package) as [[]|].
  - unfold is_vulnerable. simpl.
    destruct (pkg_cmp pkg start) as [[]|], (pkg_cmp pkg end_) as [[]|]; simpl; split;
      first [by auto|done|by intros [[|] ?]].
Qed.

(** ** The cache *)
Section Cache.
Context `{NotusRegex} {L : Type} `{ProductLoader L}.
Implicit Types (n : Notus L) (os : str).

Lemma signature_check_keeps n : (signature_check n).2 = n
  /\ ((signature_check n).1 = Ok tt <->
      signature_check_enabled n = false \/ verify_signature (loader n) = Ok tt).
Proof.
  unfold signature_check, mbind, M_bind, gets. simpl.
  destruct (signature_check_enabled n); simpl; [|split; [done|tauto]].
  destruct (verify_signature (loader n)) as [[]|[]| |]; simpl; split; try done;
    (split; [try done; auto|intros [?|?]; done]).
Qed.

Lemma load_new_product_keeps os n : (load_new_product os n).2 = n.
Proof.
  unfold load_new_product, mbind, M_bind, gets, of_result, map_err, assoc, of_outcome. simpl.
  destruct (load_product (loader n) os) as [[m st]|e]; [|done]. simpl.
  by destruct (try_from m tt).1.
Qed.

Lemma load_new_product_cache os c n :
  (load_new_product os (set_products c n)).1 = (load_new_product os n).1.
Proof.
  unfold load_new_product, mbind, M_bind, gets, of_result, map_err, assoc, of_outcome. simpl.
  destruct (load_product (loader n) os) as [[m st]|e]; [|done]. simpl.
  by destruct (try_from m tt).1.
Qed.

Lemma load_new_product_ok os n p st : (load_new_product os n).1 = Ok (p, st) <->
  exists m, load_product (loader n) os = inl (m, st) /\ (try_from m tt).1 = Ok p.
Proof.
  unfold load_new_product, mbind, M_bind, gets, of_result, map_err, assoc, of_outcome. simpl.
  destruct (load_product (loader n) os) as [[m st']|e]; simpl.
  - destruct (try_from m tt) as [[q|e| |] []] eqn:E; simpl.
    + split; [intros [= <- <-]; exists m; by rewrite E|].
      intros (m' & [= <- <-] & Hq). rewrite E in Hq. by injection Hq as ->.
    + split; [by destruct e|]. intros (m' & [= <- <-] & Hq). by rewrite E in Hq.
    + split; [done|]. intros (m' & [= <- <-] & Hq). by rewrite E in Hq.
    + split; [done|]. intros (m' & [= <- <-] & Hq). by rewrite E in Hq.
  - split; [done|]. by intros (? & ? & _).
Qed.

Lemma insert_new_product_spec os n :
  match (load_new_product os n).1 with
  | Ok (p, st) => insert_new_product os n
      = (Ok p, set_products (<[os := (p, st)]> (loaded_products n)) n)
  | Err e => insert_new_product os n = (Err e, n)
  | Panic => insert_new_product os n = (Panic, n)
  | OutOfFuel => insert_new_product os n = (OutOfFuel, n)
  end.
Proof.
  pose proof (load_new_product_keeps os n) as Hk.
  unfold insert_new_product, mbind, M_bind.
  destruct (load_new_product os n) as [[[p st]|e| |] n']; simpl in *; subst n'; try done.
  unfold gets, modify. simpl. by rewrite lookup_insert_eq.
Qed.

(** How the product of a scan is found: kept, refused by the signature check, or
    loaded into the cache. *)
Definition fresh (os : str) (n : Notus L) : bool :=
  match loaded_products n !! os with
  | Some (_, stamp) => negb (has_changed (loader n) os stamp)
  | None => false
  end.

Lemma get_product_fresh os n : fresh os n = true ->
  exists p st, loaded_products n !! os = Some (p, st) /\ get_product os n = (Ok p, n).
Proof.
  unfold fresh, get_product, mbind, M_bind, gets. simpl.
  destruct (loaded_products n !! os) as [[p st]|]; [|done]. simpl.
  intros Hc%negb_true_iff. exists p, st. by rewrite Hc.
Qed.

Lemma get_product_stale os n : fresh os n = false ->
  get_product os n =
    (_ ← signature_check;
     _ ← modify (fun n => set_products (delete os (loaded_products n)) n);
     insert_new_product os) n.
Proof.
  unfold fresh, get_product. unfold mbind at 1, M_bind at 1. unfold gets at 1. simpl.
  destruct (loaded_products n !! os) as [[p st]|] eqn:E.
  - intros Hc%negb_false_iff. unfold mbind at 1, M_bind at 1. unfold gets at 1. simpl.
    by rewrite Hc.
  - intros _. destruct (signature_check_keeps n) as [Hk _].
    unfold mbind, M_bind. destruct (signature_check n) as [[[]| | |] n']; simpl in *; subst n';
      try done.
    unfold modify. rewrite (delete_id _ _ E). by destruct n.
Qed.

Lemma stale_run os n : fresh os n = false ->
  match (signature_check n).1 with
  | Ok _ => get_product os n
      = insert_new_product os (set_products (delete os (loaded_products n)) n)
  | Err e => get_product os n = (Err e, n)
  | Panic => get_product os n = (Panic, n)
  | OutOfFuel => get_product os n = (OutOfFuel, n)
  end.
Proof.
  intros Hf. rewrite (get_product_stale os n Hf). destruct (signature_check_keeps n) as [Hk _].
  unfold mbind, M_bind. by destruct (signature_check n) as [[[]| | |] n']; simpl in *; subst n'.
Qed.

(** Only the product is looked for; comparing leaves the scanner alone. *)
Lemma scan_state os pkgs n : (scan os pkgs n).2 = (get_product os n).2.
Proof.
  unfold scan, mbind, M_bind, assoc, of_outcome.
  by destruct (get_product os n) as [[] n'].
Qed.

(** *** Runs of a scanner

    Between two requests the files of the loader may change; [hist] lists every state
    of the loader that a request has seen. *)
Inductive reach (check : bool) : list L -> Notus L -> Prop :=
| reach_new l : reach check [l] (new l check)
| reach_files hist n l : reach check hist n ->
    reach check (l :: hist) (mkNotus l (loaded_products n) (signature_check_enabled n))
| reach_scan hist n os pkgs : reach check hist n -> reach check hist (scan os pkgs n).2
| reach_list hist n : reach check hist n -> reach check hist (get_available_os n).2.

(** A cached product was loaded from a state of the loader whose signature was good. *)
Definition loaded_from (check : bool) (hist : list L) os (p : Product) (st : FeedStamp) : Prop :=
  exists l m, l ∈ hist /\ load_product l os = inl (m, st) /\ (try_from m tt).1 = Ok p
  /\ (check = true -> verify_signature l = Ok tt).

Definition cache_ok (check : bool) (hist : list L) n : Prop :=
  signature_check_enabled n = check /\ loader n ∈ hist
  /\ forall os p st, loaded_products n !! os = Some (p, st) -> loaded_from check hist os p st.

Lemma get_product_ok check hist os n : cache_ok check hist n ->
  cache_ok check hist (get_product os n).2
  /\ forall p, (get_product os n).1 = Ok p -> exists st, loaded_from check hist os p st.
Proof.
  intros (Hc & Hl & Hm). destruct (fresh os n) eqn:Hf.
  { destruct (get_product_fresh os n Hf) as (p & st & Hp & ->). simpl.
    split; [done|]. intros q [= <-]. exists st. by apply Hm. }
  pose proof (stale_run os n Hf) as Hr. destruct (signature_check_keeps n) as [_ Hs].
  destruct (signature_check n).1 as [[]| | |]; rewrite Hr; [|done..].
  destruct Hs as [Hs _]. specialize (Hs eq_refl).
  set (n0 := set_products _ n). pose proof (insert_new_product_spec os n0) as Hi.
  assert (cache_ok check hist n0) as Hn0.
  { split_and!; [done..|]. intros os' p st Hp. simpl in Hp.
    apply lookup_delete_Some in Hp as [_ ?]. by apply Hm. }
  destruct (load_new_product os n0).1 as [[p st]| | |] eqn:Hload; rewrite Hi; [|done..].
  assert (loaded_from check hist os p st) as Hp.
  { apply load_new_product_ok in Hload as (m & Hload & Htry). exists (loader n), m.
    split_and!; [done..|]. intros ->. destruct Hs; [congruence|done]. }
  destruct Hn0 as (? & ? & Hm0). split; [split_and!; [done..|]|].
  - intros os' p' st' Hp'. simpl in Hp'.
    apply lookup_insert_Some in Hp' as [[<- [= <- <-]]|[_ ?]]; [done|by apply Hm0].
  - intros q [= <-]. by exists st.
Qed.

Lemma reach_cache_ok check hist n : reach check hist n -> cache_ok check hist n.
Proof.
  induction 1 as [l|hist n l Hr (Hc & Hl & Hm)|hist n os pkgs Hr IH|hist n Hr IH].
  - split_and!; [done|set_solver|]. intros os p st. simpl. by rewrite lookup_empty.
  - split_and!; [done|set_solver|]. intros os p st Hp.
    destruct (Hm os p st Hp) as (l' & m & Hl1 & Hrest). exists l', m. split; [by right|done].
  - rewrite scan_state. by apply get_product_ok.
  - replace (get_available_os n).2 with n; [done|]. unfold get_available_os, mbind, M_bind.
    destruct (signature_check_keeps n) as [Hk _].
    destruct (signature_check n) as [[[]| | |] n']; simpl in *; subst n'; try done.
    unfold gets, of_result. simpl. by destruct (get_products (loader n)).
Qed.
End Cache.

(** C33: Over any run of requests, whatever happens to the files in between, the results of
    a scan come from a product that was loaded for that system from a state of the files
    whose signature had been verified (when the check of signatures is switched on, which by
    default it is not), transformed without error; then nothing unverified enters the cache. *)
Theorem scan_uses_verified_product `{NotusRegex} {L} `{ProductLoader L} (check : bool)
    (hist : list L) (n n' : Notus L) (os : str) (pkgs : list str) (results : NotusResults) :
  reach check hist n -> scan os pkgs n = (Ok results, n') ->
  exists p st, loaded_from check hist os p st /\ (scan_product pkgs p tt).1 = Ok results.
Proof.
  intros Hr%reach_cache_ok. destruct (get_product_ok check hist os n Hr) as [_ Hp].
  unfold scan, mbind, M_bind, assoc, of_outcome.
  destruct (get_product os n) as [[p| | |] n1]; try done. intros [= <- _].
  destruct (Hp p eq_refl) as [st Hst]. by exists p, st.
Qed.

(** The cache of a scanner.  An unchanged product is used as it is, without checking
    the signature again; a failed signature check changes nothing; a product that
    cannot be loaded is gone from the cache, so the next scan loads it again; and a
    loaded product is kept for the next scan.  The entries of other systems stay. *)
Theorem scan_cache_behaviour `{NotusRegex} {L} `{ProductLoader L} (n : Notus L)
    (os : str) (pkgs : list str) :
  (fresh os n = true -> exists p st, loaded_products n !! os = Some (p, st)
     /\ scan os pkgs n = ((scan_product pkgs p tt).1, n))
  /\ (forall e, fresh os n = false -> (signature_check n).1 = Err e -> scan os pkgs n = (Err e, n))
  /\ (forall e, fresh os n = false -> (signature_check n).1 = Ok tt ->
        (load_new_product os n).1 = Err e ->
        scan os pkgs n = (Err e, set_products (delete os (loaded_products n)) n))
  /\ (forall p st, fresh os n = false -> (signature_check n).1 = Ok tt ->
        (load_new_product os n).1 = Ok (p, st) ->
        scan os pkgs n = ((scan_product pkgs p tt).1,
          set_products (<[os := (p, st)]> (loaded_products n)) n)).
Proof.
  split_and!.
  - intros Hf. destruct (get_product_fresh os n Hf) as (p & st & Hp & Hg).
    exists p, st. split; [done|]. unfold scan, mbind, M_bind. by rewrite Hg.
  - intros e Hf Hs. pose proof (stale_run os n Hf) as Hr. rewrite Hs in Hr.
    unfold scan, mbind, M_bind. by rewrite Hr.
  - intros e Hf Hs Hl. pose proof (stale_run os n Hf) as Hr. rewrite Hs in Hr.
    pose proof (insert_new_product_spec os (set_products (delete os (loaded_products n)) n)) as Hi.
    rewrite load_new_product_cache, Hl in Hi. unfold scan, mbind, M_bind. by rewrite Hr, Hi.
  - intros p st Hf Hs Hl. pose proof (stale_run os n Hf) as Hr. rewrite Hs in Hr.
    pose proof (insert_new_product_spec os (set_products (delete os (loaded_products n)) n)) as Hi.
    rewrite load_new_product_cache, Hl in Hi. unfold scan, mbind, M_bind. rewrite Hr, Hi.
    unfold assoc, of_outcome, set_products. simpl. by rewrite insert_delete_eq.
Qed.

(** A loader with one Windows product. *)
Record OneProduct := mkOneProduct { one_product : Models.Product; one_stamp : Z }.

#[global] Instance OneProduct_loader : ProductLoader OneProduct := {|
  load_product := fun l _ => inl (one_product l, Time (one_stamp l));
  get_products := fun _ => inl [chars_of "win"];
  has_changed := fun l _ st => match st with Time t => negb (t =? one_stamp l)%Z | _ => true end;
  verify_signature := fun _ => Ok tt
|}.

Definition demo_loader : OneProduct := mkOneProduct (Models.mkProduct [] MSP demo_models) 7.

Lemma scan_uses_verified_product_witness :
  exists p st, loaded_from (H := split_only) true [demo_loader] (chars_of "win") p st
  /\ (scan_product (H := split_only) demo_installed p tt).1 = Ok demo_results.
Proof.
  apply (scan_uses_verified_product (H := split_only) true [demo_loader] (new demo_loader true)
    (mkNotus demo_loader {[ chars_of "win" := (ProdWindows demo_tests, Time 7) ]} true)
    (chars_of "win") demo_installed demo_results);
    [apply reach_new|vm_compute; reflexivity].
Defined.
