(* ===== verification/FeedVerify.v ===== *)
(** * Verified files of a feed

    [feed/verify/mod.rs]: the sums file, the hash of a file, the finder of scripts and the
    check of the signature.  The digest and OpenPGP are libraries. *)

From S2P Require Import Prelude RustStr Errors Packages Notus Crypt Files.
Local Open Scope nat_scope.

(** ** Libraries *)

(** [sha2::Digest] and [hex::encode]: feeding data in pieces is feeding it at once. *)
Class Digest := {
  DigestState : Type;
  digest_new : DigestState;
  digest_update : DigestState -> list byte -> DigestState;
  digest_finalize : DigestState -> list byte;
  digest_update_app : forall s a b, digest_update (digest_update s a) b = digest_update s (a ++ b);
  digest_update_nil : forall s, digest_update s [] = s;
  hex_encode : list byte -> str
}.

(** [BufRead::lines]: at every newline, without it and a carriage return before it.  What
    follows the last newline is a line if the end of the file was reached; when reading
    fails it is lost. *)
Definition is_byte (n : BinNums.N) (b : byte) : bool := N.eqb (Byte.to_N b) n.

Definition strip_cr (rev_line : list byte) : list byte :=
  match rev_line with b :: l => if is_byte 13 b then rev l else rev rev_line | [] => [] end.

Fixpoint split_lines (broken : bool) (acc : list byte) (l : list byte) : list (list byte) :=
  match l with
  | [] => match acc with [] => [] | _ => if broken then [] else [rev acc] end
  | b :: l =>
      if is_byte 10 b then strip_cr acc :: split_lines broken [] l
      else split_lines broken (b :: acc) l
  end.

Definition is_broken (f : File) : bool := bool_decide (is_Some (read_error f)).

(** A line that is no UTF-8 is an error. *)
Definition lines (f : File) : list (option str) :=
  map from_utf8 (split_lines (is_broken f) [] (data f)).

(** ** Hashes *)
Inductive Hasher : Set := Sha256.
Definition sum_file (h : Hasher) : str := match h with Sha256 => chars_of "sha256sums" end.

Section Hash.
Context `{Digest}.

(** [compute_hash_with]: [sizes] are the numbers of bytes the reads return, up to the size
    of the buffer; no byte is read only at the end. *)
Definition read_size (n : nat) : nat := S (Nat.min (pred n) 1023).

Fixpoint hash_chunks (fuel : nat) (sizes : nat -> nat) (i : nat) (content : list byte)
  (st : DigestState) : option DigestState :=
  match content with
  | [] => Some st
  | _ =>
      match fuel with
      | 0 => None
      | S fuel' =>
          let count := read_size (sizes i) in
          hash_chunks fuel' sizes (S i) (drop count content) (digest_update st (take count content))
      end
  end.

Definition compute_hash_with (sizes : nat -> nat) (content : list byte) : option str :=
  (fun st => hex_encode (digest_finalize st)) <$> hash_chunks (length content) sizes 0 content digest_new.

(** [Hasher::hash] on an open file. *)
Definition hash (h : Hasher) (sizes : nat -> nat) (f : File) (key : str) :
  option (str + VerifyError.t) :=
  match compute_hash_with sizes (data f) with
  | Some x =>
      Some (match read_error f with
            | None => inl x
            | Some e => inr (VerifyError.LoadError (load_error_from key e))
            end)
  | None => None
  end.

(** The reference: the hash of a content fed at once. *)
Definition hash_of (content : list byte) : str :=
  hex_encode (digest_finalize (digest_update digest_new content)).

(** ** The sums file *)
Record HashSumFileItem := mkItem { file_name : str; hashsum : str; reader : FSPluginLoader }.

(** The lines still to read; reading on after an error gives the error again. *)
Record HashSumNameLoader := mkLoader {
  hs_reader : FSPluginLoader; pending : list (option str); broken : bool
}.

(** One line of [next]. *)
Definition line_item (reader : FSPluginLoader) (line : option str) : HashSumFileItem + VerifyError.t :=
  match line with
  | Some line =>
      match rsplit_once (chars_of "  ") line with
      | Some (hashsum, file_name) => inl (mkItem file_name hashsum reader)
      | None => inr VerifyError.SumsFileCorrupt
      end
  | None => inr VerifyError.SumsFileCorrupt
  end.

Definition next (l : HashSumNameLoader) :
  option (HashSumFileItem + VerifyError.t) * HashSumNameLoader :=
  match pending l with
  | line :: rest =>
      (Some (line_item (hs_reader l) line), mkLoader (hs_reader l) rest (broken l))
  | [] => (if broken l then Some (inr VerifyError.SumsFileCorrupt) else None, l)
  end.

(** [Iterator::find] *)
Fixpoint find (fuel : nat) (p : HashSumFileItem + VerifyError.t -> bool) (l : HashSumNameLoader) :
  outcome Empty_set (option (HashSumFileItem + VerifyError.t) * HashSumNameLoader) :=
  match fuel with
  | 0 => OutOfFuel
  | S fuel' =>
      match next l with
      | (None, l') => Ok (None, l')
      | (Some item, l') => if p item then Ok (Some item, l') else find fuel' p l'
      end
  end.

Section Files.
Context {W : Type} `{Directory W}.

(** [HashSumNameLoader::sha256] *)
Definition sha256 (reader : FSPluginLoader) (w : W) : HashSumNameLoader + VerifyError.t :=
  match as_bufreader reader (sum_file Sha256) w with
  | inl f => inl (mkLoader reader (lines f) (is_broken f))
  | inr e => inr (VerifyError.LoadError e)
  end.

(** The hash of the file of a key. *)
Definition hash_file (sizes : nat -> nat) (reader : FSPluginLoader) (key : str) (w : W) :
  option (str + VerifyError.t) :=
  match as_bufreader reader key w with
  | inl f => hash Sha256 sizes f key
  | inr e => Some (inr (VerifyError.LoadError e))
  end.

Definition sumfile_hash (sizes : nat -> nat) (reader : FSPluginLoader) (w : W) :
  option (str + VerifyError.t) :=
  hash_file sizes reader (sum_file Sha256) w.

(** [HashSumFileItem::verify] *)
Definition verify (sizes : nat -> nat) (item : HashSumFileItem) (w : W) :
  option (unit + VerifyError.t) :=
  match hash_file sizes (reader item) (file_name item) w with
  | Some (inl h) =>
      Some (if decide (hashsum item = h) then inl tt
            else inr (VerifyError.HashInvalid (hashsum item) h (file_name item)))
  | Some (inr e) => Some (inr e)
  | None => None
  end.
End Files.
End Hash.

(** ** [NaslFileFinder]: the scripts among the paths below a directory *)
Definition finder_name (base : option str) (filename : str) : str :=
  match base with
  | Some base =>
      let l := trim_start_matches (length filename) base filename in
      trim_start_matches (length l) (chars_of "/") l
  | None => filename
  end.

Definition finder_item (base : option str) (r : str + str) : option (str + VerifyError.t) :=
  match r with
  | inl f =>
      if ends_with f (chars_of ".nasl") || ends_with f (chars_of ".inc")
      then Some (inl (finder_name base f)) else None
  | inr e =>
      Some (inr (VerifyError.LoadError
        (LoadError.Dirty (string_of (chars_of "Not a valid file: " ++ e)))))
  end.

Definition nasl_files (base : option str) (paths : list (str + str)) : list (str + VerifyError.t) :=
  omap (finder_item base) paths.

(** [Loader::load] of the finder. *)
Definition finder_load {W : Type} `{Directory W} (base : option str) (key : str) (w : W) :
  str + LoadError.t :=
  load_non_utf8_path (match base with Some base => join base key | None => key end) w.

(** ** Signatures

    What [sequoia_openpgp] hands to the helper: the layers of a message, in a signature group
    the creation time of each good signature (if it has one) or the text of the error. *)
Inductive MessageLayer : Type :=
| SignatureGroup (results : list (option Z + str))
| Compression
| Encryption.

(** A record of a key box: a certificate (or the error of reading it), or another record. *)
Inductive KeyboxRecord (C : Type) : Type :=
| RecordOpenPGP (cert : C + str)
| RecordOther.
Arguments RecordOpenPGP {C} cert.
Arguments RecordOther {C}.

Class OpenPgp := {
  Cert : Type;
  Builder : Type;
  Verifier : Type;
  (** [Keybox::from_reader] and its iterator *)
  keybox : list byte -> list (option (KeyboxRecord Cert)) + str;
  (** [DetachedVerifierBuilder::from_bytes] *)
  from_bytes : list byte -> option Builder;
  (** [with_policy] with what [get_certs] answers *)
  with_policy : Builder -> list Cert + str -> option Verifier;
  (** the structure [verify_bytes] hands to [check], or its own error *)
  structure : Verifier -> list byte -> list MessageLayer + str
}.

Record VHelper := mkVHelper { not_before : option Z; not_after : Z }.
Definition new_helper (now : Z) : VHelper := mkVHelper None now.

(** The lines [VHelper::check] prints, and its result. *)
Inductive Printed : Set := MalformedSignature | CreatedBefore | CreatedAfter.

Definition check_time (h : VHelper) (t : option Z) : list Printed :=
  match t, not_before h with
  | None, _ => [MalformedSignature]
  | Some t, Some nb =>
      if Z.ltb t nb then [CreatedBefore] else if Z.ltb (not_after h) t then [CreatedAfter] else []
  | Some t, None => if Z.ltb (not_after h) t then [CreatedAfter] else []
  end.

Fixpoint check_results (h : VHelper) (rs : list (option Z + str)) : list Printed * outcome str unit :=
  match rs with
  | [] => ([], Ok tt)
  | inl t :: rs => let '(p, o) := check_results h rs in (check_time h t ++ p, o)
  | inr e :: _ => ([], Err e)
  end.

Fixpoint check (h : VHelper) (layers : list MessageLayer) : list Printed * outcome str unit :=
  match layers with
  | [] => ([], Ok tt)
  | SignatureGroup rs :: layers =>
      match check_results h rs with
      | (p, Ok _) => let '(p', o) := check h layers in (p ++ p', o)
      | (p, o) => (p, o)
      end
  | Compression :: layers => check h layers
  | Encryption :: _ => ([], Panic)
  end.

Section Signature.
Context `{OpenPgp} {W : Type} `{Directory W}.

(** [collect] of the results of [cert()]: the first error. *)
Fixpoint collect_certs (rs : list (option (KeyboxRecord Cert))) : list Cert + str :=
  match rs with
  | [] => inl []
  | Some (RecordOpenPGP (inl c)) :: rs =>
      match collect_certs rs with inl cs => inl (c :: cs) | inr e => inr e end
  | Some (RecordOpenPGP (inr e)) :: _ => inr e
  | Some RecordOther :: rs | None :: rs => collect_certs rs
  end.

Definition get_certs (keyring : str) (w : W) : list Cert + str :=
  match open_file keyring w with
  | inr e => inr (IoError.debug e)
  | inl f => match keybox (data f) with inl rs => collect_certs rs | inr e => inr e end
  end.

(** [check_signature]; [gnupghome] is the environment variable, [now] the time. *)
Definition check_signature (gnupghome : option str) (now : Z) (path : str) (w : W) :
  outcome VerifyError.t unit :=
  let failed := VerifyError.BadSignature (chars_of "Signature verification failed") in
  match gnupghome with
  | None => Err VerifyError.MissingKeyring
  | Some gnupghome =>
      let keyring := gnupghome ++ chars_of "/pubring.kbx" in
      match open_file (join path (chars_of "sha256sums.asc")) w,
            open_file (join path (chars_of "sha256sums")) w with
      | inl sig_file, inl data_file =>
          match from_bytes (data sig_file) with
          | None => Err failed
          | Some v =>
              match with_policy v (get_certs keyring w) with
              | None => Err failed
              | Some verifier =>
                  match structure verifier (data data_file) with
                  | inr e => Err (VerifyError.BadSignature e)
                  | inl layers =>
                      match (check (new_helper now) layers).2 with
                      | Ok _ => Ok tt
                      | Err e => Err (VerifyError.BadSignature e)
                      | Panic => Panic
                      | OutOfFuel => OutOfFuel
                      end
                  end
              end
          end
      | _, _ => Panic
      end
  end.
End Signature.
