(* ===== verification/NotusLoaders.v ===== *)
(** * The loaders of Notus products and advisories

    [notus/loader/hashsum.rs]: products and advisories of a feed with a sums file, read only
    after their hash is checked; [notus/loader/fs.rs]: products of a plain directory.  JSON
    is a library. *)

From S2P Require Import Prelude RustStr Errors Packages Notus Crypt Files FeedVerify.
Local Open Scope nat_scope.

(** [serde_json::from_str] at the two types that are loaded. *)
Class FeedJson := {
  product_from_str : str -> Models.Product + str;
  ProductsAdvisories : Type;
  advisories_from_str : str -> ProductsAdvisories + str
}.

#[global] Instance FeedStamp_eq_dec : EqDecision FeedStamp.
Proof. solve_decision. Defined.

Definition notus_file (os : str) : str := os ++ chars_of ".notus".

(** The predicates of the two [find]s. *)
Definition has_name (name : str) (e : HashSumFileItem + VerifyError.t) : bool :=
  match e with inl item => bool_decide (file_name item = name) | inr _ => false end.

Section Loaders.
Context `{Digest} `{FeedJson} `{OpenPgp} {W : Type} `{Directory W}.

Abbreviation L A := (outcome NotusError.t A).

(** ** Loading from a sums file *)

(** [HashSumNameLoader::sha256(&self.loader).map_err(Error::HashsumLoadError)?] *)
Definition sums (root : FSPluginLoader) (w : W) : L HashSumNameLoader :=
  match sha256 root w with
  | inl l => Ok l
  | inr e => Err (NotusError.HashsumLoadError e)
  end.

(** [.find(..).ok_or_else(..)?.map_err(..)?]; [os] is the text of the error. *)
Definition find_item (fuel : nat) (name os : str) (l : HashSumNameLoader) : L HashSumFileItem :=
  match find fuel (has_name name) l with
  | Ok (Some (inl item), _) => Ok item
  | Ok (Some (inr e), _) => Err (NotusError.HashsumLoadError e)
  | Ok (None, _) => Err (NotusError.UnknownProduct os)
  | Err e => match e with end
  | Panic => Panic
  | OutOfFuel => OutOfFuel
  end.

Definition verified (sizes : nat -> nat) (item : HashSumFileItem) (w : W) : L unit :=
  match verify sizes item w with
  | Some (inl _) => Ok tt
  | Some (inr e) => Err (NotusError.HashsumLoadError e)
  | None => OutOfFuel
  end.

(** The text of the verified file; [w'] is the file system when it is loaded. *)
Definition load_item (root : FSPluginLoader) (os : str) (item : HashSumFileItem) (w' : W) : L str :=
  match load root (file_name item) w' with
  | inl file => Ok file
  | inr e => Err (NotusError.LoadProductError os (KindLoadError e))
  end.

(** [HashsumProductLoader::load_product]; the file is read twice, at [w] for its hash and
    at [w'] for its content. *)
Definition hashsum_load_product (fuel : nat) (sizes : nat -> nat) (root : FSPluginLoader) (os : str)
  (w w' : W) : L (Models.Product * FeedStamp) :=
  loader ← sums root w;
  file_item ← find_item fuel (notus_file os) os loader;
  _ ← verified sizes file_item w;
  file ← load_item root os file_item w';
  match product_from_str file with
  | inl adv => Ok (adv, Hashsum (hashsum file_item))
  | inr err => Err (NotusError.JSONParseError os err)
  end.

(** The loops over all entries; [keep] is what is pushed for an item. *)
Fixpoint names (fuel : nat) (keep : str -> option str) (l : HashSumNameLoader) : L (list str) :=
  match fuel with
  | 0 => OutOfFuel
  | S fuel' =>
      match next l with
      | (None, _) => Ok []
      | (Some (inr e), _) => Err (NotusError.HashsumLoadError e)
      | (Some (inl item), l') =>
          ret ← names fuel' keep l';
          mret (match keep (file_name item) with Some n => n :: ret | None => ret end)
      end
  end.

Definition hashsum_get_products (fuel : nat) (root : FSPluginLoader) (w : W) : L (list str) :=
  loader ← sums root w;
  names fuel (fun n => strip_suffix n (chars_of ".notus")) loader.

Definition hashsum_has_changed (fuel : nat) (root : FSPluginLoader) (os : str) (stamp : FeedStamp)
  (w : W) : outcome Empty_set bool :=
  match sha256 root w with
  | inr _ => Ok false
  | inl loader =>
      match find fuel (has_name (notus_file os)) loader with
      | Ok (Some (inl item), _) => Ok (bool_decide (stamp <> Hashsum (hashsum item)))
      | Ok _ => Ok false
      | Err e => match e with end
      | Panic => Panic
      | OutOfFuel => OutOfFuel
      end
  end.

(** [HashsumAdvisoryLoader] *)
Definition get_advisories (fuel : nat) (root : FSPluginLoader) (w : W) : L (list str) :=
  loader ← sums root w;
  names fuel Some loader.

Definition load_advisory (fuel : nat) (sizes : nat -> nat) (root : FSPluginLoader) (os : str)
  (w w' : W) : L ProductsAdvisories :=
  loader ← sums root w;
  file_item ← find_item fuel os os loader;
  _ ← verified sizes file_item w;
  file ← load_item root os file_item w';
  match advisories_from_str file with
  | inl adv => Ok adv
  | inr err => Err (NotusError.JSONParseError os err)
  end.

(** ** [FSProductLoader] *)
Definition new_fs_loader (path : str) (w : W) : str + NotusError.t :=
  if negb (path_exists path w) then inr (NotusError.MissingProductsDir path)
  else if negb (is_dir path w) then inr (NotusError.ProductsDirIsFile path)
  else inl path.

(** [String::from_utf8] of what [read_to_string] reads. *)
Definition read_to_string (f : File) : str + IoError.t :=
  match read_error f with
  | Some e => inr e
  | None =>
      match from_utf8 (data f) with
      | Some s => inl s
      | None => inr (IoError.mk IoError.Other (chars_of "stream did not contain valid UTF-8"))
      end
  end.

Definition fs_load_product (root os : str) (w : W) : Models.Product * FeedStamp + NotusError.t :=
  let path := join root (notus_file os) in
  match open_file path w with
  | inr err =>
      match IoError.kind_of err with
      | IoError.NotFound => inr (NotusError.UnknownProduct os)
      | _ => inr (NotusError.LoadProductError path (IOError (IoError.debug err)))
      end
  | inl file =>
      match read_to_string file with
      | inr err => inr (NotusError.LoadProductError path (IOError (IoError.debug err)))
      | inl buf =>
          let mod_time := default 0%Z (mtime file) in
          match product_from_str buf with
          | inl adv => inl (adv, Time mod_time)
          | inr err => inr (NotusError.JSONParseError path err)
          end
      end
  end.

(** [Path::file_name] of an entry's path, and [file_stem] of a name that has an extension. *)
Definition base_name (path : str) : str :=
  match rsplit_once (chars_of "/") path with Some (_, name) => name | None => path end.
Definition file_stem (name : str) : str :=
  match rsplit_once (chars_of ".") name with
  | Some ([], _) | None => name
  | Some (stem, _) => stem
  end.

Definition fs_get_products (root : str) (w : W) : list str + NotusError.t :=
  match read_dir root w with
  | inr err => inr (NotusError.UnreadableProductsDir root (IoError.debug err))
  | inl paths =>
      inl (omap (fun file =>
        if is_file file w && ends_with (base_name file) (chars_of ".notus")
        then Some (file_stem (base_name file)) else None) paths)
  end.

Definition fs_has_changed (root os : str) (stamp : FeedStamp) (w : W) : bool :=
  match open_file (join root (notus_file os)) w with
  | inl file =>
      match mtime file with
      | Some t => bool_decide (stamp <> Time t)
      | None => false
      end
  | inr _ => false
  end.
End Loaders.

(** ** The loaders as [ProductLoader]s

    The state of the loader is its root directory, with the file system, the environment and
    the time it sees.  The sums file can be read to its end, so that the searches return. *)
Section Instances.
Context `{Digest} `{FeedJson} `{OpenPgp} {W : Type} `{Directory W}.

Record Setting := mkSetting {
  root : FSPluginLoader; files : W; gnupghome : option str; now : Z; reads : nat -> nat
}.

Definition readable (s : Setting) : bool :=
  match sha256 (root s) (files s) with inl l => negb (broken l) | inr _ => true end.

(** Enough fuel for a search. *)
Definition search_fuel (s : Setting) : nat :=
  match sha256 (root s) (files s) with inl l => S (length (pending l)) | inr _ => 0 end.

(** A result that is known to return. *)
Definition returned {A} (o : outcome NotusError.t A) : A + NotusError.t :=
  match o with
  | Ok a => inl a
  | Err e => inr e
  | Panic | OutOfFuel => inr (NotusError.HashsumLoadError VerifyError.SumsFileCorrupt)
  end.

Definition HashsumProductLoader : Type := { s : Setting | readable s = true }.

#[global] Instance hashsum_product_loader : ProductLoader HashsumProductLoader := {|
  load_product := fun l os => let s := `l in
    returned (hashsum_load_product (search_fuel s) (reads s) (root s) os (files s) (files s));
  get_products := fun l => let s := `l in
    returned (hashsum_get_products (search_fuel s) (root s) (files s));
  has_changed := fun l os stamp => let s := `l in
    match hashsum_has_changed (search_fuel s) (root s) os stamp (files s) with
    | Ok b => b
    | _ => false
    end;
  Notus.verify_signature := fun l => let s := `l in
    check_signature (gnupghome s) (now s) (root s) (files s)
|}.

(** [FSProductLoader] *)
Record FSProductLoader := mkFSLoader { setting : Setting }.

#[global] Instance fs_product_loader : ProductLoader FSProductLoader := {|
  load_product := fun l os => fs_load_product (root (setting l)) os (files (setting l));
  get_products := fun l => fs_get_products (root (setting l)) (files (setting l));
  has_changed := fun l os stamp => fs_has_changed (root (setting l)) os stamp (files (setting l));
  Notus.verify_signature := fun l => let s := setting l in
    check_signature (gnupghome s) (now s) (root s) (files s)
|}.
End Instances.
