(* ===== verification/FeedVerifyProps.v ===== *)
(** * What a verified feed guarantees

    The hash of a file does not depend on how it is read; a file passes exactly with the hash
    of its entry; the searches of the loaders return on a sums file that can be read to its
    end, and never on one that cannot; what a loader hands out has the hash it carries; a
    signature from the future passes. *)

From S2P Require Import Prelude RustStr Errors Packages Notus NotusProps Crypt Files FeedVerify NotusLoaders.
Local Open Scope nat_scope.

Section Hash.
Context `{Digest}.

Lemma hash_chunks_all fuel sizes i content st :
  length content <= fuel ->
  hash_chunks fuel sizes i content st = Some (digest_update st content).
Proof.
  revert i content st. induction fuel as [|fuel IH]; intros i content st Hl.
  - destruct content; simpl in *; [by rewrite digest_update_nil|lia].
  - destruct content as [|b c]; [simpl; by rewrite digest_update_nil|].
    cbn -[take drop digest_update]. rewrite IH.
    + by rewrite digest_update_app, take_drop.
    + rewrite length_drop. cbn [length] in *. unfold read_size. lia.
Qed.

Lemma compute_hash_with_all sizes content : compute_hash_with sizes content = Some (hash_of content).
Proof. unfold compute_hash_with. by rewrite hash_chunks_all. Qed.

Section Files.
Context {W : Type} `{Directory W}.

Lemma hash_file_spec sizes reader key (w : W) :
  hash_file sizes reader key w =
  Some (match as_bufreader reader key w with
        | inr e => inr (VerifyError.LoadError e)
        | inl f =>
            match read_error f with
            | None => inl (hash_of (data f))
            | Some e => inr (VerifyError.LoadError (load_error_from key e))
            end
        end).
Proof.
  unfold hash_file, hash. destruct (as_bufreader reader key w); [|done].
  by rewrite compute_hash_with_all.
Qed.

(** A file passes exactly if all of it can be read and its hash is that of the entry,
    however many bytes each read returns. *)
Lemma verify_spec sizes item (w : W) :
  verify sizes item w = Some (inl tt) <->
  exists f, as_bufreader (reader item) (file_name item) w = inl f /\ read_error f = None
    /\ hash_of (data f) = hashsum item.
Proof.
  unfold verify. rewrite hash_file_spec.
  destruct (as_bufreader (reader item) (file_name item) w) as [f|e]; [|naive_solver].
  destruct (read_error f) eqn:Er; [naive_solver|].
  destruct (decide (hashsum item = hash_of (data f))) as [E|E]; [split; eauto|].
  split; [done|]. intros (f' & [= <-] & _ & E'). congruence.
Qed.

Lemma verify_returns sizes item (w : W) : is_Some (verify sizes item w).
Proof.
  unfold verify. rewrite hash_file_spec.
  destruct (as_bufreader (reader item) (file_name item) w) as [f|e]; [|eauto].
  destruct (read_error f); eauto.
Qed.
End Files.

(** ** Searching *)

Lemma find_returns p l fuel :
  broken l = false -> length (pending l) < fuel ->
  exists r, find fuel p l = Ok r.
Proof.
  destruct l as [rd ls b]. simpl. intros ->. revert fuel.
  induction ls as [|x ls IH]; intros [|fuel] Hf; simpl in *; try lia; [eauto|].
  destruct (p (line_item rd x)); [eauto|]. apply IH. lia.
Qed.

(** What is found is an entry the predicate accepts. *)
Lemma find_some fuel p l item l' :
  find fuel p l = Ok (Some item, l') ->
  p item = true /\ (item ∈ map (line_item (hs_reader l)) (pending l) \/ item = inr VerifyError.SumsFileCorrupt).
Proof.
  revert l. induction fuel as [|fuel IH]; [done|]. intros [rd ls b]. simpl.
  destruct ls as [|x ls]; simpl.
  - destruct b; [|done]. destruct (p (inr VerifyError.SumsFileCorrupt)) eqn:Ep; [intros E; simplify_eq; by eauto|].
    intros Hf. by apply IH in Hf.
  - destruct (p (line_item rd x)) eqn:Ep.
    + intros [= <- <-]. split; [done|]. left. set_solver.
    + intros [Hp Hi]%IH. simpl in Hi. split; [done|]. set_solver.
Qed.

(** On a sums file that cannot be read to its end a search goes on for ever. *)
Lemma find_name_diverges name l fuel :
  broken l = true -> Forall (fun x => has_name name (line_item (hs_reader l) x) = false) (pending l) ->
  find fuel (has_name name) l = OutOfFuel.
Proof.
  destruct l as [rd ls b]. simpl. intros -> Hn. revert fuel.
  induction Hn as [|x ls Hx Hls IH]; intros fuel.
  - induction fuel as [|fuel IH]; [done|]. exact IH.
  - destruct fuel as [|fuel]; [done|]. simpl. by rewrite Hx.
Qed.
End Hash.

Section Loading.
Context `{Digest} `{FeedJson} `{OpenPgp} {W : Type} `{Directory W}.
Implicit Types (w : W).

Lemma sums_ok root w l : sums root w = Ok l -> sha256 root w = inl l.
Proof. unfold sums. by destruct (sha256 root w) as [l'|]; intros [= ->]. Qed.

Lemma find_item_ok fuel name os l item :
  find_item fuel name os l = Ok item ->
  file_name item = name /\ inl item ∈ map (line_item (hs_reader l)) (pending l).
Proof.
  unfold find_item. destruct (find fuel (has_name name) l) as [[[[i|e]|] l']|[]| |] eqn:Ef; try done.
  intros [= <-]. apply find_some in Ef as [Hp [Hi|]]; [|done]. simpl in Hp.
  by apply bool_decide_eq_true in Hp.
Qed.

Lemma verified_ok sizes item w :
  verified sizes item w = Ok tt <-> verify sizes item w = Some (inl tt).
Proof. unfold verified. destruct (verify sizes item w) as [[[]|]|]; split; congruence. Qed.

(** The name an entry of a sums file gives to a hash. *)
Definition listed (root name h : str) w : Prop :=
  exists l line, sha256 root w = inl l /\ Some line ∈ pending l
    /\ rsplit_once (chars_of "  ") line = Some (h, name).

Lemma line_item_listed l root w item :
  sha256 root w = inl l -> inl item ∈ map (line_item (hs_reader l)) (pending l) ->
  reader item = root /\ listed root (file_name item) (hashsum item) w.
Proof.
  intros Hs (line & Hi & Hl)%list_elem_of_fmap.
  assert (hs_reader l = root) as Hr.
  { unfold sha256 in Hs. destruct (as_bufreader root _ w); [|done]. by injection Hs as <-. }
  destruct line as [line|]; [|done]. simpl in Hi.
  destruct (rsplit_once _ line) as [[h n]|] eqn:E; [|done]. injection Hi as ->.
  split; [done|]. by exists l, line.
Qed.

(** The steps both loaders share: find the entry, check the hash, read the text. *)
Lemma verified_text fuel sizes root name os l item file w w' :
  sums root w = Ok l -> find_item fuel name os l = Ok item -> verified sizes item w = Ok tt ->
  load_item root os item w' = Ok file ->
  listed root name (hashsum item) w
  /\ (exists f, as_bufreader root name w = inl f /\ read_error f = None
       /\ hash_of (data f) = hashsum item)
  /\ load root name w' = inl file.
Proof.
  intros Hs%sums_ok [Hn Hi]%find_item_ok Hv%verified_ok Hl.
  destruct (line_item_listed _ _ _ _ Hs Hi) as [Hr Hlist]. subst.
  apply verify_spec in Hv. split; [done|]. split; [done|].
  unfold load_item in Hl. destruct (load _ (file_name item) w'); congruence.
Qed.

(** Reading the file again without a change in between gives the bytes that were hashed. *)
Lemma load_same root name f file w :
  as_bufreader root name w = inl f -> read_error f = None -> load root name w = inl file ->
  file = map byte_as_char (data f).
Proof.
  unfold as_bufreader, load, load_non_utf8_path, read.
  destruct (open_file (join root name) w) as [f'|]; [|done]. intros [= ->] ->.
  by destruct (is_file _ w); intros [= <-].
Qed.

(** C36: A product that the loader hands out is listed in the sums file with the hash that
    stamps it, a file of that hash was read when it was checked, and, if the directory did
    not change in between, the product is the JSON reading of exactly those bytes, each taken
    as a character. *)
Theorem loaded_product_verified fuel sizes root os w w' p st :
  hashsum_load_product fuel sizes root os w w' = Ok (p, st) ->
  exists h f, st = Hashsum h /\ listed root (notus_file os) h w
    /\ as_bufreader root (notus_file os) w = inl f /\ hash_of (data f) = h
    /\ (w' = w -> product_from_str (map byte_as_char (data f)) = inl p).
Proof.
  unfold hashsum_load_product. intros Hp.
  destruct (sums root w) as [l| | |] eqn:Hs; try done. simpl in Hp.
  destruct (find_item _ _ os l) as [item| | |] eqn:Hf; try done. simpl in Hp.
  destruct (verified sizes item w) as [[]| | |] eqn:Hv; try done. simpl in Hp.
  destruct (load_item root os item w') as [file| | |] eqn:Hl; try done. simpl in Hp.
  destruct (product_from_str file) as [adv|] eqn:Hj; [|done]. injection Hp as <- <-.
  destruct (verified_text _ _ _ _ _ _ _ _ _ _ Hs Hf Hv Hl) as (Hlist & (f & Ho & Hr & Hh) & Hld).
  exists (hashsum item), f. do 4 (split; [done|]). intros ->.
  by rewrite <- (load_same _ _ _ _ _ Ho Hr Hld).
Qed.

(** ** Termination *)
Definition sums_readable root w : Prop := forall l, sha256 root w = inl l -> broken l = false.

Lemma find_item_returns fuel name os l :
  broken l = false -> length (pending l) < fuel -> find_item fuel name os l <> OutOfFuel
  /\ find_item fuel name os l <> Panic.
Proof.
  intros Hb Hf. unfold find_item.
  destruct (find_returns (has_name name) l fuel Hb Hf) as [[[[i|e]|] l'] ->]; done.
Qed.

Lemma verified_returns sizes item w : verified sizes item w <> OutOfFuel /\ verified sizes item w <> Panic.
Proof. unfold verified. by destruct (verify_returns sizes item w) as [[[]|] ->]. Qed.

Lemma load_item_returns root os item w : load_item root os item w <> OutOfFuel /\ load_item root os item w <> Panic.
Proof. unfold load_item. by destruct (load root _ w). Qed.

(** On a sums file that can be read to its end, a product is loaded or an error returned. *)
Lemma load_product_returns fuel sizes root os w w' :
  sums_readable root w ->
  (forall l, sha256 root w = inl l -> length (pending l) < fuel) ->
  hashsum_load_product fuel sizes root os w w' <> OutOfFuel
  /\ hashsum_load_product fuel sizes root os w w' <> Panic.
Proof.
  intros Hb Hf. unfold hashsum_load_product, sums.
  destruct (sha256 root w) as [l|e] eqn:Hs; [|done]. simpl.
  destruct (find_item_returns fuel (notus_file os) os l (Hb l Hs) (Hf l eq_refl)).
  destruct (find_item _ _ _ _) as [item| | |]; try done. simpl.
  destruct (verified_returns sizes item w).
  destruct (verified _ _ _); try done. simpl. destruct (load_item_returns root os item w').
  destruct (load_item _ _ _ _); try done. simpl. by destruct (product_from_str _).
Qed.

(** On a sums file that opens but cannot be read (for example a directory of that
    name), loading a product that no complete line names never returns, and neither does
    the question whether it has changed: the search skips the error and reads it again. *)
Theorem unreadable_sums_hang sizes root os st w w' l :
  sha256 root w = inl l -> broken l = true ->
  Forall (fun x => has_name (notus_file os) (line_item (hs_reader l) x) = false) (pending l) ->
  forall fuel, hashsum_load_product fuel sizes root os w w' = OutOfFuel
    /\ hashsum_has_changed fuel root os st w = OutOfFuel.
Proof.
  intros Hs Hb Hn fuel. unfold hashsum_load_product, hashsum_has_changed, sums, find_item.
  rewrite Hs. simpl. by rewrite find_name_diverges.
Qed.

Lemma names_returns fuel keep l :
  broken l = false -> length (pending l) < fuel -> names fuel keep l <> OutOfFuel
  /\ names fuel keep l <> Panic.
Proof.
  destruct l as [rd ls b]. simpl. intros ->. revert fuel.
  induction ls as [|x ls IH]; intros [|fuel] Hf; simpl in *; try lia; [done|].
  destruct (line_item rd x); [|done]. destruct (IH fuel ltac:(lia)).
  by destruct (names fuel keep _).
Qed.

(** The names of the products are those of the entries that end in [.notus], in the order of
    the file. *)
Lemma names_spec fuel keep l ret :
  names fuel keep l = Ok ret ->
  exists items, map (line_item (hs_reader l)) (pending l) = map inl items
    /\ ret = omap (fun i => keep (file_name i)) items.
Proof.
  revert l ret. induction fuel as [|fuel IH]; [done|]. intros [rd ls b] ret. simpl.
  destruct ls as [|x ls]; simpl.
  - destruct b; [done|]. intros [= <-]. by exists [].
  - destruct (line_item rd x) as [item|]; [|done].
    destruct (names fuel keep _) as [r| | |] eqn:En; try done. intros [= <-].
    apply IH in En as (items & E & ->). exists (item :: items). simpl in *. rewrite E. split; [done|].
    by destruct (keep (file_name item)).
Qed.

(** Listing the products of a readable feed gives the names before [.notus] of all
    entries, in their order, or reports a corrupt line; every name it gives is listed. *)
Theorem listed_products_complete fuel root w ret :
  hashsum_get_products fuel root w = Ok ret ->
  forall os, os ∈ ret <-> exists h, listed root (notus_file os) h w.
Proof.
  unfold hashsum_get_products. destruct (sums root w) as [l| | |] eqn:Hs; try done. simpl.
  apply sums_ok in Hs. intros (items & E & ->)%names_spec os. rewrite list_elem_of_omap. split.
  - intros (item & Hi & Hk). apply strip_suffix_spec in Hk.
    assert (inl item ∈ map (line_item (hs_reader l)) (pending l)) as Hin
      by (rewrite E; by apply list_elem_of_fmap_2).
    destruct (line_item_listed _ _ _ _ Hs Hin) as [_ Hl]. rewrite Hk in Hl. by eauto.
  - intros (h & l' & line & Hs' & Hp & Hr). rewrite Hs in Hs'. injection Hs' as <-.
    assert (line_item (hs_reader l) (Some line) ∈ map inl items) as Hin
      by (rewrite <- E; by apply list_elem_of_fmap_2).
    unfold line_item in Hin. rewrite Hr in Hin. apply list_elem_of_fmap in Hin as (i & [= <-] & Hi).
    eexists. split; [done|]. by apply strip_suffix_spec.
Qed.
End Loading.

(** ** Signatures *)

(** Which errors the structure of a message has. *)
Fixpoint signature_errors (layers : list MessageLayer) : bool :=
  match layers with
  | [] => false
  | SignatureGroup rs :: layers =>
      existsb (fun r => match r with inr _ => true | _ => false end) rs || signature_errors layers
  | _ :: layers => signature_errors layers
  end.

Lemma check_results_ok h rs :
  (check_results h rs).2 = Ok tt <-> existsb (fun r => match r with inr _ => true | _ => false end) rs = false.
Proof.
  induction rs as [|[t|e] rs IH]; simpl; [done| |done].
  by destruct (check_results h rs) as [p o].
Qed.

(** The verdict does not depend on the times: a signature made after [not_after], before
    [not_before] or without a time only prints a line. *)
Lemma check_ok h layers :
  Encryption ∉ layers -> (check h layers).2 = Ok tt <-> signature_errors layers = false.
Proof.
  induction layers as [|[rs| |] layers IH]; intros He; simpl; [done| | |set_solver].
  - specialize (IH ltac:(set_solver)). pose proof (check_results_ok h rs) as Hr.
    destruct (check_results h rs) as [p [[]|e| |]]; simpl in *.
    + rewrite (proj1 Hr eq_refl). simpl. by destruct (check h layers).
    + split; [done|]. by intros [E%Hr _]%orb_false_iff.
    + split; [done|]. by intros [E%Hr _]%orb_false_iff.
    + split; [done|]. by intros [E%Hr _]%orb_false_iff.
  - apply IH. set_solver.
Qed.

(** A feed whose signature has no error is accepted whenever it was made, also if that lies
    in the future. *)
Lemma signature_time_ignored `{OpenPgp} {W : Type} `{Directory W} home now now' path (w : W) :
  check_signature home now path w = check_signature home now' path w.
Proof.
  assert (forall layers, (check (new_helper now) layers).2 = (check (new_helper now') layers).2) as Hc.
  { intros layers.
    assert (forall rs, (check_results (new_helper now) rs).2 = (check_results (new_helper now') rs).2) as Hr.
    { induction rs as [|[t|e] rs IH]; simpl; [done| |done].
      by destruct (check_results (new_helper now) rs), (check_results (new_helper now') rs). }
    induction layers as [|[rs| |] layers IH]; simpl; try done. specialize (Hr rs).
    destruct (check_results (new_helper now) rs) as [p o], (check_results (new_helper now') rs) as [p' o'].
    simpl in Hr. subst o'. destruct o; simpl; try done.
    by destruct (check (new_helper now) layers), (check (new_helper now') layers). }
  unfold check_signature. destruct home; [|done].
  destruct (open_file _ w); [|done]. destruct (open_file _ w); [|done].
  destruct (from_bytes _); [|done]. destruct (with_policy _ _); [|done].
  destruct (structure _ _); [|done]. by rewrite Hc.
Qed.

(** ** A feed *)
Module VerifyExample.
(** The digest of a content is the content. *)
#[export] Instance plain_digest : Digest.
Proof.
  refine {| DigestState := list byte; digest_new := []; digest_update := app;
            digest_finalize := fun l => l; hex_encode := map byte_as_char |}.
  - intros. by rewrite app_assoc.
  - intros. apply app_nil_r.
Defined.

(** A directory given by its files. *)
#[export] Instance listed_files : Directory (list (text * File)) := {|
  open_file := fun p w =>
    match list_find (fun x => x.1 = p) w with
    | Some (_, x) => inl x.2
    | None => inr (IoError.mk IoError.NotFound [])
    end;
  is_file := fun p w => existsb (fun x => bool_decide (x.1 = p)) w;
  path_exists := fun p w => existsb (fun x => bool_decide (x.1 = p)) w;
  is_dir := fun _ _ => false;
  read_dir := fun _ w => inl (map fst w)
|}.

#[export] Instance one_json : FeedJson := {|
  product_from_str := fun s => if starts_with (chars_of "win") s then inl (Models.mkProduct s MSP []) else inr s;
  ProductsAdvisories := unit;
  advisories_from_str := fun _ => inl tt
|}.

Definition file (s : string) : File := mkFile (as_bytes (chars_of s)) None (Some 7%Z).
Definition nl : string := String (ascii_of_nat 10) "".
Definition feed : list (text * File) :=
  [(chars_of "/f/sha256sums", file (("x  a.inc" ++ nl ++ "windows  win.notus" ++ nl)%string));
   (chars_of "/f/win.notus", file "windows")].

Lemma loaded_product_verified_witness :
  exists h f, Hashsum (chars_of "windows") = Hashsum h
    /\ listed (chars_of "/f") (notus_file (chars_of "win")) h feed
    /\ as_bufreader (chars_of "/f") (notus_file (chars_of "win")) feed = inl f /\ hash_of (data f) = h
    /\ (feed = feed -> product_from_str (map byte_as_char (data f))
          = inl (Models.mkProduct (chars_of "windows") MSP [])).
Proof.
  apply (loaded_product_verified 9 (fun _ => 3) (chars_of "/f") (chars_of "win") feed feed).
  vm_compute. reflexivity.
Defined.

Lemma listed_products_complete_witness :
  forall os, os ∈ [chars_of "win"] <-> exists h, listed (chars_of "/f") (notus_file os) h feed.
Proof.
  apply (listed_products_complete 9 (chars_of "/f") feed). vm_compute. reflexivity.
Defined.

(** The sums file is a directory: it opens, and reading it fails. *)
Definition no_sums : list (text * File) :=
  [(chars_of "/f/sha256sums", mkFile [] (Some (IoError.mk IoError.Other [])) None)].

Lemma unreadable_sums_hang_witness :
  forall fuel, hashsum_load_product fuel (fun _ => 1) (chars_of "/f") (chars_of "win") no_sums no_sums = OutOfFuel
    /\ hashsum_has_changed fuel (chars_of "/f") (chars_of "win") (Time 7) no_sums = OutOfFuel.
Proof.
  apply (unreadable_sums_hang _ _ _ _ _ _ (mkLoader (chars_of "/f") [] true)); [reflexivity..|constructor].
Defined.

(** The file is changed between the check of its hash and its use: the product is not the
    one that was checked. *)
Definition changed_feed : list (text * File) := [(chars_of "/f/win.notus", file "win, changed")].

Lemma changed_after_check :
  hashsum_load_product 9 (fun _ => 3) (chars_of "/f") (chars_of "win") feed changed_feed
  = Ok (Models.mkProduct (chars_of "win, changed") MSP [], Hashsum (chars_of "windows")).
Proof. vm_compute. reflexivity. Qed.
End VerifyExample.
