(* ===== verification/FeedUpdate.v ===== *)
(** * Feed update

    [feed/update/mod.rs] runs every script of a sums file in description mode, so that the
    builtin functions store its metadata, and sets the version of the feed at the end;
    [feed/oid/mod.rs] reads the OIDs of the scripts without running them. *)

From S2P Require Import Prelude RustStr Token Statement Lexer NaslValue Errors Register Executor Interpreter Nvt Storage Scanner Notus Files FeedVerify.
Local Open Scope string_scope.

(** [update/error.rs] *)
Module UpdateErrorKind.
Inductive t : Type :=
| InterpretError (e : InterpretError)
| SyntaxError (e : SyntaxError.t)
| StorageError (e : StorageError.t)
| LoadError (e : LoadError.t)
| MissingExit (s : string)
| VerifyError (e : VerifyError.t).
End UpdateErrorKind.

Record UpdateError := mkUpdateError { err_key : string; err_kind : UpdateErrorKind.t }.

(** [From<verify::Error> for Error] *)
Definition update_error_from (value : VerifyError.t) : UpdateError :=
  let key := match value with
    | VerifyError.SumsFileCorrupt => string_of (sum_file Sha256)
    | VerifyError.LoadError _ => ""
    | VerifyError.HashInvalid _ _ key => string_of key
    | VerifyError.BadSignature e => string_of e
    | VerifyError.MissingKeyring => ""
    end in
  mkUpdateError key (UpdateErrorKind.VerifyError value).

(** ** What an update runs on: the loader, the executor and the storage of [ScannerStack],
    the dispatcher that stores, and the directory the hashes are computed from *)
Class UpdateStack := {
  up_stack :: ScannerStack;
  up_directory :: Directory StWorld;
  up_digest :: Digest;
  up_reads : nat -> nat;
  up_dispatch : ContextKey -> Field -> StWorld -> outcome StorageError.t unit * StWorld;
  up_on_exit : ContextKey -> StWorld -> outcome StorageError.t unit * StWorld
}.

(** Code that changes the world. *)
Section Update.
Context `{UpdateStack}.
Abbreviation U := (M StWorld UpdateErrorKind.t).

(** [loader.load(key)?] *)
Definition load_code (key : string) : U string := fun w =>
  match st_load key w with
  | (inl code, w') => (Ok code, w')
  | (inr e, w') => (Err (UpdateErrorKind.LoadError e), w')
  end.

Definition storage_op (f : StWorld -> outcome StorageError.t unit * StWorld) : U unit := fun w =>
  match f w with
  | (Ok _, w') => (Ok tt, w')
  | (Err e, w') => (Err (UpdateErrorKind.StorageError e), w')
  | (Panic, w') => (Panic, w')
  | (OutOfFuel, w') => (OutOfFuel, w')
  end.

(** ** The version of the feed *)
Definition feed_info_key : string := "plugin_feed_info.inc".

(** The loop over the statements of the file; [stmts] are the items of [parse]. *)
Fixpoint info_statements (fuel : nat) (stmts : list (Statement + SyntaxError.t)) :
  M (@Interpreter (context_of default_key)) UpdateErrorKind.t unit :=
  match stmts with
  | [] => mret tt
  | inr e :: _ => throw (UpdateErrorKind.SyntaxError e)
  | inl stmt :: stmts' =>
      _ ← err_into UpdateErrorKind.InterpretError (@retry_resolve_next (context_of default_key) fuel stmt 3);
      info_statements fuel stmts'
  end.

(** The variable the file sets, after running it in an interpreter of its own. *)
Definition plugin_set (fuel : nat) (stmts : list (Statement + SyntaxError.t)) :
  U (option ContextType) := fun w =>
  let '(o, i) := (_ ← info_statements fuel stmts;
    err_into UpdateErrorKind.InterpretError (@named (context_of default_key) "PLUGIN_SET"))
    (@new_interpreter (context_of default_key) Register.new w) in
  (o, @world (context_of default_key) i).

Definition feed_version (fuel : nat) : U string :=
  code ← load_code feed_info_key;
  stmts ← of_total (Lexer.parse code);
  v ← plugin_set fuel stmts;
  mret (default "0" (context_display <$> v)).

Definition feed_is_outdated (fuel : nat) (current_version : string) : U bool :=
  v ← feed_version fuel;
  mret (if decide (current_version = "") then true else bool_decide (v <> current_version)).

Definition dispatch_feed_info (fuel max_retry : nat) : U string :=
  v ← feed_version fuel;
  _ ← storage_op (retry_dispatch (up_dispatch default_key (NVT (Version v))) max_retry);
  mret feed_info_key.

(** ** One script in description mode *)
Definition initial (openvas_version : string) : list (string * ContextType) :=
  [("description", Value (NaslValue.Boolean true));
   ("OPENVAS_VERSION", Value (NaslValue.String openvas_version))].

(** [while let Some(stmt) = results.next().await]; [n] bounds the number of items. *)
Fixpoint description_items (key : ContextKey) (fuel n : nat) :
  M (@CodeInterpreter (context_of key)) Empty_set (option (NaslValue.t + InterpretError)) :=
  match n with
  | 0%nat => out_of_fuel
  | S n' =>
      o ← @next_item (context_of key) fuel;
      match o with
      | None => mret None
      | Some (inl (NaslValue.Exit i)) => mret (Some (inl (NaslValue.Exit i)))
      | Some (inr e) => mret (Some (inr e))
      | Some (inl _) => description_items key fuel n'
      end
  end.

Definition run_description (openvas_version : string) (fuel : nat) (key : ContextKey) (code : string) :
  U (option (NaslValue.t + InterpretError)) := fun w =>
  let '(o, c) := description_items key fuel fuel
    (@new_code (context_of key) code (Register.root_initial (initial openvas_version)) w) in
  (match o with Ok r => Ok r | Err e => match e with end | Panic => Panic | OutOfFuel => OutOfFuel end,
   @world (context_of key) (@interpreter (context_of key) c)).

Definition single (openvas_version : string) (fuel : nat) (key : ContextKey) : U Z :=
  code ← load_code (key_ref key);
  r ← run_description openvas_version fuel key code;
  match r with
  | Some (inl (NaslValue.Exit i)) => _ ← storage_op (up_on_exit key); mret i
  | Some (inr e) => throw (UpdateErrorKind.InterpretError e)
  | _ => throw (UpdateErrorKind.MissingExit (key_ref key))
  end.

(** ** The stream of an update *)
Record UpdateState := mkUpdate {
  verifier : HashSumNameLoader; feed_version_set : bool; up_world : StWorld
}.
Abbreviation US := (M UpdateState Empty_set).

(** [init] *)
Definition init (verifier : HashSumNameLoader) (w : StWorld) : UpdateState := mkUpdate verifier false w.

(** The predicate of [find]: errors are kept. *)
Definition is_script (e : HashSumFileItem + VerifyError.t) : bool :=
  match e with inl item => ends_with (file_name item) (chars_of ".nasl") | inr _ => true end.

(** Run [m] on the world and make its [Result] an item, an error under the key [k]. *)
Definition item_of {A} (k : string) (m : U A) (f : A -> string) : US (string + UpdateError) := fun s =>
  let '(o, w) := m (up_world s) in
  let s' := mkUpdate (verifier s) (feed_version_set s) w in
  match o with
  | Ok a => (Ok (inl (f a)), s')
  | Err kind => (Ok (inr (mkUpdateError k kind)), s')
  | Panic => (Panic, s')
  | OutOfFuel => (OutOfFuel, s')
  end.

(** The name without a leading [./] *)
Definition script_name (file_name : text) : string :=
  string_of (if starts_with (chars_of "./") file_name then drop 2 file_name else file_name).

Definition next_update (openvas_version : string) (max_retry fuel : nat) : US (option (string + UpdateError)) :=
  s ← get;
  r ← of_total (find (S (length (pending (verifier s)))) is_script (verifier s));
  let '(found, v) := r in
  _ ← put (mkUpdate v (feed_version_set s) (up_world s));
  match found with
  | Some (inl k) =>
      match verify up_reads k (up_world s) with
      | Some (inl _) =>
          let key := KeyFileName (script_name (file_name k)) in
          x ← item_of (key_ref key) (single openvas_version fuel key) (fun _ => key_ref key);
          mret (Some x)
      | Some (inr e) => mret (Some (inr (update_error_from e)))
      | None => out_of_fuel
      end
  | Some (inr e) => mret (Some (inr (update_error_from e)))
  | None =>
      if feed_version_set s then mret None
      else
        x ← item_of feed_info_key (dispatch_feed_info fuel max_retry) (fun k => k);
        _ ← modify (fun s => mkUpdate (verifier s) true (up_world s));
        mret (Some x)
  end.

(** [stream], collected; [n] bounds the number of items. *)
Fixpoint update_items (openvas_version : string) (max_retry fuel n : nat) :
  US (list (string + UpdateError)) :=
  match n with
  | 0%nat => out_of_fuel
  | S n' =>
      o ← next_update openvas_version max_retry fuel;
      match o with
      | None => mret []
      | Some r => rs ← update_items openvas_version max_retry fuel n'; mret (r :: rs)
      end
  end.

(** [perform_update]: all items, then the first error. *)
Fixpoint first_error (items : list (string + UpdateError)) : unit + UpdateError :=
  match items with
  | [] => inl tt
  | inl _ :: items => first_error items
  | inr e :: _ => inr e
  end.

Definition perform_update (openvas_version : string) (max_retry fuel n : nat) : US (unit + UpdateError) :=
  items ← update_items openvas_version max_retry fuel n;
  mret (first_error items).
End Update.

(** ** The OIDs of a feed *)
Section Oid.
Context `{UpdateStack} (token_debug : Token -> string).

Definition script_oid (stmt : Statement) : option string :=
  match Statement.kind stmt with
  | Statement.Call param =>
      match Token.category (Statement.start stmt) with
      | Category.Identifier (IdentifierType.Undefined s) =>
          if decide (s = "script_oid") then
            Statement.to_string token_debug <$> head (Statement.children param)
          else None
      | _ => None
      end
  | _ => None
  end.

(** The first OID of a block. *)
Definition block_oid (stmt : Statement) : option string :=
  match Statement.kind stmt with
  | Statement.If _ stmts _ _ =>
      match Statement.kind stmts with
      | Statement.Block x => head (omap script_oid x)
      | _ => None
      end
  | _ => None
  end.

Fixpoint find_oid (key : string) (stmts : list (Statement + SyntaxError.t)) : string + UpdateErrorKind.t :=
  match stmts with
  | [] => inr (UpdateErrorKind.MissingExit key)
  | inr e :: _ => inr (UpdateErrorKind.SyntaxError e)
  | inl stmt :: stmts' =>
      match block_oid stmt with Some oid => inl oid | None => find_oid key stmts' end
  end.

Definition oid_single (key : string) : M StWorld UpdateErrorKind.t string :=
  code ← load_code key;
  stmts ← of_total (Lexer.parse code);
  of_result (find_oid key stmts).

(** [Oid::next] *)
Record OidState := mkOid { oid_verifier : HashSumNameLoader; oid_world : StWorld }.

Definition oid_item (name : string) : M OidState Empty_set (string * string + UpdateError) := fun s =>
  let '(o, w) := oid_single name (oid_world s) in
  let s' := mkOid (oid_verifier s) w in
  match o with
  | Ok x => (Ok (inl (name, x)), s')
  | Err e => (Ok (inr (mkUpdateError name e)), s')
  | Panic => (Panic, s')
  | OutOfFuel => (OutOfFuel, s')
  end.

Definition next_oid : M OidState Empty_set (option (string * string + UpdateError)) :=
  s ← get;
  r ← of_total (find (S (length (pending (oid_verifier s)))) is_script (oid_verifier s));
  let '(found, v) := r in
  _ ← put (mkOid v (oid_world s));
  match found with
  | Some (inl k) =>
      match verify up_reads k (oid_world s) with
      | Some (inl _) =>
          x ← oid_item (string_of (file_name k));
          mret (Some x)
      | Some (inr e) => mret (Some (inr (update_error_from e)))
      | None => out_of_fuel
      end
  | Some (inr e) => mret (Some (inr (update_error_from e)))
  | None => mret None
  end.
End Oid.
