(* ===== verification/FeedUpdateProps.v ===== *)
(** * Properties of a feed update

    The stream of an update is the run of the listed scripts in their order, followed by the
    version of the feed; only a script with the listed hash is run; an update whose sums file
    cannot be read never ends. *)

From S2P Require Import Prelude RustStr Token Statement Lexer NaslValue Errors Register Executor Interpreter Nvt Storage Scheduling PlanTheorems Scanner Notus Crypt Files FeedVerify FeedVerifyProps FeedUpdate.
Local Open Scope string_scope.

Section Update.
Context `{UpdateStack} (ver : string) (max_retry fuel : nat).
Abbreviation WM := (M StWorld Empty_set).

(** ** The reference: a list of entries is worked off one by one *)

Definition as_item {A} (k : string) (m : M StWorld UpdateErrorKind.t A) (f : A -> string) :
  WM (string + UpdateError) := fun w =>
  let '(o, w') := m w in
  match o with
  | Ok a => (Ok (inl (f a)), w')
  | Err kind => (Ok (inr (mkUpdateError k kind)), w')
  | Panic => (Panic, w')
  | OutOfFuel => (OutOfFuel, w')
  end.

Definition run_script_of (k : HashSumFileItem) : WM (string + UpdateError) :=
  let key := KeyFileName (script_name (file_name k)) in
  as_item (key_ref key) (single ver fuel key) (fun _ => key_ref key).

Definition entry_item (e : HashSumFileItem + VerifyError.t) : WM (string + UpdateError) := fun w =>
  match e with
  | inr e => (Ok (inr (update_error_from e)), w)
  | inl k =>
      match verify up_reads k w with
      | Some (inl _) => run_script_of k w
      | Some (inr e) => (Ok (inr (update_error_from e)), w)
      | None => (OutOfFuel, w)
      end
  end.

Definition info_item : WM (string + UpdateError) :=
  as_item feed_info_key (dispatch_feed_info fuel max_retry) (fun k => k).

Fixpoint work_off (l : list (HashSumFileItem + VerifyError.t)) : WM (list (string + UpdateError)) :=
  match l with
  | [] => x ← info_item; mret [x]
  | e :: l' => x ← entry_item e; xs ← work_off l'; mret (x :: xs)
  end.

(** The scripts among the entries, and the lines that are no entry. *)
Definition scripts (l : HashSumNameLoader) : list (HashSumFileItem + VerifyError.t) :=
  List.filter is_script (map (line_item (hs_reader l)) (pending l)).

(** Running on the world of an update. *)
Definition lift {A} (m : WM A) (v : HashSumNameLoader) (set : bool) (w : StWorld) :
  outcome Empty_set A * UpdateState :=
  let '(o, w') := m w in (o, mkUpdate v set w').

(** ** One step *)
Lemma find_step rd x ls b n :
  find (S n) is_script (mkLoader rd (x :: ls) b)
  = if is_script (line_item rd x) then Ok (Some (line_item rd x), mkLoader rd ls b)
    else find n is_script (mkLoader rd ls b).
Proof. done. Qed.

(** A search for the next script always returns: errors end it. *)
Lemma find_script_returns rd ls b :
  exists r, find (S (length ls)) is_script (mkLoader rd ls b) = Ok r.
Proof.
  induction ls as [|x ls [r IH]]; [destruct b; by eexists|].
  rewrite find_step. destruct (is_script _); [by eexists|]. by exists r.
Qed.

Lemma next_skips rd x ls b set w :
  is_script (line_item rd x) = false ->
  next_update ver max_retry fuel (mkUpdate (mkLoader rd (x :: ls) b) set w)
  = next_update ver max_retry fuel (mkUpdate (mkLoader rd ls b) set w).
Proof.
  intros Hx. unfold next_update, mbind, M_bind, get. cbn [verifier pending length].
  rewrite find_step, Hx. by destruct (find_script_returns rd ls b) as [[found v] ->].
Qed.

Lemma next_entry rd x ls b set w :
  is_script (line_item rd x) = true ->
  next_update ver max_retry fuel (mkUpdate (mkLoader rd (x :: ls) b) set w)
  = lift (x ← entry_item (line_item rd x); mret (Some x)) (mkLoader rd ls b) set w.
Proof.
  intros Hx. unfold next_update, lift, mbind, M_bind, get. cbn [verifier pending length].
  rewrite find_step, Hx. cbn -[verify single].
  unfold entry_item, run_script_of, as_item. destruct (line_item rd x) as [k|e]; [|done].
  destruct (verify up_reads k w) as [[[]|e]|]; [|done..].
  unfold item_of. cbn -[single]. by destruct (single ver fuel _ w) as [[] w'].
Qed.

Lemma next_info rd w :
  next_update ver max_retry fuel (mkUpdate (mkLoader rd [] false) false w)
  = let '(o, w') := info_item w in
    match o with
    | Ok x => (Ok (Some x), mkUpdate (mkLoader rd [] false) true w')
    | Err e => match e with end
    | Panic => (Panic, mkUpdate (mkLoader rd [] false) false w')
    | OutOfFuel => (OutOfFuel, mkUpdate (mkLoader rd [] false) false w')
    end.
Proof.
  unfold next_update, info_item, as_item, item_of, mbind, M_bind. cbn -[dispatch_feed_info].
  by destruct (dispatch_feed_info fuel max_retry w) as [[] w'].
Qed.

Lemma next_done rd w :
  next_update ver max_retry fuel (mkUpdate (mkLoader rd [] false) true w)
  = (Ok None, mkUpdate (mkLoader rd [] false) true w).
Proof. done. Qed.

Lemma next_broken rd set w :
  next_update ver max_retry fuel (mkUpdate (mkLoader rd [] true) set w)
  = (Ok (Some (inr (update_error_from VerifyError.SumsFileCorrupt))), mkUpdate (mkLoader rd [] true) set w).
Proof. done. Qed.

(** ** The stream *)
Lemma items_spec rd ls n w :
  (length (List.filter is_script (map (line_item rd) ls)) + 2 <= n)%nat ->
  let '(o, s) := update_items ver max_retry fuel n (mkUpdate (mkLoader rd ls false) false w) in
  let '(o', w') := work_off (List.filter is_script (map (line_item rd) ls)) w in
  o = o' /\ up_world s = w'.
Proof.
  revert n w. induction ls as [|x ls IH]; intros n w Hn; simpl in Hn.
  - destruct n as [|[|n]]; [lia..|]. cbn -[next_update]. unfold mbind at 1, M_bind at 1.
    rewrite next_info. unfold mbind, M_bind.
    destruct (info_item w) as [[y|[]| |] w'] eqn:Ei; [|done..].
    by rewrite next_done.
  - cbn [map List.filter]. destruct (is_script (line_item rd x)) eqn:Hx; cbn [length] in Hn.
    + destruct n as [|n]; [lia|]. cbn -[next_update entry_item]. unfold mbind at 1, M_bind at 1.
      rewrite next_entry by done. unfold lift, mbind, M_bind.
      destruct (entry_item (line_item rd x) w) as [[y|[]| |] w']; [|done..].
      cbn. specialize (IH n w' ltac:(lia)).
      destruct (update_items ver max_retry fuel n _) as [o s]. destruct (work_off _ w') as [o' w''].
      destruct IH as [-> <-]. by destruct o'.
    + destruct n as [|n]; [lia|]. cbn -[next_update entry_item]. unfold mbind at 1, M_bind at 1.
      rewrite next_skips by done. specialize (IH (S n) w Hn). cbn -[next_update entry_item] in IH.
      exact IH.
Qed.

(** C22: The items of an update of a feed whose sums file can be read are the results of
    its scripts and corrupt lines in the order of the file, each script checked in the state
    the earlier ones left, and at last that of the version; other files are skipped, and the
    stream ends after these items. *)
Theorem update_stream_reference v n w :
  broken v = false -> (length (scripts v) + 2 <= n)%nat ->
  let '(o, s) := update_items ver max_retry fuel n (init v w) in
  let '(o', w') := work_off (scripts v) w in
  o = o' /\ up_world s = w'.
Proof. destruct v as [rd ls b]. simpl. intros ->. apply items_spec. Qed.

(** When the sums file cannot be read to its end, an update whose scripts all return
    never ends: the error is repeated for ever, and the version is never set. *)
Theorem update_never_ends v n w :
  broken v = true -> (forall e w, exists x w', entry_item e w = (Ok x, w')) ->
  (update_items ver max_retry fuel n (init v w)).1 = OutOfFuel.
Proof.
  destruct v as [rd ls b]. simpl. intros -> He. unfold init. revert n w.
  assert (forall n w, (update_items ver max_retry fuel n (mkUpdate (mkLoader rd [] true) false w)).1 = OutOfFuel) as Hnil.
  { induction n as [|n IH]; intros w; [done|]. cbn -[next_update]. unfold mbind at 1, M_bind at 1.
    rewrite next_broken. unfold mbind, M_bind. specialize (IH w).
    by destruct (update_items _ _ _ _ _) as [[] s]. }
  induction ls as [|x ls IH]; intros n w; [apply Hnil|]. destruct n as [|n]; [done|].
  cbn -[next_update]. unfold mbind at 1, M_bind at 1.
  destruct (is_script (line_item rd x)) eqn:Hx.
  - rewrite next_entry by done. unfold lift, mbind, M_bind.
    destruct (He (line_item rd x) w) as (y & w' & ->). cbn. specialize (IH n w').
    by destruct (update_items _ _ _ _ _) as [[] s].
  - rewrite next_skips by done. exact (IH (S n) w).
Qed.

(** ** What a script has to be to run *)

Lemma skips_to_script rd skipped ls b set w :
  Forall (fun l => is_script (line_item rd l) = false) skipped ->
  next_update ver max_retry fuel (mkUpdate (mkLoader rd (skipped ++ ls)%list b) set w)
  = next_update ver max_retry fuel (mkUpdate (mkLoader rd ls b) set w).
Proof. induction 1 as [|l skipped Hl _ IH]; [done|]. simpl app. by rewrite next_skips. Qed.

(** The error of a check that fails, and what it says when the file can be read. *)
Lemma verify_refuses k w :
  (~ exists f, as_bufreader (reader k) (file_name k) w = inl f /\ read_error f = None
       /\ hash_of (data f) = hashsum k) ->
  exists e, verify up_reads k w = Some (inr e)
    /\ (forall f, as_bufreader (reader k) (file_name k) w = inl f -> read_error f = None ->
          e = VerifyError.HashInvalid (hashsum k) (hash_of (data f)) (file_name k)).
Proof.
  intros Hn. destruct (verify_returns up_reads k w) as [[[]|e] E].
  - destruct Hn. by apply (verify_spec up_reads).
  - exists e. split; [done|]. intros f Hf Hr. unfold verify in E.
    rewrite hash_file_spec, Hf, Hr in E. by destruct (decide _); simplify_eq.
Qed.

(** C31: A step of an update whose next script [k] in the sums file (behind entries of other
    files) does not have the listed hash, or cannot be read, yields the error of the check as
    its item: the script is not run, neither the storage nor anything else changes, and the
    update goes on behind the entry. When the file can be read the error names both hashes. *)
Theorem unverified_script_not_run rd skipped x ls b set w k :
  Forall (fun l => is_script (line_item rd l) = false) skipped ->
  line_item rd x = inl k -> is_script (inl k) = true ->
  (~ exists f, as_bufreader (reader k) (file_name k) w = inl f /\ read_error f = None
       /\ hash_of (data f) = hashsum k) ->
  exists e, next_update ver max_retry fuel (mkUpdate (mkLoader rd (skipped ++ x :: ls)%list b) set w)
      = (Ok (Some (inr (update_error_from e))), mkUpdate (mkLoader rd ls b) set w)
    /\ (forall f, as_bufreader (reader k) (file_name k) w = inl f -> read_error f = None ->
          e = VerifyError.HashInvalid (hashsum k) (hash_of (data f)) (file_name k)).
Proof.
  intros Hs Hx Hk Hn. destruct (verify_refuses k w Hn) as (e & He & Hf). exists e. split; [|done].
  rewrite skips_to_script, next_entry, Hx by (by rewrite ?Hx).
  unfold lift, mbind, M_bind, entry_item. by rewrite He.
Qed.

(** The items of the work done, and the first error among them. *)
Lemma work_off_last l w items w' :
  work_off l w = (Ok items, w') ->
  exists xs w1 x, items = (xs ++ [x])%list /\ length xs = length l /\ info_item w1 = (Ok x, w').
Proof.
  revert w items. induction l as [|e l IH]; intros w items; simpl; unfold mbind, M_bind.
  - destruct (info_item w) as [[x|[]| |] w1] eqn:E; try done. intros [= <- <-].
    by exists [], w, x.
  - destruct (entry_item e w) as [[x|[]| |] w1] eqn:E; try done.
    destruct (work_off l w1) as [[ys|[]| |] w2] eqn:El; try done. intros [= <- <-].
    apply IH in El as (xs & w3 & y & -> & Hl & Hi). exists (x :: xs), w3, y. simpl. by rewrite Hl.
Qed.

(** Whatever the scripts report, an update that ends has stored the version of the feed
    as its last step (or reports why it could not), and then returns the first error: a feed
    with failed scripts is marked as the new version. *)
Theorem failed_update_sets_version v n w r s :
  broken v = false -> (length (scripts v) + 2 <= n)%nat ->
  perform_update ver max_retry fuel n (init v w) = (Ok r, s) ->
  exists xs w1 x, info_item w1 = (Ok x, up_world s) /\ r = first_error (xs ++ [x])%list
    /\ length xs = length (scripts v).
Proof.
  intros Hb Hn. pose proof (items_spec (hs_reader v) (pending v) n w Hn) as Hs.
  destruct v as [rd ls b]. simpl in *. subst b. unfold perform_update, init, mbind, M_bind.
  destruct (update_items _ _ _ _ _) as [[items|[]| |] s'] eqn:E; try done. intros [= <- <-].
  destruct (work_off _ w) as [o' w'] eqn:Ew. destruct Hs as [<- <-].
  apply work_off_last in Ew as (xs & w1 & x & -> & Hl & Hi). by exists xs, w1, x.
Qed.
End Update.

(** ** An update of three files *)
Module UpdateExample.
Import VerifyExample.

Definition WorldType : Type := DefaultDispatcher * list (text * File).

#[export] Instance update_stack : ScannerStack := {|
  st_profile := debug_build; st_order := plain_order; st_little_endian := true;
  StWorld := WorldType;
  st_load := fun k w => (match Files.load (chars_of "/f") (chars_of k) w.2 with inl c => inl (string_of c) | inr e => inr e end, w);
  st_executor := fun _ => Executor.default_; st_regex := fun _ => None;
  Store := DefaultDispatcher; storage := fst;
  st_retriever := @dispatcher_retriever plain_order plain_advisories
|}.

#[export] Instance world_files : Directory WorldType := {|
  open_file := fun p w => open_file p w.2;
  is_file := fun p w => is_file p w.2;
  path_exists := fun p w => path_exists p w.2;
  is_dir := fun p w => is_dir p w.2;
  read_dir := fun p w => read_dir p w.2
|}.

#[export] Instance small_update : UpdateStack := {|
  up_stack := update_stack; up_directory := world_files; up_digest := plain_digest;
  up_reads := fun _ => 5%nat;
  up_dispatch := fun key scope w => (Ok tt, (dispatch w.1 key scope, w.2));
  up_on_exit := fun _ w => (Ok tt, w)
|}.

(** One script as listed, one that was changed, a library that was changed. *)
Definition script_text : string := "if(description){exit(0);}".
Definition three_files : list (text * File) :=
  [(chars_of "/f/a.nasl", file script_text); (chars_of "/f/b.nasl", file "exit(1);");
   (chars_of "/f/c.inc", file "changed");
   (chars_of "/f/plugin_feed_info.inc", file "PLUGIN_SET = 202401;")].

Definition sums_of (lines : list string) (bad : bool) : HashSumNameLoader :=
  mkLoader (chars_of "/f") (map (fun l => Some (chars_of l)) lines) bad.

Definition three_sums : HashSumNameLoader :=
  sums_of ["c  c.inc"; script_text ++ "  ./a.nasl"; "exit(0);  b.nasl"] false.

Definition start : StWorld := (new_dispatcher, (chars_of "/f/./a.nasl", file script_text) :: three_files).

Definition b_error : UpdateError := update_error_from
  (VerifyError.HashInvalid (chars_of "exit(0);") (chars_of "exit(1);") (chars_of "b.nasl")).

(** The changed script is reported and not run, the changed library is not noticed, and the
    version is set. *)
Lemma update_stream_reference_witness :
  (update_items "23" 3 60 4 (init three_sums start)).1
    = Ok [inl "a.nasl"; inr b_error; inl "plugin_feed_info.inc"]
  /\ Storage.feed_version (up_world (update_items "23" 3 60 4 (init three_sums start)).2).1 = "202401".
Proof.
  pose proof (update_stream_reference "23" 3 60 three_sums 4 start eq_refl) as Hu.
  assert (length (scripts three_sums) + 2 <= 4)%nat as Hl by (vm_compute; repeat constructor).
  specialize (Hu Hl).
  assert (exists w', work_off "23" 3 60 (scripts three_sums) start
    = (Ok [inl "a.nasl"; inr b_error; inl "plugin_feed_info.inc"], w')
    /\ Storage.feed_version w'.1 = "202401") as (w' & Hw & Hv)
    by (eexists; split; vm_compute; reflexivity).
  rewrite Hw in Hu. destruct (update_items _ _ _ _ _) as [o s]. destruct Hu as [-> <-]. by split.
Defined.

Lemma failed_update_sets_version_witness :
  exists (xs : list (string + UpdateError)) w1 x,
    info_item 3 60 w1 = (Ok x, up_world (perform_update "23" 3 60 4 (init three_sums start)).2)
    /\ inr b_error = first_error (xs ++ [x])%list /\ length xs = 2%nat.
Proof.
  apply (failed_update_sets_version (H := small_update) "23" 3 60 three_sums 4 start (inr b_error));
    [reflexivity|vm_compute; repeat constructor|].
  assert ((perform_update "23" 3 60 4 (init three_sums start)).1 = Ok (inr b_error)) as E
    by (vm_compute; reflexivity).
  rewrite <- E. apply surjective_pairing.
Defined.

(** The listed library and the first script are behind; the changed script is next. *)
Lemma unverified_script_not_run_witness :
  exists e, next_update "23" 3 60 (mkUpdate (sums_of ["c  c.inc"; "exit(0);  b.nasl"] false) false start)
    = (Ok (Some (inr (update_error_from e))), mkUpdate (sums_of [] false) false start)
    /\ e = VerifyError.HashInvalid (chars_of "exit(0);") (chars_of "exit(1);") (chars_of "b.nasl").
Proof.
  edestruct (unverified_script_not_run (H := small_update) "23" 3 60 (chars_of "/f")
    [Some (chars_of "c  c.inc")] (Some (chars_of "exit(0);  b.nasl")) [] false false start
    (mkItem (chars_of "b.nasl") (chars_of "exit(0);") (chars_of "/f"))) as (e & He & Hf);
    [by repeat constructor|reflexivity|reflexivity| |exists e; split; [exact He|]].
  - intros (f & Hf & _ & Hh). vm_compute in Hf. injection Hf as <-. vm_compute in Hh. discriminate.
  - by apply (Hf (file "exit(1);")).
Defined.

(** The loader finds nothing, so that every script returns. *)
Definition lost : UpdateStack := {|
  up_stack := {|
    st_profile := debug_build; st_order := plain_order; st_little_endian := true;
    StWorld := WorldType;
    st_load := fun k w => (inr (LoadError.NotFound k), w);
    st_executor := fun _ => Executor.default_; st_regex := fun _ => None;
    Store := DefaultDispatcher; storage := fst;
    st_retriever := @dispatcher_retriever plain_order plain_advisories
  |};
  up_directory := world_files; up_digest := plain_digest;
  up_reads := fun _ => 5%nat;
  up_dispatch := fun key scope w => (Ok tt, (dispatch w.1 key scope, w.2));
  up_on_exit := fun _ w => (Ok tt, w)
|}.

Lemma update_never_ends_witness :
  (update_items (H := lost) "23" 3 60 7 (init (H := lost) (sums_of ["x  a.nasl"] true) start)).1 = OutOfFuel.
Proof.
  apply (update_never_ends (H := lost) "23" 3 60); [reflexivity|].
  intros [k|e] w; unfold entry_item; [|by eauto].
  destruct (verify_returns (H := plain_digest) (H0 := world_files) (fun _ => 5%nat) k w) as [r Hr].
  change (verify up_reads k w) with (verify (H := plain_digest) (H0 := world_files) (fun _ => 5%nat) k w).
  rewrite Hr. destruct r as [[]|e]; eauto.
Defined.
End UpdateExample.
