(* ===== verification/Transpile.v ===== *)
(** * Rewriting of scripts

    [feed/transpile/mod.rs] and [error.rs]: commands that find calls and declarations of
    functions in a script and rename, remove or change them in the text, and the replacer
    that applies them to all scripts of a feed. *)

From S2P Require Import Prelude RustStr Token Statement Lexer Errors Files Notus FeedVerify.
Local Open Scope string_scope.

(** ** Commands *)
Module FindParameter.
Inductive t : Set := Name (name : string) | NameValue (name value : string) | Index (i : nat).
End FindParameter.

Module Find.
Inductive t : Set :=
| FunctionByName (name : string)
| FunctionByParameter (params : list FindParameter.t)
| FunctionByNameAndParameter (name : string) (params : list FindParameter.t).
End Find.

Module Param.
Inductive t : Set := Named (k v : string) | Anon (v : string).
Definition to_string (p : t) : string :=
  match p with
  | Named k v => "NamedParameter(" ++ k ++ ", " ++ v ++ ")"
  | Anon v => "Parameter(" ++ v ++ ")"
  end.
End Param.

Module ParameterOperation.
Inductive t : Set :=
| Push (p : Param.t)
| Add (i : nat) (p : Param.t)
| RemoveNamed (name : string)
| Remove (i : nat)
| RemoveAll
| Rename (previous new : string).
Definition to_string (o : t) : string :=
  match o with
  | Push p => "Push " ++ Param.to_string p
  | Add i p => "Add " ++ Param.to_string p ++ " to index " ++ pretty i
  | RemoveNamed s => "Remove " ++ s
  | Remove i => "Remove " ++ pretty i
  | Rename previous new => "Rename " ++ previous ++ " to " ++ new
  | RemoveAll => "Remove all parameter."
  end.
End ParameterOperation.

Module Replace.
Inductive t : Set := Name (name : string) | Remove | Parameter_ (o : ParameterOperation.t).
Definition to_string (r : t) : string :=
  match r with
  | Name name => "Replace: " ++ name
  | Parameter_ p => "Replace parameter: " ++ ParameterOperation.to_string p
  | Remove => "Remove found statement"
  end.
End Replace.

Record ReplaceCommand := mkReplaceCommand { rc_find : Find.t; rc_with : Replace.t }.

Module ReplaceError.
Inductive t : Set := Unsupported (r : Replace.t) (s : Statement).
End ReplaceError.
Module TranspileError.
Inductive t : Type :=
| Load (e : LoadError.t)
| Verify (e : VerifyError.t)
| Replace (e : ReplaceError.t).
End TranspileError.

(** ** Matching *)

(** The name of an identifier that is no keyword *)
Definition undefined_name (t : Token) : option string :=
  match category t with
  | Category.Identifier (IdentifierType.Undefined x) => Some x
  | _ => None
  end.
Definition wanted_name (name : option string) (x : string) : bool :=
  match name with Some y => bool_decide (x = y) | None => true end.

(** [FunctionNameMatcher::is_function] *)
Definition is_function (name : option string) (s : Statement) : bool :=
  match Statement.kind s with
  | Exit _ => wanted_name name "exit"
  | Include _ => wanted_name name "include"
  | Call _ => match undefined_name (Statement.start s) with Some x => wanted_name name x | None => false end
  | FunctionDeclaration id _ _ => match undefined_name id with Some x => wanted_name name x | None => false end
  | _ => false
  end.

Section Matcher.
Context (token_debug : Token -> string).
Let category_text (s : Statement) : string := Category.to_string (category (Statement.start s)).

(** The named parameters with their values and the number of the others; the parameters
    without a name of a declaration are not known. *)
Definition known_parameters (s : Statement) : option (list (string * string) * nat) :=
  match Statement.kind s with
  | Include _ | Exit _ => Some ([], 1)
  | Call p =>
      let l := Statement.children p in
      Some (omap (fun p => match Statement.kind p with
                           | NamedParameter value => Some (category_text p, Statement.to_string token_debug value)
                           | _ => None
                           end) l,
            length (filter (fun p => Statement.is_returnable (Statement.kind p) = true) l))
  | FunctionDeclaration _ p _ =>
      Some (omap (fun p => match Statement.kind p with Variable_ => Some (category_text p, "") | _ => None end)
              (Statement.children p), 0)
  | _ => None
  end.

Definition parameter_found (named : list (string * string)) (anon : nat) (w : FindParameter.t) : bool :=
  match w with
  | FindParameter.Name name => existsb (fun n => bool_decide (n.1 = name)) named
  | FindParameter.Index x => bool_decide (x = anon)
  | FindParameter.NameValue n v => existsb (fun k => bool_decide (k.1 = n) && bool_decide (k.2 = v)) named
  end.

(** [FunctionNameMatcher::matches]; a statement that is a function has parameters. *)
Definition function_matches (name : option string) (parameter : option (list FindParameter.t)) (s : Statement) : bool :=
  if negb (is_function name s) then false
  else match parameter with
       | None => true
       | Some wanted =>
           match known_parameters s with
           | Some (named, anon) =>
               bool_decide (length wanted = (length named + anon)%nat) && forallb (parameter_found named anon) wanted
           | None => false
           end
       end.

(** [Find::matches] *)
Definition find_matches (f : Find.t) : Statement -> bool :=
  match f with
  | Find.FunctionByName name => function_matches (Some name) None
  | Find.FunctionByParameter x => function_matches None (Some x)
  | Find.FunctionByNameAndParameter x y => function_matches (Some x) (Some y)
  end.
End Matcher.

(** ** Changing the text

    Positions are byte offsets.  They are [Z]: the cast of a negative sum to [usize] wraps
    around, and no text is that long.  Lengths are below 2^63, so that sums of offsets stay
    in [i64]. *)
Record CodeReplacer := mkCodeReplacer { offsets : list (Z * Z); cr_code : string; changed : bool }.
Abbreviation T := (M CodeReplacer ReplaceError.t).
Abbreviation Range := (Z * Z)%type.

Definition range_of (p : nat * nat) : Range := (Z.of_nat p.1, Z.of_nat p.2).
Definition text_len (s : string) : Z := Z.of_nat (len_utf8 (chars_of s)).

(** [&code[start..end]] and [String::replace_range], which panic outside of the text, for
    a range that ends before it starts and within a character *)
Definition in_text (l : list char) (r : Range) : bool := (r.1 <=? r.2)%Z && (r.2 <=? Z.of_nat (len_utf8 l))%Z.
Definition text_slice (s : string) (r : Range) : option string :=
  if in_text (chars_of s) r then string_of <$> slice (chars_of s) (Z.to_nat r.1) (Z.to_nat r.2) else None.
Definition text_replace (s : string) (r : Range) (new : string) : option string :=
  if in_text (chars_of s) r then
    pre ← take_bytes (Z.to_nat r.1) (chars_of s);
    post ← drop_bytes (Z.to_nat r.2) (chars_of s);
    Some (string_of (pre ++ chars_of new ++ post))
  else None.

Definition offset_sum (l : list (Z * Z)) (r : Range) : Z :=
  foldr (fun p acc => if (p.1 <? r.1)%Z then (p.2 + acc)%Z else acc) 0%Z l.
Definition range_with_offset (c : CodeReplacer) (r : Range) : Range :=
  let offset := offset_sum (offsets c) r in
  (wrap_u 64 (r.1 + offset), wrap_u 64 (r.2 + offset)).

(** A shorter text is noted at its new place, a longer one at its old place. *)
Definition replace_range (r : Range) (new : string) (previous : Range) : T unit :=
  c ← get;
  code ← or_panic (text_replace (cr_code c) r new);
  let offset := (text_len new - (previous.2 - previous.1))%Z in
  put (mkCodeReplacer
    match (offset ?= 0)%Z with
    | Lt => app (offsets c) [(r.1, offset)]
    | Eq => offsets c
    | Gt => app (offsets c) [(previous.1, offset)]
    end code true).
Definition replace_range_with_offset (new : string) (position : Range) : T unit :=
  new_pos ← gets (fun c => range_with_offset c position);
  replace_range new_pos new position.
(** A text before what is at a position *)
Definition insert_before (np : string) (pos : Range) : T unit :=
  npos ← gets (fun c => range_with_offset c pos);
  c ← get;
  before ← or_panic (text_slice (cr_code c) npos);
  replace_range npos (np ++ before) pos.

Fixpoint find_named_from (i : nat) (stmts : list Statement) (wanted : string) : option (nat * Statement) :=
  match stmts with
  | [] => None
  | s :: rest =>
      match Statement.kind s with
      | Variable_ | NamedParameter _ =>
          match undefined_name (Statement.start s) with
          | Some name => if decide (name = wanted) then Some (i, s) else find_named_from (S i) rest wanted
          | None => find_named_from (S i) rest wanted
          end
      | _ => find_named_from (S i) rest wanted
      end
  end.
Definition find_named_parameter : list Statement -> string -> option (nat * Statement) := find_named_from 0.

Definition push_fn_decl (p : Param.t) (is_only : bool) : option string :=
  match p with
  | Param.Named n _ => Some (if is_only then n else ", " ++ n)
  | Param.Anon _ => None
  end.
Definition push_call (p : Param.t) (is_only : bool) : option string :=
  Some match is_only, p with
       | true, Param.Named n v => n ++ ": " ++ v
       | true, Param.Anon s => s
       | false, Param.Named n v => ", " ++ n ++ ": " ++ v
       | false, Param.Anon s => ", " ++ s
       end.
Definition no_children (s : Statement) : bool := match Statement.children s with [] => true | _ => false end.
Definition push_parameter (s : Statement) (p : Param.t) : T unit :=
  match match Statement.kind s with
        | FunctionDeclaration _ args _ => (fun x => (args, x)) <$> push_fn_decl p (no_children args)
        | Call args => (fun x => (args, x)) <$> push_call p (no_children args)
        | _ => None
        end with
  | Some (args, np) => insert_before np (range_of (tok_position (Statement.end_ args)))
  | None => mret tt
  end.

Definition is_call (s : Statement) : bool := match Statement.kind s with Call _ => true | _ => false end.
Definition calculate_known_index (s : Statement) (p : Param.t) : option string :=
  match is_call s, p with
  | true, Param.Named n v => Some (n ++ ": " ++ v ++ ", ")
  | true, Param.Anon s => Some (s ++ ", ")
  | false, Param.Named n _ => Some (n ++ ", ")
  | false, Param.Anon _ => None
  end.
Definition calculate_unknown_index (s : Statement) (p : Param.t) (params : list Statement) : option string :=
  match is_call s, params, p with
  | true, [], Param.Named n v => Some (n ++ ": " ++ v)
  | true, _, Param.Named n v => Some (", " ++ n ++ ": " ++ v)
  | true, [], Param.Anon s => Some s
  | true, _, Param.Anon s => Some (", " ++ s)
  | false, [], Param.Named n _ => Some n
  | false, _, Param.Named n _ => Some (", " ++ n)
  | false, _, Param.Anon _ => None
  end.
Definition add_parameter (s : Statement) (i : nat) (p : Param.t) : T unit :=
  match Statement.kind s with
  | FunctionDeclaration _ params _ | Call params =>
      let children := Statement.children params in
      if (i <=? length children)%nat || (i =? 0)%nat then
        match children !! i with
        | Some t =>
            match calculate_known_index s p with
            | Some np => insert_before np (range_of (Statement.position t))
            | None => mret tt
            end
        | None =>
            match calculate_unknown_index s p children with
            | Some np => insert_before np (range_of (tok_position (Statement.end_ params)))
            | None => mret tt
            end
        end
      else mret tt
  | _ => mret tt
  end.

(** The last of several parameters goes with the separator before it, another one with
    all up to the next. *)
Definition start_at (s : Statement) : Z := Z.of_nat (tok_position (Statement.start s)).1.
Definition end_at (s : Statement) : Z := Z.of_nat (tok_position (Statement.end_ s)).1.
Definition removed_range (children : list Statement) (idx : nat) (s : Statement) : option Range :=
  if (idx =? length children - 1)%nat && negb (idx =? 0)%nat then
    pe ← children !! (idx - 1)%nat; Some (end_at pe, end_at s)
  else if (idx <? length children - 1)%nat then
    ns ← children !! S idx; Some (start_at s, start_at ns)
  else Some (start_at s, end_at s).
Definition remove_parameter (children : list Statement) (idx : nat) (s : Statement) : T unit :=
  r ← or_panic (removed_range children idx s);
  new_position ← gets (fun c => range_with_offset c r);
  replace_range new_position "" new_position.

Definition remove_indexed_parameter (s : Statement) (i : nat) : T unit :=
  match Statement.kind s with
  | FunctionDeclaration _ stmts _ | Call stmts =>
      let children := Statement.children stmts in
      match children !! i with Some x => remove_parameter children i x | None => mret tt end
  | _ => mret tt
  end.
Definition remove_named_parameter (s : Statement) (wanted : string) : T unit :=
  let stmts := Statement.children s in
  match find_named_parameter stmts wanted with
  | Some (i, s) => remove_parameter stmts i s
  | None => mret tt
  end.
Definition rename_parameter (s : Statement) (previous new : string) : T unit :=
  match find_named_parameter (Statement.children s) previous with
  | Some (_, s) => replace_range_with_offset new (range_of (tok_position (Statement.start s)))
  | None => mret tt
  end.

Definition change_parameter (s parameter : Statement) (o : ParameterOperation.t) : T unit :=
  match o with
  | ParameterOperation.Push p => push_parameter s p
  | ParameterOperation.Add i p => add_parameter s i p
  | ParameterOperation.Remove i => remove_indexed_parameter s i
  | ParameterOperation.RemoveNamed wanted => remove_named_parameter s wanted
  | ParameterOperation.Rename previous new => rename_parameter s previous new
  | ParameterOperation.RemoveAll =>
      replace_range_with_offset "" (Z.of_nat (tok_position (Statement.start parameter)).2, end_at parameter)
  end.
Definition replace_as_string (s : Statement) (r : Replace.t) : T unit :=
  match r with
  | Replace.Remove => replace_range_with_offset "" (range_of (Statement.position s))
  | Replace.Name name =>
      match Statement.kind s with
      | FunctionDeclaration n _ _ => replace_range_with_offset name (range_of (tok_position n))
      | Call _ | Exit _ | Include _ => replace_range_with_offset name (range_of (tok_position (Statement.start s)))
      | _ => throw (ReplaceError.Unsupported r s)
      end
  | Replace.Parameter_ params =>
      match Statement.kind s with
      | FunctionDeclaration _ stmt _ | Call stmt | Exit stmt | Include stmt => change_parameter s stmt params
      | _ => throw (ReplaceError.Unsupported r s)
      end
  end.

(** ** All commands on a script *)
Section Replace.
Context `{BuildProfile} (token_debug : Token -> string).

Definition found (f : Find.t) (stmts : list Statement) : list Statement :=
  stmts ≫= Statement.find (find_matches token_debug f).
Fixpoint replace_all (l : list Statement) (r : Replace.t) : T unit :=
  match l with [] => mret tt | s :: l' => replace_as_string s r ;; replace_all l' r end.

Definition parsed (code : string) : outcome ReplaceError.t (list Statement) :=
  match Lexer.parse code with
  | Ok rs => Ok (omap (fun r => match r with inl s => Some s | inr _ => None end) rs)
  | Err e => match e with end
  | Panic => Panic
  | OutOfFuel => OutOfFuel
  end.

(** The statements are parsed again after a change, and if there were none. *)
Fixpoint replace_from (cached : list Statement) (code : string) (l : list ReplaceCommand) :
  outcome ReplaceError.t string :=
  match l with
  | [] => Ok code
  | r :: rest =>
      match match cached with [] => parsed code | _ => Ok cached end with
      | Ok stmts =>
          match replace_all (found (rc_find r) stmts) (rc_with r) (mkCodeReplacer [] code false) with
          | (Ok _, c) => if changed c then replace_from [] (cr_code c) rest else replace_from stmts code rest
          | (Err e, _) => Err e
          | (Panic, _) => Panic
          | (OutOfFuel, _) => OutOfFuel
          end
      | Err e => Err e
      | Panic => Panic
      | OutOfFuel => OutOfFuel
      end
  end.
Definition replace (code : string) (l : list ReplaceCommand) : outcome ReplaceError.t string := replace_from [] code l.

(** ** [FeedReplacer]: the scripts of a feed that change, with their new text *)
Definition feed_replace {W} `{Directory W} (l : list ReplaceCommand) (path : list char + VerifyError.t) (w : W) :
  outcome TranspileError.t (option (list char * string)) :=
  match path with
  | inr e => Err (TranspileError.Verify e)
  | inl name =>
      match load_non_utf8_path name w with
      | inr e => Err (TranspileError.Load e)
      | inl code =>
          match replace (string_of code) l with
          | Ok new_code => Ok (if decide (string_of code = new_code) then None else Some (name, new_code))
          | Err e => Err (TranspileError.Replace e)
          | Panic => Panic
          | OutOfFuel => OutOfFuel
          end
      end
  end.
(** The items of the iterator, over the paths below the root *)
Definition feed_replacer {W} `{Directory W} (l : list ReplaceCommand) (paths : list (list char + list char)) (w : W) :
  list (outcome TranspileError.t (option (list char * string))) :=
  map (fun p => feed_replace l p w) (nasl_files None paths).
End Replace.
