(* ===== verification/TranspileProps.v ===== *)
(** * Rewriting of scripts: theorems

    The changes a command makes one after the other are the simultaneous replacement of
    the found texts; commands never fail; which calls are missed and which commands break. *)

From S2P Require Import Prelude RustStr Token Statement Lexer LexerProps Errors Files Notus FeedVerify FeedVerifyProps Transpile.
Local Open Scope string_scope.

(** ** Changes as a splice

    A text cut at the changes: what is before a change, the old and the new text. *)
Record Cut := mkCut { gap : list char; old_text : list char; new_text : list char }.
Definition source (cuts : list Cut) (tail : list char) : list char :=
  (cuts ≫= (fun c => gap c ++ old_text c))%list ++ tail.
Definition target (cuts : list Cut) (tail : list char) : list char :=
  (cuts ≫= (fun c => gap c ++ new_text c))%list ++ tail.
Definition zlen (l : list char) : Z := Z.of_nat (len_utf8 l).
(** The places of the changes in the old text, which starts at [p] *)
Fixpoint places (p : Z) (cuts : list Cut) : list (Range * list char) :=
  match cuts with
  | [] => []
  | c :: rest =>
      let a := (p + zlen (gap c))%Z in
      let b := (a + zlen (old_text c))%Z in
      ((a, b), new_text c) :: places b rest
  end.
(** A text that gets shorter must be longer than all that was inserted before it, [d]. *)
Fixpoint steady (d : Z) (cuts : list Cut) : Prop :=
  match cuts with
  | [] => True
  | c :: rest =>
      old_text c <> []
      /\ ((zlen (new_text c) < zlen (old_text c))%Z -> (d < zlen (old_text c))%Z)
      /\ steady (d + zlen (new_text c) - zlen (old_text c)) rest
  end.
Fixpoint change_all (l : list (Range * list char)) : T unit :=
  match l with [] => mret tt | (r, new) :: l' => replace_range_with_offset (string_of new) r ;; change_all l' end.

Lemma zlen_app a b : zlen (a ++ b) = (zlen a + zlen b)%Z.
Proof. unfold zlen. rewrite len_utf8_app. lia. Qed.
Lemma zlen_nonneg a : (0 <= zlen a)%Z.
Proof. unfold zlen. lia. Qed.
Lemma zlen_pos a : a <> [] -> (0 < zlen a)%Z.
Proof. intros Ha. unfold zlen. destruct (len_utf8 a) eqn:E; [by apply len_utf8_zero in E|lia]. Qed.

Lemma text_replace_app a o n b :
  text_replace (string_of (a ++ o ++ b)) (zlen a, zlen a + zlen o)%Z (string_of n) = Some (string_of (a ++ n ++ b)).
Proof.
  unfold text_replace, in_text. rewrite !chars_of_string. cbn [fst snd].
  change (Z.of_nat (len_utf8 (a ++ o ++ b))) with (zlen (a ++ o ++ b)). rewrite !zlen_app.
  pose proof (zlen_nonneg o). pose proof (zlen_nonneg b). rewrite (proj2 (Z.leb_le _ _)), (proj2 (Z.leb_le _ _)) by lia.
  cbn [andb]. unfold zlen. rewrite Nat2Z.id, take_bytes_app. cbn [mbind option_bind].
  replace (Z.to_nat _) with (len_utf8 (a ++ o)) by (rewrite len_utf8_app; lia). by rewrite app_assoc, drop_bytes_app.
Qed.

Lemma offset_sum_app l l' r : offset_sum (l ++ l') r = (offset_sum l r + offset_sum l' r)%Z.
Proof. induction l as [|[a b] l IH]; [done|]. simpl. unfold offset_sum in *. simpl. case_match; lia. Qed.

(** Behind the changes made so far all offsets count. *)
Definition settled (os : list (Z * Z)) (from d : Z) : Prop := forall r : Range, (from <= r.1)%Z -> offset_sum os r = d.

Lemma settled_more os from d p x from' :
  settled os from d -> (from <= from')%Z -> (p < from')%Z -> settled (os ++ [(p, x)]) from' (d + x).
Proof.
  intros Hs Hf Hp r Hr. rewrite offset_sum_app, Hs by lia. unfold offset_sum. simpl.
  rewrite (proj2 (Z.ltb_lt _ _)) by lia. lia.
Qed.

Lemma change_one (done : list char) (p d : Z) (c : Cut) (rest : list char) os b :
  settled os p d -> (p + d)%Z = zlen done -> old_text c <> [] ->
  ((zlen (new_text c) < zlen (old_text c))%Z -> (d < zlen (old_text c))%Z) ->
  (zlen (done ++ gap c ++ old_text c) < 2 ^ 64)%Z -> (0 <= p)%Z ->
  let a := (p + zlen (gap c))%Z in
  exists os', replace_range_with_offset (string_of (new_text c)) (a, a + zlen (old_text c))%Z
      (mkCodeReplacer os (string_of (done ++ gap c ++ old_text c ++ rest)) b)
    = (Ok tt, mkCodeReplacer os' (string_of (done ++ gap c ++ new_text c ++ rest)) true)
    /\ settled os' (a + zlen (old_text c)) (d + zlen (new_text c) - zlen (old_text c)).
Proof.
  intros Hs Hd Ho Hw Hb Hp a. rewrite !zlen_app in Hb. pose proof (zlen_nonneg (gap c)). pose proof (zlen_nonneg done).
  pose proof (zlen_pos _ Ho). assert (offset_sum os (a, a + zlen (old_text c))%Z = d) as Eo by (apply Hs; simpl; lia).
  unfold replace_range_with_offset, mbind, M_bind, gets, range_with_offset. cbn [offsets fst snd]. rewrite Eo.
  assert (a + d = zlen (done ++ gap c))%Z as Ea by (rewrite zlen_app; lia).
  replace (a + zlen (old_text c) + d)%Z with (a + d + zlen (old_text c))%Z by lia. rewrite Ea.
  unfold wrap_u. rewrite !Z.mod_small by (rewrite zlen_app; lia).
  unfold replace_range, mbind, M_bind, get, or_panic. cbn [cr_code]. rewrite !(app_assoc done), text_replace_app.
  eexists. split; [done|]. cbn [offsets]. unfold text_len. rewrite chars_of_string. cbn [fst snd]. fold (zlen (new_text c)).
  replace (a + zlen (old_text c) - a)%Z with (zlen (old_text c)) by lia.
  replace (d + zlen (new_text c) - zlen (old_text c))%Z with (d + (zlen (new_text c) - zlen (old_text c)))%Z by lia.
  destruct (Z.compare_spec (zlen (new_text c) - zlen (old_text c)) 0) as [E|E|E].
  - rewrite E, Z.add_0_r. intros r Hr. apply Hs. lia.
  - apply (settled_more os p); [done|lia|]. rewrite <- Ea. specialize (Hw ltac:(lia)). lia.
  - apply (settled_more os p); [done|lia|lia].
Qed.

Lemma change_all_from cuts : forall (done tail : list char) p d os b,
  settled os p d -> (p + d)%Z = zlen done -> steady d cuts -> (0 <= p)%Z ->
  (zlen done + zlen (source cuts tail) + zlen (target cuts tail) < 2 ^ 64)%Z ->
  exists c, change_all (places p cuts) (mkCodeReplacer os (string_of (done ++ source cuts tail)) b) = (Ok tt, c)
    /\ cr_code c = string_of (done ++ target cuts tail)
    /\ changed c = match cuts with [] => b | _ => true end.
Proof.
  induction cuts as [|c cuts IH]; intros done tail p d os b Hs Hd Hst Hp Hb; [by eexists|].
  destruct Hst as (Ho & Hw & Hst). unfold source, target in *. cbn [places change_all mbind list_bind] in *.
  rewrite <- !app_assoc in *. rewrite !zlen_app in Hb.
  destruct (change_one done p d c ((cuts ≫= (fun c => gap c ++ old_text c)) ++ tail)%list os b Hs Hd Ho Hw) as (os' & E & Hs').
  { rewrite !zlen_app. pose proof (zlen_nonneg (cuts ≫= (fun c => gap c ++ old_text c)))%list. pose proof (zlen_nonneg tail).
    pose proof (zlen_nonneg (cuts ≫= (fun c => gap c ++ new_text c)))%list. pose proof (zlen_nonneg (gap c)).
    pose proof (zlen_nonneg (new_text c)). lia. }
  { done. }
  unfold mbind at 1, M_bind at 1. rewrite E.
  destruct (IH (done ++ gap c ++ new_text c)%list tail _ _ os' true Hs') as (c' & E' & Hc & Hch).
  - rewrite !zlen_app. lia.
  - done.
  - pose proof (zlen_nonneg (gap c)). pose proof (zlen_nonneg (old_text c)). lia.
  - rewrite !zlen_app in *. pose proof (zlen_nonneg (old_text c)). pose proof (zlen_nonneg (gap c)). lia.
  - exists c'. rewrite <- !app_assoc in *. split; [exact E'|]. split; [exact Hc|]. rewrite Hch. by destruct cuts.
Qed.

(** The changes a command makes one after the other, each at the place the parser gave
    for the old text and moved by the lengths noted so far, are the replacement of all old
    texts at once, as long as no text gets shorter that is not longer than what was
    inserted before it. *)
Theorem changes_are_splice (cuts : list Cut) (tail : list char) :
  steady 0 cuts -> (zlen (source cuts tail) + zlen (target cuts tail) < 2 ^ 64)%Z ->
  exists c, change_all (places 0 cuts) (mkCodeReplacer [] (string_of (source cuts tail)) false) = (Ok tt, c)
    /\ cr_code c = string_of (target cuts tail) /\ changed c = match cuts with [] => false | _ => true end.
Proof. intros Hs Hb. by apply (change_all_from cuts [] tail 0 0 [] false). Qed.

(** ** Renaming *)
Definition name_range (s : Statement) : option Range :=
  match Statement.kind s with
  | FunctionDeclaration n _ _ => Some (range_of (tok_position n))
  | Call _ | Exit _ | Include _ => Some (range_of (tok_position (Statement.start s)))
  | _ => None
  end.

Lemma rename_changes name stmts (l : list (Range * list char)) :
  map name_range stmts = map (fun p => Some p.1) l -> Forall (fun p => p.2 = chars_of name) l ->
  replace_all stmts (Replace.Name name) = change_all l.
Proof.
  revert l. induction stmts as [|s stmts IH]; intros [|[r n] l] Hm Hn; try done.
  apply Forall_cons in Hn as [Hn1 Hn]. simpl in Hn1. subst n. injection Hm as Hs Hm. cbn [replace_all change_all]. rewrite (IH l Hm Hn).
  rewrite string_of_chars. f_equal. unfold name_range in Hs. unfold replace_as_string.
  by destruct (Statement.kind s); simplify_eq.
Qed.
Lemma places_new (l : list char) gaps o p : Forall (fun p => p.2 = l) (places p (map (fun g => mkCut g o l) gaps)).
Proof. revert p. induction gaps as [|g gaps IH]; intros p; [constructor|]. simpl. constructor; [done|apply IH]. Qed.
Lemma steady_uniform o n gaps d : o <> [] -> ((zlen n < zlen o)%Z -> (d <= 0)%Z) ->
  steady d (map (fun g => mkCut g o n) gaps).
Proof.
  intros Ho. revert d. induction gaps as [|g gaps IH]; intros d Hd; [done|]. simpl. pose proof (zlen_pos o Ho).
  split_and!; [done|lia|]. apply IH. lia.
Qed.

Section Claims.
Context `{BuildProfile} (token_debug : Token -> string).

(** C21: A command that renames a function puts the new name in the place of the old one
    wherever it found a call or a declaration, and changes nothing else of the script,
    whatever the lengths of the two names. *)
Theorem rename_replaces_names (old new : string) (gaps : list (list char)) (tail : list char) (stmts : list Statement) :
  let cuts := map (fun g => mkCut g (chars_of old) (chars_of new)) gaps in
  old <> "" -> (zlen (source cuts tail) + zlen (target cuts tail) < 2 ^ 64)%Z ->
  parsed (string_of (source cuts tail)) = Ok stmts ->
  map name_range (found token_debug (Find.FunctionByName old) stmts) = map (fun p => Some p.1) (places 0 cuts) ->
  replace token_debug (string_of (source cuts tail))
    [mkReplaceCommand (Find.FunctionByName old) (Replace.Name new)] = Ok (string_of (target cuts tail)).
Proof.
  intros cuts Ho Hb Hp Hf. unfold replace. cbn [replace_from rc_find rc_with]. rewrite Hp.
  rewrite (rename_changes new _ _ Hf) by apply places_new.
  destruct (change_all_from cuts [] tail 0 0 [] false) as (c & E & Hc & Hch); try done.
  { apply steady_uniform; [|lia]. intros E. apply Ho. by rewrite <- (string_of_chars old), E. }
  cbn [app] in E, Hc. rewrite E, Hch, Hc. by destruct gaps.
Qed.

(** ** No errors *)
Definition no_error {A} (m : T A) : Prop := forall c, match (m c).1 with Ok _ | Panic => True | _ => False end.

Lemma no_error_bind {A B} (m : T A) (f : A -> T B) : no_error m -> (forall a, no_error (f a)) -> no_error (m ≫= f).
Proof.
  intros Hm Hf c. unfold mbind, M_bind. specialize (Hm c). destruct (m c) as [[a| | |] c']; try done. apply Hf.
Qed.
Lemma no_error_ret {A} (a : A) : no_error (mret a).
Proof. done. Qed.
Lemma no_error_gets {A} (f : CodeReplacer -> A) : no_error (gets f).
Proof. done. Qed.
Lemma no_error_get : no_error get.
Proof. done. Qed.
Lemma no_error_put c : no_error (put c).
Proof. done. Qed.
Lemma no_error_or_panic {A} (o : option A) : no_error (or_panic o).
Proof. by destruct o. Qed.
#[local] Hint Resolve no_error_ret no_error_gets no_error_get no_error_put no_error_or_panic : core.
#[local] Hint Extern 2 (no_error (_ ≫= _)) => apply no_error_bind; [|intros] : core.

Lemma no_error_replace_range r n p : no_error (replace_range r n p).
Proof. unfold replace_range. auto. Qed.
#[local] Hint Resolve no_error_replace_range : core.
Lemma no_error_with_offset n p : no_error (replace_range_with_offset n p).
Proof. unfold replace_range_with_offset. auto. Qed.
Lemma no_error_insert n p : no_error (insert_before n p).
Proof. unfold insert_before. auto 6. Qed.
Lemma no_error_remove l i s : no_error (remove_parameter l i s).
Proof. unfold remove_parameter. auto. Qed.
#[local] Hint Resolve no_error_with_offset no_error_insert no_error_remove : core.

Lemma no_error_change_parameter s p o : no_error (change_parameter s p o).
Proof.
  destruct o; cbn [change_parameter];
    unfold push_parameter, add_parameter, remove_named_parameter, remove_indexed_parameter, rename_parameter;
    repeat case_match; auto.
Qed.

Lemma matched_is_function f s : find_matches token_debug f s = true ->
  match Statement.kind s with FunctionDeclaration _ _ _ | Call _ | Exit _ | Include _ => True | _ => False end.
Proof.
  intros Hf. assert (exists n, is_function n s = true) as [n Hn].
  { destruct f as [n|l|n l]; simpl in Hf; unfold function_matches in Hf; case_match eqn:E; try done;
      apply negb_false_iff in E; by eexists. }
  unfold is_function in Hn. by destruct (Statement.kind s).
Qed.
Lemma no_error_replace s r f : find_matches token_debug f s = true -> no_error (replace_as_string s r).
Proof.
  intros Hs%matched_is_function. unfold replace_as_string.
  destruct r; [| |]; destruct (Statement.kind s); try done; auto using no_error_change_parameter.
Qed.
Lemma no_error_replace_all f r l : Forall (fun s => find_matches token_debug f s = true) l -> no_error (replace_all l r).
Proof.
  induction 1 as [|s l Hs _ IH]; [done|]. cbn [replace_all]. apply no_error_bind; [by eapply no_error_replace|done].
Qed.
Lemma found_matches f stmts : Forall (fun s => find_matches token_debug f s = true) (found token_debug f stmts).
Proof.
  apply Forall_forall. intros s (x & Hs & _)%list_elem_of_bind.
  by apply list_elem_of_In, Statement.find_sound in Hs as [].
Qed.
Lemma parsed_ok code : exists stmts, parsed code = Ok stmts.
Proof. unfold parsed. destruct (parse_total _ code) as (rs & -> & _). by eexists. Qed.

Lemma replace_from_no_error l : forall cached code,
  match replace_from token_debug cached code l with Ok _ | Panic => True | _ => False end.
Proof.
  induction l as [|r l IH]; intros cached code; [done|]. cbn [replace_from].
  assert (exists stmts, match cached with [] => parsed code | _ => Ok cached end = Ok stmts) as (stmts & ->).
  { destruct cached; [apply parsed_ok|by eexists]. }
  pose proof (no_error_replace_all _ (rc_with r) _ (found_matches (rc_find r) stmts) (mkCodeReplacer [] code false)) as Hc.
  destruct (replace_all _ _ _) as [[[]| | |] c]; try done. destruct (changed c); apply IH.
Qed.

(** Rewriting a script never ends with an error and always ends: what a command finds
    is always something it can be applied to. *)
Theorem replace_never_fails (code : string) (l : list ReplaceCommand) :
  (exists new_code, replace token_debug code l = Ok new_code) \/ replace token_debug code l = Panic.
Proof.
  pose proof (replace_from_no_error l [] code) as Hr. unfold replace.
  destruct (replace_from token_debug [] code l); try done; [left; by eexists|by right].
Qed.

(** A script in which no command finds anything is not changed, and the replacer of a
    feed leaves its file alone. *)
Theorem unmatched_unchanged {W} `{Directory W} (w : W) (name code : list char) (l : list ReplaceCommand)
    (stmts : list Statement) :
  load_non_utf8_path name w = inl code -> parsed (string_of code) = Ok stmts ->
  Forall (fun r => found token_debug (rc_find r) stmts = []) l ->
  feed_replace token_debug l (inl name) w = Ok None.
Proof.
  intros Hl Hp Hf. unfold feed_replace. rewrite Hl. assert (forall cached, cached = [] \/ cached = stmts ->
    replace_from token_debug cached (string_of code) l = Ok (string_of code)) as Hr.
  { induction Hf as [|r l Hr _ IH]; intros cached Hc; [done|]. cbn [replace_from].
    assert (match cached with [] => parsed (string_of code) | _ => Ok cached end = Ok stmts) as ->.
    { destruct Hc as [-> | ->]; [done|]. destruct stmts; [done|done]. }
    rewrite Hr. simpl. apply IH. by right. }
  unfold replace. rewrite Hr by by left. by rewrite decide_True.
Qed.
End Claims.

(** ** Examples, and where a command goes wrong *)
Module TranspileExample.
#[local] Existing Instances debug_build VerifyExample.listed_files.
Definition no_debug (_ : Token) : string := "".
Definition parameter (name code : string) (o : ParameterOperation.t) : outcome ReplaceError.t string :=
  replace no_debug code [mkReplaceCommand (Find.FunctionByName name) (Replace.Parameter_ o)].

Example add_to_declaration_and_call :
  parameter "my_call" "function my_call(a){};my_call();" (ParameterOperation.Add 0 (Param.Named "test" "test"))
  = Ok "function my_call(test, a){};my_call(test: test);".
Proof. vm_compute. reflexivity. Qed.
Example remove_last : parameter "my_call" "function my_call(a, b, c){};" (ParameterOperation.RemoveNamed "c")
  = Ok "function my_call(a, b){};".
Proof. vm_compute. reflexivity. Qed.
Example push_twice : parameter "f" "f(a: 1); x = f();" (ParameterOperation.Push (Param.Named "x" "2"))
  = Ok "f(a: 1, x: 2); x = f(x: 2);".
Proof. vm_compute. reflexivity. Qed.
Example remove_all : parameter "f" "f(a: 1, 2, 4);f(5);" ParameterOperation.RemoveAll = Ok "f();f();".
Proof. vm_compute. reflexivity. Qed.

Lemma changes_are_splice_witness :
  let cuts := [mkCut (chars_of "if (x) ") (chars_of "ab") (chars_of "abc"); mkCut (chars_of "; ") (chars_of "defg") (chars_of "h")] in
  steady 0 cuts /\ exists c,
    change_all (places 0 cuts) (mkCodeReplacer [] (string_of (source cuts (chars_of ";"))) false) = (Ok tt, c)
    /\ cr_code c = "if (x) abc; h;" /\ changed c = true.
Proof.
  intros cuts. assert (steady 0 cuts) as Hs by (vm_compute; by repeat split).
  split; [exact Hs|]. exact (changes_are_splice cuts (chars_of ";") Hs eq_refl).
Defined.

Lemma rename_replaces_names_witness :
  replace no_debug "while (funker(1) == 1) exit(funker(10)); function funker(a) { return 1; }"
    [mkReplaceCommand (Find.FunctionByName "funker") (Replace.Name "fun")]
  = Ok "while (fun(1) == 1) exit(fun(10)); function fun(a) { return 1; }".
Proof.
  destruct (parsed "while (funker(1) == 1) exit(funker(10)); function funker(a) { return 1; }") as [stmts| | |] eqn:E;
    [|by vm_compute in E..].
  apply (rename_replaces_names no_debug "funker" "fun"
    [chars_of "while ("; chars_of "(1) == 1) exit("; chars_of "(10)); function "] (chars_of "(a) { return 1; }") stmts);
    [done|done|exact E|]. vm_compute in E. injection E as <-. vm_compute. reflexivity.
Defined.

Lemma unmatched_unchanged_witness :
  let w : list (list char * File) := [(chars_of "a.nasl", mkFile (as_bytes (chars_of "exit(0);")) None None)] in
  feed_replace no_debug [mkReplaceCommand (Find.FunctionByName "f") Replace.Remove] (inl (chars_of "a.nasl")) w = Ok None.
Proof.
  intros w. destruct (parsed "exit(0);") as [stmts| | |] eqn:E; [|by vm_compute in E..].
  apply (unmatched_unchanged no_debug w _ (chars_of "exit(0);") _ stmts);
    [vm_compute; reflexivity|exact E|].
  vm_compute in E. injection E as <-. constructor; [vm_compute; reflexivity|constructor].
Defined.
End TranspileExample.

(** Only the outermost finding of a command is changed: in a call within the
    parameters of a found call, and in the body of a found declaration, the old name stays. *)
Theorem nested_call_kept :
  replace (H := debug_build) (fun _ => "") "funker(funker(1)); function f(a) { return f(a - 1); }"
    [mkReplaceCommand (Find.FunctionByName "funker") (Replace.Name "fun");
     mkReplaceCommand (Find.FunctionByName "f") (Replace.Name "g")]
  = Ok "fun(funker(1)); function g(a) { return f(a - 1); }".
Proof. vm_compute. reflexivity. Qed.

(** A command that renames functions of several names breaks when a long name follows
    short ones: the length that is taken away is noted at the moved place, behind the next
    call, and the replacer panics or writes over other text: the call of [x] keeps its
    name and [exit] becomes another one. *)
Theorem mixed_lengths_break :
  let cmd := [mkReplaceCommand (Find.FunctionByParameter [FindParameter.Index 1]) (Replace.Name "foo")] in
  replace (H := debug_build) (fun _ => "") "a(1);a(1);a(1);a(1);a(1);a(1);longname(2);x(3);" cmd = Panic
  /\ replace (H := debug_build) (fun _ => "") "a(1);a(1);a(1);a(1);a(1);a(1);longname(2);x(3);exit(4);" cmd
     = Ok "foo(1);foo(1);foo(1);foo(1);foo(1);foo(1);foo(2);x(3);fofoo(4);".
Proof. vm_compute. split; reflexivity. Qed.
