(* ===== verification/Entry.v ===== *)
(** * The HTTP entry point of the daemon

    [openvasd/controller]: authentication ([context.rs], [mod.rs]), the paths of the API and
    the handler of a request ([entry.rs]), with the answers of [response.rs] and the bodies
    of [request.rs].  The state is the scheduler, the Notus scanner and the number of random
    identifiers drawn.  Headers of answers are left out; reading JSON, digests and random
    identifiers are libraries. *)

From S2P Require Import Prelude RustStr Packages Notus.
From S2P Require Import Token Statement NaslValue Errors Nvt Storage Models HostInfo Scheduling Executor Scanner Crypt ScanStore Scheduler.
Local Open Scope string_scope.

(** ** Libraries *)

(** SHA-256 as the digest of a client's identity, and version 4 UUIDs by the number of the
    request. *)
Class Identities := {
  client_hash : string -> ClientHash;
  uuid_v4 : nat -> string
}.

Inductive Action : Set := Start | Stop.

(** [serde_json] on the bodies of requests. *)
Class RequestJson := {
  read_scan : list byte -> option ScanModel;
  read_action : list byte -> option Action;
  read_packages : list byte -> option (list str)
}.

(** The text of [Display for scheduling::Error]. *)
Class SchedErrorText := { sched_error_text : SchedError.t -> string }.

(** ** mod.rs and context.rs: who asks *)
Inductive ClientIdentifier : Type := Unknown_ | Disabled | Known (h : ClientHash).

(** [ClientHash::default()] *)
Definition default_client : ClientHash := string_of (repeat "000"%char 32).

(** [retrieve_and_reset] *)
Definition retrieve_and_reset (id : ClientIdentifier) : ClientIdentifier * ClientIdentifier :=
  (id, Unknown_).

(** [configure_authentication_methods]: whether TLS is configured and with client
    certificates, and the key; what remains of the key and the methods that are announced. *)
Definition configure_authentication_methods (tls : option bool) (api_key : option string) :
  outcome Empty_set (option string * list string) :=
  let key := match tls, api_key with Some true, Some _ => None | _, k => k end in
  match tls, key with
  | Some _, Some _ => Panic
  | Some _, None => Ok (key, ["mTLS"])
  | None, Some _ => Ok (key, ["x-api-key"])
  | None, None => Ok (key, [])
  end.

(** ** entry.rs: paths *)
Inductive Mode : Set := Service_ | ServiceNotus.
Inductive HealthOpts : Set := Ready | Started | Alive.

Inductive KnownPaths : Type :=
| Scans (id : option string)
| ScanPreferences
| ScanResults_ (id : string) (result_id : option string)
| ScanStatus_ (id : string)
| Vts (oid : option string)
| Health (o : HealthOpts)
| Notus_ (os : option string)
| UnknownPath.

#[global] Instance HealthOpts_eq_dec : EqDecision HealthOpts.
Proof. solve_decision. Defined.
#[global] Instance KnownPaths_eq_dec : EqDecision KnownPaths.
Proof. solve_decision. Defined.

Definition requires_id (k : KnownPaths) : bool :=
  match k with UnknownPath | Health _ | Vts _ | Notus_ _ => false | _ => true end.

(** [str::split] by a character. *)
Fixpoint split_on (c : char) (acc l : list char) : list (list char) :=
  match l with
  | [] => [rev acc]
  | x :: l => if Ascii.eqb x c then rev acc :: split_on c [] l else split_on c (x :: acc) l
  end.

Definition path_parts (path : string) : list string :=
  filter (fun s => s <> "") (string_of <$> split_on "/"%char [] (chars_of path)).

Definition scan_path (parts : list string) : KnownPaths :=
  match parts with
  | [] => Scans None
  | id :: parts =>
      match parts with
      | [] => if decide (id = "preferences") then ScanPreferences else Scans (Some id)
      | x :: parts =>
          if decide (x = "results") then ScanResults_ id (head parts)
          else if decide (x = "status") then ScanStatus_ id
          else UnknownPath
      end
  end.

Definition health_path (parts : list string) : KnownPaths :=
  match parts with
  | x :: _ =>
      if decide (x = "ready") then Health Ready
      else if decide (x = "alive") then Health Alive
      else if decide (x = "started") then Health Started
      else UnknownPath
  | [] => UnknownPath
  end.

Definition from_path (path : string) (mode : Mode) : KnownPaths :=
  match path_parts path with
  | [] => UnknownPath
  | p :: parts =>
      if decide (p = "scans") then
        match mode with Service_ => scan_path parts | ServiceNotus => UnknownPath end
      else if decide (p = "vts") then Vts (head parts)
      else if decide (p = "notus") then Notus_ (head parts)
      else if decide (p = "health") then health_path parts
      else UnknownPath
  end.

Definition path_scan_id (k : KnownPaths) : option string :=
  match k with
  | Scans (Some id) | ScanResults_ id _ | ScanStatus_ id => Some id
  | _ => None
  end.

(** [Display for KnownPaths] *)
Definition path_string (k : KnownPaths) : string :=
  match k with
  | Scans (Some id) => "/scans/" ++ id
  | Scans None => "/scans"
  | ScanResults_ id (Some rid) => "/scans/" ++ id ++ "/results/" ++ rid
  | ScanResults_ id None => "/scans/" ++ id ++ "/results"
  | ScanStatus_ id => "/scans/" ++ id ++ "/status"
  | UnknownPath => "Unknown"
  | Vts None => "/vts"
  | Vts (Some o) => "/vts/" ++ o
  | Notus_ (Some os) => "/notus/" ++ os
  | Notus_ None => "/notus"
  | Health Alive => "/health/alive"
  | Health Ready => "/health/ready"
  | Health Started => "/health/started"
  | ScanPreferences => "/scans/preferences"
  end.

(** ** Requests and answers *)
Inductive Method : Set := HEAD | GET | POST | DELETE | OtherMethod.
#[global] Instance Method_eq_dec : EqDecision Method.
Proof. solve_decision. Defined.

(** [req_body] is [None] when it cannot be read.  The text of an error in an answer is kept
    as the error. *)
Record Request := mkRequest {
  req_method : Method; req_path : string; query : option string; api_key_header : option string;
  req_body : option (list byte)
}.

Inductive Body : Type :=
| Empty
| JId (id : string)
| JScan (c : ScanModel)
| JStatus (s : Status)
| JStrings (l : list string)
| JNotFound (class id : string)
| JNotAccepted (got : Phase.t) (allowed : list Phase.t)
| JText (s : string)
| JBadRequest
| JNotus (r : NotusResults)
| JNotusError (e : NotusError.t)
| JPackages (l : list str)
| JNvt (n : Nvt)
| JNvts (l : list Nvt)
| Preferences_
| Stream (l : list (list byte)).

Record Response := mkResponse { code_ : nat; resp_body : Body }.

(** [response.rs] *)
Definition empty (code : nat) : Response := mkResponse code Empty.
Definition ok_ (b : Body) : Response := mkResponse 200 b.
Definition created (id : string) : Response := mkResponse 201 (JId id).
Definition no_content : Response := empty 204.
Definition unauthorized : Response := empty 401.
Definition internal_server_error : Response := empty 500.
Definition not_found (class id : string) : Response := mkResponse 404 (JNotFound class id).
Definition bad_request (b : Body) : Response := mkResponse 400 b.
Definition not_implemented (b : Body) : Response := mkResponse 501 b.
Definition service_unavailable (b : Body) : Response := mkResponse 503 b.
Definition not_accepted (got : Phase.t) (allowed : list Phase.t) : Response :=
  mkResponse 406 (JNotAccepted got allowed).

(** The stream of an answer: what is sent over the channel, and the frames it becomes. *)
Inductive SendState : Type := SendStart | Bytes (first : bool) (b : list byte) | SendEnd.

Definition byte_stream (values : list (list byte)) : list SendState :=
  (SendStart ::
   (match values with
    | [] => []
    | v :: vs => Bytes true v :: map (Bytes false) vs
    end ++ [SendEnd]))%list.

Definition frame (s : SendState) : list byte :=
  match s with
  | SendStart => as_bytes (chars_of "[")
  | SendEnd => as_bytes (chars_of "]")
  | Bytes true b => b
  | Bytes false b => (rev (rev b ++ as_bytes (chars_of ",")))%list
  end.

(** ** tls.rs: the identity of a connection

    One cell is shared by all connections: the verifier writes the identity of a verified
    certificate into it during the handshake, and the task of the connection takes it after
    the handshake. *)
Inductive TlsEvent : Type := Verify (h : ClientHash) | Accept (conn : nat).

Definition tls_step (st : ClientIdentifier * list (nat * ClientIdentifier)) (e : TlsEvent) :
  ClientIdentifier * list (nat * ClientIdentifier) :=
  match e with
  | Verify h => (Known h, st.2)
  | Accept n => let '(id, cell) := retrieve_and_reset st.1 in (cell, (st.2 ++ [(n, id)])%list)
  end.

Definition tls_run (es : list TlsEvent) : list (nat * ClientIdentifier) :=
  (foldl tls_step (Unknown_, []) es).2.

(** ** The handler *)
Record Context := mkContext {
  ctx_mode : Mode; ctx_api_key : option string; enable_get_scans : bool; sched_config : SchedulerConfig
}.

Record Daemon (D X L : Type) := mkDaemon {
  scheduler : Sched.Scheduler D X; notus_ : option (@Notus.Notus L); uuids : nat
}.
Arguments mkDaemon {D X L}.
Arguments scheduler {D X L}.
Arguments notus_ {D X L}.
Arguments uuids {D X L}.

Section Entry.
Context {D X L : Type} `{Database D} `{ScanRunner X} `{ProductLoader L} `{NotusRegex}.
Context `{Identities} `{RequestJson} `{DbErrorText} `{SchedErrorText} `{BuildProfile} `{HashOrder}.
Context (ctx : Context).

Abbreviation Handler E := (M (Daemon D X L) E).

Definition set_scheduler (d : Daemon D X L) (s : Sched.Scheduler D X) : Daemon D X L :=
  mkDaemon s (notus_ d) (uuids d).
Definition set_notus (d : Daemon D X L) n : Daemon D X L := mkDaemon (scheduler d) n (uuids d).

Definition on_scheduler {E A} (m : M (Sched.Scheduler D X) E A) : Handler E A := fun d =>
  let '(o, s) := m (scheduler d) in (o, set_scheduler d s).

(** The result of a call of the scheduler, to be matched on. *)
Definition try_ {E E' A} (m : M (Sched.Scheduler D X) E A) : Handler E' (A + E) := fun d =>
  match on_scheduler m d with
  | (Ok a, d') => (Ok (inl a), d')
  | (Err e, d') => (Ok (inr e), d')
  | (Panic, d') => (Panic, d')
  | (OutOfFuel, d') => (OutOfFuel, d')
  end.

(** A call followed by [?]: the service answers with an error. *)
Definition storage_call {A} (m : M (Sched.Scheduler D X) DbError.t A) : Handler ScanError.t A :=
  err_into scan_error_of (on_scheduler m).

Definition on_notus {A} (n : @Notus.Notus L) (m : M (@Notus.Notus L) NotusError.t A) :
  Handler ScanError.t (A + NotusError.t) := fun d =>
  let '(o, n') := m n in
  (match o with Ok a => Ok (inl a) | Err e => Ok (inr e) | Panic => Panic | OutOfFuel => OutOfFuel end,
   set_notus d (Some n')).

(** [json_request] *)
Definition json_request {A} (read : list byte -> option A) (req : Request) : A + Response :=
  match req_body req with
  | None => inr internal_server_error
  | Some b => match read b with Some a => inl a | None => inr (bad_request JBadRequest) end
  end.

(** Who a request counts as. *)
Definition key_client (req : Request) (key : string) : option ClientHash :=
  match api_key_header req with
  | Some v => if decide (v = key) then Some (client_hash key) else None
  | None => None
  end.

Definition identify (cid : ClientIdentifier) (req : Request) : option ClientHash :=
  match cid with
  | Disabled =>
      match ctx_api_key ctx with
      | Some key => key_client req key
      | None => Some (client_hash "disabled")
      end
  | Known h => Some h
  | Unknown_ => match ctx_api_key ctx with Some key => key_client req key | None => None end
  end.

(** *** The handlers of the paths *)
Definition post_scan (cid : ClientHash) (req : Request) : Handler ScanError.t Response :=
  match json_request read_scan req with
  | inr resp => mret resp
  | inl scan =>
      d ← get;
      let fresh := bool_decide (scan_id scan = "") in
      let id := if fresh then uuid_v4 (uuids d) else scan_id scan in
      put (mkDaemon (scheduler d) (notus_ d) (if fresh then S (uuids d) else uuids d)) ;;
      storage_call (Sched.insert_scan
        (mkScanModel id (scan_target scan) (scan_preferences scan) (scan_vts scan))) ;;
      storage_call (Sched.add_scan_client_id id cid) ;;
      mret (created id)
  end.

Definition start_answer (id : string) (r : unit + SchedError.t) : Response :=
  match r with
  | inl _ => no_content
  | inr SchedError.ScanRunning | inr SchedError.ScanAlreadyQueued =>
      not_accepted Phase.Requested [Phase.Stored; Phase.Stopped; Phase.Failed; Phase.Succeeded]
  | inr SchedError.NotFound => not_found "scan" id
  | inr SchedError.QueueFull => service_unavailable (JText "Queue is already full. Try again later.")
  | inr SchedError.UnsupportedResume =>
      not_implemented (JText "Resuming task is currently not possible, please create a new scan excluding the finished hosts.")
  | inr _ => internal_server_error
  end.

Definition post_action (now : Z) (id : string) (req : Request) : Handler ScanError.t Response :=
  match json_request read_action req with
  | inr resp => mret resp
  | inl Start => r ← try_ (Sched.start_scan_by_id (sched_config ctx) id); mret (start_answer id r)
  | inl Stop =>
      r ← try_ (Sched.stop_scan now id);
      mret (match r with inl _ => no_content | inr _ => internal_server_error end)
  end.

Definition get_scans (cid : ClientHash) : Handler ScanError.t Response :=
  if enable_get_scans ctx then
    r ← try_ (Sched.get_scans_of_client_id cid);
    mret (match r with inl l => ok_ (JStrings l) | inr _ => internal_server_error end)
  else mret (not_found "scans" "all").

(** [map_password] with a closure that always answers three stars. *)
Definition mask (c : Credential) : Credential :=
  match map_password (T := outcome Empty_set) (fun _ => Ok "***") c with Ok c' => c' | _ => c end.

Definition masked (c : ScanModel) : ScanModel :=
  Inmemory.set_scan_credentials c (mask <$> credentials (scan_target c)).

Definition get_scan_ (id : string) : Handler ScanError.t Response :=
  r ← try_ (Sched.get_scan id);
  mret (match r with
        | inl (scan, _) => ok_ (JScan (masked scan))
        | inr DbError.NotFound => not_found "scans" id
        | inr _ => internal_server_error
        end).

Definition get_scan_status (id : string) : Handler ScanError.t Response :=
  r ← try_ (Sched.get_scan id);
  mret (match r with
        | inl (_, st) => ok_ (JStatus st)
        | inr DbError.NotFound => not_found "scans/status" id
        | inr _ => internal_server_error
        end).

Definition delete_scan_ (id : string) : Handler ScanError.t Response :=
  r ← try_ (Sched.delete_scan_by_id id);
  match r with
  | inl _ => mret no_content
  | inr SchedError.NotFound => mret (not_found "scans" id)
  | inr e => throw (ScanError.Unexpected (sched_error_text e))
  end.

(** [str::parse::<usize>] and the successor, which overflows at the end. *)
Definition parse_usize (s : list char) : option nat := Z.to_nat <$> u64_from_str s.
Definition successor (n : nat) : Handler ScanError.t nat :=
  z ← or_panic (arith_u 64 (Z.of_nat n + 1)); mret (Z.to_nat z).

Definition result_range (rid : option string) (q : option string) :
  Handler ScanError.t (option nat * option nat) :=
  match rid with
  | Some rid =>
      match parse_usize (chars_of rid) with
      | Some n => m ← successor n; mret (Some n, Some m)
      | None => mret (None, None)
      end
  | None =>
      match split_on "="%char [] (chars_of (default "" q)) with
      | w :: parts =>
          if decide (w = chars_of "range") then
            match split_on "-"%char [] (default [] (head parts)) with
            | b :: ends =>
                match parse_usize b, parse_usize (default [] (head ends)) with
                | Some b, Some e => e ← successor e; mret (Some b, Some e)
                | Some b, None => mret (Some b, None)
                | _, _ => mret (None, None)
                end
            | [] => mret (None, None)
            end
          else mret (None, None)
      | [] => mret (None, None)
      end
  end.

Definition get_scan_results (id : string) (rid : option string) (req : Request) :
  Handler ScanError.t Response :=
  '(b, e) ← result_range rid (query req);
  r ← try_ (Sched.get_results id b e);
  mret (match r with
        | inl l => ok_ (Stream l)
        | inr DbError.NotFound => not_found "scans/results" id
        | inr _ => internal_server_error
        end).

Definition get_vts (o : option string) (req : Request) : Handler ScanError.t Response :=
  let meta := bool_decide (query req = Some "information=true")
              || bool_decide (query req = Some "information=1") in
  match o with
  | Some o =>
      r ← storage_call (Sched.vt_by_oid o);
      mret (match r with Some n => ok_ (JNvt n) | None => not_found "nvt" o end)
  | None =>
      if meta then l ← storage_call Sched.vts; mret (ok_ (JNvts l))
      else l ← storage_call Sched.oids; mret (ok_ (JStrings l))
  end.

Definition get_notus : Handler ScanError.t Response :=
  d ← get;
  match notus_ d with
  | Some n =>
      r ← on_notus n Notus.get_available_os;
      mret (match r with inl l => ok_ (JPackages l) | inr _ => internal_server_error end)
  | None => mret (empty 503)
  end.

Definition post_notus (os : string) (req : Request) : Handler ScanError.t Response :=
  match json_request read_packages req with
  | inr resp => mret resp
  | inl packages =>
      d ← get;
      match notus_ d with
      | Some n =>
          r ← on_notus n (Notus.scan (chars_of os) packages);
          mret (match r with
                | inl res => ok_ (JNotus res)
                | inr (NotusError.UnknownProduct _) => not_found "advisories" os
                | inr (NotusError.PackageParseError s) =>
                    bad_request (JNotusError (NotusError.PackageParseError s))
                | inr _ => internal_server_error
                end)
      | None => mret (empty 503)
      end
  end.

Definition get_ready : Handler ScanError.t Response :=
  l ← storage_call Sched.oids;
  mret (if decide (l = []) then empty 503 else empty 200).

Definition route (now : Z) (m : Method) (kp : KnownPaths) (cid : ClientHash) (req : Request) :
  Handler ScanError.t Response :=
  match m, kp with
  | HEAD, Scans None => mret (empty 204)
  | GET, Health Alive | GET, Health Started => mret (empty 200)
  | GET, Health Ready => get_ready
  | GET, Notus_ None => get_notus
  | POST, Notus_ (Some os) => post_notus os req
  | POST, Scans None => post_scan cid req
  | POST, Scans (Some id) => post_action now id req
  | GET, Scans None => get_scans cid
  | GET, ScanPreferences => mret (ok_ Preferences_)
  | GET, Scans (Some id) => get_scan_ id
  | GET, ScanStatus_ id => get_scan_status id
  | DELETE, Scans (Some id) => delete_scan_ id
  | GET, ScanResults_ id rid => get_scan_results id rid req
  | GET, Vts o => get_vts o req
  | _, _ => mret (not_found "path" (req_path req))
  end.

(** [unwrap] on the answer of the database. *)
Definition allowed (id : string) (cid : ClientHash) : Handler ScanError.t bool :=
  r ← try_ (Sched.is_client_allowed id cid);
  match r with inl b => mret b | inr _ => panic end.

Definition guarded (now : Z) (kp : KnownPaths) (cid : ClientHash) (req : Request) :
  Handler ScanError.t Response :=
  match path_scan_id kp with
  | Some id =>
      b ← allowed id cid;
      if (b : bool) then route now (req_method req) kp cid req
      else mret (not_found "scans" id)
  | None => route now (req_method req) kp cid req
  end.

(** [EntryPoint::call] *)
Definition call (now : Z) (client : ClientIdentifier) (req : Request) : Handler ScanError.t Response :=
  let kp := from_path (req_path req) (ctx_mode ctx) in
  if bool_decide (req_method req = HEAD) && negb (bool_decide (kp = Scans None))
  then mret (empty 200)
  else
    match identify client req with
    | None =>
        if requires_id kp then mret unauthorized else guarded now kp default_client req
    | Some cid => guarded now kp cid req
    end.
End Entry.
