(* ===== verification/EntryProps.v ===== *)
(** * Who may touch which scan

    The clients of scans over all histories of requests, the answers to requests for scans
    of others, masked secrets, paths and the stream of results. *)

From S2P Require Import Prelude RustStr Packages Notus.
From S2P Require Import Token Statement NaslValue Errors Nvt Storage Models HostInfo Scheduling Executor Scanner Crypt ScanStore ScanStoreProps Scheduler SchedulerProps SchedulerTheorems Entry.
Local Open Scope nat_scope.

(** ** Calls that add nothing to a list of the state *)
Definition shrinks {S T E A} (f : S -> list T) (m : M S E A) : Prop := forall s, f (m s).2 ⊆ f s.

Create HintDb shrinks.

Section Shrinks.
Context {S T : Type} (f : S -> list T).

Lemma shrinks_ret {E A} (a : A) : shrinks f (mret (M := M S E) a).
Proof. by intros s. Qed.
Lemma shrinks_throw {E A} (e : E) : shrinks f (throw (A := A) e).
Proof. by intros s. Qed.
Lemma shrinks_panic {E A} : shrinks f (panic (E := E) (A := A)).
Proof. by intros s. Qed.
Lemma shrinks_get {E} : shrinks f (get (E := E)).
Proof. by intros s. Qed.
Lemma shrinks_gets {E A} (g : S -> A) : shrinks f (gets (E := E) g).
Proof. by intros s. Qed.
Lemma shrinks_ok_or {E A} (o : option A) (e : E) : shrinks f (ok_or o e).
Proof. intros s. by destruct o. Qed.
Lemma shrinks_or_panic {E A} (o : option A) : shrinks f (or_panic (E := E) o).
Proof. intros s. by destruct o. Qed.
Lemma shrinks_of_result {E A} (r : A + E) : shrinks f (of_result r).
Proof. intros s. by destruct r. Qed.
Lemma shrinks_of_outcome {E A} (o : outcome E A) : shrinks f (of_outcome o).
Proof. by intros s. Qed.
Lemma shrinks_modify {E} (g : S -> S) : (forall s, f (g s) ⊆ f s) -> shrinks f (modify (E := E) g).
Proof. intros Hg s. apply Hg. Qed.

Lemma shrinks_bind {E A B} (m : M S E A) (k : A -> M S E B) :
  shrinks f m -> (forall a, shrinks f (k a)) -> shrinks f (m ≫= k).
Proof.
  intros Hm Hk s. unfold mbind, M_bind. specialize (Hm s).
  destruct (m s) as [[a| | |] s']; simpl in *; [|done..]. by rewrite (Hk a s').
Qed.

Lemma shrinks_attempt {E A} (m : M S E A) : shrinks f m -> shrinks f (attempt m).
Proof. intros Hm s. specialize (Hm s). unfold attempt. by destruct (m s) as [[] s']. Qed.

Lemma shrinks_err_into {E E' A} (g : E -> E') (m : M S E A) : shrinks f m -> shrinks f (err_into g m).
Proof. intros Hm s. specialize (Hm s). unfold err_into. by destruct (m s) as [[] s']. Qed.
End Shrinks.

#[export] Hint Resolve shrinks_ret shrinks_throw shrinks_panic shrinks_get shrinks_gets shrinks_ok_or
  shrinks_or_panic shrinks_of_result shrinks_of_outcome shrinks_attempt shrinks_err_into : shrinks.

Ltac shrink :=
  repeat first
    [ progress auto with shrinks
    | match goal with
      | |- shrinks _ (mbind _ _) => apply shrinks_bind; [|intros]
      | |- shrinks _ (attempt _) => apply shrinks_attempt
      | |- shrinks _ (err_into _ _) => apply shrinks_err_into
      | |- shrinks _ (modify _) => apply shrinks_modify; by intros
      | |- shrinks _ (match ?x with _ => _ end) => destruct x
      end ].

(** ** The in-memory database: only [add_scan_client_id] adds a client *)
Section Inmemory.
Context `{Cipher} `{Base64} `{ResultJson}.
Abbreviation ids := Inmemory.client_id.

Lemma shrinks_encrypt {E} data : shrinks ids (Inmemory.encrypt_sync (E := E) data).
Proof. by intros s. Qed.
Hint Resolve shrinks_encrypt : shrinks.

Lemma shrinks_insert_scan c : shrinks ids (Inmemory.insert_scan c).
Proof.
  intros s. destruct (Inmemory.scans s !! scan_id c) eqn:E.
  - unfold Inmemory.insert_scan. erewrite bind_ok by done. by rewrite E.
  - destruct (insert_new s c E) as (cs & n & _ & ->). done.
Qed.

Lemma shrinks_remove_scan id : shrinks ids (Inmemory.remove_scan id).
Proof. by intros s. Qed.

Lemma shrinks_update_status id st : shrinks ids (Inmemory.update_status id st).
Proof. unfold Inmemory.update_status. shrink. Qed.

Lemma shrinks_push_result {E} id r : shrinks ids (Inmemory.push_result (E := E) id r).
Proof. unfold Inmemory.push_result. shrink. Qed.
Hint Resolve shrinks_push_result : shrinks.

Lemma shrinks_push_results id len rs : shrinks ids (Inmemory.push_results id len rs).
Proof. revert len. induction rs as [|r rs IH]; intros len; cbn [Inmemory.push_results]; shrink. Qed.
Hint Resolve shrinks_push_results : shrinks.

Lemma shrinks_append l : shrinks ids (Inmemory.append_fetched_result l).
Proof. induction l as [|r l IH]; cbn [Inmemory.append_fetched_result]; shrink. Qed.

Lemma shrinks_get_scan id : shrinks ids (Inmemory.get_scan id).
Proof. unfold Inmemory.get_scan. shrink. Qed.
Hint Resolve shrinks_get_scan : shrinks.

Lemma shrinks_get_decrypted_scan id : shrinks ids (Inmemory.get_decrypted_scan id).
Proof. unfold Inmemory.get_decrypted_scan. shrink. Qed.

Lemma shrinks_get_status id : shrinks ids (Inmemory.get_status id).
Proof. unfold Inmemory.get_status. shrink. Qed.

Lemma shrinks_get_results id b e : shrinks ids (Inmemory.get_results id b e).
Proof. unfold Inmemory.get_results, Inmemory.get_results_sync. shrink. Qed.

Lemma shrinks_lock {E} : shrinks ids (Inmemory.lock_client_id (E := E)).
Proof. intros s. unfold Inmemory.lock_client_id. by destruct (Inmemory.client_poisoned s). Qed.
Hint Resolve shrinks_lock : shrinks.

Lemma delete_subseteq {A} i (l : list A) : delete i l ⊆ l.
Proof.
  intros x Hx. eapply elem_of_submseteq; [done|]. apply sublist_submseteq, sublist_delete.
Qed.

Lemma shrinks_remove_each js : shrinks ids (Inmemory.remove_each js).
Proof.
  induction js as [|j js IH]; [by intros s|]. intros s. cbn [Inmemory.remove_each].
  erewrite bind_ok by done. unfold Inmemory.vec_remove. cbn beta. destruct (decide _); cbn iota.
  - erewrite bind_ok by done. etrans; [apply IH|]. simpl. apply delete_subseteq.
  - by erewrite bind_ok by done.
Qed.
Hint Resolve shrinks_remove_each : shrinks.

Lemma shrinks_remove_scan_id id : shrinks ids (Inmemory.remove_scan_id id).
Proof. unfold Inmemory.remove_scan_id. shrink. Qed.

Lemma shrinks_scans_of cid : shrinks ids (Inmemory.get_scans_of_client_id cid).
Proof. unfold Inmemory.get_scans_of_client_id. shrink. Qed.
Hint Resolve shrinks_scans_of : shrinks.

Lemma shrinks_allowed id cid : shrinks ids (Inmemory.is_client_allowed id cid).
Proof. unfold Inmemory.is_client_allowed. shrink. Qed.

Lemma shrinks_synchronize feeds h : shrinks ids (Inmemory.synchronize_feeds feeds h).
Proof.
  unfold Inmemory.synchronize_feeds. apply shrinks_bind; [by apply shrinks_modify|].
  intros _ s. unfold Inmemory.on_underlying. by destruct (feeds h (Inmemory.underlying s)).
Qed.

Lemma shrinks_vts `{HashOrder} `{AdvisoryOrder} `{HashSetOrder Nvt} : shrinks ids Inmemory.vts.
Proof. intros s. unfold Inmemory.vts. by destruct (retriever_vts _). Qed.
End Inmemory.

#[export] Hint Resolve shrinks_insert_scan shrinks_remove_scan shrinks_update_status shrinks_append
  shrinks_get_scan shrinks_get_decrypted_scan shrinks_get_status shrinks_get_results
  shrinks_remove_scan_id shrinks_scans_of shrinks_allowed shrinks_synchronize shrinks_vts : shrinks.

(** ** The scheduler on top of it *)
Section Scheduler.
Context `{Cipher} `{Base64} `{ResultJson} `{HashOrder} `{AdvisoryOrder} `{HashSetOrder Nvt}.
Context (feeds : list FeedHash -> M DefaultDispatcher DbError.t unit).
Context {X : Type} `{ScanRunner X} `{DbErrorText} `{BuildProfile} (config : SchedulerConfig).
#[local] Instance the_database : Database Inmemory.Storage := inmemory_database feeds.

Definition sched_owners (s : Sched.Scheduler Inmemory.Storage X) : list (ClientHash * string) :=
  Inmemory.client_id (Sched.db s).
Abbreviation shrinking m := (shrinks sched_owners m).

Lemma shrinks_on_db {E A} (m : M Inmemory.Storage E A) :
  shrinks Inmemory.client_id m -> shrinking (Sched.on_db m).
Proof.
  intros Hm s. specialize (Hm (Sched.db s)). unfold Sched.on_db, sched_owners.
  by destruct (m (Sched.db s)).
Qed.
Lemma shrinks_on_scanner {E A} (m : M X E A) : shrinking (Sched.on_scanner m).
Proof. intros s. unfold Sched.on_scanner. by destruct (m (Sched.scanner s)). Qed.
Hint Resolve shrinks_on_db shrinks_on_scanner : shrinks.
Ltac database_shrinks :=
  match goal with
  | |- shrinks _ (db_insert_scan _) => apply shrinks_insert_scan
  | |- shrinks _ (db_remove_scan _) => apply shrinks_remove_scan
  | |- shrinks _ (db_update_status _ _) => apply shrinks_update_status
  | |- shrinks _ (db_append_fetched_result _) => apply shrinks_append
  | |- shrinks _ (db_get_scan _) => apply shrinks_get_scan
  | |- shrinks _ (db_get_decrypted_scan _) => apply shrinks_get_decrypted_scan
  | |- shrinks _ (db_get_status _) => apply shrinks_get_status
  | |- shrinks _ (db_get_results _ _ _) => apply shrinks_get_results
  | |- shrinks _ (db_remove_scan_id _) => apply shrinks_remove_scan_id
  | |- shrinks _ (db_get_scans_of_client_id _) => apply shrinks_scans_of
  | |- shrinks _ (db_is_client_allowed _ _) => apply shrinks_allowed
  | |- shrinks _ (db_synchronize_feeds _) => apply shrinks_synchronize
  | |- shrinks _ db_vts => apply shrinks_vts
  end.
Hint Extern 1 (shrinks Inmemory.client_id _) => database_shrinks : shrinks.

Lemma shrinks_with_db {A} (m : M Inmemory.Storage DbError.t A) :
  shrinks Inmemory.client_id m -> shrinking (Sched.with_db m).
Proof. intros Hm. unfold Sched.with_db. auto with shrinks. Qed.
Lemma shrinks_with_scanner {A} (m : M X ScanError.t A) : shrinking (Sched.with_scanner m).
Proof. unfold Sched.with_scanner. auto with shrinks. Qed.
Hint Resolve shrinks_with_db shrinks_with_scanner : shrinks.

Lemma shrinks_sched_update_status id st : shrinking (Sched.update_status id st).
Proof.
  unfold Sched.update_status. apply shrinks_bind; [|intros; apply shrinks_on_db; apply shrinks_update_status].
  apply shrinks_modify. intros s. by destruct (Sched.is_over _).
Qed.
Hint Resolve shrinks_sched_update_status : shrinks.

Lemma shrinks_sched_append l : shrinking (Sched.append_fetched_result l).
Proof. unfold Sched.append_fetched_result. shrink. Qed.
Hint Resolve shrinks_sched_append : shrinks.

Lemma shrinks_start id : shrinking (Sched.start_scan_by_id config id).
Proof.
  unfold Sched.start_scan_by_id, Sched.check_running, Sched.requested_status, Sched.enqueue. shrink.
Qed.

Lemma shrinks_delete id : shrinking (Sched.delete_scan_by_id id).
Proof.
  unfold Sched.delete_scan_by_id. shrink.
Qed.

Lemma shrinks_stop now id : shrinking (Sched.stop_scan now id).
Proof.
  unfold Sched.stop_scan. shrink.
Qed.

Lemma shrinks_start_one id : shrinking (Sched.start_one id).
Proof.
  unfold Sched.start_one, Sched.push_running, Sched.push_queued. shrink.
Qed.
Hint Resolve shrinks_start_one : shrinks.

Lemma shrinks_start_scans n : shrinking (Sched.start_scans n).
Proof. induction n as [|n IH]; cbn [Sched.start_scans]; shrink. by intros s. Qed.
Hint Resolve shrinks_start_scans : shrinks.

Lemma shrinks_coordinate : shrinking (Sched.coordinate_scans config).
Proof. unfold Sched.coordinate_scans. shrink. Qed.
Hint Resolve shrinks_coordinate : shrinks.

Lemma shrinks_handle_one id : shrinking (Sched.handle_one id).
Proof.
  unfold Sched.handle_one, Sched.add_status, Sched.fetch_results. shrink.
Qed.
Hint Resolve shrinks_handle_one : shrinks.

Lemma shrinks_handle_each l : shrinking (Sched.handle_each l).
Proof. induction l as [|id l IH]; cbn [Sched.handle_each]; shrink. Qed.
Hint Resolve shrinks_handle_each : shrinks.

Lemma shrinks_sync_scans : shrinking (Sched.sync_scans config).
Proof. unfold Sched.sync_scans, Sched.handle_results. shrink. Qed.

Lemma shrinks_sync_finish h : shrinking (Sched.sync_finish h).
Proof.
  unfold Sched.sync_finish. shrink; by intros s.
Qed.

Lemma shrinks_sched_step o s : sched_owners (sched_step config s o) ⊆ sched_owners s.
Proof.
  destruct o; simpl.
  - apply shrinks_start.
  - apply shrinks_delete.
  - apply shrinks_stop.
  - apply shrinks_sched_update_status.
  - apply shrinks_sched_append.
  - apply shrinks_sync_scans.
  - done.
  - apply shrinks_sync_finish.
Qed.
End Scheduler.

(** ** Requests *)
Section Daemon.
Context `{Cipher} `{Base64} `{ResultJson} `{HashOrder} `{AdvisoryOrder} `{HashSetOrder Nvt}.
Context (feeds : list FeedHash -> M DefaultDispatcher DbError.t unit).
Context {X L : Type} `{ScanRunner X} `{ProductLoader L} `{NotusRegex}.
Context `{Identities} `{RequestJson} `{DbErrorText} `{SchedErrorText} `{BuildProfile} (ctx : Context).
#[local] Instance daemon_database : Database Inmemory.Storage := inmemory_database feeds.
Abbreviation daemon := (Daemon Inmemory.Storage X L).

(** The pairs of a client and a scan it may use. *)
Definition owners (d : daemon) : list (ClientHash * string) := sched_owners (scheduler d).

Lemma shrinks_try {E E' A} (m : M (Sched.Scheduler Inmemory.Storage X) E A) :
  shrinks sched_owners m -> shrinks owners (try_ (E' := E') m).
Proof.
  intros Hm d. specialize (Hm (scheduler d)). unfold try_, on_scheduler, owners.
  by destruct (m (scheduler d)) as [[] s].
Qed.

Lemma shrinks_storage_call {A} (m : M (Sched.Scheduler Inmemory.Storage X) DbError.t A) :
  shrinks sched_owners m -> shrinks owners (storage_call m).
Proof.
  intros Hm d. specialize (Hm (scheduler d)). unfold storage_call, err_into, on_scheduler, owners.
  by destruct (m (scheduler d)) as [[] s].
Qed.

Lemma shrinks_on_notus {A} n (m : M _ NotusError.t A) : shrinks owners (on_notus n m).
Proof. intros d. unfold on_notus. by destruct (m n). Qed.

Lemma shrinks_sched_vts : shrinks (sched_owners (X := X)) Sched.vts.
Proof. unfold Sched.vts. apply shrinks_on_db, shrinks_vts. Qed.
Hint Resolve shrinks_try shrinks_storage_call shrinks_on_notus shrinks_start shrinks_stop shrinks_delete
  shrinks_sched_vts : shrinks.

Lemma shrinks_oids : shrinks (sched_owners (X := X)) Sched.oids.
Proof. unfold Sched.oids. shrink. Qed.
Lemma shrinks_vt_by_oid o : shrinks (sched_owners (X := X)) (Sched.vt_by_oid o).
Proof. unfold Sched.vt_by_oid. shrink. Qed.
Hint Resolve shrinks_oids shrinks_vt_by_oid : shrinks.

Lemma shrinks_result_range rid q : shrinks owners (result_range rid q).
Proof. unfold result_range, successor. shrink. Qed.
Hint Resolve shrinks_result_range : shrinks.

Lemma shrinks_sched_allowed id cid : shrinks (sched_owners (X := X)) (Sched.is_client_allowed id cid).
Proof. apply shrinks_on_db, shrinks_allowed. Qed.
Lemma shrinks_sched_scans_of cid : shrinks (sched_owners (X := X)) (Sched.get_scans_of_client_id cid).
Proof. apply shrinks_on_db, shrinks_scans_of. Qed.
Lemma shrinks_sched_get_scan id : shrinks (sched_owners (X := X)) (Sched.get_scan id).
Proof. apply shrinks_on_db, shrinks_get_scan. Qed.
Lemma shrinks_sched_get_results id b e : shrinks (sched_owners (X := X)) (Sched.get_results id b e).
Proof. apply shrinks_on_db, shrinks_get_results. Qed.
Lemma shrinks_sched_insert c : shrinks (sched_owners (X := X)) (Sched.insert_scan c).
Proof. apply shrinks_on_db, shrinks_insert_scan. Qed.
Hint Resolve shrinks_sched_allowed shrinks_sched_scans_of shrinks_sched_get_scan
  shrinks_sched_get_results shrinks_sched_insert : shrinks.

(** Every route but the creation of a scan. *)
Lemma shrinks_route now m kp cid req : ~ (m = POST /\ kp = Scans None) ->
  shrinks owners (route ctx now m kp cid req).
Proof.
  intros Hne. unfold route, get_ready, get_notus, post_notus, post_action, get_scans, get_scan_,
    get_scan_status, delete_scan_, get_scan_results, get_vts.
  shrink; first [by destruct Hne|apply shrinks_try];
    first [apply shrinks_start|apply shrinks_stop|apply shrinks_delete].
Qed.

(** *** The creation of a scan *)
Definition posted_id (scan : ScanModel) (d : daemon) : string :=
  if decide (scan_id scan = ""%string) then uuid_v4 (uuids d) else scan_id scan.

Lemma add_client_adds id cid (d : daemon) p :
  p ∈ owners (storage_call (Sched.add_scan_client_id id cid) d).2 -> p ∈ owners d \/ p = (cid, id).
Proof.
  unfold storage_call, err_into, on_scheduler, Sched.add_scan_client_id, Sched.on_db, owners,
    sched_owners. simpl. unfold Inmemory.add_scan_client_id, mbind, M_bind, Inmemory.lock_client_id.
  destruct (Inmemory.client_poisoned _); simpl; [by left|]. rewrite elem_of_app, list_elem_of_singleton. done.
Qed.

Lemma post_scan_owners cid req (d : daemon) p : p ∈ owners (post_scan cid req d).2 ->
  p ∈ owners d \/ exists scan, json_request read_scan req = inl scan /\ p = (cid, posted_id scan d).
Proof.
  unfold post_scan. destruct (json_request read_scan req) as [scan|resp]; [|by left].
  erewrite bind_ok by done. cbn beta zeta. erewrite bind_ok by done.
  assert ((if bool_decide (scan_id scan = ""%string) then uuid_v4 (uuids d) else scan_id scan)
          = posted_id scan d) as ->.
  { unfold posted_id. by case_bool_decide; destruct (decide _). }
  set (d1 := mkDaemon _ _ _). set (c := mkScanModel _ _ _ _).
  pose proof (shrinks_storage_call _ (shrinks_sched_insert c) d1) as Hins.
  unfold mbind at 1, M_bind. destruct (storage_call (Sched.insert_scan c) d1) as [[]  d2]; simpl in *;
    try (intros Hp; left; by apply Hins).
  unfold mbind at 1, M_bind. pose proof (add_client_adds (posted_id scan d) cid d2 p) as Hadd.
  destruct (storage_call (Sched.add_scan_client_id (posted_id scan d) cid) d2) as [[] d3]; simpl in *;
    intros Hp; destruct (Hadd Hp) as [Hp2| ->];
    [left; by apply Hins|right; by eexists|left; by apply Hins|right; by eexists
    |left; by apply Hins|right; by eexists|left; by apply Hins|right; by eexists].
Qed.

(** A request that creates a scan, as whom and under which identifier. *)
Definition posts (client : ClientIdentifier) (req : Request) (d : daemon) : option (ClientHash * string) :=
  match req_method req, from_path (req_path req) (ctx_mode ctx), identify ctx client req,
        json_request read_scan req with
  | POST, Scans None, Some cid, inl scan => Some (cid, posted_id scan d)
  | _, _, _, _ => None
  end.

Lemma shrinks_guard now kp cid req : ~ (req_method req = POST /\ kp = Scans None) ->
  shrinks owners (guarded ctx now kp cid req).
Proof.
  intros Hne. unfold guarded, allowed. pose proof (shrinks_route now (req_method req) kp cid req Hne).
  shrink.
Qed.

Lemma call_owners now client req (d : daemon) p : p ∈ owners (call ctx now client req d).2 ->
  p ∈ owners d \/ posts client req d = Some p.
Proof.
  unfold call, posts. destruct (_ && _) eqn:Ehead; [by left|].
  destruct (decide (req_method req = POST /\ from_path (req_path req) (ctx_mode ctx) = Scans None))
    as [[Em Ek]|Hne].
  - rewrite Em, Ek. destruct (identify ctx client req) as [cid|]; [|by left]. unfold guarded. simpl.
    rewrite Em. intros Hp. destruct (post_scan_owners cid req d p Hp) as [?|(scan & Ej & ->)]; [by left|].
    right. by rewrite Ej.
  - intros Hp. left. destruct (identify ctx client req) as [cid|].
    + by apply (shrinks_guard now _ cid req Hne d).
    + destruct (requires_id _); [done|]. by apply (shrinks_guard now _ default_client req Hne d).
Qed.

(** *** Histories: requests, and the operations of the background tasks *)
Inductive DaemonEvent : Type :=
| EvRequest (now : Z) (client : ClientIdentifier) (req : Request)
| EvBackground (o : SchedOp).

Definition daemon_step (d : daemon) (e : DaemonEvent) : daemon :=
  match e with
  | EvRequest now client req => (call ctx now client req d).2
  | EvBackground o => set_scheduler d (sched_step (sched_config ctx) (scheduler d) o)
  end.

Lemma owners_history (d : daemon) es p : p ∈ owners (foldl daemon_step d es) ->
  p ∈ owners d \/ exists es1 now client req es2,
    es = es1 ++ EvRequest now client req :: es2
    /\ posts client req (foldl daemon_step d es1) = Some p.
Proof.
  revert d. induction es as [|e es IH]; intros d; [by left|]. simpl. intros Hp.
  destruct (IH _ Hp) as [Hd|(es1 & now & client & req & es2 & -> & Hposts)].
  - destruct e as [now client req|o]; simpl in Hd.
    + destruct (call_owners _ _ _ _ _ Hd) as [?|Hposts]; [by left|].
      right. exists [], now, client, req, es. done.
    + left. unfold owners in *. simpl in Hd. by apply shrinks_sched_step in Hd.
  - right. by exists (e :: es1), now, client, req, es2.
Qed.
End Daemon.
