(* ===== verification/EntryTheorems.v ===== *)
(** * What a client of the daemon can rely on

    Access to scans, masked secrets, results by their number, the paths of the API, and the
    places where identities and identifiers of scans are mixed up. *)

From S2P Require Import Prelude RustStr Packages Notus.
From S2P Require Import Token Statement NaslValue Errors Nvt Storage Models HostInfo Scheduling Executor Scanner Crypt ScanStore DaemonInstances ScanStoreProps Scheduler SchedulerProps SchedulerTheorems Entry EntryProps.
Local Open Scope nat_scope.

(** ** Paths *)
Lemma split_on_sep c acc l r : c ∉ l ->
  split_on c acc (l ++ c :: r) = (rev acc ++ l) :: split_on c [] r.
Proof.
  revert acc. induction l as [|x l IH]; intros acc; simpl.
  - intros _. by rewrite Ascii.eqb_refl, app_nil_r.
  - rewrite not_elem_of_cons. intros [Hne Hn]. rewrite (proj2 (Ascii.eqb_neq x c)) by congruence.
    rewrite IH by done. simpl. by rewrite <- app_assoc.
Qed.

Lemma split_on_end c acc l : c ∉ l -> split_on c acc l = [rev acc ++ l].
Proof.
  revert acc. induction l as [|x l IH]; intros acc; simpl; [by rewrite app_nil_r|].
  rewrite not_elem_of_cons. intros [Hne Hn]. rewrite (proj2 (Ascii.eqb_neq x c)) by congruence.
  rewrite IH by done. simpl. by rewrite <- app_assoc.
Qed.

(** A part of a path: not empty, no slash. *)
Definition plain (s : string) : Prop := s <> ""%string /\ "/"%char ∉ chars_of s.

Definition join_path (parts : list string) : string :=
  foldr (fun p s => String "/" (p ++ s)) ""%string parts.

Lemma split_path p parts : "/"%char ∉ chars_of p -> Forall plain parts ->
  string_of <$> split_on "/"%char [] (chars_of (p ++ join_path parts)) = p :: parts.
Proof.
  revert p. induction parts as [|q parts IH]; intros p Hp Hparts; simpl.
  - rewrite chars_of_app, app_nil_r, split_on_end by done. simpl. by rewrite string_of_chars.
  - apply Forall_cons in Hparts as [[_ Hq] Hparts]. rewrite chars_of_app. cbn [chars_of list_ascii_of_string].
    rewrite split_on_sep by done. rewrite fmap_cons, IH by done. simpl. by rewrite string_of_chars.
Qed.

Lemma path_parts_join parts : Forall plain parts -> path_parts (join_path parts) = parts.
Proof.
  intros Hparts. unfold path_parts. pose proof (split_path "" parts (not_elem_of_nil _) Hparts) as E.
  change (("" ++ join_path parts)%string) with (join_path parts) in E. rewrite E.
  rewrite filter_cons_False by (intros Hn; done). clear E.
  induction Hparts as [|q parts [Hq _] Hparts IH]; [done|].
  rewrite filter_cons_True by done. by f_equal.
Qed.

Definition opt_part (o : option string) : list string := match o with Some s => [s] | None => [] end.

(** The parts of a known path. *)
Definition parts_of (k : KnownPaths) : list string :=
  match k with
  | Scans o => "scans" :: opt_part o
  | ScanPreferences => ["scans"; "preferences"]
  | ScanResults_ id rid => "scans" :: id :: "results" :: opt_part rid
  | ScanStatus_ id => ["scans"; id; "status"]
  | Vts o => "vts" :: opt_part o
  | Health Ready => ["health"; "ready"]
  | Health Started => ["health"; "started"]
  | Health Alive => ["health"; "alive"]
  | Notus_ o => "notus" :: opt_part o
  | UnknownPath => []
  end%string.

Lemma app_empty_r (s : string) : (s ++ "" = s)%string.
Proof. induction s as [|c s IH]; [done|]. exact (f_equal (String c) IH). Qed.

Lemma path_string_join k : k <> UnknownPath -> path_string k = join_path (parts_of k).
Proof.
  destruct k as [[]| |id []|id|[]|[]|[]|]; intros Hk; simpl; rewrite ?app_empty_r; done.
Qed.

(** The identifiers in a path are plain, and no scan is called like the preferences. *)
Definition good_path (k : KnownPaths) : Prop :=
  Forall plain (parts_of k) /\ k <> UnknownPath /\ k <> Scans (Some "preferences"%string).

Lemma path_back k : good_path k -> from_path (path_string k) Service_ = k.
Proof.
  intros (Hp & Hk & Hpref). rewrite path_string_join by done. unfold from_path.
  rewrite path_parts_join by done.
  destruct k as [[id|]| |id [rid|]|id|[]|[]|[]|]; simpl; try done.
  destruct (decide (id = "preferences"%string)) as [->|]; done.
Qed.

(** ** The stream of values is a JSON array *)
Definition comma : list byte := as_bytes (chars_of ",").

Fixpoint join_values (l : list (list byte)) : list byte :=
  match l with
  | [] => []
  | [v] => v
  | v :: l => v ++ comma ++ join_values l
  end.

Lemma frame_rest b : frame (Bytes false b) = comma ++ b.
Proof. simpl. rewrite rev_app_distr, rev_involutive. done. Qed.

Lemma stream_array l :
  concat (frame <$> byte_stream l) = as_bytes (chars_of "[") ++ join_values l ++ as_bytes (chars_of "]").
Proof.
  unfold byte_stream. rewrite fmap_cons. cbn [concat]. f_equal.
  rewrite fmap_app, concat_app. f_equal. destruct l as [|v l]; [done|]. rewrite fmap_cons. cbn [concat frame].
  revert v. induction l as [|w l IH]; intros v; [by rewrite app_nil_r|].
  change (join_values (v :: w :: l)) with (v ++ comma ++ join_values (w :: l)). rewrite <- (IH w).
  f_equal. cbn [map]. rewrite fmap_cons. cbn [concat]. by rewrite frame_rest, <- app_assoc.
Qed.

(** ** Numbers in paths *)
Lemma u64_back n : (Z.of_nat n < 2 ^ 64)%Z -> u64_from_str (chars_of (pretty (Z.of_nat n))) = Some (Z.of_nat n).
Proof.
  intros Hn. destruct n as [|n]; [done|].
  destruct (show_Z_pos (Z.of_nat (S n)) ltac:(lia)) as (c & cs & E & _ & Hdig & Hv). rewrite E.
  unfold u64_from_str. apply Forall_cons in Hdig as [Hc _].
  replace (Ascii.eqb c "+"%char) with false; [|by destruct (Ascii.eqb_spec c "+"%char); subst].
  rewrite Hv. simpl. rewrite (proj2 (in_u_spec 64 _)) by lia. done.
Qed.

(** ** Masks

    A scan with three stars for every password and private key.  User names, algorithms, the
    service, its port and the community of SNMP are not replaced. *)
Definition stars : string := "***".
Definition starred_privilege (p : PrivilegeInformation) : PrivilegeInformation := mkPrivilege (priv_username p) stars.
Definition starred_type (t : CredentialType) : CredentialType :=
  match t with
  | UP user _ privilege => UP user stars (starred_privilege <$> privilege)
  | USK user _ _ privilege => USK user stars stars (starred_privilege <$> privilege)
  | SNMP user _ community auth _ privacy => SNMP user stars community auth stars privacy
  end.
Definition starred (c : ScanModel) : ScanModel :=
  let t := scan_target c in
  mkScanModel (scan_id c)
    (mkTarget (target_hosts t) (target_ports t) (excluded_hosts t)
      (map (fun k => mkCredential (service k) (cred_port k) (starred_type (credential_type k))) (credentials t))
      (alive_test_ports t) (alive_test_methods t) (reverse_lookup_unify t) (reverse_lookup_only t))
    (scan_preferences c) (scan_vts c).
Lemma masked_starred c : masked c = starred c.
Proof.
  unfold masked, starred, Inmemory.set_scan_credentials. f_equal. unfold set_credentials. f_equal.
  apply map_ext. intros [sv po [u p [[]|]|u p k [[]|]|u p co a pp pa]]; done.
Qed.

(** ** Identities of connections *)
Lemma tls_sequential h n st : tls_step (tls_step st (Verify h)) (Accept n) = (Unknown_, st.2 ++ [(n, Known h)]).
Proof. done. Qed.

(** One handshake after the other: every connection gets the identity of its certificate. *)
Lemma tls_in_turn hs :
  tls_run (imap (fun i h => [Verify h; Accept i]) hs ≫= id) = imap (fun i h => (i, Known h)) hs.
Proof.
  unfold tls_run.
  assert (forall n acc, (foldl tls_step (Unknown_, acc)
            (imap (fun i h => [Verify h; Accept (n + i)]) hs ≫= id)).2
          = acc ++ imap (fun i h => (n + i, Known h)) hs) as Hgen; [|exact (Hgen 0 [])].
  induction hs as [|h hs IH]; intros n acc; simpl; [by rewrite app_nil_r|].
  rewrite Nat.add_0_r. rewrite (imap_ext _ (fun i h => [Verify h; Accept (S n + i)]))
    by (intros; simpl; by rewrite Nat.add_succ_r).
  rewrite IH, <- app_assoc. simpl. do 2 f_equal. apply imap_ext. intros; simpl. by rewrite Nat.add_succ_r.
Qed.

(** Two handshakes at once: the first connection is served as the second client, and the
    second one as nobody. *)
Lemma tls_at_once h1 h2 :
  tls_run [Verify h1; Verify h2; Accept 1; Accept 2] = [(1, Known h2); (2, Unknown_)].
Proof. done. Qed.

(** A server certificate without client certificates together with a key stops the daemon
    when it starts. *)
Lemma tls_with_key_panics key : configure_authentication_methods (Some false) (Some key) = Panic.
Proof. done. Qed.

Section Daemon.
Context `{Cipher} `{Base64} `{ResultJson} `{HashOrder} `{AdvisoryOrder} `{HashSetOrder Nvt}.
Context (feeds : list FeedHash -> M DefaultDispatcher DbError.t unit).
Context {X L : Type} `{ScanRunner X} `{ProductLoader L} `{NotusRegex}.
Context `{Identities} `{RequestJson} `{DbErrorText} `{SchedErrorText} `{BuildProfile} (ctx : Context).
#[local] Instance entry_database : Database Inmemory.Storage := inmemory_database feeds.
Abbreviation daemon := (Daemon Inmemory.Storage X L).

Definition store_of (d : daemon) : Inmemory.Storage := Sched.db (scheduler d).

Lemma set_same_db (d : daemon) : set_scheduler d (Sched.set_db (scheduler d) (store_of d)) = d.
Proof. by destruct d as [[] ? ?]. Qed.

Lemma elem_of_client_scans (ids : list (ClientHash * string)) cid id :
  id ∈ (filter (fun p => p.1 = cid) ids).*2 <-> (cid, id) ∈ ids.
Proof.
  rewrite list_elem_of_fmap. split.
  - intros ([c x] & -> & Hf). apply list_elem_of_filter in Hf as [<- Hin]. done.
  - intros Hin. exists (cid, id). split; [done|]. by apply list_elem_of_filter.
Qed.

Lemma allowed_eq id cid (d : daemon) : Inmemory.client_poisoned (store_of d) = false ->
  allowed id cid d = (Ok (bool_decide ((cid, id) ∈ owners d)), d).
Proof.
  intros Hp. unfold allowed. erewrite bind_ok.
  2: { unfold try_, on_scheduler, Sched.is_client_allowed, Sched.on_db. simpl.
       unfold Inmemory.is_client_allowed, Inmemory.get_scans_of_client_id, Inmemory.lock_client_id,
         mbind, M_bind. fold (store_of d). rewrite Hp. simpl. rewrite set_same_db. done. }
  cbn beta iota. unfold mret, M_ret. do 2 f_equal. apply bool_decide_ext. apply elem_of_client_scans.
Qed.

Lemma allowed_poisoned id cid (d : daemon) : Inmemory.client_poisoned (store_of d) = true ->
  allowed id cid d = (Panic, d).
Proof.
  intros Hp. unfold allowed, try_, on_scheduler, Sched.is_client_allowed, Sched.on_db, mbind, M_bind. simpl.
  unfold Inmemory.is_client_allowed, Inmemory.get_scans_of_client_id, Inmemory.lock_client_id, mbind, M_bind.
  fold (store_of d). rewrite Hp. simpl. by rewrite set_same_db.
Qed.

Lemma foreign_refused now client req (d : daemon) cid id :
  path_scan_id (from_path (req_path req) (ctx_mode ctx)) = Some id ->
  identify ctx client req = Some cid -> (cid, id) ∉ owners d ->
  call ctx now client req d
  = (if decide (req_method req = HEAD) then Ok (empty 200)
     else if Inmemory.client_poisoned (store_of d) then Panic else Ok (not_found "scans" id), d).
Proof.
  intros Hpath Hid Hown. unfold call. destruct (decide (req_method req = HEAD)) as [Hm|Hm].
  - rewrite bool_decide_eq_true_2, bool_decide_eq_false_2; [done| |done]. intros E. by rewrite E in Hpath.
  - rewrite bool_decide_eq_false_2 by done. simpl.
    rewrite Hid. unfold guarded. rewrite Hpath. unfold mbind, M_bind.
    destruct (Inmemory.client_poisoned (store_of d)) eqn:Hp; [by rewrite allowed_poisoned|].
    rewrite allowed_eq by done. by rewrite bool_decide_eq_false_2.
Qed.

(** *** Answers with a scan *)
Definition no_scan (o : outcome ScanError.t Response) : Prop :=
  match o with
  | Ok r => match resp_body r with JScan c => False | _ => True end
  | _ => True
  end.

Abbreviation scanless m := (forall d, no_scan (m d).1).

Lemma scanless_bind {A} (m : M daemon ScanError.t A) f : (forall a, scanless (f a)) -> scanless (m ≫= f).
Proof. intros Hf d. unfold mbind, M_bind. destruct (m d) as [[] d']; [apply Hf|done..]. Qed.

Ltac scanless_step :=
  match goal with
  | |- no_scan ((mbind _ _ ?d).1) => revert d; apply scanless_bind; intros ? ?
  | |- no_scan ((match ?x with _ => _ end ?d).1) => destruct x
  | |- no_scan ((mret _ _).1) => cbn
  | |- no_scan ((throw _ _).1) => cbn
  | |- no_scan ((panic _).1) => cbn
  | |- match (match ?x with _ => _ end) with _ => _ end => destruct x; simpl; try done
  end.

Lemma scanless_json {A} (read : list byte -> option A) req resp : json_request read req = inr resp ->
  no_scan (Ok resp).
Proof.
  unfold json_request. destruct (req_body req) as [b|]; [destruct (read b)|]; intros [= <-]; done.
Qed.

(** Only the request for a scan is answered with one. *)
Lemma route_scanless now m kp cid req : (m = GET -> forall id, kp <> Scans (Some id)) -> scanless (route ctx now m kp cid req).
Proof.
  intros Hget d. unfold route. destruct m, kp as [[]| | | | []|[]|[]|]; try done.
  - by destruct (Hget eq_refl s).
  - unfold get_scans. destruct (enable_get_scans ctx); [|done]. scanless_step. cbn. by destruct a.
  - unfold get_scan_results. scanless_step. destruct a as [b e]. scanless_step. cbn. by destruct a as [|[]].
  - unfold get_scan_status. scanless_step. cbn. by destruct a as [[]|[]].
  - unfold get_vts. scanless_step. cbn. by destruct a.
  - unfold get_vts. destruct (_ || _); scanless_step; done.
  - unfold get_ready. scanless_step. cbn. by destruct (decide _).
  - unfold get_notus. scanless_step. destruct (notus_ a); [|done]. scanless_step. cbn. by destruct a0.
  - unfold post_action. destruct (json_request read_action req) as [[]|resp] eqn:E.
    + scanless_step. cbn. by destruct a as [|[]].
    + scanless_step. cbn. by destruct a.
    + exact (scanless_json _ _ _ E).
  - unfold post_scan. destruct (json_request read_scan req) as [c|resp] eqn:E; [|exact (scanless_json _ _ _ E)].
    do 4 scanless_step. done.
  - unfold post_notus. destruct (json_request read_packages req) as [c|resp] eqn:E; [|exact (scanless_json _ _ _ E)].
    scanless_step. destruct (notus_ a); [|done]. scanless_step. cbn. by destruct a0 as [|[]].
  - unfold delete_scan_. scanless_step. by destruct a as [|[]].
Qed.

Lemma get_scan_answer id (d : daemon) r d' c : get_scan_ id d = (Ok r, d') -> resp_body r = JScan c ->
  exists p, Inmemory.scans (store_of d) !! id = Some p /\ c = starred (Inmemory.scan p) /\ d' = d.
Proof.
  unfold get_scan_, try_, on_scheduler, Sched.get_scan, Sched.on_db, mbind, M_bind. simpl.
  unfold Inmemory.get_scan, mbind, M_bind, gets. fold (store_of d).
  destruct (Inmemory.scans (store_of d) !! id) as [p|]; simpl; rewrite set_same_db; intros [= <- <-]; [|done].
  intros [= <-]. exists p. by rewrite masked_starred.
Qed.

Lemma answered_scan now client req (d : daemon) r d' c :
  call ctx now client req d = (Ok r, d') -> resp_body r = JScan c ->
  exists cid id p, from_path (req_path req) (ctx_mode ctx) = Scans (Some id) /\ req_method req = GET
    /\ identify ctx client req = Some cid /\ (cid, id) ∈ owners d
    /\ Inmemory.scans (store_of d) !! id = Some p /\ c = starred (Inmemory.scan p) /\ d' = d.
Proof.
  intros Hcall Hbody. unfold call in Hcall. set (kp := from_path (req_path req) (ctx_mode ctx)) in *.
  destruct (_ && _); [by injection Hcall as <- <-|].
  assert (forall cid, guarded ctx now kp cid req d = (Ok r, d') -> exists id p, kp = Scans (Some id) /\ req_method req = GET
    /\ (cid, id) ∈ owners d /\ Inmemory.scans (store_of d) !! id = Some p /\ c = starred (Inmemory.scan p) /\ d' = d) as Hg.
  { clear Hcall. intros cid Hcall.
    assert (exists id, req_method req = GET /\ kp = Scans (Some id)) as (id & Hm & Hk).
    { unfold guarded in Hcall.
      destruct (match req_method req, kp with GET, Scans (Some id) => Some id | _, _ => None end) as [id|] eqn:Eg.
      { exists id. destruct (req_method req), kp as [[]| | | | | | |]; simplify_eq. done. }
      exfalso.
      assert (forall d0, no_scan (route ctx now (req_method req) kp cid req d0).1) as Hr.
      { apply route_scanless. intros Hm id Hk. by rewrite Hm, Hk in Eg. }
      destruct (path_scan_id kp).
      - unfold mbind, M_bind in Hcall. destruct (allowed s cid d) as [[[]| | |] d1]; try done.
        + specialize (Hr d1). rewrite Hcall in Hr. simpl in Hr. by rewrite Hbody in Hr.
        + by injection Hcall as <- <-.
      - specialize (Hr d). rewrite Hcall in Hr. simpl in Hr. by rewrite Hbody in Hr. }
    exists id. unfold guarded in Hcall. rewrite Hk, Hm in Hcall. simpl in Hcall. unfold mbind, M_bind in Hcall.
    destruct (Inmemory.client_poisoned (store_of d)) eqn:Hp; [by rewrite allowed_poisoned in Hcall|].
    rewrite allowed_eq in Hcall by done. case_bool_decide as Ho; [|by injection Hcall as <- <-].
    destruct (get_scan_answer id d r d' c Hcall Hbody) as (p & ? & ? & ?). eauto 10. }
  destruct (identify ctx client req) as [cid|].
  - destruct (Hg cid Hcall) as (id & p & ? & ? & ? & ? & ? & ?). exists cid, id, p. split_and!; done.
  - destruct (requires_id kp) eqn:Er; [by injection Hcall as <- <-|].
    destruct (Hg default_client Hcall) as (id & p & Hk & _). by rewrite Hk in Er.
Qed.

(** *** Creating a scan under an identifier that is taken *)
Lemma reposted_shared now client req (d : daemon) cid scan p :
  Inmemory.client_poisoned (store_of d) = false ->
  req_method req = POST -> from_path (req_path req) (ctx_mode ctx) = Scans None ->
  identify ctx client req = Some cid -> json_request read_scan req = inl scan ->
  scan_id scan <> ""%string -> Inmemory.scans (store_of d) !! scan_id scan = Some p ->
  exists d',
    call ctx now client req d = (Ok (created (scan_id scan)), d')
    /\ Inmemory.scans (store_of d') !! scan_id scan = Some (Inmemory.set_scan p scan)
    /\ owners d' = owners d ++ [(cid, scan_id scan)]
    /\ allowed (scan_id scan) cid d' = (Ok true, d').
Proof.
  intros Hp Hm Hpath Hid Hj Hne Hs.
  set (d1 := Inmemory.set_scans (store_of d) (<[scan_id scan := Inmemory.set_scan p scan]> (Inmemory.scans (store_of d)))).
  set (d2 := Inmemory.set_client_id d1 (owners d ++ [(cid, scan_id scan)]) false).
  exists (set_scheduler d (Sched.set_db (scheduler d) d2)).
  split; [|split; [apply lookup_insert_eq|split; [done|]]].
  - unfold call. rewrite Hm, Hid, Hpath. simpl. unfold guarded. simpl. rewrite Hm. unfold route, post_scan.
    rewrite Hj. erewrite bind_ok by done. cbn beta zeta. rewrite bool_decide_eq_false_2 by done.
    erewrite bind_ok by done.
    replace (mkScanModel (scan_id scan) (scan_target scan) (scan_preferences scan) (scan_vts scan)) with scan
      by by destruct scan.
    erewrite bind_ok.
    2: { unfold storage_call, err_into, on_scheduler, Sched.insert_scan, Sched.on_db. simpl.
         unfold Inmemory.insert_scan, mbind, M_bind, gets. fold (store_of d). rewrite Hs. done. }
    erewrite bind_ok.
    2: { unfold storage_call, err_into, on_scheduler, Sched.add_scan_client_id, Sched.on_db. simpl.
         unfold Inmemory.add_scan_client_id, mbind, M_bind, Inmemory.lock_client_id. simpl.
         fold (store_of d). rewrite Hp. done. }
    unfold mret, M_ret. done.
  - rewrite allowed_eq by done. rewrite bool_decide_eq_true_2; [done|].
    unfold owners, sched_owners. simpl. rewrite elem_of_app, list_elem_of_singleton. by right.
Qed.
End Daemon.

(** ** The claims *)
Section Claims.
Context `{Cipher} `{Base64} `{ResultJson} `{HashOrder} `{AdvisoryOrder} `{HashSetOrder Nvt}.
Context {X L : Type} `{ScanRunner X} `{ProductLoader L} `{NotusRegex}.
Context `{Identities} `{RequestJson} `{DbErrorText} `{SchedErrorText} `{BuildProfile}.

(** C13: With the store in memory, a request for a scan by a client that may not use it is answered
    with not found and changes nothing, whatever it asks for.  There are two exceptions, which
    change nothing either: HEAD, which is answered before the client is looked at, and a lock that
    a panic has poisoned, at which every such request panics. *)
Theorem foreign_scan_refused feeds (ctx : Context) (now : Z) (client : ClientIdentifier) (req : Request)
  (d : Daemon Inmemory.Storage X L) (cid : ClientHash) (id : string) :
  let _ := inmemory_database feeds in
  path_scan_id (from_path (req_path req) (ctx_mode ctx)) = Some id ->
  identify ctx client req = Some cid -> (cid, id) ∉ owners d ->
  call ctx now client req d
  = (if decide (req_method req = HEAD) then Ok (empty 200)
     else if Inmemory.client_poisoned (store_of d) then Panic else Ok (not_found "scans" id), d).
Proof. exact (foreign_refused feeds ctx now client req d cid id). Qed.

(** C12: Over every history of requests and background operations of a daemon that starts
    without scans, a client may use a scan only if it has itself created a scan under that
    identifier. *)
Theorem access_needs_creation feeds (ctx : Context) (d : Daemon Inmemory.Storage X L)
  (es : list DaemonEvent) (cid : ClientHash) (id : string) :
  let _ := inmemory_database feeds in
  owners d = [] -> (cid, id) ∈ owners (foldl (daemon_step feeds ctx) d es) ->
  exists es1 now client req es2,
    es = es1 ++ EvRequest now client req :: es2
    /\ posts ctx client req (foldl (daemon_step feeds ctx) d es1) = Some (cid, id).
Proof.
  intros _ Hnone Hin. destruct (owners_history feeds ctx d es _ Hin) as [Hd|?]; [|done].
  rewrite Hnone in Hd. by apply not_elem_of_nil in Hd.
Qed.

(** C14: With the store in memory, a scan is answered only to a GET for its identifier by a client
    that may use it, and it is the stored scan with three stars for every password and private
    key; every other part is as stored, and nothing changes. *)
Theorem answered_scan_masked feeds (ctx : Context) (now : Z) (client : ClientIdentifier)
  (req : Request) (d d' : Daemon Inmemory.Storage X L) (r : Response) (c : ScanModel) :
  let _ := inmemory_database feeds in
  call ctx now client req d = (Ok r, d') -> resp_body r = JScan c ->
  exists cid id p, from_path (req_path req) (ctx_mode ctx) = Scans (Some id) /\ req_method req = GET
    /\ identify ctx client req = Some cid /\ (cid, id) ∈ owners d
    /\ Inmemory.scans (store_of d) !! id = Some p /\ c = starred (Inmemory.scan p) /\ d' = d.
Proof. exact (answered_scan feeds ctx now client req d r d' c). Qed.

(** A scan that is created under an identifier that is taken replaces the stored scan, in
    plain text and with the status and the results of the other one, and gives its creator
    access to all of them. *)
Theorem reposted_scan_shared feeds (ctx : Context) (now : Z) (client : ClientIdentifier)
  (req : Request) (d : Daemon Inmemory.Storage X L) (cid : ClientHash) (scan : ScanModel)
  (p : Inmemory.Progress) :
  let _ := inmemory_database feeds in
  Inmemory.client_poisoned (store_of d) = false ->
  req_method req = POST -> from_path (req_path req) (ctx_mode ctx) = Scans None ->
  identify ctx client req = Some cid -> json_request read_scan req = inl scan ->
  scan_id scan <> ""%string -> Inmemory.scans (store_of d) !! scan_id scan = Some p ->
  exists d',
    call ctx now client req d = (Ok (created (scan_id scan)), d')
    /\ Inmemory.scans (store_of d') !! scan_id scan = Some (Inmemory.set_scan p scan)
    /\ owners d' = owners d ++ [(cid, scan_id scan)]
    /\ allowed (scan_id scan) cid d' = (Ok true, d').
Proof. exact (reposted_shared feeds ctx now client req d cid scan p). Qed.
End Claims.

(** The text of every known path, with identifiers that are not empty and contain no
    slash, is read back as that path. *)
Theorem path_roundtrip (k : KnownPaths) : good_path k -> from_path (path_string k) Service_ = k.
Proof. exact (path_back k). Qed.

(** What is sent for a list of results is a JSON array: the values in order, separated by
    commas, between brackets. *)
Theorem results_stream_array (l : list (list byte)) :
  concat (frame <$> byte_stream l) = as_bytes (chars_of "[") ++ join_values l ++ as_bytes (chars_of "]").
Proof. exact (stream_array l). Qed.

(** ** A daemon to evaluate *)
Module EntryExample.
Export SchedulerTheorems.Example.
#[export] Existing Instance split_only.

#[export] Instance names : Identities := {| client_hash := fun s => s; uuid_v4 := fun n => pretty n |}.
#[export] Instance plain_bodies : RequestJson := {|
  read_scan := fun b => (fun l => with_password (string_of l) "x") <$> from_utf8 b;
  read_action := fun _ => Some Start;
  read_packages := fun _ => Some []
|}.
#[export] Instance no_texts : SchedErrorText := {| sched_error_text := fun _ => "" |}.
#[export] Instance no_products : ProductLoader unit := {|
  load_product := fun _ s => inr (NotusError.UnknownProduct s);
  get_products := fun _ => inl [];
  has_changed := fun _ _ _ => false;
  verify_signature := fun _ => Ok tt
|}.

Definition no_feeds : list FeedHash -> M DefaultDispatcher DbError.t unit := fun _ d => (Ok tt, d).
Definition open_context : Context := mkContext Service_ None true two.
Definition fresh_daemon : Daemon Inmemory.Storage unit unit := mkDaemon (idle []) None 0.

Definition post (id : string) : Request :=
  mkRequest POST "/scans" None None (Some (as_bytes (chars_of id))).
Definition get_of (id : string) : Request := mkRequest GET ("/scans/" ++ id) None None None.

Definition step := daemon_step (X := unit) (L := unit) no_feeds open_context.
(** One client has created a scan. *)
Definition created_by_one : Daemon Inmemory.Storage unit unit :=
  step fresh_daemon (EvRequest 0 (Known "one") (post "a")).

Lemma created_unpoisoned : Inmemory.client_poisoned (store_of created_by_one) = false.
Proof. vm_compute. reflexivity. Qed.

Lemma foreign_scan_refused_witness :
  call open_context 0 (Known "two") (get_of "a") created_by_one
  = (Ok (not_found "scans" "a"), created_by_one).
Proof.
  apply (foreign_scan_refused no_feeds open_context 0 (Known "two") (get_of "a") created_by_one "two" "a").
  - vm_compute. reflexivity.
  - reflexivity.
  - apply (bool_decide_eq_false_1 _). vm_compute. reflexivity.
Defined.

Lemma access_needs_creation_witness : exists es1 now client req es2,
  [EvRequest 0 (Known "one") (post "a")] = es1 ++ EvRequest now client req :: es2
  /\ posts open_context client req (foldl step fresh_daemon es1) = Some ("one"%string, "a"%string).
Proof.
  apply (access_needs_creation no_feeds open_context fresh_daemon [EvRequest 0 (Known "one") (post "a")]
    "one" "a").
  - reflexivity.
  - apply (bool_decide_eq_true_1 _). vm_compute. reflexivity.
Defined.

Lemma answered_scan_masked_witness : exists c id p,
  call open_context 0 (Known "one") (get_of "a") created_by_one = (Ok (ok_ (JScan c)), created_by_one)
  /\ Inmemory.scans (store_of created_by_one) !! id = Some p /\ c = starred (Inmemory.scan p).
Proof.
  destruct (call open_context 0 (Known "one") (get_of "a") created_by_one) as [o d'] eqn:E.
  assert (exists c, o = Ok (ok_ (JScan c))) as [c ->].
  { pose proof (f_equal fst E) as E1. vm_compute in E1. eexists. symmetry. exact E1. }
  destruct (answered_scan_masked no_feeds open_context 0 (Known "one") (get_of "a") created_by_one d' _ c E eq_refl)
    as (cid & id & p & _ & _ & _ & _ & Hp & Hc & ->).
  exists c, id, p. split_and!; done.
Defined.

Lemma reposted_scan_shared_witness : exists d',
  call open_context 0 (Known "two") (post "a") created_by_one = (Ok (created "a"), d')
  /\ allowed "a" "two" d' = (Ok true, d').
Proof.
  destruct (reposted_scan_shared no_feeds open_context 0 (Known "two") (post "a") created_by_one
    "two" (with_password "a" "x")
    (default (Inmemory.mkProgress (with_password "a" "x") default_status [])
       (Inmemory.scans (store_of created_by_one) !! "a"%string))) as (d' & Hc & _ & _ & Ha).
  - vm_compute. reflexivity.
  - reflexivity.
  - reflexivity.
  - reflexivity.
  - vm_compute. reflexivity.
  - discriminate.
  - vm_compute. reflexivity.
  - exists d'. auto.
Defined.
End EntryExample.

Lemma path_roundtrip_witness :
  from_path (path_string (ScanResults_ "a" (Some "7"%string))) Service_ = ScanResults_ "a" (Some "7"%string).
Proof.
  apply (path_roundtrip (ScanResults_ "a" (Some "7"%string))). split; [|split; discriminate].
  repeat constructor; try discriminate; apply (bool_decide_eq_false_1 _); vm_compute; reflexivity.
Defined.
