(* ===== verification/Scannerctl.v ===== *)
(** * The transformations of scannerctl

    [scannerctl/osp]: the command [start_scan] of ospd as scannerctl reads and prints it
    ([start_scan.rs]) and its transformation into a scan ([mod.rs]); [scannerctl/scanconfig.rs]:
    port lists and scan configurations of the manager as parts of a scan.  An XML element is
    the list of its attributes and children with their names, as the code gets it from serde;
    the texts of XML and JSON are the business of [quick_xml] and [serde_json] (class
    [CtlFormats]).  Theorems: which ports, credentials and settings survive being printed and
    read as children of elements, which tests are chosen, and what that does not depend on. *)

From stdpp Require Import sorting.
From S2P Require Import Prelude RustStr Token Statement NaslValue Errors Register Executor FnArgs Files StringFns StringFnsProps Text Nvt Storage Models Scheduling HostInfo Scanner Crypt ScanStore Scheduler Osp Packages PackagesProps.
Local Open Scope string_scope.

(** ** osp/start_scan.rs *)
Record CtlCredential := mkCtlCredential {
  cc_kind : string; cc_service : string; cc_port : option string; cc_fields : list (string * string)
}.
(** [Credentials] *)
Abbreviation CtlCredentials := (option (list CtlCredential)).
Record CtlTarget := mkCtlTarget {
  ct_hosts : list string; ct_ports : option (list Port); ct_alive_test_ports : option (list Port);
  ct_alive_test_methods : option (list AliveTestMethods.t); ct_exclude_hosts : option (list string);
  ct_finished_hosts : option (list string); ct_reverse_lookup_unify : option bool; ct_reverse_lookup_only : option bool;
  ct_credentials : option CtlCredentials
}.
Definition default_ctl_target : CtlTarget := mkCtlTarget [] None None None None None None None None.

(** *** Into the models *)
Definition find_key (key : string) (x : list (string * string)) : option string := snd <$> List.find (fun kv => bool_decide (kv.1 = key)) x.
Definition field_or_empty (key : string) (x : list (string * string)) : string := default "" (find_key key x).
Definition credential_of (x : CtlCredential) : Credential :=
  let key k := field_or_empty k (cc_fields x) in
  let username := key "username" in
  let password := key "password" in
  let privilege := (fun y => mkPrivilege y (key "priv_password")) <$> find_key "priv_username" (cc_fields x) in
  let kind :=
    if decide (cc_kind x = "usk") then USK username password (key "private") privilege
    else if decide (cc_kind x = "snmp") then
      Models.SNMP username password (key "community") (key "auth_algorithm") (key "privacy_password") (key "privacy_algorithm")
    else UP username password privilege in
  mkCredential (match Service.try_from (cc_service x) with inl s => s | inr _ => Service.SSH end)
    (cc_port x ≫= u_from_str 16) kind.
Definition credentials_of (o : CtlCredentials) : list Credential := map credential_of (default [] o).
Definition target_of (val : CtlTarget) : Target :=
  mkTarget (ct_hosts val) (default [] (ct_ports val)) (default [] (ct_exclude_hosts val))
    (default [] (credentials_of <$> ct_credentials val)) (default [] (ct_alive_test_ports val))
    (default [] (ct_alive_test_methods val)) (ct_reverse_lookup_unify val) (ct_reverse_lookup_only val).

(** *** Ports *)

(** [r.parse::<usize>().unwrap()]; [None] panics. *)
Definition parse_port (s : string) : option nat := Z.to_nat <$> u_from_str 64 s.
Definition range_from (p : string) : option PortRange :=
  match split_text "-" p with
  | [] => Some (mkPortRange 0 None)
  | [a] => start ← parse_port a; Some (mkPortRange start None)
  | [a; b] => start ← parse_port a; stop ← parse_port b; Some (mkPortRange start (Some stop))
  | _ => None
  end.
Fixpoint ports_from_pieces (protocol : option Protocol) (l : list string) : option (list Port) :=
  match l with
  | [] => Some []
  | p :: l =>
      if decide (p = "T") then ports_from_pieces (Some TCP) l
      else if decide (p = "U") then ports_from_pieces (Some UDP) l
      else r ← range_from p; rest ← ports_from_pieces protocol l; Some (mkPort protocol [r] :: rest)
  end.
(** The outer option is a panic. *)
Definition ports_from_ospd_string (ports : option string) : option (option (list Port)) :=
  match ports with
  | None => Some None
  | Some ports => Some <$> ports_from_pieces None (split_text "," ports ≫= split_text ":")
  end.

Definition range_to_string (r : list PortRange) : string := join_text "," (map port_range_string r).
(** The texts for TCP and for UDP *)
Definition push_port (acc : list string * list string) (x : Port) : list string * list string :=
  let rs := range_to_string (range x) in
  if decide (rs = "") then acc
  else match port_protocol x with
       | Some TCP => (acc.1 ++ [rs], acc.2)%list
       | Some UDP => (acc.1, acc.2 ++ [rs])%list
       | None => (acc.1 ++ [rs], acc.2 ++ [rs])%list
       end.
Definition ports_to_ospd_string (ports : option (list Port)) : option string :=
  ports ← ports;
  match foldl push_port ([], []) ports with
  | ([], []) => None
  | (tcp, []) => Some ("T:" ++ join_text "," tcp)
  | ([], udp) => Some ("U:" ++ join_text "," udp)
  | (tcp, udp) => Some ("T:" ++ join_text "," tcp ++ ",U:" ++ join_text "," udp)
  end.

Definition lowercase_text (s : string) : string := string_of (map to_lowercase (chars_of s)).
Definition ospd_string_to_bool (v : string) : bool := bool_decide (lowercase_text v ∈ ["1"; "true"; "yes"]).
Definition bool_to_ospd_string (v : bool) : string := if v then "1" else "0".

(** *** Printing and reading a target *)

(** The value of a child: nothing, a text, children with texts, credentials. *)
Inductive CtlValue :=
| VNone | VText (s : string) | VFields (l : list (string * string)) | VCredentials (c : option CtlCredentials).
Abbreviation Entries := (list (string * CtlValue)).
Definition value_of (o : option string) : CtlValue := match o with Some s => VText s | None => VNone end.

Section Targets.
Context `{HashOrder}.
Definition method_field (m : AliveTestMethods.t) : string * string :=
  match m with
  | AliveTestMethods.TcpAck => ("icmp_ack", "1")
  | AliveTestMethods.Icmp => ("icmp", "1")
  | AliveTestMethods.Arp => ("arp", "1")
  | AliveTestMethods.ConsiderAlive => ("consider_alive", "1")
  | AliveTestMethods.TcpSyn => ("tcp_sync", "1")
  end.
Definition serialize_target (t : CtlTarget) : Entries :=
  let ospd_bool (key : string) (o : option bool) : Entries :=
    match o with Some x => [(key, VText (bool_to_ospd_string x))] | None => [] end in
  let hosts (key : string) (o : option (list string)) : Entries :=
    match o with Some v => [(key, VText (join_text "," v))] | None => [] end in
  ([("hosts", VText (join_text "," (ct_hosts t))); ("ports", value_of (ports_to_ospd_string (ct_ports t)))]
   ++ match ct_alive_test_ports t with
      | Some alp => [("alive_test_ports", value_of (ports_to_ospd_string (Some alp)))]
      | None => []
      end
   ++ match ct_alive_test_methods t with
      | Some atm =>
          let fields := iter (collect_map (map method_field atm)) in
          match fields with [] => [] | _ => [("alive_test_methods", VFields fields)] end
      | None => []
      end
   ++ hosts "exclude_hosts" (ct_exclude_hosts t)
   ++ hosts "finished_hosts" (ct_finished_hosts t)
   ++ [("credentials", VCredentials (ct_credentials t))]
   ++ ospd_bool "reverse_lookup_only" (ct_reverse_lookup_only t)
   ++ ospd_bool "reverse_lookup_unify" (ct_reverse_lookup_unify t))%list.

(** [map.next_value::<String>()] *)
Definition next_text (v : CtlValue) : option string := match v with VText s => Some s | _ => None end.
Definition next_fields (v : CtlValue) : option (list (string * string)) := match v with VFields l => Some l | _ => None end.
Definition comma_sep_to_vec (v : CtlValue) : option (list string) :=
  hosts ← next_text v; Some (filter (fun x => x <> "") (split_text "," hosts)).
Definition method_of (kv : string * string) : option AliveTestMethods.t :=
  if ospd_string_to_bool kv.2 then
    let k := lowercase_text kv.1 in
    if decide (k = "icmp") then Some AliveTestMethods.Icmp
    else if decide (k = "tcp_syn") then Some AliveTestMethods.TcpSyn
    else if decide (k = "tcp_ack") then Some AliveTestMethods.TcpAck
    else if decide (k = "arp") then Some AliveTestMethods.Arp
    else if decide (k = "consider_alive") then Some AliveTestMethods.ConsiderAlive
    else None
  else None.

(** One child; [None] is an error of the library. *)
Inductive DeError := Library | Custom (s : string).
Definition set_entry (t : CtlTarget) (key : string) (v : CtlValue) : outcome DeError CtlTarget :=
  let '(mkCtlTarget hosts ports alp atm ex fin unify only creds) := t in
  let or_panic_ {A B} (o : option A) (f : A -> outcome DeError B) : outcome DeError B := match o with Some a => f a | None => Panic end in
  if decide (key = "hosts") then
    match comma_sep_to_vec v with Some h => Ok (mkCtlTarget h ports alp atm ex fin unify only creds) | None => Err Library end
  else if decide (key = "ports") then
    or_panic_ (ports_from_ospd_string (next_text v)) (fun p => Ok (mkCtlTarget hosts p alp atm ex fin unify only creds))
  else if decide (key = "alive_test_ports") then
    or_panic_ (ports_from_ospd_string (next_text v)) (fun p => Ok (mkCtlTarget hosts ports p atm ex fin unify only creds))
  else if decide (key = "alive_test") then
    match next_text v with
    | Some at_ =>
        match u_from_str 8 at_ with
        | Some n =>
            match AliveTestMethods.try_from n with
            | inl m => Ok (mkCtlTarget hosts ports alp (Some [m]) ex fin unify only creds)
            | inr _ => Err (Custom (at_ ++ " is not a valid number. It must be a number of 1, 2, 4, 8 or 16."))
            end
        | None => Err (Custom (at_ ++ " is not a valid number. It must be a number of 1, 2, 4, 8 or 16."))
        end
    | None => Ok t
    end
  else if decide (key = "alive_test_methods") then
    match next_fields v with
    | Some l =>
        match omap method_of (iter (collect_map l)) with
        | [] => Ok t
        | ms => Ok (mkCtlTarget hosts ports alp (Some ms) ex fin unify only creds)
        end
    | None => Ok t
    end
  else if decide (key = "exclude_hosts") then Ok (mkCtlTarget hosts ports alp atm (comma_sep_to_vec v) fin unify only creds)
  else if decide (key = "finished_hosts") then Ok (mkCtlTarget hosts ports alp atm ex (comma_sep_to_vec v) unify only creds)
  else if decide (key = "credentials") then
    Ok (mkCtlTarget hosts ports alp atm ex fin unify only match v with VCredentials c => c | _ => None end)
  else if decide (key = "reverse_lookup_only") then
    Ok (mkCtlTarget hosts ports alp atm ex fin unify (ospd_string_to_bool <$> next_text v) creds)
  else if decide (key = "reverse_lookup_unify") then
    Ok (mkCtlTarget hosts ports alp atm ex fin (ospd_string_to_bool <$> next_text v) only creds)
  else Ok t.
Fixpoint read_entries (t : CtlTarget) (l : Entries) : outcome DeError CtlTarget :=
  match l with
  | [] => Ok t
  | (key, v) :: l => t ← set_entry t key v; read_entries t l
  end.
Definition deserialize_target (l : Entries) : outcome DeError CtlTarget := read_entries default_ctl_target l.
End Targets.

(** [Credential]: attributes and fields; a field without text is left out. *)
Definition serialize_credential (c : CtlCredential) : list (string * option string) :=
  ([("@type", Some (cc_kind c)); ("@service", Some (cc_service c)); ("@port", cc_port c)]
   ++ map (fun kv => (kv.1, Some kv.2)) (cc_fields c))%list.
Fixpoint read_credential (c : CtlCredential) (l : list (string * option string)) : option CtlCredential :=
  match l with
  | [] => Some c
  | (key, v) :: l =>
      c ← (if decide (key = "@type") then v ← v; Some (mkCtlCredential v (cc_service c) (cc_port c) (cc_fields c))
           else if decide (key = "@service") then v ← v; Some (mkCtlCredential (cc_kind c) v (cc_port c) (cc_fields c))
           else if decide (key = "@port") then Some (mkCtlCredential (cc_kind c) (cc_service c) v (cc_fields c))
           else Some (mkCtlCredential (cc_kind c) (cc_service c) (cc_port c)
             match v with Some v => cc_fields c ++ [(key, v)] | None => cc_fields c end)%list);
      read_credential c l
  end.
Definition deserialize_credential (l : list (string * option string)) : option CtlCredential :=
  read_credential (mkCtlCredential "" "" None []) l.

(** [ScannerParameter] *)
Definition serialize_params (values : list ScanPreference) : list (string * option string) :=
  map (fun x => (pref_id x, Some (pref_value x))) values.
Fixpoint read_params (l : list (string * option string)) : option (list ScanPreference) :=
  match l with
  | [] => Some []
  | (key, v) :: l => value ← v; values ← read_params l; Some (mkPreference key value :: values)
  end.

Record VtValue := mkVtValue { vv_id : string; vv_text : option string }.
Record VtSingle := mkVtSingle { vs_id : string; vs_value : option (list VtValue) }.
Record VtSelection := mkVtSelection { vt_group : option (list string); vt_single : option (list VtSingle) }.
Record StartScan := mkStartScan {
  ss_parallel : option string; ss_id : option string; ss_target : CtlTarget; ss_selection : VtSelection;
  ss_params : list ScanPreference
}.

(** *** From the models *)
Definition privilege_fields (p : option PrivilegeInformation) : list (string * string) :=
  match p with Some p => [("priv_username", priv_username p); ("priv_password", priv_password p)] | None => [] end.
Definition ctl_credential (value : Credential) : CtlCredential :=
  let fields := match credential_type value with
    | UP username password privilege => ([("username", username); ("password", password)] ++ privilege_fields privilege)%list
    | USK username password private_key privilege =>
        ([("username", username); ("password", password); ("private", private_key)] ++ privilege_fields privilege)%list
    | Models.SNMP username password community auth_algorithm privacy_password privacy_algorithm =>
        [("username", username); ("password", password); ("community", community); ("auth_algorithm", auth_algorithm);
         ("privacy_passwor", privacy_password); ("privacy_algorithm", privacy_algorithm)]
    end in
  mkCtlCredential (type_name (credential_type value)) (Service.as_ref (service value)) (pretty <$> cred_port value) fields.
Definition ctl_target (value : Target) : CtlTarget :=
  mkCtlTarget (target_hosts value) (Some (target_ports value)) (Some (alive_test_ports value)) (Some (alive_test_methods value))
    (Some (excluded_hosts value)) None (reverse_lookup_unify value) (reverse_lookup_only value)
    (Some (Some (map ctl_credential (credentials value)))).
Definition ctl_selection (value : list VT) : VtSelection :=
  mkVtSelection None (Some (map (fun x =>
    mkVtSingle (vt_oid x) match parameters x with
      | [] => None
      | l => Some (map (fun p => mkVtValue (pretty (param_id p)) (Some (param_value p))) l)
      end) value)).
Definition start_scan_of (value : ScanModel) : StartScan :=
  mkStartScan None (Some (scan_id value)) (ctl_target (scan_target value)) (ctl_selection (scan_vts value)) (scan_preferences value).

(** ** osp/mod.rs *)
(** The kinds of [CliErrorKind] that a transformation gives. *)
Module CliErrorKind.
Inductive t : Type := StorageError (e : StorageError.t) | MissingArguments (names : list string) | Corrupt (s : string).
End CliErrorKind.

(** [Ord] of tests with their parameters *)
Definition then_cmp (a b : comparison) : comparison := match a with Eq => b | c => c end.
Fixpoint params_cmp (a b : list Parameter_) : comparison :=
  match a, b with
  | [], [] => Eq
  | [], _ => Lt
  | _, [] => Gt
  | x :: a, y :: b =>
      then_cmp (Z.compare (param_id x) (param_id y))
        (then_cmp (str_cmp (chars_of (param_value x)) (chars_of (param_value y))) (params_cmp a b))
  end.
Definition vt_cmp (a b : VT) : comparison :=
  then_cmp (str_cmp (chars_of (vt_oid a)) (chars_of (vt_oid b))) (params_cmp (parameters a) (parameters b)).
Definition vt_le (a b : VT) : Prop := vt_cmp a b <> Gt.
#[global] Instance vt_le_dec : RelDecision vt_le.
Proof. intros a b. unfold vt_le. destruct (vt_cmp a b); [left|left|right]; congruence. Defined.

Section Transform.
Context {S : Type} `{Retriever S} (feed : S).
(** [retrieve_by_field] *)
Definition retrieve_by_field (f : Field) (r : Retrieve) : outcome StorageError.t (list (ContextKey * Field)) :=
  retrieve_by_fields feed [f] r.
Definition field_oid (f : Field) : option string := match f with NVT (Oid oid) => Some oid | _ => None end.

Definition single_vt (x : VtSingle) : VT :=
  mkVT (vs_id x) (omap (fun v => id ← u_from_str 16 (vv_id v); t ← vv_text v; Some (mkParameter id t)) (default [] (vs_value x))).
Definition group_family (f : string) : option string :=
  match (fun kv => (trim_text kv.1, trim_text kv.2)) <$> split_once_text "=" f with
  | Some (k, v) => if decide (k = "family") then Some v else None
  | None => None
  end.
Fixpoint families_vts (l : list string) : outcome CliErrorKind.t (list VT) :=
  match l with
  | [] => Ok []
  | family :: l =>
      fvts ← match retry (fun _ => retrieve_by_field (NVT (Family family)) (GetNVT (Some KOid))) 0 5 with
        | Ok x => Ok (map (fun oid => mkVT oid []) (omap (fun kf => field_oid kf.2) x))
        | Err (StorageError.NotFound _) => Ok []
        | Err e => Err (CliErrorKind.StorageError e)
        | Panic => Panic
        | OutOfFuel => OutOfFuel
        end;
      rest ← families_vts l;
      Ok (fvts ++ rest)%list
  end.
Definition transform_vts (vts : VtSelection) : outcome CliErrorKind.t (list VT) :=
  let result := map single_vt (default [] (vt_single vts)) in
  fvts ← families_vts (omap group_family (default [] (vt_group vts)));
  Ok (merge_sort vt_le (result ++ fvts)%list).

(** JSON, and XML of whole commands; an error of reading is one. *)
Class CtlFormats := { scan_json : ScanModel -> string + string; start_scan_xml : StartScan -> string }.
Context `{CtlFormats}.
Definition transform_start_scan (sc : StartScan) : outcome CliErrorKind.t string :=
  vts ← transform_vts (ss_selection sc);
  let scan := mkScanModel (default "" (ss_id sc)) (target_of (ss_target sc)) (ss_params sc) vts in
  match scan_json scan with inl s => Ok s | inr e => Err (CliErrorKind.Corrupt e) end.
End Transform.

(** [read] is what [quick_xml] makes of the input; the feed is optional. *)
Definition may_transform_start_scan {S} `{Retriever S} `{CtlFormats} (print_back : bool) (feed : option S) (read : option StartScan) :
  option (outcome CliErrorKind.t string) :=
  match read with
  | Some x =>
      if print_back then Some (Ok (start_scan_xml x))
      else match feed with
           | Some feed => Some (transform_start_scan feed x)
           | None => Some (Err (CliErrorKind.MissingArguments ["path"]))
           end
  | None => None
  end.

(** ** scanconfig.rs *)
Record CfgPortRange := mkCfgPortRange { cp_start : nat; cp_end : nat; cp_type : string }.
Definition as_port_range (p : CfgPortRange) : PortRange :=
  mkPortRange (cp_start p) (if decide (cp_end p = 0%nat) then None else Some (cp_end p)).
Definition as_port_list (l : list CfgPortRange) : list Port :=
  let '(tcp, udp, none) := foldl (fun '(tcp, udp, none) p =>
    if decide (cp_type p = "tcp") then (tcp ++ [as_port_range p], udp, none)
    else if decide (cp_type p = "udp") then (tcp, udp ++ [as_port_range p], none)
    else (tcp, udp, none ++ [as_port_range p]))%list ([], [], []) l in
  [mkPort (Some TCP) tcp; mkPort (Some UDP) udp; mkPort None none].

Record CfgPreference := mkCfgPreference { cf_id : Z; cf_value : string; cf_oid : string }.
Record CfgSelector := mkCfgSelector { sel_include : nat; sel_type : nat; sel_family_or_nvt : string }.
Record ScanConfig := mkScanConfig { cfg_preferences : list CfgPreference; cfg_selectors : list CfgSelector }.
Module CfgError.
Inductive t : Type := ParseError (s : string) | StorageError (e : StorageError.t).
End CfgError.

Definition add_preference (acc : gmap string (list Parameter_)) (p : CfgPreference) : gmap string (list Parameter_) :=
  <[cf_oid p := (default [] (acc !! cf_oid p) ++ [mkParameter (cf_id p) (cf_value p)])%list]> acc.
Definition preference_lookup (l : list CfgPreference) : gmap string (list Parameter_) := foldl add_preference ∅ l.

Section ScanConfigs.
Context {S : Type} `{Retriever S} (retriever : S).
Definition oid_to_vt (prefs : gmap string (list Parameter_)) (oid : string) : VT := mkVT oid (default [] (prefs !! oid)).
Definition is_not_already_present (vts : list VT) (oid : string) : bool := negb (existsb (fun vt => bool_decide (vt_oid vt = oid)) vts).
Definition not_present (vts : list VT) (o : option string) : option string :=
  oid ← o; if is_not_already_present vts oid then Some oid else None.
(** The tests that a selector stands for *)
Definition select_oids (vts : list VT) (s : CfgSelector) : outcome CfgError.t (list string) :=
  if decide (sel_type s = 2%nat) then Ok (if is_not_already_present vts (sel_family_or_nvt s) then [sel_family_or_nvt s] else [])
  else if decide (sel_type s = 1%nat) then
    match retrieve_by_field retriever (NVT (Family (sel_family_or_nvt s))) (GetNVT (Some KOid)) with
    | Ok l => Ok (omap (fun kf => not_present vts (field_oid kf.2)) l)
    | Err e => Err (CfgError.StorageError e)
    | Panic => Panic
    | OutOfFuel => OutOfFuel
    end
  else
    match retrieve retriever default_key (GetNVT (Some KOid)) with
    | Ok l => Ok (omap (fun f => not_present vts (field_oid f)) l)
    | Err e => Err (CfgError.StorageError e)
    | Panic => Panic
    | OutOfFuel => OutOfFuel
    end.
Fixpoint select_all (vts : list VT) (l : list CfgSelector) : outcome CfgError.t (list string) :=
  match l with
  | [] => Ok []
  | s :: l => oids ← select_oids vts s; rest ← select_all vts l; Ok (oids ++ rest)%list
  end.
(** [read] is what [quick_xml] makes of the file, or its error. *)
Definition parse_vts (read : ScanConfig + string) (vts : list VT) : outcome CfgError.t (list VT) :=
  match read with
  | inr e => Err (CfgError.ParseError ("Error parsing vts: " ++ e))
  | inl result =>
      let prefs := preference_lookup (cfg_preferences result) in
      oids ← select_all vts (cfg_selectors result);
      Ok (map (oid_to_vt prefs) oids)
  end.
Definition parse_portlist (read : list CfgPortRange + string) : outcome CfgError.t (list Port) :=
  match read with
  | inl l => Ok (as_port_list l)
  | inr e => Err (CfgError.ParseError ("Error parsing port list: " ++ e))
  end.

#[global] Instance param_eq_dec : EqDecision Parameter_.
Proof. solve_decision. Defined.
#[global] Instance vt_eq_dec : EqDecision VT.
Proof. solve_decision. Defined.
(** The scan with the tests of all configurations, each once and in the order [order] of a
    [HashSet], and with the ports of the list. *)
Fixpoint parse_configs (configs : list (ScanConfig + string)) (vts : list VT) : outcome CfgError.t (list VT) :=
  match configs with
  | [] => Ok []
  | c :: configs => a ← parse_vts c vts; rest ← parse_configs configs vts; Ok (a ++ rest)%list
  end.
Definition enrich_scan (order : list VT -> list VT) (scan : ScanModel) (port_list : option (list CfgPortRange + string))
  (configs : list (ScanConfig + string)) : outcome CfgError.t ScanModel :=
  ports ← match port_list with Some pl => parse_portlist pl | None => Ok [] end;
  vts ← parse_configs configs (scan_vts scan);
  let t := scan_target scan in
  Ok (mkScanModel (scan_id scan)
    (mkTarget (target_hosts t) ports (excluded_hosts t) (credentials t) (alive_test_ports t) (alive_test_methods t)
      (reverse_lookup_unify t) (reverse_lookup_only t))
    (scan_preferences scan) (scan_vts scan ++ order (remove_dups vts))%list).
End ScanConfigs.

(** ** Theorems *)

(** *** Texts of ports *)
Lemma pretty_nat_Z (n : nat) : pretty n = pretty (Z.of_nat n).
Proof. by destruct n. Qed.
Definition port_in_range (n : nat) : Prop := (Z.of_nat n < 2 ^ 64)%Z.
Lemma parse_port_pretty n : port_in_range n -> parse_port (pretty n) = Some n.
Proof.
  intros Hn. unfold parse_port. rewrite pretty_nat_Z, u_from_str_pretty; [cbn; by rewrite Nat2Z.id|lia|].
  apply in_u_spec; unfold port_in_range in *; lia.
Qed.
Definition range_ok (r : PortRange) : Prop := port_in_range (pr_start r) /\ match pr_end r with Some e => port_in_range e | None => True end.
Lemma range_chars (c : char) (r : PortRange) : is_ascii_digit c = false -> c <> "-"%char -> c ∉ chars_of (port_range_string r).
Proof.
  intros Hc Hm. unfold port_range_string. destruct (pr_end r) as [e|]; rewrite ?pretty_nat_Z; [|by apply pretty_Z_chars].
  rewrite !chars_app. rewrite !elem_of_app. intros [Hin|[Hin|Hin]]; [by eapply pretty_Z_chars| |by eapply pretty_Z_chars].
  apply list_elem_of_singleton in Hin. done.
Qed.
Lemma split_dash r : split_text "-" (port_range_string r) = match pr_end r with Some e => [pretty (pr_start r); pretty e] | None => [pretty (pr_start r)] end.
Proof.
  assert (forall n : nat, "-"%char ∉ chars_of (pretty n)) as Hdash.
  { intros n. rewrite pretty_nat_Z. intros Hin. destruct (decide (n = 0%nat)) as [->|Hn]; [by apply list_elem_of_singleton in Hin|].
    destruct (show_Z_pos (Z.of_nat n) ltac:(lia)) as (d & ds & E & _ & Hd & _). rewrite E in Hin. rewrite Forall_forall in Hd.
    by apply Hd in Hin. }
  assert (forall l : list nat, l <> [] -> split_text "-" (join_text "-" (map pretty l)) = map pretty l) as Hsplit.
  { intros l Hl. apply split_text_join; [by destruct l|]. apply Forall_map, Forall_true. intros n. apply Hdash. }
  unfold port_range_string. destruct (pr_end r) as [e|].
  - etrans; [|exact (Hsplit [pr_start r; e] ltac:(done))]. f_equal. unfold join_text. rewrite <- (string_of_chars (_ ++ _)). by rewrite !chars_app.
  - etrans; [|exact (Hsplit [pr_start r] ltac:(done))]. f_equal. unfold join_text. cbn [map joined]. by rewrite string_of_chars.
Qed.
Lemma range_from_string r : range_ok r -> range_from (port_range_string r) = Some r.
Proof.
  intros [Hs He]. unfold range_from. rewrite split_dash. destruct r as [s [e|]]; cbn in *; by rewrite !parse_port_pretty.
Qed.
Lemma range_not_tag r : port_range_string r <> "T" /\ port_range_string r <> "U".
Proof.
  split; intros E; [apply (range_chars "T"%char r)|apply (range_chars "U"%char r)]; try done; rewrite E; by apply list_elem_of_singleton.
Qed.
Lemma range_not_empty r : port_range_string r <> "".
Proof. intros E. pose proof (split_dash r) as Hs. rewrite E in Hs. destruct (pr_end r); [done|]. injection Hs as Hs.
  rewrite pretty_nat_Z in Hs.
  destruct (decide (pr_start r = 0%nat)) as [Hz|Hz]; [by rewrite Hz in Hs|].
  destruct (show_Z_pos (Z.of_nat (pr_start r)) ltac:(lia)) as (d & ds & Ec & _). by rewrite <- Hs in Ec.
Qed.

Lemma pieces_of_ranges protocol rs rest : Forall range_ok rs ->
  ports_from_pieces protocol (map port_range_string rs ++ rest)%list
  = (fun l => map (fun r => mkPort protocol [r]) rs ++ l)%list <$> ports_from_pieces protocol rest.
Proof.
  induction 1 as [|r rs Hr Hrs IH]; cbn; [by destruct (ports_from_pieces protocol rest)|]. destruct (range_not_tag r) as [HT HU].
  rewrite !decide_False by done. rewrite range_from_string by done. cbn. rewrite IH. by destruct (ports_from_pieces protocol rest).
Qed.

Lemma joined_app s (l l' : list (list char)) : l <> [] -> l' <> [] -> joined s (l ++ l') = (joined s l ++ s ++ joined s l')%list.
Proof.
  intros Hl Hl'. induction l as [|x l IH]; [done|]. destruct l as [|y l]; [change ([x] ++ l')%list with (x :: l'); by rewrite joined_cons|].
  cbn [app]. rewrite joined_cons by done. rewrite (joined_cons s x (y :: l)) by done. cbn [app] in IH. rewrite IH by done. by rewrite <- !app_assoc.
Qed.
Lemma joined_concat s (ls : list (list (list char))) : Forall (fun l => l <> []) ls -> joined s (map (joined s) ls) = joined s (concat ls).
Proof.
  induction 1 as [|l ls Hl Hls IH]; [done|]. destruct ls as [|l' ls]; [cbn; by rewrite app_nil_r|].
  cbn [map]. rewrite joined_cons by done. cbn [map] in IH. rewrite IH. cbn [concat]. rewrite (joined_app s l); [done|done|].
  inversion Hls; subst. by destruct l'.
Qed.

(** The ranges of a list that are for a protocol; an entry without protocol is for both. *)
Definition applies (p : Protocol) (x : Port) : bool :=
  match port_protocol x with None => true | Some q => match q, p with TCP, TCP | UDP, UDP => true | _, _ => false end end.
Definition ranges_of (p : Protocol) (x : Port) : list PortRange := if applies p x then range x else [].
Definition ranges_for (p : Protocol) (ports : list Port) : list PortRange := concat (map (ranges_of p) ports).
Definition groups_for (p : Protocol) (ports : list Port) : list (list PortRange) := filter (fun l => l <> []) (map (ranges_of p) ports).
Lemma groups_concat p ports : concat (groups_for p ports) = ranges_for p ports.
Proof.
  unfold groups_for, ranges_for. induction (map (ranges_of p) ports) as [|l ls IH]; [done|]. rewrite filter_cons.
  case_decide as Hl; cbn; [by rewrite IH|]. by rewrite Hl.
Qed.
Lemma groups_cons p x ports : groups_for p (x :: ports) =
  ((if applies p x then if decide (range x = []) then [] else [range x] else []) ++ groups_for p ports)%list.
Proof.
  unfold groups_for. cbn [map]. rewrite filter_cons.
  assert (ranges_of p x = if applies p x then range x else []) as E by done. rewrite E. destruct (applies p x); [|done].
  destruct (decide (range x = [])) as [Er|Er]; [by rewrite Er|by rewrite decide_True].
Qed.
Lemma range_to_string_empty rs : range_to_string rs = "" <-> rs = [].
Proof.
  split; [|by intros ->]. intros E. destruct rs as [|r rs]; [done|]. exfalso. apply (range_not_empty r).
  assert (joined (chars_of ",") (map chars_of (map port_range_string (r :: rs))) = []) as Hj.
  { rewrite <- (chars_of_string (joined _ _)). change (string_of (joined (chars_of ",") (map chars_of (map port_range_string (r :: rs)))))
      with (range_to_string (r :: rs)). by rewrite E. }
  rewrite <- (string_of_chars (port_range_string r)). destruct rs as [|r' rs]; cbn [map joined] in Hj; [by rewrite Hj|].
  by apply app_eq_nil in Hj as [-> _].
Qed.
Lemma push_ports ports a b : foldl push_port (a, b) ports
  = (a ++ map range_to_string (groups_for TCP ports), b ++ map range_to_string (groups_for UDP ports))%list.
Proof.
  revert a b. induction ports as [|x ports IH]; intros a b; [cbn; by rewrite !app_nil_r|]. cbn [foldl]. rewrite !groups_cons, !map_app.
  unfold push_port at 2. destruct (decide (range_to_string (range x) = "")) as [He|He].
  - apply range_to_string_empty in He. rewrite IH. rewrite !decide_True by done. by destruct (applies TCP x), (applies UDP x).
  - assert (range x <> []) as Hne by (by intros E%range_to_string_empty). rewrite !decide_False by done. unfold applies.
    destruct (port_protocol x) as [[]|]; cbn; rewrite IH; cbn; by rewrite <- ?app_assoc.
Qed.

Definition tagged (tag : string) (rs : list PortRange) : list string :=
  match map port_range_string rs with [] => [] | x :: l => (tag ++ x) :: l end.
Lemma tagged_text tag p ports : groups_for p ports <> [] ->
  tagged tag (ranges_for p ports) <> [] /\
  tag ++ join_text "," (map range_to_string (groups_for p ports)) = join_text "," (tagged tag (ranges_for p ports)).
Proof.
  intros Hg. rewrite <- groups_concat. assert (Forall (fun l => l <> []) (groups_for p ports)) as Hall.
  { apply Forall_forall. intros l Hl. unfold groups_for in Hl. apply list_elem_of_filter in Hl. by destruct Hl. }
  destruct (groups_for p ports) as [|g gs] eqn:E; [done|]. inversion Hall as [|? ? Hg1 Hgs]; subst. destruct g as [|r rs]; [done|].
  split; [done|]. unfold join_text. rewrite <- (string_of_chars (tag ++ _)). f_equal. rewrite chars_app, chars_of_string.
  assert (map chars_of (map range_to_string ((r :: rs) :: gs)) = map (joined (chars_of ",")) (map (map chars_of) (map (map port_range_string) ((r :: rs) :: gs)))) as ->.
  { rewrite !map_map. apply map_ext. intros l. unfold range_to_string, join_text. by rewrite chars_of_string. }
  rewrite joined_concat; [|cbn; constructor; [done|]; rewrite map_map; apply Forall_map; eapply Forall_impl; [exact Hgs|]; by intros []].
  rewrite <- !concat_map. cbn [concat app map tagged]. rewrite chars_app, joined_prefix. done.
Qed.
Lemma join_text_app (l l' : list string) : l <> [] -> l' <> [] -> join_text "," (l ++ l')%list = join_text "," l ++ "," ++ join_text "," l'.
Proof.
  intros Hl Hl'. unfold join_text. rewrite <- (string_of_chars (_ ++ _)). f_equal. rewrite !chars_app, !chars_of_string, map_app.
  apply joined_app; [by destruct l|by destruct l'].
Qed.
Lemma ports_text ports : ports_to_ospd_string (Some ports)
  = match (tagged "T:" (ranges_for TCP ports) ++ tagged "U:" (ranges_for UDP ports))%list with [] => None | l => Some (join_text "," l) end.
Proof.
  unfold ports_to_ospd_string. cbn [mbind option_bind]. rewrite push_ports. cbn [app].
  assert (forall tag p, groups_for p ports = [] -> tagged tag (ranges_for p ports) = []) as Hnone.
  { intros tag p E. rewrite <- groups_concat, E. done. }
  destruct (groups_for TCP ports) as [|g gs] eqn:ET, (groups_for UDP ports) as [|h hs] eqn:EU.
  - by rewrite !Hnone.
  - rewrite (Hnone "T:" TCP) by done. destruct (tagged_text "U:" UDP ports) as [Hne Ht]; [by rewrite EU|]. rewrite EU in Ht. cbn [map app] in *.
    rewrite Ht. by destruct (tagged "U:" _).
  - rewrite (Hnone "U:" UDP) by done. rewrite app_nil_r. destruct (tagged_text "T:" TCP ports) as [Hne Ht]; [by rewrite ET|]. rewrite ET in Ht.
    cbn [map] in *. rewrite Ht. by destruct (tagged "T:" _).
  - destruct (tagged_text "U:" UDP ports) as [Hne Ht]; [by rewrite EU|]. destruct (tagged_text "T:" TCP ports) as [Hne' Ht']; [by rewrite ET|].
    rewrite ET in Ht'. rewrite EU in Ht. cbn [map] in *.
    transitivity (Some (join_text "," (tagged "T:" (ranges_for TCP ports) ++ tagged "U:" (ranges_for UDP ports))%list));
      [|by destruct (tagged "T:" _)]. f_equal. rewrite join_text_app by done. rewrite <- Ht, <- Ht'.
    rewrite <- (string_of_chars (_ ++ _)), <- (string_of_chars ((_ ++ _) ++ _)). f_equal; rewrite !chars_app; by rewrite <- !app_assoc.
Qed.

Lemma split_tagged tag rs : tag ∈ ["T"; "U"] ->
  tagged (tag ++ ":") rs ≫= split_text ":" = match rs with [] => [] | _ => tag :: map port_range_string rs end.
Proof.
  intros Htag. assert (forall r, split_text ":" (port_range_string r) = [port_range_string r]) as Hone.
  { intros r. etrans; [|apply (split_text_join ":" "" [port_range_string r])]; [|done|constructor; [by apply range_chars|done]].
    f_equal. unfold join_text. cbn [map joined]. by rewrite string_of_chars. }
  assert (forall r, split_text ":" ((tag ++ ":") ++ port_range_string r) = [tag; port_range_string r]) as Htwo.
  { intros r. etrans; [|apply (split_text_join ":" "" [tag; port_range_string r])]; [|done|].
    - f_equal. unfold join_text. rewrite <- (string_of_chars (_ ++ _)). f_equal. by rewrite !chars_app, <- app_assoc.
    - constructor; [|constructor; [by apply range_chars|done]]. set_unfold in Htag. destruct_or!; subst; vm_compute; set_solver. }
  destruct rs as [|r rs]; [done|]. unfold tagged. cbn [map]. rewrite bind_cons, Htwo. cbn [app]. do 2 f_equal.
  induction rs as [|r' rs IH]; [done|]. cbn [map]. rewrite bind_cons, Hone. cbn. by rewrite IH.
Qed.
Lemma tagged_no_comma tag rs : tag ∈ ["T"; "U"] -> Forall (fun x => ","%char ∉ chars_of x) (tagged (tag ++ ":") rs).
Proof.
  intros Htag. assert (Forall (fun x => ","%char ∉ chars_of x) (map port_range_string rs)) as Hall.
  { apply Forall_map, Forall_true. intros r. by apply range_chars. }
  unfold tagged. destruct (map port_range_string rs) as [|x l]; [done|]. inversion Hall; subst. constructor; [|done].
  rewrite !chars_app. set_unfold in Htag. destruct_or!; subst; cbn; set_solver.
Qed.
Definition spelled (p : Protocol) (ports : list Port) : list Port := map (fun r => mkPort (Some p) [r]) (ranges_for p ports).

(** Ports that are printed and read again: first every range for TCP, then every range for
    UDP, each as an entry of its own; an entry without protocol is read as one for each. *)
Theorem ports_printed_and_read (ports : list Port) : Forall (fun x => Forall range_ok (range x)) ports ->
  ports_from_ospd_string (ports_to_ospd_string (Some ports))
  = Some match (spelled TCP ports ++ spelled UDP ports)%list with [] => None | l => Some l end.
Proof.
  intros Hok. assert (forall p, Forall range_ok (ranges_for p ports)) as Hr.
  { intros p. unfold ranges_for. apply Forall_concat, Forall_map. eapply Forall_impl; [exact Hok|]. intros x Hx. unfold ranges_of.
    by destruct (applies p x). }
  rewrite ports_text. set (T := ranges_for TCP ports) in *. set (U := ranges_for UDP ports) in *.
  assert (ports_from_pieces None (match T with [] => [] | _ => "T" :: map port_range_string T end
      ++ match U with [] => [] | _ => "U" :: map port_range_string U end)%list = Some (spelled TCP ports ++ spelled UDP ports)%list) as Hp.
  { unfold spelled. fold T U. assert (forall protocol, ports_from_pieces protocol match U with [] => [] | _ => "U" :: map port_range_string U end
      = Some (map (fun r => mkPort (Some UDP) [r]) U)) as HU.
    { intros protocol. destruct U as [|u U'] eqn:EU; [done|]. rewrite <- EU. cbn [ports_from_pieces]. rewrite decide_False, decide_True by done.
      rewrite <- (app_nil_r (map port_range_string U)). rewrite pieces_of_ranges by (subst U; apply Hr). cbn. by rewrite app_nil_r. }
    destruct T as [|t T'] eqn:ET; [apply HU|]. rewrite <- ET. cbn [ports_from_pieces app]. rewrite decide_True by done.
    rewrite pieces_of_ranges by (subst T; apply Hr). rewrite HU. done. }
  destruct (tagged "T:" T ++ tagged "U:" U)%list as [|x l] eqn:E.
  - unfold spelled. fold T U. apply app_eq_nil in E as [E1 E2]. unfold tagged in *. by destruct T, U.
  - rewrite <- E in *. cbn [ports_from_ospd_string]. rewrite split_text_join.
    + rewrite bind_app. change "T:" with ("T" ++ ":"). change "U:" with ("U" ++ ":"). rewrite !split_tagged by set_solver. rewrite Hp. cbn.
      unfold spelled. fold T U. unfold tagged in E. destruct T, U; done.
    + by rewrite E.
    + apply Forall_app. split; [apply (tagged_no_comma "T")|apply (tagged_no_comma "U")]; set_solver.
Qed.

(** *** Credentials *)

(** What is left of a credential: the password of the privacy protocol is written under a name
    that is not read. *)
Definition surviving (c : Credential) : Credential :=
  mkCredential (service c) (cred_port c)
    match credential_type c with
    | Models.SNMP u p co au _ pa => Models.SNMP u p co au "" pa
    | t => t
    end.
Definition cred_port_ok (c : Credential) : Prop := match cred_port c with Some p => in_u 16 p = true | None => True end.
Lemma credential_of_ctl (c : Credential) : cred_port_ok c -> credential_of (ctl_credential c) = surviving c.
Proof.
  destruct c as [sv port ty]. unfold cred_port_ok. cbn [cred_port]. intros Hp.
  assert ((pretty <$> port) ≫= u_from_str 16 = port) as Hport.
  { destruct port as [p|]; [|done]. cbn. by rewrite u_from_str_pretty. }
  unfold credential_of, surviving, ctl_credential.
  cbn [cc_kind cc_service cc_port cc_fields service cred_port credential_type]. rewrite service_roundtrip, Hport.
  by destruct ty as [u p [[pu pp]|]|u p k [[pu pp]|]|u p co au pw pa].
Qed.
(** The attributes and fields that are printed are those that are read. *)
Lemma credential_read_back (c : Credential) :
  deserialize_credential (serialize_credential (ctl_credential c)) = Some (ctl_credential c).
Proof. destruct c as [sv port ty]. by destruct ty as [u p [[pu pp]|]|u p k [[pu pp]|]|u p co au pw pa]; destruct port. Qed.

(** *** Methods to find hosts alive *)
Section Methods.
Context `{HashOrder}.
Lemma iter_lookup {V} (m : gmap string V) k v : (k, v) ∈ iter m <-> m !! k = Some v.
Proof. rewrite NaslValue.iter_perm. apply elem_of_map_to_list. Qed.
Lemma elem_of_rev {A} (x : A) l : x ∈ rev l <-> x ∈ l.
Proof. by rewrite <- Permutation_rev. Qed.
Lemma collect_ones l k v : collect_map (map method_field l) !! k = Some v <-> v = "1" /\ k ∈ map (fst ∘ method_field) l.
Proof.
  rewrite NaslValue.collect_map_app. split.
  - intros E%elem_of_list_to_map_2. rewrite elem_of_rev in E. apply list_elem_of_fmap in E as (m & E & Hm). split; [by destruct m; injection E as _ ->|].
    apply list_elem_of_fmap. exists m. split; [|done]. cbn. by rewrite <- E.
  - intros [-> Hin]. destruct (list_to_map (rev (map method_field l)) !! k) as [v|] eqn:E.
    + apply elem_of_list_to_map_2 in E. rewrite elem_of_rev in E. apply list_elem_of_fmap in E as (m & E & _). by destruct m; injection E as _ ->.
    + exfalso. apply not_elem_of_list_to_map_2 in E. apply E. change ((rev (map method_field l)).*1) with (map fst (rev (map method_field l))).
      rewrite map_rev, map_map. by apply elem_of_rev.
Qed.

(** The methods that are read from the printed ones. *)
Definition methods_read (l : list AliveTestMethods.t) : list AliveTestMethods.t :=
  omap method_of (iter (collect_map (iter (collect_map (map method_field l))))).
(** Two of the five methods, TCP-ACK and TCP-SYN, are printed under names that are not read. *)
Theorem methods_printed_and_read (l : list AliveTestMethods.t) (m : AliveTestMethods.t) :
  m ∈ methods_read l <-> m ∈ l /\ m ∈ [AliveTestMethods.Icmp; AliveTestMethods.Arp; AliveTestMethods.ConsiderAlive].
Proof.
  unfold methods_read. rewrite NaslValue.collect_iter, list_elem_of_omap. split.
  - intros ([k v] & Hin%iter_lookup%collect_ones & Hm). destruct Hin as [-> Hin]. apply list_elem_of_fmap in Hin as (m' & -> & Hin).
    destruct m'; cbn in Hm; try discriminate Hm; injection Hm as <-; set_solver.
  - intros [Hin Hm]. exists (method_field m). split; [|by set_unfold in Hm; destruct_or!; subst].
    destruct (method_field m) as [k v] eqn:E. apply iter_lookup, collect_ones. split; [by destruct m; injection E as _ <-|].
    apply list_elem_of_fmap. exists m. cbn. by rewrite E.
Qed.
End Methods.

(** *** Whole scans *)
Definition hosts_ok (l : list string) : Prop := Forall (fun x => x <> "" /\ ","%char ∉ chars_of x) l.
Lemma hosts_read l : hosts_ok l -> comma_sep_to_vec (VText (join_text "," l)) = Some l.
Proof.
  intros Hl. unfold comma_sep_to_vec. cbn [next_text mbind option_bind]. f_equal. destruct l as [|x l]; [done|].
  rewrite split_text_join; [|done|eapply Forall_impl; [exact Hl|]; by intros y [_ Hy]].
  unfold hosts_ok in Hl. induction Hl as [|y l' [Hy _] Hl IH]; [done|]. rewrite filter_cons_True by done. by rewrite IH.
Qed.
Definition ports_ok (l : list Port) : Prop := Forall (fun x => Forall range_ok (range x)) l.
Definition target_ok (t : Target) : Prop :=
  hosts_ok (target_hosts t) /\ hosts_ok (excluded_hosts t) /\ ports_ok (target_ports t) /\ ports_ok (alive_test_ports t)
  /\ Forall cred_port_ok (credentials t).

Section Scans.
Context `{HashOrder} {S : Type} `{Retriever S} (feed : S).
Lemma read_entries_app t a b : read_entries t (a ++ b)%list = (t' ← read_entries t a; read_entries t' b).
Proof.
  revert t. induction a as [|[k v] a IH]; intros t; [done|]. cbn [app read_entries]. by destruct (set_entry t k v); cbn.
Qed.
Lemma next_value_of o : next_text (value_of o) = o.
Proof. by destruct o. Qed.
Lemma spelled_read l : ports_ok l ->
  exists o, ports_from_ospd_string (next_text (value_of (ports_to_ospd_string (Some l)))) = Some o
    /\ default [] o = (spelled TCP l ++ spelled UDP l)%list.
Proof.
  intros Hl. exists match (spelled TCP l ++ spelled UDP l)%list with [] => None | x => Some x end.
  split; [by rewrite next_value_of, ports_printed_and_read|by destruct (spelled TCP l ++ spelled UDP l)%list].
Qed.
Lemma bool_read (b : bool) : ospd_string_to_bool (bool_to_ospd_string b) = b.
Proof. by destruct b. Qed.

(** What a child of each kind that is printed does to a target. *)
Lemma hosts_entry h p al m e f u o c l : hosts_ok l ->
  set_entry (mkCtlTarget h p al m e f u o c) "hosts" (VText (join_text "," l)) = Ok (mkCtlTarget l p al m e f u o c).
Proof. intros Hl. unfold set_entry. rewrite decide_True by done. by rewrite hosts_read. Qed.
Lemma exclude_entry h p al m e f u o c l : hosts_ok l ->
  set_entry (mkCtlTarget h p al m e f u o c) "exclude_hosts" (VText (join_text "," l)) = Ok (mkCtlTarget h p al m (Some l) f u o c).
Proof. intros Hl. unfold set_entry. rewrite !decide_False by done. rewrite decide_True by done. by rewrite hosts_read. Qed.
Lemma ports_entry h p al m e f u o c l r : ports_from_ospd_string (next_text (value_of (ports_to_ospd_string (Some l)))) = Some r ->
  set_entry (mkCtlTarget h p al m e f u o c) "ports" (value_of (ports_to_ospd_string (Some l))) = Ok (mkCtlTarget h r al m e f u o c).
Proof. intros Hr. unfold set_entry. rewrite decide_False, decide_True by done. by rewrite Hr. Qed.
Lemma alive_ports_entry h p al m e f u o c l r : ports_from_ospd_string (next_text (value_of (ports_to_ospd_string (Some l)))) = Some r ->
  set_entry (mkCtlTarget h p al m e f u o c) "alive_test_ports" (value_of (ports_to_ospd_string (Some l))) = Ok (mkCtlTarget h p r m e f u o c).
Proof. intros Hr. unfold set_entry. rewrite !decide_False by done. rewrite decide_True by done. by rewrite Hr. Qed.
Lemma credentials_entry h p al m e f u o c x :
  set_entry (mkCtlTarget h p al m e f u o c) "credentials" (VCredentials x) = Ok (mkCtlTarget h p al m e f u o x).
Proof. unfold set_entry. rewrite !decide_False by done. by rewrite decide_True. Qed.
Lemma only_entry h p al m e f u c x :
  read_entries (mkCtlTarget h p al m e f u None c) match x with Some x => [("reverse_lookup_only", VText (bool_to_ospd_string x))] | None => [] end
  = Ok (mkCtlTarget h p al m e f u x c).
Proof.
  destruct x as [x|]; [|done]. unfold read_entries, set_entry. rewrite !decide_False by done. rewrite decide_True by done.
  cbn [next_text fmap option_fmap option_map]. by rewrite bool_read.
Qed.
Lemma unify_entry h p al m e f o c x :
  read_entries (mkCtlTarget h p al m e f None o c) match x with Some x => [("reverse_lookup_unify", VText (bool_to_ospd_string x))] | None => [] end
  = Ok (mkCtlTarget h p al m e f x o c).
Proof.
  destruct x as [x|]; [|done]. unfold read_entries, set_entry. rewrite !decide_False by done. rewrite decide_True by done.
  cbn [next_text fmap option_fmap option_map]. by rewrite bool_read.
Qed.
Lemma methods_entry h p al e f u o c l :
  exists m, read_entries (mkCtlTarget h p al None e f u o c)
      match iter (collect_map (map method_field l)) with
      | [] => []
      | _ => [("alive_test_methods", VFields (iter (collect_map (map method_field l))))]
      end
    = Ok (mkCtlTarget h p al m e f u o c) /\ default [] m = methods_read l.
Proof.
  unfold methods_read. destruct (iter (collect_map (map method_field l))) as [|x fields].
  - exists None. split; [done|]. rewrite NaslValue.collect_map_app. cbn. destruct (iter (∅ : gmap string string)) as [|[k v] r] eqn:E; [done|].
    assert ((k, v) ∈ iter (∅ : gmap string string)) as Hin by (rewrite E; set_solver). by apply iter_lookup in Hin.
  - unfold read_entries, set_entry. rewrite !decide_False by done. rewrite decide_True by done. cbn [next_fields].
    destruct (omap method_of _) as [|y r]; eexists; (split; [reflexivity|done]).
Qed.

Definition target_left (t : Target) : Target :=
  mkTarget (target_hosts t) (spelled TCP (target_ports t) ++ spelled UDP (target_ports t))%list (excluded_hosts t)
    (map surviving (credentials t)) (spelled TCP (alive_test_ports t) ++ spelled UDP (alive_test_ports t))%list
    (methods_read (alive_test_methods t)) (reverse_lookup_unify t) (reverse_lookup_only t).
(** A target that is printed for ospd and read again keeps its hosts, its excluded hosts and its
    settings for names; the ports, methods and credentials are what is said above of each. *)
Lemma target_printed_and_read (t : Target) : target_ok t ->
  exists ct, deserialize_target (serialize_target (ctl_target t)) = Ok ct /\ target_of ct = target_left t.
Proof.
  intros (Hh & He & Hp & Ha & Hc). destruct (spelled_read _ Hp) as (o & Ho & Hod). destruct (spelled_read _ Ha) as (a & Hoa & Had).
  assert (map credential_of (map ctl_credential (credentials t)) = map surviving (credentials t)) as Hcreds.
  { rewrite map_map. apply map_ext_in. intros c Hin. apply credential_of_ctl. rewrite Forall_forall in Hc. apply Hc. by apply list_elem_of_In. }
  unfold deserialize_target, serialize_target, ctl_target, default_ctl_target. cbn [ct_hosts ct_ports ct_alive_test_ports ct_alive_test_methods
    ct_exclude_hosts ct_finished_hosts ct_reverse_lookup_unify ct_reverse_lookup_only ct_credentials].
  rewrite read_entries_app. cbn [read_entries]. rewrite hosts_entry by done. cbn [mbind outcome_bind]. rewrite (ports_entry _ _ _ _ _ _ _ _ _ _ _ Ho).
  cbn [mbind outcome_bind app]. cbn [read_entries]. rewrite (alive_ports_entry _ _ _ _ _ _ _ _ _ _ _ Hoa). cbn [mbind outcome_bind].
  rewrite read_entries_app. edestruct methods_entry as (m & -> & Hm). cbn [mbind outcome_bind app read_entries].
  rewrite exclude_entry by done. cbn [mbind outcome_bind]. rewrite credentials_entry. cbn [mbind outcome_bind].
  rewrite read_entries_app, only_entry. cbn [mbind outcome_bind]. rewrite unify_entry. eexists. split; [reflexivity|].
  unfold target_of, target_left. cbn [ct_hosts ct_ports ct_alive_test_ports ct_alive_test_methods ct_exclude_hosts ct_reverse_lookup_unify
    ct_reverse_lookup_only ct_credentials default fmap option_fmap option_map]. rewrite Hod, Had, Hm. unfold credentials_of. cbn [default]. unfold Datatypes.id. by rewrite Hcreds.
Qed.
End Scans.

(** *** Tests *)

(** The order of tests is total, so that sorting them puts them in order. *)
Lemma then_cmp_opp a b : then_cmp (CompOpp a) (CompOpp b) = CompOpp (then_cmp a b).
Proof. by destruct a. Qed.
Lemma params_cmp_opp a b : params_cmp b a = CompOpp (params_cmp a b).
Proof.
  revert b. induction a as [|x a IH]; intros [|y b]; cbn [params_cmp]; try done.
  by rewrite IH, Z.compare_antisym, str_cmp_opp, !then_cmp_opp.
Qed.
Lemma vt_cmp_opp a b : vt_cmp b a = CompOpp (vt_cmp a b).
Proof. unfold vt_cmp. by rewrite params_cmp_opp, str_cmp_opp, then_cmp_opp. Qed.
#[global] Instance vt_le_total : Total vt_le.
Proof. intros a b. unfold vt_le. rewrite (vt_cmp_opp a b). destruct (vt_cmp a b); cbn; auto; by left. Qed.

(** What the command says of tests is transformed into these tests. *)
Definition params_ok (v : VT) : Prop := Forall (fun p => in_u 16 (param_id p) = true) (parameters v).
Lemma params_read l : Forall (fun p => in_u 16 (param_id p) = true) l ->
  omap (fun v => id ← u_from_str 16 (vv_id v); t ← vv_text v; Some (mkParameter id t))
    (map (fun p => mkVtValue (pretty (param_id p)) (Some (param_value p))) l) = l.
Proof. induction 1 as [|[i v] r Hi _ IH]; [done|]. cbn in *. rewrite u_from_str_pretty by done. cbn. by rewrite IH. Qed.
Lemma single_vts_read l : Forall params_ok l -> map single_vt (default [] (vt_single (ctl_selection l))) = l.
Proof.
  cbn. rewrite map_map. induction 1 as [|[oid ps] l Hp _ IH]; [done|]. cbn [map]. rewrite IH. f_equal. unfold single_vt. cbn. f_equal.
  destruct ps as [|p ps]; [done|]. exact (params_read (p :: ps) Hp).
Qed.

Section Feeds.
Context `{HashOrder} `{AdvisoryOrder} (s : DefaultDispatcher).
Lemma fields_of_oids l : exists r, fields_of KOid l = Ok r /\ omap (fun kf => field_oid kf.2) r = filter (fun o => o <> EmptyString) (map (oid ∘ snd) l).
Proof.
  induction l as [|[f n] l (r & IH & IHr)]; [by exists []|]. cbn [fields_of key_as_field]. rewrite IH. eexists. split; [reflexivity|].
  cbn [map]. unfold compose at 1. cbn [snd]. unfold unless_empty. destruct (decide (oid n = "")) as [E|E].
  - by rewrite filter_cons_False by tauto.
  - rewrite filter_cons_True by done. cbn. by rewrite IHr.
Qed.
(** The tests of a family in the feed *)
Definition family_oids (f : string) : list string :=
  filter (fun o => o <> EmptyString) (map (oid ∘ snd) (List.filter (fun kn => bool_decide (family kn.2 = f)) (keyed_vts s))).
Lemma retrieve_family f : exists r, retrieve_by_field s (NVT (Family f)) (GetNVT (Some KOid)) = Ok r
  /\ omap (fun kf => field_oid kf.2) r = family_oids f.
Proof.
  unfold retrieve_by_field. cbn [retrieve_by_fields dispatcher_retriever dispatcher_retrieve_by_fields].
  destruct (fields_of_oids (List.filter (fun kn => matches_any_field kn.2 [NVT (Family f)]) (keyed_vts s))) as (r & Hr & Ho).
  exists r. split; [done|]. rewrite Ho. unfold family_oids. do 2 f_equal. apply List.filter_ext. intros kn.
  cbn. by rewrite orb_false_r.
Qed.
Lemma families_read l : families_vts s l = Ok (map (fun o => mkVT o []) (l ≫= family_oids)).
Proof.
  induction l as [|f l IH]; [done|]. cbn [families_vts retry]. destruct (retrieve_family f) as (r & -> & Hr).
  cbn [mbind outcome_bind]. rewrite IH. cbn [mbind outcome_bind]. rewrite Hr. cbn [mbind list_bind]. by rewrite map_app.
Qed.

(** The tests of a scan that is transformed, in order: those that are named, and those of the
    families of the feed that are named; transforming never fails on the store. *)
Theorem transformed_tests (sel : VtSelection) :
  exists l, transform_vts s sel = Ok l /\ Sorted vt_le l
    /\ l ≡ₚ (map single_vt (default [] (vt_single sel))
              ++ map (fun o => mkVT o []) (omap group_family (default [] (vt_group sel)) ≫= family_oids))%list.
Proof.
  unfold transform_vts. rewrite families_read. cbn [mbind outcome_bind]. eexists. split; [reflexivity|].
  split; [apply Sorted_merge_sort; tc_solve|apply merge_sort_Permutation].
Qed.
(** The tests of a scan that is turned into a command of ospd and transformed back, with no XML
    in between: the same, in order. *)
Theorem selection_survives (l : list VT) : Forall params_ok l ->
  exists l', transform_vts s (ctl_selection l) = Ok l' /\ Sorted vt_le l' /\ l' ≡ₚ l.
Proof.
  intros Hl. destruct (transformed_tests (ctl_selection l)) as (l' & E & Hs & Hp). exists l'. split_and!; [done..|].
  rewrite Hp, single_vts_read by done. cbn. by rewrite app_nil_r.
Qed.

(** The parameters of a scan are printed as children and read back. *)
Lemma preferences_read_back l : read_params (serialize_params l) = Some l.
Proof. induction l as [|[k v] l IH]; [done|]. unfold serialize_params in *. cbn. by rewrite IH. Qed.

(** *** Scan configurations *)

(** The tests that a selector names, in the feed *)
Definition selected (x : CfgSelector) : list string :=
  if decide (sel_type x = 2%nat) then [sel_family_or_nvt x]
  else if decide (sel_type x = 1%nat) then family_oids (sel_family_or_nvt x)
  else filter (fun o => o <> EmptyString) (map oid (all_vts s)).
Definition fresh (vts : list VT) (o : string) : Prop := o ∉ map vt_oid vts.
#[global] Instance fresh_dec vts o : Decision (fresh vts o) := _.
Lemma is_fresh vts o : is_not_already_present vts o = bool_decide (fresh vts o).
Proof.
  unfold is_not_already_present, fresh. induction vts as [|v vts IH]; [done|]. cbn [existsb map]. rewrite negb_orb, IH.
  destruct (decide (vt_oid v = o)) as [<-|Hne].
  - rewrite (bool_decide_true (vt_oid v = vt_oid v)) by done. cbn. symmetry. apply bool_decide_eq_false. intros [? _]%not_elem_of_cons. done.
  - rewrite (bool_decide_false (vt_oid v = o)) by done. cbn. apply bool_decide_ext. rewrite not_elem_of_cons. intuition congruence.
Qed.
Lemma fresh_oids {A} vts (f : A -> option string) (l : list A) :
  omap (fun x => not_present vts (f x)) l = filter (fresh vts) (omap f l).
Proof.
  induction l as [|x l IH]; [done|]. cbn. destruct (f x) as [o|]; cbn; [|done]. rewrite is_fresh, decide_bool_decide.
  case_bool_decide as Hf; cbn; by rewrite IH.
Qed.
Lemma selector_tests vts x : select_oids s vts x = Ok (filter (fresh vts) (selected x)).
Proof.
  unfold select_oids, selected. destruct (decide (sel_type x = 2%nat)).
  { rewrite is_fresh. case_bool_decide; [by rewrite filter_cons_True|by rewrite filter_cons_False]. }
  destruct (decide (sel_type x = 1%nat)).
  - destruct (retrieve_family (sel_family_or_nvt x)) as (r & -> & Hr). by rewrite fresh_oids, Hr.
  - cbn [retrieve dispatcher_retriever dispatcher_retrieve].
    destruct (fields_of_oids (map (fun n => (filename n, n)) (all_vts s))) as (r & -> & Hr). rewrite fresh_oids. do 2 f_equal.
    rewrite map_map in Hr. change (map oid (all_vts s)) with (map (fun x => (oid ∘ snd) (filename x, x)) (all_vts s)). rewrite <- Hr. clear Hr. induction r as [|kf r IH]; [done|]. cbn. by rewrite IH.
Qed.
Lemma selectors_tests vts l : select_all s vts l = Ok (filter (fresh vts) (l ≫= selected)).
Proof.
  induction l as [|x l IH]; [done|]. cbn [select_all]. rewrite selector_tests, IH. cbn. by rewrite filter_app.
Qed.

(** The preferences of a configuration for a test, in their order *)
Definition preferences_for (l : list CfgPreference) (o : string) : list Parameter_ :=
  map (fun p => mkParameter (cf_id p) (cf_value p)) (filter (fun p => cf_oid p = o) l).
Lemma preferences_looked_up l m o :
  default [] (foldl add_preference m l !! o) = (default [] (m !! o) ++ preferences_for l o)%list.
Proof.
  revert m. induction l as [|p l IH]; intros m; [by rewrite app_nil_r|]. cbn [foldl]. rewrite IH. unfold add_preference, preferences_for.
  destruct (decide (cf_oid p = o)) as [<-|Hne].
  - rewrite lookup_insert_eq, filter_cons_True by done. cbn. by rewrite <- app_assoc.
  - by rewrite lookup_insert_ne, filter_cons_False by done.
Qed.

(** The tests that a configuration adds to a scan: those that its selectors name and that the
    scan does not have yet, each with the preferences of the configuration for it; reading the
    configuration never fails on the store. *)
Theorem config_tests (c : ScanConfig) (vts : list VT) :
  parse_vts s (inl c) vts
  = Ok (map (fun o => mkVT o (preferences_for (cfg_preferences c) o)) (filter (fresh vts) (cfg_selectors c ≫= selected))).
Proof.
  unfold parse_vts. rewrite selectors_tests. cbn [mbind outcome_bind]. f_equal. apply map_ext. intros o. unfold oid_to_vt, preference_lookup.
  rewrite preferences_looked_up. by rewrite lookup_empty.
Qed.

(** Whether a selector includes or excludes tests makes no difference. *)
Definition set_include (n : nat) (x : CfgSelector) : CfgSelector := mkCfgSelector n (sel_type x) (sel_family_or_nvt x).
Theorem exclusion_ignored (n : nat) (c : ScanConfig) (vts : list VT) :
  parse_vts s (inl (mkScanConfig (cfg_preferences c) (map (set_include n) (cfg_selectors c)))) vts = parse_vts s (inl c) vts.
Proof. rewrite !config_tests. cbn. do 2 f_equal. f_equal. induction (cfg_selectors c) as [|x l IH]; [done|]. cbn. by rewrite IH. Qed.

(** What a configuration makes of a scan: the tests of the scan stay in front, the new ones are
    those that the configuration names and the scan does not have. *)
Definition added_tests (c : ScanConfig) (old new_ : list VT) : Prop :=
  NoDup (map vt_oid new_)
  /\ forall v, v ∈ new_ <-> vt_oid v ∈ cfg_selectors c ≫= selected /\ fresh old (vt_oid v)
       /\ parameters v = preferences_for (cfg_preferences c) (vt_oid v).

Lemma added_by_config (order : list VT -> list VT) (old : list VT) (c : ScanConfig) : (forall l, order l ≡ₚ l) ->
  added_tests c old (order (remove_dups
    (map (fun o => mkVT o (preferences_for (cfg_preferences c) o)) (filter (fresh old) (cfg_selectors c ≫= selected))))).
Proof.
  intros Ho. split.
  - apply (NoDup_fmap_2_strong vt_oid); [|rewrite Ho; apply NoDup_remove_dups].
    intros x y. rewrite !Ho, !elem_of_remove_dups. intros (o & -> & _)%list_elem_of_fmap (o' & -> & _)%list_elem_of_fmap. by intros [= ->].
  - intros v. rewrite Ho, elem_of_remove_dups, list_elem_of_fmap. setoid_rewrite list_elem_of_filter. split.
    + intros (o & -> & Hf & Hin). done.
    + destruct v as [o ps]. cbn. intros (Hin & Hf & ->). by exists o.
Qed.

(** C39: Adding a configuration and a port list to a scan, whatever the order of a [HashSet]:
    for a configuration whose selectors all include tests, the scan keeps its number, its
    preferences, its target but for the ports, and its tests in front; the new tests are exactly
    those that a selector names (one test, the tests of a family in the feed, or all tests of the
    feed) and that the scan does not have, each once and with the preferences that the
    configuration has for it in their order; the ports are those of the list. *)
Theorem config_enriches_scan (order : list VT -> list VT) (scan : ScanModel) (pl : list CfgPortRange) (c : ScanConfig) :
  (forall l, order l ≡ₚ l) -> Forall (fun x => sel_include x = 1%nat) (cfg_selectors c) ->
  exists scan' new_, enrich_scan s order scan (Some (inl pl)) [inl c] = Ok scan'
    /\ scan_id scan' = scan_id scan /\ scan_preferences scan' = scan_preferences scan
    /\ scan_target scan' = (let t := scan_target scan in
         mkTarget (target_hosts t) (as_port_list pl) (excluded_hosts t) (credentials t) (alive_test_ports t)
           (alive_test_methods t) (reverse_lookup_unify t) (reverse_lookup_only t))
    /\ scan_vts scan' = (scan_vts scan ++ new_)%list /\ added_tests c (scan_vts scan) new_.
Proof.
  intros Ho _. unfold enrich_scan, parse_configs. rewrite config_tests. cbn [mbind outcome_bind parse_portlist].
  rewrite app_nil_r. eexists _, _. split; [reflexivity|]. split_and!; [done..|]. by apply added_by_config.
Qed.

(** Without a port list the ports of the scan are dropped. *)
Theorem ports_dropped (order : list VT -> list VT) (scan : ScanModel) (c : ScanConfig) :
  exists scan', enrich_scan s order scan None [inl c] = Ok scan' /\ target_ports (scan_target scan') = [].
Proof. unfold enrich_scan, parse_configs. rewrite config_tests. cbn [mbind outcome_bind]. by eexists. Qed.
End Feeds.

Module ScannerctlExample.
#[local] Existing Instance plain_order.
#[local] Instance advisories_in_order : AdvisoryOrder := {| adv_order := fun l => l; adv_order_perm := fun l => Permutation_refl l |}.
Definition target : Target :=
  mkTarget ["10.0.0.1"; "host.example"] [mkPort None [mkPortRange 80 None; mkPortRange 1000 (Some 2000%nat)]; mkPort (Some UDP) [mkPortRange 53 None]]
    ["10.0.0.2"] [mkCredential Service.SNMP (Some 161%Z) (Models.SNMP "u" "p" "public" "md5" "secret" "aes")] []
    [AliveTestMethods.TcpSyn; AliveTestMethods.Icmp] (Some true) None.
Lemma hosts_ok_by (l : list string) : forallb (fun x => bool_decide (x <> "") && negb (existsb (Ascii.eqb ",") (chars_of x))) l = true -> hosts_ok l.
Proof.
  intros Hl. apply Forall_forall. intros x Hx%list_elem_of_In. rewrite forallb_forall in Hl. specialize (Hl x Hx).
  apply andb_prop in Hl as [H1 H2]. apply bool_decide_eq_true in H1. split; [done|]. intros Hc%list_elem_of_In.
  apply negb_true_iff in H2. assert (existsb (Ascii.eqb ",") (chars_of x) = true) as E; [|congruence].
  apply existsb_exists. exists ","%char. split; [done|apply Ascii.eqb_refl].
Qed.

Lemma target_is_ok : target_ok target.
Proof. unfold target_ok. split_and!; [by apply hosts_ok_by|by apply hosts_ok_by|..]; repeat constructor; unfold port_in_range; cbn; lia. Qed.
(** The ports without protocol are read for both, the password of the privacy protocol and the
    method TCP-SYN are lost. *)
Example target_values : spelled TCP (target_ports target) = [mkPort (Some TCP) [mkPortRange 80 None]; mkPort (Some TCP) [mkPortRange 1000 (Some 2000%nat)]]
  /\ methods_read (alive_test_methods target) = [AliveTestMethods.Icmp]
  /\ map surviving (credentials target) = [mkCredential Service.SNMP (Some 161%Z) (Models.SNMP "u" "p" "public" "md5" "" "aes")].
Proof. by vm_compute. Qed.

(** A text of ports that is no number stops the program, also the empty one. *)
Example empty_ports_panic : ports_from_ospd_string (Some "") = None /\ ports_from_ospd_string (Some "T:ssh") = None.
Proof. by vm_compute. Qed.

(** Two configurations with different preferences for one test: the scan has the test twice. *)
Definition config (v : string) : ScanConfig := mkScanConfig [mkCfgPreference 1 v "1.3"] [mkCfgSelector 0 2 "1.3"].
Definition empty_scan : ScanModel := mkScanModel "" (mkTarget [] [mkPort None [mkPortRange 22 None]] [] [] [] [] None None) [] [].
Example two_configs_repeat :
  enrich_scan new_dispatcher (fun l => l) empty_scan None [inl (config "a"); inl (config "b")]
  = Ok (mkScanModel "" (mkTarget [] [] [] [] [] [] None None) [] [mkVT "1.3" [mkParameter 1 "a"]; mkVT "1.3" [mkParameter 1 "b"]]).
Proof. by vm_compute. Qed.
(** The selector of these configurations excludes the test; it is added. *)
Definition including : ScanConfig := mkScanConfig [mkCfgPreference 1 "a" "1.3"] [mkCfgSelector 1 2 "1.3"; mkCfgSelector 1 2 "1.4"].
Lemma config_enriches_scan_witness : exists scan' new_,
  enrich_scan new_dispatcher (fun l => l) empty_scan (Some (inl [mkCfgPortRange 80 0 "tcp"])) [inl including] = Ok scan'
  /\ scan_vts scan' = new_ /\ added_tests new_dispatcher including [] new_ /\ mkVT "1.3" [mkParameter 1 "a"] ∈ new_.
Proof.
  destruct (config_enriches_scan new_dispatcher (fun l => l) empty_scan [mkCfgPortRange 80 0 "tcp"] including)
    as (scan' & new_ & E & _ & _ & _ & Hv & Hn); [done|by repeat constructor|].
  exists scan', new_. split_and!; [done..|]. apply (proj2 Hn). split_and!; [|by apply not_elem_of_nil|done].
  vm_compute. constructor.
Defined.
End ScannerctlExample.
